(* ===== verification/_CoqProject ===== *)
-Q . S2P
Prelude.v
RustStr.v
SipUri.v
SipMessage.v
SipTimers.v
SipFsm.v
LruTable.v
SipTxManager.v
SipFsmSpec.v
SipTxTheory.v
SipTxProps.v
SipDialog.v
SipDialogProps.v
DigestReplay.v
DigestLimiter.v
DigestCodec.v
DigestRoundtrip.v
Digest.v
DigestProps.v
Domain.v
MediaNode.v
DeviceData.v
DomainData.v
Compatibility.v
Operation.v
Lifecycle.v
OperationProps.v
MediaSession.v
MediaBinding.v
Device.v
DeviceProps.v
ProtocolSession.v
PlatformLink.v
LinkProps.v
SipParser.v
SipParserProps.v
SipTcp.v
Sdp.v
SdpProps.v
SipEndpoint.v
GbXml.v
GbMessages.v
GbXmlProps.v
GbPolicy.v
GbAccess.v
GbCascade.v
GbCascadeProps.v
GbCascadeClaims.v
GbCascadeManager.v
GbAccessProps.v
GbAccessClaims.v
Runtime.v
TimerWheel.v
Admission.v
AdmissionPolicy.v
Shard.v
Paging.v
Cluster.v
Ownership.v
NodeLease.v
OwnerCache.v
AssignLimiter.v
Assignment.v
UnitOfWork.v
GbSession.v
Messages.v
OperationService.v
OperationHistory.v
OperationSessions.v
Reconcile.v
ReconcileProps.v
OutboxRelay.v
Inbox.v
MediaRegistry.v
MediaScheduler.v
MediaSchedulerProps.v
SessionClaims.v
ServiceClaims.v
DispatchClaims.v
SessionSamples.v
