(* ===== verification/Prelude.v ===== *)
(** * Cheetah Signaling: a verification library of the control plane

    Cheetah Signaling ([src/]) is the signalling server of a video platform: it
    speaks SIP with GB28181 cameras and platforms, keeps the business state in
    domain aggregates, and runs one actor per device.  This library models the
    deterministic core of that program, the Rust crates below, as Rocq functions
    and proves what makes each part correct.

    ** The program and the files

    SIP ([src/crates/protocols/cheetah-gb28181-core/src/sip]), from the wire up:
    - [RustStr]: the [str] operations the code uses, on UTF-8 byte strings;
    - [SipUri]: [error.rs], [uri.rs] (the URI codec);
    - [SipMessage]: [message.rs], [headers.rs], [routing.rs] (methods, header
      names, the indexed header table, messages and their accessors);
    - [SipParser]: [parser.rs], [encoder.rs] (incremental stream parser and
      datagram parser, encoder); [SipParserProps]: the lemmas on them;
    - [SipTcp]: the read and drain loops of a TCP connection
      ([cheetah-gb28181-driver-tokio/src/tcp.rs]);
    - [SipTimers], [SipFsm]: [transaction/timers.rs], [client.rs], [server.rs],
      [state_machine.rs], a transaction as a state machine with timers (modules
      [Client] and [Server], the interface is the class [Fsm] with [FsmLaws]);
    - [LruTable], [SipTxManager]: [transaction/key.rs], [manager.rs], the bounded
      tables of transactions that drive the machines;
    - [SipDialog]: [dialog.rs], [dialog_manager.rs];
    - [Sdp], [SdpProps]: [cheetah-gb28181-core/src/sdp], the parser and encoder of
      session descriptions and the theorems on them;
    - [SipEndpoint]: [endpoint.rs], the routes of devices, on the socket
      addresses of [std::net] and their parser.
    - [SipFsmSpec] (the RFC 3261 charts and the refinement), [SipTxTheory] and
      [SipTxProps] (the manager), [SipDialogProps]: theorems.

    Digest authentication ([sip/digest]): [DigestReplay] (replay cache),
    [DigestLimiter] (rate limiter), [DigestCodec] (header values), [Digest]
    (nonces, server, client); theorems in [DigestReplay], [DigestLimiter],
    [DigestRoundtrip] and [DigestProps].

    GB28181 access ([src/crates/protocols/cheetah-gb28181-module/src]): [GbXml]
    (errors, identifiers, configuration, content types; element tree, reader,
    writer), [GbMessages] (what devices report and what they are sent, PTZ
    bytes), [GbAccess] (registration table, access machine, commands to devices);
    theorems in [GbXmlProps], [GbAccessProps]
    (the effects of a call, routes) and [GbAccessClaims] (the contract, a sample).

    [GbSession]: [session.rs] and [ingress.rs] of the same crate over the PostgreSQL
    repository of protocol sessions, registrations that many nodes read and write at
    once, and the check of tenant, network and identity in front of them.

    GB28181 cascade ([cascade/] and [endpoint_policy.rs] of the same crate):
    [GbPolicy] (address ranges, the policy for endpoints), [GbCascade] (the machine of
    one upstream link: registration, keepalive, catalog answers, reports,
    subscriptions, play bridges), [GbCascadeManager] (many links, access lists, loops
    and control); theorems in [GbCascadeProps] (the effects of the parts on one
    another), [GbCascadeClaims] (runs, a sample) and [GbCascadeManager].

    Domain ([src/crates/domain/cheetah-domain/src]): [Domain] (errors, ports,
    commands), [MediaNode] and [DeviceData] (values of media nodes, devices and
    channels), [DomainData] (states and events), [Operation] (modules [Attempt],
    [Step], [Op]), [MediaSession] (module [Session]), [MediaBinding] (module
    [Binding]), [Device] (modules [Device] and [Channel]), [ProtocolSession]
    (module [Session]: a device that is registered over a protocol),
    [PlatformLink] (module [Link]: a link to another GB28181 platform, with the
    loop detection of cascades), [Compatibility] (profiles of devices, with the
    resolver of [cheetah-gb28181-module/src/profile.rs]); [Lifecycle] is the
    interface of the aggregates, [OperationProps], [DeviceProps] and [LinkProps]
    have theorems.

    Runtime ([src/crates/runtime], with the admission primitives of
    [cheetah-signal-types]): [Runtime] (messages, routing, counters), [TimerWheel]
    (the timer wheel task), [Admission] (token bucket, keyed limiter, coalescer,
    dead letters, backlog), [AdmissionPolicy] (the policy and the controller in
    front of the mailboxes, the configuration and the session registry),
    [Shard] (the worker that runs the actors of its devices).

    Cluster ([src/crates/cluster], on the PostgreSQL repositories of
    [src/crates/storage]): [Paging] (keyset pages), [Cluster] (the tables of
    owners, nodes and devices and every statement on them), [Ownership] (owner
    leases and their epochs), [NodeLease] (registration of a node), [OwnerCache]
    (the caching resolver), [AssignLimiter] (sliding windows with permits),
    [Assignment] (rendezvous assignment, migration, draining).

    Application services ([src/crates/application]): [UnitOfWork] (errors, events,
    transactions, the repositories of operations, outbox and processed messages),
    [OperationService] (operation service and command dispatcher), [Reconcile]
    (operation reconciler, takeover, owner reconciler), [OutboxRelay],
    [Messages] (envelopes and contexts of messages,
    [cheetah-message-api]), [Inbox] (deliveries of commands and the record of
    processed messages).  The theorems are proved in a rely-guarantee logic of sessions ([OperationHistory]:
    the invariant of the tables; [OperationSessions]: the triples [spec] of every
    service; [ReconcileProps]) and stated in [SessionClaims], [ServiceClaims] and
    [DispatchClaims]; [SessionSamples] has a two-node world with the witnesses.

    Media ([src/crates/media]): [MediaRegistry] (the in-memory registry of media
    nodes with leases and reservations), [MediaScheduler] (eligibility, scores,
    affinity, reservation and release, the media port of the domain),
    [MediaSchedulerProps].

    How they interact: a connection ([SipTcp]) feeds the parser and hands messages
    to the transaction manager, whose tables hold the machines of [SipFsm]; requests
    that are delivered reach dialogs and the digest server; commands become
    operations with dispatch attempts, stored with their events by the services and
    sent to the node that owns the device; on that node admission and shard bring
    messages to the actor of the device, and its timers come back through the wheel.

    ** What the theorems show

    - Transactions: on every sequence of events the machines go through their
      charts without panic ([client_implements_chart], [server_implements_chart]);
      the chart of the client is Figures 5 and 6 of RFC 3261 with the arcs that the
      program adds, named in [Chart.extra_arc], and where none of these is taken it
      is the figures; with a positive limit the manager keeps its tables bounded,
      keyed and guarded by a timer, server transactions that wait for their user
      excepted ([run_invariant]); every overdue transaction ends
      ([tick_ends_overdue]); requests are delivered once, retransmissions are
      absorbed, responses are matched; hash-map order is not observable.
    - Framing: without header normalization the parser reads back what the encoder
      writes, for datagrams ([datagram_roundtrip]) and for any cut of a stream
      ([tcp_delivery]); with it neither holds
      ([normalization_refuses_datagram], [normalization_depends_on_cut]); the
      loops end on every input ([connection_terminates]).  A session description
      in normal form is read back ([sdp_roundtrip]) and what is accepted is bounded.
    - Dialogs: CSeq discipline, matching, the table invariant.
    - Digest: acceptance is exactly the rule of RFC 2617 with a fresh signed nonce
      and an unused count ([acceptance_sound]); no replay while the cache has room
      for the nonces in use ([accepted_not_replayed], [replay_after_eviction]);
      agreement of client and server, round trips of the headers; the limiter
      refines one window per source while no source is evicted.
    - Access: every request is answered once; only an authenticated REGISTER
      routes a device, messages move nothing and report the registered address; the
      events tell the table; a tick ends what is overdue; catalogs without markup
      characters in their texts and PTZ commands are read back.
    - Sessions in the database: while nobody unregisters, the rows have one line of
      versions under every interleaving, with failed statements and lost answers
      ([sessions_linear]), what an operation confirmed stays ([answers_durable]);
      requests that may not act for a tenant leave its rows alone ([tenant_isolated]);
      the expiry reaper ends and marks what is due ([reaper_sweeps]).
    - Cascade: the registration of a link follows its chart and the connection
      events tell it ([cascade_registration_told]), the play events tell the bridges
      ([cascade_plays_told]), an upstream that never answers is given up after the
      configured retries ([silent_upstream_given_up]), reports are bounded and a flush
      sends all of them ([cascade_reports_delivered]), a catalog goes only to the
      upstream and within its bounds ([catalog_disclosed]); a link of the manager
      behaves as if it were alone ([links_isolated]), control has one owner
      ([control_exclusive]), a bridge obeys the loop rule
      ([bridge_enforces_loop_rule]); an address that passes a public policy is not
      internal ([public_policy_sound]).
    - Aggregates: the events of an operation, a media session or a media binding
      tell its whole history, which is a path of its chart; every change of a
      device or platform link is one revision, a retired device is frozen, a
      session belongs to one registration, the owner epochs of a link grow; data
      invariants; a cascade path is bounded and has no loop.
    - Profiles: the resolver returns the most specific match or an ambiguity.
    - Timers: the wheel implements a queue in deadline order; its backlog is
      bounded.
    - Runtime: a bucket keeps its rate in every window, the admission state its
      bounds, every dead letter is accounted for ([admission_state_bounded]), exactly low-priority work is shed under overload, and a shard hands
      every device its messages in order and without loss, and ends.
    - Cluster: the epoch of a device fences its owners, a new instance fences the
      old one, cached owners are fresh, assignments are rate limited, placement is
      a stable rendezvous, pages are complete, draining ends.
    - Services: under failures and interleaved sessions the outbox tells exactly
      the history of every stored operation ([outbox_tells_history]); submission
      is idempotent, a command is sent at most once, the reconciler times out
      overdue operations only, counts them and misses none, a takeover fails exactly
      the operations of earlier epochs; the
      inbox handles every message at most once; the relay settles its batch.
    - Media: a reservation is all or nothing and on one node, the best eligible
      node is chosen, a release gives back what was reserved.
    - Where the code does not do what it means to, a theorem says what it does
      ([fail_oversized_poisons], [dispatch_crash_not_resent],
      [release_reuses_epoch], [migrate_off_draining],
      [ack_misses_invite_transaction], [reliable_client_retransmits],
      [client_qop_fallback_rejected], [start_line_limit_cut],
      [overdue_bridge_stops_ticks], [stop_loses_bridge], [multicast_accepted],
      [unregistered_session_returns], [revived_session_loses_fence],
      [normalization_depends_on_cut], [normalization_refuses_datagram],
      [timer_b_ends_ringing_call], [zero_limit_unbounded], [entity_text_lost],
      [submit_ignores_target], [second_reservation_leaks],
      [refusal_moves_affinity], [replay_after_eviction]).

    ** Modelling decisions

    - Integers are [Z] with the operation of the source written out ([wrap32],
      [wrap64] for the arithmetic of a release build, [saturating_*], checked
      conversions).  A [Duration] or [Instant] is its number of nanoseconds; the
      operators of [Duration] that panic on overflow return [outcome].
    - A [&str] or byte slice is the string of its bytes.
    - Fallible code returns [result]; the [&mut self] methods of the aggregates are
      computations of the monad [dm], which keeps the aggregate on the error path.
    - The iteration order of a [HashMap] is an argument ([hash_order], any
      permutation of the entries).
    - Code outside the repository is a class with the laws its documentation
      states: [Crypto] and [CryptoLaws] (hashes, HMAC, hexadecimal), [Mailboxes]
      (tokio channels), [StableHash] (the fnv crate), [Semver], [DbMessages] (the
      texts of database errors), [Clock], [MonotonicClock], [SystemTime],
      [IdGenerator], [NodeIds], [EventIds], [SessionIds], [UuidDisplay], [DateRange]; traits of
      the program that a component is given are classes too ([DeviceActor],
      [MailboxDepths], [DeviceProtocolLookup], [CommandBus],
      [DeviceOwnerResolver], [EventPublisher], [RawCommandBus], [RawEventBus],
      [CommandHandler], [MediaNodeRegistry], [MediaClient]); [MessageJson] and
      [ResultJson] (serde), [PairHash] (the hasher of the affinity shards) and
      [UuidV5] are values of libraries, as are [QuickXml] (the events of a document),
      [EncodingRs], [Rfc3339] and [ShowF64]; [CredentialProvider] and [CascadeCredentials] have the
      passwords, [CatalogProvider] the shared catalog, [JitterHash] the hash of the jitter; the witnesses have instances.
    - The database is a record of tables; a statement is a function on it that can
      be rejected.  A unit of work is the committed tables and an open transaction;
      what other sessions commit while none is open is the class [Others], any
      function that keeps the invariant ([OthersRely], [OutboxRely], [InboxRely];
      [RegistryOthers] for the callers of a media registry).  PostgreSQL's repositories
      are the ones modelled; the SQLite ones have the same statements.
    - Two simplifications of transactions: they are serial, nothing is committed by
      others between the first statement of a transaction and its end ([uow_tx]),
      where PostgreSQL's default, READ COMMITTED, lets later statements of the same
      transaction see newer commits (the rows that are written are still protected
      by the checks of their revisions, and the acquired owner row by its lock); and
      a commit of an open transaction succeeds ([commit_domain]), while every
      statement before it may fail.  [GbSession], which has no transactions, has
      both: other nodes act between any two statements, statements fail and answers
      are lost.
    - An IP address of the limiter is a value of any countable type; an [f64] is a
      [spec_float].
    - Fuel: [show_uint] has 20 digits, enough for 64 bits; the loops of the parser
      get the length of the buffer, each round reads at least two bytes;
      [drain_messages] gets two more than the length of the buffer, each message
      uses up a byte ([connection_terminates] proves it enough); [clamp_loop] gets
      the length of the string.  The loops over pages and queues ([collect_pages],
      [collect_expired], [drain_pages], [reconcile_loop], [recover_pages], [drain]) return [None] when
      their fuel is out, and their theorems prove that a bound in the number of
      rows or messages is enough.

    ** What is not modelled

    I/O (sockets, HTTP, gRPC, connections to the database, message bus), generated
    contracts, serde attributes, logging and redacted [Debug] output; the in-memory repositories, which are test
    fixtures; ONVIF, the webhooks, the services of devices and media sessions above the
    modelled aggregates, the validation of configuration files, plugins, APIs and the
    assembly of the processes, which were not reached. *)

From stdpp Require Export base tactics decidable countable list gmap strings option numbers sorting.
From Stdlib Require Export ZArith Lia.

#[export] Set Default Goal Selector "!".
Open Scope Z_scope.

(** ** Machine integers

    Unsigned machine integers are integers in [Z] together with the operation
    that the source uses on them: the wrapping [+=] of a release build, the
    [saturating_*] methods, the checked conversions. *)

Definition U8_MAX : Z := 2 ^ 8 - 1.
Definition U16_MAX : Z := 2 ^ 16 - 1.
Definition U32_MAX : Z := 2 ^ 32 - 1.
Definition U64_MAX : Z := 2 ^ 64 - 1.

Definition wrap32 (n : Z) : Z := n mod 2 ^ 32.
Definition wrap64 (n : Z) : Z := n mod 2 ^ 64.

Definition sat_add64 (a b : Z) : Z := Z.min U64_MAX (a + b).
Definition sat_mul64 (a b : Z) : Z := Z.min U64_MAX (a * b).
Definition sat_add32 (a b : Z) : Z := Z.min U32_MAX (a + b).
(** [saturating_sub] on any unsigned type, and on [Duration]. *)
Definition sat_sub (a b : Z) : Z := Z.max 0 (a - b).

(** Signed 64-bit integers: [saturating_sub], and the casts [as i64] and [as u64]. *)
Definition I64_MAX : Z := 2 ^ 63 - 1.
Definition I64_MIN : Z := - 2 ^ 63.
Definition sat_sub_i64 (a b : Z) : Z := Z.max I64_MIN (Z.min I64_MAX (a - b)).
Definition as_i64 (n : Z) : Z := if n <=? I64_MAX then n else n - 2 ^ 64.
Definition as_u64 (n : Z) : Z := wrap64 n.

Definition is_i64 (n : Z) : Prop := I64_MIN <= n <= I64_MAX.
Definition is_u16 (n : Z) : Prop := 0 <= n <= U16_MAX.
Definition is_u32 (n : Z) : Prop := 0 <= n <= U32_MAX.
Definition is_u64 (n : Z) : Prop := 0 <= n <= U64_MAX.

Lemma as_u64_id n : 0 <= n <= I64_MAX -> as_u64 n = n.
Proof. unfold as_u64, wrap64, I64_MAX. intros. apply Z.mod_small. lia. Qed.
Lemma as_i64_id n : n <= I64_MAX -> as_i64 n = n.
Proof. unfold as_i64. intros. by rewrite (proj2 (Z.leb_le _ _)). Qed.

Lemma wrap32_u32 n : is_u32 (wrap32 n).
Proof. unfold is_u32, wrap32, U32_MAX. pose proof (Z.mod_pos_bound n (2 ^ 32)). lia. Qed.

Lemma wrap32_id n : is_u32 n -> wrap32 n = n.
Proof. unfold is_u32, wrap32, U32_MAX. intros. apply Z.mod_small. lia. Qed.

Lemma wrap64_id n : is_u64 n -> wrap64 n = n.
Proof. unfold is_u64, wrap64, U64_MAX. intros. apply Z.mod_small. lia. Qed.

Lemma wrap64_u64 n : is_u64 (wrap64 n).
Proof. unfold is_u64, wrap64, U64_MAX. pose proof (Z.mod_pos_bound n (2 ^ 64)). lia. Qed.

(** ** Outcomes

    A call either returns or panics ([unreachable!], overflow of the [Add] and
    [Mul] operators of [Duration]).  [wp] is the total-correctness reading: the
    call returns, and its value satisfies the postcondition. *)

Inductive outcome (A : Type) : Type :=
| Done (a : A)
| Panic.
Arguments Done {A} a.
Arguments Panic {A}.

#[global] Instance outcome_ret : MRet outcome := fun A a => Done a.
#[global] Instance outcome_bind : MBind outcome := fun A B f m =>
  match m with Done a => f a | Panic => Panic end.
#[global] Instance outcome_fmap : FMap outcome := fun A B f m =>
  match m with Done a => Done (f a) | Panic => Panic end.

Definition wp {A} (m : outcome A) (Q : A -> Prop) : Prop :=
  match m with Done a => Q a | Panic => False end.

Lemma wp_ret {A} (a : A) (Q : A -> Prop) : Q a -> wp (Done a) Q.
Proof. exact id. Qed.

Lemma wp_bind {A B} (m : outcome A) (f : A -> outcome B) (Q : B -> Prop) :
  wp m (fun a => wp (f a) Q) -> wp (m ≫= f) Q.
Proof. by destruct m. Qed.

Lemma wp_fmap {A B} (m : outcome A) (f : A -> B) (Q : B -> Prop) :
  wp m (fun a => Q (f a)) -> wp (f <$> m) Q.
Proof. by destruct m. Qed.

Lemma wp_mono {A} (m : outcome A) (P Q : A -> Prop) :
  wp m P -> (forall a, P a -> Q a) -> wp m Q.
Proof. destruct m; simpl; auto. Qed.

Lemma wp_and {A} (m : outcome A) (P Q : A -> Prop) :
  wp m P -> wp m Q -> wp m (fun a => P a /\ Q a).
Proof. destruct m; simpl; auto. Qed.

Lemma wp_elim {A} (m : outcome A) (Q : A -> Prop) :
  wp m Q -> exists a, m = Done a /\ Q a.
Proof. destruct m; simpl; [eauto | done]. Qed.

Lemma bind_Done {A B} (m : outcome A) (f : A -> outcome B) b :
  m ≫= f = Done b -> exists a, m = Done a /\ f a = Done b.
Proof. destruct m; simpl; [eauto | done]. Qed.

Lemma fmap_Done {A B} (m : outcome A) (f : A -> B) b :
  f <$> m = Done b -> exists a, m = Done a /\ b = f a.
Proof. destruct m; simpl; [intros [=]; eauto | done]. Qed.

(** ** Results *)

Inductive result (A E : Type) : Type :=
| Ok (a : A)
| Err (e : E).
Arguments Ok {A E} a.
Arguments Err {A E} e.

#[global] Instance result_ret {E} : MRet (fun A => result A E) := fun A a => Ok a.
#[global] Instance result_bind {E} : MBind (fun A => result A E) := fun A B f m =>
  match m with Ok a => f a | Err e => Err e end.

Definition is_ok {A E} (r : result A E) : bool :=
  match r with Ok _ => true | Err _ => false end.
Definition ok {A E} (r : result A E) : option A :=
  match r with Ok a => Some a | Err _ => None end.
Definition ok_or {A E} (o : option A) (e : E) : result A E :=
  match o with Some a => Ok a | None => Err e end.
Definition map_err {A E F} (f : E -> F) (r : result A E) : result A F :=
  match r with Ok a => Ok a | Err e => Err (f e) end.

(** The [?] operator of the source: stop with the error, or go on. *)
Notation "'let?' x := m 'in' k" :=
  (match m with Ok x => k | Err e => Err e end)
  (at level 10, x pattern, m at level 100, k at level 200).
Notation "'letopt' x := m 'in' k" :=
  (match m with Some x => k | None => None end)
  (at level 10, x pattern, m at level 100, k at level 200).

(** Go through the checks of a computation that succeeded. *)
Ltac inv_ok H :=
  repeat match type of H with
  | match ?m with Ok _ => _ | Err _ => _ end = Ok _ =>
      let Hr := fresh "Hr" in destruct m eqn:Hr; [|discriminate H]
  | (if ?b then Err _ else _) = Ok _ => let Hb := fresh "Hb" in destruct b eqn:Hb; [discriminate H|]
  end.

(** ** Durations

    [std::time::Duration] as its number of nanoseconds. *)

Definition NANOS_PER_SEC : Z := 1000000000.
Definition NANOS_PER_MILLI : Z := 1000000.
Definition DURATION_MAX : Z := U64_MAX * NANOS_PER_SEC + (NANOS_PER_SEC - 1).

Definition from_secs (s : Z) : Z := s * NANOS_PER_SEC.
Definition from_millis (ms : Z) : Z := ms * NANOS_PER_MILLI.
Definition as_millis (d : Z) : Z := d / NANOS_PER_MILLI.

Definition is_duration (d : Z) : Prop := 0 <= d <= DURATION_MAX.

(** [impl Add for Duration] panics on overflow, as does [Mul<u32>]. *)
Definition dur_add (a b : Z) : outcome Z :=
  if a + b <=? DURATION_MAX then Done (a + b) else Panic.
Definition dur_mul (d k : Z) : outcome Z :=
  if d * k <=? DURATION_MAX then Done (d * k) else Panic.

Lemma wp_dur_add a b (Q : Z -> Prop) :
  a + b <= DURATION_MAX -> Q (a + b) -> wp (dur_add a b) Q.
Proof. intros ??. unfold dur_add. destruct (Z.leb_spec (a + b) DURATION_MAX); [done | lia]. Qed.

Lemma wp_dur_mul a b (Q : Z -> Prop) :
  a * b <= DURATION_MAX -> Q (a * b) -> wp (dur_mul a b) Q.
Proof. intros ??. unfold dur_mul. destruct (Z.leb_spec (a * b) DURATION_MAX); [done | lia]. Qed.

Lemma dur_add_Done a b d : dur_add a b = Done d -> d = a + b /\ d <= DURATION_MAX.
Proof. unfold dur_add. case_match; [intros [=]; lia | done]. Qed.

Lemma dur_mul_Done a b d : dur_mul a b = Done d -> d = a * b /\ d <= DURATION_MAX.
Proof. unfold dur_mul. case_match; [intros [=]; lia | done]. Qed.

(** ** Hash-map iteration order

    The iteration order of a [HashMap] is unspecified: an operation that walks
    one takes the order as an argument, any permutation of its bindings. *)

Record hash_order (K V : Type) `{Countable K} := HashOrder {
  ho_iter : gmap K V -> list (K * V);
  ho_perm : forall m, ho_iter m ≡ₚ map_to_list m
}.
Arguments HashOrder {K V _ _} _ _.
Arguments ho_iter {K V _ _} _ _.
Arguments ho_perm {K V _ _} _ _.

Definition canonical_order {K V} `{Countable K} : hash_order K V :=
  HashOrder map_to_list (fun m => Permutation_refl _).

Section hash_order.
Context {K V : Type} `{Countable K}.
Implicit Types (m : gmap K V) (o : hash_order K V).

Lemma elem_of_ho_iter o m k v : (k, v) ∈ ho_iter o m <-> m !! k = Some v.
Proof. rewrite (ho_perm o m). apply elem_of_map_to_list. Qed.

Lemma NoDup_ho_iter_keys o m : NoDup (ho_iter o m).*1.
Proof. rewrite (ho_perm o m). apply NoDup_fst_map_to_list. Qed.

Lemma ho_iter_nil o m : ho_iter o m = [] <-> m = ∅.
Proof.
  split.
  - intros Hnil. pose proof (ho_perm o m) as Hp. rewrite Hnil in Hp.
    apply Permutation_nil_l in Hp. symmetry in Hp. by apply map_to_list_empty_iff in Hp.
  - intros ->. pose proof (ho_perm o ∅) as Hp. rewrite map_to_list_empty in Hp.
    by apply Permutation_nil_r in Hp.
Qed.
End hash_order.

(** ** Lists *)

Lemma filter_none {A} (P : A -> Prop) `{forall x, Decision (P x)} (l : list A) :
  (forall x, x ∈ l -> ~ P x) -> filter P l = [].
Proof.
  induction l as [|x l IH]; intros Hl; [done|].
  rewrite filter_cons_False by (apply Hl, elem_of_cons; by left).
  apply IH. intros y Hy. apply Hl, elem_of_cons. by right.
Qed.

Lemma filter_Forall {A} (P : A -> Prop) `{forall x, Decision (P x)} (l : list A) :
  Forall P l -> filter P l = l.
Proof.
  induction l as [|x l IH]; intros Hf; [done|]. apply Forall_cons in Hf as [Hx Hf].
  rewrite filter_cons_True by done. by rewrite IH.
Qed.

Lemma filter_Forall_not {A} (P : A -> Prop) `{forall x, Decision (P x)} (l : list A) :
  Forall (fun x => ~ P x) l -> filter P l = [].
Proof. rewrite Forall_forall. apply filter_none. Qed.

Lemma filter_all {A} (P : A -> Prop) `{forall x, Decision (P x)} (l : list A) :
  (forall x, P x) -> filter P l = l.
Proof.
  intros HP. induction l as [|x l IH]; [done|]. by rewrite filter_cons_True, IH.
Qed.

Lemma filter_ext_in {A} (P Q : A -> Prop) `{forall x, Decision (P x), forall x, Decision (Q x)}
    (l : list A) :
  (forall x, x ∈ l -> P x <-> Q x) -> filter P l = filter Q l.
Proof.
  induction l as [|x l IH]; intros Hl; [done|]. rewrite !filter_cons.
  pose proof (Hl x ltac:(apply elem_of_cons; by left)) as Hx.
  rewrite IH by (intros y Hy; apply Hl, elem_of_cons; by right).
  repeat case_decide; naive_solver.
Qed.

(** ** Automation *)

Create HintDb cheetah discriminated.
#[export] Hint Resolve wrap32_u32 wrap64_u64 wp_ret : cheetah.

(** Case analysis on every [match] and [if] of the goal, with the impossible
    branches closed. *)
Ltac case_all :=
  repeat (case_match; simplify_eq/=; try done).

(** Take apart an equation between outcomes. *)
Ltac inv_done :=
  repeat match goal with
  | H : mbind _ _ = Done _ |- _ => apply bind_Done in H as (? & ? & H)
  | H : fmap _ _ = Done _ |- _ => apply fmap_Done in H as (? & ? & H)
  | H : dur_add _ _ = Done _ |- _ => apply dur_add_Done in H as [? ?]
  | H : dur_mul _ _ = Done _ |- _ => apply dur_mul_Done in H as [? ?]
  | H : Done _ = Done _ |- _ => injection H as H; try subst
  | H : Panic = Done _ |- _ => discriminate H
  | H : mret _ = Done _ |- _ => injection H as H; try subst
  end.

(** Boolean tests of the source as propositions. *)
Ltac bool_prop :=
  repeat match goal with
  | H : andb _ _ = true |- _ => apply andb_true_iff in H as [? ?]
  | H : orb _ _ = false |- _ => apply orb_false_iff in H as [? ?]
  | H : negb _ = true |- _ => apply negb_true_iff in H
  | H : negb _ = false |- _ => apply negb_false_iff in H
  | H : (_ <=? _) = true |- _ => apply Z.leb_le in H
  | H : (_ <=? _) = false |- _ => apply Z.leb_gt in H
  | H : (_ <? _) = true |- _ => apply Z.ltb_lt in H
  | H : (_ <? _) = false |- _ => apply Z.ltb_ge in H
  | H : (_ =? _) = true |- _ => apply Z.eqb_eq in H
  | H : (_ =? _) = false |- _ => apply Z.eqb_neq in H
  | H : bool_decide _ = true |- _ => apply bool_decide_eq_true in H
  | H : bool_decide _ = false |- _ => apply bool_decide_eq_false in H
  end.
