(* ===== verification/RustStr.v ===== *)
(** * Rust strings

    A [&str] is the list of its UTF-8 bytes, a [String.string].  This file has
    the operations of [str] that the SIP and digest code calls, with the results
    they have on UTF-8 input, and the lemmas that the round-trip theorems need.
    White space is Unicode white space ([char::is_whitespace]); every encoding
    of a white-space character is matched byte by byte, which is exact because
    its lead bytes never occur inside another character. *)

From Stdlib Require Export Ascii.
From S2P Require Import Prelude.

Open Scope string_scope.
Open Scope list_scope.
Open Scope Z_scope.
#[global] Arguments String.append !_ _ / : simpl nomatch.
#[global] Arguments Ascii.eqb : simpl never.

Definition byte (a : ascii) : Z := Z.of_N (N_of_ascii a).

(** ** Bytes *)

Definition DQUOTE : ascii := "034"%char.
Definition CR : ascii := "013"%char.
Definition LF : ascii := "010"%char.

Definition is_ascii_uppercase (a : ascii) : bool := (65 <=? byte a) && (byte a <=? 90).
Definition is_ascii_lowercase (a : ascii) : bool := (97 <=? byte a) && (byte a <=? 122).
Definition is_ascii_digit (a : ascii) : bool := (48 <=? byte a) && (byte a <=? 57).

Definition to_ascii_lowercase (a : ascii) : ascii :=
  if is_ascii_uppercase a then ascii_of_N (Z.to_N (byte a + 32)) else a.

Fixpoint str_lower (s : string) : string :=
  match s with
  | EmptyString => EmptyString
  | String a s => String (to_ascii_lowercase a) (str_lower s)
  end.

Definition to_ascii_uppercase (a : ascii) : ascii :=
  if is_ascii_lowercase a then ascii_of_N (Z.to_N (byte a - 32)) else a.

Fixpoint str_upper (s : string) : string :=
  match s with
  | EmptyString => EmptyString
  | String a s => String (to_ascii_uppercase a) (str_upper s)
  end.

(** [str::eq_ignore_ascii_case]. *)
Definition eq_ignore_ascii_case (s t : string) : bool :=
  String.eqb (str_lower s) (str_lower t).

(** [s.bytes().all(p)]; on an ASCII predicate also [s.chars().all(p)]. *)
Fixpoint str_all (p : ascii -> bool) (s : string) : bool :=
  match s with
  | EmptyString => true
  | String a s => p a && str_all p s
  end.

Definition str_len (s : string) : Z := Z.of_nat (String.length s).

(** ** White space *)

Definition ws1 (a : ascii) : bool :=
  ((9 <=? byte a) && (byte a <=? 13)) || (byte a =? 32).
(** U+0085, U+00A0. *)
Definition ws2 (a b : ascii) : bool :=
  (byte a =? 194) && ((byte b =? 133) || (byte b =? 160)).
(** U+1680, U+2000..U+200A, U+2028, U+2029, U+202F, U+205F, U+3000. *)
Definition ws3 (a b c : ascii) : bool :=
  ((byte a =? 225) && (byte b =? 154) && (byte c =? 128))
  || ((byte a =? 226) && (byte b =? 128)
      && (((128 <=? byte c) && (byte c <=? 138))
          || (byte c =? 168) || (byte c =? 169) || (byte c =? 175)))
  || ((byte a =? 226) && (byte b =? 129) && (byte c =? 159))
  || ((byte a =? 227) && (byte b =? 128) && (byte c =? 128)).

Fixpoint trim_gen (w2 : ascii -> ascii -> bool) (w3 : ascii -> ascii -> ascii -> bool)
    (s : string) : string :=
  match s with
  | String a ((String b ((String c s3) as s2)) as s1) =>
      if ws1 a then trim_gen w2 w3 s1
      else if w2 a b then trim_gen w2 w3 s2
      else if w3 a b c then trim_gen w2 w3 s3
      else s
  | String a ((String b EmptyString) as s1) =>
      if ws1 a then trim_gen w2 w3 s1
      else if w2 a b then EmptyString
      else s
  | String a EmptyString => if ws1 a then EmptyString else s
  | EmptyString => EmptyString
  end.

Definition trim_start : string -> string := trim_gen ws2 ws3.
Definition str_rev (s : string) : string :=
  String.string_of_list_ascii (reverse (String.list_ascii_of_string s)).
Definition trim_end (s : string) : string :=
  str_rev (trim_gen (fun b a => ws2 a b) (fun c b a => ws3 a b c) (str_rev s)).
(** [str::trim]. *)
Definition trim (s : string) : string := trim_end (trim_start s).

(** [s.splitn(2, char::is_whitespace)]: the text before the first white-space
    character and, if there is one, the text after it. *)
Fixpoint splitn2_ws (s : string) : string * option string :=
  match s with
  | EmptyString => (EmptyString, None)
  | String a s1 =>
      let cont := let '(h, t) := splitn2_ws s1 in (String a h, t) in
      if ws1 a then (EmptyString, Some s1)
      else match s1 with
           | String b s2 =>
               if ws2 a b then (EmptyString, Some s2)
               else match s2 with
                    | String c s3 =>
                        if ws3 a b c then (EmptyString, Some s3) else cont
                    | EmptyString => cont
                    end
           | EmptyString => cont
           end
  end.

(** ** UTF-8 *)

Definition in_range (lo hi : Z) (a : ascii) : bool := (lo <=? byte a) && (byte a <=? hi).

(** The well-formed sequences of two, three and four bytes (Unicode, table 3-7). *)
Definition utf8_2 (a b : ascii) : bool := in_range 194 223 a && in_range 128 191 b.
Definition utf8_3 (a b c : ascii) : bool :=
  ((in_range 224 224 a && in_range 160 191 b)
   || (in_range 225 236 a && in_range 128 191 b)
   || (in_range 237 237 a && in_range 128 159 b)
   || (in_range 238 239 a && in_range 128 191 b)) && in_range 128 191 c.
Definition utf8_4 (a b c d : ascii) : bool :=
  ((in_range 240 240 a && in_range 144 191 b)
   || (in_range 241 243 a && in_range 128 191 b)
   || (in_range 244 244 a && in_range 128 143 b)) && in_range 128 191 c && in_range 128 191 d.

(** [std::str::from_utf8(s).is_ok()]. *)
Fixpoint utf8_valid (s : string) : bool :=
  match s with
  | EmptyString => true
  | String a s1 =>
      if byte a <? 128 then utf8_valid s1
      else match s1 with
           | EmptyString => false
           | String b s2 =>
               if utf8_2 a b then utf8_valid s2
               else match s2 with
                    | EmptyString => false
                    | String c s3 =>
                        if utf8_3 a b c then utf8_valid s3
                        else match s3 with
                             | EmptyString => false
                             | String d s4 => utf8_4 a b c d && utf8_valid s4
                             end
                    end
           end
  end.

(** ** Splitting and searching *)

(** [str::split_once(c)] for an ASCII character. *)
Fixpoint split_once (c : ascii) (s : string) : option (string * string) :=
  match s with
  | EmptyString => None
  | String a s1 =>
      if Ascii.eqb a c then Some (EmptyString, s1)
      else match split_once c s1 with
           | Some (h, t) => Some (String a h, t)
           | None => None
           end
  end.

(** [str::rsplit_once(c)]. *)
Fixpoint rsplit_once (c : ascii) (s : string) : option (string * string) :=
  match s with
  | EmptyString => None
  | String a s1 =>
      match rsplit_once c s1 with
      | Some (h, t) => Some (String a h, t)
      | None => if Ascii.eqb a c then Some (EmptyString, s1) else None
      end
  end.

(** [str::split(c)]: never empty. *)
Fixpoint split (c : ascii) (s : string) : list string :=
  match s with
  | EmptyString => [EmptyString]
  | String a s1 =>
      if Ascii.eqb a c then EmptyString :: split c s1
      else match split c s1 with
           | h :: t => String a h :: t
           | [] => [String a EmptyString]
           end
  end.

(** [str::find(c)] as a byte index, for an ASCII character. *)
Fixpoint find_char (c : ascii) (s : string) : option nat :=
  match s with
  | EmptyString => None
  | String a s1 =>
      if Ascii.eqb a c then Some 0%nat
      else match find_char c s1 with Some n => Some (S n) | None => None end
  end.

Fixpoint strip_prefix (p s : string) : option string :=
  match p, s with
  | EmptyString, _ => Some s
  | String a p, String b s => if Ascii.eqb a b then strip_prefix p s else None
  | String _ _, EmptyString => None
  end.

Definition starts_with (p s : string) : bool :=
  match strip_prefix p s with Some _ => true | None => false end.

(** [&s[..n]] and [&s[n..]], for [n] on a character boundary. *)
Fixpoint str_take (n : nat) (s : string) : string :=
  match n, s with
  | S n, String a s => String a (str_take n s)
  | _, _ => EmptyString
  end.
Fixpoint str_drop (n : nat) (s : string) : string :=
  match n, s with
  | S n, String _ s => str_drop n s
  | S _, EmptyString => EmptyString
  | O, s => s
  end.

(** [str::trim_matches(c)]. *)
Fixpoint trim_start_matches (c : ascii) (s : string) : string :=
  match s with
  | String a s1 => if Ascii.eqb a c then trim_start_matches c s1 else s
  | EmptyString => EmptyString
  end.
Definition trim_matches (c : ascii) (s : string) : string :=
  str_rev (trim_start_matches c (str_rev (trim_start_matches c s))).

Definition is_empty_str (s : string) : bool :=
  match s with EmptyString => true | String _ _ => false end.

(** ** Integers *)

Fixpoint digits_val (acc : Z) (s : string) : option Z :=
  match s with
  | EmptyString => Some acc
  | String a s =>
      if is_ascii_digit a then digits_val (acc * 10 + (byte a - 48)) s else None
  end.

(** [s.parse::<uN>()] with [max = uN::MAX]: an optional [+], at least one digit,
    no overflow. *)
Definition parse_uint (max : Z) (s : string) : option Z :=
  let digits := match s with
                | String "+" s1 => s1
                | _ => s
                end in
  if is_empty_str digits then None
  else match digits_val 0 digits with
       | Some n => if n <=? max then Some n else None
       | None => None
       end.

Definition digit_char (d : Z) : ascii := ascii_of_N (Z.to_N (48 + d)).

(** [n.to_string()] of an unsigned integer: at most 20 digits for [u64]. *)
Fixpoint show_uint_go (fuel : nat) (n : Z) (acc : string) : string :=
  match fuel with
  | O => acc
  | S fuel =>
      let acc := String (digit_char (n mod 10)) acc in
      if n <? 10 then acc else show_uint_go fuel (n / 10) acc
  end.
Definition show_uint (n : Z) : string := show_uint_go 20 n "".

(** ** [Debug] output *)

Definition hex_digit (n : Z) : ascii := if n <? 10 then digit_char n else ascii_of_N (Z.to_N (87 + n)).
(** [impl Debug for str]: quotes, backslashes and control characters are
    escaped; characters beyond ASCII are taken as printable. *)
Definition debug_char (a : ascii) : string :=
  if bool_decide (a = DQUOTE) then String "\" (String DQUOTE EmptyString)
  else if bool_decide (a = "\"%char) then "\\"
  else if bool_decide (a = LF) then "\n"
  else if bool_decide (a = CR) then "\r"
  else if byte a =? 9 then "\t"
  else if byte a =? 0 then "\0"
  else if (byte a <? 32) || (byte a =? 127) then
    "\u{" +:+ (if byte a <? 16 then "" else String (hex_digit (byte a / 16)) EmptyString)
      +:+ String (hex_digit (byte a mod 16)) "}"
  else String a EmptyString.
Fixpoint debug_chars (s : string) : string :=
  match s with EmptyString => EmptyString | String a s => debug_char a +:+ debug_chars s end.
Definition str_debug (s : string) : string := String DQUOTE (debug_chars s +:+ String DQUOTE EmptyString).

(** ** Words and lines *)

(** [str::split_whitespace]; every round reads a character. *)
Fixpoint ws_pieces (fuel : nat) (s : string) : list string :=
  match fuel with
  | O => []
  | S fuel => match splitn2_ws s with
              | (w, Some rest) => w :: ws_pieces fuel rest
              | (w, None) => [w]
              end
  end.
Definition split_whitespace (s : string) : list string :=
  List.filter (fun w => negb (is_empty_str w)) (ws_pieces (S (String.length s)) s).

(** [s.replace("\r\n", "\n")]. *)
Fixpoint crlf_to_lf (s : string) : string :=
  match s with
  | String a ((String b s2) as s1) =>
      if Ascii.eqb a CR && Ascii.eqb b LF then String LF (crlf_to_lf s2) else String a (crlf_to_lf s1)
  | _ => s
  end.

(** [str::lines]: a line ends with a line feed, and a carriage return before it is
    not part of the line; no line follows the last line feed. *)
Fixpoint strip_cr (s : string) : string :=
  match s with
  | EmptyString => EmptyString
  | String a EmptyString => if Ascii.eqb a CR then EmptyString else s
  | String a s1 => String a (strip_cr s1)
  end.
Fixpoint lines_of (pieces : list string) : list string :=
  match pieces with
  | [] => []
  | [last] => if is_empty_str last then [] else [last]
  | l :: rest => strip_cr l :: lines_of rest
  end.
Definition str_lines (s : string) : list string := lines_of (split LF s).

(** [s.contains(char::is_whitespace)] and [s.contains(char::is_control)]: the
    control characters are U+0000..U+001F and U+007F..U+009F. *)
Definition has_whitespace (s : string) : bool := bool_decide (is_Some (splitn2_ws s).2).
Fixpoint has_control (s : string) : bool :=
  match s with
  | EmptyString => false
  | String a s1 =>
      (byte a <? 32) || (byte a =? 127)
      || match s1 with String b _ => (byte a =? 194) && in_range 128 159 b | EmptyString => false end
      || has_control s1
  end.

(** [str::find] with a pattern that is a string. *)
Fixpoint find_str (pat s : string) : option nat :=
  if starts_with pat s then Some 0%nat
  else match s with
       | EmptyString => None
       | String _ s1 => match find_str pat s1 with Some n => Some (S n) | None => None end
       end.

(** [String::from_utf8_lossy]: every maximal part of an ill-formed sequence
    becomes U+FFFD. *)
Definition REPLACEMENT : string :=
  String (ascii_of_N 239) (String (ascii_of_N 191) (String (ascii_of_N 189) EmptyString)).
Definition second_of_3 (a b : ascii) : bool := utf8_3 a b (ascii_of_N 128).
Definition second_of_4 (a b : ascii) : bool := utf8_4 a b (ascii_of_N 128) (ascii_of_N 128).
Fixpoint utf8_lossy (s : string) : string :=
  match s with
  | EmptyString => EmptyString
  | String a s1 =>
      if byte a <? 128 then String a (utf8_lossy s1)
      else match s1 with
           | EmptyString => REPLACEMENT
           | String b s2 =>
               if utf8_2 a b then String a (String b (utf8_lossy s2))
               else if second_of_3 a b then
                 match s2 with
                 | String c s3 =>
                     if in_range 128 191 c then String a (String b (String c (utf8_lossy s3)))
                     else REPLACEMENT +:+ utf8_lossy s2
                 | EmptyString => REPLACEMENT
                 end
               else if second_of_4 a b then
                 match s2 with
                 | String c s3 =>
                     if in_range 128 191 c then
                       match s3 with
                       | String d s4 =>
                           if in_range 128 191 d then String a (String b (String c (String d (utf8_lossy s4))))
                           else REPLACEMENT +:+ utf8_lossy s3
                       | EmptyString => REPLACEMENT
                       end
                     else REPLACEMENT +:+ utf8_lossy s2
                 | EmptyString => REPLACEMENT
                 end
               else REPLACEMENT +:+ utf8_lossy s1
           end
  end.

(** ** Lemmas *)

Lemma byte_range a : 0 <= byte a < 256.
Proof. unfold byte. pose proof (N_ascii_bounded a). lia. Qed.

Lemma byte_ascii_of_N n : 0 <= n < 256 -> byte (ascii_of_N (Z.to_N n)) = n.
Proof. intros ?. unfold byte. rewrite N_ascii_embedding; lia. Qed.

Lemma app_nil_str (s : string) : s +:+ "" = s.
Proof. induction s as [|a s IH]; simpl; [done | by rewrite IH]. Qed.

Lemma app_assoc_str (s t u : string) : s +:+ (t +:+ u) = (s +:+ t) +:+ u.
Proof. induction s as [|a s IH]; simpl; [done | by rewrite IH]. Qed.

Lemma length_app_str (s t : string) : String.length (s +:+ t) = (String.length s + String.length t)%nat.
Proof. induction s as [|a s IH]; simpl; [done | by rewrite IH]. Qed.

Lemma str_take_app s t n : String.length s = n -> str_take n (s +:+ t) = s.
Proof. intros <-. induction s as [|a s IH]; simpl; [by destruct t | by rewrite IH]. Qed.

Lemma str_drop_app s t n : String.length s = n -> str_drop n (s +:+ t) = t.
Proof. intros <-. induction s as [|a s IH]; simpl; [by destruct t | done]. Qed.

Lemma str_all_app p s t : str_all p (s +:+ t) = str_all p s && str_all p t.
Proof. induction s as [|a s IH]; simpl; [done | rewrite IH; by rewrite andb_assoc]. Qed.

Lemma str_all_impl (p q : ascii -> bool) s :
  (forall a, p a = true -> q a = true) -> str_all p s = true -> str_all q s = true.
Proof.
  intros Hpq. induction s as [|a s IH]; simpl; [done|].
  rewrite !andb_true_iff. intros [??]. auto.
Qed.

Lemma eq_ignore_ascii_case_refl s : eq_ignore_ascii_case s s = true.
Proof. unfold eq_ignore_ascii_case. apply String.eqb_refl. Qed.

(** A string without the separator splits to itself. *)
Definition lacks (c : ascii) (s : string) : bool := str_all (fun a => negb (Ascii.eqb a c)) s.

#[global] Arguments lacks : simpl never.

Lemma split_once_app c s t :
  lacks c s = true -> split_once c (s +:+ String c t) = Some (s, t).
Proof.
  unfold lacks. induction s as [|a s IH]; simpl.
  - intros _. by rewrite Ascii.eqb_refl.
  - rewrite andb_true_iff, negb_true_iff. intros [-> Hs]. by rewrite IH.
Qed.

Lemma split_once_lacks c s : lacks c s = true -> split_once c s = None.
Proof.
  unfold lacks. induction s as [|a s IH]; simpl; [done|].
  rewrite andb_true_iff, negb_true_iff. intros [-> Hs]. by rewrite IH.
Qed.

Lemma rsplit_once_lacks c s : lacks c s = true -> rsplit_once c s = None.
Proof.
  unfold lacks. induction s as [|a s IH]; simpl; [done|].
  rewrite andb_true_iff, negb_true_iff. intros [-> Hs]. by rewrite IH.
Qed.

Lemma rsplit_once_app c s t :
  lacks c t = true -> rsplit_once c (s +:+ String c t) = Some (s, t).
Proof.
  intros Ht. induction s as [|a s IH]; simpl.
  - rewrite rsplit_once_lacks by done. by rewrite Ascii.eqb_refl.
  - by rewrite IH.
Qed.

Lemma split_lacks c s : lacks c s = true -> split c s = [s].
Proof.
  unfold lacks. induction s as [|a s IH]; simpl; [done|].
  rewrite andb_true_iff, negb_true_iff. intros [-> Hs]. by rewrite IH.
Qed.

Lemma split_app c s t : lacks c s = true -> split c (s +:+ String c t) = s :: split c t.
Proof.
  unfold lacks. induction s as [|a s IH]; simpl.
  - intros _. by rewrite Ascii.eqb_refl.
  - rewrite andb_true_iff, negb_true_iff. intros [-> Hs]. by rewrite IH.
Qed.

Lemma strip_prefix_app p s : strip_prefix p (p +:+ s) = Some s.
Proof. induction p as [|a p IH]; simpl; [done|]. by rewrite Ascii.eqb_refl. Qed.

Lemma strip_prefix_Some p s t : strip_prefix p s = Some t -> s = p +:+ t.
Proof.
  revert s. induction p as [|a p IH]; intros [|b s]; simpl; try congruence.
  destruct (Ascii.eqb_spec a b); [|done]. intros ?. subst. f_equal. auto.
Qed.

(** Text that starts and ends with a byte that is neither white space nor part
    of a multi-byte character is already trimmed. *)
Definition solid (a : ascii) : bool := (32 <? byte a) && (byte a <? 128).

Lemma solid_ws1 a : solid a = true -> ws1 a = false.
Proof. unfold solid, ws1. lia. Qed.
Lemma solid_ws2 a b : solid a = true -> ws2 a b = false.
Proof. unfold solid, ws2. lia. Qed.
Lemma solid_ws3 a b c : solid a = true -> ws3 a b c = false.
Proof. unfold solid, ws3. lia. Qed.
Lemma solid_ws2_r a b : solid b = true -> ws2 a b = false.
Proof. unfold solid, ws2. lia. Qed.
Lemma solid_ws3_r a b c : solid c = true -> ws3 a b c = false.
Proof. unfold solid, ws3. lia. Qed.

Lemma trim_gen_solid w2 w3 a s :
  solid a = true -> (forall b, w2 a b = false) -> (forall b c, w3 a b c = false) ->
  trim_gen w2 w3 (String a s) = String a s.
Proof.
  intros Ha Hw2 Hw3. destruct s as [|b [|c s]]; cbn [trim_gen];
    rewrite ?(solid_ws1 a Ha), ?Hw2, ?Hw3; done.
Qed.

Lemma str_rev_app s t : str_rev (s +:+ t) = str_rev t +:+ str_rev s.
Proof.
  unfold str_rev. assert (forall s t, String.list_ascii_of_string (s +:+ t)
    = (String.list_ascii_of_string s ++ String.list_ascii_of_string t)%list) as Hl.
  { intros u v. induction u as [|a u IH]; simpl; [done | by rewrite IH]. }
  assert (forall l k, String.string_of_list_ascii (l ++ k)%list
    = String.string_of_list_ascii l +:+ String.string_of_list_ascii k) as Hr.
  { intros u v. induction u as [|a u IH]; simpl; [done | by rewrite IH]. }
  by rewrite Hl, reverse_app, Hr.
Qed.

Lemma str_rev_involutive s : str_rev (str_rev s) = s.
Proof.
  unfold str_rev. rewrite String.list_ascii_of_string_of_list_ascii, reverse_involutive.
  apply String.string_of_list_ascii_of_string.
Qed.

(** Every byte solid: nothing to trim. *)
Lemma trim_solid s : str_all solid s = true -> trim s = s.
Proof.
  intros Hs. unfold trim.
  assert (trim_start s = s) as ->.
  { destruct s as [|a s]; [done|]. simpl in Hs. apply andb_true_iff in Hs as [Ha _].
    apply trim_gen_solid; auto using solid_ws2, solid_ws3. }
  unfold trim_end.
  assert (str_all solid (str_rev s) = true) as Hr.
  { clear -Hs. induction s as [|a s IH]; [done|]. simpl in Hs.
    apply andb_true_iff in Hs as [Ha Hs].
    change (String a s) with (String a "" +:+ s). rewrite str_rev_app, str_all_app, IH by done.
    simpl. by rewrite Ha. }
  destruct (str_rev s) as [|a r] eqn:Hrev.
  - simpl. rewrite <- (str_rev_involutive s). by rewrite Hrev.
  - simpl in Hr. apply andb_true_iff in Hr as [Ha _].
    rewrite trim_gen_solid by auto using solid_ws2_r, solid_ws3_r.
    rewrite <- Hrev. apply str_rev_involutive.
Qed.

(** A text that starts and ends with a visible ASCII character. *)
Definition trimmed (s : string) : Prop :=
  (exists a t, s = String a t /\ solid a = true)
  /\ (exists h z, s = h +:+ String z "" /\ solid z = true).

Lemma trim_trimmed s : trimmed s -> trim s = s.
Proof.
  intros [(a & t & Hs & Ha) (h & z & Hs' & Hz)]. unfold trim, trim_start.
  rewrite Hs at 1. rewrite trim_gen_solid by auto using solid_ws2, solid_ws3. rewrite <- Hs.
  unfold trim_end. rewrite Hs' at 1. rewrite str_rev_app.
  change (str_rev (String z "") +:+ str_rev h) with (String z (str_rev h)).
  rewrite trim_gen_solid by auto using solid_ws2_r, solid_ws3_r.
  change (String z (str_rev h)) with (str_rev (String z "") +:+ str_rev h).
  by rewrite <- str_rev_app, <- Hs', str_rev_involutive.
Qed.

Lemma trim_space s : trim (String " " s) = trim s.
Proof. unfold trim. f_equal. destruct s as [|b [|c s]]; done. Qed.

Lemma trimmed_solid s : s <> "" -> str_all solid s = true -> trimmed s.
Proof.
  intros Hne Hs. split.
  - destruct s as [|a t]; [done|]. simpl in Hs. apply andb_true_iff in Hs as [Ha _]. eauto.
  - induction s as [|a t IH]; [done|]. simpl in Hs. apply andb_true_iff in Hs as [Ha Ht].
    destruct t as [|b t]; [exists "", a; done|].
    destruct (IH ltac:(done) Ht) as (h & z & -> & Hz). by exists (String a h), z.
Qed.

Lemma trimmed_app s m t : trimmed s -> trimmed t -> trimmed (s +:+ m +:+ t).
Proof.
  intros [(a & s' & -> & Ha) _] [_ (h & z & -> & Hz)]. split.
  - exists a, (s' +:+ m +:+ h +:+ String z ""). done.
  - exists (String a s' +:+ m +:+ h), z. by rewrite <- !app_assoc_str.
Qed.

(** Splitting at the first space after solid text. *)
Lemma splitn2_ws_app s t :
  str_all solid s = true -> splitn2_ws (s +:+ String " " t) = (s, Some t).
Proof.
  induction s as [|a s IH]; [done|].
  simpl str_all. intros [Ha Hs]%andb_true_iff. specialize (IH Hs).
  change (String a s +:+ String " " t) with (String a (s +:+ String " " t)).
  cbn [splitn2_ws]. rewrite IH, (solid_ws1 a Ha).
  destruct (s +:+ String " " t) as [|b [|c u]]; [done| |];
    rewrite ?solid_ws2, ?solid_ws3 by done; done.
Qed.

(** ** Decimal round trip *)

Lemma byte_digit_char d : 0 <= d < 10 -> byte (digit_char d) = 48 + d.
Proof. intros ?. unfold digit_char. apply byte_ascii_of_N. lia. Qed.

Lemma is_digit_digit_char d : 0 <= d < 10 -> is_ascii_digit (digit_char d) = true.
Proof. intros ?. unfold is_ascii_digit. rewrite byte_digit_char by done. lia. Qed.

Lemma digits_val_cons acc d s :
  0 <= d < 10 ->
  digits_val acc (String (digit_char d) s) = digits_val (acc * 10 + d) s.
Proof.
  intros Hd. cbn [digits_val]. rewrite is_digit_digit_char, byte_digit_char by done.
  f_equal. lia.
Qed.

(** Reading the printed digits of [n] in front of [acc] continues with [n]. *)
Lemma digits_val_show fuel n acc :
  0 <= n < 10 ^ Z.of_nat fuel ->
  (0 < fuel)%nat ->
  digits_val 0 (show_uint_go fuel n acc) = digits_val n acc.
Proof.
  revert n acc. induction fuel as [|fuel IH]; intros n acc Hn Hf; [lia|].
  cbn [show_uint_go]. destruct (Z.ltb_spec n 10) as [Hlt|Hge].
  - rewrite Z.mod_small by lia. rewrite digits_val_cons by lia. done.
  - rewrite Nat2Z.inj_succ, Z.pow_succ_r in Hn by lia.
    pose proof (Z.mod_pos_bound n 10).
    assert (fuel <> 0%nat) by (intros ->; simpl in Hn; lia).
    rewrite IH; [| |lia].
    2: { split; [apply Z.div_pos; lia | apply Z.div_lt_upper_bound; lia]. }
    rewrite digits_val_cons by lia. f_equal. pose proof (Z.div_mod n 10). lia.
Qed.

Lemma show_uint_go_shape fuel n acc :
  0 <= n -> (0 < fuel)%nat ->
  exists s, show_uint_go fuel n acc = s +:+ acc
            /\ str_all is_ascii_digit s = true /\ s <> EmptyString.
Proof.
  revert n acc. induction fuel as [|fuel IH]; intros n acc Hn Hf; [lia|].
  cbn [show_uint_go].
  assert (0 <= n mod 10 < 10) by (apply Z.mod_pos_bound; lia).
  destruct (n <? 10).
  - exists (String (digit_char (n mod 10)) ""). simpl.
    by rewrite is_digit_digit_char by done.
  - destruct (decide (fuel = 0%nat)) as [->|?].
    + exists (String (digit_char (n mod 10)) ""). simpl.
      by rewrite is_digit_digit_char by done.
    + destruct (IH (n / 10) (String (digit_char (n mod 10)) acc)) as (s & -> & Hs & Hne);
        [apply Z.div_pos; lia | lia |].
      exists (s +:+ String (digit_char (n mod 10)) ""). split; [|split].
      * by rewrite <- app_assoc_str.
      * rewrite str_all_app, Hs. simpl. by rewrite is_digit_digit_char by done.
      * by destruct s.
Qed.

Lemma show_uint_digits n :
  0 <= n -> str_all is_ascii_digit (show_uint n) = true /\ show_uint n <> EmptyString.
Proof.
  intros Hn. destruct (show_uint_go_shape 20 n "" Hn) as (s & Hs & ? & ?); [lia|].
  unfold show_uint. rewrite Hs, app_nil_str. done.
Qed.

Lemma digit_solid a : is_ascii_digit a = true -> solid a = true.
Proof. unfold is_ascii_digit, solid. lia. Qed.

Lemma show_uint_solid n : 0 <= n -> str_all solid (show_uint n) = true.
Proof.
  intros Hn. eapply str_all_impl; [apply digit_solid|]. by apply show_uint_digits.
Qed.

(** Printing then parsing an unsigned integer gives it back. *)
Lemma parse_show_uint max n :
  0 <= n <= max -> n <= U64_MAX -> parse_uint max (show_uint n) = Some n.
Proof.
  intros Hn Hu. destruct (show_uint_digits n) as [Hd Hne]; [lia|].
  assert (digits_val 0 (show_uint n) = Some n) as Hv.
  { unfold show_uint. rewrite digits_val_show; [done| |lia].
    unfold U64_MAX in Hu. change (Z.of_nat 20) with 20. lia. }
  unfold parse_uint. destruct (show_uint n) as [|a s]; [done|].
  assert (a <> "+"%char) as Ha.
  { intros ->. simpl in Hd. done. }
  assert (match a with "+"%char => s | _ => String a s end = String a s) as Hm.
  { destruct a as [[] [] [] [] [] [] [] []]; done. }
  rewrite Hm. simpl is_empty_str. cbv iota. rewrite Hv.
  destruct (Z.leb_spec n max); [done | lia].
Qed.

Lemma digits_val_nonneg acc s n : 0 <= acc -> digits_val acc s = Some n -> 0 <= n.
Proof.
  revert acc. induction s as [|a s IH]; intros acc Hacc; simpl; [by intros [= <-]|].
  destruct (is_ascii_digit a) eqn:Hd; [|done]. apply IH.
  unfold is_ascii_digit in Hd. lia.
Qed.

Lemma parse_uint_range max s n : parse_uint max s = Some n -> 0 <= n <= max.
Proof.
  unfold parse_uint. generalize (match s with String "+" s1 => s1 | _ => s end). intros d.
  destruct (is_empty_str d); [done|]. destruct (digits_val 0 d) as [k|] eqn:Hk; [|done].
  apply digits_val_nonneg in Hk; [|lia]. destruct (Z.leb_spec k max); [|done].
  intros [= <-]. lia.
Qed.

(** ** UTF-8 of a concatenation *)

(** A prefix of valid UTF-8 does not matter to the validity of the rest. *)
Lemma utf8_valid_app s t : utf8_valid s = true -> utf8_valid (s +:+ t) = utf8_valid t.
Proof.
  remember (String.length s) as n eqn:Hn. revert s Hn.
  induction (lt_wf n) as [n _ IH]. intros s -> Hs.
  destruct s as [|a s1]; [done|]. simpl in Hs |- *.
  destruct (byte a <? 128); [apply (IH (String.length s1)); simpl; [lia|done|done]|].
  destruct s1 as [|b s2]; [done|]. simpl.
  destruct (utf8_2 a b); [apply (IH (String.length s2)); simpl; [lia|done|done]|].
  destruct s2 as [|c s3]; [done|]. simpl.
  destruct (utf8_3 a b c); [apply (IH (String.length s3)); simpl; [lia|done|done]|].
  destruct s3 as [|d s4]; [done|]. simpl. apply andb_true_iff in Hs as [-> Hs].
  apply (IH (String.length s4)); simpl; [lia|done|done].
Qed.

Lemma utf8_valid_ascii s : str_all (fun a => byte a <? 128) s = true -> utf8_valid s = true.
Proof.
  induction s as [|a s IH]; simpl; [done|]. rewrite andb_true_iff. intros [-> Hs]. auto.
Qed.
Lemma solid_byte a : solid a = true -> (byte a <? 128) = true.
Proof. unfold solid. rewrite andb_true_iff. by intros [_ ?]. Qed.
Lemma solid_lacks c s : solid c = false -> str_all solid s = true -> lacks c s = true.
Proof.
  intros Hc. apply str_all_impl. intros a Ha. apply negb_true_iff.
  destruct (Ascii.eqb_spec a c) as [->|]; [congruence | done].
Qed.
Lemma solid_utf8 s : str_all solid s = true -> utf8_valid s = true.
Proof. intros. apply utf8_valid_ascii. eapply str_all_impl; [apply solid_byte | done]. Qed.
