(* ===== verification/SipUri.v ===== *)
(** * SIP errors and SIP URIs

    [sip/error.rs] and [sip/uri.rs]: the error value of the Sans-I/O core with
    its clamped diagnostic, and the SIP URI with its parser and its encoder.
    The round trip parses what [encode] prints back to the URI. *)

From S2P Require Import Prelude RustStr.
Open Scope string_scope.
Open Scope list_scope.
Open Scope Z_scope.

(** ** Errors *)

Inductive SipErrorKind :=
| StartLineTooLong | HeaderTooLong | TooManyHeaders | HeadersTooLarge
| BodyTooLarge | BufferTooLarge | ContentLengthMismatch | InvalidStartLine
| InvalidHeader | InvalidUri | MissingRequiredHeader | InvalidFraming
| TransactionTimeout | TransactionCancelled | TransportFailure
| AuthenticationFailure.

#[global] Instance SipErrorKind_eq_dec : EqDecision SipErrorKind.
Proof. solve_decision. Defined.

Record SipError := mkSipError {
  se_kind : SipErrorKind;
  se_offset : option Z;
  se_message : string
}.

Definition MAX_MESSAGE_BYTES : nat := 1024.

(** A byte that continues a UTF-8 character. *)
Definition is_continuation (a : ascii) : bool := (128 <=? byte a) && (byte a <? 192).

(** [str::is_char_boundary]. *)
Definition is_char_boundary (s : string) (i : nat) : bool :=
  match String.get i s with
  | Some a => negb (is_continuation a)
  | None => Nat.eqb i (String.length s)
  end.

(** The loop [while end > 0 && !s.is_char_boundary(end) { end -= 1 }]. *)
Fixpoint floor_boundary (s : string) (i : nat) : nat :=
  match i with
  | O => O
  | S j => if is_char_boundary s i then i else floor_boundary s j
  end.

Definition clamp_string_bytes (s : string) (max : nat) : string :=
  if (String.length s <=? max)%nat then s else str_take (floor_boundary s max) s.

Definition SipError_new (kind : SipErrorKind) (offset : option Z) (message : string) : SipError :=
  mkSipError kind offset (clamp_string_bytes message MAX_MESSAGE_BYTES).

Lemma floor_boundary_le s i : (floor_boundary s i <= i)%nat.
Proof. induction i as [|i IH]; simpl; [lia|]. case_match; lia. Qed.

Lemma length_str_take n s : (String.length (str_take n s) <= n)%nat.
Proof. revert s. induction n as [|n IH]; intros [|a s]; simpl; try lia. specialize (IH s). lia. Qed.

Lemma clamp_string_bytes_bound s max : (String.length (clamp_string_bytes s max) <= max)%nat.
Proof.
  unfold clamp_string_bytes. destruct (Nat.leb_spec (String.length s) max); [done|].
  pose proof (length_str_take (floor_boundary s max) s).
  pose proof (floor_boundary_le s max). lia.
Qed.

Lemma floor_boundary_boundary s i :
  floor_boundary s i <> 0%nat -> is_char_boundary s (floor_boundary s i) = true.
Proof. induction i as [|i IH]; simpl; [done|]. case_match; auto. Qed.

(** ** URIs *)

Inductive Scheme := Sip | Sips.

#[global] Instance Scheme_eq_dec : EqDecision Scheme.
Proof. solve_decision. Defined.

Record SipUri := mkSipUri {
  uri_scheme : Scheme;
  uri_user : option string;
  uri_password : option string;
  uri_host : string;
  uri_port : option Z;
  uri_parameters : list (string * option string)
}.

#[global] Instance SipUri_eq_dec : EqDecision SipUri.
Proof. solve_decision. Defined.

Definition uri_err {A} (msg : string) : result A SipError :=
  Err (SipError_new InvalidUri None msg).

Definition parse_scheme (scheme : string) : result Scheme SipError :=
  if eq_ignore_ascii_case scheme "sip" then Ok Sip
  else if eq_ignore_ascii_case scheme "sips" then Ok Sips
  else uri_err "unsupported scheme".

Definition split_userinfo (rest : string) : option string * string :=
  match rsplit_once "@" rest with
  | None => (None, rest)
  | Some (u, h) => if is_empty_str u then (None, h) else (Some u, h)
  end.

Definition parse_userinfo (userinfo : option string)
    : result (option string * option string) SipError :=
  match userinfo with
  | Some info =>
      match split_once ":" info with
      | Some (EmptyString, _) => uri_err "empty user with password"
      | Some (u, p) => Ok (Some u, Some p)
      | None => Ok (Some info, None)
      end
  | None => Ok (None, None)
  end.

Definition parse_hostport (hostport : string) : result (string * option string) SipError :=
  if starts_with "[" hostport then
    match find_char "]" hostport with
    | None => uri_err "unterminated IPv6"
    | Some endi =>
        let host := str_take (S endi) hostport in
        let port :=
          match str_drop (S endi) hostport with
          | String ":" p => Some p
          | _ => None
          end in
        Ok (host, port)
    end
  else
    match rsplit_once ":" hostport with
    | Some (h, p) => Ok (h, Some p)
    | None => Ok (hostport, None)
    end.

Definition parse_port (port : option string) : result (option Z) SipError :=
  match port with
  | None => Ok None
  | Some p =>
      match parse_uint U16_MAX p with
      | Some n => Ok (Some n)
      | None => uri_err "invalid port"
      end
  end.

Definition parse_param (token : string) : string * option string :=
  match split_once "=" token with
  | None => (token, None)
  | Some (k, v) => (k, if is_empty_str v then None else Some v)
  end.

Definition parse_params (param_part : option string) : list (string * option string) :=
  match param_part with
  | None => []
  | Some p => parse_param <$> filter (fun t => is_empty_str t = false) (split ";" p)
  end.

(** [SipUri::parse], with the body of [parse_inner]. *)
Definition uri_parse (raw : string) : result SipUri SipError :=
  if (2048 <? String.length raw)%nat then uri_err "URI too long"
  else match split_once ":" raw with
  | None => uri_err "missing scheme"
  | Some (scheme, rest) =>
      let? scheme := parse_scheme scheme in
      let '(userinfo, hostport) := split_userinfo rest in
      let? (user, password) := parse_userinfo userinfo in
      let '(hostport, param_part) :=
        match split_once ";" hostport with
        | Some (hp, p) => (hp, Some p)
        | None => (hostport, None)
        end in
      let? (host, port) := parse_hostport hostport in
      let host := trim host in
      if is_empty_str host then uri_err "empty host"
      else
        let? port := parse_port port in
        Ok (mkSipUri scheme user password host port (parse_params param_part))
  end.

Definition scheme_str (s : Scheme) : string :=
  match s with Sip => "sip" | Sips => "sips" end.

Definition encode_userinfo (u : SipUri) : string :=
  match uri_user u with
  | Some user =>
      user +:+ (match uri_password u with Some p => ":" +:+ p | None => "" end) +:+ "@"
  | None => ""
  end.

Definition encode_port (port : option Z) : string :=
  match port with Some p => ":" +:+ show_uint p | None => "" end.

Definition encode_param (kv : string * option string) : string :=
  ";" +:+ kv.1 +:+ (match kv.2 with Some v => "=" +:+ v | None => "" end).

Fixpoint encode_params (ps : list (string * option string)) : string :=
  match ps with
  | [] => ""
  | p :: ps => encode_param p +:+ encode_params ps
  end.

(** [SipUri::encode]. *)
Definition uri_encode (u : SipUri) : string :=
  scheme_str (uri_scheme u) +:+ ":" +:+ encode_userinfo u +:+ uri_host u
  +:+ encode_port (uri_port u) +:+ encode_params (uri_parameters u).

(** ** Round trip

    The components a URI may have so that its delimiters stay recognisable. *)

Definition lacks_all (cs : list ascii) (s : string) : bool :=
  forallb (fun c => lacks c s) cs.
#[global] Arguments lacks_all : simpl never.

(** [userinfo] holds no password without a user, no [:] in the user. *)
Definition wf_userinfo (u : SipUri) : Prop :=
  match uri_user u with
  | Some user => user <> "" /\ lacks ":" user = true
  | None => uri_password u = None
  end.

(** A host is a name or an address without delimiters, or a bracketed literal. *)
Definition wf_host (h : string) : Prop :=
  str_all solid h = true /\ h <> ""
  /\ ((starts_with "[" h = false /\ lacks_all [":"; ";"; "@"]%char h = true)
      \/ (exists inner, h = "[" +:+ inner +:+ "]"
           /\ lacks_all ["]"; ";"; "@"]%char inner = true)).

Definition wf_param (kv : string * option string) : Prop :=
  lacks_all [";"; "="; "@"]%char kv.1 = true
  /\ match kv.2 with
     | Some v => v <> "" /\ lacks_all [";"; "@"]%char v = true
     | None => kv.1 <> ""
     end.

Definition wf_uri (u : SipUri) : Prop :=
  wf_userinfo u /\ wf_host (uri_host u)
  /\ (forall p, uri_port u = Some p -> is_u16 p)
  /\ Forall wf_param (uri_parameters u)
  /\ (String.length (uri_encode u) <= 2048)%nat.

Lemma lacks_app c s t : lacks c (s +:+ t) = lacks c s && lacks c t.
Proof. unfold lacks. apply str_all_app. Qed.

Lemma digits_lack c s :
  str_all is_ascii_digit s = true -> is_ascii_digit c = false -> lacks c s = true.
Proof.
  intros Hs Hc. unfold lacks. eapply str_all_impl; [|exact Hs]. intros a Ha.
  apply negb_true_iff, Ascii.eqb_neq. congruence.
Qed.

Lemma show_uint_lacks c n : 0 <= n -> is_ascii_digit c = false -> lacks c (show_uint n) = true.
Proof. intros Hn Hc. apply digits_lack; [by apply show_uint_digits | done]. Qed.

Lemma lacks_cons c a s : lacks c (String a s) = negb (Ascii.eqb a c) && lacks c s.
Proof. done. Qed.

Lemma encode_port_lacks c p :
  (forall n, p = Some n -> is_u16 n) -> is_ascii_digit c = false -> c <> ":"%char ->
  lacks c (encode_port p) = true.
Proof.
  intros Hp Hc Hne. destruct p as [n|]; [|done]. simpl encode_port.
  change (":" +:+ show_uint n) with (String ":" (show_uint n)).
  rewrite lacks_cons, show_uint_lacks; [|destruct (Hp n eq_refl); lia|done].
  rewrite andb_true_r. apply negb_true_iff, Ascii.eqb_neq. congruence.
Qed.

Lemma lacks_all_In cs s c : lacks_all cs s = true -> c ∈ cs -> lacks c s = true.
Proof.
  unfold lacks_all. rewrite forallb_forall. intros Hf Hc. apply Hf. by apply list_elem_of_In.
Qed.

Lemma encode_params_lacks_at ps :
  Forall wf_param ps -> lacks "@" (encode_params ps) = true.
Proof.
  induction 1 as [|[k v] ps [Hk Hv] _ IH]; [done|]. simpl in *. unfold encode_param. simpl.
  rewrite lacks_cons, !lacks_app, IH, (lacks_all_In _ _ _ Hk) by set_solver.
  destruct v as [v|]; [|done]. destruct Hv as [_ Hv].
  by rewrite lacks_cons, (lacks_all_In _ _ _ Hv) by set_solver.
Qed.

(** The text of one parameter, without its [;]. *)
Definition param_text (kv : string * option string) : string :=
  kv.1 +:+ (match kv.2 with Some v => "=" +:+ v | None => "" end).

Lemma parse_param_text kv : wf_param kv -> parse_param (param_text kv) = kv.
Proof.
  destruct kv as [k [v|]]; intros [Hk Hv]; simpl in *; unfold parse_param, param_text; simpl.
  - destruct Hv as [Hne _]. rewrite split_once_app by (apply (lacks_all_In _ _ _ Hk); set_solver).
    by destruct v.
  - rewrite app_nil_str, split_once_lacks by (apply (lacks_all_In _ _ _ Hk); set_solver). done.
Qed.

Lemma param_text_nonempty kv : wf_param kv -> is_empty_str (param_text kv) = false.
Proof.
  destruct kv as [[|a k] [v|]]; intros [Hk Hv]; simpl in *; try done.
Qed.

Lemma param_text_lacks kv : wf_param kv -> lacks ";" (param_text kv) = true.
Proof.
  destruct kv as [k [v|]]; intros [Hk Hv]; simpl in *; unfold param_text; simpl;
    rewrite lacks_app, (lacks_all_In _ _ _ Hk) by set_solver; [|done].
  destruct Hv as [_ Hv]. by rewrite lacks_cons, (lacks_all_In _ _ _ Hv) by set_solver.
Qed.

Lemma split_params kv ps :
  wf_param kv -> Forall wf_param ps ->
  split ";" (param_text kv +:+ encode_params ps) = param_text <$> (kv :: ps).
Proof.
  intros Hkv Hps. revert kv Hkv. induction Hps as [|kv' ps Hkv' _ IH]; intros kv Hkv; simpl.
  - rewrite app_nil_str. apply split_lacks. by apply param_text_lacks.
  - unfold encode_param. simpl. fold (param_text kv').
    change (String ";" ((kv'.1 +:+ match kv'.2 with Some v => String "=" v | None => "" end)
      +:+ encode_params ps)) with (String ";" (param_text kv' +:+ encode_params ps)).
    rewrite split_app by (by apply param_text_lacks). by rewrite IH.
Qed.

Lemma parse_params_encode kv ps :
  wf_param kv -> Forall wf_param ps ->
  parse_params (Some (param_text kv +:+ encode_params ps)) = kv :: ps.
Proof.
  intros Hkv Hps. unfold parse_params. rewrite split_params by done.
  assert (Forall wf_param (kv :: ps)) as Hall by by constructor.
  clear Hkv Hps. induction Hall as [|x l Hx Hl IH]; [done|].
  rewrite fmap_cons, filter_cons_True by by apply param_text_nonempty.
  by rewrite fmap_cons, parse_param_text, IH.
Qed.

Lemma parse_hostport_encode h p :
  wf_host h -> (forall n, p = Some n -> is_u16 n) ->
  parse_hostport (h +:+ encode_port p)
  = Ok (h, match p with Some n => Some (show_uint n) | None => None end).
Proof.
  intros (Hsol & Hne & [[Hsw Hl]|(inner & -> & Hl)]) Hp; unfold parse_hostport.
  - assert (starts_with "[" (h +:+ encode_port p) = false) as ->.
    { destruct h as [|a h]; [done|]. unfold starts_with in *. simpl in *. by destruct (Ascii.eqb "[" a). }
    destruct p as [n|]; simpl encode_port.
    + change (":" +:+ show_uint n) with (String ":" (show_uint n)).
      rewrite rsplit_once_app; [done|]. apply show_uint_lacks; [destruct (Hp n eq_refl); lia | done].
    + rewrite app_nil_str, rsplit_once_lacks; [done|]. apply (lacks_all_In _ _ _ Hl). set_solver.
  - assert (forall t, find_char "]" ("[" +:+ inner +:+ "]" +:+ t)
              = Some (S (String.length inner))) as Hfind.
    { intros t. change ("[" +:+ inner +:+ "]" +:+ t) with (String "[" (inner +:+ String "]" t)).
      cbn [find_char]. replace (Ascii.eqb "[" "]") with false by done. cbv iota.
      assert (lacks "]" inner = true) as Hli by (apply (lacks_all_In _ _ _ Hl); set_solver).
      clear -Hli. enough (find_char "]" (inner +:+ String "]" t) = Some (String.length inner)) as -> by done.
      induction inner as [|a s IH]; [done|]. rewrite lacks_cons in Hli.
      apply andb_true_iff in Hli as [Ha%negb_true_iff Hs]. simpl. by rewrite Ha, IH. }
    assert (forall (s t : string), str_take (String.length s) (s +:+ t) = s
                        /\ str_drop (String.length s) (s +:+ t) = t) as Htd.
    { intros s t. induction s as [|a s [IH1 IH2]]; [done|]. simpl. by rewrite IH1, IH2. }
    assert (("[" +:+ inner +:+ "]") +:+ encode_port p = "[" +:+ inner +:+ "]" +:+ encode_port p)
      as Hassoc by (by rewrite !app_assoc_str).
    assert (String.length ("[" +:+ inner +:+ "]") = S (S (String.length inner))) as Hlen.
    { simpl. f_equal. clear. induction inner as [|a s IH]; simpl; [done | by rewrite IH]. }
    destruct (Htd ("[" +:+ inner +:+ "]") (encode_port p)) as [Ht Hd]. rewrite Hlen in Ht, Hd.
    assert (starts_with "[" (("[" +:+ inner +:+ "]") +:+ encode_port p) = true) as -> by done.
    rewrite Hassoc at 1. rewrite Hfind. cbv iota beta zeta. rewrite Ht, Hd.
    by destruct p.
Qed.

Lemma parse_scheme_str sc : parse_scheme (scheme_str sc) = Ok sc.
Proof. by destruct sc. Qed.

Lemma split_userinfo_encode u rest :
  wf_userinfo u -> lacks "@" rest = true ->
  split_userinfo (encode_userinfo u +:+ rest)
  = (match uri_user u with
     | Some user =>
         Some (user +:+ match uri_password u with Some p => ":" +:+ p | None => "" end)
     | None => None
     end, rest).
Proof.
  intros Hwf Hrest. unfold encode_userinfo, split_userinfo, wf_userinfo in *.
  destruct (uri_user u) as [user|]; simpl.
  - destruct Hwf as [Hne _].
    set (pw := match uri_password u with Some p => String ":" p | None => "" end).
    replace ((user +:+ pw +:+ "@") +:+ rest) with ((user +:+ pw) +:+ String "@" rest)
      by (rewrite <- !app_assoc_str; done).
    rewrite rsplit_once_app by done. by destruct user.
  - by rewrite rsplit_once_lacks by done.
Qed.

Lemma parse_userinfo_encode u :
  wf_userinfo u ->
  parse_userinfo
    (match uri_user u with
     | Some user =>
         Some (user +:+ match uri_password u with Some p => ":" +:+ p | None => "" end)
     | None => None
     end) = Ok (uri_user u, uri_password u).
Proof.
  unfold wf_userinfo, parse_userinfo. destruct (uri_user u) as [user|].
  - intros [Hne Hl]. destruct (uri_password u) as [p|].
    + change (":" +:+ p) with (String ":" p). rewrite split_once_app by done. by destruct user.
    + by rewrite app_nil_str, split_once_lacks.
  - by intros ->.
Qed.

Lemma wf_host_lacks c h :
  wf_host h -> c = ";"%char \/ c = "@"%char -> lacks c h = true.
Proof.
  intros (_ & _ & [[_ Hl]|(inner & -> & Hl)]) Hc.
  - apply (lacks_all_In _ _ _ Hl). destruct Hc; set_solver.
  - change ("[" +:+ inner +:+ "]") with (String "[" (inner +:+ "]")).
    rewrite lacks_cons, lacks_app, (lacks_all_In _ _ _ Hl) by (destruct Hc; set_solver).
    by destruct Hc as [-> | ->].
Qed.

(** The host, port and parameters of a well-formed URI, split again at the
    first [;]. *)
Lemma split_hostport_encode hp ps :
  lacks ";" hp = true -> Forall wf_param ps ->
  match split_once ";" (hp +:+ encode_params ps) with
  | Some (hp', p) => (hp', Some p)
  | None => (hp +:+ encode_params ps, None)
  end = (hp, match ps with
             | [] => None
             | kv :: ps => Some (param_text kv +:+ encode_params ps)
             end).
Proof.
  intros Hl Hps. destruct ps as [|kv ps]; simpl.
  - by rewrite app_nil_str, split_once_lacks.
  - unfold encode_param. simpl.
    change (hp +:+ String ";" ((kv.1 +:+ match kv.2 with Some v => String "=" v | None => "" end)
      +:+ encode_params ps)) with (hp +:+ String ";" (param_text kv +:+ encode_params ps)).
    by rewrite split_once_app.
Qed.

(** Round trip of the URI codec, on every well-formed URI. *)
Lemma uri_parse_encode u : wf_uri u -> uri_parse (uri_encode u) = Ok u.
Proof.
  intros (Hui & Hh & Hp & Hps & Hlen). unfold uri_parse.
  destruct (Nat.ltb_spec 2048 (String.length (uri_encode u))); [lia|].
  unfold uri_encode. change (":" +:+ encode_userinfo u +:+ _) with
    (String ":" (encode_userinfo u +:+ uri_host u +:+ encode_port (uri_port u)
                 +:+ encode_params (uri_parameters u))).
  rewrite split_once_app by by destruct (uri_scheme u). rewrite parse_scheme_str.
  rewrite split_userinfo_encode; [|done|].
  2: { rewrite !lacks_app, wf_host_lacks, encode_port_lacks, encode_params_lacks_at; auto. }
  rewrite parse_userinfo_encode by done.
  rewrite app_assoc_str, split_hostport_encode; [|by rewrite lacks_app, wf_host_lacks, encode_port_lacks by auto|done].
  rewrite parse_hostport_encode by done. cbv zeta.
  rewrite trim_solid by apply Hh.
  destruct (uri_host u) as [|a h] eqn:Hhost; [by destruct Hh as (_ & ? & _)|].
  simpl is_empty_str. cbv iota.
  assert (parse_port (match uri_port u with Some n => Some (show_uint n) | None => None end)
          = Ok (uri_port u)) as ->.
  { destruct (uri_port u) as [n|]; [|done]. simpl. specialize (Hp n eq_refl).
    unfold is_u16, U16_MAX in Hp. rewrite parse_show_uint; [done| |]; unfold U16_MAX, U64_MAX; lia. }
  destruct u as [sc us pw ho po ps]; simpl in *. subst. f_equal. f_equal.
  destruct ps as [|kv ps]; [done|]. inversion Hps; subst. by apply parse_params_encode.
Qed.
