(* ===== verification/SipMessage.v ===== *)
(** * SIP messages

    [sip/message.rs], [sip/headers.rs] and [sip/routing.rs]: methods, header
    names with their case-insensitive equality, the indexed header collection,
    messages and the accessors the transaction and dialog layers use.

    The header collection keeps a list of lines and an index from header name
    to line numbers; [get_all_spec] and [get_spec] state that the index always
    agrees with a scan of the lines. *)

From S2P Require Import Prelude RustStr SipUri.
Open Scope string_scope.
Open Scope list_scope.
Open Scope Z_scope.

(** ** Methods *)

Inductive Method :=
| REGISTER | MESSAGE | INVITE | ACK | BYE | CANCEL | OPTIONS | SUBSCRIBE
| NOTIFY | INFO | OtherMethod (name : string).

#[global] Instance Method_eq_dec : EqDecision Method.
Proof. solve_decision. Defined.

#[global] Instance Method_countable : Countable Method.
Proof.
  refine (inj_countable'
    (fun m => match m with
      | REGISTER => inl 0%nat | MESSAGE => inl 1%nat | INVITE => inl 2%nat
      | ACK => inl 3%nat | BYE => inl 4%nat | CANCEL => inl 5%nat
      | OPTIONS => inl 6%nat | SUBSCRIBE => inl 7%nat | NOTIFY => inl 8%nat
      | INFO => inl 9%nat | OtherMethod s => inr s end)
    (fun x => match x with
      | inl 0%nat => REGISTER | inl 1%nat => MESSAGE | inl 2%nat => INVITE
      | inl 3%nat => ACK | inl 4%nat => BYE | inl 5%nat => CANCEL
      | inl 6%nat => OPTIONS | inl 7%nat => SUBSCRIBE | inl 8%nat => NOTIFY
      | inl _ => INFO | inr s => OtherMethod s end) _).
  by intros [].
Defined.

Definition is_method_char (a : ascii) : bool := is_ascii_uppercase a || Ascii.eqb a "-".

(** [Method::parse]. *)
Definition Method_parse (s : string) : result Method SipError :=
  if String.eqb s "REGISTER" then Ok REGISTER
  else if String.eqb s "MESSAGE" then Ok MESSAGE
  else if String.eqb s "INVITE" then Ok INVITE
  else if String.eqb s "ACK" then Ok ACK
  else if String.eqb s "BYE" then Ok BYE
  else if String.eqb s "CANCEL" then Ok CANCEL
  else if String.eqb s "OPTIONS" then Ok OPTIONS
  else if String.eqb s "SUBSCRIBE" then Ok SUBSCRIBE
  else if String.eqb s "NOTIFY" then Ok NOTIFY
  else if String.eqb s "INFO" then Ok INFO
  else if str_all is_method_char s then Ok (OtherMethod s)
  else Err (SipError_new InvalidStartLine None "invalid method token").

(** [impl Display for Method]. *)
Definition Method_str (m : Method) : string :=
  match m with
  | REGISTER => "REGISTER" | MESSAGE => "MESSAGE" | INVITE => "INVITE"
  | ACK => "ACK" | BYE => "BYE" | CANCEL => "CANCEL" | OPTIONS => "OPTIONS"
  | SUBSCRIBE => "SUBSCRIBE" | NOTIFY => "NOTIFY" | INFO => "INFO"
  | OtherMethod other => other
  end.

(** A method as [Method::parse] produces it. *)
Definition wf_method (m : Method) : bool :=
  match m with
  | OtherMethod s =>
      str_all is_method_char s
      && negb (existsb (String.eqb s)
           ["REGISTER"; "MESSAGE"; "INVITE"; "ACK"; "BYE"; "CANCEL"; "OPTIONS";
            "SUBSCRIBE"; "NOTIFY"; "INFO"])
  | _ => true
  end.

Lemma Method_parse_str m : wf_method m = true -> Method_parse (Method_str m) = Ok m.
Proof.
  destruct m as [| | | | | | | | | |s]; try done. unfold wf_method, Method_parse. simpl Method_str.
  rewrite andb_true_iff, negb_true_iff. intros [Hall Hex]. cbn [existsb] in Hex.
  repeat (apply orb_false_iff in Hex as [-> Hex]). by rewrite Hall.
Qed.

Lemma Method_parse_wf s m :
  Method_parse s = Ok m -> wf_method m = true /\ Method_str m = s.
Proof.
  unfold Method_parse.
  repeat match goal with
    |- context [if String.eqb s ?k then _ else _] =>
      destruct (String.eqb s k) eqn:?;
        [intros [= <-]; split; [done | symmetry; by apply String.eqb_eq] |] end.
  destruct (str_all is_method_char s) eqn:Hall; [|done].
  intros [= <-]. split; [|done]. unfold wf_method. rewrite Hall. cbn [existsb].
  by repeat match goal with H : String.eqb s _ = false |- _ => rewrite H; clear H end.
Qed.

(** ** Header names *)

Inductive HeaderName :=
| HVia | HFrom | HTo | HCallId | HCSeq | HContact | HMaxForwards | HUserAgent
| HContentType | HContentLength | HExpires | HRoute | HRecordRoute
| HAuthorization | HWwwAuthenticate | HProxyAuthenticate | HProxyAuthorization
| HSubject | HOther (name : string).

Definition discriminant (h : HeaderName) : nat :=
  match h with
  | HVia => 0 | HFrom => 1 | HTo => 2 | HCallId => 3 | HCSeq => 4 | HContact => 5
  | HMaxForwards => 6 | HUserAgent => 7 | HContentType => 8 | HContentLength => 9
  | HExpires => 10 | HRoute => 11 | HRecordRoute => 12 | HAuthorization => 13
  | HWwwAuthenticate => 14 | HProxyAuthenticate => 15 | HProxyAuthorization => 16
  | HSubject => 17 | HOther _ => 18
  end%nat.

Definition case_insensitive_cmp (a b : string) : comparison :=
  String.compare (str_lower a) (str_lower b).

(** [impl PartialEq for HeaderName]. *)
Definition header_eqb (a b : HeaderName) : bool :=
  Nat.eqb (discriminant a) (discriminant b)
  && match a, b with
     | HOther x, HOther y =>
         match case_insensitive_cmp x y with Eq => true | _ => false end
     | _, _ => true
     end.

(** [impl Ord for HeaderName]. *)
Definition header_cmp (a b : HeaderName) : comparison :=
  match Nat.compare (discriminant a) (discriminant b) with
  | Eq => match a, b with HOther x, HOther y => case_insensitive_cmp x y | _, _ => Eq end
  | other => other
  end.

(** The class of a name under [header_eqb]: what a [BTreeMap] keyed by names
    distinguishes. *)
Definition name_key (h : HeaderName) : nat * string :=
  (discriminant h, match h with HOther s => str_lower s | _ => "" end).

Lemma string_compare_eq a b : String.compare a b = Eq <-> a = b.
Proof.
  split; [apply String.compare_eq_iff|]. intros ->. induction b as [|c b IH]; [done|].
  simpl. unfold Ascii.compare. by rewrite N.compare_refl.
Qed.

Lemma header_eqb_key a b : header_eqb a b = true <-> name_key a = name_key b.
Proof.
  unfold header_eqb, name_key, case_insensitive_cmp.
  destruct a, b; simpl; try (split; congruence).
  destruct (String.compare _ _) eqn:Hc; split; try done.
  - intros _. apply string_compare_eq in Hc. congruence.
  - intros [= Heq]. apply string_compare_eq in Heq. congruence.
  - intros [= Heq]. apply string_compare_eq in Heq. congruence.
Qed.

Lemma header_cmp_eq a b : header_cmp a b = Eq <-> header_eqb a b = true.
Proof.
  unfold header_cmp, header_eqb. destruct (Nat.compare_spec (discriminant a) (discriminant b)).
  - rewrite (proj2 (Nat.eqb_eq _ _)) by done. simpl. destruct a, b; try done.
    destruct (case_insensitive_cmp _ _); done.
  - rewrite (proj2 (Nat.eqb_neq _ _)) by lia. done.
  - rewrite (proj2 (Nat.eqb_neq _ _)) by lia. done.
Qed.

Definition MAX_HEADER_NAME_BYTES : nat := 128.

(** [bounded_header_name], whose truncation is the loop of [clamp_string_bytes]. *)
Definition bounded_header_name (name : string) : string :=
  if (MAX_HEADER_NAME_BYTES <? String.length name)%nat
  then clamp_string_bytes name MAX_HEADER_NAME_BYTES else name.

Definition name_is (s : string) (forms : list string) : bool :=
  existsb (eq_ignore_ascii_case s) forms.

(** [HeaderName::parse] ([from_cow]). *)
Definition HeaderName_parse (name : string) : HeaderName :=
  let n := bounded_header_name name in
  if name_is n ["via"; "v"] then HVia
  else if name_is n ["from"; "f"] then HFrom
  else if name_is n ["to"; "t"] then HTo
  else if name_is n ["call-id"; "i"] then HCallId
  else if name_is n ["cseq"] then HCSeq
  else if name_is n ["contact"; "m"] then HContact
  else if name_is n ["max-forwards"] then HMaxForwards
  else if name_is n ["user-agent"] then HUserAgent
  else if name_is n ["content-type"; "c"] then HContentType
  else if name_is n ["content-length"; "l"] then HContentLength
  else if name_is n ["expires"] then HExpires
  else if name_is n ["route"] then HRoute
  else if name_is n ["record-route"] then HRecordRoute
  else if name_is n ["authorization"] then HAuthorization
  else if name_is n ["www-authenticate"] then HWwwAuthenticate
  else if name_is n ["proxy-authenticate"] then HProxyAuthenticate
  else if name_is n ["proxy-authorization"] then HProxyAuthorization
  else if name_is n ["subject"; "s"] then HSubject
  else HOther n.

(** [HeaderName::as_str]. *)
Definition HeaderName_str (h : HeaderName) : string :=
  match h with
  | HVia => "Via" | HFrom => "From" | HTo => "To" | HCallId => "Call-ID"
  | HCSeq => "CSeq" | HContact => "Contact" | HMaxForwards => "Max-Forwards"
  | HUserAgent => "User-Agent" | HContentType => "Content-Type"
  | HContentLength => "Content-Length" | HExpires => "Expires" | HRoute => "Route"
  | HRecordRoute => "Record-Route" | HAuthorization => "Authorization"
  | HWwwAuthenticate => "WWW-Authenticate" | HProxyAuthenticate => "Proxy-Authenticate"
  | HProxyAuthorization => "Proxy-Authorization" | HSubject => "Subject"
  | HOther s => s
  end.

(** Parsing a canonical name, or again the name of a parsed header, gives the
    header back. *)
Lemma HeaderName_parse_idem s :
  HeaderName_parse (HeaderName_str (HeaderName_parse s)) = HeaderName_parse s.
Proof.
  destruct (HeaderName_parse s) eqn:Hp; try reflexivity.
  unfold HeaderName_parse in Hp.
  repeat match type of Hp with
    context [if name_is ?n ?l then _ else _] => destruct (name_is n l) eqn:?; [discriminate|] end.
  injection Hp as Hn.
  assert ((String.length name <= MAX_HEADER_NAME_BYTES)%nat) as Hlen.
  { rewrite <- Hn. unfold bounded_header_name.
    destruct (Nat.ltb_spec MAX_HEADER_NAME_BYTES (String.length s));
      [apply clamp_string_bytes_bound | lia]. }
  simpl HeaderName_str. unfold HeaderName_parse.
  assert (bounded_header_name name = name) as ->.
  { unfold bounded_header_name. destruct (Nat.ltb_spec MAX_HEADER_NAME_BYTES (String.length name)); [lia|done]. }
  rewrite <- Hn.
  by repeat match goal with H : name_is _ _ = false |- _ => rewrite H; clear H end.
Qed.

(** ** The header collection *)

Record SipHeaders := mkHeaders {
  sh_lines : list (HeaderName * string);
  sh_index : gmap (nat * string) (list nat)
}.

Definition headers_new : SipHeaders := mkHeaders [] ∅.

(** [SipHeaders::append]. *)
Definition append (h : SipHeaders) (name : HeaderName) (value : string) : SipHeaders :=
  let idx := length (sh_lines h) in
  let old := default [] (sh_index h !! name_key name) in
  mkHeaders (sh_lines h ++ [(name, value)])
            (<[name_key name := old ++ [idx]]> (sh_index h)).

(** [SipHeaders::get]. *)
Definition get (h : SipHeaders) (name : HeaderName) : option string :=
  letopt v := sh_index h !! name_key name in
  letopt idx := head v in
  snd <$> sh_lines h !! idx.

(** [SipHeaders::get_all]. *)
Definition get_all (h : SipHeaders) (name : HeaderName) : list string :=
  omap (fun idx => snd <$> sh_lines h !! idx) (default [] (sh_index h !! name_key name)).

(** A collection is built by [new] and [append] only: its fields are private. *)
Definition headers_of (l : list (HeaderName * string)) : SipHeaders :=
  fold_left (fun h nv => append h nv.1 nv.2) l headers_new.

Definition named (name : HeaderName) (nv : HeaderName * string) : Prop :=
  header_eqb nv.1 name = true.
#[global] Instance named_dec name nv : Decision (named name nv).
Proof. unfold named. apply _. Defined.

(** The invariant: the index of a name lists the lines of that name, in order. *)
Definition headers_wf (h : SipHeaders) : Prop :=
  forall name, get_all h name = snd <$> filter (named name) (sh_lines h).
Definition headers_bounded (h : SipHeaders) : Prop :=
  forall k v, sh_index h !! k = Some v -> v <> [] /\ Forall (fun i => i < length (sh_lines h))%nat v.

Lemma omap_lookup_prefix_snd (l k : list (HeaderName * string)) (v : list nat) :
  Forall (fun i => i < length l)%nat v ->
  omap (fun i => snd <$> (l ++ k) !! i) v = omap (fun i => snd <$> l !! i) v.
Proof.
  induction 1 as [|i v Hi _ IH]; [done|]. cbn. rewrite lookup_app_l by done.
  destruct (l !! i); cbn; [f_equal|]; exact IH.
Qed.

Lemma headers_inv_new : headers_wf headers_new /\ headers_bounded headers_new.
Proof.
  split; [intros name | intros k v]; unfold get_all, headers_new; simpl.
  - by rewrite lookup_empty.
  - by rewrite lookup_empty.
Qed.

Lemma headers_inv_append h name value :
  headers_wf h /\ headers_bounded h ->
  headers_wf (append h name value) /\ headers_bounded (append h name value).
Proof.
  intros [Hwf Hb]. split.
  - intros n. unfold get_all, append. simpl.
    assert (Forall (fun i => i < length (sh_lines h))%nat (default [] (sh_index h !! name_key n))) as Hn.
    { destruct (sh_index h !! name_key n) eqn:E; [by apply Hb in E as [_ ?] | constructor]. }
    rewrite filter_app, fmap_app. unfold headers_wf, get_all in Hwf.
    destruct (decide (name_key name = name_key n)) as [Heq|Hne].
    + rewrite Heq, lookup_insert_eq. simpl. rewrite omap_app, omap_lookup_prefix_snd, Hwf by done.
      f_equal. simpl. rewrite lookup_app_r, Nat.sub_diag by lia. simpl.
      rewrite filter_cons_True by (unfold named; simpl; by apply header_eqb_key). done.
    + rewrite lookup_insert_ne by done. rewrite omap_lookup_prefix_snd, Hwf by done.
      rewrite filter_cons_False by (unfold named; simpl; rewrite header_eqb_key; congruence).
      by rewrite filter_nil, app_nil_r.
  - intros k v. unfold append. simpl. rewrite lookup_insert. rewrite length_app. simpl. case_decide.
    + intros [= <-]. split; [by destruct (default [] _)|].
      apply Forall_app. split; [|constructor; [lia|constructor]].
      destruct (sh_index h !! name_key name) eqn:E; simpl; [|constructor].
      apply Hb in E as [_ E]. eapply Forall_impl; [exact E|]. simpl. lia.
    + intros [Hv Hf]%Hb. split; [done|]. eapply Forall_impl; [exact Hf|]. simpl. lia.
Qed.

Lemma headers_inv_of l : headers_wf (headers_of l) /\ headers_bounded (headers_of l).
Proof.
  unfold headers_of. generalize headers_new headers_inv_new.
  induction l as [|[n v] l IH]; intros h Hh; simpl; [done|]. by apply IH, headers_inv_append.
Qed.

Lemma sh_lines_of l : sh_lines (headers_of l) = l.
Proof.
  unfold headers_of. change l with (sh_lines headers_new ++ l) at 2. generalize headers_new.
  induction l as [|[n v] l IH]; intros h; simpl; [by rewrite app_nil_r|].
  rewrite IH. simpl. by rewrite <- app_assoc.
Qed.

(** The index answers as a scan of the lines would. *)
Lemma get_all_spec l name :
  get_all (headers_of l) name = snd <$> filter (named name) l.
Proof. destruct (headers_inv_of l) as [Hwf _]. by rewrite Hwf, sh_lines_of. Qed.

Lemma get_head_get_all h name : headers_bounded h -> get h name = head (get_all h name).
Proof.
  intros Hb. unfold get, get_all. destruct (sh_index h !! name_key name) as [v|] eqn:E; [|done].
  apply Hb in E as [Hne Hf]. destruct v as [|i v]; [done|]. simpl.
  apply Forall_cons in Hf as [Hi _]. apply lookup_lt_is_Some in Hi as [x ->]. done.
Qed.

Lemma get_spec l name :
  get (headers_of l) name = head (snd <$> filter (named name) l).
Proof.
  destruct (headers_inv_of l) as [Hwf Hb]. by rewrite get_head_get_all, <- get_all_spec.
Qed.

Lemma headers_of_snoc l n v : append (headers_of l) n v = headers_of (l ++ [(n, v)]).
Proof. unfold headers_of. by rewrite fold_left_app. Qed.

(** ** Messages *)

Definition SIP_2_0 : string := "SIP/2.0".

Record RequestLine := mkRequestLine {
  rl_method : Method; rl_uri : SipUri; rl_version : string }.
Definition RequestLine_new (m : Method) (u : SipUri) : RequestLine := mkRequestLine m u SIP_2_0.

Record StatusLine := mkStatusLine {
  sl_version : string; sl_code : Z; sl_reason : string }.
Definition StatusLine_new (code : Z) (reason : string) : StatusLine :=
  mkStatusLine SIP_2_0 code reason.

Inductive ResponseClass :=
| Provisional | Success | Redirection | ClientFailure | ServerFailure
| GlobalFailure | UnknownClass.

(** [StatusLine::class]. *)
Definition status_class (l : StatusLine) : ResponseClass :=
  match sl_code l / 100 with
  | 1 => Provisional | 2 => Success | 3 => Redirection | 4 => ClientFailure
  | 5 => ServerFailure | 6 => GlobalFailure | _ => UnknownClass
  end.

Inductive SipMessage :=
| Request (line : RequestLine) (headers : SipHeaders) (body : string)
| Response (line : StatusLine) (headers : SipHeaders) (body : string).

Definition msg_headers (m : SipMessage) : SipHeaders :=
  match m with Request _ h _ => h | Response _ h _ => h end.
Definition is_request (m : SipMessage) : bool :=
  match m with Request _ _ _ => true | Response _ _ _ => false end.

(** [SipMessage::call_id]. *)
Definition call_id (m : SipMessage) : option string := get (msg_headers m) HCallId.

(** [branch_value]: the first [branch=] parameter of a Via value. *)
Fixpoint branch_of_tokens (tokens : list string) : option string :=
  match tokens with
  | [] => None
  | token :: rest =>
      match strip_prefix "branch=" (trim token) with
      | Some value => Some (trim_matches DQUOTE value)
      | None => branch_of_tokens rest
      end
  end.
Definition branch_value (via : string) : option string := branch_of_tokens (split ";" via).

(** [SipMessage::top_branch]. *)
Definition top_branch (m : SipMessage) : option string :=
  letopt via := head (get_all (msg_headers m) HVia) in branch_value via.

(** [SipMessage::cseq]. *)
Definition parse_cseq (value : string) : result (Z * Method) SipError :=
  let '(num_str, rest) := splitn2_ws value in
  let? num := ok_or (parse_uint U32_MAX num_str)
                    (SipError_new InvalidHeader None "invalid CSeq number") in
  let? method_str := ok_or rest (SipError_new InvalidHeader None "missing CSeq method") in
  let? method := map_err (fun _ => SipError_new InvalidHeader None "invalid CSeq method")
                         (Method_parse method_str) in
  Ok (num, method).
Definition cseq (m : SipMessage) : result (Z * Method) SipError :=
  match get (msg_headers m) HCSeq with
  | None => Err (SipError_new MissingRequiredHeader None "missing CSeq header")
  | Some value => parse_cseq value
  end.

(** [SipMessage::content_length], on a 64-bit target. *)
Definition content_length (m : SipMessage) : result Z SipError :=
  match get (msg_headers m) HContentLength with
  | None => Err (SipError_new MissingRequiredHeader None "missing Content-Length header")
  | Some value =>
      ok_or (parse_uint U64_MAX (trim value))
            (SipError_new InvalidHeader None "invalid Content-Length")
  end.

(** [request_method] and [response_code] of [transaction/state_machine.rs]. *)
Definition request_method (m : SipMessage) : option Method :=
  match m with Request line _ _ => Some (rl_method line) | Response _ _ _ => None end.
Definition response_code (m : SipMessage) : option Z :=
  match m with Response line _ _ => Some (sl_code line) | Request _ _ _ => None end.

Definition is_provisional (code : Z) : bool := (100 <=? code) && (code <? 200).
Definition is_success (code : Z) : bool := (200 <=? code) && (code <? 300).
Definition is_failure (code : Z) : bool := (300 <=? code) && (code <? 700).

(** ** Building header values *)

Definition is_token_char (a : ascii) : bool :=
  is_ascii_lowercase a || is_ascii_uppercase a || is_ascii_digit a
  || existsb (Ascii.eqb a)
       ["-"; "."; "!"; "%"; "*"; "_"; "+"; "`"; "'"; "~"; "("; ")"]%char.

Definition validate_token (value what : string) : result unit SipError :=
  if is_empty_str value || negb (str_all is_token_char value)
  then Err (SipError_new InvalidHeader None (what +:+ " is not a valid SIP token"))
  else Ok tt.

(** [HeaderValue::via]. *)
Definition header_via (transport host : string) (port : Z) (branch : string)
    : result string SipError :=
  if is_empty_str host
  then Err (SipError_new InvalidHeader None "Via host must not be empty")
  else
    let? tt := validate_token transport "Via transport" in
    let? tt := validate_token branch "Via branch" in
    Ok ("SIP/2.0/" +:+ transport +:+ " " +:+ host +:+ ":" +:+ show_uint port
        +:+ ";branch=" +:+ branch).

(** [HeaderValue::from_uri], [to_uri], [contact_uri], [cseq]. *)
Definition header_from_uri (uri : SipUri) (tag : string) : result string SipError :=
  let? tt := validate_token tag "From tag" in
  Ok ("<" +:+ uri_encode uri +:+ ">;tag=" +:+ tag).
Definition header_to_uri (uri : SipUri) : string := "<" +:+ uri_encode uri +:+ ">".
Definition header_contact_uri (uri : SipUri) : string := "<" +:+ uri_encode uri +:+ ">".
Definition header_cseq (seq : Z) (m : Method) : string := show_uint seq +:+ " " +:+ Method_str m.

Lemma token_char_solid a : is_token_char a = true -> solid a = true.
Proof.
  unfold is_token_char, solid, is_ascii_lowercase, is_ascii_uppercase, is_ascii_digit.
  rewrite !orb_true_iff. intros [[[?|?]|?]|Hex]; [lia..|].
  apply existsb_exists in Hex as (b & Hin & Hb). apply Ascii.eqb_eq in Hb. subst b.
  simpl in Hin. repeat destruct Hin as [<-|Hin]; [reflexivity..|done].
Qed.

Lemma validate_token_Ok value what :
  validate_token value what = Ok tt <-> value <> "" /\ str_all is_token_char value = true.
Proof.
  unfold validate_token. destruct value as [|a v]; simpl; [naive_solver|].
  destruct (is_token_char a && str_all is_token_char v); simpl; naive_solver.
Qed.

(** A CSeq value built for a number and a method parses to them. *)
Lemma parse_header_cseq n m :
  is_u32 n -> wf_method m = true -> parse_cseq (header_cseq n m) = Ok (n, m).
Proof.
  intros Hn Hm. unfold is_u32, U32_MAX in Hn. unfold parse_cseq, header_cseq.
  change (" " +:+ Method_str m) with (String " " (Method_str m)).
  rewrite splitn2_ws_app by (apply show_uint_solid; lia).
  rewrite parse_show_uint by (unfold U32_MAX, U64_MAX; lia). simpl.
  by rewrite Method_parse_str.
Qed.

(** ** Method routing ([sip/routing.rs]) *)

Inductive RequestRoute :=
| RouteRegister | RouteMessage | RouteOptions | RouteInvite | RouteAck
| RouteCancel | RouteBye | RouteInfo | RouteSubscribe | RouteNotify
| RouteUnsupported.

#[global] Instance RequestRoute_eq_dec : EqDecision RequestRoute.
Proof. solve_decision. Defined.

Definition from_method (m : Method) : RequestRoute :=
  match m with
  | REGISTER => RouteRegister | MESSAGE => RouteMessage | OPTIONS => RouteOptions
  | INVITE => RouteInvite | ACK => RouteAck | CANCEL => RouteCancel | BYE => RouteBye
  | INFO => RouteInfo | SUBSCRIBE => RouteSubscribe | NOTIFY => RouteNotify
  | OtherMethod _ => RouteUnsupported
  end.

Definition delivers_to_tu (r : RequestRoute) : bool :=
  match r with RouteAck => false | _ => true end.
Definition is_dialog_route (r : RequestRoute) : bool :=
  match r with RouteInvite | RouteAck | RouteBye | RouteInfo => true | _ => false end.
Definition creates_server_transaction (r : RequestRoute) : bool :=
  match r with RouteAck => false | _ => true end.
Definition route_request (m : SipMessage) : option RequestRoute :=
  match m with
  | Request line _ _ => Some (from_method (rl_method line))
  | Response _ _ _ => None
  end.

Lemma cseq_u32 m n method : cseq m = Ok (n, method) -> is_u32 n.
Proof.
  unfold cseq, parse_cseq, is_u32. destruct (get _ _); [|done].
  destruct (splitn2_ws _) as [num rest]. destruct (parse_uint U32_MAX num) eqn:Hp; [|done]. simpl.
  apply parse_uint_range in Hp. intros Hk. assert (z = n) as ->; [|lia].
  destruct rest; simpl in Hk; [|done]. destruct (Method_parse _); simpl in Hk; congruence.
Qed.
