(* ===== verification/SipTimers.v ===== *)
(** * Transaction timers

    [sip/transaction/timers.rs]: the timer identifiers of RFC 3261, the timer
    configuration, the retransmission schedules, and the set of armed timers. *)

From S2P Require Import Prelude RustStr SipUri SipMessage.

Open Scope Z_scope.

Inductive TransportKind := Unreliable | Reliable.

#[global] Instance TransportKind_eq_dec : EqDecision TransportKind.
Proof. solve_decision. Defined.

Definition is_reliable (t : TransportKind) : bool :=
  match t with Reliable => true | Unreliable => false end.

(** Declared in the order of the source, which is the order of [kind as u8]. *)
Inductive TimerKind :=
| TimerA | TimerB | TimerF | TimerD | TimerE | TimerG | TimerH | TimerI | TimerJ | TimerK.

#[global] Instance TimerKind_eq_dec : EqDecision TimerKind.
Proof. solve_decision. Defined.

Definition timer_u8 (k : TimerKind) : nat :=
  match k with
  | TimerA => 0 | TimerB => 1 | TimerF => 2 | TimerD => 3 | TimerE => 4
  | TimerG => 5 | TimerH => 6 | TimerI => 7 | TimerJ => 8 | TimerK => 9
  end%nat.

Definition timer_of_u8 (n : nat) : TimerKind :=
  match n with
  | 0 => TimerA | 1 => TimerB | 2 => TimerF | 3 => TimerD | 4 => TimerE
  | 5 => TimerG | 6 => TimerH | 7 => TimerI | 8 => TimerJ | _ => TimerK
  end%nat.

Lemma timer_of_u8_u8 k : timer_of_u8 (timer_u8 k) = k.
Proof. by destruct k. Qed.

#[global] Instance TimerKind_countable : Countable TimerKind :=
  inj_countable' timer_u8 timer_of_u8 timer_of_u8_u8.

#[global] Instance timer_u8_inj : Inj (=) (=) timer_u8.
Proof. intros x y Hxy. by rewrite <- (timer_of_u8_u8 x), Hxy, timer_of_u8_u8. Qed.

Definition DEFAULT_T1_MS : Z := 500.
Definition DEFAULT_T2_MS : Z := 4000.
Definition DEFAULT_T4_MS : Z := 5000.
Definition RETRY_CAP_FACTOR : Z := 64.

Record TransactionConfig := mkTxConfig {
  t1 : Z; t2 : Z; t4 : Z; transport : TransportKind }.

Definition TransactionConfig_default : TransactionConfig :=
  mkTxConfig (from_millis DEFAULT_T1_MS) (from_millis DEFAULT_T2_MS)
             (from_millis DEFAULT_T4_MS) Unreliable.

Definition for_transport (tr : TransportKind) : TransactionConfig :=
  mkTxConfig (from_millis DEFAULT_T1_MS) (from_millis DEFAULT_T2_MS)
             (from_millis DEFAULT_T4_MS) tr.

(** [2u64.saturating_pow(n)]. *)
Definition sat_pow2 (n : Z) : Z := if n <? 64 then 2 ^ n else U64_MAX.

(** [millis_u64] and [scale_duration]; where the [u128] multiplication
    saturates, the result is above [u64::MAX] and the [min] decides. *)
Definition millis_u64 (d : Z) : Z := Z.min (as_millis d) U64_MAX.
Definition scale_duration (d multiplier : Z) : Z := Z.min (d * multiplier) U64_MAX.

Definition timer_a (cfg : TransactionConfig) (n : Z) : Z :=
  if is_reliable (transport cfg) then 0
  else
    let factor := sat_pow2 n in
    let t1_ms := millis_u64 (t1 cfg) in
    let t2_ms := millis_u64 (t2 cfg) in
    let cap := t2_ms / Z.max t1_ms 1 in
    let capped := Z.min factor cap in
    let capped := Z.max capped 1 in
    scale_duration (t1 cfg) capped.

Definition timer_b (cfg : TransactionConfig) : outcome Z := dur_mul (t1 cfg) RETRY_CAP_FACTOR.
Definition timer_c (cfg : TransactionConfig) : Z := from_secs 180.
Definition timer_d (cfg : TransactionConfig) : Z :=
  if is_reliable (transport cfg) then 0 else from_secs 32.

Definition timer_e (cfg : TransactionConfig) (n : Z) : Z :=
  if is_reliable (transport cfg) then 0
  else
    let factor := sat_pow2 n in
    let t1_ms := millis_u64 (t1 cfg) in
    let t2_ms := millis_u64 (t2 cfg) in
    let cap := t2_ms / Z.max t1_ms 1 in
    let capped := Z.min factor cap in
    let capped := Z.max capped 1 in
    scale_duration (t1 cfg) capped.

Definition timer_f (cfg : TransactionConfig) : outcome Z := dur_mul (t1 cfg) RETRY_CAP_FACTOR.
Definition timer_g (cfg : TransactionConfig) (n : Z) : Z :=
  if is_reliable (transport cfg) then 0 else timer_e cfg n.
Definition timer_h (cfg : TransactionConfig) : outcome Z := dur_mul (t1 cfg) RETRY_CAP_FACTOR.
Definition timer_i (cfg : TransactionConfig) : Z :=
  if is_reliable (transport cfg) then 0 else t4 cfg.
Definition timer_j (cfg : TransactionConfig) : outcome Z :=
  if is_reliable (transport cfg) then Done 0 else timer_b cfg.
Definition timer_k (cfg : TransactionConfig) : Z :=
  if is_reliable (transport cfg) then 0 else t4 cfg.

(** ** Bounds *)

(** A configuration whose timers exist: [64 * T1] fits a [Duration]. *)
Definition config_ok (cfg : TransactionConfig) : Prop :=
  is_duration (t1 cfg) /\ is_duration (t2 cfg) /\ is_duration (t4 cfg)
  /\ t1 cfg * RETRY_CAP_FACTOR <= DURATION_MAX.

(** An upper bound on every timer of the configuration. *)
Definition timer_bound (cfg : TransactionConfig) : Z :=
  Z.max (t1 cfg * RETRY_CAP_FACTOR) (Z.max (t2 cfg) (Z.max (t4 cfg) U64_MAX)).

(** The clock leaves room for the longest timer. *)
Definition clock_ok (cfg : TransactionConfig) (now : Z) : Prop :=
  0 <= now /\ now + timer_bound cfg <= DURATION_MAX.

Lemma timer_a_timer_e cfg n : timer_a cfg n = timer_e cfg n.
Proof. done. Qed.

Lemma timer_e_bound cfg n : config_ok cfg -> 0 <= timer_e cfg n <= timer_bound cfg.
Proof.
  intros ([? ?] & [? ?] & [? ?] & ?). unfold timer_e, timer_bound, scale_duration.
  destruct (is_reliable _); [unfold U64_MAX; lia|]. cbv zeta.
  match goal with |- context [Z.max ?x 1] => generalize (Z.max x 1) (Z.le_max_r x 1) end.
  intros z Hz. unfold U64_MAX. nia.
Qed.

Lemma timer_g_bound cfg n : config_ok cfg -> 0 <= timer_g cfg n <= timer_bound cfg.
Proof.
  intros H. unfold timer_g. destruct (is_reliable _); [|by apply timer_e_bound].
  unfold timer_bound, U64_MAX. lia.
Qed.

Lemma timer_d_bound cfg : 0 <= timer_d cfg <= timer_bound cfg.
Proof.
  unfold timer_d, timer_bound, from_secs, NANOS_PER_SEC, U64_MAX. destruct (is_reliable _); lia.
Qed.

Lemma timer_i_bound cfg : config_ok cfg -> 0 <= timer_i cfg <= timer_bound cfg.
Proof.
  intros (_ & _ & [? ?] & _). unfold timer_i, timer_bound, U64_MAX. destruct (is_reliable _); lia.
Qed.

Lemma timer_k_bound cfg : config_ok cfg -> 0 <= timer_k cfg <= timer_bound cfg.
Proof. apply timer_i_bound. Qed.

Lemma t2_bound cfg : config_ok cfg -> 0 <= t2 cfg <= timer_bound cfg.
Proof. intros (_ & [? ?] & _ & _). unfold timer_bound. lia. Qed.

Lemma timer_b_Done cfg : config_ok cfg -> timer_b cfg = Done (t1 cfg * RETRY_CAP_FACTOR).
Proof.
  intros (_ & _ & _ & Hle). unfold timer_b, dur_mul.
  by destruct (Z.leb_spec (t1 cfg * RETRY_CAP_FACTOR) DURATION_MAX); [|lia].
Qed.

Lemma t1_64_bound cfg :
  config_ok cfg -> 0 <= t1 cfg * RETRY_CAP_FACTOR <= timer_bound cfg.
Proof. intros ([? ?] & _). unfold timer_bound, RETRY_CAP_FACTOR. lia. Qed.

(** ** The retransmission schedule

    With [T1] a positive whole number of milliseconds not above [T2], the
    interval starts at [T1], never shrinks, and never exceeds [T2]. *)

Definition whole_millis (d : Z) : Prop := exists ms, 0 <= ms <= U64_MAX /\ d = from_millis ms.

Lemma millis_u64_from ms : 0 <= ms <= U64_MAX -> millis_u64 (from_millis ms) = ms.
Proof.
  intros. unfold millis_u64, as_millis, from_millis, NANOS_PER_MILLI.
  rewrite Z.div_mul by lia. lia.
Qed.

Lemma sat_pow2_ge1 n : 0 <= n -> 1 <= sat_pow2 n.
Proof.
  intros. unfold sat_pow2, U64_MAX. destruct (n <? 64); [|lia].
  pose proof (Z.pow_pos_nonneg 2 n). lia.
Qed.

Lemma sat_pow2_mono n m : 0 <= n <= m -> sat_pow2 n <= sat_pow2 m.
Proof.
  intros. unfold sat_pow2. destruct (Z.ltb_spec n 64), (Z.ltb_spec m 64); try lia.
  - apply Z.pow_le_mono_r; lia.
  - unfold U64_MAX. assert (2 ^ n <= 2 ^ 63) by (apply Z.pow_le_mono_r; lia). lia.
Qed.

Lemma timer_e_unfold cfg n ms1 ms2 :
  transport cfg = Unreliable ->
  t1 cfg = from_millis ms1 -> 1 <= ms1 <= U64_MAX ->
  t2 cfg = from_millis ms2 -> ms1 <= ms2 <= U64_MAX ->
  0 <= n ->
  timer_e cfg n = Z.min (t1 cfg * Z.min (sat_pow2 n) (ms2 / ms1)) U64_MAX.
Proof.
  intros Htr H1 Hm1 H2 Hm2 Hn. unfold timer_e. rewrite Htr. simpl.
  rewrite H1, H2, !millis_u64_from by lia. rewrite (Z.max_l ms1 1) by lia.
  assert (1 <= ms2 / ms1) by (apply Z.div_le_lower_bound; lia).
  pose proof (sat_pow2_ge1 n Hn).
  rewrite Z.max_l by lia. done.
Qed.

Section schedule.
Context (cfg : TransactionConfig) (ms1 ms2 : Z).
Context (Htr : transport cfg = Unreliable).
Context (Ht1 : t1 cfg = from_millis ms1) (Hms1 : 1 <= ms1 <= U64_MAX).
Context (Ht2 : t2 cfg = from_millis ms2) (Hms2 : ms1 <= ms2 <= U64_MAX).

Lemma timer_e_start : t1 cfg <= U64_MAX -> timer_e cfg 0 = t1 cfg.
Proof using All.
  intros. rewrite (timer_e_unfold cfg 0 ms1 ms2) by (done || lia).
  assert (1 <= ms2 / ms1) by (apply Z.div_le_lower_bound; lia).
  change (sat_pow2 0) with 1. rewrite (Z.min_l 1) by lia. lia.
Qed.

Lemma timer_e_mono n : 0 <= n -> timer_e cfg n <= timer_e cfg (n + 1).
Proof using All.
  intros. rewrite !(timer_e_unfold cfg _ ms1 ms2) by (done || lia).
  pose proof (sat_pow2_mono n (n + 1)). rewrite Ht1. unfold from_millis, NANOS_PER_MILLI.
  apply Z.min_le_compat_r. apply Z.mul_le_mono_nonneg_l; lia.
Qed.

Lemma timer_e_cap n : 0 <= n -> timer_e cfg n <= t2 cfg.
Proof using All.
  intros. rewrite (timer_e_unfold cfg _ ms1 ms2) by (done || lia).
  rewrite Ht1, Ht2. unfold from_millis, NANOS_PER_MILLI.
  pose proof (Z.mul_div_le ms2 ms1). etransitivity; [apply Z.le_min_l|].
  assert (ms1 * Z.min (sat_pow2 n) (ms2 / ms1) <= ms1 * (ms2 / ms1))
    by (apply Z.mul_le_mono_nonneg_l; lia). lia.
Qed.
End schedule.

(** ** Sets of timers ([TimerSet]) *)

Definition TimerSet := list TimerKind.
Definition ts_new : TimerSet := [].
Definition ts_contains (s : TimerSet) (k : TimerKind) : bool := bool_decide (k ∈ s).
Definition ts_set (s : TimerSet) (k : TimerKind) : TimerSet :=
  if ts_contains s k then s else s ++ [k].
Definition ts_cancel (s : TimerSet) (k : TimerKind) : TimerSet := filter (fun j => j <> k) s.
Definition ts_take_all (s : TimerSet) : list TimerKind * TimerSet := (s, []).

(** The set never lists a kind twice. *)
Lemma ts_set_NoDup s k : NoDup s -> NoDup (ts_set s k).
Proof.
  intros Hnd. unfold ts_set, ts_contains. case_bool_decide; [done|].
  apply NoDup_app. split; [done|]. split; [set_solver|]. apply NoDup_singleton.
Qed.

Lemma ts_cancel_NoDup s k : NoDup s -> NoDup (ts_cancel s k).
Proof. intros. by apply NoDup_filter. Qed.

Lemma ts_set_spec s k j : ts_contains (ts_set s k) j = bool_decide (j = k) || ts_contains s j.
Proof.
  unfold ts_set, ts_contains. rewrite <- bool_decide_or.
  destruct (bool_decide_reflect (k ∈ s)); apply bool_decide_ext; set_solver.
Qed.

Lemma ts_cancel_spec s k j :
  ts_contains (ts_cancel s k) j = negb (bool_decide (j = k)) && ts_contains s j.
Proof.
  unfold ts_cancel, ts_contains. rewrite <- bool_decide_not, <- bool_decide_and.
  apply bool_decide_ext. rewrite list_elem_of_filter. done.
Qed.

(** ** Claims on URIs, headers and timers

    The codec of SIP URIs ([sip/uri.rs]), the header table ([sip/headers.rs]),
    the CSeq header and the retransmission schedule ([transaction/timers.rs]). *)
Open Scope string_scope.
Open Scope list_scope.

(** Printing a well-formed SIP URI and parsing the text gives the URI back:
    scheme, user, password, host (also a bracketed IPv6 literal), port and every
    parameter in order. *)
Theorem uri_roundtrip u : wf_uri u -> uri_parse (uri_encode u) = Ok u.
Proof. apply uri_parse_encode. Qed.

Definition sample_uri : SipUri :=
  mkSipUri Sip (Some "34020000001320000001") None "[2001:db8::1]" (Some 5060)
    [("transport", Some "tcp"); ("lr", None)].

Lemma uri_roundtrip_witness :
  uri_encode sample_uri = "sip:34020000001320000001@[2001:db8::1]:5060;transport=tcp;lr"
  /\ uri_parse (uri_encode sample_uri) = Ok sample_uri.
Proof.
  split; [reflexivity|]. apply (uri_roundtrip sample_uri). split_and!.
  - split; [discriminate | reflexivity].
  - split_and!; [reflexivity | discriminate | right]. exists "2001:db8::1". split; reflexivity.
  - intros p [= <-]. vm_compute. split; discriminate.
  - repeat constructor; try reflexivity; discriminate.
  - vm_compute. lia.
Defined.

(** The header table, an insertion-ordered list with a case-insensitive
    index, answers every lookup as a scan of the appended lines would: [get] the
    first value of the name and [get_all] all of them in order, whatever was
    appended and in whatever spelling. *)
Theorem headers_lookup l name :
  get_all (headers_of l) name = snd <$> filter (named name) l
  /\ get (headers_of l) name = head (snd <$> filter (named name) l).
Proof. split; [apply get_all_spec | apply get_spec]. Qed.

(** Spellings of one name share an entry of the index. *)
Example headers_case_scenario :
  let h := headers_of [(HeaderName_parse "X-Route", "1"); (HeaderName_parse "Via", "a");
                       (HeaderName_parse "x-ROUTE", "2"); (HeaderName_parse "v", "b")] in
  get_all h (HeaderName_parse "X-route") = ["1"; "2"] /\ get_all h HVia = ["a"; "b"].
Proof. vm_compute. split; reflexivity. Qed.

(** A CSeq header value built from a 32-bit number and a method parses back
    to them. *)
Theorem cseq_roundtrip n m :
  is_u32 n -> wf_method m = true -> parse_cseq (header_cseq n m) = Ok (n, m).
Proof. apply parse_header_cseq. Qed.

Lemma cseq_roundtrip_witness : parse_cseq (header_cseq U32_MAX INVITE) = Ok (U32_MAX, INVITE).
Proof.
  apply (cseq_roundtrip U32_MAX INVITE); [|reflexivity]. vm_compute. split; discriminate.
Defined.

(** On an unreliable transport with T1 and T2 in whole milliseconds, the
    non-INVITE retransmission interval starts at T1, never shrinks and never
    exceeds T2. *)
Theorem retransmission_schedule cfg ms1 ms2 n :
  transport cfg = Unreliable ->
  t1 cfg = from_millis ms1 -> 1 <= ms1 <= U64_MAX -> t1 cfg <= U64_MAX ->
  t2 cfg = from_millis ms2 -> ms1 <= ms2 <= U64_MAX -> 0 <= n ->
  timer_e cfg 0 = t1 cfg /\ timer_e cfg n <= timer_e cfg (n + 1) /\ timer_e cfg n <= t2 cfg.
Proof.
  intros. split_and!.
  - by eapply timer_e_start.
  - by eapply timer_e_mono.
  - by eapply timer_e_cap.
Qed.

Lemma retransmission_schedule_witness :
  timer_e TransactionConfig_default 3 <= timer_e TransactionConfig_default 4
  /\ timer_e TransactionConfig_default 3 = from_millis 4000.
Proof.
  split; [|vm_compute; reflexivity].
  destruct (retransmission_schedule TransactionConfig_default 500 4000 3) as (_ & H & _);
    [reflexivity|reflexivity|vm_compute; split; discriminate|vm_compute; discriminate|reflexivity
    |vm_compute; split; discriminate|lia|]. exact H.
Defined.
