(* ===== verification/SipFsm.v ===== *)
(** * The client and server transaction state machines

    [sip/transaction/state_machine.rs], [client.rs] and [server.rs].  A
    transaction consumes an event at a monotonic time and produces an ordered
    list of outputs.  [Fsm] and [FsmLaws] state what a machine promises to the
    transaction manager; the client, the server and their sum are instances. *)

From S2P Require Import Prelude RustStr SipUri SipMessage SipTimers.
Open Scope string_scope.
Open Scope list_scope.
Open Scope Z_scope.

Inductive TransactionEvent :=
| EvRequest (m : SipMessage)
| EvResponse (m : SipMessage)
| EvTimer (k : TimerKind)
| EvTransportError.

Inductive TransactionOutput :=
| SendMessage (m : SipMessage)
| Deliver (m : SipMessage)
| SetTimer (kind : TimerKind) (deadline : Z)
| CancelTimer (kind : TimerKind)
| Complete
| Failure (e : SipErrorKind).

Definition is_deliver (o : TransactionOutput) : bool :=
  match o with Deliver _ => true | _ => false end.
Definition is_complete (o : TransactionOutput) : bool :=
  match o with Complete => true | _ => false end.

(** [SetTimer { kind, deadline: now + d }]. *)
Definition set_timer (kind : TimerKind) (now d : Z) : outcome TransactionOutput :=
  SetTimer kind <$> dur_add now d.

(** The effect of a list of outputs on the armed timers. *)
Definition apply_timer (tm : gmap TimerKind Z) (o : TransactionOutput) : gmap TimerKind Z :=
  match o with
  | SetTimer k d => <[k := d]> tm
  | CancelTimer k => delete k tm
  | _ => tm
  end.
Definition apply_timers (outs : list TransactionOutput) (tm : gmap TimerKind Z) : gmap TimerKind Z :=
  fold_left apply_timer outs tm.

(** ** What a transaction machine promises *)

Class Fsm (T : Type) := {
  fsm_process : T -> TransactionEvent -> Z -> outcome (T * list TransactionOutput);
  fsm_terminated : T -> bool;
  fsm_config : T -> TransactionConfig;
  (** the invariant of the machine *)
  fsm_wf : T -> Prop;
  (** the timer that ends the present state, if one does *)
  fsm_guard : T -> option TimerKind
}.

Class FsmLaws (T : Type) `{Fsm T} : Prop := {
  (** An event is processed without panic and keeps the invariant. *)
  fsm_total : forall t ev now,
    fsm_wf t -> config_ok (fsm_config t) -> clock_ok (fsm_config t) now ->
    wp (fsm_process t ev now) (fun r => fsm_wf r.1 /\ fsm_config r.1 = fsm_config t);
  (** [Complete] announces termination, and nothing else does. *)
  fsm_complete : forall t ev now t' outs,
    fsm_process t ev now = Done (t', outs) -> fsm_terminated t = false ->
    existsb is_complete outs = fsm_terminated t';
  (** The guard timer of a live state stays armed. *)
  fsm_guard_armed : forall t ev now t' outs tm,
    fsm_wf t -> fsm_process t ev now = Done (t', outs) ->
    (forall k, fsm_guard t = Some k -> ev <> EvTimer k -> is_Some (tm !! k)) ->
    forall k, fsm_guard t' = Some k -> is_Some (apply_timers outs tm !! k);
  (** The guard timer ends the transaction. *)
  fsm_guard_fires : forall t k now t' outs,
    fsm_wf t -> fsm_guard t = Some k ->
    fsm_process t (EvTimer k) now = Done (t', outs) -> fsm_terminated t' = true;
  (** Any other timer that leaves the transaction alive leaves its guard alone. *)
  fsm_timer_keeps : forall t k now t' outs tm,
    fsm_wf t -> fsm_process t (EvTimer k) now = Done (t', outs) -> fsm_terminated t' = false ->
    fsm_guard t' = fsm_guard t
    /\ forall g, fsm_guard t = Some g -> apply_timers outs tm !! g = tm !! g;
  fsm_guard_terminated : forall t, fsm_terminated t = true -> fsm_guard t = None;
  (** Every armed deadline is at most [timer_bound] away. *)
  fsm_deadlines : forall t ev now t' outs,
    config_ok (fsm_config t) -> fsm_process t ev now = Done (t', outs) ->
    forall k d, SetTimer k d ∈ outs -> d <= now + timer_bound (fsm_config t)
}.

(** ** Client transactions *)

Module Client.

Inductive ClientState := Calling | Trying | Proceeding | Completed | Terminated.

#[global] Instance ClientState_eq_dec : EqDecision ClientState.
Proof. solve_decision. Defined.

Record ClientTransaction := mkClient {
  config : TransactionConfig;
  request : SipMessage;
  is_invite : bool;
  state : ClientState;
  retransmit_count : Z;
  final_response : option SipMessage
}.

Definition with_state (s : ClientState) (t : ClientTransaction) : ClientTransaction :=
  mkClient (config t) (request t) (is_invite t) s (retransmit_count t) (final_response t).
Definition with_count (n : Z) (t : ClientTransaction) : ClientTransaction :=
  mkClient (config t) (request t) (is_invite t) (state t) n (final_response t).
Definition with_final (r : option SipMessage) (t : ClientTransaction) : ClientTransaction :=
  mkClient (config t) (request t) (is_invite t) (state t) (retransmit_count t) r.

(** [ClientTransaction::new]. *)
Definition new (request : SipMessage) (config : TransactionConfig) : ClientTransaction :=
  let is_invite := bool_decide (request_method request = Some INVITE) in
  mkClient config request is_invite (if is_invite then Calling else Trying) 0 None.

Definition is_terminated (t : ClientTransaction) : bool :=
  match state t with Terminated => true | _ => false end.

Definition ack_allowed (name : HeaderName) : bool :=
  existsb (header_eqb name) [HFrom; HCallId; HRoute; HMaxForwards].

(** The headers copied from the INVITE: the top Via, then the allowed ones. *)
Definition ack_base_headers (headers : SipHeaders) : SipHeaders :=
  let h := headers_new in
  let h := match head (get_all headers HVia) with
           | Some top_via => append h HVia top_via
           | None => h
           end in
  fold_left (fun h nv => if ack_allowed nv.1 then append h nv.1 nv.2 else h)
            (sh_lines headers) h.

(** [build_ack]. *)
Definition build_ack (invite response : SipMessage) : outcome SipMessage :=
  match invite with
  | Request line headers _ =>
      let headers := ack_base_headers headers in
      let headers := match get (msg_headers response) HTo with
                     | Some to => append headers HTo to
                     | None => headers
                     end in
      let seq := match cseq invite with Ok (seq, _) => seq | Err _ => 0 end in
      let headers := append headers HCSeq (show_uint seq +:+ " ACK") in
      Done (Request (RequestLine_new ACK (rl_uri line)) headers "")
  | Response _ _ _ => Panic
  end.

Definition terminate (t : ClientTransaction) : ClientTransaction * list TransactionOutput :=
  (with_state Terminated t, [Complete]).

Definition terminate_with_failure (t : ClientTransaction) (kind : SipErrorKind)
    : ClientTransaction * list TransactionOutput :=
  (with_state Terminated t, [Failure kind; Complete]).

(** [on_invite_response]. *)
Definition on_invite_response (t : ClientTransaction) (resp : SipMessage) (now : Z)
    : outcome (ClientTransaction * list TransactionOutput) :=
  let code := default 0 (response_code resp) in
  if is_provisional code then
    Done (with_state Proceeding t, [CancelTimer TimerA; Deliver resp])
  else if is_success code then
    Done (with_state Terminated t,
          [CancelTimer TimerA; CancelTimer TimerB; Deliver resp; Complete])
  else if is_failure code then
    let t := with_final (Some resp) t in
    let out := [CancelTimer TimerA; CancelTimer TimerB; Deliver resp] in
    out ← match final_response t with
          | Some final_response =>
              ack ← build_ack (request t) final_response;
              mret (out ++ [SendMessage ack])
          | None => mret out
          end;
    if timer_d (config t) =? 0 then
      mret (with_state Terminated t, out ++ [Complete])
    else
      set ← set_timer TimerD now (timer_d (config t));
      mret (with_state Completed t, out ++ [set])
  else Done (t, []).

(** [on_invite_response_completed]. *)
Definition on_invite_response_completed (t : ClientTransaction) (resp : SipMessage)
    : outcome (ClientTransaction * list TransactionOutput) :=
  let code := default 0 (response_code resp) in
  if is_failure code then
    match final_response t with
    | Some final_response =>
        ack ← build_ack (request t) final_response;
        mret (t, [SendMessage ack])
    | None => Done (t, [])
    end
  else Done (t, []).

(** [on_invite_timer_a]. *)
Definition on_invite_timer_a (t : ClientTransaction) (now : Z)
    : outcome (ClientTransaction * list TransactionOutput) :=
  if decide (state t <> Calling) then Done (t, [])
  else
    let t := with_count (wrap32 (retransmit_count t + 1)) t in
    set ← set_timer TimerA now (timer_a (config t) (retransmit_count t));
    mret (t, [SendMessage (request t); set]).

Definition on_invite_timer_b (t : ClientTransaction) : ClientTransaction * list TransactionOutput :=
  terminate_with_failure t TransactionTimeout.

(** [on_non_invite_response]. *)
Definition on_non_invite_response (t : ClientTransaction) (resp : SipMessage) (now : Z)
    : outcome (ClientTransaction * list TransactionOutput) :=
  let code := default 0 (response_code resp) in
  if is_provisional code then
    set ← set_timer TimerE now (t2 (config t));
    mret (with_state Proceeding t, [set; Deliver resp])
  else if (200 <=? code) && (code <? 700) then
    let t := with_state Completed t in
    let out := [CancelTimer TimerE; CancelTimer TimerF; Deliver resp] in
    if timer_k (config t) =? 0 then
      mret (with_state Terminated t, out ++ [Complete])
    else
      set ← set_timer TimerK now (timer_k (config t));
      mret (t, out ++ [set])
  else Done (t, []).

(** [on_non_invite_timer_e]. *)
Definition on_non_invite_timer_e (t : ClientTransaction) (now : Z)
    : outcome (ClientTransaction * list TransactionOutput) :=
  if decide (state t <> Trying) then Done (t, [])
  else
    let t := with_count (wrap32 (retransmit_count t + 1)) t in
    set ← set_timer TimerE now (timer_e (config t) (retransmit_count t));
    mret (t, [SendMessage (request t); set]).

(** [on_non_invite_timer_e_proceeding]. *)
Definition on_non_invite_timer_e_proceeding (t : ClientTransaction) (now : Z)
    : outcome (ClientTransaction * list TransactionOutput) :=
  if decide (state t <> Proceeding) then Done (t, [])
  else
    set ← set_timer TimerE now (t2 (config t));
    mret (t, [SendMessage (request t); set]).

Definition on_non_invite_timer_f (t : ClientTransaction)
    : ClientTransaction * list TransactionOutput :=
  terminate_with_failure t TransactionTimeout.

(** [ClientTransaction::process]: the arms of the source, its guards as the
    third discriminee. *)
Definition process (t : ClientTransaction) (ev : TransactionEvent) (now : Z)
    : outcome (ClientTransaction * list TransactionOutput) :=
  match state t, ev, is_invite t with
  | Calling, EvTimer TimerA, true => on_invite_timer_a t now
  | (Calling | Proceeding), EvTimer TimerB, true => Done (on_invite_timer_b t)
  | Completed, EvTimer TimerD, true => Done (terminate t)
  | (Calling | Proceeding), EvResponse resp, true => on_invite_response t resp now
  | Completed, EvResponse resp, true => on_invite_response_completed t resp
  | Trying, EvTimer TimerE, false => on_non_invite_timer_e t now
  | Proceeding, EvTimer TimerE, false => on_non_invite_timer_e_proceeding t now
  | (Trying | Proceeding), EvTimer TimerF, false => Done (on_non_invite_timer_f t)
  | Completed, EvTimer TimerK, false => Done (terminate t)
  | (Trying | Proceeding), EvResponse resp, false => on_non_invite_response t resp now
  | (Completed | Terminated), EvResponse _, false => Done (t, [])
  | _, EvTransportError, _ => Done (terminate_with_failure t TransportFailure)
  | _, _, _ => Done (t, [])
  end.

(** [ClientTransaction::bootstrap]. *)
Definition bootstrap (t : ClientTransaction) (now : Z) : outcome (list TransactionOutput) :=
  if is_invite t then
    seta ← set_timer TimerA now (timer_a (config t) 0);
    b ← timer_b (config t);
    setb ← set_timer TimerB now b;
    mret [SendMessage (request t); seta; setb]
  else
    sete ← set_timer TimerE now (timer_e (config t) 0);
    f ← timer_f (config t);
    setf ← set_timer TimerF now f;
    mret [SendMessage (request t); sete; setf].

(** *** Invariant *)

Definition state_ok (t : ClientTransaction) : Prop :=
  match state t with
  | Calling => is_invite t = true
  | Trying => is_invite t = false
  | Completed => is_invite t = true -> is_Some (final_response t)
  | _ => True
  end.

Record wf (t : ClientTransaction) : Prop := {
  wf_request : is_request (request t) = true;
  wf_invite : is_invite t = bool_decide (request_method (request t) = Some INVITE);
  wf_state : state_ok t;
  wf_count : is_u32 (retransmit_count t)
}.

Definition guard (t : ClientTransaction) : option TimerKind :=
  match is_invite t, state t with
  | true, (Calling | Proceeding) => Some TimerB
  | true, Completed => Some TimerD
  | false, (Trying | Proceeding) => Some TimerF
  | false, Completed => Some TimerK
  | _, _ => None
  end.

(** The total-correctness rule for an armed timer. *)
Lemma wp_set_timer cfg kind now d (Q : TransactionOutput -> Prop) :
  clock_ok cfg now -> 0 <= d <= timer_bound cfg -> Q (SetTimer kind (now + d)) ->
  wp (set_timer kind now d) Q.
Proof.
  intros [? ?] [? ?] HQ. unfold set_timer. apply wp_fmap, wp_dur_add; [lia | done].
Qed.

Lemma build_ack_Done invite response :
  is_request invite = true -> exists ack, build_ack invite response = Done ack.
Proof. destruct invite; [eauto | done]. Qed.

Lemma cli_wf_new request cfg : is_request request = true -> wf (new request cfg).
Proof.
  intros Hr. split; simpl; [done | done | | done].
  unfold state_ok. simpl. by destruct (bool_decide _).
Qed.

(** Keeping the request, the kind and the configuration, a step keeps [wf] when
    the new state and counter are right. *)
Lemma cli_wf_update t t' :
  wf t -> request t' = request t -> is_invite t' = is_invite t ->
  state_ok t' -> is_u32 (retransmit_count t') -> wf t'.
Proof. intros [Hr Hi _ _] Hreq Hinv Hs Hc. by split; rewrite ?Hreq, ?Hinv. Qed.

#[local] Ltac wf_tac Hwf :=
  cbn [wp fst mret outcome_ret terminate terminate_with_failure on_invite_timer_b on_non_invite_timer_f];
  match goal with
  | |- _ /\ _ => split; [|done]
  | _ => idtac
  end;
  apply (cli_wf_update _ _ Hwf); simpl; try done;
  first [ exact (wf_state _ Hwf) | exact (wf_count _ Hwf) | apply wrap32_u32
        | unfold state_ok; simpl; congruence | idtac ].

Lemma on_invite_response_wp t resp now :
  wf t -> config_ok (config t) -> clock_ok (config t) now -> is_invite t = true ->
  wp (on_invite_response t resp now) (fun r => wf r.1 /\ config r.1 = config t).
Proof.
  intros Hwf Hcfg Hclk Hinv. unfold on_invite_response.
  destruct (is_provisional _); [by wf_tac Hwf|].
  destruct (is_success _); [by wf_tac Hwf|].
  destruct (is_failure _); [|done]. simpl.
  destruct (build_ack_Done (request t) resp (wf_request t Hwf)) as [ack ->]. simpl.
  destruct (timer_d (config t) =? 0); [by wf_tac Hwf|].
  apply wp_bind, (wp_set_timer (config t)); [done | apply timer_d_bound |].
  wf_tac Hwf. unfold state_ok. simpl. eauto.
Qed.

Lemma on_non_invite_response_wp t resp now :
  wf t -> config_ok (config t) -> clock_ok (config t) now -> is_invite t = false ->
  wp (on_non_invite_response t resp now) (fun r => wf r.1 /\ config r.1 = config t).
Proof.
  intros Hwf Hcfg Hclk Hinv. unfold on_non_invite_response.
  destruct (is_provisional _).
  { apply wp_bind, (wp_set_timer (config t)); [done | by apply t2_bound |]. by wf_tac Hwf. }
  destruct (_ && _); [|done]. simpl.
  destruct (timer_k (config t) =? 0); [by wf_tac Hwf|].
  apply wp_bind, (wp_set_timer (config t)); [done | by apply timer_k_bound |].
  wf_tac Hwf. 
Qed.

Lemma on_timers_wp t now :
  wf t -> config_ok (config t) -> clock_ok (config t) now ->
  wp (on_invite_timer_a t now) (fun r => wf r.1 /\ config r.1 = config t)
  /\ wp (on_non_invite_timer_e t now) (fun r => wf r.1 /\ config r.1 = config t)
  /\ wp (on_non_invite_timer_e_proceeding t now) (fun r => wf r.1 /\ config r.1 = config t).
Proof.
  intros Hwf Hcfg Hclk.
  unfold on_invite_timer_a, on_non_invite_timer_e, on_non_invite_timer_e_proceeding.
  split; [|split]; case_decide; try done; apply wp_bind, (wp_set_timer (config t)); try done;
    first [by apply timer_e_bound | by apply t2_bound | wf_tac Hwf].
Qed.

Lemma cli_process_wp t ev now :
  wf t -> config_ok (config t) -> clock_ok (config t) now ->
  wp (process t ev now) (fun r => wf r.1 /\ config r.1 = config t).
Proof.
  intros Hwf Hcfg Hclk. destruct (on_timers_wp t now Hwf Hcfg Hclk) as (Ha & He & Hp).
  unfold process.
  destruct (state t) eqn:Hs, ev as [req|resp|[]|], (is_invite t) eqn:Hi;
    try done; try (by wf_tac Hwf);
    try (by apply on_invite_response_wp); try (by apply on_non_invite_response_wp).
  unfold on_invite_response_completed. destruct (is_failure _); [|done].
  destruct (final_response t); [|done].
  destruct (build_ack_Done (request t) s (wf_request t Hwf)) as [ack ->]. done.
Qed.

(** Take a completed step [H : process t ev now = Done _] apart into its
    branches. *)
Ltac inv_step t ev H :=
  destruct t as [cfg req inv st cnt fin];
  destruct st, inv, ev as [?|?|[]|];
  unfold process, on_invite_response, on_invite_response_completed, on_invite_timer_a,
    on_invite_timer_b, on_non_invite_response, on_non_invite_timer_e,
    on_non_invite_timer_e_proceeding, on_non_invite_timer_f, set_timer,
    terminate, terminate_with_failure in H; simpl in H;
  repeat first
    [ match type of H with
      | context [match ?x with _ => _ end] => destruct x; simpl in H
      | context [if ?x then _ else _] => destruct x; simpl in H
      end
    | progress inv_done ];
  simplify_eq/=.

Lemma cli_process_complete t ev now t' outs :
  process t ev now = Done (t', outs) -> is_terminated t = false ->
  existsb is_complete outs = is_terminated t'.
Proof. intros H Hlive. inv_step t ev H; done. Qed.

Lemma cli_process_guard_armed t ev now t' outs tm :
  wf t -> process t ev now = Done (t', outs) ->
  (forall k, guard t = Some k -> ev <> EvTimer k -> is_Some (tm !! k)) ->
  forall k, guard t' = Some k -> is_Some (apply_timers outs tm !! k).
Proof.
  intros Hwf H Htm k Hg. pose proof (wf_state t Hwf) as Hs. unfold state_ok, guard in *.
  inv_step t ev H; unfold apply_timers; simpl; simplify_map_eq; try done; eauto;
    apply Htm; congruence.
Qed.

Lemma cli_process_guard_fires t k now t' outs :
  wf t -> guard t = Some k -> process t (EvTimer k) now = Done (t', outs) ->
  is_terminated t' = true.
Proof.
  intros Hwf Hg H. unfold guard in Hg. unfold process in H.
  destruct (is_invite t), (state t); simplify_eq/=; done.
Qed.

Lemma cli_process_timer_keeps t k now t' outs tm :
  wf t -> process t (EvTimer k) now = Done (t', outs) -> is_terminated t' = false ->
  guard t' = guard t /\ forall g, guard t = Some g -> apply_timers outs tm !! g = tm !! g.
Proof.
  intros Hwf H Hl. pose proof (wf_state t Hwf) as Hs. unfold state_ok, guard in *.
  remember (EvTimer k) as ev eqn:Hev.
  inv_step t ev H; try done; (split; [done|]); intros g [= <-];
    unfold apply_timers; simpl; by simplify_map_eq.
Qed.

Lemma cli_guard_terminated t : is_terminated t = true -> guard t = None.
Proof. unfold is_terminated, guard. by destruct (state t), (is_invite t). Qed.

Lemma cli_process_deadlines t ev now t' outs :
  config_ok (config t) -> process t ev now = Done (t', outs) ->
  forall k d, SetTimer k d ∈ outs -> d <= now + timer_bound (config t).
Proof.
  intros Hcfg H k d Hin.
  pose proof (fun n => timer_e_bound (config t) n Hcfg) as He.
  pose proof (timer_d_bound (config t)). pose proof (timer_k_bound (config t) Hcfg).
  pose proof (t2_bound (config t) Hcfg).
  inv_step t ev H; repeat (apply elem_of_cons in Hin as [Hin|Hin]; simplify_eq/=);
    try (by apply elem_of_nil in Hin); rewrite ?timer_a_timer_e;
    match goal with |- context [timer_e _ ?n] => specialize (He n); lia | _ => lia end.
Qed.

(** A step keeps the request and its kind. *)
Lemma cli_process_request t ev now t' outs :
  process t ev now = Done (t', outs) -> request t' = request t /\ is_invite t' = is_invite t.
Proof. intros H. inv_step t ev H; done. Qed.

(** The states only advance. *)
Definition rank (s : ClientState) : nat :=
  match s with Calling | Trying => 0 | Proceeding => 1 | Completed => 2 | Terminated => 3 end.

Lemma cli_process_rank t ev now t' outs :
  process t ev now = Done (t', outs) -> (rank (state t) <= rank (state t'))%nat.
Proof. intros H. inv_step t ev H; lia. Qed.

End Client.

#[global] Instance client_fsm : Fsm Client.ClientTransaction := {
  fsm_process := Client.process;
  fsm_terminated := Client.is_terminated;
  fsm_config := Client.config;
  fsm_wf := Client.wf;
  fsm_guard := Client.guard
}.

#[global] Instance client_laws : FsmLaws Client.ClientTransaction.
Proof.
  split; simpl.
  - apply Client.cli_process_wp.
  - apply Client.cli_process_complete.
  - apply Client.cli_process_guard_armed.
  - apply Client.cli_process_guard_fires.
  - apply Client.cli_process_timer_keeps.
  - apply Client.cli_guard_terminated.
  - apply Client.cli_process_deadlines.
Qed.

(** ** Server transactions *)

Module Server.

Inductive ServerState := Trying | Proceeding | Completed | Confirmed | Terminated.

#[global] Instance ServerState_eq_dec : EqDecision ServerState.
Proof. solve_decision. Defined.

Record ServerTransaction := mkServer {
  config : TransactionConfig;
  request : SipMessage;
  is_invite : bool;
  state : ServerState;
  provisional_response : option SipMessage;
  final_response : option SipMessage;
  retransmit_count : Z;
  cancelled : bool
}.

Definition with_state (s : ServerState) (t : ServerTransaction) : ServerTransaction :=
  mkServer (config t) (request t) (is_invite t) s (provisional_response t)
           (final_response t) (retransmit_count t) (cancelled t).
Definition with_provisional (r : option SipMessage) (t : ServerTransaction) : ServerTransaction :=
  mkServer (config t) (request t) (is_invite t) (state t) r
           (final_response t) (retransmit_count t) (cancelled t).
Definition with_final (r : option SipMessage) (t : ServerTransaction) : ServerTransaction :=
  mkServer (config t) (request t) (is_invite t) (state t) (provisional_response t)
           r (retransmit_count t) (cancelled t).
Definition with_count (n : Z) (t : ServerTransaction) : ServerTransaction :=
  mkServer (config t) (request t) (is_invite t) (state t) (provisional_response t)
           (final_response t) n (cancelled t).
Definition with_cancelled (b : bool) (t : ServerTransaction) : ServerTransaction :=
  mkServer (config t) (request t) (is_invite t) (state t) (provisional_response t)
           (final_response t) (retransmit_count t) b.

(** [ServerTransaction::new]. *)
Definition new (request : SipMessage) (config : TransactionConfig) : ServerTransaction :=
  let is_invite := bool_decide (request_method request = Some INVITE) in
  mkServer config request is_invite (if is_invite then Proceeding else Trying)
           None None 0 false.

Definition is_terminated (t : ServerTransaction) : bool :=
  match state t with Terminated => true | _ => false end.

(** [ServerTransaction::bootstrap]. *)
Definition bootstrap (t : ServerTransaction) : list TransactionOutput := [Deliver (request t)].

Definition terminate (t : ServerTransaction) : ServerTransaction * list TransactionOutput :=
  (with_state Terminated t, [Complete]).

Definition terminate_with_failure (t : ServerTransaction) (kind : SipErrorKind)
    : ServerTransaction * list TransactionOutput :=
  (with_state Terminated t, [Failure kind; Complete]).

(** [on_invite_cancel]. *)
Definition on_invite_cancel (t : ServerTransaction) (req : SipMessage)
    : ServerTransaction * list TransactionOutput :=
  let t := with_cancelled true t in
  let out := [Deliver req] in
  match final_response t with
  | None => (t, out ++ [Failure TransactionCancelled])
  | Some _ => (t, out)
  end.

(** [on_invite_request]. *)
Definition on_invite_request (t : ServerTransaction) (req : SipMessage)
    : ServerTransaction * list TransactionOutput :=
  match request_method req with
  | Some INVITE =>
      match provisional_response t with
      | Some resp => (t, [SendMessage resp])
      | None => (t, [])
      end
  | Some ACK => (t, [Deliver req])
  | Some CANCEL => on_invite_cancel t req
  | _ => (t, [])
  end.

(** [on_invite_ack]. *)
Definition on_invite_ack (t : ServerTransaction) (req : SipMessage) (now : Z)
    : outcome (ServerTransaction * list TransactionOutput) :=
  let out := [Deliver req] in
  let t := with_state Confirmed t in
  let out := out ++ [CancelTimer TimerG; CancelTimer TimerH] in
  if timer_i (config t) =? 0 then
    let '(t, more) := terminate t in mret (t, out ++ more)
  else
    set ← set_timer TimerI now (timer_i (config t));
    mret (t, out ++ [set]).

Definition is_set_g (o : TransactionOutput) : bool :=
  match o with SetTimer TimerG _ => true | _ => false end.

(** [on_invite_request_completed]. *)
Definition on_invite_request_completed (t : ServerTransaction) (req : SipMessage) (now : Z)
    : outcome (ServerTransaction * list TransactionOutput) :=
  match request_method req with
  | Some INVITE =>
      match final_response t with
      | Some resp =>
          let out := [SendMessage resp] in
          if is_reliable (transport (config t)) then mret (t, out)
          else if negb (existsb is_set_g out) then
            let t := with_count (wrap32 (retransmit_count t + 1)) t in
            set ← set_timer TimerG now (timer_g (config t) (retransmit_count t));
            mret (t, out ++ [set])
          else mret (t, out)
      | None => mret (t, [])
      end
  | Some ACK => on_invite_ack t req now
  | Some CANCEL => mret (on_invite_cancel t req)
  | _ => mret (t, [])
  end.

(** [on_invite_request_confirmed]. *)
Definition on_invite_request_confirmed (t : ServerTransaction) (req : SipMessage)
    : ServerTransaction * list TransactionOutput :=
  match request_method req with
  | Some ACK => (t, [Deliver req])
  | _ => (t, [])
  end.

(** [on_invite_tu_response]. *)
Definition on_invite_tu_response (t : ServerTransaction) (resp : SipMessage) (now : Z)
    : outcome (ServerTransaction * list TransactionOutput) :=
  let code := default 0 (response_code resp) in
  if is_provisional code then
    mret (with_state Proceeding (with_provisional (Some resp) t), [SendMessage resp])
  else if is_success code then
    mret (with_state Terminated t, [SendMessage resp; Complete])
  else if is_failure code then
    let t := with_state Completed (with_final (Some resp) t) in
    let out := [SendMessage resp] in
    out ← (if is_reliable (transport (config t)) then mret out
           else set ← set_timer TimerG now (timer_g (config t) 0); mret (out ++ [set]));
    h ← timer_h (config t);
    set ← set_timer TimerH now h;
    mret (t, out ++ [set])
  else mret (t, []).

(** [on_invite_timer_g]. *)
Definition on_invite_timer_g (t : ServerTransaction) (now : Z)
    : outcome (ServerTransaction * list TransactionOutput) :=
  match final_response t with
  | Some resp =>
      let t := with_count (wrap32 (retransmit_count t + 1)) t in
      set ← set_timer TimerG now (timer_g (config t) (retransmit_count t));
      mret (t, [SendMessage resp; set])
  | None => mret (t, [])
  end.

Definition on_invite_timer_h (t : ServerTransaction) : ServerTransaction * list TransactionOutput :=
  terminate_with_failure t TransactionTimeout.

Definition same_method (t : ServerTransaction) (req : SipMessage) : bool :=
  bool_decide (request_method req = request_method (request t)).

(** [on_non_invite_request_trying]. *)
Definition on_non_invite_request_trying (t : ServerTransaction) (req : SipMessage)
    : ServerTransaction * list TransactionOutput :=
  if same_method t req then (t, []) else (t, [Deliver req]).

(** [on_non_invite_request_proceeding]. *)
Definition on_non_invite_request_proceeding (t : ServerTransaction) (req : SipMessage)
    : ServerTransaction * list TransactionOutput :=
  if same_method t req then
    match provisional_response t with
    | Some resp => (t, [SendMessage resp])
    | None => (t, [])
    end
  else (t, [Deliver req]).

(** [on_non_invite_request_completed]. *)
Definition on_non_invite_request_completed (t : ServerTransaction) (req : SipMessage)
    : ServerTransaction * list TransactionOutput :=
  if same_method t req then
    match final_response t with
    | Some resp => (t, [SendMessage resp])
    | None => (t, [])
    end
  else (t, [Deliver req]).

(** [on_non_invite_tu_response]. *)
Definition on_non_invite_tu_response (t : ServerTransaction) (resp : SipMessage) (now : Z)
    : outcome (ServerTransaction * list TransactionOutput) :=
  let code := default 0 (response_code resp) in
  if is_provisional code then
    mret (with_state Proceeding (with_provisional (Some resp) t), [SendMessage resp])
  else if (200 <=? code) && (code <? 700) then
    let t := with_state Completed (with_final (Some resp) t) in
    let out := [SendMessage resp] in
    j ← timer_j (config t);
    if j =? 0 then mret (with_state Terminated t, out ++ [Complete])
    else
      set ← set_timer TimerJ now j;
      mret (t, out ++ [set])
  else mret (t, []).

(** [ServerTransaction::process]. *)
Definition process (t : ServerTransaction) (ev : TransactionEvent) (now : Z)
    : outcome (ServerTransaction * list TransactionOutput) :=
  match state t, ev, is_invite t with
  | Proceeding, EvRequest req, true => Done (on_invite_request t req)
  | Completed, EvRequest req, true => on_invite_request_completed t req now
  | Confirmed, EvRequest req, true => Done (on_invite_request_confirmed t req)
  | Proceeding, EvResponse resp, true => on_invite_tu_response t resp now
  | (Proceeding | Completed), EvTimer TimerG, true => on_invite_timer_g t now
  | Completed, EvTimer TimerH, true => Done (on_invite_timer_h t)
  | Confirmed, EvTimer TimerI, true => Done (terminate t)
  | Trying, EvRequest req, false => Done (on_non_invite_request_trying t req)
  | Proceeding, EvRequest req, false => Done (on_non_invite_request_proceeding t req)
  | Completed, EvRequest req, false => Done (on_non_invite_request_completed t req)
  | (Trying | Proceeding), EvResponse resp, false => on_non_invite_tu_response t resp now
  | Completed, EvTimer TimerJ, false => Done (terminate t)
  | _, EvTransportError, _ => Done (terminate_with_failure t TransportFailure)
  | _, _, _ => Done (t, [])
  end.

(** *** Invariant *)

(** The response a retransmitted request must be answered with is there. *)
Definition state_ok (t : ServerTransaction) : Prop :=
  match state t with
  | Trying => is_invite t = false
  | Proceeding => is_invite t = false -> is_Some (provisional_response t)
  | Completed => is_Some (final_response t)
  | Confirmed => is_invite t = true
  | Terminated => True
  end.

Record wf (t : ServerTransaction) : Prop := {
  wf_request : is_request (request t) = true;
  wf_invite : is_invite t = bool_decide (request_method (request t) = Some INVITE);
  wf_state : state_ok t;
  wf_count : is_u32 (retransmit_count t)
}.

Definition guard (t : ServerTransaction) : option TimerKind :=
  match is_invite t, state t with
  | true, Completed => Some TimerH
  | true, Confirmed => Some TimerI
  | false, Completed => Some TimerJ
  | _, _ => None
  end.

Lemma srv_wf_new request cfg : is_request request = true -> wf (new request cfg).
Proof.
  intros Hr. split; simpl; [done | done | | done].
  unfold state_ok. simpl. by destruct (bool_decide _).
Qed.

Lemma srv_wf_update t t' :
  wf t -> request t' = request t -> is_invite t' = is_invite t ->
  state_ok t' -> is_u32 (retransmit_count t') -> wf t'.
Proof. intros [Hr Hi _ _] Hreq Hinv Hs Hc. by split; rewrite ?Hreq, ?Hinv. Qed.

#[local] Ltac wf_tac Hwf :=
  cbn [wp fst snd mret outcome_ret terminate terminate_with_failure on_invite_timer_h app];
  match goal with
  | |- _ /\ _ => split; [|done]
  | _ => idtac
  end;
  apply (srv_wf_update _ _ Hwf); simpl; try done;
  first [ exact (wf_state _ Hwf) | exact (wf_count _ Hwf) | apply wrap32_u32
        | unfold state_ok; simpl; solve [done | congruence | eauto] | idtac ].

Section total.
Context (t : ServerTransaction) (now : Z).
Context (Hwf : wf t) (Hcfg : config_ok (config t)) (Hclk : clock_ok (config t) now).
Let post (r : ServerTransaction * list TransactionOutput) : Prop :=
  wf r.1 /\ config r.1 = config t.

Lemma on_invite_cancel_post req : post (on_invite_cancel t req).
Proof using Hwf.
  unfold on_invite_cancel, post. simpl. destruct (final_response t) eqn:E; simpl;
    (split; [|done]); apply (srv_wf_update _ _ Hwf); try done; try apply (wf_count _ Hwf);
    pose proof (wf_state _ Hwf) as Hs; unfold state_ok in *; simpl; rewrite ?E in *; exact Hs.
Qed.

Lemma on_invite_ack_wp req : is_invite t = true -> wp (on_invite_ack t req now) post.
Proof using Hwf Hcfg Hclk.
  intros Hi. unfold on_invite_ack, post. simpl. destruct (timer_i (config t) =? 0); [by wf_tac Hwf|].
  apply wp_bind, (Client.wp_set_timer (config t)); [done | by apply timer_i_bound |].
  by wf_tac Hwf.
Qed.

Lemma on_invite_request_completed_wp req :
  is_invite t = true -> wp (on_invite_request_completed t req now) post.
Proof using Hwf Hcfg Hclk.
  intros Hi. unfold on_invite_request_completed.
  destruct (request_method req) as [[]|]; try (by split).
  - destruct (final_response t) eqn:E; [|by split]. simpl.
    destruct (is_reliable _); [by split|].
    apply wp_bind, (Client.wp_set_timer (config t)); [done | by apply timer_g_bound |].
    unfold post. wf_tac Hwf.
  - by apply on_invite_ack_wp.
  - apply on_invite_cancel_post.
Qed.

Lemma on_invite_tu_response_wp resp :
  is_invite t = true -> wp (on_invite_tu_response t resp now) post.
Proof using Hwf Hcfg Hclk.
  intros Hi. unfold on_invite_tu_response.
  destruct (is_provisional _); [unfold post; by wf_tac Hwf|].
  destruct (is_success _); [unfold post; by wf_tac Hwf|].
  destruct (is_failure _); [|by split]. simpl.
  apply wp_bind. apply (wp_mono _ (fun _ => True)).
  { destruct (is_reliable _); [done|].
    by apply wp_bind, (Client.wp_set_timer (config t)); [|apply timer_g_bound|]. }
  intros out _. apply wp_bind.
  change (timer_h (config t)) with (timer_b (config t)). rewrite timer_b_Done by done. simpl.
  apply wp_bind, (Client.wp_set_timer (config t)); [done | by apply t1_64_bound |].
  unfold post. by wf_tac Hwf.
Qed.

Lemma on_invite_timer_g_wp : wp (on_invite_timer_g t now) post.
Proof using Hwf Hcfg Hclk.
  unfold on_invite_timer_g. destruct (final_response t) eqn:E; [|by split]. simpl.
  apply wp_bind, (Client.wp_set_timer (config t)); [done | by apply timer_g_bound |].
  unfold post. wf_tac Hwf.
Qed.

Lemma timer_j_wp Q :
  (forall j, 0 <= j <= timer_bound (config t) -> Q j) -> wp (timer_j (config t)) Q.
Proof using Hcfg.
  intros HQ. unfold timer_j. destruct (is_reliable _); simpl.
  - apply HQ. unfold timer_bound, U64_MAX. lia.
  - rewrite timer_b_Done by done. simpl. apply HQ. by apply t1_64_bound.
Qed.

Lemma on_non_invite_tu_response_wp resp :
  is_invite t = false -> wp (on_non_invite_tu_response t resp now) post.
Proof using Hwf Hcfg Hclk.
  intros Hi. unfold on_non_invite_tu_response.
  destruct (is_provisional _); [unfold post; by wf_tac Hwf|].
  destruct (_ && _); [|by split]. simpl.
  apply wp_bind, timer_j_wp. intros j Hj. destruct (j =? 0); [unfold post; by wf_tac Hwf|].
  apply wp_bind, (Client.wp_set_timer (config t)); [done | done |].
  unfold post. by wf_tac Hwf.
Qed.

Lemma srv_process_wp ev : wp (process t ev now) post.
Proof using Hwf Hcfg Hclk.
  unfold process.
  destruct (state t) eqn:Hs, ev as [req|resp|[]|], (is_invite t) eqn:Hi;
    try (by split); try (unfold post; by wf_tac Hwf);
    try (by apply on_invite_tu_response_wp); try (by apply on_non_invite_tu_response_wp);
    try (by apply on_invite_request_completed_wp); try apply on_invite_timer_g_wp.
  - unfold on_non_invite_request_trying. case_match; by split.
  - unfold on_invite_request. repeat case_match; try (by split); apply on_invite_cancel_post.
  - unfold on_non_invite_request_proceeding. repeat case_match; by split.
  - unfold on_non_invite_request_completed. repeat case_match; by split.
  - unfold on_invite_request_confirmed. repeat case_match; by split.
Qed.
End total.

(** Take a completed step apart into its branches. *)
Ltac inv_step t ev H :=
  destruct t as [cfg req inv st prov fin cnt canc];
  destruct st, inv, ev as [?|?|[]|];
  unfold process, on_invite_request, on_invite_request_completed, on_invite_request_confirmed,
    on_invite_tu_response, on_invite_timer_g, on_invite_timer_h, on_invite_ack,
    on_invite_cancel, on_non_invite_request_trying, on_non_invite_request_proceeding,
    on_non_invite_request_completed, on_non_invite_tu_response, set_timer,
    terminate, terminate_with_failure in H; simpl in H;
  repeat first
    [ match type of H with
      | context [match ?x with _ => _ end] => destruct x; simpl in H
      | context [if ?x then _ else _] => destruct x; simpl in H
      end
    | progress inv_done ];
  simplify_eq/=.

Lemma srv_process_complete t ev now t' outs :
  process t ev now = Done (t', outs) -> is_terminated t = false ->
  existsb is_complete outs = is_terminated t'.
Proof. intros H Hlive. inv_step t ev H; done. Qed.

Lemma srv_process_guard_armed t ev now t' outs tm :
  wf t -> process t ev now = Done (t', outs) ->
  (forall k, guard t = Some k -> ev <> EvTimer k -> is_Some (tm !! k)) ->
  forall k, guard t' = Some k -> is_Some (apply_timers outs tm !! k).
Proof.
  intros Hwf H Htm k Hg. pose proof (wf_state t Hwf) as Hs. unfold state_ok, guard in *.
  inv_step t ev H; unfold apply_timers; simpl; simplify_map_eq; try done; eauto;
    apply Htm; congruence.
Qed.

Lemma srv_process_guard_fires t k now t' outs :
  wf t -> guard t = Some k -> process t (EvTimer k) now = Done (t', outs) ->
  is_terminated t' = true.
Proof.
  intros Hwf Hg H. unfold guard in Hg. unfold process in H.
  destruct (is_invite t), (state t); simplify_eq/=; done.
Qed.

Lemma srv_process_timer_keeps t k now t' outs tm :
  wf t -> process t (EvTimer k) now = Done (t', outs) -> is_terminated t' = false ->
  guard t' = guard t /\ forall g, guard t = Some g -> apply_timers outs tm !! g = tm !! g.
Proof.
  intros Hwf H Hl. pose proof (wf_state t Hwf) as Hs. unfold state_ok, guard in *.
  remember (EvTimer k) as ev eqn:Hev.
  inv_step t ev H; try done; (split; [done|]); intros g [= <-];
    unfold apply_timers; simpl; by simplify_map_eq.
Qed.

Lemma srv_guard_terminated t : is_terminated t = true -> guard t = None.
Proof. unfold is_terminated, guard. by destruct (state t), (is_invite t). Qed.

Lemma timer_j_bound cfg j : config_ok cfg -> timer_j cfg = Done j -> 0 <= j <= timer_bound cfg.
Proof.
  intros Hcfg. unfold timer_j. destruct (is_reliable _).
  - intros [= <-]. unfold timer_bound, U64_MAX. lia.
  - rewrite timer_b_Done by done. intros [= <-]. by apply t1_64_bound.
Qed.

Lemma srv_process_deadlines t ev now t' outs :
  config_ok (config t) -> process t ev now = Done (t', outs) ->
  forall k d, SetTimer k d ∈ outs -> d <= now + timer_bound (config t).
Proof.
  intros Hcfg H k d Hin.
  pose proof (fun n => timer_g_bound (config t) n Hcfg) as Hg.
  pose proof (timer_i_bound (config t) Hcfg). pose proof (t1_64_bound (config t) Hcfg).
  pose proof (fun j => timer_j_bound (config t) j Hcfg) as Hj.
  inv_step t ev H; repeat (apply elem_of_cons in Hin as [Hin|Hin]; simplify_eq/=);
    try (by apply elem_of_nil in Hin);
    repeat match goal with Hx : timer_j _ = Done _ |- _ => apply Hj in Hx end;
    repeat match goal with Hx : timer_h _ = Done _ |- _ =>
      unfold timer_h in Hx; apply dur_mul_Done in Hx as [-> _] end;
    match goal with |- context [timer_g _ ?n] => specialize (Hg n); lia | _ => lia end.
Qed.

Lemma srv_process_request t ev now t' outs :
  process t ev now = Done (t', outs) -> request t' = request t /\ is_invite t' = is_invite t.
Proof. intros H. inv_step t ev H; done. Qed.

Definition rank (s : ServerState) : nat :=
  match s with
  | Trying => 0 | Proceeding => 1 | Completed => 2 | Confirmed => 3 | Terminated => 4
  end.

Lemma srv_process_rank t ev now t' outs :
  process t ev now = Done (t', outs) -> (rank (state t) <= rank (state t'))%nat.
Proof. intros H. inv_step t ev H; lia. Qed.

End Server.

#[global] Instance server_fsm : Fsm Server.ServerTransaction := {
  fsm_process := Server.process;
  fsm_terminated := Server.is_terminated;
  fsm_config := Server.config;
  fsm_wf := Server.wf;
  fsm_guard := Server.guard
}.

#[global] Instance server_laws : FsmLaws Server.ServerTransaction.
Proof.
  split; simpl.
  - intros. by apply Server.srv_process_wp.
  - apply Server.srv_process_complete.
  - apply Server.srv_process_guard_armed.
  - apply Server.srv_process_guard_fires.
  - apply Server.srv_process_timer_keeps.
  - apply Server.srv_guard_terminated.
  - apply Server.srv_process_deadlines.
Qed.

(** ** Transactions: the sum of the two machines *)

Inductive Transaction :=
| TxClient (t : Client.ClientTransaction)
| TxServer (t : Server.ServerTransaction).

(** [Transaction::new_client], [Transaction::new_server]. *)
Definition new_client (request : SipMessage) (config : TransactionConfig) : option Transaction :=
  if is_request request then Some (TxClient (Client.new request config)) else None.
Definition new_server (request : SipMessage) (config : TransactionConfig) : option Transaction :=
  if is_request request then Some (TxServer (Server.new request config)) else None.

(** [Transaction::process], [Transaction::is_terminated]. *)
Definition tx_process (t : Transaction) (ev : TransactionEvent) (now : Z)
    : outcome (Transaction * list TransactionOutput) :=
  match t with
  | TxClient t => '(t, out) ← Client.process t ev now; mret (TxClient t, out)
  | TxServer t => '(t, out) ← Server.process t ev now; mret (TxServer t, out)
  end.
Definition tx_is_terminated (t : Transaction) : bool :=
  match t with
  | TxClient t => Client.is_terminated t
  | TxServer t => Server.is_terminated t
  end.

(** [Transaction::client_invite], [Transaction::server_invite]. *)
Definition client_invite (request : SipMessage) (config : TransactionConfig) : option Transaction :=
  match request with
  | Request line _ _ =>
      if decide (rl_method line <> INVITE) then None else new_client request config
  | Response _ _ _ => None
  end.
Definition server_invite (request : SipMessage) (config : TransactionConfig) : option Transaction :=
  match request with
  | Request line _ _ =>
      if decide (rl_method line <> INVITE) then None else new_server request config
  | Response _ _ _ => None
  end.

#[global] Instance transaction_fsm : Fsm Transaction := {
  fsm_process := tx_process;
  fsm_terminated := tx_is_terminated;
  fsm_config t := match t with TxClient t => fsm_config t | TxServer t => fsm_config t end;
  fsm_wf t := match t with TxClient t => fsm_wf t | TxServer t => fsm_wf t end;
  fsm_guard t := match t with TxClient t => fsm_guard t | TxServer t => fsm_guard t end
}.

(** A step of the sum is a step of the client or of the server. *)
Lemma tx_process_inv t ev now t' outs :
  tx_process t ev now = Done (t', outs) ->
  match t, t' with
  | TxClient c, TxClient c' => Client.process c ev now = Done (c', outs)
  | TxServer s, TxServer s' => Server.process s ev now = Done (s', outs)
  | _, _ => False
  end.
Proof.
  destruct t as [c|s]; simpl.
  - destruct (Client.process c ev now) as [[c' o]|]; [|done]. by intros [= <- <-].
  - destruct (Server.process s ev now) as [[s' o]|]; [|done]. by intros [= <- <-].
Qed.

#[global] Instance transaction_laws : FsmLaws Transaction.
Proof.
  split; simpl.
  - intros [c|s] ev now Hwf Hcfg Hclk; apply wp_bind.
    + apply (wp_mono _ _ _ (@fsm_total _ _ client_laws c ev now Hwf Hcfg Hclk)). by intros [].
    + apply (wp_mono _ _ _ (@fsm_total _ _ server_laws s ev now Hwf Hcfg Hclk)). by intros [].
  - intros t ev now t' outs Hp%tx_process_inv Hl. destruct t, t'; try done.
    + exact (@fsm_complete _ _ client_laws _ _ _ _ _ Hp Hl).
    + exact (@fsm_complete _ _ server_laws _ _ _ _ _ Hp Hl).
  - intros t ev now t' outs tm Hwf Hp%tx_process_inv Htm. destruct t, t'; try done.
    + exact (@fsm_guard_armed _ _ client_laws _ _ _ _ _ tm Hwf Hp Htm).
    + exact (@fsm_guard_armed _ _ server_laws _ _ _ _ _ tm Hwf Hp Htm).
  - intros t k now t' outs Hwf Hk Hp%tx_process_inv. destruct t, t'; try done.
    + exact (@fsm_guard_fires _ _ client_laws _ _ _ _ _ Hwf Hk Hp).
    + exact (@fsm_guard_fires _ _ server_laws _ _ _ _ _ Hwf Hk Hp).
  - intros t k now t' outs tm Hwf Hp%tx_process_inv Hl. destruct t, t'; try done.
    + exact (@fsm_timer_keeps _ _ client_laws _ _ _ _ _ tm Hwf Hp Hl).
    + exact (@fsm_timer_keeps _ _ server_laws _ _ _ _ _ tm Hwf Hp Hl).
  - intros [t|t] Ht.
    + exact (@fsm_guard_terminated _ _ client_laws t Ht).
    + exact (@fsm_guard_terminated _ _ server_laws t Ht).
  - intros t ev now t' outs Hcfg Hp%tx_process_inv. destruct t, t'; try done.
    + exact (@fsm_deadlines _ _ client_laws _ _ _ _ _ Hcfg Hp).
    + exact (@fsm_deadlines _ _ server_laws _ _ _ _ _ Hcfg Hp).
Qed.

(** The request and the role of a transaction never change. *)
Definition tx_request (t : Transaction) : SipMessage :=
  match t with TxClient t => Client.request t | TxServer t => Server.request t end.
Definition tx_is_client (t : Transaction) : bool :=
  match t with TxClient _ => true | TxServer _ => false end.

Lemma tx_process_request t ev now t' outs :
  tx_process t ev now = Done (t', outs) ->
  tx_request t' = tx_request t /\ tx_is_client t' = tx_is_client t.
Proof.
  intros Hp%tx_process_inv. destruct t, t'; try done; (split; [|done]).
  - by apply Client.cli_process_request in Hp as [? _].
  - by apply Server.srv_process_request in Hp as [? _].
Qed.
