(* ===== verification/LruTable.v ===== *)
(** * Bounded tables with least-recently-active eviction

    The transaction manager and the dialog manager bound their tables by the
    same routine ([ensure_capacity] of [transaction/manager.rs] and of
    [dialog_manager.rs]): a full table loses a terminated entry if there is
    one, else the least recently active entry. *)

From S2P Require Import Prelude.
Open Scope Z_scope.

(** What a table entry tells the eviction routine. *)
Class Evictable (E : Type) := {
  ev_terminated : E -> bool;
  ev_last_activity : E -> Z
}.

Section lru.
Context {K E : Type} `{Countable K} `{Evictable E}.
Implicit Types (m : gmap K E) (o : hash_order K E) (l : list (K * E)).

(** [iter().find(|(_, e)| e.is_terminated())]. *)
Fixpoint find_terminated (l : list (K * E)) : option K :=
  match l with
  | [] => None
  | (k, e) :: l => if ev_terminated e then Some k else find_terminated l
  end.

(** [iter().min_by_key(|(_, e)| e.last_activity)]: the first of the least. *)
Fixpoint min_activity (best : K * E) (l : list (K * E)) : K * E :=
  match l with
  | [] => best
  | ke :: l =>
      if ev_last_activity ke.2 <? ev_last_activity best.2
      then min_activity ke l else min_activity best l
  end.
Definition min_by_activity (l : list (K * E)) : option K :=
  match l with
  | [] => None
  | ke :: l => Some (min_activity ke l).1
  end.

Definition ensure_capacity (o : hash_order K E) (m : gmap K E) (max : nat) : gmap K E :=
  if Nat.eqb max 0 || Nat.ltb (size m) max then m
  else match find_terminated (ho_iter o m) with
       | Some key => delete key m
       | None =>
           match min_by_activity (ho_iter o m) with
           | Some key => delete key m
           | None => m
           end
       end.

Lemma find_terminated_Some l k :
  find_terminated l = Some k -> exists e, (k, e) ∈ l /\ ev_terminated e = true.
Proof.
  induction l as [|[k' e] l IH]; simpl; [done|].
  destruct (ev_terminated e) eqn:He.
  - intros [= ->]. exists e. split; [apply elem_of_cons; by left | done].
  - intros (e' & ? & ?)%IH. exists e'. split; [apply elem_of_cons; by right | done].
Qed.

Lemma find_terminated_None l :
  find_terminated l = None -> forall k e, (k, e) ∈ l -> ev_terminated e = false.
Proof.
  induction l as [|[k' e'] l IH]; simpl; [intros _ k e []%elem_of_nil|].
  destruct (ev_terminated e') eqn:He; [done|].
  intros Hn k e [[= -> ->]|?]%elem_of_cons; [done | by eapply IH].
Qed.

Lemma min_activity_spec best l :
  min_activity best l ∈ best :: l
  /\ (forall ke, ke ∈ best :: l ->
       ev_last_activity (min_activity best l).2 <= ev_last_activity ke.2).
Proof.
  revert best. induction l as [|ke l IH]; intros best; simpl.
  - split; [apply elem_of_cons; by left|]. intros ke Hke.
    apply list_elem_of_singleton in Hke as ->. lia.
  - destruct (Z.ltb_spec (ev_last_activity ke.2) (ev_last_activity best.2)) as [Hlt|Hge].
    + destruct (IH ke) as [Hin Hmin]. split; [apply elem_of_cons; by right|].
      intros ke' [->|Hke']%elem_of_cons; [|by apply Hmin].
      specialize (Hmin ke ltac:(apply elem_of_cons; by left)). lia.
    + destruct (IH best) as [Hin Hmin]. split.
      * apply elem_of_cons in Hin as [->|Hin]; [apply elem_of_cons; by left|].
        apply elem_of_cons. right. apply elem_of_cons. by right.
      * intros ke' [->|[->|Hke']%elem_of_cons]%elem_of_cons.
        -- apply Hmin. apply elem_of_cons. by left.
        -- specialize (Hmin best ltac:(apply elem_of_cons; by left)). lia.
        -- apply Hmin. apply elem_of_cons. by right.
Qed.

Lemma min_by_activity_Some l k :
  min_by_activity l = Some k ->
  exists e, (k, e) ∈ l
    /\ forall k' e', (k', e') ∈ l -> ev_last_activity e <= ev_last_activity e'.
Proof.
  destruct l as [|ke l]; simpl; [done|]. intros [= <-].
  destruct (min_activity_spec ke l) as [Hin Hmin].
  exists (min_activity ke l).2. rewrite <- surjective_pairing. split; [done|].
  intros k' e' Hke'. by apply (Hmin (k', e')).
Qed.

(** The three things the routine can do. *)
Inductive evicts o m (max : nat) : gmap K E -> Prop :=
| evicts_none : max = 0%nat \/ (size m < max)%nat -> evicts o m max m
| evicts_terminated k e :
    (0 < max <= size m)%nat -> m !! k = Some e -> ev_terminated e = true ->
    evicts o m max (delete k m)
| evicts_least k e :
    (0 < max <= size m)%nat -> m !! k = Some e ->
    (forall k' e', m !! k' = Some e' -> ev_terminated e' = false) ->
    (forall k' e', m !! k' = Some e' -> ev_last_activity e <= ev_last_activity e') ->
    evicts o m max (delete k m).

Lemma ensure_capacity_evicts o m max : evicts o m max (ensure_capacity o m max).
Proof.
  unfold ensure_capacity.
  destruct (Nat.eqb_spec max 0), (Nat.ltb_spec (size m) max); simpl;
    try (apply evicts_none; lia).
  destruct (find_terminated (ho_iter o m)) as [k|] eqn:Hf.
  { apply find_terminated_Some in Hf as (e & He & Ht).
    apply elem_of_ho_iter in He. eapply evicts_terminated; eauto. lia. }
  destruct (min_by_activity (ho_iter o m)) as [k|] eqn:Hm.
  - apply min_by_activity_Some in Hm as (e & He & Hmin). apply elem_of_ho_iter in He.
    eapply evicts_least; eauto; [lia | |].
    + intros k' e' Hk'. eapply find_terminated_None; eauto. by apply elem_of_ho_iter.
    + intros k' e' Hk'. eapply Hmin. by apply elem_of_ho_iter.
  - destruct (ho_iter o m) eqn:Hi; [|done]. apply ho_iter_nil in Hi. subst m.
    rewrite map_size_empty in *. lia.
Qed.

Lemma ensure_capacity_subseteq o m max : ensure_capacity o m max ⊆ m.
Proof.
  destruct (ensure_capacity_evicts o m max); [done | apply delete_subseteq..].
Qed.

Lemma ensure_capacity_lookup o m max k e :
  ensure_capacity o m max !! k = Some e -> m !! k = Some e.
Proof. intros Hk. eapply lookup_weaken; [exact Hk | apply ensure_capacity_subseteq]. Qed.

(** One more entry then fits. *)
Lemma ensure_capacity_room o m max :
  (0 < max)%nat -> (size m <= max)%nat -> (size (ensure_capacity o m max) < max)%nat.
Proof.
  intros Hmax Hle. destruct (ensure_capacity_evicts o m max) as [|k e ? Hk|k e ? Hk];
    [lia | |]; rewrite map_size_delete_Some by eauto; lia.
Qed.

Lemma insert_bounded o m max k e :
  (0 < max)%nat -> (size m <= max)%nat ->
  (size (<[k := e]> (ensure_capacity o m max)) <= max)%nat.
Proof.
  intros Hmax Hle. pose proof (ensure_capacity_room o m max Hmax Hle).
  rewrite map_size_insert. case_match; simpl; lia.
Qed.
End lru.
