(* ===== verification/SipTxManager.v ===== *)
(** * Transaction keys and the transaction manager

    [sip/transaction/key.rs] and [sip/transaction/manager.rs]: the key of a
    transaction, and the bounded tables of client and server transactions that
    drive the two state machines.  The routing target [T] is opaque, as in the
    source; time is supplied by the caller. *)

From S2P Require Import Prelude RustStr SipUri SipMessage SipTimers SipFsm LruTable.

Open Scope string_scope.
Open Scope list_scope.
Open Scope Z_scope.

(** ** Keys *)

Inductive TransactionRole := Uac | Uas.

#[global] Instance TransactionRole_eq_dec : EqDecision TransactionRole.
Proof. solve_decision. Defined.
#[global] Instance TransactionRole_countable : Countable TransactionRole.
Proof.
  refine (inj_countable' (fun r => match r with Uac => true | Uas => false end)
                         (fun b => if (b : bool) then Uac else Uas) _).
  by intros [].
Defined.

Definition opposite (r : TransactionRole) : TransactionRole :=
  match r with Uac => Uas | Uas => Uac end.

Inductive TransactionKind := KindInvite | KindNonInvite.
Inductive TransactionHalf := HalfClient | HalfServer.
Inductive BranchPolicy := Strict | Permissive.

#[global] Instance BranchPolicy_eq_dec : EqDecision BranchPolicy.
Proof. solve_decision. Defined.

Definition MAGIC_COOKIE : string := "z9hG4bK".

Record TransactionKey := mkKey {
  key_branch : string;
  key_cseq_method : Method;
  key_call_id : string;
  key_role : TransactionRole
}.

#[global] Instance TransactionKey_eq_dec : EqDecision TransactionKey.
Proof. solve_decision. Defined.
#[global] Instance TransactionKey_countable : Countable TransactionKey.
Proof.
  refine (inj_countable'
    (fun k => (key_branch k, key_cseq_method k, key_call_id k, key_role k))
    (fun '(b, m, c, r) => mkKey b m c r) _).
  by intros [].
Defined.

(** [TransactionKey::for_message]. *)
Definition for_message (message : SipMessage) (role : TransactionRole) (policy : BranchPolicy)
    : option TransactionKey :=
  letopt branch := top_branch message in
  if is_empty_str branch then None
  else if is_request message && bool_decide (policy = Strict)
          && negb (starts_with MAGIC_COOKIE branch) then None
  else
    letopt call_id := call_id message in
    letopt (_, cseq_method) := ok (cseq message) in
    Some (mkKey branch cseq_method call_id role).

Definition key_half (k : TransactionKey) : TransactionHalf :=
  match key_role k with Uac => HalfClient | Uas => HalfServer end.
Definition key_kind (k : TransactionKey) : TransactionKind :=
  match key_cseq_method k with INVITE => KindInvite | _ => KindNonInvite end.

(** [TransactionKey::validate_branch]. *)
Definition validate_branch (branch : string) (policy : BranchPolicy) : result unit SipError :=
  if is_empty_str branch
  then Err (SipError_new InvalidHeader None "Via branch is empty")
  else if bool_decide (policy = Strict) && negb (starts_with MAGIC_COOKIE branch)
  then Err (SipError_new InvalidHeader None "Via branch missing RFC 3261 magic cookie")
  else Ok tt.

Lemma for_message_Some message role policy k :
  for_message message role policy = Some k ->
  top_branch message = Some (key_branch k) /\ key_branch k <> ""
  /\ call_id message = Some (key_call_id k)
  /\ (exists n, cseq message = Ok (n, key_cseq_method k))
  /\ key_role k = role
  /\ (is_request message = true -> policy = Strict ->
      starts_with MAGIC_COOKIE (key_branch k) = true).
Proof.
  unfold for_message. destruct (top_branch message) as [b|]; [|done].
  destruct b as [|a b]; [done|]. simpl is_empty_str. cbv iota.
  destruct (is_request message && bool_decide (policy = Strict)
            && negb (starts_with MAGIC_COOKIE (String a b))) eqn:Hc; [done|].
  destruct (call_id message); [|done]. destruct (cseq message) as [[n m]|]; [|done]. simpl.
  intros [= <-]. simpl. do 3 (split; [done|]). split; [eauto|]. split; [done|].
  intros Hr ->. rewrite Hr in Hc. by apply negb_false_iff in Hc.
Qed.

(** ** The manager *)

Definition DEFAULT_MAX_TRANSACTIONS : nat := 4096.
Definition DEFAULT_TRANSACTION_TTL : Z := from_secs 64.

Record ManagerConfig := mkManagerConfig {
  mc_transaction : TransactionConfig;
  mc_branch_policy : BranchPolicy;
  mc_max_transactions : nat;
  mc_ttl : Z
}.

Definition ManagerConfig_default : ManagerConfig :=
  mkManagerConfig TransactionConfig_default Strict DEFAULT_MAX_TRANSACTIONS DEFAULT_TRANSACTION_TTL.

Section manager.
Context {T : Type}.

Inductive ManagerOutput :=
| MSend (message : SipMessage) (target : T)
| MDeliver (message : SipMessage)
| MFailure (e : SipErrorKind).

Definition is_mdeliver (o : ManagerOutput) : bool :=
  match o with MDeliver _ => true | _ => false end.

Record RequestOutcome := mkOutcome {
  ro_key : option TransactionKey;
  ro_deliver : bool;
  ro_outputs : list ManagerOutput
}.

Record Entry := mkEntry {
  transaction : Transaction;
  target : T;
  timers : gmap TimerKind Z;
  last_activity : Z
}.

(** [Entry::new]. *)
Definition Entry_new (transaction : Transaction) (target : T) (now : Z) : Entry :=
  mkEntry transaction target ∅ now.

(** One turn of the loop of [Entry::absorb]. *)
Definition absorb_step (tgt : T)
    (acc : gmap TimerKind Z * list ManagerOutput * bool) (o : TransactionOutput)
    : gmap TimerKind Z * list ManagerOutput * bool :=
  let '(tm, sink, terminated) := acc in
  match o with
  | SendMessage message => (tm, sink ++ [MSend message tgt], terminated)
  | Deliver message => (tm, sink ++ [MDeliver message], terminated)
  | SetTimer kind deadline => (<[kind := deadline]> tm, sink, terminated)
  | CancelTimer kind => (delete kind tm, sink, terminated)
  | Complete => (tm, sink, true)
  | Failure kind => (tm, sink ++ [MFailure kind], terminated)
  end.

(** [Entry::absorb]: the entry, the sink, and whether the entry must go. *)
Definition absorb (e : Entry) (outputs : list TransactionOutput) (now : Z)
    (sink : list ManagerOutput) : Entry * list ManagerOutput * bool :=
  let '(tm, sink, terminated) :=
    fold_left (absorb_step (target e)) outputs (timers e, sink, false) in
  (mkEntry (transaction e) (target e) tm now, sink,
   terminated || tx_is_terminated (transaction e)).

Definition timer_le (a b : TimerKind) : Prop := (timer_u8 a <= timer_u8 b)%nat.
#[global] Instance timer_le_dec a b : Decision (timer_le a b).
Proof. unfold timer_le. apply _. Defined.

(** [Entry::due_timers]: the kinds at or past their deadline, in the order of
    their declaration. *)
Definition due_timers (e : Entry) (now : Z) : list TimerKind :=
  merge_sort timer_le
    (fst <$> filter (fun kd : TimerKind * Z => kd.2 <= now) (map_to_list (timers e))).

Record TransactionManager := mkManager {
  tm_config : ManagerConfig;
  tm_client : gmap TransactionKey Entry;
  tm_server : gmap TransactionKey Entry
}.

Definition manager_new (config : ManagerConfig) : TransactionManager := mkManager config ∅ ∅.

Definition with_server (m : TransactionManager) (s : gmap TransactionKey Entry) :=
  mkManager (tm_config m) (tm_client m) s.
Definition with_client (m : TransactionManager) (c : gmap TransactionKey Entry) :=
  mkManager (tm_config m) c (tm_server m).

Definition server_key (m : TransactionManager) (message : SipMessage) : option TransactionKey :=
  for_message message Uas (mc_branch_policy (tm_config m)).
Definition client_key (m : TransactionManager) (message : SipMessage) : option TransactionKey :=
  for_message message Uac (mc_branch_policy (tm_config m)).

#[global] Instance entry_evictable : Evictable Entry := {
  ev_terminated e := tx_is_terminated (transaction e);
  ev_last_activity := last_activity
}.

Definition ensure_server_capacity (o : hash_order TransactionKey Entry) (m : TransactionManager)
    : TransactionManager :=
  with_server m (ensure_capacity o (tm_server m) (mc_max_transactions (tm_config m))).
Definition ensure_client_capacity (o : hash_order TransactionKey Entry) (m : TransactionManager)
    : TransactionManager :=
  with_client m (ensure_capacity o (tm_client m) (mc_max_transactions (tm_config m))).

(** The common part of the calls that feed an event to an entry of a table:
    [process], [absorb], and removal of a finished entry. *)
Definition drive (table : gmap TransactionKey Entry) (key : TransactionKey) (e : Entry)
    (ev : TransactionEvent) (now : Z)
    : outcome (gmap TransactionKey Entry * list TransactionOutput * list ManagerOutput) :=
  '(tx, raw) ← tx_process (transaction e) ev now;
  let '(e, outputs, terminated) :=
    absorb (mkEntry tx (target e) (timers e) (last_activity e)) raw now [] in
  let table := <[key := e]> table in
  mret (if (terminated : bool) then delete key table else table, raw, outputs).

(** [TransactionManager::handle_request]. *)
Definition handle_request (o : hash_order TransactionKey Entry) (m : TransactionManager)
    (message : SipMessage) (tgt : T) (now : Z) : outcome (TransactionManager * RequestOutcome) :=
  match message with
  | Response _ _ _ => mret (m, mkOutcome None false [])
  | Request line _ _ =>
      let method := rl_method line in
      match server_key m message with
      | None => mret (m, mkOutcome None true [])
      | Some key =>
          match tm_server m !! key with
          | Some entry =>
              '(table, raw, outputs) ← drive (tm_server m) key entry (EvRequest message) now;
              let deliver := existsb is_deliver raw in
              mret (with_server m table,
                    mkOutcome (Some key) deliver
                      (filter (fun o => is_mdeliver o = false) outputs))
          | None =>
              if decide (method = ACK) then mret (m, mkOutcome None true [])
              else match new_server message (mc_transaction (tm_config m)) with
                   | None => mret (m, mkOutcome None true [])
                   | Some transaction =>
                       let m := ensure_server_capacity o m in
                       let bootstrap := match transaction with
                                        | TxServer t => Server.bootstrap t
                                        | TxClient _ => []
                                        end in
                       let entry := Entry_new transaction tgt now in
                       let deliver := existsb is_deliver bootstrap in
                       let '(entry, outputs, terminated) := absorb entry bootstrap now [] in
                       let m := if (terminated : bool) then m
                                else with_server m (<[key := entry]> (tm_server m)) in
                       mret (m, mkOutcome (Some key) deliver
                                  (filter (fun o => is_mdeliver o = false) outputs))
                   end
          end
      end
  end.

(** [TransactionManager::provide_response]. *)
Definition provide_response (m : TransactionManager) (key : TransactionKey)
    (response : SipMessage) (now : Z) : outcome (TransactionManager * list ManagerOutput) :=
  match tm_server m !! key with
  | Some entry =>
      '(table, _, outputs) ← drive (tm_server m) key entry (EvResponse response) now;
      mret (with_server m table, outputs)
  | None => mret (m, [])
  end.

(** [TransactionManager::handle_response]. *)
Definition handle_response (m : TransactionManager) (message : SipMessage) (now : Z)
    : outcome (TransactionManager * list ManagerOutput) :=
  if is_request message then mret (m, [])
  else match client_key m message with
       | None => mret (m, [])
       | Some key =>
           match tm_client m !! key with
           | Some entry =>
               '(table, _, outputs) ← drive (tm_client m) key entry (EvResponse message) now;
               mret (with_client m table, outputs)
           | None => mret (m, [])
           end
       end.

(** [TransactionManager::start_client_transaction]. *)
Definition start_client_transaction (o : hash_order TransactionKey Entry) (m : TransactionManager)
    (request : SipMessage) (tgt : T) (now : Z) : outcome (TransactionManager * list ManagerOutput) :=
  match client_key m request with
  | None => mret (m, [])
  | Some key =>
      match new_client request (mc_transaction (tm_config m)) with
      | None => mret (m, [])
      | Some transaction =>
          let m := ensure_client_capacity o m in
          bootstrap ← match transaction with
                      | TxClient t => Client.bootstrap t now
                      | TxServer _ => mret []
                      end;
          let entry := Entry_new transaction tgt now in
          let '(entry, outputs, terminated) := absorb entry bootstrap now [] in
          let m := if (terminated : bool) then m
                   else with_client m (<[key := entry]> (tm_client m)) in
          mret (m, outputs)
      end
  end.

(** The inner loop of [tick_map]: fire the due timers of one entry. *)
Fixpoint fire_timers (kinds : list TimerKind) (e : Entry) (now : Z)
    (outputs : list ManagerOutput) : outcome (Entry * list ManagerOutput * bool) :=
  match kinds with
  | [] => mret (e, outputs, false)
  | kind :: kinds =>
      match timers e !! kind with
      | None => fire_timers kinds e now outputs
      | Some _ =>
          let e := mkEntry (transaction e) (target e) (delete kind (timers e)) (last_activity e) in
          '(tx, raw) ← tx_process (transaction e) (EvTimer kind) now;
          let e := mkEntry tx (target e) (timers e) (last_activity e) in
          let '(e, outputs, terminated) := absorb e raw now outputs in
          if (terminated : bool) then mret (e, outputs, true)
          else fire_timers kinds e now outputs
      end
  end.

(** The outer loop of [tick_map] over the bindings in iteration order: the
    updated table, the outputs and the keys to remove. *)
Fixpoint tick_entries (l : list (TransactionKey * Entry)) (ttl now : Z)
    (table : gmap TransactionKey Entry) (outputs : list ManagerOutput)
    (remove : list TransactionKey)
    : outcome (gmap TransactionKey Entry * list ManagerOutput * list TransactionKey) :=
  match l with
  | [] => mret (table, outputs, remove)
  | (key, entry) :: l =>
      '(entry, outputs, terminated) ← fire_timers (due_timers entry now) entry now outputs;
      let gone := (terminated : bool) || tx_is_terminated (transaction entry)
                  || (ttl <=? sat_sub now (last_activity entry)) in
      tick_entries l ttl now (<[key := entry]> table) outputs
                   (if gone then remove ++ [key] else remove)
  end.

(** [tick_map]. *)
Definition tick_map (o : hash_order TransactionKey Entry) (table : gmap TransactionKey Entry)
    (ttl now : Z) (outputs : list ManagerOutput)
    : outcome (gmap TransactionKey Entry * list ManagerOutput) :=
  '(table, outputs, remove) ← tick_entries (ho_iter o table) ttl now table outputs [];
  mret (fold_left (fun t k => delete k t) remove table, outputs).

(** [TransactionManager::tick]. *)
Definition tick (os oc : hash_order TransactionKey Entry) (m : TransactionManager) (now : Z)
    : outcome (TransactionManager * list ManagerOutput) :=
  '(server, outputs) ← tick_map os (tm_server m) (mc_ttl (tm_config m)) now [];
  '(client, outputs) ← tick_map oc (tm_client m) (mc_ttl (tm_config m)) now outputs;
  mret (mkManager (tm_config m) client server, outputs).

End manager.
Arguments ManagerOutput : clear implicits.
Arguments RequestOutcome : clear implicits.
Arguments Entry : clear implicits.
Arguments TransactionManager : clear implicits.

(** ** Concrete SIP messages

    The messages of a small call, used by the witnesses. *)

Definition sample_uri : SipUri :=
  mkSipUri Sip (Some "34020000001320000001") None "10.0.0.9" (Some 5060) [].

Definition sample_headers (branch cseq : string) : SipHeaders :=
  headers_of
    [ (HVia, "SIP/2.0/UDP 10.0.0.1:5060;branch=" +:+ branch);
      (HFrom, "<sip:34020000002000000001@10.0.0.1>;tag=f1");
      (HTo, "<sip:34020000001320000001@10.0.0.9>");
      (HCallId, "call-1@10.0.0.1");
      (HCSeq, cseq) ].

Definition sample_request (m : Method) (branch cseq : string) : SipMessage :=
  Request (RequestLine_new m sample_uri) (sample_headers branch cseq) "".
Definition sample_response (code : Z) (reason branch cseq : string) : SipMessage :=
  Response (StatusLine_new code reason) (sample_headers branch cseq) "".

Definition sample_invite : SipMessage := sample_request INVITE "z9hG4bK1" "1 INVITE".
Definition sample_message : SipMessage := sample_request MESSAGE "z9hG4bK2" "2 MESSAGE".
Definition sample_busy : SipMessage := sample_response 486 "Busy Here" "z9hG4bK1" "1 INVITE".
Definition sample_ringing : SipMessage := sample_response 180 "Ringing" "z9hG4bK1" "1 INVITE".
Definition sample_ok : SipMessage := sample_response 200 "OK" "z9hG4bK2" "2 MESSAGE".

Definition sample_reliable : ManagerConfig :=
  mkManagerConfig (for_transport Reliable) Strict DEFAULT_MAX_TRANSACTIONS DEFAULT_TRANSACTION_TTL.

Lemma default_config_ok : config_ok TransactionConfig_default.
Proof. unfold config_ok, is_duration. simpl. vm_compute. repeat split; discriminate. Defined.

Lemma reliable_config_ok : config_ok (for_transport Reliable).
Proof. unfold config_ok, is_duration. simpl. vm_compute. repeat split; discriminate. Defined.

(** Another iteration order of hash maps. *)
Definition reversed_order {K V} `{Countable K} : hash_order K V :=
  HashOrder (fun m => reverse (map_to_list m)) (fun m => reverse_Permutation (map_to_list m)).
