(* ===== verification/SipFsmSpec.v ===== *)
(** * The RFC 3261 state charts as an abstract specification

    Section 17 of RFC 3261 gives the client and the server transactions as
    state charts over classes of inputs.  [Chart.figure_client] and [Chart.server] are
    those charts as tables, without messages, counters or time ([Chart.client] has
    the arcs of the program that Figure 5 lacks, [Chart.extra_arc]); the theorems
    show that [ClientTransaction::process] and [ServerTransaction::process]
    implement them: every step of the code is the step of the table, and its
    visible outputs realise the actions of the table in order. *)

From S2P Require Import Prelude RustStr SipUri SipMessage SipTimers SipFsm SipTxManager.
Open Scope string_scope.
Open Scope list_scope.
Open Scope Z_scope.

Definition visible (o : TransactionOutput) : bool :=
  match o with SendMessage _ | Deliver _ | Failure _ => true | _ => false end.

Definition visibles (outs : list TransactionOutput) : list TransactionOutput :=
  filter (fun o => visible o = true) outs.

Module Chart.

(** Classes of inputs. *)
Inductive input :=
| I1xx | I2xx | I36xx
| IRetransmission | IAck | ICancel
| ITimer (k : TimerKind)
| ITransport
| IOther              (* a request with another method *)
| IStray.             (* an input without an arc *)

(** Actions, by role. *)
Inductive action :=
| ARequest            (* (re)send the request *)
| AAck                (* send the ACK of the final response *)
| AReplay             (* send the stored response again *)
| ARespond            (* send the response of the user *)
| ADeliver            (* hand the message of the input to the user *)
| AFail (e : SipErrorKind).

Definition response_class (m : SipMessage) : input :=
  let code := default 0 (response_code m) in
  if is_provisional code then I1xx
  else if is_success code then I2xx
  else if is_failure code then I36xx
  else IStray.

(** Figures 5 and 6, arc by arc.  [lingerD] and [lingerK] are the presence of the
    absorbing state: timers D and K are zero on a reliable transport. *)
Definition figure_client (invite lingerD lingerK : bool) (s : Client.ClientState) (i : input)
    : Client.ClientState * list action :=
  match invite, s, i with
  (* Figure 5, INVITE *)
  | true, Client.Calling, ITimer TimerA => (Client.Calling, [ARequest])
  | true, Client.Calling, ITimer TimerB => (Client.Terminated, [AFail TransactionTimeout])
  | true, (Client.Calling | Client.Completed), ITransport => (Client.Terminated, [AFail TransportFailure])
  | true, (Client.Calling | Client.Proceeding), I1xx => (Client.Proceeding, [ADeliver])
  | true, (Client.Calling | Client.Proceeding), I2xx => (Client.Terminated, [ADeliver])
  | true, (Client.Calling | Client.Proceeding), I36xx =>
      (if lingerD then Client.Completed else Client.Terminated, [ADeliver; AAck])
  | true, Client.Completed, I36xx => (Client.Completed, [AAck])
  | true, Client.Completed, ITimer TimerD => (Client.Terminated, [])
  (* Figure 6, other methods *)
  | false, (Client.Trying | Client.Proceeding), ITimer TimerE => (s, [ARequest])
  | false, (Client.Trying | Client.Proceeding), ITimer TimerF =>
      (Client.Terminated, [AFail TransactionTimeout])
  | false, (Client.Trying | Client.Proceeding), ITransport =>
      (Client.Terminated, [AFail TransportFailure])
  | false, (Client.Trying | Client.Proceeding), I1xx => (Client.Proceeding, [ADeliver])
  | false, (Client.Trying | Client.Proceeding), (I2xx | I36xx) =>
      (if lingerK then Client.Completed else Client.Terminated, [ADeliver])
  | false, Client.Completed, ITimer TimerK => (Client.Terminated, [])
  | _, _, _ => (s, [])
  end.

(** The arcs of the program that the figures do not have: Timer B, which RFC 3261
    stops mattering after a provisional response, still ends an INVITE in
    Proceeding, and a transport error is reported in states that send nothing. *)
Definition extra_arc (invite : bool) (s : Client.ClientState) (i : input) : option SipErrorKind :=
  match invite, s, i with
  | true, Client.Proceeding, ITimer TimerB => Some TransactionTimeout
  | true, (Client.Calling | Client.Completed), ITransport => None
  | false, (Client.Trying | Client.Proceeding), ITransport => None
  | _, _, ITransport => Some TransportFailure
  | _, _, _ => None
  end.

(** The chart of the program: the figures and the extra arcs. *)
Definition client (invite lingerD lingerK : bool) (s : Client.ClientState) (i : input)
    : Client.ClientState * list action :=
  match extra_arc invite s i with
  | Some e => (Client.Terminated, [AFail e])
  | None => figure_client invite lingerD lingerK s i
  end.

(** Figures 7 and 8.  [replay] says whether a provisional response is stored;
    [lingerI] and [lingerJ] are the absorbing states of timers I and J. *)
Definition server (invite replay lingerI lingerJ : bool) (s : Server.ServerState) (i : input)
    : Server.ServerState * list action :=
  match invite, s, i with
  | _, _, ITransport => (Server.Terminated, [AFail TransportFailure])
  (* INVITE *)
  | true, Server.Proceeding, IRetransmission => (s, if replay then [AReplay] else [])
  | true, Server.Proceeding, IAck => (s, [ADeliver])
  | true, Server.Proceeding, ICancel => (s, [ADeliver; AFail TransactionCancelled])
  | true, Server.Proceeding, I1xx => (Server.Proceeding, [ARespond])
  | true, Server.Proceeding, I2xx => (Server.Terminated, [ARespond])
  | true, Server.Proceeding, I36xx => (Server.Completed, [ARespond])
  | true, Server.Completed, (IRetransmission | ITimer TimerG) => (Server.Completed, [AReplay])
  | true, Server.Completed, IAck =>
      (if lingerI then Server.Confirmed else Server.Terminated, [ADeliver])
  | true, Server.Completed, ICancel => (s, [ADeliver])
  | true, Server.Completed, ITimer TimerH => (Server.Terminated, [AFail TransactionTimeout])
  | true, Server.Confirmed, IAck => (s, [ADeliver])
  | true, Server.Confirmed, ITimer TimerI => (Server.Terminated, [])
  (* other methods *)
  | false, (Server.Proceeding | Server.Completed), IRetransmission => (s, [AReplay])
  | false, (Server.Trying | Server.Proceeding | Server.Completed), (IAck | ICancel | IOther) =>
      (s, [ADeliver])
  | false, (Server.Trying | Server.Proceeding), I1xx => (Server.Proceeding, [ARespond])
  | false, (Server.Trying | Server.Proceeding), (I2xx | I36xx) =>
      (if lingerJ then Server.Completed else Server.Terminated, [ARespond])
  | false, Server.Completed, ITimer TimerJ => (Server.Terminated, [])
  | _, _, _ => (s, [])
  end.

(** The flag of the stored provisional response after an input. *)
Definition stores (invite : bool) (s : Server.ServerState) (i : input) (replay : bool) : bool :=
  match invite, s, i with
  | true, Server.Proceeding, I1xx => true
  | false, (Server.Trying | Server.Proceeding), I1xx => true
  | _, _, _ => replay
  end.

(** The charts on sequences of inputs. *)
Fixpoint client_run (invite lingerD lingerK : bool) (s : Client.ClientState) (ins : list input)
    : list (Client.ClientState * list action) :=
  match ins with
  | [] => []
  | i :: ins =>
      let step := client invite lingerD lingerK s i in
      step :: client_run invite lingerD lingerK step.1 ins
  end.
Fixpoint figure_run (invite lingerD lingerK : bool) (s : Client.ClientState) (ins : list input)
    : list (Client.ClientState * list action) :=
  match ins with
  | [] => []
  | i :: ins =>
      let step := figure_client invite lingerD lingerK s i in
      step :: figure_run invite lingerD lingerK step.1 ins
  end.
(** No input of the sequence takes an extra arc. *)
Fixpoint by_figures (invite lingerD lingerK : bool) (s : Client.ClientState) (ins : list input) : Prop :=
  match ins with
  | [] => True
  | i :: ins =>
      extra_arc invite s i = None
      /\ by_figures invite lingerD lingerK (figure_client invite lingerD lingerK s i).1 ins
  end.
Lemma client_run_figures invite lingerD lingerK s ins :
  by_figures invite lingerD lingerK s ins ->
  client_run invite lingerD lingerK s ins = figure_run invite lingerD lingerK s ins.
Proof.
  revert s. induction ins as [|i ins IH]; intros s; simpl; [done|]. intros [He Hb]. unfold client. rewrite He.
  by rewrite IH.
Qed.

Fixpoint server_run (invite replay lingerI lingerJ : bool) (s : Server.ServerState) (ins : list input)
    : list (Server.ServerState * list action) :=
  match ins with
  | [] => []
  | i :: ins =>
      let step := server invite replay lingerI lingerJ s i in
      step :: server_run invite (stores invite s i replay) lingerI lingerJ step.1 ins
  end.

End Chart.

(** ** Abstraction of the inputs and realisation of the actions *)

Definition client_input (ev : TransactionEvent) : Chart.input :=
  match ev with
  | EvResponse m => Chart.response_class m
  | EvTimer k => Chart.ITimer k
  | EvTransportError => Chart.ITransport
  | EvRequest _ => Chart.IStray
  end.

Definition ev_message (ev : TransactionEvent) : option SipMessage :=
  match ev with EvRequest m | EvResponse m => Some m | _ => None end.

(** What an output of a client that is now [t] may realise. *)
Definition client_realises (t : Client.ClientTransaction) (ev : TransactionEvent)
    (a : Chart.action) (o : TransactionOutput) : Prop :=
  match a, o with
  | Chart.ARequest, SendMessage m => m = Client.request t
  | Chart.AAck, SendMessage m =>
      exists r, Client.final_response t = Some r /\ Client.build_ack (Client.request t) r = Done m
  | Chart.ADeliver, Deliver m => ev_message ev = Some m
  | Chart.AFail k, Failure k' => k' = k
  | _, _ => False
  end.

(** A request event of a server transaction, by its method. *)
Definition server_input (t : Server.ServerTransaction) (ev : TransactionEvent) : Chart.input :=
  match ev with
  | EvRequest m =>
      if bool_decide (request_method m = request_method (Server.request t))
      then Chart.IRetransmission
      else match request_method m with
           | Some ACK => Chart.IAck
           | Some CANCEL => Chart.ICancel
           | _ => Chart.IOther
           end
  | EvResponse m => Chart.response_class m
  | EvTimer k => Chart.ITimer k
  | EvTransportError => Chart.ITransport
  end.

(** The response that answers a retransmission. *)
Definition stored_response (t : Server.ServerTransaction) : option SipMessage :=
  match Server.state t with
  | Server.Proceeding => Server.provisional_response t
  | Server.Completed => Server.final_response t
  | _ => None
  end.

Definition server_realises (t : Server.ServerTransaction) (ev : TransactionEvent)
    (a : Chart.action) (o : TransactionOutput) : Prop :=
  match a, o with
  | Chart.AReplay, SendMessage m => stored_response t = Some m
  | (Chart.ARespond), SendMessage m => ev_message ev = Some m
  | Chart.ADeliver, Deliver m => ev_message ev = Some m
  | Chart.AFail k, Failure k' => k' = k
  | _, _ => False
  end.

(** A server that has no final response until it completes. *)
Definition open_final (t : Server.ServerTransaction) : Prop :=
  match Server.state t with
  | Server.Trying | Server.Proceeding => Server.final_response t = None
  | _ => True
  end.

Lemma open_final_new request cfg : open_final (Server.new request cfg).
Proof. unfold open_final. simpl. by destruct (bool_decide _). Qed.

Lemma open_final_process t ev now t' outs :
  open_final t -> Server.process t ev now = Done (t', outs) -> open_final t'.
Proof. intros Ho H. unfold open_final in *. Server.inv_step t ev H; done. Qed.

(** ** The refinement lemmas *)

(** [200 <= code < 700] is success or failure. *)
Lemma final_range code :
  ((200 <=? code) && (code <? 700)) = is_success code || is_failure code.
Proof.
  unfold is_success, is_failure.
  destruct (Z.leb_spec 200 code), (Z.ltb_spec code 700), (Z.ltb_spec code 300),
    (Z.leb_spec 300 code); simpl; try done; lia.
Qed.

(** The classes of status codes exclude each other. *)
Inductive code_class : bool -> bool -> bool -> Prop :=
| class_1xx : code_class true false false
| class_2xx : code_class false true false
| class_36xx : code_class false false true
| class_none : code_class false false false.

Lemma code_class_spec c : code_class (is_provisional c) (is_success c) (is_failure c).
Proof.
  unfold is_provisional, is_success, is_failure.
  destruct (Z.leb_spec 100 c), (Z.ltb_spec c 200), (Z.leb_spec 200 c), (Z.ltb_spec c 300),
    (Z.leb_spec 300 c), (Z.ltb_spec c 700); simpl; try constructor; lia.
Qed.

Definition lingers (d : Z) : bool := negb (d =? 0).

(** Finish a branch: take the equation of the step apart and build the list of
    realised actions. *)
#[local] Ltac realise H :=
  repeat match type of H with
         | context [if ?x =? 0 then _ else _] => destruct (x =? 0); simpl in *
         end;
  inv_done; simplify_eq/=; simpl; (split; [done|]); cbn; repeat first [apply Forall2_nil_2 | apply Forall2_cons_2 | done]; simpl; eauto.

Lemma client_refines t ev now t' outs :
  Client.wf t -> Client.process t ev now = Done (t', outs) ->
  let chart := Chart.client (Client.is_invite t) (lingers (timer_d (Client.config t)))
                 (lingers (timer_k (Client.config t))) (Client.state t) (client_input ev) in
  Client.state t' = chart.1 /\ Forall2 (client_realises t' ev) chart.2 (visibles outs).
Proof.
  intros Hwf H. pose proof (Client.wf_state t Hwf) as Hs.
  unfold Client.state_ok, lingers, client_input, Chart.response_class, visibles in *.
  destruct t as [cfg req inv st cnt fin].
  destruct ev as [?|resp|[]|], st, inv; simpl in *; try discriminate;
    unfold Client.process, Client.on_invite_response, Client.on_invite_response_completed,
      Client.on_invite_timer_a, Client.on_non_invite_response, Client.on_non_invite_timer_e,
      Client.on_non_invite_timer_e_proceeding, set_timer in H;
    simpl in H; try rewrite final_range in H.
  all: try (destruct (code_class_spec (default 0 (response_code resp))); simpl in * ).
  all: try (destruct (Hs eq_refl) as [r ->]; simpl in * ).
  all: realise H.
Qed.

(** Timer J keeps a completed server around. *)
Definition lingersJ (cfg : TransactionConfig) : bool :=
  match timer_j cfg with Done j => lingers j | Panic => false end.

Lemma server_refines t ev now t' outs :
  Server.wf t -> open_final t -> Server.process t ev now = Done (t', outs) ->
  let chart :=
    Chart.server (Server.is_invite t) (bool_decide (is_Some (Server.provisional_response t)))
      (lingers (timer_i (Server.config t))) (lingersJ (Server.config t))
      (Server.state t) (server_input t ev) in
  Server.state t' = chart.1
  /\ Forall2 (server_realises t' ev) chart.2 (visibles outs).
Proof.
  intros Hwf Ho H. pose proof (Server.wf_state t Hwf) as Hs. pose proof (Server.wf_invite t Hwf) as Hi.
  unfold lingersJ, Server.state_ok, lingers, server_input, stored_response, open_final,
    Chart.response_class, visibles in *.
  destruct t as [cfg req inv st prov fin cnt canc]. simpl in *.
  destruct ev as [m|resp|[]|], st, inv; simpl in *; try discriminate;
    unfold Server.process, Server.on_invite_request, Server.on_invite_request_completed,
      Server.on_invite_request_confirmed, Server.on_invite_tu_response, Server.on_invite_timer_g,
      Server.on_invite_ack, Server.on_invite_cancel, Server.on_non_invite_request_trying,
      Server.on_non_invite_request_proceeding, Server.on_non_invite_request_completed,
      Server.on_non_invite_tu_response, Server.same_method, set_timer in H;
    simpl in H; try rewrite final_range in H; try subst fin.
  all: try (destruct (code_class_spec (default 0 (response_code resp))); simpl in * ).
  all: try (symmetry in Hi; apply bool_decide_eq_true in Hi; rewrite Hi).
  all: try (destruct (bool_decide (request_method m = _)) eqn:Hm; bool_prop;
            [rewrite ?Hm in *|]; simpl in * ).
  all: try match type of H with
       | context [match request_method ?x with _ => _ end] =>
           destruct (request_method x) as [[]|]; simpl in *; try congruence
       end.
  all: try match goal with
       | |- context [match request_method ?x with _ => _ end] =>
           destruct (request_method x) as [[]|]; simpl in *
       end.
  all: try match type of Hs with
       | is_Some _ => destruct Hs as [r ->]; simpl in *
       | _ = _ -> _ => destruct (Hs eq_refl) as [r ->]; simpl in *
       end.
  all: try (rewrite bool_decide_true by eauto).
  all: repeat match type of H with
       | Done (match ?p with Some _ => _ | None => _ end) = _ => destruct p as [?|]; simpl in *
       | context [is_reliable ?x] => destruct (is_reliable x); simpl in *
       | context [timer_j ?x] => destruct (timer_j x) as [j|]; simpl in *
       end.
  all: realise H.
Qed.

Lemma keeps_provisional t ev now t' outs :
  Server.process t ev now = Done (t', outs) -> (forall m, ev <> EvResponse m) ->
  Server.provisional_response t' = Server.provisional_response t.
Proof. intros H Hev. Server.inv_step t ev H; try done; exfalso; by eapply Hev. Qed.

Lemma server_stores t ev now t' outs :
  Server.process t ev now = Done (t', outs) ->
  bool_decide (is_Some (Server.provisional_response t'))
  = Chart.stores (Server.is_invite t) (Server.state t) (server_input t ev)
      (bool_decide (is_Some (Server.provisional_response t))).
Proof.
  intros H. unfold server_input, Chart.response_class.
  destruct ev as [m|resp| |].
  2:{ destruct t as [cfg req inv st prov fin cnt canc].
      destruct st, inv; unfold Server.process, Server.on_invite_tu_response,
        Server.on_non_invite_tu_response, set_timer in H; simpl in *;
        try rewrite final_range in H;
        destruct (code_class_spec (default 0 (response_code resp))); simpl in *;
        repeat match type of H with
        | context [is_reliable ?x] => destruct (is_reliable x); simpl in *
        | context [timer_j ?x] => destruct (timer_j x) as [j|]; simpl in *
        | context [if ?x =? 0 then _ else _] => destruct (x =? 0); simpl in *
        end; inv_done; simplify_eq/=; done. }
  all: rewrite (keeps_provisional _ _ _ _ _ H) by done.
  all: destruct (Server.is_invite t), (Server.state t); simpl; repeat case_match; done.
Qed.

(** ** Runs *)

Section runs.
Context {M : Type} `{FsmLaws M}.

(** The steps of a machine on a sequence of timed events. *)
Fixpoint fsm_run (t : M) (evs : list (TransactionEvent * Z))
    : outcome (list (M * TransactionEvent * list TransactionOutput)) :=
  match evs with
  | [] => mret []
  | (ev, now) :: evs =>
      '(t, outs) ← fsm_process t ev now;
      steps ← fsm_run t evs;
      mret ((t, ev, outs) :: steps)
  end.

Definition in_time (cfg : TransactionConfig) (evs : list (TransactionEvent * Z)) : Prop :=
  Forall (fun e => clock_ok cfg e.2) evs.
End runs.

(** A step of the code against a step of the chart. *)
Definition matches {M S : Type} (st : M -> S)
    (realises : M -> TransactionEvent -> Chart.action -> TransactionOutput -> Prop)
    (step : M * TransactionEvent * list TransactionOutput) (chart : S * list Chart.action) : Prop :=
  let '(t, ev, outs) := step in
  st t = chart.1 /\ Forall2 (realises t ev) chart.2 (visibles outs).

Lemma client_run_refines cfg evs : config_ok cfg -> in_time cfg evs -> forall t,
  Client.wf t -> Client.config t = cfg ->
  wp (fsm_run t evs) (fun steps =>
    Forall2 (matches Client.state client_realises) steps
      (Chart.client_run (Client.is_invite t) (lingers (timer_d cfg)) (lingers (timer_k cfg))
         (Client.state t) (client_input ∘ fst <$> evs))).
Proof.
  intros Hcfg Ht. induction evs as [|[ev now] evs IH]; intros t Hwf Hc; [constructor|].
  apply Forall_cons in Ht as [Hclk Ht]. cbn [fsm_run]. apply wp_bind.
  pose proof (fsm_total t ev now Hwf) as Htot. simpl in Htot. rewrite Hc in Htot.
  specialize (Htot Hcfg Hclk). apply wp_elim in Htot as ([t' outs] & Hp & Hwf' & Hc'). simpl in *.
  rewrite Hp. simpl. apply wp_bind. eapply wp_mono; [by apply IH|].
  intros steps Hsteps. apply wp_ret, Forall2_cons_2.
  - rewrite <- Hc. by eapply client_refines.
  - destruct (client_refines _ _ _ _ _ Hwf Hp) as [Hst _]. rewrite Hc in Hst.
    apply Client.cli_process_request in Hp as [_ Hinv]. by rewrite Hinv, Hst in Hsteps.
Qed.

Lemma server_run_refines cfg evs t0 : config_ok cfg -> in_time cfg evs -> forall t,
  Server.wf t -> open_final t -> Server.config t = cfg -> Server.request t = Server.request t0 ->
  wp (fsm_run t evs) (fun steps =>
    Forall2 (matches Server.state server_realises) steps
      (Chart.server_run (Server.is_invite t) (bool_decide (is_Some (Server.provisional_response t)))
         (lingers (timer_i cfg)) (lingersJ cfg)
         (Server.state t) (server_input t0 ∘ fst <$> evs))).
Proof.
  intros Hcfg Ht. induction evs as [|[ev now] evs IH]; intros t Hwf Ho Hc Hreq; [constructor|].
  apply Forall_cons in Ht as [Hclk Ht]. cbn [fsm_run]. apply wp_bind.
  pose proof (fsm_total t ev now Hwf) as Htot. simpl in Htot. rewrite Hc in Htot.
  specialize (Htot Hcfg Hclk). apply wp_elim in Htot as ([t' outs] & Hp & Hwf' & Hc'). simpl in *.
  assert (server_input t0 ev = server_input t ev) as Hin by (unfold server_input; by rewrite Hreq).
  pose proof (server_refines _ _ _ _ _ Hwf Ho Hp) as Href.
  pose proof (server_stores _ _ _ _ _ Hp) as Hsto.
  pose proof (Server.srv_process_request _ _ _ _ _ Hp) as [Hreq' Hinv'].
  rewrite Hp. simpl. apply wp_bind.
  eapply wp_mono; [apply IH; try done; [by eapply open_final_process | by rewrite Hreq']|].
  intros steps Hsteps. apply wp_ret. rewrite Hin, <- Hc. apply Forall2_cons_2; [exact Href|].
  destruct Href as [Hst _]. rewrite Hsto, Hinv', Hst, Hc in Hsteps. by rewrite Hc.
Qed.

(** C1: With timers and clock values that fit a Duration, a client transaction never
    panics and on every timed sequence of events goes step for step (states, effects of
    timers, retransmissions, ACK, deliveries, failures) through the chart of RFC 3261
    Figures 5 and 6 extended by the arcs that the program adds: Timer B also ends an
    INVITE in Proceeding (a deviation, see the findings), and a transport error also
    ends the states in which the RFC sends nothing; a sequence that takes none of these
    extra arcs goes through the figures of the RFC exactly. *)
Theorem client_implements_chart cfg request evs
    (Hcfg : config_ok cfg) (Hreq : is_request request = true) (Ht : in_time cfg evs) :
  let t := Client.new request cfg in
  let invite := Client.is_invite t in
  let D := lingers (timer_d cfg) in
  let K := lingers (timer_k cfg) in
  let inputs := client_input ∘ fst <$> evs in
  exists steps,
    fsm_run t evs = Done steps
    /\ Forall2 (matches Client.state client_realises) steps (Chart.client_run invite D K (Client.state t) inputs)
    /\ (Chart.by_figures invite D K (Client.state t) inputs ->
        Forall2 (matches Client.state client_realises) steps (Chart.figure_run invite D K (Client.state t) inputs)).
Proof.
  intros t invite D K inputs.
  assert (Client.wf t) as Hwf by (by apply Client.cli_wf_new).
  destruct (wp_elim _ _ (client_run_refines cfg evs Hcfg Ht t Hwf eq_refl)) as (steps & Hs & Hm).
  exists steps. split; [done|]. split; [exact Hm|]. intros Hb. by rewrite <-Chart.client_run_figures.
Qed.

Definition sample_client_events : list (TransactionEvent * Z) :=
  [ (EvTimer TimerA, from_millis 500); (EvResponse sample_ringing, from_millis 900);
    (EvResponse sample_busy, from_secs 2); (EvResponse sample_busy, from_secs 3);
    (EvTimer TimerD, from_secs 34) ].

Lemma client_implements_chart_witness :
  exists steps,
    fsm_run (Client.new sample_invite TransactionConfig_default) sample_client_events = Done steps
    /\ Forall2 (matches Client.state client_realises) steps
         [ (Client.Calling, [Chart.ARequest]); (Client.Proceeding, [Chart.ADeliver]);
           (Client.Completed, [Chart.ADeliver; Chart.AAck]); (Client.Completed, [Chart.AAck]);
           (Client.Terminated, []) ].
Proof.
  destruct (client_implements_chart TransactionConfig_default sample_invite sample_client_events) as (steps & Hs & _ & Hf).
  - exact default_config_ok.
  - reflexivity.
  - repeat constructor; vm_compute; discriminate.
  - exists steps. split; [exact Hs|]. apply Hf. vm_compute. tauto.
Defined.

(** Timer B is not stopped by a provisional response, and ends a call that rings. *)
Example timer_b_ends_ringing_call :
  exists t1 t2,
    Client.process (Client.new sample_invite TransactionConfig_default) (EvResponse sample_ringing) (from_secs 1)
      = Done (t1, [CancelTimer TimerA; Deliver sample_ringing])
    /\ Client.process t1 (EvTimer TimerB) (from_secs 32) = Done (t2, [Failure TransactionTimeout; Complete])
    /\ Client.state t1 = Client.Proceeding /\ Client.state t2 = Client.Terminated.
Proof. eexists _, _. split; [vm_compute; reflexivity|]. split; [vm_compute; reflexivity|]. done. Qed.

(** C2: A server transaction never panics and implements the RFC 3261 server
    charts: from [ServerTransaction::new], each step reaches the state of the
    chart, a retransmitted request is answered with the stored response, a
    response of the user is sent, ACK and CANCEL reach the user. *)
Theorem server_implements_chart cfg request evs
    (Hcfg : config_ok cfg) (Hreq : is_request request = true) (Ht : in_time cfg evs) :
  exists steps,
    fsm_run (Server.new request cfg) evs = Done steps
    /\ Forall2 (matches Server.state server_realises) steps
         (Chart.server_run (Server.is_invite (Server.new request cfg)) false
            (lingers (timer_i cfg)) (lingersJ cfg)
            (Server.state (Server.new request cfg))
            (server_input (Server.new request cfg) ∘ fst <$> evs)).
Proof.
  apply wp_elim. apply (server_run_refines cfg evs (Server.new request cfg)); try done.
  - by apply Server.srv_wf_new.
  - apply open_final_new.
Qed.

Definition sample_server_events : list (TransactionEvent * Z) :=
  [ (EvRequest sample_invite, from_millis 100); (EvResponse sample_ringing, from_millis 200);
    (EvRequest sample_invite, from_millis 500); (EvResponse sample_busy, from_millis 900);
    (EvTimer TimerG, from_millis 1400); (EvRequest sample_invite, from_millis 1500);
    (EvTimer TimerH, from_secs 34) ].

Lemma server_implements_chart_witness :
  exists steps,
    fsm_run (Server.new sample_invite TransactionConfig_default) sample_server_events = Done steps
    /\ Forall2 (matches Server.state server_realises) steps
         [ (Server.Proceeding, []); (Server.Proceeding, [Chart.ARespond]);
           (Server.Proceeding, [Chart.AReplay]); (Server.Completed, [Chart.ARespond]);
           (Server.Completed, [Chart.AReplay]); (Server.Completed, [Chart.AReplay]);
           (Server.Terminated, [Chart.AFail TransactionTimeout]) ].
Proof.
  apply (server_implements_chart TransactionConfig_default sample_invite sample_server_events).
  - exact default_config_ok.
  - reflexivity.
  - repeat constructor; vm_compute; discriminate.
Defined.
