(* ===== verification/SipTxTheory.v ===== *)
(** * Correctness of the transaction manager

    The invariant of the two tables, kept by every operation without panic;
    bounded size; termination of every guarded transaction at its deadline;
    duplicate detection. *)

From S2P Require Import Prelude RustStr SipUri SipMessage SipTimers SipFsm LruTable SipTxManager.
Open Scope list_scope.
Open Scope Z_scope.

Section theory.
Context {T : Type}.
Implicit Types (e : Entry T) (m : TransactionManager T).

(** ** What [absorb] does *)

Fixpoint emitted (tgt : T) (outs : list TransactionOutput) : list (ManagerOutput T) :=
  match outs with
  | [] => []
  | SendMessage message :: outs => MSend message tgt :: emitted tgt outs
  | Deliver message :: outs => MDeliver message :: emitted tgt outs
  | Failure kind :: outs => MFailure kind :: emitted tgt outs
  | _ :: outs => emitted tgt outs
  end.

Lemma absorb_fold tgt outs tm sink b :
  fold_left (absorb_step tgt) outs (tm, sink, b)
  = (apply_timers outs tm, sink ++ emitted tgt outs, b || existsb is_complete outs).
Proof.
  revert tm sink b. induction outs as [|o outs IH]; intros tm sink b; simpl.
  - by rewrite app_nil_r, orb_false_r.
  - unfold apply_timers. destruct o; simpl; rewrite IH; simpl; rewrite <- ?app_assoc; try done.
    by rewrite orb_true_r.
Qed.

Lemma absorb_eq e outs now sink :
  absorb e outs now sink
  = (mkEntry (transaction e) (target e) (apply_timers outs (timers e)) now,
     sink ++ emitted (target e) outs,
     existsb is_complete outs || tx_is_terminated (transaction e)).
Proof. unfold absorb. by rewrite absorb_fold. Qed.

Lemma apply_timers_bound outs tm bound :
  (forall k d, tm !! k = Some d -> d <= bound) ->
  (forall k d, SetTimer k d ∈ outs -> d <= bound) ->
  forall k d, apply_timers outs tm !! k = Some d -> d <= bound.
Proof.
  revert tm. induction outs as [|o outs IH]; intros tm Htm Houts k d; simpl; [apply Htm|].
  apply IH; [|intros; apply (Houts k0); apply elem_of_cons; by right].
  intros k' d'. destruct o; simpl; try apply Htm.
  - rewrite lookup_insert. case_decide; [|apply Htm]. intros [= <-].
    apply (Houts kind). apply elem_of_cons. by left.
  - rewrite lookup_delete. case_decide; [done | apply Htm].
Qed.

(** ** The invariant of an entry *)

Record entry_ok (cfg : TransactionConfig) (clock : Z) e : Prop := {
  eo_wf : fsm_wf (transaction e);
  eo_config : fsm_config (transaction e) = cfg;
  eo_live : tx_is_terminated (transaction e) = false;
  eo_guard : forall k, fsm_guard (transaction e) = Some k -> is_Some (timers e !! k);
  eo_deadline : forall k d, timers e !! k = Some d -> d <= last_activity e + timer_bound cfg;
  eo_clock : last_activity e <= clock
}.

Lemma entry_ok_later cfg clock now e : clock <= now -> entry_ok cfg clock e -> entry_ok cfg now e.
Proof. intros ? []. split; auto; lia. Qed.

(** Processing an event on a good entry and absorbing its outputs. *)
Lemma event_ok cfg clock e ev now :
  config_ok cfg -> clock_ok cfg now -> clock <= now ->
  entry_ok cfg clock e ->
  forall tm,
  (forall k, fsm_guard (transaction e) = Some k -> ev <> EvTimer k -> is_Some (tm !! k)) ->
  (forall k d, tm !! k = Some d -> d <= last_activity e + timer_bound cfg) ->
  wp (tx_process (transaction e) ev now) (fun r =>
    let '(tx, raw) := r in
    existsb is_complete raw = tx_is_terminated tx
    /\ (tx_is_terminated tx = false ->
        entry_ok cfg now (mkEntry tx (target e) (apply_timers raw tm) now))).
Proof.
  intros Hcfg Hclk Hle [Hwf Hc Hl _ _ Hclock] tm Hg Hd.
  pose proof (fsm_total (transaction e) ev now Hwf) as Htot. rewrite Hc in Htot.
  specialize (Htot Hcfg Hclk). apply wp_elim in Htot as ([tx raw] & Hp & Hwf' & Hc').
  change (tx_process (transaction e) ev now = Done (tx, raw)) in Hp. rewrite Hp. cbn [wp]. split.
  - exact (@fsm_complete _ _ transaction_laws _ _ _ _ _ Hp Hl).
  - intros Hlive. split; cbn [transaction timers last_activity target]; try done.
    + exact (@fsm_guard_armed _ _ transaction_laws _ _ _ _ _ tm Hwf Hp Hg).
    + apply apply_timers_bound; [intros k d Hkd%Hd; lia|].
      intros k d Hin. rewrite <- Hc in Hcfg |- *.
      exact (@fsm_deadlines _ _ transaction_laws _ _ _ _ _ Hcfg Hp k d Hin).
Qed.

Definition table_ok (cfg : TransactionConfig) (clock : Z)
    (table : gmap TransactionKey (Entry T)) : Prop :=
  map_Forall (fun _ e => entry_ok cfg clock e) table.

Lemma table_ok_later cfg clock now table :
  clock <= now -> table_ok cfg clock table -> table_ok cfg now table.
Proof. intros Hle Ht k e Hk. eapply entry_ok_later; [done | by apply (Ht k)]. Qed.

(** [drive] keeps the other entries and the invariant. *)
Lemma drive_wp cfg clock table key e ev now :
  config_ok cfg -> clock_ok cfg now -> clock <= now ->
  table_ok cfg clock table -> table !! key = Some e -> (forall k, ev <> EvTimer k) ->
  wp (drive table key e ev now) (fun r =>
    let '(table', _, _) := r in
    table_ok cfg now table' /\ (size table' <= size table)%nat
    /\ (forall k, k <> key -> table' !! k = table !! k)).
Proof.
  intros Hcfg Hclk Hle Ht Hk Hev. unfold drive. apply wp_bind.
  pose proof (Ht key e Hk) as He.
  eapply wp_mono; [apply (event_ok cfg clock e ev now Hcfg Hclk Hle He (timers e))|].
  { intros k Hgk _. by apply He. }
  { apply He. }
  intros [tx raw] [Hcomp Hok]. rewrite absorb_eq. simpl. rewrite Hcomp, orb_diag.
  assert (forall e', size (<[key := e']> table) = size table) as Hsize.
  { intros e'. by apply map_size_insert_Some. }
  destruct (tx_is_terminated tx) eqn:Htt.
  - rewrite delete_insert_eq. split; [|split].
    + intros k e'. rewrite lookup_delete. case_decide; [done|]. intros Hk'.
      eapply entry_ok_later; [done | by apply (Ht k)].
    + apply map_subseteq_size, delete_subseteq.
    + intros k Hne. by rewrite lookup_delete_ne.
  - split; [|split].
    + intros k e'. rewrite lookup_insert. case_decide; [intros [= <-]; by apply Hok|].
      intros Hk'. eapply entry_ok_later; [done | by apply (Ht k)].
    + by rewrite Hsize.
    + intros k Hne. by rewrite lookup_insert_ne.
Qed.

(** ** Timers *)

Lemma elem_of_due_timers e now k :
  k ∈ due_timers e now <-> exists d, timers e !! k = Some d /\ d <= now.
Proof.
  unfold due_timers. rewrite merge_sort_Permutation, list_elem_of_fmap. split.
  - intros ([k' d] & -> & [Hd Hin]%list_elem_of_filter). apply elem_of_map_to_list in Hin. eauto.
  - intros (d & Hd & Hle). exists (k, d). split; [done|]. apply list_elem_of_filter.
    split; [done|]. by apply elem_of_map_to_list.
Qed.

(** Outputs accumulate behind those already there. *)
Lemma fire_timers_outputs kinds e now outputs :
  fire_timers kinds e now outputs
  = (fun r => (r.1.1, outputs ++ r.1.2, r.2)) <$> fire_timers kinds e now [].
Proof.
  revert e outputs. induction kinds as [|k kinds IH]; intros e outputs; simpl.
  { by rewrite app_nil_r. }
  destruct (timers e !! k); [|apply IH].
  destruct (tx_process (transaction e) (EvTimer k) now) as [[tx raw]|]; [|done]. simpl.
  rewrite !absorb_eq. simpl.
  destruct (existsb is_complete raw || tx_is_terminated tx); [done|].
  rewrite IH. symmetry. rewrite IH.
  destruct (fire_timers kinds _ now []) as [[[e' o] b]|]; [|done]. simpl. by rewrite app_assoc.
Qed.

(** Firing timers never panics, keeps a live entry good and its guard timer
    untouched; if the guard timer is among those fired, the entry ends. *)
Lemma fire_timers_wp cfg now kinds :
  config_ok cfg -> clock_ok cfg now -> forall e clock outputs,
  clock <= now -> entry_ok cfg clock e ->
  wp (fire_timers kinds e now outputs) (fun r =>
    let '(e', _, terminated) := r in
    target e' = target e /\ tx_is_terminated (transaction e') = terminated
    /\ (terminated = false ->
        entry_ok cfg now e'
        /\ fsm_guard (transaction e') = fsm_guard (transaction e)
        /\ forall g, fsm_guard (transaction e) = Some g ->
             (g ∉ kinds) /\ timers e' !! g = timers e !! g)).
Proof.
  intros Hcfg Hclk. induction kinds as [|k kinds IH]; intros e clock outputs Hle He; cbn [fire_timers].
  { split; [done|]. split; [apply He|]. intros _. split; [by eapply entry_ok_later|].
    split; [done|]. intros g _. split; [apply not_elem_of_nil | done]. }
  destruct (timers e !! k) as [dl|] eqn:Hk.
  2:{ eapply wp_mono; [by apply (IH e clock)|]. intros [[e' o] []] (Ht & Hterm & Hrest);
      (split; [done|]; split; [done|]); [done|]. intros _.
      destruct (Hrest eq_refl) as (Hok & Hg & Hgs). split; [done|]. split; [done|].
      intros g Hgg. destruct (Hgs g Hgg) as [Hnin Heq]. split; [|done].
      intros [->|?]%elem_of_cons; [|done].
      destruct (eo_guard _ _ _ He _ Hgg) as [x Hx]. congruence. }
  apply wp_bind. cbn [transaction target timers last_activity].
  pose proof (event_ok cfg clock e (EvTimer k) now Hcfg Hclk Hle He (delete k (timers e))) as Hev.
  apply wp_elim in Hev as ([tx raw] & Hp & Hcomp & Hok).
  2:{ intros k' Hk' Hne. rewrite lookup_delete_ne by congruence. by apply He. }
  2:{ intros k' d'. rewrite lookup_delete. case_decide; [done|]. apply He. }
  rewrite Hp. cbn [wp]. rewrite absorb_eq. cbn [transaction target timers last_activity].
  rewrite Hcomp, orb_diag. destruct (tx_is_terminated tx) eqn:Htt; [done|].
  specialize (Hok eq_refl).
  destruct (@fsm_timer_keeps _ _ transaction_laws _ _ _ _ _ (delete k (timers e))
              (eo_wf _ _ _ He) Hp Htt) as [Hgk Htk].
  assert (fsm_guard (transaction e) <> Some k) as Hnk.
  { intros Hk'. pose proof (@fsm_guard_fires _ _ transaction_laws _ _ _ _ _
                              (eo_wf _ _ _ He) Hk' Hp) as Hf. simpl in Hf. congruence. }
  eapply wp_mono; [by apply (IH _ now)|].
  intros [[e' o] b] (Ht & Hterm & Hrest). split; [done|]. split; [done|]. intros Hb.
  destruct (Hrest Hb) as (Hok' & Hg & Hgs). cbn [transaction timers] in *.
  split; [done|]. split; [by rewrite Hg|]. intros g Hgg.
  destruct (Hgs g) as [Hnin Heq]; [by rewrite Hgk|]. rewrite Heq, Htk by done.
  assert (g <> k) by congruence. split; [|by rewrite lookup_delete_ne].
  by intros [->|?]%elem_of_cons.
Qed.

(** ** The tick of one table *)

(** What the tick makes of one entry, its outputs, and whether it goes. *)
Definition fired e (now : Z) : Entry T * list (ManagerOutput T) * bool :=
  match fire_timers (due_timers e now) e now [] with
  | Done r => r
  | Panic => (e, [], true)
  end.
Definition gone (ttl now : Z) (r : Entry T * list (ManagerOutput T) * bool) : bool :=
  r.2 || tx_is_terminated (transaction r.1.1) || (ttl <=? sat_sub now (last_activity r.1.1)).

Definition ticked (ttl now : Z) e : option (Entry T) :=
  if gone ttl now (fired e now) then None else Some (fired e now).1.1.

Lemma fired_Done cfg clock e now :
  config_ok cfg -> clock_ok cfg now -> clock <= now -> entry_ok cfg clock e ->
  fire_timers (due_timers e now) e now [] = Done (fired e now).
Proof.
  intros. unfold fired.
  pose proof (fire_timers_wp cfg now (due_timers e now) ltac:(done) ltac:(done) e clock []) as Hw.
  apply wp_elim in Hw as (r & -> & _); done.
Qed.

Lemma tick_entries_eq l ttl now table outputs remove :
  (forall k e, (k, e) ∈ l -> fire_timers (due_timers e now) e now [] = Done (fired e now)) ->
  tick_entries l ttl now table outputs remove
  = Done (fold_left (fun t ke => <[ke.1 := (fired ke.2 now).1.1]> t) l table,
          outputs ++ concat ((fun ke => (fired ke.2 now).1.2) <$> l),
          remove ++ (filter (fun ke => gone ttl now (fired ke.2 now) = true) l).*1).
Proof.
  revert table outputs remove.
  induction l as [|[k e] l IH]; intros table outputs remove Hl.
  { simpl. by rewrite !app_nil_r. }
  cbn [tick_entries]. rewrite fire_timers_outputs, (Hl k e) by set_solver. simpl.
  destruct (fired e now) as [[e' o] b] eqn:Hf. simpl.
  rewrite IH by set_solver. rewrite app_assoc, filter_cons. simpl. rewrite Hf.
  change (b || tx_is_terminated (transaction e') || (ttl <=? sat_sub now (last_activity e')))
    with (gone ttl now (e', o, b)).
  case_decide as Hg; [rewrite Hg; simpl; by rewrite <- !app_assoc|].
  by apply not_true_is_false in Hg as ->.
Qed.

Lemma fold_insert_lookup {K A B} `{Countable K} (g : A -> B) (l : list (K * A)) (t : gmap K B) k :
  NoDup l.*1 ->
  fold_left (fun t ke => <[ke.1 := g ke.2]> t) l t !! k
  = match list_to_map (M := gmap K A) l !! k with Some a => Some (g a) | None => t !! k end.
Proof.
  revert t. induction l as [|[k' a] l IH]; intros t; simpl; [by rewrite lookup_empty|].
  intros [Hnin Hnd]%NoDup_cons. rewrite IH by done. rewrite lookup_insert.
  case_decide as Hk; subst.
  - rewrite (not_elem_of_list_to_map_1 (M := gmap K)) by done. by rewrite lookup_insert_eq.
  - by rewrite lookup_insert_ne.
Qed.

Lemma fold_delete_lookup {K A} `{Countable K} (l : list K) (t : gmap K A) k :
  fold_left (fun t k => delete k t) l t !! k = if decide (k ∈ l) then None else t !! k.
Proof.
  revert t. induction l as [|k' l IH]; intros t; simpl; [done|].
  rewrite IH, lookup_delete. repeat case_decide; set_solver.
Qed.

(** The tick acts on each entry alone, whatever the iteration order. *)
Lemma tick_map_spec cfg clock o table ttl now outputs :
  config_ok cfg -> clock_ok cfg now -> clock <= now -> table_ok cfg clock table ->
  tick_map o table ttl now outputs
  = Done (omap (ticked ttl now) table,
          outputs ++ concat ((fun ke => (fired ke.2 now).1.2) <$> ho_iter o table)).
Proof.
  intros Hcfg Hclk Hle Ht. unfold tick_map.
  rewrite tick_entries_eq.
  2:{ intros k e Hk%elem_of_ho_iter. eapply fired_Done; eauto. }
  simpl. do 2 f_equal. apply map_eq. intros k.
  pose proof (NoDup_ho_iter_keys o table) as Hnd.
  rewrite fold_delete_lookup, (fold_insert_lookup (fun e => (fired e now).1.1)) by done.
  rewrite (list_to_map_proper (M := gmap TransactionKey) (ho_iter o table)
             (map_to_list table)) by (done || apply ho_perm).
  rewrite list_to_map_to_list, lookup_omap. unfold ticked.
  destruct (table !! k) as [e|] eqn:Hk; simpl.
  - case_decide as Hin; destruct (gone ttl now (fired e now)) eqn:Hg; try done.
    + apply list_elem_of_fmap in Hin as ([k' e'] & -> & [Hgo Hin]%list_elem_of_filter).
      apply elem_of_ho_iter in Hin. simpl in *. congruence.
    + destruct Hin. apply list_elem_of_fmap. exists (k, e). split; [done|].
      apply list_elem_of_filter. split; [done|]. by apply elem_of_ho_iter.
  - by case_decide.
Qed.

(** ** The key discipline: an entry sits under the key of its own request *)

Definition role_of (client : bool) : TransactionRole := if client then Uac else Uas.

Definition keyed (client : bool) (policy : BranchPolicy)
    (table : gmap TransactionKey (Entry T)) : Prop :=
  map_Forall (fun k e => tx_is_client (transaction e) = client
    /\ for_message (tx_request (transaction e)) (role_of client) policy = Some k) table.

Lemma fire_timers_request kinds e now outputs e' outs b :
  fire_timers kinds e now outputs = Done (e', outs, b) ->
  tx_request (transaction e') = tx_request (transaction e)
  /\ tx_is_client (transaction e') = tx_is_client (transaction e).
Proof.
  revert e outputs. induction kinds as [|k kinds IH]; intros e outputs; cbn [fire_timers].
  { by intros [= <- _ _]. }
  destruct (timers e !! k); [|apply IH].
  cbn [transaction]. intros ([tx raw] & Hp & Hr)%bind_Done. apply tx_process_request in Hp as [? ?].
  rewrite absorb_eq in Hr. cbn [transaction target timers] in Hr.
  destruct (existsb is_complete raw || tx_is_terminated tx).
  - by injection Hr as <- _ _.
  - apply IH in Hr as [-> ->]. done.
Qed.

Lemma drive_keyed client policy table key e ev now table' raw outs :
  keyed client policy table -> table !! key = Some e ->
  drive table key e ev now = Done (table', raw, outs) -> keyed client policy table'.
Proof.
  intros Hkeyed Hk. unfold drive. intros ([tx raw'] & Hp & Hr)%bind_Done.
  apply tx_process_request in Hp as [Hreq Hcl]. rewrite absorb_eq in Hr. simpl in Hr.
  injection Hr as <- _ _.
  assert (keyed client policy (<[key := mkEntry tx (target e) (apply_timers raw' (timers e)) now]> table)).
  { apply map_Forall_insert_2; [|done]. simpl. rewrite Hreq, Hcl. by apply Hkeyed. }
  case_match; [by apply map_Forall_delete | done].
Qed.

Lemma ticked_keyed client policy ttl now table :
  keyed client policy table ->
  (forall k e, table !! k = Some e -> fire_timers (due_timers e now) e now [] = Done (fired e now)) ->
  keyed client policy (omap (ticked ttl now) table).
Proof.
  intros Hk Hf k e'. rewrite lookup_omap. intros (e & He & Ht)%bind_Some.
  unfold ticked in Ht. destruct (gone ttl now (fired e now)); simplify_eq.
  pose proof (Hf k e He) as Hd. destruct (fired e now) as [[e' o] b]. simpl.
  apply fire_timers_request in Hd as [-> ->]. by apply Hk.
Qed.

(** A tick keeps good entries good, and afterwards no guard timer is overdue. *)
Lemma ticked_ok cfg clock ttl now e e' :
  config_ok cfg -> clock_ok cfg now -> clock <= now -> entry_ok cfg clock e ->
  ticked ttl now e = Some e' ->
  entry_ok cfg now e'
  /\ now < last_activity e' + ttl
  /\ forall g, fsm_guard (transaction e') = Some g ->
       exists d, timers e' !! g = Some d /\ now < d.
Proof.
  intros Hcfg Hclk Hle He. unfold ticked. destruct (gone ttl now (fired e now)) eqn:Hg; [done|].
  intros [= <-]. pose proof (fire_timers_wp cfg now (due_timers e now) Hcfg Hclk e clock [] Hle He) as Hw.
  rewrite (fired_Done cfg clock) in Hw by done. destruct (fired e now) as [[e' o] b]. simpl in *.
  destruct Hw as (_ & Hterm & Hrest). unfold gone in Hg. simpl in Hg. bool_prop.
  destruct (Hrest ltac:(done)) as (Hok & Hgd & Hgs). split; [done|].
  split; [unfold sat_sub in *; lia|]. intros g Hgg.
  destruct (eo_guard _ _ _ Hok g Hgg) as [d Hd]. exists d. split; [done|].
  rewrite Hgd in Hgg. destruct (Hgs g Hgg) as [Hnin Heq]. rewrite Heq in Hd.
  apply Z.nle_gt. intros Hle'. destruct Hnin. apply elem_of_due_timers. eauto.
Qed.

Lemma omap_size_le {K A B} `{Countable K} (f : A -> option B) (m : gmap K A) :
  (size (omap f m) <= size m)%nat.
Proof.
  rewrite <- !size_dom. apply subseteq_size. intros k.
  rewrite !elem_of_dom, lookup_omap. intros [b (a & Ha & _)%bind_Some]. eauto.
Qed.

(** ** The invariant of the manager *)

Definition within (max : nat) (table : gmap TransactionKey (Entry T)) : Prop :=
  (0 < max)%nat -> (size table <= max)%nat.

Record side_ok (cfg : ManagerConfig) (client : bool) (clock : Z)
    (table : gmap TransactionKey (Entry T)) : Prop := {
  so_entries : table_ok (mc_transaction cfg) clock table;
  so_keyed : keyed client (mc_branch_policy cfg) table;
  so_size : within (mc_max_transactions cfg) table
}.

Record manager_ok (cfg : ManagerConfig) (clock : Z) m : Prop := {
  mo_config : tm_config m = cfg;
  mo_client : side_ok cfg true clock (tm_client m);
  mo_server : side_ok cfg false clock (tm_server m)
}.

Lemma side_ok_later cfg client clock now table :
  clock <= now -> side_ok cfg client clock table -> side_ok cfg client now table.
Proof. intros Hle []. split; [by eapply table_ok_later | done..]. Qed.

Lemma side_ok_subseteq cfg client clock table table' :
  table' ⊆ table -> side_ok cfg client clock table -> side_ok cfg client clock table'.
Proof.
  intros Hsub [He Hk Hs]. split.
  - intros k e Hke. apply (He k). by eapply lookup_weaken.
  - intros k e Hke. apply (Hk k). by eapply lookup_weaken.
  - intros Hmax. etrans; [by apply map_subseteq_size | by apply Hs].
Qed.

Lemma side_ok_empty cfg client clock : side_ok cfg client clock ∅.
Proof. split; try by apply map_Forall_empty. intros _. rewrite map_size_empty. lia. Qed.

Lemma manager_ok_new cfg clock : manager_ok cfg clock (manager_new cfg).
Proof. split; [done | apply side_ok_empty..]. Qed.

Lemma manager_ok_later cfg clock now m :
  clock <= now -> manager_ok cfg clock m -> manager_ok cfg now m.
Proof. intros Hle []. split; [done | by eapply side_ok_later..]. Qed.

(** Driving an entry, inserting a fresh one after making room, and the tick. *)
Lemma drive_side cfg client clock table key e ev now :
  config_ok (mc_transaction cfg) -> clock_ok (mc_transaction cfg) now -> clock <= now ->
  side_ok cfg client clock table -> table !! key = Some e -> (forall k, ev <> EvTimer k) ->
  wp (drive table key e ev now) (fun r => side_ok cfg client now r.1.1).
Proof.
  intros Hcfg Hclk Hle [He Hk Hs] Hlook Hev.
  pose proof (drive_wp _ _ _ _ _ _ _ Hcfg Hclk Hle He Hlook Hev) as Hw.
  apply wp_elim in Hw as ([[table' raw] outs] & Hd & Ht & Hsz & _).
  rewrite Hd. simpl. split; [done | by eapply drive_keyed|].
  intros Hmax. specialize (Hs Hmax). lia.
Qed.

Lemma insert_side cfg client clock o table key e now :
  clock <= now -> side_ok cfg client clock table ->
  entry_ok (mc_transaction cfg) now e -> tx_is_client (transaction e) = client ->
  for_message (tx_request (transaction e)) (role_of client) (mc_branch_policy cfg) = Some key ->
  side_ok cfg client now (<[key := e]> (ensure_capacity o table (mc_max_transactions cfg))).
Proof.
  intros Hle Hs He Hc Hf. pose proof (so_size _ _ _ _ Hs) as Hsz.
  apply (side_ok_later _ _ _ now) in Hs; [|done].
  apply (side_ok_subseteq _ _ _ _ (ensure_capacity o table (mc_max_transactions cfg))) in Hs;
    [|apply ensure_capacity_subseteq].
  destruct Hs as [He' Hk' _]. split.
  - by apply map_Forall_insert_2.
  - by apply map_Forall_insert_2.
  - intros Hmax. apply insert_bounded; auto.
Qed.

Lemma tick_side cfg client clock o table now outputs :
  config_ok (mc_transaction cfg) -> clock_ok (mc_transaction cfg) now -> clock <= now ->
  side_ok cfg client clock table ->
  wp (tick_map o table (mc_ttl cfg) now outputs) (fun r => side_ok cfg client now r.1).
Proof.
  intros Hcfg Hclk Hle [He Hk Hs]. erewrite tick_map_spec by done. simpl. split.
  - intros k e'. rewrite lookup_omap. intros (e & Hl & Ht)%bind_Some.
    by eapply ticked_ok in Ht as [? _]; [..|by apply (He k)].
  - apply ticked_keyed; [done|]. intros k e Hl. eapply fired_Done; eauto.
  - intros Hmax. pose proof (omap_size_le (ticked (mc_ttl cfg) now) table).
    specialize (Hs Hmax). lia.
Qed.
End theory.
