(* ===== verification/SipTxProps.v ===== *)
(** * Properties of the SIP transaction layer

    Sequences of calls on a transaction manager, and the theorems on them: the
    invariant and the absence of panics, the size bound, the termination of
    guarded transactions, independence of the hash-map iteration order,
    absorption of retransmissions, and the behaviour of an ACK. *)

From S2P Require Import Prelude RustStr SipUri SipMessage SipTimers SipFsm LruTable SipTxManager SipTxTheory.
Open Scope string_scope.
Open Scope list_scope.
Open Scope Z_scope.

Section props.
Context {T : Type}.
Implicit Types (e : Entry T) (m : TransactionManager T).

(** ** Calls on the manager *)

Inductive call :=
| CallRequest (o : hash_order TransactionKey (Entry T)) (message : SipMessage) (tgt : T)
| CallProvide (key : TransactionKey) (response : SipMessage)
| CallResponse (message : SipMessage)
| CallStart (o : hash_order TransactionKey (Entry T)) (request : SipMessage) (tgt : T)
| CallTick (os oc : hash_order TransactionKey (Entry T)).

Definition exec (m : TransactionManager T) (c : call) (now : Z)
    : outcome (TransactionManager T * list (ManagerOutput T)) :=
  match c with
  | CallRequest o message tgt =>
      '(m, out) ← handle_request o m message tgt now; mret (m, ro_outputs out)
  | CallProvide key response => provide_response m key response now
  | CallResponse message => handle_response m message now
  | CallStart o request tgt => start_client_transaction o m request tgt now
  | CallTick os oc => tick os oc m now
  end.

Fixpoint run (m : TransactionManager T) (calls : list (Z * call))
    : outcome (TransactionManager T * list (ManagerOutput T)) :=
  match calls with
  | [] => mret (m, [])
  | (now, c) :: calls =>
      '(m, out) ← exec m c now;
      '(m, outs) ← run m calls;
      mret (m, out ++ outs)
  end.

(** The times of the calls never decrease and leave room for the timers. *)
Fixpoint timed (cfg : TransactionConfig) (clock : Z) (calls : list (Z * call)) : Prop :=
  match calls with
  | [] => True
  | (now, _) :: calls => clock <= now /\ clock_ok cfg now /\ timed cfg now calls
  end.

Definition end_time (clock : Z) (calls : list (Z * call)) : Z :=
  fold_left (fun _ c => c.1) calls clock.

(** ** Fresh entries *)

Lemma server_entry_ok cfg message (tgt : T) now :
  is_request message = true ->
  entry_ok cfg now (mkEntry (TxServer (Server.new message cfg)) tgt ∅ now).
Proof.
  intros Hr. split; cbn [transaction timers last_activity]; try done.
  - exact (Server.srv_wf_new message cfg Hr).
  - simpl. unfold Server.is_terminated. simpl. by destruct (bool_decide _).
  - intros k Hg. exfalso. revert Hg. simpl. unfold Server.guard. simpl. by destruct (bool_decide _).
Qed.

Lemma client_bootstrap_wp cfg request (tgt : T) now :
  config_ok cfg -> clock_ok cfg now -> is_request request = true ->
  wp (Client.bootstrap (Client.new request cfg) now) (fun raw =>
    existsb is_complete raw = false
    /\ entry_ok cfg now (mkEntry (TxClient (Client.new request cfg)) tgt (apply_timers raw ∅) now)).
Proof.
  intros Hcfg Hclk Hr. unfold Client.bootstrap.
  pose proof (timer_e_bound cfg 0 Hcfg). pose proof (t1_64_bound cfg Hcfg).
  assert (forall raw, (forall k, Client.guard (Client.new request cfg) = Some k ->
              is_Some (apply_timers raw ∅ !! k)) ->
            (forall k d, SetTimer k d ∈ raw -> d <= now + timer_bound cfg) ->
            entry_ok cfg now (mkEntry (TxClient (Client.new request cfg)) tgt (apply_timers raw ∅) now))
    as Hentry.
  { intros raw Hg Hd. split; cbn [transaction timers last_activity]; try done.
    - exact (Client.cli_wf_new request cfg Hr).
    - simpl. unfold Client.is_terminated. simpl. by destruct (bool_decide _).
    - by apply apply_timers_bound. }
  unfold Client.guard in Hentry. simpl in *. destruct (bool_decide _) eqn:Hi; simpl.
  - apply wp_bind, (Client.wp_set_timer cfg); [done | by rewrite timer_a_timer_e|].
    rewrite timer_b_Done by done. simpl. apply wp_bind, (Client.wp_set_timer cfg); [done..|].
    cbn [wp mret outcome_ret]. split; [done|]. apply Hentry.
    + intros k [= <-]. unfold apply_timers. simpl. by simplify_map_eq.
    + rewrite timer_a_timer_e. intros k d Hin.
      repeat (apply elem_of_cons in Hin as [Hin|Hin]; simplify_eq); try lia.
      by apply elem_of_nil in Hin.
  - apply wp_bind, (Client.wp_set_timer cfg); [done..|].
    change (timer_f cfg) with (timer_b cfg). rewrite timer_b_Done by done. simpl.
    apply wp_bind, (Client.wp_set_timer cfg); [done..|].
    cbn [wp mret outcome_ret]. split; [done|]. apply Hentry.
    + intros k [= <-]. unfold apply_timers. simpl. by simplify_map_eq.
    + intros k d Hin.
      repeat (apply elem_of_cons in Hin as [Hin|Hin]; simplify_eq); try lia.
      by apply elem_of_nil in Hin.
Qed.

(** ** Each call keeps the invariant *)

Section calls.
Context (cfg : ManagerConfig) (clock now : Z).
Context (Hcfg : config_ok (mc_transaction cfg)) (Hclk : clock_ok (mc_transaction cfg) now).
Context (Hle : clock <= now).

Lemma handle_request_wp o m message tgt :
  manager_ok cfg clock m ->
  wp (handle_request o m message tgt now) (fun r => manager_ok cfg now r.1).
Proof.
  intros Hm. pose proof (manager_ok_later _ _ _ _ Hle Hm) as Hm'.
  destruct Hm as [Hc Hcl Hs], message as [line hs body|]; [|done]. cbn [handle_request].
  destruct (server_key m (Request line hs body)) as [key|] eqn:Hkey; [|done].
  destruct (tm_server m !! key) as [e|] eqn:Hl.
  - apply wp_bind. eapply wp_mono.
    { eapply (drive_side cfg false clock); eauto; by intros. }
    intros [[table raw] outs] Ht. simpl. split; [done | apply Hm' | done].
  - destruct (decide (rl_method line = ACK)); [done|]. unfold new_server. cbn [is_request].
    rewrite absorb_eq. unfold apply_timers. cbn [transaction timers target Entry_new].
    replace (tx_is_terminated _) with false by (simpl; unfold Server.is_terminated; simpl;
      by destruct (bool_decide _)). simpl.
    split; [done | apply Hm'|]. simpl. rewrite Hc.
    eapply insert_side; [done | exact Hs | by apply server_entry_ok | done |].
    unfold server_key in Hkey. by rewrite Hc in Hkey.
Qed.

Lemma provide_response_wp m key response :
  manager_ok cfg clock m ->
  wp (provide_response m key response now) (fun r => manager_ok cfg now r.1).
Proof.
  intros Hm. pose proof (manager_ok_later _ _ _ _ Hle Hm) as Hm'. unfold provide_response.
  destruct (tm_server m !! key) as [e|] eqn:Hl; [|done].
  apply wp_bind. eapply wp_mono.
  { eapply (drive_side cfg false clock); eauto; first [apply Hm | by intros]. }
  intros [[table raw] outs] Ht. simpl. split; [apply Hm' | apply Hm' | done].
Qed.

Lemma handle_response_wp m message :
  manager_ok cfg clock m ->
  wp (handle_response m message now) (fun r => manager_ok cfg now r.1).
Proof.
  intros Hm. pose proof (manager_ok_later _ _ _ _ Hle Hm) as Hm'. unfold handle_response.
  destruct (is_request message); [done|].
  destruct (client_key m message) as [key|]; [|done].
  destruct (tm_client m !! key) as [e|] eqn:Hl; [|done].
  apply wp_bind. eapply wp_mono.
  { eapply (drive_side cfg true clock); eauto; first [apply Hm | by intros]. }
  intros [[table raw] outs] Ht. simpl. split; [apply Hm' | done | apply Hm'].
Qed.

Lemma start_client_transaction_wp o m request tgt :
  manager_ok cfg clock m ->
  wp (start_client_transaction o m request tgt now) (fun r => manager_ok cfg now r.1).
Proof.
  intros Hm. pose proof (manager_ok_later _ _ _ _ Hle Hm) as Hm'.
  destruct Hm as [Hc Hcl Hs]. unfold start_client_transaction.
  destruct (client_key m request) as [key|] eqn:Hkey; [|done].
  unfold new_client. destruct (is_request request) eqn:Hr; [|done].
  apply wp_bind. rewrite Hc.
  eapply wp_mono; [by apply (client_bootstrap_wp _ request tgt)|].
  intros raw [Hcomp Hok]. rewrite absorb_eq. cbn [transaction timers target Entry_new].
  pose proof (eo_live _ _ _ Hok) as Hlive. cbn [transaction] in Hlive.
  rewrite Hcomp, Hlive. simpl. rewrite Hc.
  split; [done | | apply Hm']. simpl.
  eapply insert_side; [done | exact Hcl | done..|].
  unfold client_key in Hkey. by rewrite Hc in Hkey.
Qed.

Lemma tick_wp os oc m :
  manager_ok cfg clock m -> wp (tick os oc m now) (fun r => manager_ok cfg now r.1).
Proof.
  intros [Hc Hcl Hs]. unfold tick. rewrite Hc. apply wp_bind.
  eapply wp_mono; [by eapply tick_side|]. intros [server outs] Hs'.
  apply wp_bind. eapply wp_mono; [by eapply tick_side|]. intros [client outs'] Hcl'. done.
Qed.

Lemma exec_wp m c : manager_ok cfg clock m -> wp (exec m c now) (fun r => manager_ok cfg now r.1).
Proof.
  intros Hm. destruct c; simpl.
  - apply wp_bind. eapply wp_mono; [by apply handle_request_wp|]. by intros [].
  - by apply provide_response_wp.
  - by apply handle_response_wp.
  - by apply start_client_transaction_wp.
  - by apply tick_wp.
Qed.
End calls.

Lemma run_wp cfg clock m calls :
  config_ok (mc_transaction cfg) -> timed (mc_transaction cfg) clock calls ->
  manager_ok cfg clock m ->
  wp (run m calls) (fun r => manager_ok cfg (end_time clock calls) r.1).
Proof.
  intros Hcfg. revert clock m. induction calls as [|[now c] calls IH]; intros clock m; [done|].
  intros (Hle & Hclk & Ht) Hm. cbn [run]. apply wp_bind.
  eapply wp_mono; [by eapply exec_wp|]. intros [m' out] Hm'. apply wp_bind.
  eapply wp_mono; [by apply (IH now)|]. by intros [].
Qed.

(** A live client always has a guard timer, a server from its final response on. *)
Definition guarded (e : Entry T) : Prop :=
  exists g d, fsm_guard (transaction e) = Some g /\ timers e !! g = Some d
    /\ d <= last_activity e + timer_bound (fsm_config (transaction e)).
Definition awaits_user (e : Entry T) : Prop :=
  match transaction e with
  | TxServer t => Server.state t = Server.Trying \/ Server.state t = Server.Proceeding
  | TxClient _ => False
  end.
Lemma entry_guarded cfg clock (e : Entry T) : entry_ok cfg clock e -> guarded e \/ awaits_user e.
Proof.
  intros [Hwf Hc Hl Hg Hd _]. unfold guarded, awaits_user. rewrite Hc.
  assert (forall g, fsm_guard (transaction e) = Some g -> exists g d, fsm_guard (transaction e) = Some g /\ timers e !! g = Some d
    /\ d <= last_activity e + timer_bound cfg) as Hsome.
  { intros g Hgg. destruct (Hg g Hgg) as [d Hgd]. exists g, d. split; [done|]. split; [done|]. by eapply Hd. }
  destruct (transaction e) as [t|t]; simpl in *.
  - left. pose proof (Client.wf_state t Hwf) as Hs. unfold Client.state_ok, Client.guard, Client.is_terminated in *.
    destruct (Client.is_invite t), (Client.state t); try done; by eapply Hsome.
  - pose proof (Server.wf_state t Hwf) as Hs. unfold Server.state_ok, Server.guard, Server.is_terminated in *.
    destruct (Server.is_invite t), (Server.state t); try done; auto; left; by eapply Hsome.
Qed.

(** A limit of 0 evicts nothing: such a table grows without bound. *)
Example zero_limit_unbounded o (table : gmap TransactionKey (Entry T)) : ensure_capacity o table 0 = table.
Proof. reflexivity. Qed.

(** C3: With a positive max_transactions and timers and clock values that fit a
    Duration, from an empty transaction manager every timed sequence of calls returns
    without panic; both tables stay within max_transactions and are keyed by their own
    requests; every client transaction has its guard timer armed, and so has every
    server transaction except one in Trying or Proceeding, which waits for a response of
    the user and has none. With max_transactions 0 the tables are unbounded (see the
    findings). *)
Theorem run_invariant (cfg : ManagerConfig) (calls : list (Z * call))
    (Hcfg : config_ok (mc_transaction cfg)) (Hmax : (0 < mc_max_transactions cfg)%nat)
    (Ht : timed (mc_transaction cfg) 0 calls) :
  exists m outs, run (manager_new cfg) calls = Done (m, outs) /\ manager_ok cfg (end_time 0 calls) m
    /\ (size (tm_client m) <= mc_max_transactions cfg)%nat /\ (size (tm_server m) <= mc_max_transactions cfg)%nat
    /\ map_Forall (fun _ e => guarded e) (tm_client m)
    /\ map_Forall (fun _ e => guarded e \/ awaits_user e) (tm_server m).
Proof.
  pose proof (run_wp cfg 0 (manager_new cfg) calls Hcfg Ht (manager_ok_new cfg 0)) as Hw.
  apply wp_elim in Hw as ([m outs] & Hr & Hm). exists m, outs. pose proof Hm as [_ [Hec Hkc Hsc] [Hes _ Hss]].
  split_and!; [done|done|by apply Hsc|by apply Hss| |].
  - intros k e Hk. destruct (entry_guarded _ _ _ (Hec k e Hk)) as [|Ha]; [done|]. destruct (Hkc k e Hk) as [Hcl _].
    unfold awaits_user in Ha. by destruct (transaction e).
  - intros k e Hk. by eapply entry_guarded, Hes.
Qed.

(** ** Ticks *)

Lemma tick_spec cfg clock now os oc m :
  config_ok (mc_transaction cfg) -> clock_ok (mc_transaction cfg) now -> clock <= now ->
  manager_ok cfg clock m ->
  tick os oc m now
  = Done (mkManager cfg (omap (ticked (mc_ttl cfg) now) (tm_client m))
                        (omap (ticked (mc_ttl cfg) now) (tm_server m)),
          concat ((fun ke => (fired ke.2 now).1.2) <$> ho_iter os (tm_server m))
          ++ concat ((fun ke => (fired ke.2 now).1.2) <$> ho_iter oc (tm_client m))).
Proof.
  intros Hcfg Hclk Hle [Hc Hcl Hs]. unfold tick. rewrite Hc.
  erewrite tick_map_spec by (done || apply Hs). simpl.
  by erewrite tick_map_spec by (done || apply Hcl).
Qed.

(** The state of a table after a tick: overdue and idle entries are gone. *)
Definition swept (cfg : ManagerConfig) (now : Z)
    (table table' : gmap TransactionKey (Entry T)) : Prop :=
  (forall k e g d, table !! k = Some e -> fsm_guard (transaction e) = Some g ->
     timers e !! g = Some d -> d <= now -> table' !! k = None)
  /\ (forall k e, table !! k = Some e -> (forall g d, timers e !! g = Some d -> now < d) ->
       table' !! k = if last_activity e + mc_ttl cfg <=? now then None else Some e)
  /\ (forall k e', table' !! k = Some e' ->
       is_Some (table !! k) /\ now < last_activity e' + mc_ttl cfg
       /\ forall g, fsm_guard (transaction e') = Some g ->
            exists d, timers e' !! g = Some d /\ now < d).

Lemma no_due_timers (e : Entry T) now : (forall g d, timers e !! g = Some d -> now < d) -> due_timers e now = [].
Proof.
  intros Hf. destruct (due_timers e now) as [|k l] eqn:Hd; [done|]. exfalso.
  assert (k ∈ due_timers e now) as (d & Hk & Hle)%elem_of_due_timers by (rewrite Hd; left). specialize (Hf _ _ Hk). lia.
Qed.
Lemma ticked_swept cfg client clock now table :
  config_ok (mc_transaction cfg) -> clock_ok (mc_transaction cfg) now -> clock <= now ->
  side_ok cfg client clock table -> swept cfg now table (omap (ticked (mc_ttl cfg) now) table).
Proof.
  intros Hcfg Hclk Hle Hs. split_and!.
  - intros k e g d Hk Hg Hd Hdue. rewrite lookup_omap, Hk. simpl.
    destruct (ticked _ now e) as [e'|] eqn:Ht; [|done]. exfalso. revert Ht. unfold ticked.
    pose proof (so_entries _ _ _ _ Hs k e Hk) as He.
    pose proof (fire_timers_wp _ now (due_timers e now) Hcfg Hclk e clock [] Hle He) as Hw.
    rewrite (fired_Done _ clock e now Hcfg Hclk Hle He) in Hw.
    destruct (fired e now) as [[e1 o] []]; [done|]. destruct Hw as (_ & _ & Hrest).
    destruct (Hrest eq_refl) as (_ & _ & Hgs). destruct (Hgs g Hg) as [Hnin _].
    destruct Hnin. apply elem_of_due_timers. eauto.
  - intros k e Hk Hfuture. rewrite lookup_omap, Hk. simpl. unfold ticked, fired. rewrite (no_due_timers e now Hfuture). simpl.
    unfold gone. simpl. pose proof (so_entries _ _ _ _ Hs k e Hk) as [_ _ Hl _ _ Hclock]. rewrite Hl. simpl.
    unfold sat_sub. destruct (Z.leb_spec (mc_ttl cfg) (Z.max 0 (now - last_activity e))), (Z.leb_spec (last_activity e + mc_ttl cfg) now);
      done || lia.
  - intros k e'. rewrite lookup_omap. intros (e & Hk & Ht)%bind_Some. split; [eauto|].
    pose proof (so_entries _ _ _ _ Hs k e Hk) as He.
    by destruct (ticked_ok _ _ _ _ _ _ Hcfg Hclk Hle He Ht) as [_ ?].
Qed.

(** C4: No transaction outlives its timers, while timers and clock fit a Duration: a
    tick returns and removes every transaction whose guard timer is due; a transaction
    with no timer due is removed exactly when it was idle for the TTL and is unchanged
    otherwise (the due timers fire first, and a retransmission counts as activity);
    every survivor was active within the TTL and has its guard timer, if its state has
    one, armed in the future. *)
Theorem tick_ends_overdue (cfg : ManagerConfig) (clock now : Z) os oc m
    (Hcfg : config_ok (mc_transaction cfg)) (Hclk : clock_ok (mc_transaction cfg) now)
    (Hle : clock <= now) (Hm : manager_ok cfg clock m) :
  exists m' outs, tick os oc m now = Done (m', outs)
    /\ swept cfg now (tm_client m) (tm_client m') /\ swept cfg now (tm_server m) (tm_server m').
Proof.
  erewrite tick_spec by done. do 2 eexists. split; [done|]. simpl.
  split; eapply ticked_swept; try done; apply Hm.
Qed.

(** The order in which the hash maps are walked is irrelevant to a tick:
    two orders give the same tables, and the same outputs up to permutation. *)
Theorem tick_order_irrelevant (cfg : ManagerConfig) (clock now : Z) os oc os' oc' m
    (Hcfg : config_ok (mc_transaction cfg)) (Hclk : clock_ok (mc_transaction cfg) now)
    (Hle : clock <= now) (Hm : manager_ok cfg clock m) :
  exists m' outs outs',
    tick os oc m now = Done (m', outs) /\ tick os' oc' m now = Done (m', outs') /\ outs ≡ₚ outs'.
Proof.
  erewrite !tick_spec by done. do 3 eexists. split; [done|]. split; [done|].
  f_equiv; rewrite !ho_perm; done.
Qed.

(** ** Retransmitted requests *)

Definition replay (t : Server.ServerTransaction) (tgt : T) : list (ManagerOutput T) :=
  match Server.state t with
  | Server.Proceeding =>
      match Server.provisional_response t with Some r => [MSend r tgt] | None => [] end
  | Server.Completed =>
      match Server.final_response t with Some r => [MSend r tgt] | None => [] end
  | _ => []
  end.

(** A request with the method of the transaction is a retransmission: it is
    answered with the stored response and changes neither state nor response. *)
Lemma process_retransmission t message now :
  Server.wf t -> config_ok (Server.config t) -> clock_ok (Server.config t) now ->
  request_method message = request_method (Server.request t) ->
  wp (Server.process t (EvRequest message) now) (fun r =>
    Server.state r.1 = Server.state t
    /\ existsb is_deliver r.2 = false
    /\ forall tgt, emitted tgt r.2 = replay t tgt).
Proof.
  intros Hwf Hcfg Hclk Hm. pose proof (Server.wf_invite t Hwf) as Hi.
  pose proof (timer_g_bound (Server.config t) (wrap32 (Server.retransmit_count t + 1)) Hcfg) as Hg.
  unfold Server.process, replay. destruct (Server.state t) eqn:Hst, (Server.is_invite t); simpl;
    try done.
  all: try (symmetry in Hi; apply bool_decide_eq_true in Hi; rewrite Hi in Hm).
  - unfold Server.on_non_invite_request_trying, Server.same_method.
    by rewrite bool_decide_true.
  - unfold Server.on_invite_request. rewrite Hm. by destruct (Server.provisional_response t).
  - unfold Server.on_non_invite_request_proceeding, Server.same_method.
    rewrite bool_decide_true by done. by destruct (Server.provisional_response t).
  - unfold Server.on_invite_request_completed. rewrite Hm.
    destruct (Server.final_response t); [|done]. simpl. destruct (is_reliable _); [done|].
    apply wp_bind, (Client.wp_set_timer (Server.config t)); done.
  - unfold Server.on_non_invite_request_completed, Server.same_method.
    rewrite bool_decide_true by done. by destruct (Server.final_response t).
  - unfold Server.on_invite_request_confirmed. by rewrite Hm.
Qed.

Lemma filter_emitted tgt outs :
  existsb is_deliver outs = false ->
  filter (fun o : ManagerOutput T => is_mdeliver o = false) (emitted tgt outs) = emitted tgt outs.
Proof.
  induction outs as [|o outs IH]; [done|]. intros [Ho ?]%orb_false_iff.
  destruct o; simpl in *; try done; rewrite ?filter_cons; simpl; rewrite IH; done.
Qed.

Lemma absorb_retransmission (cfg : ManagerConfig) (clock now : Z) o m line hs body tgt key e t
    (Hcfg : config_ok (mc_transaction cfg)) (Hclk : clock_ok (mc_transaction cfg) now)
    (Hle : clock <= now) (Hm : manager_ok cfg clock m)
    (Hkey : server_key m (Request line hs body) = Some key)
    (He : tm_server m !! key = Some e) (Ht : transaction e = TxServer t)
    (Hmeth : Some (rl_method line) = request_method (Server.request t)) :
  exists m' e' t',
    handle_request o m (Request line hs body) tgt now
      = Done (m', mkOutcome (Some key) false (replay t (target e)))
    /\ tm_client m' = tm_client m
    /\ tm_server m' !! key = Some e' /\ transaction e' = TxServer t'
    /\ Server.state t' = Server.state t.
Proof.
  pose proof (so_entries _ _ _ _ (mo_server _ _ _ Hm) key e He) as Hok.
  destruct Hok as [Hwf Hc Hl _ _ _]. rewrite Ht in Hwf, Hc, Hl. simpl in Hwf, Hc, Hl.
  rewrite <- Hc in Hcfg, Hclk.
  pose proof (process_retransmission t (Request line hs body) now Hwf Hcfg Hclk Hmeth) as Hp.
  apply wp_elim in Hp as ([t' raw] & Hp & Hst & Hdel & Hem). simpl in Hst, Hdel, Hem.
  assert (Server.is_terminated t' = false) as Hl'.
  { revert Hl. unfold Server.is_terminated. by rewrite Hst. }
  assert (existsb is_complete raw = false) as Hco.
  { rewrite <- Hl'. by apply (Server.srv_process_complete _ _ _ _ _ Hp). }
  cbn [handle_request]. rewrite Hkey, He. unfold drive. rewrite Ht. cbn [tx_process].
  rewrite Hp. cbn [mbind outcome_bind mret outcome_ret]. rewrite absorb_eq.
  cbn [transaction target timers last_activity tx_is_terminated].
  rewrite Hco, Hl'. cbn [mbind outcome_bind mret outcome_ret orb app].
  rewrite Hdel, filter_emitted, Hem by done.
  do 3 eexists. split; [done|]. split; [done|]. simpl. by rewrite lookup_insert_eq.
Qed.

(** A request that matches a live server transaction and has its method
    (a retransmission, as over UDP) is not delivered to the user again: the only
    output is the response already sent for the state of the transaction, sent
    to its target, and the transaction stays in its state. *)
Theorem retransmission_absorbed (cfg : ManagerConfig) (clock now : Z) o m line hs body tgt key e t
    (Hcfg : config_ok (mc_transaction cfg)) (Hclk : clock_ok (mc_transaction cfg) now)
    (Hle : clock <= now) (Hm : manager_ok cfg clock m)
    (Hkey : server_key m (Request line hs body) = Some key)
    (He : tm_server m !! key = Some e) (Ht : transaction e = TxServer t)
    (Hmeth : Some (rl_method line) = request_method (Server.request t)) :
  exists m' e' t',
    handle_request o m (Request line hs body) tgt now
      = Done (m', mkOutcome (Some key) false (replay t (target e)))
    /\ tm_client m' = tm_client m
    /\ tm_server m' !! key = Some e' /\ transaction e' = TxServer t'
    /\ Server.state t' = Server.state t.
Proof. by eapply absorb_retransmission. Qed.

(** A request with a key of its own is delivered exactly once: the first
    copy is delivered and creates the transaction, a second copy at a later
    time is absorbed. *)
Theorem request_delivered_once (cfg : ManagerConfig) (clock now now' : Z) o o' m line hs body tgt key
    (Hcfg : config_ok (mc_transaction cfg)) (Hclk : clock_ok (mc_transaction cfg) now)
    (Hclk' : clock_ok (mc_transaction cfg) now') (Hle : clock <= now) (Hle' : now <= now')
    (Hm : manager_ok cfg clock m)
    (Hkey : server_key m (Request line hs body) = Some key)
    (Hnew : tm_server m !! key = None) (Hack : rl_method line <> ACK) :
  exists m1 m2,
    handle_request o m (Request line hs body) tgt now = Done (m1, mkOutcome (Some key) true [])
    /\ handle_request o' m1 (Request line hs body) tgt now' = Done (m2, mkOutcome (Some key) false []).
Proof.
  set (msg := Request line hs body) in *.
  set (t := Server.new msg (mc_transaction cfg)).
  set (e := mkEntry (TxServer t) tgt ∅ now).
  set (m1 := with_server m (<[key := e]> (ensure_capacity o (tm_server m)
               (mc_max_transactions (tm_config m))))).
  assert (handle_request o m msg tgt now = Done (m1, mkOutcome (Some key) true [])) as H1.
  { unfold msg. cbn [handle_request]. fold msg. rewrite Hkey, Hnew, decide_False by done.
    unfold new_server. cbn [is_request msg]. rewrite absorb_eq.
    cbn [transaction timers target Entry_new]. rewrite (mo_config _ _ _ Hm).
    replace (tx_is_terminated _) with false by (simpl; unfold Server.is_terminated; simpl;
        by destruct (bool_decide _)).
    simpl. unfold m1. by rewrite (mo_config _ _ _ Hm). }
  assert (manager_ok cfg now m1) as Hm1.
  { pose proof (handle_request_wp cfg clock now Hcfg Hclk Hle o m msg tgt Hm) as Hw.
    by rewrite H1 in Hw. }
  assert (server_key m1 msg = Some key) as Hk1 by done.
  destruct (absorb_retransmission cfg now now' o' m1 line hs body tgt key e t Hcfg Hclk' Hle' Hm1 Hk1)
    as (m2 & _ & _ & H2 & _); [apply lookup_insert_eq | done..|].
  fold msg in H2. exists m1, m2. split; [done|]. rewrite H2. unfold replay, t. simpl. by destruct (bool_decide _).
Qed.
End props.
Arguments call : clear implicits.

(** ** The ACK of a failed INVITE *)

Lemma fold_append l hs (keep : HeaderName * string -> bool) :
  fold_left (fun h nv => if keep nv then append h nv.1 nv.2 else h) l (headers_of hs)
  = headers_of (hs ++ filter (fun nv => keep nv = true) l).
Proof.
  revert hs. induction l as [|nv l IH]; intros hs; simpl; [by rewrite app_nil_r|].
  rewrite filter_cons. case_decide as Hk.
  - rewrite Hk, headers_of_snoc, IH, <- app_assoc. by destruct nv.
  - apply not_true_is_false in Hk. by rewrite Hk, IH.
Qed.

(** The headers of the ACK, up to its own CSeq. *)
Lemma ack_base_headers_of hs :
  exists l, Client.ack_base_headers hs = headers_of l /\ filter (named HCSeq) l = [].
Proof.
  unfold Client.ack_base_headers.
  set (top := match head (get_all hs HVia) with Some v => [(HVia, v)] | None => [] end).
  assert (match head (get_all hs HVia) with
          | Some top_via => append headers_new HVia top_via
          | None => headers_new end = headers_of top) as ->.
  { unfold top. by destruct (head _). }
  rewrite (fold_append _ _ (fun nv => Client.ack_allowed nv.1)). eexists. split; [done|].
  rewrite filter_app. unfold top. destruct (head (get_all hs HVia)); simpl.
  all: apply filter_none; intros [n v] [Ha _]%list_elem_of_filter Hc;
    unfold named in Hc; simpl in *; destruct n; done.
Qed.

Lemma build_ack_cseq invite response ack n method :
  cseq invite = Ok (n, method) -> Client.build_ack invite response = Done ack ->
  cseq ack = Ok (n, ACK) /\ request_method ack = Some ACK.
Proof.
  intros Hseq. destruct invite as [line hs body|]; [|done]. cbn [Client.build_ack]. rewrite Hseq.
  intros [= <-]. split; [|done]. unfold cseq. cbn [msg_headers].
  destruct (ack_base_headers_of hs) as (l & -> & Hl).
  set (l' := l ++ match get (msg_headers response) HTo with Some to => [(HTo, to)] | None => [] end).
  assert (filter (named HCSeq) l' = []) as Hl'.
  { unfold l'. rewrite filter_app, Hl. by destruct (get _ HTo). }
  assert (match get (msg_headers response) HTo with
          | Some to => append (headers_of l) HTo to
          | None => headers_of l end = headers_of l') as ->.
  { unfold l'. destruct (get _ HTo); [by rewrite headers_of_snoc | by rewrite app_nil_r]. }
  rewrite headers_of_snoc, get_spec, filter_app, Hl'. simpl.
  change (show_uint n +:+ " ACK") with (header_cseq n ACK).
  apply parse_header_cseq; [by eapply cseq_u32 | done].
Qed.

(** ** First retransmission of a client *)

Lemma due_timers_one {T} (e : Entry T) now k :
  (forall k', (exists d, timers e !! k' = Some d /\ d <= now) <-> k' = k) -> due_timers e now = [k].
Proof.
  intros Hk. apply Permutation_singleton_r, NoDup_Permutation.
  - unfold due_timers. rewrite merge_sort_Permutation.
    apply NoDup_fmap_fst; [|apply NoDup_filter, NoDup_map_to_list].
    intros k' d1 d2 [_ H1]%list_elem_of_filter [_ H2]%list_elem_of_filter.
    apply elem_of_map_to_list in H1, H2. congruence.
  - apply NoDup_singleton.
  - intros k'. by rewrite elem_of_due_timers, Hk, list_elem_of_singleton.
Qed.

Section findings.
Context {T : Type}.
Implicit Types (m : TransactionManager T).

Definition retransmit_timer (request : SipMessage) : TimerKind :=
  if bool_decide (request_method request = Some INVITE) then TimerA else TimerE.

Lemma fire_first_retransmission cfg request now :
  config_ok cfg -> clock_ok cfg now ->
  exists t d, Client.process (Client.new request cfg) (EvTimer (retransmit_timer request)) now
              = Done (t, [SendMessage request; SetTimer (retransmit_timer request) d])
    /\ Client.is_terminated t = false.
Proof.
  intros Hcfg Hclk. pose proof (timer_e_bound cfg 1 Hcfg) as He1.
  assert (dur_add now (timer_e cfg 1) = Done (now + timer_e cfg 1)) as Hadd.
  { unfold dur_add. destruct (Z.leb_spec (now + timer_e cfg 1) DURATION_MAX); [done|].
    destruct Hclk. lia. }
  unfold retransmit_timer, Client.process, Client.new.
  destruct (bool_decide (request_method request = Some INVITE)); cbn [Client.state Client.is_invite].
  - unfold Client.on_invite_timer_a, set_timer. simpl.
    change (timer_a cfg (wrap32 (0 + 1))) with (timer_e cfg 1). rewrite Hadd. simpl. eauto.
  - unfold Client.on_non_invite_timer_e, set_timer. simpl.
    change (wrap32 (0 + 1)) with 1. rewrite Hadd. simpl. eauto.
Qed.

(** Once the first retransmission interval has passed, a tick sends the request
    again. *)
Lemma first_retransmission cfg request (tgt : T) now now' raw :
  config_ok cfg -> clock_ok cfg now' ->
  Client.bootstrap (Client.new request cfg) now = Done raw ->
  now + timer_e cfg 0 <= now' < now + t1 cfg * RETRY_CAP_FACTOR ->
  MSend request tgt ∈
    (fired (mkEntry (TxClient (Client.new request cfg)) tgt (apply_timers raw ∅) now) now').1.2.
Proof.
  intros Hcfg Hclk Hb Hnow.
  assert (exists g, g <> retransmit_timer request /\ apply_timers raw ∅
    = <[g := now + t1 cfg * RETRY_CAP_FACTOR]> (<[retransmit_timer request := now + timer_e cfg 0]> ∅))
    as (g & Hne & Htm).
  { unfold Client.bootstrap, set_timer, retransmit_timer in *. rewrite timer_a_timer_e in Hb.
    change (timer_f ?c) with (timer_b c) in Hb. simpl in Hb. rewrite !timer_b_Done in Hb by done.
    destruct (bool_decide _); simpl in Hb; inv_done; [by exists TimerB | by exists TimerF]. }
  rewrite Htm. destruct (fire_first_retransmission cfg request now' Hcfg Hclk) as (t & d & Hp & Hl).
  unfold fired. rewrite (due_timers_one _ now' (retransmit_timer request)).
  - cbn [fire_timers timers transaction target last_activity].
    rewrite lookup_insert_ne, lookup_insert_eq by done. cbn [tx_process]. rewrite Hp.
    cbn [mbind outcome_bind mret outcome_ret]. rewrite absorb_eq.
    cbn [transaction tx_is_terminated]. rewrite Hl. simpl. apply list_elem_of_here.
  - intros k'. cbn [timers]. split.
    + intros (d' & Hd & Hle). rewrite !lookup_insert in Hd.
      repeat case_decide; simplify_eq; [lia | done].
    + intros ->. exists (now + timer_e cfg 0). rewrite lookup_insert_ne, lookup_insert_eq by done.
      split; [done | lia].
Qed.

(** A client transaction over a reliable transport retransmits: the
    retransmission timer is armed with a zero interval, so the first tick after
    the start sends the request a second time (the driver documents that
    reliable transactions never produce retransmissions). *)
Theorem reliable_client_retransmits (cfg : ManagerConfig) (clock now now' : Z) o os oc m request key tgt
    (Hrel : transport (mc_transaction cfg) = Reliable)
    (Hcfg : config_ok (mc_transaction cfg)) (Hclk : clock_ok (mc_transaction cfg) now)
    (Hclk' : clock_ok (mc_transaction cfg) now') (Hle : clock <= now)
    (Hnow : now <= now' < now + t1 (mc_transaction cfg) * RETRY_CAP_FACTOR)
    (Hm : manager_ok cfg clock m)
    (Hreq : is_request request = true) (Hkey : client_key m request = Some key) :
  exists m1 out1 m2 out2,
    start_client_transaction o m request tgt now = Done (m1, out1)
    /\ tick os oc m1 now' = Done (m2, out2)
    /\ MSend request tgt ∈ out1 /\ MSend request tgt ∈ out2.
Proof.
  pose proof (start_client_transaction_wp cfg clock now Hcfg Hclk Hle o m request tgt Hm) as Hw.
  apply wp_elim in Hw as ([m1 out1] & Hs & Hm1). exists m1, out1. simpl in Hm1.
  rewrite (tick_spec cfg now now') by (done || lia). do 2 eexists. split; [done|]. split; [done|].
  pose proof (client_bootstrap_wp _ request tgt now Hcfg Hclk Hreq) as Hb.
  apply wp_elim in Hb as (raw & Hb & Hcomp & Hok).
  unfold start_client_transaction, new_client in Hs.
  rewrite Hkey, Hreq, (mo_config _ _ _ Hm), Hb in Hs.
  cbn [mbind outcome_bind mret outcome_ret] in Hs. rewrite absorb_eq in Hs.
  pose proof (eo_live _ _ _ Hok) as Hl. cbn [transaction timers target Entry_new] in Hs, Hl.
  rewrite Hcomp, Hl in Hs. injection Hs as <- <-. split.
  - revert Hb. unfold Client.bootstrap. destruct (Client.is_invite _); intros Hb; inv_done;
      apply list_elem_of_here.
  - apply elem_of_app. right. apply list_elem_of_In, in_concat.
    eexists. split; [apply list_elem_of_In, list_elem_of_fmap|apply list_elem_of_In].
    + eexists (key, _). split; [reflexivity|]. apply elem_of_ho_iter. apply lookup_insert_eq.
    + simpl. apply first_retransmission; try done.
      unfold timer_e. rewrite Hrel. simpl. lia.
Qed.

(** The ACK that the client itself builds for a failed INVITE carries the
    CSeq method ACK, as RFC 3261 asks, so its transaction key differs from the
    key of the INVITE: handling it never touches the INVITE server transaction,
    which therefore cannot be confirmed by it. *)
Theorem ack_misses_invite_transaction (cfg : ManagerConfig) (clock now : Z) o m invite response ack n k tgt
    (Hcfg : config_ok (mc_transaction cfg)) (Hclk : clock_ok (mc_transaction cfg) now)
    (Hle : clock <= now) (Hm : manager_ok cfg clock m)
    (Hseq : cseq invite = Ok (n, INVITE))
    (Hkey : server_key m invite = Some k)
    (Hack : Client.build_ack invite response = Done ack) :
  exists m' out, handle_request o m ack tgt now = Done (m', out)
    /\ tm_server m' !! k = tm_server m !! k.
Proof.
  destruct (build_ack_cseq _ _ _ _ _ Hseq Hack) as [Hs Hr].
  pose proof (handle_request_wp cfg clock now Hcfg Hclk Hle o m ack tgt Hm) as Hw.
  apply wp_elim in Hw as ([m' out] & Hh & _). exists m', out. split; [done|].
  destruct ack as [line hs body|]; [|done]. cbn [handle_request mret outcome_ret] in Hh.
  destruct (server_key m (Request line hs body)) as [k'|] eqn:Hk'; [|by injection Hh as <- _].
  injection Hr as Hr. rewrite Hr, decide_True in Hh by done.
  destruct (tm_server m !! k') as [e|] eqn:He; [|by injection Hh as <- _].
  assert (k <> k') as Hne.
  { apply for_message_Some in Hkey as (_ & _ & _ & [n1 Hn1] & _).
    apply for_message_Some in Hk' as (_ & _ & _ & [n2 Hn2] & _). intros ->. congruence. }
  pose proof (so_entries _ _ _ _ (mo_server _ _ _ Hm)) as Hok.
  pose proof (drive_wp _ _ _ _ _ (EvRequest (Request line hs body)) now Hcfg Hclk Hle Hok He
                ltac:(done)) as Hd.
  apply wp_elim in Hd as ([[table raw] outs] & Hd & _ & _ & Hother).
  rewrite Hd in Hh. injection Hh as <- _. by apply Hother.
Qed.
End findings.

(** ** Responses *)

Section responses.
Context {T : Type}.
Implicit Types (m : TransactionManager T).

(** A response acts on at most one client transaction, the one whose
    request has the same top Via branch, Call-ID and CSeq method; without such a
    transaction (or for a request) nothing changes and nothing is output. *)
Theorem response_matched (cfg : ManagerConfig) (clock now : Z) m message
    (Hcfg : config_ok (mc_transaction cfg)) (Hclk : clock_ok (mc_transaction cfg) now)
    (Hle : clock <= now) (Hm : manager_ok cfg clock m) :
  exists m' outs, handle_response m message now = Done (m', outs)
    /\ tm_server m' = tm_server m
    /\ ((m' = m /\ outs = []
         /\ forall key, is_request message = false -> client_key m message = Some key ->
              tm_client m !! key = None)
        \/ exists key e raw, tm_client m !! key = Some e
             /\ drive (tm_client m) key e (EvResponse message) now = Done (tm_client m', raw, outs)
             /\ top_branch (tx_request (transaction e)) = top_branch message
             /\ call_id (tx_request (transaction e)) = call_id message
             /\ (exists n n' method, cseq (tx_request (transaction e)) = Ok (n, method)
                                    /\ cseq message = Ok (n', method))
             /\ forall k, k <> key -> tm_client m' !! k = tm_client m !! k).
Proof.
  unfold handle_response. destruct (is_request message);
    [do 2 eexists; split; [done|]; split; [done|]; left; naive_solver|].
  destruct (client_key m message) as [key|] eqn:Hkey;
    [|do 2 eexists; split; [done|]; split; [done|]; left; naive_solver].
  destruct (tm_client m !! key) as [e|] eqn:He;
    [|do 2 eexists; split; [done|]; split; [done|]; left; naive_solver].
  destruct (mo_client _ _ _ Hm) as [Hok Hk _].
  pose proof (drive_wp _ _ _ _ _ (EvResponse message) now Hcfg Hclk Hle Hok He ltac:(done)) as Hd.
  apply wp_elim in Hd as ([[table raw] outs] & Hd & _ & _ & Hother). rewrite Hd. simpl.
  do 2 eexists. split; [done|]. split; [done|]. right. exists key, e, raw. do 2 (split; [done|]).
  destruct (Hk key e He) as [_ Hf].
  apply for_message_Some in Hf as (-> & _ & -> & [n1 Hn1] & _).
  apply for_message_Some in Hkey as (-> & _ & -> & [n2 Hn2] & _).
  do 2 (split; [done|]). split; [eauto 6|]. done.
Qed.
End responses.

(** ** Witnesses

    A manager with the default configuration (and one over TCP) that has started
    a MESSAGE as client and received an INVITE as server. *)

Definition sample_calls : list (Z * call nat) :=
  [ (from_millis 10, CallStart canonical_order sample_message 7%nat);
    (from_millis 20, CallRequest canonical_order sample_invite 8%nat) ].

Definition sample_manager (cfg : ManagerConfig) : TransactionManager nat :=
  match run (manager_new cfg) sample_calls with Done (m, _) => m | Panic => manager_new cfg end.

Lemma clock_ok_default now : 0 <= now <= from_secs 1000 -> clock_ok TransactionConfig_default now.
Proof.
  intros Hn. unfold clock_ok. change (timer_bound TransactionConfig_default) with U64_MAX.
  change (from_secs 1000) with 1000000000000 in Hn.
  assert (1000000000000 + U64_MAX <= DURATION_MAX) by (vm_compute; discriminate). lia.
Defined.

Lemma sample_manager_ok : manager_ok ManagerConfig_default (from_millis 20) (sample_manager ManagerConfig_default).
Proof.
  unfold sample_manager.
  pose proof (run_wp ManagerConfig_default 0 (manager_new ManagerConfig_default) sample_calls) as Hw.
  apply wp_elim in Hw as ([m outs] & -> & Hm); [exact Hm | exact default_config_ok | |apply manager_ok_new].
  split; [done|]. split; [apply clock_ok_default; vm_compute; split; discriminate|].
  split; [vm_compute; discriminate|]. split; [apply clock_ok_default; vm_compute; split; discriminate|done].
Qed.

Lemma run_invariant_witness :
  exists m outs, run (manager_new ManagerConfig_default) sample_calls = Done (m, outs)
    /\ manager_ok ManagerConfig_default (from_millis 20) m
    /\ (size (tm_client m) <= 4096)%nat /\ (size (tm_server m) <= 4096)%nat
    /\ map_Forall (fun _ e => guarded e) (tm_client m)
    /\ map_Forall (fun _ e => guarded e \/ awaits_user e) (tm_server m).
Proof.
  apply (run_invariant ManagerConfig_default sample_calls).
  - exact default_config_ok.
  - vm_compute. lia.
  - split; [done|]. split; [apply clock_ok_default; vm_compute; split; discriminate|].
    split; [vm_compute; discriminate|].
    split; [apply clock_ok_default; vm_compute; split; discriminate|done].
Defined.

Lemma tick_ends_overdue_witness :
  exists m' outs,
    tick canonical_order canonical_order (sample_manager ManagerConfig_default) (from_secs 40)
      = Done (m', outs)
    /\ swept ManagerConfig_default (from_secs 40)
         (tm_client (sample_manager ManagerConfig_default)) (tm_client m')
    /\ swept ManagerConfig_default (from_secs 40)
         (tm_server (sample_manager ManagerConfig_default)) (tm_server m').
Proof.
  apply (tick_ends_overdue ManagerConfig_default (from_millis 20) (from_secs 40)).
  - exact default_config_ok.
  - apply clock_ok_default. vm_compute. split; discriminate.
  - vm_compute. discriminate.
  - exact sample_manager_ok.
Defined.

Lemma tick_order_irrelevant_witness :
  exists m' outs outs',
    tick canonical_order canonical_order (sample_manager ManagerConfig_default) (from_secs 40)
      = Done (m', outs)
    /\ tick reversed_order reversed_order (sample_manager ManagerConfig_default) (from_secs 40)
      = Done (m', outs')
    /\ outs ≡ₚ outs'.
Proof.
  apply (tick_order_irrelevant ManagerConfig_default (from_millis 20) (from_secs 40)).
  - exact default_config_ok.
  - apply clock_ok_default. vm_compute. split; discriminate.
  - vm_compute. discriminate.
  - exact sample_manager_ok.
Defined.

Definition sample_invite_key : TransactionKey := mkKey "z9hG4bK1" INVITE "call-1@10.0.0.1" Uas.
Definition sample_invite_tx : Server.ServerTransaction :=
  Server.new sample_invite TransactionConfig_default.
Definition sample_line (m : Method) : RequestLine := RequestLine_new m sample_uri.

Lemma retransmission_absorbed_witness :
  exists m' e' t',
    handle_request canonical_order (sample_manager ManagerConfig_default) sample_invite 9%nat
      (from_millis 520) = Done (m', mkOutcome (Some sample_invite_key) false [])
    /\ tm_client m' = tm_client (sample_manager ManagerConfig_default)
    /\ tm_server m' !! sample_invite_key = Some e' /\ transaction e' = TxServer t'
    /\ Server.state t' = Server.Proceeding.
Proof.
  apply (retransmission_absorbed ManagerConfig_default (from_millis 20) (from_millis 520)
           canonical_order (sample_manager ManagerConfig_default) (sample_line INVITE)
           (sample_headers "z9hG4bK1" "1 INVITE") "" 9%nat sample_invite_key
           (mkEntry (TxServer sample_invite_tx) 8%nat ∅ (from_millis 20)) sample_invite_tx).
  - exact default_config_ok.
  - apply clock_ok_default. vm_compute. split; discriminate.
  - vm_compute. discriminate.
  - exact sample_manager_ok.
  - vm_compute. reflexivity.
  - vm_compute. reflexivity.
  - reflexivity.
  - reflexivity.
Defined.

Lemma request_delivered_once_witness :
  exists m1 m2,
    handle_request canonical_order (manager_new ManagerConfig_default) sample_message 9%nat
      (from_millis 1) = Done (m1, mkOutcome (Some (mkKey "z9hG4bK2" MESSAGE "call-1@10.0.0.1" Uas)) true [])
    /\ handle_request reversed_order m1 sample_message 9%nat (from_millis 501)
      = Done (m2, mkOutcome (Some (mkKey "z9hG4bK2" MESSAGE "call-1@10.0.0.1" Uas)) false []).
Proof.
  apply (request_delivered_once ManagerConfig_default 0 (from_millis 1) (from_millis 501)
           canonical_order reversed_order (manager_new ManagerConfig_default) (sample_line MESSAGE)
           (sample_headers "z9hG4bK2" "2 MESSAGE") "").
  - exact default_config_ok.
  - apply clock_ok_default. vm_compute. split; discriminate.
  - apply clock_ok_default. vm_compute. split; discriminate.
  - vm_compute. discriminate.
  - vm_compute. discriminate.
  - apply manager_ok_new.
  - vm_compute. reflexivity.
  - reflexivity.
  - discriminate.
Defined.

Definition sample_ack : SipMessage :=
  match Client.build_ack sample_invite sample_busy with Done a => a | Panic => sample_invite end.

Lemma ack_misses_invite_transaction_witness :
  exists m' out,
    handle_request canonical_order (sample_manager ManagerConfig_default) sample_ack 8%nat (from_secs 2)
      = Done (m', out)
    /\ tm_server m' !! sample_invite_key
      = tm_server (sample_manager ManagerConfig_default) !! sample_invite_key.
Proof.
  apply (ack_misses_invite_transaction ManagerConfig_default (from_millis 20) (from_secs 2)
           canonical_order (sample_manager ManagerConfig_default) sample_invite sample_busy sample_ack 1).
  - exact default_config_ok.
  - apply clock_ok_default. vm_compute. split; discriminate.
  - vm_compute. discriminate.
  - exact sample_manager_ok.
  - vm_compute. reflexivity.
  - vm_compute. reflexivity.
  - vm_compute. reflexivity.
Defined.

Lemma reliable_client_retransmits_witness :
  exists m1 out1 m2 out2,
    start_client_transaction canonical_order (manager_new sample_reliable) sample_message 5%nat 0
      = Done (m1, out1)
    /\ tick canonical_order canonical_order m1 (from_millis 1) = Done (m2, out2)
    /\ MSend sample_message 5%nat ∈ out1 /\ MSend sample_message 5%nat ∈ out2.
Proof.
  apply (reliable_client_retransmits sample_reliable 0 0 (from_millis 1) canonical_order
           canonical_order canonical_order (manager_new sample_reliable) sample_message
           (mkKey "z9hG4bK2" MESSAGE "call-1@10.0.0.1" Uac)).
  - reflexivity.
  - exact reliable_config_ok.
  - vm_compute. split; discriminate.
  - vm_compute. split; discriminate.
  - vm_compute. discriminate.
  - vm_compute. split; [discriminate | reflexivity].
  - apply manager_ok_new.
  - reflexivity.
  - vm_compute. reflexivity.
Defined.

Lemma response_matched_witness :
  exists m' outs,
    handle_response (sample_manager ManagerConfig_default) sample_ok (from_secs 1) = Done (m', outs)
    /\ tm_server m' = tm_server (sample_manager ManagerConfig_default)
    /\ ((m' = sample_manager ManagerConfig_default /\ outs = []
         /\ forall key, is_request sample_ok = false ->
              client_key (sample_manager ManagerConfig_default) sample_ok = Some key ->
              tm_client (sample_manager ManagerConfig_default) !! key = None)
        \/ exists key e raw, tm_client (sample_manager ManagerConfig_default) !! key = Some e
             /\ drive (tm_client (sample_manager ManagerConfig_default)) key e
                  (EvResponse sample_ok) (from_secs 1) = Done (tm_client m', raw, outs)
             /\ top_branch (tx_request (transaction e)) = top_branch sample_ok
             /\ call_id (tx_request (transaction e)) = call_id sample_ok
             /\ (exists n n' method, cseq (tx_request (transaction e)) = Ok (n, method)
                                    /\ cseq sample_ok = Ok (n', method))
             /\ forall k, k <> key ->
                  tm_client m' !! k = tm_client (sample_manager ManagerConfig_default) !! k).
Proof.
  apply (response_matched ManagerConfig_default (from_millis 20) (from_secs 1)).
  - exact default_config_ok.
  - apply clock_ok_default. vm_compute. split; discriminate.
  - vm_compute. discriminate.
  - exact sample_manager_ok.
Defined.

(** The scenario of the ACK, run: an INVITE is refused, the client's ACK
    arrives, and the server transaction still ends by Timer H with a timeout. *)
Example ack_scenario :
  exists m, run (manager_new ManagerConfig_default)
    [ (0, CallRequest canonical_order sample_invite 8%nat);
      (from_secs 1, CallProvide sample_invite_key sample_busy);
      (from_secs 2, CallRequest canonical_order sample_ack 8%nat);
      (from_secs 40, CallTick canonical_order canonical_order) ]
  = Done (m, [MSend sample_busy 8%nat; MSend sample_busy 8%nat; MFailure TransactionTimeout]).
Proof. eexists. vm_compute. reflexivity. Qed.
