(* ===== verification/SipDialog.v ===== *)
(** * Dialogs and the dialog manager

    [sip/dialog.rs] and [sip/dialog_manager.rs]: the dialog state machine with
    its CSeq discipline, the extraction of tags, URIs and route sets, and the
    bounded table of dialogs. *)

From S2P Require Import Prelude RustStr SipUri SipMessage LruTable.
Open Scope string_scope.
Open Scope list_scope.
Open Scope Z_scope.

Record DialogId := mkDialogId {
  di_call_id : string;
  di_local_tag : string;
  di_remote_tag : string
}.

#[global] Instance DialogId_eq_dec : EqDecision DialogId.
Proof. solve_decision. Defined.
#[global] Instance DialogId_countable : Countable DialogId.
Proof.
  refine (inj_countable' (fun d => (di_call_id d, di_local_tag d, di_remote_tag d))
                         (fun '(c, l, r) => mkDialogId c l r) _).
  by intros [].
Defined.

Inductive DialogRole := DialogUac | DialogUas.
Inductive DialogState := Early | Confirmed | Terminated.

#[global] Instance DialogState_eq_dec : EqDecision DialogState.
Proof. solve_decision. Defined.

Inductive DialogEvent :=
| DRequest (m : SipMessage)
| DResponse (m : SipMessage)
| DTimer.

Inductive DialogOutput :=
| DDeliver (m : SipMessage)
| DComplete
| DFailure (e : SipErrorKind).

Record Dialog := mkDialog {
  dg_id : DialogId;
  dg_role : DialogRole;
  dg_state : DialogState;
  dg_route_set : list SipUri;
  dg_remote_target : SipUri;
  dg_local_cseq : Z;
  dg_remote_cseq : option Z
}.

(** ** Header values *)

Definition require_header (msg : SipMessage) (name : HeaderName) : result string SipError :=
  ok_or (get (msg_headers msg) name)
        (SipError_new MissingRequiredHeader None "missing header").

Definition cseq_number (msg : SipMessage) : result Z SipError :=
  match cseq msg with Ok (n, _) => Ok n | Err e => Err e end.

(** The text before the first [;] or white-space character. *)
Definition until_semi_or_ws (s : string) : string :=
  let head := (splitn2_ws s).1 in
  match split_once ";" head with Some (h, _) => h | None => head end.

(** [extract_tag]: the value after the first [;tag=], case-insensitive. *)
Fixpoint tag_from (value : string) : option string :=
  match value with
  | EmptyString => None
  | String _ rest =>
      if eq_ignore_ascii_case (str_take 5 value) ";tag="
      then Some (trim_matches DQUOTE (until_semi_or_ws (str_drop 5 value)))
      else tag_from rest
  end.
Definition extract_tag (value : string) : option string := tag_from (trim value).

(** [split_route_entries]: one pass with the quote and angle flags; [cur] is
    the current entry, reversed. *)
Fixpoint split_route_go (value : string) (in_quotes in_angle : bool) (cur : string) : list string :=
  match value with
  | EmptyString => [str_rev cur]
  | String c rest =>
      if Ascii.eqb c "\" && in_quotes then
        match rest with
        | EmptyString => [str_rev (String c cur)]
        | String d rest => split_route_go rest in_quotes in_angle (String d (String c cur))
        end
      else if Ascii.eqb c DQUOTE && negb in_angle then
        split_route_go rest (negb in_quotes) in_angle (String c cur)
      else if Ascii.eqb c "<" && negb in_quotes then
        split_route_go rest in_quotes true (String c cur)
      else if Ascii.eqb c ">" && negb in_quotes && in_angle then
        split_route_go rest in_quotes false (String c cur)
      else if Ascii.eqb c "," && negb in_quotes && negb in_angle then
        str_rev cur :: split_route_go rest in_quotes in_angle ""
      else split_route_go rest in_quotes in_angle (String c cur)
  end.
Definition split_route_entries (value : string) : list string :=
  split_route_go value false false "".

(** The scan of a bare URI up to its first unquoted [;]. *)
Fixpoint until_unquoted_semi (token : string) (quoted : bool) : string :=
  match token with
  | EmptyString => EmptyString
  | String c rest =>
      if Ascii.eqb c DQUOTE then String c (until_unquoted_semi rest (negb quoted))
      else if Ascii.eqb c ";" && negb quoted then EmptyString
      else String c (until_unquoted_semi rest quoted)
  end.

Fixpoint first_bare_uri (tokens : list string) : option SipUri :=
  match tokens with
  | [] => None
  | token :: tokens =>
      let token := trim token in
      if starts_with "sip:" token || starts_with "sips:" token
      then ok (uri_parse (until_unquoted_semi token false))
      else first_bare_uri tokens
  end.

(** [extract_first_uri]. *)
Definition extract_first_uri (value : string) : option SipUri :=
  let value := trim value in
  match split_once "<" value with
  | Some (_, after) =>
      match split_once ">" after with
      | Some (inner, _) => ok (uri_parse inner)
      | None => first_bare_uri (split_route_entries value)
      end
  | None => first_bare_uri (split_route_entries value)
  end.

Fixpoint collect_route_tokens (tokens : list string) : result (list SipUri) SipError :=
  match tokens with
  | [] => Ok []
  | token :: tokens =>
      let token := trim token in
      if is_empty_str token then collect_route_tokens tokens
      else
        let? uri := ok_or (extract_first_uri token)
                          (SipError_new InvalidHeader None "malformed Record-Route URI") in
        let? uris := collect_route_tokens tokens in
        Ok (uri :: uris)
  end.

(** [extract_route_set]. *)
Definition extract_route_set (msg : SipMessage) (rev : bool) : result (list SipUri) SipError :=
  let? uris := collect_route_tokens
                 (concat (split_route_entries <$> get_all (msg_headers msg) HRecordRoute)) in
  Ok (if rev then reverse uris else uris).

(** ** The dialog *)

Definition missing (what : string) : SipError := SipError_new MissingRequiredHeader None what.

(** [Dialog::new_uac]. *)
Definition new_uac (invite final_response : SipMessage) : result Dialog SipError :=
  let? call_id := require_header invite HCallId in
  let? from := require_header invite HFrom in
  let? local_tag := ok_or (extract_tag from) (missing "missing From tag") in
  let? to := require_header final_response HTo in
  let? remote_tag := ok_or (extract_tag to) (missing "missing To tag") in
  let? local_cseq := cseq_number invite in
  let? contact := require_header final_response HContact in
  let? remote_target := ok_or (extract_first_uri contact) (missing "missing Contact") in
  let? route_set := extract_route_set final_response true in
  Ok (mkDialog (mkDialogId call_id local_tag remote_tag) DialogUac Confirmed route_set
               remote_target local_cseq None).

(** [Dialog::new_uas]. *)
Definition new_uas (invite : SipMessage) (local_tag : string) : result Dialog SipError :=
  let? call_id := require_header invite HCallId in
  let? from := require_header invite HFrom in
  let? remote_tag := ok_or (extract_tag from) (missing "missing From tag") in
  let? remote_cseq := cseq_number invite in
  let? contact := require_header invite HContact in
  let? remote_target := ok_or (extract_first_uri contact) (missing "missing Contact") in
  let? route_set := extract_route_set invite false in
  Ok (mkDialog (mkDialogId call_id local_tag remote_tag) DialogUas Confirmed route_set
               remote_target 0 (Some remote_cseq)).

Definition dialog_is_terminated (d : Dialog) : bool :=
  match dg_state d with Terminated => true | _ => false end.

Definition with_dstate (s : DialogState) (d : Dialog) : Dialog :=
  mkDialog (dg_id d) (dg_role d) s (dg_route_set d) (dg_remote_target d)
           (dg_local_cseq d) (dg_remote_cseq d).
Definition with_remote_cseq (n : Z) (d : Dialog) : Dialog :=
  mkDialog (dg_id d) (dg_role d) (dg_state d) (dg_route_set d) (dg_remote_target d)
           (dg_local_cseq d) (Some n).
Definition with_local_cseq (n : Z) (d : Dialog) : Dialog :=
  mkDialog (dg_id d) (dg_role d) (dg_state d) (dg_route_set d) (dg_remote_target d)
           n (dg_remote_cseq d).
Definition with_target (u : SipUri) (d : Dialog) : Dialog :=
  mkDialog (dg_id d) (dg_role d) (dg_state d) (dg_route_set d) u
           (dg_local_cseq d) (dg_remote_cseq d).

(** [Dialog::next_local_cseq]: a wrapping [+= 1]. *)
Definition next_local_cseq (d : Dialog) : Dialog * Z :=
  let n := wrap32 (dg_local_cseq d + 1) in (with_local_cseq n d, n).

Definition dialog_terminate (d : Dialog) : Dialog * list DialogOutput :=
  (with_dstate Terminated d, [DComplete]).

(** [Dialog::on_request]. *)
Definition on_request (d : Dialog) (req : SipMessage) : Dialog * list DialogOutput :=
  match req with
  | Response _ _ _ => (d, [])
  | Request line headers _ =>
      match SipMessage.cseq req with
      | Err e => (d, [DFailure (se_kind e)])
      | Ok (cseq, _) =>
          let remote_cseq := default 0 (dg_remote_cseq d) in
          let stale := match dg_remote_cseq d with Some _ => cseq <=? remote_cseq | None => false end in
          match rl_method line with
          | BYE =>
              if stale then (d, [])
              else (with_dstate Terminated (with_remote_cseq cseq d), [DDeliver req; DComplete])
          | ACK | CANCEL => (d, [DDeliver req])
          | INVITE | MESSAGE | OPTIONS =>
              if stale then (d, [])
              else
                let d := with_remote_cseq cseq d in
                let d :=
                  if decide (rl_method line = INVITE) then
                    match (v ← get headers HContact; extract_first_uri v) with
                    | Some uri => with_target uri d
                    | None => d
                    end
                  else d in
                (d, [DDeliver req])
          | _ =>
              if stale then (d, [])
              else (with_remote_cseq cseq d, [DDeliver req])
          end
      end
  end.

(** [Dialog::on_response]. *)
Definition on_response (d : Dialog) (resp : SipMessage) : Dialog * list DialogOutput :=
  match resp with
  | Request _ _ _ => (d, [])
  | Response line _ _ =>
      match SipMessage.cseq resp with
      | Err e => (d, [DFailure (se_kind e)])
      | Ok (cseq, method) =>
          if bool_decide (method = BYE) && (200 <=? sl_code line) && (sl_code line <? 300)
          then (with_dstate Terminated d, [DDeliver resp; DComplete])
          else
            let d := if dg_local_cseq d <? cseq then with_local_cseq cseq d else d in
            (d, [DDeliver resp])
      end
  end.

(** [Dialog::process]. *)
Definition dialog_process (d : Dialog) (ev : DialogEvent) : Dialog * list DialogOutput :=
  if dialog_is_terminated d then (d, [])
  else match ev with
       | DRequest req => on_request d req
       | DResponse resp => on_response d resp
       | DTimer => dialog_terminate d
       end.

(** ** The manager *)

Definition DEFAULT_MAX_DIALOGS : nat := 4096.
Definition DEFAULT_DIALOG_TTL : Z := from_secs 1800.

Record DialogManagerConfig := mkDialogConfig { dc_max_dialogs : nat; dc_ttl : Z }.
Definition DialogManagerConfig_default : DialogManagerConfig :=
  mkDialogConfig DEFAULT_MAX_DIALOGS DEFAULT_DIALOG_TTL.

Inductive DialogRouting :=
| RDeliver (m : SipMessage)
| RTerminated (m : SipMessage)
| RAbsorbed
| RNoDialog (m : SipMessage)
| RFailure (e : SipErrorKind).

Record DialogEntry := mkDialogEntry { de_dialog : Dialog; de_last_activity : Z }.

#[global] Instance dialog_evictable : Evictable DialogEntry := {
  ev_terminated e := dialog_is_terminated (de_dialog e);
  ev_last_activity := de_last_activity
}.

Record DialogManager := mkDialogManager {
  dm_config : DialogManagerConfig;
  dm_dialogs : gmap DialogId DialogEntry
}.

Definition dialog_manager_new (config : DialogManagerConfig) : DialogManager :=
  mkDialogManager config ∅.

Definition with_dialogs (m : DialogManager) (t : gmap DialogId DialogEntry) : DialogManager :=
  mkDialogManager (dm_config m) t.

(** [DialogManager::insert]. *)
Definition dialog_insert (o : hash_order DialogId DialogEntry) (m : DialogManager)
    (d : Dialog) (now : Z) : DialogManager * DialogId :=
  let t := ensure_capacity o (dm_dialogs m) (dc_max_dialogs (dm_config m)) in
  (with_dialogs m (<[dg_id d := mkDialogEntry d now]> t), dg_id d).

Definition establish_uas (o : hash_order DialogId DialogEntry) (m : DialogManager)
    (invite : SipMessage) (local_tag : string) (now : Z)
    : DialogManager * result DialogId SipError :=
  match new_uas invite local_tag with
  | Err e => (m, Err e)
  | Ok d => let '(m, id) := dialog_insert o m d now in (m, Ok id)
  end.

Definition establish_uac (o : hash_order DialogId DialogEntry) (m : DialogManager)
    (invite final_response : SipMessage) (now : Z)
    : DialogManager * result DialogId SipError :=
  match new_uac invite final_response with
  | Err e => (m, Err e)
  | Ok d => let '(m, id) := dialog_insert o m d now in (m, Ok id)
  end.

(** [DialogManager::match_id]. *)
Definition match_id (message : SipMessage) : option DialogId :=
  letopt call_id := call_id message in
  letopt from := get (msg_headers message) HFrom in
  letopt from_tag := extract_tag from in
  letopt to := get (msg_headers message) HTo in
  letopt to_tag := extract_tag to in
  Some (if is_request message then mkDialogId call_id to_tag from_tag
        else mkDialogId call_id from_tag to_tag).

(** One turn of the loop of [route] over the outputs of the dialog. *)
Definition route_output (acc : option SipMessage * option SipErrorKind * bool) (o : DialogOutput)
    : option SipMessage * option SipErrorKind * bool :=
  let '(delivered, failure, completed) := acc in
  match o with
  | DDeliver msg => (Some msg, failure, completed)
  | DComplete => (delivered, failure, true)
  | DFailure kind => (delivered, Some kind, completed)
  end.

(** [DialogManager::route]. *)
Definition dialog_route (m : DialogManager) (message : SipMessage) (now : Z)
    (to_event : SipMessage -> DialogEvent) : DialogManager * DialogRouting :=
  match match_id message with
  | None => (m, RNoDialog message)
  | Some id =>
      match dm_dialogs m !! id with
      | None => (m, RNoDialog message)
      | Some entry =>
          let '(d, outputs) := dialog_process (de_dialog entry) (to_event message) in
          let t := <[id := mkDialogEntry d now]> (dm_dialogs m) in
          let '(delivered, failure, completed) :=
            fold_left route_output outputs (None, None, false) in
          let t := if (completed : bool) then delete id t else t in
          (with_dialogs m t,
           match failure, delivered, completed with
           | Some kind, _, _ => RFailure kind
           | None, Some msg, true => RTerminated msg
           | None, Some msg, false => RDeliver msg
           | None, None, _ => RAbsorbed
           end)
      end
  end.
Definition dialog_handle_request (m : DialogManager) (message : SipMessage) (now : Z) :=
  dialog_route m message now DRequest.
Definition dialog_handle_response (m : DialogManager) (message : SipMessage) (now : Z) :=
  dialog_route m message now DResponse.

(** [DialogManager::tick]. *)
Definition dialog_tick (m : DialogManager) (now : Z) : DialogManager :=
  let ttl := dc_ttl (dm_config m) in
  with_dialogs m
    (filter (fun ke : DialogId * DialogEntry =>
               dialog_is_terminated (de_dialog ke.2) = false
               /\ sat_sub now (de_last_activity ke.2) < ttl) (dm_dialogs m)).
