(* ===== verification/SipDialogProps.v ===== *)
(** * Properties of dialogs

    The CSeq discipline over sequences of events, termination, matching of
    in-dialog messages to the dialog that owns them, and the invariant of the
    dialog table. *)

From S2P Require Import Prelude RustStr SipUri SipMessage LruTable SipTxManager SipDialog.
Open Scope string_scope.
Open Scope list_scope.
Open Scope Z_scope.

(** ** Runs of one dialog *)

Fixpoint dialog_run (d : Dialog) (evs : list DialogEvent) : Dialog * list DialogOutput :=
  match evs with
  | [] => (d, [])
  | ev :: evs =>
      let '(d, outs) := dialog_process d ev in
      let '(d, outs') := dialog_run d evs in
      (d, outs ++ outs')
  end.

(** The CSeq number of a delivered request, when it is subject to ordering. *)
Definition ordered_cseq (o : DialogOutput) : option Z :=
  match o with
  | DDeliver (Request line hs body) =>
      match rl_method line with
      | ACK | CANCEL => None
      | _ => ok (cseq_number (Request line hs body))
      end
  | _ => None
  end.
Definition delivered_cseqs (outs : list DialogOutput) : list Z := omap ordered_cseq outs.

(** The numbers a dialog may still accept. *)
Definition above (r : option Z) (n : Z) : Prop := match r with Some r => r < n | None => True end.

Lemma on_request_cseq d line hs body d' outs :
  on_request d (Request line hs body) = (d', outs) ->
  (delivered_cseqs outs = [] /\ dg_remote_cseq d' = dg_remote_cseq d)
  \/ exists n, delivered_cseqs outs = [n] /\ dg_remote_cseq d' = Some n /\ above (dg_remote_cseq d) n.
Proof.
  unfold on_request.
  destruct (SipMessage.cseq (Request line hs body)) as [[n method]|e] eqn:Hseq.
  2:{ intros [= <- <-]. by left. }
  assert (ok (cseq_number (Request line hs body)) = Some n) as Hnum
    by (unfold cseq_number; by rewrite Hseq).
  assert (forall stale : bool,
            stale = match dg_remote_cseq d with
                    | Some _ => n <=? default 0 (dg_remote_cseq d) | None => false end ->
            stale = true \/ above (dg_remote_cseq d) n) as Hstale.
  { intros stale ->. unfold above. destruct (dg_remote_cseq d); simpl; [|by right].
    destruct (Z.leb_spec n z); [by left | by right]. }
  specialize (Hstale _ eq_refl).
  destruct (match dg_remote_cseq d with Some _ => _ | None => false end); [clear Hstale|];
    destruct (rl_method line) eqn:Hm; simpl; intros [= <- <-];
    first [by left; split; [unfold delivered_cseqs; simpl; by rewrite ?Hm|] | right].
  all: destruct Hstale as [?|Hab]; [done|]; exists n; unfold delivered_cseqs; simpl;
    rewrite ?Hm, ?Hnum; simpl; split; [done|]; split; [|done].
  all: by destruct (get hs HContact ≫= extract_first_uri).
Qed.

Lemma dialog_process_cseq d ev d' outs :
  dialog_process d ev = (d', outs) ->
  (delivered_cseqs outs = [] /\ dg_remote_cseq d' = dg_remote_cseq d)
  \/ exists n, delivered_cseqs outs = [n] /\ dg_remote_cseq d' = Some n /\ above (dg_remote_cseq d) n.
Proof.
  unfold dialog_process. destruct (dialog_is_terminated d); [intros [= <- <-]; by left|].
  destruct ev as [[line hs body|line hs body]|[line hs body|line hs body]|].
  - apply on_request_cseq.
  - simpl. intros [= <- <-]. by left.
  - simpl. intros [= <- <-]. by left.
  - unfold on_response. destruct (SipMessage.cseq _) as [[n m]|]; [|intros [= <- <-]; by left].
    destruct (_ && _ && _); intros [= <- <-]; left; [done|].
    split; [done|]. by destruct (_ <? _).
  - simpl. intros [= <- <-]. by left.
Qed.

Lemma delivered_cseqs_app o1 o2 :
  delivered_cseqs (o1 ++ o2) = delivered_cseqs o1 ++ delivered_cseqs o2.
Proof. apply omap_app. Qed.

Lemma dialog_run_cseq evs d d' outs :
  dialog_run d evs = (d', outs) ->
  StronglySorted Z.lt (delivered_cseqs outs) /\ Forall (above (dg_remote_cseq d)) (delivered_cseqs outs).
Proof.
  revert d d' outs. induction evs as [|ev evs IH]; intros d d' outs; simpl.
  { intros [= <- <-]. split; constructor. }
  destruct (dialog_process d ev) as [d1 o1] eqn:Hp. destruct (dialog_run d1 evs) as [d2 o2] eqn:Hr.
  intros [= <- <-]. apply IH in Hr as [Hs Hf]. rewrite delivered_cseqs_app.
  apply dialog_process_cseq in Hp as [[-> Heq]|(n & -> & Heq & Hab)]; simpl.
  - rewrite <- Heq. done.
  - rewrite Heq in Hf. split.
    + by constructor.
    + constructor; [done|]. eapply Forall_impl; [exact Hf|]. simpl. intros k Hk.
      unfold above in *. destruct (dg_remote_cseq d); [lia | done].
Qed.

(** In-dialog requests reach the user in strictly increasing CSeq order.
    Over any sequence of requests, responses and timers, the CSeq numbers of the
    delivered requests (ACK and CANCEL apart, which reuse the number of their
    INVITE) strictly increase and are above the remote CSeq the dialog started
    with: duplicates and reordered requests are never delivered. *)
Theorem dialog_delivers_in_order d evs :
  StronglySorted Z.lt (delivered_cseqs (dialog_run d evs).2)
  /\ Forall (above (dg_remote_cseq d)) (delivered_cseqs (dialog_run d evs).2).
Proof.
  destruct (dialog_run d evs) as [d' outs] eqn:Hr. by apply dialog_run_cseq in Hr.
Qed.

(** ** Termination *)

Definition is_dcomplete (o : DialogOutput) : bool :=
  match o with DComplete => true | _ => false end.

Lemma dialog_process_complete d ev d' outs :
  dialog_process d ev = (d', outs) -> dialog_is_terminated d = false ->
  dg_id d' = dg_id d /\ existsb is_dcomplete outs = dialog_is_terminated d'.
Proof.
  unfold dialog_process. intros Hp Hl. rewrite Hl in Hp.
  destruct ev as [[line hs body|line hs body]|[line hs body|line hs body]|]; simpl in Hp;
    try (by injection Hp as <- <-).
  - destruct (SipMessage.cseq _) as [[n method]|e]; [|by injection Hp as <- <-].
    destruct (match dg_remote_cseq d with Some _ => _ | None => false end), (rl_method line);
      simpl in Hp; injection Hp as <- <-; try done.
    all: by destruct (get hs HContact ≫= extract_first_uri).
  - destruct (SipMessage.cseq _) as [[n method]|e]; [|by injection Hp as <- <-].
    destruct (_ && _ && _); injection Hp as <- <-; [done|]. by destruct (_ <? _).
Qed.

(** ** The table *)

Record dialogs_ok (cfg : DialogManagerConfig) (clock : Z) (m : DialogManager) : Prop := {
  do_config : dm_config m = cfg;
  do_entry : forall id e, dm_dialogs m !! id = Some e ->
    dg_id (de_dialog e) = id /\ dialog_is_terminated (de_dialog e) = false
    /\ de_last_activity e <= clock;
  do_size : (0 < dc_max_dialogs cfg)%nat -> (size (dm_dialogs m) <= dc_max_dialogs cfg)%nat
}.

Lemma dialogs_ok_new cfg clock : dialogs_ok cfg clock (dialog_manager_new cfg).
Proof. split; [done | intros id e; simpl; by rewrite lookup_empty |]. simpl. rewrite map_size_empty. lia. Qed.

Lemma dialogs_ok_later cfg clock now m :
  clock <= now -> dialogs_ok cfg clock m -> dialogs_ok cfg now m.
Proof.
  intros Hle [Hc He Hs]. split; [done | | done].
  intros id e Hl. destruct (He id e Hl) as (? & ? & ?). split; [done|]. split; [done | lia].
Qed.

Lemma new_uas_live invite tag d : new_uas invite tag = Ok d -> dialog_is_terminated d = false.
Proof. unfold new_uas. intros H. by repeat (case_match; [|done]); simplify_eq. Qed.
Lemma new_uac_live invite resp d : new_uac invite resp = Ok d -> dialog_is_terminated d = false.
Proof. unfold new_uac. intros H. by repeat (case_match; [|done]); simplify_eq. Qed.

Lemma dialog_insert_ok cfg clock now o m d :
  clock <= now -> dialogs_ok cfg clock m -> dialog_is_terminated d = false ->
  dialogs_ok cfg now (dialog_insert o m d now).1.
Proof.
  intros Hle Hm Hd. pose proof (dialogs_ok_later _ _ _ _ Hle Hm) as [Hc He Hs]. simpl. split; [done| |].
  - intros id e. simpl. rewrite lookup_insert. case_decide.
    + intros [= <-]. simpl. split; [done|]. split; [done | lia].
    + intros Hl%ensure_capacity_lookup. by apply He.
  - intros Hmax. simpl. rewrite Hc. apply insert_bounded; auto.
Qed.

(** [completed] after the loop over the outputs. *)
Lemma route_fold outs acc :
  (fold_left route_output outs acc).2 = acc.2 || existsb is_dcomplete outs.
Proof.
  revert acc. induction outs as [|o outs IH]; intros [[dl fl] cp]; simpl.
  { by rewrite orb_false_r. }
  rewrite IH. destruct o; simpl; by rewrite ?orb_true_r.
Qed.

Lemma dialog_route_ok cfg clock now m message to_event :
  clock <= now -> dialogs_ok cfg clock m ->
  dialogs_ok cfg now (dialog_route m message now to_event).1.
Proof.
  intros Hle Hm. pose proof (dialogs_ok_later _ _ _ _ Hle Hm) as Hm'. unfold dialog_route.
  destruct (match_id message) as [id|]; [|done].
  destruct (dm_dialogs m !! id) as [e|] eqn:He; [|done].
  destruct (dialog_process (de_dialog e) (to_event message)) as [d outs] eqn:Hp.
  destruct (do_entry _ _ _ Hm id e He) as (Hid & Hlive & _).
  destruct (dialog_process_complete _ _ _ _ Hp Hlive) as [Hid' Hcomp].
  pose proof (route_fold outs (None, None, false)) as Hf.
  destruct (fold_left route_output outs (None, None, false)) as [[dl fl] cp]. simpl in Hf. subst cp.
  simpl. destruct Hm' as [Hc He' Hs].
  assert (size (<[id := mkDialogEntry d now]> (dm_dialogs m)) = size (dm_dialogs m)) as Hsz
    by (by apply map_size_insert_Some).
  rewrite Hcomp. destruct (dialog_is_terminated d) eqn:Hdt.
  - split; [done | |]; simpl.
    + intros id' e'. rewrite delete_insert_eq, lookup_delete. case_decide; [done|]. apply He'.
    + intros Hmax. etrans; [apply map_subseteq_size, delete_subseteq|]. rewrite Hsz. auto.
  - split; [done | |]; simpl.
    + intros id' e'. rewrite lookup_insert. case_decide; [|apply He']. intros [= <-]. simpl. subst.
      split; [done|]. split; [done | lia].
    + intros Hmax. rewrite Hsz. auto.
Qed.

Lemma dialog_tick_ok cfg clock now m :
  clock <= now -> dialogs_ok cfg clock m -> dialogs_ok cfg now (dialog_tick m now).
Proof.
  intros Hle Hm. destruct (dialogs_ok_later _ _ _ _ Hle Hm) as [Hc He Hs]. split; [done | |]; simpl.
  - intros id e [Hl _]%map_lookup_filter_Some. by apply He.
  - intros Hmax. etrans; [apply map_subseteq_size, map_filter_subseteq | by apply Hs].
Qed.

(** Calls on a dialog manager. *)
Inductive dialog_call :=
| DUas (o : hash_order DialogId DialogEntry) (invite : SipMessage) (local_tag : string)
| DUac (o : hash_order DialogId DialogEntry) (invite final_response : SipMessage)
| DHandleRequest (message : SipMessage)
| DHandleResponse (message : SipMessage)
| DTick.

Definition dialog_exec (m : DialogManager) (now : Z) (c : dialog_call) : DialogManager :=
  match c with
  | DUas o invite tag => (establish_uas o m invite tag now).1
  | DUac o invite resp => (establish_uac o m invite resp now).1
  | DHandleRequest message => (dialog_handle_request m message now).1
  | DHandleResponse message => (dialog_handle_response m message now).1
  | DTick => dialog_tick m now
  end.

Fixpoint dialog_calls (m : DialogManager) (calls : list (Z * dialog_call)) : DialogManager :=
  match calls with
  | [] => m
  | (now, c) :: calls => dialog_calls (dialog_exec m now c) calls
  end.

Fixpoint rising (clock : Z) (calls : list (Z * dialog_call)) : Prop :=
  match calls with
  | [] => True
  | (now, _) :: calls => clock <= now /\ rising now calls
  end.

Definition last_time (clock : Z) (calls : list (Z * dialog_call)) : Z :=
  fold_left (fun _ c => c.1) calls clock.

Lemma dialog_exec_ok cfg clock now m c :
  clock <= now -> dialogs_ok cfg clock m -> dialogs_ok cfg now (dialog_exec m now c).
Proof.
  intros Hle Hm. destruct c; simpl.
  - unfold establish_uas. destruct (new_uas invite local_tag) eqn:Hn.
    + by apply (dialog_insert_ok cfg clock), (new_uas_live _ _ _ Hn).
    + by eapply dialogs_ok_later.
  - unfold establish_uac. destruct (new_uac invite final_response) eqn:Hn.
    + by apply (dialog_insert_ok cfg clock), (new_uac_live _ _ _ Hn).
    + by eapply dialogs_ok_later.
  - by eapply dialog_route_ok.
  - by eapply dialog_route_ok.
  - by eapply dialog_tick_ok.
Qed.

Lemma dialog_calls_ok cfg calls : forall clock m,
  rising clock calls -> dialogs_ok cfg clock m ->
  dialogs_ok cfg (last_time clock calls) (dialog_calls m calls).
Proof.
  induction calls as [|[now c] calls IH]; intros clock m; [done|].
  intros [Hle Hr] Hm. simpl. apply (IH now); [done|]. by eapply dialog_exec_ok.
Qed.

(** The dialog table keeps its invariant over every sequence of calls at
    non-decreasing times: it never exceeds [max_dialogs] (when that is not
    zero), every dialog sits under its own identifier, and no terminated dialog
    is kept. *)
Theorem dialog_table_invariant (cfg : DialogManagerConfig) (calls : list (Z * dialog_call))
    (Hr : rising 0 calls) :
  dialogs_ok cfg (last_time 0 calls) (dialog_calls (dialog_manager_new cfg) calls).
Proof. apply (dialog_calls_ok cfg calls 0); [done | apply dialogs_ok_new]. Qed.

(** ** A request is routed once *)

Definition cseq_bound (m : SipMessage) : bool :=
  match request_method m with Some (ACK | CANCEL) | None => false | Some _ => true end.

(** Processing an ordered request once makes its copy stale, or ends the dialog. *)
Lemma on_request_twice d message d' outs :
  cseq_bound message = true -> dialog_is_terminated d = false ->
  dialog_process d (DRequest message) = (d', outs) -> DDeliver message ∈ outs ->
  dialog_is_terminated d' = true \/ dialog_process d' (DRequest message) = (d', []).
Proof.
  unfold dialog_process. intros Hb Hl. rewrite Hl. destruct message as [line hs body|]; [|done].
  simpl. destruct (SipMessage.cseq (Request line hs body)) as [[n method]|e] eqn:Hseq.
  2:{ intros [= <- <-] Hin. by apply list_elem_of_singleton in Hin. }
  destruct (match dg_remote_cseq d with Some _ => _ | None => false end);
    unfold cseq_bound in Hb; simpl in Hb; destruct (rl_method line) eqn:Hm; try done;
    simpl; intros [= <- <-] Hin; try (by apply elem_of_nil in Hin); try (by left); right.
  all: try destruct (get hs HContact ≫= extract_first_uri) as [u|];
    unfold dialog_is_terminated in *; simpl; rewrite ?Hseq, ?Hm; simpl;
    rewrite ?Z.leb_refl; by destruct (dg_state d).
Qed.

(** What the loop reports as delivered was delivered by the dialog. *)
Lemma fold_delivered outs dl fl cp message :
  (fold_left route_output outs (dl, fl, cp)).1.1 = Some message ->
  DDeliver message ∈ outs \/ dl = Some message.
Proof.
  revert dl fl cp. induction outs as [|o outs IH]; intros dl fl cp; simpl; [by right|].
  destruct o; intros [Hin|Hd]%IH; simplify_eq; set_solver.
Qed.

(** An in-dialog request other than ACK and CANCEL is handed to the user at
    most once: if routing it delivers it, routing the same request again is
    absorbed; if routing it ended the dialog (a BYE), routing it again finds no
    dialog. *)
Theorem dialog_request_routed_once (cfg : DialogManagerConfig) (clock now now' : Z) m m1 message r
    (Hm : dialogs_ok cfg clock m) (Hb : cseq_bound message = true)
    (H1 : dialog_handle_request m message now = (m1, r)) :
  (r = RDeliver message -> exists m2, dialog_handle_request m1 message now' = (m2, RAbsorbed))
  /\ (r = RTerminated message -> dialog_handle_request m1 message now' = (m1, RNoDialog message)).
Proof.
  revert H1. unfold dialog_handle_request, dialog_route.
  destruct (match_id message) as [id|] eqn:Hid; [|intros [= <- <-]; done].
  destruct (dm_dialogs m !! id) as [e|] eqn:He; [|intros [= <- <-]; done].
  destruct (do_entry _ _ _ Hm id e He) as (_ & Hlive & _).
  destruct (dialog_process (de_dialog e) (DRequest message)) as [d outs] eqn:Hp.
  destruct (dialog_process_complete _ _ _ _ Hp Hlive) as [_ Hcomp].
  pose proof (route_fold outs (None, None, false)) as Hf. simpl in Hf.
  pose proof (fold_delivered outs None None false message) as Hdel.
  destruct (fold_left route_output outs (None, None, false)) as [[dl fl] cp]. simpl in Hf, Hdel.
  rewrite Hf, Hcomp. intros [= <- <-]. simpl. split; intros Hr.
  - destruct (dialog_is_terminated d) eqn:Ht; [by destruct fl, dl|].
    rewrite lookup_insert_eq. simpl.
    destruct (on_request_twice _ _ _ _ Hb Hlive Hp) as [?|H2]; [|congruence|].
    { destruct Hdel as [?|?]; [destruct fl, dl; congruence | done..]. }
    rewrite H2. simpl. eauto.
  - destruct (dialog_is_terminated d) eqn:Ht; [|by destruct fl, dl].
    by rewrite delete_insert_eq, lookup_delete_eq.
Qed.

(** ** In-dialog messages find their dialog *)

Definition from_tag (m : SipMessage) : option string := v ← get (msg_headers m) HFrom; extract_tag v.
Definition to_tag (m : SipMessage) : option string := v ← get (msg_headers m) HTo; extract_tag v.

Lemma match_id_eq message :
  match_id message =
    letopt c := call_id message in
    letopt f := from_tag message in
    letopt t := to_tag message in
    Some (if is_request message then mkDialogId c t f else mkDialogId c f t).
Proof.
  unfold match_id, from_tag, to_tag. destruct (call_id message); [|done].
  destruct (get _ HFrom) as [f|]; simpl; [|done]. destruct (extract_tag f); [|done].
  destruct (get _ HTo); done.
Qed.

Lemma new_uas_id invite tag d :
  new_uas invite tag = Ok d ->
  call_id invite = Some (di_call_id (dg_id d)) /\ from_tag invite = Some (di_remote_tag (dg_id d))
  /\ di_local_tag (dg_id d) = tag.
Proof.
  unfold new_uas, require_header, call_id, from_tag. destruct (get _ HCallId); simpl; [|done].
  destruct (get _ HFrom); simpl; [|done]. destruct (extract_tag _); simpl; [|done].
  destruct (cseq_number _); simpl; [|done]. destruct (get _ HContact); simpl; [|done].
  destruct (extract_first_uri _); simpl; [|done]. destruct (extract_route_set _ _); [|done].
  by intros [= <-].
Qed.

Lemma new_uac_id invite resp d :
  new_uac invite resp = Ok d ->
  call_id invite = Some (di_call_id (dg_id d)) /\ from_tag invite = Some (di_local_tag (dg_id d))
  /\ to_tag resp = Some (di_remote_tag (dg_id d)).
Proof.
  unfold new_uac, require_header, call_id, from_tag, to_tag. destruct (get _ HCallId); simpl; [|done].
  destruct (get _ HFrom); simpl; [|done]. destruct (extract_tag _); simpl; [|done].
  destruct (get _ HTo); simpl; [|done]. destruct (extract_tag _); simpl; [|done].
  destruct (cseq_number _); simpl; [|done]. destruct (get _ HContact); simpl; [|done].
  destruct (extract_first_uri _); simpl; [|done]. destruct (extract_route_set _ _); [|done].
  by intros [= <-].
Qed.

(** After a UAS dialog is established, a request reaches that dialog exactly
    when it has the Call-ID of the INVITE, the From tag of the INVITE as From tag
    and the local tag as To tag; and the dialog is there, fresh, whatever was
    evicted to make room. *)
Theorem uas_dialog_matched o m invite tag now m' id message
    (He : establish_uas o m invite tag now = (m', Ok id)) (Hreq : is_request message = true) :
  (exists d, new_uas invite tag = Ok d /\ dm_dialogs m' !! id = Some (mkDialogEntry d now))
  /\ (match_id message = Some id <->
      call_id message = call_id invite /\ from_tag message = from_tag invite
      /\ to_tag message = Some tag).
Proof.
  unfold establish_uas in He. destruct (new_uas invite tag) as [d|] eqn:Hn; [|done].
  injection He as <- <-. split; [exists d; split; [done | apply lookup_insert_eq]|].
  apply new_uas_id in Hn as (-> & -> & Ht). rewrite match_id_eq, Hreq.
  destruct (dg_id d) as [c l r]. simpl in *. subst l.
  destruct (call_id message); [|naive_solver]. destruct (from_tag message); [|naive_solver].
  destruct (to_tag message); naive_solver.
Qed.

(** After a UAC dialog is established, a response reaches that dialog
    exactly when it has the Call-ID and the From tag of the INVITE and the To tag
    of the final response; a request, exactly when its To tag is the From tag of
    the INVITE and its From tag is the To tag of the final response. *)
Theorem uac_dialog_matched o m invite resp now m' id message
    (He : establish_uac o m invite resp now = (m', Ok id)) :
  (exists d, new_uac invite resp = Ok d /\ dm_dialogs m' !! id = Some (mkDialogEntry d now))
  /\ (match_id message = Some id <->
      call_id message = call_id invite
      /\ (if is_request message then to_tag message else from_tag message) = from_tag invite
      /\ (if is_request message then from_tag message else to_tag message) = to_tag resp).
Proof.
  unfold establish_uac in He. destruct (new_uac invite resp) as [d|] eqn:Hn; [|done].
  injection He as <- <-. split; [exists d; split; [done | apply lookup_insert_eq]|].
  apply new_uac_id in Hn as (-> & -> & ->). rewrite match_id_eq.
  destruct (dg_id d) as [c l r]. simpl.
  destruct (call_id message); [|naive_solver].
  destruct (from_tag message), (to_tag message), (is_request message); naive_solver.
Qed.

(** ** Witnesses *)

Definition dialog_headers (from to : string) (cseq : string) : SipHeaders :=
  headers_of
    [ (HVia, "SIP/2.0/UDP 192.0.2.1:5060;branch=z9hG4bKinv"); (HFrom, from); (HTo, to);
      (HContact, "<sip:alice@192.0.2.1:5060>"); (HCallId, "dialog-call@example.com");
      (HCSeq, cseq) ].

Definition dialog_invite : SipMessage :=
  Request (RequestLine_new INVITE sample_uri)
    (dialog_headers "<sip:alice@example.com>;tag=alice-tag" "<sip:bob@example.com>" "1 INVITE") "".
Definition dialog_ok : SipMessage :=
  Response (StatusLine_new 200 "OK")
    (dialog_headers "<sip:alice@example.com>;tag=alice-tag" "<sip:bob@example.com>;tag=bob-tag"
       "1 INVITE") "".
Definition dialog_info : SipMessage :=
  Request (RequestLine_new INFO sample_uri)
    (dialog_headers "<sip:alice@example.com>;tag=alice-tag" "<sip:bob@example.com>;tag=bob-tag"
       "2 INFO") "".
Definition dialog_bye : SipMessage :=
  Request (RequestLine_new BYE sample_uri)
    (dialog_headers "<sip:alice@example.com>;tag=alice-tag" "<sip:bob@example.com>;tag=bob-tag"
       "3 BYE") "".

Definition uas_id : DialogId := mkDialogId "dialog-call@example.com" "bob-tag" "alice-tag".
Definition uac_id : DialogId := mkDialogId "dialog-call@example.com" "alice-tag" "bob-tag".

Definition uas_calls : list (Z * dialog_call) :=
  [ (0, DUas canonical_order dialog_invite "bob-tag"); (from_secs 1, DHandleRequest dialog_info) ].
Definition uas_manager : DialogManager :=
  dialog_calls (dialog_manager_new DialogManagerConfig_default)
    [ (0, DUas canonical_order dialog_invite "bob-tag") ].

Lemma dialog_table_invariant_witness :
  dialogs_ok DialogManagerConfig_default (from_secs 1)
    (dialog_calls (dialog_manager_new DialogManagerConfig_default) uas_calls).
Proof.
  apply (dialog_table_invariant DialogManagerConfig_default uas_calls).
  split; [done|]. split; [vm_compute; discriminate | done].
Defined.

Lemma uas_manager_ok : dialogs_ok DialogManagerConfig_default 0 uas_manager.
Proof.
  apply (dialog_calls_ok DialogManagerConfig_default [(0, DUas canonical_order dialog_invite "bob-tag")] 0
           (dialog_manager_new DialogManagerConfig_default)); [done | apply dialogs_ok_new].
Qed.

Lemma dialog_request_routed_once_witness :
  (RDeliver dialog_info = RDeliver dialog_info ->
     exists m2, dialog_handle_request (dialog_handle_request uas_manager dialog_info 5).1 dialog_info 6
                = (m2, RAbsorbed))
  /\ (RDeliver dialog_info = RTerminated dialog_info ->
      dialog_handle_request (dialog_handle_request uas_manager dialog_info 5).1 dialog_info 6
      = ((dialog_handle_request uas_manager dialog_info 5).1, RNoDialog dialog_info)).
Proof.
  apply (dialog_request_routed_once DialogManagerConfig_default 0 5 6 uas_manager).
  - exact uas_manager_ok.
  - reflexivity.
  - vm_compute. reflexivity.
Defined.

Lemma uas_dialog_matched_witness :
  (exists d, new_uas dialog_invite "bob-tag" = Ok d
             /\ dm_dialogs uas_manager !! uas_id = Some (mkDialogEntry d 0))
  /\ (match_id dialog_bye = Some uas_id <->
      call_id dialog_bye = call_id dialog_invite /\ from_tag dialog_bye = from_tag dialog_invite
      /\ to_tag dialog_bye = Some "bob-tag").
Proof.
  apply (uas_dialog_matched canonical_order (dialog_manager_new DialogManagerConfig_default)).
  - vm_compute. reflexivity.
  - reflexivity.
Defined.

Lemma uac_dialog_matched_witness :
  (exists d, new_uac dialog_invite dialog_ok = Ok d
             /\ dm_dialogs (establish_uac canonical_order
                              (dialog_manager_new DialogManagerConfig_default)
                              dialog_invite dialog_ok 7).1 !! uac_id
                = Some (mkDialogEntry d 7))
  /\ (match_id dialog_ok = Some uac_id <->
      call_id dialog_ok = call_id dialog_invite /\ from_tag dialog_ok = from_tag dialog_invite
      /\ to_tag dialog_ok = to_tag dialog_ok).
Proof.
  apply (uac_dialog_matched canonical_order (dialog_manager_new DialogManagerConfig_default)
           dialog_invite dialog_ok 7 _ uac_id dialog_ok).
  vm_compute. reflexivity.
Defined.

(** A BYE ends the dialog; a second copy finds none. *)
Example bye_scenario :
  let m1 := dialog_handle_request uas_manager dialog_bye 5 in
  m1.2 = RTerminated dialog_bye
  /\ (dialog_handle_request m1.1 dialog_bye 6).2 = RNoDialog dialog_bye.
Proof. vm_compute. split; reflexivity. Qed.

(** [extract_tag] takes the first [;tag=] of the value, also one inside a quoted
    display name. *)
Example quoted_tag :
  extract_tag (String DQUOTE ("a;tag=evil" +:+ String DQUOTE " <sip:a@h>;tag=real")) = Some "evil".
Proof. vm_compute. reflexivity. Qed.
