(* ===== verification/DigestReplay.v ===== *)
(** * The replay cache of digest authentication

    [sip/digest/replay_cache.rs]: a bounded queue of nonces with the highest
    nonce count seen for each. *)

From S2P Require Import Prelude RustStr.
Open Scope list_scope.
Open Scope Z_scope.

Record ReplayEntry := mkReplayEntry {
  re_nonce : string;
  re_max_nc : Z;
  re_inserted_at : Z
}.

Record DigestReplayCache := mkReplayCache {
  rc_capacity : nat;
  rc_entries : list ReplayEntry
}.

Definition replay_cache_new (capacity : nat) : DigestReplayCache := mkReplayCache capacity [].

Definition with_entries (c : DigestReplayCache) (l : list ReplayEntry) : DigestReplayCache :=
  mkReplayCache (rc_capacity c) l.

(** [DigestReplayCache::prune]. *)
Fixpoint prune_entries (l : list ReplayEntry) (now ttl : Z) : list ReplayEntry :=
  match l with
  | e :: l' => if sat_add64 (re_inserted_at e) ttl <? now then prune_entries l' now ttl else l
  | [] => []
  end.
Definition prune (c : DigestReplayCache) (now ttl : Z) : DigestReplayCache :=
  with_entries c (prune_entries (rc_entries c) now ttl).

(** The loop over the entries: [None] when no entry has the nonce, else the
    answer and the updated entries. *)
Fixpoint check_entries (l : list ReplayEntry) (nonce : string) (nc : Z)
    : option (bool * list ReplayEntry) :=
  match l with
  | [] => None
  | e :: l' =>
      if String.eqb (re_nonce e) nonce then
        if re_max_nc e <? nc
        then Some (true, mkReplayEntry (re_nonce e) nc (re_inserted_at e) :: l')
        else Some (false, l)
      else match check_entries l' nonce nc with
           | Some (b, l') => Some (b, e :: l')
           | None => None
           end
  end.

(** [DigestReplayCache::check]. *)
Definition check (c : DigestReplayCache) (nonce : string) (nc now ttl : Z)
    : DigestReplayCache * bool :=
  let c := prune c now ttl in
  match check_entries (rc_entries c) nonce nc with
  | Some (b, l) => (with_entries c l, b)
  | None =>
      let l := rc_entries c ++ [mkReplayEntry nonce nc now] in
      (with_entries c (if Nat.ltb (rc_capacity c) (length l) then drop 1 l else l), true)
  end.

(** ** Invariant: bounded, one entry per nonce, oldest first *)

Definition older (a b : ReplayEntry) : Prop := re_inserted_at a <= re_inserted_at b.

Record cache_ok (clock : Z) (c : DigestReplayCache) : Prop := {
  co_size : (length (rc_entries c) <= rc_capacity c)%nat;
  co_nodup : NoDup (re_nonce <$> rc_entries c);
  co_sorted : StronglySorted older (rc_entries c);
  co_clock : Forall (fun e => re_inserted_at e <= clock) (rc_entries c)
}.

Lemma prune_suffix l now ttl : exists k, prune_entries l now ttl = drop k l.
Proof.
  induction l as [|e l [k IH]]; simpl; [by exists 0%nat|].
  destruct (_ <? now); [by exists (S k) | by exists 0%nat].
Qed.

Lemma check_entries_None l nonce nc :
  check_entries l nonce nc = None <-> nonce ∉ (re_nonce <$> l).
Proof.
  induction l as [|e l IH]; simpl; [split; [intros _; apply not_elem_of_nil | done]|].
  rewrite not_elem_of_cons. destruct (String.eqb_spec (re_nonce e) nonce) as [He|He].
  - destruct (_ <? nc); split; [done | naive_solver | done | naive_solver].
  - destruct (check_entries l nonce nc) as [[b l']|] eqn:Hc; naive_solver.
Qed.

(** A found nonce: one entry, possibly with a higher count. *)
Lemma check_entries_Some l nonce nc b l' :
  check_entries l nonce nc = Some (b, l') ->
  exists l1 e l2, l = l1 ++ e :: l2 /\ re_nonce e = nonce /\ b = (re_max_nc e <? nc)
    /\ l' = l1 ++ mkReplayEntry nonce (Z.max (re_max_nc e) nc) (re_inserted_at e) :: l2.
Proof.
  revert l'. induction l as [|e l IH]; intros l'; simpl; [done|].
  destruct (String.eqb_spec (re_nonce e) nonce) as [He|He].
  - destruct (Z.ltb_spec (re_max_nc e) nc); intros [= <- <-]; exists [], e, l; simpl.
    + split; [done|]. split; [done|]. split; [symmetry; by apply Z.ltb_lt|].
      by rewrite He, Z.max_r by lia.
    + split; [done|]. split; [done|]. split; [symmetry; by apply Z.ltb_ge|].
      rewrite Z.max_l, <- He by lia. by destruct e.
  - destruct (check_entries l nonce nc) as [[b1 l1']|]; [|done]. intros [= <- <-].
    destruct (IH _ eq_refl) as (l1 & e1 & l2 & -> & Hn & Hb & ->). exists (e :: l1), e1, l2. done.
Qed.

Lemma cache_ok_later clock now c : clock <= now -> cache_ok clock c -> cache_ok now c.
Proof.
  intros Hle [? ? ? Hc]. split; try done. eapply Forall_impl; [exact Hc|]. simpl. lia.
Qed.

Lemma cache_ok_new clock capacity : cache_ok clock (replay_cache_new capacity).
Proof. split; simpl; [lia | constructor..]. Qed.

Lemma StronglySorted_drop {A} (R : A -> A -> Prop) k l : StronglySorted R l -> StronglySorted R (drop k l).
Proof.
  revert k. induction l as [|x l IH]; intros [|k] Hs; simpl; try done.
  apply IH. by inversion Hs.
Qed.

Lemma NoDup_drop {A} k (l : list A) : NoDup l -> NoDup (drop k l).
Proof. rewrite <- (take_drop k l) at 1. by intros (_ & _ & ?)%NoDup_app. Qed.

Lemma cache_ok_drop clock c k : cache_ok clock c -> cache_ok clock (with_entries c (drop k (rc_entries c))).
Proof.
  intros [Hl Hn Hs Hc]. split; simpl.
  - rewrite length_drop. lia.
  - rewrite fmap_drop. by apply NoDup_drop.
  - by apply StronglySorted_drop.
  - by apply Forall_drop.
Qed.

Lemma StronglySorted_snoc {A} (R : A -> A -> Prop) l x :
  StronglySorted R l -> Forall (fun y => R y x) l -> StronglySorted R (l ++ [x]).
Proof.
  induction 1 as [|y l Hs IH Hf]; simpl; [by repeat constructor|].
  intros [Hy Hl]%Forall_cons. constructor; [by apply IH|].
  apply Forall_app. split; [done | by constructor].
Qed.

Lemma cache_ok_check clock c nonce nc now ttl :
  clock <= now -> cache_ok clock c -> cache_ok now (check c nonce nc now ttl).1.
Proof.
  intros Hle Hc%(cache_ok_later clock now c Hle). unfold check, prune.
  destruct (prune_suffix (rc_entries c) now ttl) as [k ->].
  pose proof (cache_ok_drop now c k Hc) as Hd. simpl.
  set (l := drop k (rc_entries c)) in *.
  destruct (check_entries l nonce nc) as [[b l']|] eqn:Hch; simpl.
  - apply check_entries_Some in Hch as (l1 & e & l2 & Hl & He & _ & ->).
    destruct Hd as [Hs Hn Hso Hcl]. simpl in *. rewrite Hl in Hs, Hn, Hso, Hcl. split; simpl.
    + rewrite !length_app in *. simpl in *. lia.
    + rewrite fmap_app in *. simpl in *. by rewrite He in Hn.
    + clear -Hso. induction l1 as [|x l1 IH]; simpl in *.
      * inversion Hso; subst. by constructor.
      * inversion Hso as [|? ? ? Hf]; subst. constructor; [by apply IH|].
        apply Forall_app in Hf as [Hf1 [Hfe Hf2]%Forall_cons].
        apply Forall_app. split; [done|]. by constructor.
    + apply Forall_app in Hcl as [? [? ?]%Forall_cons]. apply Forall_app. split; [done|]. by constructor.
  - apply check_entries_None in Hch. destruct Hd as [Hs Hn Hso Hcl]. simpl in *.
    assert (NoDup (re_nonce <$> (l ++ [mkReplayEntry nonce nc now]))) as Hn'.
    { rewrite fmap_app. apply NoDup_app. split; [done|]. split; [set_solver | apply NoDup_singleton]. }
    assert (StronglySorted older (l ++ [mkReplayEntry nonce nc now])) as Hso'.
    { apply StronglySorted_snoc; done. }
    assert (Forall (fun e => re_inserted_at e <= now) (l ++ [mkReplayEntry nonce nc now])) as Hcl'.
    { apply Forall_app. split; [done|]. constructor; [simpl; lia | constructor]. }
    destruct (Nat.ltb_spec (rc_capacity c) (length (l ++ [mkReplayEntry nonce nc now]))) as [Hlt|Hge].
    + rewrite length_app in Hlt. simpl in Hlt. split; simpl.
      * rewrite length_drop, length_app. simpl. lia.
      * rewrite fmap_drop. by apply NoDup_drop.
      * by apply StronglySorted_drop.
      * by apply Forall_drop.
    + split; simpl; done.
Qed.

(** ** What a check accepts *)

(** The entry is kept: at most [ttl] seconds have passed since it was recorded. *)
Definition live (now ttl : Z) (e : ReplayEntry) : Prop := now <= sat_add64 (re_inserted_at e) ttl.

Lemma live_younger now ttl e e' : older e e' -> live now ttl e -> live now ttl e'.
Proof. unfold older, live, sat_add64. lia. Qed.

Lemma sat_add64_mono a b ttl : a <= b -> sat_add64 a ttl <= sat_add64 b ttl.
Proof. unfold sat_add64. lia. Qed.

(** Oldest first, pruning drops exactly the entries that are not live. *)
Lemma elem_of_prune l now ttl e :
  StronglySorted older l -> (e ∈ prune_entries l now ttl) <-> (e ∈ l) /\ live now ttl e.
Proof.
  induction 1 as [|x l Hs IH Hf]; simpl; [set_solver|].
  destruct (Z.ltb_spec (sat_add64 (re_inserted_at x) ttl) now) as [Hold|Hlive].
  - rewrite IH, elem_of_cons. split; [naive_solver|]. intros [[->|He] Hl]; [unfold live in Hl; lia|done].
  - split; [|naive_solver]. intros He. split; [done|]. apply elem_of_cons in He as [->|He]; [done|].
    rewrite Forall_forall in Hf. eapply live_younger; [by apply Hf|done].
Qed.

(** Every count that the cache still knows of the nonce is smaller. *)
Definition fresh_count (c : DigestReplayCache) (nonce : string) (nc now ttl : Z) : Prop :=
  forall e, e ∈ rc_entries c -> re_nonce e = nonce -> live now ttl e -> re_max_nc e < nc.

Lemma same_entry l (e1 e2 : ReplayEntry) :
  NoDup (re_nonce <$> l) -> e1 ∈ l -> e2 ∈ l -> re_nonce e1 = re_nonce e2 -> e1 = e2.
Proof.
  intros Hnd [i Hi]%list_elem_of_lookup [j Hj]%list_elem_of_lookup He.
  assert (i = j) as ->; [|congruence]. eapply NoDup_lookup; [exact Hnd|..]; rewrite list_lookup_fmap.
  - by rewrite Hi.
  - rewrite Hj. simpl. by rewrite He.
Qed.

Lemma prune_nodup clock c now ttl : cache_ok clock c -> NoDup (re_nonce <$> prune_entries (rc_entries c) now ttl).
Proof.
  intros [_ Hnd _ _]. destruct (prune_suffix (rc_entries c) now ttl) as [k ->]. rewrite fmap_drop. by apply NoDup_drop.
Qed.

Lemma check_accepts clock c nonce nc now ttl :
  cache_ok clock c -> (check c nonce nc now ttl).2 = true <-> fresh_count c nonce nc now ttl.
Proof.
  intros Hok. pose proof (prune_nodup clock c now ttl Hok) as Hnd. unfold check, fresh_count.
  assert (forall e, (e ∈ prune_entries (rc_entries c) now ttl) <-> (e ∈ rc_entries c) /\ live now ttl e) as Hin
    by (intros e; apply elem_of_prune, (co_sorted _ _ Hok)).
  cbn [prune with_entries rc_entries]. destruct (check_entries _ nonce nc) as [[b l]|] eqn:Hch; simpl.
  - apply check_entries_Some in Hch as (l1 & e & l2 & Hl & He & -> & _). rewrite Z.ltb_lt.
    assert (e ∈ prune_entries (rc_entries c) now ttl) as Hep by (rewrite Hl; set_solver).
    split; [|intros Hall; apply Hin in Hep as [? ?]; by apply Hall].
    intros Hlt e2 He2 Hn2 Hl2. assert (e2 = e) as ->; [|done].
    apply (same_entry _ _ _ Hnd); [by apply Hin|done|congruence].
  - apply check_entries_None in Hch. split; [|done]. intros _ e He Hn Hl. destruct Hch. rewrite <-Hn.
    by apply list_elem_of_fmap_2, Hin.
Qed.

(** ** A cache with room for the nonces in use *)

Definition nonces (c : DigestReplayCache) : gset string := list_to_set (re_nonce <$> rc_entries c).

Lemma check_capacity c n nc now ttl : rc_capacity (check c n nc now ttl).1 = rc_capacity c.
Proof. unfold check. by destruct (check_entries _ _ _) as [[]|]. Qed.

Section room.
Context (T : gset string) (clock : Z) (c : DigestReplayCache).
Hypothesis (Hok : cache_ok clock c) (Hknown : nonces c ⊆ T) (Hroom : (size T <= rc_capacity c)%nat).
Context (nonce : string) (nc now ttl : Z).
Hypothesis Hnew : nonce ∈ T.

(** Nothing is evicted. *)
Lemma check_no_eviction :
  check_entries (prune_entries (rc_entries c) now ttl) nonce nc = None ->
  rc_entries (check c nonce nc now ttl).1 = prune_entries (rc_entries c) now ttl ++ [mkReplayEntry nonce nc now].
Proof.
  intros Hch. pose proof (prune_nodup clock c now ttl Hok) as Hnd. unfold check. cbn [prune with_entries rc_entries rc_capacity].
  rewrite Hch. simpl. destruct (Nat.ltb_spec (rc_capacity c) (length (prune_entries (rc_entries c) now ttl ++ [mkReplayEntry nonce nc now])))
    as [Hlt|]; [exfalso|done].
  apply check_entries_None in Hch. set (l := prune_entries (rc_entries c) now ttl) in *.
  assert (size (list_to_set (C := gset string) (nonce :: (re_nonce <$> l))) <= size T)%nat as Hs.
  { apply subseteq_size. intros x Hx%elem_of_list_to_set. apply elem_of_cons in Hx as [->|Hx]; [done|].
    apply Hknown, elem_of_list_to_set. apply list_elem_of_fmap in Hx as (e & -> & He).
    unfold l in He. apply elem_of_prune in He as [He _]; [|apply (co_sorted _ _ Hok)]. by apply list_elem_of_fmap_2. }
  rewrite size_list_to_set in Hs by (by constructor). simpl in Hs. rewrite length_fmap in Hs.
  rewrite length_app in Hlt. simpl in Hlt. lia.
Qed.

Lemma check_known : nonces (check c nonce nc now ttl).1 ⊆ T.
Proof.
  intros x Hx. unfold nonces in Hx. apply elem_of_list_to_set, list_elem_of_fmap in Hx as (e & -> & He).
  assert (forall e1, e1 ∈ prune_entries (rc_entries c) now ttl -> re_nonce e1 ∈ T) as Hpr.
  { intros e1 [He1 _]%elem_of_prune; [|apply (co_sorted _ _ Hok)]. apply Hknown, elem_of_list_to_set. by apply list_elem_of_fmap_2. }
  destruct (check_entries (prune_entries (rc_entries c) now ttl) nonce nc) as [[b l]|] eqn:Hch.
  - unfold check in He. cbn [prune with_entries rc_entries] in He. rewrite Hch in He. simpl in He.
    apply check_entries_Some in Hch as (l1 & e0 & l2 & Hl & He0 & _ & ->). rewrite Hl in Hpr. set_solver.
  - rewrite (check_no_eviction Hch) in He. set_solver.
Qed.

(** What was recorded of a nonce stays. *)
Lemma check_remembers e :
  (e ∈ rc_entries c) -> live now ttl e ->
  exists e1, (e1 ∈ rc_entries (check c nonce nc now ttl).1) /\ re_nonce e1 = re_nonce e
    /\ re_inserted_at e1 = re_inserted_at e /\ re_max_nc e <= re_max_nc e1.
Proof.
  intros He Hl. assert (e ∈ prune_entries (rc_entries c) now ttl) as Hp by (apply elem_of_prune; [apply (co_sorted _ _ Hok)|done]).
  destruct (check_entries (prune_entries (rc_entries c) now ttl) nonce nc) as [[b l]|] eqn:Hch.
  - unfold check. cbn [prune with_entries rc_entries]. rewrite Hch. simpl.
    apply check_entries_Some in Hch as (l1 & e0 & l2 & Heq & He0 & _ & ->). rewrite Heq in Hp.
    apply elem_of_app in Hp as [Hp|[->|Hp]%elem_of_cons]; [exists e; set_solver| |exists e; set_solver].
    eexists. split; [apply elem_of_app; right; by left|]. simpl. split_and!; [done|done|lia].
  - rewrite (check_no_eviction Hch). exists e. set_solver.
Qed.

(** What was checked is recorded. *)
Lemma check_records :
  exists e, (e ∈ rc_entries (check c nonce nc now ttl).1) /\ re_nonce e = nonce /\ nc <= re_max_nc e
    /\ (re_inserted_at e = now
        \/ exists e0, (e0 ∈ rc_entries c) /\ re_nonce e0 = nonce /\ re_inserted_at e = re_inserted_at e0).
Proof.
  destruct (check_entries (prune_entries (rc_entries c) now ttl) nonce nc) as [[b l]|] eqn:Hch.
  - unfold check. cbn [prune with_entries rc_entries]. rewrite Hch. simpl.
    apply check_entries_Some in Hch as (l1 & e0 & l2 & Heq & He0 & _ & ->).
    eexists. split; [apply elem_of_app; right; by left|]. simpl. split_and!; [done|lia|]. right. exists e0.
    split_and!; [|done|done]. apply (elem_of_prune _ now ttl); [apply (co_sorted _ _ Hok)|]. rewrite Heq. set_solver.
  - rewrite (check_no_eviction Hch). eexists. split; [apply elem_of_app; right; by left|]. simpl. split_and!; [done|lia|by left].
Qed.
End room.

(** The cache forgets by count, not by freshness: in a full cache a fresh
    nonce evicts the oldest one, and a nonce count already used with the evicted
    nonce is then accepted again. *)
Theorem replay_after_eviction :
  let c := replay_cache_new 1 in
  let '(c, first) := check c "n1" 1 100 300 in
  let '(c, other) := check c "n2" 1 101 300 in
  let '(_, again) := check c "n1" 1 102 300 in
  first = true /\ other = true /\ again = true.
Proof. vm_compute. done. Qed.
