(* ===== verification/DigestLimiter.v ===== *)
(** * The authentication rate limiter

    [sip/digest/rate_limit.rs]: failed attempts per source in a window, a bounded
    map with a FIFO of tracked sources.  The implementation refines a
    specification that keeps one window per source and knows nothing of the map,
    the queue or pruning. *)

From S2P Require Import Prelude RustStr.
Open Scope list_scope.
Open Scope Z_scope.

Record FailureWindow := mkWindow { fw_failures : Z; fw_window_start : Z }.

Section limiter.
(** The address type: [std::net::IpAddr], of which only equality matters. *)
Context {Ip : Type} `{Countable Ip}.

Record AuthRateLimiter := mkLimiter {
  al_max_failures : Z;
  al_window_seconds : Z;
  al_max_sources : nat;
  al_entries : gmap Ip FailureWindow;
  al_order : list Ip
}.

Definition limiter_new (max_failures window_seconds : Z) (max_sources : nat) : AuthRateLimiter :=
  mkLimiter max_failures window_seconds max_sources ∅ [].

Definition with_state (l : AuthRateLimiter) (entries : gmap Ip FailureWindow) (order : list Ip) :=
  mkLimiter (al_max_failures l) (al_window_seconds l) (al_max_sources l) entries order.

Definition disabled (l : AuthRateLimiter) : bool :=
  (al_max_failures l =? 0) || Nat.eqb (al_max_sources l) 0 || (al_window_seconds l =? 0).

Definition expired (l : AuthRateLimiter) (w : FailureWindow) (now : Z) : bool :=
  al_window_seconds l <=? sat_sub now (fw_window_start w).

(** [AuthRateLimiter::is_blocked]. *)
Definition is_blocked (l : AuthRateLimiter) (source : Ip) (now : Z) : bool :=
  if disabled l then false
  else match al_entries l !! source with
       | Some window => negb (expired l window now) && (al_max_failures l <=? fw_failures window)
       | None => false
       end.

(** [AuthRateLimiter::retry_after_seconds]. *)
Definition retry_after_seconds (l : AuthRateLimiter) (source : Ip) (now : Z) : Z :=
  if negb (is_blocked l source now) then 0
  else match al_entries l !! source with
       | Some window =>
           Z.max (sat_sub (sat_add64 (fw_window_start window) (al_window_seconds l)) now) 1
       | None => 0
       end.

(** [AuthRateLimiter::prune]: the [retain] over the queue, which removes from
    the map the sources it drops. *)
Fixpoint prune_order (l : AuthRateLimiter) (order : list Ip) (entries : gmap Ip FailureWindow) (now : Z)
    : list Ip * gmap Ip FailureWindow :=
  match order with
  | [] => ([], entries)
  | ip :: order =>
      let keep := match entries !! ip with
                  | Some w => sat_sub now (fw_window_start w) <? al_window_seconds l
                  | None => false
                  end in
      let entries := if keep then entries else delete ip entries in
      let '(order, entries) := prune_order l order entries now in
      (if keep then ip :: order else order, entries)
  end.
Definition limiter_prune (l : AuthRateLimiter) (now : Z) : AuthRateLimiter :=
  if bool_decide (al_entries l = ∅) then l
  else let '(order, entries) := prune_order l (al_order l) (al_entries l) now in
       with_state l entries order.

(** The eviction loop of [insert_bounded]; the queue bounds its length. *)
Fixpoint evict_loop (max_sources : nat) (order : list Ip) (entries : gmap Ip FailureWindow)
    : list Ip * gmap Ip FailureWindow :=
  if Nat.leb max_sources (size entries) then
    match order with
    | evicted :: order => evict_loop max_sources order (delete evicted entries)
    | [] => ([], entries)
    end
  else (order, entries).

(** [AuthRateLimiter::insert_bounded]. *)
Definition limiter_insert (l : AuthRateLimiter) (source : Ip) (window : FailureWindow)
    : AuthRateLimiter :=
  let '(order, entries) := evict_loop (al_max_sources l) (al_order l) (al_entries l) in
  with_state l (<[source := window]> entries) (order ++ [source]).

(** [AuthRateLimiter::record_failure]. *)
Definition record_failure (l : AuthRateLimiter) (source : Ip) (now : Z) : AuthRateLimiter :=
  if disabled l then l
  else
    let l := limiter_prune l now in
    match al_entries l !! source with
    | Some window =>
        let window := if expired l window now then mkWindow 0 now else window in
        let window := mkWindow (sat_add32 (fw_failures window) 1) (fw_window_start window) in
        with_state l (<[source := window]> (al_entries l)) (al_order l)
    | None => limiter_insert l source (mkWindow 1 now)
    end.

(** [AuthRateLimiter::record_success]. *)
Definition record_success (l : AuthRateLimiter) (source : Ip) : AuthRateLimiter :=
  match al_entries l !! source with
  | Some _ =>
      with_state l (delete source (al_entries l)) (filter (fun ip => ip <> source) (al_order l))
  | None => l
  end.

(** ** Invariant: the queue lists the tracked sources, each once; bounded *)

Record limiter_ok (l : AuthRateLimiter) : Prop := {
  lo_nodup : NoDup (al_order l);
  lo_dom : forall ip, ip ∈ al_order l <-> is_Some (al_entries l !! ip);
  lo_size : disabled l = false -> (size (al_entries l) <= al_max_sources l)%nat
}.

Lemma limiter_ok_new f w n : limiter_ok (limiter_new f w n).
Proof.
  split; simpl; [constructor | |rewrite map_size_empty; lia].
  intros ip. rewrite lookup_empty, elem_of_nil. split; [done | by intros []].
Qed.

Definition live (l : AuthRateLimiter) (entries : gmap Ip FailureWindow) (now : Z) (ip : Ip) : bool :=
  match entries !! ip with
  | Some w => sat_sub now (fw_window_start w) <? al_window_seconds l
  | None => false
  end.

Lemma prune_order_spec l order entries now :
  NoDup order ->
  prune_order l order entries now
  = (filter (fun ip => live l entries now ip = true) order,
     filter (fun kv => kv.1 ∉ order \/ live l entries now kv.1 = true) entries).
Proof.
  revert entries. induction order as [|ip order IH]; intros entries Hnd.
  { simpl. rewrite map_filter_id; [done|]. intros k x _. left. apply not_elem_of_nil. }
  apply NoDup_cons in Hnd as [Hnin Hnd]. cbn [prune_order].
  change (match entries !! ip with Some w => _ | None => false end) with (live l entries now ip).
  rewrite filter_cons. destruct (live l entries now ip) eqn:Hl.
  - rewrite IH by done. simpl. f_equal. apply map_filter_ext. intros k x Hk. simpl.
    rewrite not_elem_of_cons. destruct (decide (k = ip)) as [->|]; naive_solver.
  - rewrite IH by done. simpl. f_equal.
    + apply filter_ext_in. intros k Hk. unfold live. rewrite lookup_delete_ne by naive_solver. done.
    + apply map_eq. intros k. apply option_eq. intros x.
      rewrite !map_lookup_filter_Some. rewrite lookup_delete. simpl. rewrite not_elem_of_cons.
      case_decide as Hk; subst.
      * split; [naive_solver|]. intros [_ [[? _]|?]]; congruence.
      * unfold live. rewrite lookup_delete_ne by done. naive_solver.
Qed.

Lemma live_filter l entries now ip :
  filter (fun kv : Ip * FailureWindow => live l entries now kv.1 = true) entries !! ip
  = if live l entries now ip then entries !! ip else None.
Proof.
  apply option_eq. intros w. rewrite map_lookup_filter_Some. simpl.
  destruct (live l entries now ip) eqn:Hl; naive_solver.
Qed.

(** Pruning keeps exactly the live windows. *)
Lemma limiter_prune_eq l now :
  limiter_ok l ->
  limiter_prune l now
  = with_state l (filter (fun kv => live l (al_entries l) now kv.1 = true) (al_entries l))
                 (filter (fun ip => live l (al_entries l) now ip = true) (al_order l)).
Proof.
  intros [Hnd Hdom _]. unfold limiter_prune. case_bool_decide as He.
  - assert (al_order l = []) as Ho.
    { destruct (al_order l) as [|ip o]; [done|].
      destruct (proj1 (Hdom ip)) as [w Hw]; [apply elem_of_cons; by left|].
      by rewrite He, lookup_empty in Hw. }
    rewrite Ho, He. simpl. rewrite map_filter_empty. destruct l; simpl in *. by subst.
  - rewrite prune_order_spec by done. f_equal. apply map_filter_ext. intros ip w Hw. simpl.
    split; [intros [Hn|?]; [|done]|by right]. destruct Hn. apply Hdom. eauto.
Qed.

Lemma limiter_prune_lookup l now ip :
  limiter_ok l ->
  al_entries (limiter_prune l now) !! ip
  = if live l (al_entries l) now ip then al_entries l !! ip else None.
Proof. intros Hok. rewrite limiter_prune_eq by done. apply live_filter. Qed.

Lemma limiter_ok_prune l now : limiter_ok l -> limiter_ok (limiter_prune l now).
Proof.
  intros Hok. rewrite limiter_prune_eq by done. destruct Hok as [Hnd Hdom Hs]. split; simpl.
  - by apply NoDup_filter.
  - intros ip. rewrite list_elem_of_filter, live_filter, Hdom.
    destruct (live l (al_entries l) now ip); [naive_solver|]. split; [naive_solver | by intros []].
  - intros Hd. etrans; [apply map_subseteq_size, map_filter_subseteq | by apply Hs].
Qed.

Lemma evict_loop_spec max order entries :
  (0 < max)%nat -> NoDup order -> (forall ip, ip ∈ order <-> is_Some (entries !! ip)) ->
  let r := evict_loop max order entries in
  NoDup r.1 /\ (forall ip, ip ∈ r.1 <-> is_Some (r.2 !! ip)) /\ (size r.2 < max)%nat /\ r.2 ⊆ entries.
Proof.
  intros Hmax. revert entries.
  induction order as [|ip order IH]; intros entries Hnd Hdom; cbn [evict_loop];
    destruct (Nat.leb_spec max (size entries)) as [Hle|Hlt]; try (simpl; by eauto).
  - assert (entries = ∅) as ->; [|rewrite map_size_empty in Hle; lia].
    apply map_empty. intros ip. apply eq_None_not_Some. rewrite <- Hdom. apply not_elem_of_nil.
  - apply NoDup_cons in Hnd as [Hnin Hnd].
    destruct (IH (delete ip entries) Hnd) as (H1 & H2 & H3 & H4).
    + intros k. rewrite lookup_delete. case_decide as Hk; subst.
      * split; [done | by intros []].
      * rewrite <- Hdom, elem_of_cons. naive_solver.
    + split; [done|]. split; [done|]. split; [done|]. etrans; [exact H4 | apply delete_subseteq].
Qed.

Lemma limiter_ok_insert l source window :
  disabled l = false -> limiter_ok l -> al_entries l !! source = None ->
  limiter_ok (limiter_insert l source window).
Proof.
  intros Hd [Hnd Hdom Hs] Hnone. unfold limiter_insert.
  assert (0 < al_max_sources l)%nat as Hmax.
  { unfold disabled in Hd. bool_prop. destruct (Nat.eqb_spec (al_max_sources l) 0); [done | lia]. }
  pose proof (evict_loop_spec (al_max_sources l) (al_order l) (al_entries l) Hmax Hnd Hdom) as He.
  destruct (evict_loop _ _ _) as [order entries]. destruct He as (H1 & H2 & H3 & H4). simpl in *.
  assert (entries !! source = None) as Hnone'.
  { apply eq_None_not_Some. intros [w Hw]. eapply lookup_weaken in Hw; [|exact H4]. congruence. }
  assert (source ∉ order) as Hnin. { rewrite H2, Hnone'. by intros []. }
  split; simpl.
  - apply NoDup_app. split; [done|]. split; [set_solver | apply NoDup_singleton].
  - intros ip. rewrite elem_of_app, list_elem_of_singleton, lookup_insert. case_decide; subst; naive_solver.
  - intros _. rewrite map_size_insert_None by done. lia.
Qed.

Lemma limiter_ok_failure l source now : limiter_ok l -> limiter_ok (record_failure l source now).
Proof.
  intros Hok. unfold record_failure. destruct (disabled l) eqn:Hd; [done|].
  assert (disabled (limiter_prune l now) = false) as Hd'.
  { by rewrite limiter_prune_eq by done. }
  apply (limiter_ok_prune l now) in Hok.
  destruct (al_entries (limiter_prune l now) !! source) as [w|] eqn:He.
  - destruct Hok as [Hnd Hdom Hs]. split; simpl; [done | |].
    + intros ip. rewrite Hdom, lookup_insert. case_decide; subst; [|done]. rewrite He.
      split; intros _; by eexists.
    + intros Hdis. rewrite map_size_insert_Some by eauto. by apply Hs.
  - by apply limiter_ok_insert.
Qed.

Lemma limiter_ok_success l source : limiter_ok l -> limiter_ok (record_success l source).
Proof.
  intros [Hnd Hdom Hs]. unfold record_success. destruct (al_entries l !! source) eqn:He; [|done].
  split; simpl.
  - by apply NoDup_filter.
  - intros ip. rewrite list_elem_of_filter, lookup_delete, Hdom. case_decide; subst; [|naive_solver].
    split; [naive_solver | by intros []].
  - intros Hd. etrans; [apply map_subseteq_size, delete_subseteq | by apply Hs].
Qed.

(** ** The specification: one window per source *)

Inductive attempt := Failed | Succeeded.

Definition spec_step (l : AuthRateLimiter) (w : option FailureWindow) (now : Z) (a : attempt)
    : option FailureWindow :=
  match a, w with
  | Succeeded, _ => None
  | Failed, Some w =>
      if expired l w now then Some (mkWindow 1 now)
      else Some (mkWindow (sat_add32 (fw_failures w) 1) (fw_window_start w))
  | Failed, None => Some (mkWindow 1 now)
  end.

(** The window of one source after a history of attempts of all sources. *)
Fixpoint spec_window (l : AuthRateLimiter) (source : Ip) (w : option FailureWindow)
    (history : list (Z * Ip * attempt)) : option FailureWindow :=
  match history with
  | [] => w
  | (now, ip, a) :: history =>
      spec_window l source (if decide (ip = source) then spec_step l w now a else w) history
  end.

Definition spec_blocked (l : AuthRateLimiter) (w : option FailureWindow) (now : Z) : bool :=
  match w with
  | Some w => negb (expired l w now) && (al_max_failures l <=? fw_failures w)
  | None => false
  end.

Definition limiter_step (l : AuthRateLimiter) (now : Z) (ip : Ip) (a : attempt) : AuthRateLimiter :=
  match a with Failed => record_failure l ip now | Succeeded => record_success l ip end.

Fixpoint limiter_run (l : AuthRateLimiter) (history : list (Z * Ip * attempt)) : AuthRateLimiter :=
  match history with
  | [] => l
  | (now, ip, a) :: history => limiter_run (limiter_step l now ip a) history
  end.

Fixpoint in_order (clock : Z) (history : list (Z * Ip * attempt)) (final : Z) : Prop :=
  match history with
  | [] => clock <= final
  | (now, _, _) :: history => clock <= now /\ in_order now history final
  end.

(** The parameters never change. *)
Definition same_params (l l' : AuthRateLimiter) : Prop :=
  al_max_failures l' = al_max_failures l /\ al_window_seconds l' = al_window_seconds l
  /\ al_max_sources l' = al_max_sources l.

Lemma limiter_step_params l now ip a : limiter_ok l -> same_params l (limiter_step l now ip a).
Proof.
  intros Hok. destruct a; simpl.
  - unfold record_failure. destruct (disabled l); [done|]. rewrite limiter_prune_eq by done.
    case_match; [done|]. unfold limiter_insert. by destruct (evict_loop _ _ _).
  - unfold record_success. by case_match.
Qed.

Lemma limiter_ok_step l now ip a : limiter_ok l -> limiter_ok (limiter_step l now ip a).
Proof. destruct a; [apply limiter_ok_failure | apply limiter_ok_success]. Qed.

Lemma expired_mono l w now now' : now <= now' -> expired l w now = true -> expired l w now' = true.
Proof. unfold expired, sat_sub. intros. bool_prop. apply Z.leb_le. lia. Qed.

(** The implementation forgets a window only when it has expired. *)
Definition window_sim (l : AuthRateLimiter) (clock : Z) (impl spec : option FailureWindow) : Prop :=
  impl = spec \/ (impl = None /\ exists w, spec = Some w /\ expired l w clock = true).

Record sim (S : gset Ip) (l0 : AuthRateLimiter) (clock : Z) (l : AuthRateLimiter)
    (spec : Ip -> option FailureWindow) : Prop := {
  sm_ok : limiter_ok l;
  sm_params : same_params l0 l;
  sm_sources : forall ip, is_Some (al_entries l !! ip) -> ip ∈ S;
  sm_windows : forall ip, window_sim l0 clock (al_entries l !! ip) (spec ip)
}.

Lemma expired_params l l' w now : same_params l l' -> expired l' w now = expired l w now.
Proof. intros (_ & Hw & _). unfold expired. by rewrite Hw. Qed.
Lemma disabled_params l l' : same_params l l' -> disabled l' = disabled l.
Proof. intros (Hf & Hw & Hs). unfold disabled. by rewrite Hf, Hw, Hs. Qed.

Lemma live_expired l entries now ip :
  live l entries now ip = match entries !! ip with Some w => negb (expired l w now) | None => false end.
Proof. unfold live, expired. destruct (entries !! ip); [|done]. by rewrite Z.leb_antisym, negb_involutive. Qed.

(** Pruning respects the simulation. *)
Lemma sim_prune S l0 clock now l spec :
  clock <= now -> sim S l0 clock l spec -> sim S l0 now (limiter_prune l now) spec.
Proof.
  intros Hle [Hok Hp Hsrc Hw]. split.
  - by apply limiter_ok_prune.
  - by rewrite limiter_prune_eq.
  - intros ip. rewrite limiter_prune_lookup by done. destruct (live _ _ _ _); [apply Hsrc | by intros []].
  - intros ip. rewrite limiter_prune_lookup, live_expired by done.
    destruct (Hw ip) as [Heq|(Hn & w & Hs & He)].
    + rewrite <- Heq. destruct (al_entries l !! ip) as [w|] eqn:Hl; [|by left].
      destruct (expired l w now) eqn:Hx; simpl; [|by left]. right. split; [done|].
      exists w. split; [done|]. by rewrite (expired_params l0 l) in Hx.
    + rewrite Hn. right. split; [done|]. exists w. split; [done|]. by eapply expired_mono.
Qed.

Lemma window_sim_later l clock now impl spec :
  clock <= now -> window_sim l clock impl spec -> window_sim l now impl spec.
Proof.
  intros Hle [?|(? & w & ? & ?)]; [by left | right]. split; [done|]. exists w.
  split; [done | by eapply expired_mono].
Qed.

Lemma sim_later S l0 clock now l spec : clock <= now -> sim S l0 clock l spec -> sim S l0 now l spec.
Proof. intros Hle []. split; try done. intros ip. by eapply window_sim_later. Qed.

(** With room for every source, a new source evicts nobody. *)
Lemma insert_no_evict (S : gset Ip) l source window :
  (forall ip, is_Some (al_entries l !! ip) -> ip ∈ S) -> source ∈ S ->
  al_entries l !! source = None -> (size S <= al_max_sources l)%nat ->
  limiter_insert l source window
  = with_state l (<[source := window]> (al_entries l)) (al_order l ++ [source]).
Proof.
  intros Hsrc Hin Hnone Hroom. unfold limiter_insert.
  assert (size (al_entries l) < al_max_sources l)%nat as Hlt.
  { rewrite <- size_dom. assert (dom (al_entries l) ⊂ S) as Hsub%subset_size; [|lia].
    split; [intros ip Hip; apply Hsrc; by apply elem_of_dom|].
    intros Hc. apply Hc, elem_of_dom in Hin. rewrite Hnone in Hin. by destruct Hin. }
  destruct (al_order l); simpl; destruct (Nat.leb_spec (al_max_sources l) (size (al_entries l)));
    lia || done.
Qed.

Definition upd (spec : Ip -> option FailureWindow) (ip : Ip) (w : option FailureWindow) :=
  fun k => if decide (ip = k) then w else spec k.

Lemma sim_failed S l0 clock now l spec ip :
  disabled l0 = false -> (size S <= al_max_sources l0)%nat -> ip ∈ S ->
  clock <= now -> sim S l0 clock l spec ->
  sim S l0 now (record_failure l ip now) (upd spec ip (spec_step l0 (spec ip) now Failed)).
Proof.
  intros Hd Hroom Hin Hle Hsim. unfold record_failure.
  rewrite (disabled_params l0 l), Hd by apply Hsim.
  pose proof (sim_prune S l0 clock now l spec Hle Hsim) as Hs.
  pose proof (limiter_ok_failure l ip now (sm_ok _ _ _ _ _ Hsim)) as Hok.
  unfold record_failure in Hok. rewrite (disabled_params l0 l), Hd in Hok by apply Hsim.
  set (l1 := limiter_prune l now) in *. destruct Hs as [Hok1 Hp Hsrc Hw].
  pose proof (Hw ip) as Hwip. destruct (al_entries l1 !! ip) as [w|] eqn:He.
  - destruct Hwip as [Hspec|(? & _)]; [|done]. rewrite <- Hspec. simpl. split; [done | done | |].
    + intros k. simpl. rewrite lookup_insert. case_decide; subst; [done | apply Hsrc].
    + intros k. unfold upd. simpl. rewrite lookup_insert, (expired_params l0) by done.
      case_decide; [left|apply Hw]. by destruct (expired l0 w now).
  - rewrite (insert_no_evict S) in Hok |- * by (done || (destruct Hp as (_ & _ & ->); done)).
    split; [done | done | |].
    + intros k. simpl. rewrite lookup_insert. case_decide; subst; [done | apply Hsrc].
    + intros k. unfold upd. simpl. rewrite lookup_insert. case_decide; [left|apply Hw].
      destruct Hwip as [<-|(_ & w & -> & Hx)]; simpl; [done | by rewrite Hx].
Qed.

Lemma sim_succeeded S l0 clock now l spec ip :
  clock <= now -> sim S l0 clock l spec ->
  sim S l0 now (record_success l ip) (upd spec ip None).
Proof.
  intros Hle Hsim%(sim_later _ _ _ now); [|done].
  pose proof (limiter_ok_success l ip (sm_ok _ _ _ _ _ Hsim)) as Hok.
  unfold record_success in *. destruct Hsim as [Hok1 Hp Hsrc Hw].
  destruct (al_entries l !! ip) as [w|] eqn:He; (split; [done | done | |]).
  - intros k. simpl. rewrite lookup_delete. case_decide; [by intros [] | apply Hsrc].
  - intros k. unfold upd. simpl. rewrite lookup_delete. case_decide; [by left | apply Hw].
  - done.
  - intros k. unfold upd. case_decide; [subst; left; done | apply Hw].
Qed.

Lemma sim_run S l0 history final :
  disabled l0 = false -> (size S <= al_max_sources l0)%nat ->
  Forall (fun h : Z * Ip * attempt => h.1.2 ∈ S) history ->
  forall clock l spec, in_order clock history final -> sim S l0 clock l spec ->
  sim S l0 final (limiter_run l history) (fun ip => spec_window l0 ip (spec ip) history).
Proof.
  intros Hd Hroom. induction history as [|[[now ip] a] history IH]; intros HS clock l spec Ho Hsim.
  { by eapply sim_later. }
  apply Forall_cons in HS as [Hin HS]. destruct Ho as [Hle Ho]. simpl in *.
  assert (sim S l0 now (limiter_step l now ip a) (upd spec ip (spec_step l0 (spec ip) now a))) as Hs.
  { destruct a; simpl; [by eapply sim_failed | by eapply sim_succeeded]. }
  pose proof (IH HS now _ _ Ho Hs) as [? ? ? Hw]. split; try done.
  intros k. specialize (Hw k). unfold upd in Hw. by case_decide; subst.
Qed.

Lemma sim_new S l0 :
  al_entries l0 = ∅ -> al_order l0 = [] -> sim S l0 0 l0 (fun _ => None).
Proof.
  intros He Ho. split.
  - split; rewrite ?He, ?Ho; [constructor | |rewrite map_size_empty; lia].
    intros ip. rewrite lookup_empty, elem_of_nil. split; [done | by intros []].
  - done.
  - intros ip. rewrite He, lookup_empty. by intros [].
  - intros ip. rewrite He, lookup_empty. by left.
Qed.

Lemma sim_blocked S l0 now l spec ip :
  disabled l0 = false -> sim S l0 now l spec -> is_blocked l ip now = spec_blocked l0 (spec ip) now.
Proof.
  intros Hd [Hok Hp _ Hw]. unfold is_blocked, spec_blocked.
  rewrite (disabled_params l0 l Hp), Hd. destruct (Hw ip) as [->|(-> & w & -> & Hx)].
  - destruct (spec ip); [|done]. rewrite (expired_params l0 l) by done. by destruct Hp as (-> & _).
  - by rewrite Hx.
Qed.
End limiter.
Arguments AuthRateLimiter _ {_ _}.

Section claims.
Context {Ip : Type} `{Countable Ip}.


Lemma limiter_ok_run history : forall l : AuthRateLimiter Ip, limiter_ok l -> limiter_ok (limiter_run l history).
Proof.
  induction history as [|[[now ip] a] history IH]; intros l Hl; simpl; [done|].
  by apply IH, limiter_ok_step.
Qed.

(** The state of the limiter is bounded on every history, whatever the
    sources and the times: the map never tracks more than [max_sources] sources
    (when enabled), and the queue lists exactly the tracked sources, each once. *)
Theorem limiter_bounded (max_failures window_seconds : Z) (max_sources : nat)
    (history : list (Z * Ip * attempt)) :
  limiter_ok (limiter_run (limiter_new max_failures window_seconds max_sources) history).
Proof. apply limiter_ok_run, limiter_ok_new. Qed.

(** [retry_after_seconds] is exact: a source blocked at [now] stays blocked
    for precisely that many seconds without further attempts, at least one and at
    most the window. *)
Theorem retry_after_exact (l : AuthRateLimiter Ip) (source : Ip) (now : Z) w
    (Hw : al_entries l !! source = Some w) (Hs : 0 <= fw_window_start w <= now)
    (Hu64 : fw_window_start w + al_window_seconds l <= U64_MAX)
    (Hb : is_blocked l source now = true) :
  let r := retry_after_seconds l source now in
  1 <= r <= al_window_seconds l
  /\ (forall t, now <= t < now + r -> is_blocked l source t = true)
  /\ is_blocked l source (now + r) = false.
Proof.
  pose proof Hb as Hb'. unfold is_blocked in Hb'. rewrite Hw in Hb'.
  destruct (disabled l) eqn:Hd; [done|]. unfold expired, sat_sub in Hb'. bool_prop.
  unfold retry_after_seconds. rewrite Hb, Hw. unfold sat_add64, sat_sub. simpl.
  assert (Z.max (Z.max 0 (Z.min U64_MAX (fw_window_start w + al_window_seconds l) - now)) 1
          = fw_window_start w + al_window_seconds l - now) as -> by lia.
  split; [lia|]. unfold is_blocked, expired, sat_sub. rewrite Hd, Hw. split.
  - intros t Ht. apply andb_true_iff. split; [|by apply Z.leb_le].
    apply negb_true_iff, Z.leb_gt. lia.
  - apply andb_false_iff. left. apply negb_false_iff, Z.leb_le. lia.
Qed.

Lemma in_order_le (history : list (Z * Ip * attempt)) : forall clock final,
  in_order clock history final ->
  clock <= final /\ Forall (fun h => clock <= h.1.1 <= final) history.
Proof.
  induction history as [|[[t ip] a] history IH]; intros clock final; simpl; [done|].
  intros [Hle Ho]. apply IH in Ho as [? Hf]. split; [lia|]. constructor; [simpl; lia|].
  eapply Forall_impl; [exact Hf|]. simpl. intros h ?. lia.
Qed.

Lemma spec_window_failures l (source : Ip) w history :
  fw_failures w + Z.of_nat (length history) <= U32_MAX ->
  Forall (fun h : Z * Ip * attempt => h.1.2 = source /\ h.2 = Failed
            /\ expired l w h.1.1 = false) history ->
  spec_window l source (Some w) history
  = Some (mkWindow (fw_failures w + Z.of_nat (length history)) (fw_window_start w)).
Proof.
  revert w. induction history as [|[[t ip] a] history IH]; intros w Hu Hf; cbn [spec_window length].
  { rewrite Z.add_0_r. by destruct w. }
  apply Forall_cons in Hf as [(Hip & Ha & Hx) Hf]. simpl in Hip, Ha, Hx, Hu. subst ip a.
  rewrite decide_True by done. simpl. rewrite Hx.
  assert (sat_add32 (fw_failures w) 1 = fw_failures w + 1) as -> by (unfold sat_add32; lia).
  rewrite IH; simpl; [f_equal; f_equal; lia | lia |].
  eapply Forall_impl; [exact Hf|]. intros h (? & ? & ?). done.
Qed.

(** The brute-force budget is exact: after [k] failed attempts of a source
    in one window and nothing else, the source is blocked inside the window if
    and only if [k] reaches [max_failures]. *)
Theorem brute_force_budget (max_failures window_seconds : Z) (max_sources : nat)
    (source : Ip) (t0 now : Z) (times : list Z)
    (Hd : disabled (limiter_new (Ip := Ip) max_failures window_seconds max_sources) = false)
    (Ht0 : 0 <= t0) (Ho : in_order t0 ((fun t => (t, source, Failed)) <$> times) now)
    (Hwin : now < t0 + window_seconds) (Hk : Z.of_nat (length times) < U32_MAX) :
  is_blocked (limiter_run (limiter_new max_failures window_seconds max_sources)
                ((fun t => (t, source, Failed)) <$> t0 :: times)) source now
  = (max_failures <=? Z.of_nat (S (length times))).
Proof.
  destruct (in_order_le _ _ _ Ho) as [Hle Hts].
  set (l := limiter_new max_failures window_seconds max_sources).
  assert (al_max_sources l <> 0%nat) as Hms.
  { intros Hz. unfold disabled in Hd. simpl in Hd, Hz. by rewrite Hz, orb_true_r in Hd. }
  assert (sim {[source]} l now (limiter_run l ((fun t => (t, source, Failed)) <$> t0 :: times))
    (fun ip => spec_window l ip None ((fun t => (t, source, Failed)) <$> t0 :: times))) as Hsim.
  { apply (sim_run {[source]} l _ now Hd) with (clock := 0) (spec := fun _ => None).
    - rewrite size_singleton. lia.
    - apply Forall_fmap, Forall_true. intros t. simpl. set_solver.
    - simpl. done.
    - by apply sim_new. }
  rewrite (sim_blocked _ _ _ _ _ source Hd Hsim). cbn [fmap list_fmap spec_window].
  rewrite decide_True by done. cbn [spec_step]. change (list_fmap ?A ?B ?f times) with (f <$> times).
  assert (forall t, t0 <= t <= now -> expired l (mkWindow 1 t0) t = false) as Hx.
  { intros t Ht. unfold expired, sat_sub. simpl. apply Z.leb_gt. lia. }
  rewrite spec_window_failures.
  - unfold spec_blocked. simpl. unfold expired. simpl. rewrite length_fmap.
    pose proof (Hx now ltac:(lia)) as Hn. unfold expired in Hn. simpl in Hn. rewrite Hn. simpl.
    f_equal. lia.
  - simpl. rewrite length_fmap. lia.
  - apply Forall_fmap, Forall_forall. intros t Ht. simpl. split; [done|]. split; [done|].
    apply Hx. apply Forall_fmap in Hts. rewrite Forall_forall in Hts. by apply (Hts t).
Qed.

End claims.

(** ** Witnesses (addresses as numbers) *)


Lemma retry_after_exact_witness :
  let l := limiter_run (limiter_new (Ip := nat) 2 60 2) [(10, 1%nat, Failed); (12, 1%nat, Failed)] in
  let r := retry_after_seconds l 1%nat 30 in
  1 <= r <= al_window_seconds l
  /\ (forall t, 30 <= t < 30 + r -> is_blocked l 1%nat t = true)
  /\ is_blocked l 1%nat (30 + r) = false.
Proof.
  apply (retry_after_exact _ 1%nat 30 (mkWindow 2 10)).
  - vm_compute. reflexivity.
  - simpl. lia.
  - vm_compute. discriminate.
  - vm_compute. reflexivity.
Defined.

Lemma brute_force_budget_witness :
  is_blocked (limiter_run (limiter_new (Ip := nat) 3 60 2)
                ((fun t => (t, 1%nat, Failed)) <$> 10 :: [11; 12])) 1%nat 40 = (3 <=? 3).
Proof.
  apply (brute_force_budget 3 60 2 1%nat 10 40 [11; 12]).
  - reflexivity.
  - lia.
  - simpl. lia.
  - lia.
  - vm_compute. reflexivity.
Defined.
