(* ===== verification/DigestCodec.v ===== *)
(** * Digest challenges and responses on the wire

    [sip/digest/response.rs]: algorithms, quality of protection, the parsed
    [Authorization] and [WWW-Authenticate] values, their encoders, and the
    quoting of header parameters. *)

From S2P Require Import Prelude RustStr.
Open Scope string_scope.
Open Scope list_scope.
Open Scope Z_scope.

Inductive DigestAlgorithm := Md5 | Sha256 | Sha512.
Inductive DigestQop := Auth | AuthInt.

#[global] Instance DigestAlgorithm_eq_dec : EqDecision DigestAlgorithm.
Proof. solve_decision. Defined.
#[global] Instance DigestQop_eq_dec : EqDecision DigestQop.
Proof. solve_decision. Defined.

Inductive DigestError :=
| Malformed (s : string)
| UnknownAlgorithm | AlgorithmNotAllowed | AlgorithmDowngrade | InvalidQop | InvalidNonce
| WeakSecret | StaleNonce | ReplayDetected | RealmMismatch | UriMismatch | InvalidResponse.

(** [DigestAlgorithm::parse], [as_wire]. *)
Definition algorithm_parse (s : string) : option DigestAlgorithm :=
  if eq_ignore_ascii_case s "md5" then Some Md5
  else if eq_ignore_ascii_case s "sha-256" || eq_ignore_ascii_case s "sha256" then Some Sha256
  else if eq_ignore_ascii_case s "sha-512" || eq_ignore_ascii_case s "sha512" then Some Sha512
  else None.
Definition algorithm_wire (a : DigestAlgorithm) : string :=
  match a with Md5 => "MD5" | Sha256 => "SHA-256" | Sha512 => "SHA-512" end.

(** [DigestQop::parse], [as_wire]. *)
Definition qop_parse (s : string) : option DigestQop :=
  if eq_ignore_ascii_case s "auth" then Some Auth
  else if eq_ignore_ascii_case s "auth-int" then Some AuthInt
  else None.
Definition qop_wire (q : DigestQop) : string :=
  match q with Auth => "auth" | AuthInt => "auth-int" end.

(** ** Hexadecimal numbers *)

Definition hex_val (a : ascii) : option Z :=
  if is_ascii_digit a then Some (byte a - 48)
  else if (97 <=? byte a) && (byte a <=? 102) then Some (byte a - 87)
  else if (65 <=? byte a) && (byte a <=? 70) then Some (byte a - 55)
  else None.

Fixpoint hex_digits_val (acc : Z) (s : string) : option Z :=
  match s with
  | EmptyString => Some acc
  | String a s =>
      match hex_val a with Some d => hex_digits_val (acc * 16 + d) s | None => None end
  end.

(** [u64::from_str_radix(s, 16)]. *)
Definition parse_hex_u64 (s : string) : option Z :=
  let digits := match s with String "+" s1 => s1 | _ => s end in
  if is_empty_str digits then None
  else match hex_digits_val 0 digits with
       | Some n => if n <=? U64_MAX then Some n else None
       | None => None
       end.

Definition hex_char (d : Z) : ascii :=
  ascii_of_N (Z.to_N (if d <? 10 then 48 + d else 87 + d)).

Fixpoint show_hex_go (fuel : nat) (n : Z) (acc : string) : string :=
  match fuel with
  | O => acc
  | S fuel =>
      let acc := String (hex_char (n mod 16)) acc in
      if n <? 16 then acc else show_hex_go fuel (n / 16) acc
  end.
Definition show_hex (n : Z) : string := show_hex_go 16 n "".

Fixpoint zeros (k : nat) : string :=
  match k with O => "" | S k => String "0" (zeros k) end.
(** [format!("{n:08x}")]. *)
Definition show_hex08 (n : Z) : string :=
  let s := show_hex n in zeros (8 - String.length s) +:+ s.

(** ** Quoting *)

(** [s.replace(c, t)] for an ASCII character. *)
Fixpoint replace_char (c : ascii) (t s : string) : string :=
  match s with
  | EmptyString => EmptyString
  | String a s =>
      if Ascii.eqb a c then t +:+ replace_char c t s else String a (replace_char c t s)
  end.

Definition BACKSLASH : ascii := "\".

(** [sanitize_quoted_value]. *)
Definition sanitize_quoted_value (s : string) : string :=
  replace_char LF "" (replace_char CR ""
    (replace_char DQUOTE (String BACKSLASH (String DQUOTE ""))
      (replace_char BACKSLASH (String BACKSLASH (String BACKSLASH "")) s))).

(** [split_commas]; [cur] is the current part. *)
Fixpoint split_commas_go (value : string) (in_quotes escaping : bool) (cur : string) : list string :=
  match value with
  | EmptyString => [cur]
  | String c rest =>
      let next := cur +:+ String c "" in
      if escaping then split_commas_go rest in_quotes false next
      else if Ascii.eqb c BACKSLASH then split_commas_go rest in_quotes true next
      else if Ascii.eqb c DQUOTE then split_commas_go rest (negb in_quotes) false next
      else if Ascii.eqb c "," && negb in_quotes then cur :: split_commas_go rest in_quotes false ""
      else split_commas_go rest in_quotes false next
  end.
Definition split_commas (value : string) : list string := split_commas_go value false false "".

(** [unescape]. *)
Fixpoint unescape (s : string) : string :=
  match s with
  | EmptyString => EmptyString
  | String c rest =>
      if Ascii.eqb c BACKSLASH then
        match rest with
        | EmptyString => String BACKSLASH ""
        | String d rest =>
            if Ascii.eqb d BACKSLASH then String BACKSLASH (unescape rest)
            else if Ascii.eqb d DQUOTE then String DQUOTE (unescape rest)
            else String BACKSLASH (String d (unescape rest))
        end
      else String c (unescape rest)
  end.

(** The text before the last byte, and the last byte. *)
Fixpoint split_last (s : string) : option (string * ascii) :=
  match s with
  | EmptyString => None
  | String a s =>
      match split_last s with
      | Some (init, last) => Some (String a init, last)
      | None => Some (EmptyString, a)
      end
  end.

(** [unquote]. *)
Definition unquote (value : string) : string :=
  let value := trim value in
  match value with
  | String a rest =>
      if Ascii.eqb a DQUOTE then
        match split_last rest with
        | Some (inner, z) =>
            if Ascii.eqb z DQUOTE then
              if lacks BACKSLASH inner then inner else unescape inner
            else value
        | None => value
        end
      else value
  | EmptyString => value
  end.

(** ** Responses *)

Record DigestResponse := mkDigestResponse {
  dr_username : string; dr_realm : string; dr_nonce : string; dr_uri : string;
  dr_response : string;
  dr_cnonce : option string; dr_nc : option Z; dr_qop : option DigestQop;
  dr_algorithm : option DigestAlgorithm; dr_opaque : option string
}.

(** The local variables of [DigestResponse::parse_with_limit]. *)
Record partial_response := mkPartial {
  pr_username : option string; pr_realm : option string; pr_nonce : option string;
  pr_uri : option string; pr_response : option string;
  pr_cnonce : option string; pr_nc : option Z; pr_qop : option DigestQop;
  pr_algorithm : option DigestAlgorithm; pr_opaque : option string
}.
Definition partial_new : partial_response :=
  mkPartial None None None None None None None None None None.

(** A parameter [key=value] assigned to its variable. *)
Definition assign_response (p : partial_response) (key value : string)
    : result partial_response DigestError :=
  let '(mkPartial u r n uri resp cn nc q a o) := p in
  let key_is := eq_ignore_ascii_case key in
  if key_is "username" then Ok (mkPartial (Some value) r n uri resp cn nc q a o)
  else if key_is "realm" then Ok (mkPartial u (Some value) n uri resp cn nc q a o)
  else if key_is "nonce" then Ok (mkPartial u r (Some value) uri resp cn nc q a o)
  else if key_is "uri" then Ok (mkPartial u r n (Some value) resp cn nc q a o)
  else if key_is "response" then Ok (mkPartial u r n uri (Some value) cn nc q a o)
  else if key_is "cnonce" then Ok (mkPartial u r n uri resp (Some value) nc q a o)
  else if key_is "nc" then
    let? nc := ok_or (parse_hex_u64 value) (Malformed "bad nc value") in
    Ok (mkPartial u r n uri resp cn (Some nc) q a o)
  else if key_is "qop" then
    let? q := ok_or (qop_parse value) InvalidQop in
    Ok (mkPartial u r n uri resp cn nc (Some q) a o)
  else if key_is "algorithm" then
    let? a := ok_or (algorithm_parse value) UnknownAlgorithm in
    Ok (mkPartial u r n uri resp cn nc q (Some a) o)
  else if key_is "opaque" then Ok (mkPartial u r n uri resp cn nc q a (Some value))
  else Ok p.

(** The loop over the comma-separated parts, shared by both parsers: empty
    parts are skipped, a part without [=] stops with an error. *)
Fixpoint fold_params {A} (assign : A -> string -> string -> result A DigestError)
    (parts : list string) (acc : A) : result A DigestError :=
  match parts with
  | [] => Ok acc
  | part :: parts =>
      let part := trim part in
      if is_empty_str part then fold_params assign parts acc
      else
        let? (k, v) := ok_or (split_once "=" part)
                             (Malformed "missing '=' in digest parameter") in
        let? acc := assign acc (trim k) (unquote (trim v)) in
        fold_params assign parts acc
  end.

(** The optional [Digest ] scheme prefix. *)
Definition strip_scheme (value : string) : string :=
  let value := trim value in
  if Nat.ltb 7 (String.length value) && eq_ignore_ascii_case (str_take 7 value) "digest "
  then str_drop 7 value else value.

Definition DEFAULT_MAX_HEADER_LEN : nat := 2048.

(** [DigestResponse::parse_with_limit]. *)
Definition response_parse_with_limit (value : string) (max_len : nat)
    : result DigestResponse DigestError :=
  if Nat.ltb max_len (String.length value) then
    Err (Malformed ("digest header exceeds maximum length of " +:+ show_uint (Z.of_nat max_len)))
  else
    let? p := fold_params assign_response (split_commas (strip_scheme value)) partial_new in
    let? u := ok_or (pr_username p) (Malformed "missing username") in
    let? r := ok_or (pr_realm p) (Malformed "missing realm") in
    let? n := ok_or (pr_nonce p) (Malformed "missing nonce") in
    let? uri := ok_or (pr_uri p) (Malformed "missing uri") in
    let? resp := ok_or (pr_response p) (Malformed "missing response") in
    Ok (mkDigestResponse u r n uri resp (pr_cnonce p) (pr_nc p) (pr_qop p)
                         (pr_algorithm p) (pr_opaque p)).
Definition response_parse (value : string) : result DigestResponse DigestError :=
  response_parse_with_limit value DEFAULT_MAX_HEADER_LEN.

(** ** Encoders: parameters in order, with the separators of the source *)

Definition quoted_param (name value : string) : string :=
  name +:+ "=" +:+ String DQUOTE (sanitize_quoted_value value +:+ String DQUOTE "").
Definition raw_param (name value : string) : string := name +:+ "=" +:+ value.

(** [write_separator] before each parameter. *)
Fixpoint write_params (first : bool) (params : list string) : string :=
  match params with
  | [] => ""
  | p :: params => (if first then " " else ", ") +:+ p +:+ write_params false params
  end.

Definition opt_param {A} (f : A -> string) (o : option A) : list string :=
  match o with Some a => [f a] | None => [] end.

Definition response_params (r : DigestResponse) : list string :=
  [quoted_param "username" (dr_username r); quoted_param "realm" (dr_realm r);
   quoted_param "nonce" (dr_nonce r); quoted_param "uri" (dr_uri r);
   quoted_param "response" (dr_response r)]
  ++ opt_param (quoted_param "cnonce") (dr_cnonce r)
  ++ opt_param (fun nc => raw_param "nc" (show_hex08 nc)) (dr_nc r)
  ++ opt_param (fun q => raw_param "qop" (qop_wire q)) (dr_qop r)
  ++ opt_param (fun a => raw_param "algorithm" (algorithm_wire a)) (dr_algorithm r)
  ++ opt_param (quoted_param "opaque") (dr_opaque r).

(** [DigestResponse::to_header_value]. *)
Definition response_header_value (r : DigestResponse) : string :=
  "Digest" +:+ write_params true (response_params r).

(** ** Challenges *)

Record DigestChallenge := mkDigestChallenge {
  ch_realm : string; ch_nonce : string; ch_opaque : option string; ch_stale : bool;
  ch_algorithm : DigestAlgorithm; ch_qop : option DigestQop
}.

(** The selection of a [qop] token: the first [auth], else the last [auth-int]. *)
Fixpoint select_qop (tokens : list string) (selected : option DigestQop) : option DigestQop :=
  match tokens with
  | [] => selected
  | token :: tokens =>
      let token := trim token in
      if is_empty_str token then select_qop tokens selected
      else
        let token := unquote token in
        if eq_ignore_ascii_case token "auth" then Some Auth
        else if eq_ignore_ascii_case token "auth-int" then select_qop tokens (Some AuthInt)
        else select_qop tokens selected
  end.

Record partial_challenge := mkPartialChallenge {
  pc_realm : option string; pc_nonce : option string; pc_opaque : option string;
  pc_stale : bool; pc_algorithm : option DigestAlgorithm; pc_qop : option DigestQop
}.

Definition assign_challenge (p : partial_challenge) (key value : string)
    : result partial_challenge DigestError :=
  let '(mkPartialChallenge r n o s a q) := p in
  let key_is := eq_ignore_ascii_case key in
  if key_is "realm" then Ok (mkPartialChallenge (Some value) n o s a q)
  else if key_is "nonce" then Ok (mkPartialChallenge r (Some value) o s a q)
  else if key_is "opaque" then Ok (mkPartialChallenge r n (Some value) s a q)
  else if key_is "stale" then Ok (mkPartialChallenge r n o (eq_ignore_ascii_case value "true") a q)
  else if key_is "algorithm" then
    let? a := ok_or (algorithm_parse value) UnknownAlgorithm in
    Ok (mkPartialChallenge r n o s (Some a) q)
  else if key_is "qop" then Ok (mkPartialChallenge r n o s a (select_qop (split_commas value) None))
  else Ok p.

(** [DigestChallenge::parse_with_limit]. *)
Definition challenge_parse_with_limit (value : string) (max_len : nat)
    : result DigestChallenge DigestError :=
  if Nat.ltb max_len (String.length value) then
    Err (Malformed ("digest header exceeds maximum length of " +:+ show_uint (Z.of_nat max_len)))
  else
    let? p := fold_params assign_challenge (split_commas (strip_scheme value))
                (mkPartialChallenge None None None false None None) in
    let? r := ok_or (pc_realm p) (Malformed "missing realm") in
    let? n := ok_or (pc_nonce p) (Malformed "missing nonce") in
    Ok (mkDigestChallenge r n (pc_opaque p) (pc_stale p) (default Md5 (pc_algorithm p)) (pc_qop p)).
Definition challenge_parse (value : string) : result DigestChallenge DigestError :=
  challenge_parse_with_limit value DEFAULT_MAX_HEADER_LEN.

Definition challenge_params (c : DigestChallenge) : list string :=
  [quoted_param "realm" (ch_realm c); quoted_param "nonce" (ch_nonce c);
   raw_param "algorithm" (algorithm_wire (ch_algorithm c))]
  ++ opt_param (quoted_param "opaque") (ch_opaque c)
  ++ (if ch_stale c then [raw_param "stale" "true"] else [])
  ++ opt_param (fun q => quoted_param "qop" (qop_wire q)) (ch_qop c).

(** [DigestChallenge::to_header_value]. *)
Definition challenge_header_value (c : DigestChallenge) : string :=
  "Digest" +:+ write_params true (challenge_params c).
