(* ===== verification/DigestRoundtrip.v ===== *)
(** * Round trips of the digest headers

    Encoding a response or a challenge and parsing the header value gives it
    back, for all values without line breaks: quoting hides every comma, quote
    and backslash from the parser. *)

From S2P Require Import Prelude RustStr DigestCodec.
Open Scope string_scope.
Open Scope list_scope.
Open Scope Z_scope.

(** ** Hexadecimal *)

Lemma hex_val_char d : 0 <= d < 16 -> hex_val (hex_char d) = Some d.
Proof.
  intros Hd. unfold hex_val, hex_char, is_ascii_digit.
  destruct (Z.ltb_spec d 10); rewrite byte_ascii_of_N by lia.
  - replace ((48 <=? 48 + d) && (48 + d <=? 57)) with true by lia. f_equal. lia.
  - replace ((48 <=? 87 + d) && (87 + d <=? 57)) with false by lia.
    replace ((97 <=? 87 + d) && (87 + d <=? 102)) with true by lia. f_equal. lia.
Qed.

Lemma hex_digits_show fuel n s :
  (0 < fuel)%nat -> 0 <= n < 16 ^ Z.of_nat fuel ->
  hex_digits_val 0 (show_hex_go fuel n s) = hex_digits_val n s.
Proof.
  revert n s. induction fuel as [|fuel IH]; intros n s Hf Hn; [lia|]. cbn [show_hex_go].
  pose proof (Z.mod_pos_bound n 16 ltac:(lia)) as Hm.
  destruct (Z.ltb_spec n 16) as [Hlt|Hge].
  - cbn [hex_digits_val]. rewrite hex_val_char by done. rewrite Z.mod_small by lia. f_equal.
  - rewrite Nat2Z.inj_succ, Z.pow_succ_r in Hn by lia.
    rewrite IH.
    + cbn [hex_digits_val]. rewrite hex_val_char by done. f_equal. pose proof (Z.div_mod n 16). lia.
    + destruct fuel; simpl in *; lia.
    + split; [apply Z.div_pos; lia | apply Z.div_lt_upper_bound; lia].
Qed.

Lemma hex_digits_zeros k s : hex_digits_val 0 (zeros k +:+ s) = hex_digits_val 0 s.
Proof. induction k as [|k IH]; [done|]. simpl. exact IH. Qed.

Definition is_hex_digit (a : ascii) : bool :=
  is_ascii_digit a || ((97 <=? byte a) && (byte a <=? 102)).

Lemma hex_char_digit d : 0 <= d < 16 -> is_hex_digit (hex_char d) = true.
Proof.
  intros Hd. unfold is_hex_digit, hex_char, is_ascii_digit.
  destruct (Z.ltb_spec d 10); rewrite byte_ascii_of_N by lia; lia.
Qed.

Lemma show_hex_go_shape fuel n s :
  (0 < fuel)%nat -> 0 <= n -> str_all is_hex_digit s = true ->
  show_hex_go fuel n s <> "" /\ str_all is_hex_digit (show_hex_go fuel n s) = true.
Proof.
  revert n s. induction fuel as [|fuel IH]; intros n s Hf Hn Hs; [lia|]. cbn [show_hex_go].
  pose proof (Z.mod_pos_bound n 16 ltac:(lia)) as Hm.
  assert (str_all is_hex_digit (String (hex_char (n mod 16)) s) = true) as Hs'.
  { simpl. by rewrite hex_char_digit. }
  destruct (n <? 16); [done|].
  destruct fuel as [|fuel]; [done|]. apply IH; [lia | apply Z.div_pos; lia | done].
Qed.

Lemma zeros_digits k : str_all is_hex_digit (zeros k) = true.
Proof. induction k; [done|]. simpl. done. Qed.

Lemma show_hex08_shape n :
  0 <= n -> show_hex08 n <> "" /\ str_all is_hex_digit (show_hex08 n) = true.
Proof.
  intros Hn. destruct (show_hex_go_shape 16 n "") as [Hne Hd]; [lia | done | done|].
  unfold show_hex08, show_hex. rewrite str_all_app, zeros_digits, Hd. split; [|done].
  destruct (zeros _); [done | done].
Qed.

Lemma parse_show_hex08 n : 0 <= n <= U64_MAX -> parse_hex_u64 (show_hex08 n) = Some n.
Proof.
  intros Hn. destruct (show_hex08_shape n) as [Hne Hd]; [lia|].
  assert (hex_digits_val 0 (show_hex08 n) = Some n) as Hv.
  { unfold show_hex08, show_hex. rewrite hex_digits_zeros, hex_digits_show; [done | lia|].
    unfold U64_MAX in Hn. change (16 ^ Z.of_nat 16) with (2 ^ 64). lia. }
  unfold parse_hex_u64. destruct (show_hex08 n) as [|a s]; [done|].
  assert (Ascii.eqb a "+" = false) as Hplus.
  { apply Ascii.eqb_neq. intros ->. done. }
  assert (match String a s with String "+" s1 => s1 | _ => String a s end = String a s) as ->.
  { destruct a as [[] [] [] [] [] [] [] []]; done. }
  simpl is_empty_str. cbv iota. rewrite Hv. by destruct (Z.leb_spec n U64_MAX); [|lia].
Qed.

(** ** Quoting *)

Lemma replace_char_app c t s1 s2 :
  replace_char c t (s1 +:+ s2) = replace_char c t s1 +:+ replace_char c t s2.
Proof.
  induction s1 as [|a s1 IH]; simpl; [done|]. rewrite IH.
  destruct (Ascii.eqb a c); [apply app_assoc_str | done].
Qed.

(** The text of one character inside quotes. *)
Definition quoted_char (a : ascii) : string :=
  if Ascii.eqb a BACKSLASH then String BACKSLASH (String BACKSLASH "")
  else if Ascii.eqb a DQUOTE then String BACKSLASH (String DQUOTE "")
  else if Ascii.eqb a CR || Ascii.eqb a LF then ""
  else String a "".

Lemma sanitize_cons a s :
  sanitize_quoted_value (String a s) = quoted_char a +:+ sanitize_quoted_value s.
Proof.
  change (String a s) with (String a "" +:+ s). unfold sanitize_quoted_value.
  rewrite !replace_char_app. f_equal. unfold quoted_char. cbn [replace_char].
  destruct (Ascii.eqb_spec a BACKSLASH) as [->|Hb]; [done|].
  cbn [replace_char]. destruct (Ascii.eqb_spec a DQUOTE) as [->|Hq]; [done|].
  cbn [replace_char]. destruct (Ascii.eqb a CR); [done|]. cbn [replace_char].
  by destruct (Ascii.eqb a LF).
Qed.

Definition no_line_break (s : string) : bool := lacks CR s && lacks LF s.

Lemma no_line_break_cons a s :
  no_line_break (String a s) = true ->
  Ascii.eqb a CR = false /\ Ascii.eqb a LF = false /\ no_line_break s = true.
Proof.
  unfold no_line_break, lacks. simpl. intros. bool_prop. split; [done|]. split; [done|].
  by apply andb_true_iff.
Qed.

Lemma unescape_sanitize v : no_line_break v = true -> unescape (sanitize_quoted_value v) = v.
Proof.
  induction v as [|a v IH]; [done|]. intros (Hcr & Hlf & Hv)%no_line_break_cons.
  rewrite sanitize_cons. unfold quoted_char. rewrite Hcr, Hlf.
  destruct (Ascii.eqb_spec a BACKSLASH) as [->|Hb]; [simpl; by rewrite IH|].
  destruct (Ascii.eqb_spec a DQUOTE) as [->|Hq]; [simpl; by rewrite IH|].
  simpl. apply Ascii.eqb_neq in Hb. by rewrite Hb, IH.
Qed.

Lemma unescape_plain s : lacks BACKSLASH s = true -> unescape s = s.
Proof.
  unfold lacks. induction s as [|a s IH]; [done|]. simpl. intros [Ha Hs]%andb_true_iff.
  apply negb_true_iff in Ha. by rewrite Ha, IH.
Qed.

Lemma split_last_app s z : split_last (s +:+ String z "") = Some (s, z).
Proof. induction s as [|a s IH]; simpl; [done | by rewrite IH]. Qed.

Lemma trimmed_quoted v : trimmed (String DQUOTE (v +:+ String DQUOTE "")).
Proof. split; [eexists _, _; done|]. by exists (String DQUOTE v), DQUOTE. Qed.

Lemma unquote_quoted v :
  no_line_break v = true ->
  unquote (String DQUOTE (sanitize_quoted_value v +:+ String DQUOTE "")) = v.
Proof.
  intros Hv. unfold unquote. rewrite trim_trimmed by apply trimmed_quoted.
  change (Ascii.eqb DQUOTE DQUOTE) with true. cbv iota. rewrite split_last_app.
  change (Ascii.eqb DQUOTE DQUOTE) with true. cbv iota.
  destruct (lacks BACKSLASH (sanitize_quoted_value v)) eqn:Hl; [|by apply unescape_sanitize].
  rewrite <- (unescape_plain _ Hl). by apply unescape_sanitize.
Qed.

Lemma unquote_raw v : v <> "" -> str_all solid v = true -> starts_with (String DQUOTE "") v = false ->
  unquote v = v.
Proof.
  intros Hne Hs Hq. unfold unquote. rewrite trim_solid by done. destruct v as [|a v]; [done|].
  unfold starts_with in Hq. simpl in Hq. rewrite Ascii.eqb_sym in Hq.
  by destruct (Ascii.eqb a DQUOTE).
Qed.

(** ** Commas *)

Lemma split_commas_plain p rest q cur :
  lacks BACKSLASH p = true -> lacks DQUOTE p = true -> lacks "," p = true ->
  split_commas_go (p +:+ rest) q false cur = split_commas_go rest q false (cur +:+ p).
Proof.
  unfold lacks. revert cur. induction p as [|a p IH]; intros cur; [by rewrite app_nil_str|].
  simpl. intros [Hb ?]%andb_true_iff [Hq ?]%andb_true_iff [Hc ?]%andb_true_iff.
  apply negb_true_iff in Hb, Hq, Hc. rewrite Hb, Hq, Hc. simpl. rewrite IH by done.
  by rewrite <- app_assoc_str.
Qed.

Lemma split_commas_sanitized v rest cur :
  split_commas_go (sanitize_quoted_value v +:+ rest) true false cur
  = split_commas_go rest true false (cur +:+ sanitize_quoted_value v).
Proof.
  revert cur. induction v as [|a v IH]; intros cur; [by rewrite app_nil_str|].
  rewrite sanitize_cons, <- app_assoc_str. unfold quoted_char.
  destruct (Ascii.eqb_spec a BACKSLASH) as [->|Hb].
  { simpl. rewrite IH. by rewrite <- !app_assoc_str. }
  destruct (Ascii.eqb_spec a DQUOTE) as [->|Hq].
  { simpl. rewrite IH. by rewrite <- !app_assoc_str. }
  destruct (Ascii.eqb a CR || Ascii.eqb a LF); [simpl; apply IH|].
  simpl. apply Ascii.eqb_neq in Hb, Hq. rewrite Hb, Hq, andb_false_r, IH.
  by rewrite <- app_assoc_str.
Qed.

(** A parameter text the splitter passes over. *)
Definition balanced (p : string) : Prop :=
  forall rest cur, split_commas_go (p +:+ rest) false false cur
                   = split_commas_go rest false false (cur +:+ p).

Definition plain (s : string) : bool :=
  str_all solid s && lacks BACKSLASH s && lacks DQUOTE s && lacks "," s && lacks "=" s
  && negb (is_empty_str s).

Lemma plain_facts s :
  plain s = true -> str_all solid s = true /\ lacks BACKSLASH s = true /\ lacks DQUOTE s = true
    /\ lacks "," s = true /\ lacks "=" s = true /\ s <> "".
Proof. unfold plain. intros. bool_prop. repeat split; try done. by destruct s. Qed.

Lemma balanced_plain p :
  lacks BACKSLASH p = true -> lacks DQUOTE p = true -> lacks "," p = true -> balanced p.
Proof. intros ??? rest cur. by apply split_commas_plain. Qed.

Lemma balanced_app p q : balanced p -> balanced q -> balanced (p +:+ q).
Proof. intros Hp Hq rest cur. rewrite <- app_assoc_str, Hp, Hq. by rewrite <- app_assoc_str. Qed.

Lemma balanced_quoted v : balanced (String DQUOTE (sanitize_quoted_value v +:+ String DQUOTE "")).
Proof.
  intros rest cur. simpl. rewrite <- app_assoc_str, split_commas_sanitized. simpl.
  by rewrite <- !app_assoc_str.
Qed.

Lemma split_commas_params p ps cur :
  balanced p -> Forall balanced ps ->
  split_commas_go (p +:+ write_params false ps) false false cur
  = (cur +:+ p) :: ((String " ") <$> ps).
Proof.
  intros Hp Hps. revert p cur Hp. induction Hps as [|q ps Hq _ IH]; intros p cur Hp.
  { rewrite Hp. done. }
  cbn [write_params]. rewrite Hp. cbn. f_equal. by apply (IH q (String " " "")).
Qed.

(** ** One parameter *)

(** A parameter text [p] that assigns [v] to [name]. *)
Record carries (p name v : string) : Prop := {
  cr_balanced : balanced p;
  cr_trimmed : trimmed p;
  cr_split : exists raw, split_once "=" p = Some (name, raw) /\ unquote (trim raw) = v;
  cr_name : trim name = name
}.

Lemma carries_quoted name v :
  plain name = true -> no_line_break v = true -> carries (quoted_param name v) name v.
Proof.
  intros (Hs & Hb & Hq & Hc & He & Hne)%plain_facts Hv. unfold quoted_param. split.
  - apply balanced_app; [by apply balanced_plain|].
    apply balanced_app; [by apply balanced_plain | apply balanced_quoted].
  - apply trimmed_app; [by apply trimmed_solid | apply trimmed_quoted].
  - eexists. split; [by apply (split_once_app "=")|].
    rewrite trim_trimmed by apply trimmed_quoted. by apply unquote_quoted.
  - by apply trim_solid.
Qed.

Lemma carries_raw name v :
  plain name = true -> plain v = true -> carries (raw_param name v) name v.
Proof.
  intros (Hs & Hb & Hq & Hc & He & Hne)%plain_facts (Hs' & Hb' & Hq' & Hc' & He' & Hne')%plain_facts.
  unfold raw_param. split.
  - apply balanced_app; [by apply balanced_plain|].
    apply balanced_app; [by apply balanced_plain | by apply balanced_plain].
  - apply trimmed_app; by apply trimmed_solid.
  - eexists. split; [by apply (split_once_app "=")|].
    rewrite trim_solid by done. apply unquote_raw; [done..|].
    destruct v as [|a v]; [done|]. unfold lacks in Hq'. simpl in Hq'.
    apply andb_true_iff in Hq' as [Hq' _]. apply negb_true_iff in Hq'.
    unfold starts_with. simpl. by rewrite Ascii.eqb_sym, Hq'.
  - by apply trim_solid.
Qed.

Lemma fold_params_step {A} (assign : A -> string -> string -> result A DigestError)
    p name v parts acc :
  carries p name v ->
  fold_params assign (p :: parts) acc
  = match assign acc name v with Ok acc => fold_params assign parts acc | Err e => Err e end
  /\ fold_params assign (String " " p :: parts) acc = fold_params assign (p :: parts) acc.
Proof.
  intros [_ Ht (raw & Hsp & Hun) Hn]. cbn [fold_params]. rewrite trim_space.
  rewrite (trim_trimmed p Ht). split; [|done].
  destruct Ht as [(a & t & -> & Ha) _]. cbn [is_empty_str]. rewrite Hsp. simpl.
  by rewrite Hn, Hun.
Qed.

(** The parameters a header value is made of: texts with what they carry. *)
Definition assigns {A} (assign : A -> string -> string -> result A DigestError)
    (params : list (string * string)) (acc : A) : result A DigestError :=
  fold_left (fun acc nv => match acc with Ok acc => assign acc nv.1 nv.2 | Err e => Err e end)
            params (Ok acc).

Lemma assigns_Err {A} (assign : A -> string -> string -> result A DigestError) params e :
  fold_left (fun acc nv => match acc with Ok acc => assign acc nv.1 nv.2 | Err e => Err e end)
            params (Err e) = Err e.
Proof. by induction params. Qed.

Lemma fold_params_assigns {A} (assign : A -> string -> string -> result A DigestError) ps nvs :
  Forall2 (fun p nv => carries p nv.1 nv.2) ps nvs ->
  forall acc, fold_params assign (String " " <$> ps) acc = assigns assign nvs acc.
Proof.
  induction 1 as [|p nv ps nvs Hp _ IH]; intros acc; [done|]. cbn [fmap list_fmap].
  destruct (fold_params_step assign p _ _ (String " " <$> ps) acc Hp) as [H1 _].
  destruct (fold_params_step assign p _ _ (String " " <$> ps) acc Hp) as [_ H2].
  change (list_fmap string string (String " ") ps) with (String " " <$> ps). rewrite H2, H1.
  unfold assigns. cbn [fold_left]. destruct (assign acc nv.1 nv.2) as [acc'|e]; [apply IH|].
  by rewrite assigns_Err.
Qed.

Lemma trimmed_params p ps :
  trimmed p -> Forall trimmed ps -> trimmed (p +:+ write_params false ps).
Proof.
  intros Hp Hps. revert p Hp. induction Hps as [|q ps Hq _ IH]; intros p Hp; simpl.
  { by rewrite app_nil_str. }
  pose proof (IH q Hq) as Ht. by apply (trimmed_app p ", " (q +:+ write_params false ps)).
Qed.

(** Parsing an encoded list of parameters assigns them in order. *)
Lemma parse_params {A} (assign : A -> string -> string -> result A DigestError) p nv ps nvs acc :
  carries p nv.1 nv.2 -> Forall2 (fun p nv => carries p nv.1 nv.2) ps nvs ->
  fold_params assign (split_commas (strip_scheme ("Digest" +:+ write_params true (p :: ps)))) acc
  = assigns assign (nv :: nvs) acc.
Proof.
  intros Hp Hps. cbn [write_params].
  assert (Forall trimmed ps /\ Forall balanced ps) as [Htr Hba].
  { clear -Hps. induction Hps as [|? ? ? ? []]; [done|]. naive_solver. }
  assert (trimmed (p +:+ write_params false ps)) as Ht by (apply trimmed_params; [apply Hp | done]).
  unfold strip_scheme. rewrite trim_trimmed.
  2:{ by apply (trimmed_app "Digest" " " (p +:+ write_params false ps)); [apply trimmed_solid|]. }
  destruct Ht as [(a & t & Hat & _) _]. rewrite Hat.
  change (Nat.ltb 7 (String.length ("Digest" +:+ " " +:+ String a t))) with true.
  change (eq_ignore_ascii_case (str_take 7 ("Digest" +:+ " " +:+ String a t)) "digest ") with true.
  cbn [andb]. change (str_drop 7 ("Digest" +:+ " " +:+ String a t)) with (String a t).
  rewrite <- Hat. unfold split_commas. rewrite split_commas_params by (done || apply Hp).
  destruct (fold_params_step assign p _ _ (String " " <$> ps) acc Hp) as [H1 _].
  change ("" +:+ p) with p. rewrite H1. unfold assigns. cbn [fold_left].
  destruct (assign acc nv.1 nv.2) as [acc'|e]; [by apply fold_params_assigns | by rewrite assigns_Err].
Qed.

(** ** Responses *)

Definition opt_all {A} (P : A -> Prop) (o : option A) : Prop :=
  match o with Some a => P a | None => True end.

Record wf_response (r : DigestResponse) : Prop := {
  wr_strings : Forall (fun s => no_line_break s = true)
    [dr_username r; dr_realm r; dr_nonce r; dr_uri r; dr_response r];
  wr_cnonce : opt_all (fun s => no_line_break s = true) (dr_cnonce r);
  wr_opaque : opt_all (fun s => no_line_break s = true) (dr_opaque r);
  wr_nc : opt_all is_u64 (dr_nc r);
  wr_len : (String.length (response_header_value r) <= DEFAULT_MAX_HEADER_LEN)%nat
}.

Lemma hex_plain n : 0 <= n -> plain (show_hex08 n) = true.
Proof.
  intros Hn. destruct (show_hex08_shape n Hn) as [Hne Hd]. unfold plain, lacks.
  assert (forall q, (forall a, is_hex_digit a = true -> q a = true) -> str_all q (show_hex08 n) = true) as Hall.
  { intros q Hq. by eapply str_all_impl. }
  rewrite !Hall; [by destruct (show_hex08 n)|..];
    intros a Ha; unfold is_hex_digit, is_ascii_digit in Ha;
    try (apply negb_true_iff, Ascii.eqb_neq; intros ->; done).
  unfold solid. lia.
Qed.

Definition opt_nv {A} (name : string) (f : A -> string) (o : option A) : list (string * string) :=
  match o with Some a => [(name, f a)] | None => [] end.

Lemma carries_opt {A} name (text : A -> string) (f : A -> string) o :
  (forall a, o = Some a -> carries (text a) name (f a)) ->
  Forall2 (fun p nv => carries p nv.1 nv.2) (opt_param text o) (opt_nv name f o).
Proof. destruct o; simpl; intros Ho; constructor; [by apply Ho | constructor]. Qed.

Lemma response_parse_encode r : wf_response r -> response_parse (response_header_value r) = Ok r.
Proof.
  intros [Hs Hcn Hop Hnc Hlen]. unfold response_parse, response_parse_with_limit.
  destruct (Nat.ltb_spec DEFAULT_MAX_HEADER_LEN (String.length (response_header_value r))); [lia|].
  unfold response_header_value, response_params. cbn [app].
  repeat (apply Forall_cons in Hs as [? Hs]).
  rewrite (parse_params assign_response _ ("username", dr_username r) _
    ([("realm", dr_realm r); ("nonce", dr_nonce r); ("uri", dr_uri r); ("response", dr_response r)]
     ++ opt_nv "cnonce" id (dr_cnonce r) ++ opt_nv "nc" show_hex08 (dr_nc r)
     ++ opt_nv "qop" qop_wire (dr_qop r) ++ opt_nv "algorithm" algorithm_wire (dr_algorithm r)
     ++ opt_nv "opaque" id (dr_opaque r))).
  - destruct r as [u rl n uri resp cn nc q a o]. cbn [dr_nc] in Hnc.
    assert (forall x, nc = Some x -> parse_hex_u64 (show_hex08 x) = Some x) as Hhex.
    { intros x ->. by apply parse_show_hex08. }
    clear -Hhex. destruct cn, nc as [nc|], q as [[]|], a as [[]|], o;
      lazy -[parse_hex_u64 show_hex08]; try rewrite (Hhex nc eq_refl); reflexivity.
  - by apply carries_quoted.
  - repeat apply Forall2_cons_2; try (by apply carries_quoted).
    repeat apply Forall2_app; apply carries_opt; intros x Hx.
    + rewrite Hx in Hcn. by apply carries_quoted.
    + rewrite Hx in Hnc. apply carries_raw; [done|]. apply hex_plain. apply Hnc.
    + apply carries_raw; [done|]. by destruct x.
    + apply carries_raw; [done|]. by destruct x.
    + rewrite Hx in Hop. by apply carries_quoted.
Qed.

(** ** Challenges *)

Record wf_challenge (c : DigestChallenge) : Prop := {
  wc_realm : no_line_break (ch_realm c) = true;
  wc_nonce : no_line_break (ch_nonce c) = true;
  wc_opaque : opt_all (fun s => no_line_break s = true) (ch_opaque c);
  wc_len : (String.length (challenge_header_value c) <= DEFAULT_MAX_HEADER_LEN)%nat
}.

Lemma challenge_parse_encode c :
  wf_challenge c -> challenge_parse (challenge_header_value c) = Ok c.
Proof.
  intros [Hr Hn Hop Hlen]. unfold challenge_parse, challenge_parse_with_limit.
  destruct (Nat.ltb_spec DEFAULT_MAX_HEADER_LEN (String.length (challenge_header_value c))); [lia|].
  unfold challenge_header_value, challenge_params. cbn [app].
  rewrite (parse_params assign_challenge _ ("realm", ch_realm c) _
    ([("nonce", ch_nonce c); ("algorithm", algorithm_wire (ch_algorithm c))]
     ++ opt_nv "opaque" id (ch_opaque c)
     ++ (if ch_stale c then [("stale", "true")] else [])
     ++ opt_nv "qop" qop_wire (ch_qop c))).
  - destruct c as [r n o s a q]; simpl in *. destruct o, s, a, q as [[]|]; done.
  - by apply carries_quoted.
  - apply Forall2_cons_2; [by apply carries_quoted|].
    apply Forall2_cons_2; [apply carries_raw; [done | by destruct (ch_algorithm c)]|].
    repeat apply Forall2_app.
    + apply carries_opt. intros x Hx. rewrite Hx in Hop. by apply carries_quoted.
    + destruct (ch_stale c); [|done]. apply Forall2_cons_2; [by apply carries_raw | done].
    + apply carries_opt. intros x Hx. apply carries_quoted; [done|]. by destruct x.
Qed.

(** Encoding a digest response as an [Authorization] value and parsing it
    gives the response back, for every response whose strings have no line
    break, with the nonce count any [u64] and all combinations of the optional
    parameters; quotes, backslashes and commas in the values are preserved. *)
Theorem response_roundtrip r (Hwf : wf_response r) :
  response_parse (response_header_value r) = Ok r.
Proof. by apply response_parse_encode. Qed.

Definition sample_digest_response : DigestResponse :=
  mkDigestResponse (String DQUOTE "a,b\c") "3402000000" "n0nce" "sip:34020000002000000001@3402000000"
    "00112233" (Some "c,nonce") (Some 18446744073709551615) (Some Auth) (Some Sha256) None.

Lemma response_roundtrip_witness :
  response_parse (response_header_value sample_digest_response) = Ok sample_digest_response.
Proof.
  apply response_roundtrip. split.
  - repeat constructor.
  - vm_compute. reflexivity.
  - exact I.
  - vm_compute. split; discriminate.
  - vm_compute. lia.
Defined.

(** Encoding a challenge as a [WWW-Authenticate] value and parsing it gives
    the challenge back. *)
Theorem challenge_roundtrip c (Hwf : wf_challenge c) :
  challenge_parse (challenge_header_value c) = Ok c.
Proof. by apply challenge_parse_encode. Qed.

Definition sample_challenge : DigestChallenge :=
  mkDigestChallenge "cheetah, realm" "0011" (Some "op") true Sha512 (Some Auth).

Lemma challenge_roundtrip_witness :
  challenge_parse (challenge_header_value sample_challenge) = Ok sample_challenge.
Proof. apply challenge_roundtrip. split; vm_compute; [reflexivity.. | lia]. Defined.
