(* ===== verification/Digest.v ===== *)
(** * Digest authentication: nonces, the server context and the client

    [sip/digest/nonce.rs], [context.rs] and [client.rs].  The hash functions,
    HMAC and the hexadecimal codec are third-party crates: they are the
    operations of the class [Crypto], and [CryptoLaws] states what their
    documentation promises and the code relies on.  Byte strings are strings. *)

From S2P Require Import Prelude RustStr SipUri SipMessage DigestCodec DigestReplay.
Open Scope string_scope.
Open Scope list_scope.
Open Scope Z_scope.

Class Crypto := {
  md5_digest : string -> string;
  sha256_digest : string -> string;
  sha512_digest : string -> string;
  (** [Hmac::<Sha256>::new_from_slice(key)], [update(msg)], [finalize()]; the
      error is the text of the refused key *)
  hmac_sha256 : string -> string -> result string string;
  hex_encode : string -> string;
  hex_decode : string -> option string
}.

Definition is_ascii_byte (a : ascii) : bool := byte a <? 128.
(** The characters [hex::encode] produces. *)
Definition is_hex_char (a : ascii) : bool :=
  is_ascii_digit a || ((97 <=? byte a) && (byte a <=? 102)).

Class CryptoLaws `{Crypto} : Prop := {
  (** HMAC accepts keys of any length and produces 32 bytes *)
  hmac_total : forall key msg, exists tag, hmac_sha256 key msg = Ok tag /\ String.length tag = 32%nat;
  (** the codec: two lower-case hexadecimal characters a byte, and a round trip *)
  hex_app : forall a b, hex_encode (a +:+ b) = hex_encode a +:+ hex_encode b;
  hex_length : forall a, String.length (hex_encode a) = (2 * String.length a)%nat;
  hex_chars : forall a, str_all is_hex_char (hex_encode a) = true;
  hex_roundtrip : forall a, hex_decode (hex_encode a) = Some a
}.

(** ** Big-endian integers *)

Fixpoint be_bytes (k : nat) (n : Z) : string :=
  match k with
  | O => ""
  | S k => be_bytes k (n / 256) +:+ String (ascii_of_N (Z.to_N (n mod 256))) ""
  end.
(** [u64::to_be_bytes], [u64::from_be_bytes]. *)
Definition to_be_bytes (n : Z) : string := be_bytes 8 n.
Fixpoint from_be_go (acc : Z) (s : string) : Z :=
  match s with EmptyString => acc | String a s => from_be_go (acc * 256 + byte a) s end.
Definition from_be_bytes (s : string) : Z := from_be_go 0 s.
#[global] Arguments to_be_bytes : simpl never.
#[global] Arguments from_be_bytes : simpl never.

Section digest.
Context `{Crypto}.

(** ** Nonces *)

Definition nonce_signature (secret timestamp counter : string) : result string DigestError :=
  map_err (fun _ => InvalidNonce) (hmac_sha256 secret (timestamp +:+ counter)).

(** [generate_nonce]. *)
Definition generate_nonce (secret : string) (timestamp counter : Z) : result string DigestError :=
  let ts_bytes := to_be_bytes timestamp in
  let counter_bytes := to_be_bytes counter in
  let? signature := nonce_signature secret ts_bytes counter_bytes in
  Ok (hex_encode ts_bytes +:+ hex_encode counter_bytes +:+ hex_encode (str_take 16 signature)).

(** [validate_nonce]. *)
Definition validate_nonce (nonce secret : string) (now ttl : Z) : result Z DigestError :=
  if negb (Nat.eqb (String.length nonce) 64) || negb (str_all is_ascii_byte nonce)
  then Err InvalidNonce
  else
    let? bytes := ok_or (hex_decode nonce) InvalidNonce in
    if negb (Nat.eqb (String.length bytes) 32) then Err InvalidNonce
    else
      let ts_bytes := str_take 8 bytes in
      let counter_bytes := str_take 8 (str_drop 8 bytes) in
      let sig := str_drop 16 bytes in
      let timestamp := from_be_bytes ts_bytes in
      let? expected := nonce_signature secret ts_bytes counter_bytes in
      if negb (String.eqb sig (str_take 16 expected)) then Err InvalidNonce
      else if ttl <? sat_sub now timestamp then Err StaleNonce
      else Ok timestamp.

(** ** Response digests *)

(** [DigestAlgorithm::hash_hex]. *)
Definition hash_hex (a : DigestAlgorithm) (data : string) : string :=
  match a with
  | Md5 => hex_encode (md5_digest data)
  | Sha256 => hex_encode (sha256_digest data)
  | Sha512 => hex_encode (sha512_digest data)
  end.

(** [compute_response]. *)
Definition compute_response (algorithm : DigestAlgorithm) (username realm password nonce : string)
    (nc : Z) (cnonce : option string) (qop : option DigestQop) (method uri : string) : string :=
  let a1 := username +:+ ":" +:+ realm +:+ ":" +:+ password in
  let ha1 := hash_hex algorithm a1 in
  let a2 := method +:+ ":" +:+ uri in
  let ha2 := hash_hex algorithm a2 in
  let a3 := match qop with
            | Some Auth =>
                ha1 +:+ ":" +:+ nonce +:+ ":" +:+ show_hex08 nc +:+ ":"
                +:+ default "" cnonce +:+ ":auth:" +:+ ha2
            | _ => ha1 +:+ ":" +:+ nonce +:+ ":" +:+ ha2
            end in
  hash_hex algorithm a3.

(** ** The server context *)

Record DigestContext := mkContext {
  cx_realm : string;
  cx_secret : string;
  cx_nonce_counter : Z;
  cx_allow_md5 : bool;
  cx_preferred_algorithm : DigestAlgorithm;
  cx_qop : option DigestQop;
  cx_nonce_ttl_seconds : Z
}.

Fixpoint strip_crlf (s : string) : string :=
  match s with
  | EmptyString => EmptyString
  | String a s =>
      if Ascii.eqb a CR || Ascii.eqb a LF then strip_crlf s else String a (strip_crlf s)
  end.

Definition MIN_SECRET_LEN : nat := 32.

(** [DigestContext::new] and its builder methods. *)
Definition context_new (realm secret : string) : result DigestContext DigestError :=
  if Nat.ltb (String.length secret) MIN_SECRET_LEN then Err WeakSecret
  else Ok (mkContext (strip_crlf realm) secret 0 false Sha256 (Some Auth) 300).
Definition context_allow_md5 (c : DigestContext) (allow : bool) : DigestContext :=
  mkContext (cx_realm c) (cx_secret c) (cx_nonce_counter c) allow (cx_preferred_algorithm c)
            (cx_qop c) (cx_nonce_ttl_seconds c).
Definition context_preferred_algorithm (c : DigestContext) (a : DigestAlgorithm) : DigestContext :=
  mkContext (cx_realm c) (cx_secret c) (cx_nonce_counter c) (cx_allow_md5 c) a
            (cx_qop c) (cx_nonce_ttl_seconds c).
Definition context_qop (c : DigestContext) (q : option DigestQop) : result DigestContext DigestError :=
  if bool_decide (q = Some AuthInt) then Err InvalidQop
  else Ok (mkContext (cx_realm c) (cx_secret c) (cx_nonce_counter c) (cx_allow_md5 c)
                     (cx_preferred_algorithm c) q (cx_nonce_ttl_seconds c)).
Definition context_nonce_ttl (c : DigestContext) (ttl : Z) : DigestContext :=
  mkContext (cx_realm c) (cx_secret c) (cx_nonce_counter c) (cx_allow_md5 c)
            (cx_preferred_algorithm c) (cx_qop c) ttl.

(** [generate_challenge]: the counter is an atomic, incremented also when the
    nonce cannot be generated; [fetch_add] wraps. *)
Definition generate_challenge (c : DigestContext) (now : Z)
    : DigestContext * result DigestChallenge DigestError :=
  let counter := cx_nonce_counter c in
  let c' := mkContext (cx_realm c) (cx_secret c) (wrap64 (counter + 1)) (cx_allow_md5 c)
              (cx_preferred_algorithm c) (cx_qop c) (cx_nonce_ttl_seconds c) in
  (c', let? nonce := generate_nonce (cx_secret c) now counter in
       Ok (mkDigestChallenge (cx_realm c) nonce None false (cx_preferred_algorithm c) (cx_qop c))).

(** [generate_stale_challenge]. *)
Definition generate_stale_challenge (c : DigestContext) (now : Z)
    : DigestContext * result DigestChallenge DigestError :=
  let '(c, r) := generate_challenge c now in
  (c, let? ch := r in
      Ok (mkDigestChallenge (ch_realm ch) (ch_nonce ch) (ch_opaque ch) true (ch_algorithm ch)
                            (ch_qop ch))).

(** [DigestContext::validate], with the replay cache it updates. *)
Definition validate (c : DigestContext) (response : DigestResponse) (method : Method)
    (uri password : string) (cache : DigestReplayCache) (now : Z)
    : DigestReplayCache * result unit DigestError :=
  let algorithm := default Md5 (dr_algorithm response) in
  if bool_decide (algorithm = Md5) && negb (cx_allow_md5 c) then (cache, Err AlgorithmNotAllowed)
  else if negb (bool_decide (algorithm = cx_preferred_algorithm c)) then (cache, Err AlgorithmDowngrade)
  else if negb (String.eqb (dr_realm response) (cx_realm c)) then (cache, Err RealmMismatch)
  else if negb (String.eqb (dr_uri response) uri) then (cache, Err UriMismatch)
  else if negb (bool_decide (dr_qop response = cx_qop c)) then (cache, Err InvalidQop)
  else if bool_decide (dr_qop response = Some AuthInt) then (cache, Err InvalidQop)
  else if bool_decide (dr_qop response = Some Auth)
          && (bool_decide (dr_nc response = None) || bool_decide (dr_cnonce response = None))
  then (cache, Err InvalidQop)
  else if bool_decide (dr_qop response = None)
          && (bool_decide (dr_nc response <> None) || bool_decide (dr_cnonce response <> None))
  then (cache, Err InvalidQop)
  else
    match validate_nonce (dr_nonce response) (cx_secret c) now (cx_nonce_ttl_seconds c) with
    | Err e => (cache, Err e)
    | Ok _ =>
        let nc := default 0 (dr_nc response) in
        let expected :=
          compute_response algorithm (dr_username response) (dr_realm response) password
            (dr_nonce response) nc (dr_cnonce response) (dr_qop response) (Method_str method) uri in
        match hex_decode expected, hex_decode (dr_response response) with
        | Some expected_bytes, Some actual_bytes =>
            if negb (String.eqb actual_bytes expected_bytes) then (cache, Err InvalidResponse)
            else if bool_decide (dr_qop response <> None) then
              let '(cache, fresh) :=
                check cache (dr_nonce response) nc now (cx_nonce_ttl_seconds c) in
              if (fresh : bool) then (cache, Ok tt) else (cache, Err ReplayDetected)
            else (cache, Ok tt)
        | _, _ => (cache, Err InvalidResponse)
        end
    end.

(** ** The client *)

Record DigestClient := mkDigestClient {
  dc_allow_md5 : bool;
  dc_preferred_algorithm : DigestAlgorithm;
  dc_qop : option DigestQop;
  dc_nonce_count : Z
}.
Definition digest_client_new : DigestClient := mkDigestClient false Sha256 None 0.

Definition client_allow_md5 (cl : DigestClient) (allow : bool) : DigestClient :=
  mkDigestClient allow (dc_preferred_algorithm cl) (dc_qop cl) (dc_nonce_count cl).
Definition client_preferred_algorithm (cl : DigestClient) (a : DigestAlgorithm) : DigestClient :=
  mkDigestClient (dc_allow_md5 cl) a (dc_qop cl) (dc_nonce_count cl).
Definition client_qop (cl : DigestClient) (q : option DigestQop) : result DigestClient DigestError :=
  if bool_decide (q = Some AuthInt) then Err InvalidQop
  else Ok (mkDigestClient (dc_allow_md5 cl) (dc_preferred_algorithm cl) q (dc_nonce_count cl)).

(** [derive_cnonce]. *)
Definition derive_cnonce (password context : string) : result string DigestError :=
  let? tag := map_err (fun e => Malformed ("invalid cnonce key: " +:+ e)) (hmac_sha256 password context) in
  Ok (hex_encode (str_take 16 tag)).

(** [validate_token] of [client.rs]. *)
Definition validate_digest_token (value : string) : result unit DigestError :=
  if negb (lacks CR value) || negb (lacks LF value)
  then Err (Malformed "digest value contains line break") else Ok tt.

(** [DigestClient::authorize]. *)
Definition authorize (cl : DigestClient) (username password method uri : string)
    (challenge : DigestChallenge) (cnonce : string) : DigestClient * result DigestResponse DigestError :=
  let pre :=
    let? _ := validate_digest_token username in
    let? _ := validate_digest_token uri in
    let? _ := validate_digest_token cnonce in
    let? _ := validate_digest_token (ch_realm challenge) in
    let? _ := validate_digest_token (ch_nonce challenge) in
    match ch_opaque challenge with Some o => validate_digest_token o | None => Ok tt end in
  match pre with
  | Err e => (cl, Err e)
  | Ok _ =>
      if bool_decide (ch_algorithm challenge = Md5) && negb (dc_allow_md5 cl)
      then (cl, Err AlgorithmNotAllowed)
      else if bool_decide (ch_qop challenge = Some AuthInt) then (cl, Err InvalidQop)
      else
        let qop := match ch_qop challenge with Some q => Some q | None => dc_qop cl end in
        if bool_decide (qop = Some AuthInt) then (cl, Err InvalidQop)
        else
          let finish cl cnonce nc :=
            let algorithm := ch_algorithm challenge in
            let response :=
              compute_response algorithm username (ch_realm challenge) password (ch_nonce challenge)
                (default 0 nc) cnonce qop method uri in
            (cl, Ok (mkDigestResponse username (ch_realm challenge) (ch_nonce challenge) uri response
                       cnonce nc qop (Some algorithm) (ch_opaque challenge))) in
          if bool_decide (qop = Some Auth) then
            if U64_MAX <? dc_nonce_count cl + 1
            then (cl, Err (Malformed "nonce count overflow"))
            else
              let n := dc_nonce_count cl + 1 in
              finish (mkDigestClient (dc_allow_md5 cl) (dc_preferred_algorithm cl) (dc_qop cl) n)
                     (Some cnonce) (Some n)
          else finish cl None None
  end.
End digest.
