(* ===== verification/DigestProps.v ===== *)
(** * Properties of digest authentication

    Round trip and authenticity of signed nonces, soundness of acceptance, the
    policy on algorithms, rejection of replays, and agreement of the client and
    the server. *)

From S2P Require Import Prelude RustStr SipUri SipMessage DigestCodec DigestReplay DigestRoundtrip Digest.
Open Scope string_scope.
Open Scope list_scope.
Open Scope Z_scope.

(** ** Bytes *)

Lemma str_take_length n s : (n <= String.length s)%nat -> String.length (str_take n s) = n.
Proof.
  revert n. induction s as [|a s IH]; intros [|n] Hn; simpl in *; try lia. rewrite IH; lia.
Qed.

Lemma str_take_drop n s : str_take n s +:+ str_drop n s = s.
Proof. revert n. induction s as [|a s IH]; intros [|n]; simpl; try done. by rewrite IH. Qed.

Lemma be_bytes_length k n : String.length (be_bytes k n) = k.
Proof. revert n. induction k as [|k IH]; intros n; simpl; [done|]. rewrite length_app_str, IH. simpl. lia. Qed.

Lemma from_be_app acc s t : from_be_go acc (s +:+ t) = from_be_go (from_be_go acc s) t.
Proof. revert acc. induction s as [|a s IH]; intros acc; simpl; [done | apply IH]. Qed.

Lemma from_be_be_bytes k n acc :
  0 <= n < 256 ^ Z.of_nat k -> from_be_go acc (be_bytes k n) = acc * 256 ^ Z.of_nat k + n.
Proof.
  revert n acc. induction k as [|k IH]; intros n acc Hn.
  { simpl in *. lia. }
  rewrite Nat2Z.inj_succ, Z.pow_succ_r in Hn |- * by lia. cbn [be_bytes].
  rewrite from_be_app, IH.
  - simpl. pose proof (Z.mod_pos_bound n 256 ltac:(lia)). rewrite byte_ascii_of_N by lia.
    pose proof (Z.div_mod n 256). nia.
  - split; [apply Z.div_pos; lia | apply Z.div_lt_upper_bound; lia].
Qed.

Lemma from_to_be_bytes n : is_u64 n -> from_be_bytes (to_be_bytes n) = n.
Proof.
  intros Hn. unfold is_u64, U64_MAX in Hn. unfold from_be_bytes, to_be_bytes.
  rewrite from_be_be_bytes; [lia|]. change (256 ^ Z.of_nat 8) with (2 ^ 64). lia.
Qed.

Lemma to_be_bytes_length n : String.length (to_be_bytes n) = 8%nat.
Proof. apply be_bytes_length. Qed.

#[local] Opaque to_be_bytes.
#[local] Arguments str_take : simpl never.
#[local] Arguments str_drop : simpl never.

Section props.
Context `{CryptoLaws}.

Lemma hex_ascii a : str_all is_ascii_byte (hex_encode a) = true.
Proof.
  eapply str_all_impl; [|apply hex_chars]. intros c.
  unfold is_hex_char, is_ascii_digit, is_ascii_byte. lia.
Qed.

Lemma hex_no_line_break a : no_line_break (hex_encode a) = true.
Proof.
  unfold no_line_break, lacks. apply andb_true_iff. split; eapply str_all_impl; try apply hex_chars;
    intros c Hc; apply negb_true_iff, Ascii.eqb_neq; intros ->; done.
Qed.

(** ** Nonces *)

Lemma generate_nonce_Ok secret ts counter :
  exists tag, hmac_sha256 secret (to_be_bytes ts +:+ to_be_bytes counter) = Ok tag
    /\ String.length tag = 32%nat
    /\ generate_nonce secret ts counter
       = Ok (hex_encode (to_be_bytes ts +:+ to_be_bytes counter +:+ str_take 16 tag)).
Proof.
  destruct (hmac_total secret (to_be_bytes ts +:+ to_be_bytes counter)) as (tag & Ht & Hl).
  exists tag. split; [done|]. split; [done|]. unfold generate_nonce, nonce_signature.
  rewrite Ht. simpl. by rewrite !hex_app.
Qed.

Lemma validate_generated secret ts counter nonce now ttl :
  is_u64 ts -> generate_nonce secret ts counter = Ok nonce ->
  validate_nonce nonce secret now ttl
  = if ttl <? sat_sub now ts then Err StaleNonce else Ok ts.
Proof.
  intros Hts Hg. destruct (generate_nonce_Ok secret ts counter) as (tag & Ht & Hl & Hg').
  rewrite Hg' in Hg. injection Hg as <-.
  set (bytes := to_be_bytes ts +:+ to_be_bytes counter +:+ str_take 16 tag).
  assert (String.length bytes = 32%nat) as Hlen.
  { unfold bytes. rewrite !length_app_str, !to_be_bytes_length, str_take_length by lia. done. }
  unfold validate_nonce. rewrite hex_length, Hlen, hex_ascii, hex_roundtrip. simpl. rewrite Hlen. simpl.
  assert (str_take 8 bytes = to_be_bytes ts) as -> by (apply str_take_app, to_be_bytes_length).
  assert (str_drop 8 bytes = to_be_bytes counter +:+ str_take 16 tag) as ->
    by (apply str_drop_app, to_be_bytes_length).
  rewrite (str_take_app (to_be_bytes counter)) by apply to_be_bytes_length.
  assert (str_drop 16 bytes = str_take 16 tag) as ->.
  { unfold bytes. rewrite app_assoc_str. apply str_drop_app.
    by rewrite length_app_str, !to_be_bytes_length. }
  unfold nonce_signature. rewrite Ht. simpl. rewrite String.eqb_refl. simpl.
  by rewrite from_to_be_bytes.
Qed.

(** The verdict on a nonce changes with time only from valid to stale. *)
Lemma validate_nonce_again nonce secret now ttl ts :
  validate_nonce nonce secret now ttl = Ok ts -> forall now',
  validate_nonce nonce secret now' ttl = Err StaleNonce
  \/ (validate_nonce nonce secret now' ttl = Ok ts /\ now' <= ts + ttl).
Proof.
  unfold validate_nonce. intros Hv now'. destruct (negb _ || negb _); [done|].
  destruct (hex_decode nonce) as [bytes|]; [|done]. simpl in *.
  destruct (negb _); [done|]. destruct (nonce_signature _ _ _); [|done].
  destruct (negb _); [done|].
  destruct (ttl <? sat_sub now _); [done|]. injection Hv as ->.
  destruct (Z.ltb_spec ttl (sat_sub now' ts)) as [|Hle]; [by left | right].
  split; [done|]. unfold sat_sub in Hle. lia.
Qed.

(** A server nonce round-trips: for every [u64] timestamp and counter,
    [generate_nonce] succeeds, and validating its result with the same secret
    returns the timestamp while it is at most [ttl] old, and reports it stale
    afterwards (never an invalid signature). *)
Theorem nonce_roundtrip secret ts counter now ttl (Hts : is_u64 ts) :
  exists nonce, generate_nonce secret ts counter = Ok nonce
    /\ String.length nonce = 64%nat
    /\ validate_nonce nonce secret now ttl = if ttl <? sat_sub now ts then Err StaleNonce else Ok ts.
Proof.
  destruct (generate_nonce_Ok secret ts counter) as (tag & Ht & Hl & Hg).
  eexists. split; [exact Hg|]. split; [|by eapply validate_generated].
  by rewrite hex_length, !length_app_str, !to_be_bytes_length, str_take_length by lia.
Qed.

(** A validated nonce is authentic and fresh: it decodes to 32 bytes whose
    last 16 are the first 16 of the HMAC of the first 16 (timestamp and counter)
    under the server secret, and its timestamp is at most [ttl] old. *)
Theorem nonce_authentic nonce secret now ttl ts
    (Hv : validate_nonce nonce secret now ttl = Ok ts) :
  exists ts_bytes counter_bytes tag,
    hex_decode nonce = Some (ts_bytes +:+ counter_bytes +:+ str_take 16 tag)
    /\ String.length ts_bytes = 8%nat /\ String.length counter_bytes = 8%nat
    /\ hmac_sha256 secret (ts_bytes +:+ counter_bytes) = Ok tag
    /\ ts = from_be_bytes ts_bytes /\ now - ts <= ttl.
Proof.
  unfold validate_nonce in Hv. destruct (negb _ || negb _); [done|].
  destruct (hex_decode nonce) as [bytes|]; [|done]. simpl in Hv.
  destruct (Nat.eqb_spec (String.length bytes) 32) as [Hl|]; [|done]. simpl in Hv.
  unfold nonce_signature in Hv.
  destruct (hmac_sha256 secret _) as [tag|] eqn:Ht; [|done]. simpl in Hv.
  destruct (String.eqb_spec (str_drop 16 bytes) (str_take 16 tag)) as [Hs|]; [|done]. simpl in Hv.
  destruct (Z.ltb_spec ttl (sat_sub now (from_be_bytes (str_take 8 bytes)))) as [|Hle]; [done|].
  injection Hv as <-. exists (str_take 8 bytes), (str_take 8 (str_drop 8 bytes)), tag.
  assert (forall n s, String.length (str_drop n s) = (String.length s - n)%nat) as Hdrop.
  { intros n s. revert n. induction s as [|a s IH]; intros [|n]; simpl; try done. apply IH. }
  split; [|split; [apply str_take_length; lia|]].
  - f_equal. rewrite <- Hs, <- (str_take_drop 8 bytes) at 1. f_equal.
    rewrite <- (str_take_drop 8 (str_drop 8 bytes)) at 1. f_equal.
    clear. revert bytes. assert (forall n m s, str_drop n (str_drop m s) = str_drop (m + n) s) as Hdd.
    { intros n m. induction m as [|m IH]; intros s; [done|]. destruct s; [by destruct n | apply IH]. }
    intros bytes. apply Hdd.
  - split; [apply str_take_length; rewrite Hdrop; lia|]. split; [done|]. split; [done|].
    unfold sat_sub in Hle. lia.
Qed.

(** ** Acceptance *)

(** The digest of RFC 2617 (section 3.2.2), as bytes: the parts of each hashed
    string are joined with colons, and [auth] is the count and the client nonce
    of [qop=auth]. *)
Definition rfc_hash (a : DigestAlgorithm) (parts : list string) : string :=
  match a with
  | Md5 => md5_digest (String.concat ":" parts)
  | Sha256 => sha256_digest (String.concat ":" parts)
  | Sha512 => sha512_digest (String.concat ":" parts)
  end.
Definition rfc_digest (a : DigestAlgorithm) (username realm password nonce method uri : string)
    (auth : option (Z * string)) : string :=
  let ha1 := hex_encode (rfc_hash a [username; realm; password]) in
  let ha2 := hex_encode (rfc_hash a [method; uri]) in
  match auth with
  | Some (nc, cnonce) => rfc_hash a [ha1; nonce; show_hex08 nc; cnonce; "auth"; ha2]
  | None => rfc_hash a [ha1; nonce; ha2]
  end.

Definition auth_of (r : DigestResponse) : option (Z * string) :=
  match dr_qop r with Some _ => Some (default 0 (dr_nc r), default "" (dr_cnonce r)) | None => None end.

(** A nonce of this server that is still fresh: 64 ASCII characters that decode
    to a timestamp, a counter and the first half of their HMAC under the secret
    of the server. *)
Definition nonce_fresh (nonce secret : string) (now ttl : Z) : Prop :=
  String.length nonce = 64%nat /\ str_all is_ascii_byte nonce = true
  /\ exists ts_bytes counter_bytes tag,
    hex_decode nonce = Some (ts_bytes +:+ counter_bytes +:+ str_take 16 tag)
    /\ String.length ts_bytes = 8%nat /\ String.length counter_bytes = 8%nat
    /\ hmac_sha256 secret (ts_bytes +:+ counter_bytes) = Ok tag
    /\ Z.max 0 (now - from_be_bytes ts_bytes) <= ttl.

(** The checks before the nonce, as one condition. *)
Definition policy_ok (c : DigestContext) (r : DigestResponse) (uri : string) : Prop :=
  default Md5 (dr_algorithm r) = cx_preferred_algorithm c
  /\ (default Md5 (dr_algorithm r) = Md5 -> cx_allow_md5 c = true)
  /\ dr_realm r = cx_realm c /\ dr_uri r = uri /\ dr_qop r = cx_qop c
  /\ match dr_qop r with
     | Some Auth => is_Some (dr_nc r) /\ is_Some (dr_cnonce r)
     | Some AuthInt => False
     | None => dr_nc r = None /\ dr_cnonce r = None
     end.

(** The part of [validate] after those checks. *)
Definition validate_tail (c : DigestContext) (r : DigestResponse) (method : Method)
    (uri password : string) (cache : DigestReplayCache) (now : Z)
    : DigestReplayCache * result unit DigestError :=
  match validate_nonce (dr_nonce r) (cx_secret c) now (cx_nonce_ttl_seconds c) with
  | Err e => (cache, Err e)
  | Ok _ =>
      let nc := default 0 (dr_nc r) in
      let expected :=
        compute_response (default Md5 (dr_algorithm r)) (dr_username r) (dr_realm r) password
          (dr_nonce r) nc (dr_cnonce r) (dr_qop r) (Method_str method) uri in
      match hex_decode expected, hex_decode (dr_response r) with
      | Some expected_bytes, Some actual_bytes =>
          if negb (String.eqb actual_bytes expected_bytes) then (cache, Err InvalidResponse)
          else if bool_decide (dr_qop r <> None) then
            let '(cache, fresh) := check cache (dr_nonce r) nc now (cx_nonce_ttl_seconds c) in
            if (fresh : bool) then (cache, Ok tt) else (cache, Err ReplayDetected)
          else (cache, Ok tt)
      | _, _ => (cache, Err InvalidResponse)
      end
  end.

Lemma validate_cases c r method uri password cache now :
  (policy_ok c r uri
   /\ validate c r method uri password cache now = validate_tail c r method uri password cache now)
  \/ (~ policy_ok c r uri
      /\ exists e, validate c r method uri password cache now = (cache, Err e)
           /\ e <> ReplayDetected).
Proof.
  unfold validate, policy_ok. fold (validate_tail c r method uri password cache now).
  set (tail := validate_tail c r method uri password cache now).
  destruct (bool_decide_reflect (default Md5 (dr_algorithm r) = Md5)) as [Hmd|Hmd],
    (cx_allow_md5 c) eqn:Hallow; simpl; try (by right; split; [naive_solver | eauto]).
  all: destruct (bool_decide_reflect (default Md5 (dr_algorithm r) = cx_preferred_algorithm c)) as [Ha|Ha];
    simpl; [|by right; split; [naive_solver | eauto]].
  all: destruct (String.eqb_spec (dr_realm r) (cx_realm c)) as [Hr|Hr]; simpl;
    [|by right; split; [naive_solver | eauto]].
  all: destruct (String.eqb_spec (dr_uri r) uri) as [Hu|Hu]; simpl;
    [|by right; split; [naive_solver | eauto]].
  all: destruct (bool_decide_reflect (dr_qop r = cx_qop c)) as [Hq|Hq]; simpl;
    [|by right; split; [naive_solver | eauto]].
  all: destruct (dr_qop r) as [[]|]; simpl.
  all: try (by right; split; [naive_solver | eauto]).
  all: destruct (dr_nc r), (dr_cnonce r); simpl; try (by right; split; [naive_solver | eauto]).
  all: by left; split; [naive_solver|].
Qed.

Lemma validate_nonce_fresh nonce secret now ttl :
  (exists ts, validate_nonce nonce secret now ttl = Ok ts) <-> nonce_fresh nonce secret now ttl.
Proof.
  split.
  - intros [ts Hv]. pose proof (nonce_authentic _ _ _ _ _ Hv) as (tb & cb & tag & Hd & Ht & Hc & Hm & -> & Hle).
    unfold validate_nonce in Hv. destruct (Nat.eqb_spec (String.length nonce) 64); [|done].
    destruct (str_all is_ascii_byte nonce) eqn:Ha; [|done]. split; [done|]. split; [done|]. exists tb, cb, tag.
    split_and!; try done. rewrite Hd in Hv. simpl in Hv. destruct (negb _); [done|]. destruct (nonce_signature _ _ _); [|done].
    destruct (negb _); [done|]. rewrite (str_take_app tb) in Hv by done. destruct (Z.ltb_spec ttl (sat_sub now (from_be_bytes tb))); [done|].
    by unfold sat_sub in *.
  - intros (Hl & Ha & tb & cb & tag & Hd & Ht & Hc & Hm & Hle). exists (from_be_bytes tb). unfold validate_nonce.
    rewrite Hl, Ha, Hd. simpl. destruct (hmac_total secret (tb +:+ cb)) as (tag1 & Hm1 & Hlen). rewrite Hm in Hm1. injection Hm1 as <-.
    assert (String.length (tb +:+ cb +:+ str_take 16 tag) = 32%nat) as ->
      by (rewrite !length_app_str, str_take_length by lia; lia).
    simpl. rewrite (str_take_app tb), (str_drop_app tb), (str_take_app cb) by done. unfold nonce_signature. rewrite Hm. simpl.
    assert (str_drop 16 (tb +:+ cb +:+ str_take 16 tag) = str_take 16 tag) as ->
      by (rewrite app_assoc_str; apply str_drop_app; rewrite length_app_str; lia).
    rewrite String.eqb_refl. simpl. destruct (Z.ltb_spec ttl (sat_sub now (from_be_bytes tb))); [unfold sat_sub in *; lia|done].
Qed.

Lemma compute_response_rfc c r method uri password :
  policy_ok c r uri ->
  hex_decode (compute_response (default Md5 (dr_algorithm r)) (dr_username r) (dr_realm r) password
    (dr_nonce r) (default 0 (dr_nc r)) (dr_cnonce r) (dr_qop r) (Method_str method) uri)
  = Some (rfc_digest (cx_preferred_algorithm c) (dr_username r) (cx_realm c) password (dr_nonce r) (Method_str method) uri
            (auth_of r)).
Proof.
  intros (Ha & _ & Hr & _ & _ & Hq). rewrite Ha, Hr. unfold compute_response, hash_hex, rfc_digest, rfc_hash, auth_of.
  destruct (dr_qop r) as [[]|]; [|done|]; destruct (cx_preferred_algorithm c); apply hex_roundtrip.
Qed.

(** C34: The server, with a replay cache as its checks leave it (oldest first, one entry
    per nonce), accepts a digest response exactly when: the algorithm is the one it
    offers (MD5 only where allowed), realm, URI and qop are its own and the count and
    client nonce are present exactly with qop=auth; the nonce is 64 characters that
    decode to a timestamp, a counter and half of their HMAC under the server secret, not
    older than the TTL; the response is the digest of RFC 2617 of the password; and with
    qop=auth every count that the replay cache still holds for the nonce is smaller. *)
Theorem acceptance_sound c r method uri password cache now clock (Hok : cache_ok clock cache) :
  (validate c r method uri password cache now).2 = Ok tt
  <-> policy_ok c r uri
      /\ nonce_fresh (dr_nonce r) (cx_secret c) now (cx_nonce_ttl_seconds c)
      /\ hex_decode (dr_response r)
         = Some (rfc_digest (cx_preferred_algorithm c) (dr_username r) (cx_realm c) password (dr_nonce r)
                   (Method_str method) uri
                   (auth_of r))
      /\ (dr_qop r = Some Auth ->
           fresh_count cache (dr_nonce r) (default 0 (dr_nc r)) now (cx_nonce_ttl_seconds c)).
Proof.
  rewrite <-validate_nonce_fresh, <-(check_accepts clock cache) by done.
  destruct (validate_cases c r method uri password cache now) as [[Hp Heq]|(Hn & e & Heq & _)]; rewrite Heq; [|naive_solver].
  unfold validate_tail. rewrite (compute_response_rfc c) by done.
  destruct (validate_nonce _ _ _ _) as [ts|e]; [|naive_solver].
  destruct (hex_decode (dr_response r)) as [actual|]; [|naive_solver].
  destruct (String.eqb_spec actual (rfc_digest (cx_preferred_algorithm c) (dr_username r) (cx_realm c) password (dr_nonce r)
    (Method_str method) uri (auth_of r))) as [->|Hne];
    simpl; [|naive_solver].
  destruct Hp as (? & ? & ? & ? & ? & Hq). destruct (dr_qop r) as [[]|] eqn:Hqop; [|done|].
  - rewrite bool_decide_true by done. destruct (check _ _ _ _ _) as [cache1 []]; simpl; unfold policy_ok; rewrite ?Hqop; naive_solver.
  - rewrite bool_decide_false by naive_solver. simpl. unfold policy_ok. rewrite Hqop. naive_solver.
Qed.

(** Rejection leaves no trace: a response that [validate] rejects for any
    reason other than a detected replay does not change the replay cache, so that
    a party without the password can neither fill the cache nor evict nonces from
    it. *)
Theorem rejection_keeps_cache c r method uri password cache now cache' e
    (Hv : validate c r method uri password cache now = (cache', Err e)) (He : e <> ReplayDetected) :
  cache' = cache.
Proof.
  destruct (validate_cases c r method uri password cache now) as [[Hp Heq]|(_ & e' & Heq & _)];
    [|congruence].
  rewrite Heq in Hv. unfold validate_tail in Hv.
  destruct (validate_nonce _ _ _ _) as [ts|]; [|congruence].
  destruct (hex_decode (compute_response _ _ _ _ _ _ _ _ _ _)) as [d|]; [|congruence].
  destruct (hex_decode (dr_response r)) as [d'|]; [|congruence].
  destruct (String.eqb d' d); [|simpl in Hv; congruence]. simpl in Hv.
  case_bool_decide; [|congruence]. destruct (check _ _ _ _ _) as [cache1 []]; congruence.
Qed.

(** *** Replays *)

(** A call of [validate]. *)
Record Attempt := mkAttempt {
  at_response : DigestResponse;
  at_method : Method;
  at_uri : string;
  at_password : string;
  at_now : Z
}.
Definition attempt (c : DigestContext) (cache : DigestReplayCache) (a : Attempt) : DigestReplayCache * result unit DigestError :=
  validate c (at_response a) (at_method a) (at_uri a) (at_password a) cache (at_now a).
Definition attempts (c : DigestContext) (cache : DigestReplayCache) (l : list Attempt) : DigestReplayCache :=
  fold_left (fun cache a => (attempt c cache a).1) l cache.

Definition at_nonce (a : Attempt) : string := dr_nonce (at_response a).

(** The clock does not go back. *)
Fixpoint ordered (clock : Z) (l : list Attempt) : Prop :=
  match l with
  | [] => True
  | a :: l => clock <= at_now a /\ ordered (at_now a) l
  end.
Definition last_time (clock : Z) (l : list Attempt) : Z := fold_left (fun _ a => at_now a) l clock.

(** An attempt leaves the cache as it is or checks its nonce. *)
Lemma attempt_cache c cache a :
  (attempt c cache a).1 = cache
  \/ exists nc, (attempt c cache a).1 = (check cache (at_nonce a) nc (at_now a) (cx_nonce_ttl_seconds c)).1.
Proof.
  unfold attempt, at_nonce. destruct a as [r method uri password now]. simpl.
  destruct (validate_cases c r method uri password cache now) as [[_ ->]|(_ & e & -> & _)]; [|by left].
  unfold validate_tail. destruct (validate_nonce _ _ _ _); [|by left].
  destruct (hex_decode (compute_response _ _ _ _ _ _ _ _ _ _)); [|by left]. destruct (hex_decode (dr_response r)); [|by left].
  destruct (negb _); [by left|]. case_bool_decide; [|by left]. right. exists (default 0 (dr_nc r)). by destruct (check _ _ _ _ _) as [? []].
Qed.

Lemma attempt_ok clock c cache a :
  clock <= at_now a -> cache_ok clock cache ->
  cache_ok (at_now a) (attempt c cache a).1 /\ rc_capacity (attempt c cache a).1 = rc_capacity cache.
Proof.
  intros Hle Hok. destruct (attempt_cache c cache a) as [->|[nc ->]].
  - split; [by eapply cache_ok_later|done].
  - split; [by eapply cache_ok_check|apply check_capacity].
Qed.

Lemma attempts_ok c l : forall clock cache,
  ordered clock l -> cache_ok clock cache ->
  cache_ok (last_time clock l) (attempts c cache l) /\ rc_capacity (attempts c cache l) = rc_capacity cache.
Proof.
  induction l as [|a l IH]; intros clock cache; simpl; [done|]. intros [Hle Hl] Hok.
  destruct (attempt_ok clock c cache a Hle Hok) as [Hok1 <-]. by apply IH.
Qed.

Lemma ordered_app l1 l2 : forall clock, ordered clock (l1 ++ l2) <-> ordered clock l1 /\ ordered (last_time clock l1) l2.
Proof. induction l1 as [|a l1 IH]; intros clock; simpl; [naive_solver|]. rewrite IH. unfold last_time. simpl. naive_solver. Qed.

(** The entries of a nonce are not older than [ts]. *)
Definition recorded_since (n : string) (ts : Z) (cache : DigestReplayCache) : Prop :=
  forall e, e ∈ rc_entries cache -> re_nonce e = n -> ts <= re_inserted_at e.

Lemma check_since n ts cache nonce nc now ttl :
  (nonce = n -> ts <= now) -> recorded_since n ts cache -> recorded_since n ts (check cache nonce nc now ttl).1.
Proof.
  intros Hnow Hs e He Hn. unfold check in He. destruct (prune_suffix (rc_entries cache) now ttl) as [k Hk].
  cbn [prune with_entries rc_entries rc_capacity] in He. rewrite Hk in He.
  assert (forall e1, e1 ∈ drop k (rc_entries cache) -> re_nonce e1 = n -> ts <= re_inserted_at e1) as Hd.
  { intros e1 He1. apply Hs. eapply elem_of_sublist; [exact He1|apply sublist_drop]. }
  destruct (check_entries _ _ _) as [[b l]|] eqn:Hch; simpl in He.
  - apply check_entries_Some in Hch as (l1 & e0 & l2 & Heq & He0 & _ & ->). rewrite Heq in Hd.
    apply elem_of_app in He as [He|[->|He]%elem_of_cons]; [apply Hd; set_solver| |apply Hd; set_solver].
    simpl in *. apply (Hd e0); [set_solver|congruence].
  - assert (e ∈ drop k (rc_entries cache) ++ [mkReplayEntry nonce nc now]) as He1.
    { destruct (Nat.ltb _ _); [|done]. eapply elem_of_sublist; [exact He|apply (sublist_drop _ 1)]. }
    apply elem_of_app in He1 as [He1| ->%list_elem_of_singleton]; [by apply Hd|]. simpl in *. by apply Hnow.
Qed.

Lemma attempts_since c n ts l : forall cache,
  Forall (fun a => at_nonce a = n -> ts <= at_now a) l -> recorded_since n ts cache ->
  recorded_since n ts (attempts c cache l).
Proof.
  induction l as [|a l IH]; intros cache; simpl; [done|]. intros [Ha Hl]%Forall_cons Hs. apply IH; [done|].
  destruct (attempt_cache c cache a) as [->|[nc ->]]; [done|by apply check_since].
Qed.

(** The count is recorded for the nonce, not before [ts]. *)
Definition remembered (n : string) (nc ts : Z) (cache : DigestReplayCache) : Prop :=
  exists e, (e ∈ rc_entries cache) /\ re_nonce e = n /\ nc <= re_max_nc e /\ ts <= re_inserted_at e.

Lemma attempts_remember c n nc ts T l : forall clock cache,
  cache_ok clock cache -> ordered clock l -> (size T <= rc_capacity cache)%nat -> nonces cache ⊆ T ->
  Forall (fun a => at_nonce a ∈ T) l -> last_time clock l <= sat_add64 ts (cx_nonce_ttl_seconds c) ->
  remembered n nc ts cache -> remembered n nc ts (attempts c cache l).
Proof.
  induction l as [|a l IH]; intros clock cache Hok Hord Hcap Hk Hl Hlast Hr; simpl in Hord; [done|].
  change (last_time clock (a :: l)) with (last_time (at_now a) l) in Hlast. change (attempts c cache (a :: l)) with (attempts c (attempt c cache a).1 l).
  destruct Hord as [Hle Hord]. apply Forall_cons in Hl as [Ha Hl].
  destruct (attempt_ok clock c cache a Hle Hok) as [Hok1 Hc1].
  assert (at_now a <= last_time (at_now a) l) as Hnow.
  { clear -Hord. generalize (at_now a) Hord. clear. induction l as [|b l IH]; simpl; [lia|]. intros t [Ht Hl].
    specialize (IH _ Hl). unfold last_time in *. lia. }
  apply (IH (at_now a)); [done|done|by rewrite Hc1| |done|done|].
  - destruct (attempt_cache c cache a) as [->|[k ->]]; [done|by eapply check_known].
  - destruct (attempt_cache c cache a) as [->|[k ->]]; [done|].
    destruct Hr as (e & He & Hn & Hnc & Hts). assert (live (at_now a) (cx_nonce_ttl_seconds c) e) as Hlive.
    { unfold live. pose proof (sat_add64_mono _ _ (cx_nonce_ttl_seconds c) Hts). lia. }
    destruct (check_remembers T clock cache Hok Hk Hcap (at_nonce a) k _ _ Ha e He Hlive) as (e1 & He1 & Hn1 & Hi1 & Hm1).
    exists e1. split_and!; [done|congruence|lia|lia].
Qed.

(** An accepted response with [qop=auth]: its count was checked, and whether it is
    accepted again depends on the age of the nonce and on the cache alone. *)
Lemma accepted_again c r method uri password cache now ts :
  dr_qop r = Some Auth -> (validate c r method uri password cache now).2 = Ok tt ->
  validate_nonce (dr_nonce r) (cx_secret c) now (cx_nonce_ttl_seconds c) = Ok ts ->
  (validate c r method uri password cache now).1
    = (check cache (dr_nonce r) (default 0 (dr_nc r)) now (cx_nonce_ttl_seconds c)).1
  /\ forall cache2 now', (validate c r method uri password cache2 now').2 = Err StaleNonce
       \/ now' <= ts + cx_nonce_ttl_seconds c
          /\ (validate c r method uri password cache2 now').2
             = if (check cache2 (dr_nonce r) (default 0 (dr_nc r)) now' (cx_nonce_ttl_seconds c)).2
               then Ok tt else Err ReplayDetected.
Proof.
  intros Hq Hok Hts. destruct (validate_cases c r method uri password cache now) as [[Hp Heq]|(_ & e & Heq & _)];
    rewrite Heq in Hok |- *; [|done].
  unfold validate_tail in Hok |- *. rewrite Hts in Hok |- *. rewrite (compute_response_rfc c) in Hok |- * by done.
  destruct (hex_decode (dr_response r)) as [actual|] eqn:Hx; [|done].
  destruct (negb (String.eqb actual _)) eqn:Heqb; [done|]. rewrite bool_decide_true in Hok |- * by congruence.
  split; [by destruct (check _ _ _ _ _) as [? []]|]. intros cache2 now'.
  destruct (validate_cases c r method uri password cache2 now') as [[_ ->]|[Hn _]]; [|done].
  unfold validate_tail. destruct (validate_nonce_again _ _ _ _ _ Hts now') as [->|[-> Hfresh]]; [by left|right].
  split; [done|]. rewrite (compute_response_rfc c) by done. rewrite Hx, Heqb, bool_decide_true by congruence.
  by destruct (check cache2 _ _ _ _) as [? []].
Qed.

(** C35: A response accepted with qop=auth is refused when it is presented again, as a
    replay or as stale, whatever other attempts came before and in between, as long as
    the replay cache has room for the different nonces that it holds and that come in
    between, the clock does not go back and the nonce was not used before its own
    timestamp. Without that room a nonce can be evicted and the response accepted again
    (see the findings). *)
Theorem accepted_not_replayed c capacity before r method uri password now between now' ts
    (cache := attempts c (replay_cache_new capacity) before)
    (a := mkAttempt r method uri password now) (cache1 := (attempt c cache a).1)
    (Hord : ordered 0 (before ++ a :: between)) (Hlater : last_time now between <= now' <= U64_MAX)
    (Hq : dr_qop r = Some Auth) (Hok : (attempt c cache a).2 = Ok tt)
    (Hts : validate_nonce (dr_nonce r) (cx_secret c) now (cx_nonce_ttl_seconds c) = Ok ts)
    (Hpast : Forall (fun b => at_nonce b = dr_nonce r -> ts <= at_now b) (before ++ [a]))
    (Hroom : (size (nonces cache ∪ list_to_set (at_nonce <$> a :: between)) <= capacity)%nat) :
  exists e, (attempt c (attempts c cache1 between) (mkAttempt r method uri password now')).2 = Err e
    /\ (e = ReplayDetected \/ e = StaleNonce).
Proof.
  apply ordered_app in Hord as [Hord0 [Hle Hord1]].
  destruct (attempts_ok c before 0 (replay_cache_new capacity) Hord0 (cache_ok_new 0 capacity)) as [Hc0 Hcap0].
  fold cache in Hc0, Hcap0. simpl in Hcap0, Hle, Hord1. set (T := nonces cache ∪ list_to_set (at_nonce <$> a :: between)) in *.
  destruct (accepted_again c r method uri password cache now ts Hq Hok Hts) as [Hc1 Hagain].
  change ((validate c r method uri password cache now).1) with cache1 in Hc1.
  destruct (Hagain (attempts c cache1 between) now') as [Hst|[Hfresh Hrej]]; [eauto|].
  exists ReplayDetected. split; [|by left]. unfold attempt. cbn [at_response at_method at_uri at_password at_now]. rewrite Hrej.
  destruct ((check (attempts c cache1 between) _ _ _ _).2) eqn:Hacc; [exfalso|done].
  assert (now' <= sat_add64 ts (cx_nonce_ttl_seconds c)) as Hsat by (unfold sat_add64; lia).
  destruct (attempt_ok _ c cache a Hle Hc0) as [Hok1 Hcap1]. destruct (attempts_ok c between now cache1 Hord1 Hok1) as [Hok2 _].
  apply Forall_app in Hpast as [Hpast0 [Hnow _]%Forall_cons].
  assert (recorded_since (dr_nonce r) ts cache) as Hs.
  { apply attempts_since; [done|]. intros e He. by apply elem_of_nil in He. }
  assert (dr_nonce r ∈ T) as HnT by (unfold T; simpl; set_solver).
  assert (remembered (dr_nonce r) (default 0 (dr_nc r)) ts cache1) as Hrem.
  { rewrite Hc1.
    assert (size T <= rc_capacity cache)%nat as Hsize by (by rewrite Hcap0).
    destruct (check_records T _ cache Hc0 ltac:(unfold T; set_solver) Hsize (dr_nonce r) (default 0 (dr_nc r)) now
      (cx_nonce_ttl_seconds c) HnT) as (e & He & Hn & Hnc & Hi).
    exists e. split_and!; [done..|]. destruct Hi as [->|(e0 & He0 & Hn0 & ->)]; [by apply Hnow|by apply Hs]. }
  apply (attempts_remember c _ _ _ T between now) in Hrem; try done.
  - destruct Hrem as (e & He & Hn & Hnc & Hi). apply (check_accepts _ _ _ _ _ _ Hok2) in Hacc.
    specialize (Hacc e He Hn). unfold live in Hacc. pose proof (sat_add64_mono _ _ (cx_nonce_ttl_seconds c) Hi).
    specialize (Hacc ltac:(lia)). lia.
  - unfold cache1. by rewrite Hcap1, Hcap0.
  - rewrite Hc1.
    eapply check_known; [exact Hc0|unfold T; set_solver|by rewrite Hcap0|done].
  - apply Forall_forall. intros b Hb. unfold T. apply elem_of_union. right. apply elem_of_list_to_set. rewrite fmap_cons.
    right. by apply list_elem_of_fmap_2.
  - lia.
Qed.

(** ** Client and server *)

(** The response a client builds passes every check of a server that issued the
    challenge, up to the replay cache. *)
Definition client_ready (cl : DigestClient) (c : DigestContext) : Prop :=
  (cx_preferred_algorithm c = Md5 -> dc_allow_md5 cl = true /\ cx_allow_md5 c = true)
  /\ match cx_qop c with
     | Some Auth => 0 <= dc_nonce_count cl < U64_MAX
     | Some AuthInt => False
     | None => dc_qop cl = None
     end.

Lemma validate_token_ok s : no_line_break s = true -> validate_digest_token s = Ok tt.
Proof. unfold no_line_break, validate_digest_token. intros [-> ->]%andb_true_iff. done. Qed.

(** A response with the right digest, past the policy and the nonce: only the
    replay cache is left. *)
Lemma validate_matching c r method uri password cache now ts :
  policy_ok c r uri ->
  validate_nonce (dr_nonce r) (cx_secret c) now (cx_nonce_ttl_seconds c) = Ok ts ->
  dr_response r = compute_response (default Md5 (dr_algorithm r)) (dr_username r) (dr_realm r) password
    (dr_nonce r) (default 0 (dr_nc r)) (dr_cnonce r) (dr_qop r) (Method_str method) uri ->
  validate c r method uri password cache now
  = match dr_qop r with
    | None => (cache, Ok tt)
    | Some _ =>
        let '(cache', fresh) :=
          check cache (dr_nonce r) (default 0 (dr_nc r)) now (cx_nonce_ttl_seconds c) in
        (cache', if (fresh : bool) then Ok tt else Err ReplayDetected)
    end.
Proof.
  intros Hpol Hvn Hresp.
  destruct (validate_cases c r method uri password cache now) as [[_ ->]|[? _]]; [|done].
  unfold validate_tail. rewrite Hvn, Hresp. set (resp := compute_response _ _ _ _ _ _ _ _ _ _).
  assert (exists d, hex_decode resp = Some d) as [d ->].
  { unfold resp, compute_response, hash_hex.
    destruct (default Md5 (dr_algorithm r)); eexists; apply hex_roundtrip. }
  rewrite String.eqb_refl. cbn [negb]. destruct (dr_qop r).
  - rewrite bool_decide_true by done. by destruct (check _ _ _ _ _) as [? []].
  - by rewrite bool_decide_false by naive_solver.
Qed.

(** Client and server agree: from a challenge the server issued, a client
    with the password builds a response, and the server accepts it while the
    nonce is fresh, for every user name, URI, client nonce and realm without line
    breaks, every offered algorithm, with and without [qop=auth]; only the replay
    cache can object. *)
Theorem client_server_agree c cl now0 now username password method uri cnonce cache
    (Hu : no_line_break username = true) (Huri : no_line_break uri = true)
    (Hcn : no_line_break cnonce = true) (Hrealm : no_line_break (cx_realm c) = true)
    (Hready : client_ready cl c) (Hnow0 : is_u64 now0)
    (Hfresh : now - now0 <= cx_nonce_ttl_seconds c) (Httl : 0 <= cx_nonce_ttl_seconds c) :
  exists c' ch cl' r,
    generate_challenge c now0 = (c', Ok ch)
    /\ authorize cl username password (Method_str method) uri ch cnonce = (cl', Ok r)
    /\ validate c r method uri password cache now
       = match cx_qop c with
         | None => (cache, Ok tt)
         | Some _ =>
             let '(cache', fresh) :=
               check cache (ch_nonce ch) (dc_nonce_count cl + 1) now (cx_nonce_ttl_seconds c) in
             (cache', if (fresh : bool) then Ok tt else Err ReplayDetected)
         end.
Proof.
  destruct Hready as [Hmd Hqop].
  destruct (generate_nonce_Ok (cx_secret c) now0 (cx_nonce_counter c)) as (tag & Ht & Hl & Hg).
  unfold generate_challenge. rewrite Hg.
  set (nonce := hex_encode _) in *. 
  set (ch := mkDigestChallenge (cx_realm c) nonce None false (cx_preferred_algorithm c) (cx_qop c)).
  exists (mkContext (cx_realm c) (cx_secret c) (wrap64 (cx_nonce_counter c + 1)) (cx_allow_md5 c)
            (cx_preferred_algorithm c) (cx_qop c) (cx_nonce_ttl_seconds c)), ch.
  assert (validate_nonce nonce (cx_secret c) now (cx_nonce_ttl_seconds c) = Ok now0) as Hvn.
  { erewrite validate_generated by done. unfold sat_sub.
    destruct (Z.ltb_spec (cx_nonce_ttl_seconds c) (Z.max 0 (now - now0))); [lia | done]. }
  assert (bool_decide (cx_preferred_algorithm c = Md5) && negb (dc_allow_md5 cl) = false) as Hmd1.
  { destruct (bool_decide_reflect (cx_preferred_algorithm c = Md5)) as [Hp|]; [|done].
    by destruct (Hmd Hp) as [-> _]. }
  unfold authorize. rewrite !validate_token_ok by (done || apply hex_no_line_break). 
  cbn [ch ch_algorithm ch_qop ch_opaque ch_realm ch_nonce]. rewrite Hmd1.
  destruct (cx_qop c) as [[]|] eqn:Hq; [| done |]; cbn [bool_decide].
  - rewrite bool_decide_false, bool_decide_true by done.
    destruct (Z.ltb_spec U64_MAX (dc_nonce_count cl + 1)); [lia|].
    do 2 eexists. split; [done|]. split; [done|].
    erewrite validate_matching; [| |exact Hvn|done]; [done|].
    unfold policy_ok. simpl. rewrite Hq. naive_solver.
  - rewrite Hqop, (bool_decide_false (None = Some AuthInt)), bool_decide_false by done.
    do 2 eexists. split; [done|]. split; [done|].
    erewrite validate_matching; [| |exact Hvn|done]; [done|].
    unfold policy_ok. simpl. rewrite Hq. naive_solver.
Qed.

(** A client configured with [qop=auth] answers a challenge that offers no
    [qop] with one anyway (RFC 2617 allows it only if the challenge offered it),
    and the server of the same library rejects the response it provoked. *)
Theorem client_qop_fallback_rejected c cl now0 username password method uri cnonce cache now
    (Hu : no_line_break username = true) (Huri : no_line_break uri = true)
    (Hcn : no_line_break cnonce = true) (Hrealm : no_line_break (cx_realm c) = true)
    (Hmd : cx_preferred_algorithm c <> Md5) (Hnone : cx_qop c = None)
    (Hauth : dc_qop cl = Some Auth) (Hcount : 0 <= dc_nonce_count cl < U64_MAX) :
  exists c' ch cl' r,
    generate_challenge c now0 = (c', Ok ch)
    /\ authorize cl username password (Method_str method) uri ch cnonce = (cl', Ok r)
    /\ validate c r method uri password cache now = (cache, Err InvalidQop).
Proof.
  destruct (generate_nonce_Ok (cx_secret c) now0 (cx_nonce_counter c)) as (tag & Ht & Hl & Hg).
  unfold generate_challenge. rewrite Hg, Hnone.
  do 4 eexists. split; [done|]. split.
  - unfold authorize. cbn [ch_opaque ch_realm ch_nonce ch_algorithm ch_qop].
    rewrite !validate_token_ok by (done || apply hex_no_line_break).
    rewrite (bool_decide_false (cx_preferred_algorithm c = Md5)), bool_decide_false by done. cbn [andb].
    rewrite Hauth, bool_decide_false, bool_decide_true by done.
    destruct (Z.ltb_spec U64_MAX (dc_nonce_count cl + 1)); [lia | done].
  - unfold validate. simpl. rewrite bool_decide_false by done. simpl.
    rewrite bool_decide_true by done. simpl. rewrite !String.eqb_refl. simpl. by rewrite Hnone.
Qed.

(** ** Uniqueness of nonces *)

Fixpoint issue (c : DigestContext) (times : list Z) : list (result DigestChallenge DigestError) :=
  match times with
  | [] => []
  | now :: times => let '(c, r) := generate_challenge c now in r :: issue c times
  end.

Lemma issue_length times : forall c, length (issue c times) = length times.
Proof. induction times as [|t times IH]; intros c; simpl; [done | by rewrite IH]. Qed.

Lemma nonce_counter_inj secret ts1 ts2 n1 n2 nonce :
  is_u64 n1 -> is_u64 n2 ->
  generate_nonce secret ts1 n1 = Ok nonce -> generate_nonce secret ts2 n2 = Ok nonce -> n1 = n2.
Proof.
  intros H1 H2 Hg1 Hg2.
  destruct (generate_nonce_Ok secret ts1 n1) as (tag1 & _ & _ & E1).
  destruct (generate_nonce_Ok secret ts2 n2) as (tag2 & _ & _ & E2).
  rewrite E1 in Hg1. rewrite E2 in Hg2. injection Hg1 as <-. injection Hg2 as He.
  apply (f_equal hex_decode) in He. rewrite !hex_roundtrip in He. apply (inj Some) in He.
  apply (f_equal (str_drop 8)) in He. rewrite !str_drop_app in He by apply to_be_bytes_length.
  apply (f_equal (str_take 8)) in He. rewrite !str_take_app in He by apply to_be_bytes_length.
  rewrite <- (from_to_be_bytes n1), <- (from_to_be_bytes n2), He by done. done.
Qed.

Definition nonce_of (r : result DigestChallenge DigestError) : option string :=
  match r with Ok ch => Some (ch_nonce ch) | Err _ => None end.

(** The nonces issued from counter [k] on are those of counters [k, k+1, ...]. *)
Lemma issue_nonces c times i r :
  is_u64 (cx_nonce_counter c) -> cx_nonce_counter c + Z.of_nat (length times) <= 2 ^ 64 ->
  issue c times !! i = Some r ->
  exists now nonce, generate_nonce (cx_secret c) now (cx_nonce_counter c + Z.of_nat i) = Ok nonce
    /\ nonce_of r = Some nonce.
Proof.
  revert c i. induction times as [|now times IH]; intros c i Hu Hlen; [done|].
  cbn [issue]. destruct (generate_challenge c now) as [c' r'] eqn:Hg.
  unfold generate_challenge in Hg. injection Hg as <- <-. destruct i as [|i]; simpl.
  - intros [= <-]. destruct (generate_nonce_Ok (cx_secret c) now (cx_nonce_counter c)) as (tag & _ & _ & E).
    exists now. eexists. rewrite Z.add_0_r, E. done.
  - intros Hi. unfold is_u64, U64_MAX in Hu. simpl in Hlen.
    assert (length times <> 0%nat).
    { destruct times; [by simpl in Hi | done]. }
    assert (is_u64 (cx_nonce_counter c + 1)) as Hu' by (unfold is_u64, U64_MAX; lia).
    apply IH in Hi; simpl; rewrite ?wrap64_id in * by done; [|done | lia].
    destruct Hi as (now' & nonce & Hn & Hr). exists now', nonce. split; [|done]. simpl in Hn.
    rewrite <- Hn. f_equal. lia.
Qed.

(** Every challenge succeeds and no two challenges of a context carry the
    same nonce, also when they are issued in the same second: until the 64-bit
    counter wraps, nonces at different positions differ. *)
Theorem challenges_unique c times i j r1 r2
    (Hu : is_u64 (cx_nonce_counter c))
    (Hlen : cx_nonce_counter c + Z.of_nat (length times) <= 2 ^ 64)
    (Hi : issue c times !! i = Some r1) (Hj : issue c times !! j = Some r2) (Hne : i <> j) :
  exists n1 n2, nonce_of r1 = Some n1 /\ nonce_of r2 = Some n2 /\ n1 <> n2.
Proof.
  assert (forall k r, issue c times !! k = Some r -> (k < length times)%nat) as Hk.
  { intros k r Hr%lookup_lt_Some. by rewrite issue_length in Hr. }
  pose proof (Hk i r1 Hi). pose proof (Hk j r2 Hj).
  destruct (issue_nonces _ _ _ _ Hu Hlen Hi) as (t1 & n1 & Hg1 & E1).
  destruct (issue_nonces _ _ _ _ Hu Hlen Hj) as (t2 & n2 & Hg2 & E2).
  exists n1, n2. split; [done|]. split; [done|]. intros ->. apply Hne.
  unfold is_u64, U64_MAX in Hu.
  assert (cx_nonce_counter c + Z.of_nat i = cx_nonce_counter c + Z.of_nat j); [|lia].
  eapply nonce_counter_inj; [..|exact Hg1|exact Hg2]; unfold is_u64, U64_MAX; lia.
Qed.
End props.

(** ** An instance of the cryptographic interface

    The real hexadecimal codec; a keyed checksum stands for the hash functions,
    which the theorems only use through their laws. *)

Fixpoint hexenc (s : string) : string :=
  match s with
  | EmptyString => ""
  | String a s => String (hex_char (byte a / 16)) (String (hex_char (byte a mod 16)) (hexenc s))
  end.
Fixpoint hexdec (s : string) : option string :=
  match s with
  | EmptyString => Some ""
  | String a (String b s) =>
      letopt x := hex_val a in
      letopt y := hex_val b in
      letopt t := hexdec s in
      Some (String (ascii_of_N (Z.to_N (x * 16 + y))) t)
  | String _ EmptyString => None
  end.

Fixpoint checksum (acc : Z) (s : string) : Z :=
  match s with
  | EmptyString => acc
  | String a s => checksum ((acc * 257 + byte a + 1) mod 2 ^ 128) s
  end.
Definition checksum32 (s : string) : string := be_bytes 32 (checksum 7 s).

#[local] Instance toy_crypto : Crypto := {
  md5_digest s := checksum32 s;
  sha256_digest s := checksum32 (String "2" s);
  sha512_digest s := checksum32 (String "5" s);
  hmac_sha256 key msg := Ok (checksum32 (key +:+ msg));
  hex_encode := hexenc;
  hex_decode := hexdec
}.

Lemma hexdec_hexenc s : hexdec (hexenc s) = Some s.
Proof.
  induction s as [|a s IH]; [done|]. cbn [hexenc hexdec]. pose proof (byte_range a).
  pose proof (Z.div_pos (byte a) 16). pose proof (Z.div_lt_upper_bound (byte a) 16 16).
  pose proof (Z.mod_pos_bound (byte a) 16).
  rewrite !hex_val_char by lia. rewrite IH. do 2 f_equal.
  replace (byte a / 16 * 16 + byte a mod 16) with (byte a) by (pose proof (Z.div_mod (byte a) 16); lia).
  unfold byte. rewrite N2Z.id. apply ascii_N_embedding.
Qed.

Lemma hexenc_app a b : hexenc (a +:+ b) = hexenc a +:+ hexenc b.
Proof. induction a as [|c a IH]; simpl; [done | by rewrite IH]. Qed.

Lemma hexenc_shape a :
  String.length (hexenc a) = (2 * String.length a)%nat /\ str_all is_hex_char (hexenc a) = true.
Proof.
  induction a as [|c a [IHl IHs]]; [done|]. pose proof (byte_range c).
  pose proof (Z.div_pos (byte c) 16). pose proof (Z.div_lt_upper_bound (byte c) 16 16).
  pose proof (Z.mod_pos_bound (byte c) 16). simpl. rewrite IHl, IHs. split; [lia|].
  change is_hex_char with is_hex_digit. by rewrite !hex_char_digit by lia.
Qed.

#[local] Instance toy_laws : CryptoLaws.
Proof.
  split.
  - intros key msg. eexists. split; [reflexivity|]. apply be_bytes_length.
  - apply hexenc_app.
  - intros a. apply hexenc_shape.
  - intros a. apply hexenc_shape.
  - apply hexdec_hexenc.
Qed.

(** ** Witnesses *)

Definition sample_secret : string := "0123456789abcdef0123456789abcdef".
Definition sample_context : DigestContext :=
  mkContext "3402000000" sample_secret 0 false Sha256 (Some Auth) 300.

Lemma nonce_roundtrip_witness :
  exists nonce, generate_nonce sample_secret 1000 7 = Ok nonce
    /\ String.length nonce = 64%nat
    /\ validate_nonce nonce sample_secret 1200 300
       = if 300 <? sat_sub 1200 1000 then Err StaleNonce else Ok 1000.
Proof. apply (nonce_roundtrip sample_secret 1000 7 1200 300). vm_compute. split; discriminate. Defined.

Definition sample_nonce : string :=
  match generate_nonce sample_secret 1000 0 with Ok n => n | Err _ => "" end.

Lemma nonce_authentic_witness :
  exists ts_bytes counter_bytes tag,
    hex_decode sample_nonce = Some (ts_bytes +:+ counter_bytes +:+ str_take 16 tag)
    /\ String.length ts_bytes = 8%nat /\ String.length counter_bytes = 8%nat
    /\ hmac_sha256 sample_secret (ts_bytes +:+ counter_bytes) = Ok tag
    /\ 1000 = from_be_bytes ts_bytes /\ 1100 - 1000 <= 300.
Proof. apply (nonce_authentic sample_nonce sample_secret 1100 300 1000). vm_compute. reflexivity. Defined.

Definition sample_auth : DigestClient * result DigestResponse DigestError :=
  match (generate_challenge sample_context 1000).2 with
  | Ok ch => authorize digest_client_new "alice" "pw" "REGISTER" "sip:3402000000" ch "cn"
  | Err e => (digest_client_new, Err e)
  end.
Definition sample_good : DigestResponse :=
  match sample_auth.2 with Ok r => r | Err _ => sample_digest_response end.
Definition sample_validated : DigestReplayCache :=
  (validate sample_context sample_good REGISTER "sip:3402000000" "pw" (replay_cache_new 8) 1100).1.

Lemma acceptance_sound_witness :
  (validate sample_context sample_good REGISTER "sip:3402000000" "pw" (replay_cache_new 8) 1100).2 = Ok tt
  /\ policy_ok sample_context sample_good "sip:3402000000"
  /\ nonce_fresh (dr_nonce sample_good) sample_secret 1100 300
  /\ hex_decode (dr_response sample_good)
     = Some (rfc_digest Sha256 (dr_username sample_good) (cx_realm sample_context) "pw" (dr_nonce sample_good)
               "REGISTER" "sip:3402000000" (auth_of sample_good))
  /\ (dr_qop sample_good = Some Auth ->
       fresh_count (replay_cache_new 8) (dr_nonce sample_good) (default 0 (dr_nc sample_good)) 1100 300).
Proof.
  assert ((validate sample_context sample_good REGISTER "sip:3402000000" "pw" (replay_cache_new 8) 1100).2 = Ok tt) as Hok
    by (vm_compute; reflexivity).
  split; [exact Hok|].
  exact (proj1 (acceptance_sound sample_context sample_good REGISTER "sip:3402000000" "pw" (replay_cache_new 8) 1100 0
    (cache_ok_new 0 8)) Hok).
Defined.

Lemma rejection_keeps_cache_witness :
  (validate sample_context sample_good REGISTER "sip:3402000000" "other" sample_validated 1100).1
  = sample_validated.
Proof.
  apply (rejection_keeps_cache sample_context sample_good REGISTER "sip:3402000000" "other"
           sample_validated 1100 _ InvalidResponse).
  - vm_compute. reflexivity.
  - discriminate.
Defined.

(** A guess with a wrong password goes before, a first replay in between. *)
Definition sample_attempt (password : string) (now : Z) : Attempt :=
  mkAttempt sample_good REGISTER "sip:3402000000" password now.
Lemma accepted_not_replayed_witness :
  exists e,
    (attempt sample_context
       (attempts sample_context
          (attempt sample_context (attempts sample_context (replay_cache_new 8) [sample_attempt "other" 1099])
             (sample_attempt "pw" 1100)).1 [sample_attempt "pw" 1101]) (sample_attempt "pw" 1102)).2 = Err e
    /\ (e = ReplayDetected \/ e = StaleNonce).
Proof.
  apply (accepted_not_replayed sample_context 8 [sample_attempt "other" 1099] sample_good REGISTER "sip:3402000000" "pw" 1100
           [sample_attempt "pw" 1101] 1102 1000).
  - simpl. lia.
  - vm_compute. split; discriminate.
  - vm_compute. reflexivity.
  - vm_compute. reflexivity.
  - vm_compute. reflexivity.
  - repeat constructor; simpl; lia.
  - apply Nat.leb_le. vm_compute. reflexivity.
Defined.

Lemma client_server_agree_witness :
  exists c' ch cl' r,
    generate_challenge sample_context 1000 = (c', Ok ch)
    /\ authorize digest_client_new "alice" "pw" "REGISTER" "sip:3402000000" ch "cn" = (cl', Ok r)
    /\ validate sample_context r REGISTER "sip:3402000000" "pw" (replay_cache_new 8) 1100
       = let '(cache', fresh) := check (replay_cache_new 8) (ch_nonce ch) 1 1100 300 in
         (cache', if (fresh : bool) then Ok tt else Err ReplayDetected).
Proof.
  apply (client_server_agree sample_context digest_client_new 1000 1100 "alice" "pw" REGISTER
           "sip:3402000000" "cn" (replay_cache_new 8)).
  - reflexivity.
  - reflexivity.
  - reflexivity.
  - reflexivity.
  - split; [discriminate|]. vm_compute. split; [discriminate | reflexivity].
  - vm_compute. split; discriminate.
  - simpl. lia.
  - simpl. lia.
Defined.

Definition context_without_qop : DigestContext :=
  mkContext "3402000000" sample_secret 0 false Sha256 None 300.

Lemma client_qop_fallback_rejected_witness :
  exists c' ch cl' r,
    generate_challenge context_without_qop 1000 = (c', Ok ch)
    /\ authorize (mkDigestClient false Sha256 (Some Auth) 0) "alice" "pw" "REGISTER"
         "sip:3402000000" ch "cn" = (cl', Ok r)
    /\ validate context_without_qop r REGISTER "sip:3402000000" "pw" (replay_cache_new 8) 1100
       = (replay_cache_new 8, Err InvalidQop).
Proof.
  apply (client_qop_fallback_rejected context_without_qop (mkDigestClient false Sha256 (Some Auth) 0)
           1000 "alice" "pw" REGISTER "sip:3402000000" "cn" (replay_cache_new 8) 1100).
  - reflexivity.
  - reflexivity.
  - reflexivity.
  - reflexivity.
  - discriminate.
  - reflexivity.
  - reflexivity.
  - vm_compute. split; [discriminate | reflexivity].
Defined.

Lemma challenges_unique_witness :
  exists n1 n2,
    nonce_of ((generate_challenge sample_context 1000).2) = Some n1
    /\ nonce_of ((generate_challenge (generate_challenge sample_context 1000).1 1000).2) = Some n2
    /\ n1 <> n2.
Proof.
  apply (challenges_unique sample_context [1000; 1000] 0 1).
  - vm_compute. split; discriminate.
  - vm_compute. discriminate.
  - reflexivity.
  - reflexivity.
  - discriminate.
Defined.
