(* ===== verification/Domain.v ===== *)
(** * The domain layer: errors, ports and commands

    [cheetah-domain] keeps the aggregates of the control plane.  This file has
    what they share: [DomainError] with the clamping of its texts
    ([error.rs], [clamp_str] of [cheetah-signal-types]), the [Clock] and
    [IdGenerator] ports as type classes over an abstract world, the monad in
    which the [&mut self] methods of an aggregate are written, and the command
    value object with its validation ([command.rs]).

    A method of an aggregate is a computation [dm S W A]: from the aggregate
    and the world (clock and id generator) it gives [Ok] or [Err], the
    aggregate as the method leaves it {e also} on the error path, and the
    world.  Timestamps are nanoseconds since the epoch, identifiers are the
    128-bit number of their UUID, an [f64] is the [spec_float] of its value. *)

From Stdlib Require Export SpecFloat.
From S2P Require Import Prelude RustStr.

Open Scope string_scope.
Open Scope list_scope.
Open Scope Z_scope.

(** ** Characters of a UTF-8 string *)

(** [char::len_utf8], from the lead byte. *)
Definition len_utf8 (a : ascii) : nat :=
  if byte a <? 128 then 1%nat else
  if byte a <? 224 then 2%nat else
  if byte a <? 240 then 3%nat else 4%nat.

(** The loop of [clamp_str] over [char_indices]; every character has a byte,
    so the length of the string bounds the number of rounds. *)
Fixpoint clamp_loop (fuel : nat) (max i end_ : nat) (s : string) : nat :=
  match fuel, s with
  | S fuel, String a _ =>
      if (max <? i + len_utf8 a)%nat then end_
      else clamp_loop fuel max (i + len_utf8 a) (i + len_utf8 a) (str_drop (len_utf8 a) s)
  | _, _ => end_
  end.

Definition clamp_str (s : string) (max : nat) : string :=
  if (String.length s <=? max)%nat then s
  else str_take (clamp_loop (String.length s) max 0 0 s) s.

(** [s.chars().take(n).collect()]. *)
Fixpoint chars_take (n : nat) (s : string) : string :=
  match n, s with
  | S n, String a _ =>
      str_take (len_utf8 a) s +:+ chars_take n (str_drop (len_utf8 a) s)
  | _, _ => ""
  end.

Definition MAX_FROM_STR_DISPLAY_LEN : nat := 64.
Definition truncate_for_error (s : string) : string := chars_take MAX_FROM_STR_DISPLAY_LEN s.

(** ** Errors *)

Definition MAX_DOMAIN_ERROR_MESSAGE_BYTES : nat := 1024.
Definition MAX_DOMAIN_ERROR_FIELD_BYTES : nat := 128.
Definition MAX_DOMAIN_ERROR_ID_BYTES : nat := 256.

Definition clamp_msg (m : string) : string := clamp_str m MAX_DOMAIN_ERROR_MESSAGE_BYTES.
Definition clamp_field (m : string) : string := clamp_str m MAX_DOMAIN_ERROR_FIELD_BYTES.
Definition clamp_id (m : string) : string := clamp_str m MAX_DOMAIN_ERROR_ID_BYTES.

Inductive DomainError :=
| InvalidTransition (entity from to : string)
| ConcurrentModification (expected found : Z)
| NotFound (entity id : string)
| NoOwner (device_id : string)
| StaleOwner (expected found : Z)
| InvalidArgument (message : string)
| Unavailable (message : string)
| AlreadyTerminal (entity status : string)
| Internal (message : string)
| Unsupported (message : string).

Definition not_found (entity id : string) : DomainError :=
  NotFound (clamp_field entity) (clamp_id id).
Definition invalid_argument (message : string) : DomainError :=
  InvalidArgument (clamp_msg message).
Definition invalid_transition (entity from to : string) : DomainError :=
  InvalidTransition (clamp_field entity) (clamp_field from) (clamp_field to).
Definition already_terminal (entity status : string) : DomainError :=
  AlreadyTerminal (clamp_field entity) (clamp_field status).

Definition unavailable (message : string) : DomainError := Unavailable (clamp_msg message).
Definition internal (message : string) : DomainError := Internal (clamp_msg message).
Definition not_supported (message : string) : DomainError := Unsupported (clamp_msg message).

(** ** Ports *)

Definition Uuid : Type := Z.
Definition UtcTimestamp : Type := Z.
Definition is_nil (u : Uuid) : bool := u =? 0.

Class Clock (W : Type) := now_wall : W -> UtcTimestamp * W.

Class IdGenerator (W : Type) := {
  generate_operation_id : W -> Uuid * W;
  generate_message_id : W -> Uuid * W
}.

(** [impl Display for Uuid] of the [uuid] crate. *)
Class UuidDisplay := uuid_to_string : Uuid -> string.

(** The implementations of the test fixtures: a clock that stands still until
    it is set, and identifiers from a counter ([Uuid::from_u64_pair(0, n)]). *)
Record InMemoryWorld := { wall_ms : Z; counter : Z }.

Definition InMemoryClock_now_wall (w : InMemoryWorld) : UtcTimestamp * InMemoryWorld :=
  (wall_ms w * NANOS_PER_MILLI, w).
Definition InMemoryIdGenerator_next_uuid (w : InMemoryWorld) : Uuid * InMemoryWorld :=
  (counter w, {| wall_ms := wall_ms w; counter := wrap64 (counter w + 1) |}).

#[global] Instance in_memory_clock : Clock InMemoryWorld := InMemoryClock_now_wall.
#[global] Instance in_memory_ids : IdGenerator InMemoryWorld := {|
  generate_operation_id := InMemoryIdGenerator_next_uuid;
  generate_message_id := InMemoryIdGenerator_next_uuid
|}.

(** ** Methods of an aggregate *)

Definition dm (S W A : Type) : Type := S -> W -> result A DomainError * S * W.

Section dm.
Context {S W : Type}.

Definition dm_ret {A} (a : A) : dm S W A := fun s w => (Ok a, s, w).
Definition dm_err {A} (e : DomainError) : dm S W A := fun s w => (Err e, s, w).
(** Sequencing; on an error the method returns with [self] as it is. *)
Definition dm_bind {A B} (m : dm S W A) (k : A -> dm S W B) : dm S W B := fun s w =>
  match m s w with
  | (Ok a, s1, w1) => k a s1 w1
  | (Err e, s1, w1) => (Err e, s1, w1)
  end.
Definition dm_get : dm S W S := fun s w => (Ok s, s, w).
Definition dm_mod (f : S -> S) : dm S W unit := fun s w => (Ok tt, f s, w).
(** [r?] for a result that does not involve [self]. *)
Definition dm_try {A} (r : result A DomainError) : dm S W A := fun s w => (r, s, w).
Definition dm_port {A} (f : W -> A * W) : dm S W A := fun s w =>
  let '(a, w1) := f w in (Ok a, s, w1).
End dm.

Notation "'let!' x := m 'in' k" := (dm_bind m (fun x => k))
  (at level 10, x pattern, m at level 100, k at level 200).
Notation "'do!' m 'in' k" := (dm_bind m (fun _ => k))
  (at level 10, m at level 100, k at level 200).

(** A method of an element of a vector of the aggregate, called through a
    [&mut] reference to the element at index [i]. *)
Definition dm_elem {S T W A} (get : S -> list T) (set : list T -> S -> S)
    (i : nat) (t : T) (m : dm T W A) : dm S W A := fun s w =>
  let '(r, t1, w1) := m t w in (r, set (<[i := t1]> (get s)) s, w1).

(** ** Context of a request *)

Inductive PrincipalKind := PkUser | PkService | PkPlugin | PkDevice | PkUnknown.
Record Principal := { pr_id : string; pr_kind : PrincipalKind; pr_scopes : list string }.

Inductive ResourceKind :=
| RkTenant | RkDevice | RkChannel | RkEndpoint | RkProtocolSession | RkMediaSession
| RkMediaBinding | RkOperation | RkEvent | RkPlugin | RkNode | RkMediaNode.
(** [ResourceId]: an identifier tagged with the kind of resource it names. *)
Record ResourceId := { ri_kind : ResourceKind; ri_uuid : Uuid }.
Record ResourceRef := { rr_tenant_id : Uuid; rr_kind : ResourceKind; rr_id : ResourceId }.

Record RequestContext := {
  rc_tenant_id : Uuid;
  rc_principal : Principal;
  rc_message_id : Uuid;
  rc_correlation_id : Uuid;
  rc_traceparent : option string;
  rc_tracestate : option string;
  rc_deadline : option UtcTimestamp;
  rc_node_id : option Uuid;
  rc_source_ip : option string
}.

(** ** Commands *)

Definition MAX_IDEMPOTENCY_KEY_BYTES : Z := 256.
Definition MAX_PRINCIPAL_ID_BYTES : Z := 256.
Definition MAX_QUERY_CONFIG_TYPE_BYTES : Z := 128.
Definition MAX_DEVICE_CONTROL_PARAM_BYTES : Z := 1024.

(** The operations of [f64]. *)
Module F64.
Definition prec : Z := 53.
Definition emax : Z := 1024.
Definition add (a b : spec_float) : spec_float := SFadd prec emax a b.
Definition sub (a b : spec_float) : spec_float := SFsub prec emax a b.
Definition mul (a b : spec_float) : spec_float := SFmul prec emax a b.
Definition div (a b : spec_float) : spec_float := SFdiv prec emax a b.
(** [u64 as f64]: round to nearest even. *)
Definition of_u64 (n : Z) : spec_float := binary_normalize prec emax n 0 false.
Definition zero : spec_float := S754_zero false.
Definition one : spec_float := of_u64 1.
(** [f64::min]. *)
Definition min (a b : spec_float) : spec_float :=
  match a, b with
  | S754_nan, _ => b
  | _, S754_nan => a
  | _, _ => if SFltb b a then b else a
  end.
(** [f64::clamp], which keeps a NaN. *)
Definition clamp (x lo hi : spec_float) : spec_float :=
  let x := if SFltb x lo then lo else x in if SFltb hi x then hi else x.
(** [x.round() as i8]: halves away from zero, then saturating; a NaN is zero. *)
Definition round_i8 (x : spec_float) : Z :=
  match x with
  | S754_zero _ | S754_nan => 0
  | S754_infinity s => if s then -128 else 127
  | S754_finite s m e =>
      let n := if 0 <=? e then Zpos m * 2 ^ e else (Zpos m + 2 ^ (- e - 1)) / 2 ^ (- e) in
      Z.max (-128) (Z.min 127 (if s then - n else n))
  end.
End F64.

(** [f64::is_finite] and [x < 0.0]. *)
Definition f64_is_finite (x : spec_float) : bool :=
  match x with S754_zero _ | S754_finite _ _ _ => true | _ => false end.
Definition f64_lt_zero (x : spec_float) : bool := SFltb x (S754_zero false).

Definition validate_speed (speed : spec_float) : result unit DomainError :=
  if negb (f64_is_finite speed) || f64_lt_zero speed
  then Err (invalid_argument "speed must be a non-negative finite number")
  else Ok tt.

Definition validate_scale (scale : spec_float) : result unit DomainError :=
  if negb (f64_is_finite scale) || f64_lt_zero scale
  then Err (invalid_argument "scale must be a non-negative finite number")
  else Ok tt.

Record IdempotencyScope := {
  is_tenant_id : Uuid;
  is_principal_id : string;
  is_target : ResourceRef;
  is_idempotency_key : string
}.

Definition IdempotencyScope_new (tenant_id : Uuid) (principal_id : string)
    (target : ResourceRef) (idempotency_key : string) : result IdempotencyScope DomainError :=
  if is_empty_str idempotency_key
  then Err (invalid_argument "idempotency_key must not be empty")
  else if MAX_IDEMPOTENCY_KEY_BYTES <? str_len idempotency_key
  then Err (invalid_argument "idempotency_key must not exceed 256 bytes")
  else if MAX_PRINCIPAL_ID_BYTES <? str_len principal_id
  then Err (invalid_argument "principal_id must not exceed 256 bytes")
  else Ok {| is_tenant_id := tenant_id; is_principal_id := principal_id;
             is_target := target; is_idempotency_key := idempotency_key |}.

Inductive MediaPurpose := MpUnknown | MpLive | MpPlayback | MpTalk | MpBroadcast.

Inductive MediaControl :=
| McPlay | McPause | McStop
| McSeek (offset_ms : Z)
| McScale (value : spec_float).

Inductive PtzDirection :=
| PtzStop | PtzUp | PtzDown | PtzLeft | PtzRight | PtzUpLeft | PtzUpRight
| PtzDownLeft | PtzDownRight | PtzZoomIn | PtzZoomOut.

Inductive QueryKind :=
| QkCatalog | QkDeviceInfo | QkDeviceStatus | QkRecordInfo | QkPresetQuery | QkConfigDownload.
Record QueryCommand := {
  qc_kind : QueryKind;
  qc_channel_id : option Uuid;
  qc_start_time : option UtcTimestamp;
  qc_end_time : option UtcTimestamp;
  qc_config_type : option string;
  qc_scale : option spec_float
}.

Inductive PresetAction := PaGoto | PaSet | PaDelete | PaList.
Record PresetCommand := { pc_channel_id : Uuid; pc_action : PresetAction; pc_preset_id : Z }.

Inductive DeviceControlKind :=
| DkGuard | DkAlarmReset | DkRecord | DkTeleBoot | DkIFrame | DkDeviceConfig.
Record DeviceControlCommand := {
  dc_kind : DeviceControlKind;
  dc_channel_id : option Uuid;
  dc_enabled : option bool;
  dc_param : option string
}.

Inductive CommandPayload :=
| StartLive (media_session_id channel_id media_node_id : Uuid) (purpose : MediaPurpose)
| StartPlayback (media_session_id channel_id media_node_id : Uuid)
    (start_time end_time : UtcTimestamp) (scale : spec_float)
| StartTalk (media_session_id channel_id media_node_id : Uuid)
| StartBroadcast (media_session_id channel_id media_node_id : Uuid)
| StopMediaSession (media_session_id : Uuid)
| ControlPlayback (media_session_id : Uuid) (command : MediaControl)
| Ptz (channel_id : Uuid) (direction : PtzDirection) (speed : spec_float)
| Query (query : QueryCommand)
| Preset (preset : PresetCommand)
| DeviceControl (control : DeviceControlCommand).

Definition CommandPayload_kind (p : CommandPayload) : string :=
  match p with
  | StartLive _ _ _ _ => "StartLive"
  | StartPlayback _ _ _ _ _ _ => "StartPlayback"
  | StartTalk _ _ _ => "StartTalk"
  | StartBroadcast _ _ _ => "StartBroadcast"
  | StopMediaSession _ => "StopMediaSession"
  | ControlPlayback _ _ => "ControlPlayback"
  | Ptz _ _ _ => "Ptz"
  | Query _ => "Query"
  | Preset _ => "Preset"
  | DeviceControl _ => "DeviceControl"
  end.

(** The Julian days of [Date::MAX] and [Date::MIN] of the [time] crate; the
    instance below has those of its documented range, the years -9999 to 9999. *)
Class DateRange := { date_max_julian : Z; date_min_julian : Z }.
Definition MAX_SEEK_OFFSET_MS `{DateRange} : Z :=
  (date_max_julian - date_min_julian) * 24 * 60 * 60 * 1000.

Definition validate_seek_offset `{DateRange} (offset_ms : Z) : result unit DomainError :=
  if offset_ms <? 0 then Err (invalid_argument "seek offset must not be negative")
  else if MAX_SEEK_OFFSET_MS <? offset_ms
  then Err (invalid_argument "seek offset exceeds the maximum representable range")
  else Ok tt.

Definition MediaControl_validate `{DateRange} (c : MediaControl) : result unit DomainError :=
  match c with
  | McScale value => validate_scale value
  | McSeek offset_ms => validate_seek_offset offset_ms
  | _ => Ok tt
  end.

Definition longer_than (max : Z) (o : option string) : bool :=
  match o with Some s => max <? str_len s | None => false end.

Definition QueryCommand_validate (q : QueryCommand) : result unit DomainError :=
  if longer_than MAX_QUERY_CONFIG_TYPE_BYTES (qc_config_type q)
  then Err (invalid_argument "config_type must not exceed 128 bytes")
  else match qc_scale q with
       | Some scale => validate_scale scale
       | None => Ok tt
       end.

Definition DeviceControlCommand_validate (c : DeviceControlCommand) : result unit DomainError :=
  if longer_than MAX_DEVICE_CONTROL_PARAM_BYTES (dc_param c)
  then Err (invalid_argument "param must not exceed 1024 bytes")
  else Ok tt.

Definition CommandPayload_validate `{DateRange} (p : CommandPayload) : result unit DomainError :=
  match p with
  | StartPlayback _ _ _ _ _ scale => validate_scale scale
  | ControlPlayback _ command => MediaControl_validate command
  | Ptz _ _ speed => validate_speed speed
  | Query query => QueryCommand_validate query
  | DeviceControl control => DeviceControlCommand_validate control
  | _ => Ok tt
  end.

Record Command := {
  cmd_command_id : Uuid;
  cmd_message_id : Uuid;
  cmd_operation_id : Uuid;
  cmd_step_id : option Uuid;
  cmd_tenant_id : Uuid;
  cmd_device_id : Uuid;
  cmd_target : ResourceRef;
  cmd_payload : CommandPayload;
  cmd_idempotency_key : string;
  cmd_idempotency_scope : IdempotencyScope;
  cmd_deadline : option UtcTimestamp;
  cmd_expected_owner_epoch : Z;
  cmd_requested_by : Principal;
  cmd_correlation_id : Uuid;
  cmd_causation_id : Uuid;
  cmd_traceparent : option string;
  cmd_tracestate : option string
}.

Definition Command_new {W} `{IdGenerator W, DateRange} (operation_id : Uuid) (step_id : option Uuid)
    (tenant_id device_id : Uuid) (idempotency_scope : IdempotencyScope) (target : ResourceRef)
    (payload : CommandPayload) (deadline : option UtcTimestamp) (expected_owner_epoch : Z)
    (requested_by : Principal) (correlation_id causation_id : Uuid)
    (traceparent tracestate : option string) (w : W) : result Command DomainError * W :=
  match CommandPayload_validate payload with
  | Err e => (Err e, w)
  | Ok _ =>
      let '(command_id, w) := generate_message_id w in
      let '(message_id, w) := generate_message_id w in
      (Ok {| cmd_command_id := command_id; cmd_message_id := message_id;
             cmd_operation_id := operation_id; cmd_step_id := step_id;
             cmd_tenant_id := tenant_id; cmd_device_id := device_id; cmd_target := target;
             cmd_payload := payload;
             cmd_idempotency_key := is_idempotency_key idempotency_scope;
             cmd_idempotency_scope := idempotency_scope; cmd_deadline := deadline;
             cmd_expected_owner_epoch := expected_owner_epoch; cmd_requested_by := requested_by;
             cmd_correlation_id := correlation_id; cmd_causation_id := causation_id;
             cmd_traceparent := traceparent; cmd_tracestate := tracestate |}, w)
  end.

Definition default_date_range : DateRange :=
  {| date_max_julian := 5373484; date_min_julian := -1930999 |}.

(** ** Lemmas *)

Lemma len_utf8_pos a : (1 <= len_utf8 a)%nat.
Proof. unfold len_utf8. repeat case_match; lia. Qed.

Lemma str_take_bound n s : (String.length (str_take n s) <= n)%nat.
Proof. revert s. induction n as [|n IH]; intros [|a s]; simpl; try lia. specialize (IH s). lia. Qed.

Lemma str_take_prefix n s : exists t, s = str_take n s +:+ t.
Proof.
  revert s. induction n as [|n IH]; intros [|a s]; simpl; eauto.
  destruct (IH s) as [t Ht]. exists t. by f_equal.
Qed.

Lemma clamp_loop_le fuel max i e s : (e <= max)%nat -> (clamp_loop fuel max i e s <= max)%nat.
Proof.
  revert i e s. induction fuel as [|fuel IH]; intros i e [|a s] He; simpl; try done.
  destruct (Nat.ltb_spec max (i + len_utf8 a)); [done|]. apply IH. lia.
Qed.

(** A clamped text is a prefix of the text, no longer than the limit, and the
    text itself when that fits. *)
Lemma clamp_str_prefix s max : exists t, s = clamp_str s max +:+ t.
Proof.
  unfold clamp_str. case_match; [|apply str_take_prefix].
  exists "". by rewrite app_nil_str.
Qed.

Lemma clamp_str_length s max : (String.length (clamp_str s max) <= max)%nat.
Proof.
  unfold clamp_str. destruct (Nat.leb_spec (String.length s) max); [done|].
  etrans; [apply str_take_bound | apply clamp_loop_le; lia].
Qed.

Lemma clamp_str_id s max : (String.length s <= max)%nat -> clamp_str s max = s.
Proof. intros. unfold clamp_str. by rewrite (proj2 (Nat.leb_le _ _)). Qed.

(** Inversion of a method that ran. *)
Lemma dm_bind_inv {S W A B} (m : dm S W A) (k : A -> dm S W B) s w r s2 w2 :
  dm_bind m k s w = (r, s2, w2) ->
  (exists a s1 w1, m s w = (Ok a, s1, w1) /\ k a s1 w1 = (r, s2, w2))
  \/ (exists e, m s w = (Err e, s2, w2) /\ r = Err e).
Proof.
  unfold dm_bind. destruct (m s w) as [[[a|e] s1] w1] eqn:Hm; intros Hk.
  - left. eauto 6.
  - right. injection Hk as <- <- <-. eauto.
Qed.

(** Run the methods of an aggregate symbolically. *)
Ltac dm_unfold_in H :=
  unfold dm_bind, dm_ret, dm_err, dm_get, dm_mod, dm_try, dm_port, dm_elem in H.
Ltac dm_unfold := unfold dm_bind, dm_ret, dm_err, dm_get, dm_mod, dm_try, dm_port, dm_elem.
