(* ===== verification/MediaNode.v ===== *)
(** * Media nodes

    The runtime view of a media node ([cheetah-domain/src/media_node.rs]): its
    capabilities, capacity, health and the validation of what a node reports
    about itself. *)

From S2P Require Import Prelude RustStr Domain.

Open Scope string_scope.
Open Scope list_scope.
Open Scope Z_scope.

(** ** Iteration of a [BTreeMap] *)

Definition str_le (a b : string) : Prop := String.leb a b = true.
#[global] Instance str_le_dec a b : Decision (str_le a b).
Proof. unfold str_le. apply _. Defined.
Definition key_str_le {V} (a b : string * V) : Prop := str_le a.1 b.1.
#[global] Instance key_str_le_dec {V} (a b : string * V) : Decision (key_str_le a b).
Proof. unfold key_str_le. apply _. Defined.
Definition btree_str {V} (m : gmap string V) : list (string * V) := merge_sort key_str_le (map_to_list m).
Definition id_le {V} (a b : Uuid * V) : Prop := a.1 <= b.1.
#[global] Instance id_le_dec {V} (a b : Uuid * V) : Decision (id_le a b).
Proof. unfold id_le. apply _. Defined.
Definition btree_ids {V} (m : gmap Uuid V) : list (Uuid * V) := merge_sort id_le (map_to_list m).

(** ** Limits *)

Record MediaNodeLimits := mkLimits {
  lim_string_field_bytes : Z;
  lim_endpoint_bytes : Z;
  lim_network_zones : Z;
  lim_capabilities : Z;
  lim_capability_operations : Z;
  lim_capability_constraints : Z;
  lim_media_addresses : Z;
  lim_labels : Z;
  lim_label_value_bytes : Z
}.
Definition limits_production : MediaNodeLimits := mkLimits 256 2048 64 64 64 64 256 256 1024.

(** ** Data *)

Record MediaCapability := mkCapability {
  mc_protocol : string;
  mc_operations : list string;
  mc_constraints : gmap string string;
  mc_version : Z;
  mc_runtime_state : string
}.
Record MediaNodeCapacity := mkMediaCapacity {
  max_sessions : Z;
  max_bandwidth_mbps : Z;
  max_cpu_percent : Z
}.
Inductive MediaNodeHealth := Healthy | Degraded | Unhealthy.
Inductive NodeStatus := NodeActive | NodeDraining | NodeLeft.
#[global] Instance MediaNodeHealth_eq_dec : EqDecision MediaNodeHealth.
Proof. solve_decision. Defined.
#[global] Instance NodeStatus_eq_dec : EqDecision NodeStatus.
Proof. solve_decision. Defined.

Record MediaNode := mkMediaNode {
  mn_node_id : Uuid;
  mn_instance_id : string;
  mn_instance_epoch : Z;
  mn_zone : string;
  mn_region : string;
  mn_network_zones : list string;
  mn_labels : gmap string string;
  mn_control_endpoint : string;
  mn_media_addresses : list string;
  mn_capabilities : list MediaCapability;
  mn_capacity : MediaNodeCapacity;
  mn_load : Z;
  mn_session_count : Z;
  mn_health : MediaNodeHealth;
  mn_draining : bool;
  mn_status : NodeStatus;
  mn_last_heartbeat_at : option UtcTimestamp;
  mn_lease_until : option UtcTimestamp;
  mn_generation : Z;
  mn_contract_version : Z;
  mn_revision : Z
}.

(** The fields that the registry changes. *)
Definition set_runtime (n : MediaNode) (load sessions : Z) (health : MediaNodeHealth) : MediaNode :=
  mkMediaNode (mn_node_id n) (mn_instance_id n) (mn_instance_epoch n) (mn_zone n) (mn_region n) (mn_network_zones n)
    (mn_labels n) (mn_control_endpoint n) (mn_media_addresses n) (mn_capabilities n) (mn_capacity n)
    load sessions health (mn_draining n) (mn_status n) (mn_last_heartbeat_at n) (mn_lease_until n)
    (mn_generation n) (mn_contract_version n) (mn_revision n).
Definition set_lifecycle (n : MediaNode) (epoch generation : Z) (draining : bool) (status : NodeStatus)
    (heartbeat lease : option UtcTimestamp) : MediaNode :=
  mkMediaNode (mn_node_id n) (mn_instance_id n) epoch (mn_zone n) (mn_region n) (mn_network_zones n)
    (mn_labels n) (mn_control_endpoint n) (mn_media_addresses n) (mn_capabilities n) (mn_capacity n)
    (mn_load n) (mn_session_count n) (mn_health n) draining status heartbeat lease
    generation (mn_contract_version n) (mn_revision n).

(** ** Capacity and health *)

Definition session_capacity (n : MediaNode) : Z := Z.max (max_sessions (mn_capacity n)) 1.
Definition available_sessions (n : MediaNode) : Z := sat_sub (session_capacity n) (mn_session_count n).
Definition node_has_capacity (n : MediaNode) : bool :=
  (0 <? available_sessions n) && negb (bool_decide (mn_health n = Unhealthy)).

Definition cpu_limit (n : MediaNode) : Z :=
  if max_cpu_percent (mn_capacity n) =? 0 then 100 else max_cpu_percent (mn_capacity n).
Definition recalc_health (n : MediaNode) : MediaNode :=
  set_runtime n (mn_load n) (mn_session_count n)
    (if (cpu_limit n <=? mn_load n) || (session_capacity n <=? mn_session_count n) then Unhealthy
     else if (sat_mul64 (cpu_limit n) 7 / 10 <=? mn_load n)
             || (sat_mul64 (session_capacity n) 7 / 10 <=? mn_session_count n) then Degraded
     else Healthy).

(** ** Validation *)

Definition too_long (max : Z) (s : string) : bool := max <? str_len s.
Definition too_many {A} (max : Z) (l : list A) : bool := max <? Z.of_nat (length l).

Fixpoint check_all {A} (check : A -> option string) (l : list A) : result unit DomainError :=
  match l with
  | [] => Ok tt
  | a :: l => match check a with Some m => Err (invalid_argument m) | None => check_all check l end
  end.
Definition check_strings (max : Z) (message : string) : list string -> result unit DomainError :=
  check_all (fun s => if too_long max s then Some message else None).
Definition check_pairs (max_key max_value : Z) (key_message value_message : string) :
    list (string * string) -> result unit DomainError :=
  check_all (fun kv => if too_long max_key kv.1 then Some key_message
                       else if too_long max_value kv.2 then Some value_message else None).
Definition check_that (bad : bool) (message : string) : result unit DomainError :=
  if bad then Err (invalid_argument message) else Ok tt.

Definition MediaCapability_validate (l : MediaNodeLimits) (c : MediaCapability) : result unit DomainError :=
  let bytes := lim_string_field_bytes l in
  let? _ := check_that (too_long bytes (mc_protocol c))
              ("capability protocol exceeds " +:+ show_uint bytes +:+ " bytes") in
  let? _ := check_that (too_long bytes (mc_runtime_state c))
              ("capability runtime_state exceeds " +:+ show_uint bytes +:+ " bytes") in
  let? _ := check_that (too_many (lim_capability_operations l) (mc_operations c))
              ("capability operations exceed " +:+ show_uint (lim_capability_operations l) +:+ " entries") in
  let? _ := check_strings bytes "capability operation string exceeds limit" (mc_operations c) in
  let? _ := check_that (lim_capability_constraints l <? Z.of_nat (size (mc_constraints c)))
              ("capability constraints exceed " +:+ show_uint (lim_capability_constraints l) +:+ " entries") in
  check_pairs bytes bytes "capability constraint key exceeds limit" "capability constraint value exceeds limit"
    (btree_str (mc_constraints c)).

Fixpoint check_capabilities (l : MediaNodeLimits) (cs : list MediaCapability) : result unit DomainError :=
  match cs with
  | [] => Ok tt
  | c :: cs => let? _ := MediaCapability_validate l c in check_capabilities l cs
  end.

Definition MediaNode_validate (l : MediaNodeLimits) (n : MediaNode) : result unit DomainError :=
  let bytes := lim_string_field_bytes l in
  let? _ := check_that (too_long bytes (mn_instance_id n)) ("instance_id exceeds " +:+ show_uint bytes +:+ " bytes") in
  let? _ := check_that (too_long bytes (mn_zone n)) ("zone exceeds " +:+ show_uint bytes +:+ " bytes") in
  let? _ := check_that (too_long bytes (mn_region n)) ("region exceeds " +:+ show_uint bytes +:+ " bytes") in
  let? _ := check_that (too_many (lim_network_zones l) (mn_network_zones n))
              ("network_zones exceed " +:+ show_uint (lim_network_zones l) +:+ " entries") in
  let? _ := check_strings bytes "network_zone string exceeds limit" (mn_network_zones n) in
  let? _ := check_that (lim_labels l <? Z.of_nat (size (mn_labels n)))
              ("labels exceed " +:+ show_uint (lim_labels l) +:+ " entries") in
  let? _ := check_pairs bytes (lim_label_value_bytes l) "label key exceeds limit" "label value exceeds limit"
              (btree_str (mn_labels n)) in
  let? _ := check_that (too_long (lim_endpoint_bytes l) (mn_control_endpoint n))
              ("control_endpoint exceeds " +:+ show_uint (lim_endpoint_bytes l) +:+ " bytes") in
  let? _ := check_that (too_many (lim_media_addresses l) (mn_media_addresses n))
              ("media_addresses exceed " +:+ show_uint (lim_media_addresses l) +:+ " entries") in
  let? _ := check_strings (lim_endpoint_bytes l) "media_address string exceeds limit" (mn_media_addresses n) in
  let? _ := check_that (too_many (lim_capabilities l) (mn_capabilities n))
              ("capabilities exceed " +:+ show_uint (lim_capabilities l) +:+ " entries") in
  check_capabilities l (mn_capabilities n).

(** ** Lemmas *)

Lemma btree_ids_perm {V} (m : gmap Uuid V) : btree_ids m ≡ₚ map_to_list m.
Proof. apply merge_sort_Permutation. Qed.
Lemma elem_of_btree_ids {V} (m : gmap Uuid V) id v : (id, v) ∈ btree_ids m <-> m !! id = Some v.
Proof. by rewrite btree_ids_perm, elem_of_map_to_list. Qed.

(** A node that is healthy by its own numbers has room. *)
Lemma recalc_capacity n :
  mn_health (recalc_health n) <> Unhealthy -> node_has_capacity (recalc_health n) = true.
Proof.
  intros Hh. unfold node_has_capacity, available_sessions, sat_sub, session_capacity in *. simpl in *.
  rewrite bool_decide_eq_false_2 by done. rewrite andb_true_r. apply Z.ltb_lt.
  destruct (_ || _) eqn:Hb in Hh; [done|]. apply orb_false_iff in Hb as [_ Hb]. apply Z.leb_gt in Hb.
  unfold session_capacity in Hb. lia.
Qed.
