(* ===== verification/DeviceData.v ===== *)
(** * Values of devices and channels

    The enumerations and value objects of [device.rs] and [channel.rs] with their
    texts, bounds and validation. *)

From S2P Require Import Prelude RustStr Domain MediaNode.

Open Scope string_scope.
Open Scope list_scope.
Open Scope Z_scope.

(** ** Bounds *)

Definition MAX_CAPABILITIES : Z := 256.
Definition MAX_CAPABILITY_KEY_BYTES : Z := 128.
Definition MAX_CAPABILITY_STRING_VALUE_BYTES : Z := 1024.
Definition MAX_STRING_LIST_ITEMS : Z := 64.
Definition MAX_STRING_LIST_ITEM_BYTES : Z := 256.
Definition MAX_METADATA_KEYS : Z := 64.
Definition MAX_METADATA_KEY_BYTES : Z := 128.
Definition MAX_METADATA_VALUE_BYTES : Z := 4096.
Definition MAX_DEVICE_NAME_BYTES : Z := 1024.
Definition MAX_DEVICE_AUTHORITY_BYTES : Z := 256.
Definition MAX_DEVICE_REASON_BYTES : Z := 1024.
Definition MAX_STREAM_PROFILES : Z := 16.
Definition MAX_CHANNEL_NAME_BYTES : Z := 1024.
Definition MAX_STREAM_PROFILE_FIELD_BYTES : Z := 256.

(** ** Enumerations *)

Inductive DeviceKind := DkUnknown | DkCamera | DkNvr | DkDvr | DkEncoder | DkIot | DkPlatform.
#[global] Instance DeviceKind_eq_dec : EqDecision DeviceKind.
Proof. solve_decision. Defined.
Inductive Protocol :=
| ProtoUnknown | ProtoGb28181 | ProtoOnvif | ProtoPlugin | ProtoMqtt | ProtoJt808 | ProtoIsup | ProtoHomekit | ProtoMatter.
#[global] Instance Protocol_eq_dec : EqDecision Protocol.
Proof. solve_decision. Defined.
Inductive DeviceLifecycle := Provisioning | DevActive | DevSuspended | DevRetired.
#[global] Instance DeviceLifecycle_eq_dec : EqDecision DeviceLifecycle.
Proof. solve_decision. Defined.
Inductive ChannelKind :=
| CkUnknown | CkVideo | CkAudio | CkPtz | CkOrganization | CkEvent | CkIo | CkComposite.
#[global] Instance ChannelKind_eq_dec : EqDecision ChannelKind.
Proof. solve_decision. Defined.
Inductive ChannelStatus := CsUnknown | CsOnline | CsOffline | CsFault.
#[global] Instance ChannelStatus_eq_dec : EqDecision ChannelStatus.
Proof. solve_decision. Defined.

Definition DeviceKind_str (k : DeviceKind) : string :=
  match k with
  | DkUnknown => "unknown" | DkCamera => "camera" | DkNvr => "nvr" | DkDvr => "dvr" | DkEncoder => "encoder"
  | DkIot => "iot" | DkPlatform => "platform"
  end.
Definition Protocol_str (p : Protocol) : string :=
  match p with
  | ProtoUnknown => "unknown" | ProtoGb28181 => "gb28181" | ProtoOnvif => "onvif" | ProtoPlugin => "plugin"
  | ProtoMqtt => "mqtt" | ProtoJt808 => "jt808" | ProtoIsup => "isup" | ProtoHomekit => "homekit" | ProtoMatter => "matter"
  end.
Definition DeviceLifecycle_str (l : DeviceLifecycle) : string :=
  match l with Provisioning => "provisioning" | DevActive => "active" | DevSuspended => "suspended" | DevRetired => "retired" end.
Definition ChannelKind_str (k : ChannelKind) : string :=
  match k with
  | CkUnknown => "unknown" | CkVideo => "video" | CkAudio => "audio" | CkPtz => "ptz" | CkOrganization => "organization"
  | CkEvent => "event" | CkIo => "io" | CkComposite => "composite"
  end.
Definition ChannelStatus_str (s : ChannelStatus) : string :=
  match s with CsUnknown => "unknown" | CsOnline => "online" | CsOffline => "offline" | CsFault => "fault" end.

(** [from_str]: the first value whose text is that of the input, in any case. *)
Fixpoint lookup_text {A} (text : A -> string) (values : list A) (s : string) : option A :=
  match values with
  | [] => None
  | a :: values => if eq_ignore_ascii_case s (text a) then Some a else lookup_text text values s
  end.
Definition from_str_of {A} (what : string) (text : A -> string) (values : list A) (s : string) : result A DomainError :=
  ok_or (lookup_text text values s) (invalid_argument (what +:+ truncate_for_error s)).

Definition DeviceKind_from_str : string -> result DeviceKind DomainError :=
  from_str_of "unknown device kind: " DeviceKind_str [DkCamera; DkNvr; DkDvr; DkEncoder; DkIot; DkPlatform].
Definition Protocol_from_str : string -> result Protocol DomainError :=
  from_str_of "unknown protocol: " Protocol_str
    [ProtoGb28181; ProtoOnvif; ProtoPlugin; ProtoMqtt; ProtoJt808; ProtoIsup; ProtoHomekit; ProtoMatter].
Definition DeviceLifecycle_from_str : string -> result DeviceLifecycle DomainError :=
  from_str_of "unknown lifecycle: " DeviceLifecycle_str [Provisioning; DevActive; DevSuspended; DevRetired].
Definition ChannelKind_from_str : string -> result ChannelKind DomainError :=
  from_str_of "unknown channel kind: " ChannelKind_str
    [CkVideo; CkAudio; CkPtz; CkOrganization; CkEvent; CkIo; CkComposite].
Definition ChannelStatus_from_str : string -> result ChannelStatus DomainError :=
  from_str_of "unknown channel status: " ChannelStatus_str [CsOnline; CsOffline; CsFault].

(** ** Connectivity, capabilities and metadata *)

Inductive Connectivity := ConnUnknown | ConnOnline | ConnOffline (since : UtcTimestamp) (reason : string).
#[global] Instance Connectivity_eq_dec : EqDecision Connectivity.
Proof. solve_decision. Defined.
Definition offline_reason (c : Connectivity) : option string :=
  match c with ConnOffline _ reason => Some reason | _ => None end.

Inductive CapabilityValue := CvString (s : string) | CvStringList (l : list string) | CvBool (b : bool) | CvInt (i : Z).
Record Capability := mkCap { cap_key : string; cap_value : CapabilityValue }.

Definition CapabilityValue_validate (v : CapabilityValue) : result unit DomainError :=
  match v with
  | CvString s => check_that (MAX_CAPABILITY_STRING_VALUE_BYTES <? str_len s) "capability string value too long"
  | CvStringList l =>
      if MAX_STRING_LIST_ITEMS <? Z.of_nat (length l) then Err (invalid_argument "capability string list too long")
      else check_strings MAX_STRING_LIST_ITEM_BYTES "capability string list item too long" l
  | CvBool _ | CvInt _ => Ok tt
  end.
Definition new_string (s : string) : result CapabilityValue DomainError :=
  if MAX_CAPABILITY_STRING_VALUE_BYTES <? str_len s then Err (invalid_argument "capability string value too long")
  else Ok (CvString s).
Definition new_string_list (l : list string) : result CapabilityValue DomainError :=
  if MAX_STRING_LIST_ITEMS <? Z.of_nat (length l) then Err (invalid_argument "capability string list too long")
  else let? _ := check_strings MAX_STRING_LIST_ITEM_BYTES "capability string list item too long" l in Ok (CvStringList l).
Definition bad_key (key : string) : bool := is_empty_str key || (MAX_CAPABILITY_KEY_BYTES <? str_len key).
Definition Capability_new (key : string) (value : CapabilityValue) : result Capability DomainError :=
  let? _ := CapabilityValue_validate value in
  if bad_key key then Err (invalid_argument "invalid capability key") else Ok (mkCap key value).

(** The loop with the set of keys that it has seen. *)
Fixpoint capabilities_loop (seen : list string) (l : list Capability) : result unit DomainError :=
  match l with
  | [] => Ok tt
  | c :: l =>
      if bool_decide (cap_key c ∈ seen) then Err (invalid_argument "duplicate capability key")
      else if bad_key (cap_key c) then Err (invalid_argument "capability key invalid")
      else let? _ := CapabilityValue_validate (cap_value c) in capabilities_loop (cap_key c :: seen) l
  end.
Definition validate_capabilities (l : list Capability) : result unit DomainError :=
  if MAX_CAPABILITIES <? Z.of_nat (length l) then Err (invalid_argument "too many capabilities")
  else capabilities_loop [] l.

Fixpoint metadata_loop (l : list (string * string)) : result unit DomainError :=
  match l with
  | [] => Ok tt
  | (key, value) :: l =>
      if is_empty_str key || (MAX_METADATA_KEY_BYTES <? str_len key) then Err (invalid_argument "metadata key invalid")
      else if MAX_METADATA_VALUE_BYTES <? str_len value then Err (invalid_argument "metadata value too long")
      else metadata_loop l
  end.
Definition validate_metadata (m : gmap string string) : result unit DomainError :=
  if MAX_METADATA_KEYS <? Z.of_nat (size m) then Err (invalid_argument "too many metadata entries")
  else metadata_loop (btree_str m).

(** ** Channels *)

Record StreamProfile := mkProfile { sp_encoding : string; sp_resolution : string; sp_frame_rate : Z; sp_bitrate : Z }.
Definition bad_profile_field (s : string) : bool := is_empty_str s || (MAX_STREAM_PROFILE_FIELD_BYTES <? str_len s).
Definition StreamProfile_validate (p : StreamProfile) : result unit DomainError :=
  if bad_profile_field (sp_encoding p)
  then Err (invalid_argument "encoding must not be empty and must not exceed 256 bytes")
  else if bad_profile_field (sp_resolution p)
  then Err (invalid_argument "resolution must not be empty and must not exceed 256 bytes")
  else if sp_frame_rate p =? 0 then Err (invalid_argument "frame_rate must be > 0")
  else if sp_bitrate p =? 0 then Err (invalid_argument "bitrate must be > 0")
  else Ok tt.
Definition StreamProfile_new (encoding resolution : string) (frame_rate bitrate : Z) : result StreamProfile DomainError :=
  let p := mkProfile encoding resolution frame_rate bitrate in
  let? _ := StreamProfile_validate p in Ok p.
Fixpoint profiles_loop (l : list StreamProfile) : result unit DomainError :=
  match l with
  | [] => Ok tt
  | p :: l => let? _ := StreamProfile_validate p in profiles_loop l
  end.
Definition validate_stream_profiles (l : list StreamProfile) : result unit DomainError :=
  if MAX_STREAM_PROFILES <? Z.of_nat (length l) then Err (invalid_argument "too many stream profiles")
  else profiles_loop l.

Record PtzCapabilities := mkPtz {
  ptz_pan : bool; ptz_tilt : bool; ptz_zoom : bool; ptz_preset : bool; ptz_focus : bool; ptz_iris : bool
}.
