(* ===== verification/DomainData.v ===== *)
(** * States, errors and events of the aggregates

    The enumerations of [operation.rs], [media_session.rs] and
    [media_binding.rs] with their texts, the error values they carry with their
    bounds, and the events of the domain ([event.rs]). *)

From S2P Require Import Prelude RustStr Domain MediaNode DeviceData.

Open Scope string_scope.
Open Scope list_scope.
Open Scope Z_scope.

(** ** Operations *)

Inductive OperationStatus :=
| OsPending | OsRunning | OsSucceeded | OsFailed | OsCancelled | OsTimedOut.
#[global] Instance OperationStatus_eq_dec : EqDecision OperationStatus.
Proof. solve_decision. Defined.

Definition OperationStatus_is_terminal (s : OperationStatus) : bool :=
  match s with
  | OsSucceeded | OsFailed | OsCancelled | OsTimedOut => true
  | _ => false
  end.

(** [impl Display] and, for [{:?}], the derived [Debug]. *)
Definition OperationStatus_display (s : OperationStatus) : string :=
  match s with
  | OsPending => "pending"
  | OsRunning => "running"
  | OsSucceeded => "succeeded"
  | OsFailed => "failed"
  | OsCancelled => "cancelled"
  | OsTimedOut => "timed_out"
  end.
Definition OperationStatus_debug (s : OperationStatus) : string :=
  match s with
  | OsPending => "Pending"
  | OsRunning => "Running"
  | OsSucceeded => "Succeeded"
  | OsFailed => "Failed"
  | OsCancelled => "Cancelled"
  | OsTimedOut => "TimedOut"
  end.

Definition OperationStatus_from_str (s : string) : result OperationStatus DomainError :=
  if eq_ignore_ascii_case s "pending" then Ok OsPending
  else if eq_ignore_ascii_case s "running" then Ok OsRunning
  else if eq_ignore_ascii_case s "succeeded" then Ok OsSucceeded
  else if eq_ignore_ascii_case s "failed" then Ok OsFailed
  else if eq_ignore_ascii_case s "cancelled" then Ok OsCancelled
  else if eq_ignore_ascii_case s "timed_out" then Ok OsTimedOut
  else Err (invalid_argument ("unknown operation status: " +:+ truncate_for_error s)).

Definition MAX_OPERATION_ERROR_CODE_BYTES : Z := 128.
Definition MAX_OPERATION_ERROR_MESSAGE_BYTES : Z := 2048.

Inductive OperationResult :=
| Success
| Failure (code message : string).
#[global] Instance OperationResult_eq_dec : EqDecision OperationResult.
Proof. solve_decision. Defined.

Definition OperationResult_validate (r : OperationResult) : result unit DomainError :=
  match r with
  | Failure code message =>
      if MAX_OPERATION_ERROR_CODE_BYTES <? str_len code
      then Err (invalid_argument "operation error code must not exceed 128 bytes")
      else if MAX_OPERATION_ERROR_MESSAGE_BYTES <? str_len message
      then Err (invalid_argument "operation error message must not exceed 2048 bytes")
      else Ok tt
  | Success => Ok tt
  end.

Definition OperationResult_is_success (r : OperationResult) : bool :=
  match r with Success => true | Failure _ _ => false end.

Record OperationError := { oe_code : string; oe_message : string }.
#[global] Instance OperationError_eq_dec : EqDecision OperationError.
Proof. solve_decision. Defined.

Definition OperationError_validate (e : OperationError) : result unit DomainError :=
  if MAX_OPERATION_ERROR_CODE_BYTES <? str_len (oe_code e)
  then Err (invalid_argument "operation error code must not exceed 128 bytes")
  else if MAX_OPERATION_ERROR_MESSAGE_BYTES <? str_len (oe_message e)
  then Err (invalid_argument "operation error message must not exceed 2048 bytes")
  else Ok tt.

Definition OperationError_expired_before_dispatch : OperationError :=
  {| oe_code := "expired_before_dispatch"; oe_message := "deadline expired before dispatch" |}.
Definition OperationError_cancelled : OperationError :=
  {| oe_code := "cancelled"; oe_message := "operation was cancelled" |}.
Definition OperationError_timeout : OperationError :=
  {| oe_code := "timeout"; oe_message := "operation timed out" |}.

Inductive OperationStepStatus := SsPending | SsRunning | SsSucceeded | SsFailed | SsCompensated.
#[global] Instance OperationStepStatus_eq_dec : EqDecision OperationStepStatus.
Proof. solve_decision. Defined.

Definition OperationStepStatus_is_terminal (s : OperationStepStatus) : bool :=
  match s with SsSucceeded | SsFailed | SsCompensated => true | _ => false end.

Inductive DispatchAttemptStatus :=
| DaPending | DaSent | DaAcked | DaNacked | DaTimedOut | DaDeadLetter.
#[global] Instance DispatchAttemptStatus_eq_dec : EqDecision DispatchAttemptStatus.
Proof. solve_decision. Defined.

(** ** Media sessions *)

Inductive MediaSessionDesiredState := MdActive | MdStopped.
#[global] Instance MediaSessionDesiredState_eq_dec : EqDecision MediaSessionDesiredState.
Proof. solve_decision. Defined.

Inductive MediaSessionState :=
| MsRequested | MsAllocating | MsInviting | MsActive | MsStopping | MsStopped | MsFailed.
#[global] Instance MediaSessionState_eq_dec : EqDecision MediaSessionState.
Proof. solve_decision. Defined.

Definition MediaSessionState_is_terminal (s : MediaSessionState) : bool :=
  match s with MsStopped | MsFailed => true | _ => false end.

Definition MediaSessionState_display (s : MediaSessionState) : string :=
  match s with
  | MsRequested => "requested"
  | MsAllocating => "allocating"
  | MsInviting => "inviting"
  | MsActive => "active"
  | MsStopping => "stopping"
  | MsStopped => "stopped"
  | MsFailed => "failed"
  end.
Definition MediaSessionState_debug (s : MediaSessionState) : string :=
  match s with
  | MsRequested => "Requested"
  | MsAllocating => "Allocating"
  | MsInviting => "Inviting"
  | MsActive => "Active"
  | MsStopping => "Stopping"
  | MsStopped => "Stopped"
  | MsFailed => "Failed"
  end.

Definition MediaSessionState_from_str (s : string) : result MediaSessionState DomainError :=
  if eq_ignore_ascii_case s "requested" then Ok MsRequested
  else if eq_ignore_ascii_case s "allocating" then Ok MsAllocating
  else if eq_ignore_ascii_case s "inviting" then Ok MsInviting
  else if eq_ignore_ascii_case s "active" then Ok MsActive
  else if eq_ignore_ascii_case s "stopping" then Ok MsStopping
  else if eq_ignore_ascii_case s "stopped" then Ok MsStopped
  else if eq_ignore_ascii_case s "failed" then Ok MsFailed
  else Err (invalid_argument ("unknown media session state: " +:+ truncate_for_error s)).

Definition MediaPurpose_requires_media_sender (p : MediaPurpose) : bool :=
  match p with MpTalk | MpBroadcast => true | _ => false end.

Definition MediaPurpose_display (p : MediaPurpose) : string :=
  match p with
  | MpUnknown => "unknown"
  | MpLive => "live"
  | MpPlayback => "playback"
  | MpTalk => "talk"
  | MpBroadcast => "broadcast"
  end.

Definition MediaPurpose_from_str (s : string) : result MediaPurpose DomainError :=
  if eq_ignore_ascii_case s "live" then Ok MpLive
  else if eq_ignore_ascii_case s "playback" then Ok MpPlayback
  else if eq_ignore_ascii_case s "talk" then Ok MpTalk
  else if eq_ignore_ascii_case s "broadcast" then Ok MpBroadcast
  else Err (invalid_argument ("unknown media purpose: " +:+ truncate_for_error s)).

Definition MAX_MEDIA_SESSION_ERROR_CODE_BYTES : Z := 128.
Definition MAX_MEDIA_SESSION_ERROR_MESSAGE_BYTES : Z := 2048.

Record MediaSessionError := { mse_code : string; mse_message : string }.

Definition MediaSessionError_timeout : MediaSessionError :=
  {| mse_code := "timeout"; mse_message := "media session timed out" |}.

Definition MediaSessionError_validate (e : MediaSessionError) : result unit DomainError :=
  if MAX_MEDIA_SESSION_ERROR_CODE_BYTES <? str_len (mse_code e)
  then Err (invalid_argument "media session error code must not exceed 128 bytes")
  else if MAX_MEDIA_SESSION_ERROR_MESSAGE_BYTES <? str_len (mse_message e)
  then Err (invalid_argument "media session error message must not exceed 2048 bytes")
  else Ok tt.

(** ** Media bindings *)

Inductive MediaBindingState :=
| MbReserved | MbActive | MbNeedsVerification | MbReleasing | MbReleased | MbFailed.
#[global] Instance MediaBindingState_eq_dec : EqDecision MediaBindingState.
Proof. solve_decision. Defined.

Definition MediaBindingState_is_terminal (s : MediaBindingState) : bool :=
  match s with MbReleased | MbFailed => true | _ => false end.

Definition MediaBindingState_debug (s : MediaBindingState) : string :=
  match s with
  | MbReserved => "Reserved"
  | MbActive => "Active"
  | MbNeedsVerification => "NeedsVerification"
  | MbReleasing => "Releasing"
  | MbReleased => "Released"
  | MbFailed => "Failed"
  end.

Definition MAX_MEDIA_BINDING_ERROR_CODE_BYTES : Z := 128.
Definition MAX_MEDIA_BINDING_ERROR_MESSAGE_BYTES : Z := 2048.

Record MediaBindingError := { mbe_code : string; mbe_message : string }.

Definition MediaBindingError_timeout : MediaBindingError :=
  {| mbe_code := "timeout"; mbe_message := "media binding timed out" |}.

Definition MediaBindingError_validate (e : MediaBindingError) : result unit DomainError :=
  if MAX_MEDIA_BINDING_ERROR_CODE_BYTES <? str_len (mbe_code e)
  then Err (invalid_argument "media binding error code must not exceed 128 bytes")
  else if MAX_MEDIA_BINDING_ERROR_MESSAGE_BYTES <? str_len (mbe_message e)
  then Err (invalid_argument "media binding error message must not exceed 2048 bytes")
  else Ok tt.

(** ** Events *)

Inductive DomainEvent :=
| DeviceRegistered (tenant_id device_id : Uuid) (protocol : Protocol) (external_id authority name : string)
    (kind : DeviceKind) (capabilities : list Capability) (metadata : gmap string string)
    (lifecycle : DeviceLifecycle) (connectivity : Connectivity) (owner_epoch : Z) (created_at : UtcTimestamp)
| DeviceUpdated (tenant_id device_id : Uuid) (name : string) (kind : DeviceKind) (protocol : Protocol)
    (external_id authority : string) (capabilities : list Capability) (metadata : gmap string string)
    (lifecycle : DeviceLifecycle) (connectivity : Connectivity) (owner_epoch : Z) (updated_at : UtcTimestamp)
| DeviceOnlineChanged (tenant_id device_id : Uuid) (connectivity : Connectivity) (lifecycle : DeviceLifecycle)
    (reason : option string)
| DeviceLifecycleChanged (tenant_id device_id : Uuid) (previous_lifecycle lifecycle : DeviceLifecycle)
    (connectivity : Connectivity)
| ChannelCreated (tenant_id device_id channel_id : Uuid) (kind : ChannelKind) (name : string) (enabled : bool)
    (status : ChannelStatus) (stream_profiles : list StreamProfile) (ptz_capabilities : PtzCapabilities)
    (metadata : gmap string string) (created_at : UtcTimestamp)
| ChannelUpdated (tenant_id device_id channel_id : Uuid) (kind : ChannelKind) (name : string) (enabled : bool)
    (status : ChannelStatus) (stream_profiles : list StreamProfile) (ptz_capabilities : PtzCapabilities)
    (metadata : gmap string string) (updated_at : UtcTimestamp)
| ChannelOnlineChanged (tenant_id device_id channel_id : Uuid) (previous_status status : ChannelStatus)
| ChannelRemoved (tenant_id device_id channel_id : Uuid)
| OperationSubmitted (operation_id tenant_id device_id : Uuid)
    (idempotency_scope : IdempotencyScope) (command : Command)
| OperationStateChanged (operation_id tenant_id : Uuid)
    (previous_status status : OperationStatus)
    (result : option OperationResult) (error : option OperationError)
| MediaSessionCreated (media_session_id tenant_id device_id channel_id : Uuid)
    (purpose : MediaPurpose) (desired_state : MediaSessionDesiredState)
    (state : MediaSessionState) (owner_epoch : Z) (operation_id : Uuid)
    (idempotency_scope : IdempotencyScope) (generation : Z)
    (deadline : option UtcTimestamp) (created_at : UtcTimestamp)
| MediaSessionStateChanged (media_session_id tenant_id : Uuid)
    (previous_state state : MediaSessionState) (desired_state : MediaSessionDesiredState)
    (error : option MediaSessionError)
| MediaSessionGenerationBumped (media_session_id tenant_id : Uuid) (generation : Z)
    (updated_at : UtcTimestamp)
| MediaBindingCreated (media_binding_id media_session_id tenant_id channel_id media_node_id : Uuid)
    (owner_epoch : Z) (state : MediaBindingState) (created_at : UtcTimestamp)
| MediaBindingStateChanged (media_binding_id media_session_id tenant_id : Uuid)
    (previous_state state : MediaBindingState) (error : option MediaBindingError)
| OwnerChanged (tenant_id device_id node_id : Uuid) (owner_epoch : Z)
    (previous_node_id : option Uuid) (previous_epoch : option Z) (takeover : bool)
| Gb28181EventReceived (tenant_id : Uuid) (device_id : option Uuid) (event_type : string) (protocol : Protocol)
    (external_id : option string) (payload : gmap string string)
| MediaNodeUpdated (node : MediaNode).
