(* ===== verification/Compatibility.v ===== *)
(** * Compatibility profiles

    [compatibility.rs] and the profile part of [protocol_session.rs] in the
    domain, and the resolver of [cheetah-gb28181-module/src/profile.rs].  A
    profile enables capabilities and overrides for the devices it matches; the
    resolver picks the one profile that is to be pinned to a session. *)

From S2P Require Import Prelude RustStr Domain.

Open Scope string_scope.
Open Scope list_scope.
Open Scope Z_scope.

(** ** Capabilities *)

Inductive CompatibilityCapability :=
| CharsetFallback | MimeAlias | ContactRportRoute | HeaderNormalization | CatalogCountFragment
| CatalogNotify | AlarmSubscription | MobilePosition | Gb2016 | ConfigDownload | PresetQuery
| CapBroadcast | CapMediaStatus | CapSdpMediaOverride | DuplicateRegisterAllowed | StrictRealm
| MinimumExpiry | UdpRoute | TcpRoute | DevicePerPassword.
#[global] Instance CompatibilityCapability_eq_dec : EqDecision CompatibilityCapability.
Proof. solve_decision. Defined.

(** [eq_ignore_ascii_case_and_dash_underscore]. *)
Fixpoint fold_name (s : string) : string :=
  match s with
  | EmptyString => EmptyString
  | String a s => String (if Ascii.eqb a "-" then "_"%char else to_ascii_lowercase a) (fold_name s)
  end.
Definition eq_ignore_ascii_case_and_dash_underscore (s pat : string) : bool :=
  String.eqb (fold_name s) (fold_name pat).

(** The first name of the table that [s] spells, in the order of the tests. *)
Fixpoint spelled {A} (s : string) (table : list (string * A)) : option A :=
  match table with
  | [] => None
  | (name, x) :: table =>
      if eq_ignore_ascii_case_and_dash_underscore s name then Some x else spelled s table
  end.

Definition CompatibilityCapability_from_str (s : string) : result CompatibilityCapability DomainError :=
  match spelled s
    [ ("charset_fallback", CharsetFallback); ("mime_alias", MimeAlias);
      ("contact_rport_route", ContactRportRoute); ("header_normalization", HeaderNormalization);
      ("catalog_count_fragment", CatalogCountFragment); ("catalog_notify", CatalogNotify);
      ("alarm_subscription", AlarmSubscription); ("mobile_position", MobilePosition);
      ("gb2016", Gb2016); ("config_download", ConfigDownload); ("preset_query", PresetQuery);
      ("broadcast", CapBroadcast); ("media_status", CapMediaStatus);
      ("sdp_media_override", CapSdpMediaOverride);
      ("duplicate_register_allowed", DuplicateRegisterAllowed); ("strict_realm", StrictRealm);
      ("minimum_expiry", MinimumExpiry); ("udp_route", UdpRoute); ("tcp_route", TcpRoute);
      ("device_per_password", DevicePerPassword) ] with
  | Some cap => Ok cap
  | None => Err (invalid_argument ("unknown compatibility capability: " +:+ chars_take 64 s))
  end.

(** ** Overrides *)

Definition MAX_OVERRIDE_ENTRIES : Z := 64.
Definition MAX_OVERRIDE_ENTRY_BYTES : Z := 64.

Record SdpMediaOverride := {
  allowed_payload_types : list string;
  allowed_attribute_names : list string
}.
Inductive BroadcastAddressSource := MediaNodeAddress | SignalingHost.
#[global] Instance BroadcastAddressSource_eq_dec : EqDecision BroadcastAddressSource.
Proof. solve_decision. Defined.
Record BroadcastOverride := { address_source : BroadcastAddressSource }.
Record MediaStatusOverride := { stopped_status_codes : list string }.
Record CompatibilityOverrides := {
  ov_sdp : option SdpMediaOverride;
  ov_broadcast : option BroadcastOverride;
  ov_media_status : option MediaStatusOverride
}.
Definition CompatibilityOverrides_default : CompatibilityOverrides :=
  {| ov_sdp := None; ov_broadcast := None; ov_media_status := None |}.

Definition BroadcastAddressSource_from_str (s : string) : result BroadcastAddressSource DomainError :=
  match spelled s [("media_node", MediaNodeAddress); ("signaling_host", SignalingHost)] with
  | Some source => Ok source
  | None => Err (invalid_argument ("unknown broadcast address source: " +:+ chars_take 64 s))
  end.

Fixpoint validate_each (field : string) (entries : list string) : result unit DomainError :=
  match entries with
  | [] => Ok tt
  | entry :: entries =>
      if is_empty_str entry then Err (invalid_argument (field +:+ " entries must not be empty"))
      else if MAX_OVERRIDE_ENTRY_BYTES <? str_len entry
      then Err (invalid_argument (field +:+ " entry too long"))
      else validate_each field entries
  end.
Definition validate_entries (field : string) (entries : list string) : result unit DomainError :=
  if MAX_OVERRIDE_ENTRIES <? Z.of_nat (length entries)
  then Err (invalid_argument (field +:+ " must not exceed 64 entries"))
  else validate_each field entries.

Definition SdpMediaOverride_validate (o : SdpMediaOverride) : result unit DomainError :=
  let? _ := validate_entries "sdp.allowed_payload_types" (allowed_payload_types o) in
  validate_entries "sdp.allowed_attribute_names" (allowed_attribute_names o).
Definition MediaStatusOverride_validate (o : MediaStatusOverride) : result unit DomainError :=
  validate_entries "media_status.stopped_status_codes" (stopped_status_codes o).
Definition CompatibilityOverrides_validate (o : CompatibilityOverrides) : result unit DomainError :=
  let? _ := match ov_sdp o with Some sdp => SdpMediaOverride_validate sdp | None => Ok tt end in
  match ov_media_status o with Some ms => MediaStatusOverride_validate ms | None => Ok tt end.

Definition allows_payload (o : SdpMediaOverride) (payload_type : string) : bool :=
  existsb (fun p => String.eqb p payload_type) (allowed_payload_types o).
Definition allows_attribute (o : SdpMediaOverride) (name : string) : bool :=
  existsb (fun n => eq_ignore_ascii_case n name) (allowed_attribute_names o).
Definition is_stopped (o : MediaStatusOverride) (notify_type : string) : bool :=
  existsb (fun c => String.eqb c notify_type) (stopped_status_codes o).

(** ** Profiles *)

Record CompatibilityProfile := {
  profile_id : option string;
  standard_version : option string;
  manufacturer : option string;
  model : option string;
  firmware : option string;
  capabilities : list CompatibilityCapability;
  evidence_ref : option string;
  profile_revision : Z;
  overrides : CompatibilityOverrides
}.
Definition CompatibilityProfile_default : CompatibilityProfile := {|
  profile_id := None; standard_version := None; manufacturer := None; model := None;
  firmware := None; capabilities := []; evidence_ref := None; profile_revision := 0;
  overrides := CompatibilityOverrides_default
|}.

Record ProfileSelector := {
  sel_standard_version : option string;
  sel_manufacturer : option string;
  sel_model : option string;
  sel_firmware : option string
}.

Definition MAX_PROFILE_FIELD_BYTES : Z := 512.

Fixpoint validate_fields (fields : list (string * option string)) : result unit DomainError :=
  match fields with
  | [] => Ok tt
  | (name, Some v) :: fields =>
      if MAX_PROFILE_FIELD_BYTES <? str_len v then Err (invalid_argument (name +:+ " too long"))
      else validate_fields fields
  | (_, None) :: fields => validate_fields fields
  end.
Definition CompatibilityProfile_validate (p : CompatibilityProfile) : result unit DomainError :=
  let? _ := validate_fields
    [ ("profile_id", profile_id p); ("standard_version", standard_version p);
      ("manufacturer", manufacturer p); ("model", model p); ("firmware", firmware p);
      ("evidence_ref", evidence_ref p) ] in
  if 64 <? Z.of_nat (length (capabilities p))
  then Err (invalid_argument "compatibility capabilities must not exceed 64")
  else CompatibilityOverrides_validate (overrides p).

(** [add_field_score]: the new score, or [None] for [false]. *)
Definition add_field_score (score : Z) (profile_value selector_value : option string) (weight : Z) :
    option Z :=
  match profile_value, selector_value with
  | Some p, Some s => if eq_ignore_ascii_case p (trim s) then Some (wrap32 (score + weight)) else None
  | Some _, None => None
  | None, _ => Some score
  end.

Definition score (p : CompatibilityProfile) (sel : ProfileSelector) : Z :=
  match add_field_score 0 (firmware p) (sel_firmware sel) 8 with
  | None => 0
  | Some s =>
      match add_field_score s (model p) (sel_model sel) 4 with
      | None => 0
      | Some s =>
          match add_field_score s (manufacturer p) (sel_manufacturer sel) 2 with
          | None => 0
          | Some s => default 0 (add_field_score s (standard_version p) (sel_standard_version sel) 1)
          end
      end
  end.

Definition has (p : CompatibilityProfile) (cap : CompatibilityCapability) : bool :=
  bool_decide (cap ∈ capabilities p).

Definition is_baseline_payload_type (payload_type : string) : bool :=
  match parse_uint U16_MAX payload_type with
  | Some pt => (pt =? 0) || (pt =? 8) || ((96 <=? pt) && (pt <=? 127))
  | None => false
  end.
Definition BASELINE_SDP_ATTRIBUTES : list string := ["downloadspeed"; "filesize"; "username"; "password"].
Definition is_baseline_attribute (name : string) : bool :=
  existsb (fun b => eq_ignore_ascii_case b name) BASELINE_SDP_ATTRIBUTES.

Definition sdp_payload_allowed (p : CompatibilityProfile) (payload_type : string) : bool :=
  if is_baseline_payload_type payload_type then true
  else if negb (has p CapSdpMediaOverride) then false
  else match ov_sdp (overrides p) with Some o => allows_payload o payload_type | None => false end.
Definition sdp_attribute_allowed (p : CompatibilityProfile) (name : string) : bool :=
  if is_baseline_attribute name then true
  else if negb (has p CapSdpMediaOverride) then false
  else match ov_sdp (overrides p) with Some o => allows_attribute o name | None => false end.
Definition broadcast_address_source (p : CompatibilityProfile) : BroadcastAddressSource :=
  if negb (has p CapBroadcast) then MediaNodeAddress
  else match ov_broadcast (overrides p) with Some o => address_source o | None => MediaNodeAddress end.

Inductive MediaStatusOutcome := MediaStopped | MediaUnknown.
#[global] Instance MediaStatusOutcome_eq_dec : EqDecision MediaStatusOutcome.
Proof. solve_decision. Defined.
Definition MEDIA_STATUS_STOPPED_NOTIFY_TYPE : string := "121".
Definition media_status_outcome (p : CompatibilityProfile) (notify_type : string) : MediaStatusOutcome :=
  if negb (has p CapMediaStatus) then MediaUnknown
  else
    let notify_type := trim notify_type in
    if String.eqb notify_type MEDIA_STATUS_STOPPED_NOTIFY_TYPE then MediaStopped
    else if match ov_media_status (overrides p) with
            | Some o => is_stopped o notify_type | None => false end
    then MediaStopped else MediaUnknown.

(** ** The resolver *)

Inductive ProfileResolveError := Ambiguous (selector : ProfileSelector).

(** The loop over the profiles with their scores. *)
Fixpoint pick (best_score : Z) (scored : list (CompatibilityProfile * Z)) (best : option CompatibilityProfile)
    (selector : ProfileSelector) : result (option CompatibilityProfile) ProfileResolveError :=
  match scored with
  | [] => Ok best
  | (profile, s) :: scored =>
      if negb (s =? best_score) then pick best_score scored best selector
      else match best with
           | Some _ => Err (Ambiguous selector)
           | None => pick best_score scored (Some profile) selector
           end
  end.

Definition resolve (profiles : list CompatibilityProfile) (selector : ProfileSelector) :
    result CompatibilityProfile ProfileResolveError :=
  let scores := map (fun p => score p selector) profiles in
  let best_score := foldr Z.max 0 (List.filter (fun s => 0 <? s) scores) in
  if best_score =? 0 then Ok CompatibilityProfile_default
  else let? best := pick best_score (combine profiles scores) None selector in
       Ok (default CompatibilityProfile_default best).

(** ** What the resolver promises *)

(** A profile matches a device when every field it sets is the device's. *)
Definition field_matches (profile_value selector_value : option string) : bool :=
  match profile_value, selector_value with
  | Some p, Some s => eq_ignore_ascii_case p (trim s)
  | Some _, None => false
  | None, _ => true
  end.
Definition matches (p : CompatibilityProfile) (sel : ProfileSelector) : bool :=
  field_matches (firmware p) (sel_firmware sel) && field_matches (model p) (sel_model sel)
  && field_matches (manufacturer p) (sel_manufacturer sel)
  && field_matches (standard_version p) (sel_standard_version sel).

(** The fields a profile sets, the most specific first, and the order by them. *)
Definition rank (p : CompatibilityProfile) : list bool :=
  [bool_decide (is_Some (firmware p)); bool_decide (is_Some (model p));
   bool_decide (is_Some (manufacturer p)); bool_decide (is_Some (standard_version p))].
Fixpoint lex_lt (r1 r2 : list bool) : bool :=
  match r1, r2 with
  | b1 :: r1, b2 :: r2 => if Bool.eqb b1 b2 then lex_lt r1 r2 else negb b1
  | _, _ => false
  end.
Definition more_specific (p q : CompatibilityProfile) : bool := lex_lt (rank q) (rank p).
Definition blank (p : CompatibilityProfile) : bool := negb (existsb id (rank p)).

Definition weight (p : CompatibilityProfile) : Z :=
  match rank p with
  | [f; m; v; s] => 8 * Z.b2z f + 4 * Z.b2z m + 2 * Z.b2z v + Z.b2z s
  | _ => 0
  end.

Lemma score_weight p sel : score p sel = if matches p sel then weight p else 0.
Proof.
  unfold score, matches, weight, rank, add_field_score, field_matches.
  destruct (firmware p), (model p), (manufacturer p), (standard_version p); simpl;
    repeat case_match; simpl in *; simplify_eq; done.
Qed.

Lemma weight_lex p q : (weight q <? weight p) = more_specific p q.
Proof.
  unfold more_specific, weight, rank.
  destruct (firmware p), (model p), (manufacturer p), (standard_version p);
    destruct (firmware q), (model q), (manufacturer q), (standard_version q); reflexivity.
Qed.

Lemma weight_rank p q : weight p = weight q -> rank p = rank q.
Proof.
  unfold weight, rank.
  destruct (firmware p), (model p), (manufacturer p), (standard_version p);
    destruct (firmware q), (model q), (manufacturer q), (standard_version q);
    vm_compute; congruence.
Qed.

Lemma weight_blank p : 0 <= weight p /\ (weight p = 0 <-> blank p = true).
Proof.
  unfold weight, blank, rank.
  destruct (firmware p), (model p), (manufacturer p), (standard_version p);
    vm_compute; split; (discriminate || split; done).
Qed.

Lemma pick_found b scored p sel :
  pick b scored None sel = Ok (Some p) ->
  exists l1 l2, scored = l1 ++ (p, b) :: l2 /\ Forall (fun x => x.2 <> b) (l1 ++ l2).
Proof.
  assert (forall l p0 q, pick b l (Some p0) sel = Ok (Some q) -> q = p0 /\ Forall (fun x => x.2 <> b) l)
    as Hrest.
  { induction l as [|[q s] l IH]; intros p0 q0; simpl; [by intros [= <-]|].
    destruct (Z.eqb_spec s b) as [->|Hs]; simpl; [done|]. intros [-> ?]%IH. by split; [|constructor]. }
  induction scored as [|[q s] scored IH]; simpl; [done|].
  destruct (Z.eqb_spec s b) as [->|Hs]; simpl.
  - intros [<- Hf]%Hrest. by exists [], scored.
  - intros (l1 & l2 & -> & Hf)%IH. exists ((q, s) :: l1), l2. split; [done|]. by constructor.
Qed.

Lemma pick_none b scored sel : pick b scored None sel = Ok None -> Forall (fun x => x.2 <> b) scored.
Proof.
  assert (forall l p0, pick b l (Some p0) sel <> Ok None) as Hrest.
  { induction l as [|[q s] l IH]; intros p0; simpl; [done|]. by destruct (negb _). }
  induction scored as [|[q s] scored IH]; simpl; [constructor|].
  destruct (Z.eqb_spec s b) as [->|Hs]; simpl; [by intros ?%Hrest | auto].
Qed.

Lemma pick_ambiguous b scored e sel :
  pick b scored None sel = Err e ->
  e = Ambiguous sel /\ exists l1 p l2 q l3, scored = l1 ++ (p, b) :: l2 ++ (q, b) :: l3.
Proof.
  assert (forall l p0, pick b l (Some p0) sel = Err e ->
    e = Ambiguous sel /\ exists l2 q l3, l = l2 ++ (q, b) :: l3) as Hrest.
  { induction l as [|[q s] l IH]; intros p0; simpl; [done|].
    destruct (Z.eqb_spec s b) as [->|Hs]; simpl.
    - intros [= <-]. split; [done|]. by exists [], q, l.
    - intros (-> & l2 & q1 & l3 & ->)%IH. split; [done|]. by exists ((q, s) :: l2), q1, l3. }
  induction scored as [|[q s] scored IH]; simpl; [done|].
  destruct (Z.eqb_spec s b) as [->|Hs]; simpl.
  - intros (-> & l2 & q1 & l3 & ->)%Hrest. split; [done|]. by exists [], q, l2, q1, l3.
  - intros (-> & l1 & p & l2 & q1 & l3 & ->)%IH. split; [done|]. by exists ((q, s) :: l1), p, l2, q1, l3.
Qed.

(** The best score is that of the best profile. *)
Lemma best_score_spec (l : list Z) :
  let best := foldr Z.max 0 (List.filter (fun s => 0 <? s) l) in
  Forall (fun s => s <= best) l /\ 0 <= best /\ (0 < best -> best ∈ l).
Proof.
  induction l as [|s l (Hf & H0 & Hin)]; simpl; [split_and!; [constructor|lia|lia]|].
  destruct (Z.ltb_spec 0 s); simpl; split_and!; try lia.
  - constructor; [lia|]. eapply Forall_impl; [exact Hf|]. simpl. lia.
  - intros Hb. apply elem_of_cons. destruct (Z.max_spec s (foldr Z.max 0 (List.filter (fun s => 0 <? s) l)))
      as [[? ->]|[? ->]]; [right; apply Hin; lia | by left].
  - constructor; [lia|done].
  - intros Hb. apply elem_of_cons. auto.
Qed.

Lemma combine_map {A B} (f : A -> B) l : combine l (map f l) = (fun x => (x, f x)) <$> l.
Proof. induction l; simpl; by f_equal. Qed.

(** The profile [p] beats every other matching profile of [others]. *)
Definition beats (sel : ProfileSelector) (p : CompatibilityProfile) (others : list CompatibilityProfile) : Prop :=
  Forall (fun q => matches q sel = true -> more_specific p q = true) others.

Definition resolved (profiles : list CompatibilityProfile) (sel : ProfileSelector)
    (r : result CompatibilityProfile ProfileResolveError) : Prop :=
  match r with
  | Ok p =>
      (p = CompatibilityProfile_default /\ Forall (fun q => matches q sel = true -> blank q = true) profiles)
      \/ (exists l1 l2, profiles = l1 ++ p :: l2 /\ matches p sel = true /\ blank p = false
          /\ beats sel p (l1 ++ l2))
  | Err (Ambiguous s) =>
      s = sel /\ exists l1 p l2 q l3, profiles = l1 ++ p :: l2 ++ q :: l3
        /\ matches p sel = true /\ matches q sel = true /\ blank p = false /\ rank p = rank q
        /\ Forall (fun r => matches r sel = true -> more_specific r p = false) profiles
  end.

Lemma score_pos p sel : 0 < score p sel <-> matches p sel = true /\ blank p = false.
Proof.
  rewrite score_weight. destruct (weight_blank p) as [H0 Hb].
  destruct (matches p sel); [|split; [lia | by intros [? _]]].
  destruct (blank p).
  - rewrite (proj2 Hb eq_refl). split; [lia | by intros [_ ?]].
  - split; [done|]. intros _. destruct (Z.eq_dec (weight p) 0) as [Hw|]; [|lia].
    by apply Hb in Hw.
Qed.

Lemma score_below p q sel :
  matches p sel = true -> score q sel < score p sel ->
  matches q sel = true -> more_specific p q = true.
Proof.
  rewrite !score_weight. intros Hp Hlt Hq. rewrite Hp, Hq in Hlt. rewrite <-weight_lex. by apply Z.ltb_lt.
Qed.

Section Pick.
Context (sel : ProfileSelector) (profiles : list CompatibilityProfile) (best : Z) (Hpos : 0 < best).
Context (Hle : Forall (fun p => score p sel <= best) profiles).

Lemma picked_beats p :
  pick best ((fun p => (p, score p sel)) <$> profiles) None sel = Ok (Some p) ->
  resolved profiles sel (Ok p).
Proof.
  intros (l1 & l2 & Heq & Hf)%pick_found.
  apply fmap_app_inv in Heq as (k1 & k2 & -> & Heq & ->).
  symmetry in Heq. apply fmap_cons_inv in Heq as (p1 & k3 & [= <- Hs] & -> & ->).
  apply Forall_app in Hle as [Hle1 [_ Hle2]%Forall_cons].
  destruct (proj1 (score_pos p sel)) as [Hm Hbl]; [lia|].
  right. exists k1, k3. split_and!; [done..|]. unfold beats.
  rewrite Forall_app, !Forall_fmap in Hf. destruct Hf as [Hf1 Hf2]. rewrite Forall_app.
  split; apply Forall_forall; intros q Hq; apply score_below; try done; rewrite Forall_forall in *.
  - specialize (Hle1 q Hq). specialize (Hf1 q Hq). simpl in *. lia.
  - specialize (Hle2 q Hq). specialize (Hf2 q Hq). simpl in *. lia.
Qed.

Lemma picked_ambiguous e :
  pick best ((fun p => (p, score p sel)) <$> profiles) None sel = Err e ->
  resolved profiles sel (Err e).
Proof.
  intros (-> & l1 & p & l2 & q & l3 & Heq)%pick_ambiguous. split; [done|].
  apply fmap_app_inv in Heq as (k1 & k2 & -> & Heq & Hp).
  symmetry in Heq. apply fmap_cons_inv in Heq as (p1 & k3 & [= <- Hs] & Heq & ->).
  symmetry in Heq. apply fmap_app_inv in Heq as (k4 & k5 & -> & Heq & ->).
  symmetry in Heq. apply fmap_cons_inv in Heq as (q1 & k6 & [= <- Hs1] & -> & ->).
  destruct (proj1 (score_pos p sel)) as [Hm Hbl]; [lia|].
  destruct (proj1 (score_pos q sel)) as [Hm1 Hbl1]; [lia|].
  rewrite score_weight, Hm in Hs. rewrite score_weight, Hm1 in Hs1.
  exists k1, p, k4, q, k6. split_and!; [done..|apply weight_rank; lia|].
  eapply Forall_impl; [exact Hle|]. simpl. intros r Hr Hmr. rewrite score_weight, Hmr in Hr.
  rewrite <-weight_lex. apply Z.ltb_ge. lia.
Qed.

End Pick.

(** The resolver returns the one profile that matches the device and is
    more specific (firmware before model before manufacturer before standard
    version) than every other matching profile; the default when only blank
    profiles match; and an ambiguity error exactly when two matching profiles of
    the highest specificity set the same fields. *)
Theorem resolve_most_specific profiles sel : resolved profiles sel (resolve profiles sel).
Proof.
  unfold resolve. rewrite combine_map.
  destruct (best_score_spec (map (fun p => score p sel) profiles)) as (Hle & H0 & Hin).
  set (best := foldr Z.max 0 _) in *. rewrite Forall_map in Hle.
  destruct (Z.eqb_spec best 0) as [Hb|Hb].
  - left. split; [done|]. eapply Forall_impl; [exact Hle|]. simpl. intros q Hq Hm.
    destruct (blank q) eqn:Hbl; [done|]. pose proof (proj2 (score_pos q sel) (conj Hm Hbl)). lia.
  - assert (0 < best) as Hpos by lia. destruct (pick _ _ _ _) as [[p|]|e] eqn:Hp; simpl mbind.
    + by apply (picked_beats sel profiles best).
    + apply pick_none in Hp. rewrite Forall_fmap, Forall_forall in Hp.
      specialize (Hin Hpos). apply list_elem_of_fmap in Hin as (q & Hq & Hi). by destruct (Hp q Hi).
    + by apply (picked_ambiguous sel profiles best).
Qed.
