(* ===== verification/Operation.v ===== *)
(** * The operation aggregate

    [operation.rs]: a long running operation with its saga steps and the
    dispatch attempts of each step.  A method that takes [&mut self] is a
    computation in [dm], so an [Err] comes with the aggregate as the method left
    it.  [Op.call] has the public methods as data and [Op.exec] runs one. *)

From S2P Require Import Prelude RustStr Domain DomainData.

Open Scope string_scope.
Open Scope list_scope.
Open Scope Z_scope.

(** ** Dispatch attempts *)

Module Attempt.
Record DispatchAttempt := {
  attempt_id : Uuid;
  status : DispatchAttemptStatus;
  sent_at : option UtcTimestamp;
  acked_at : option UtcTimestamp;
  error : option OperationError
}.

Definition new (attempt_id : Uuid) : DispatchAttempt :=
  {| attempt_id := attempt_id; status := DaPending; sent_at := None; acked_at := None;
     error := None |}.

Section methods.
Context {W : Type} `{Clock W}.

Definition mark_sent : dm DispatchAttempt W unit :=
  let! now := dm_port now_wall in
  dm_mod (fun a => {| attempt_id := attempt_id a; status := DaSent; sent_at := Some now;
                      acked_at := acked_at a; error := error a |}).

Definition mark_acked : dm DispatchAttempt W unit :=
  let! now := dm_port now_wall in
  dm_mod (fun a => {| attempt_id := attempt_id a; status := DaAcked; sent_at := sent_at a;
                      acked_at := Some now; error := error a |}).

Definition mark_nacked (e : OperationError) : dm DispatchAttempt W unit :=
  do! dm_try (OperationError_validate e) in
  let! now := dm_port now_wall in
  dm_mod (fun a => {| attempt_id := attempt_id a; status := DaNacked; sent_at := sent_at a;
                      acked_at := Some now; error := Some e |}).

Definition mark_timed_out : dm DispatchAttempt W unit :=
  let! now := dm_port now_wall in
  dm_mod (fun a => {| attempt_id := attempt_id a; status := DaTimedOut; sent_at := sent_at a;
                      acked_at := Some now; error := error a |}).

Definition mark_dead_letter (e : OperationError) : dm DispatchAttempt W unit :=
  do! dm_try (OperationError_validate e) in
  let! now := dm_port now_wall in
  dm_mod (fun a => {| attempt_id := attempt_id a; status := DaDeadLetter; sent_at := sent_at a;
                      acked_at := Some now; error := Some e |}).
End methods.
End Attempt.

(** ** Saga steps *)

Module Step.
Record OperationStep := {
  step_id : Uuid;
  command : Command;
  status : OperationStepStatus;
  result : option OperationResult;
  attempts : list Attempt.DispatchAttempt;
  created_at : UtcTimestamp;
  updated_at : UtcTimestamp
}.

Definition set_status (st : OperationStepStatus) (s : OperationStep) : OperationStep :=
  {| step_id := step_id s; command := command s; status := st; result := result s;
     attempts := attempts s; created_at := created_at s; updated_at := updated_at s |}.
Definition set_result (r : option OperationResult) (s : OperationStep) : OperationStep :=
  {| step_id := step_id s; command := command s; status := status s; result := r;
     attempts := attempts s; created_at := created_at s; updated_at := updated_at s |}.
Definition set_attempts (l : list Attempt.DispatchAttempt) (s : OperationStep) : OperationStep :=
  {| step_id := step_id s; command := command s; status := status s; result := result s;
     attempts := l; created_at := created_at s; updated_at := updated_at s |}.
Definition set_updated_at (t : UtcTimestamp) (s : OperationStep) : OperationStep :=
  {| step_id := step_id s; command := command s; status := status s; result := result s;
     attempts := attempts s; created_at := created_at s; updated_at := t |}.

Section methods.
Context {W : Type} `{Clock W}.

Definition new (command : Command) (w : W) : OperationStep * W :=
  let step_id := match cmd_step_id command with
                 | Some id => id
                 | None => cmd_command_id command
                 end in
  let '(created_at, w) := now_wall w in
  let '(updated_at, w) := now_wall w in
  ({| step_id := step_id; command := command; status := SsPending; result := None;
      attempts := []; created_at := created_at; updated_at := updated_at |}, w).

Definition touch : dm OperationStep W unit :=
  let! now := dm_port now_wall in dm_mod (set_updated_at now).

Definition add_attempt (a : Attempt.DispatchAttempt) : dm OperationStep W unit :=
  do! dm_mod (fun s => set_attempts (attempts s ++ [a]) s) in touch.

Definition start : dm OperationStep W unit :=
  do! dm_mod (set_status SsRunning) in touch.

Definition complete (r : OperationResult) : dm OperationStep W unit :=
  do! dm_try (OperationResult_validate r) in
  do! dm_mod (set_status (if OperationResult_is_success r then SsSucceeded else SsFailed)) in
  do! dm_mod (set_result (Some r)) in
  touch.

Definition compensate : dm OperationStep W unit :=
  do! dm_mod (set_status SsCompensated) in touch.
End methods.

(** [attempt_mut]: the first attempt with the identifier. *)
Definition attempt_mut (id : Uuid) (s : OperationStep) : option (nat * Attempt.DispatchAttempt) :=
  list_find (fun a => Attempt.attempt_id a = id) (attempts s).
End Step.

(** ** Operations *)

Module Op.
Record Operation := {
  operation_id : Uuid;
  tenant_id : Uuid;
  device_id : Uuid;
  idempotency_scope : IdempotencyScope;
  principal : Principal;
  target : ResourceRef;
  command : Command;
  deadline : option UtcTimestamp;
  expected_owner_epoch : Z;
  status : OperationStatus;
  op_result : option OperationResult;
  op_error : option OperationError;
  steps : list Step.OperationStep;
  created_at : UtcTimestamp;
  updated_at : UtcTimestamp;
  revision : Z
}.

(** The assignments [self.f = v]; the fields from [operation_id] to
    [expected_owner_epoch] and [created_at] are never assigned. *)
Definition upd (o : Operation) (st : OperationStatus) (r : option OperationResult)
    (e : option OperationError) (ss : list Step.OperationStep) (t : UtcTimestamp) (rev : Z) :
    Operation :=
  {| operation_id := operation_id o; tenant_id := tenant_id o; device_id := device_id o;
     idempotency_scope := idempotency_scope o; principal := principal o; target := target o;
     command := command o; deadline := deadline o;
     expected_owner_epoch := expected_owner_epoch o; status := st; op_result := r;
     op_error := e; steps := ss; created_at := created_at o; updated_at := t;
     revision := rev |}.
Definition set_status (st : OperationStatus) (o : Operation) : Operation :=
  upd o st (op_result o) (op_error o) (steps o) (updated_at o) (revision o).
Definition set_result (r : option OperationResult) (o : Operation) : Operation :=
  upd o (status o) r (op_error o) (steps o) (updated_at o) (revision o).
Definition set_error (e : option OperationError) (o : Operation) : Operation :=
  upd o (status o) (op_result o) e (steps o) (updated_at o) (revision o).
Definition set_steps (ss : list Step.OperationStep) (o : Operation) : Operation :=
  upd o (status o) (op_result o) (op_error o) ss (updated_at o) (revision o).
Definition set_updated_at (t : UtcTimestamp) (o : Operation) : Operation :=
  upd o (status o) (op_result o) (op_error o) (steps o) t (revision o).
Definition set_revision (rev : Z) (o : Operation) : Operation :=
  upd o (status o) (op_result o) (op_error o) (steps o) (updated_at o) rev.

Definition is_terminal (o : Operation) : bool := OperationStatus_is_terminal (status o).

(** [current_step_mut]: the last step that is not terminal, with its index. *)
Definition current_step_mut (o : Operation) : option (nat * Step.OperationStep) :=
  match list_find (fun s => OperationStepStatus_is_terminal (Step.status s) = false)
          (reverse (steps o)) with
  | Some (i, s) => Some (length (steps o) - 1 - i, s)%nat
  | None => None
  end.

(** [step_mut]: the first step with the identifier. *)
Definition step_mut (id : Uuid) (o : Operation) : option (nat * Step.OperationStep) :=
  list_find (fun s => Step.step_id s = id) (steps o).

Definition state_changed_event (previous_status : OperationStatus) (o : Operation) : DomainEvent :=
  OperationStateChanged (operation_id o) (tenant_id o) previous_status (status o)
    (op_result o) (op_error o).

Section methods.
Context {W : Type} `{Clock W} `{IdGenerator W} `{DateRange}.

Definition new (context : RequestContext) (idempotency_key : string) (device_id : Uuid)
    (target : ResourceRef) (payload : CommandPayload) (deadline : option UtcTimestamp)
    (expected_owner_epoch : Z) (w : W) : result (Operation * DomainEvent) DomainError * W :=
  if is_nil device_id then (Err (invalid_argument "device_id must not be nil"), w) else
  match IdempotencyScope_new (rc_tenant_id context) (pr_id (rc_principal context)) target
          idempotency_key with
  | Err e => (Err e, w)
  | Ok idempotency_scope =>
      let '(operation_id, w) := generate_operation_id w in
      let '(initial_step_id, w) := generate_message_id w in
      let '(r, w) := Command_new operation_id (Some initial_step_id) (rc_tenant_id context)
          device_id idempotency_scope target payload deadline expected_owner_epoch
          (rc_principal context) (rc_correlation_id context) (rc_message_id context)
          (rc_traceparent context) (rc_tracestate context) w in
      match r with
      | Err e => (Err e, w)
      | Ok command =>
          let '(initial_step, w) := Step.new command w in
          let '(now, w) := now_wall w in
          let operation := {|
            operation_id := operation_id; tenant_id := rc_tenant_id context;
            device_id := device_id; idempotency_scope := idempotency_scope;
            principal := rc_principal context; target := target; command := command;
            deadline := deadline; expected_owner_epoch := expected_owner_epoch;
            status := OsPending; op_result := None; op_error := None;
            steps := [initial_step]; created_at := now; updated_at := now;
            revision := 0 |} in
          (Ok (operation,
               OperationSubmitted operation_id (tenant_id operation) device_id
                 idempotency_scope command), w)
      end
  end.

Definition bump : dm Operation W unit :=
  let! now := dm_port now_wall in
  do! dm_mod (set_updated_at now) in
  dm_mod (fun o => set_revision (wrap64 (revision o + 1)) o).

(** [if let Some(step) = self.current_step_mut() { step.m()?; }]. *)
Definition with_current_step (m : dm Step.OperationStep W unit) : dm Operation W unit :=
  let! o := dm_get in
  match current_step_mut o with
  | Some (i, s) => dm_elem steps set_steps i s m
  | None => dm_ret tt
  end.

Definition changed (previous : OperationStatus) : dm Operation W DomainEvent :=
  let! o := dm_get in dm_ret (state_changed_event previous o).

Definition start : dm Operation W DomainEvent :=
  let! self := dm_get in
  match status self with
  | OsPending =>
      do! dm_mod (set_status OsRunning) in
      do! (if decide (steps self = []) then
             let! step := dm_port (Step.new (command self)) in
             dm_mod (fun o => set_steps (steps o ++ [step]) o)
           else dm_ret tt) in
      do! with_current_step Step.start in
      do! bump in
      changed OsPending
  | OsRunning =>
      dm_err (invalid_transition "Operation" (OperationStatus_debug (status self)) "Running")
  | s =>
      if OperationStatus_is_terminal s
      then dm_err (already_terminal "Operation" (OperationStatus_debug s))
      else dm_err (invalid_transition "Operation" (OperationStatus_debug (status self)) "Running")
  end.

Definition complete (r : OperationResult) : dm Operation W DomainEvent :=
  do! dm_try (OperationResult_validate r) in
  let! self := dm_get in
  let to := if OperationResult_is_success r then "Succeeded" else "Failed" in
  match status self with
  | OsRunning =>
      let previous := status self in
      do! dm_mod (set_status (if OperationResult_is_success r then OsSucceeded else OsFailed)) in
      do! dm_mod (set_result (Some r)) in
      do! dm_mod (set_error None) in
      do! with_current_step (Step.complete r) in
      do! bump in
      changed previous
  | OsSucceeded | OsFailed =>
      dm_err (invalid_transition "Operation" (OperationStatus_debug (status self)) to)
  | s =>
      if OperationStatus_is_terminal s
      then dm_err (already_terminal "Operation" (OperationStatus_debug s))
      else dm_err (invalid_transition "Operation" (OperationStatus_debug (status self)) to)
  end.

Definition cancel : dm Operation W DomainEvent :=
  let! self := dm_get in
  match status self with
  | OsPending | OsRunning =>
      let previous := status self in
      do! dm_mod (set_status OsCancelled) in
      do! dm_mod (set_error (Some OperationError_cancelled)) in
      do! with_current_step (Step.complete (Failure "cancelled" "operation cancelled")) in
      do! bump in
      changed previous
  | OsSucceeded | OsFailed =>
      dm_err (invalid_transition "Operation" (OperationStatus_debug (status self)) "Cancelled")
  | OsCancelled | OsTimedOut =>
      dm_err (already_terminal "Operation" (OperationStatus_debug (status self)))
  end.

Definition fail (code message : string) : dm Operation W DomainEvent :=
  let! self := dm_get in
  match status self with
  | OsPending | OsRunning =>
      let previous := status self in
      do! dm_mod (set_status OsFailed) in
      let r := Failure code message in
      do! dm_try (OperationResult_validate r) in
      let error := {| oe_code := code; oe_message := message |} in
      do! dm_try (OperationError_validate error) in
      do! dm_mod (set_error (Some error)) in
      do! with_current_step (Step.complete r) in
      do! dm_mod (set_result (Some r)) in
      do! bump in
      changed previous
  | OsSucceeded | OsFailed =>
      dm_err (invalid_transition "Operation" (OperationStatus_debug (status self)) "Failed")
  | _ =>
      dm_err (already_terminal "Operation" (OperationStatus_debug (status self)))
  end.

Definition timeout (error : OperationError) : dm Operation W DomainEvent :=
  do! dm_try (OperationError_validate error) in
  let! self := dm_get in
  match status self with
  | OsPending | OsRunning =>
      let previous := status self in
      do! dm_mod (set_status OsTimedOut) in
      do! dm_mod (set_error (Some error)) in
      do! with_current_step (Step.complete (Failure (oe_code error) (oe_message error))) in
      do! bump in
      changed previous
  | OsSucceeded | OsFailed =>
      dm_err (invalid_transition "Operation" (OperationStatus_debug (status self)) "TimedOut")
  | OsCancelled | OsTimedOut =>
      dm_err (already_terminal "Operation" (OperationStatus_debug (status self)))
  end.

Definition expire : dm Operation W DomainEvent :=
  timeout OperationError_expired_before_dispatch.

Context `{UuidDisplay}.

Definition record_dispatch_attempt (step_id : Uuid) (a : Attempt.DispatchAttempt) :
    dm Operation W unit :=
  let! self := dm_get in
  match step_mut step_id self with
  | None => dm_err (not_found "operation step" (uuid_to_string step_id))
  | Some (i, s) =>
      do! dm_elem steps set_steps i s (Step.add_attempt a) in
      bump
  end.

(** The body the three [mark_dispatch_attempt_*] methods share: find the step,
    find the attempt in it, update the attempt, bump. *)
Definition on_attempt (step_id attempt_id : Uuid) (m : dm Attempt.DispatchAttempt W unit) :
    dm Operation W unit :=
  let! self := dm_get in
  match step_mut step_id self with
  | None => dm_err (not_found "operation step" (uuid_to_string step_id))
  | Some (i, s) =>
      match Step.attempt_mut attempt_id s with
      | None => dm_err (not_found "dispatch attempt" (uuid_to_string attempt_id))
      | Some (j, a) =>
          do! dm_elem steps set_steps i s (dm_elem Step.attempts Step.set_attempts j a m) in
          bump
      end
  end.

Definition mark_dispatch_attempt_sent (step_id attempt_id : Uuid) : dm Operation W unit :=
  on_attempt step_id attempt_id Attempt.mark_sent.
Definition mark_dispatch_attempt_acked (step_id attempt_id : Uuid) : dm Operation W unit :=
  on_attempt step_id attempt_id Attempt.mark_acked.
Definition mark_dispatch_attempt_nacked (step_id attempt_id : Uuid) (e : OperationError) :
    dm Operation W unit :=
  on_attempt step_id attempt_id (Attempt.mark_nacked e).
End methods.

(** ** Histories *)

(** The public methods that change an operation. *)
Inductive call :=
| Start
| Complete (r : OperationResult)
| Cancel
| Fail_ (code message : string)
| Timeout (e : OperationError)
| Expire
| RecordAttempt (step_id : Uuid) (a : Attempt.DispatchAttempt)
| MarkSent (step_id attempt_id : Uuid)
| MarkAcked (step_id attempt_id : Uuid)
| MarkNacked (step_id attempt_id : Uuid) (e : OperationError).

(** One method call; the methods that return [()] give no event. *)
Definition exec {W} `{Clock W, UuidDisplay} (c : call) : dm Operation W (option DomainEvent) :=
  let event (m : dm Operation W DomainEvent) := let! e := m in dm_ret (Some e) in
  let quiet (m : dm Operation W unit) := do! m in dm_ret None in
  match c with
  | Start => event start
  | Complete r => event (complete r)
  | Cancel => event cancel
  | Fail_ code message => event (fail code message)
  | Timeout e => event (timeout e)
  | Expire => event expire
  | RecordAttempt sid a => quiet (record_dispatch_attempt sid a)
  | MarkSent sid aid => quiet (mark_dispatch_attempt_sent sid aid)
  | MarkAcked sid aid => quiet (mark_dispatch_attempt_acked sid aid)
  | MarkNacked sid aid e => quiet (mark_dispatch_attempt_nacked sid aid e)
  end.
End Op.
