(* ===== verification/Lifecycle.v ===== *)
(** * Aggregates with a lifecycle

    What the domain layer promises of each of its aggregates, as a type class:
    a status with terminal states and allowed transitions, methods that either
    fail without effect or emit an event that tells the transition they made.
    The theorems on histories are proved once, from the class laws; the
    aggregates discharge the laws.  The observed data [D] of an aggregate is what
    its state-changed event carries (status, result, error). *)

From S2P Require Import Prelude RustStr Domain.

Open Scope Z_scope.

(** ** Histories of calls

    The calls that succeed, with their results. *)
Fixpoint dm_run {S W C A} (exec : C -> dm S W A) (cs : list C) (s : S) (w : W) : list (C * A) * S * W :=
  match cs with
  | [] => ([], s, w)
  | c :: cs =>
      let '(r, s1, w1) := exec c s w in
      let '(evs, s2, w2) := dm_run exec cs s1 w1 in
      (match r with Ok e => (c, e) :: evs | Err _ => evs end, s2, w2)
  end.

(** A relation that is reflexive and transitive and holds of every call holds of a history. *)
Lemma dm_run_rel {S W C A} (exec : C -> dm S W A) (R : S -> S -> Prop) `{!PreOrder R} cs s w :
  (forall c s w, R s (exec c s w).1.2) -> R s (dm_run exec cs s w).1.2.
Proof.
  intros Hstep. revert s w. induction cs as [|c cs IH]; intros s w; simpl; [reflexivity|].
  pose proof (Hstep c s w) as H1. destruct (exec c s w) as [[r s1] w1]. simpl in H1. specialize (IH s1 w1).
  destruct (dm_run exec cs s1 w1) as [[evs s2] w2]. simpl in *. by transitivity s1.
Qed.
(** An invariant of every call is one of a history. *)
Lemma dm_run_inv {S W C A} (exec : C -> dm S W A) (I : S -> Prop) cs s w :
  (forall c s w, I s -> I (exec c s w).1.2) -> I s -> I (dm_run exec cs s w).1.2.
Proof.
  intros Hstep. revert s w. induction cs as [|c cs IH]; intros s w Hs; simpl; [done|].
  pose proof (Hstep c s w Hs) as H1. destruct (exec c s w) as [[r s1] w1]. simpl in H1. specialize (IH s1 w1 H1).
  by destruct (dm_run exec cs s1 w1) as [[evs s2] w2].
Qed.

(** The revision counts the calls that succeed. *)
Lemma dm_run_count {S W C A} (exec : C -> dm S W A) (rev : S -> Z) cs s w :
  (forall c s w, rev (exec c s w).1.2 = if is_ok (exec c s w).1.1 then wrap64 (rev s + 1) else rev s) ->
  is_u64 (rev s) -> rev (dm_run exec cs s w).1.2 = wrap64 (rev s + Z.of_nat (length (dm_run exec cs s w).1.1)).
Proof.
  intros Hstep. revert s w. induction cs as [|c cs IH]; intros s w Hu; simpl.
  { by rewrite Z.add_0_r, wrap64_id. }
  pose proof (Hstep c s w) as H1. destruct (exec c s w) as [[r s1] w1]. simpl in H1. specialize (IH s1 w1).
  destruct (dm_run exec cs s1 w1) as [[evs s2] w2]. simpl in *. destruct r as [a|e]; simpl in *; rewrite H1 in IH.
  - rewrite (IH (wrap64_u64 _)). unfold wrap64. rewrite Zplus_mod_idemp_l. f_equal. lia.
  - by apply IH.
Qed.

(** ** Reasoning on methods

    A method moves the aggregate along a relation, also when it fails. *)
Definition moves {S W A} (R : S -> S -> Prop) (m : dm S W A) : Prop := forall s w, R s (m s w).1.2.

Section moves.
Context {S W : Type} (R : S -> S -> Prop) `{!PreOrder R}.
Lemma moves_ret {A} (a : A) : moves R (dm_ret (W := W) a).
Proof. intros s w. simpl. reflexivity. Qed.
Lemma moves_err {A} e : moves R (dm_err (W := W) (A := A) e).
Proof. intros s w. simpl. reflexivity. Qed.
Lemma moves_get : moves R (dm_get (W := W)).
Proof. intros s w. simpl. reflexivity. Qed.
Lemma moves_try {A} (r : result A DomainError) : moves R (dm_try (W := W) r).
Proof. intros s w. simpl. reflexivity. Qed.
Lemma moves_port {A} (f : W -> A * W) : moves R (dm_port f).
Proof. intros s w. unfold dm_port. destruct (f w). simpl. reflexivity. Qed.
Lemma moves_mod f : (forall s, R s (f s)) -> moves R (dm_mod (W := W) f).
Proof. intros Hf s w. apply Hf. Qed.
Lemma moves_bind {A B} (m : dm S W A) (k : A -> dm S W B) : moves R m -> (forall a, moves R (k a)) -> moves R (dm_bind m k).
Proof.
  intros Hm Hk s w. unfold dm_bind. specialize (Hm s w). destruct (m s w) as [[[a|e] s1] w1]; simpl in *; [|done].
  transitivity s1; [done|]. apply Hk.
Qed.
End moves.

(** ** The class *)

Class Lifecycle (S St D Call Ev W : Type) := {
  lc_data : S -> D;
  lc_st : D -> St;
  lc_revision : S -> Z;
  lc_exec : Call -> dm S W Ev;
  (** The previous status and the new data, for a state-changed event. *)
  lc_change : Ev -> option (St * D);
  lc_edge : St -> St -> bool;
  lc_terminal : St -> bool;
  (** Calls that do not touch the revision when they succeed. *)
  lc_unversioned : Call -> bool;
  (** Calls whose failure leaves the aggregate as it was. *)
  lc_atomic : Call -> bool
}.

Class LifecycleLaws S St D Call Ev W `{L : Lifecycle S St D Call Ev W} := {
  lc_ok : forall c s w e s1 w1,
    lc_exec c s w = (Ok e, s1, w1) ->
    match lc_change e with
    | Some (p, d) => p = lc_st (lc_data s) /\ d = lc_data s1 /\ lc_edge p (lc_st d) = true
    | None => lc_data s1 = lc_data s
    end;
  lc_ok_revision : forall c s w e s1 w1,
    lc_exec c s w = (Ok e, s1, w1) ->
    lc_revision s1 = if lc_unversioned c then lc_revision s else wrap64 (lc_revision s + 1);
  lc_err : forall c s w e s1 w1,
    lc_exec c s w = (Err e, s1, w1) -> lc_atomic c = true -> s1 = s;
  lc_edge_final : forall p n, lc_edge p n = true -> lc_terminal p = false
}.

(** A list of state-changed events leads from one observation to another: each
    starts where the one before ended and is an allowed transition. *)
Inductive path {St D} (st : D -> St) (edge : St -> St -> bool) : D -> list (St * D) -> D -> Prop :=
| path_nil d : path st edge d [] d
| path_cons d p d1 l d2 :
    p = st d -> edge p (st d1) = true -> path st edge d1 l d2 ->
    path st edge d ((p, d1) :: l) d2.

Section histories.
Context {S St D Call Ev W : Type} `{LL : LifecycleLaws S St D Call Ev W}.
Implicit Types (s : S) (w : W) (cs : list Call).

(** A history of calls: the calls that succeeded, with their events. *)
Fixpoint lc_run (cs : list Call) (s : S) (w : W) : list (Call * Ev) * S * W :=
  match cs with
  | [] => ([], s, w)
  | c :: cs =>
      let '(r, s1, w1) := lc_exec c s w in
      let '(evs, s2, w2) := lc_run cs s1 w1 in
      (match r with Ok e => (c, e) :: evs | Err _ => evs end, s2, w2)
  end.

Definition changes (evs : list (Call * Ev)) : list (St * D) := omap (fun ce => lc_change ce.2) evs.
Definition versioned (evs : list (Call * Ev)) : Z :=
  Z.of_nat (length (filter (fun ce => lc_unversioned ce.1 = false) evs)).

Lemma lc_run_path cs s w evs s1 w1 :
  lc_run cs s w = (evs, s1, w1) -> Forall (fun c => lc_atomic c = true) cs ->
  path lc_st lc_edge (lc_data s) (changes evs) (lc_data s1).
Proof.
  revert s w evs. induction cs as [|c cs IH]; intros s w evs Hrun Hat; simpl in *.
  { injection Hrun as <- <- <-. constructor. }
  apply Forall_cons in Hat as [Hc Hat].
  destruct (lc_exec c s w) as [[r s'] w'] eqn:He, (lc_run cs s' w') as [[evs' s2] w2] eqn:Hr.
  injection Hrun as <- <- <-. specialize (IH _ _ _ Hr Hat). destruct r as [e|e].
  - apply lc_ok in He. unfold changes in *. simpl. destruct (lc_change e) as [[p d]|].
    + destruct He as (-> & -> & Hedge). by constructor.
    + by rewrite <-He.
  - by rewrite (lc_err _ _ _ _ _ _ He Hc) in IH.
Qed.

Lemma lc_run_revision cs s w evs s1 w1 :
  lc_run cs s w = (evs, s1, w1) -> Forall (fun c => lc_atomic c = true) cs ->
  is_u64 (lc_revision s) ->
  lc_revision s1 = wrap64 (lc_revision s + versioned evs).
Proof.
  revert s w evs. induction cs as [|c cs IH]; intros s w evs Hrun Hat Hu; simpl in *.
  { injection Hrun as <- <- <-. unfold versioned. simpl. rewrite Z.add_0_r. by rewrite wrap64_id. }
  apply Forall_cons in Hat as [Hc Hat].
  destruct (lc_exec c s w) as [[r s'] w'] eqn:He, (lc_run cs s' w') as [[evs' s2] w2] eqn:Hr.
  injection Hrun as <- <- <-. specialize (IH _ _ _ Hr Hat). destruct r as [e|e].
  - apply lc_ok_revision in He. unfold versioned in *. rewrite filter_cons. simpl.
    destruct (lc_unversioned c); rewrite He in IH; [by apply IH|].
    rewrite (IH (wrap64_u64 _)). simpl. unfold wrap64.
    rewrite Zplus_mod_idemp_l. f_equal. lia.
  - rewrite (lc_err _ _ _ _ _ _ He Hc) in IH. auto.
Qed.

(** An invariant kept by every call is kept by a history. *)
Lemma lc_run_inv (I : S -> Prop) cs s w evs s1 w1 :
  (forall c s w r s1 w1, c ∈ cs -> I s -> lc_exec c s w = (r, s1, w1) -> I s1) ->
  lc_run cs s w = (evs, s1, w1) -> I s -> I s1.
Proof.
  revert s w evs. induction cs as [|c cs IH]; intros s w evs Hstep Hrun Hs; simpl in *.
  { by injection Hrun as <- <- <-. }
  destruct (lc_exec c s w) as [[r s'] w'] eqn:He, (lc_run cs s' w') as [[evs' s2] w2] eqn:Hr.
  injection Hrun as <- <- <-. eapply IH; [|done|].
  - intros c1 s3 w3 r3 s4 w4 Hin. apply Hstep, elem_of_cons. by right.
  - eapply (Hstep c); [apply elem_of_cons; by left| |]; eauto.
Qed.

(** A terminal status is final. *)
Lemma path_terminal d l d1 :
  path lc_st lc_edge d l d1 -> lc_terminal (lc_st d) = true -> l = [] /\ d1 = d.
Proof.
  intros Hp Ht. inversion Hp as [|? p ? ? ? Hpd Hedge ?]; subst; [done|].
  apply lc_edge_final in Hedge. congruence.
Qed.

(** Where every transition lowers a rank, the rank bounds their number. *)
Lemma path_rank (rank : St -> nat) d l d1 :
  (forall p n, lc_edge p n = true -> (rank n < rank p)%nat) ->
  path lc_st lc_edge d l d1 -> (length l + rank (lc_st d1) <= rank (lc_st d))%nat.
Proof.
  intros Hrank Hp. induction Hp as [|d p d1 l d2 -> Hedge _ IH]; simpl; [lia|].
  apply Hrank in Hedge. lia.
Qed.
End histories.
