(* ===== verification/OperationProps.v ===== *)
(** * Theorems on operations

    The lifecycle chart of an operation, the proof that the methods of
    [Operation.v] are a [Lifecycle] for it, the well-formedness invariant of the
    operations that [Operation::new] creates, and the claims. *)

From S2P Require Import Prelude RustStr Domain DomainData Operation Lifecycle.

Open Scope string_scope.
Open Scope list_scope.
Open Scope Z_scope.
Import Op.

(** ** Symbolic execution *)

Section lemmas.
Context {W : Type} `{Clock W, UuidDisplay}.
Implicit Types (o : Operation) (w : W).

Lemma set_steps_id o : set_steps (steps o) o = o.
Proof. by destruct o. Qed.

Lemma step_complete_valid r s w :
  OperationResult_validate r = Ok tt ->
  exists t w1, Step.complete r s w =
    (Ok tt, Step.set_updated_at t (Step.set_result (Some r)
      (Step.set_status (if OperationResult_is_success r then SsSucceeded else SsFailed) s)), w1).
Proof.
  intros Hv. unfold Step.complete, Step.touch. dm_unfold. rewrite Hv.
  destruct (now_wall w) as [t w1]. eauto.
Qed.

Lemma step_start_run s w :
  exists t w1, Step.start s w =
    (Ok tt, Step.set_updated_at t (Step.set_status SsRunning s), w1).
Proof. unfold Step.start, Step.touch. dm_unfold. destruct (now_wall w) as [t w1]. eauto. Qed.

Lemma bump_run o w :
  exists t w1, bump o w = (Ok tt, set_revision (wrap64 (revision o + 1)) (set_updated_at t o), w1).
Proof. unfold bump. dm_unfold. destruct (now_wall w) as [t w1]. eauto. Qed.

(** [only ss s1]: a list that was one live step is now the one step [s1]. *)
Definition only (ss ss1 : list Step.OperationStep)
    (f : UtcTimestamp -> Step.OperationStep -> Step.OperationStep) : Prop :=
  forall s, ss = [s] -> OperationStepStatus_is_terminal (Step.status s) = false ->
  exists t, ss1 = [f t s].

(** A method of the current step that does not fail changes the steps only. *)
Lemma with_current_step_run (m : dm Step.OperationStep W unit) f o w :
  (forall s w, exists t w1, m s w = (Ok tt, f t s, w1)) ->
  exists ss w1, with_current_step m o w = (Ok tt, set_steps ss o, w1) /\ only (steps o) ss f.
Proof.
  intros Hm. unfold with_current_step. dm_unfold.
  destruct (current_step_mut o) as [[i s]|] eqn:Hcur.
  - destruct (Hm s w) as (t & w1 & ->). do 2 eexists. split; [done|].
    intros s1 Hs Hlive. unfold current_step_mut in Hcur. rewrite Hs in Hcur. simpl in Hcur.
    rewrite decide_True in Hcur by done. injection Hcur as <- <-. rewrite Hs. simpl. eauto.
  - exists (steps o), w. rewrite set_steps_id. split; [done|]. intros s1 Hs Hlive.
    unfold current_step_mut in Hcur. rewrite Hs in Hcur. simpl in Hcur.
    by rewrite decide_True in Hcur by done.
Qed.

Definition finished (r : OperationResult) (t : UtcTimestamp) (s : Step.OperationStep) :=
  Step.set_updated_at t (Step.set_result (Some r)
    (Step.set_status (if OperationResult_is_success r then SsSucceeded else SsFailed) s)).
Definition started (t : UtcTimestamp) (s : Step.OperationStep) :=
  Step.set_updated_at t (Step.set_status SsRunning s).

Lemma complete_current_run r o w :
  OperationResult_validate r = Ok tt ->
  exists ss w1, with_current_step (Step.complete r) o w = (Ok tt, set_steps ss o, w1)
    /\ only (steps o) ss (finished r).
Proof. intros Hv. apply with_current_step_run. intros s w1. by apply step_complete_valid. Qed.

Lemma start_current_run o w :
  exists ss w1, with_current_step Step.start o w = (Ok tt, set_steps ss o, w1)
    /\ only (steps o) ss started.
Proof. apply with_current_step_run. intros s w1. apply step_start_run. Qed.

(** *** The effect of each method, branch by branch *)

Definition ended (o : Operation) st r e ss t : Operation :=
  upd o st r e ss t (wrap64 (revision o + 1)).
Definition live (st : OperationStatus) : bool := negb (OperationStatus_is_terminal st).

Lemma start_run o w :
  status o = OsPending ->
  exists ss t w1,
    let o1 := ended o OsRunning (op_result o) (op_error o) ss t in
    start o w = (Ok (state_changed_event OsPending o1), o1, w1) /\ only (steps o) ss started.
Proof.
  intros Hst. unfold start, changed. unfold dm_bind at 1, dm_get at 1. rewrite Hst.
  unfold dm_bind at 1, dm_mod at 1.
  case_decide as Hnil.
  - dm_unfold. destruct (Step.new (command o) w) as [s w1]. simpl.
    edestruct start_current_run as (ss & w2 & -> & _).
    edestruct bump_run as (t & w3 & ->). do 3 eexists. split; [done|].
    intros s1 Hs. congruence.
  - dm_unfold. edestruct start_current_run as (ss & w2 & -> & Honly).
    edestruct bump_run as (t & w3 & ->). do 3 eexists. by split.
Qed.

Lemma start_rejected o w : status o <> OsPending -> exists e, start o w = (Err e, o, w).
Proof. intros. unfold start. dm_unfold. destruct (status o); simpl; eauto; done. Qed.

Lemma complete_run r o w :
  OperationResult_validate r = Ok tt -> status o = OsRunning ->
  exists ss t w1,
    let o1 := ended o (if OperationResult_is_success r then OsSucceeded else OsFailed)
                (Some r) None ss t in
    complete r o w = (Ok (state_changed_event OsRunning o1), o1, w1)
    /\ only (steps o) ss (finished r).
Proof.
  intros Hv Hst. unfold complete, changed. dm_unfold. rewrite Hv, Hst.
  edestruct (complete_current_run r) as (ss & w2 & -> & Honly); [done|].
  edestruct bump_run as (t & w3 & ->). do 3 eexists. by split.
Qed.

Lemma complete_rejected r o w :
  OperationResult_validate r <> Ok tt \/ status o <> OsRunning ->
  exists e, complete r o w = (Err e, o, w).
Proof.
  intros Hr. unfold complete. dm_unfold.
  destruct (OperationResult_validate r) as [[]|e]; [|eauto].
  destruct (status o); simpl; eauto; naive_solver.
Qed.

Lemma cancel_run o w :
  live (status o) = true ->
  exists ss t w1,
    let o1 := ended o OsCancelled (op_result o) (Some OperationError_cancelled) ss t in
    cancel o w = (Ok (state_changed_event (status o) o1), o1, w1)
    /\ only (steps o) ss (finished (Failure "cancelled" "operation cancelled")).
Proof.
  intros Hst. unfold cancel, changed. dm_unfold. destruct (status o) eqn:Hs; try done.
  all: edestruct (complete_current_run (Failure "cancelled" "operation cancelled"))
    as (ss & w2 & -> & Honly); [done|].
  all: edestruct bump_run as (t & w3 & ->); do 3 eexists; by split.
Qed.

Lemma cancel_rejected o w : live (status o) = false -> exists e, cancel o w = (Err e, o, w).
Proof. intros. unfold cancel. dm_unfold. destruct (status o); simpl; eauto; done. Qed.

Definition fits (code message : string) : bool :=
  (str_len code <=? MAX_OPERATION_ERROR_CODE_BYTES)
  && (str_len message <=? MAX_OPERATION_ERROR_MESSAGE_BYTES).

Lemma validate_fits code message :
  fits code message = true ->
  OperationResult_validate (Failure code message) = Ok tt
  /\ OperationError_validate {| oe_code := code; oe_message := message |} = Ok tt.
Proof.
  unfold fits, OperationResult_validate, OperationError_validate. simpl. intros Hf.
  bool_prop. by rewrite !(proj2 (Z.ltb_ge _ _)).
Qed.

Lemma validate_not_fits code message :
  fits code message = false ->
  exists e, OperationResult_validate (Failure code message) = Err e
  /\ OperationError_validate {| oe_code := code; oe_message := message |} = Err e.
Proof.
  unfold fits, OperationResult_validate, OperationError_validate. simpl. intros Hf.
  rewrite !Z.leb_antisym in Hf. repeat case_match; simpl in *; eauto; done.
Qed.

Lemma fail_run code message o w :
  fits code message = true -> live (status o) = true ->
  exists ss t w1,
    let o1 := ended o OsFailed (Some (Failure code message))
                (Some {| oe_code := code; oe_message := message |}) ss t in
    fail code message o w = (Ok (state_changed_event (status o) o1), o1, w1)
    /\ only (steps o) ss (finished (Failure code message)).
Proof.
  intros [Hv Hv2]%validate_fits Hst. unfold fail, changed. dm_unfold. rewrite Hv, Hv2.
  destruct (status o) eqn:Hs; try done.
  all: edestruct (complete_current_run (Failure code message)) as (ss & w2 & -> & Honly); [done|].
  all: edestruct bump_run as (t & w3 & ->); do 3 eexists; by split.
Qed.

(** The status is assigned before the code and the message are validated. *)
Lemma fail_oversized code message o w :
  fits code message = false -> live (status o) = true ->
  exists e, fail code message o w = (Err e, set_status OsFailed o, w).
Proof.
  intros (e & Hv & _)%validate_not_fits Hst. unfold fail. dm_unfold. rewrite Hv.
  destruct (status o); try done; eauto.
Qed.

Lemma fail_rejected code message o w :
  live (status o) = false -> exists e, fail code message o w = (Err e, o, w).
Proof. intros. unfold fail. dm_unfold. destruct (status o); simpl; eauto; done. Qed.

Lemma timeout_run e o w :
  OperationError_validate e = Ok tt -> live (status o) = true ->
  exists ss t w1,
    let o1 := ended o OsTimedOut (op_result o) (Some e) ss t in
    timeout e o w = (Ok (state_changed_event (status o) o1), o1, w1)
    /\ only (steps o) ss (finished (Failure (oe_code e) (oe_message e))).
Proof.
  intros Hv Hst. unfold timeout, changed. dm_unfold. rewrite Hv.
  assert (OperationResult_validate (Failure (oe_code e) (oe_message e)) = Ok tt) by done.
  destruct (status o) eqn:Hs; try done.
  all: edestruct (complete_current_run (Failure (oe_code e) (oe_message e)))
    as (ss & w2 & -> & Honly); [done|].
  all: edestruct bump_run as (t & w3 & ->); do 3 eexists; by split.
Qed.

Lemma timeout_rejected e o w :
  OperationError_validate e <> Ok tt \/ live (status o) = false ->
  exists e1, timeout e o w = (Err e1, o, w).
Proof.
  intros Hr. unfold timeout. dm_unfold.
  destruct (OperationError_validate e) as [[]|e1]; [|eauto].
  destruct (status o); simpl; eauto; naive_solver.
Qed.

(** *** Dispatch attempts *)

Definition touched (o : Operation) ss t : Operation :=
  ended o (status o) (op_result o) (op_error o) ss t.

Lemma record_run sid a o w i s :
  step_mut sid o = Some (i, s) ->
  exists t1 t w1,
    record_dispatch_attempt sid a o w =
      (Ok tt, touched o (<[i := Step.set_updated_at t1
                             (Step.set_attempts (Step.attempts s ++ [a]) s)]> (steps o)) t, w1).
Proof.
  intros Hs. unfold record_dispatch_attempt, Step.add_attempt, Step.touch, bump. dm_unfold.
  rewrite Hs. destruct (now_wall w) as [t1 w1]. destruct (now_wall w1) as [t w2].
  by do 3 eexists.
Qed.

Lemma record_rejected sid a o w :
  step_mut sid o = None -> exists e, record_dispatch_attempt sid a o w = (Err e, o, w).
Proof. intros Hs. unfold record_dispatch_attempt. dm_unfold. rewrite Hs. eauto. Qed.

Lemma on_attempt_run (m : dm Attempt.DispatchAttempt W unit) sid aid o w i s j a a1 w1 :
  step_mut sid o = Some (i, s) -> Step.attempt_mut aid s = Some (j, a) ->
  m a w = (Ok tt, a1, w1) ->
  exists t w2,
    on_attempt sid aid m o w =
      (Ok tt, touched o (<[i := Step.set_attempts (<[j := a1]> (Step.attempts s)) s]> (steps o)) t,
       w2).
Proof.
  intros Hs Ha Hm. unfold on_attempt, bump. dm_unfold. rewrite Hs, Ha, Hm.
  destruct (now_wall w1) as [t w2]. by do 2 eexists.
Qed.

Lemma insert_found_id o i s j a sid aid :
  step_mut sid o = Some (i, s) -> Step.attempt_mut aid s = Some (j, a) ->
  set_steps (<[i := Step.set_attempts (<[j := a]> (Step.attempts s)) s]> (steps o)) o = o.
Proof.
  intros (Hi & _)%list_find_Some (Hj & _)%list_find_Some.
  rewrite (list_insert_id _ j) by done.
  replace (Step.set_attempts (Step.attempts s) s) with s by (by destruct s).
  by rewrite list_insert_id, set_steps_id.
Qed.

(** A method of the attempt that fails without effect leaves the operation
    alone. *)
Lemma on_attempt_rejected (m : dm Attempt.DispatchAttempt W unit) sid aid o w e o1 w1 :
  (forall a w e a1 w1, m a w = (Err e, a1, w1) -> a1 = a) ->
  on_attempt sid aid m o w = (Err e, o1, w1) -> o1 = o.
Proof.
  intros Hm. unfold on_attempt, bump. dm_unfold.
  destruct (step_mut sid o) as [[i s]|] eqn:Hs; [|congruence].
  destruct (Step.attempt_mut aid s) as [[j a]|] eqn:Ha; [|congruence].
  destruct (m a w) as [[[[]|e1] a1] w2] eqn:He.
  - destruct (now_wall w2). congruence.
  - apply Hm in He as ->. intros [= <- <- <-]. by eapply insert_found_id.
Qed.

Lemma on_attempt_ok (m : dm Attempt.DispatchAttempt W unit) sid aid o w u o1 w1 :
  on_attempt sid aid m o w = (Ok u, o1, w1) ->
  exists i s l t, steps o !! i = Some s
    /\ o1 = touched o (<[i := Step.set_attempts l s]> (steps o)) t.
Proof.
  unfold on_attempt, bump. dm_unfold.
  destruct (step_mut sid o) as [[i s]|] eqn:Hs; [|congruence].
  destruct (Step.attempt_mut aid s) as [[j a]|] eqn:Ha; [|congruence].
  destruct (m a w) as [[[[]|e1] a1] w2] eqn:He; [|congruence].
  destruct (now_wall w2). intros [= <- <- <-]. apply list_find_Some in Hs as (Hs & _).
  by do 4 eexists.
Qed.

Lemma mark_nacked_err e a (w : W) e1 a1 w1 :
  Attempt.mark_nacked e a w = (Err e1, a1, w1) -> a1 = a.
Proof.
  unfold Attempt.mark_nacked. dm_unfold.
  destruct (OperationError_validate e); [destruct (now_wall w)|]; congruence.
Qed.
Lemma mark_sent_err a (w : W) e1 a1 w1 : Attempt.mark_sent a w = (Err e1, a1, w1) -> a1 = a.
Proof. unfold Attempt.mark_sent. dm_unfold. destruct (now_wall w). congruence. Qed.
Lemma mark_acked_err a (w : W) e1 a1 w1 : Attempt.mark_acked a w = (Err e1, a1, w1) -> a1 = a.
Proof. unfold Attempt.mark_acked. dm_unfold. destruct (now_wall w). congruence. Qed.
End lemmas.

(** ** The lifecycle chart *)

(** What [OperationStateChanged] tells of an operation. *)
Definition observation : Type := OperationStatus * option OperationResult * option OperationError.
Definition observe (o : Operation) : observation := (status o, op_result o, op_error o).

(** Pending may start or end without having run; running ends in any way; the
    four ends are final. *)
Definition op_edge (p n : OperationStatus) : bool :=
  match p, n with
  | OsPending, (OsRunning | OsFailed | OsCancelled | OsTimedOut) => true
  | OsRunning, (OsSucceeded | OsFailed | OsCancelled | OsTimedOut) => true
  | _, _ => false
  end.

Definition op_change (e : option DomainEvent) : option (OperationStatus * observation) :=
  match e with
  | Some (OperationStateChanged _ _ p n r err) => Some (p, (n, r, err))
  | _ => None
  end.

(** Every failing call but [fail] with an oversized text. *)
Definition op_atomic (c : call) : bool :=
  match c with Fail_ code message => fits code message | _ => true end.

#[global] Instance op_lifecycle {W} `{Clock W, UuidDisplay} :
  Lifecycle Operation OperationStatus observation call (option DomainEvent) W := {|
  lc_data := observe;
  lc_st := fun d => d.1.1;
  lc_revision := revision;
  lc_exec := exec;
  lc_change := op_change;
  lc_edge := op_edge;
  lc_terminal := OperationStatus_is_terminal;
  lc_unversioned := fun _ => false;
  lc_atomic := op_atomic
|}.

Section laws.
Context {W : Type} `{Clock W, UuidDisplay}.
Implicit Types (o : Operation) (w : W).

(** How an operation ends: the status, the result and the error it gets, and
    the result its step is completed with. *)
Definition ends (r0 : option OperationResult) (st : OperationStatus)
    (r : option OperationResult) (e : option OperationError) (res : OperationResult) : Prop :=
  match st with
  | OsSucceeded => res = Success /\ r = Some Success /\ e = None
  | OsFailed => exists c m, res = Failure c m /\ fits c m = true /\ r = Some res
      /\ (e = None \/ e = Some {| oe_code := c; oe_message := m |})
  | OsCancelled => (exists c m, res = Failure c m) /\ r = r0 /\ e = Some OperationError_cancelled
  | OsTimedOut => exists c m, res = Failure c m /\ fits c m = true /\ r = r0
      /\ e = Some {| oe_code := c; oe_message := m |}
  | _ => False
  end.

(** A change of the attempts of a step. *)
Definition attempts_only (ss ss1 : list Step.OperationStep) : Prop :=
  forall s, ss = [s] -> exists l t, ss1 = [Step.set_updated_at t (Step.set_attempts l s)].

(** The shapes a call can have: it starts the operation, ends it, changes the
    attempts, or fails; the last constructor is the failure that leaves a
    trace. *)
Inductive exec_shape (c : call) o w : result (option DomainEvent) DomainError -> Operation -> Prop :=
| shape_start ss t (o1 := ended o OsRunning (op_result o) (op_error o) ss t) :
    status o = OsPending -> only (steps o) ss started ->
    exec_shape c o w (Ok (Some (state_changed_event (status o) o1))) o1
| shape_end st r e res ss t (o1 := ended o st r e ss t) :
    op_edge (status o) st = true -> ends (op_result o) st r e res ->
    only (steps o) ss (finished res) ->
    exec_shape c o w (Ok (Some (state_changed_event (status o) o1))) o1
| shape_touch ss t :
    attempts_only (steps o) ss -> exec_shape c o w (Ok None) (touched o ss t)
| shape_err e : exec_shape c o w (Err e) o
| shape_poison e : op_atomic c = false ->
    exec_shape c o w (Err e) (set_status OsFailed o).

Lemma insert_attempts_only (ss : list Step.OperationStep) i s l t :
  ss !! i = Some s ->
  attempts_only ss (<[i := Step.set_updated_at t (Step.set_attempts l s)]> ss).
Proof. intros Hi s1 ->. destruct i; simpl in *; [|done]. injection Hi as <-. eauto. Qed.

Lemma exec_on_attempt c (m : dm Attempt.DispatchAttempt W unit) sid aid o w r o1 w1 :
  (forall a w e a1 w1, m a w = (Err e, a1, w1) -> a1 = a) ->
  dm_bind (on_attempt sid aid m) (fun _ => dm_ret None) o w = (r, o1, w1) ->
  exec_shape c o w r o1.
Proof.
  intros Hm [(u & o2 & w2 & Hon & [= <- <- <-])|(e & Hon & ->)]%dm_bind_inv.
  - apply on_attempt_ok in Hon as (i & s & l & t & Hi & ->). constructor.
    replace (Step.set_attempts l s)
      with (Step.set_updated_at (Step.updated_at s) (Step.set_attempts l s)) by done.
    by apply insert_attempts_only.
  - apply on_attempt_rejected in Hon as ->; [constructor | done].
Qed.

Lemma ends_failed code msg r0 : fits code msg = true ->
  ends r0 OsFailed (Some (Failure code msg)) (Some {| oe_code := code; oe_message := msg |})
    (Failure code msg).
Proof. intros. simpl. eauto 10. Qed.

Lemma ends_timed_out e r0 : OperationError_validate e = Ok tt ->
  ends r0 OsTimedOut r0 (Some e) (Failure (oe_code e) (oe_message e)).
Proof.
  intros Hv. destruct e as [code msg]. exists code, msg. split_and!; try done.
  destruct (fits code msg) eqn:Hf; [done|].
  destruct (validate_not_fits _ _ Hf) as (e & _ & ?). congruence.
Qed.

Lemma ends_completed res r0 : OperationResult_validate res = Ok tt ->
  ends r0 (if OperationResult_is_success res then OsSucceeded else OsFailed) (Some res) None res.
Proof.
  destruct res as [|code msg]; [done|]. intros Hv. exists code, msg. split_and!; auto.
  destruct (fits code msg) eqn:Hf; [done|].
  destruct (validate_not_fits _ _ Hf) as (e & ? & _). congruence.
Qed.

Lemma edge_live st : live st = true ->
  op_edge st OsFailed = true /\ op_edge st OsCancelled = true /\ op_edge st OsTimedOut = true.
Proof. by destruct st. Qed.

(** Use the equation of a run or of a rejection in the hypothesis [H]. *)
Ltac ran H L :=
  edestruct L as (? & ? & ? & Hrun & Honly);
  [.. | unfold dm_bind in H; rewrite Hrun in H; injection H as <- <- <-].
Ltac rejected H L :=
  edestruct L as (? & Hrej);
  [.. | unfold dm_bind in H; rewrite Hrej in H; injection H as <- <- <-; apply shape_err].

Lemma exec_timeout_shaped c e o w r o1 w1 :
  (let! ev := timeout e in dm_ret (Some ev)) o w = (r, o1, w1) -> exec_shape c o w r o1.
Proof.
  intros He. destruct (OperationError_validate e) as [[]|?] eqn:Hv;
    [destruct (live (status o)) eqn:Hl|].
  - ran He timeout_run; [done..|]. eapply shape_end; [by apply edge_live| |done].
    by apply ends_timed_out.
  - rejected He timeout_rejected. by right.
  - rejected He timeout_rejected. left. congruence.
Qed.

Lemma exec_shaped c o w r o1 w1 : exec c o w = (r, o1, w1) -> exec_shape c o w r o1.
Proof.
  destruct c as [|res| |code msg|e| |sid a|sid aid|sid aid|sid aid e]; simpl; intros He.
  - destruct (decide (status o = OsPending)) as [Hp|Hp].
    + ran He start_run; [done|]. rewrite <-Hp at 1. by apply shape_start.
    + by rejected He start_rejected.
  - destruct (OperationResult_validate res) as [[]|?] eqn:Hv;
      [destruct (decide (status o = OsRunning)) as [Hp|Hp]|].
    + ran He complete_run; [done..|]. rewrite <-Hp at 1. eapply shape_end; [| |done].
      * rewrite Hp. by destruct res.
      * by apply ends_completed.
    + rejected He complete_rejected. by right.
    + rejected He complete_rejected. left. congruence.
  - destruct (live (status o)) eqn:Hl; [|by rejected He cancel_rejected].
    ran He cancel_run; [done|]. eapply shape_end; [by apply edge_live| |done].
    simpl. eauto.
  - destruct (live (status o)) eqn:Hl; [|by rejected He fail_rejected].
    destruct (fits code msg) eqn:Hf.
    + ran He fail_run; [done..|]. eapply shape_end; [by apply edge_live| |done].
      by apply ends_failed.
    + edestruct fail_oversized as (? & Hrej); [done..|].
      unfold dm_bind in He. rewrite Hrej in He. injection He as <- <- <-. by apply shape_poison.
  - by eapply exec_timeout_shaped.
  - by eapply exec_timeout_shaped.
  - destruct (step_mut sid o) as [[i s]|] eqn:Hs; [|by rejected He record_rejected].
    edestruct record_run as (? & ? & ? & Hrun); [done|].
    unfold dm_bind in He. rewrite Hrun in He. injection He as <- <- <-. constructor.
    apply insert_attempts_only. by apply list_find_Some in Hs as (? & _).
  - eapply exec_on_attempt, He. apply mark_sent_err.
  - eapply exec_on_attempt, He. apply mark_acked_err.
  - eapply exec_on_attempt, He. apply mark_nacked_err.
Qed.

#[global] Instance op_laws :
  LifecycleLaws Operation OperationStatus observation call (option DomainEvent) W.
Proof.
  constructor; simpl.
  - intros c o w e o1 w1 Hs%exec_shaped. inversion Hs as [ss t ? Hp| | | |]; try done.
    simpl. by rewrite Hp.
  - intros c o w e o1 w1 Hs%exec_shaped. by inversion Hs.
  - intros c o w e o1 w1 Hs%exec_shaped Ha. inversion Hs; [done|congruence].
  - by intros [] [].
Qed.

Definition op_rank (st : OperationStatus) : nat :=
  match st with OsPending => 2 | OsRunning => 1 | _ => 0 end.
Lemma op_edge_rank p n : op_edge p n = true -> (op_rank n < op_rank p)%nat.
Proof. destruct p, n; simpl; try done; lia. Qed.
End laws.

(** ** The well-formedness invariant *)

(** Result and error fit the status. *)
Definition outcome_ok (o : Operation) : Prop :=
  match status o with
  | OsPending | OsRunning => op_result o = None /\ op_error o = None
  | st => exists res, ends None st (op_result o) (op_error o) res
  end.

(** The status and the result the single step has. *)
Definition step_ok (o : Operation) (s : Step.OperationStep) : Prop :=
  match status o with
  | OsPending => Step.status s = SsPending /\ Step.result s = None
  | OsRunning => Step.status s = SsRunning /\ Step.result s = None
  | OsSucceeded => Step.status s = SsSucceeded /\ Step.result s = Some Success
  | OsFailed => Step.status s = SsFailed /\ Step.result s = op_result o
  | OsCancelled | OsTimedOut =>
      Step.status s = SsFailed /\ exists c m, Step.result s = Some (Failure c m)
  end.

Definition op_inv (o : Operation) : Prop :=
  outcome_ok o /\ exists s, steps o = [s] /\ Step.command s = command o /\ step_ok o s.

(** The part of an operation that no method assigns. *)
Definition identity (o : Operation) :=
  (operation_id o, tenant_id o, device_id o, idempotency_scope o, principal o, target o,
   command o, deadline o, expected_owner_epoch o, created_at o).

Section invariant.
Context {W : Type} `{Clock W, UuidDisplay}.
Implicit Types (o : Operation) (w : W).

Lemma inv_live_step o s :
  op_inv o -> steps o = [s] -> OperationStatus_is_terminal (status o) = false ->
  OperationStepStatus_is_terminal (Step.status s) = false.
Proof.
  intros (_ & s1 & Hs & _ & Hok) Hs1 Hl. rewrite Hs1 in Hs. injection Hs as <-.
  unfold step_ok in Hok. destruct (status o); simpl in *; try done; by destruct Hok as [-> _].
Qed.

Lemma edge_source_live p n : op_edge p n = true -> OperationStatus_is_terminal p = false.
Proof. by destruct p, n. Qed.

Lemma inv_live_outcome o :
  op_inv o -> OperationStatus_is_terminal (status o) = false -> op_result o = None.
Proof. intros [Hout _] Hl. unfold outcome_ok in Hout. destruct (status o); naive_solver. Qed.

Lemma ended_inv o st r e res ss t :
  op_inv o -> op_edge (status o) st = true -> ends (op_result o) st r e res ->
  only (steps o) ss (finished res) -> op_inv (ended o st r e ss t).
Proof.
  intros Hinv Hedge Hends Honly.
  pose proof (edge_source_live _ _ Hedge) as Hl.
  pose proof (inv_live_outcome o Hinv Hl) as Hr. pose proof Hinv as (_ & s & Hs & Hcmd & _).
  destruct (Honly s Hs) as [t1 ->]; [by eapply inv_live_step|].
  rewrite Hr in Hends. split.
  - unfold outcome_ok. simpl. destruct st; eauto; done.
  - exists (finished res t1 s). split_and!; try done. unfold step_ok. simpl.
    destruct st; simpl in *; naive_solver.
Qed.

Lemma started_inv o ss t :
  op_inv o -> status o = OsPending -> only (steps o) ss started ->
  op_inv (ended o OsRunning (op_result o) (op_error o) ss t).
Proof.
  intros Hinv Hp Honly. pose proof Hinv as (Hout & s & Hs & Hcmd & Hok).
  destruct (Honly s Hs) as [t1 ->]; [by eapply inv_live_step; [..|rewrite Hp]|].
  unfold outcome_ok, step_ok in *. rewrite Hp in *. split; [done|].
  exists (started t1 s). unfold step_ok. naive_solver.
Qed.

Lemma touched_inv o ss t : op_inv o -> attempts_only (steps o) ss -> op_inv (touched o ss t).
Proof.
  intros (Hout & s & Hs & Hcmd & Hok) Hss. destruct (Hss s Hs) as (l & t1 & ->).
  split; [done|]. by eexists.
Qed.

Lemma exec_inv c o w r o1 w1 :
  op_atomic c = true -> op_inv o -> exec c o w = (r, o1, w1) ->
  op_inv o1 /\ identity o1 = identity o.
Proof.
  intros Ha Hinv Hs%exec_shaped. inversion Hs; subst; try done.
  - split; [by apply started_inv | done].
  - split; [by eapply ended_inv | done].
  - split; [by apply touched_inv | done].
  - congruence.
Qed.
End invariant.

(** ** Creation *)

Definition new_accepts `{DateRange} (context : RequestContext) (idempotency_key : string)
    (device_id : Uuid) (payload : CommandPayload) : bool :=
  negb (is_nil device_id) && negb (is_empty_str idempotency_key)
  && (str_len idempotency_key <=? MAX_IDEMPOTENCY_KEY_BYTES)
  && (str_len (pr_id (rc_principal context)) <=? MAX_PRINCIPAL_ID_BYTES)
  && is_ok (CommandPayload_validate payload).

Section creation.
Context {W : Type} `{Clock W, IdGenerator W, DateRange}.

Lemma scope_new_spec tenant principal target key :
  match IdempotencyScope_new tenant principal target key with
  | Ok sc => negb (is_empty_str key) && (str_len key <=? MAX_IDEMPOTENCY_KEY_BYTES)
               && (str_len principal <=? MAX_PRINCIPAL_ID_BYTES) = true
             /\ sc = {| is_tenant_id := tenant; is_principal_id := principal;
                        is_target := target; is_idempotency_key := key |}
  | Err e => negb (is_empty_str key) && (str_len key <=? MAX_IDEMPOTENCY_KEY_BYTES)
               && (str_len principal <=? MAX_PRINCIPAL_ID_BYTES) = false
             /\ exists m, e = InvalidArgument m
  end.
Proof.
  unfold IdempotencyScope_new, invalid_argument. rewrite !Z.leb_antisym.
  destruct (is_empty_str key), (_ <? str_len key), (_ <? str_len principal); simpl; eauto.
Qed.

Lemma payload_validate_err payload e :
  CommandPayload_validate payload = Err e -> exists m, e = InvalidArgument m.
Proof.
  unfold CommandPayload_validate, MediaControl_validate, QueryCommand_validate,
    DeviceControlCommand_validate, validate_scale, validate_speed, validate_seek_offset,
    invalid_argument.
  intros He. repeat case_match; simplify_eq; eauto.
Qed.
End creation.

Lemma list_find_insert_same {A} (P : A -> Prop) `{forall x, Decision (P x)} l i (x y : A) :
  list_find P l = Some (i, x) -> P y -> list_find P (<[i := y]> l) = Some (i, y).
Proof.
  intros (Hi & _ & Hlt)%list_find_Some Hy. apply list_find_Some. split_and!; [|done|].
  - apply list_lookup_insert_eq. by eapply lookup_lt_Some.
  - intros j z Hj Hlt'. rewrite list_lookup_insert_ne in Hj by lia. by eapply Hlt.
Qed.

Lemma list_find_snoc {A} (P : A -> Prop) `{forall x, Decision (P x)} l (x : A) :
  list_find P l = None -> P x -> list_find P (l ++ [x]) = Some (length l, x).
Proof.
  intros Hl%list_find_None Hx. apply list_find_Some. split_and!; [|done|].
  - by rewrite lookup_app_r, Nat.sub_diag by lia.
  - intros j y Hj Hlt. rewrite lookup_app_l in Hj by done.
    by eapply Forall_lookup_1 in Hl.
Qed.

(** ** Claims *)

Section claims.
Context {W : Type} `{Clock W, IdGenerator W, DateRange, UuidDisplay}.
Implicit Types (o : Operation) (w : W).

(** [Operation::new] accepts exactly the requests with a non-nil device, an
    idempotency key of 1 to 256 bytes, a principal of at most 256 bytes and a
    valid payload; every other request is [InvalidArgument].  The operation it
    creates is pending at revision 0, well formed, with one saga step for its own
    command, and its event describes it. *)
Theorem operation_new_spec context key dev tgt payload dl epoch w :
  match (new context key dev tgt payload dl epoch w).1 with
  | Ok (o, ev) =>
      new_accepts context key dev payload = true /\ op_inv o /\ status o = OsPending
      /\ revision o = 0
      /\ ev = OperationSubmitted (operation_id o) (rc_tenant_id context) dev
                (idempotency_scope o) (command o)
      /\ cmd_operation_id (command o) = operation_id o
      /\ cmd_payload (command o) = payload
      /\ is_idempotency_key (idempotency_scope o) = key
      /\ Forall (fun s => cmd_step_id (command o) = Some (Step.step_id s)) (steps o)
  | Err e =>
      new_accepts context key dev payload = false /\ exists m, e = InvalidArgument m
  end.
Proof.
  unfold new, new_accepts. destruct (is_nil dev); [simpl; unfold invalid_argument; eauto|].
  pose proof (scope_new_spec (rc_tenant_id context) (pr_id (rc_principal context)) tgt key) as Hsc.
  destruct (IdempotencyScope_new _ _ _ _) as [sc|e]; destruct Hsc as [Hacc Hsc].
  2: { simpl in *. by rewrite Hacc. }
  destruct (generate_operation_id w) as [oid w1], (generate_message_id w1) as [sid w2].
  unfold Command_new. destruct (CommandPayload_validate payload) as [[]|e] eqn:Hp; simpl.
  - destruct (generate_message_id w2) as [cid w3], (generate_message_id w3) as [mid w4].
    unfold Step.new. simpl.
    destruct (now_wall w4) as [t1 w5], (now_wall w5) as [t2 w6], (now_wall w6) as [t3 w7]. simpl in *.
    rewrite Hacc, andb_true_r. split_and!; try done.
    + split; [done|]. by eexists.
    + by subst sc.
    + by repeat constructor.
  - rewrite andb_false_r. split; [done|]. by eapply payload_validate_err.
Qed.

(** C37: For every history of method calls without a fail whose code or message is too
    long, the OperationStateChanged events form a path of the lifecycle chart from the
    first status to the last, each with the result and error of that moment; there are
    at most two changes, a terminal operation never changes again, and the revision
    counts the successful calls modulo 2^64. A fail with an oversized text leaves the
    operation Failed without an event (see the findings). *)
Theorem operation_history cs o w evs o1 w1 :
  lc_run cs o w = (evs, o1, w1) -> Forall (fun c => op_atomic c = true) cs ->
  is_u64 (revision o) ->
  path (fun d => d.1.1) op_edge (observe o) (changes evs) (observe o1)
  /\ (length (changes (D := observation) evs) <= 2)%nat
  /\ (is_terminal o = true -> changes (D := observation) evs = [] /\ observe o1 = observe o)
  /\ revision o1 = wrap64 (revision o + Z.of_nat (length evs)).
Proof.
  intros Hrun Hat Hu. pose proof (lc_run_path _ _ _ _ _ _ Hrun Hat) as Hpath.
  split_and!; [done| | |].
  - pose proof (path_rank op_rank _ _ _ op_edge_rank Hpath) as Hr.
    assert (op_rank (status o) <= 2)%nat by (by destruct (status o); simpl; lia).
    simpl in Hr. lia.
  - intros Ht. by apply (path_terminal _ _ _ Hpath).
  - pose proof (lc_run_revision _ _ _ _ _ _ Hrun Hat Hu) as Hrev. unfold versioned in Hrev.
    by rewrite filter_all in Hrev.
Qed.

(** From creation on, no history of calls breaks the well-formedness of an
    operation: result and error fit the status (none while live, [Success] when
    succeeded, a bounded failure when failed, the fixed error when cancelled, a
    bounded error when timed out), there is exactly one saga step, it carries the
    operation's command, and its status and result follow those of the operation;
    identity, scope, command, deadline and epoch never change. *)
Theorem operation_invariant cs o w evs o1 w1 :
  op_inv o -> lc_run cs o w = (evs, o1, w1) -> Forall (fun c => op_atomic c = true) cs ->
  op_inv o1 /\ identity o1 = identity o.
Proof.
  intros Hinv Hrun Hat.
  refine (lc_run_inv (fun o2 => op_inv o2 /\ identity o2 = identity o) cs o w evs o1 w1 _ Hrun _);
    [|done].
  intros c o2 w2 r o3 w3 Hc [Hinv2 Hid] He.
  destruct (exec_inv c o2 w2 r o3 w3) as [? ->]; try done.
  rewrite Forall_forall in Hat. by apply Hat.
Qed.

(** [fail] assigns the status before it validates its texts: on an oversized
    code or message it returns an error and emits no event, but leaves the
    operation [Failed] without result, error or new revision, and every later
    call that would change its status is refused. *)
Theorem fail_oversized_poisons code message o w :
  fits code message = false -> is_terminal o = false ->
  exists e o1, fail code message o w = (Err e, o1, w)
    /\ status o1 = OsFailed /\ op_result o1 = op_result o /\ op_error o1 = op_error o
    /\ revision o1 = revision o
    /\ forall c w1 ev, (exec c o1 w1).1.1 <> Ok (Some ev).
Proof.
  intros Hf Hl.
  assert (Hlive : live (status o) = true)
    by (unfold live; unfold is_terminal in Hl; by rewrite Hl).
  destruct (fail_oversized code message o w Hf Hlive) as [e He].
  exists e, (set_status OsFailed o). split_and!; try done. intros c w1 ev.
  destruct (exec c (set_status OsFailed o) w1) as [[r o2] w2] eqn:Hx.
  apply exec_shaped in Hx. simpl. by inversion Hx.
Qed.

(** A dispatch attempt with a fresh identifier that is recorded, marked sent
    and then acknowledged ends up as the last attempt of its step, acknowledged,
    with both times set; all three calls succeed, the other attempts, the other
    steps and what the operation reports are untouched. *)
Theorem dispatch_attempt_acked sid aid o w i s :
  step_mut sid o = Some (i, s) -> Step.attempt_mut aid s = None ->
  exists evs t t1 t2 o1 w1,
    lc_run [RecordAttempt sid (Attempt.new aid); MarkSent sid aid; MarkAcked sid aid] o w
      = (evs, o1, w1)
    /\ length evs = 3%nat
    /\ steps o1 = <[i := Step.set_updated_at t (Step.set_attempts
          (Step.attempts s ++ [{| Attempt.attempt_id := aid; Attempt.status := DaAcked;
                                  Attempt.sent_at := Some t1; Attempt.acked_at := Some t2;
                                  Attempt.error := None |}]) s)]> (steps o)
    /\ observe o1 = observe o.
Proof.
  intros Hs Ha. pose proof Hs as (_ & Hid & _)%list_find_Some. simpl. unfold dm_bind, dm_ret.
  edestruct (record_run sid (Attempt.new aid)) as (t & u1 & w1 & ->); [done|].
  destruct (now_wall w1) as [t1 w2] eqn:Hw1.
  unfold mark_dispatch_attempt_sent, mark_dispatch_attempt_acked.
  edestruct (on_attempt_run Attempt.mark_sent sid aid) as (u2 & w3 & ->).
  { unfold step_mut, touched, ended, upd. simpl. eapply list_find_insert_same; [exact Hs | done]. }
  { apply list_find_snoc; done. }
  { unfold Attempt.mark_sent. dm_unfold. by rewrite Hw1. }
  destruct (now_wall w3) as [t2 w4] eqn:Hw3.
  edestruct (on_attempt_run Attempt.mark_acked sid aid) as (u3 & w5 & ->).
  { unfold step_mut, touched, ended, upd. simpl. rewrite list_insert_insert_eq.
    eapply list_find_insert_same; [exact Hs | done]. }
  { simpl. rewrite insert_app_r_alt, Nat.sub_diag by lia. apply list_find_snoc; done. }
  { unfold Attempt.mark_acked. dm_unfold. by rewrite Hw3. }
  exists [(RecordAttempt sid (Attempt.new aid), None); (MarkSent sid aid, None); (MarkAcked sid aid, None)], t, t1, t2.
  do 2 eexists. split; [done|]. split; [done|]. split; [|done]. simpl.
  rewrite !list_insert_insert_eq. repeat f_equal. simpl.
  rewrite !insert_app_r_alt, !Nat.sub_diag by lia. done.
Qed.
End claims.

(** ** Witnesses *)

Module Sample.
#[local] Instance sample_display : UuidDisplay := show_uint.
#[local] Existing Instance default_date_range.

Definition world : InMemoryWorld := {| wall_ms := 1000; counter := 1 |}.
Definition admin : Principal := {| pr_id := "admin"; pr_kind := PkUser; pr_scopes := [] |}.
Definition context : RequestContext :=
  {| rc_tenant_id := 9; rc_principal := admin; rc_message_id := 90; rc_correlation_id := 91;
     rc_traceparent := None; rc_tracestate := None; rc_deadline := None; rc_node_id := None;
     rc_source_ip := None |}.
Definition device : ResourceRef :=
  {| rr_tenant_id := 9; rr_kind := RkDevice; rr_id := {| ri_kind := RkDevice; ri_uuid := 7 |} |}.
Definition created : result (Operation * DomainEvent) DomainError * InMemoryWorld :=
  new context "key-1" 7 device (StopMediaSession 5) None 1 world.
Definition operation : Operation :=
  match created.1 as r return match r with Ok _ => Operation | Err _ => unit end with
  | Ok (o, _) => o
  | Err _ => tt
  end.
Definition calls : list call :=
  [Start; RecordAttempt 2 (Attempt.new 40); MarkSent 2 40; MarkAcked 2 40; Start;
   Complete Success; Cancel].

(** The history of a command that is dispatched, acknowledged and completed; a
    second start and a late cancel are refused. *)
Example history_scenario :
  let '(evs, o1, _) := lc_run calls operation world in
  op_change <$> evs.*2 =
    [Some (OsPending, (OsRunning, None, None)); None; None; None;
     Some (OsRunning, (OsSucceeded, Some Success, None))]
  /\ revision o1 = 5.
Proof. vm_compute. split; reflexivity. Qed.

Lemma operation_history_witness :
  exists evs o1 w1, lc_run calls operation world = (evs, o1, w1)
  /\ path (fun d => d.1.1) op_edge (observe operation) (changes evs) (observe o1)
  /\ (length (changes (D := observation) evs) <= 2)%nat.
Proof.
  destruct (lc_run calls operation world) as [[evs o1] w1] eqn:Hrun. exists evs, o1, w1.
  destruct (operation_history calls operation world evs o1 w1) as (? & ? & _); auto.
  - by repeat constructor.
  - vm_compute. split; discriminate.
Defined.

Lemma operation_invariant_witness :
  exists evs o1 w1, lc_run calls operation world = (evs, o1, w1) /\ op_inv o1.
Proof.
  destruct (lc_run calls operation world) as [[evs o1] w1] eqn:Hrun. exists evs, o1, w1.
  destruct (operation_invariant calls operation world evs o1 w1) as (? & _); auto.
  - split; [split; reflexivity|]. eexists. split; [reflexivity|]. repeat split.
  - by repeat constructor.
Defined.

Fixpoint repeat_char (n : nat) : string :=
  match n with O => "" | S n => String "x" (repeat_char n) end.

Lemma fail_oversized_poisons_witness :
  exists e o1, fail (repeat_char 129) "" operation world = (Err e, o1, world)
    /\ status o1 = OsFailed /\ op_result o1 = None.
Proof.
  destruct (fail_oversized_poisons (repeat_char 129) "" operation world)
    as (e & o1 & Hf & Hs & Hr & _); [vm_compute; reflexivity..|].
  exists e, o1. split; [exact Hf|]. split; [exact Hs|]. exact Hr.
Defined.

Lemma dispatch_attempt_acked_witness :
  exists evs o1 w1,
    lc_run [RecordAttempt 2 (Attempt.new 40); MarkSent 2 40; MarkAcked 2 40] operation world
      = (evs, o1, w1) /\ length evs = 3%nat.
Proof.
  destruct (step_mut 2 operation) as [[i s]|] eqn:Hs; [|vm_compute in Hs; discriminate].
  destruct (dispatch_attempt_acked 2 40 operation world i s Hs) as (evs & t & t1 & t2 & o1 & w1 & Hr & Hl & _).
  { vm_compute in Hs. injection Hs as <- <-. vm_compute. reflexivity. }
  exists evs, o1, w1. split; [exact Hr | exact Hl].
Defined.
End Sample.
