(* ===== verification/MediaSession.v ===== *)
(** * The media session aggregate

    [media_session.rs]: the desired and the actual state of a logical media
    session, its generation and its playback window, with the claims on its
    histories. *)

From S2P Require Import Prelude RustStr Domain DomainData Lifecycle.

Open Scope string_scope.
Open Scope list_scope.
Open Scope Z_scope.

Module Session.
Record MediaSession := {
  media_session_id : Uuid;
  tenant_id : Uuid;
  device_id : Uuid;
  channel_id : Uuid;
  purpose : MediaPurpose;
  desired_state : MediaSessionDesiredState;
  state : MediaSessionState;
  owner_epoch : Z;
  operation_id : Uuid;
  idempotency_scope : IdempotencyScope;
  deadline : option UtcTimestamp;
  error : option MediaSessionError;
  generation : Z;
  playback_start_time : option UtcTimestamp;
  playback_end_time : option UtcTimestamp;
  playback_scale : option spec_float;
  created_at : UtcTimestamp;
  updated_at : UtcTimestamp;
  revision : Z
}.

(** The assignments [self.f = v]; the identifiers, [purpose], [owner_epoch],
    [idempotency_scope], [deadline] and [created_at] are never assigned. *)
Definition upd (m : MediaSession) (ds : MediaSessionDesiredState) (st : MediaSessionState)
    (e : option MediaSessionError) (gen : Z) (pb : option UtcTimestamp * option UtcTimestamp * option spec_float)
    (t : UtcTimestamp) (rev : Z) : MediaSession :=
  {| media_session_id := media_session_id m; tenant_id := tenant_id m; device_id := device_id m;
     channel_id := channel_id m; purpose := purpose m; desired_state := ds; state := st;
     owner_epoch := owner_epoch m; operation_id := operation_id m;
     idempotency_scope := idempotency_scope m; deadline := deadline m; error := e;
     generation := gen; playback_start_time := pb.1.1; playback_end_time := pb.1.2;
     playback_scale := pb.2; created_at := created_at m; updated_at := t; revision := rev |}.
Definition playback (m : MediaSession) :=
  (playback_start_time m, playback_end_time m, playback_scale m).
Definition set_desired_state ds (m : MediaSession) : MediaSession :=
  upd m ds (state m) (error m) (generation m) (playback m) (updated_at m) (revision m).
Definition set_state st (m : MediaSession) : MediaSession :=
  upd m (desired_state m) st (error m) (generation m) (playback m) (updated_at m) (revision m).
Definition set_error e (m : MediaSession) : MediaSession :=
  upd m (desired_state m) (state m) e (generation m) (playback m) (updated_at m) (revision m).
Definition set_generation g (m : MediaSession) : MediaSession :=
  upd m (desired_state m) (state m) (error m) g (playback m) (updated_at m) (revision m).
Definition set_playback pb (m : MediaSession) : MediaSession :=
  upd m (desired_state m) (state m) (error m) (generation m) pb (updated_at m) (revision m).
Definition set_updated_at t (m : MediaSession) : MediaSession :=
  upd m (desired_state m) (state m) (error m) (generation m) (playback m) t (revision m).
Definition set_revision rev (m : MediaSession) : MediaSession :=
  upd m (desired_state m) (state m) (error m) (generation m) (playback m) (updated_at m) rev.

Definition is_terminal (m : MediaSession) : bool := MediaSessionState_is_terminal (state m).

Definition allowed_transition (from to : MediaSessionState) : bool :=
  match from with
  | MsRequested => match to with MsAllocating | MsStopped | MsFailed => true | _ => false end
  | MsAllocating => match to with MsInviting | MsStopped | MsFailed => true | _ => false end
  | MsInviting => match to with MsActive | MsStopped | MsFailed => true | _ => false end
  | MsActive => match to with MsStopping | MsStopped | MsFailed => true | _ => false end
  | MsStopping => match to with MsStopped | MsFailed => true | _ => false end
  | _ => false
  end.

Definition state_changed_event (previous_state : MediaSessionState) (m : MediaSession) : DomainEvent :=
  MediaSessionStateChanged (media_session_id m) (tenant_id m) previous_state (state m)
    (desired_state m) (error m).

Section methods.
Context {W : Type} `{Clock W}.

Definition new (media_session_id tenant_id device_id channel_id : Uuid)
    (purpose : MediaPurpose) (desired_state : MediaSessionDesiredState) (owner_epoch : Z)
    (operation_id : Uuid) (idempotency_scope : IdempotencyScope)
    (deadline : option UtcTimestamp) (w : W) :
    result (MediaSession * DomainEvent) DomainError * W :=
  if is_nil media_session_id
  then (Err (invalid_argument "media_session_id must not be nil"), w)
  else if is_nil device_id then (Err (invalid_argument "device_id must not be nil"), w)
  else if is_nil channel_id then (Err (invalid_argument "channel_id must not be nil"), w)
  else if is_nil operation_id then (Err (invalid_argument "operation_id must not be nil"), w)
  else match purpose with
  | MpUnknown => (Err (invalid_argument "media purpose must be known"), w)
  | _ =>
      let '(now, w) := now_wall w in
      let session := {|
        media_session_id := media_session_id; tenant_id := tenant_id; device_id := device_id;
        channel_id := channel_id; purpose := purpose; desired_state := desired_state;
        state := MsRequested; owner_epoch := owner_epoch; operation_id := operation_id;
        idempotency_scope := idempotency_scope; deadline := deadline; error := None;
        generation := 0; playback_start_time := None; playback_end_time := None;
        playback_scale := None; created_at := now; updated_at := now; revision := 0 |} in
      (Ok (session,
           MediaSessionCreated media_session_id tenant_id device_id channel_id purpose
             desired_state MsRequested owner_epoch operation_id idempotency_scope
             (generation session) deadline (created_at session)), w)
  end.

Definition bump : dm MediaSession W unit :=
  let! now := dm_port now_wall in
  do! dm_mod (set_updated_at now) in
  dm_mod (fun m => set_revision (wrap64 (revision m + 1)) m).

Definition terminal_error {A} (m : MediaSession) : dm MediaSession W A :=
  dm_err (already_terminal "MediaSession" (MediaSessionState_debug (state m))).

Definition transition_to (new_state : MediaSessionState) (err : option MediaSessionError) :
    dm MediaSession W DomainEvent :=
  let! self := dm_get in
  if MediaSessionState_is_terminal (state self) then terminal_error self
  else if negb (allowed_transition (state self) new_state) then
    dm_err (invalid_transition "MediaSession" (MediaSessionState_debug (state self))
              (MediaSessionState_debug new_state))
  else
    do! dm_try (match err with Some e => MediaSessionError_validate e | None => Ok tt end) in
    let previous := state self in
    do! dm_mod (set_state new_state) in
    do! (match err with
         | Some _ => dm_mod (set_error err)
         | None => if decide (new_state <> MsFailed) then dm_mod (set_error None) else dm_ret tt
         end) in
    do! bump in
    let! self := dm_get in
    dm_ret (state_changed_event previous self).

Definition allocating : dm MediaSession W DomainEvent := transition_to MsAllocating None.
Definition inviting : dm MediaSession W DomainEvent := transition_to MsInviting None.
Definition active : dm MediaSession W DomainEvent := transition_to MsActive None.

Definition stopping : dm MediaSession W DomainEvent :=
  let! self := dm_get in
  if MediaSessionState_is_terminal (state self) then terminal_error self
  else if decide (state self <> MsActive) then
    dm_err (invalid_transition "MediaSession" (MediaSessionState_debug (state self)) "Stopping")
  else
    do! dm_mod (set_desired_state MdStopped) in
    transition_to MsStopping None.

Definition stop : dm MediaSession W DomainEvent :=
  let! self := dm_get in
  if MediaSessionState_is_terminal (state self) then terminal_error self
  else
    do! dm_mod (set_desired_state MdStopped) in
    if decide (state self = MsActive) then transition_to MsStopping None
    else transition_to MsStopped None.

Definition stopped : dm MediaSession W DomainEvent := transition_to MsStopped None.
Definition failed (e : MediaSessionError) : dm MediaSession W DomainEvent :=
  transition_to MsFailed (Some e).

Definition cancel : dm MediaSession W DomainEvent :=
  let! self := dm_get in
  if MediaSessionState_is_terminal (state self) then terminal_error self
  else
    do! dm_mod (set_desired_state MdStopped) in
    transition_to MsStopped None.

Definition timeout : dm MediaSession W DomainEvent := failed MediaSessionError_timeout.

Definition bump_generation : dm MediaSession W DomainEvent :=
  let! self := dm_get in
  if MediaSessionState_is_terminal (state self) then terminal_error self
  else
    do! dm_mod (fun m => set_generation (wrap64 (generation m + 1)) m) in
    do! bump in
    let! self := dm_get in
    dm_ret (MediaSessionGenerationBumped (media_session_id self) (tenant_id self)
              (generation self) (updated_at self)).

Definition set_playback_window (start_time end_time : UtcTimestamp) (scale : spec_float) :
    dm MediaSession W unit :=
  let! self := dm_get in
  if is_terminal self then
    dm_err (invalid_argument "cannot set playback window on a terminal media session")
  else if end_time <? start_time then
    dm_err (invalid_argument "playback start_time must not be after end_time")
  else if negb (f64_is_finite scale) || f64_lt_zero scale then
    dm_err (invalid_argument "playback scale must be finite and non-negative")
  else dm_mod (set_playback (Some start_time, Some end_time, Some scale)).
End methods.

(** The public methods that change a session. *)
Inductive call :=
| Allocating | Inviting | Active | Stopping | Stop | Stopped
| Failed (e : MediaSessionError)
| Cancel | Timeout | BumpGeneration
| SetPlaybackWindow (start_time end_time : UtcTimestamp) (scale : spec_float).

Definition exec {W} `{Clock W} (c : call) : dm MediaSession W (option DomainEvent) :=
  let event (m : dm MediaSession W DomainEvent) := let! e := m in dm_ret (Some e) in
  match c with
  | Allocating => event allocating
  | Inviting => event inviting
  | Active => event active
  | Stopping => event stopping
  | Stop => event stop
  | Stopped => event stopped
  | Failed e => event (failed e)
  | Cancel => event cancel
  | Timeout => event timeout
  | BumpGeneration => event bump_generation
  | SetPlaybackWindow s e sc => do! set_playback_window s e sc in dm_ret None
  end.
End Session.

Import Session.

(** ** The effect of a transition *)

Definition error_valid (e : option MediaSessionError) : bool :=
  match e with Some e => is_ok (MediaSessionError_validate e) | None => true end.

Section lemmas.
Context {W : Type} `{Clock W}.
Implicit Types (m : MediaSession) (w : W).

Definition moved m ds st e t : MediaSession :=
  upd m ds st e (generation m) (playback m) t (wrap64 (revision m + 1)).

Lemma transition_run st e m w :
  allowed_transition (state m) st = true -> error_valid e = true ->
  (e = None -> st <> MsFailed) ->
  exists t w1, let m1 := moved m (desired_state m) st e t in
    transition_to st e m w = (Ok (state_changed_event (state m) m1), m1, w1).
Proof.
  intros Hal Hv He. unfold transition_to, bump. dm_unfold. rewrite Hal. simpl.
  replace (MediaSessionState_is_terminal (state m)) with false by (by destruct (state m)).
  destruct e as [e|]; simpl in Hv.
  - destruct (MediaSessionError_validate e); [|done]. destruct (now_wall w) as [t w1]. by do 2 eexists.
  - rewrite decide_True by auto. destruct (now_wall w) as [t w1]. by do 2 eexists.
Qed.

Lemma transition_rejected st e m w :
  allowed_transition (state m) st && error_valid e = false ->
  exists err, transition_to st e m w = (Err err, m, w).
Proof.
  intros Hn. unfold transition_to, terminal_error. dm_unfold.
  destruct (MediaSessionState_is_terminal (state m)); [eauto|].
  destruct (allowed_transition (state m) st); simpl; [|eauto].
  destruct e as [e|]; simpl in *; [|done].
  destruct (MediaSessionError_validate e); [done|eauto].
Qed.

(** The shapes a call can have; the desired state either stays or becomes
    [Stopped]. *)
Inductive exec_shape m : result (option DomainEvent) DomainError -> MediaSession -> Prop :=
| shape_move ds st e t (m1 := moved m ds st e t) :
    allowed_transition (state m) st = true -> error_valid e = true ->
    (e = None <-> st <> MsFailed) -> (ds = desired_state m \/ ds = MdStopped) ->
    (st = MsStopping -> ds = MdStopped) ->
    exec_shape m (Ok (Some (state_changed_event (state m) m1))) m1
| shape_generation t (g := wrap64 (generation m + 1))
    (m1 := upd m (desired_state m) (state m) (error m) g (playback m) t (wrap64 (revision m + 1))) :
    is_terminal m = false ->
    exec_shape m (Ok (Some (MediaSessionGenerationBumped (media_session_id m) (tenant_id m) g t))) m1
| shape_window s e sc :
    is_terminal m = false -> s <= e -> f64_is_finite sc = true -> f64_lt_zero sc = false ->
    exec_shape m (Ok None) (set_playback (Some s, Some e, Some sc) m)
| shape_err e : exec_shape m (Err e) m.

Lemma exec_move st e m w r m1 w1 :
  (e = None <-> st <> MsFailed) -> st <> MsStopping ->
  (let! ev := transition_to st e in dm_ret (Some ev)) m w = (r, m1, w1) -> exec_shape m r m1.
Proof.
  intros He Hst Hx.
  destruct (allowed_transition (state m) st && error_valid e) eqn:Hok; bool_prop.
  - edestruct (transition_run st e m w) as (t & w2 & Ht); [done|done|tauto|].
    unfold dm_bind in Hx. rewrite Ht in Hx. injection Hx as <- <- <-.
    apply shape_move; tauto.
  - edestruct (transition_rejected st e m w Hok) as [err Ht].
    unfold dm_bind in Hx. rewrite Ht in Hx. injection Hx as <- <- <-. apply shape_err.
Qed.

(** A transition after [self.desired_state = Stopped] that is allowed. *)
Lemma exec_stop_move st m w r m1 w1 :
  allowed_transition (state m) st = true -> st <> MsFailed ->
  (let! ev := transition_to st None in dm_ret (Some ev)) (set_desired_state MdStopped m) w
    = (r, m1, w1) ->
  exec_shape m r m1.
Proof.
  intros Hal Hst Hx.
  edestruct (transition_run st None (set_desired_state MdStopped m) w) as (t & w2 & Ht); [done..|].
  unfold dm_bind in Hx. rewrite Ht in Hx. injection Hx as <- <- <-.
  by apply (shape_move m MdStopped st None t); auto.
Qed.

Lemma session_shaped c m w r m1 w1 : exec c m w = (r, m1, w1) -> exec_shape m r m1.
Proof.
  destruct c as [| | | | | |e| | | |s e sc]; simpl; intros Hx.
  1-3, 6-7, 9: cbv beta delta [allocating inviting active stopped failed timeout] in Hx;
    eapply exec_move; [| |exact Hx]; naive_solver.
  - revert Hx. unfold stopping, terminal_error. dm_unfold.
    destruct (MediaSessionState_is_terminal (state m)); [intros [= <- <- <-]; apply shape_err|].
    case_decide as Ha; [intros [= <- <- <-]; apply shape_err|].
    apply exec_stop_move; [|done]. by destruct (state m).
  - revert Hx. unfold stop, terminal_error. dm_unfold.
    destruct (MediaSessionState_is_terminal (state m)) eqn:Ht; [intros [= <- <- <-]; apply shape_err|].
    case_decide as Ha; apply exec_stop_move; try done; by destruct (state m).
  - revert Hx. unfold cancel, terminal_error. dm_unfold.
    destruct (MediaSessionState_is_terminal (state m)) eqn:Ht; [intros [= <- <- <-]; apply shape_err|].
    apply exec_stop_move; [by destruct (state m)|done].
  - revert Hx. unfold bump_generation, terminal_error, bump. dm_unfold.
    destruct (MediaSessionState_is_terminal (state m)) eqn:Ht; [intros [= <- <- <-]; apply shape_err|].
    destruct (now_wall w) as [t w2]. intros [= <- <- <-]. by apply (shape_generation m t).
  - revert Hx. unfold set_playback_window. dm_unfold.
    destruct (is_terminal m) eqn:Ht; [intros [= <- <- <-]; apply shape_err|].
    destruct (Z.ltb_spec e s); [intros [= <- <- <-]; apply shape_err|].
    destruct (f64_is_finite sc) eqn:Hf; simpl; [|intros [= <- <- <-]; apply shape_err].
    destruct (f64_lt_zero sc) eqn:Hz; intros [= <- <- <-]; by constructor.
Qed.
End lemmas.

(** ** The lifecycle *)

(** What [MediaSessionStateChanged] tells of a session. *)
Definition observation : Type :=
  MediaSessionState * MediaSessionDesiredState * option MediaSessionError.
Definition observe (m : MediaSession) : observation := (state m, desired_state m, error m).

Definition session_change (e : option DomainEvent) : option (MediaSessionState * observation) :=
  match e with
  | Some (MediaSessionStateChanged _ _ p n d err) => Some (p, (n, d, err))
  | _ => None
  end.

#[global] Instance session_lifecycle {W} `{Clock W} :
  Lifecycle MediaSession MediaSessionState observation call (option DomainEvent) W := {|
  lc_data := observe;
  lc_st := fun d => d.1.1;
  lc_revision := revision;
  lc_exec := exec;
  lc_change := session_change;
  lc_edge := allowed_transition;
  lc_terminal := MediaSessionState_is_terminal;
  lc_unversioned := fun c => match c with SetPlaybackWindow _ _ _ => true | _ => false end;
  lc_atomic := fun _ => true
|}.

(** Only [set_playback_window] returns without an event. *)
Lemma exec_event {W} `{Clock W} c m (w : W) e m1 w1 :
  exec c m w = (Ok e, m1, w1) ->
  match c with SetPlaybackWindow _ _ _ => e = None | _ => e <> None end.
Proof.
  destruct c; simpl; intros [(?&?&?&_&[= <- _ _])|(?&_&?)]%dm_bind_inv; done.
Qed.

#[global] Instance session_laws {W} `{Clock W} :
  LifecycleLaws MediaSession MediaSessionState observation call (option DomainEvent) W.
Proof.
  constructor; simpl.
  - intros c m w e m1 w1 Hs%session_shaped. by inversion Hs.
  - intros c m w e m1 w1 Hx. pose proof (exec_event _ _ _ _ _ _ Hx) as He.
    apply session_shaped in Hx. inversion Hx; subst; destruct c; done.
  - intros c m w e m1 w1 Hs%session_shaped _. by inversion Hs.
  - by intros [] [].
Qed.

Definition session_rank (st : MediaSessionState) : nat :=
  match st with
  | MsRequested => 5 | MsAllocating => 4 | MsInviting => 3 | MsActive => 2 | MsStopping => 1
  | _ => 0
  end.
Lemma session_edge_rank p n :
  allowed_transition p n = true -> (session_rank n < session_rank p)%nat.
Proof. destruct p, n; simpl; try done; lia. Qed.

(** ** The invariant *)

Definition window_ok (m : MediaSession) : Prop :=
  match playback m with
  | (None, None, None) => True
  | (Some s, Some e, Some sc) => s <= e /\ f64_is_finite sc = true /\ f64_lt_zero sc = false
  | _ => False
  end.

Definition session_inv (m : MediaSession) : Prop :=
  (error m = None <-> state m <> MsFailed) /\ error_valid (error m) = true
  /\ (state m = MsStopping -> desired_state m = MdStopped) /\ window_ok m.

Definition identity (m : MediaSession) :=
  (media_session_id m, tenant_id m, device_id m, channel_id m, purpose m, owner_epoch m,
   operation_id m, idempotency_scope m, deadline m, created_at m).

Lemma session_exec_inv {W} `{Clock W} c m (w : W) r m1 w1 :
  session_inv m -> exec c m w = (r, m1, w1) ->
  session_inv m1 /\ identity m1 = identity m
  /\ (desired_state m = MdStopped -> desired_state m1 = MdStopped).
Proof.
  intros (He & Hv & Hds & Hw) Hs%session_shaped. inversion Hs; subst; split_and!; try done.
  simpl. naive_solver.
Qed.

(** ** Claims *)

Section claims.
Context {W : Type} `{Clock W}.
Implicit Types (m : MediaSession) (w : W).

(** Whatever the history of calls on a media session, its
    [MediaSessionStateChanged] events form a path of the allowed transitions that
    starts at the state the session had and ends at the state, desired state and
    error it has; at most five transitions happen, a stopped or failed session
    never moves again, and a failing call changes nothing.  The revision counts
    the successful calls except those of [set_playback_window]. *)
Theorem session_history cs m w evs m1 w1 :
  lc_run cs m w = (evs, m1, w1) -> is_u64 (revision m) ->
  path (fun d => d.1.1) allowed_transition (observe m) (changes evs) (observe m1)
  /\ (length (changes (D := observation) evs) <= 5)%nat
  /\ (is_terminal m = true -> changes (D := observation) evs = [] /\ observe m1 = observe m)
  /\ revision m1 = wrap64 (revision m + versioned evs).
Proof.
  intros Hrun Hu. assert (Hat : Forall (fun c => lc_atomic c = true) cs) by (by apply Forall_true).
  pose proof (lc_run_path _ _ _ _ _ _ Hrun Hat) as Hpath.
  split_and!; [done| | |].
  - pose proof (path_rank session_rank _ _ _ session_edge_rank Hpath) as Hr.
    assert (session_rank (state m) <= 5)%nat by (by destruct (state m); simpl; lia).
    simpl in Hr. lia.
  - intros Ht. by apply (path_terminal _ _ _ Hpath).
  - by apply (lc_run_revision _ _ _ _ _ _ Hrun Hat Hu).
Qed.

(** Every history keeps a media session well formed: it carries an error
    exactly when it failed, of bounded length; a stopping session is desired
    stopped, and a session desired stopped stays so; the playback window is unset
    or a closed interval with a finite non-negative scale; the identity of the
    session, its owner epoch and its scope never change. *)
Theorem session_invariant cs m w evs m1 w1 :
  session_inv m -> lc_run cs m w = (evs, m1, w1) ->
  session_inv m1 /\ identity m1 = identity m
  /\ (desired_state m = MdStopped -> desired_state m1 = MdStopped).
Proof.
  intros Hinv Hrun.
  refine (lc_run_inv (fun m2 => session_inv m2 /\ identity m2 = identity m
    /\ (desired_state m = MdStopped -> desired_state m2 = MdStopped)) cs m w evs m1 w1 _ Hrun _);
    [|done].
  intros c m2 w2 r m3 w3 _ (Hinv2 & Hid & Hds) He.
  destruct (session_exec_inv c m2 w2 r m3 w3) as (? & -> & ?); auto.
Qed.

(** From any live state a session can be shut down: [stop] succeeds, and after
    [stop] and [stopped] it is [Stopped], desired stopped, without error. *)
Theorem stop_reaches_stopped m w :
  is_terminal m = false ->
  is_ok (exec Stop m w).1.1 = true
  /\ let '(_, m1, _) := lc_run [Stop; Stopped] m w in observe m1 = (MsStopped, MdStopped, None).
Proof.
  intros Ht. unfold is_terminal in Ht. simpl. unfold stop, stopped, dm_bind, dm_get, dm_mod, dm_ret.
  rewrite Ht. case_decide as Ha.
  - edestruct (transition_run MsStopping None) as (t & w1 & ->); [by simpl; rewrite Ha|done..|].
    split; [done|]. edestruct (transition_run MsStopped None) as (t2 & w2 & ->); done.
  - edestruct (transition_run MsStopped None) as (t & w1 & ->);
      [by simpl; destruct (state m)|done..|].
    split; [done|]. by edestruct (transition_rejected MsStopped None) as (e & ->).
Qed.
End claims.

Module Sample.
Definition world : InMemoryWorld := {| wall_ms := 1000; counter := 1 |}.
Definition scope : IdempotencyScope :=
  {| is_tenant_id := 9; is_principal_id := "admin";
     is_target := {| rr_tenant_id := 9; rr_kind := RkChannel;
                     rr_id := {| ri_kind := RkChannel; ri_uuid := 8 |} |};
     is_idempotency_key := "key-1" |}.
Definition created := new 5 9 7 8 MpPlayback MdActive 1 4 scope None world.
Definition session : MediaSession :=
  match created.1 as r return match r with Ok _ => MediaSession | Err _ => unit end with
  | Ok (m, _) => m
  | Err _ => tt
  end.
Definition calls : list call :=
  [Allocating; SetPlaybackWindow 100 200 (S754_zero false); Active; Inviting; Active;
   BumpGeneration; Stop; Cancel; Stop].

Lemma session_history_witness :
  exists evs m1 w1, lc_run calls session world = (evs, m1, w1)
  /\ path (fun d => d.1.1) allowed_transition (observe session) (changes evs) (observe m1).
Proof.
  destruct (lc_run calls session world) as [[evs m1] w1] eqn:Hrun. exists evs, m1, w1.
  destruct (session_history calls session world evs m1 w1) as (? & _); auto.
  vm_compute. split; discriminate.
Defined.

Lemma session_invariant_witness :
  exists evs m1 w1, lc_run calls session world = (evs, m1, w1) /\ session_inv m1.
Proof.
  destruct (lc_run calls session world) as [[evs m1] w1] eqn:Hrun. exists evs, m1, w1.
  destruct (session_invariant calls session world evs m1 w1) as (? & _); auto.
  split; [|split; [reflexivity | split; [discriminate | exact I]]].
  split; [discriminate | reflexivity].
Defined.

Lemma stop_reaches_stopped_witness :
  let '(_, m1, _) := lc_run [Stop; Stopped] session world in
  observe m1 = (MsStopped, MdStopped, None).
Proof. exact (proj2 (stop_reaches_stopped session world eq_refl)). Defined.
End Sample.
