(* ===== verification/MediaBinding.v ===== *)
(** * The media binding aggregate

    [media_binding.rs]: the binding of a media session to a media node, with the
    claims on its histories. *)

From S2P Require Import Prelude RustStr Domain DomainData Lifecycle.

Open Scope string_scope.
Open Scope list_scope.
Open Scope Z_scope.

Module Binding.
Record MediaBinding := {
  media_binding_id : Uuid;
  media_session_id : Uuid;
  tenant_id : Uuid;
  channel_id : Uuid;
  media_node_id : Uuid;
  owner_epoch : Z;
  media_node_instance_epoch : Z;
  state : MediaBindingState;
  error : option MediaBindingError;
  created_at : UtcTimestamp;
  updated_at : UtcTimestamp;
  revision : Z
}.

Definition upd (b : MediaBinding) (st : MediaBindingState) (e : option MediaBindingError)
    (t : UtcTimestamp) (rev : Z) : MediaBinding :=
  {| media_binding_id := media_binding_id b; media_session_id := media_session_id b;
     tenant_id := tenant_id b; channel_id := channel_id b; media_node_id := media_node_id b;
     owner_epoch := owner_epoch b; media_node_instance_epoch := media_node_instance_epoch b;
     state := st; error := e; created_at := created_at b; updated_at := t; revision := rev |}.
Definition set_state st (b : MediaBinding) : MediaBinding :=
  upd b st (error b) (updated_at b) (revision b).
Definition set_error e (b : MediaBinding) : MediaBinding :=
  upd b (state b) e (updated_at b) (revision b).
Definition set_updated_at t (b : MediaBinding) : MediaBinding :=
  upd b (state b) (error b) t (revision b).
Definition set_revision rev (b : MediaBinding) : MediaBinding :=
  upd b (state b) (error b) (updated_at b) rev.

Definition is_terminal (b : MediaBinding) : bool := MediaBindingState_is_terminal (state b).

Definition allowed_transition (from to : MediaBindingState) : bool :=
  match from with
  | MbReserved =>
      match to with MbActive | MbNeedsVerification | MbReleasing | MbFailed => true | _ => false end
  | MbActive => match to with MbNeedsVerification | MbReleasing | MbFailed => true | _ => false end
  | MbNeedsVerification => match to with MbActive | MbReleasing | MbFailed => true | _ => false end
  | MbReleasing => match to with MbReleased | MbFailed => true | _ => false end
  | _ => false
  end.

Definition state_changed_event (previous_state : MediaBindingState) (b : MediaBinding) : DomainEvent :=
  MediaBindingStateChanged (media_binding_id b) (media_session_id b) (tenant_id b)
    previous_state (state b) (error b).

Section methods.
Context {W : Type} `{Clock W}.

Definition new (media_binding_id media_session_id tenant_id channel_id media_node_id : Uuid)
    (owner_epoch media_node_instance_epoch : Z) (w : W) :
    result (MediaBinding * DomainEvent) DomainError * W :=
  if is_nil media_binding_id
  then (Err (invalid_argument "media_binding_id must not be nil"), w)
  else if is_nil media_session_id
  then (Err (invalid_argument "media_session_id must not be nil"), w)
  else if is_nil channel_id then (Err (invalid_argument "channel_id must not be nil"), w)
  else if is_nil media_node_id then (Err (invalid_argument "media_node_id must not be nil"), w)
  else
    let '(now, w) := now_wall w in
    let binding := {|
      media_binding_id := media_binding_id; media_session_id := media_session_id;
      tenant_id := tenant_id; channel_id := channel_id; media_node_id := media_node_id;
      owner_epoch := owner_epoch; media_node_instance_epoch := media_node_instance_epoch;
      state := MbReserved; error := None; created_at := now; updated_at := now;
      revision := 0 |} in
    (Ok (binding,
         MediaBindingCreated media_binding_id media_session_id tenant_id channel_id
           media_node_id owner_epoch MbReserved (created_at binding)), w).

Definition bump : dm MediaBinding W unit :=
  let! now := dm_port now_wall in
  do! dm_mod (set_updated_at now) in
  dm_mod (fun b => set_revision (wrap64 (revision b + 1)) b).

Definition transition_to (new_state : MediaBindingState) (err : option MediaBindingError) :
    dm MediaBinding W DomainEvent :=
  let! self := dm_get in
  if MediaBindingState_is_terminal (state self) then
    dm_err (already_terminal "MediaBinding" (MediaBindingState_debug (state self)))
  else if negb (allowed_transition (state self) new_state) then
    dm_err (invalid_transition "MediaBinding" (MediaBindingState_debug (state self))
              (MediaBindingState_debug new_state))
  else
    do! dm_try (match err with Some e => MediaBindingError_validate e | None => Ok tt end) in
    let previous := state self in
    do! dm_mod (set_state new_state) in
    do! (match err with
         | Some _ => dm_mod (set_error err)
         | None => if decide (new_state <> MbFailed) then dm_mod (set_error None) else dm_ret tt
         end) in
    do! bump in
    let! self := dm_get in
    dm_ret (state_changed_event previous self).

Definition activate : dm MediaBinding W DomainEvent := transition_to MbActive None.
Definition release : dm MediaBinding W DomainEvent := transition_to MbReleasing None.
Definition released : dm MediaBinding W DomainEvent := transition_to MbReleased None.
Definition failed (e : MediaBindingError) : dm MediaBinding W DomainEvent :=
  transition_to MbFailed (Some e).
Definition timeout : dm MediaBinding W DomainEvent := failed MediaBindingError_timeout.
Definition needs_verification (e : MediaBindingError) : dm MediaBinding W DomainEvent :=
  transition_to MbNeedsVerification (Some e).
Definition verified : dm MediaBinding W DomainEvent := transition_to MbActive None.
End methods.

(** The public methods that change a binding. *)
Inductive call :=
| Activate | Release | Released
| Failed (e : MediaBindingError)
| Timeout
| NeedsVerification (e : MediaBindingError)
| Verified.

Definition exec {W} `{Clock W} (c : call) : dm MediaBinding W DomainEvent :=
  match c with
  | Activate => activate
  | Release => release
  | Released => released
  | Failed e => failed e
  | Timeout => timeout
  | NeedsVerification e => needs_verification e
  | Verified => verified
  end.
End Binding.

Import Binding.

(** ** The effect of a transition *)

Definition error_valid (e : option MediaBindingError) : bool :=
  match e with Some e => is_ok (MediaBindingError_validate e) | None => true end.

(** The states a binding enters with an error, [failed] and
    [needs_verification]; it enters the others without. *)
Definition carries_error (st : MediaBindingState) : bool :=
  match st with MbFailed | MbNeedsVerification => true | _ => false end.

Section lemmas.
Context {W : Type} `{Clock W}.
Implicit Types (b : MediaBinding) (w : W).

Inductive exec_shape b : result DomainEvent DomainError -> MediaBinding -> Prop :=
| shape_move st e t (b1 := upd b st e t (wrap64 (revision b + 1))) :
    allowed_transition (state b) st = true -> error_valid e = true ->
    bool_decide (is_Some e) = carries_error st ->
    exec_shape b (Ok (state_changed_event (state b) b1)) b1
| shape_err e : exec_shape b (Err e) b.

Lemma binding_transition st e b w r b1 w1 :
  bool_decide (is_Some e) = carries_error st ->
  transition_to st e b w = (r, b1, w1) -> exec_shape b r b1.
Proof.
  intros Hc. unfold transition_to, bump. dm_unfold.
  destruct (MediaBindingState_is_terminal (state b)); [intros [= <- <- <-]; apply shape_err|].
  destruct (allowed_transition (state b) st) eqn:Hal; simpl;
    [|intros [= <- <- <-]; apply shape_err].
  destruct e as [e|].
  - destruct (MediaBindingError_validate e) eqn:Hv; [|intros [= <- <- <-]; apply shape_err].
    destruct (now_wall w) as [t w2]. intros [= <- <- <-].
    apply (shape_move b st (Some e) t); simpl; rewrite ?Hv; done.
  - rewrite decide_True by (intros ->; by rewrite bool_decide_eq_false_2 in Hc).
    destruct (now_wall w) as [t w2]. intros [= <- <- <-].
    by apply (shape_move b st None t).
Qed.

Lemma binding_shaped c b w r b1 w1 : exec c b w = (r, b1, w1) -> exec_shape b r b1.
Proof. destruct c; simpl; by apply binding_transition. Qed.
End lemmas.

(** ** The lifecycle *)

(** What [MediaBindingStateChanged] tells of a binding. *)
Definition observation : Type := MediaBindingState * option MediaBindingError.
Definition observe (b : MediaBinding) : observation := (state b, error b).

Definition binding_change (e : DomainEvent) : option (MediaBindingState * observation) :=
  match e with
  | MediaBindingStateChanged _ _ _ p n err => Some (p, (n, err))
  | _ => None
  end.

#[global] Instance binding_lifecycle {W} `{Clock W} :
  Lifecycle MediaBinding MediaBindingState observation call DomainEvent W := {|
  lc_data := observe;
  lc_st := fst;
  lc_revision := revision;
  lc_exec := exec;
  lc_change := binding_change;
  lc_edge := allowed_transition;
  lc_terminal := MediaBindingState_is_terminal;
  lc_unversioned := fun _ => false;
  lc_atomic := fun _ => true
|}.

#[global] Instance binding_laws {W} `{Clock W} :
  LifecycleLaws MediaBinding MediaBindingState observation call DomainEvent W.
Proof.
  constructor; simpl.
  - intros c b w e b1 w1 Hs%binding_shaped. by inversion Hs.
  - intros c b w e b1 w1 Hs%binding_shaped. by inversion Hs.
  - intros c b w e b1 w1 Hs%binding_shaped _. by inversion Hs.
  - by intros [] [].
Qed.

(** A binding carries an error, of bounded length, exactly while it is failed or
    awaits verification. *)
Definition binding_inv (b : MediaBinding) : Prop :=
  bool_decide (is_Some (error b)) = carries_error (state b) /\ error_valid (error b) = true.

Lemma binding_exec_inv {W} `{Clock W} c b (w : W) r b1 w1 :
  binding_inv b -> exec c b w = (r, b1, w1) -> binding_inv b1.
Proof. intros Hinv Hs%binding_shaped. inversion Hs; subst; [by split | done]. Qed.

(** Events of a path are entered through [Releasing] before [Released]. *)
Lemma path_released (d : observation) (l : list (MediaBindingState * observation)) d1 :
  path fst allowed_transition d l d1 -> d1.1 = MbReleased -> d.1 <> MbReleased ->
  exists d0, d0.1 = MbReleasing /\ (d0 = d \/ exists p, (p, d0) ∈ l).
Proof.
  intros Hp. induction Hp as [d|d p d1 l d2 -> Hedge Hp IH]; intros Hr Hn; [done|].
  destruct (decide (d1.1 = MbReleased)) as [Hd1|Hd1].
  - exists d. rewrite Hd1 in Hedge. split; [|by left]. by destruct (d.1).
  - destruct (IH Hr Hd1) as (d0 & Hd0 & Hin). exists d0. split; [done|]. right.
    destruct Hin as [->|[p Hin]]; eexists; apply elem_of_cons; eauto.
Qed.

(** ** Claims *)

Section claims.
Context {W : Type} `{Clock W}.
Implicit Types (b : MediaBinding) (w : W).

(** Whatever the history of calls on a media binding, its events form a path
    of the allowed transitions from the state and error it had to those it has; a
    released or failed binding never moves again, a binding that was released
    went through [Releasing]; it carries an error of bounded length exactly while
    failed or awaiting verification, and every successful call bumps the revision
    by one. *)
Theorem binding_history cs b w evs b1 w1 :
  lc_run cs b w = (evs, b1, w1) -> binding_inv b -> is_u64 (revision b) ->
  path fst allowed_transition (observe b) (changes evs) (observe b1)
  /\ binding_inv b1
  /\ (is_terminal b = true -> changes (D := observation) evs = [] /\ observe b1 = observe b)
  /\ (state b1 = MbReleased -> state b <> MbReleased ->
      exists d, d.1 = MbReleasing /\ (d = observe b \/ exists p, (p, d) ∈ changes (D := observation) evs))
  /\ revision b1 = wrap64 (revision b + Z.of_nat (length evs)).
Proof.
  intros Hrun Hinv Hu.
  assert (Hat : Forall (fun c => lc_atomic c = true) cs) by (by apply Forall_true).
  pose proof (lc_run_path _ _ _ _ _ _ Hrun Hat) as Hpath. split_and!; [done| | | |].
  - refine (lc_run_inv binding_inv cs b w evs b1 w1 _ Hrun Hinv).
    intros c b2 w2 r b3 w3 _. apply binding_exec_inv.
  - intros Ht. by apply (path_terminal _ _ _ Hpath).
  - intros Hr Hn. exact (path_released (observe b) _ (observe b1) Hpath Hr Hn).
  - pose proof (lc_run_revision _ _ _ _ _ _ Hrun Hat Hu) as Hrev. unfold versioned in Hrev.
    by rewrite filter_all in Hrev.
Qed.
End claims.

Module Sample.
Definition world : InMemoryWorld := {| wall_ms := 1000; counter := 1 |}.
Definition created := new 3 5 9 8 6 1 2 world.
Definition binding : MediaBinding :=
  match created.1 as r return match r with Ok _ => MediaBinding | Err _ => unit end with
  | Ok (b, _) => b
  | Err _ => tt
  end.
Definition calls : list call :=
  [Activate; NeedsVerification MediaBindingError_timeout; Verified; Released; Release; Released;
   Timeout].

Lemma binding_history_witness :
  exists evs b1 w1, lc_run calls binding world = (evs, b1, w1) /\ binding_inv b1.
Proof.
  destruct (lc_run calls binding world) as [[evs b1] w1] eqn:Hrun. exists evs, b1, w1.
  destruct (binding_history calls binding world evs b1 w1) as (_ & ? & _); auto.
  - split; reflexivity.
  - vm_compute. split; discriminate.
Defined.
End Sample.
