(* ===== verification/Device.v ===== *)
(** * Devices and channels

    The aggregates of [device.rs] and [channel.rs].  [update] writes the fields one
    by one, each after its own check: a call that fails has written the fields
    before the one that it refused. *)

From S2P Require Import Prelude RustStr Domain MediaNode DeviceData DomainData Lifecycle.

Open Scope string_scope.
Open Scope list_scope.
Open Scope Z_scope.

Definition bad_name (max : Z) (name : string) : bool := is_empty_str name || (max <? str_len name).

(** [if let Some(v) = v { check(v)?; self.field = v; }] *)
Definition dm_field {S W A} (o : option A) (check : A -> result unit DomainError) (set : A -> S -> S) : dm S W unit :=
  match o with
  | None => dm_ret tt
  | Some a => do! dm_try (check a) in dm_mod (set a)
  end.
Definition check_name (max : Z) (name : string) : result unit DomainError :=
  check_that (bad_name max name) "name must not be empty and must not exceed 1024 bytes".

Module Device.
Record Device := mkDevice {
  tenant_id : Uuid;
  device_id : Uuid;
  protocol : Protocol;
  external_id : string;
  authority : string;
  name : string;
  kind : DeviceKind;
  lifecycle : DeviceLifecycle;
  connectivity : Connectivity;
  owner_epoch : Z;
  capabilities : list Capability;
  metadata : gmap string string;
  created_at : UtcTimestamp;
  updated_at : UtcTimestamp;
  revision : Z
}.

Definition set_identity (p : Protocol) (ext auth : string) (d : Device) : Device :=
  mkDevice (tenant_id d) (device_id d) p ext auth (name d) (kind d) (lifecycle d) (connectivity d) (owner_epoch d)
    (capabilities d) (metadata d) (created_at d) (updated_at d) (revision d).
Definition set_description (nm : string) (k : DeviceKind) (caps : list Capability) (m : gmap string string) (d : Device) : Device :=
  mkDevice (tenant_id d) (device_id d) (protocol d) (external_id d) (authority d) nm k (lifecycle d) (connectivity d)
    (owner_epoch d) caps m (created_at d) (updated_at d) (revision d).
Definition set_status (l : DeviceLifecycle) (c : Connectivity) (d : Device) : Device :=
  mkDevice (tenant_id d) (device_id d) (protocol d) (external_id d) (authority d) (name d) (kind d) l c
    (owner_epoch d) (capabilities d) (metadata d) (created_at d) (updated_at d) (revision d).
Definition set_version (t : UtcTimestamp) (rev : Z) (d : Device) : Device :=
  mkDevice (tenant_id d) (device_id d) (protocol d) (external_id d) (authority d) (name d) (kind d) (lifecycle d)
    (connectivity d) (owner_epoch d) (capabilities d) (metadata d) (created_at d) t rev.

Definition put_name (v : string) (d : Device) : Device := set_description v (kind d) (capabilities d) (metadata d) d.
Definition put_kind (v : DeviceKind) (d : Device) : Device := set_description (name d) v (capabilities d) (metadata d) d.
Definition put_capabilities (v : list Capability) (d : Device) : Device := set_description (name d) (kind d) v (metadata d) d.
Definition put_metadata (v : gmap string string) (d : Device) : Device := set_description (name d) (kind d) (capabilities d) v d.
Definition put_protocol (v : Protocol) (d : Device) : Device := set_identity v (external_id d) (authority d) d.
Definition put_external_id (v : string) (d : Device) : Device := set_identity (protocol d) v (authority d) d.
Definition put_authority (v : string) (d : Device) : Device := set_identity (protocol d) (external_id d) v d.

Definition check_kind (k : DeviceKind) : result unit DomainError :=
  check_that (bool_decide (k = DkUnknown)) "device kind must be known".
Definition check_protocol (p : Protocol) : result unit DomainError :=
  check_that (bool_decide (p = ProtoUnknown)) "protocol must be known".
Definition check_external_id (id : string) : result unit DomainError :=
  check_that (is_empty_str id) "external_id must not be empty".
Definition check_authority (a : string) : result unit DomainError :=
  check_that (MAX_DEVICE_AUTHORITY_BYTES <? str_len a) "authority must not exceed 256 bytes".
Definition check_reason (r : string) : result unit DomainError :=
  check_that (MAX_DEVICE_REASON_BYTES <? str_len r) "reason must not exceed 1024 bytes".

Definition updated_event (d : Device) : DomainEvent :=
  DeviceUpdated (tenant_id d) (device_id d) (name d) (kind d) (protocol d) (external_id d) (authority d)
    (capabilities d) (metadata d) (lifecycle d) (connectivity d) (owner_epoch d) (updated_at d).
Definition online_event (reason : option string) (d : Device) : DomainEvent :=
  DeviceOnlineChanged (tenant_id d) (device_id d) (connectivity d) (lifecycle d) reason.
Definition lifecycle_event (previous : DeviceLifecycle) (d : Device) : DomainEvent :=
  DeviceLifecycleChanged (tenant_id d) (device_id d) previous (lifecycle d) (connectivity d).

Section methods.
Context {W : Type} `{Clock W}.

Definition new (tenant device : Uuid) (p : Protocol) (ext auth nm : string) (k : DeviceKind) (caps : list Capability)
    (m : gmap string string) (w : W) : result (Device * DomainEvent) DomainError * W :=
  let checked : result unit DomainError :=
    let? _ := check_that (is_nil device) "device_id must not be nil" in
    let? _ := check_protocol p in
    let? _ := check_external_id ext in
    let? _ := check_name MAX_DEVICE_NAME_BYTES nm in
    let? _ := check_authority auth in
    let? _ := check_kind k in
    let? _ := validate_capabilities caps in
    validate_metadata m in
  match checked with
  | Err e => (Err e, w)
  | Ok _ =>
      let '(now, w) := now_wall w in
      let d := mkDevice tenant device p ext auth nm k Provisioning ConnUnknown 0 caps m now now 0 in
      (Ok (d, DeviceRegistered tenant device p ext auth nm k caps m Provisioning ConnUnknown 0 now), w)
  end.

Definition guard_not_retired : dm Device W unit :=
  let! self := dm_get in
  if decide (lifecycle self = DevRetired) then dm_err (invalid_transition "Device" "Retired" "mutating") else dm_ret tt.

Definition bump : dm Device W unit :=
  let! now := dm_port now_wall in
  dm_mod (fun d => set_version now (wrap64 (revision d + 1)) d).
Definition bump_with (event : Device -> DomainEvent) : dm Device W DomainEvent :=
  do! bump in let! self := dm_get in dm_ret (event self).

Definition update (nm : option string) (k : option DeviceKind) (p : option Protocol) (ext auth : option string)
    (caps : option (list Capability)) (m : option (gmap string string)) : dm Device W DomainEvent :=
  do! guard_not_retired in
  do! dm_field nm (check_name MAX_DEVICE_NAME_BYTES) put_name in
  do! dm_field k check_kind put_kind in
  do! dm_field p check_protocol put_protocol in
  do! dm_field ext check_external_id put_external_id in
  do! dm_field auth check_authority put_authority in
  do! dm_field caps validate_capabilities put_capabilities in
  do! dm_field m validate_metadata put_metadata in
  bump_with updated_event.

Definition mark_online (reason : option string) : dm Device W DomainEvent :=
  do! guard_not_retired in
  do! dm_try (match reason with Some r => check_reason r | None => Ok tt end) in
  do! dm_mod (fun d => set_status (if decide (lifecycle d = Provisioning) then DevActive else lifecycle d) ConnOnline d) in
  bump_with (online_event reason).

Definition mark_offline (reason : string) : dm Device W DomainEvent :=
  do! guard_not_retired in
  do! dm_try (check_reason reason) in
  let! now := dm_port now_wall in
  do! dm_mod (fun d => set_status (lifecycle d) (ConnOffline now reason) d) in
  bump_with (fun d => online_event (offline_reason (connectivity d)) d).

Definition suspend : dm Device W DomainEvent :=
  do! guard_not_retired in
  let! self := dm_get in
  let previous := lifecycle self in
  do! dm_mod (fun d => set_status DevSuspended (connectivity d) d) in
  do! (if decide (connectivity self = ConnOnline)
       then let! now := dm_port now_wall in dm_mod (fun d => set_status (lifecycle d) (ConnOffline now "suspended") d)
       else dm_ret tt) in
  bump_with (lifecycle_event previous).

Definition activate : dm Device W DomainEvent :=
  do! guard_not_retired in
  let! self := dm_get in
  do! dm_mod (fun d => set_status DevActive (connectivity d) d) in
  bump_with (lifecycle_event (lifecycle self)).

Definition retire : dm Device W DomainEvent :=
  do! guard_not_retired in
  let! self := dm_get in
  let! now := dm_port now_wall in
  do! dm_mod (set_status DevRetired (ConnOffline now "retired")) in
  bump_with (lifecycle_event (lifecycle self)).

Definition replace_capabilities (caps : list Capability) : dm Device W DomainEvent :=
  do! guard_not_retired in
  do! dm_try (validate_capabilities caps) in
  do! dm_mod (put_capabilities caps) in
  bump_with updated_event.
Definition replace_metadata (m : gmap string string) : dm Device W DomainEvent :=
  do! guard_not_retired in
  do! dm_try (validate_metadata m) in
  do! dm_mod (put_metadata m) in
  bump_with updated_event.
Definition touch : dm Device W DomainEvent := bump_with updated_event.
End methods.

(** The methods that change a device. *)
Inductive call :=
| Update (nm : option string) (k : option DeviceKind) (p : option Protocol) (ext auth : option string)
    (caps : option (list Capability)) (m : option (gmap string string))
| MarkOnline (reason : option string)
| MarkOffline (reason : string)
| Suspend | Activate | Retire
| ReplaceCapabilities (caps : list Capability)
| ReplaceMetadata (m : gmap string string)
| Touch.

Definition exec {W} `{Clock W} (c : call) : dm Device W DomainEvent :=
  match c with
  | Update nm k p ext auth caps m => update nm k p ext auth caps m
  | MarkOnline reason => mark_online reason
  | MarkOffline reason => mark_offline reason
  | Suspend => suspend
  | Activate => activate
  | Retire => retire
  | ReplaceCapabilities caps => replace_capabilities caps
  | ReplaceMetadata m => replace_metadata m
  | Touch => touch
  end.
End Device.

Module Channel.
Record Channel := mkChannel {
  tenant_id : Uuid;
  device_id : Uuid;
  channel_id : Uuid;
  kind : ChannelKind;
  name : string;
  enabled : bool;
  status : ChannelStatus;
  stream_profiles : list StreamProfile;
  ptz_capabilities : PtzCapabilities;
  metadata : gmap string string;
  created_at : UtcTimestamp;
  updated_at : UtcTimestamp;
  revision : Z
}.

Definition upd (c : Channel) (k : ChannelKind) (nm : string) (en : bool) (st : ChannelStatus) (sp : list StreamProfile)
    (ptz : PtzCapabilities) (m : gmap string string) : Channel :=
  mkChannel (tenant_id c) (device_id c) (channel_id c) k nm en st sp ptz m (created_at c) (updated_at c) (revision c).
Definition put_kind v c : Channel := upd c v (name c) (enabled c) (status c) (stream_profiles c) (ptz_capabilities c) (metadata c).
Definition put_name v c : Channel := upd c (kind c) v (enabled c) (status c) (stream_profiles c) (ptz_capabilities c) (metadata c).
Definition put_enabled v c : Channel := upd c (kind c) (name c) v (status c) (stream_profiles c) (ptz_capabilities c) (metadata c).
Definition put_status v c : Channel := upd c (kind c) (name c) (enabled c) v (stream_profiles c) (ptz_capabilities c) (metadata c).
Definition put_profiles v c : Channel := upd c (kind c) (name c) (enabled c) (status c) v (ptz_capabilities c) (metadata c).
Definition put_ptz v c : Channel := upd c (kind c) (name c) (enabled c) (status c) (stream_profiles c) v (metadata c).
Definition put_metadata v c : Channel := upd c (kind c) (name c) (enabled c) (status c) (stream_profiles c) (ptz_capabilities c) v.
Definition set_version (t : UtcTimestamp) (rev : Z) (c : Channel) : Channel :=
  mkChannel (tenant_id c) (device_id c) (channel_id c) (kind c) (name c) (enabled c) (status c) (stream_profiles c)
    (ptz_capabilities c) (metadata c) (created_at c) t rev.

Definition updated_event (c : Channel) : DomainEvent :=
  ChannelUpdated (tenant_id c) (device_id c) (channel_id c) (kind c) (name c) (enabled c) (status c) (stream_profiles c)
    (ptz_capabilities c) (metadata c) (updated_at c).

Definition any {A} (_ : A) : result unit DomainError := Ok tt.

Section methods.
Context {W : Type} `{Clock W}.

Definition new (tenant device channel : Uuid) (k : ChannelKind) (nm : string) (en : bool) (st : option ChannelStatus)
    (sp : list StreamProfile) (ptz : PtzCapabilities) (m : gmap string string) (w : W) :
    result (Channel * DomainEvent) DomainError * W :=
  let checked : result unit DomainError :=
    let? _ := check_that (is_nil channel) "channel_id must not be nil" in
    let? _ := check_name MAX_CHANNEL_NAME_BYTES nm in
    let? _ := validate_stream_profiles sp in
    validate_metadata m in
  match checked with
  | Err e => (Err e, w)
  | Ok _ =>
      let '(now, w) := now_wall w in
      let c := mkChannel tenant device channel k nm en (default CsUnknown st) sp ptz m now now 0 in
      (Ok (c, ChannelCreated tenant device channel k nm en (status c) sp ptz m now), w)
  end.

Definition bump : dm Channel W unit :=
  let! now := dm_port now_wall in
  dm_mod (fun c => set_version now (wrap64 (revision c + 1)) c).
Definition bump_with (event : Channel -> DomainEvent) : dm Channel W DomainEvent :=
  do! bump in let! self := dm_get in dm_ret (event self).

Definition update (k : option ChannelKind) (nm : option string) (en : option bool) (st : option ChannelStatus)
    (sp : option (list StreamProfile)) (ptz : option PtzCapabilities) (m : option (gmap string string)) :
    dm Channel W DomainEvent :=
  do! dm_field k any put_kind in
  do! dm_field nm (check_name MAX_CHANNEL_NAME_BYTES) put_name in
  do! dm_field en any put_enabled in
  do! dm_field st any put_status in
  do! dm_field sp validate_stream_profiles put_profiles in
  do! dm_field ptz any put_ptz in
  do! dm_field m validate_metadata put_metadata in
  bump_with updated_event.

Definition update_status (st : ChannelStatus) : dm Channel W DomainEvent :=
  let! self := dm_get in
  do! dm_mod (put_status st) in
  bump_with (fun c => ChannelOnlineChanged (tenant_id c) (device_id c) (channel_id c) (status self) st).
Definition enable : dm Channel W DomainEvent := do! dm_mod (put_enabled true) in bump_with updated_event.
Definition disable : dm Channel W DomainEvent := do! dm_mod (put_enabled false) in bump_with updated_event.
End methods.

Definition remove (c : Channel) : DomainEvent := ChannelRemoved (tenant_id c) (device_id c) (channel_id c).

(** The methods that change a channel. *)
Inductive call :=
| Update (k : option ChannelKind) (nm : option string) (en : option bool) (st : option ChannelStatus)
    (sp : option (list StreamProfile)) (ptz : option PtzCapabilities) (m : option (gmap string string))
| UpdateStatus (st : ChannelStatus)
| Enable | Disable.
Definition exec {W} `{Clock W} (c : call) : dm Channel W DomainEvent :=
  match c with
  | Update k nm en st sp ptz m => update k nm en st sp ptz m
  | UpdateStatus st => update_status st
  | Enable => enable
  | Disable => disable
  end.
End Channel.

(** [map_gb28181_channel_id]: [Uuid::new_v5] in the OID name space is the class. *)
Class UuidV5 := new_v5_oid : string -> Uuid.
Definition map_gb28181_channel_id `{UuidV5, UuidDisplay} (tenant : Uuid) (device_external_id channel_external_id : string) : Uuid :=
  new_v5_oid (String.concat "" ["gb28181/"; uuid_to_string tenant; "/"; device_external_id; "/"; channel_external_id]).
