(* ===== verification/DeviceProps.v ===== *)
(** * Theorems on devices and channels

    Well-formedness, the lifecycle and the revisions along any history of calls,
    and the identity of GB28181 channels. *)

From S2P Require Import Prelude RustStr Domain MediaNode DeviceData DomainData Lifecycle Device.

Open Scope string_scope.
Open Scope list_scope.
Open Scope Z_scope.

Create HintDb moves.
Ltac moves_tac :=
  repeat first
    [ solve [auto 1 with moves nocore] | apply moves_ret; apply _ | apply moves_err; apply _ | apply moves_get; apply _ | apply moves_try; apply _
    | apply moves_port; apply _ | apply moves_bind; [apply _| |intros ?] | apply moves_mod; intros ? ].

Lemma moves_field {S W A} (R : S -> S -> Prop) `{!PreOrder R} (o : option A) check (set : A -> S -> S) :
  (forall a s, check a = Ok tt -> R s (set a s)) -> moves (W := W) R (dm_field o check set).
Proof.
  intros Hset s w. destruct o as [a|]; simpl; [|reflexivity]. unfold dm_bind, dm_try.
  destruct (check a) as [[]|e] eqn:Hc; simpl; [by apply Hset|reflexivity].
Qed.

(** ** Devices *)

Import Device.Device.

Record device_wf (d : Device) : Prop := mkDeviceWf {
  wf_name : bad_name MAX_DEVICE_NAME_BYTES (name d) = false;
  wf_kind : kind d <> DkUnknown;
  wf_protocol : protocol d <> ProtoUnknown;
  wf_external_id : external_id d <> "";
  wf_authority : str_len (authority d) <= MAX_DEVICE_AUTHORITY_BYTES;
  wf_capabilities : validate_capabilities (capabilities d) = Ok tt;
  wf_metadata : validate_metadata (metadata d) = Ok tt;
  wf_retired : lifecycle d = DevRetired -> exists since, connectivity d = ConnOffline since "retired"
}.

Lemma check_that_Ok b m : check_that b m = Ok tt -> b = false.
Proof. unfold check_that. by destruct b. Qed.

(** A device keeps its well-formedness. *)
Definition wf_step (d d1 : Device) : Prop := device_wf d -> device_wf d1.
#[local] Instance wf_step_preorder : PreOrder wf_step.
Proof. split; [by intros ? ?|]. intros a b c Hab Hbc Ha. auto. Qed.

Section device.
Context {W : Type} `{Clock W}.
Implicit Types (d : Device) (w : W).

Lemma wf_version t r d : device_wf d -> device_wf (set_version t r d).
Proof. by intros []. Qed.
Lemma bump_with_wf ev : moves (W := W) wf_step (bump_with ev).
Proof. unfold bump_with, bump. moves_tac. intros Hd. by apply wf_version. Qed.
#[local] Hint Resolve bump_with_wf : moves.

Lemma update_wf nm k p ext auth caps m : moves (W := W) wf_step (update nm k p ext auth caps m).
Proof.
  unfold update, guard_not_retired. moves_tac.
  all: try (match goal with |- context [decide ?P] => destruct (decide P) end; moves_tac).
  all: apply (moves_field wf_step); intros v d Hc [? ? ? ? ? ? ? ?]; constructor; simpl; try done.
  all: apply check_that_Ok in Hc; first [by apply bool_decide_eq_false in Hc | by apply Z.ltb_ge in Hc | by destruct v | done].
Qed.

(** Run a method other than [update] to its end. *)
Ltac run_method :=
  unfold mark_online, mark_offline, suspend, activate, retire, replace_capabilities, replace_metadata, touch,
    guard_not_retired, bump_with, bump; dm_unfold;
  repeat (case_decide; simpl; try done);
  repeat match goal with
  | |- context [now_wall ?w] => destruct (now_wall w); simpl
  | |- context [match ?r with Ok _ => _ | Err _ => _ end] => destruct r as [[]|] eqn:?; simpl; try done
  end.

Lemma exec_wf c : moves (W := W) wf_step (exec c).
Proof.
  destruct c as [nm k p ext auth caps m|reason|reason| | | |caps|m|]; [apply update_wf|..]; intros d w [? ? ? ? ? ? ? Hr]; simpl.
  all: run_method; constructor; simpl; try done; try (by intros ?%Hr); eauto.
Qed.

(** What a call never changes, and how the lifecycle moves. *)
Record evolves (d d1 : Device) : Prop := mkEvolves {
  ev_tenant : tenant_id d1 = tenant_id d;
  ev_device : device_id d1 = device_id d;
  ev_created : created_at d1 = created_at d;
  ev_epoch : owner_epoch d1 = owner_epoch d;
  ev_provisioned : lifecycle d <> Provisioning -> lifecycle d1 <> Provisioning;
  ev_retired : lifecycle d = DevRetired -> d1 = set_version (updated_at d1) (revision d1) d
}.
#[global] Instance evolves_preorder : PreOrder evolves.
Proof.
  split; [intros d; constructor; try done; by destruct d|].
  intros a b c [? ? ? ? Hp Hr] [? ? ? ? Hp' Hr']. constructor; try congruence; [auto|]. intros Ha.
  specialize (Hr Ha). rewrite Hr' by (by rewrite Hr). by rewrite Hr.
Qed.
Definition keeps_status (d d1 : Device) : Prop :=
  tenant_id d1 = tenant_id d /\ device_id d1 = device_id d /\ created_at d1 = created_at d /\ owner_epoch d1 = owner_epoch d
  /\ lifecycle d1 = lifecycle d.
#[local] Instance keeps_status_preorder : PreOrder keeps_status.
Proof. split; [done|]. unfold keeps_status. intros a b c ? ?. destruct_and?. split_and!; congruence. Qed.

Lemma bump_with_status ev : moves (W := W) keeps_status (bump_with ev).
Proof. unfold bump_with, bump. moves_tac. done. Qed.
#[local] Hint Resolve bump_with_status : moves.
Lemma update_keeps nm k p ext auth caps m : moves (W := W) keeps_status (update nm k p ext auth caps m).
Proof.
  unfold update, guard_not_retired. moves_tac.
  all: try (match goal with |- context [decide ?P] => destruct (decide P) end; moves_tac).
  all: by apply (moves_field keeps_status).
Qed.

Lemma exec_evolves c : moves (W := W) evolves (exec c).
Proof.
  destruct c as [nm k p ext auth caps m|reason|reason| | | |caps|m|]; intros d w; simpl.
  { pose proof (update_keeps nm k p ext auth caps m d w) as (? & ? & ? & ? & Hl). constructor; try done; [by rewrite Hl|].
    intros Hr. unfold update, guard_not_retired. dm_unfold. rewrite decide_True by done. by destruct d. }
  all: simpl; run_method; constructor; simpl; try done; try congruence; by destruct d.
Qed.

(** The revision counts the calls that succeed, also after a refused update. *)
Definition keeps_revision (d d1 : Device) : Prop := revision d1 = revision d.
#[local] Instance keeps_revision_preorder : PreOrder keeps_revision.
Proof. split; [done|]. unfold keeps_revision. congruence. Qed.
Definition counted {A} (m : dm Device W A) : Prop := forall d w,
  revision (m d w).1.2 = if is_ok (m d w).1.1 then wrap64 (revision d + 1) else revision d.
Lemma counted_bind {A B} (m : dm Device W A) (k : A -> dm Device W B) :
  moves keeps_revision m -> (forall a, counted (k a)) -> counted (dm_bind m k).
Proof.
  intros Hm Hk d w. unfold dm_bind. specialize (Hm d w). destruct (m d w) as [[[a|e] d1] w1]; simpl in *; [|done].
  rewrite Hk. by rewrite Hm.
Qed.
Lemma counted_bump ev : counted (bump_with ev).
Proof. intros d w. unfold bump_with, bump. dm_unfold. by destruct (now_wall w). Qed.
Lemma guard_revision : moves (W := W) keeps_revision guard_not_retired.
Proof. intros d w. unfold guard_not_retired. dm_unfold. by case_decide. Qed.
Lemma exec_counted c : counted (exec c).
Proof.
  destruct c as [nm k p ext auth caps m|reason|reason| | | |caps|m|].
  { simpl. unfold update. repeat first [apply counted_bump | apply counted_bind; [|intros ?]]; try apply guard_revision.
    all: by apply (moves_field keeps_revision). }
  all: intros d w; simpl; run_method; done.
Qed.
End device.

(** Devices keep their invariants along every history of calls.  Name, kind,
    protocol, identity, authority, capabilities and metadata stay within their
    bounds, also when an update fails after it has written a part of its fields;
    tenant, identifier, creation time and owner epoch never change; a device that
    left provisioning does not come back to it; a retired device is offline as
    retired and from then on changes in nothing but revision and update time; the
    revision counts the calls that succeeded. *)
Theorem device_history {W} `{Clock W} cs (d : Device) (w : W) :
  device_wf d -> is_u64 (revision d) ->
  let '(evs, d1, _) := dm_run exec cs d w in
  device_wf d1 /\ evolves d d1 /\ revision d1 = wrap64 (revision d + Z.of_nat (length evs)).
Proof.
  intros Hd Hu. pose proof (dm_run_inv exec device_wf cs d w (fun c d w => exec_wf c d w) Hd) as H1.
  pose proof (dm_run_rel exec evolves cs d w exec_evolves) as H2.
  pose proof (dm_run_count exec revision cs d w exec_counted Hu) as H3.
  destruct (dm_run exec cs d w) as [[evs d1] w1]. done.
Qed.

(** A new device is well formed. *)
Lemma new_device_wf {W} `{Clock W} tenant device p ext auth nm k caps m (w : W) d ev w1 :
  new tenant device p ext auth nm k caps m w = (Ok (d, ev), w1) -> device_wf d /\ is_u64 (revision d).
Proof.
  unfold new. intros Hn.
  destruct (check_that (is_nil device) _); simpl in Hn; [|done].
  destruct (check_protocol p) as [[]|] eqn:Hp; simpl in Hn; [|done].
  destruct (check_external_id ext) as [[]|] eqn:He; simpl in Hn; [|done].
  destruct (check_name _ nm) as [[]|] eqn:Hnm; simpl in Hn; [|done].
  destruct (check_authority auth) as [[]|] eqn:Ha; simpl in Hn; [|done].
  destruct (check_kind k) as [[]|] eqn:Hk; simpl in Hn; [|done].
  destruct (validate_capabilities caps) as [[]|] eqn:Hc; simpl in Hn; [|done].
  destruct (validate_metadata m) as [[]|] eqn:Hm; simpl in Hn; [|done].
  destruct (now_wall w) as [now w2]. injection Hn as <- <- <-. split; [|split; simpl; unfold U64_MAX; lia].
  apply check_that_Ok in Hp, He, Hnm, Ha, Hk. apply bool_decide_eq_false in Hp, Hk. apply Z.ltb_ge in Ha.
  constructor; simpl; try done. by destruct ext.
Qed.

Module DeviceSample.
Definition sample : Device := mkDevice 9 7 ProtoGb28181 "34020000001320000001" "" "gate" DkCamera Provisioning ConnUnknown 0 [] ∅ 0 0 0.
Lemma sample_wf : device_wf sample.
Proof. constructor; try done; by vm_compute. Qed.
(** Online, retired, then an update that is refused and a touch. *)
Definition calls : list call := [MarkOnline None; Retire; Update (Some "x") None None None None None None; Touch].
Lemma device_history_witness :
  let '(evs, d1, _) := dm_run exec calls sample (Build_InMemoryWorld 5 1) in
  device_wf d1 /\ lifecycle d1 = DevRetired /\ name d1 = "gate" /\ revision d1 = 3 /\ evolves sample d1.
Proof.
  pose proof (device_history calls sample (Build_InMemoryWorld 5 1) sample_wf ltac:(vm_compute; split; discriminate)) as Hh.
  assert (let '(evs, d1, _) := dm_run exec calls sample (Build_InMemoryWorld 5 1) in
    lifecycle d1 = DevRetired /\ name d1 = "gate" /\ revision d1 = 3) as Hv by (vm_compute; split_and!; reflexivity).
  destruct (dm_run exec calls sample (Build_InMemoryWorld 5 1)) as [[evs d1] w1].
  destruct Hh as (? & ? & _), Hv as (? & ? & ?). split_and!; assumption.
Defined.

(** A refused update has already written the fields before the one it refused. *)
Lemma refused_update_writes :
  exists nm caps, let '(r, d1, _) := update (Some nm) None None None None (Some caps) None sample (Build_InMemoryWorld 5 1) in
  is_ok r = false /\ name d1 <> name sample /\ revision d1 = revision sample.
Proof. exists "renamed", [mkCap "" (CvBool true)]. by vm_compute. Qed.
End DeviceSample.

(** ** Channels *)

Module ChannelFacts.
Import Device.Channel.

Record channel_wf (c : Channel) : Prop := mkChannelWf {
  cw_name : bad_name MAX_CHANNEL_NAME_BYTES (name c) = false;
  cw_profiles : validate_stream_profiles (stream_profiles c) = Ok tt;
  cw_metadata : validate_metadata (metadata c) = Ok tt
}.
Definition cwf_step (c c1 : Channel) : Prop := channel_wf c -> channel_wf c1.
#[local] Instance cwf_step_preorder : PreOrder cwf_step.
Proof. split; [by intros ? ?|]. intros a b c Hab Hbc Ha. auto. Qed.

Lemma channel_exec_wf {W} `{Clock W} c : moves (W := W) cwf_step (exec c).
Proof.
  assert (forall ev, moves (W := W) cwf_step (bump_with ev)) as Hb.
  { intros ev. unfold bump_with, bump. moves_tac. by intros []. }
  destruct c as [k nm en st sp ptz m|st| |]; simpl; unfold update, update_status, enable, disable.
  all: repeat first [apply Hb | apply moves_bind; [apply _| |intros ?]]; try (apply moves_mod; intros ? []; by constructor).
  all: try apply moves_get; try apply _.
  all: apply (moves_field cwf_step); intros v c Hc [? ? ?]; constructor; simpl; try done; by apply check_that_Ok in Hc.
Qed.

(** Every channel keeps its bounds along every history of calls. *)
Lemma channel_history {W} `{Clock W} cs (c : Channel) (w : W) : channel_wf c -> channel_wf (dm_run exec cs c w).1.2.
Proof. apply (dm_run_inv exec channel_wf). intros k s v. apply channel_exec_wf. Qed.
End ChannelFacts.

(** ** Identities of GB28181 channels *)

(** When the external identifiers have no slash, the text that is hashed is
    different for different tenants, devices and channels. *)
Lemma channel_id_text_injective `{UuidDisplay} t1 d1 c1 t2 d2 c2 :
  lacks "/" (uuid_to_string t1) = true -> lacks "/" (uuid_to_string t2) = true ->
  lacks "/" d1 = true -> lacks "/" d2 = true ->
  String.concat "" ["gb28181/"; uuid_to_string t1; "/"; d1; "/"; c1] =
  String.concat "" ["gb28181/"; uuid_to_string t2; "/"; d2; "/"; c2] ->
  uuid_to_string t1 = uuid_to_string t2 /\ d1 = d2 /\ c1 = c2.
Proof.
  intros Ht1 Ht2 Hd1 Hd2 Heq. simpl in Heq. injection Heq as Heq.
  pose proof (f_equal (split_once "/") Heq) as H1. rewrite !split_once_app in H1 by done. injection H1 as -> H1.
  pose proof (f_equal (split_once "/") H1) as H2. rewrite !split_once_app in H2 by done. by injection H2 as -> ->.
Qed.
(** With a slash in them they can meet. *)
Lemma channel_ids_meet `{UuidV5, UuidDisplay} tenant :
  map_gb28181_channel_id tenant "a/b" "c" = map_gb28181_channel_id tenant "a" "b/c".
Proof. unfold map_gb28181_channel_id. simpl. by destruct (uuid_to_string tenant). Qed.
