(* ===== verification/ProtocolSession.v ===== *)
(** * Protocol sessions

    The registration of a device as an aggregate ([protocol_session.rs]): local
    identity, endpoint facts, REGISTER facts, presence and owner.  The
    compatibility profile is in [Compatibility]. *)

From S2P Require Import Prelude RustStr Domain MediaNode DeviceData DomainData Compatibility Lifecycle Device.

Open Scope string_scope.
Open Scope list_scope.
Open Scope Z_scope.

Definition SESSION_MAX_FIELD_BYTES : Z := 512.

Inductive SipTransport := StUdp | StTcp.
Definition SipTransport_str (t : SipTransport) : string := match t with StUdp => "udp" | StTcp => "tcp" end.
Definition SipTransport_from_str : string -> result SipTransport DomainError :=
  fun s => ok_or (lookup_text SipTransport_str [StUdp; StTcp] s) (invalid_argument ("unknown transport: " +:+ chars_take 64 s)).

Inductive PresenceState := PsUnknown | PsOnline | PsOffline.
#[global] Instance PresenceState_eq_dec : EqDecision PresenceState.
Proof. solve_decision. Defined.
Definition PresenceState_str (p : PresenceState) : string :=
  match p with PsUnknown => "unknown" | PsOnline => "online" | PsOffline => "offline" end.
Definition PresenceState_from_str : string -> result PresenceState DomainError :=
  fun s => ok_or (lookup_text PresenceState_str [PsUnknown; PsOnline; PsOffline] s)
             (invalid_argument ("unknown presence state: " +:+ chars_take 64 s)).

Record LocalIdentity := mkLocalIdentity { li_listener_id : string; li_local_device_id : string; li_domain : string; li_realm : string }.
Fixpoint check_fields (required : bool) (l : list (string * string)) : result unit DomainError :=
  match l with
  | [] => Ok tt
  | (name, value) :: l =>
      if required && is_empty_str value then Err (invalid_argument (name +:+ " must not be empty"))
      else if SESSION_MAX_FIELD_BYTES <? str_len value then Err (invalid_argument (name +:+ " too long"))
      else check_fields required l
  end.
Definition LocalIdentity_validate (i : LocalIdentity) : result unit DomainError :=
  check_fields true [("listener_id", li_listener_id i); ("local_device_id", li_local_device_id i);
                     ("domain", li_domain i); ("realm", li_realm i)].

Record SessionEndpoint := mkSessionEndpoint { se_observed_source : string; se_contact_uri : string; se_advertised_endpoint : string }.
Definition SessionEndpoint_validate (e : SessionEndpoint) : result unit DomainError :=
  check_fields false [("observed_source", se_observed_source e); ("contact_uri", se_contact_uri e);
                      ("advertised_endpoint", se_advertised_endpoint e)].

Record RegistrationInfo := mkRegistration { ri_call_id : string; ri_cseq : Z; ri_expires_secs : Z }.
Definition RegistrationInfo_validate (r : RegistrationInfo) : result unit DomainError :=
  check_that (SESSION_MAX_FIELD_BYTES <? str_len (ri_call_id r)) "call_id too long".

Record NewProtocolSession := mkNewSession {
  ns_protocol_session_id : Uuid;
  ns_tenant_id : Uuid;
  ns_device_id : Uuid;
  ns_protocol : Protocol;
  ns_protocol_identity : string;
  ns_local_identity : LocalIdentity;
  ns_transport : SipTransport;
  ns_endpoint : SessionEndpoint;
  ns_registration : RegistrationInfo;
  ns_expiry_at : UtcTimestamp;
  ns_owner_node_id : option Uuid;
  ns_owner_epoch : Z;
  ns_compatibility : CompatibilityProfile
}.

Module Session.
(** The fields that never change ([config], of which the endpoint, the registration,
    the expiry and the owner are the initial ones), and those that the methods change. *)
Record ProtocolSession := mkProtocolSession {
  config : NewProtocolSession;
  endpoint : SessionEndpoint;
  registration : RegistrationInfo;
  expiry_at : UtcTimestamp;
  last_authenticated_at : option UtcTimestamp;
  presence : PresenceState;
  last_keepalive_at : option UtcTimestamp;
  offline_reason : option string;
  owner_node_id : option Uuid;
  owner_epoch : Z;
  created_at : UtcTimestamp;
  updated_at : UtcTimestamp;
  revision : Z
}.

Definition set_route (e : SessionEndpoint) (s : ProtocolSession) : ProtocolSession :=
  mkProtocolSession (config s) e (registration s) (expiry_at s) (last_authenticated_at s) (presence s) (last_keepalive_at s)
    (offline_reason s) (owner_node_id s) (owner_epoch s) (created_at s) (updated_at s) (revision s).
Definition set_registration (r : RegistrationInfo) (expiry : UtcTimestamp) (s : ProtocolSession) : ProtocolSession :=
  mkProtocolSession (config s) (endpoint s) r expiry (last_authenticated_at s) (presence s) (last_keepalive_at s)
    (offline_reason s) (owner_node_id s) (owner_epoch s) (created_at s) (updated_at s) (revision s).
Definition set_presence (auth : option UtcTimestamp) (p : PresenceState) (keepalive : option UtcTimestamp)
    (reason : option string) (s : ProtocolSession) : ProtocolSession :=
  mkProtocolSession (config s) (endpoint s) (registration s) (expiry_at s) auth p keepalive
    reason (owner_node_id s) (owner_epoch s) (created_at s) (updated_at s) (revision s).
Definition set_owner (node : Uuid) (epoch : Z) (s : ProtocolSession) : ProtocolSession :=
  mkProtocolSession (config s) (endpoint s) (registration s) (expiry_at s) (last_authenticated_at s) (presence s)
    (last_keepalive_at s) (offline_reason s) (Some node) epoch (created_at s) (updated_at s) (revision s).
Definition set_version (t : UtcTimestamp) (rev : Z) (s : ProtocolSession) : ProtocolSession :=
  mkProtocolSession (config s) (endpoint s) (registration s) (expiry_at s) (last_authenticated_at s) (presence s)
    (last_keepalive_at s) (offline_reason s) (owner_node_id s) (owner_epoch s) (created_at s) t rev.

Section methods.
Context {W : Type} `{Clock W}.

Definition new (p : NewProtocolSession) (w : W) : result ProtocolSession DomainError * W :=
  let checked : result unit DomainError :=
    let? _ := check_that (is_nil (ns_protocol_session_id p)) "protocol_session_id must not be nil" in
    let? _ := check_that (bool_decide (ns_protocol p = ProtoUnknown)) "protocol must be known" in
    let? _ := check_that (is_empty_str (ns_protocol_identity p)) "protocol_identity must not be empty" in
    let? _ := LocalIdentity_validate (ns_local_identity p) in
    let? _ := SessionEndpoint_validate (ns_endpoint p) in
    let? _ := RegistrationInfo_validate (ns_registration p) in
    CompatibilityProfile_validate (ns_compatibility p) in
  match checked with
  | Err e => (Err e, w)
  | Ok _ =>
      let '(now, w) := now_wall w in
      (Ok (mkProtocolSession p (ns_endpoint p) (ns_registration p) (ns_expiry_at p) (Some now) PsUnknown None None
             (ns_owner_node_id p) (ns_owner_epoch p) now now 0), w)
  end.

Definition bump : dm ProtocolSession W unit :=
  let! now := dm_port now_wall in
  dm_mod (fun s => set_version now (wrap64 (revision s + 1)) s).

Definition refresh_registration (r : RegistrationInfo) (expiry : UtcTimestamp) (e : option SessionEndpoint) :
    dm ProtocolSession W unit :=
  do! dm_try (RegistrationInfo_validate r) in
  let! self := dm_get in
  if ri_cseq r <? ri_cseq (registration self) then dm_err (invalid_argument "REGISTER CSeq must not decrease")
  else
    do! dm_field e SessionEndpoint_validate set_route in
    do! dm_mod (set_registration r expiry) in
    let! now := dm_port now_wall in
    do! dm_mod (fun s => set_presence (Some now) PsOnline (last_keepalive_at s) None s) in
    bump.

Definition record_keepalive : dm ProtocolSession W unit :=
  let! now := dm_port now_wall in
  do! dm_mod (fun s => set_presence (last_authenticated_at s) PsOnline (Some now) None s) in
  bump.

Definition mark_offline (reason : string) : dm ProtocolSession W unit :=
  if SESSION_MAX_FIELD_BYTES <? str_len reason then dm_err (invalid_argument "offline_reason too long")
  else
    do! dm_mod (fun s => set_presence (last_authenticated_at s) PsOffline (last_keepalive_at s) (Some reason) s) in
    bump.

Definition assign_owner (node : Uuid) (epoch : Z) : dm ProtocolSession W unit :=
  do! dm_mod (set_owner node epoch) in bump.
End methods.

Definition is_expired (now : UtcTimestamp) (s : ProtocolSession) : bool := expiry_at s <=? now.

(** The methods that change a session. *)
Inductive call :=
| RefreshRegistration (r : RegistrationInfo) (expiry : UtcTimestamp) (e : option SessionEndpoint)
| RecordKeepalive
| MarkOffline (reason : string)
| AssignOwner (node : Uuid) (epoch : Z).
Definition exec {W} `{Clock W} (c : call) : dm ProtocolSession W unit :=
  match c with
  | RefreshRegistration r expiry e => refresh_registration r expiry e
  | RecordKeepalive => record_keepalive
  | MarkOffline reason => mark_offline reason
  | AssignOwner node epoch => assign_owner node epoch
  end.
End Session.
