(* ===== verification/PlatformLink.v ===== *)
(** * Cascade platform links

    [platform_link.rs]: the cascade relationship with a remote platform, its
    registration state, its owner fenced by an epoch, the bounded backoff, the
    subscription slots and the detection of loops.  The methods that cannot fail
    are computations of the monad of aggregates as well. *)

From S2P Require Import Prelude RustStr Domain Lifecycle ProtocolSession.

Open Scope string_scope.
Open Scope list_scope.
Open Scope Z_scope.

(** ** Data *)

Definition LINK_MAX_FIELD_BYTES : Z := 512.
Definition MAX_ACL_ENTRIES : Z := 256.
Definition MAX_CASCADE_HOPS : nat := 8.

Definition validate_token (name value : string) : result unit DomainError :=
  if negb (lacks CR value && lacks LF value) then Err (invalid_argument (name +:+ " must not contain line breaks"))
  else if LINK_MAX_FIELD_BYTES <? str_len value then Err (invalid_argument (name +:+ " too long"))
  else Ok tt.

Inductive PlatformDirection := Upstream | Downstream.
Definition direction_name (d : PlatformDirection) : string := match d with Upstream => "upstream" | Downstream => "downstream" end.
Definition direction_from_str (s : string) : result PlatformDirection DomainError :=
  if eq_ignore_ascii_case s "upstream" then Ok Upstream
  else if eq_ignore_ascii_case s "downstream" then Ok Downstream
  else Err (invalid_argument ("unknown platform direction: " +:+ chars_take 64 s)).

Inductive DesiredRegistrationState := DesiredRegistered | DesiredUnregistered.
#[global] Instance DesiredRegistrationState_eq_dec : EqDecision DesiredRegistrationState.
Proof. solve_decision. Defined.
Inductive ActualRegistrationState := Idle | Registering | Registered | RegFailed | Deregistering.
#[global] Instance ActualRegistrationState_eq_dec : EqDecision ActualRegistrationState.
Proof. solve_decision. Defined.
Definition desired_name (d : DesiredRegistrationState) : string :=
  match d with DesiredRegistered => "registered" | DesiredUnregistered => "unregistered" end.
Definition actual_name (a : ActualRegistrationState) : string :=
  match a with
  | Idle => "idle" | Registering => "registering" | Registered => "registered" | RegFailed => "failed"
  | Deregistering => "deregistering"
  end.

Record PlatformIdentityPair := mkIdentityPair { ip_local : string; ip_remote : string }.
Definition identity_validate (i : PlatformIdentityPair) : result unit DomainError :=
  if is_empty_str (ip_local i) then Err (invalid_argument "local platform identity must not be empty")
  else if is_empty_str (ip_remote i) then Err (invalid_argument "remote platform identity must not be empty")
  else
    let? _ := validate_token "local platform identity" (ip_local i) in
    let? _ := validate_token "remote platform identity" (ip_remote i) in
    if (ip_local i =? ip_remote i)%string then Err (invalid_argument "local and remote platform identities must differ")
    else Ok tt.

Record PlatformEndpoint := mkEndpoint {
  pe_host : string;
  pe_port : Z;
  pe_transport : SipTransport;
  pe_realm : string;
  pe_domain : string
}.
Definition endpoint_validate (e : PlatformEndpoint) : result unit DomainError :=
  if is_empty_str (pe_host e) then Err (invalid_argument "endpoint host must not be empty")
  else if pe_port e =? 0 then Err (invalid_argument "endpoint port must be non-zero")
  else
    let? _ := validate_token "endpoint host" (pe_host e) in
    let? _ := validate_token "endpoint realm" (pe_realm e) in
    let? _ := validate_token "endpoint domain" (pe_domain e) in
    Ok tt.

Record PlatformCredential := mkCredential { cr_credential_ref : string; cr_allow_md5 : bool }.
Definition credential_validate (c : PlatformCredential) : result unit DomainError :=
  let? _ := validate_token "credential_ref" (cr_credential_ref c) in Ok tt.

Record PlatformAcl := mkAcl {
  acl_allowed_catalog_prefixes : list string;
  acl_allow_control : bool;
  acl_allow_media : bool;
  acl_denied_platform_ids : list string
}.
Fixpoint validate_tokens (name : string) (l : list string) : result unit DomainError :=
  match l with
  | [] => Ok tt
  | v :: l => let? _ := validate_token name v in validate_tokens name l
  end.
Definition acl_validate (a : PlatformAcl) : result unit DomainError :=
  if MAX_ACL_ENTRIES <? Z.of_nat (length (acl_allowed_catalog_prefixes a))
  then Err (invalid_argument "too many allowed catalog prefixes")
  else if MAX_ACL_ENTRIES <? Z.of_nat (length (acl_denied_platform_ids a))
  then Err (invalid_argument "too many denied platform ids")
  else
    let? _ := validate_tokens "catalog prefix" (acl_allowed_catalog_prefixes a) in
    let? _ := validate_tokens "denied platform id" (acl_denied_platform_ids a) in
    Ok tt.
Definition allows_resource (a : PlatformAcl) (external_id : string) : bool :=
  existsb (fun prefix => starts_with prefix external_id) (acl_allowed_catalog_prefixes a).
Definition is_denied_platform (a : PlatformAcl) (platform_id : string) : bool :=
  existsb (fun id => (id =? platform_id)%string) (acl_denied_platform_ids a).

Record BackoffPolicy := mkBackoff { bo_base_ms : Z; bo_max_ms : Z; bo_jitter_ms : Z; bo_max_retries : Z }.
Definition backoff_default : BackoffPolicy := mkBackoff 1000 60000 1000 5.
Definition backoff_validate (b : BackoffPolicy) : result unit DomainError :=
  if bo_base_ms b =? 0 then Err (invalid_argument "backoff base_ms must be non-zero")
  else if bo_max_ms b <? bo_base_ms b then Err (invalid_argument "backoff max_ms must be >= base_ms")
  else Ok tt.
Definition link_backoff_ms (b : BackoffPolicy) (attempt : Z) : Z :=
  let shift := Z.min attempt 63 in
  let multiplier := Z.shiftl 1 shift in
  Z.min (sat_mul64 (bo_base_ms b) multiplier) (bo_max_ms b).

Record SubscriptionLimits := mkSubscriptions { sl_max_subscriptions : Z; sl_active_subscriptions : Z }.
Definition subscriptions_default : SubscriptionLimits := mkSubscriptions 1000 0.

Record RegistrationRuntime := mkRuntime {
  rr_call_id : string;
  rr_cseq : Z;
  rr_expiry_at : option UtcTimestamp;
  rr_last_keepalive_at : option UtcTimestamp;
  rr_consecutive_failures : Z;
  rr_retry_at : option UtcTimestamp
}.
Definition runtime_default : RegistrationRuntime := mkRuntime "" 0 None None 0 None.

Record NewPlatformLink := mkNewLink {
  nl_platform_link_id : Uuid;
  nl_tenant_id : Uuid;
  nl_direction : PlatformDirection;
  nl_identity : PlatformIdentityPair;
  nl_endpoint : PlatformEndpoint;
  nl_credential : PlatformCredential;
  nl_acl : PlatformAcl;
  nl_backoff : BackoffPolicy;
  nl_subscription_limits : SubscriptionLimits;
  nl_register_interval_secs : Z;
  nl_compatibility_profile_id : option string;
  nl_compatibility_profile_revision : Z
}.

Module Link.
(** The fields that a link gets when it is created ([config]), and those that the
    methods change. *)
Record GbPlatformLink := mkLink {
  config : NewPlatformLink;
  active_subscriptions : Z;
  desired : DesiredRegistrationState;
  actual : ActualRegistrationState;
  runtime : RegistrationRuntime;
  owner_node_id : option Uuid;
  owner_epoch : Z;
  generation : Z;
  created_at : UtcTimestamp;
  updated_at : UtcTimestamp;
  revision : Z
}.

Definition set_registration (actual : ActualRegistrationState) (rt : RegistrationRuntime) (l : GbPlatformLink) : GbPlatformLink :=
  mkLink (config l) (active_subscriptions l) (desired l) actual rt (owner_node_id l) (owner_epoch l) (generation l)
    (created_at l) (updated_at l) (revision l).
Definition put_desired (d : DesiredRegistrationState) (l : GbPlatformLink) : GbPlatformLink :=
  mkLink (config l) (active_subscriptions l) d (actual l) (runtime l) (owner_node_id l) (owner_epoch l) (generation l)
    (created_at l) (updated_at l) (revision l).
Definition set_owner (node : Uuid) (epoch generation : Z) (l : GbPlatformLink) : GbPlatformLink :=
  mkLink (config l) (active_subscriptions l) (desired l) (actual l) (runtime l) (Some node) epoch generation
    (created_at l) (updated_at l) (revision l).
Definition set_active (n : Z) (l : GbPlatformLink) : GbPlatformLink :=
  mkLink (config l) n (desired l) (actual l) (runtime l) (owner_node_id l) (owner_epoch l) (generation l)
    (created_at l) (updated_at l) (revision l).
Definition set_version (t : UtcTimestamp) (rev : Z) (l : GbPlatformLink) : GbPlatformLink :=
  mkLink (config l) (active_subscriptions l) (desired l) (actual l) (runtime l) (owner_node_id l) (owner_epoch l) (generation l)
    (created_at l) t rev.

Definition max_subscriptions (l : GbPlatformLink) : Z := sl_max_subscriptions (nl_subscription_limits (config l)).

Section methods.
Context {W : Type} `{Clock W}.

Definition new (p : NewPlatformLink) (w : W) : result GbPlatformLink DomainError * W :=
  let checked : result unit DomainError :=
    if is_nil (nl_platform_link_id p) then Err (invalid_argument "platform_link_id must not be nil")
    else if nl_register_interval_secs p =? 0 then Err (invalid_argument "register_interval_secs must be non-zero")
    else
      let? _ := identity_validate (nl_identity p) in
      let? _ := endpoint_validate (nl_endpoint p) in
      let? _ := credential_validate (nl_credential p) in
      let? _ := acl_validate (nl_acl p) in
      let? _ := backoff_validate (nl_backoff p) in
      match nl_compatibility_profile_id p with
      | Some id => validate_token "compatibility_profile_id" id
      | None => Ok tt
      end in
  match checked with
  | Err e => (Err e, w)
  | Ok _ =>
      let '(now, w) := now_wall w in
      (Ok (mkLink p (sl_active_subscriptions (nl_subscription_limits p)) DesiredUnregistered Idle runtime_default
             None 0 0 now now 0), w)
  end.

Definition bump : dm GbPlatformLink W unit :=
  let! now := dm_port now_wall in
  dm_mod (fun l => set_version now (wrap64 (revision l + 1)) l).

Definition set_desired (d : DesiredRegistrationState) : dm GbPlatformLink W unit :=
  let! self := dm_get in
  if decide (desired self = d) then dm_ret tt
  else do! dm_mod (put_desired d) in bump.

Definition assign_owner (node_id : Uuid) (epoch : Z) : dm GbPlatformLink W unit :=
  let! self := dm_get in
  if (epoch <=? owner_epoch self) && bool_decide (is_Some (owner_node_id self))
  then dm_err (StaleOwner (owner_epoch self) epoch)
  else
    do! dm_mod (set_owner node_id epoch (wrap64 (generation self + 1))) in
    do! dm_mod (set_registration Idle runtime_default) in
    bump.

Definition is_current_owner (node_id : Uuid) (epoch gen : Z) (l : GbPlatformLink) : bool :=
  bool_decide (owner_node_id l = Some node_id) && (owner_epoch l =? epoch) && (generation l =? gen).

Definition record_registering (call_id : string) (cseq : Z) : dm GbPlatformLink W unit :=
  do! dm_mod (fun l => let r := runtime l in
        set_registration Registering (mkRuntime call_id cseq (rr_expiry_at r) (rr_last_keepalive_at r)
          (rr_consecutive_failures r) (rr_retry_at r)) l) in
  bump.

Definition record_registered (cseq : Z) (expiry_at : UtcTimestamp) : dm GbPlatformLink W unit :=
  let! self := dm_get in
  if cseq <? rr_cseq (runtime self) then dm_err (invalid_argument "REGISTER CSeq must not decrease")
  else
    do! dm_mod (fun l => let r := runtime l in
          set_registration Registered (mkRuntime (rr_call_id r) cseq (Some expiry_at) (rr_last_keepalive_at r) 0 None) l) in
    bump.

Definition record_registration_failure (retry_at : UtcTimestamp) : dm GbPlatformLink W bool :=
  do! dm_mod (fun l => let r := runtime l in
        set_registration RegFailed (mkRuntime (rr_call_id r) (rr_cseq r) (rr_expiry_at r) (rr_last_keepalive_at r)
          (sat_add32 (rr_consecutive_failures r) 1) (Some retry_at)) l) in
  do! bump in
  let! self := dm_get in
  dm_ret (bo_max_retries (nl_backoff (config self)) <? rr_consecutive_failures (runtime self)).

Definition record_keepalive : dm GbPlatformLink W unit :=
  let! now := dm_port now_wall in
  do! dm_mod (fun l => let r := runtime l in
        set_registration (actual l) (mkRuntime (rr_call_id r) (rr_cseq r) (rr_expiry_at r) (Some now)
          (rr_consecutive_failures r) (rr_retry_at r)) l) in
  bump.

Definition record_deregistering : dm GbPlatformLink W unit :=
  do! dm_mod (fun l => set_registration Deregistering (runtime l) l) in bump.

Definition record_idle : dm GbPlatformLink W unit :=
  do! dm_mod (fun l => let r := runtime l in
        set_registration Idle (mkRuntime (rr_call_id r) (rr_cseq r) None (rr_last_keepalive_at r)
          (rr_consecutive_failures r) (rr_retry_at r)) l) in
  bump.

Definition reserve_subscription : dm GbPlatformLink W unit :=
  let! self := dm_get in
  if max_subscriptions self <=? active_subscriptions self then dm_err (unavailable "subscription capacity exhausted")
  else do! dm_mod (fun l => set_active (active_subscriptions l + 1) l) in bump.

Definition release_subscription : dm GbPlatformLink W unit :=
  let! self := dm_get in
  if 0 <? active_subscriptions self
  then do! dm_mod (fun l => set_active (active_subscriptions l - 1) l) in bump
  else dm_ret tt.
End methods.

Definition is_expired (now : UtcTimestamp) (l : GbPlatformLink) : bool :=
  match rr_expiry_at (runtime l) with Some expiry => expiry <=? now | None => false end.

Definition would_loop (via_platform_ids : list string) (l : GbPlatformLink) : bool :=
  let p := config l in
  if (MAX_CASCADE_HOPS <=? length via_platform_ids)%nat then true
  else if is_denied_platform (nl_acl p) (ip_remote (nl_identity p)) then true
  else existsb (fun hop => (hop =? ip_remote (nl_identity p))%string || (hop =? ip_local (nl_identity p))%string) via_platform_ids.

(** The methods that change a link. *)
Inductive call :=
| SetDesired (d : DesiredRegistrationState)
| AssignOwner (node_id : Uuid) (epoch : Z)
| RecordRegistering (call_id : string) (cseq : Z)
| RecordRegistered (cseq : Z) (expiry_at : UtcTimestamp)
| RecordRegistrationFailure (retry_at : UtcTimestamp)
| RecordKeepalive
| RecordDeregistering
| RecordIdle
| ReserveSubscription
| ReleaseSubscription.

Definition exec {W} `{Clock W} (c : call) : dm GbPlatformLink W unit :=
  match c with
  | SetDesired d => set_desired d
  | AssignOwner n e => assign_owner n e
  | RecordRegistering id cseq => record_registering id cseq
  | RecordRegistered cseq expiry => record_registered cseq expiry
  | RecordRegistrationFailure at_ => let! _ := record_registration_failure at_ in dm_ret tt
  | RecordKeepalive => record_keepalive
  | RecordDeregistering => record_deregistering
  | RecordIdle => record_idle
  | ReserveSubscription => reserve_subscription
  | ReleaseSubscription => release_subscription
  end.
End Link.

Definition detect_loop (path : list string) (next : string) : bool :=
  if (MAX_CASCADE_HOPS <=? length path)%nat then true
  else existsb (fun hop => (hop =? next)%string) path.
