(* ===== verification/LinkProps.v ===== *)
(** * Theorems on protocol sessions and platform links

    Invariants of both aggregates along any history of calls, the fencing of owners
    of a link, its backoff and the detection of cascade loops. *)

From S2P Require Import Prelude RustStr Domain MediaNode DeviceData DomainData Compatibility Lifecycle Device DeviceProps.
From S2P Require Import ProtocolSession PlatformLink.

Open Scope string_scope.
Open Scope list_scope.
Open Scope Z_scope.

(** ** Protocol sessions *)

Module SessionFacts.
Import Session.

(** A session has a reason exactly while it is offline, and its texts are bounded. *)
Record session_inv (s : ProtocolSession) : Prop := mkSessionInv {
  si_reason : is_Some (offline_reason s) <-> presence s = PsOffline;
  si_bound : forall r, offline_reason s = Some r -> str_len r <= SESSION_MAX_FIELD_BYTES;
  si_endpoint : SessionEndpoint_validate (endpoint s) = Ok tt;
  si_registration : RegistrationInfo_validate (registration s) = Ok tt
}.
(** What never changes, and the CSeq of the registrations. *)
Definition renews (s s1 : ProtocolSession) : Prop :=
  config s1 = config s /\ created_at s1 = created_at s /\ ri_cseq (registration s) <= ri_cseq (registration s1).
#[global] Instance renews_preorder : PreOrder renews.
Proof. split; [done|]. unfold renews. intros a b c ? ?. destruct_and?. split_and!; try congruence. lia. Qed.

(** The route changes with a registration that carries an endpoint only. *)
Definition routes (c : call) : bool := match c with RefreshRegistration _ _ (Some _) => true | _ => false end.
Definition owns (c : call) : bool := match c with AssignOwner _ _ => true | _ => false end.

Section facts.
Context {W : Type} `{Clock W}.
Implicit Types (s : ProtocolSession) (w : W).

Ltac run_session :=
  unfold refresh_registration, record_keepalive, mark_offline, assign_owner, bump, dm_field; dm_unfold;
  repeat match goal with
  | |- context [now_wall ?w] => destruct (now_wall w); simpl
  | |- context [if ?b then _ else _] => destruct b eqn:?; simpl; try done
  | |- context [match ?o with Some _ => _ | None => _ end] => destruct o; simpl
  | |- context [match ?r with Ok _ => _ | Err _ => _ end] => destruct r as [[]|] eqn:?; simpl; try done
  end.

Lemma exec_session_inv c s w : session_inv s -> session_inv (exec c s w).1.2.
Proof.
  intros [Hr Hb He Hg]. destruct c as [r expiry e| |reason|node epoch]; simpl; run_session; constructor; simpl; try done.
  all: try (split; [by intros []|done]); try (split; [done|by eexists]).
  intros ? [= <-]. lia.
Qed.
Lemma exec_session_renews c s w : renews s (exec c s w).1.2.
Proof.
  destruct c as [r expiry e| |reason|node epoch]; simpl; run_session; unfold renews; simpl; split_and!; try done; lia.
Qed.
(** A call that fails changes nothing. *)
Lemma exec_session_atomic c s w e : (exec c s w).1.1 = Err e -> (exec c s w).1.2 = s.
Proof. destruct c as [r expiry o| |reason|node epoch]; simpl; run_session; done. Qed.
Lemma exec_session_count c s w :
  revision (exec c s w).1.2 = if is_ok (exec c s w).1.1 then wrap64 (revision s + 1) else revision s.
Proof. destruct c as [r expiry o| |reason|node epoch]; simpl; run_session; done. Qed.
Lemma exec_session_route c s w : routes c = false -> endpoint (exec c s w).1.2 = endpoint s.
Proof. destruct c as [r expiry [o|]| |reason|node epoch]; simpl; run_session; done. Qed.

Lemma run_session_route cs s w :
  Forall (fun c => routes c = false) cs -> endpoint (dm_run exec cs s w).1.2 = endpoint s.
Proof.
  revert s w. induction cs as [|c cs IH]; intros s w Hcs; [done|]. apply Forall_cons in Hcs as [Hc Hcs]. simpl.
  pose proof (exec_session_route c s w Hc) as H1. destruct (exec c s w) as [[r s1] w1]. simpl in H1.
  specialize (IH s1 w1 Hcs). destruct (dm_run exec cs s1 w1) as [[evs s2] w2]. simpl in *. congruence.
Qed.
End facts.

(** Registrations of a device keep their invariants along every history of
    calls.  A session has an offline reason, of bounded length, exactly while it is
    offline; what identifies it never changes; the CSeq of its registrations never
    decreases; its route is rewritten by a registration that carries an endpoint and
    by nothing else, in particular not by keepalives; a call that fails changes
    nothing, and the revision counts those that succeed. *)
Theorem registration_history {W} `{Clock W} cs (s : ProtocolSession) (w : W) :
  session_inv s -> is_u64 (revision s) ->
  let '(evs, s1, _) := dm_run exec cs s w in
  session_inv s1 /\ renews s s1 /\ revision s1 = wrap64 (revision s + Z.of_nat (length evs))
  /\ (Forall (fun c => routes c = false) cs -> endpoint s1 = endpoint s)
  /\ (forall c e, (exec c s1 w).1.1 = Err e -> (exec c s1 w).1.2 = s1).
Proof.
  intros Hs Hu. pose proof (dm_run_inv exec session_inv cs s w exec_session_inv Hs) as H1.
  pose proof (dm_run_rel exec renews cs s w exec_session_renews) as H2.
  pose proof (dm_run_count exec revision cs s w exec_session_count Hu) as H3.
  pose proof (run_session_route cs s w) as H4.
  destruct (dm_run exec cs s w) as [[evs s1] w1]. simpl in *. split_and!; [done..|]. intros c e. apply exec_session_atomic.
Qed.

Definition sample : ProtocolSession :=
  mkProtocolSession
    (mkNewSession 1 9 7 ProtoGb28181 "34020000001320000001" (mkLocalIdentity "l" "34020000002000000001" "3402000000" "3402000000")
       StUdp (mkSessionEndpoint "10.0.0.1:5060" "" "") (mkRegistration "c" 4 3600) 100 None 0 CompatibilityProfile_default)
    (mkSessionEndpoint "10.0.0.1:5060" "" "") (mkRegistration "c" 4 3600) 100 (Some 1) PsUnknown None None (Some 3) 5 1 1 0.
Definition calls : list call :=
  [RecordKeepalive; RefreshRegistration (mkRegistration "c" 3 3600) 200 None; MarkOffline "lost"].
Lemma registration_history_witness :
  let '(evs, s1, _) := dm_run exec calls sample (Build_InMemoryWorld 5 1) in
  session_inv s1 /\ length evs = 2%nat /\ presence s1 = PsOffline /\ endpoint s1 = endpoint sample.
Proof.
  assert (session_inv sample) as Hinv.
  { constructor; [split; [by intros [? ?]|done]|done|reflexivity|reflexivity]. }
  pose proof (registration_history calls sample (Build_InMemoryWorld 5 1) Hinv ltac:(vm_compute; split; discriminate)) as Hh.
  assert (let '(evs, s1, _) := dm_run exec calls sample (Build_InMemoryWorld 5 1) in
    length evs = 2%nat /\ presence s1 = PsOffline) as Hv by (vm_compute; split; reflexivity).
  destruct (dm_run exec calls sample (Build_InMemoryWorld 5 1)) as [[evs s1] w1].
  destruct Hh as (? & _ & _ & He & _), Hv as (? & ?). split_and!; try assumption. apply He. by repeat constructor.
Defined.

(** Ownership of a session is not fenced: an assignment with an older epoch replaces a newer one. *)
Lemma session_owner_not_fenced :
  let '(r, s1, _) := assign_owner 2 1 sample (Build_InMemoryWorld 5 1) in
  r = Ok tt /\ owner_node_id s1 = Some 2 /\ owner_epoch s1 < owner_epoch sample.
Proof. by vm_compute. Qed.
End SessionFacts.

(** ** Platform links *)

Module LinkFacts.
Import Link.

Record link_inv (l : GbPlatformLink) : Prop := mkLinkInv {
  ki_subscriptions : 0 <= active_subscriptions l <= max_subscriptions l;
  ki_registered : actual l = Registered ->
    is_Some (rr_expiry_at (runtime l)) /\ rr_consecutive_failures (runtime l) = 0 /\ rr_retry_at (runtime l) = None;
  ki_failed : actual l = RegFailed -> is_Some (rr_retry_at (runtime l)) /\ 0 < rr_consecutive_failures (runtime l);
  ki_failures : is_u32 (rr_consecutive_failures (runtime l))
}.

(** The owner of a link is replaced by one with a higher epoch only. *)
Definition fenced (l l1 : GbPlatformLink) : Prop :=
  config l1 = config l /\ created_at l1 = created_at l
  /\ (owner_node_id l = None
      \/ (owner_node_id l1 = owner_node_id l /\ owner_epoch l1 = owner_epoch l /\ generation l1 = generation l)
      \/ (is_Some (owner_node_id l1) /\ owner_epoch l < owner_epoch l1)).
#[global] Instance fenced_preorder : PreOrder fenced.
Proof.
  split; [intros l; unfold fenced; tauto|]. intros a b c (Hc1 & Hd1 & Ho1) (Hc2 & Hd2 & Ho2).
  split; [congruence|]. split; [congruence|].
  destruct Ho1 as [?|[(Hn & He & Hg)|(Hn & He)]]; [by left| |].
  - destruct Ho2 as [?|[(? & ? & ?)|(? & ?)]]; [left; congruence|right; left; split_and!; congruence|right; right; split; [done|lia]].
  - destruct Ho2 as [Hb|[(Hb & ? & ?)|(? & ?)]]; [rewrite Hb in Hn; by destruct Hn|right; right; split; [by rewrite Hb|lia]|
      right; right; split; [done|lia]].
Qed.

Section facts.
Context {W : Type} `{Clock W}.
Implicit Types (l : GbPlatformLink) (w : W).

Ltac run_link :=
  unfold set_desired, assign_owner, record_registering, record_registered, record_registration_failure, record_keepalive,
    record_deregistering, record_idle, reserve_subscription, release_subscription, bump; dm_unfold;
  repeat match goal with
  | |- context [now_wall ?w] => destruct (now_wall w); simpl
  | |- context [decide ?P] => destruct (decide P); simpl; try done
  | |- context [if ?b then _ else _] => destruct b eqn:?; simpl; try done
  end.

Lemma exec_link_inv c l w : link_inv l -> link_inv (exec c l w).1.2.
Proof.
  intros [Hs Hr Hf Hu]. unfold is_u32 in *.
  destruct c; simpl; run_link; constructor; simpl; try done; unfold max_subscriptions, is_u32, sat_add32, U32_MAX in *; simpl in *; try lia.
  all: try (intros _; split_and!; try done; try lia; by eexists).
Qed.
Lemma exec_link_fenced c l w : fenced l (exec c l w).1.2.
Proof.
  destruct c as [d|node epoch| | | | | | | |]; simpl.
  2: { unfold assign_owner, bump. dm_unfold. destruct ((epoch <=? owner_epoch l) && _) eqn:He; simpl; [reflexivity|].
       destruct (now_wall w). simpl. split; [done|]. split; [done|]. simpl. apply andb_false_iff in He as [He|He].
       - apply Z.leb_gt in He. right. right. split; [by eexists|done].
       - apply bool_decide_eq_false in He. left. by apply eq_None_not_Some. }
  all: run_link; unfold fenced; simpl; tauto.
Qed.
End facts.

(** The owner of a cascade link is fenced and its state stays consistent,
    along every history of calls.  Once a link has an owner, it is replaced by an
    owner with a strictly higher epoch only, so that callbacks of the replaced one
    are never current again; the configuration never changes; a registered link has
    an expiry, no failures and no retry; a failed one has a time for the next
    attempt; the subscriptions in use stay within the limit. *)
Theorem link_history {W} `{Clock W} cs (l : GbPlatformLink) (w : W) :
  link_inv l ->
  let '(_, l1, _) := dm_run exec cs l w in
  link_inv l1 /\ fenced l l1
  /\ forall node epoch gen, is_current_owner node epoch gen l = true -> owner_epoch l1 <> epoch ->
       forall cs2 w2, is_current_owner node epoch gen (dm_run exec cs2 l1 w2).1.2 = false.
Proof.
  intros Hl. pose proof (dm_run_inv exec link_inv cs l w exec_link_inv Hl) as H1.
  pose proof (dm_run_rel exec fenced cs l w exec_link_fenced) as H2.
  destruct (dm_run exec cs l w) as [[evs l1] w1]. simpl in *. split_and!; [done..|].
  intros node epoch gen Hcur Hne cs2 w2. pose proof (dm_run_rel exec fenced cs2 l1 w2 exec_link_fenced) as H3.
  unfold is_current_owner in *. rewrite !andb_true_iff, bool_decide_eq_true, !Z.eqb_eq in Hcur. destruct Hcur as [[Ho He] Hg].
  assert (is_Some (owner_node_id l1) /\ epoch < owner_epoch l1) as [Hs Hlt].
  { destruct H2 as (_ & _ & [?|[(? & ? & ?)|(? & ?)]]); [congruence|congruence|]. split; [done|lia]. }
  apply andb_false_iff. left. apply andb_false_iff. right. apply Z.eqb_neq.
  destruct H3 as (_ & _ & [Hn|[(_ & ? & _)|(_ & ?)]]); [rewrite Hn in Hs; by destruct Hs|lia|lia].
Qed.

(** ** Backoff *)

Lemma shift_mono a b : 0 <= a <= b -> Z.shiftl 1 a <= Z.shiftl 1 b.
Proof. intros. rewrite !Z.shiftl_1_l. by apply Z.pow_le_mono_r; lia. Qed.

(** The delay before a registration is retried is bounded by the policy, at
    least its base delay, and never decreases with the attempts: base times two to
    the attempt until the limit, with a shift that is at most 63 and a product
    that saturates. *)
Theorem link_backoff_bounded b n m :
  backoff_validate b = Ok tt -> is_u64 (bo_base_ms b) -> is_u64 (bo_max_ms b) -> 0 <= n <= m ->
  bo_base_ms b <= link_backoff_ms b n <= bo_max_ms b
  /\ link_backoff_ms b n <= link_backoff_ms b m
  /\ (n <= 63 -> bo_base_ms b * 2 ^ n <= bo_max_ms b -> link_backoff_ms b n = bo_base_ms b * 2 ^ n).
Proof.
  unfold backoff_validate. destruct (Z.eqb_spec (bo_base_ms b) 0) as [|Hb]; [done|].
  destruct (Z.ltb_spec (bo_max_ms b) (bo_base_ms b)) as [|Hm]; [done|]. intros _ Hbase Hmax Hn. unfold is_u64 in *.
  assert (1 <= Z.shiftl 1 (Z.min n 63)) as H1. { change 1 with (Z.shiftl 1 0) at 1. apply shift_mono. lia. }
  assert (Z.shiftl 1 (Z.min n 63) <= Z.shiftl 1 (Z.min m 63)) as H2 by (apply shift_mono; lia).
  unfold link_backoff_ms, sat_mul64. split; [nia|]. split; [nia|]. intros Hn63 Hle.
  rewrite (Z.min_l n 63) by lia. rewrite Z.shiftl_1_l. lia.
Qed.

(** ** Loops *)

(** The platforms that a request goes through when every platform checks the path
    before it appends the next one. *)
Inductive cascade_path : list string -> Prop :=
| cascade_start p : cascade_path [p]
| cascade_hop path next : cascade_path path -> detect_loop path next = false -> cascade_path (path ++ [next]).

(** A request that is forwarded over cascade links never comes back to a
    platform it has visited and ends after a bounded number of hops: the path has no
    platform twice and at most [MAX_CASCADE_HOPS] platforms. *)
Theorem cascade_path_bounded path :
  cascade_path path -> NoDup path /\ (1 <= length path <= MAX_CASCADE_HOPS)%nat.
Proof.
  induction 1 as [p|path next _ [IH1 IH2] Hd].
  - split; [apply NoDup_singleton|]. unfold MAX_CASCADE_HOPS. simpl. lia.
  - unfold detect_loop in Hd. destruct (Nat.leb_spec MAX_CASCADE_HOPS (length path)) as [|Hlt]; [done|]. split.
    + apply NoDup_app. split_and!; [done| |apply NoDup_singleton]. intros x Hx Hn. apply list_elem_of_singleton in Hn as ->.
      assert (existsb (fun hop => (hop =? next)%string) path = true) as Ht; [|congruence].
      apply existsb_exists. exists next. split; [by apply list_elem_of_In|apply String.eqb_refl].
    + rewrite length_app. simpl. lia.
Qed.

(** ** Samples *)

Definition params : NewPlatformLink :=
  mkNewLink 1 9 Upstream (mkIdentityPair "34020000002000000001" "34020000002000000002")
    (mkEndpoint "10.0.0.2" 5060 StUdp "3402000000" "3402000000") (mkCredential "ref" false) (mkAcl ["3402"] true true [])
    backoff_default (mkSubscriptions 2 0) 3600 None 0.
Definition sample : GbPlatformLink := mkLink params 0 DesiredUnregistered Idle runtime_default (Some 3) 4 1 0 0 0.
Definition calls : list call :=
  [RecordRegistering "c" 1; RecordRegistered 1 100; AssignOwner 5 4; AssignOwner 5 6; ReserveSubscription].
Lemma link_history_witness :
  let '(_, l1, _) := dm_run exec calls sample (Build_InMemoryWorld 5 1) in
  link_inv l1 /\ owner_node_id l1 = Some 5 /\ is_current_owner 3 4 1 sample = true /\ is_current_owner 3 4 1 l1 = false.
Proof.
  assert (link_inv sample) as Hinv by (constructor; vm_compute; try done; split; discriminate).
  pose proof (link_history calls sample (Build_InMemoryWorld 5 1) Hinv) as Hh.
  assert (let '(_, l1, _) := dm_run exec calls sample (Build_InMemoryWorld 5 1) in
    owner_node_id l1 = Some 5 /\ owner_epoch l1 = 6) as Hv by (vm_compute; split; reflexivity).
  destruct (dm_run exec calls sample (Build_InMemoryWorld 5 1)) as [[evs l1] w1]. destruct Hh as (? & _ & Hcur), Hv as (? & He).
  split_and!; try assumption; [reflexivity|].
  exact (Hcur 3 4 1 eq_refl ltac:(rewrite He; discriminate) [] (Build_InMemoryWorld 5 1)).
Defined.
Lemma link_backoff_bounded_witness :
  backoff_validate backoff_default = Ok tt /\ link_backoff_ms backoff_default 3 = 8000 /\ link_backoff_ms backoff_default 40 <= 60000.
Proof.
  pose proof (link_backoff_bounded backoff_default 3 40 eq_refl ltac:(vm_compute; split; discriminate)
    ltac:(vm_compute; split; discriminate) ltac:(lia)) as (_ & _ & He).
  pose proof (link_backoff_bounded backoff_default 40 40 eq_refl ltac:(vm_compute; split; discriminate)
    ltac:(vm_compute; split; discriminate) ltac:(lia)) as ((_ & Hle) & _).
  split; [reflexivity|]. split; [apply He; simpl; lia|exact Hle].
Defined.
Lemma cascade_path_bounded_witness : cascade_path ["a"; "b"; "c"] /\ NoDup ["a"; "b"; "c"].
Proof.
  assert (cascade_path ["a"; "b"; "c"]) as Hp.
  { apply (cascade_hop ["a"; "b"]); [|reflexivity]. apply (cascade_hop ["a"]); [constructor|reflexivity]. }
  split; [exact Hp|]. exact (proj1 (cascade_path_bounded _ Hp)).
Defined.
End LinkFacts.
