(* ===== verification/SipParser.v ===== *)
(** * The SIP parser and encoder

    [sip/parser.rs] and [sip/encoder.rs].  The parser is fed with chunks of a
    byte stream (or one datagram) and pops messages; its state says whether it
    waits for a start line, for the header block or for the body.  Positions in
    the buffer become the remaining suffix of the buffer; [consumed] is kept for
    the offsets of the errors. *)

From S2P Require Import Prelude RustStr SipUri SipMessage Compatibility.

Open Scope string_scope.
Open Scope list_scope.
Open Scope Z_scope.

(** ** Configuration *)

Record SipParserConfig := {
  max_start_line_bytes : Z;
  max_headers : Z;
  max_header_block_bytes : Z;
  max_header_line_bytes : Z;
  max_body_bytes : Z;
  max_buffer_bytes : Z;
  datagram_mode : bool
}.

Definition SipParserConfig_default : SipParserConfig := {|
  max_start_line_bytes := 4096;
  max_headers := 256;
  max_header_block_bytes := 65536;
  max_header_line_bytes := 4096;
  max_body_bytes := 2097152;
  max_buffer_bytes := 8388608;
  datagram_mode := false
|}.

Definition profile_has (profile : option CompatibilityProfile) (cap : CompatibilityCapability) : bool :=
  match profile with
  | Some p => has p cap
  | None => false
  end.

(** ** The parser *)

Inductive ParserState :=
| StartLine
| Headers (start_line : string)
| Body (start_line : string) (headers : SipHeaders) (content_length header_bytes : Z).

Record SipParser := {
  config : SipParserConfig;
  profile : option CompatibilityProfile;
  state : ParserState;
  buffer : string
}.

Definition new_with_profile (config : SipParserConfig) (profile : option CompatibilityProfile) : SipParser :=
  {| config := config; profile := profile; state := StartLine; buffer := "" |}.
Definition set_state (s : ParserState) (p : SipParser) : SipParser :=
  {| config := config p; profile := profile p; state := s; buffer := buffer p |}.
Definition set_buffer (b : string) (p : SipParser) : SipParser :=
  {| config := config p; profile := profile p; state := state p; buffer := b |}.

(** [feed]; the two lengths are [usize]. *)
Definition feed (p : SipParser) (data : string) : SipParser * result unit SipError :=
  if max_buffer_bytes (config p) <? sat_add64 (str_len (buffer p)) (str_len data)
  then (p, Err (SipError_new BufferTooLarge None "parser buffer exceeds limit"))
  else (set_buffer (buffer p +:+ data) p, Ok tt).

(** *** The start line *)

Definition is_crlf (a b : ascii) : bool := Ascii.eqb a CR && Ascii.eqb b LF.

(** The scan [for i in 0..len - 1]: a position above the limit, the position of
    the first CRLF, or neither. *)
Inductive scan := TooLong (i : nat) | Found (i : nat) | NoCrlf.

Fixpoint scan_start (max : Z) (i : nat) (s : string) : scan :=
  match s with
  | String a ((String b _) as s1) =>
      if max <? Z.of_nat i then TooLong i
      else if is_crlf a b then Found i
      else scan_start max (S i) s1
  | _ => NoCrlf
  end.

(** [parse_start_line] on the buffer: what it returns and the buffer it leaves.
    Every round of ['outer] drains two bytes, so the length of the buffer is
    enough fuel. *)
Fixpoint parse_start_line (fuel : nat) (max : Z) (buf : string) :
    option (result string SipError) * string :=
  match fuel with
  | O => (None, buf)
  | S fuel =>
      match scan_start max 0 buf with
      | TooLong i =>
          (Some (Err (SipError_new StartLineTooLong (Some (Z.of_nat i)) "start line exceeds limit")), buf)
      | Found i =>
          let line := str_take i buf in
          if utf8_valid line then
            let buf := str_drop (i + 2) buf in
            if is_empty_str line then parse_start_line fuel max buf
            else (Some (Ok line), buf)
          else (Some (Err (SipError_new InvalidStartLine (Some (Z.of_nat i))
                             "start line is not valid UTF-8")), buf)
      | NoCrlf =>
          if max <? str_len buf
          then (Some (Err (SipError_new StartLineTooLong None "start line exceeds limit")), buf)
          else (None, buf)
      end
  end.

(** *** The header block *)

(** [find_crlf], relative to the position it starts from. *)
Fixpoint find_crlf (s : string) : option nat :=
  match s with
  | String a ((String b _) as s1) =>
      if is_crlf a b then Some O else S <$> find_crlf s1
  | _ => None
  end.

Definition is_ascii_alphanumeric (a : ascii) : bool :=
  is_ascii_digit a || is_ascii_uppercase a || is_ascii_lowercase a.
(** [u8::is_ascii_whitespace]: space, tab, line feed, form feed, carriage return. *)
Definition is_ascii_whitespace (a : ascii) : bool :=
  (byte a =? 32) || (byte a =? 9) || (byte a =? 10) || (byte a =? 12) || (byte a =? 13).
Definition is_header_token (a : ascii) : bool :=
  is_ascii_alphanumeric a || negb (lacks a "-._!%$*&+^`{|}~").

(** [looks_like_header_after_blank], on the bytes after the blank line. *)
Definition looks_like_header_after_blank (after : string) : bool :=
  if is_empty_str after then false else
  match find_crlf after with
  | None => false
  | Some e =>
      match str_take e after with
      | EmptyString => false
      | String a _ as line =>
          if is_ascii_whitespace a then false else
          match split_once ":" line with
          | None => false
          | Some (name, _) => negb (is_empty_str name) && str_all is_header_token name
          end
      end
  end.

Definition normalize_cseq_value (value : string) : string :=
  match splitn2_ws (trim value) with
  | (num, Some method) => num +:+ " " +:+ str_upper (trim_start method)
  | (_, None) => value
  end.

(** The end of the header block: the declared body length, or in datagram mode
    the length of what follows. *)
Definition finish_headers (cfg : SipParserConfig) (headers : SipHeaders) (consumed : Z) (after : string) :
    result (SipHeaders * Z * Z * string) SipError :=
  let? (headers, content_length) :=
    match get headers HContentLength with
    | Some value =>
        let trimmed := trim value in
        if is_empty_str trimmed then
          Err (SipError_new InvalidHeader (Some consumed) "Content-Length header is empty")
        else match parse_uint U64_MAX trimmed with
             | Some n => Ok (headers, n)
             | None => Err (SipError_new InvalidHeader (Some consumed)
                              "Content-Length header is not a non-negative integer")
             end
    | None =>
        if negb (datagram_mode cfg) then
          Err (SipError_new InvalidFraming (Some consumed)
                 "Content-Length is required for stream framing")
        else
          let inferred := str_len after in
          Ok (append headers HContentLength (show_uint inferred), inferred)
    end in
  if max_body_bytes cfg <? content_length then
    Err (SipError_new BodyTooLarge (Some consumed) "Content-Length exceeds body limit")
  else Ok (headers, content_length, consumed, after).

(** One header line: its name and value. *)
Definition parse_header_line (norm : bool) (consumed : Z) (line : string) :
    result (HeaderName * string) SipError :=
  if negb (utf8_valid line) then
    Err (SipError_new InvalidHeader (Some consumed) "header is not valid UTF-8")
  else if starts_with " " line || starts_with (String "009" "") line then
    Err (SipError_new InvalidHeader (Some consumed) "header continuation not supported")
  else match split_once ":" line with
  | None => Err (SipError_new InvalidHeader (Some consumed) "missing colon")
  | Some (name, value) =>
      let name := HeaderName_parse (trim name) in
      let value := trim value in
      Ok (name, if header_eqb name HCSeq && norm then normalize_cseq_value value else value)
  end.

(** The loop of [parse_headers] on the unread part of the buffer; every round
    reads at least two bytes, so the length of the buffer is enough fuel. *)
Fixpoint headers_loop (fuel : nat) (cfg : SipParserConfig) (norm : bool) (rest : string)
    (headers : SipHeaders) (consumed header_count header_block_size : Z) :
    option (result (SipHeaders * Z * Z * string) SipError) :=
  match fuel with
  | O => None
  | S fuel =>
      if max_header_block_bytes cfg <? header_block_size then
        Some (Err (SipError_new HeadersTooLarge (Some consumed) "header block exceeds limit"))
      else if max_headers cfg <? header_count then
        Some (Err (SipError_new TooManyHeaders (Some consumed) "too many headers"))
      else match rest with
      | String a (String b after) =>
          if is_crlf a b then
            if norm && looks_like_header_after_blank after then
              headers_loop fuel cfg norm after headers (consumed + 2) header_count header_block_size
            else Some (finish_headers cfg headers (consumed + 2) after)
          else
            match find_crlf rest with
            | None => None
            | Some e =>
                if max_header_line_bytes cfg <? Z.of_nat e then
                  Some (Err (SipError_new HeaderTooLong (Some consumed) "header line exceeds limit"))
                else match parse_header_line norm consumed (str_take e rest) with
                | Err err => Some (Err err)
                | Ok (name, value) =>
                    let line_len_with_crlf := Z.of_nat e + 2 in
                    headers_loop fuel cfg norm (str_drop (e + 2) rest) (append headers name value)
                      (consumed + line_len_with_crlf) (header_count + 1)
                      (header_block_size + line_len_with_crlf)
                end
            end
      | _ => None
      end
  end.

Definition parse_headers (cfg : SipParserConfig) (profile : option CompatibilityProfile) (buf : string) :
    option (result (SipHeaders * Z * Z * string) SipError) :=
  headers_loop (S (String.length buf)) cfg (profile_has profile HeaderNormalization) buf
    headers_new 0 0 0.

(** *** The message *)

Definition build_message (start_line : string) (headers : SipHeaders) (body : string)
    (content_length : Z) (profile : option CompatibilityProfile) : result SipMessage SipError :=
  if negb (str_len body =? content_length) then
    Err (SipError_new ContentLengthMismatch None
           ("Content-Length " +:+ show_uint content_length +:+ " != body length "
            +:+ show_uint (str_len body)))
  else match strip_prefix "SIP/2.0 " start_line with
  | Some rest =>
      let '(code, reason) := match split_once " " rest with
                             | Some (code, reason) => (code, reason)
                             | None => (rest, "")
                             end in
      match parse_uint U16_MAX code with
      | None => Err (SipError_new InvalidStartLine None "invalid code")
      | Some code => Ok (Response (StatusLine_new code reason) headers body)
      end
  | None =>
      match split_once " " start_line with
      | None => Err (SipError_new InvalidStartLine None "missing URI")
      | Some (method_str, rest) =>
          match split_once " " rest with
          | None => Err (SipError_new InvalidStartLine None "missing version")
          | Some (uri_str, _version) =>
              let method_str :=
                if profile_has profile HeaderNormalization then str_upper method_str else method_str in
              let? method := Method_parse method_str in
              let? uri := uri_parse uri_str in
              Ok (Request (RequestLine_new method uri) headers body)
          end
      end
  end.

(** *** Popping messages *)

Definition reset (p : SipParser) : SipParser := set_state StartLine (set_buffer "" p).

Definition pop_body (p : SipParser) (start_line : string) (headers : SipHeaders) (content_length : Z) :
    SipParser * option (result SipMessage SipError) :=
  if str_len (buffer p) <? content_length then (p, None)
  else
    let body := str_take (Z.to_nat content_length) (buffer p) in
    let r := build_message start_line headers body content_length (profile p) in
    (set_state StartLine (set_buffer (str_drop (Z.to_nat content_length) (buffer p)) p), Some r).

Definition pop_headers (p : SipParser) (start_line : string) :
    SipParser * option (result SipMessage SipError) :=
  match parse_headers (config p) (profile p) (buffer p) with
  | None => (p, None)
  | Some (Err e) => (reset p, Some (Err e))
  | Some (Ok (headers, content_length, header_bytes, after)) =>
      let p := set_state (Body start_line headers content_length header_bytes) (set_buffer after p) in
      pop_body p start_line headers content_length
  end.

Definition pop_start (p : SipParser) : SipParser * option (result SipMessage SipError) :=
  match parse_start_line (S (String.length (buffer p))) (max_start_line_bytes (config p)) (buffer p) with
  | (None, buf) => (set_buffer buf p, None)
  | (Some (Err e), _) => (reset p, Some (Err e))
  | (Some (Ok start_line), buf) =>
      pop_headers (set_state (Headers start_line) (set_buffer buf p)) start_line
  end.

(** [pop_message]; the recursive calls of the source go from the start line to
    the headers to the body. *)
Definition pop_message (p : SipParser) : SipParser * option (result SipMessage SipError) :=
  match state p with
  | StartLine => pop_start p
  | Headers start_line => pop_headers p start_line
  | Body start_line headers content_length _ => pop_body p start_line headers content_length
  end.

(** [parse_datagram_with_profile]. *)
Definition datagram_config (cfg : SipParserConfig) : SipParserConfig := {|
  max_start_line_bytes := max_start_line_bytes cfg;
  max_headers := max_headers cfg;
  max_header_block_bytes := max_header_block_bytes cfg;
  max_header_line_bytes := max_header_line_bytes cfg;
  max_body_bytes := max_body_bytes cfg;
  max_buffer_bytes := max_buffer_bytes cfg;
  datagram_mode := true
|}.

Definition parse_datagram_with_profile (data : string) (cfg : SipParserConfig)
    (profile : option CompatibilityProfile) : result SipMessage SipError :=
  let '(p, fed) := feed (new_with_profile (datagram_config cfg) profile) data in
  let? _ := fed in
  match pop_message p with
  | (p, Some (Ok message)) =>
      if is_empty_str (buffer p) then Ok message
      else Err (SipError_new InvalidFraming None
                  ("trailing bytes after Content-Length: " +:+ show_uint (str_len (buffer p))
                   +:+ " bytes remain"))
  | (_, Some (Err e)) => Err e
  | (p, None) =>
      let incomplete := Err (SipError_new InvalidFraming None "incomplete datagram") in
      match state p with
      | Body _ _ content_length _ =>
          if str_len (buffer p) <? content_length then
            Err (SipError_new ContentLengthMismatch None
                   ("Content-Length " +:+ show_uint content_length +:+ " exceeds datagram body "
                    +:+ show_uint (str_len (buffer p))))
          else incomplete
      | _ => incomplete
      end
  end.

(** ** The encoder *)

Definition CRLF : string := String CR (String LF "").

Definition encode_request_line (l : RequestLine) : string :=
  Method_str (rl_method l) +:+ " " +:+ uri_encode (rl_uri l) +:+ " " +:+ rl_version l +:+ CRLF.
Definition encode_status_line (l : StatusLine) : string :=
  sl_version l +:+ " " +:+ show_uint (sl_code l) +:+ " " +:+ sl_reason l +:+ CRLF.

Definition content_length_line (body_len : Z) : string :=
  "Content-Length: " +:+ show_uint body_len +:+ CRLF.

(** The loop of [encode_headers] over the lines, with its [emitted] flag. *)
Fixpoint encode_lines (lines : list (HeaderName * string)) (body_len : Z) (emitted : bool) : string :=
  match lines with
  | [] => (if emitted then "" else content_length_line body_len) +:+ CRLF
  | (name, value) :: lines =>
      if header_eqb name HContentLength then
        content_length_line body_len +:+ encode_lines lines body_len true
      else
        HeaderName_str name +:+ ": " +:+ value +:+ CRLF +:+ encode_lines lines body_len emitted
  end.
Definition encode_headers (headers : SipHeaders) (body_len : Z) : string :=
  encode_lines (sh_lines headers) body_len false.

Definition encode_message (m : SipMessage) : string :=
  match m with
  | Request line headers body =>
      encode_request_line line +:+ encode_headers headers (str_len body) +:+ body
  | Response line headers body =>
      encode_status_line line +:+ encode_headers headers (str_len body) +:+ body
  end.
