(* ===== verification/SipParserProps.v ===== *)
(** * Theorems on the SIP parser and encoder

    The parser reads back what the encoder writes: a datagram, and any sequence
    of messages on a stream however the stream is cut into chunks. *)

From S2P Require Import Prelude RustStr SipUri SipMessage Compatibility SipParser.

Open Scope string_scope.
Open Scope list_scope.
Open Scope Z_scope.

(** ** Strings *)

(** Two ways to cut the same text. *)
Lemma app_split (b r l t : string) :
  b +:+ r = l +:+ t ->
  (exists b1, b = l +:+ b1 /\ b1 +:+ r = t)
  \/ (exists l2, l = b +:+ l2 /\ l2 <> "" /\ r = l2 +:+ t).
Proof.
  revert l. induction b as [|a b IH]; intros l Heq.
  - destruct l as [|c l]; [left; by exists ""|]. right. by exists (String c l).
  - destruct l as [|c l]; simpl in Heq; [left; by exists (String a b)|].
    injection Heq as -> Heq. destruct (IH l Heq) as [(b1 & -> & ?)|(l2 & -> & ? & ?)].
    + left. by exists b1.
    + right. by exists l2.
Qed.

(** ** Line ends *)

Lemma eqb_lacks c a s : lacks c (String a s) = true -> Ascii.eqb a c = false /\ lacks c s = true.
Proof. unfold lacks. simpl. rewrite andb_true_iff, negb_true_iff. done. Qed.

Lemma find_crlf_cons a b s :
  find_crlf (String a (String b s)) = if is_crlf a b then Some O else S <$> find_crlf (String b s).
Proof. done. Qed.

Lemma find_crlf_line l t : lacks CR l = true -> find_crlf (l +:+ CRLF +:+ t) = Some (String.length l).
Proof.
  induction l as [|a l IH]; intros Hl; [done|].
  apply eqb_lacks in Hl as [Ha Hl]. specialize (IH Hl).
  change (String a l +:+ CRLF +:+ t) with (String a (l +:+ CRLF +:+ t)).
  assert (exists b l1, l +:+ CRLF +:+ t = String b l1) as (b & l1 & Hb).
  { destruct l as [|b l]; simpl; eauto. }
  rewrite Hb in *. rewrite find_crlf_cons, IH. unfold is_crlf. by rewrite Ha.
Qed.

(** A proper part of a line with its end has no line end. *)
Lemma find_crlf_part l b l2 :
  lacks CR l = true -> l +:+ CRLF = b +:+ l2 -> l2 <> "" -> find_crlf b = None.
Proof.
  revert b. induction l as [|a l IH]; intros b Hl Heq Hl2.
  - destruct b as [|c [|d b]]; [done|done|]. injection Heq as _ _ Heq. by destruct b.
  - apply eqb_lacks in Hl as [Ha Hl]. destruct b as [|c b]; [done|]. injection Heq as <- Heq.
    specialize (IH b Hl Heq Hl2). destruct b as [|d b]; [done|].
    rewrite find_crlf_cons, IH. unfold is_crlf. by rewrite Ha.
Qed.

Lemma scan_start_cons max i a b s :
  scan_start max i (String a (String b s)) =
    if max <? Z.of_nat i then TooLong i
    else if is_crlf a b then Found i else scan_start max (S i) (String b s).
Proof. done. Qed.

Lemma scan_start_found max i b k :
  find_crlf b = Some k -> Z.of_nat (i + k) <= max -> scan_start max i b = Found (i + k).
Proof.
  revert i k. induction b as [|a b IH]; intros i k; [done|].
  destruct b as [|c b]; [done|]. intros Hf Hmax. rewrite find_crlf_cons in Hf.
  rewrite scan_start_cons.
  destruct (Z.ltb_spec max (Z.of_nat i)); [lia|].
  destruct (is_crlf a c); [injection Hf as <-; f_equal; lia|].
  destruct (find_crlf (String c b)) as [k1|] eqn:Hk; [|done]. injection Hf as <-.
  rewrite (IH (S i) k1) by (done || lia). f_equal. lia.
Qed.

Lemma scan_start_none max i b :
  find_crlf b = None -> Z.of_nat (i + String.length b) <= max + 2 -> scan_start max i b = NoCrlf.
Proof.
  revert i. induction b as [|a b IH]; intros i; [done|].
  destruct b as [|c b]; [done|]. intros Hf Hmax. rewrite find_crlf_cons in Hf.
  rewrite scan_start_cons. simpl in Hmax.
  destruct (Z.ltb_spec max (Z.of_nat i)); [lia|].
  destruct (is_crlf a c); [done|]. apply IH; [|simpl; lia].
  by destruct (find_crlf (String c b)).
Qed.

Lemma str_drop_line l t : str_drop (String.length l + 2) (l +:+ CRLF +:+ t) = t.
Proof. rewrite app_assoc_str. apply str_drop_app. by rewrite length_app_str. Qed.

(** ** The start line *)

Lemma parse_start_line_stream fuel max buf r line rest :
  lacks CR line = true -> line <> "" -> utf8_valid line = true ->
  str_len line < max -> buf +:+ r = line +:+ CRLF +:+ rest ->
  (parse_start_line (S fuel) max buf = (None, buf)
   /\ (String.length buf < String.length line + 2)%nat)
  \/ (exists buf1, parse_start_line (S fuel) max buf = (Some (Ok line), buf1) /\ buf1 +:+ r = rest).
Proof.
  intros Hcr Hne Hu Hlen Heq. unfold str_len in Hlen. rewrite app_assoc_str in Heq.
  apply app_split in Heq as [(buf1 & -> & Hr)|(l2 & Hl & Hl2 & _)].
  - right. exists buf1. split; [|done]. cbn [parse_start_line].
    rewrite <-app_assoc_str. rewrite (scan_start_found max 0 _ (String.length line));
      [|by apply find_crlf_line|lia].
    cbn [Nat.add]. rewrite str_take_app, Hu, str_drop_line by done. by destruct line.
  - left. pose proof (f_equal String.length Hl) as Hlens. rewrite !length_app_str in Hlens.
    destruct l2 as [|c l2]; [done|]. simpl in Hlens. split; [|lia].
    simpl. rewrite scan_start_none; [|by eapply find_crlf_part|lia].
    unfold str_len. destruct (Z.ltb_spec max (Z.of_nat (String.length buf))); [lia|done].
Qed.

Lemma parse_start_line_empty fuel max : 0 <= max -> parse_start_line (S fuel) max "" = (None, "").
Proof. intros. simpl. unfold str_len. simpl. by rewrite (proj2 (Z.ltb_ge _ _)). Qed.

(** ** The header block *)

Definition line_text (nv : HeaderName * string) : string := HeaderName_str nv.1 +:+ ": " +:+ nv.2.

Fixpoint block_text (lines : list (HeaderName * string)) : string :=
  match lines with
  | [] => CRLF
  | nv :: lines => line_text nv +:+ CRLF +:+ block_text lines
  end.

(** The lines the encoder writes: every Content-Length is that of the body, and
    there is one. *)
Fixpoint norm_lines (lines : list (HeaderName * string)) (body_len : Z) (emitted : bool) :
    list (HeaderName * string) :=
  match lines with
  | [] => if emitted then [] else [(HContentLength, show_uint body_len)]
  | (name, value) :: lines =>
      if header_eqb name HContentLength
      then (HContentLength, show_uint body_len) :: norm_lines lines body_len true
      else (name, value) :: norm_lines lines body_len emitted
  end.

Lemma encode_lines_block lines n e : encode_lines lines n e = block_text (norm_lines lines n e).
Proof.
  revert e. induction lines as [|[name v] lines IH]; intros e; simpl.
  - destruct e; simpl; [done|]. unfold content_length_line, line_text. simpl. by rewrite <-!app_assoc_str.
  - destruct (header_eqb name HContentLength); simpl; rewrite IH.
    + unfold content_length_line, line_text. simpl. by rewrite <-!app_assoc_str.
    + unfold line_text. simpl. by rewrite <-!app_assoc_str.
Qed.

(** A header name that its own text names, made of visible ASCII; a value
    without surrounding white space and without carriage return. *)
Definition wf_name (n : HeaderName) : Prop :=
  HeaderName_parse (HeaderName_str n) = n /\ HeaderName_str n <> ""
  /\ str_all solid (HeaderName_str n) = true /\ lacks ":" (HeaderName_str n) = true.
Definition wf_value (v : string) : Prop :=
  trim v = v /\ lacks CR v = true /\ utf8_valid v = true.
Definition wf_line (nv : HeaderName * string) : Prop := wf_name nv.1 /\ wf_value nv.2.


Lemma line_lacks_cr nv : wf_line nv -> lacks CR (line_text nv) = true.
Proof.
  intros [(_ & _ & Hs & _) (_ & Hv & _)]. unfold line_text. rewrite !lacks_app, Hv.
  by rewrite (solid_lacks CR) by done.
Qed.

Lemma show_uint_value n : 0 <= n -> wf_value (show_uint n).
Proof.
  intros Hn. pose proof (show_uint_solid n Hn) as Hs. split_and!.
  - by apply trim_solid.
  - by apply solid_lacks.
  - apply utf8_valid_ascii. eapply str_all_impl; [|exact Hs]. apply solid_byte.
Qed.

Lemma norm_lines_wf lines n e :
  0 <= n -> Forall wf_line lines -> Forall wf_line (norm_lines lines n e).
Proof.
  intros Hn. assert (wf_line (HContentLength, show_uint n)) as Hcl.
  { split; [done|]. by apply show_uint_value. }
  revert e. induction lines as [|[name v] lines IH]; intros e Hf; simpl.
  - destruct e; [constructor | by apply Forall_singleton].
  - apply Forall_cons in Hf as [Hl Hf]. destruct (header_eqb name HContentLength); constructor; auto.
Qed.

(** The encoder always writes the length of the body first. *)
Lemma norm_lines_length_header lines n :
  head (snd <$> filter (named HContentLength) (norm_lines lines n false)) = Some (show_uint n).
Proof.
  induction lines as [|[name v] lines IH]; simpl; [done|].
  destruct (header_eqb name HContentLength) eqn:Hn; [done|].
  rewrite filter_cons_False; [done|]. unfold named. simpl. by rewrite Hn.
Qed.

Lemma parse_header_line_text consumed nv :
  wf_line nv -> parse_header_line false consumed (line_text nv) = Ok nv.
Proof.
  destruct nv as [n v]. intros [(Hp & Hne & Hs & Hc) (Ht & _ & Hu)]. simpl in *.
  unfold parse_header_line, line_text. simpl fst. simpl snd.
  assert (utf8_valid (HeaderName_str n) = true) as Hun.
  { apply utf8_valid_ascii. eapply str_all_impl; [apply solid_byte | done]. }
  rewrite utf8_valid_app by done. change (utf8_valid (": " +:+ v)) with (utf8_valid v).
  rewrite Hu. simpl negb. cbv iota.
  change (HeaderName_str n +:+ ": " +:+ v) with (HeaderName_str n +:+ String ":" (String " " v)).
  rewrite split_once_app by done. rewrite trim_solid, Hp by done. rewrite trim_space, Ht.
  rewrite andb_false_r.
  destruct (HeaderName_str n) as [|a t]; [done|]. simpl in Hs. apply andb_true_iff in Hs as [Ha _].
  unfold starts_with. simpl. unfold solid in Ha.
  destruct (Ascii.eqb_spec " " a) as [<-|]; [done|].
  by destruct (Ascii.eqb_spec "009" a) as [<-|].
Qed.

Fixpoint lines_size (lines : list (HeaderName * string)) : Z :=
  match lines with
  | [] => 0
  | nv :: lines => str_len (line_text nv) + 2 + lines_size lines
  end.

Lemma lines_size_nonneg lines : 0 <= lines_size lines.
Proof. induction lines as [|nv lines IH]; simpl; unfold str_len; lia. Qed.

(** The lines stay within the limits of the parser when [count] headers of
    [block] bytes were read before. *)
Definition lines_fit (cfg : SipParserConfig) (lines : list (HeaderName * string)) (count block : Z) : Prop :=
  Forall (fun nv => str_len (line_text nv) <= max_header_line_bytes cfg) lines
  /\ count + Z.of_nat (length lines) <= max_headers cfg
  /\ block + lines_size lines <= max_header_block_bytes cfg.

Lemma lines_fit_cons cfg nv lines count block :
  lines_fit cfg (nv :: lines) count block ->
  str_len (line_text nv) <= max_header_line_bytes cfg
  /\ count <= max_headers cfg /\ block <= max_header_block_bytes cfg
  /\ lines_fit cfg lines (count + 1) (block + (str_len (line_text nv) + 2)).
Proof.
  intros ([Hl Hf]%Forall_cons & Hc & Hb). simpl in Hc, Hb. pose proof (lines_size_nonneg lines).
  unfold lines_fit. unfold str_len in *. split_and!; try done; lia.
Qed.

Lemma line_text_first nv :
  wf_line nv -> exists a t, line_text nv = String a t /\ Ascii.eqb a CR = false.
Proof.
  intros [(_ & Hne & Hs & _) _]. unfold line_text. destruct (HeaderName_str nv.1) as [|a t]; [done|].
  exists a, (t +:+ ": " +:+ nv.2). split; [done|]. simpl in Hs. apply andb_true_iff in Hs as [Ha _].
  by destruct (Ascii.eqb_spec a CR) as [->|].
Qed.

(** One round of the loop on a complete line, and on a part of one. *)
Lemma headers_loop_line fuel cfg nv t h consumed count block :
  wf_line nv -> str_len (line_text nv) <= max_header_line_bytes cfg ->
  count <= max_headers cfg -> block <= max_header_block_bytes cfg ->
  headers_loop (S fuel) cfg false (line_text nv +:+ CRLF +:+ t) h consumed count block =
    headers_loop fuel cfg false t (append h nv.1 nv.2)
      (consumed + (str_len (line_text nv) + 2)) (count + 1) (block + (str_len (line_text nv) + 2)).
Proof.
  intros Hwf Hl Hc Hb. cbn [headers_loop].
  rewrite !(proj2 (Z.ltb_ge _ _)) by lia.
  rewrite find_crlf_line by (by apply line_lacks_cr).
  rewrite str_take_app by done. rewrite parse_header_line_text, str_drop_line by done.
  destruct (line_text_first nv Hwf) as (a & t1 & Heq & Ha). unfold str_len in *.
  rewrite !(proj2 (Z.ltb_ge _ _)) by lia. destruct nv as [n v].
  rewrite Heq. destruct t1 as [|b t1]; simpl; unfold is_crlf; by rewrite Ha.
Qed.

Lemma headers_loop_part fuel cfg nv buf l2 h consumed count block :
  wf_line nv -> count <= max_headers cfg -> block <= max_header_block_bytes cfg ->
  line_text nv +:+ CRLF = buf +:+ l2 -> l2 <> "" ->
  headers_loop (S fuel) cfg false buf h consumed count block = None.
Proof.
  intros Hwf Hc Hb Heq Hl2. cbn [headers_loop].
  rewrite !(proj2 (Z.ltb_ge _ _)) by lia.
  rewrite (find_crlf_part (line_text nv) buf l2) by (done || by apply line_lacks_cr).
  destruct buf as [|a [|b buf]]; [done|done|].
  destruct (line_text_first nv Hwf) as (c & t1 & Hline & Ha). rewrite Hline in Heq.
  injection Heq as -> _. unfold is_crlf. by rewrite Ha.
Qed.

Lemma headers_loop_stream cfg lines : forall fuel buf r rest h consumed count block,
  Forall wf_line lines -> lines_fit cfg lines count block ->
  (String.length buf < fuel)%nat -> buf +:+ r = block_text lines +:+ rest ->
  (headers_loop fuel cfg false buf h consumed count block = None
   /\ (String.length buf < String.length (block_text lines))%nat)
  \/ (exists buf1 n, headers_loop fuel cfg false buf h consumed count block
        = Some (finish_headers cfg (fold_left (fun h nv => append h nv.1 nv.2) lines h) n buf1)
      /\ buf1 +:+ r = rest).
Proof.
  induction lines as [|nv lines IH]; intros fuel buf r rest h consumed count block Hwf Hfit Hfuel Heq;
    (destruct fuel as [|fuel]; [lia|]).
  - destruct Hfit as (_ & Hc & Hb). simpl in Hc, Hb. cbn [headers_loop].
    rewrite !(proj2 (Z.ltb_ge _ _)) by lia. simpl in Heq.
    destruct buf as [|a [|b buf]]; [left; simpl; split; [done|lia]..|].
    injection Heq as -> -> Heq. right. by eexists buf, _.
  - apply Forall_cons in Hwf as [Hnv Hwf]. apply lines_fit_cons in Hfit as (Hl & Hc & Hb & Hfit).
    cbn [block_text] in *. rewrite <-!app_assoc_str, app_assoc_str in Heq.
    apply app_split in Heq as [(buf1 & -> & Hr)|(l2 & Hl2 & Hne & _)].
    + rewrite <-app_assoc_str, headers_loop_line by done. rewrite !length_app_str in Hfuel.
      change (String.length CRLF) with 2%nat in Hfuel.
      destruct (IH fuel buf1 r rest (append h nv.1 nv.2)
        (consumed + (str_len (line_text nv) + 2)) (count + 1) (block + (str_len (line_text nv) + 2)))
        as [[Hn Hlen]|(buf2 & n & Hs & Hr2)]; try done; [lia| |].
      * left. split; [done|]. rewrite !length_app_str. lia.
      * right. by exists buf2, n.
    + left. split; [by eapply headers_loop_part|].
      pose proof (f_equal String.length Hl2) as Hlens. rewrite !length_app_str in Hlens |- *.
      destruct l2 as [|c l2]; [done|]. simpl in Hlens. simpl. lia.
Qed.

Lemma finish_headers_encoded cfg lines n consumed after :
  0 <= n <= max_body_bytes cfg -> max_body_bytes cfg <= U64_MAX ->
  finish_headers cfg (headers_of (norm_lines lines n false)) consumed after
    = Ok (headers_of (norm_lines lines n false), n, consumed, after).
Proof.
  intros Hn Hm. unfold finish_headers. rewrite get_spec, norm_lines_length_header.
  rewrite trim_solid by (apply show_uint_solid; lia).
  destruct (show_uint_digits n) as [_ Hne]; [lia|].
  destruct (show_uint n) as [|a t] eqn:Hs; [done|]. simpl is_empty_str. cbv iota.
  rewrite <-Hs, parse_show_uint by lia. by rewrite (proj2 (Z.ltb_ge _ _)) by lia.
Qed.


(** ** Messages *)

Definition start_text (m : SipMessage) : string :=
  match m with
  | Request l _ _ => Method_str (rl_method l) +:+ " " +:+ uri_encode (rl_uri l) +:+ " " +:+ rl_version l
  | Response l _ _ => sl_version l +:+ " " +:+ show_uint (sl_code l) +:+ " " +:+ sl_reason l
  end.
Definition msg_body (m : SipMessage) : string :=
  match m with Request _ _ b => b | Response _ _ b => b end.

(** The header lines of [m] as the encoder writes them. *)
Definition sent_lines (m : SipMessage) : list (HeaderName * string) :=
  norm_lines (sh_lines (msg_headers m)) (str_len (msg_body m)) false.

(** [m] with the header table a receiver has: Content-Length made exact. *)
Definition with_length (m : SipMessage) : SipMessage :=
  match m with
  | Request l _ b => Request l (headers_of (sent_lines m)) b
  | Response l _ b => Response l (headers_of (sent_lines m)) b
  end.

Definition wf_start (m : SipMessage) : Prop :=
  match m with
  | Request l _ _ =>
      rl_version l = SIP_2_0 /\ wf_method (rl_method l) = true /\ wf_uri (rl_uri l)
      /\ lacks " " (uri_encode (rl_uri l)) = true /\ lacks CR (uri_encode (rl_uri l)) = true
      /\ utf8_valid (uri_encode (rl_uri l)) = true
  | Response l _ _ =>
      sl_version l = SIP_2_0 /\ is_u16 (sl_code l)
      /\ lacks CR (sl_reason l) = true /\ utf8_valid (sl_reason l) = true
  end.
Definition wf_message (m : SipMessage) : Prop :=
  wf_start m /\ Forall wf_line (sh_lines (msg_headers m)).

Lemma encode_message_text m :
  encode_message m = start_text m +:+ CRLF +:+ block_text (sent_lines m) +:+ msg_body m.
Proof.
  destruct m as [l h b|l h b]; unfold encode_message, start_text, encode_request_line,
    encode_status_line, encode_headers; rewrite encode_lines_block, <-!app_assoc_str; done.
Qed.

Lemma method_solid m : wf_method m = true -> str_all solid (Method_str m) = true.
Proof.
  destruct m as [| | | | | | | | | |s]; try done. simpl. rewrite andb_true_iff. intros [Hs _].
  eapply str_all_impl; [|exact Hs]. intros a. unfold is_method_char, is_ascii_uppercase, solid.
  destruct (Ascii.eqb_spec a "-") as [->|]; [done|]. lia.
Qed.

Lemma method_lacks_slash m : wf_method m = true -> lacks "/" (Method_str m) = true.
Proof.
  destruct m as [| | | | | | | | | |s]; try done. simpl. rewrite andb_true_iff. intros [Hs _].
  eapply str_all_impl; [|exact Hs]. intros a. by destruct (Ascii.eqb_spec a "/") as [->|].
Qed.


Lemma start_text_line m :
  wf_start m -> lacks CR (start_text m) = true /\ start_text m <> "" /\ utf8_valid (start_text m) = true.
Proof.
  destruct m as [l h b|l h b]; cbn [wf_start start_text].
  - intros (-> & Hm & _ & _ & Hcr & Hu). apply method_solid in Hm. split_and!.
    + rewrite !lacks_app, Hcr, (solid_lacks CR) by done. done.
    + by destruct (Method_str (rl_method l)).
    + rewrite utf8_valid_app by (by apply solid_utf8).
      change (utf8_valid (" " +:+ ?t)) with (utf8_valid t). by rewrite utf8_valid_app.
  - intros (-> & [Hc _] & Hcr & Hu). pose proof (show_uint_solid _ Hc) as Hs. split_and!.
    + rewrite !lacks_app, Hcr, (solid_lacks CR (show_uint _)) by done. done.
    + done.
    + rewrite utf8_valid_app by done.
      change (utf8_valid (show_uint (sl_code l) +:+ " " +:+ sl_reason l) = true).
      by rewrite utf8_valid_app by (by apply solid_utf8).
Qed.

Lemma not_status_line s t : lacks "/" s = true -> strip_prefix "SIP/2.0 " (s +:+ " " +:+ t) = None.
Proof.
  destruct s as [|a [|b [|c [|d s]]]]; simpl; repeat case_match; try done.
  all: repeat match goal with H : Ascii.eqb _ _ = true |- _ => apply Ascii.eqb_eq in H; subst end; done.
Qed.

(** The parser builds the message from its own parts. *)
Lemma build_message_encoded prof m :
  profile_has prof HeaderNormalization = false -> wf_start m ->
  build_message (start_text m) (headers_of (sent_lines m)) (msg_body m) (str_len (msg_body m)) prof
    = Ok (with_length m).
Proof.
  intros Hp Hwf. unfold build_message. rewrite Z.eqb_refl. simpl negb. cbv iota.
  destruct m as [l h b|l h b]; cbn [start_text msg_body with_length].
  - destruct Hwf as (Hv & Hm & Hu & Hsp & _ & _).
    rewrite not_status_line by (by apply method_lacks_slash).
    change (" " +:+ ?t) with (String " " t).
    rewrite split_once_app by (apply solid_lacks; [done | by apply method_solid]).
    change (" " +:+ rl_version l) with (String " " (rl_version l)).
    rewrite split_once_app by done. rewrite Hp, Method_parse_str, uri_parse_encode by done.
    destruct l as [me u v]. simpl in *. by subst v.
  - destruct Hwf as (Hv & Hc & _ & _). rewrite Hv. unfold SIP_2_0.
    change ("SIP/2.0" +:+ " " +:+ ?t) with ("SIP/2.0 " +:+ t). rewrite strip_prefix_app.
    change (" " +:+ sl_reason l) with (String " " (sl_reason l)).
    destruct Hc as [Hc1 Hc2].
    rewrite split_once_app by (by apply solid_lacks; [|apply show_uint_solid]).
    rewrite parse_show_uint by (unfold U16_MAX, U64_MAX in *; lia).
    destruct l as [v c r]. simpl in *. by subst v.
Qed.
