(* ===== verification/SipTcp.v ===== *)
(** * SIP over TCP

    The framing loops of [cheetah-gb28181-driver-tokio/src/tcp.rs]: a connection
    feeds what it reads to a parser, pops every complete message and hands it to
    the access machine.  [dispatch] stands for [Shared::handle_incoming] with the
    writes of the answers: it returns [false] when the machine rejects the
    message or a write fails.  The theorems say that the machine is given the
    messages of the peer, however TCP cuts them. *)

From S2P Require Import Prelude RustStr SipUri SipMessage Compatibility SipParser SipParserProps.

Open Scope string_scope.
Open Scope list_scope.
Open Scope Z_scope.

Section Connection.
Context {St : Type} (dispatch : St -> SipMessage -> St * bool).

(** [drain_messages]; [None] is for a loop that did not end within [fuel]. *)
Fixpoint drain_messages (fuel : nat) (st : St) (p : SipParser) : option (St * SipParser * bool) :=
  match fuel with
  | O => None
  | S fuel =>
      match pop_message p with
      | (p, None) => Some (st, p, true)
      | (p, Some (Err _)) => Some (st, p, false)
      | (p, Some (Ok message)) =>
          let '(st, ok) := dispatch st message in
          if ok then drain_messages fuel st p else Some (st, p, false)
      end
  end.

(** The loop of [handle_connection]: an empty read is the end of the stream; the
    list of reads ends where the connection is cancelled, idle or broken. *)
Fixpoint handle_connection (st : St) (p : SipParser) (reads : list string) : option St :=
  match reads with
  | [] => Some st
  | chunk :: reads =>
      if is_empty_str chunk then Some st
      else match feed p chunk with
      | (_, Err _) => Some st
      | (p, Ok _) =>
          match drain_messages (S (S (String.length (buffer p)))) st p with
          | None => None
          | Some (st, p, true) => handle_connection st p reads
          | Some (st, _, false) => Some st
          end
      end
  end.

(** What the machine sees of a list of messages: all of them, up to the first
    it rejects. *)
Fixpoint deliver (st : St) (ms : list SipMessage) : St * bool :=
  match ms with
  | [] => (st, true)
  | m :: ms => let '(st, ok) := dispatch st m in if ok then deliver st ms else (st, false)
  end.

Lemma deliver_app st ms1 ms2 :
  deliver st (ms1 ++ ms2) = let '(st, ok) := deliver st ms1 in if ok then deliver st ms2 else (st, false).
Proof.
  revert st. induction ms1 as [|m ms1 IH]; intros st; simpl; [done|].
  destruct (dispatch st m) as [st1 []]; [apply IH | done].
Qed.

End Connection.

(** ** Every pop makes progress *)

Lemma length_str_drop n s : String.length (str_drop n s) = (String.length s - n)%nat.
Proof. revert n. induction s as [|a s IH]; intros [|n]; simpl; auto. Qed.

Lemma scan_start_bound max s : forall i k, scan_start max i s = Found k -> (k + 2 <= i + String.length s)%nat.
Proof.
  induction s as [|a s IH]; intros i k; [done|]. destruct s as [|b s]; [done|].
  rewrite scan_start_cons. destruct (max <? Z.of_nat i); [done|].
  destruct (is_crlf a b); [intros [= <-]; simpl; lia|].
  intros Hk%IH. simpl in *. lia.
Qed.

Lemma parse_start_line_shrinks fuel max : forall buf line buf1,
  parse_start_line fuel max buf = (Some (Ok line), buf1) ->
  (String.length buf1 < String.length buf)%nat.
Proof.
  induction fuel as [|fuel IH]; intros buf line buf1; [done|]. cbn [parse_start_line].
  destruct (scan_start max 0 buf) as [i|i|] eqn:Hs; [done| |by destruct (max <? _)].
  apply scan_start_bound in Hs. pose proof (length_str_drop (i + 2) buf) as Hd.
  destruct (utf8_valid _); [|done]. destruct (is_empty_str _).
  - intros Hp%IH. lia.
  - intros [= _ <-]. lia.
Qed.

Lemma finish_headers_rest cfg h n after x :
  finish_headers cfg h n after = Ok x -> x.2 = after.
Proof.
  unfold finish_headers.
  destruct (match get h HContentLength with Some _ => _ | None => _ end) as [[h1 n1]|e]; [|done].
  simpl. destruct (_ <? n1); [done|]. by intros [= <-].
Qed.

Lemma headers_loop_rest cfg norm fuel : forall rest h consumed count block x,
  headers_loop fuel cfg norm rest h consumed count block = Some (Ok x) ->
  (String.length x.2 < String.length rest)%nat.
Proof.
  induction fuel as [|fuel IH]; intros rest h consumed count block x; [done|]. cbn [headers_loop].
  destruct (_ <? block); [done|]. destruct (_ <? count); [done|].
  destruct rest as [|a [|b after]]; [done|done|].
  destruct (is_crlf a b).
  - destruct (norm && _).
    + intros Hx%IH. simpl. lia.
    + intros [= Hx%finish_headers_rest]. rewrite Hx. simpl. lia.
  - destruct (find_crlf _) as [e|]; [|done]. destruct (_ <? Z.of_nat e); [done|].
    destruct (parse_header_line _ _ _) as [[n v]|]; [|done].
    intros Hx%IH. rewrite length_str_drop in Hx. simpl in Hx |- *. lia.
Qed.

(** The bytes a parser can still take messages from. *)
Definition work (p : SipParser) : nat :=
  match state p with Body _ _ _ _ => 1 | _ => 0 end + String.length (buffer p).

Lemma pop_body_work p sl h n p1 m :
  pop_body p sl h n = (p1, Some (Ok m)) -> (work p1 <= String.length (buffer p))%nat.
Proof.
  unfold pop_body. destruct (_ <? n); [done|]. intros [= <- _]. unfold work. simpl.
  rewrite length_str_drop. lia.
Qed.

Lemma pop_headers_work p sl p1 m :
  pop_headers p sl = (p1, Some (Ok m)) -> (work p1 < String.length (buffer p))%nat.
Proof.
  unfold pop_headers. destruct (parse_headers _ _ _) as [[[[[h n] c] after]|e]|] eqn:Hh; [|done|done].
  intros Hp%pop_body_work. apply headers_loop_rest in Hh. simpl in *. lia.
Qed.

Lemma pop_message_work p p1 m : pop_message p = (p1, Some (Ok m)) -> (work p1 < work p)%nat.
Proof.
  unfold pop_message. unfold work at 2. destruct (state p) as [|sl|sl h n c].
  - unfold pop_start. destruct (parse_start_line _ _ _) as [[[sl|e]|] buf] eqn:Hs; [|done|done].
    intros Hp%pop_headers_work. apply parse_start_line_shrinks in Hs. simpl in *. lia.
  - apply pop_headers_work.
  - intros Hp%pop_body_work. lia.
Qed.

Lemma drain_total {St} (dispatch : St -> SipMessage -> St * bool) fuel : forall st p,
  (work p < fuel)%nat -> exists r, drain_messages dispatch fuel st p = Some r.
Proof.
  induction fuel as [|fuel IH]; intros st p Hf; [lia|]. simpl.
  destruct (pop_message p) as [p1 [[m|e]|]] eqn:Hp; [|eauto|eauto].
  apply pop_message_work in Hp. destruct (dispatch st m) as [st1 []]; [|eauto]. apply IH. lia.
Qed.

(** The loops of a TCP connection end on every input: whatever bytes are
    read, in whatever pieces, with whatever configuration, profile and state of
    the parser, each popped message uses up part of the buffer, so draining
    stops and the connection has an outcome. *)
Theorem connection_terminates {St} (dispatch : St -> SipMessage -> St * bool) st p reads :
  exists st1, handle_connection dispatch st p reads = Some st1.
Proof.
  revert st p. induction reads as [|chunk reads IH]; intros st p; cbn [handle_connection];
    [eauto|].
  destruct (is_empty_str chunk); [eauto|]. destruct (feed p chunk) as [p1 [u|e]]; [|eauto].
  destruct (drain_total dispatch (S (S (String.length (buffer p1)))) st p1) as [[[st1 p2] []] ->]; eauto.
  unfold work. destruct (state p1); lia.
Qed.

(** ** What a peer sends *)

(** A CRLF keep-alive, or a message. *)
Inductive item := KeepAlive | Sent (m : SipMessage).

Fixpoint stream (items : list item) : string :=
  match items with
  | [] => ""
  | KeepAlive :: items => CRLF +:+ stream items
  | Sent m :: items => encode_message m +:+ stream items
  end.
Fixpoint messages (items : list item) : list SipMessage :=
  match items with
  | [] => []
  | KeepAlive :: items => messages items
  | Sent m :: items => m :: messages items
  end.

(** The message is within the limits of the receiver. *)
Definition fits (cfg : SipParserConfig) (m : SipMessage) : Prop :=
  str_len (start_text m) < max_start_line_bytes cfg
  /\ lines_fit cfg (sent_lines m) 0 0
  /\ str_len (msg_body m) <= max_body_bytes cfg.
(** What may be sent, with or without keep-alives. *)
Definition sendable (cfg : SipParserConfig) (keep : bool) (i : item) : Prop :=
  match i with KeepAlive => keep = true | Sent m => wf_message m /\ fits cfg m end.

Section Receiver.
Context (cfg : SipParserConfig) (prof : option CompatibilityProfile) (keep : bool).
Context (Hbody : max_body_bytes cfg <= U64_MAX) (Hstart : 1 <= max_start_line_bytes cfg).
Context (Hprof : profile_has prof HeaderNormalization = false).

(** The parser [p] and the bytes [r] still to come hold the messages [ms]. *)
Definition rep (p : SipParser) (r : string) (ms : list SipMessage) : Prop :=
  config p = cfg /\ profile p = prof /\ exists items, Forall (sendable cfg keep) items /\
  match state p with
  | StartLine => buffer p +:+ r = stream items /\ ms = messages items
  | Headers sl => exists m, sendable cfg keep (Sent m) /\ sl = start_text m /\ ms = m :: messages items
      /\ buffer p +:+ r = block_text (sent_lines m) +:+ msg_body m +:+ stream items
  | Body sl h n _ => exists m, sendable cfg keep (Sent m) /\ sl = start_text m /\ ms = m :: messages items
      /\ h = headers_of (sent_lines m) /\ n = str_len (msg_body m)
      /\ buffer p +:+ r = msg_body m +:+ stream items
  end.

(** [p] waits for more bytes: there are none to come only after the last
    message, and less than a whole item is buffered. *)
Definition waits (p : SipParser) (r : string) (ms : list SipMessage) : Prop :=
  (r = "" -> ms = [])
  /\ ((String.length (buffer p) <= 1)%nat
      \/ exists m ms1, ms = m :: ms1 /\ (String.length (buffer p) <= String.length (encode_message m))%nat).

(** The outcome of a pop: the parser waits, or it gave the first message. *)
Definition popped (res : SipParser * option (result SipMessage SipError)) (r : string)
    (ms : list SipMessage) : Prop :=
  (exists p, res = (p, None) /\ rep p r ms /\ waits p r ms)
  \/ (exists p m ms1, ms = m :: ms1 /\ res = (p, Some (Ok (with_length m))) /\ rep p r ms1).

Lemma length_encode m :
  String.length (encode_message m) = (String.length (start_text m) + 2
    + String.length (block_text (sent_lines m)) + String.length (msg_body m))%nat.
Proof. rewrite encode_message_text, !length_app_str. change (String.length CRLF) with 2%nat. lia. Qed.

Lemma pop_body_rep p r ms sl h n c :
  state p = Body sl h n c -> rep p r ms -> popped (pop_body p sl h n) r ms.
Proof.
  intros Hst Hrep. pose proof Hrep as (Hc & Hp & items & Hf & Hs). rewrite Hst in Hs.
  destruct Hs as (m & (Hwf & Hfit) & -> & -> & -> & -> & Heq). unfold pop_body, str_len.
  destruct (Z.ltb_spec (Z.of_nat (String.length (buffer p))) (Z.of_nat (String.length (msg_body m)))).
  - left. exists p. split; [done|]. split; [done|]. split.
    + intros ->. rewrite app_nil_str in Heq. rewrite Heq, length_app_str in *. lia.
    + right. exists m, (messages items). rewrite length_encode. split; [done|lia].
  - right. apply app_split in Heq as [(b1 & Hb & Hr)|(l2 & Hl & Hne & _)].
    + eexists _, m, (messages items). split; [done|]. rewrite Hb, Nat2Z.id.
      rewrite str_take_app, str_drop_app by done. split.
      * do 2 f_equal. rewrite Hp. apply build_message_encoded; [done | apply Hwf].
      * split_and!; [done|done|]. by exists items.
    + rewrite Hl, length_app_str in *. destruct l2; [done|]. simpl in *. lia.
Qed.

Lemma pop_headers_rep p r ms sl :
  state p = Headers sl -> rep p r ms -> popped (pop_headers p sl) r ms.
Proof.
  intros Hst Hrep. pose proof Hrep as (Hc & Hp & items & Hf & Hs). rewrite Hst in Hs.
  destruct Hs as (m & (Hwf & Hfit) & -> & -> & Heq). unfold pop_headers, parse_headers.
  rewrite Hc, Hp, Hprof.
  destruct (headers_loop_stream cfg (sent_lines m) (S (String.length (buffer p))) (buffer p) r
    (msg_body m +:+ stream items) headers_new 0 0 0) as [[-> Hlen]|(b1 & n & -> & Hb)];
    [apply norm_lines_wf; [unfold str_len; lia | apply Hwf] | apply Hfit | lia | done | |].
  - left. exists p. split; [done|]. split; [done|]. split.
    + intros ->. rewrite app_nil_str in Heq. rewrite Heq, !length_app_str in Hlen. lia.
    + right. exists m, (messages items). rewrite length_encode. split; [done|lia].
  - change (fold_left _ _ headers_new) with (headers_of (sent_lines m)). unfold sent_lines at 1.
    destruct Hfit as (Hsl & Hlf & Hbl).
    rewrite finish_headers_encoded by (unfold str_len in *; lia). eapply pop_body_rep; [done|].
    split_and!; [done|done|]. exists items. split; [done|]. exists m. by split_and!.
Qed.

(** The start line behind any number of keep-alives. *)
Lemma parse_start_line_items items r : forall fuel buf,
  Forall (sendable cfg keep) items -> (String.length buf < fuel)%nat -> buf +:+ r = stream items ->
  (exists buf1 items1, parse_start_line fuel (max_start_line_bytes cfg) buf = (None, buf1)
     /\ Forall (sendable cfg keep) items1 /\ messages items1 = messages items /\ buf1 +:+ r = stream items1
     /\ (r = "" -> items1 = [])
     /\ ((String.length buf1 <= 1)%nat \/ exists m items2, items1 = Sent m :: items2
           /\ (String.length buf1 < String.length (start_text m) + 2)%nat))
  \/ (exists m buf1 items1,
     parse_start_line fuel (max_start_line_bytes cfg) buf = (Some (Ok (start_text m)), buf1)
     /\ sendable cfg keep (Sent m) /\ Forall (sendable cfg keep) items1 /\ messages items = m :: messages items1
     /\ buf1 +:+ r = block_text (sent_lines m) +:+ msg_body m +:+ stream items1).
Proof.
  induction items as [|[|m] items IH]; intros [|fuel] buf Hf Hfuel Heq; try lia.
  - left. destruct buf; [|done]. exists "", []. rewrite parse_start_line_empty by lia.
    split_and!; try done. left. simpl. lia.
  - apply Forall_cons in Hf as [Hm Hf].
    destruct buf as [|a [|b buf]]; simpl in Heq.
    + left. exists "", (KeepAlive :: items). rewrite parse_start_line_empty by lia.
      split_and!; [done|by constructor|done|done|by intros ->|left; simpl; lia].
    + left. exists (String a ""), (KeepAlive :: items). injection Heq as -> Heq. split_and!.
      * simpl. by rewrite (proj2 (Z.ltb_ge _ _)) by (unfold str_len; simpl; lia).
      * by constructor.
      * done.
      * simpl. by rewrite Heq.
      * by intros ->.
      * left. simpl. lia.
    + injection Heq as -> -> Heq. simpl in Hfuel.
      assert (parse_start_line (S fuel) (max_start_line_bytes cfg) (String CR (String LF buf))
        = parse_start_line fuel (max_start_line_bytes cfg) buf) as ->.
      { cbn. by rewrite (proj2 (Z.ltb_ge _ _)) by lia. }
      apply (IH fuel buf); [done|lia|done].
  - apply Forall_cons in Hf as [Hm Hf]. pose proof Hm as [[Hst Hlines] (Hsl & _ & _)].
    destruct (start_text_line m Hst) as (Hcr & Hne & Hu).
    pose proof Heq as Heq1. cbn [stream] in Heq. rewrite encode_message_text, <-!app_assoc_str in Heq.
    destruct (parse_start_line_stream fuel (max_start_line_bytes cfg) buf r _ _ Hcr Hne Hu Hsl Heq)
      as [[-> Hlen]|(buf1 & -> & Hb)].
    + left. exists buf, (Sent m :: items). split_and!; [done|by constructor|done|done|..].
      * intros ->. rewrite app_nil_str in Heq. rewrite Heq, !length_app_str in Hlen.
        change (String.length CRLF) with 2%nat in Hlen. lia.
      * right. by exists m, items.
    + right. by exists m, buf1, items.
Qed.

Lemma pop_message_rep p r ms : rep p r ms -> popped (pop_message p) r ms.
Proof.
  intros Hrep. unfold pop_message. destruct (state p) as [|sl|sl h n c] eqn:Hst.
  - destruct Hrep as (Hc & Hp & items & Hf & Hs). rewrite Hst in Hs. destruct Hs as [Heq ->].
    unfold pop_start. rewrite Hc.
    destruct (parse_start_line_items items r (S (String.length (buffer p))) (buffer p) Hf)
      as [(b1 & it1 & -> & Hf1 & Hm & Hb & Hr & Hl)|(m & b1 & it1 & -> & Hm & Hf1 & Hms & Hb)];
      [lia|done|..].
    + left. exists (set_buffer b1 p). split; [done|]. split.
      * split_and!; [done|done|]. exists it1. simpl. by rewrite Hst.
      * split; [intros Hr0; rewrite <-Hm, Hr by done; done|]. simpl.
        destruct Hl as [?|(m & it2 & -> & Hl)]; [by left|]. right. exists m, (messages it2).
        rewrite length_encode. split; [done|lia].
    + eapply pop_headers_rep; [done|]. split_and!; [done|done|]. exists it1. split; [done|].
      exists m. by split_and!.
  - by apply pop_headers_rep.
  - by apply (pop_body_rep p r ms sl h n c).
Qed.

Section Delivery.
Context {St : Type} (dispatch : St -> SipMessage -> St * bool).

Lemma drain_rep fuel : forall st p r ms st1 p1 ok,
  drain_messages dispatch fuel st p = Some (st1, p1, ok) -> rep p r ms ->
  exists ms1 ms2, ms = ms1 ++ ms2 /\ deliver dispatch st (with_length <$> ms1) = (st1, ok)
    /\ (ok = true -> rep p1 r ms2 /\ waits p1 r ms2).
Proof.
  induction fuel as [|fuel IH]; intros st p r ms st1 p1 ok Hd Hrep; [done|]. simpl in Hd.
  apply pop_message_rep in Hrep as [(p2 & Hp & Hrep & Hw)|(p2 & m & ms1 & -> & Hp & Hrep)]; rewrite Hp in Hd.
  - injection Hd as <- <- <-. by exists [], ms.
  - destruct (dispatch st (with_length m)) as [st2 ok2] eqn:Hdis. destruct ok2.
    + destruct (IH _ _ _ _ _ _ _ Hd Hrep) as (ms2 & ms3 & -> & Hdel & Hok).
      exists (m :: ms2), ms3. simpl. by rewrite Hdis.
    + injection Hd as <- <- <-. exists [m], ms1. simpl. by rewrite Hdis.
Qed.

Context (bound : Z) (Hone : 1 <= bound).

Lemma waits_bound p r ms :
  waits p r ms -> Forall (fun m => str_len (encode_message m) <= bound) ms ->
  str_len (buffer p) <= bound.
Proof.
  intros [_ [Hl|(m & ms1 & -> & Hl)]] Hf; unfold str_len in *; [lia|].
  apply Forall_cons in Hf as [Hm _]. lia.
Qed.

Lemma rep_feed p chunk r ms : rep p (chunk +:+ r) ms -> rep (set_buffer (buffer p +:+ chunk) p) r ms.
Proof. unfold rep. simpl. by rewrite <-app_assoc_str. Qed.

Lemma connection_rep chunks : forall st p ms,
  rep p (foldr String.append "" chunks) ms -> str_len (buffer p) <= bound ->
  Forall (fun m => str_len (encode_message m) <= bound) ms ->
  Forall (fun c => c <> "" /\ str_len c + bound <= max_buffer_bytes cfg) chunks ->
  (chunks = [] -> ms = []) ->
  handle_connection dispatch st p chunks = Some (deliver dispatch st (with_length <$> ms)).1.
Proof.
  induction chunks as [|chunk chunks IH]; intros st p ms Hrep Hlen Hms Hch Hnil;
    [by rewrite Hnil|].
  apply Forall_cons in Hch as [[Hne Hfit] Hch]. simpl in Hrep. cbn [handle_connection].
  destruct chunk as [|a chunk]; [done|]. cbn [is_empty_str]. cbv iota.
  unfold feed. replace (config p) with cfg by (symmetry; apply Hrep).
  rewrite (proj2 (Z.ltb_ge _ _)) by (unfold sat_add64; lia).
  apply rep_feed in Hrep. set (p1 := set_buffer _ p) in *.
  destruct (drain_total dispatch (S (S (String.length (buffer p1)))) st p1) as [[[st1 p2] ok] Hd];
    [unfold work; destruct (state p1); lia|].
  rewrite Hd. destruct (drain_rep _ _ _ _ _ _ _ _ Hd Hrep) as (ms1 & ms2 & -> & Hdel & Hok).
  rewrite fmap_app, deliver_app, Hdel. destruct ok; [|done].
  destruct (Hok eq_refl) as [Hrep2 Hw]. apply Forall_app in Hms as [_ Hms].
  apply IH; [done|by eapply waits_bound|done|done|]. intros ->. by apply Hw.
Qed.

End Delivery.
End Receiver.

(** C5: Under a profile without header normalization a TCP connection hands the access
    machine exactly the messages the peer encoded, each with its exact Content-Length,
    in order and up to the first one the machine rejects, however the stream is cut into
    reads and however many keep-alives stand between the messages; the messages are well
    formed and within the limits of the receiver, and a read together with the longest
    message fits in its buffer. With header normalization the result can depend on the
    cuts (see the findings). *)
Theorem tcp_delivery {St} (dispatch : St -> SipMessage -> St * bool) cfg prof bound items chunks st :
  max_body_bytes cfg <= U64_MAX -> 1 <= max_start_line_bytes cfg ->
  profile_has prof HeaderNormalization = false ->
  Forall (sendable cfg true) items ->
  foldr String.append "" chunks = stream items ->
  1 <= bound ->
  Forall (fun m => str_len (encode_message m) <= bound) (messages items) ->
  Forall (fun c => c <> "" /\ str_len c + bound <= max_buffer_bytes cfg) chunks ->
  handle_connection dispatch st (new_with_profile cfg prof) chunks
    = Some (deliver dispatch st (with_length <$> messages items)).1.
Proof.
  intros Hb Hs Hp Hf Heq H1 Hms Hch.
  eapply connection_rep; try done.
  - split; [done|]. split; [done|]. exists items. split; [done|]. by split.
  - unfold str_len. simpl. lia.
  - intros ->. simpl in Heq. destruct items as [|[|m] items]; [done|done|].
    cbn [stream] in Heq. rewrite encode_message_text in Heq.
    apply (f_equal String.length) in Heq. rewrite !length_app_str in Heq. simpl in Heq. lia.
Qed.

(** C6: Under a profile without header normalization the datagram parser reads back
    every well-formed message within its limits that the encoder writes: the same start
    line and body, the same headers with an exact Content-Length, and no byte left over.
    With header normalization a body that looks like a header can be refused (see the
    findings). *)
Theorem datagram_roundtrip cfg prof m :
  max_body_bytes cfg <= U64_MAX -> 1 <= max_start_line_bytes cfg ->
  profile_has prof HeaderNormalization = false ->
  wf_message m -> fits cfg m -> str_len (encode_message m) <= max_buffer_bytes cfg ->
  parse_datagram_with_profile (encode_message m) cfg prof = Ok (with_length m).
Proof.
  intros Hb Hs Hp Hwf Hfit Hbuf. unfold parse_datagram_with_profile, feed.
  change (max_buffer_bytes (config _)) with (max_buffer_bytes cfg).
  rewrite (proj2 (Z.ltb_ge _ _)) by (unfold sat_add64, str_len in *; simpl; lia).
  set (p := set_buffer _ _). simpl mbind.
  assert (rep (datagram_config cfg) prof false p "" [m]) as Hrep.
  { split; [done|]. split; [done|]. exists [Sent m]. split; [apply Forall_singleton; by split|].
    split; [|done]. simpl. done. }
  apply pop_message_rep in Hrep; [|done..].
  destruct Hrep as [(p1 & _ & _ & Hw & _)|(p1 & m1 & ms1 & [= <- <-] & Hpop & Hrep)]; [by specialize (Hw eq_refl)|].
  simpl. rewrite Hpop.
  destruct Hrep as (_ & _ & items & Hf & Hst).
  assert (items = []) as ->.
  { destruct (state p1); [|by destruct Hst as (? & _ & _ & ? & _)..].
    destruct items as [|[|m1] items]; [done| |by destruct Hst as [_ ?]].
    by apply Forall_cons in Hf as [? _]. }
  destruct (state p1); [|by destruct Hst as (? & _ & _ & ? & _)..].
  destruct Hst as [Hst _]. rewrite app_nil_str in Hst. by rewrite Hst.
Qed.

(** ** Where the cut matters *)

Lemma feed_new cfg prof data :
  str_len data <= max_buffer_bytes cfg ->
  (feed (new_with_profile cfg prof) data).1 = set_buffer data (new_with_profile cfg prof).
Proof.
  intros Hd. unfold feed. simpl.
  by rewrite (proj2 (Z.ltb_ge _ _)) by (unfold sat_add64, str_len in *; simpl; lia).
Qed.

(** A start line of exactly the allowed length is accepted when its CRLF is
    read in one piece, and refused as too long, with the buffer dropped, when a
    read ends between CR and LF. *)
Theorem start_line_limit_cut cfg prof line :
  0 <= max_headers cfg -> 0 <= max_header_block_bytes cfg ->
  lacks CR line = true -> line <> "" -> utf8_valid line = true ->
  str_len line = max_start_line_bytes cfg -> str_len line + 2 <= max_buffer_bytes cfg ->
  let empty := new_with_profile cfg prof in
  pop_message (feed empty (line +:+ CRLF)).1 = (set_state (Headers line) empty, None)
  /\ pop_message (feed empty (line +:+ String CR "")).1
     = (empty, Some (Err (SipError_new StartLineTooLong None "start line exceeds limit"))).
Proof.
  intros Hmh Hmb Hcr Hne Hu Hlen Hbuf empty. unfold empty.
  assert (forall t, str_len (line +:+ t) = str_len line + str_len t) as Happ.
  { intros t. unfold str_len. rewrite length_app_str. lia. }
  rewrite !feed_new by (rewrite Happ; unfold str_len in *; simpl; lia).
  unfold pop_message, pop_start. cbn [state set_buffer new_with_profile buffer config parse_start_line].
  split.
  - rewrite (scan_start_found _ 0 _ (String.length line));
      [|by rewrite <-(app_nil_str CRLF); apply find_crlf_line|unfold str_len in *; lia].
    cbn [Nat.add]. rewrite str_take_app, Hu by done.
    rewrite <-(app_nil_str CRLF), str_drop_line. destruct line; [done|]. unfold pop_headers. simpl.
    unfold parse_headers. simpl. by rewrite !(proj2 (Z.ltb_ge _ _)) by lia.
  - rewrite scan_start_none.
    + rewrite (proj2 (Z.ltb_lt _ _)); [done|]. rewrite Happ. unfold str_len in *. simpl. lia.
    + apply (find_crlf_part line _ (String LF "")); [done| |done]. by rewrite <-app_assoc_str.
    + rewrite length_app_str. unfold str_len in Hlen. simpl. lia.
Qed.

(** A REGISTER with a blank line inside its header block. *)
Definition blank_head : string :=
  "REGISTER sip:10.0.0.9 SIP/2.0" +:+ CRLF +:+ "Call-ID: c1" +:+ CRLF +:+ CRLF.
Definition blank_tail : string := "Content-Length: 0" +:+ CRLF +:+ CRLF.
(** A MESSAGE with a text body. *)
Definition note_head : string :=
  "MESSAGE sip:10.0.0.9 SIP/2.0" +:+ CRLF +:+ "Content-Length: 8" +:+ CRLF +:+ CRLF.
Definition note_body : string := "Nb: x" +:+ CRLF +:+ "!".
Definition normalizing : option CompatibilityProfile := Some {|
  profile_id := None; standard_version := None; manufacturer := None; model := None; firmware := None;
  capabilities := [HeaderNormalization]; evidence_ref := None; profile_revision := 1;
  overrides := CompatibilityOverrides_default
|}.

(** With header normalization a blank line inside the header block is
    skipped only when the next line is already buffered: read in one piece the
    message is accepted, with a cut after the blank line the stream fails on the
    missing Content-Length; and a text body whose first line looks like a header
    is taken for headers when it is read together with them (the parser then
    waits for a message it already has), not when it is read later. *)
Theorem normalization_depends_on_cut :
  let p := new_with_profile SipParserConfig_default normalizing in
  snd (pop_message (feed p (blank_head +:+ blank_tail)).1)
    = Some (Ok (Request (RequestLine_new REGISTER (mkSipUri Sip None None "10.0.0.9" None []))
                  (headers_of [(HCallId, "c1"); (HContentLength, "0")]) ""))
  /\ snd (pop_message (feed p blank_head).1)
    = Some (Err (SipError_new InvalidFraming (Some 15) "Content-Length is required for stream framing"))
  /\ snd (pop_message (feed p (note_head +:+ note_body)).1) = None
  /\ snd (pop_message (feed (pop_message (feed p note_head).1).1 note_body).1)
    = Some (Ok (Request (RequestLine_new MESSAGE (mkSipUri Sip None None "10.0.0.9" None []))
                  (headers_of [(HContentLength, "8")]) note_body)).
Proof. vm_compute. split_and!; reflexivity. Qed.
(** In a datagram, which is read in one piece, such a body is always taken for headers. *)
Example normalization_refuses_datagram :
  parse_datagram_with_profile (note_head +:+ note_body) SipParserConfig_default None
    = Ok (Request (RequestLine_new MESSAGE (mkSipUri Sip None None "10.0.0.9" None []))
            (headers_of [(HContentLength, "8")]) note_body)
  /\ exists e, parse_datagram_with_profile (note_head +:+ note_body) SipParserConfig_default normalizing = Err e.
Proof. split; [vm_compute; reflexivity|]. eexists. vm_compute. reflexivity. Qed.


(** ** Witnesses *)

Definition tcp_message : SipMessage :=
  Request (RequestLine_new MESSAGE (mkSipUri Sip (Some "34020000001320000001") None "10.0.0.9" (Some 5060) []))
    (headers_of [(HCallId, "call-1@10.0.0.1"); (HCSeq, "2 MESSAGE")]) ("a" +:+ CRLF +:+ "b").
Definition tcp_ok : SipMessage :=
  Response (StatusLine_new 200 "OK") (headers_of [(HCallId, "call-1@10.0.0.1"); (HContentLength, "9")]) "".

Ltac solve_sendable :=
  repeat match goal with
  | |- _ /\ _ => split
  | |- Forall _ (sent_lines _) => vm_compute
  | |- Lt = Gt -> False => discriminate
  | |- Forall _ _ => constructor
  | |- wf_message _ => split
  | |- wf_start _ => hnf
  | |- wf_line _ => split
  | |- wf_name _ => split
  | |- wf_value _ => split
  | |- fits _ _ => split
  | |- lines_fit _ _ _ _ => split
  | |- is_u16 _ => split
  | |- _ = _ => reflexivity
  | |- _ <> _ => discriminate
  | |- _ <= _ => vm_compute; discriminate
  | |- _ < _ => reflexivity
  end.

Lemma tcp_message_ok : wf_message tcp_message /\ fits SipParserConfig_default tcp_message.
Proof.
  solve_sendable.
  split_and!; [split; [discriminate | reflexivity]| | | constructor | vm_compute; lia].
  - split_and!; [reflexivity | discriminate | left; split; reflexivity].
  - intros q [= <-]. vm_compute. split; discriminate.
Qed.

Lemma tcp_ok_ok : wf_message tcp_ok /\ fits SipParserConfig_default tcp_ok.
Proof. solve_sendable. Qed.

Definition tcp_items : list item := [KeepAlive; Sent tcp_message; KeepAlive; KeepAlive; Sent tcp_ok].
Definition tcp_chunks : list string :=
  let s := stream tcp_items in
  [str_take 1 s; str_take 30 (str_drop 1 s); str_take 90 (str_drop 31 s); str_drop 121 s].

Lemma tcp_delivery_witness :
  handle_connection (fun st m => (st ++ [m], true)) []
    (new_with_profile SipParserConfig_default None) tcp_chunks
  = Some [with_length tcp_message; with_length tcp_ok].
Proof.
  change ([with_length tcp_message; with_length tcp_ok])
    with (deliver (fun st m => (st ++ [m], true)) [] (with_length <$> messages tcp_items)).1.
  apply (tcp_delivery _ SipParserConfig_default None 1000 tcp_items tcp_chunks []).
  - vm_compute. discriminate.
  - vm_compute. discriminate.
  - reflexivity.
  - repeat apply Forall_cons_2; [reflexivity | apply tcp_message_ok | reflexivity | reflexivity
      | apply tcp_ok_ok | apply Forall_nil_2].
  - vm_compute. reflexivity.
  - lia.
  - repeat apply Forall_cons_2; [vm_compute; discriminate.. | apply Forall_nil_2].
  - repeat apply Forall_cons_2; [vm_compute; split; discriminate.. | apply Forall_nil_2].
Defined.

Lemma datagram_roundtrip_witness :
  parse_datagram_with_profile (encode_message tcp_message) SipParserConfig_default None
  = Ok (with_length tcp_message).
Proof.
  apply (datagram_roundtrip SipParserConfig_default None tcp_message);
    [vm_compute; discriminate.. | reflexivity | apply tcp_message_ok | apply tcp_message_ok
    | vm_compute; discriminate].
Defined.

Definition tight_config : SipParserConfig := {|
  max_start_line_bytes := 29; max_headers := 256; max_header_block_bytes := 65536;
  max_header_line_bytes := 4096; max_body_bytes := 2097152; max_buffer_bytes := 8388608;
  datagram_mode := false
|}.

Lemma start_line_limit_cut_witness :
  (pop_message (feed (new_with_profile tight_config None)
     ("REGISTER sip:10.0.0.9 SIP/2.0" +:+ String CR "")).1).2
  = Some (Err (SipError_new StartLineTooLong None "start line exceeds limit")).
Proof.
  destruct (start_line_limit_cut tight_config None "REGISTER sip:10.0.0.9 SIP/2.0") as [_ ->];
    [vm_compute; discriminate.. | reflexivity | discriminate | reflexivity | reflexivity
    | vm_compute; discriminate | reflexivity].
Defined.
