(* ===== verification/Sdp.v ===== *)
(** * Session descriptions

    The SDP subset of GB28181: the data ([sdp/session.rs]), the parser
    ([sdp/parser.rs]) and the encoder ([sdp/encoder.rs]).  The parser walks over
    the lines of the body; its state is the session, the media block that is
    open, and the attribute counts of the session.  [write!] to a [String] does
    not fail. *)

From S2P Require Import Prelude RustStr Domain.

Open Scope string_scope.
Open Scope list_scope.
Open Scope Z_scope.

(** ** Data *)

Inductive SdpError := SdpLimitExceeded (m : string) | SdpMalformed (m : string) | SdpUnsupported (m : string).

Record SdpOrigin := mkOrigin {
  o_username : string;
  o_sess_id : string;
  o_sess_version : string;
  o_nettype : string;
  o_addrtype : string;
  o_address : string
}.
Record SdpConnection := mkConnection { c_nettype : string; c_addrtype : string; c_address : string }.
Record SdpTime := mkTime { t_start : string; t_stop : string }.
Record RtpMap := mkRtpMap { rm_pt : string; rm_encoding : string; rm_clock : string; rm_params : option string }.
Inductive SdpSetup := SetupActive | SetupPassive | SetupActpass | SetupNone.
Inductive SdpConnectionType := ConnNew | ConnExisting.
Inductive SdpDirection := SendOnly | RecvOnly | SendRecv | Inactive.
Inductive SdpAttribute :=
| ARtpMap (r : RtpMap)
| AFmtp (pt params : string)
| ASetup (s : SdpSetup)
| AConnection (c : SdpConnectionType)
| ASsrc (id : string) (text : option string)
| AY (v : string)
| ADirection (d : SdpDirection)
| AUnknown (name : string) (value : option string).

Record SdpMedia := mkMedia {
  m_media_type : string;
  m_port : Z;
  m_port_count : Z;
  m_proto : string;
  m_formats : list string;
  m_connection : option SdpConnection;
  m_attributes : list SdpAttribute;
  m_title : option string
}.
Record SdpSession := mkSession {
  s_version : string;
  s_origin : SdpOrigin;
  s_name : string;
  s_info : option string;
  s_connection : option SdpConnection;
  s_times : list SdpTime;
  s_media : list SdpMedia;
  s_attributes : list SdpAttribute
}.

Definition rtpmap_for (pt : string) (m : SdpMedia) : option RtpMap :=
  head (omap (fun a => match a with ARtpMap r => if (rm_pt r =? pt)%string then Some r else None | _ => None end)
             (m_attributes m)).
Definition fmtp_for (pt : string) (m : SdpMedia) : list string :=
  omap (fun a => match a with AFmtp p params => if (p =? pt)%string then Some params else None | _ => None end)
       (m_attributes m).
Definition media_setup (m : SdpMedia) : option SdpSetup :=
  head (omap (fun a => match a with ASetup s => Some s | _ => None end) (m_attributes m)).
Definition connection_attr (m : SdpMedia) : option SdpConnectionType :=
  head (omap (fun a => match a with AConnection c => Some c | _ => None end) (m_attributes m)).
Definition ssrcs (m : SdpMedia) : list string :=
  omap (fun a => match a with ASsrc id _ => Some id | _ => None end) (m_attributes m).
Definition y_ssrc (m : SdpMedia) : option string :=
  head (omap (fun a => match a with AY v => Some v | _ => None end) (m_attributes m)).

(** ** The parser *)

Definition MAX_SDP_ATTR_DISPLAY_BYTES : nat := 64.

(** [s.is_char_boundary(i)]: not in front of a continuation byte. *)
Definition is_char_boundary (s : string) (i : nat) : bool :=
  match str_drop i s with
  | String a _ => negb (in_range 128 191 a)
  | EmptyString => true
  end.
Fixpoint boundary_below (s : string) (idx : nat) : nat :=
  match idx with
  | O => O
  | S i => if is_char_boundary s idx then idx else boundary_below s i
  end.
Definition truncate_at_char_boundary (s : string) (max : nat) : string :=
  if (String.length s <=? max)%nat then s else str_take (boundary_below s max) s.

Record SdpParserConfig := mkSdpConfig {
  max_lines : Z;
  max_line_len : Z;
  max_size : Z;
  max_media : Z;
  max_attributes : Z;
  max_unknown_attributes : Z
}.
Definition sdp_config_default : SdpParserConfig := mkSdpConfig 4096 4096 (512 * 1024) 64 256 64.

(** The first character of a line, the [=], and the rest. *)
Definition split_line (line : string) : result (string * string) SdpError :=
  match line with
  | EmptyString => Err (SdpMalformed "empty SDP line")
  | String a _ =>
      let kind := str_take (len_utf8 a) line in
      match str_drop (len_utf8 a) line with
      | String b value => if Ascii.eqb b "="%char then Ok (kind, value)
                          else Err (SdpMalformed ("SDP line missing '=': " +:+ line))
      | EmptyString => Err (SdpMalformed ("SDP line missing '=': " +:+ line))
      end
  end.

Definition parse_origin (value : string) : result SdpOrigin SdpError :=
  match split_whitespace value with
  | a :: b :: c :: d :: e :: f :: _ => Ok (mkOrigin a b c d e f)
  | _ => Err (SdpMalformed ("invalid o= line: " +:+ value))
  end.
Definition parse_connection (value : string) : result SdpConnection SdpError :=
  match split_whitespace value with
  | a :: b :: c :: _ => Ok (mkConnection a b c)
  | _ => Err (SdpMalformed ("invalid c= line: " +:+ value))
  end.
Definition parse_time (value : string) : result SdpTime SdpError :=
  match split_whitespace value with
  | a :: b :: _ => Ok (mkTime a b)
  | _ => Err (SdpMalformed ("invalid t= line: " +:+ value))
  end.

Definition parse_port (s : string) : result (Z * Z) SdpError :=
  match split_once "/"%char s with
  | Some (port, count) =>
      let? port := ok_or (parse_uint U16_MAX port) (SdpMalformed ("invalid port: " +:+ s)) in
      let? count := ok_or (parse_uint U16_MAX count) (SdpMalformed ("invalid port count: " +:+ s)) in
      Ok (port, count)
  | None =>
      let? port := ok_or (parse_uint U16_MAX s) (SdpMalformed ("invalid port: " +:+ s)) in
      Ok (port, 1)
  end.
Definition parse_media (value : string) : result SdpMedia SdpError :=
  match split_whitespace value with
  | media_type :: port :: proto :: ((_ :: _) as formats) =>
      let? (port, count) := parse_port port in
      Ok (mkMedia media_type port count proto formats None [] None)
  | _ => Err (SdpMalformed ("invalid m= line: " +:+ value))
  end.

Definition has_whitespace (s : string) : bool := match splitn2_ws s with (_, Some _) => true | (_, None) => false end.
Definition invalid_rtpmap_field (s : string) : bool := is_empty_str s || has_whitespace s.

(** [rest.splitn(3, '/')] as the first part and what [next] gives afterwards. *)
Definition parse_rtpmap (value : string) : result RtpMap SdpError :=
  match splitn2_ws value with
  | (_, None) => Err (SdpMalformed ("invalid rtpmap: " +:+ value))
  | (pt, Some rest) =>
      let rest := trim_start rest in
      let '(encoding, rest) := match split_once "/"%char rest with
                               | Some (encoding, rest) => (encoding, Some rest)
                               | None => (rest, None)
                               end in
      if invalid_rtpmap_field encoding
      then Err (SdpMalformed ("rtpmap missing or invalid encoding: " +:+ value))
      else
        let? rest := ok_or rest (SdpMalformed ("rtpmap missing clock rate: " +:+ value)) in
        let '(clock, params) := match split_once "/"%char rest with
                                | Some (clock, params) => (clock, Some params)
                                | None => (rest, None)
                                end in
        if invalid_rtpmap_field clock
        then Err (SdpMalformed ("rtpmap missing or invalid clock rate: " +:+ value))
        else match parse_uint U32_MAX clock with
             | None => Err (SdpMalformed ("rtpmap invalid clock rate: " +:+ clock))
             | Some _ =>
                 match params with
                 | None => Ok (mkRtpMap pt encoding clock None)
                 | Some params =>
                     if is_empty_str params then Ok (mkRtpMap pt encoding clock None)
                     else if invalid_rtpmap_field params
                     then Err (SdpMalformed ("rtpmap invalid parameters: " +:+ value))
                     else Ok (mkRtpMap pt encoding clock (Some params))
                 end
             end
  end.

Definition parse_fmtp (value : string) : string * string :=
  match splitn2_ws value with (pt, rest) => (pt, default "" rest) end.
Definition parse_ssrc (value : string) : string * option string := splitn2_ws value.

Definition parse_setup (value : string) : result SdpSetup SdpError :=
  if eq_ignore_ascii_case value "active" then Ok SetupActive
  else if eq_ignore_ascii_case value "passive" then Ok SetupPassive
  else if eq_ignore_ascii_case value "actpass" then Ok SetupActpass
  else if eq_ignore_ascii_case value "none" then Ok SetupNone
  else Err (SdpUnsupported ("setup=" +:+ truncate_at_char_boundary value MAX_SDP_ATTR_DISPLAY_BYTES)).
Definition parse_connection_attr (value : string) : result SdpConnectionType SdpError :=
  if eq_ignore_ascii_case value "new" then Ok ConnNew
  else if eq_ignore_ascii_case value "existing" then Ok ConnExisting
  else Err (SdpUnsupported ("connection=" +:+ truncate_at_char_boundary value MAX_SDP_ATTR_DISPLAY_BYTES)).

Definition direction_of (name : string) : option SdpDirection :=
  if (name =? "sendonly")%string then Some SendOnly
  else if (name =? "recvonly")%string then Some RecvOnly
  else if (name =? "sendrecv")%string then Some SendRecv
  else if (name =? "inactive")%string then Some Inactive
  else None.

Definition parse_attribute (value : string) : result SdpAttribute SdpError :=
  match split_once ":"%char value with
  | Some (name, attr_value) =>
      let name := trim name in
      let attr_value := trim attr_value in
      if (name =? "rtpmap")%string then let? r := parse_rtpmap attr_value in Ok (ARtpMap r)
      else if (name =? "fmtp")%string then let '(pt, params) := parse_fmtp attr_value in Ok (AFmtp pt params)
      else if (name =? "setup")%string then let? s := parse_setup attr_value in Ok (ASetup s)
      else if (name =? "connection")%string then let? c := parse_connection_attr attr_value in Ok (AConnection c)
      else if (name =? "ssrc")%string then let '(id, text) := parse_ssrc attr_value in Ok (ASsrc id text)
      else if (name =? "y")%string then Ok (AY attr_value)
      else match direction_of name with
           | Some d => Ok (ADirection d)
           | None => Ok (AUnknown name (if is_empty_str attr_value then None else Some attr_value))
           end
  | None =>
      match direction_of (trim value) with
      | Some d => Ok (ADirection d)
      | None => Ok (AUnknown (trim value) None)
      end
  end.

Definition is_unknown (a : SdpAttribute) : bool := match a with AUnknown _ _ => true | _ => false end.
Definition count_unknown (l : list SdpAttribute) : Z := Z.of_nat (length (List.filter is_unknown l)).

(** [session_attr_count] and [session_unknown_count] are kept beside the session. *)
Record SdpParse := mkParse {
  p_session : SdpSession;
  p_media : option SdpMedia;
  p_attr_count : Z;
  p_unknown_count : Z
}.

Definition parse_session_line (config : SdpParserConfig) (kind value : string) (p : SdpParse) : result SdpParse SdpError :=
  let s := p_session p in
  let set s := mkParse s (p_media p) (p_attr_count p) (p_unknown_count p) in
  if (kind =? "i")%string then
    Ok (set (mkSession (s_version s) (s_origin s) (s_name s) (Some value) (s_connection s) (s_times s) (s_media s) (s_attributes s)))
  else if existsb (fun k => (kind =? k)%string) ["u"; "e"; "p"; "b"; "z"; "k"; "r"] then Ok p
  else if (kind =? "c")%string then
    let? c := parse_connection value in
    Ok (set (mkSession (s_version s) (s_origin s) (s_name s) (s_info s) (Some c) (s_times s) (s_media s) (s_attributes s)))
  else if (kind =? "t")%string then
    let? t := parse_time value in
    Ok (set (mkSession (s_version s) (s_origin s) (s_name s) (s_info s) (s_connection s) (s_times s ++ [t]) (s_media s) (s_attributes s)))
  else if (kind =? "a")%string then
    let? a := parse_attribute value in
    if is_unknown a && (max_unknown_attributes config <=? p_unknown_count p)
    then Err (SdpLimitExceeded "too many unknown session attributes")
    else if max_attributes config <=? p_attr_count p then Err (SdpLimitExceeded "too many session attributes")
    else Ok (mkParse (mkSession (s_version s) (s_origin s) (s_name s) (s_info s) (s_connection s) (s_times s) (s_media s)
                        (s_attributes s ++ [a]))
               (p_media p) (p_attr_count p + 1) (p_unknown_count p + if is_unknown a then 1 else 0))
  else Err (SdpMalformed ("unexpected session-level line: " +:+ kind +:+ "=")).

Definition parse_media_line (config : SdpParserConfig) (kind value : string) (m : SdpMedia) : result SdpMedia SdpError :=
  if (kind =? "i")%string then
    Ok (mkMedia (m_media_type m) (m_port m) (m_port_count m) (m_proto m) (m_formats m) (m_connection m) (m_attributes m) (Some value))
  else if (kind =? "c")%string then
    let? c := parse_connection value in
    Ok (mkMedia (m_media_type m) (m_port m) (m_port_count m) (m_proto m) (m_formats m) (Some c) (m_attributes m) (m_title m))
  else if (kind =? "b")%string || (kind =? "k")%string then Ok m
  else if (kind =? "a")%string then
    let? a := parse_attribute value in
    if is_unknown a && (max_unknown_attributes config <=? count_unknown (m_attributes m))
    then Err (SdpLimitExceeded "too many unknown media attributes")
    else if max_attributes config <=? Z.of_nat (length (m_attributes m))
    then Err (SdpLimitExceeded "too many media attributes")
    else Ok (mkMedia (m_media_type m) (m_port m) (m_port_count m) (m_proto m) (m_formats m) (m_connection m)
               (m_attributes m ++ [a]) (m_title m))
  else Err (SdpMalformed ("unexpected media-level line: " +:+ kind +:+ "=")).

Definition push_media (m : option SdpMedia) (s : SdpSession) : SdpSession :=
  match m with
  | Some m => mkSession (s_version s) (s_origin s) (s_name s) (s_info s) (s_connection s) (s_times s) (s_media s ++ [m]) (s_attributes s)
  | None => s
  end.

(** One line of the loop. *)
Definition parse_line (config : SdpParserConfig) (line : string) (p : SdpParse) : result SdpParse SdpError :=
  if is_empty_str line then Ok p
  else
    let? (kind, value) := split_line line in
    if (kind =? "m")%string then
      if max_media config <=? Z.of_nat (length (s_media (p_session p)))
      then Err (SdpLimitExceeded ("media count exceeds " +:+ show_uint (max_media config)))
      else
        let s := push_media (p_media p) (p_session p) in
        let? m := parse_media value in
        Ok (mkParse s (Some m) (p_attr_count p) (p_unknown_count p))
    else
      match p_media p with
      | Some m =>
          let? m := parse_media_line config kind value m in
          Ok (mkParse (p_session p) (Some m) (p_attr_count p) (p_unknown_count p))
      | None => parse_session_line config kind value p
      end.
Fixpoint parse_lines (config : SdpParserConfig) (lines : list string) (p : SdpParse) : result SdpParse SdpError :=
  match lines with
  | [] => Ok p
  | line :: lines => let? p := parse_line config line p in parse_lines config lines p
  end.

(** [expect_version], [expect_origin] and [expect_name]: the line at the position
    has the expected letter. *)
Definition expect_line (letter : string) (missing : string) (lines : list string) : result (string * list string) SdpError :=
  match lines with
  | [] => Err (SdpMalformed missing)
  | line :: lines =>
      let? (kind, value) := split_line line in
      if (kind =? letter)%string then Ok (value, lines)
      else Err (SdpMalformed ("expected " +:+ letter +:+ "= line, got " +:+ kind +:+ "="))
  end.

Definition parse_body (config : SdpParserConfig) (lines : list string) : result SdpSession SdpError :=
  let? (version, lines) := expect_line "v" "expected v= line at start" lines in
  let? (value, lines) := expect_line "o" "expected o= line" lines in
  let? origin := parse_origin value in
  let? (name, lines) := expect_line "s" "expected s= line" lines in
  let? p := parse_lines config lines (mkParse (mkSession version origin name None None [] [] []) None 0 0) in
  Ok (push_media (p_media p) (p_session p)).

Definition parse_sdp (body : string) (config : SdpParserConfig) : result SdpSession SdpError :=
  if max_size config <? str_len body then
    Err (SdpLimitExceeded (String.concat "" ["SDP body size "; show_uint (str_len body); " exceeds max "; show_uint (max_size config)]))
  else if negb (utf8_valid body) then Err (SdpMalformed "SDP body is not valid UTF-8")
  else
    let lines := str_lines (crlf_to_lf body) in
    let count := Z.of_nat (length lines) in
    if max_lines config <? count then
      Err (SdpLimitExceeded (String.concat "" ["SDP line count "; show_uint count; " exceeds max "; show_uint (max_lines config)]))
    else match List.find (fun line => max_line_len config <? str_len line) lines with
         | Some line =>
             Err (SdpLimitExceeded (String.concat "" ["SDP line length "; show_uint (str_len line); " exceeds max ";
                                                      show_uint (max_line_len config)]))
         | None => parse_body config lines
         end.

(** ** The encoder *)

Definition CRLF_end : string := String CR (String LF EmptyString).

Definition validate_no_crlf (value : string) : result unit SdpError :=
  if lacks CR value && lacks LF value then Ok tt
  else Err (SdpMalformed ("SDP field contains forbidden line break: " +:+ str_debug value)).

(** The first failing check of a sequence. *)
Fixpoint validate_all (l : list string) : result unit SdpError :=
  match l with
  | [] => Ok tt
  | v :: l => let? _ := validate_no_crlf v in validate_all l
  end.
Definition of_option (o : option string) : list string := match o with Some s => [s] | None => [] end.
Definition connection_fields (o : option SdpConnection) : list string :=
  match o with Some c => [c_nettype c; c_addrtype c; c_address c] | None => [] end.

(** The texts of an attribute, of a media block and of a session in the order in
    which [validate_attribute], [validate_media] and [validate_session] check them. *)
Definition attribute_fields (a : SdpAttribute) : list string :=
  match a with
  | ARtpMap r => [rm_pt r; rm_encoding r; rm_clock r] ++ of_option (rm_params r)
  | AFmtp pt params => [pt; params]
  | ASsrc id text => id :: of_option text
  | AY v => [v]
  | AUnknown name value => name :: of_option value
  | ASetup _ | AConnection _ | ADirection _ => []
  end.
Definition media_fields (m : SdpMedia) : list string :=
  [m_media_type m; m_proto m] ++ m_formats m ++ of_option (m_title m) ++ connection_fields (m_connection m)
  ++ (m_attributes m ≫= attribute_fields).
Definition session_fields (s : SdpSession) : list string :=
  let o := s_origin s in
  [s_version s; o_username o; o_sess_id o; o_sess_version o; o_nettype o; o_addrtype o; o_address o; s_name s]
  ++ of_option (s_info s) ++ connection_fields (s_connection s) ++ (s_attributes s ≫= attribute_fields)
  ++ (s_times s ≫= fun t => [t_start t; t_stop t]) ++ (s_media s ≫= media_fields).
Definition validate_session (s : SdpSession) : result unit SdpError := validate_all (session_fields s).

Definition setup_text (s : SdpSetup) : string :=
  match s with SetupActive => "active" | SetupPassive => "passive" | SetupActpass => "actpass" | SetupNone => "none" end.
Definition connection_text (c : SdpConnectionType) : string := match c with ConnNew => "new" | ConnExisting => "existing" end.
Definition direction_text (d : SdpDirection) : string :=
  match d with SendOnly => "sendonly" | RecvOnly => "recvonly" | SendRecv => "sendrecv" | Inactive => "inactive" end.

Definition attribute_text (a : SdpAttribute) : string :=
  match a with
  | ARtpMap r =>
      match rm_params r with
      | Some params => String.concat "" ["rtpmap:"; rm_pt r; " "; rm_encoding r; "/"; rm_clock r; "/"; params]
      | None => String.concat "" ["rtpmap:"; rm_pt r; " "; rm_encoding r; "/"; rm_clock r]
      end
  | AFmtp pt params => String.concat "" ["fmtp:"; pt; " "; params]
  | ASetup s => "setup:" +:+ setup_text s
  | AConnection c => "connection:" +:+ connection_text c
  | ASsrc id (Some text) => String.concat "" ["ssrc:"; id; " "; text]
  | ASsrc id None => "ssrc:" +:+ id
  | AY v => "y:" +:+ v
  | ADirection d => direction_text d
  | AUnknown name (Some value) => String.concat "" [name; ":"; value]
  | AUnknown name None => name
  end.
Definition connection_line (c : SdpConnection) : string := String.concat " " [c_nettype c; c_addrtype c; c_address c].
Definition port_text (m : SdpMedia) : string :=
  if 1 <? m_port_count m then show_uint (m_port m) +:+ "/" +:+ show_uint (m_port_count m) else show_uint (m_port m).

Definition write_line (kind text : string) : string := kind +:+ "=" +:+ text +:+ CRLF_end.
Definition write_opt {A} (kind : string) (text : A -> string) (o : option A) : string :=
  match o with Some a => write_line kind (text a) | None => "" end.

Definition write_attribute (a : SdpAttribute) : string := write_line "a" (attribute_text a).
Definition write_media (m : SdpMedia) : string :=
  write_line "m" (String.concat " " ([m_media_type m; port_text m; m_proto m] ++ m_formats m))
  +:+ write_opt "i" id (m_title m) +:+ write_opt "c" connection_line (m_connection m)
  +:+ String.concat "" (map write_attribute (m_attributes m)).
Definition origin_line (o : SdpOrigin) : string :=
  String.concat " " [o_username o; o_sess_id o; o_sess_version o; o_nettype o; o_addrtype o; o_address o].
Definition write_session (s : SdpSession) : string :=
  write_line "v" (s_version s) +:+ write_line "o" (origin_line (s_origin s)) +:+ write_line "s" (s_name s)
  +:+ write_opt "i" id (s_info s) +:+ write_opt "c" connection_line (s_connection s).

Definition encode_sdp (s : SdpSession) : result string SdpError :=
  let? _ := validate_session s in
  Ok (write_session s
      +:+ String.concat "" (map (fun t => write_line "t" (t_start t +:+ " " +:+ t_stop t)) (s_times s))
      +:+ String.concat "" (map write_attribute (s_attributes s))
      +:+ String.concat "" (map write_media (s_media s))).

(** The body of the test [parses_minimal_gb28181_sdp]. *)
Definition minimal_body : string :=
  String.concat CRLF_end ["v=0"; "o=- 0 0 IN IP4 0.0.0.0"; "s=Play"; "c=IN IP4 192.168.1.100"; "t=0 0";
    "m=video 5000 TCP/RTP/AVP 96 98"; "a=setup:passive"; "a=connection:new"; "a=rtpmap:96 PS/90000";
    "a=rtpmap:98 H264/90000"; "a=y:0200000000"].
Example parses_minimal_gb28181_sdp :
  match parse_sdp minimal_body sdp_config_default with
  | Ok s => map (fun m => (m_port m, m_formats m, media_setup m, y_ssrc m, rtpmap_for "96" m)) (s_media s)
            = [(5000, ["96"; "98"], Some SetupPassive, Some "0200000000", Some (mkRtpMap "96" "PS" "90000" None))]
  | Err _ => False
  end.
Proof. vm_compute. reflexivity. Qed.
