(* ===== verification/SdpProps.v ===== *)
(** * Theorems on session descriptions

    The parser gives back what the encoder wrote, and what it accepts stays
    within the limits of its configuration. *)

From S2P Require Import Prelude RustStr Domain Sdp.

Open Scope string_scope.
Open Scope list_scope.
Open Scope Z_scope.

(** ** Texts *)

(** A word: not empty, visible ASCII. *)
Definition word (s : string) : bool := negb (is_empty_str s) && str_all solid s.
(** Text that fits in a line. *)
Definition line_ok (s : string) : bool := lacks CR s && lacks LF s && utf8_valid s.
(** Text in a line that starts and ends with a visible ASCII character. *)
Fixpoint last_solid (s : string) : bool :=
  match s with
  | EmptyString => false
  | String a EmptyString => solid a
  | String _ s => last_solid s
  end.
Definition neat (s : string) : bool :=
  match s with EmptyString => false | String a _ => solid a end && last_solid s && line_ok s.

Lemma last_solid_spec s : last_solid s = true -> exists h z, s = h +:+ String z "" /\ solid z = true.
Proof.
  induction s as [|a s IH]; [done|]. destruct s as [|b s].
  - intros Ha. by exists "", a.
  - intros Hl. destruct (IH Hl) as (h & z & Hs & Hz). exists (String a h), z. rewrite Hs. done.
Qed.
Lemma neat_trimmed s : neat s = true -> trimmed s.
Proof.
  unfold neat. rewrite !andb_true_iff. intros [[Ha Hl] _]. split; [|by apply last_solid_spec].
  destruct s as [|a s]; [done|]. by exists a, s.
Qed.
Lemma neat_line s : neat s = true -> line_ok s = true.
Proof. unfold neat. rewrite !andb_true_iff. tauto. Qed.
Lemma word_solid s : word s = true -> str_all solid s = true.
Proof. unfold word. rewrite andb_true_iff. tauto. Qed.
Lemma word_nonempty s : word s = true -> s <> "".
Proof. by destruct s. Qed.
Lemma word_line s : word s = true -> line_ok s = true.
Proof.
  intros Hs%word_solid. unfold line_ok. rewrite !(solid_lacks _ s) by done. simpl. by apply solid_utf8.
Qed.
Lemma word_trimmed s : word s = true -> trimmed s.
Proof. intros Hs. apply trimmed_solid; [by apply word_nonempty|by apply word_solid]. Qed.

Lemma line_ok_app s t : line_ok s = true -> line_ok t = true -> line_ok (s +:+ t) = true.
Proof.
  unfold line_ok, lacks. rewrite !andb_true_iff, !str_all_app, !andb_true_iff. intros [[? ?] ?] [[? ?] ?].
  rewrite utf8_valid_app by done. tauto.
Qed.
Lemma line_ok_concat sep l : line_ok sep = true -> forallb line_ok l = true -> line_ok (String.concat sep l) = true.
Proof.
  intros Hsep. induction l as [|s l IH]; [done|]. simpl. rewrite andb_true_iff. intros [Hs Hl].
  destruct l; [done|]. by auto using line_ok_app.
Qed.
Lemma show_uint_word n : 0 <= n -> word (show_uint n) = true.
Proof.
  intros Hn. unfold word. rewrite show_uint_solid by done. destruct (show_uint_digits n Hn) as [_ Hne].
  by destruct (show_uint n).
Qed.
Create HintDb sdp.
#[export] Hint Resolve line_ok_app word_line neat_line word_solid word_nonempty word_trimmed neat_trimmed show_uint_word : sdp.

(** ** Lines *)

(** The text with a line break after each line. *)
Fixpoint join_lines (l : list string) : string :=
  match l with [] => "" | s :: l => s +:+ CRLF_end +:+ join_lines l end.
Fixpoint join_lf (l : list string) : string :=
  match l with [] => "" | s :: l => s +:+ String LF (join_lf l) end.

Lemma join_lines_app l k : join_lines (l ++ k) = join_lines l +:+ join_lines k.
Proof. induction l as [|s l IH]; simpl; [done|]. by rewrite IH, <-!app_assoc_str. Qed.
Lemma crlf_to_lf_line s t : lacks CR s = true -> crlf_to_lf (s +:+ CRLF_end +:+ t) = s +:+ String LF (crlf_to_lf t).
Proof.
  induction s as [|a s IH]; [done|]. unfold lacks. simpl str_all. rewrite andb_true_iff, negb_true_iff. intros [Ha Hs].
  specialize (IH Hs). change (String a s +:+ CRLF_end +:+ t) with (String a (s +:+ CRLF_end +:+ t)).
  destruct (s +:+ CRLF_end +:+ t) as [|b u] eqn:He; [by destruct s|]. cbn [crlf_to_lf]. rewrite Ha. cbn [andb].
  cbn [crlf_to_lf] in IH. rewrite IH. done.
Qed.
Lemma crlf_to_lf_join l : forallb line_ok l = true -> crlf_to_lf (join_lines l) = join_lf l.
Proof.
  induction l as [|s l IH]; [done|]. cbn [join_lines join_lf forallb]. rewrite andb_true_iff. intros [Hs Hl]. rewrite crlf_to_lf_line.
  - by rewrite IH.
  - unfold line_ok in Hs. rewrite !andb_true_iff in Hs. tauto.
Qed.
Lemma strip_cr_lacks s : lacks CR s = true -> strip_cr s = s.
Proof.
  induction s as [|a s IH]; [done|]. unfold lacks. simpl str_all. rewrite andb_true_iff, negb_true_iff. intros [Ha Hs].
  specialize (IH Hs). destruct s as [|b s]; simpl; [by rewrite Ha|]. f_equal. exact IH.
Qed.
Lemma str_lines_join l : forallb line_ok l = true -> str_lines (crlf_to_lf (join_lines l)) = l.
Proof.
  intros Hl. rewrite crlf_to_lf_join by done. unfold str_lines. induction l as [|s l IH]; [done|]. cbn [join_lf forallb] in *.
  apply andb_true_iff in Hl as [Hs Hl]. specialize (IH Hl). unfold line_ok in Hs. rewrite !andb_true_iff in Hs.
  rewrite split_app by tauto. destruct (split LF (join_lf l)) as [|p ps] eqn:Hp.
  { exfalso. by destruct (join_lf l) as [|a u]; simpl in Hp; [|destruct (Ascii.eqb a LF), (split LF u)]. }
  cbn [lines_of] in *. rewrite strip_cr_lacks by tauto. by rewrite IH.
Qed.
Lemma utf8_join l : forallb line_ok l = true -> utf8_valid (join_lines l) = true.
Proof.
  induction l as [|s l IH]; [done|]. cbn [join_lines forallb]. unfold line_ok at 1. rewrite !andb_true_iff. intros [[_ Hs] Hl].
  rewrite !utf8_valid_app by done. auto.
Qed.

(** ** Words *)

Lemma splitn2_ws_solid s : str_all solid s = true -> splitn2_ws s = (s, None).
Proof.
  induction s as [|a s IH]; [done|]. simpl str_all. intros [Ha Hs]%andb_true_iff. specialize (IH Hs).
  cbn [splitn2_ws]. rewrite IH, (solid_ws1 a Ha). destruct s as [|b [|c u]]; [done| |];
    rewrite ?solid_ws2, ?solid_ws3 by done; done.
Qed.
Lemma concat_cons sep s t l : String.concat sep (s :: t :: l) = s +:+ sep +:+ String.concat sep (t :: l).
Proof. done. Qed.
Lemma ws_pieces_words l fuel :
  forallb word l = true -> (length l <= fuel)%nat -> l <> [] -> ws_pieces fuel (String.concat " " l) = l.
Proof.
  revert fuel. induction l as [|w l IH]; intros fuel Hw Hf Hne; [done|]. simpl in Hw. apply andb_true_iff in Hw as [Hw Hl].
  destruct fuel as [|fuel]; [simpl in Hf; lia|]. destruct l as [|v l].
  - simpl. by rewrite splitn2_ws_solid by auto with sdp.
  - rewrite concat_cons. cbn [ws_pieces].
    change (w +:+ " " +:+ String.concat " " (v :: l)) with (w +:+ String " " (String.concat " " (v :: l))).
    rewrite splitn2_ws_app by auto with sdp. rewrite IH; [done|done|simpl in *; lia|done].
Qed.
Lemma words_short l : forallb word l = true -> (length l <= S (String.length (String.concat " " l)))%nat.
Proof.
  induction l as [|w l IH]; [simpl; lia|]. simpl forallb. intros [Hw Hl]%andb_true_iff. specialize (IH Hl).
  destruct l as [|v l]; [simpl; lia|]. rewrite concat_cons, !length_app_str. simpl length in *. simpl (String.length " "). lia.
Qed.
Lemma split_words l : forallb word l = true -> l <> [] -> split_whitespace (String.concat " " l) = l.
Proof.
  intros Hl Hne. unfold split_whitespace. rewrite ws_pieces_words by auto using words_short.
  clear Hne. induction l as [|w l IH]; [done|]. simpl in *. apply andb_true_iff in Hl as [Hw Hl].
  destruct w as [|a w]; [done|]. simpl. by rewrite IH.
Qed.

(** ** Canonical descriptions *)

Definition opt_ok {A} (p : A -> bool) (o : option A) : bool := match o with Some a => p a | None => true end.
Definition reserved (name : string) : bool :=
  existsb (fun k => (name =? k)%string) ["rtpmap"; "fmtp"; "setup"; "connection"; "ssrc"; "y"].

Definition wf_attribute (a : SdpAttribute) : bool :=
  match a with
  | ARtpMap r =>
      word (rm_pt r) && word (rm_encoding r) && lacks "/" (rm_encoding r) && word (rm_clock r) && lacks "/" (rm_clock r)
      && bool_decide (is_Some (parse_uint U32_MAX (rm_clock r))) && opt_ok word (rm_params r)
  | AFmtp pt params => word pt && (is_empty_str params || neat params)
  | ASsrc id text => word id && opt_ok neat text
  | AY v => is_empty_str v || neat v
  | AUnknown name value =>
      (is_empty_str name || neat name) && lacks ":" name && bool_decide (direction_of name = None)
      && match value with Some v => neat v && negb (reserved name) | None => true end
  | ASetup _ | AConnection _ | ADirection _ => true
  end.
Definition wf_connection (c : SdpConnection) : bool := word (c_nettype c) && word (c_addrtype c) && word (c_address c).
Definition wf_attributes (config : SdpParserConfig) (l : list SdpAttribute) : bool :=
  forallb wf_attribute l && (Z.of_nat (length l) <=? max_attributes config) && (count_unknown l <=? max_unknown_attributes config).
Definition wf_media (config : SdpParserConfig) (m : SdpMedia) : bool :=
  word (m_media_type m) && (0 <=? m_port m) && (m_port m <=? U16_MAX) && (1 <=? m_port_count m) && (m_port_count m <=? U16_MAX)
  && word (m_proto m) && negb (bool_decide (m_formats m = [])) && forallb word (m_formats m)
  && opt_ok wf_connection (m_connection m) && opt_ok line_ok (m_title m) && wf_attributes config (m_attributes m).
(** A description in normal form, within the limits of the parser. *)
Definition wf_session (config : SdpParserConfig) (s : SdpSession) : bool :=
  let o := s_origin s in
  line_ok (s_version s)
  && forallb word [o_username o; o_sess_id o; o_sess_version o; o_nettype o; o_addrtype o; o_address o]
  && line_ok (s_name s) && opt_ok line_ok (s_info s) && opt_ok wf_connection (s_connection s)
  && forallb (fun t => word (t_start t) && word (t_stop t)) (s_times s)
  && forallb (wf_media config) (s_media s) && (Z.of_nat (length (s_media s)) <=? max_media config)
  && wf_attributes config (s_attributes s).

(** ** Attributes *)

Lemma trim_neat s : is_empty_str s || neat s = true -> trim s = s.
Proof. intros [Hs|Hs]%orb_true_iff; [by destruct s|]. auto using trim_trimmed, neat_trimmed. Qed.

Lemma trim_start_trimmed s : trimmed s -> trim_start s = s.
Proof.
  intros [(a & t & -> & Ha) _]. unfold trim_start. by rewrite trim_gen_solid by auto using solid_ws2, solid_ws3.
Qed.
Lemma field_word s : word s = true -> invalid_rtpmap_field s = false.
Proof.
  intros Hw. unfold invalid_rtpmap_field, has_whitespace. rewrite splitn2_ws_solid by auto with sdp. by destruct s.
Qed.

(** The part after the payload type. *)
Definition rtpmap_tail (r : RtpMap) : string :=
  rm_clock r +:+ match rm_params r with Some p => "/" +:+ p | None => "" end.
Definition rtpmap_body (r : RtpMap) : string := rm_pt r +:+ " " +:+ rm_encoding r +:+ "/" +:+ rtpmap_tail r.
Lemma rtpmap_text r : attribute_text (ARtpMap r) = "rtpmap:" +:+ rtpmap_body r.
Proof.
  unfold rtpmap_body, rtpmap_tail. simpl. destruct (rm_params r); simpl; by rewrite ?app_nil_str.
Qed.
Lemma rtpmap_trimmed r :
  wf_attribute (ARtpMap r) = true -> trimmed (rtpmap_body r) /\ trimmed (rm_encoding r +:+ "/" +:+ rtpmap_tail r).
Proof.
  simpl. rewrite !andb_true_iff. intros ((((((Hpt & He) & _) & Hc) & _) & _) & Hp).
  assert (trimmed (rtpmap_tail r)) as Ht.
  { unfold rtpmap_tail. destruct (rm_params r); simpl in Hp; [|rewrite app_nil_str; auto with sdp].
    apply trimmed_app; auto with sdp. }
  assert (trimmed (rm_encoding r +:+ "/" +:+ rtpmap_tail r)) as Hr by (apply trimmed_app; auto with sdp).
  split; [|done]. unfold rtpmap_body. apply trimmed_app; auto with sdp.
Qed.
Lemma parse_rtpmap_body r : wf_attribute (ARtpMap r) = true -> parse_rtpmap (rtpmap_body r) = Ok r.
Proof.
  intros Hwf. destruct (rtpmap_trimmed r Hwf) as [_ Htr]. simpl in Hwf. rewrite !andb_true_iff in Hwf.
  destruct Hwf as ((((((Hpt & He) & Hel) & Hc) & Hcl) & Hclk) & Hp). apply bool_decide_eq_true in Hclk as [n Hclk].
  unfold parse_rtpmap, rtpmap_body.
  change (" " +:+ rm_encoding r +:+ "/" +:+ rtpmap_tail r) with (String " " (rm_encoding r +:+ "/" +:+ rtpmap_tail r)).
  rewrite splitn2_ws_app by auto with sdp. rewrite trim_start_trimmed by done.
  change ("/" +:+ rtpmap_tail r) with (String "/" (rtpmap_tail r)). rewrite split_once_app by done.
  rewrite field_word by done. cbn [ok_or]. unfold rtpmap_tail. destruct r as [pt enc clock params]. simpl in *.
  destruct params as [params|]; simpl in *.
  - rewrite split_once_app by done. rewrite !field_word, Hclk by done. by destruct params.
  - rewrite app_nil_str, split_once_lacks by done. by rewrite field_word, Hclk by done.
Qed.

Lemma space_trim_end s : word s = true -> trim (s +:+ " ") = s.
Proof.
  intros Hw. destruct (word_trimmed s Hw) as [(a & t & Hs & Ha) (h & z & Hs' & Hz)]. unfold trim, trim_start.
  rewrite Hs at 1. change (String a t +:+ " ") with (String a (t +:+ " ")). rewrite trim_gen_solid by auto using solid_ws2, solid_ws3.
  change (String a (t +:+ " ")) with (String a t +:+ " "). rewrite <-Hs. unfold trim_end. rewrite str_rev_app.
  change (str_rev " " +:+ str_rev s) with (String " " (str_rev s)).
  assert (trim_gen (fun a b => ws2 b a) (fun a b c => ws3 c b a) (String " " (str_rev s)) =
          trim_gen (fun a b => ws2 b a) (fun a b c => ws3 c b a) (str_rev s)) as -> by (by destruct (str_rev s) as [|? [|? ?]]).
  pose proof (trim_trimmed s (word_trimmed s Hw)) as Ht. unfold trim, trim_start, trim_end in Ht.
  rewrite Hs in Ht at 1. rewrite trim_gen_solid in Ht by auto using solid_ws2, solid_ws3. by rewrite <-Hs in Ht.
Qed.

Lemma reserved_false name : reserved name = false ->
  (name =? "rtpmap")%string = false /\ (name =? "fmtp")%string = false /\ (name =? "setup")%string = false
  /\ (name =? "connection")%string = false /\ (name =? "ssrc")%string = false /\ (name =? "y")%string = false.
Proof. unfold reserved. simpl. rewrite !orb_false_iff. tauto. Qed.

Lemma parse_attribute_text a : wf_attribute a = true -> parse_attribute (attribute_text a) = Ok a.
Proof.
  intros Hwf. destruct a as [r|pt params|s|c|id text|v|d|name value].
  - rewrite rtpmap_text. destruct (rtpmap_trimmed r Hwf) as [Ht _]. unfold parse_attribute.
    change ("rtpmap:" +:+ rtpmap_body r) with ("rtpmap" +:+ String ":" (rtpmap_body r)). rewrite split_once_app by done.
    rewrite (trim_trimmed (rtpmap_body r)) by done. simpl. by rewrite parse_rtpmap_body.
  - simpl in Hwf. apply andb_true_iff in Hwf as [Hpt Hp]. unfold parse_attribute.
    change (attribute_text (AFmtp pt params)) with ("fmtp" +:+ String ":" (pt +:+ " " +:+ params)).
    rewrite split_once_app by done. simpl. unfold parse_fmtp. apply orb_true_iff in Hp as [Hp|Hp].
    + destruct params; [|done]. rewrite space_trim_end, splitn2_ws_solid by auto with sdp. done.
    + rewrite trim_trimmed by (change (String " " params) with (" " +:+ params); apply trimmed_app; auto with sdp).
      by rewrite splitn2_ws_app by auto with sdp.
  - by destruct s.
  - by destruct c.
  - simpl in Hwf. apply andb_true_iff in Hwf as [Hid Ht]. unfold parse_attribute. destruct text as [text|]; simpl in Ht.
    + change (attribute_text (ASsrc id (Some text))) with ("ssrc" +:+ String ":" (id +:+ " " +:+ text)).
      rewrite split_once_app by done. simpl. unfold parse_ssrc.
      rewrite trim_trimmed by (change (String " " text) with (" " +:+ text); apply trimmed_app; auto with sdp).
      by rewrite splitn2_ws_app by auto with sdp.
    + change (attribute_text (ASsrc id None)) with ("ssrc" +:+ String ":" id). rewrite split_once_app by done. simpl.
      unfold parse_ssrc. by rewrite trim_trimmed, splitn2_ws_solid by auto with sdp.
  - simpl in Hwf. unfold parse_attribute. change (attribute_text (AY v)) with ("y" +:+ String ":" v).
    rewrite split_once_app by done. simpl. by rewrite trim_neat.
  - by destruct d.
  - simpl in Hwf. rewrite !andb_true_iff in Hwf. destruct Hwf as [[[Hn Hl] Hd] Hv]. apply bool_decide_eq_true in Hd.
    unfold parse_attribute. destruct value as [v|]; simpl attribute_text.
    + apply andb_true_iff in Hv as [Hv Hr].
      rewrite split_once_app by done. rewrite (trim_neat name), (trim_neat v) by (rewrite ?Hv, ?orb_true_r; done).
      apply negb_true_iff, reserved_false in Hr as (-> & -> & -> & -> & -> & ->). rewrite Hd. by destruct v.
    + rewrite split_once_lacks by done. by rewrite trim_neat, Hd.
Qed.

(** ** The lines of a description *)

Definition attribute_line (a : SdpAttribute) : string := "a=" +:+ attribute_text a.
Definition opt_line {A} (kind : string) (text : A -> string) (o : option A) : list string :=
  match o with Some a => [kind +:+ "=" +:+ text a] | None => [] end.
Definition media_head (m : SdpMedia) : string := String.concat " " ([m_media_type m; port_text m; m_proto m] ++ m_formats m).
Definition media_lines (m : SdpMedia) : list string :=
  ("m=" +:+ media_head m) :: opt_line "i" id (m_title m) ++ opt_line "c" connection_line (m_connection m)
  ++ map attribute_line (m_attributes m).
Definition time_line (t : SdpTime) : string := "t=" +:+ t_start t +:+ " " +:+ t_stop t.
Definition session_lines (s : SdpSession) : list string :=
  ["v=" +:+ s_version s; "o=" +:+ origin_line (s_origin s); "s=" +:+ s_name s]
  ++ opt_line "i" id (s_info s) ++ opt_line "c" connection_line (s_connection s) ++ map time_line (s_times s)
  ++ map attribute_line (s_attributes s) ++ (s_media s ≫= media_lines).

Lemma concat_join {A} (f : A -> string) (g : A -> list string) l :
  (forall a, f a = join_lines (g a)) -> String.concat "" (map f l) = join_lines (l ≫= g).
Proof.
  intros Hfg. induction l as [|a l IH]; [done|]. cbn [map mbind list_bind]. rewrite join_lines_app, <-Hfg.
  change (list_bind _ _ g l) with (l ≫= g). rewrite <-IH. destruct l; simpl; [by rewrite app_nil_str|done].
Qed.
Lemma write_opt_join {A} kind (text : A -> string) o : write_opt kind text o = join_lines (opt_line kind text o).
Proof. destruct o; simpl; [|done]. unfold write_line. by rewrite <-!app_assoc_str. Qed.
Lemma write_attribute_join a : write_attribute a = join_lines [attribute_line a].
Proof. done. Qed.
Lemma bind_singleton {A} (f : A -> string) l : l ≫= (fun a => [f a]) = map f l.
Proof. induction l as [|a l IH]; [done|]. simpl. by rewrite <-IH. Qed.
Lemma write_media_join m : write_media m = join_lines (media_lines m).
Proof.
  unfold write_media, media_lines. rewrite (concat_join _ (fun a => [attribute_line a]) _ write_attribute_join), bind_singleton.
  rewrite !write_opt_join. cbn [join_lines]. rewrite !join_lines_app. unfold write_line. fold (media_head m).
  by rewrite <-!app_assoc_str.
Qed.

Lemma encode_lines s out : encode_sdp s = Ok out -> out = join_lines (session_lines s).
Proof.
  unfold encode_sdp. destruct (validate_session s); [|done]. intros [= <-]. unfold session_lines, write_session.
  rewrite (concat_join _ (fun a => [attribute_line a]) _ write_attribute_join).
  rewrite (concat_join _ (fun t => [time_line t])) by done. rewrite (concat_join _ _ _ write_media_join).
  rewrite !bind_singleton, !write_opt_join, !join_lines_app. unfold write_line. cbn [join_lines].
  do 4 (simpl; rewrite <-?app_assoc_str). done.
Qed.

(** Every line is well formed, and every field passes the check of the encoder. *)
Lemma forallb_bind {A B} (p : B -> bool) (f : A -> list B) l :
  (forall a, a ∈ l -> forallb p (f a) = true) -> forallb p (l ≫= f) = true.
Proof.
  induction l as [|a l IH]; [done|]. intros Hf. cbn [mbind list_bind]. rewrite forallb_app, andb_true_iff.
  split; [apply Hf; by left|]. apply IH. intros b Hb. apply Hf. by right.
Qed.
Lemma attribute_fields_ok a : wf_attribute a = true -> forallb line_ok (attribute_fields a) = true.
Proof.
  destruct a as [r|pt params|s|c|id text|v|d|name value]; simpl; try done; rewrite ?andb_true_iff.
  - intros ((((((? & ?) & _) & ?) & _) & _) & Hp). destruct (rm_params r); simpl in *; rewrite !word_line by done; done.
  - intros [? Hp]. rewrite word_line by done. apply orb_true_iff in Hp as [Hp|Hp]; [by destruct params|]. by rewrite neat_line.
  - intros [? Hp]. rewrite word_line by done. destruct text; simpl in *; [|done]. by rewrite neat_line.
  - intros [Hp|Hp]%orb_true_iff; [by destruct v|]. by rewrite neat_line.
  - intros [[[Hn _] _] Hv]. assert (line_ok name = true) as ->.
    { apply orb_true_iff in Hn as [Hn|Hn]; [by destruct name|auto with sdp]. }
    destruct value; simpl; [|done]. apply andb_true_iff in Hv as [? _]. by rewrite neat_line.
Qed.
Lemma attribute_text_ok a : forallb line_ok (attribute_fields a) = true -> line_ok (attribute_text a) = true.
Proof.
  destruct a as [[pt enc clock [params|]]|pt params|[]|[]|id [text|]|v|[]|name [value|]]; simpl; try done;
    rewrite ?andb_true_iff; intros; destruct_and?.
  all: repeat first [done | match goal with
    | |- line_ok (String ?a ?s) = true => change (String a s) with (String a "" +:+ s)
    | |- line_ok (_ +:+ _) = true => apply line_ok_app end].
Qed.

Lemma validate_ok l : forallb line_ok l = true -> validate_all l = Ok tt.
Proof.
  induction l as [|s l IH]; [done|]. simpl. rewrite andb_true_iff. intros [Hs Hl]. unfold validate_no_crlf.
  unfold line_ok in Hs. rewrite !andb_true_iff in Hs. destruct Hs as [[-> ->] _]. simpl. auto.
Qed.
Lemma forallb_impl {A} (p q : A -> bool) l :
  (forall a, p a = true -> q a = true) -> forallb p l = true -> forallb q l = true.
Proof. intros Hpq. rewrite !forallb_forall. auto. Qed.
Lemma connection_ok o : opt_ok wf_connection o = true -> forallb line_ok (connection_fields o) = true.
Proof. destruct o as [c|]; [|done]. unfold wf_connection. simpl. rewrite !andb_true_iff. intros [[? ?] ?]. by rewrite !word_line. Qed.
Lemma option_fields_ok p o : (forall s, p s = true -> line_ok s = true) -> opt_ok p o = true -> forallb line_ok (of_option o) = true.
Proof. destruct o; simpl; [|done]. intros Hp Hs. by rewrite Hp. Qed.
Lemma attributes_ok config l : wf_attributes config l = true -> forallb line_ok (l ≫= attribute_fields) = true.
Proof.
  unfold wf_attributes. rewrite !andb_true_iff. intros [[Hl _] _]. apply forallb_bind. intros a Ha.
  apply attribute_fields_ok. rewrite forallb_forall in Hl. by apply Hl, list_elem_of_In.
Qed.
Lemma media_fields_ok config m : wf_media config m = true -> forallb line_ok (media_fields m) = true.
Proof.
  unfold wf_media, media_fields. rewrite !andb_true_iff. intros H. destruct_and? H. rewrite !forallb_app. simpl.
  rewrite !word_line, (forallb_impl word line_ok), connection_ok, (option_fields_ok line_ok) by auto using word_line.
  by erewrite attributes_ok.
Qed.
Lemma forallb_elem {A} (p : A -> bool) l a : forallb p l = true -> a ∈ l -> p a = true.
Proof. rewrite forallb_forall. intros Hl Ha. by apply Hl, list_elem_of_In. Qed.
Lemma times_ok l :
  forallb (fun t => word (t_start t) && word (t_stop t)) l = true -> forallb line_ok (l ≫= fun t => [t_start t; t_stop t]) = true.
Proof.
  intros Hl. apply forallb_bind. intros t Ht. pose proof (forallb_elem _ _ _ Hl Ht) as Hw. simpl in Hw.
  apply andb_true_iff in Hw as [? ?]. simpl. by rewrite !word_line.
Qed.
Lemma session_fields_ok config s : wf_session config s = true -> forallb line_ok (session_fields s) = true.
Proof.
  unfold wf_session, session_fields. cbn [forallb]. rewrite !andb_true_iff. intros H. destruct_and? H.
  rewrite !forallb_app. cbn [forallb]. rewrite !andb_true_iff.
  assert (forallb line_ok (s_media s ≫= media_fields) = true).
  { apply forallb_bind. intros m Hm. apply (media_fields_ok config). by eapply forallb_elem. }
  split_and!; eauto using connection_ok, attributes_ok, times_ok, option_fields_ok with sdp.
Qed.
Lemma encode_ok config s : wf_session config s = true -> exists out, encode_sdp s = Ok out.
Proof.
  intros Hs. unfold encode_sdp, validate_session. rewrite validate_ok by (by eapply session_fields_ok). by eexists.
Qed.

(** The lines are well formed too. *)
Lemma opt_line_ok {A} kind (text : A -> string) o :
  line_ok (kind +:+ "=") = true -> (forall a, o = Some a -> line_ok (text a) = true) -> forallb line_ok (opt_line kind text o) = true.
Proof.
  intros Hk Ht. destruct o as [a|]; [|done]. cbn [opt_line forallb].
  change (kind +:+ "=" +:+ text a) with (kind +:+ ("=" +:+ text a)). rewrite app_assoc_str, line_ok_app by auto. done.
Qed.
Lemma attribute_lines_ok config l : wf_attributes config l = true -> forallb line_ok (map attribute_line l) = true.
Proof.
  unfold wf_attributes. rewrite !andb_true_iff. intros [[Hl _] _]. apply forallb_forall. intros x [a [<- Ha]]%in_map_iff.
  rewrite forallb_forall in Hl. apply line_ok_app; [done|]. by apply attribute_text_ok, attribute_fields_ok, Hl.
Qed.
Lemma connection_line_ok c : wf_connection c = true -> line_ok (connection_line c) = true.
Proof. unfold wf_connection. rewrite !andb_true_iff. intros [[? ?] ?]. apply line_ok_concat; [done|]. simpl. by rewrite !word_line. Qed.

Lemma slash_word a b : word a = true -> word b = true -> word (a +:+ "/" +:+ b) = true.
Proof.
  unfold word. rewrite !andb_true_iff. intros [Ha ?] [_ ?]. split; [by destruct a|]. rewrite !str_all_app, !andb_true_iff. done.
Qed.
Lemma port_word config m : wf_media config m = true -> word (port_text m) = true.
Proof.
  unfold wf_media, port_text. rewrite !andb_true_iff. intros H. destruct_and? H.
  destruct (1 <? m_port_count m); auto using slash_word, show_uint_word with lia.
Qed.
Lemma media_head_words config m :
  wf_media config m = true -> forallb word ([m_media_type m; port_text m; m_proto m] ++ m_formats m) = true.
Proof.
  intros Hm. pose proof (port_word config m Hm) as Hp. unfold wf_media in Hm. rewrite !andb_true_iff in Hm. destruct_and? Hm.
  simpl. rewrite Hp. by rewrite !andb_true_iff.
Qed.
Lemma media_lines_ok config m : wf_media config m = true -> forallb line_ok (media_lines m) = true.
Proof.
  intros Hm. pose proof (media_head_words config m Hm) as Hw. unfold wf_media in Hm. rewrite !andb_true_iff in Hm.
  destruct_and? Hm. unfold media_lines. cbn [forallb]. rewrite !forallb_app, !andb_true_iff. split_and!.
  - apply line_ok_app; [done|]. apply line_ok_concat; [done|]. eapply forallb_impl; [apply word_line|done].
  - apply opt_line_ok; [done|]. intros a Ha. rewrite Ha in *. done.
  - apply opt_line_ok; [done|]. intros a Ha. rewrite Ha in *. by apply connection_line_ok.
  - by eapply attribute_lines_ok.
Qed.
Lemma session_lines_ok config s : wf_session config s = true -> forallb line_ok (session_lines s) = true.
Proof.
  unfold wf_session, session_lines. rewrite !andb_true_iff. intros H. destruct_and? H.
  rewrite !forallb_app. cbn [forallb]. rewrite !andb_true_iff. split_and!; try done.
  - apply line_ok_app; [done|]. apply line_ok_concat; [done|]. eapply forallb_impl; [apply word_line|done].
  - apply opt_line_ok; [done|]. intros a Ha. rewrite Ha in *. done.
  - apply opt_line_ok; [done|]. intros a Ha. rewrite Ha in *. by apply connection_line_ok.
  - apply forallb_forall. intros x [t [<- Ht]]%in_map_iff. unfold time_line.
    match goal with Hall : forallb (fun t : SdpTime => _) _ = true |- _ => rewrite forallb_forall in Hall; apply Hall in Ht end.
    apply andb_true_iff in Ht as [? ?].
    repeat apply line_ok_app; auto with sdp.
  - by eapply attribute_lines_ok.
  - apply forallb_bind. intros m Hm. apply (media_lines_ok config). by eapply forallb_elem.
Qed.

(** ** Parsing the lines *)

Lemma split_line_ascii a v : (byte a <? 128) = true -> split_line (String a (String "=" v)) = Ok (String a "", v).
Proof. intros Ha. unfold split_line, len_utf8. by rewrite Ha. Qed.
Lemma parse_line_m config v p :
  parse_line config ("m=" +:+ v) p =
  if max_media config <=? Z.of_nat (length (s_media (p_session p)))
  then Err (SdpLimitExceeded ("media count exceeds " +:+ show_uint (max_media config)))
  else let? m := parse_media v in Ok (mkParse (push_media (p_media p) (p_session p)) (Some m) (p_attr_count p) (p_unknown_count p)).
Proof. done. Qed.
Lemma parse_line_session config a v s n u :
  (byte a <? 128) = true -> a <> "m"%char ->
  parse_line config (String a (String "=" v)) (mkParse s None n u) = parse_session_line config (String a "") v (mkParse s None n u).
Proof.
  intros Ha Hm. unfold parse_line. rewrite split_line_ascii by done. cbn [is_empty_str].
  destruct (String.eqb_spec (String a "") "m") as [[= ->]|_]; done.
Qed.
Lemma parse_line_media config a v s m n u :
  (byte a <? 128) = true -> a <> "m"%char ->
  parse_line config (String a (String "=" v)) (mkParse s (Some m) n u) =
  let? m := parse_media_line config (String a "") v m in Ok (mkParse s (Some m) n u).
Proof.
  intros Ha Hm. unfold parse_line. rewrite split_line_ascii by done. cbn [is_empty_str].
  destruct (String.eqb_spec (String a "") "m") as [[= ->]|_]; done.
Qed.
Lemma session_attribute_line config v s n u :
  parse_session_line config "a" v (mkParse s None n u) =
  let? a := parse_attribute v in
  if is_unknown a && (max_unknown_attributes config <=? u) then Err (SdpLimitExceeded "too many unknown session attributes")
  else if max_attributes config <=? n then Err (SdpLimitExceeded "too many session attributes")
  else Ok (mkParse (mkSession (s_version s) (s_origin s) (s_name s) (s_info s) (s_connection s) (s_times s) (s_media s)
                      (s_attributes s ++ [a])) None (n + 1) (u + if is_unknown a then 1 else 0)).
Proof. done. Qed.
Lemma media_attribute_line config v m :
  parse_media_line config "a" v m =
  let? a := parse_attribute v in
  if is_unknown a && (max_unknown_attributes config <=? count_unknown (m_attributes m))
  then Err (SdpLimitExceeded "too many unknown media attributes")
  else if max_attributes config <=? Z.of_nat (length (m_attributes m)) then Err (SdpLimitExceeded "too many media attributes")
  else Ok (mkMedia (m_media_type m) (m_port m) (m_port_count m) (m_proto m) (m_formats m) (m_connection m)
             (m_attributes m ++ [a]) (m_title m)).
Proof. done. Qed.

Lemma parse_lines_app config l k p :
  parse_lines config (l ++ k) p = let? p := parse_lines config l p in parse_lines config k p.
Proof. revert p. induction l as [|s l IH]; intros p; [done|]. simpl. destruct (parse_line config s p); simpl; [apply IH|done]. Qed.

Definition add_attributes (l : list SdpAttribute) (s : SdpSession) : SdpSession :=
  mkSession (s_version s) (s_origin s) (s_name s) (s_info s) (s_connection s) (s_times s) (s_media s) (s_attributes s ++ l).
Definition add_times (l : list SdpTime) (s : SdpSession) : SdpSession :=
  mkSession (s_version s) (s_origin s) (s_name s) (s_info s) (s_connection s) (s_times s ++ l) (s_media s) (s_attributes s).
Definition media_add (l : list SdpAttribute) (m : SdpMedia) : SdpMedia :=
  mkMedia (m_media_type m) (m_port m) (m_port_count m) (m_proto m) (m_formats m) (m_connection m) (m_attributes m ++ l) (m_title m).

Lemma count_unknown_app l k : count_unknown (l ++ k) = count_unknown l + count_unknown k.
Proof. unfold count_unknown. rewrite List.filter_app, length_app. lia. Qed.
Lemma count_unknown_cons a l : count_unknown (a :: l) = (if is_unknown a then 1 else 0) + count_unknown l.
Proof. change (a :: l) with ([a] ++ l). rewrite count_unknown_app. f_equal. unfold count_unknown. simpl. by destruct (is_unknown a). Qed.
Lemma count_unknown_nonneg l : 0 <= count_unknown l.
Proof. unfold count_unknown. lia. Qed.

Lemma parse_session_attributes config l s n u :
  forallb wf_attribute l = true -> n + Z.of_nat (length l) <= max_attributes config ->
  u + count_unknown l <= max_unknown_attributes config ->
  parse_lines config (map attribute_line l) (mkParse s None n u)
  = Ok (mkParse (add_attributes l s) None (n + Z.of_nat (length l)) (u + count_unknown l)).
Proof.
  revert s n u. induction l as [|a l IH]; intros s n u Hl Hn Hu; simpl map; cbn [parse_lines].
  { destruct s. unfold add_attributes, count_unknown. simpl. by rewrite app_nil_r, !Z.add_0_r. }
  simpl in Hl. apply andb_true_iff in Hl as [Ha Hl]. rewrite count_unknown_cons in *. pose proof (count_unknown_nonneg l).
  simpl length in Hn. change (attribute_line a) with (String "a" (String "=" (attribute_text a))).
  rewrite parse_line_session, session_attribute_line, parse_attribute_text by done.
  destruct (is_unknown a && (max_unknown_attributes config <=? u)) eqn:Hun.
  { apply andb_true_iff in Hun as [Hun Hle]. rewrite Hun in Hu. apply Z.leb_le in Hle. lia. }
  destruct (Z.leb_spec (max_attributes config) n); [lia|]. rewrite IH by (try done; destruct (is_unknown a); lia).
  unfold add_attributes. simpl. rewrite <-app_assoc. simpl. do 2 f_equal; lia.
Qed.
Lemma parse_media_attributes config l s m n u :
  forallb wf_attribute l = true -> Z.of_nat (length (m_attributes m) + length l) <= max_attributes config ->
  count_unknown (m_attributes m) + count_unknown l <= max_unknown_attributes config ->
  parse_lines config (map attribute_line l) (mkParse s (Some m) n u) = Ok (mkParse s (Some (media_add l m)) n u).
Proof.
  revert m. induction l as [|a l IH]; intros m Hl Hn Hu; simpl map; cbn [parse_lines].
  { destruct m. unfold media_add. simpl. by rewrite app_nil_r. }
  simpl in Hl. apply andb_true_iff in Hl as [Ha Hl]. rewrite count_unknown_cons in *. pose proof (count_unknown_nonneg l).
  simpl length in Hn. change (attribute_line a) with (String "a" (String "=" (attribute_text a))).
  rewrite parse_line_media, media_attribute_line, parse_attribute_text by done.
  destruct (is_unknown a && (max_unknown_attributes config <=? count_unknown (m_attributes m))) eqn:Hun.
  { apply andb_true_iff in Hun as [Hun Hle]. rewrite Hun in Hu. apply Z.leb_le in Hle. lia. }
  destruct (Z.leb_spec (max_attributes config) (Z.of_nat (length (m_attributes m)))); [lia|].
  rewrite IH; [|done|simpl; rewrite length_app; simpl; lia|simpl; rewrite count_unknown_app, count_unknown_cons; unfold count_unknown in *; simpl; lia].
  unfold media_add. simpl. by rewrite <-app_assoc.
Qed.
Lemma parse_connection_line c : wf_connection c = true -> parse_connection (connection_line c) = Ok c.
Proof.
  unfold wf_connection. rewrite !andb_true_iff. intros [[? ?] ?]. unfold parse_connection, connection_line.
  rewrite split_words; [by destruct c| |done]. simpl. by rewrite !andb_true_iff.
Qed.
Lemma parse_times config l s n u :
  forallb (fun t => word (t_start t) && word (t_stop t)) l = true ->
  parse_lines config (map time_line l) (mkParse s None n u) = Ok (mkParse (add_times l s) None n u).
Proof.
  revert s. induction l as [|t l IH]; intros s Hl; simpl map; cbn [parse_lines].
  { destruct s. unfold add_times. simpl. by rewrite app_nil_r. }
  simpl in Hl. rewrite !andb_true_iff in Hl. destruct Hl as [[? ?] Hl].
  change (time_line t) with (String "t" (String "=" (String.concat " " [t_start t; t_stop t]))).
  rewrite parse_line_session by done.
  change (parse_session_line config "t" ?v (mkParse s None n u)) with
    (let? t := parse_time v in Ok (mkParse (add_times [t] s) None n u)).
  unfold parse_time. rewrite split_words by (try done; simpl; by rewrite !andb_true_iff).
  destruct t. rewrite IH by done. unfold add_times. simpl. by rewrite <-app_assoc.
Qed.
Lemma parse_port_text config m : wf_media config m = true -> parse_port (port_text m) = Ok (m_port m, m_port_count m).
Proof.
  unfold wf_media. rewrite !andb_true_iff. intros H. destruct_and? H. unfold parse_port, port_text.
  assert (m_port m <= U64_MAX /\ m_port_count m <= U64_MAX) as [? ?] by (unfold U16_MAX, U64_MAX in *; lia).
  assert (lacks "/" (show_uint (m_port m)) = true) as Hl.
  { eapply str_all_impl; [|apply show_uint_digits; lia]. intros a. unfold is_ascii_digit.
    destruct (Ascii.eqb_spec a "/") as [->|]; done. }
  destruct (Z.ltb_spec 1 (m_port_count m)).
  - change ("/" +:+ show_uint (m_port_count m)) with (String "/" (show_uint (m_port_count m))).
    rewrite split_once_app by done. rewrite !parse_show_uint by lia. done.
  - rewrite split_once_lacks by done. rewrite parse_show_uint by lia. simpl. do 2 f_equal. lia.
Qed.
Lemma parse_media_head config m :
  wf_media config m = true ->
  parse_media (media_head m) = Ok (mkMedia (m_media_type m) (m_port m) (m_port_count m) (m_proto m) (m_formats m) None [] None).
Proof.
  intros Hm. unfold parse_media, media_head. rewrite split_words by (by eauto using media_head_words). simpl.
  rewrite (parse_port_text config) by done. unfold wf_media in Hm. rewrite !andb_true_iff in Hm. destruct_and? Hm.
  destruct (m_formats m); [done|]. done.
Qed.

(** The optional lines. *)
Lemma parse_media_title config s m n u o :
  parse_lines config (opt_line "i" id o) (mkParse s (Some m) n u)
  = Ok (mkParse s (Some (match o with
      | Some t => mkMedia (m_media_type m) (m_port m) (m_port_count m) (m_proto m) (m_formats m) (m_connection m) (m_attributes m) (Some t)
      | None => m end)) n u).
Proof. destruct o as [t|]; [|done]. cbn [opt_line parse_lines].
  change (parse_line config _) with (parse_line config (String "i" (String "=" t))). by rewrite (parse_line_media config "i"). Qed.
Lemma parse_media_connection config s m n u o :
  opt_ok wf_connection o = true ->
  parse_lines config (opt_line "c" connection_line o) (mkParse s (Some m) n u)
  = Ok (mkParse s (Some (match o with
      | Some c => mkMedia (m_media_type m) (m_port m) (m_port_count m) (m_proto m) (m_formats m) (Some c) (m_attributes m) (m_title m)
      | None => m end)) n u).
Proof.
  destruct o as [c|]; [|done]. simpl opt_ok. intros Hc. cbn [opt_line parse_lines].
  change (parse_line config _) with (parse_line config (String "c" (String "=" (connection_line c)))). rewrite (parse_line_media config "c") by done.
  change (parse_media_line config "c" ?v m) with (let? c := parse_connection v in
    Ok (mkMedia (m_media_type m) (m_port m) (m_port_count m) (m_proto m) (m_formats m) (Some c) (m_attributes m) (m_title m))).
  by rewrite parse_connection_line.
Qed.
Lemma parse_session_info config s n u o :
  parse_lines config (opt_line "i" id o) (mkParse s None n u)
  = Ok (mkParse (match o with
      | Some t => mkSession (s_version s) (s_origin s) (s_name s) (Some t) (s_connection s) (s_times s) (s_media s) (s_attributes s)
      | None => s end) None n u).
Proof. destruct o as [t|]; [|done]. cbn [opt_line parse_lines].
  change (parse_line config _) with (parse_line config (String "i" (String "=" t))). by rewrite (parse_line_session config "i"). Qed.
Lemma parse_session_connection config s n u o :
  opt_ok wf_connection o = true ->
  parse_lines config (opt_line "c" connection_line o) (mkParse s None n u)
  = Ok (mkParse (match o with
      | Some c => mkSession (s_version s) (s_origin s) (s_name s) (s_info s) (Some c) (s_times s) (s_media s) (s_attributes s)
      | None => s end) None n u).
Proof.
  destruct o as [c|]; [|done]. simpl opt_ok. intros Hc. cbn [opt_line parse_lines].
  change (parse_line config _) with (parse_line config (String "c" (String "=" (connection_line c)))). rewrite (parse_line_session config "c") by done.
  change (parse_session_line config "c" ?v (mkParse s None n u)) with (let? c := parse_connection v in
    Ok (mkParse (mkSession (s_version s) (s_origin s) (s_name s) (s_info s) (Some c) (s_times s) (s_media s) (s_attributes s)) None n u)).
  by rewrite parse_connection_line.
Qed.

(** A media block, and a sequence of them. *)
Lemma parse_media_block config m s cur n u :
  wf_media config m = true -> Z.of_nat (length (s_media s)) < max_media config ->
  parse_lines config (media_lines m) (mkParse s cur n u) = Ok (mkParse (push_media cur s) (Some m) n u).
Proof.
  intros Hm Hmax. unfold media_lines. cbn [parse_lines]. rewrite parse_line_m. cbn [p_session p_media p_attr_count p_unknown_count].
  destruct (Z.leb_spec (max_media config) (Z.of_nat (length (s_media s)))); [lia|].
  rewrite (parse_media_head config) by done. cbn iota beta. rewrite parse_lines_app, parse_media_title.
  unfold wf_media in Hm. rewrite !andb_true_iff in Hm. destruct_and? Hm. cbn iota beta.
  rewrite parse_lines_app, parse_media_connection by done. cbn iota beta.
  unfold wf_attributes in *. rewrite !andb_true_iff in *. destruct_and?.
  rewrite parse_media_attributes.
  - do 3 f_equal. destruct m as [? ? ? ? ? [c|] ? [t|]]; done.
  - done.
  - destruct (m_connection m), (m_title m); simpl; lia.
  - destruct (m_connection m), (m_title m); simpl; unfold count_unknown in *; simpl; lia.
Qed.

Definition add_media (l : list SdpMedia) (s : SdpSession) : SdpSession :=
  mkSession (s_version s) (s_origin s) (s_name s) (s_info s) (s_connection s) (s_times s) (s_media s ++ l) (s_attributes s).
Lemma push_add cur l s : add_media l (push_media cur s) = add_media (option_list cur ++ l) s.
Proof. destruct cur; simpl; unfold add_media; simpl; [by rewrite <-app_assoc|done]. Qed.

Lemma parse_media_blocks config l s cur n u :
  forallb (wf_media config) l = true ->
  Z.of_nat (length (s_media s) + length (option_list cur) + length l) <= max_media config ->
  exists s1 cur1, parse_lines config (l ≫= media_lines) (mkParse s cur n u) = Ok (mkParse s1 cur1 n u)
    /\ push_media cur1 s1 = add_media (option_list cur ++ l) s.
Proof.
  revert s cur. induction l as [|m l IH]; intros s cur Hl Hmax.
  { exists s, cur. split; [done|]. rewrite <-push_add. unfold add_media. rewrite app_nil_r. by destruct (push_media cur s). }
  simpl in Hl. apply andb_true_iff in Hl as [Hm Hl]. simpl length in Hmax. cbn [mbind list_bind]. rewrite parse_lines_app.
  rewrite parse_media_block by (try done; lia). destruct (IH (push_media cur s) (Some m) Hl) as (s1 & cur1 & Hp & Hs).
  { destruct cur; simpl in *; rewrite ?length_app; simpl; lia. }
  exists s1, cur1. split; [done|]. rewrite Hs, push_add. by destruct cur.
Qed.

(** ** Round trip *)

Lemma parse_session_lines config s : wf_session config s = true -> parse_body config (session_lines s) = Ok s.
Proof.
  unfold wf_session. rewrite !andb_true_iff. intros H. destruct_and? H. unfold session_lines, parse_body.
  change (expect_line "v" _ (["v=" +:+ s_version s; ?o; ?nm] ++ ?l)) with (Ok (E := SdpError) (s_version s, [o; nm] ++ l)). cbn iota beta.
  change (expect_line "o" _ (["o=" +:+ ?o; ?nm] ++ ?l)) with (Ok (E := SdpError) (o, [nm] ++ l)). cbn iota beta.
  unfold parse_origin, origin_line. rewrite split_words by done. cbn iota beta.
  change (expect_line "s" _ (["s=" +:+ s_name s] ++ ?l)) with (Ok (E := SdpError) (s_name s, l)). cbn iota beta.
  rewrite parse_lines_app, parse_session_info. cbn iota beta. rewrite parse_lines_app, parse_session_connection by done. cbn iota beta.
  rewrite parse_lines_app, parse_times by done. cbn iota beta. unfold wf_attributes in *. rewrite !andb_true_iff in *. destruct_and?.
  rewrite parse_lines_app, parse_session_attributes by (try done; lia). cbn iota beta.
  match goal with |- context [parse_lines config _ (mkParse ?s0 None ?n ?u)] =>
    destruct (parse_media_blocks config (s_media s) s0 None n u) as (s1 & cur1 & -> & Hs); [done| |] end.
  { destruct (s_info s), (s_connection s); simpl; lia. }
  cbn [p_media p_session]. rewrite Hs. f_equal. destruct s as [v [] nm [i|] [c|] ts ms attrs]; done.
Qed.

(** The text is within the limits of the parser on size, number and length of lines. *)
Definition fits (config : SdpParserConfig) (s : SdpSession) (out : string) : Prop :=
  str_len out <= max_size config /\ Z.of_nat (length (session_lines s)) <= max_lines config
  /\ Forall (fun line => str_len line <= max_line_len config) (session_lines s).

(** C7: Session descriptions survive the wire.  Every description in normal form,
    within the limits of the parser on media blocks and attributes, is encoded, and
    the parser gives back exactly this description from the text when the text is
    within its limits on size and lines: origin, name, information, connection,
    times, every media block with ports, formats, title and connection, and every
    attribute in order. *)
Theorem sdp_roundtrip config s :
  wf_session config s = true ->
  exists out, encode_sdp s = Ok out /\ (fits config s out -> parse_sdp out config = Ok s).
Proof.
  intros Hs. destruct (encode_ok config s Hs) as [out Hout]. exists out. split; [done|]. intros (Hsize & Hlines & Hlen).
  pose proof (session_lines_ok config s Hs) as Hok. pose proof (encode_lines s out Hout) as ->. unfold parse_sdp.
  destruct (Z.ltb_spec (max_size config) (str_len (join_lines (session_lines s)))); [lia|].
  rewrite utf8_join, str_lines_join by done. cbn [negb].
  destruct (Z.ltb_spec (max_lines config) (Z.of_nat (length (session_lines s)))); [lia|].
  destruct (List.find _ (session_lines s)) as [line|] eqn:Hf; [|by apply parse_session_lines].
  apply find_some in Hf as [Hin Hlt]. rewrite Forall_forall in Hlen. apply Z.ltb_lt in Hlt.
  specialize (Hlen line). rewrite list_elem_of_In in Hlen. specialize (Hlen Hin). lia.
Qed.

(** ** Limits *)

Definition within_attributes (config : SdpParserConfig) (l : list SdpAttribute) : Prop :=
  Z.of_nat (length l) <= Z.max 0 (max_attributes config) /\ count_unknown l <= Z.max 0 (max_unknown_attributes config).
Definition within_media (config : SdpParserConfig) (m : SdpMedia) : Prop :=
  is_u16 (m_port m) /\ is_u16 (m_port_count m) /\ m_formats m <> [] /\ within_attributes config (m_attributes m).

(** The state of the parser while it reads lines. *)
Record within (config : SdpParserConfig) (p : SdpParse) : Prop := mkWithin {
  wi_attr_count : p_attr_count p = Z.of_nat (length (s_attributes (p_session p)));
  wi_unknown_count : p_unknown_count p = count_unknown (s_attributes (p_session p));
  wi_attributes : within_attributes config (s_attributes (p_session p));
  wi_media_count : Z.of_nat (length (s_media (p_session p))) <= Z.max 0 (max_media config);
  wi_media : Forall (within_media config) (s_media (p_session p));
  wi_current : forall m, p_media p = Some m -> within_media config m
}.

Lemma within_snoc config l a :
  within_attributes config l -> is_unknown a && (max_unknown_attributes config <=? count_unknown l) = false ->
  Z.of_nat (length l) < max_attributes config -> within_attributes config (l ++ [a]).
Proof.
  intros [Hl Hu] Hun Hn. split; [rewrite length_app; simpl; lia|].
  rewrite count_unknown_app, count_unknown_cons. change (count_unknown []) with 0.
  destruct (is_unknown a); simpl in Hun; [apply Z.leb_gt in Hun|]; lia.
Qed.

Lemma parse_session_line_within config kind value p p' :
  within config p -> parse_session_line config kind value p = Ok p' -> within config p'.
Proof.
  intros Hw. unfold parse_session_line. destruct (kind =? "i")%string; [intros [= <-]; by destruct Hw|].
  destruct (existsb _ _); [by intros [= <-]|].
  destruct (kind =? "c")%string; [destruct (parse_connection value); intros [= <-]; by destruct Hw|].
  destruct (kind =? "t")%string; [destruct (parse_time value); intros [= <-]; by destruct Hw|].
  destruct (kind =? "a")%string; [|done]. destruct (parse_attribute value) as [a|]; [|done]. destruct Hw as [Hn Hu Ha ? ? ?].
  rewrite Hn, Hu. destruct (is_unknown a && _) eqn:Hun; [done|]. destruct (Z.leb_spec (max_attributes config)
    (Z.of_nat (length (s_attributes (p_session p))))); [done|]. intros [= <-].
  constructor; simpl; try done; [rewrite length_app; simpl; lia| |by apply within_snoc].
  rewrite count_unknown_app, count_unknown_cons. change (count_unknown []) with 0. lia.
Qed.
Lemma parse_media_line_within config kind value m m' :
  within_media config m -> parse_media_line config kind value m = Ok m' -> within_media config m'.
Proof.
  intros Hw. unfold parse_media_line. destruct (kind =? "i")%string; [by intros [= <-]|].
  destruct (kind =? "c")%string; [by destruct (parse_connection value); intros [= <-]|].
  destruct (_ || _); [by intros [= <-]|]. destruct (kind =? "a")%string; [|done].
  destruct (parse_attribute value) as [a|]; [|done]. destruct Hw as (? & ? & ? & Ha).
  destruct (is_unknown a && _) eqn:Hun; [done|]. destruct (Z.leb_spec (max_attributes config)
    (Z.of_nat (length (m_attributes m)))); [done|]. intros [= <-]. split_and!; try done. by apply within_snoc.
Qed.
Lemma parse_media_within config value m : parse_media value = Ok m -> within_media config m.
Proof.
  unfold parse_media. destruct (split_whitespace value) as [|ty [|port [|proto [|f fs]]]]; try done.
  destruct (parse_port port) as [[n c]|] eqn:Hp; [|done]. intros [= <-]. unfold parse_port in Hp.
  assert (is_u16 n /\ is_u16 c) as [? ?].
  { destruct (split_once "/" port) as [[a b]|]; repeat (destruct (parse_uint _ _) eqn:? in Hp; simpl in Hp; try done);
      injection Hp as <- <-; repeat match goal with He : parse_uint _ _ = Some _ |- _ => apply parse_uint_range in He end;
      unfold is_u16, U16_MAX in *; lia. }
  split_and!; try done; split; simpl; unfold count_unknown; simpl; lia.
Qed.
Lemma push_media_within config cur s :
  Forall (within_media config) (s_media s) -> (forall m, cur = Some m -> within_media config m) ->
  Forall (within_media config) (s_media (push_media cur s)).
Proof. intros Hs Hc. destruct cur as [m|]; [|done]. simpl. apply Forall_app. split; [done|]. constructor; [by apply Hc|done]. Qed.

Lemma parse_line_within config line p p' : within config p -> parse_line config line p = Ok p' -> within config p'.
Proof.
  intros Hw. unfold parse_line. destruct (is_empty_str line); [by intros [= <-]|].
  destruct (split_line line) as [[kind value]|]; [|done]. destruct (kind =? "m")%string.
  - destruct (Z.leb_spec (max_media config) (Z.of_nat (length (s_media (p_session p))))); [done|].
    destruct (parse_media value) as [m|] eqn:Hm; [|done]. intros [= <-]. destruct Hw as [? ? ? ? ? ?].
    assert (s_attributes (push_media (p_media p) (p_session p)) = s_attributes (p_session p)) as Heq by (by destruct (p_media p)).
    constructor; simpl; rewrite ?Heq; try done.
    + destruct (p_media p); simpl; rewrite ?length_app; simpl; lia.
    + by apply push_media_within.
    + intros m' [= <-]. by eapply parse_media_within.
  - destruct (p_media p) as [m|] eqn:Hp; [|by apply parse_session_line_within].
    destruct (parse_media_line config kind value m) as [m'|] eqn:Hm; [|done]. intros [= <-]. destruct Hw as [? ? ? ? ? Hc].
    constructor; simpl; try done. intros m2 [= <-]. eapply parse_media_line_within; [|done]. by apply Hc.
Qed.
Lemma parse_lines_within config lines p p' : within config p -> parse_lines config lines p = Ok p' -> within config p'.
Proof.
  revert p. induction lines as [|line lines IH]; intros p Hw; simpl; [by intros [= <-]|].
  destruct (parse_line config line p) as [p1|] eqn:Hl; [|done]. apply IH. by eapply parse_line_within.
Qed.

(** What the parser accepts is bounded, whatever the body.  The body is valid
    UTF-8 and within the size limit; the session and every media block have at most
    the configured number of attributes and of unknown attributes; every media block
    has a format and a port and port count of 16 bits.  Of media blocks there are at
    most one more than the configured number. *)
Theorem sdp_bounded config body s :
  parse_sdp body config = Ok s ->
  str_len body <= max_size config /\ utf8_valid body = true
  /\ within_attributes config (s_attributes s) /\ Forall (within_media config) (s_media s)
  /\ Z.of_nat (length (s_media s)) <= Z.max 0 (max_media config) + 1.
Proof.
  unfold parse_sdp. destruct (Z.ltb_spec (max_size config) (str_len body)); [done|]. destruct (utf8_valid body) eqn:Hutf; [|done].
  cbn [negb]. destruct (_ <? _); [done|]. destruct (List.find _ _); [done|]. unfold parse_body.
  destruct (expect_line "v" _ _) as [[v l1]|]; [|done]. destruct (expect_line "o" _ _) as [[o l2]|]; [|done].
  destruct (parse_origin o) as [origin|]; [|done]. destruct (expect_line "s" _ _) as [[n l3]|]; [|done].
  destruct (parse_lines _ _ _) as [p|] eqn:Hp; [|done]. intros [= <-].
  apply parse_lines_within in Hp as [? ? Ha ? ? ?]; [|constructor; simpl; try done; unfold within_attributes, count_unknown; simpl; lia].
  assert (s_attributes (push_media (p_media p) (p_session p)) = s_attributes (p_session p)) as -> by (by destruct (p_media p)).
  split_and!; try done; [by apply push_media_within|]. destruct (p_media p); simpl; rewrite ?length_app; simpl; lia.
Qed.

(** One more media block than the limit is accepted. *)
Lemma media_limit_exceeded :
  let config := mkSdpConfig 64 256 4096 1 8 4 in
  let body := String.concat CRLF_end ["v=0"; "o=- 0 0 IN IP4 0.0.0.0"; "s=Play"; "m=video 5000 RTP/AVP 96"; "m=audio 5002 RTP/AVP 8"] in
  match parse_sdp body config with Ok s => Z.of_nat (length (s_media s)) = max_media config + 1 | Err _ => False end.
Proof. vm_compute. reflexivity. Qed.

(** ** Samples *)

Module SdpSample.
Definition session : SdpSession :=
  mkSession "0" (mkOrigin "-" "0" "0" "IN" "IP4" "0.0.0.0") "Play" None (Some (mkConnection "IN" "IP4" "192.168.1.100"))
    [mkTime "0" "0"]
    [mkMedia "video" 5000 1 "TCP/RTP/AVP" ["96"; "98"] None
       [ARtpMap (mkRtpMap "96" "PS" "90000" None); ARtpMap (mkRtpMap "98" "mpeg4-generic" "48000" (Some "2"));
        ASetup SetupPassive; AConnection ConnNew; AY "0200000000"; AUnknown "x" (Some "a b")] (Some "front door")]
    [ADirection RecvOnly].

Lemma sdp_roundtrip_witness :
  wf_session sdp_config_default session = true
  /\ exists out, encode_sdp session = Ok out /\ parse_sdp out sdp_config_default = Ok session.
Proof.
  assert (wf_session sdp_config_default session = true) as Hwf by (vm_compute; reflexivity).
  split; [exact Hwf|]. destruct (sdp_roundtrip sdp_config_default session Hwf) as (out & Hout & Hp).
  exists out. split; [exact Hout|]. apply Hp. pose proof (encode_lines session out Hout) as ->.
  unfold fits. split; [vm_compute; discriminate|]. split; [vm_compute; discriminate|].
  repeat (constructor; [vm_compute; discriminate|]). constructor.
Defined.

Lemma sdp_bounded_witness :
  exists s, parse_sdp minimal_body sdp_config_default = Ok s
    /\ Forall (within_media sdp_config_default) (s_media s).
Proof.
  destruct (parse_sdp minimal_body sdp_config_default) as [s|e] eqn:Hp; [|exfalso; vm_compute in Hp; discriminate Hp].
  exists s. split; [reflexivity|]. exact (proj1 (proj2 (proj2 (proj2 (sdp_bounded sdp_config_default minimal_body s Hp))))).
Defined.
End SdpSample.
