(* ===== verification/SipEndpoint.v ===== *)
(** * Endpoint routes

    [cheetah-gb28181-core/src/sip/endpoint.rs]: where a device is.  A route keeps
    the observed source, the [received]/[rport] endpoint of the top [Via] and the
    [Contact] address apart, and picks the address to send to. *)

From S2P Require Import Prelude RustStr SipUri Compatibility.

Open Scope string_scope.
Open Scope list_scope.
Open Scope Z_scope.

(** ** Socket addresses

    The part of [std::net] the SIP code uses: [IpAddr], [Ipv6Addr] and
    [SocketAddr], and the parser behind their [FromStr] (the recursive-descent
    [Parser] of the standard library, whose [read_*] methods give the input back
    when they fail).  [sip/endpoint.rs] keeps the routes of devices as socket
    addresses and reads IP literals out of [Via] and [Contact] headers. *)

(** An address is the number its octets spell in network order. *)
Inductive IpAddr := V4 (bits : Z) | V6 (bits : Z).
#[global] Instance IpAddr_eq_dec : EqDecision IpAddr.
Proof. solve_decision. Defined.
#[global] Instance IpAddr_countable : Countable IpAddr.
Proof.
  refine (inj_countable' (fun a => match a with V4 n => inl n | V6 n => inr n end)
            (fun s => match s with inl n => V4 n | inr n => V6 n end) _).
  by intros [].
Defined.

(** [SocketAddr::new] sets the flow label and scope of an IPv6 address to zero;
    no address of this code has another one. *)
Record SocketAddr := mkSocket { sa_ip : IpAddr; sa_port : Z }.
#[global] Instance SocketAddr_eq_dec : EqDecision SocketAddr.
Proof. solve_decision. Defined.

(** ** The parser *)

Module IpParser.
Definition parser (A : Type) : Type := string -> option (A * string).

Definition read_given_char (c : ascii) : parser unit := fun s =>
  match s with String a rest => if Ascii.eqb a c then Some (tt, rest) else None | EmptyString => None end.

(** [char::to_digit]. *)
Definition to_digit (radix : Z) (a : ascii) : option Z :=
  let n := Z.of_N (N_of_ascii a) in
  let d := if is_ascii_digit a then n - 48
           else if is_ascii_lowercase a then n - 87
           else if is_ascii_uppercase a then n - 55 else radix in
  if d <? radix then Some d else None.

(** The loop of [read_number] with a limit on the digits; [None] when there are more. *)
Fixpoint read_digits (radix : Z) (room : nat) (acc : Z) (count : nat) (s : string) : option (Z * nat * string) :=
  match s with
  | EmptyString => Some (acc, count, s)
  | String a rest =>
      match to_digit radix a, room with
      | None, _ => Some (acc, count, s)
      | Some _, O => None
      | Some d, S room => read_digits radix room (acc * radix + d) (S count) rest
      end
  end.

Definition read_number (radix : Z) (max_digits : nat) (allow_zero_prefix : bool) (max : Z) : parser Z := fun s =>
  let has_leading_zero := match s with String "0" _ => true | _ => false end in
  match read_digits radix max_digits 0 0 s with
  | None => None
  | Some (n, count, rest) =>
      if (count =? 0)%nat then None
      else if negb allow_zero_prefix && has_leading_zero && (1 <? count)%nat then None
      else if max <? n then None
      else Some (n, rest)
  end.

Definition read_separator {A} (sep : ascii) (index : nat) (inner : parser A) : parser A := fun s =>
  match index with
  | O => inner s
  | S _ => letopt (_, s) := read_given_char sep s in inner s
  end.

Definition read_octet (i : nat) : parser Z := read_separator "." i (read_number 10 3 false U8_MAX).
Definition read_ipv4_addr : parser Z := fun s =>
  letopt (a, s) := read_octet 0 s in
  letopt (b, s) := read_octet 1 s in
  letopt (c, s) := read_octet 2 s in
  letopt (d, s) := read_octet 3 s in
  Some (((a * 256 + b) * 256 + c) * 256 + d, s).

(** [read_groups] on [room] free slots from position [i]: the groups read, whether
    an IPv4 address closed them, and the rest. *)
Fixpoint read_groups (i room : nat) (s : string) : list Z * bool * string :=
  match room with
  | O => ([], false, s)
  | S room' =>
      match (if (1 <? room)%nat then read_separator ":" i read_ipv4_addr s else None) with
      | Some (v4, s) => ([v4 / 65536; v4 mod 65536], true, s)
      | None =>
          match read_separator ":" i (read_number 16 4 true U16_MAX) s with
          | Some (g, s) => let '(gs, ipv4, s) := read_groups (S i) room' s in (g :: gs, ipv4, s)
          | None => ([], false, s)
          end
      end
  end.

Definition of_groups (gs : list Z) : Z := fold_left (fun acc g => acc * 65536 + g) gs 0.

Definition read_ipv6_addr : parser Z := fun s =>
  let '(head, head_ipv4, s) := read_groups 0 8 s in
  if (length head =? 8)%nat then Some (of_groups head, s)
  else if head_ipv4 : bool then None
  else
    letopt (_, s) := read_given_char ":" s in
    letopt (_, s) := read_given_char ":" s in
    let '(tail, _, s) := read_groups 0 (8 - (length head + 1)) s in
    Some (of_groups (head ++ replicate (8 - length head - length tail) 0 ++ tail), s).

Definition read_ip_addr : parser IpAddr := fun s =>
  match read_ipv4_addr s with
  | Some (n, s) => Some (V4 n, s)
  | None => letopt (n, s) := read_ipv6_addr s in Some (V6 n, s)
  end.

(** [parse_with]: the whole text must be read. *)
Definition parse_with {A} (inner : parser A) (s : string) : option A :=
  match inner s with Some (a, EmptyString) => Some a | _ => None end.
End IpParser.

(** [str::parse::<IpAddr>] and [str::parse::<Ipv6Addr>]. *)
Definition parse_ip_addr : string -> option IpAddr := IpParser.parse_with IpParser.read_ip_addr.
Definition parse_ipv6_addr : string -> option Z := IpParser.parse_with IpParser.read_ipv6_addr.

Example parse_v4 : parse_ip_addr "203.0.113.9" = Some (V4 3405803785).
Proof. vm_compute. reflexivity. Qed.
Example parse_v4_octal : parse_ip_addr "203.0.113.09" = None.
Proof. vm_compute. reflexivity. Qed.
Example parse_v6_mapped : parse_ip_addr "::ffff:1.2.3.4" = Some (V6 (0xffff01020304)).
Proof. vm_compute. reflexivity. Qed.
Example parse_v6_tail : parse_ip_addr "2001:db8::1" = Some (V6 0x20010db8000000000000000000000001).
Proof. vm_compute. reflexivity. Qed.


Definition DEFAULT_SIP_PORT : Z := 5060.

Inductive Rport := RpAbsent | RpRequested | RpValue (port : Z).
#[global] Instance Rport_eq_dec : EqDecision Rport.
Proof. solve_decision. Defined.

Record ViaRouteParams := mkViaParams { vp_received : option IpAddr; vp_rport : Rport }.

(** One token of the loop of [ViaRouteParams::parse]. *)
Definition via_token (p : ViaRouteParams) (token : string) : ViaRouteParams :=
  let token := trim token in
  match strip_prefix "received=" token with
  | Some value => mkViaParams (parse_ip_addr (trim value)) (vp_rport p)
  | None =>
      if eq_ignore_ascii_case token "rport" then mkViaParams (vp_received p) RpRequested
      else match strip_prefix "rport=" token with
           | Some value =>
               mkViaParams (vp_received p)
                 (match parse_uint U16_MAX (trim value) with Some port => RpValue port | None => RpRequested end)
           | None => p
           end
  end.
Definition via_params_parse (via : string) : ViaRouteParams :=
  fold_left via_token (tl (split ";" via)) (mkViaParams None RpAbsent).

Definition resolved_endpoint_with_policy (p : ViaRouteParams) (observed : SocketAddr) (prefer_received : bool) :
    option SocketAddr :=
  if bool_decide (vp_rport p = RpAbsent) && negb (prefer_received && bool_decide (is_Some (vp_received p))) then None
  else
    let ip := default (sa_ip observed) (vp_received p) in
    let port := match vp_rport p with RpValue port => port | _ => sa_port observed end in
    Some (mkSocket ip port).
Definition resolved_endpoint (p : ViaRouteParams) (observed : SocketAddr) : option SocketAddr :=
  resolved_endpoint_with_policy p observed false.

Definition strip_suffix_char (c : ascii) (s : string) : option string :=
  match str_rev s with String a rest => if Ascii.eqb a c then Some (str_rev rest) else None | EmptyString => None end.

Definition parse_host_ip (host : string) : option IpAddr :=
  match letopt h := strip_prefix "[" host in strip_suffix_char "]" h with
  | Some inner => V6 <$> parse_ipv6_addr inner
  | None => parse_ip_addr host
  end.
Definition socket_addr_from_uri (uri : SipUri) : option SocketAddr :=
  letopt ip := parse_host_ip (uri_host uri) in
  Some (mkSocket ip (default DEFAULT_SIP_PORT (uri_port uri))).

Record EndpointRoute := mkRoute {
  observed_source : SocketAddr;
  via_received_rport : option SocketAddr;
  contact_uri : option SipUri;
  advertised_endpoint : option SocketAddr;
  dialog_remote_target : option SipUri
}.
#[global] Instance EndpointRoute_eq_dec : EqDecision EndpointRoute.
Proof. solve_decision. Defined.

Definition from_observed (observed : SocketAddr) : EndpointRoute := mkRoute observed None None None None.

Definition from_registration_with_profile (observed : SocketAddr) (top_via : option string)
    (contact : option SipUri) (profile : option CompatibilityProfile) : EndpointRoute :=
  let prefer_received := match profile with Some p => has p ContactRportRoute | None => false end in
  mkRoute observed
    (letopt via := top_via in resolved_endpoint_with_policy (via_params_parse via) observed prefer_received)
    contact
    (letopt uri := contact in socket_addr_from_uri uri)
    None.
Definition from_registration (observed : SocketAddr) (top_via : option string) (contact : option SipUri) :
    EndpointRoute := from_registration_with_profile observed top_via contact None.

Definition set_dialog_remote_target (r : EndpointRoute) (target : option SipUri) : EndpointRoute :=
  mkRoute (observed_source r) (via_received_rport r) (contact_uri r) (advertised_endpoint r) target.
Definition with_dialog_remote_target (r : EndpointRoute) (target : SipUri) : EndpointRoute :=
  set_dialog_remote_target r (Some target).

Definition send_target (r : EndpointRoute) : SocketAddr :=
  match via_received_rport r with
  | Some a => a
  | None => default (observed_source r) (advertised_endpoint r)
  end.
Definition dialog_send_target (r : EndpointRoute) : SocketAddr :=
  match letopt uri := dialog_remote_target r in socket_addr_from_uri uri with
  | Some a => a
  | None => send_target r
  end.

Definition is_unauthenticated_drift (r : EndpointRoute) (source : SocketAddr) : bool :=
  negb (bool_decide (source = observed_source r)) && negb (bool_decide (source = send_target r)).

Inductive RouteUpdateContext :=
| AuthenticatedRegister | DialogTargetRefresh | CtxCompatibilityProfile
| UnauthenticatedKeepalive | UnauthenticatedRequest.
Definition may_change_route (c : RouteUpdateContext) : bool :=
  match c with
  | AuthenticatedRegister | DialogTargetRefresh | CtxCompatibilityProfile => true
  | UnauthenticatedKeepalive | UnauthenticatedRequest => false
  end.
