(* ===== verification/GbXml.v ===== *)
(** * XML bodies

    [cheetah-gb28181-module/src/xml]: the element tree ([element.rs]), the limits
    ([limits.rs]), the reader that builds a tree from the events of the
    [quick-xml] crate ([reader.rs]) and the writer ([writer.rs]).

    The tokenizer of [quick-xml] and the decoders of [encoding_rs] are the classes
    [QuickXml] and [EncodingRs]; the attributes of an element are a hash map, the
    writer walks them in the order it is given. *)

From S2P Require Import Prelude RustStr DigestCodec Digest Domain Compatibility.

Open Scope string_scope.
Open Scope list_scope.
Open Scope Z_scope.

(** ** Types of the GB28181 access module

    [cheetah-gb28181-module/src]: the errors ([error.rs]), identifiers
    ([types.rs]), the configuration of a domain ([config.rs]) and the content
    types of bodies ([mime.rs]).  The [Clone] and redacted [Debug] of the
    configuration have no counterpart. *)

Inductive AccessError :=
| UnknownDomain
| UnsupportedMethod
| UnsupportedCmdType (cmd : string)
| InvalidDeviceId
| InvalidDomainId
| InvalidContact
| InvalidExpires
| AuthenticationRequired
| AuthenticationFailed
| NotRegistered
| RegistrationTableFull
| InvalidXml (why : string)
| UnsupportedContentType (why : string)
| AeInternal (why : string).

(** ** Identifiers *)

Definition DeviceId : Type := string.
Definition DEVICE_ID_MAX_LEN : Z := 64.
Definition device_id_new (id : string) : option DeviceId :=
  if is_empty_str id || (DEVICE_ID_MAX_LEN <? str_len id) then None
  else if negb (str_all is_ascii_digit id) then None
  else Some id.

Definition DomainId : Type := string.
Definition DOMAIN_ID_MAX_LEN : Z := 64.
Definition domain_id_new (id : string) : option DomainId :=
  if is_empty_str id || (DOMAIN_ID_MAX_LEN <? str_len id) || (has_whitespace id || has_control id) then None
  else Some id.

(** ** Configuration *)

Inductive CharsetPolicy := CsUtf8 | CsGbkCompatible.
Inductive AuthPolicy := Required | ChallengeOptional.
#[global] Instance AuthPolicy_eq_dec : EqDecision AuthPolicy.
Proof. solve_decision. Defined.

Record Gb28181DomainConfig := mkDomainConfig {
  cf_domain_id : DomainId;
  cf_realm : string;
  cf_digest_secret : string;
  cf_allow_md5 : bool;
  cf_preferred_algorithm : DigestAlgorithm;
  cf_default_expires_seconds : Z;
  cf_max_expires_seconds : Z;
  cf_charset_policy : CharsetPolicy;
  cf_heartbeat_timeout_seconds : Z;
  cf_catalog_page_limit : Z;
  cf_max_registrations : Z;
  cf_auth_policy : AuthPolicy;
  cf_auth_max_failures_per_source : Z;
  cf_auth_rate_window_seconds : Z;
  cf_auth_rate_max_sources : Z;
  cf_compatibility : CompatibilityProfile
}.

Definition check_secret (secret : string) : result unit AccessError :=
  if (String.length secret <? MIN_SECRET_LEN)%nat then Err (AeInternal "digest secret too short") else Ok tt.

Definition config_new (domain_id realm digest_secret : string) : result Gb28181DomainConfig AccessError :=
  let? id := ok_or (domain_id_new domain_id) InvalidDomainId in
  let? _ := check_secret digest_secret in
  Ok (mkDomainConfig id realm digest_secret false Sha256 3600 86400 CsUtf8 90 128 100000 Required 10 60 65536
        CompatibilityProfile_default).

(** The builder methods. *)
Definition with_auth_policy (c : Gb28181DomainConfig) (p : AuthPolicy) : Gb28181DomainConfig :=
  mkDomainConfig (cf_domain_id c) (cf_realm c) (cf_digest_secret c) (cf_allow_md5 c) (cf_preferred_algorithm c)
    (cf_default_expires_seconds c) (cf_max_expires_seconds c) (cf_charset_policy c) (cf_heartbeat_timeout_seconds c)
    (cf_catalog_page_limit c) (cf_max_registrations c) p (cf_auth_max_failures_per_source c)
    (cf_auth_rate_window_seconds c) (cf_auth_rate_max_sources c) (cf_compatibility c).
Definition with_allow_md5 (c : Gb28181DomainConfig) (allow : bool) : Gb28181DomainConfig :=
  mkDomainConfig (cf_domain_id c) (cf_realm c) (cf_digest_secret c) allow (cf_preferred_algorithm c)
    (cf_default_expires_seconds c) (cf_max_expires_seconds c) (cf_charset_policy c) (cf_heartbeat_timeout_seconds c)
    (cf_catalog_page_limit c) (cf_max_registrations c) (cf_auth_policy c) (cf_auth_max_failures_per_source c)
    (cf_auth_rate_window_seconds c) (cf_auth_rate_max_sources c) (cf_compatibility c).
Definition with_preferred_algorithm (c : Gb28181DomainConfig) (a : DigestAlgorithm) : Gb28181DomainConfig :=
  mkDomainConfig (cf_domain_id c) (cf_realm c) (cf_digest_secret c) (cf_allow_md5 c) a
    (cf_default_expires_seconds c) (cf_max_expires_seconds c) (cf_charset_policy c) (cf_heartbeat_timeout_seconds c)
    (cf_catalog_page_limit c) (cf_max_registrations c) (cf_auth_policy c) (cf_auth_max_failures_per_source c)
    (cf_auth_rate_window_seconds c) (cf_auth_rate_max_sources c) (cf_compatibility c).
Definition with_digest_secret (c : Gb28181DomainConfig) (secret : string) : result Gb28181DomainConfig AccessError :=
  let? _ := check_secret secret in
  Ok (mkDomainConfig (cf_domain_id c) (cf_realm c) secret (cf_allow_md5 c) (cf_preferred_algorithm c)
    (cf_default_expires_seconds c) (cf_max_expires_seconds c) (cf_charset_policy c) (cf_heartbeat_timeout_seconds c)
    (cf_catalog_page_limit c) (cf_max_registrations c) (cf_auth_policy c) (cf_auth_max_failures_per_source c)
    (cf_auth_rate_window_seconds c) (cf_auth_rate_max_sources c) (cf_compatibility c)).
Definition with_max_registrations (c : Gb28181DomainConfig) (n : Z) : Gb28181DomainConfig :=
  mkDomainConfig (cf_domain_id c) (cf_realm c) (cf_digest_secret c) (cf_allow_md5 c) (cf_preferred_algorithm c)
    (cf_default_expires_seconds c) (cf_max_expires_seconds c) (cf_charset_policy c) (cf_heartbeat_timeout_seconds c)
    (cf_catalog_page_limit c) n (cf_auth_policy c) (cf_auth_max_failures_per_source c)
    (cf_auth_rate_window_seconds c) (cf_auth_rate_max_sources c) (cf_compatibility c).
Definition with_auth_rate_limit (c : Gb28181DomainConfig) (max_failures window_seconds max_sources : Z) :
    Gb28181DomainConfig :=
  mkDomainConfig (cf_domain_id c) (cf_realm c) (cf_digest_secret c) (cf_allow_md5 c) (cf_preferred_algorithm c)
    (cf_default_expires_seconds c) (cf_max_expires_seconds c) (cf_charset_policy c) (cf_heartbeat_timeout_seconds c)
    (cf_catalog_page_limit c) (cf_max_registrations c) (cf_auth_policy c) max_failures
    window_seconds max_sources (cf_compatibility c).
Definition with_compatibility (c : Gb28181DomainConfig) (p : CompatibilityProfile) : Gb28181DomainConfig :=
  mkDomainConfig (cf_domain_id c) (cf_realm c) (cf_digest_secret c) (cf_allow_md5 c) (cf_preferred_algorithm c)
    (cf_default_expires_seconds c) (cf_max_expires_seconds c) (cf_charset_policy c) (cf_heartbeat_timeout_seconds c)
    (cf_catalog_page_limit c) (cf_max_registrations c) (cf_auth_policy c) (cf_auth_max_failures_per_source c)
    (cf_auth_rate_window_seconds c) (cf_auth_rate_max_sources c) p.

(** ** Content types *)

Inductive ContentType := Manscdp | Mansrtsp.
#[global] Instance ContentType_eq_dec : EqDecision ContentType.
Proof. solve_decision. Defined.

Definition MANSCDP_CANONICAL : string := "application/manscdp+xml".
Definition MANSCDP_ALIASES : list string :=
  ["application/kslp+xml"; "application/ksdu+xml"; "application/kssp+xml"; "application/klcp+xml"].
Definition MANSRTSP_ALIASES : list string := ["application/ksptz+xml"].
Definition MAX_CONTENT_TYPE_BYTES : Z := 256.
Definition MAX_CONTENT_TYPE_ERROR_CHARS : nat := 64.

Definition is_manscdp (s : string) : bool :=
  eq_ignore_ascii_case s MANSCDP_CANONICAL || eq_ignore_ascii_case s "application/xml"
  || eq_ignore_ascii_case s "text/xml".
Definition is_mansrtsp (s : string) : bool := eq_ignore_ascii_case s "application/mansrtsp+xml".
Definition is_manscdp_alias (s : string) : bool := existsb (fun a => eq_ignore_ascii_case a s) MANSCDP_ALIASES.
Definition is_mansrtsp_alias (s : string) : bool := existsb (fun a => eq_ignore_ascii_case a s) MANSRTSP_ALIASES.
Definition truncate_content_type_error (s : string) : string := chars_take MAX_CONTENT_TYPE_ERROR_CHARS s.

Definition resolve_vendor_content_type (raw : option string) (profile : CompatibilityProfile) :
    result ContentType AccessError :=
  let raw := trim (default MANSCDP_CANONICAL raw) in
  if is_empty_str raw then Ok Manscdp
  else
    let without_params := trim (default raw (head (split ";" raw))) in
    if MAX_CONTENT_TYPE_BYTES <? str_len without_params
    then Err (UnsupportedContentType (truncate_content_type_error without_params))
    else if is_manscdp without_params then Ok Manscdp
    else if is_mansrtsp without_params then Ok Mansrtsp
    else if has profile MimeAlias && is_manscdp_alias without_params then Ok Manscdp
    else if has profile MimeAlias && is_mansrtsp_alias without_params then Ok Mansrtsp
    else Err (UnsupportedContentType (truncate_content_type_error without_params)).


(** ** The element tree *)

Inductive XmlElement := XmlEl {
  xe_name : string;
  xe_attributes : gmap string string;
  xe_text : string;
  xe_children : list XmlElement
}.

Definition xml_child (e : XmlElement) (name : string) : option XmlElement :=
  List.find (fun c => String.eqb (xe_name c) name) (xe_children e).
Definition child_text (e : XmlElement) (name : string) : option string :=
  (fun c => trim (xe_text c)) <$> xml_child e name.
Definition require_child_text (e : XmlElement) (name : string) : result string AccessError :=
  match child_text e name with
  | Some t => if is_empty_str t then Err (InvalidXml ("missing " +:+ name)) else Ok t
  | None => Err (InvalidXml ("missing " +:+ name))
  end.

Definition extend (known : list string) (m : gmap string string) (c : XmlElement) : gmap string string :=
  if bool_decide (xe_name c ∈ known) || negb (bool_decide (xe_children c = [])) then m
  else
    let value := trim (xe_text c) in
    if negb (is_empty_str (xe_name c)) && negb (is_empty_str value) then <[xe_name c := value]> m else m.
Definition extension_map (e : XmlElement) (known : list string) : gmap string string :=
  fold_left (extend known) (xe_children e) ∅.

Record XmlLimits := mkLimits {
  max_depth : nat; max_text_len : Z; max_events : nat; max_body_bytes : Z;
  max_children_per_element : nat; max_attributes_per_element : nat; max_total_attributes : Z;
  max_name_len : Z; max_extension_entries : nat; max_extension_key_len : Z; max_extension_value_len : Z
}.
Definition XmlLimits_default : XmlLimits :=
  mkLimits 32 4096 (100 * 100) 65536 (100 * 100) 64 100000 256 256 128 1024.

(** ** The reader *)

(** What [Reader::read_event] answers; the names are local names.  [None] stands
    for bytes that do not decode. *)
Inductive XmlEvent :=
| XDecl | XPI | XComment | XDocType
| XStart (name : option string) (attributes : list (option (option string * option string)))
| XEmpty (name : option string) (attributes : list (option (option string * option string)))
| XText (text : option string)
| XEnd (name : option string)
| XCData (text : string)
| XGeneralRef (entity : string)
| XError (message : string).

(** The events of a document before [Event::Eof]. *)
Class QuickXml := xml_events : string -> list XmlEvent.
(** [Encoding::for_label], by the name of the encoding, and
    [decode_without_bom_handling]: the text and whether there were errors. *)
Class EncodingRs := { enc_for_label : string -> option string; enc_decode : string -> string -> string * bool }.

Section reader.
Context `{QuickXml} `{EncodingRs}.

Definition validate_len (s : string) (max : Z) (msg : string) : result unit AccessError :=
  if max <? str_len s then Err (InvalidXml msg) else Ok tt.
Definition decode_name (name : option string) : result string AccessError := ok_or name (InvalidXml "invalid name").

(** The loop of [start_element] over the attributes. *)
Fixpoint read_attributes (limits : XmlLimits) (attrs : list (option (option string * option string)))
    (count : nat) (total : Z) (m : gmap string string) : result (gmap string string * Z) AccessError :=
  match attrs with
  | [] => Ok (m, total)
  | attr :: attrs =>
      let? kv := ok_or attr (InvalidXml "bad attribute") in
      let? key := decode_name kv.1 in
      let? _ := validate_len key (max_name_len limits) "attribute name too long" in
      let? value := ok_or kv.2 (InvalidXml "invalid attribute value") in
      let count := S count in
      let total := total + 1 in
      if (max_attributes_per_element limits <? count)%nat then Err (InvalidXml "too many attributes on element")
      else if max_total_attributes limits <? total then Err (InvalidXml "too many attributes in document")
      else
        let? _ := validate_len value (max_text_len limits) "attribute value too long" in
        read_attributes limits attrs count total (<[key := value]> m)
  end.
Definition start_element (limits : XmlLimits) (name : option string)
    (attrs : list (option (option string * option string))) (total : Z) : result (XmlElement * Z) AccessError :=
  let? name := decode_name name in
  let? _ := validate_len name (max_name_len limits) "element name too long" in
  let? (m, total) := read_attributes limits attrs 0 total ∅ in
  Ok (XmlEl name m "" [], total).

(** The open elements, innermost first, and the closed root. *)
Record TreeState := mkTree { ts_stack : list XmlElement; ts_root : option XmlElement; ts_total : Z }.

(** A closed element goes to its parent or becomes the root. *)
Definition close_element (limits : XmlLimits) (e : XmlElement) (stack : list XmlElement) (t : TreeState) :
    result TreeState AccessError :=
  match stack with
  | parent :: rest =>
      if (max_children_per_element limits <=? length (xe_children parent))%nat
      then Err (InvalidXml "too many children per element")
      else Ok (mkTree (XmlEl (xe_name parent) (xe_attributes parent) (xe_text parent) (xe_children parent ++ [e]) :: rest)
                 (ts_root t) (ts_total t))
  | [] =>
      match ts_root t with
      | Some _ => Err (InvalidXml "multiple top-level elements")
      | None => Ok (mkTree [] (Some e) (ts_total t))
      end
  end.

Definition on_event (limits : XmlLimits) (ev : XmlEvent) (t : TreeState) : result TreeState AccessError :=
  match ev with
  | XDecl | XPI | XComment => Ok t
  | XStart name attrs =>
      if (max_depth limits <=? length (ts_stack t))%nat then Err (InvalidXml "XML nesting too deep")
      else
        let? (e, total) := start_element limits name attrs (ts_total t) in
        Ok (mkTree (e :: ts_stack t) (ts_root t) total)
  | XEmpty name attrs =>
      let? (e, total) := start_element limits name attrs (ts_total t) in
      close_element limits e (ts_stack t) (mkTree (ts_stack t) (ts_root t) total)
  | XText text =>
      match ts_stack t with
      | [] => Ok t
      | top :: rest =>
          let? text := ok_or text (InvalidXml "bad entity") in
          let all := xe_text top +:+ trim text in
          if max_text_len limits <? str_len all then Err (InvalidXml "text node too long")
          else Ok (mkTree (XmlEl (xe_name top) (xe_attributes top) all (xe_children top) :: rest) (ts_root t) (ts_total t))
      end
  | XEnd name =>
      let? name := decode_name name in
      match ts_stack t with
      | [] => Err (InvalidXml "unexpected end tag")
      | top :: rest =>
          if negb (String.eqb (xe_name top) name) then Err (InvalidXml "mismatched XML tags")
          else close_element limits (XmlEl (xe_name top) (xe_attributes top) (trim (xe_text top)) (xe_children top)) rest t
      end
  | XDocType => Err (InvalidXml "DOCTYPE not allowed")
  | XError message => Err (InvalidXml message)
  | XCData _ | XGeneralRef _ => Ok t
  end.

(** The event loop; the end of the list is [Event::Eof]. *)
Fixpoint read_loop (limits : XmlLimits) (evs : list XmlEvent) (event_count : nat) (t : TreeState) :
    result TreeState AccessError :=
  if (max_events limits <? event_count)%nat then Err (InvalidXml "too many XML events")
  else match evs with
       | [] => Ok t
       | ev :: evs => let? t := on_event limits ev t in read_loop limits evs (S event_count) t
       end.

Definition build_tree (limits : XmlLimits) (evs : list XmlEvent) : result XmlElement AccessError :=
  let? t := read_loop limits evs 0 (mkTree [] None 0) in
  ok_or (ts_root t) (InvalidXml "empty XML document").

Definition detect_encoding (body : string) : option string :=
  let prefix := utf8_lossy (str_take 256 body) in
  letopt decl_start := find_str "<?xml" prefix in
  let from := str_drop decl_start prefix in
  letopt len := find_str "?>" from in
  let decl := str_take len from in
  letopt idx := find_str "encoding" decl in
  let after := trim_start (str_drop (idx + 8) decl) in
  letopt after := strip_prefix "=" after in
  match trim_start after with
  | EmptyString => None
  | String quote rest =>
      if negb (Ascii.eqb quote DQUOTE || Ascii.eqb quote "'") then None
      else
        letopt close := find_char quote rest in
        enc_for_label (str_take close rest)
  end.

Definition UTF_8 : string := "UTF-8".
Fixpoint try_decoders (declared : string) (body : string) (fallbacks : list string) : option string :=
  match fallbacks with
  | [] => None
  | f :: fallbacks =>
      if String.eqb f declared then try_decoders declared body fallbacks
      else match enc_decode f body with
           | (d, false) => Some d
           | (_, true) => try_decoders declared body fallbacks
           end
  end.
Definition decode_body (body : string) (profile : CompatibilityProfile) : result string AccessError :=
  let declared := default UTF_8 (detect_encoding body) in
  let bad := Err (InvalidXml "invalid byte sequence for declared encoding") in
  match enc_decode declared body with
  | (decoded, false) => Ok decoded
  | (_, true) =>
      if has profile CharsetFallback then
        match try_decoders declared body ["GBK"; "gb18030"; UTF_8] with Some d => Ok d | None => bad end
      else bad
  end.

Definition parse_xml_with_profile (body : string) (limits : XmlLimits) (profile : CompatibilityProfile) :
    result XmlElement AccessError :=
  if max_body_bytes limits <? str_len body then Err (InvalidXml "body too large")
  else
    let? decoded := decode_body body profile in
    build_tree limits (xml_events decoded).
Definition parse_xml (body : string) (limits : XmlLimits) : result XmlElement AccessError :=
  parse_xml_with_profile body limits CompatibilityProfile_default.
End reader.

(** ** The writer *)

Definition escape_text_char (a : ascii) : string :=
  if Ascii.eqb a "&" then "&amp;" else if Ascii.eqb a "<" then "&lt;"
  else if Ascii.eqb a ">" then "&gt;" else String a EmptyString.
Definition escape_attr_char (a : ascii) : string :=
  if Ascii.eqb a DQUOTE then "&quot;" else if Ascii.eqb a "'" then "&apos;" else escape_text_char a.
Fixpoint concat_map (f : ascii -> string) (s : string) : string :=
  match s with EmptyString => EmptyString | String a s => f a +:+ concat_map f s end.
Definition escape_text (value : string) : string := concat_map escape_text_char value.
Definition escape_attr (value : string) : string := concat_map escape_attr_char value.

Definition is_name_char (a : ascii) : bool :=
  is_ascii_digit a || is_ascii_lowercase a || is_ascii_uppercase a || Ascii.eqb a "_" || Ascii.eqb a "-".
Definition validate_xml_name (name : string) : result unit AccessError :=
  if is_empty_str name then Err (InvalidXml "empty element name")
  else if negb (str_all is_name_char name) then Err (InvalidXml "invalid character in XML name")
  else Ok tt.

Definition quoted (s : string) : string := String DQUOTE (s +:+ String DQUOTE EmptyString).
Fixpoint write_attributes (attrs : list (string * string)) : result string AccessError :=
  match attrs with
  | [] => Ok ""
  | (key, value) :: attrs =>
      let? _ := validate_xml_name key in
      let? rest := write_attributes attrs in
      Ok (" " +:+ key +:+ "=" +:+ quoted (escape_attr value) +:+ rest)
  end.

Section writer.
Context (order : hash_order string string) (limits : XmlLimits).

Fixpoint write_element (e : XmlElement) (depth : nat) {struct e} : result string AccessError :=
  let fix write_children (l : list XmlElement) : result string AccessError :=
    match l with
    | [] => Ok ""
    | c :: l => let? x := write_element c (S depth) in let? y := write_children l in Ok (x +:+ y)
    end in
  match e with
  | XmlEl name attributes text children =>
      if (max_depth limits <? depth)%nat then Err (InvalidXml "XML nesting too deep")
      else if (max_children_per_element limits <? length children)%nat
      then Err (InvalidXml "too many children per element")
      else
        let? _ := validate_xml_name name in
        let? attrs := write_attributes (ho_iter order attributes) in
        let start := "<" +:+ name +:+ attrs in
        if is_empty_str text && bool_decide (children = []) then Ok (start +:+ "/>")
        else if negb (is_empty_str text) && (max_text_len limits <? str_len text)
        then Err (InvalidXml "text node too long")
        else
          let? inner := write_children children in
          Ok (start +:+ ">" +:+ escape_text text +:+ inner +:+ "</" +:+ name +:+ ">")
  end.
End writer.

Definition XML_DECLARATION : string :=
  "<?xml version=" +:+ quoted "1.0" +:+ " encoding=" +:+ quoted "UTF-8" +:+ "?>".
Definition encode_xml (order : hash_order string string) (e : XmlElement) (declaration : bool) :
    result string AccessError :=
  let? s := write_element order XmlLimits_default e 0 in
  Ok ((if declaration : bool then XML_DECLARATION else "") +:+ s).
