(* ===== verification/GbMessages.v ===== *)
(** * MANSCDP messages

    [cheetah-gb28181-module/src/xml]: what a device reports ([keepalive.rs],
    [media_status.rs], [device_info.rs], [device_status.rs], [alarm.rs],
    [mobile_position.rs], [record_info.rs], [catalog.rs]) read from the element
    tree, and the notifications, queries ([query.rs]) and controls
    ([device_control.rs]) the server writes.

    The texts of a time ([to_rfc3339], of the [time] crate) and of a float are the
    classes [Rfc3339] and [ShowF64]. *)

From S2P Require Import Prelude RustStr SipUri Domain Compatibility GbXml.

Open Scope string_scope.
Open Scope list_scope.
Open Scope Z_scope.

(** The guard all [extract_*] functions start with. *)
Definition expect_cmd (root : XmlElement) (cmd : string) : result unit AccessError :=
  let? cmd_type := ok_or (child_text root "CmdType") (InvalidXml "missing CmdType") in
  if String.eqb cmd_type cmd then Ok tt else Err (UnsupportedCmdType cmd_type).

(** [child_element] and [text_child]. *)
Definition text_child (name text : string) : XmlElement := XmlEl name ∅ text [].
Definition opt_child (name : string) (value : option string) : list XmlElement :=
  match value with Some v => [text_child name v] | None => [] end.

Definition parse_u32 (value : string) : result Z AccessError :=
  ok_or (parse_uint U32_MAX (trim value)) (InvalidXml ("invalid numeric value: " +:+ value)).

(** ** Keepalive *)

Record KeepaliveInfo := mkKeepalive {
  ka_sn : string; ka_device_id : string; ka_status : string; ka_extensions : gmap string string }.
Record KeepaliveResponse := mkKeepaliveResponse {
  kr_sn : string; kr_device_id : string; kr_result : string; kr_extensions : gmap string string }.
Definition KNOWN_KEEPALIVE_FIELDS : list string := ["CmdType"; "SN"; "DeviceID"; "Status"].
Definition KNOWN_KEEPALIVE_RESPONSE_FIELDS : list string := ["CmdType"; "SN"; "DeviceID"; "Result"].

Definition extract_keepalive (root : XmlElement) : result KeepaliveInfo AccessError :=
  let? _ := expect_cmd root "Keepalive" in
  let? sn := require_child_text root "SN" in
  let? device_id := require_child_text root "DeviceID" in
  let? status := require_child_text root "Status" in
  Ok (mkKeepalive sn device_id status (extension_map root KNOWN_KEEPALIVE_FIELDS)).

Definition extract_keepalive_response (root : XmlElement) : result KeepaliveResponse AccessError :=
  if negb (String.eqb (xe_name root) "Response")
  then Err (InvalidXml ("expected Response root, got " +:+ xe_name root))
  else
    let? _ := expect_cmd root "Keepalive" in
    let? sn := require_child_text root "SN" in
    let? device_id := require_child_text root "DeviceID" in
    let? res := require_child_text root "Result" in
    Ok (mkKeepaliveResponse sn device_id res (extension_map root KNOWN_KEEPALIVE_RESPONSE_FIELDS)).

Definition keepalive_tree (sn device_id status : string) : XmlElement :=
  XmlEl "Notify" ∅ "" [text_child "CmdType" "Keepalive"; text_child "SN" sn;
                       text_child "DeviceID" device_id; text_child "Status" status].

(** ** Media status *)

Record MediaStatusInfo := mkMediaStatus {
  ms_sn : string; ms_device_id : string; ms_notify_type : string; ms_extensions : gmap string string }.
Definition KNOWN_MEDIA_STATUS_FIELDS : list string := ["CmdType"; "SN"; "DeviceID"; "NotifyType"].
Definition extract_media_status (root : XmlElement) : result MediaStatusInfo AccessError :=
  let? _ := expect_cmd root "MediaStatus" in
  let? sn := require_child_text root "SN" in
  let? device_id := require_child_text root "DeviceID" in
  let? notify_type := require_child_text root "NotifyType" in
  Ok (mkMediaStatus sn device_id notify_type (extension_map root KNOWN_MEDIA_STATUS_FIELDS)).

(** ** Device info and status *)

Record DeviceInfoResponse := mkDeviceInfo {
  di_sn : string; di_device_id : string; di_result : option string; di_manufacturer : option string;
  di_model : option string; di_firmware : option string; di_max_camera : option string;
  di_max_alarm : option string; di_max_output : option string }.
Definition extract_device_info (root : XmlElement) : result DeviceInfoResponse AccessError :=
  let? _ := expect_cmd root "DeviceInfo" in
  let? sn := require_child_text root "SN" in
  let? device_id := require_child_text root "DeviceID" in
  let f := child_text root in
  Ok (mkDeviceInfo sn device_id (f "Result") (f "Manufacturer") (f "Model") (f "Firmware") (f "MaxCamera")
        (f "MaxAlarm") (f "MaxOutput")).

Record DeviceStatusResponse := mkDeviceStatus {
  dst_sn : string; dst_device_id : string; dst_result : option string; dst_online : option string;
  dst_status : option string; dst_reason : option string; dst_invalid_equip : option string }.
Definition extract_device_status (root : XmlElement) : result DeviceStatusResponse AccessError :=
  let? _ := expect_cmd root "DeviceStatus" in
  let? sn := require_child_text root "SN" in
  let? device_id := require_child_text root "DeviceID" in
  let f := child_text root in
  Ok (mkDeviceStatus sn device_id (f "Result") (f "Online") (f "Status") (f "Reason") (f "InvalidEquip")).
Definition device_status_tree (sn device_id : string) (online : bool) : XmlElement :=
  XmlEl "Notify" ∅ "" [text_child "CmdType" "DeviceStatus"; text_child "SN" sn; text_child "DeviceID" device_id;
                       text_child "Online" (if online then "ONLINE" else "OFFLINE"); text_child "Status" "OK"].

(** ** Alarms and positions *)

Record AlarmInfo := mkAlarm {
  al_sn : string; al_device_id : string; al_priority : option string; al_method : option string;
  al_type : option string; al_time : option string; al_info : option string }.
Definition extract_alarm (root : XmlElement) : result AlarmInfo AccessError :=
  let? _ := expect_cmd root "Alarm" in
  let? sn := require_child_text root "SN" in
  let? device_id := require_child_text root "DeviceID" in
  let f := child_text root in
  Ok (mkAlarm sn device_id (f "AlarmPriority") (f "AlarmMethod") (f "AlarmType") (f "AlarmTime") (f "Info")).
Definition alarm_tree (a : AlarmInfo) : XmlElement :=
  XmlEl "Notify" ∅ ""
    ([text_child "CmdType" "Alarm"; text_child "SN" (al_sn a); text_child "DeviceID" (al_device_id a)]
     ++ opt_child "AlarmPriority" (al_priority a) ++ opt_child "AlarmMethod" (al_method a)
     ++ opt_child "AlarmType" (al_type a) ++ opt_child "AlarmTime" (al_time a) ++ opt_child "Info" (al_info a)).

Record MobilePositionInfo := mkPosition {
  mp_sn : string; mp_device_id : string; mp_time : option string; mp_longitude : option string;
  mp_latitude : option string; mp_speed : option string; mp_direction : option string; mp_altitude : option string }.
Definition extract_mobile_position (root : XmlElement) : result MobilePositionInfo AccessError :=
  let? _ := expect_cmd root "MobilePosition" in
  let? sn := require_child_text root "SN" in
  let? device_id := require_child_text root "DeviceID" in
  let f := child_text root in
  Ok (mkPosition sn device_id (f "Time") (f "Longitude") (f "Latitude") (f "Speed") (f "Direction") (f "Altitude")).
Definition mobile_position_tree (p : MobilePositionInfo) : XmlElement :=
  XmlEl "Notify" ∅ ""
    ([text_child "CmdType" "MobilePosition"; text_child "SN" (mp_sn p); text_child "DeviceID" (mp_device_id p)]
     ++ opt_child "Time" (mp_time p) ++ opt_child "Longitude" (mp_longitude p) ++ opt_child "Latitude" (mp_latitude p)
     ++ opt_child "Speed" (mp_speed p) ++ opt_child "Direction" (mp_direction p) ++ opt_child "Altitude" (mp_altitude p)).

(** ** Records *)

Record RecordItem := mkRecord {
  ri_device_id : string; ri_name : option string; ri_file_path : option string; ri_start_time : option string;
  ri_end_time : option string; ri_secrecy : option string; ri_record_type : option string;
  ri_recorder_id : option string; ri_file_size : option string }.
Record RecordInfoResponse := mkRecordInfo {
  rr_sn : string; rr_device_id : string; rr_name : option string; rr_sum_num : Z; rr_num : Z;
  rr_items : list RecordItem }.

(** An item needs a device; [parse_item] of both lists. *)
Definition item_device (item : XmlElement) : option string :=
  letopt device_id := child_text item "DeviceID" in
  if is_empty_str device_id then None else Some device_id.
Definition items_of (list_el : XmlElement) : list XmlElement :=
  List.filter (fun c => String.eqb (xe_name c) "Item") (xe_children list_el).

Definition parse_record_item (item : XmlElement) : option RecordItem :=
  letopt device_id := item_device item in
  let f := child_text item in
  Some (mkRecord device_id (f "Name") (f "FilePath") (f "StartTime") (f "EndTime") (f "Secrecy") (f "Type")
          (f "RecorderID") (f "FileSize")).
Definition extract_record_info (root : XmlElement) : result RecordInfoResponse AccessError :=
  let? _ := expect_cmd root "RecordInfo" in
  let? record_list := ok_or (xml_child root "RecordList") (InvalidXml "missing RecordList") in
  let? sn := require_child_text root "SN" in
  let? device_id := require_child_text root "DeviceID" in
  let name := child_text root "Name" in
  let? sum_text := require_child_text root "SumNum" in
  let? sum_num := parse_u32 sum_text in
  let items := omap parse_record_item (items_of record_list) in
  Ok (mkRecordInfo sn device_id name sum_num (wrap32 (Z.of_nat (length items))) items).

(** ** Catalog *)

Record CatalogItem := mkCatalogItem {
  ci_device_id : string; ci_name : option string; ci_manufacturer : option string; ci_model : option string;
  ci_owner : option string; ci_civil_code : option string; ci_block : option string; ci_address : option string;
  ci_parental : option string; ci_parent_id : option string; ci_safety_way : option string;
  ci_register_way : option string; ci_cert_num : option string; ci_certifiable : option string;
  ci_err_code : option string; ci_end_time : option string; ci_secrecy : option string;
  ci_ip_address : option string; ci_port : option string; ci_status : option string;
  ci_longitude : option string; ci_latitude : option string }.
Record CatalogResponse := mkCatalog {
  cr_sn : string; cr_device_id : string; cr_sum_num : Z; cr_num : Z; cr_items : list CatalogItem }.

Definition parse_catalog_item (item : XmlElement) : option CatalogItem :=
  letopt device_id := item_device item in
  let f := child_text item in
  Some (mkCatalogItem device_id (f "Name") (f "Manufacturer") (f "Model") (f "Owner") (f "CivilCode") (f "Block")
    (f "Address") (f "Parental") (f "ParentID") (f "SafetyWay") (f "RegisterWay") (f "CertNum") (f "Certifiable")
    (f "ErrCode") (f "EndTime") (f "Secrecy") (f "IPAddress") (f "Port") (f "Status") (f "Longitude") (f "Latitude")).

Definition extract_catalog_with_profile (root : XmlElement) (profile : CompatibilityProfile) :
    result CatalogResponse AccessError :=
  let? _ := expect_cmd root "Catalog" in
  if negb (String.eqb (xe_name root) "Response")
     && negb (has profile CatalogNotify && String.eqb (xe_name root) "Notify")
  then Err (InvalidXml ("unexpected Catalog root element: " +:+ xe_name root))
  else
    let? device_list := ok_or (xml_child root "DeviceList") (InvalidXml "missing DeviceList") in
    let? sn := require_child_text root "SN" in
    let? device_id := require_child_text root "DeviceID" in
    let? sum_text := require_child_text root "SumNum" in
    let? sum_num := parse_u32 sum_text in
    let elements := items_of device_list in
    let items := omap parse_catalog_item elements in
    let dropped := wrap32 (Z.of_nat (length elements - length items)) in
    let count := wrap32 (Z.of_nat (length items)) in
    let declared := letopt v := xe_attributes device_list !! "Num" in ok (parse_u32 v) in
    let num := default count declared in
    let present := wrap32 (count + dropped) in
    if bool_decide (is_Some declared) && negb (has profile CatalogCountFragment) && negb (num =? present)
    then Err (InvalidXml ("Catalog Num " +:+ show_uint num +:+ " does not match item element count " +:+ show_uint present))
    else if bool_decide (is_Some declared) && negb (has profile CatalogCountFragment) && (0 <? sum_num) && (sum_num <? num)
    then Err (InvalidXml ("Catalog Num " +:+ show_uint num +:+ " exceeds SumNum " +:+ show_uint sum_num))
    else Ok (mkCatalog sn device_id sum_num num items).

Record CatalogQuery := mkCatalogQuery { cq_sn : string; cq_device_id : string }.
(** [parse_catalog_query], after [parse_xml]. *)
Definition extract_catalog_query (root : XmlElement) : result CatalogQuery AccessError :=
  if negb (String.eqb (xe_name root) "Query") then Err (InvalidXml ("expected Query root, got " +:+ xe_name root))
  else
    let? _ := expect_cmd root "Catalog" in
    let? device_id := require_child_text root "DeviceID" in
    let? sn := require_child_text root "SN" in
    Ok (mkCatalogQuery sn device_id).

Definition catalog_item_tree (i : CatalogItem) : XmlElement :=
  XmlEl "Item" ∅ ""
    (text_child "DeviceID" (ci_device_id i)
     :: opt_child "Name" (ci_name i) ++ opt_child "Manufacturer" (ci_manufacturer i) ++ opt_child "Model" (ci_model i)
     ++ opt_child "Owner" (ci_owner i) ++ opt_child "CivilCode" (ci_civil_code i) ++ opt_child "Block" (ci_block i)
     ++ opt_child "Address" (ci_address i) ++ opt_child "Parental" (ci_parental i) ++ opt_child "ParentID" (ci_parent_id i)
     ++ opt_child "SafetyWay" (ci_safety_way i) ++ opt_child "RegisterWay" (ci_register_way i)
     ++ opt_child "CertNum" (ci_cert_num i) ++ opt_child "Certifiable" (ci_certifiable i)
     ++ opt_child "ErrCode" (ci_err_code i) ++ opt_child "EndTime" (ci_end_time i) ++ opt_child "Secrecy" (ci_secrecy i)
     ++ opt_child "IPAddress" (ci_ip_address i) ++ opt_child "Port" (ci_port i) ++ opt_child "Status" (ci_status i)
     ++ opt_child "Longitude" (ci_longitude i) ++ opt_child "Latitude" (ci_latitude i)).
Definition catalog_tree (sn device_id : string) (sum_num : Z) (items : list CatalogItem) : XmlElement :=
  XmlEl "Response" ∅ ""
    [text_child "CmdType" "Catalog"; text_child "SN" sn; text_child "DeviceID" device_id;
     text_child "SumNum" (show_uint sum_num);
     XmlEl "DeviceList" {[ "Num" := show_uint (Z.of_nat (length items)) ]} "" (map catalog_item_tree items)].

Section bodies.
Context `{QuickXml} `{EncodingRs} (order : hash_order string string).

(** The [parse_*] functions on a raw body. *)
Definition parse_body {A} (extract : XmlElement -> result A AccessError) (body : string) : result A AccessError :=
  let? root := parse_xml body XmlLimits_default in extract root.
Definition parse_keepalive : string -> result KeepaliveInfo AccessError := parse_body extract_keepalive.
Definition parse_keepalive_response : string -> result KeepaliveResponse AccessError := parse_body extract_keepalive_response.
Definition parse_media_status : string -> result MediaStatusInfo AccessError := parse_body extract_media_status.
Definition parse_device_info : string -> result DeviceInfoResponse AccessError := parse_body extract_device_info.
Definition parse_device_status : string -> result DeviceStatusResponse AccessError := parse_body extract_device_status.
Definition parse_alarm : string -> result AlarmInfo AccessError := parse_body extract_alarm.
Definition parse_mobile_position : string -> result MobilePositionInfo AccessError := parse_body extract_mobile_position.
Definition parse_record_info : string -> result RecordInfoResponse AccessError := parse_body extract_record_info.
Definition parse_catalog : string -> result CatalogResponse AccessError :=
  parse_body (fun root => extract_catalog_with_profile root CompatibilityProfile_default).
Definition parse_catalog_query : string -> result CatalogQuery AccessError := parse_body extract_catalog_query.

(** The [build_*] functions. *)
Definition build_keepalive (sn device_id status : string) : result string AccessError :=
  encode_xml order (keepalive_tree sn device_id status) true.
Definition build_device_status_notify (sn device_id : string) (online : bool) : result string AccessError :=
  encode_xml order (device_status_tree sn device_id online) true.
Definition build_alarm_notify (a : AlarmInfo) : result string AccessError := encode_xml order (alarm_tree a) true.
Definition build_mobile_position_notify (p : MobilePositionInfo) : result string AccessError :=
  encode_xml order (mobile_position_tree p) true.
Definition build_catalog_response (sn device_id : string) (sum_num : Z) (items : list CatalogItem) :
    result string AccessError := encode_xml order (catalog_tree sn device_id sum_num items) true.
End bodies.

(** ** Queries and controls

    [xml/query.rs], [xml/device_control.rs]: the bodies of the requests the server
    sends to a device, with the eight bytes of a PTZ command.  The texts of a time
    ([UtcTimestamp::to_rfc3339], by the [time] crate) and of a float are the classes
    [Rfc3339] and [ShowF64]. *)

Class Rfc3339 := to_rfc3339 : UtcTimestamp -> result string string.
Class ShowF64 := show_f64 : spec_float -> string.

(** ** Queries *)

Definition cmd_type (k : QueryKind) : string :=
  match k with
  | QkCatalog => "Catalog" | QkDeviceInfo => "DeviceInfo" | QkDeviceStatus => "DeviceStatus"
  | QkRecordInfo => "RecordInfo" | QkPresetQuery => "PresetQuery" | QkConfigDownload => "ConfigDownload"
  end.

Record QueryRequest := mkQuery {
  qr_sn : string; qr_device_id : string; qr_kind : QueryKind; qr_start_time : option UtcTimestamp;
  qr_end_time : option UtcTimestamp; qr_config_type : option string; qr_scale : option spec_float }.
Definition query_from_command (sn device_id : string) (c : QueryCommand) : QueryRequest :=
  mkQuery sn device_id (qc_kind c) (qc_start_time c) (qc_end_time c) (qc_config_type c) (qc_scale c).

Section query.
Context `{Rfc3339} `{ShowF64}.

Definition gb_time (ts : UtcTimestamp) : result string AccessError :=
  let? s := map_err AeInternal (to_rfc3339 ts) in
  Ok (if is_char_boundary s 19 then str_take 19 s else s).

Definition query_payload (q : QueryRequest) : result (list XmlElement) AccessError :=
  match qr_kind q with
  | QkRecordInfo =>
      let? start := ok_or (qr_start_time q) (InvalidXml "RecordInfo requires start_time") in
      let? stop := ok_or (qr_end_time q) (InvalidXml "RecordInfo requires end_time") in
      let? start := gb_time start in
      let? stop := gb_time stop in
      Ok ([text_child "StartTime" start; text_child "EndTime" stop; text_child "Type" "all"]
          ++ opt_child "Scale" (show_f64 <$> qr_scale q))
  | QkConfigDownload => Ok [text_child "ConfigType" (default "BasicParam" (qr_config_type q))]
  | _ => Ok []
  end.
Definition query_tree (q : QueryRequest) : result XmlElement AccessError :=
  let? payload := query_payload q in
  Ok (XmlEl "Query" ∅ "" ([text_child "CmdType" (cmd_type (qr_kind q)); text_child "SN" (qr_sn q);
                           text_child "DeviceID" (qr_device_id q)] ++ payload)).
Definition query_encode_xml (order : hash_order string string) (q : QueryRequest) : result string AccessError :=
  let? t := query_tree q in encode_xml order t true.
End query.

(** ** Controls *)

Module Control.
Definition HEX : string := "0123456789ABCDEF".
Definition hex_nibble (n : Z) : string :=
  match String.get (Z.to_nat n) HEX with Some a => String a EmptyString | None => "" end.
Definition hex_encode_upper (bytes : list Z) : string :=
  String.concat "" (map (fun b => hex_nibble (Z.shiftr b 4) +:+ hex_nibble (Z.land b 15)) bytes).

Definition PTZ_FIRST : Z := 0xA5.
Definition PTZ_SECOND : Z := 0x0F.
Definition PTZ_THIRD : Z := 0x01.
Definition RIGHT : Z := 0x01.
Definition LEFT : Z := 0x02.
Definition DOWN : Z := 0x04.
Definition UP : Z := 0x08.
Definition ZOOM_IN : Z := 0x10.
Definition ZOOM_OUT : Z := 0x20.

Record PtzCommand := mkPtz {
  pan : Z; tilt : Z; zoom : Z; max_pan_tilt_speed : Z; max_zoom_speed : Z }.
Definition ptz_new : PtzCommand := mkPtz 0 0 0 63 15.

Definition clamp_speed_i8 (value max : Z) : Z := Z.abs (Z.max (- max) (Z.min max value)).
Definition direction_bits (v pos neg : Z) : Z := if 0 <? v then pos else if v <? 0 then neg else 0.

Definition checksum (bytes : list Z) : Z := Z.land (fold_left Z.add bytes 0) 0xFF.
Definition ptz_bytes (c : PtzCommand) : list Z :=
  let h_speed := clamp_speed_i8 (pan c) (max_pan_tilt_speed c) in
  let v_speed := clamp_speed_i8 (tilt c) (max_pan_tilt_speed c) in
  let zoom_speed := clamp_speed_i8 (zoom c) (Z.min (max_zoom_speed c) 15) in
  let cmd := Z.lor (Z.lor (direction_bits (pan c) RIGHT LEFT) (direction_bits (tilt c) UP DOWN))
                   (direction_bits (zoom c) ZOOM_IN ZOOM_OUT) in
  let zoom_byte := Z.land (Z.shiftl zoom_speed 4) 0xFF in
  let buf := [PTZ_FIRST; PTZ_SECOND; PTZ_THIRD; cmd; h_speed; v_speed; zoom_byte] in
  buf ++ [checksum buf].
Definition ptz_encode (c : PtzCommand) : string := hex_encode_upper (ptz_bytes c).

Inductive PresetAction := PSet | PCall | PDelete.
Definition cmd_byte (a : PresetAction) : Z := match a with PSet => 0x81 | PCall => 0x82 | PDelete => 0x83 end.
Record PresetCommand := mkPreset { ps_action : PresetAction; ps_point : Z }.
Definition preset_bytes (c : PresetCommand) : list Z :=
  let buf := [PTZ_FIRST; PTZ_SECOND; 0; cmd_byte (ps_action c); 0; ps_point c; 0] in
  buf ++ [checksum buf].
Definition preset_encode (c : PresetCommand) : string := hex_encode_upper (preset_bytes c).

Inductive DeviceControlKind :=
| CkPtz (c : PtzCommand)
| CkPreset (c : PresetCommand)
| CkGuard (on : bool)
| CkAlarmReset (alarm_method : option string)
| CkRecord (on : bool)
| CkTeleBoot
| CkIFrame
| CkDeviceConfig (config_type : option string).
Record DeviceControlRequest := mkControl { cr_sn : string; cr_device_id : string; cr_kind : DeviceControlKind }.

Definition control_payload (k : DeviceControlKind) : string * list XmlElement :=
  match k with
  | CkPtz c => ("DeviceControl", [text_child "PTZCmd" (ptz_encode c)])
  | CkPreset c => ("DeviceControl", [text_child "PTZCmd" (preset_encode c)])
  | CkGuard on => ("DeviceControl", [text_child "GuardCmd" (if on then "SetGuard" else "ResetGuard")])
  | CkRecord on => ("DeviceControl", [text_child "RecordCmd" (if on then "Record" else "StopRecord")])
  | CkTeleBoot => ("DeviceControl", [text_child "TeleBoot" "Boot"])
  | CkIFrame => ("DeviceControl", [text_child "IFrameCmd" "Send"])
  | CkAlarmReset m => ("DeviceControl", text_child "AlarmCmd" "ResetAlarm" :: opt_child "AlarmMethod" m)
  | CkDeviceConfig t => ("DeviceConfig", [XmlEl (default "BasicParam" t) ∅ "" []])
  end.
Definition control_tree (r : DeviceControlRequest) : XmlElement :=
  let '(cmd, payload) := control_payload (cr_kind r) in
  XmlEl "Control" ∅ "" ([text_child "CmdType" cmd; text_child "SN" (cr_sn r);
                         text_child "DeviceID" (cr_device_id r)] ++ payload).
Definition control_encode_xml (order : hash_order string string) (r : DeviceControlRequest) : result string AccessError :=
  encode_xml order (control_tree r) true.

Record DeviceControlResponse := mkControlResponse {
  cp_sn : string; cp_device_id : string; cp_result : option string }.
Definition extract_device_control_response (root : XmlElement) : result DeviceControlResponse AccessError :=
  let? _ := expect_cmd root "DeviceControl" in
  let? sn := require_child_text root "SN" in
  let? device_id := require_child_text root "DeviceID" in
  Ok (mkControlResponse sn device_id (child_text root "Result")).
End Control.

(** ** Reading a PTZ command

    A device takes the sixteen hexadecimal digits apart: three fixed bytes, the
    direction bits, the speeds, and a checksum it verifies. *)

Definition signed_speed (positive negative : bool) (speed : Z) : Z :=
  if positive then speed else if negative then - speed else 0.
Definition ptz_read (bytes : list Z) : option (Z * Z * Z) :=
  match bytes with
  | [first; second; third; cmd; h; v; z; sum] =>
      if (first =? 0xA5) && (second =? 0x0F) && (third =? 0x01)
         && (sum =? (first + second + third + cmd + h + v + z) mod 256)
      then Some (signed_speed (Z.testbit cmd 0) (Z.testbit cmd 1) h,
                 signed_speed (Z.testbit cmd 3) (Z.testbit cmd 2) v,
                 signed_speed (Z.testbit cmd 4) (Z.testbit cmd 5) (Z.shiftr z 4))
      else None
  | _ => None
  end.
