(* ===== verification/GbXmlProps.v ===== *)
(** * Theorems on XML bodies

    The reader rebuilds a tree from its events; a catalog comes back as it was
    written; PTZ commands are read back by the device.  The text of an entity is
    lost. *)

From S2P Require Import Prelude RustStr SipEndpoint Compatibility GbXml GbMessages.

Open Scope string_scope.
Open Scope list_scope.
Open Scope Z_scope.

(** ** The events of a tree *)

Section tree.
Context (order : hash_order string string).

Definition attr_events (m : gmap string string) : list (option (option string * option string)) :=
  map (fun kv => Some (Some kv.1, Some kv.2)) (ho_iter order m).
Definition is_leaf (text : string) (children : list XmlElement) : bool := is_empty_str text && bool_decide (children = []).
Definition text_events (text : string) : list XmlEvent := if is_empty_str text then [] else [XText (Some text)].

(** The events of a document whose texts have no markup characters. *)
Fixpoint tree_events (e : XmlElement) : list XmlEvent :=
  match e with
  | XmlEl name attributes text children =>
      if is_leaf text children then [XEmpty (Some name) (attr_events attributes)]
      else XStart (Some name) (attr_events attributes) :: text_events text
           ++ flat_map tree_events children ++ [XEnd (Some name)]
  end.
Fixpoint attr_count (e : XmlElement) : Z :=
  match e with
  | XmlEl _ attributes _ children => Z.of_nat (size attributes) + fold_right (fun c n => attr_count c + n) 0 children
  end.

Section limits.
Context (limits : XmlLimits).

(** An element at this depth is within the limits; texts are trimmed. *)
Fixpoint node_fits (depth : nat) (e : XmlElement) : bool :=
  match e with
  | XmlEl name attributes text children =>
      (str_len name <=? max_name_len limits)
      && (size attributes <=? max_attributes_per_element limits)%nat
      && forallb (fun kv => (str_len kv.1 <=? max_name_len limits) && (str_len kv.2 <=? max_text_len limits))
           (map_to_list attributes)
      && String.eqb (trim text) text && (str_len text <=? max_text_len limits)
      && (length children <=? max_children_per_element limits)%nat
      && (is_leaf text children || (depth <? max_depth limits)%nat)
      && forallb (node_fits (S depth)) children
  end.
Definition fits (e : XmlElement) : bool :=
  node_fits 0 e && (length (tree_events e) <=? max_events limits)%nat && (attr_count e <=? max_total_attributes limits).

Lemma node_fits_inv depth name attributes text children :
  node_fits depth (XmlEl name attributes text children) = true ->
  str_len name <= max_name_len limits
  /\ (size attributes <= max_attributes_per_element limits)%nat
  /\ Forall (fun kv => str_len kv.1 <= max_name_len limits /\ str_len kv.2 <= max_text_len limits) (map_to_list attributes)
  /\ trim text = text /\ str_len text <= max_text_len limits
  /\ (length children <= max_children_per_element limits)%nat
  /\ (is_leaf text children = true \/ (depth < max_depth limits)%nat)
  /\ Forall (fun c => node_fits (S depth) c = true) children.
Proof.
  cbn [node_fits]. rewrite !andb_true_iff, orb_true_iff, !Z.leb_le, !Nat.leb_le, Nat.ltb_lt, String.eqb_eq.
  intros [[[[[[[? ?] Hattr] ?] ?] ?] ?] Hc]. split_and!; try done.
  - apply Forall_forall. intros kv Hin. rewrite forallb_forall in Hattr.
    specialize (Hattr kv ltac:(by apply list_elem_of_In)). rewrite andb_true_iff, !Z.leb_le in Hattr. done.
  - apply Forall_forall. intros c Hin. rewrite forallb_forall in Hc. by apply Hc, list_elem_of_In.
Qed.

Lemma read_attributes_list l count total m :
  Forall (fun kv : string * string => str_len kv.1 <= max_name_len limits /\ str_len kv.2 <= max_text_len limits) l ->
  (count + length l <= max_attributes_per_element limits)%nat ->
  total + Z.of_nat (length l) <= max_total_attributes limits ->
  read_attributes limits (map (fun kv => Some (Some kv.1, Some kv.2)) l) count total m
  = Ok (fold_left (fun m kv => <[kv.1 := kv.2]> m) l m, total + Z.of_nat (length l)).
Proof.
  revert count total m. induction l as [|[k v] l IH]; intros count total m Hl Hc Ht; simpl in *.
  { by rewrite Z.add_0_r. }
  apply Forall_cons in Hl as [[Hk Hv] Hl]. simpl in *. unfold validate_len.
  rewrite (proj2 (Z.ltb_ge _ _) Hk). simpl. rewrite (proj2 (Nat.ltb_ge _ _)) by lia.
  rewrite (proj2 (Z.ltb_ge _ _)) by lia. rewrite (proj2 (Z.ltb_ge _ _) Hv). simpl.
  rewrite IH by (done || lia). do 2 f_equal. lia.
Qed.

Lemma attrs_fold_lookup (l : list (string * string)) (m : gmap string string) k :
  NoDup l.*1 ->
  fold_left (fun m kv => <[kv.1 := kv.2]> m) l m !! k
  = match (list_to_map l : gmap string string) !! k with Some v => Some v | None => m !! k end.
Proof.
  revert m. induction l as [|[x v] l IH]; intros m Hnd; simpl; [by rewrite lookup_empty|].
  apply NoDup_cons in Hnd as [Hx Hnd]. rewrite IH by done. destruct (decide (k = x)) as [->|Hne].
  - rewrite !lookup_insert_eq. by rewrite not_elem_of_list_to_map_1.
  - by rewrite !lookup_insert_ne by done.
Qed.

Lemma start_element_fits depth name attributes text children total :
  node_fits depth (XmlEl name attributes text children) = true ->
  total + Z.of_nat (size attributes) <= max_total_attributes limits ->
  start_element limits (Some name) (attr_events attributes) total
  = Ok (XmlEl name attributes "" [], total + Z.of_nat (size attributes)).
Proof.
  intros Hfit Ht. apply node_fits_inv in Hfit as (Hn & Hs & Ha & _).
  unfold start_element, attr_events. simpl. unfold validate_len. rewrite (proj2 (Z.ltb_ge _ _) Hn). simpl.
  pose proof (ho_perm order attributes) as Hp. pose proof (NoDup_ho_iter_keys order attributes) as Hnd.
  assert (length (ho_iter order attributes) = size attributes) as Hlen.
  { rewrite Hp. apply length_map_to_list. }
  rewrite read_attributes_list; [|by rewrite Hp|lia|lia]. rewrite Hlen. do 3 f_equal.
  apply map_eq. intros k. rewrite attrs_fold_lookup by done.
  rewrite (list_to_map_proper (ho_iter order attributes) (map_to_list attributes)) by done.
  rewrite list_to_map_to_list. rewrite lookup_empty. by destruct (attributes !! k).
Qed.

(** An element that is read goes to its parent, or becomes the root. *)
Definition attach (e : XmlElement) (t : TreeState) : TreeState :=
  match ts_stack t with
  | p :: rest => mkTree (XmlEl (xe_name p) (xe_attributes p) (xe_text p) (xe_children p ++ [e]) :: rest) (ts_root t)
                   (ts_total t + attr_count e)
  | [] => mkTree [] (Some e) (ts_total t + attr_count e)
  end.
Definition room (t : TreeState) : Prop :=
  match ts_stack t with
  | p :: _ => (length (xe_children p) < max_children_per_element limits)%nat
  | [] => ts_root t = None
  end.

Lemma close_attach e stack root total n :
  room (mkTree stack root total) ->
  close_element limits e stack (mkTree stack root n) = Ok (mkTree (ts_stack (attach e (mkTree stack root total)))
     (ts_root (attach e (mkTree stack root total))) n).
Proof.
  unfold room, close_element, attach. destruct stack as [|p rest]; simpl.
  - by intros ->.
  - intros Hr. by rewrite (proj2 (Nat.leb_gt _ _)).
Qed.

Lemma read_loop_step ev evs count t t' :
  on_event limits ev t = Ok t' -> (count <= max_events limits)%nat ->
  read_loop limits (ev :: evs) count t = read_loop limits evs (S count) t'.
Proof. intros He Hc. cbn [read_loop]. rewrite (proj2 (Nat.ltb_ge _ _) Hc). by rewrite He. Qed.

Lemma attach_children cs p rest root total :
  fold_left (fun t c => attach c t) cs (mkTree (p :: rest) root total)
  = mkTree (XmlEl (xe_name p) (xe_attributes p) (xe_text p) (xe_children p ++ cs) :: rest) root
      (total + fold_right (fun c n => attr_count c + n) 0 cs).
Proof.
  revert p total. induction cs as [|c cs IH]; intros p total; simpl.
  - rewrite app_nil_r, Z.add_0_r. by destruct p.
  - unfold attach at 2. simpl. rewrite IH. simpl. rewrite <-app_assoc. f_equal. lia.
Qed.
Lemma attr_count_nonneg e : 0 <= attr_count e.
Proof.
  revert e. fix IH 1. intros [name attributes text children]. cbn [attr_count].
  assert (0 <= fold_right (fun c n => attr_count c + n) 0 children); [|lia].
  induction children as [|c cs IHc]; simpl; [lia|]. specialize (IH c). lia.
Qed.

(** What the reader does with the events of one element, wherever it stands. *)
Definition reads (depth : nat) (e : XmlElement) : Prop := forall t count evs,
  node_fits depth e = true -> length (ts_stack t) = depth -> room t ->
  (count + length (tree_events e) <= max_events limits)%nat ->
  ts_total t + attr_count e <= max_total_attributes limits ->
  read_loop limits (tree_events e ++ evs) count t
  = read_loop limits evs (count + length (tree_events e)) (attach e t).

Lemma reads_children depth cs p rest root total count evs :
  Forall (fun c => reads depth c) cs -> Forall (fun c => node_fits depth c = true) cs ->
  length (p :: rest) = depth ->
  (length (xe_children p) + length cs <= max_children_per_element limits)%nat ->
  (count + length (flat_map tree_events cs) <= max_events limits)%nat ->
  total + fold_right (fun c n => attr_count c + n) 0 cs <= max_total_attributes limits ->
  read_loop limits (flat_map tree_events cs ++ evs) count (mkTree (p :: rest) root total)
  = read_loop limits evs (count + length (flat_map tree_events cs))
      (fold_left (fun t c => attach c t) cs (mkTree (p :: rest) root total)).
Proof.
  intros Hr Hf. revert p total count. induction Hr as [|c cs Hc Hcs IH]; intros p total count Hd Hch Hev Hat; simpl in *.
  { by rewrite Nat.add_0_r. }
  apply Forall_cons in Hf as [Hfc Hf]. rewrite length_app in *.
  assert (0 <= fold_right (fun c n => attr_count c + n) 0 cs) as Hnn.
  { clear. induction cs as [|c cs IH]; simpl; [lia|]. pose proof (attr_count_nonneg c). lia. }
  rewrite <-app_assoc, (Hc (mkTree (p :: rest) root total) count _ Hfc Hd);
    [|unfold room; simpl; lia|lia|simpl; lia].
  unfold attach at 1 3. simpl. rewrite (IH Hf); [|done|simpl; rewrite length_app; simpl; lia|lia|lia].
  f_equal. lia.
Qed.

Lemma tree_reads e : forall depth, reads depth e.
Proof.
  revert e. fix IH 1. intros [name attributes text children] depth t count evs Hfit Hdep Hroom Hev Hat.
  assert (Forall (fun c => reads (S depth) c) children) as Hch.
  { clear -IH. induction children as [|c cs IHc]; constructor; [apply IH | done]. }
  clear IH. pose proof (node_fits_inv _ _ _ _ _ Hfit) as (_ & _ & _ & Htrim & Htl & Hcl & Hdp & Hfc).
  destruct t as [stack root total]. cbn [ts_stack ts_total] in *.
  assert (total + Z.of_nat (size attributes) <= max_total_attributes limits) as Hat1.
  { cbn [attr_count] in Hat. enough (0 <= fold_right (fun c n => attr_count c + n) 0 children) by lia.
    clear. induction children as [|c cs IH]; simpl; [lia|]. pose proof (attr_count_nonneg c). lia. }
  cbn [tree_events] in *. destruct (is_leaf text children) eqn:Hleaf.
  - simpl app. erewrite read_loop_step; [|simpl|simpl in Hev; lia].
    2:{ rewrite (start_element_fits depth _ _ text children) by done.
        apply (close_attach _ stack root total). done. }
    simpl length. rewrite Nat.add_1_r. f_equal. unfold is_leaf in Hleaf. apply andb_true_iff in Hleaf as [Htx Hcn].
    apply bool_decide_eq_true in Hcn. destruct text; [|done]. subst children.
    unfold attach. cbn [attr_count fold_right ts_stack ts_root ts_total].
    destruct stack; simpl; f_equal; lia.
  - destruct Hdp as [?|Hdp]; [done|]. simpl length in Hev. rewrite !length_app in Hev. simpl length in Hev.
    simpl app. rewrite <-!app_assoc.
    erewrite read_loop_step; [|cbn [on_event ts_stack ts_total ts_root]|lia].
    2:{ rewrite (proj2 (Nat.leb_gt _ _)) by lia. rewrite (start_element_fits depth _ _ text children) by done. reflexivity. }
    assert (read_loop limits (text_events text ++ flat_map tree_events children ++ [XEnd (Some name)] ++ evs) (S count)
              (mkTree (XmlEl name attributes "" [] :: stack) root (total + Z.of_nat (size attributes)))
            = read_loop limits (flat_map tree_events children ++ [XEnd (Some name)] ++ evs) (S count + length (text_events text))
                (mkTree (XmlEl name attributes text [] :: stack) root (total + Z.of_nat (size attributes)))) as ->.
    { unfold text_events. destruct text as [|x text]; [by rewrite Nat.add_0_r|]. simpl app.
      erewrite read_loop_step; [|cbn [on_event ts_stack ts_total ts_root ok_or xe_name xe_attributes xe_text xe_children]|lia].
      2:{ rewrite Htrim. cbn [String.append]. rewrite (proj2 (Z.ltb_ge _ _) Htl). reflexivity. }
      f_equal. simpl. lia. }
    rewrite (reads_children (S depth)); [|done|done|simpl; lia|simpl; lia|lia|cbn [attr_count] in Hat; lia].
    rewrite attach_children. cbn [xe_name xe_attributes xe_text xe_children app].
    simpl app. erewrite read_loop_step; [|cbn [on_event ts_stack ts_total ts_root decode_name ok_or xe_name xe_attributes xe_text xe_children]|lia].
    2:{ rewrite String.eqb_refl. cbn [negb]. rewrite Htrim.
        apply (close_attach _ stack root total). done. }
    f_equal; [simpl length; rewrite !length_app; simpl; lia|].
    unfold attach. cbn [attr_count ts_stack ts_root ts_total]. destruct stack; simpl; by rewrite Z.add_assoc.
Qed.

(** The reader rebuilds the tree from its events. *)
Lemma tree_roundtrip e : fits e = true -> build_tree limits (tree_events e) = Ok e.
Proof.
  unfold fits. rewrite !andb_true_iff, Nat.leb_le, Z.leb_le. intros [[Hf Hev] Hat]. unfold build_tree.
  pose proof (tree_reads e 0%nat (mkTree [] None 0) 0%nat [] Hf eq_refl eq_refl ltac:(lia) ltac:(simpl; lia)) as Hr.
  rewrite app_nil_r in Hr. rewrite Hr. cbn [read_loop]. rewrite (proj2 (Nat.ltb_ge _ _)) by lia. done.
Qed.

Lemma child_text_fits depth e name :
  node_fits depth e = true -> child_text e name = xe_text <$> xml_child e name.
Proof.
  destruct e as [nm at_ tx cs]. intros (_ & _ & _ & _ & _ & _ & _ & Hc)%node_fits_inv.
  unfold child_text, xml_child. cbn [xe_children]. destruct (List.find _ cs) as [c|] eqn:Hfind; [|done]. simpl.
  apply find_some in Hfind as [Hin _]. rewrite Forall_forall in Hc.
  specialize (Hc c ltac:(by apply list_elem_of_In)). destruct c. apply node_fits_inv in Hc as (_ & _ & _ & Ht & _).
  simpl. by rewrite Ht.
Qed.
Lemma child_fits depth e c : node_fits depth e = true -> c ∈ xe_children e -> node_fits (S depth) c = true.
Proof.
  destruct e. intros (_ & _ & _ & _ & _ & _ & _ & Hc)%node_fits_inv Hin. rewrite Forall_forall in Hc. by apply Hc.
Qed.
End limits.
End tree.

(** ** Catalogs *)

(** Optional children under distinct names are found by their names. *)
Definition opt_children (fields : list (string * option string)) : list XmlElement :=
  flat_map (fun f => opt_child f.1 f.2) fields.
Definition field (fields : list (string * option string)) (name : string) : option string :=
  match List.find (fun f => String.eqb f.1 name) fields with Some (_, v) => v | None => None end.
Definition by_name (name : string) (c : XmlElement) : bool := String.eqb (xe_name c) name.

Lemma find_absent fields name : name ∉ fields.*1 -> List.find (by_name name) (opt_children fields) = None.
Proof.
  induction fields as [|[n v] fields IH]; intros Hn; [done|]. rewrite fmap_cons in Hn.
  apply not_elem_of_cons in Hn as [Hne Hn]. simpl in Hne. specialize (IH Hn).
  change (opt_children ((n, v) :: fields)) with (opt_child n v ++ opt_children fields).
  destruct v; simpl; [|done]. unfold by_name at 1. simpl. by rewrite (proj2 (String.eqb_neq n name)) by congruence.
Qed.
Lemma find_field fields name :
  NoDup fields.*1 -> xe_text <$> List.find (by_name name) (opt_children fields) = field fields name.
Proof.
  unfold field. induction fields as [|[n v] fields IH]; intros Hnd; [done|]. rewrite fmap_cons in Hnd.
  apply NoDup_cons in Hnd as [Hn Hnd]. simpl in Hn.
  change (opt_children ((n, v) :: fields)) with (opt_child n v ++ opt_children fields). cbn [List.find fst snd].
  destruct (String.eqb_spec n name) as [->|Hne].
  - destruct v; simpl; [by unfold by_name; simpl; rewrite String.eqb_refl|]. by rewrite (find_absent fields name Hn).
  - destruct v; simpl; [|by apply IH]. unfold by_name at 1. simpl.
    rewrite (proj2 (String.eqb_neq n name)) by done. by apply IH.
Qed.

Definition catalog_fields (i : CatalogItem) : list (string * option string) :=
  [("Name", ci_name i); ("Manufacturer", ci_manufacturer i); ("Model", ci_model i); ("Owner", ci_owner i);
   ("CivilCode", ci_civil_code i); ("Block", ci_block i); ("Address", ci_address i); ("Parental", ci_parental i);
   ("ParentID", ci_parent_id i); ("SafetyWay", ci_safety_way i); ("RegisterWay", ci_register_way i);
   ("CertNum", ci_cert_num i); ("Certifiable", ci_certifiable i); ("ErrCode", ci_err_code i);
   ("EndTime", ci_end_time i); ("Secrecy", ci_secrecy i); ("IPAddress", ci_ip_address i); ("Port", ci_port i);
   ("Status", ci_status i); ("Longitude", ci_longitude i); ("Latitude", ci_latitude i)].
Lemma catalog_item_children i :
  xe_children (catalog_item_tree i) = text_child "DeviceID" (ci_device_id i) :: opt_children (catalog_fields i).
Proof. unfold opt_children. cbn [catalog_fields flat_map fst snd]. by rewrite app_nil_r. Qed.

Lemma catalog_item_field limits depth i name :
  node_fits limits depth (catalog_item_tree i) = true ->
  child_text (catalog_item_tree i) name
  = if String.eqb "DeviceID" name then Some (ci_device_id i) else field (catalog_fields i) name.
Proof.
  intros Hfit. rewrite (child_text_fits limits depth _ _ Hfit). unfold xml_child. rewrite catalog_item_children.
  cbn [List.find]. change (xe_name (text_child "DeviceID" (ci_device_id i))) with "DeviceID".
  destruct (String.eqb "DeviceID" name); [done|]. apply find_field.
  apply (bool_decide_unpack _). vm_compute. exact I.
Qed.
Lemma catalog_item_roundtrip limits depth i :
  node_fits limits depth (catalog_item_tree i) = true -> ci_device_id i <> "" ->
  parse_catalog_item (catalog_item_tree i) = Some i.
Proof.
  intros Hfit Hid. unfold parse_catalog_item, item_device. cbv zeta. rewrite !(catalog_item_field limits depth i) by done.
  cbn -[catalog_fields]. destruct i as [id]. simpl in Hid. destruct id; [done|]. reflexivity.
Qed.

Lemma catalog_items_roundtrip limits depth items :
  Forall (fun i => node_fits limits depth (catalog_item_tree i) = true) items ->
  Forall (fun i => ci_device_id i <> "") items ->
  List.filter (fun c => String.eqb (xe_name c) "Item") (map catalog_item_tree items) = map catalog_item_tree items
  /\ omap parse_catalog_item (map catalog_item_tree items) = items.
Proof.
  intros Hf Hid. induction items as [|i items IH]; [done|]. apply Forall_cons in Hf as [Hfi Hf].
  apply Forall_cons in Hid as [Hidi Hid]. destruct (IH Hf Hid) as [IH1 IH2]. split.
  - cbn [map List.filter]. change (xe_name (catalog_item_tree i)) with "Item". cbn. by rewrite IH1.
  - cbn [map omap list_omap]. rewrite (catalog_item_roundtrip limits depth i) by done. cbn. by f_equal.
Qed.

Lemma require_some e name t : child_text e name = Some t -> t <> "" -> require_child_text e name = Ok t.
Proof. unfold require_child_text. intros -> Ht. by destruct t. Qed.

(** The reader of a catalog, from the tree that was written. *)
Lemma catalog_tree_roundtrip order profile sn device_id sum_num items
    (Hfits : fits order XmlLimits_default (catalog_tree sn device_id sum_num items) = true)
    (Hids : sn <> "" /\ device_id <> "" /\ Forall (fun i => ci_device_id i <> "") items)
    (Hsum : is_u32 sum_num /\ (sum_num = 0 \/ Z.of_nat (length items) <= sum_num)) :
  extract_catalog_with_profile (catalog_tree sn device_id sum_num items) profile
  = Ok (mkCatalog sn device_id sum_num (Z.of_nat (length items)) items).
Proof.
  destruct Hids as (Hsn & Hdev & Hids), Hsum as [Hu32 Hsum].
  unfold fits in Hfits. rewrite !andb_true_iff in Hfits. destruct Hfits as [[Hf _] _].
  set (root := catalog_tree sn device_id sum_num items) in *.
  pose proof (fun name => child_text_fits XmlLimits_default 0 root name Hf) as Hct.
  set (dl := XmlEl "DeviceList" {[ "Num" := show_uint (Z.of_nat (length items)) ]} "" (map catalog_item_tree items)).
  assert (xml_child root "DeviceList" = Some dl) as Hdl by reflexivity.
  assert (node_fits XmlLimits_default 1 dl = true) as Hfd.
  { apply (child_fits XmlLimits_default 0 root); [done|]. simpl. rewrite !elem_of_cons. auto 10. }
  apply node_fits_inv in Hfd as (_ & _ & _ & _ & _ & Hlen & _ & Hfi).
  rewrite length_map in Hlen. cbn [XmlLimits_default max_children_per_element] in Hlen.
  assert (Forall (fun i => node_fits XmlLimits_default 2 (catalog_item_tree i) = true) items) as Hfi'.
  { by apply Forall_map in Hfi. }
  destruct (catalog_items_roundtrip _ _ items Hfi' Hids) as [Hfilter Homap].
  assert (parse_u32 (show_uint sum_num) = Ok sum_num) as Hps.
  { unfold parse_u32. rewrite trim_solid by (apply show_uint_solid; apply Hu32).
    rewrite parse_show_uint; [done|apply Hu32|unfold is_u32, U32_MAX, U64_MAX in *; lia]. }
  assert (parse_u32 (show_uint (Z.of_nat (length items))) = Ok (Z.of_nat (length items))) as Hpn.
  { unfold parse_u32. rewrite trim_solid by (apply show_uint_solid; lia).
    rewrite parse_show_uint; [done|unfold U32_MAX; lia|unfold U64_MAX; lia]. }
  assert (child_text root "CmdType" = Some "Catalog") as Hcmd by (by rewrite Hct).
  assert (show_uint sum_num <> "") as Hne by apply show_uint_digits, Hu32.
  unfold extract_catalog_with_profile, expect_cmd. rewrite Hcmd, Hdl.
  change (xe_name root) with "Response". cbn [ok_or]. rewrite !String.eqb_refl. cbn [negb andb].
  rewrite (require_some root "SN" sn), (require_some root "DeviceID" device_id),
    (require_some root "SumNum" (show_uint sum_num)) by (done || by rewrite Hct).
  rewrite Hps. unfold items_of. subst dl. cbn [xe_children xe_attributes]. rewrite Hfilter, Homap.
  rewrite lookup_singleton_eq, Hpn, length_map, Nat.sub_diag. cbn [ok from_option id].
  rewrite (wrap32_id (Z.of_nat 0)), (wrap32_id (Z.of_nat (length items))) by (unfold is_u32, U32_MAX; lia).
  rewrite Z.add_0_r, (wrap32_id (Z.of_nat (length items))) by (unfold is_u32, U32_MAX; lia).
  rewrite Z.eqb_refl. cbn [negb]. rewrite andb_false_r.
  destruct (Z.ltb_spec sum_num (Z.of_nat (length items))); [|by rewrite andb_false_r].
  destruct Hsum as [->|?]; [|lia]. change (0 <? 0) with false. by rewrite andb_false_r.
Qed.

(** *** The wire

    The bytes are read by encoding_rs and quick-xml.  A document in which no text and no
    attribute has a character that the writer escapes has no references; for such a
    document quick-xml documents one event per declaration, tag and non-empty text, as
    [tree_events] lists them. *)
Definition is_markup (a : ascii) : bool :=
  Ascii.eqb a "&" || Ascii.eqb a "<" || Ascii.eqb a ">" || Ascii.eqb a DQUOTE || Ascii.eqb a "'".
Definition unescaped (s : string) : bool := str_all (fun a => negb (is_markup a)) s.
Fixpoint plain (e : XmlElement) : bool :=
  match e with
  | XmlEl _ attributes text children =>
      unescaped text && forallb (fun kv => unescaped kv.2) (map_to_list attributes) && forallb plain children
  end.
(** The writer leaves such texts as they are. *)
Lemma escape_unescaped s : unescaped s = true -> escape_text s = s /\ escape_attr s = s.
Proof.
  unfold unescaped, escape_text, escape_attr. induction s as [|a s IH]; simpl; [done|]. rewrite andb_true_iff, negb_true_iff.
  intros [Ha [IH1 IH2]%IH]. unfold is_markup in Ha. rewrite !orb_false_iff in Ha. destruct Ha as [[[[H1 H2] H3] H4] H5].
  assert (escape_text_char a = String a "" /\ escape_attr_char a = String a "") as [-> ->].
  { unfold escape_attr_char, escape_text_char. by rewrite H1, H2, H3, H4, H5. }
  simpl. by rewrite IH1, IH2.
Qed.

Section wire.
Context `{QuickXml} `{EncodingRs}.

Lemma detect_declaration rest : detect_encoding (XML_DECLARATION +:+ rest) = enc_for_label UTF_8.
Proof. reflexivity. Qed.
Lemma declared_tree_roundtrip order limits e :
  fits order limits e = true -> (length (tree_events order e) < max_events limits)%nat ->
  build_tree limits (XDecl :: tree_events order e) = Ok e.
Proof.
  unfold fits. rewrite !andb_true_iff, Nat.leb_le, Z.leb_le. intros [[Hf Hev] Hat] Hlt. unfold build_tree. cbn [read_loop].
  rewrite (proj2 (Nat.ltb_ge _ _)) by lia. cbn [on_event result_bind].
  pose proof (tree_reads order limits e 0%nat (mkTree [] None 0) 1%nat [] Hf eq_refl eq_refl ltac:(lia) ltac:(simpl; lia)) as Hr.
  rewrite app_nil_r in Hr. rewrite Hr. cbn [read_loop]. rewrite (proj2 (Nat.ltb_ge _ _)) by lia. done.
Qed.

(** C24: A catalog response that the writer built is read back by the parser with all
    its numbers, items and fields, under every profile, provided its texts are without
    the characters that the writer escapes, it is within the limits, and the XML library
    reports for such a document the events of its tags and texts (a stated hypothesis on
    quick-xml, as is the UTF-8 decoding). Texts with markup characters are not read back
    (see the findings). *)
Theorem catalog_roundtrip order profile sn device_id sum_num items body
    (Hbody : build_catalog_response order sn device_id sum_num items = Ok body)
    (Hlen : str_len body <= max_body_bytes XmlLimits_default)
    (Hutf8 : enc_for_label UTF_8 = Some UTF_8 /\ enc_decode UTF_8 body = (body, false))
    (Hplain : plain (catalog_tree sn device_id sum_num items) = true)
    (Hxml : plain (catalog_tree sn device_id sum_num items) = true ->
            xml_events body = XDecl :: tree_events order (catalog_tree sn device_id sum_num items))
    (Hfits : fits order XmlLimits_default (catalog_tree sn device_id sum_num items) = true
             /\ (length (tree_events order (catalog_tree sn device_id sum_num items)) < max_events XmlLimits_default)%nat)
    (Hids : sn <> "" /\ device_id <> "" /\ Forall (fun i => ci_device_id i <> "") items)
    (Hsum : is_u32 sum_num /\ (sum_num = 0 \/ Z.of_nat (length items) <= sum_num)) :
  (let? root := parse_xml_with_profile body XmlLimits_default profile in extract_catalog_with_profile root profile)
  = Ok (mkCatalog sn device_id sum_num (Z.of_nat (length items)) items).
Proof.
  destruct Hutf8 as [Hlab Hdec]. unfold parse_xml_with_profile. rewrite (proj2 (Z.ltb_ge _ _)) by done.
  assert (detect_encoding body = Some UTF_8) as Hdet.
  { unfold build_catalog_response, encode_xml in Hbody. destruct (write_element _ _ _ _) as [s|]; [|done].
    assert (body = XML_DECLARATION +:+ s) as -> by congruence. by rewrite detect_declaration. }
  unfold decode_body. rewrite Hdet. cbn [default from_option id]. rewrite Hdec. cbn [result_bind].
  rewrite Hxml, declared_tree_roundtrip by (done || apply Hfits). cbn [result_bind].
  apply (catalog_tree_roundtrip order); [apply Hfits|done|done].
Qed.
End wire.

(** The text of an entity is lost: the writer escapes markup characters, the
    tokenizer reports the reference as an event of its own, which the reader
    ignores. *)
Lemma entity_text_lost :
  encode_xml canonical_order (XmlEl "Status" ∅ "A&B" []) false = Ok "<Status>A&amp;B</Status>"
  /\ build_tree XmlLimits_default
       [XStart (Some "Status") []; XText (Some "A"); XGeneralRef "amp"; XText (Some "B"); XEnd (Some "Status")]
     = Ok (XmlEl "Status" ∅ "AB" []).
Proof. split; vm_compute; reflexivity. Qed.

(** ** PTZ commands *)

(** A device reads pairs of hexadecimal digits. *)
Fixpoint hex_pairs (s : string) : option (list Z) :=
  match s with
  | EmptyString => Some []
  | String a (String b rest) =>
      letopt hi := IpParser.to_digit 16 a in
      letopt lo := IpParser.to_digit 16 b in
      letopt bytes := hex_pairs rest in
      Some (hi * 16 + lo :: bytes)
  | String _ EmptyString => None
  end.

Definition hex_ok (b : Z) : bool :=
  bool_decide (hex_pairs (Control.hex_nibble (Z.shiftr b 4) +:+ Control.hex_nibble (Z.land b 15)) = Some [b])
  && (String.length (Control.hex_nibble (Z.shiftr b 4)) =? 1)%nat
  && (String.length (Control.hex_nibble (Z.land b 15)) =? 1)%nat.
Lemma hex_ok_all : forallb hex_ok (seqZ 0 256) = true.
Proof. vm_compute. reflexivity. Qed.
Lemma hex_pairs_byte b rest : 0 <= b < 256 ->
  hex_pairs (Control.hex_nibble (Z.shiftr b 4) +:+ Control.hex_nibble (Z.land b 15) +:+ rest)
  = letopt bytes := hex_pairs rest in Some (b :: bytes).
Proof.
  intros Hb. pose proof hex_ok_all as Hall. rewrite forallb_forall in Hall.
  specialize (Hall b ltac:(apply list_elem_of_In, elem_of_seqZ; lia)). unfold hex_ok in Hall.
  rewrite !andb_true_iff, bool_decide_eq_true, !Nat.eqb_eq in Hall. destruct Hall as [[Hp Hl1] Hl2].
  destruct (Control.hex_nibble (Z.shiftr b 4)) as [|x [|]]; [done| |done].
  destruct (Control.hex_nibble (Z.land b 15)) as [|y [|]]; [done| |done]. simpl in Hp |- *.
  destruct (IpParser.to_digit 16 x) as [hi|]; [|done]. destruct (IpParser.to_digit 16 y) as [lo|]; [|done].
  injection Hp as ->. done.
Qed.
Lemma hex_pairs_encode bytes : Forall (fun b => 0 <= b < 256) bytes -> hex_pairs (Control.hex_encode_upper bytes) = Some bytes.
Proof.
  unfold Control.hex_encode_upper. induction 1 as [|b bytes Hb Hbs IH]; [done|].
  assert (String.concat "" (map (fun b => Control.hex_nibble (Z.shiftr b 4) +:+ Control.hex_nibble (Z.land b 15)) (b :: bytes))
          = Control.hex_nibble (Z.shiftr b 4) +:+ Control.hex_nibble (Z.land b 15)
            +:+ String.concat "" (map (fun b => Control.hex_nibble (Z.shiftr b 4) +:+ Control.hex_nibble (Z.land b 15)) bytes)) as ->.
  { rewrite app_assoc_str. destruct bytes; [symmetry; apply app_nil_str | done]. }
  by rewrite hex_pairs_byte, IH.
Qed.

Definition limited (v max : Z) : Z := Z.max (- max) (Z.min max v).

Lemma checksum_mod bytes : Control.checksum bytes = fold_left Z.add bytes 0 mod 256.
Proof. unfold Control.checksum. apply (Z.land_ones _ 8). lia. Qed.
Lemma zoom_byte z : 0 <= z <= 15 -> Z.land (Z.shiftl z 4) 0xFF = z * 16 /\ Z.shiftr (z * 16) 4 = z.
Proof.
  intros Hz. rewrite (Z.land_ones _ 8), Z.shiftl_mul_pow2, Z.shiftr_div_pow2 by lia.
  change (2 ^ 4) with 16. change (2 ^ 8) with 256. split; [apply Z.mod_small; lia | apply Z.div_mul; lia].
Qed.

(** A device that takes a PTZ command apart gets the movement that was
    meant: the sixteen digits have the fixed header and a checksum that verifies, and
    direction bits and speeds give pan, tilt and zoom back, limited to the maximum
    speeds; zoom never exceeds the four bits it has. *)
Theorem ptz_roundtrip c
    (Hv : -128 <= Control.pan c <= 127 /\ -128 <= Control.tilt c <= 127 /\ -128 <= Control.zoom c <= 127)
    (Hm : 0 <= Control.max_pan_tilt_speed c <= 255 /\ 0 <= Control.max_zoom_speed c <= 255) :
  (letopt bytes := hex_pairs (Control.ptz_encode c) in ptz_read bytes)
  = Some (limited (Control.pan c) (Control.max_pan_tilt_speed c),
          limited (Control.tilt c) (Control.max_pan_tilt_speed c),
          limited (Control.zoom c) (Z.min (Control.max_zoom_speed c) 15)).
Proof.
  destruct c as [p t z m mz]. cbn [Control.pan Control.tilt Control.zoom Control.max_pan_tilt_speed Control.max_zoom_speed] in *.
  unfold Control.ptz_encode, Control.ptz_bytes.
  cbn [Control.pan Control.tilt Control.zoom Control.max_pan_tilt_speed Control.max_zoom_speed].
  set (h := Control.clamp_speed_i8 p m). set (v := Control.clamp_speed_i8 t m).
  set (zs := Control.clamp_speed_i8 z (Z.min mz 15)).
  assert (0 <= h <= 128 /\ 0 <= v <= 128 /\ 0 <= zs <= 15) as (Hh & Hvv & Hz).
  { unfold h, v, zs, Control.clamp_speed_i8. lia. }
  destruct (zoom_byte zs Hz) as [-> Hzr].
  set (cmd := Z.lor _ _).
  assert (0 <= cmd < 64 /\ Z.testbit cmd 0 = (0 <? p) /\ Z.testbit cmd 1 = (p <? 0) /\ Z.testbit cmd 3 = (0 <? t)
          /\ Z.testbit cmd 2 = (t <? 0) /\ Z.testbit cmd 4 = (0 <? z) /\ Z.testbit cmd 5 = (z <? 0))
    as (Hc & B0 & B1 & B3 & B2 & B4 & B5).
  { unfold cmd, Control.direction_bits.
    destruct (Z.ltb_spec 0 p), (Z.ltb_spec p 0), (Z.ltb_spec 0 t), (Z.ltb_spec t 0), (Z.ltb_spec 0 z), (Z.ltb_spec z 0);
      try lia; vm_compute; split_and!; done. }
  clearbody cmd. rewrite hex_pairs_encode.
  2:{ rewrite checksum_mod. unfold Control.PTZ_FIRST, Control.PTZ_SECOND, Control.PTZ_THIRD.
      repeat constructor; try lia; apply Z.mod_pos_bound; lia. }
  rewrite checksum_mod. cbn [app ptz_read fold_left]. unfold Control.PTZ_FIRST, Control.PTZ_SECOND, Control.PTZ_THIRD.
  rewrite !Z.eqb_refl, B0, B1, B2, B3, B4, B5, Hzr. cbn [andb].
  unfold signed_speed, h, v, zs, Control.clamp_speed_i8, limited.
  f_equal; f_equal; [f_equal|]; repeat case_match; lia.
Qed.

Module XmlSample.
Definition camera : CatalogItem :=
  mkCatalogItem "34020000001320000002" (Some "Gate 2") (Some "Acme") None None None None (Some "") None None None None
    None None None None None None None (Some "ON") None None.

Definition cameras : XmlElement := catalog_tree "7" "34020000001320000001" 5 [camera; camera].
Definition document : string :=
  match build_catalog_response canonical_order "7" "34020000001320000001" 5 [camera; camera] with Ok s => s | Err _ => "" end.
#[local] Instance sample_xml : QuickXml := fun s =>
  if String.eqb s document then XDecl :: tree_events canonical_order cameras else [XError "not read"].
#[local] Instance sample_encoding : EncodingRs := {|
  enc_for_label l := if String.eqb l UTF_8 then Some UTF_8 else None;
  enc_decode _ s := (s, false)
|}.
Lemma catalog_roundtrip_witness :
  (let? root := parse_xml_with_profile document XmlLimits_default CompatibilityProfile_default in
   extract_catalog_with_profile root CompatibilityProfile_default)
  = Ok (mkCatalog "7" "34020000001320000001" 5 2 [camera; camera]).
Proof.
  apply (catalog_roundtrip canonical_order CompatibilityProfile_default "7" "34020000001320000001" 5 [camera; camera]).
  - vm_compute. reflexivity.
  - vm_compute. discriminate.
  - split; vm_compute; reflexivity.
  - vm_compute. reflexivity.
  - intros _. vm_compute. reflexivity.
  - split; [vm_compute; reflexivity|]. vm_compute. lia.
  - repeat split; try discriminate. repeat constructor; discriminate.
  - split; [split; vm_compute; discriminate|]. right. vm_compute. discriminate.
Defined.

Lemma ptz_roundtrip_witness :
  (letopt bytes := hex_pairs (Control.ptz_encode (Control.mkPtz (-100) 30 20 63 15)) in ptz_read bytes)
  = Some (-63, 30, 15).
Proof. apply (ptz_roundtrip (Control.mkPtz (-100) 30 20 63 15)); simpl; lia. Defined.
End XmlSample.
