(* ===== verification/GbPolicy.v ===== *)
(** * Endpoint policy

    Which addresses the server may talk to:
    - the address predicates of [std::net] and [is_internal_ip]
      ([cheetah-signal-types/src/net.rs]);
    - CIDR zones ([NetworkZone] of [cheetah-gb28181-module/src/ingress.rs]);
    - [cheetah-gb28181-module/src/endpoint_policy.rs]: classes of addresses, the
      policy for SIP endpoints, SDP connections and resolved names.

    The policy is a record; its builder is the sequence of its [allow_*] calls. *)

From S2P Require Import Prelude RustStr SipUri Sdp SipEndpoint.

Open Scope string_scope.
Open Scope list_scope.
Open Scope Z_scope.

(** ** Addresses of [std::net] *)

(** The octets of an address in network order. *)
Definition octet (bits : Z) (i : Z) : Z := Z.shiftr bits (8 * i) mod 256.
Definition v4_octets (v : Z) : list Z := [octet v 3; octet v 2; octet v 1; octet v 0].
Definition v6_octets (v : Z) : list Z := map (fun i => octet v (15 - Z.of_nat i)) (seq 0 16).
Definition first_segment (v : Z) : Z := Z.shiftr v 112 mod 65536.

Definition v4_is_loopback (v : Z) : bool := octet v 3 =? 127.
Definition v4_is_link_local (v : Z) : bool := (octet v 3 =? 169) && (octet v 2 =? 254).
Definition v4_is_private (v : Z) : bool :=
  (octet v 3 =? 10) || ((octet v 3 =? 172) && (16 <=? octet v 2) && (octet v 2 <=? 31))
  || ((octet v 3 =? 192) && (octet v 2 =? 168)).
Definition v4_is_broadcast (v : Z) : bool := v =? 2 ^ 32 - 1.
Definition v6_is_unicast_link_local (v : Z) : bool := Z.land (first_segment v) 0xffc0 =? 0xfe80.
Definition v6_is_unique_local (v : Z) : bool := Z.land (first_segment v) 0xfe00 =? 0xfc00.
(** [Ipv6Addr::to_ipv4]: the compatible and the mapped addresses. *)
Definition v6_to_ipv4 (v : Z) : option Z :=
  let high := Z.shiftr v 32 in
  if (high =? 0) || (high =? 0xffff) then Some (v mod 2 ^ 32) else None.

Definition is_unspecified (ip : IpAddr) : bool := match ip with V4 v | V6 v => v =? 0 end.
Definition is_loopback (ip : IpAddr) : bool := match ip with V4 v => v4_is_loopback v | V6 v => v =? 1 end.

(** ** Internal addresses *)

Definition is_internal_ipv4 (v : Z) : bool :=
  let a := octet v 3 in
  let b := octet v 2 in
  let c := octet v 1 in
  if (v =? 0) || v4_is_loopback v || v4_is_link_local v || v4_is_private v then true
  else if a =? 0 then true
  else if v4_is_broadcast v || (240 <=? a) then true
  else if (a =? 100) && ((64 <=? b) && (b <=? 127)) then true
  else if (a =? 192) && (b =? 0) && (c =? 0) then true
  else if (a =? 192) && (b =? 0) && (c =? 2) then true
  else if (a =? 192) && (b =? 88) && (c =? 99) then true
  else if (a =? 198) && ((18 <=? b) && (b <=? 19)) then true
  else if (a =? 198) && (b =? 51) && (c =? 100) then true
  else (a =? 203) && (b =? 0) && (c =? 113).

Definition is_internal_ipv6 (v : Z) : bool :=
  if (v =? 0) || (v =? 1) || v6_is_unicast_link_local v || v6_is_unique_local v then true
  else
    match v6_to_ipv4 v with
    | Some v4 => is_internal_ipv4 v4
    | None =>
        let o i := octet v (15 - i) in
        if (o 0 =? 0x20) && (o 1 =? 0x02) then true
        else if (o 0 =? 0x20) && (o 1 =? 0x01) && (o 2 =? 0) && (o 3 =? 0) then true
        else (o 0 =? 0x20) && (o 1 =? 0x01) && (o 2 =? 0x0d) && (o 3 =? 0xb8)
    end.

Definition is_internal_ip (ip : IpAddr) : bool :=
  match ip with V4 v => is_internal_ipv4 v | V6 v => is_internal_ipv6 v end.

(** ** CIDR zones *)

Inductive IngressConfigError := EmptyField (name : string) | FieldTooLong (name : string) | InvalidZone (cidr : string).

Record NetworkZone := mkZone { nz_base : IpAddr; nz_prefix_len : Z }.

Definition zone_parse (cidr : string) : result NetworkZone IngressConfigError :=
  let? (addr, prefix) := ok_or (split_once "/" cidr) (InvalidZone cidr) in
  let? base := ok_or (parse_ip_addr addr) (InvalidZone cidr) in
  let? prefix_len := ok_or (parse_uint U8_MAX prefix) (InvalidZone cidr) in
  let max := match base with V4 _ => 32 | V6 _ => 128 end in
  if max <? prefix_len then Err (InvalidZone cidr) else Ok (mkZone base prefix_len).

Fixpoint prefix_matches (base candidate : list Z) (remaining : Z) : bool :=
  match base, candidate with
  | b :: base, c :: candidate =>
      if remaining =? 0 then true
      else if 8 <=? remaining then if negb (b =? c) then false else prefix_matches base candidate (remaining - 8)
      else
        let mask := Z.land (Z.shiftl 0xff (8 - remaining)) 0xff in
        Z.land b mask =? Z.land c mask
  | _, _ => true
  end.

Definition zone_contains (z : NetworkZone) (ip : IpAddr) : bool :=
  match nz_base z, ip with
  | V4 base, V4 ip => prefix_matches (v4_octets base) (v4_octets ip) (nz_prefix_len z)
  | V6 base, V6 ip => prefix_matches (v6_octets base) (v6_octets ip) (nz_prefix_len z)
  | _, _ => false
  end.

(** ** Classes of addresses *)

Inductive NetworkZoneClass := ZUnspecified | ZLoopback | ZLinkLocal | ZPrivate | ZReservedInternal | ZPublic.
#[global] Instance NetworkZoneClass_eq_dec : EqDecision NetworkZoneClass.
Proof. solve_decision. Defined.

Definition classify_v4 (v : Z) : NetworkZoneClass :=
  if v =? 0 then ZUnspecified
  else if v4_is_loopback v then ZLoopback
  else if v4_is_link_local v then ZLinkLocal
  else if v4_is_private v then ZPrivate
  else if is_internal_ipv4 v then ZReservedInternal else ZPublic.

Definition classify (ip : IpAddr) : NetworkZoneClass :=
  match ip with
  | V4 v => classify_v4 v
  | V6 v =>
      if is_unspecified ip then ZUnspecified
      else if is_loopback ip then ZLoopback
      else if v6_is_unicast_link_local v then ZLinkLocal
      else if v6_is_unique_local v then ZPrivate
      else match v6_to_ipv4 v with
           | Some v4 => classify_v4 v4
           | None => if is_internal_ip ip then ZReservedInternal else ZPublic
           end
  end.
Definition class_is_internal (c : NetworkZoneClass) : bool := negb (bool_decide (c = ZPublic)).

(** ** The policy *)

Inductive EndpointTransport := EtUdp | EtTcp | EtTls.
#[global] Instance EndpointTransport_eq_dec : EqDecision EndpointTransport.
Proof. solve_decision. Defined.
Definition EndpointTransport_parse (value : string) : option EndpointTransport :=
  if eq_ignore_ascii_case value "udp" then Some EtUdp
  else if eq_ignore_ascii_case value "tcp" then Some EtTcp
  else if eq_ignore_ascii_case value "tls" then Some EtTls
  else None.

Inductive EndpointHost := HostIp (ip : IpAddr) | DomainName (name : string).

Inductive EndpointPolicyError :=
| SchemeNotAllowed | TransportNotAllowed | PortNotAllowed | ZoneRejected | CidrRejected | UnsupportedAddrType
| MalformedAddress | NoResolvedAddresses | RedirectRejected | AdvertisedAddressNotExplicit.
Definition EndpointPolicyError_display (e : EndpointPolicyError) : string :=
  match e with
  | SchemeNotAllowed => "uri scheme is not permitted"
  | TransportNotAllowed => "transport is not permitted"
  | PortNotAllowed => "port is not permitted"
  | ZoneRejected => "endpoint address falls in a rejected network zone"
  | CidrRejected => "endpoint address is outside the configured allow-list"
  | UnsupportedAddrType => "sdp address type is not supported"
  | MalformedAddress => "endpoint address is malformed"
  | NoResolvedAddresses => "host resolved to no addresses"
  | RedirectRejected => "redirect responses are rejected"
  | AdvertisedAddressNotExplicit => "advertised address must be an explicitly configured host"
  end.

Record EndpointPolicy := mkPolicy {
  po_schemes : list Scheme;
  po_transports : list EndpointTransport;
  po_ports : option (list Z);
  po_zones : list NetworkZoneClass;
  po_cidrs : list NetworkZone
}.

(** The builder. *)
Definition policy_builder : EndpointPolicy := mkPolicy [] [] None [] [].
Definition push_new {A} `{EqDecision A} (a : A) (l : list A) : list A := if bool_decide (a ∈ l) then l else l ++ [a].
Definition allow_scheme (s : Scheme) (p : EndpointPolicy) : EndpointPolicy :=
  mkPolicy (push_new s (po_schemes p)) (po_transports p) (po_ports p) (po_zones p) (po_cidrs p).
Definition allow_transport (t : EndpointTransport) (p : EndpointPolicy) : EndpointPolicy :=
  mkPolicy (po_schemes p) (push_new t (po_transports p)) (po_ports p) (po_zones p) (po_cidrs p).
Definition allow_zone (z : NetworkZoneClass) (p : EndpointPolicy) : EndpointPolicy :=
  mkPolicy (po_schemes p) (po_transports p) (po_ports p) (push_new z (po_zones p)) (po_cidrs p).
Definition allow_ports (ports : list Z) (p : EndpointPolicy) : EndpointPolicy :=
  mkPolicy (po_schemes p) (po_transports p) (Some ports) (po_zones p) (po_cidrs p).
Definition allow_cidr (z : NetworkZone) (p : EndpointPolicy) : EndpointPolicy :=
  mkPolicy (po_schemes p) (po_transports p) (po_ports p) (po_zones p) (po_cidrs p ++ [z]).
Definition policy_build (p : EndpointPolicy) : EndpointPolicy :=
  let transports := match po_transports p with [] => [EtUdp; EtTcp; EtTls] | l => l end in
  mkPolicy (po_schemes p) transports (po_ports p) (po_zones p) (po_cidrs p).

Definition public_sip : EndpointPolicy :=
  policy_build (allow_zone ZPublic (allow_scheme Sips (allow_scheme Sip policy_builder))).
Definition any_zone_sip : EndpointPolicy :=
  policy_build (allow_zone ZPublic (allow_zone ZReservedInternal (allow_zone ZPrivate (allow_zone ZLinkLocal
    (allow_zone ZLoopback (allow_scheme Sips (allow_scheme Sip policy_builder))))))).

Definition validate_ip (p : EndpointPolicy) (ip : IpAddr) : result unit EndpointPolicyError :=
  if negb (bool_decide (classify ip ∈ po_zones p)) then Err ZoneRejected
  else if negb (bool_decide (po_cidrs p = [])) && negb (existsb (fun z => zone_contains z ip) (po_cidrs p))
  then Err CidrRejected
  else Ok tt.
Definition validate_port (p : EndpointPolicy) (port : Z) : result unit EndpointPolicyError :=
  if port =? 0 then Err PortNotAllowed
  else match po_ports p with
       | Some ports => if bool_decide (port ∈ ports) then Ok tt else Err PortNotAllowed
       | None => Ok tt
       end.

(** [parse_host_ip] of [endpoint_policy.rs], which also trims. *)
Definition policy_host_ip (host : string) : option IpAddr :=
  let host := trim host in
  match letopt h := strip_prefix "[" host in strip_suffix_char "]" h with
  | Some inner => V6 <$> parse_ipv6_addr inner
  | None =>
      match IpParser.parse_with IpParser.read_ipv4_addr host with
      | Some v4 => Some (V4 v4)
      | None => V6 <$> parse_ipv6_addr host
      end
  end.

Definition default_port (s : Scheme) : Z := match s with Sip => 5060 | Sips => 5061 end.

Fixpoint transport_param (ps : list (string * option string)) : option string :=
  match ps with
  | [] => None
  | (k, v) :: ps =>
      match (if eq_ignore_ascii_case k "transport" then v else None) with
      | Some t => Some t
      | None => transport_param ps
      end
  end.
Definition validate_transport_param (p : EndpointPolicy) (uri : SipUri) : result unit EndpointPolicyError :=
  match transport_param (uri_parameters uri) with
  | None => Ok tt
  | Some t =>
      match EndpointTransport_parse t with
      | Some t => if bool_decide (t ∈ po_transports p) then Ok tt else Err TransportNotAllowed
      | None => Err TransportNotAllowed
      end
  end.

Definition validate_sip_endpoint (p : EndpointPolicy) (uri : SipUri) : result EndpointHost EndpointPolicyError :=
  if negb (bool_decide (uri_scheme uri ∈ po_schemes p)) then Err SchemeNotAllowed
  else
    let? _ := validate_transport_param p uri in
    let? _ := validate_port p (default (default_port (uri_scheme uri)) (uri_port uri)) in
    match policy_host_ip (uri_host uri) with
    | Some ip => let? _ := validate_ip p ip in Ok (HostIp ip)
    | None => if is_empty_str (trim (uri_host uri)) then Err MalformedAddress else Ok (DomainName (uri_host uri))
    end.

Definition is_v4 (ip : IpAddr) : bool := match ip with V4 _ => true | V6 _ => false end.
Definition validate_sdp_connection (p : EndpointPolicy) (c : SdpConnection) (port : Z) :
    result IpAddr EndpointPolicyError :=
  let? _ := validate_port p port in
  if negb (lacks "/" (c_address c)) then Err MalformedAddress
  else
    let? ip := ok_or (policy_host_ip (trim (c_address c))) MalformedAddress in
    if negb ((eq_ignore_ascii_case (c_addrtype c) "IP4" && is_v4 ip)
             || (eq_ignore_ascii_case (c_addrtype c) "IP6" && negb (is_v4 ip)))
    then Err UnsupportedAddrType
    else let? _ := validate_ip p ip in Ok ip.

Fixpoint validate_ips (p : EndpointPolicy) (l : list IpAddr) : result unit EndpointPolicyError :=
  match l with [] => Ok tt | ip :: l => let? _ := validate_ip p ip in validate_ips p l end.
Definition verify_resolved_addresses (p : EndpointPolicy) (l : list IpAddr) : result unit EndpointPolicyError :=
  match l with [] => Err NoResolvedAddresses | _ => validate_ips p l end.

Definition reject_redirect (status_code : Z) : result unit EndpointPolicyError :=
  if (300 <=? status_code) && (status_code <? 400) then Err RedirectRejected else Ok tt.

Definition require_explicit_advertised_host (host : string) : result unit EndpointPolicyError :=
  let host := trim host in
  if is_empty_str host then Err AdvertisedAddressNotExplicit
  else match policy_host_ip host with
       | Some ip => if is_unspecified ip then Err AdvertisedAddressNotExplicit else Ok tt
       | None => Ok tt
       end.

(** ** Theorems *)

Lemma classify_v4_public v : classify_v4 v = ZPublic <-> is_internal_ipv4 v = false.
Proof.
  unfold classify_v4. destruct (v =? 0) eqn:E0, (v4_is_loopback v) eqn:E1, (v4_is_link_local v) eqn:E2,
    (v4_is_private v) eqn:E3; simpl; try (unfold is_internal_ipv4; rewrite E0, E1, E2, E3; done).
  by destruct (is_internal_ipv4 v).
Qed.

Lemma classify_public ip : classify ip = ZPublic <-> is_internal_ip ip = false.
Proof.
  destruct ip as [v|v]; [apply classify_v4_public|].
  unfold classify, is_internal_ip, is_internal_ipv6, is_unspecified, is_loopback.
  destruct (v =? 0); [done|]. destruct (v =? 1); [done|].
  destruct (v6_is_unicast_link_local v); [done|]. destruct (v6_is_unique_local v); [done|]. cbn [orb].
  destruct (v6_to_ipv4 v) as [v4|]; [exact (classify_v4_public v4)|].
  match goal with |- context [if ?b then ZReservedInternal else ZPublic] => by destruct b end.
Qed.

(** The number that octets spell. *)
Definition of_octets (l : list Z) : Z := fold_left (fun acc o => acc * 256 + o) l 0.
Definition bytes_ok (l : list Z) : Prop := Forall (fun o => 0 <= o < 256) l.

Lemma fold_octets l acc : fold_left (fun acc o => acc * 256 + o) l acc = acc * 256 ^ Z.of_nat (length l) + of_octets l.
Proof.
  unfold of_octets. revert acc. induction l as [|o l IH]; intros acc; cbn [fold_left length].
  - simpl. lia.
  - rewrite (IH (acc * 256 + o)), (IH (0 * 256 + o)), Nat2Z.inj_succ, Z.pow_succ_r by lia. ring.
Qed.

Lemma of_octets_cons o l : of_octets (o :: l) = o * 256 ^ Z.of_nat (length l) + of_octets l.
Proof. unfold of_octets at 1. simpl. rewrite fold_octets. lia. Qed.

Lemma of_octets_range l : bytes_ok l -> 0 <= of_octets l < 256 ^ Z.of_nat (length l).
Proof.
  induction 1 as [|o l Ho Hl IH]; [done|]. rewrite of_octets_cons. cbn [length].
  rewrite Nat2Z.inj_succ, Z.pow_succ_r by lia. nia.
Qed.

Lemma mask_octet b r : 0 <= b < 256 -> 0 < r < 8 -> Z.land b (Z.land (Z.shiftl 255 (8 - r)) 255) = Z.shiftl (Z.shiftr b (8 - r)) (8 - r).
Proof.
  intros Hb Hr. assert (r = 1 \/ r = 2 \/ r = 3 \/ r = 4 \/ r = 5 \/ r = 6 \/ r = 7) as Hc by lia.
  assert (forall k, 0 < k < 8 -> Z.land (Z.shiftl 255 k) 255 = Z.ldiff 255 (Z.ones k)) as Hm.
  { intros k Hk. assert (k = 1 \/ k = 2 \/ k = 3 \/ k = 4 \/ k = 5 \/ k = 6 \/ k = 7) as Hk' by lia.
    by destruct Hk' as [->|[->|[->|[->|[->|[->| ->]]]]]]. }
  rewrite Hm by lia. clear Hc Hm. rewrite <-Z.ldiff_ones_r by lia.
  apply Z.bits_inj'. intros i Hi. rewrite Z.land_spec, !Z.ldiff_spec.
  destruct (decide (i < 8)).
  - replace (Z.testbit 255 i) with true; [done|]. change 255 with (Z.ones 8). rewrite Z.ones_spec_low; lia.
  - replace (Z.testbit b i) with false; [done|]. symmetry. destruct (decide (b = 0)) as [->|]; [apply Z.testbit_0_l|].
    apply Z.bits_above_log2; [lia|]. apply Z.log2_lt_pow2; [lia|].
    apply Z.lt_le_trans with (2 ^ 8); [lia|]. apply Z.pow_le_mono_r; lia.
Qed.

Lemma high_div q r o x : 0 <= q -> 0 <= r -> 0 <= x < 2 ^ q -> (o * 2 ^ q + x) / 2 ^ (q + r) = o / 2 ^ r.
Proof.
  intros Hq Hr Hx. rewrite Z.pow_add_r, <-Z.div_div by lia. f_equal.
  rewrite Z.div_add_l by lia. rewrite Z.div_small by lia. lia.
Qed.

(** The loop over the octets compares exactly the first bits of the addresses. *)
Lemma prefix_matches_spec base candidate p :
  bytes_ok base -> bytes_ok candidate -> length base = length candidate ->
  0 <= p <= 8 * Z.of_nat (length base) ->
  prefix_matches base candidate p = true
  <-> of_octets base / 2 ^ (8 * Z.of_nat (length base) - p) = of_octets candidate / 2 ^ (8 * Z.of_nat (length base) - p).
Proof.
  intros Hb. revert candidate p. induction Hb as [|b base Hb0 Hb IH]; intros [|c candidate] p Hc Hlen Hp; try done.
  apply Forall_cons in Hc as [Hc0 Hc]. injection Hlen as Hlen.
  pose proof (of_octets_range _ Hb) as Hrb. pose proof (of_octets_range _ Hc) as Hrc. rewrite <-Hlen in Hrc.
  rewrite !of_octets_cons, <-Hlen. cbn [prefix_matches length] in *.
  replace 256 with (2 ^ 8) in * by done. rewrite <-!Z.pow_mul_r in * by lia.
  set (n := 8 * Z.of_nat (length base)) in *.
  destruct (Z.eqb_spec p 0) as [->|Hp0].
  { split; [intros _|done]. rewrite !Z.div_small; [done| |]; rewrite Z.sub_0_r, Nat2Z.inj_succ;
      replace (8 * Z.succ (Z.of_nat (length base))) with (8 + n) by (unfold n; lia); rewrite Z.pow_add_r by (unfold n; lia); nia. }
  destruct (Z.leb_spec 8 p).
  - destruct (Z.eqb_spec b c) as [->|Hne]; simpl.
    + rewrite IH by (done || lia). replace (8 * Z.of_nat (S (length base)) - p) with (n - (p - 8)) by (unfold n; lia).
      assert (forall x, (c * 2 ^ n + x) / 2 ^ (n - (p - 8)) = c * 2 ^ (p - 8) + x / 2 ^ (n - (p - 8))) as Hd.
      { intros x. replace (2 ^ n) with (2 ^ (p - 8) * 2 ^ (n - (p - 8))) by (rewrite <-Z.pow_add_r; [f_equal|..]; lia).
        rewrite Z.mul_assoc, Z.div_add_l by lia. done. }
      rewrite !Hd. lia.
    + split; [done|]. intros Heq. exfalso. apply Hne.
      assert (forall o x, 0 <= x < 2 ^ n -> (o * 2 ^ n + x) / 2 ^ (8 * Z.of_nat (S (length base)) - p) / 2 ^ (p - 8) = o) as Hd.
      { intros o x Hx. rewrite Z.div_div, <-Z.pow_add_r by lia.
        replace (8 * Z.of_nat (S (length base)) - p + (p - 8)) with (n + 0) by (unfold n; lia).
        rewrite high_div by (assumption || (unfold n; lia)). by rewrite Z.div_1_r. }
      by rewrite <-(Hd b _ Hrb), Heq, Hd.
  - rewrite !mask_octet by lia.
    replace (8 * Z.of_nat (S (length base)) - p) with (n + (8 - p)) by (unfold n; lia).
    rewrite !high_div by (assumption || (unfold n; lia)). rewrite Z.eqb_eq, !Z.shiftl_mul_pow2, !Z.shiftr_div_pow2 by lia.
    assert (0 < 2 ^ (8 - p)) by lia. nia.
Qed.

Lemma octet_range v i : 0 <= octet v i < 256.
Proof. apply Z.mod_pos_bound. lia. Qed.

Lemma of_v4_octets v : 0 <= v < 2 ^ 32 -> of_octets (v4_octets v) = v.
Proof.
  intros Hv. unfold of_octets, v4_octets, octet. cbn [fold_left]. rewrite !Z.shiftr_div_pow2 by lia.
  change (2 ^ (8 * 3)) with 16777216. change (2 ^ (8 * 2)) with 65536. change (2 ^ (8 * 1)) with 256. change (2 ^ (8 * 0)) with 1.
  change (2 ^ 32) with 4294967296 in Hv. Z.to_euclidean_division_equations. lia.
Qed.

(** An IPv4 zone holds the addresses that share its first bits. *)
Lemma zone_contains_v4 base p ip :
  0 <= base < 2 ^ 32 -> 0 <= ip < 2 ^ 32 -> 0 <= p <= 32 ->
  zone_contains (mkZone (V4 base) p) (V4 ip) = true <-> base / 2 ^ (32 - p) = ip / 2 ^ (32 - p).
Proof.
  intros Hb Hi Hp. unfold zone_contains. cbn [nz_base nz_prefix_len].
  rewrite prefix_matches_spec; [|repeat constructor; apply octet_range..|done|simpl; lia].
  rewrite !of_v4_octets by done. done.
Qed.

Lemma validate_ip_public ip : validate_ip public_sip ip = Ok tt <-> is_internal_ip ip = false.
Proof.
  rewrite <-classify_public. unfold validate_ip. change (po_zones public_sip) with [ZPublic].
  change (po_cidrs public_sip) with (@nil NetworkZone).
  destruct (classify ip); vm_compute; naive_solver.
Qed.

Lemma mapped_class v : 0 <= v < 2 ^ 32 -> classify (V6 (0xffff * 2 ^ 32 + v)) = classify (V4 v).
Proof.
  intros Hv. unfold classify, is_unspecified, is_loopback, v6_is_unicast_link_local, v6_is_unique_local, v6_to_ipv4, first_segment.
  rewrite !Z.shiftr_div_pow2 by lia.
  rewrite (proj2 (Z.eqb_neq _ _)), (proj2 (Z.eqb_neq _ _)) by lia.
  replace ((65535 * 2 ^ 32 + v) / 2 ^ 112) with 0 by (symmetry; apply Z.div_small; lia).
  rewrite Z.div_add_l, Z.div_small by lia. simpl.
  by rewrite (Z.add_comm _ v), Z.mod_add, Z.mod_small by lia.
Qed.

Lemma validate_ips_all p l : validate_ips p l = Ok tt <-> Forall (fun ip => validate_ip p ip = Ok tt) l.
Proof.
  induction l as [|ip l IH]; simpl; [by split|]. rewrite Forall_cons, <-IH.
  destruct (validate_ip p ip) as [[]|]; naive_solver.
Qed.

(** An address the public policy admits, as a literal of a SIP endpoint, as an SDP
    connection or as the resolution of a name, is not internal, also when an IPv6
    address wraps it. *)
Lemma public_policy_sound uri c port l ip :
  (validate_sip_endpoint public_sip uri = Ok (HostIp ip) -> is_internal_ip ip = false)
  /\ (validate_sdp_connection public_sip c port = Ok ip -> is_internal_ip ip = false /\ port <> 0)
  /\ (verify_resolved_addresses public_sip l = Ok tt <-> l <> [] /\ Forall (fun ip => is_internal_ip ip = false) l)
  /\ (forall v, ip = V6 (0xffff * 2 ^ 32 + v) -> 0 <= v < 2 ^ 32 -> is_internal_ip ip = is_internal_ip (V4 v)).
Proof.
  split_and!.
  - unfold validate_sip_endpoint. intros H. inv_ok H.
    destruct (policy_host_ip _) as [ip'|]; [|by destruct (is_empty_str _)].
    destruct (validate_ip public_sip ip') as [[]|] eqn:Hip; [|done]. simplify_eq. by apply validate_ip_public.
  - unfold validate_sdp_connection. intros H. inv_ok H. simplify_eq.
    split; [|by intros ->]. apply validate_ip_public. by repeat match goal with u : () |- _ => destruct u end.
  - destruct l as [|i l]; simpl; [naive_solver|].
    change (validate_ips public_sip (i :: l) = Ok tt <-> i :: l <> [] /\ Forall (fun ip => is_internal_ip ip = false) (i :: l)).
    rewrite validate_ips_all. setoid_rewrite validate_ip_public. naive_solver.
  - intros v -> Hv. apply Bool.eq_true_iff_eq. rewrite <-!Bool.not_false_iff_true, <-!classify_public, mapped_class by done. done.
Qed.

(** A multicast group that is written without a time to live passes, also where the
    code says that only unicast addresses do. *)
Example multicast_accepted :
  validate_sdp_connection public_sip (mkConnection "IN" "IP4" "224.1.1.1") 5004 = Ok (V4 3758162177).
Proof. vm_compute. reflexivity. Qed.
