(* ===== verification/GbAccess.v ===== *)
(** * The GB28181 access machine

    [cheetah-gb28181-module/src]: the registration table ([registration.rs]), the
    events ([events.rs]), the parsing and response helpers ([access/parse.rs],
    [access/response.rs]), the state machine ([access.rs]) that takes SIP messages,
    commands and ticks, and the outbound requests ([access/outbound.rs]).

    The credential provider is the class [CredentialProvider]; a call can see
    another one than the call before.  The machine is a record that every operation
    takes and returns, also when it fails. *)

From S2P Require Import Prelude RustStr SipUri SipMessage DigestReplay DigestLimiter DigestCodec Digest.
From S2P Require Import Domain Compatibility SipEndpoint GbXml GbMessages.

Open Scope string_scope.
Open Scope list_scope.
Open Scope Z_scope.

(** ** Events and outputs *)

Inductive DevicePresence := PresenceOnline | PresenceOffline.
#[global] Instance DevicePresence_eq_dec : EqDecision DevicePresence.
Proof. solve_decision. Defined.

Inductive Gb28181Event :=
| DeviceRegistered (domain_id : DomainId) (device_id : DeviceId) (source : SocketAddr) (contact : string)
    (expires : Z) (user_agent : option string) (registration_sequence : Z)
| DeviceUnregistered (domain_id : DomainId) (device_id : DeviceId) (source : SocketAddr)
| DevicePresenceChanged (domain_id : DomainId) (device_id : DeviceId) (source : SocketAddr) (presence : DevicePresence)
| KeepaliveReceived (domain_id : DomainId) (device_id : DeviceId) (source : SocketAddr) (status : string)
| CatalogReceived (domain_id : DomainId) (device_id : DeviceId) (source : SocketAddr) (sn : string)
    (sum_num num : Z) (items : list CatalogItem)
| DeviceInfoReceived (domain_id : DomainId) (device_id : DeviceId) (source : SocketAddr) (sn : string)
    (res manufacturer model firmware : option string)
| DeviceStatusReceived (domain_id : DomainId) (device_id : DeviceId) (source : SocketAddr) (sn : string)
    (res online status reason invalid_equip : option string)
| AlarmReceived (domain_id : DomainId) (device_id : DeviceId) (source : SocketAddr) (sn : string)
    (priority method alarm_type time info : option string)
| MobilePositionReceived (domain_id : DomainId) (device_id : DeviceId) (source : SocketAddr) (sn : string)
    (time longitude latitude speed direction altitude : option string)
| RecordInfoReceived (domain_id : DomainId) (device_id : DeviceId) (source : SocketAddr) (sn : string)
    (name : option string) (sum_num num : Z) (items : list RecordItem)
| DeviceControlResponseReceived (domain_id : DomainId) (device_id : DeviceId) (source : SocketAddr) (sn : string)
    (res : option string)
| MediaStatusReceived (domain_id : DomainId) (device_id : DeviceId) (source : SocketAddr) (sn notify_type : string)
    (media_outcome : MediaStatusOutcome)
| MediaSessionStarted (domain_id : DomainId) (media_session_id channel_id : Uuid) (device_id : DeviceId)
    (source : SocketAddr) (remote_sdp : string) (remote_ssrc : option string) (remote_port : Z) (remote_proto : string)
| MediaSessionStopped (domain_id : DomainId) (media_session_id channel_id : Uuid) (device_id : DeviceId)
    (source : option SocketAddr)
| CascadePlatformConnected (domain_id : DomainId) (platform_id upstream : string) (expires : Z)
| CascadePlatformDisconnected (domain_id : DomainId) (platform_id reason : string)
| MediaSessionFailed (domain_id : DomainId) (media_session_id channel_id : Uuid) (device_id : DeviceId)
    (source : option SocketAddr) (reason : string)
| CascadePlayRequested (domain_id : DomainId)
    (platform_id bridge_id upstream_call_id upstream_from upstream_to target_user remote_sdp : string)
| CascadePlayStopped (domain_id : DomainId) (platform_id bridge_id reason : string).

Record AccessInput := mkInput { in_source : SocketAddr; in_now : Z; in_message : SipMessage }.
Inductive AccessOutput :=
| SendResponse (m : SipMessage)
| SendMessage (target : SocketAddr) (m : SipMessage)
| EmitEvent (e : Gb28181Event).

(** ** The registration table *)

Record Registration := mkRegistration {
  rg_route : EndpointRoute;
  rg_contact : string;
  rg_registered_at : Z;
  rg_expires : Z;
  rg_last_seen : Z;
  rg_offline : bool;
  rg_user_agent : option string;
  rg_sequence : Z
}.
Definition registration_source (r : Registration) : SocketAddr := send_target (rg_route r).
Definition set_seen (r : Registration) (now : Z) (offline : bool) : Registration :=
  mkRegistration (rg_route r) (rg_contact r) (rg_registered_at r) (rg_expires r) now offline (rg_user_agent r) (rg_sequence r).

Record TouchOutcome := mkTouch { was_offline : bool; source_drift : bool }.

Record RegistrationTable := mkRegistrations {
  rt_table : gmap DeviceId Registration;
  rt_max_registrations : Z;
  rt_next_sequence : Z
}.
Definition table_new (max_registrations : Z) : RegistrationTable := mkRegistrations ∅ max_registrations 0.
Definition with_table (t : RegistrationTable) (m : gmap DeviceId Registration) : RegistrationTable :=
  mkRegistrations m (rt_max_registrations t) (rt_next_sequence t).

Definition previous_sequence (t : RegistrationTable) (device_id : DeviceId) : option Z :=
  letopt r := rt_table t !! device_id in if rg_offline r then None else Some (rg_sequence r).
Definition upsert (t : RegistrationTable) (device_id : DeviceId) (route : EndpointRoute) (contact : string)
    (expires now : Z) (user_agent : option string) : RegistrationTable * result Registration AccessError :=
  let is_new := bool_decide (rt_table t !! device_id = None) in
  if is_new && (rt_max_registrations t <=? Z.of_nat (size (rt_table t))) then (t, Err RegistrationTableFull)
  else
    let '(sequence, next) := match previous_sequence t device_id with
                             | Some seq => (seq, rt_next_sequence t)
                             | None => let n := wrap64 (rt_next_sequence t + 1) in (n, n)
                             end in
    let r := mkRegistration route contact now expires now false user_agent sequence in
    (mkRegistrations (<[device_id := r]> (rt_table t)) (rt_max_registrations t) next, Ok r).

Definition touch (t : RegistrationTable) (device_id : DeviceId) (source : SocketAddr) (now : Z) :
    RegistrationTable * option TouchOutcome :=
  match rt_table t !! device_id with
  | None => (t, None)
  | Some r => (with_table t (<[device_id := set_seen r now false]> (rt_table t)),
               Some (mkTouch (rg_offline r) (is_unauthenticated_drift (rg_route r) source)))
  end.
Definition table_remove (t : RegistrationTable) (device_id : DeviceId) : RegistrationTable :=
  with_table t (delete device_id (rt_table t)).
Definition table_send_target (t : RegistrationTable) (device_id : DeviceId) : option SocketAddr :=
  registration_source <$> rt_table t !! device_id.
Definition table_route (t : RegistrationTable) (device_id : DeviceId) : option EndpointRoute :=
  rg_route <$> rt_table t !! device_id.

(** ** Parsing helpers *)

(** [value.get(start + 1..end)] between the brackets; [None] without an end or when it comes first. *)
Definition bracketed (value : string) (start : nat) : option string :=
  letopt stop := find_char ">" value in
  if (start + 1 <=? stop)%nat then Some (str_take (stop - (start + 1)) (str_drop (start + 1) value)) else None.

Definition device_of_user (user : option string) : option DeviceId :=
  letopt u := user in if is_empty_str u then None else device_id_new u.
Definition device_from_address (value : string) : option DeviceId :=
  let value := trim value in
  letopt uri_text := match find_char "<" value with
                     | Some start => bracketed value start
                     | None => head (split ";" value)
                     end in
  letopt u := ok (uri_parse uri_text) in
  device_of_user (uri_user u).

Definition device_id_from_request (line : RequestLine) (headers : SipHeaders) : result DeviceId AccessError :=
  match device_of_user (uri_user (rl_uri line)) with
  | Some id => Ok id
  | None =>
      match letopt v := get headers HTo in device_from_address v with
      | Some id => Ok id
      | None => ok_or (letopt v := get headers HFrom in device_from_address v) InvalidDeviceId
      end
  end.

(** The loop over the parameters of a [Contact]. *)
Fixpoint contact_expires (tokens : list string) (expires : option Z) : result (option Z) AccessError :=
  match tokens with
  | [] => Ok expires
  | token :: tokens =>
      match strip_prefix "expires=" (trim token) with
      | None => contact_expires tokens expires
      | Some value =>
          let? n := ok_or (parse_uint U32_MAX (trim value)) InvalidExpires in
          contact_expires tokens (Some n)
      end
  end.
Definition parse_address_with_expires (value : string) : result (SipUri * option Z) AccessError :=
  let value := trim value in
  let? (uri_text, params_text) :=
    match find_char "<" value with
    | Some start =>
        let? stop := ok_or (find_char ">" value) InvalidContact in
        let? uri_text := ok_or (bracketed value start) InvalidContact in
        Ok (uri_text, trim (str_drop (stop + 1) value))
    | None =>
        match split_once ";" value with
        | Some (first, rest) => Ok (trim first, rest)
        | None => Ok (trim value, "")
        end
    end in
  let? uri := map_err (fun _ => InvalidContact) (uri_parse uri_text) in
  let? expires := contact_expires (split ";" params_text) None in
  Ok (uri, expires).
Definition parse_contact_header (headers : SipHeaders) : result (SipUri * option Z) AccessError :=
  let? value := ok_or (get headers HContact) InvalidContact in
  parse_address_with_expires value.
Definition parse_expires_header (headers : SipHeaders) : result (option Z) AccessError :=
  match get headers HExpires with
  | None => Ok None
  | Some value => let? n := ok_or (parse_uint U32_MAX (trim value)) InvalidExpires in Ok (Some n)
  end.
Definition resolve_expires (contact header : option Z) (config : Gb28181DomainConfig) : Z :=
  let requested := default (default (cf_default_expires_seconds config) header) contact in
  Z.min requested (cf_max_expires_seconds config).
Definition parse_authorization (value : string) : result DigestResponse DigestError :=
  response_parse_with_limit value 4096.

(** ** Responses *)

Definition first_of (h : SipHeaders) (name : HeaderName) : list (HeaderName * string) :=
  match get h name with Some v => [(name, v)] | None => [] end.
Definition copy_common_headers (request : SipMessage) : list (HeaderName * string) :=
  let h := msg_headers request in
  map (pair HVia) (get_all h HVia) ++ first_of h HFrom ++ first_of h HCallId ++ first_of h HCSeq.

Definition is_tag (part : string) : bool := starts_with "tag=" (trim part).
Definition add_or_replace_tag (value tag : string) : string :=
  let value := trim value in
  if is_empty_str value then ""
  else
    let without_tag := String.concat ";" (List.filter (fun part => negb (is_tag part)) (split ";" value)) in
    if is_empty_str without_tag then "tag=" +:+ tag else without_tag +:+ ";tag=" +:+ tag.

(** The headers all responses share around their own ones. *)
Definition respond (request : SipMessage) (code : Z) (reason tag : string) (own : list (HeaderName * string)) : SipMessage :=
  let to := match get (msg_headers request) HTo with
            | Some v => [(HTo, add_or_replace_tag v tag)] | None => [] end in
  Response (StatusLine_new code reason)
    (headers_of (copy_common_headers request ++ to ++ own ++ [(HContentLength, "0")])) "".
Definition build_challenge_response (request : SipMessage) (ch : DigestChallenge) (tag : string) : SipMessage :=
  respond request 401 "Unauthorized" tag [(HWwwAuthenticate, challenge_header_value ch)].
Definition build_error_response (request : SipMessage) (code : Z) (reason tag : string) : SipMessage :=
  respond request code reason tag [].
Definition build_rate_limited_response (request : SipMessage) (retry_after : Z) (tag : string) : SipMessage :=
  respond request 429 "Too Many Requests" tag [(HeaderName_parse "Retry-After", show_uint retry_after)].
Definition build_success_response (request : SipMessage) (contact : SipUri) (expires : Z) (tag : string) : SipMessage :=
  respond request 200 "OK" tag
    [(HContact, "<" +:+ uri_encode contact +:+ ">;expires=" +:+ show_uint expires); (HExpires, show_uint expires)].
Definition build_message_response (request : SipMessage) (tag : string) : SipMessage :=
  respond request 200 "OK" tag [].

(** ** The machine *)

(** [password_for] answers a password, none, or a failure of the backend. *)
Class CredentialProvider := password_for : DeviceId -> result (option string) string.

Record Gb28181Access := mkAccess {
  ga_config : Gb28181DomainConfig;
  ga_digest_context : DigestContext;
  ga_replay_cache : DigestReplayCache;
  ga_auth_rate_limiter : AuthRateLimiter IpAddr;
  ga_tag_counter : Z;
  ga_registrations : RegistrationTable
}.
Definition set_digest (a : Gb28181Access) (d : DigestContext) : Gb28181Access :=
  mkAccess (ga_config a) d (ga_replay_cache a) (ga_auth_rate_limiter a) (ga_tag_counter a) (ga_registrations a).
Definition set_replay (a : Gb28181Access) (c : DigestReplayCache) : Gb28181Access :=
  mkAccess (ga_config a) (ga_digest_context a) c (ga_auth_rate_limiter a) (ga_tag_counter a) (ga_registrations a).
Definition set_limiter (a : Gb28181Access) (l : AuthRateLimiter IpAddr) : Gb28181Access :=
  mkAccess (ga_config a) (ga_digest_context a) (ga_replay_cache a) l (ga_tag_counter a) (ga_registrations a).
Definition set_registrations (a : Gb28181Access) (t : RegistrationTable) : Gb28181Access :=
  mkAccess (ga_config a) (ga_digest_context a) (ga_replay_cache a) (ga_auth_rate_limiter a) (ga_tag_counter a) t.
Definition bump_tag (a : Gb28181Access) : Gb28181Access :=
  mkAccess (ga_config a) (ga_digest_context a) (ga_replay_cache a) (ga_auth_rate_limiter a)
    (wrap64 (ga_tag_counter a + 1)) (ga_registrations a).

Definition outputs : Type := result (list AccessOutput) AccessError.

Definition DigestError_display (e : DigestError) : string :=
  match e with
  | Malformed s => "malformed digest header: " +:+ s
  | UnknownAlgorithm => "unknown digest algorithm"
  | AlgorithmNotAllowed => "MD5 not allowed by policy"
  | AlgorithmDowngrade => "digest algorithm downgrade rejected"
  | InvalidQop => "invalid or unsupported qop"
  | InvalidNonce => "nonce signature verification failed"
  | WeakSecret => "server secret is too short"
  | StaleNonce => "nonce is stale"
  | ReplayDetected => "digest replay detected"
  | RealmMismatch => "digest realm mismatch"
  | UriMismatch => "digest uri mismatch"
  | InvalidResponse => "digest response mismatch"
  end.

Definition access_new (config : Gb28181DomainConfig) : result Gb28181Access AccessError :=
  let internal := map_err (fun e => AeInternal (DigestError_display e)) in
  let? ctx := internal (context_new (cf_realm config) (cf_digest_secret config)) in
  let ctx := context_preferred_algorithm (context_allow_md5 ctx (cf_allow_md5 config)) (cf_preferred_algorithm config) in
  let? ctx := internal (context_qop ctx (Some Auth)) in
  Ok (mkAccess config ctx (replay_cache_new 1024)
        (limiter_new (cf_auth_max_failures_per_source config) (cf_auth_rate_window_seconds config)
           (Z.to_nat (cf_auth_rate_max_sources config)))
        1 (table_new (cf_max_registrations config))).

Definition next_tag (a : Gb28181Access) : string * Gb28181Access :=
  ("gb" +:+ show_uint (ga_tag_counter a), bump_tag a).
(** Answer the request with one response that carries the next tag. *)
Definition reply (a : Gb28181Access) (build : string -> SipMessage) : Gb28181Access * outputs :=
  let '(tag, a) := next_tag a in (a, Ok [SendResponse (build tag)]).
Definition bad_request_response (a : Gb28181Access) (request : SipMessage) : Gb28181Access * outputs :=
  reply a (build_error_response request 400 "Bad Request").

Section machine.
Context `{Crypto} `{QuickXml} `{EncodingRs}.

Definition authentication_failure_response (a : Gb28181Access) (request : SipMessage) (now : Z) (stale : bool) :
    Gb28181Access * outputs :=
  let '(d, r) := if stale then generate_stale_challenge (ga_digest_context a) now
                 else generate_challenge (ga_digest_context a) now in
  let a := set_digest a d in
  match r with
  | Ok ch => reply a (build_challenge_response request ch)
  | Err e => (a, Err (AeInternal (DigestError_display e)))
  end.
Definition auth_failed (a : Gb28181Access) (request : SipMessage) (now : Z) (stale : bool) (source : SocketAddr) :
    Gb28181Access * outputs :=
  authentication_failure_response
    (set_limiter a (record_failure (ga_auth_rate_limiter a) (sa_ip source) now)) request now stale.
Definition rate_limited_response (a : Gb28181Access) (request : SipMessage) (now : Z) (source : IpAddr) :
    Gb28181Access * outputs :=
  reply a (build_rate_limited_response request (retry_after_seconds (ga_auth_rate_limiter a) source now)).

(** What the [Authorization] header leads to: go on, with [auth_ok] and
    [auth_attempted], or answer now. *)
Inductive AuthVerdict := Proceed (auth_ok auth_attempted : bool) | Answer (r : outputs).
Definition answer (p : Gb28181Access * outputs) : Gb28181Access * AuthVerdict := (p.1, Answer p.2).

Definition is_bad_header (e : DigestError) : bool :=
  match e with Malformed _ | UnknownAlgorithm | InvalidQop => true | _ => false end.

Definition authenticate_required `{CredentialProvider} (a : Gb28181Access) (message : SipMessage) (line : RequestLine)
    (device_id : DeviceId) (source : SocketAddr) (now : Z) (auth_header : string) : Gb28181Access * AuthVerdict :=
  match parse_authorization auth_header with
  | Err e => if is_bad_header e then answer (bad_request_response a message)
             else answer (auth_failed a message now false source)
  | Ok digest =>
      match password_for device_id with
      | Err _ => answer (authentication_failure_response a message now false)
      | Ok None => answer (auth_failed a message now false source)
      | Ok (Some password) =>
          let '(cache, r) := validate (ga_digest_context a) digest REGISTER (uri_encode (rl_uri line)) password
                               (ga_replay_cache a) now in
          let a := set_replay a cache in
          match r with
          | Ok _ => (a, Proceed true false)
          | Err StaleNonce => answer (authentication_failure_response a message now true)
          | Err _ => answer (auth_failed a message now false source)
          end
      end
  end.
Definition authenticate_optional `{CredentialProvider} (a : Gb28181Access) (message : SipMessage) (line : RequestLine)
    (device_id : DeviceId) (source : SocketAddr) (now : Z) (auth_header : string) : Gb28181Access * AuthVerdict :=
  match password_for device_id with
  | Err _ => answer (authentication_failure_response a message now false)
  | Ok None => (a, Proceed false false)
  | Ok (Some password) =>
      match parse_authorization auth_header with
      | Err e => if is_bad_header e then answer (bad_request_response a message)
                 else answer (auth_failed a message now false source)
      | Ok digest =>
          let '(cache, r) := validate (ga_digest_context a) digest REGISTER (uri_encode (rl_uri line)) password
                               (ga_replay_cache a) now in
          let a := set_replay a cache in
          match r with
          | Ok _ => (a, Proceed true false)
          | Err StaleNonce => answer (authentication_failure_response a message now true)
          | Err _ => (set_limiter a (record_failure (ga_auth_rate_limiter a) (sa_ip source) now), Proceed false true)
          end
      end
  end.
Definition authenticate `{CredentialProvider} (a : Gb28181Access) (message : SipMessage) (line : RequestLine)
    (headers : SipHeaders) (device_id : DeviceId) (source : SocketAddr) (now : Z) : Gb28181Access * AuthVerdict :=
  match get headers HAuthorization with
  | None => (a, Proceed false false)
  | Some auth_header =>
      if is_blocked (ga_auth_rate_limiter a) (sa_ip source) now
      then answer (rate_limited_response a message now (sa_ip source))
      else match cf_auth_policy (ga_config a) with
           | Required => authenticate_required a message line device_id source now auth_header
           | ChallengeOptional => authenticate_optional a message line device_id source now auth_header
           end
  end.

Definition register_accepted (a : Gb28181Access) (message : SipMessage) (contact_uri : SipUri) (expires : Z)
    (device_id : DeviceId) (source : SocketAddr) (user_agent : option string) (now : Z) : Gb28181Access * outputs :=
  let domain_id := cf_domain_id (ga_config a) in
  if expires =? 0 then
    let a := set_registrations a (table_remove (ga_registrations a) device_id) in
    let '(tag, a) := next_tag a in
    (a, Ok [SendResponse (build_success_response message contact_uri expires tag);
            EmitEvent (DeviceUnregistered domain_id device_id source)])
  else
    let contact := uri_encode contact_uri in
    let top_via := head (get_all (msg_headers message) HVia) in
    let route := from_registration_with_profile source top_via (Some contact_uri) (Some (cf_compatibility (ga_config a))) in
    let '(t, r) := upsert (ga_registrations a) device_id route contact expires now user_agent in
    let a := set_registrations a t in
    match r with
    | Err RegistrationTableFull => reply a (build_error_response message 503 "Service Unavailable")
    | Err e => (a, Err e)
    | Ok registration =>
        let '(tag, a) := next_tag a in
        (a, Ok [SendResponse (build_success_response message contact_uri expires tag);
                EmitEvent (DeviceRegistered domain_id device_id source contact expires user_agent
                             (rg_sequence registration))])
    end.

Definition process_register `{CredentialProvider} (a : Gb28181Access) (source : SocketAddr) (now : Z)
    (message : SipMessage) (line : RequestLine) (headers : SipHeaders) : Gb28181Access * outputs :=
  match device_id_from_request line headers with
  | Err InvalidDeviceId => bad_request_response a message
  | Err e => (a, Err e)
  | Ok device_id =>
      match parse_contact_header headers with
      | Err (InvalidContact | InvalidExpires) => bad_request_response a message
      | Err e => (a, Err e)
      | Ok (contact_uri, contact_exp) =>
          match parse_expires_header headers with
          | Err InvalidExpires => bad_request_response a message
          | Err e => (a, Err e)
          | Ok header_exp =>
              let expires := resolve_expires contact_exp header_exp (ga_config a) in
              let user_agent := get headers HUserAgent in
              match authenticate a message line headers device_id source now with
              | (a, Answer r) => (a, r)
              | (a, Proceed auth_ok auth_attempted) =>
                  let a := if auth_ok then set_limiter a (record_success (ga_auth_rate_limiter a) (sa_ip source)) else a in
                  if auth_ok || (bool_decide (cf_auth_policy (ga_config a) = ChallengeOptional) && negb auth_attempted)
                  then register_accepted a message contact_uri expires device_id source user_agent now
                  else authentication_failure_response a message now false
              end
          end
      end
  end.

(** The event of a business message; its source is the registered route. *)
Definition message_event (config : Gb28181DomainConfig) (root : XmlElement) (cmd : string) (device_id : DeviceId)
    (route : SocketAddr) : result Gb28181Event AccessError :=
  let domain_id := cf_domain_id config in
  let profile := cf_compatibility config in
  if String.eqb cmd "Keepalive" then
    let? k := extract_keepalive root in Ok (KeepaliveReceived domain_id device_id route (ka_status k))
  else if String.eqb cmd "Catalog" then
    let? c := extract_catalog_with_profile root profile in
    Ok (CatalogReceived domain_id device_id route (cr_sn c) (cr_sum_num c) (cr_num c) (cr_items c))
  else if String.eqb cmd "DeviceInfo" then
    let? i := extract_device_info root in
    Ok (DeviceInfoReceived domain_id device_id route (di_sn i) (di_result i) (di_manufacturer i) (di_model i) (di_firmware i))
  else if String.eqb cmd "DeviceStatus" then
    let? s := extract_device_status root in
    Ok (DeviceStatusReceived domain_id device_id route (dst_sn s) (dst_result s) (dst_online s) (dst_status s)
          (dst_reason s) (dst_invalid_equip s))
  else if String.eqb cmd "Alarm" then
    let? al := extract_alarm root in
    Ok (AlarmReceived domain_id device_id route (al_sn al) (al_priority al) (al_method al) (al_type al) (al_time al) (al_info al))
  else if String.eqb cmd "MobilePosition" then
    let? p := extract_mobile_position root in
    Ok (MobilePositionReceived domain_id device_id route (mp_sn p) (mp_time p) (mp_longitude p) (mp_latitude p)
          (mp_speed p) (mp_direction p) (mp_altitude p))
  else if String.eqb cmd "RecordInfo" then
    let? i := extract_record_info root in
    Ok (RecordInfoReceived domain_id device_id route (rr_sn i) (rr_name i) (rr_sum_num i) (rr_num i) (rr_items i))
  else if String.eqb cmd "DeviceControl" then
    let? r := Control.extract_device_control_response root in
    Ok (DeviceControlResponseReceived domain_id device_id route (Control.cp_sn r) (Control.cp_result r))
  else if String.eqb cmd "MediaStatus" && has profile CapMediaStatus then
    let? s := extract_media_status root in
    Ok (MediaStatusReceived domain_id device_id route (ms_sn s) (ms_notify_type s)
          (media_status_outcome profile (ms_notify_type s)))
  else Err (UnsupportedCmdType cmd).

(** The part of [process_message_body] before the table is touched: the device and the event. *)
Definition read_message (a : Gb28181Access) (source : SocketAddr) (headers : SipHeaders) (body : string) :
    result (DeviceId * Gb28181Event) AccessError :=
  let profile := cf_compatibility (ga_config a) in
  let? content_type := resolve_vendor_content_type (get headers HContentType) profile in
  if bool_decide (content_type = Mansrtsp)
  then Err (UnsupportedContentType "MANSRTSP not accepted on MESSAGE")
  else
    let? from := ok_or (get headers HFrom) InvalidDeviceId in
    let? from_device_id := ok_or (device_from_address from) InvalidDeviceId in
    let? root := parse_xml_with_profile body XmlLimits_default profile in
    let? cmd := ok_or (child_text root "CmdType") (InvalidXml "missing CmdType") in
    let? xml_device_id := map_err (fun _ => InvalidXml "missing DeviceID") (require_child_text root "DeviceID") in
    if negb (String.eqb from_device_id xml_device_id) then Err InvalidDeviceId
    else
      let? device_id := ok_or (device_id_new xml_device_id) InvalidDeviceId in
      let route := default source (table_send_target (ga_registrations a) device_id) in
      let? event := message_event (ga_config a) root cmd device_id route in
      Ok (device_id, event).

Definition process_message_body (a : Gb28181Access) (source : SocketAddr) (now : Z) (message : SipMessage)
    (headers : SipHeaders) (body : string) : Gb28181Access * outputs :=
  match read_message a source headers body with
  | Err e => (a, Err e)
  | Ok (device_id, event) =>
      match touch (ga_registrations a) device_id source now with
      | (_, None) => (a, Err NotRegistered)
      | (t, Some outcome) =>
          let a := set_registrations a t in
          let presence :=
            if was_offline outcome then
              [EmitEvent (DevicePresenceChanged (cf_domain_id (ga_config a)) device_id
                            (default source (table_send_target t device_id)) PresenceOnline)]
            else [] in
          let '(tag, a) := next_tag a in
          (a, Ok (presence ++ [EmitEvent event; SendResponse (build_message_response message tag)]))
      end
  end.
Definition process_message (a : Gb28181Access) (source : SocketAddr) (now : Z) (message : SipMessage)
    (headers : SipHeaders) (body : string) : Gb28181Access * outputs :=
  match process_message_body a source now message headers body with
  | (a, Ok out) => (a, Ok out)
  | (a, Err (InvalidDeviceId | InvalidXml _ | UnsupportedCmdType _ | UnsupportedContentType _)) =>
      reply a (build_error_response message 400 "Bad Request")
  | (a, Err NotRegistered) => reply a (build_error_response message 403 "Forbidden")
  | (a, Err e) => (a, Err e)
  end.

Definition process `{CredentialProvider} (a : Gb28181Access) (input : AccessInput) : Gb28181Access * outputs :=
  let message := in_message input in
  match message with
  | Request line headers body =>
      if bool_decide (rl_method line = REGISTER)
      then process_register a (in_source input) (in_now input) message line headers
      else if bool_decide (rl_method line = MESSAGE)
      then process_message a (in_source input) (in_now input) message headers body
      else reply a (build_error_response message 501 "Not Implemented")
  | Response _ _ _ => (a, Ok [])
  end.

Definition device_send_target (a : Gb28181Access) (device_id : DeviceId) : option SocketAddr :=
  table_send_target (ga_registrations a) device_id.
Definition device_route (a : Gb28181Access) (device_id : DeviceId) : option EndpointRoute :=
  table_route (ga_registrations a) device_id.

(** ** Ticks *)

(** One registration of the loop of [tick]: the table, the expired devices and the outputs so far. *)
Definition tick_one (config : Gb28181DomainConfig) (now : Z)
    (acc : gmap DeviceId Registration * list DeviceId * list AccessOutput) (entry : DeviceId * Registration) :
    gmap DeviceId Registration * list DeviceId * list AccessOutput :=
  let '(m, expired, out) := acc in
  let '(device_id, r) := entry in
  if rg_expires r <=? sat_sub now (rg_registered_at r) then
    (m, expired ++ [device_id],
     out ++ [EmitEvent (DeviceUnregistered (cf_domain_id config) device_id (registration_source r))])
  else if negb (rg_offline r) && (cf_heartbeat_timeout_seconds config <=? sat_sub now (rg_last_seen r)) then
    (<[device_id := set_seen r (rg_last_seen r) true]> m, expired,
     out ++ [EmitEvent (DevicePresenceChanged (cf_domain_id config) device_id (registration_source r) PresenceOffline)])
  else (m, expired, out).
Definition tick (order : hash_order DeviceId Registration) (a : Gb28181Access) (now : Z) : Gb28181Access * outputs :=
  let t := ga_registrations a in
  let '(m, expired, out) := fold_left (tick_one (ga_config a) now) (ho_iter order (rt_table t)) (rt_table t, [], []) in
  (set_registrations a (with_table t (fold_left (fun m d => delete d m) expired m)), Ok out).

End machine.

(** ** Outbound requests

    [cheetah-gb28181-module/src/access/outbound.rs], [command.rs]: a command of the
    domain becomes a SIP [MESSAGE] to the registered route of its device. *)

Record Gb28181Command := mkGbCommand {
  gc_command : Command;
  gc_device_external_id : DeviceId;
  gc_channel_external_id : option DeviceId;
  gc_listener_id : string
}.

(** [SipError]'s [Display]: the name of the kind, the offset, the message. *)
Definition SipErrorKind_name (k : SipErrorKind) : string :=
  match k with
  | StartLineTooLong => "StartLineTooLong" | HeaderTooLong => "HeaderTooLong" | TooManyHeaders => "TooManyHeaders"
  | HeadersTooLarge => "HeadersTooLarge" | BodyTooLarge => "BodyTooLarge" | BufferTooLarge => "BufferTooLarge"
  | ContentLengthMismatch => "ContentLengthMismatch" | InvalidStartLine => "InvalidStartLine"
  | InvalidHeader => "InvalidHeader" | InvalidUri => "InvalidUri" | MissingRequiredHeader => "MissingRequiredHeader"
  | InvalidFraming => "InvalidFraming" | TransactionTimeout => "TransactionTimeout"
  | TransactionCancelled => "TransactionCancelled" | TransportFailure => "TransportFailure"
  | AuthenticationFailure => "AuthenticationFailure"
  end.
Definition SipError_display (e : SipError) : string :=
  SipErrorKind_name (se_kind e)
  +:+ match se_offset e with Some n => " at offset " +:+ show_uint n | None => "" end
  +:+ ": " +:+ se_message e.
Definition sip_internal {A} (r : result A SipError) : result A AccessError :=
  map_err (fun e => AeInternal (SipError_display e)) r.

(** [ptz_command]. *)
Definition ptz_command (direction : PtzDirection) (speed : spec_float) : Control.PtzCommand :=
  let scale := F64.clamp speed F64.zero F64.one in
  let v := F64.round_i8 (F64.mul scale (F64.of_u64 (Control.max_pan_tilt_speed Control.ptz_new))) in
  let z := F64.round_i8 (F64.mul scale (F64.of_u64 (Control.max_zoom_speed Control.ptz_new))) in
  let cmd pan tilt zoom := Control.mkPtz pan tilt zoom 63 15 in
  match direction with
  | PtzStop => cmd 0 0 0
  | PtzUp => cmd 0 v 0
  | PtzDown => cmd 0 (- v) 0
  | PtzLeft => cmd (- v) 0 0
  | PtzRight => cmd v 0 0
  | PtzUpLeft => cmd (- v) v 0
  | PtzUpRight => cmd v v 0
  | PtzDownLeft => cmd (- v) (- v) 0
  | PtzDownRight => cmd v (- v) 0
  | PtzZoomIn => cmd 0 0 z
  | PtzZoomOut => cmd 0 0 (- z)
  end.

Section outbound.
Context `{Rfc3339} `{ShowF64} (order : hash_order string string).

Definition control_body (sn device_id : string) (kind : Control.DeviceControlKind) : result string AccessError :=
  Control.control_encode_xml order (Control.mkControl sn device_id kind).

(** The body of a command; presets are listed by a query and addressed by one byte. *)
Definition preset_body (sn target_id : string) (p : PresetCommand) : result string AccessError :=
  let act action :=
    let? point := ok_or (if pc_preset_id p <=? U8_MAX then Some (pc_preset_id p) else None)
                        (InvalidXml "preset_id exceeds u8 range") in
    control_body sn target_id (Control.CkPreset (Control.mkPreset action point)) in
  match pc_action p with
  | PaList => query_encode_xml order (mkQuery sn target_id QkPresetQuery None None None None)
  | PaGoto => act Control.PCall
  | PaSet => act Control.PSet
  | PaDelete => act Control.PDelete
  end.
Definition control_kind (c : DeviceControlCommand) : Control.DeviceControlKind :=
  match dc_kind c with
  | DkGuard => Control.CkGuard (default true (dc_enabled c))
  | DkAlarmReset => Control.CkAlarmReset (dc_param c)
  | DkRecord => Control.CkRecord (default true (dc_enabled c))
  | DkTeleBoot => Control.CkTeleBoot
  | DkIFrame => Control.CkIFrame
  | DkDeviceConfig => Control.CkDeviceConfig (dc_param c)
  end.
Definition command_body (sn target_id : string) (payload : CommandPayload) : result string AccessError :=
  match payload with
  | Query query => query_encode_xml order (query_from_command sn target_id query)
  | Ptz _ direction speed => control_body sn target_id (Control.CkPtz (ptz_command direction speed))
  | Preset preset => preset_body sn target_id preset
  | DeviceControl control => control_body sn target_id (control_kind control)
  | other => Err (UnsupportedCmdType (CommandPayload_kind other))
  end.

Definition build_message_request (config : Gb28181DomainConfig) (target_id body tag : string) :
    result SipMessage AccessError :=
  let realm := cf_realm config in
  let? from_uri := sip_internal (uri_parse ("sip:" +:+ cf_domain_id config +:+ "@" +:+ realm)) in
  let? to_uri := sip_internal (uri_parse ("sip:" +:+ target_id +:+ "@" +:+ realm)) in
  let? via := sip_internal (header_via "UDP" realm 5060 ("z9hG4bK" +:+ tag)) in
  let? from := sip_internal (header_from_uri from_uri tag) in
  Ok (Request (RequestLine_new MESSAGE to_uri)
        (headers_of [(HVia, via); (HFrom, from); (HTo, header_to_uri to_uri);
                     (HCallId, "gb-cmd-" +:+ tag +:+ "@" +:+ realm); (HCSeq, header_cseq 1 MESSAGE);
                     (HMaxForwards, "70"); (HUserAgent, "Cheetah-GB28181/0.1.0");
                     (HContentType, "Application/MANSCDP+xml"); (HContentLength, show_uint (str_len body))])
        body).

Definition next_sn (a : Gb28181Access) : string * Gb28181Access := (show_uint (ga_tag_counter a), bump_tag a).

Definition process_command (a : Gb28181Access) (input : Gb28181Command) : Gb28181Access * outputs :=
  match device_send_target a (gc_device_external_id input) with
  | None => (a, Err NotRegistered)
  | Some target =>
      let '(sn, a) := next_sn a in
      let '(tag, a) := next_tag a in
      let target_id := default (gc_device_external_id input) (gc_channel_external_id input) in
      (a, let? body := command_body sn target_id (cmd_payload (gc_command input)) in
          let? message := build_message_request (ga_config a) target_id body tag in
          Ok [SendMessage target message])
  end.
End outbound.
