(* ===== verification/GbCascade.v ===== *)
(** * Cascade: a registration with an upstream platform

    [cheetah-gb28181-module/src/cascade]: the configuration ([mod.rs]), the builders
    of messages ([registration.rs], [keepalive.rs], [catalog.rs],
    [subscription/notify.rs]), the machine ([machine.rs], [machine_response.rs]),
    the queue of reports ([report.rs]), subscriptions ([subscription/mod.rs]),
    catalog queries ([request_handler.rs]) and play bridges ([bridge.rs]).

    The machine is a record that every function takes and returns, also with an
    error.  A [BTreeMap] is a [gmap] that is read in the order of its keys
    ([btree_iter]).  The passwords of platforms are the class [CascadeCredentials];
    the pages of the catalog are the class [CatalogProvider], which also sees how
    many pages it gave for this query; the hash of the jitter is [JitterHash]. *)

From S2P Require Import Prelude RustStr SipUri SipMessage DigestReplay DigestCodec Digest Domain Compatibility.
From S2P Require Import Sdp SipEndpoint GbXml GbMessages GbPolicy GbAccess.

Open Scope string_scope.
Open Scope list_scope.
Open Scope Z_scope.

(** [BTreeMap::iter]: the entries by key. *)
Definition string_le (a b : string) : Prop := String.compare a b <> Gt.
#[global] Instance string_le_dec a b : Decision (string_le a b).
Proof. unfold string_le. destruct (String.compare a b); [left|left|right]; congruence. Defined.
Definition btree_iter {V} (m : gmap string V) : list (string * V) :=
  merge_sort (fun x y => string_le x.1 y.1) (map_to_list m).

(** ** Errors *)

Inductive CascadeError :=
| CeInvalidState (m : string)
| CeMalformedSip (m : string)
| CeNoCredentials
| CeAuthenticationFailed (m : string)
| CeInternal (m : string).

Definition MAX_CASCADE_ERROR_BYTES : nat := 1024.
Definition clamp_cascade_message (m : string) : string := clamp_str m MAX_CASCADE_ERROR_BYTES.
Definition invalid_state (m : string) : CascadeError := CeInvalidState (clamp_cascade_message m).
Definition malformed_sip (m : string) : CascadeError := CeMalformedSip (clamp_cascade_message m).
Definition authentication_failed (m : string) : CascadeError := CeAuthenticationFailed (clamp_cascade_message m).
Definition ce_internal (m : string) : CascadeError := CeInternal (clamp_cascade_message m).
Definition CascadeError_display (e : CascadeError) : string :=
  match e with
  | CeInvalidState m => "invalid cascade state: " +:+ m
  | CeMalformedSip m => "malformed SIP message: " +:+ m
  | CeNoCredentials => "no credentials for upstream platform"
  | CeAuthenticationFailed m => "authentication error: " +:+ m
  | CeInternal m => "internal cascade error: " +:+ m
  end.
(** The conversions [From<DigestError>], [From<SipError>]. *)
Definition of_digest {A} (r : result A DigestError) : result A CascadeError :=
  map_err (fun e => authentication_failed (DigestError_display e)) r.
Definition of_sip {A} (r : result A SipError) : result A CascadeError :=
  map_err (fun e => malformed_sip (SipError_display e)) r.
Definition AccessError_display (e : AccessError) : string :=
  match e with
  | UnknownDomain => "no domain configuration matches the request URI"
  | UnsupportedMethod => "request method is not supported for this endpoint"
  | UnsupportedCmdType cmd => "unsupported command type: " +:+ cmd
  | InvalidDeviceId => "missing or invalid device identifier"
  | InvalidDomainId => "invalid domain identifier"
  | InvalidContact => "missing or malformed Contact header"
  | InvalidExpires => "missing or malformed Expires value"
  | AuthenticationRequired => "authentication required"
  | AuthenticationFailed => "authentication failed"
  | NotRegistered => "device is not registered or session has expired"
  | RegistrationTableFull => "registration table is full"
  | InvalidXml why => "malformed or disallowed XML body: " +:+ why
  | UnsupportedContentType why => "unsupported content type: " +:+ why
  | AeInternal why => "internal module error: " +:+ why
  end.
(** [.map_err(|e| CascadeError::internal(format!("{what}: {e}")))]. *)
Definition of_xml {A} (what : string) (r : result A AccessError) : result A CascadeError :=
  map_err (fun e => ce_internal (what +:+ ": " +:+ AccessError_display e)) r.

Definition cascade_token (value : string) : result unit CascadeError :=
  if negb (lacks CR value) || negb (lacks LF value)
  then Err (ce_internal "SIP header token contains forbidden line break") else Ok tt.

(** ** Configuration *)

Definition MAX_CATALOG_ITEMS_PER_PACKET : Z := 10000.
Definition MAX_CATALOG_QUERY_PAGES : Z := 10000.
Definition MAX_USER_AGENT_BYTES : Z := 256.
Definition MAX_CATALOG_FILTER_TENANT_BYTES : Z := 256.
Definition MAX_CATALOG_FILTER_ORG_PREFIX_BYTES : Z := 512.
Definition MAX_CATALOG_FILTER_LIST_ENTRIES : Z := 1024.
Definition MAX_CATALOG_FILTER_DEVICE_ID_BYTES : Z := 256.
Definition MAX_CATALOG_FILTER_TAG_BYTES : Z := 128.
Definition MAX_MEDIA_BRIDGE_SESSIONS : Z := 10000.
Definition MAX_SUBSCRIPTIONS : Z := 10000.
Definition MAX_REPORT_QUEUE_SIZE : Z := 10000.
Definition MAX_RETRIES : Z := 100.
Definition MAX_BACKOFF_MS : Z := 3600000.
Definition MAX_JITTER_MS : Z := 60000.
Definition MAX_SUBSCRIPTION_EXPIRY_SECONDS : Z := 2592000.

Record CatalogFilter := mkFilter {
  fl_tenant_id : option string;
  fl_whitelisted_device_ids : list string;
  fl_tags : list string;
  fl_org_path_prefix : option string
}.
Definition CatalogFilter_default : CatalogFilter := mkFilter None [] [] None.
Definition filter_is_permissive (f : CatalogFilter) : bool :=
  bool_decide (fl_tenant_id f = None) && bool_decide (fl_whitelisted_device_ids f = [])
  && bool_decide (fl_tags f = []) && bool_decide (fl_org_path_prefix f = None).
Definition filter_too_long (name : string) (max : Z) (what : string) : CascadeError :=
  ce_internal ("catalog_filter." +:+ name +:+ " exceeds " +:+ show_uint max +:+ what).
Definition filter_validate (f : CatalogFilter) : result unit CascadeError :=
  if longer_than MAX_CATALOG_FILTER_TENANT_BYTES (fl_tenant_id f)
  then Err (filter_too_long "tenant_id" MAX_CATALOG_FILTER_TENANT_BYTES " bytes")
  else if MAX_CATALOG_FILTER_LIST_ENTRIES <? Z.of_nat (length (fl_whitelisted_device_ids f))
  then Err (filter_too_long "whitelisted_device_ids" MAX_CATALOG_FILTER_LIST_ENTRIES " entries")
  else if existsb (fun id => MAX_CATALOG_FILTER_DEVICE_ID_BYTES <? str_len id) (fl_whitelisted_device_ids f)
  then Err (filter_too_long "whitelisted_device_ids entry" MAX_CATALOG_FILTER_DEVICE_ID_BYTES " bytes")
  else if MAX_CATALOG_FILTER_LIST_ENTRIES <? Z.of_nat (length (fl_tags f))
  then Err (filter_too_long "tags" MAX_CATALOG_FILTER_LIST_ENTRIES " entries")
  else if existsb (fun tag => MAX_CATALOG_FILTER_TAG_BYTES <? str_len tag) (fl_tags f)
  then Err (filter_too_long "tags entry" MAX_CATALOG_FILTER_TAG_BYTES " bytes")
  else if longer_than MAX_CATALOG_FILTER_ORG_PREFIX_BYTES (fl_org_path_prefix f)
  then Err (filter_too_long "org_path_prefix" MAX_CATALOG_FILTER_ORG_PREFIX_BYTES " bytes")
  else Ok tt.

(** The limits, which [sanitize] brings into their ranges, apart from the rest. *)
Record CascadeLimits := mkCascadeLimits {
  cl_max_retries : Z;
  cl_base_backoff_ms : Z;
  cl_max_backoff_ms : Z;
  cl_jitter_ms : Z;
  cl_catalog_max_items_per_packet : Z;
  cl_catalog_max_query_pages : Z;
  cl_media_bridge_max_sessions : Z;
  cl_report_max_queue_size : Z;
  cl_subscription_max_subscriptions : Z;
  cl_subscription_default_expiry_seconds : Z;
  cl_subscription_min_expiry_seconds : Z;
  cl_subscription_max_expiry_seconds : Z
}.
Record CascadeConfig := mkCascadeConfig {
  cc_domain_id : DomainId;
  cc_local_uri : SipUri;
  cc_upstream : SipUri;
  cc_realm : string;
  cc_credential_ref : string;
  cc_register_interval_seconds : Z;
  cc_register_refresh_margin_seconds : Z;
  cc_transaction_timeout_seconds : Z;
  cc_allow_md5 : bool;
  cc_allow_internal_upstreams : bool;
  cc_sdp_endpoint_policy : option EndpointPolicy;
  cc_keepalive_interval_seconds : Z;
  cc_keepalive_timeout_seconds : Z;
  cc_keepalive_max_failures : Z;
  cc_media_bridge_transaction_timeout_seconds : Z;
  cc_media_bridge_active_timeout_seconds : Z;
  cc_catalog_filter : CatalogFilter;
  cc_user_agent : option string;
  cc_catalog_inbound_digest_credential_ref : option string;
  cc_catalog_inbound_digest_server_secret : option string;
  cc_limits : CascadeLimits
}.
Definition set_limits (l : CascadeLimits) (c : CascadeConfig) : CascadeConfig :=
  mkCascadeConfig (cc_domain_id c) (cc_local_uri c) (cc_upstream c) (cc_realm c) (cc_credential_ref c)
    (cc_register_interval_seconds c) (cc_register_refresh_margin_seconds c) (cc_transaction_timeout_seconds c)
    (cc_allow_md5 c) (cc_allow_internal_upstreams c) (cc_sdp_endpoint_policy c) (cc_keepalive_interval_seconds c)
    (cc_keepalive_timeout_seconds c) (cc_keepalive_max_failures c) (cc_media_bridge_transaction_timeout_seconds c)
    (cc_media_bridge_active_timeout_seconds c) (cc_catalog_filter c) (cc_user_agent c)
    (cc_catalog_inbound_digest_credential_ref c) (cc_catalog_inbound_digest_server_secret c) l.

Definition clampZ (lo hi x : Z) : Z := Z.min hi (Z.max lo x).
Definition sanitize_limits (l : CascadeLimits) : CascadeLimits :=
  let base := clampZ 0 MAX_BACKOFF_MS (cl_base_backoff_ms l) in
  let low := clampZ 0 MAX_SUBSCRIPTION_EXPIRY_SECONDS (cl_subscription_min_expiry_seconds l) in
  let high := clampZ 0 MAX_SUBSCRIPTION_EXPIRY_SECONDS (cl_subscription_max_expiry_seconds l) in
  let min_expiry := Z.min low high in
  let max_expiry := Z.max low high in
  mkCascadeLimits (clampZ 0 MAX_RETRIES (cl_max_retries l)) base (clampZ base MAX_BACKOFF_MS (cl_max_backoff_ms l))
    (clampZ 0 MAX_JITTER_MS (cl_jitter_ms l))
    (clampZ 1 MAX_CATALOG_ITEMS_PER_PACKET (cl_catalog_max_items_per_packet l))
    (clampZ 1 MAX_CATALOG_QUERY_PAGES (cl_catalog_max_query_pages l))
    (clampZ 0 MAX_MEDIA_BRIDGE_SESSIONS (cl_media_bridge_max_sessions l))
    (clampZ 0 MAX_REPORT_QUEUE_SIZE (cl_report_max_queue_size l))
    (clampZ 0 MAX_SUBSCRIPTIONS (cl_subscription_max_subscriptions l))
    (clampZ min_expiry max_expiry
       (clampZ 0 MAX_SUBSCRIPTION_EXPIRY_SECONDS (cl_subscription_default_expiry_seconds l)))
    min_expiry max_expiry.
Definition sanitize (c : CascadeConfig) : result CascadeConfig CascadeError :=
  let c := set_limits (sanitize_limits (cc_limits c)) c in
  let? _ := match cc_user_agent c with
            | Some ua =>
                if MAX_USER_AGENT_BYTES <? str_len ua
                then Err (ce_internal ("user_agent exceeds " +:+ show_uint MAX_USER_AGENT_BYTES +:+ " bytes"))
                else cascade_token ua
            | None => Ok tt
            end in
  let? _ := filter_validate (cc_catalog_filter c) in
  Ok c.

Definition upstream_endpoint_policy (allow_internal : bool) : EndpointPolicy :=
  if allow_internal then any_zone_sip else public_sip.

Definition with_options (domain_id : DomainId) (local_uri upstream : SipUri) (realm credential_ref : string)
    (register_interval_seconds register_refresh_margin_seconds : Z) (allow_md5 allow_internal_upstreams : bool) :
    result CascadeConfig CascadeError :=
  if register_interval_seconds =? 0
  then Err (ce_internal "register_interval_seconds must be greater than zero")
  else if register_refresh_margin_seconds =? 0
  then Err (ce_internal "register_refresh_margin_seconds must be greater than zero")
  else
    let? _ := cascade_token realm in
    let? _ := cascade_token credential_ref in
    let? _ := cascade_token (default "" (uri_user local_uri)) in
    let? _ := cascade_token (uri_host upstream) in
    let? _ := map_err (fun e => ce_internal ("local advertised host is not explicit: " +:+ EndpointPolicyError_display e))
                (require_explicit_advertised_host (uri_host local_uri)) in
    let? _ := map_err (fun e => ce_internal ("invalid upstream endpoint: " +:+ EndpointPolicyError_display e))
                (validate_sip_endpoint (upstream_endpoint_policy allow_internal_upstreams) upstream) in
    sanitize
      (mkCascadeConfig domain_id local_uri upstream realm credential_ref register_interval_seconds
         register_refresh_margin_seconds 32 allow_md5 allow_internal_upstreams None 30 10 3 60 604800
         CatalogFilter_default None None None
         (mkCascadeLimits 5 1000 60000 1000 100 1000 1000 1000 1000 3600 60 86400)).
Definition cascade_config_new (domain_id : DomainId) (local_uri upstream : SipUri) (realm credential_ref : string)
    (register_interval_seconds : Z) : result CascadeConfig CascadeError :=
  with_options domain_id local_uri upstream realm credential_ref register_interval_seconds 30 false false.

Definition with_catalog_inbound_digest (credential_ref server_secret : string) (c : CascadeConfig) :
    result CascadeConfig CascadeError :=
  let? _ := cascade_token credential_ref in
  if str_len server_secret <? 32
  then Err (ce_internal "catalog inbound digest server secret must be at least 32 bytes")
  else Ok (mkCascadeConfig (cc_domain_id c) (cc_local_uri c) (cc_upstream c) (cc_realm c) (cc_credential_ref c)
    (cc_register_interval_seconds c) (cc_register_refresh_margin_seconds c) (cc_transaction_timeout_seconds c)
    (cc_allow_md5 c) (cc_allow_internal_upstreams c) (cc_sdp_endpoint_policy c) (cc_keepalive_interval_seconds c)
    (cc_keepalive_timeout_seconds c) (cc_keepalive_max_failures c) (cc_media_bridge_transaction_timeout_seconds c)
    (cc_media_bridge_active_timeout_seconds c) (cc_catalog_filter c) (cc_user_agent c)
    (Some credential_ref) (Some server_secret) (cc_limits c)).
Definition with_sdp_endpoint_policy (p : EndpointPolicy) (c : CascadeConfig) : CascadeConfig :=
  mkCascadeConfig (cc_domain_id c) (cc_local_uri c) (cc_upstream c) (cc_realm c) (cc_credential_ref c)
    (cc_register_interval_seconds c) (cc_register_refresh_margin_seconds c) (cc_transaction_timeout_seconds c)
    (cc_allow_md5 c) (cc_allow_internal_upstreams c) (Some p) (cc_keepalive_interval_seconds c)
    (cc_keepalive_timeout_seconds c) (cc_keepalive_max_failures c) (cc_media_bridge_transaction_timeout_seconds c)
    (cc_media_bridge_active_timeout_seconds c) (cc_catalog_filter c) (cc_user_agent c)
    (cc_catalog_inbound_digest_credential_ref c) (cc_catalog_inbound_digest_server_secret c) (cc_limits c).
Definition verify_upstream_resolved_addresses (c : CascadeConfig) (addresses : list IpAddr) : result unit CascadeError :=
  map_err (fun e => ce_internal ("upstream address rejected: " +:+ EndpointPolicyError_display e))
    (verify_resolved_addresses (upstream_endpoint_policy (cc_allow_internal_upstreams c)) addresses).
Definition config_platform_id (c : CascadeConfig) : string :=
  default (uri_host (cc_local_uri c)) (uri_user (cc_local_uri c)).

(** ** Messages *)

(** The headers of a request to the upstream: [Via], [From] the local platform, [to], then the rest. *)
Definition request_headers (c : CascadeConfig) (branch tag to call_id : string) (cseq : Z) (m : Method)
    (own : list (HeaderName * string)) : result SipHeaders CascadeError :=
  let? via := of_sip (header_via "UDP" (uri_host (cc_local_uri c)) (default 5060 (uri_port (cc_local_uri c))) branch) in
  let? from := of_sip (header_from_uri (cc_local_uri c) tag) in
  Ok (headers_of ([(HVia, via); (HFrom, from); (HTo, to); (HCallId, call_id); (HCSeq, header_cseq cseq m)] ++ own)).
Definition agent_header (c : CascadeConfig) : list (HeaderName * string) :=
  match cc_user_agent c with Some ua => [(HUserAgent, ua)] | None => [] end.
Definition length_header (body : string) : HeaderName * string := (HContentLength, show_uint (str_len body)).

Definition build_register_request (c : CascadeConfig) (call_id local_tag : string) (cseq : Z) (branch : string)
    (expires_seconds : Z) (auth : option DigestResponse) : result SipMessage CascadeError :=
  let? _ := cascade_token call_id in
  let? _ := cascade_token local_tag in
  let? _ := cascade_token branch in
  let? headers := request_headers c branch local_tag (header_to_uri (cc_local_uri c)) call_id cseq REGISTER
    ([(HContact, header_contact_uri (cc_local_uri c)); (HMaxForwards, "70"); (HExpires, show_uint expires_seconds)]
     ++ agent_header c
     ++ (match auth with Some a => [(HAuthorization, response_header_value a)] | None => [] end)
     ++ [(HContentLength, "0")]) in
  Ok (Request (RequestLine_new REGISTER (cc_upstream c)) headers "").

(** A MESSAGE with a MANSCDP body to the upstream, with the headers before the length. *)
Definition manscdp_message (c : CascadeConfig) (call_id : string) (cseq : Z) (local_tag branch body : string)
    (own : list (HeaderName * string)) : result SipMessage CascadeError :=
  let? headers := request_headers c branch local_tag (header_to_uri (cc_upstream c)) call_id cseq MESSAGE
    ([(HContentType, "Application/MANSCDP+xml"); (HMaxForwards, "70")] ++ agent_header c ++ own ++ [length_header body]) in
  Ok (Request (RequestLine_new MESSAGE (cc_upstream c)) headers body).

Section messages.
Context (order : hash_order string string).

Definition build_keepalive_message (c : CascadeConfig) (call_id : string) (cseq : Z) (local_tag branch : string)
    (sn : Z) (platform_id : string) : result SipMessage CascadeError :=
  let? _ := cascade_token call_id in
  let? _ := cascade_token local_tag in
  let? _ := cascade_token branch in
  let? body := of_xml "failed to encode keepalive XML" (build_keepalive order (show_uint sn) platform_id "OK") in
  manscdp_message c call_id cseq local_tag branch body [].
End messages.

Definition build_catalog_message (c : CascadeConfig) (call_id : string) (cseq : Z) (local_tag branch catalog_xml : string) :
    result SipMessage CascadeError :=
  let? _ := cascade_token call_id in
  let? _ := cascade_token local_tag in
  let? _ := cascade_token branch in
  manscdp_message c call_id cseq local_tag branch catalog_xml [].

Definition parse_uri_from_header (value : string) : option SipUri :=
  let value := trim value in
  letopt uri_str := match find_char "<" value with
                    | Some start =>
                        let rest := str_drop (start + 1) value in
                        letopt stop := find_char ">" rest in Some (str_take stop rest)
                    | None =>
                        match find_char ";" value with
                        | Some semi => Some (str_take semi value)
                        | None => Some value
                        end
                    end in
  ok (uri_parse (trim uri_str)).
Definition uri_matches (a b : SipUri) : bool :=
  if negb (eq_ignore_ascii_case (uri_host a) (uri_host b)) then false
  else match uri_user b with
       | Some expected => bool_decide (uri_user a = Some expected)
       | None => bool_decide (uri_user a = None)
       end.
Definition header_uri (headers : SipHeaders) (name : HeaderName) : option SipUri :=
  letopt v := get headers name in parse_uri_from_header v.
Definition request_from_matches_upstream (request : SipMessage) (upstream : SipUri) : bool :=
  match request with
  | Request _ headers _ => match header_uri headers HFrom with Some u => uri_matches u upstream | None => false end
  | Response _ _ _ => false
  end.
Definition request_to_uri_matches_local (request : SipMessage) (local : SipUri) : bool :=
  match request with
  | Request _ headers _ => match header_uri headers HTo with Some u => uri_matches u local | None => false end
  | Response _ _ _ => false
  end.
Definition request_target_matches_local (request : SipMessage) (local : SipUri) : bool :=
  match request with Request line _ _ => uri_matches (rl_uri line) local | Response _ _ _ => false end.

(** The [To] of a response: with the tag of the request, or with ours. *)
Definition tagged_to (headers : SipHeaders) (response_tag : string) : list (HeaderName * string) :=
  match get headers HTo with
  | Some v =>
      if existsb is_tag (split ";" v) || is_empty_str response_tag then [(HTo, v)]
      else [(HTo, trim v +:+ ";tag=" +:+ response_tag)]
  | None => []
  end.
Definition build_response (request : SipMessage) (code : Z) (reason response_tag body : string) : SipMessage :=
  let h := msg_headers request in
  Response (StatusLine_new code reason)
    (headers_of (map (pair HVia) (get_all h HVia) ++ first_of h HFrom ++ tagged_to h response_tag
                 ++ first_of h HCallId ++ first_of h HCSeq ++ [length_header body])) body.
Definition build_ok_response (request : SipMessage) (response_tag : string) : SipMessage :=
  build_response request 200 "OK" response_tag "".
Definition build_bad_request_response (request : SipMessage) (reason response_tag : string) : SipMessage :=
  build_response request 400 reason response_tag "".
(** The tag of a challenge is never empty; the test on it is [build_response]'s only. *)
Definition build_unauthorized_response (request : SipMessage) (response_tag : string) (ch : DigestChallenge) :
    result SipMessage CascadeError :=
  match request with
  | Response _ _ _ => Err (ce_internal "caller ensured a request")
  | Request _ h _ =>
      let to := match get h HTo with
                | Some v => if existsb is_tag (split ";" v) then [(HTo, v)]
                            else [(HTo, trim v +:+ ";tag=" +:+ response_tag)]
                | None => []
                end in
      Ok (Response (StatusLine_new 401 "Unauthorized")
            (headers_of (map (pair HVia) (get_all h HVia) ++ first_of h HFrom ++ to ++ first_of h HCallId ++ first_of h HCSeq
                         ++ [(HWwwAuthenticate, challenge_header_value ch); (HContentLength, "0")])) "")
  end.

(** ** State *)

Record Keepalive := mkKeepaliveState {
  kp_next_at : Z;
  kp_pending_until : option Z;
  kp_failures : Z;
  kp_sn : Z;
  kp_call_id : string;
  kp_cseq : Z
}.
Definition keepalive_new (next_at : Z) (call_id : string) (cseq : Z) : Keepalive :=
  mkKeepaliveState next_at None 0 0 call_id cseq.

Record Registered := mkRegistered {
  rd_cseq : Z;
  rd_call_id : string;
  rd_local_tag : string;
  rd_refresh_at : Z;
  rd_challenge : option DigestChallenge;
  rd_keepalive : Keepalive
}.
Definition set_keepalive (k : Keepalive) (r : Registered) : Registered :=
  mkRegistered (rd_cseq r) (rd_call_id r) (rd_local_tag r) (rd_refresh_at r) (rd_challenge r) k.
Definition set_challenge (ch : DigestChallenge) (r : Registered) : Registered :=
  mkRegistered (rd_cseq r) (rd_call_id r) (rd_local_tag r) (rd_refresh_at r) (Some ch) (rd_keepalive r).

Record Registering := mkRegistering {
  rn_cseq : Z;
  rn_branch : string;
  rn_call_id : string;
  rn_local_tag : string;
  rn_attempt : Z;
  rn_started_at : Z;
  rn_authenticated : bool;
  rn_is_deregister : bool;
  rn_previous : option Registered;
  rn_challenge : option DigestChallenge
}.

Inductive CascadeState :=
| CIdle
| CRegistering (r : Registering)
| CRegistered (r : Registered)
| CFailed (retry_at attempt : Z)
| CDeregistering (r : Registering).
Definition is_registered (s : CascadeState) : bool := match s with CRegistered _ => true | _ => false end.

Inductive BridgeState := BInvited | BAccepted | BActive | BClosing.
#[global] Instance BridgeState_eq_dec : EqDecision BridgeState.
Proof. solve_decision. Defined.
Record Bridge := mkBridge {
  br_bridge_id : string;
  br_upstream_call_id : string;
  br_upstream_from : string;
  br_upstream_to : string;
  br_upstream_via : list string;
  br_upstream_cseq : Z;
  br_state : BridgeState;
  br_expires_at : Z
}.
Definition set_bridge_state (s : BridgeState) (expires_at : Z) (b : Bridge) : Bridge :=
  mkBridge (br_bridge_id b) (br_upstream_call_id b) (br_upstream_from b) (br_upstream_to b) (br_upstream_via b)
    (br_upstream_cseq b) s expires_at.

Inductive ReportKind := RkPresence | RkMobilePosition | RkAlarm.
Record PendingReport := mkReport {
  pr_kind : ReportKind;
  pr_device_id : string;
  pr_body_xml : string;
  pr_is_critical : bool;
  pr_idempotency_key : option string;
  pr_expires_at : Z
}.
Record Reports := mkReports {
  rp_queue : list PendingReport;
  rp_state : gmap string PendingReport;
  rp_order : list string
}.

Record PendingNotify := mkPendingNotify { pn_cseq : Z; pn_branch : string; pn_sent_at : Z; pn_retry_count : Z }.
Record Subscription := mkSubscription {
  sb_call_id : string;
  sb_local_tag : string;
  sb_remote_tag : string;
  sb_remote_uri : SipUri;
  sb_event_package : string;
  sb_expires_at : Z;
  sb_next_cseq : Z;
  sb_pending_notify : option PendingNotify;
  sb_last_active_at : Z
}.
Definition set_pending_notify (p : option PendingNotify) (s : Subscription) : Subscription :=
  mkSubscription (sb_call_id s) (sb_local_tag s) (sb_remote_tag s) (sb_remote_uri s) (sb_event_package s)
    (sb_expires_at s) (sb_next_cseq s) p (sb_last_active_at s).

Record AuthorizationContext := mkAuthorization { ac_challenge : DigestChallenge; ac_client : DigestClient }.
Record InboundAuthContext := mkInboundAuth { ia_digest : DigestContext; ia_replay : DigestReplayCache }.

#[global] Instance DigestChallenge_eq_dec : EqDecision DigestChallenge.
Proof. solve_decision. Defined.

(** [gc_catalog_provider] tells whether a provider is attached; its answers are [CatalogProvider]. *)
Record Gb28181Cascade := mkCascade {
  gc_config : CascadeConfig;
  gc_state : CascadeState;
  gc_request_counter : Z;
  gc_bridge_counter : Z;
  gc_report_counter : Z;
  gc_auth : option AuthorizationContext;
  gc_catalog_provider : bool;
  gc_inbound_auth : option InboundAuthContext;
  gc_bridges : gmap string Bridge;
  gc_reports : Reports;
  gc_subscriptions : gmap string Subscription
}.
Definition set_state (s : CascadeState) (c : Gb28181Cascade) : Gb28181Cascade :=
  mkCascade (gc_config c) s (gc_request_counter c) (gc_bridge_counter c) (gc_report_counter c) (gc_auth c)
    (gc_catalog_provider c) (gc_inbound_auth c) (gc_bridges c) (gc_reports c) (gc_subscriptions c).
Definition set_counters (request bridge report : Z) (c : Gb28181Cascade) : Gb28181Cascade :=
  mkCascade (gc_config c) (gc_state c) request bridge report (gc_auth c)
    (gc_catalog_provider c) (gc_inbound_auth c) (gc_bridges c) (gc_reports c) (gc_subscriptions c).
Definition set_auth (a : option AuthorizationContext) (c : Gb28181Cascade) : Gb28181Cascade :=
  mkCascade (gc_config c) (gc_state c) (gc_request_counter c) (gc_bridge_counter c) (gc_report_counter c) a
    (gc_catalog_provider c) (gc_inbound_auth c) (gc_bridges c) (gc_reports c) (gc_subscriptions c).
Definition set_inbound_auth (a : option InboundAuthContext) (c : Gb28181Cascade) : Gb28181Cascade :=
  mkCascade (gc_config c) (gc_state c) (gc_request_counter c) (gc_bridge_counter c) (gc_report_counter c) (gc_auth c)
    (gc_catalog_provider c) a (gc_bridges c) (gc_reports c) (gc_subscriptions c).
Definition set_bridges (m : gmap string Bridge) (c : Gb28181Cascade) : Gb28181Cascade :=
  mkCascade (gc_config c) (gc_state c) (gc_request_counter c) (gc_bridge_counter c) (gc_report_counter c) (gc_auth c)
    (gc_catalog_provider c) (gc_inbound_auth c) m (gc_reports c) (gc_subscriptions c).
Definition set_reports (r : Reports) (c : Gb28181Cascade) : Gb28181Cascade :=
  mkCascade (gc_config c) (gc_state c) (gc_request_counter c) (gc_bridge_counter c) (gc_report_counter c) (gc_auth c)
    (gc_catalog_provider c) (gc_inbound_auth c) (gc_bridges c) r (gc_subscriptions c).
Definition set_subscriptions (m : gmap string Subscription) (c : Gb28181Cascade) : Gb28181Cascade :=
  mkCascade (gc_config c) (gc_state c) (gc_request_counter c) (gc_bridge_counter c) (gc_report_counter c) (gc_auth c)
    (gc_catalog_provider c) (gc_inbound_auth c) (gc_bridges c) (gc_reports c) m.

Inductive CascadeEvent :=
| CeRegister
| CeDeregister
| CeRequest (m : SipMessage)
| CeResponse (m : SipMessage)
| CeBridgeMediaReady (bridge_id answer_sdp : string)
| CeBridgeMediaStop (bridge_id : string)
| CeTick
| CeReport (e : Gb28181Event).
Record CascadeInput := mkCascadeInput { ci_now : Z; ci_event : CascadeEvent }.
Inductive CascadeOutput :=
| COutRequest (m : SipMessage)
| COutResponse (m : SipMessage)
| COutEvent (e : Gb28181Event).

Definition couts : Type := result (list CascadeOutput) CascadeError.

(** ** Identifiers of requests *)

Definition platform_id (c : Gb28181Cascade) : string := config_platform_id (gc_config c).
Definition bump_request (c : Gb28181Cascade) : Gb28181Cascade :=
  set_counters (wrap64 (gc_request_counter c + 1)) (gc_bridge_counter c) (gc_report_counter c) c.
(** [next_call_id] and [next_local_tag], which are the same. *)
Definition next_local_tag (now : Z) (c : Gb28181Cascade) : Gb28181Cascade * string :=
  let c := bump_request c in
  (c, platform_id c +:+ "-" +:+ show_uint now +:+ "-" +:+ show_uint (gc_request_counter c)).
Definition next_call_id : Z -> Gb28181Cascade -> Gb28181Cascade * string := next_local_tag.
Definition next_cseq (c : Gb28181Cascade) : Gb28181Cascade * Z :=
  let c := bump_request c in (c, wrap32 (gc_request_counter c)).
Definition next_branch (call_id : string) (cseq : Z) (c : Gb28181Cascade) : Gb28181Cascade * string :=
  let c := bump_request c in
  (c, "z9hG4bK-" +:+ call_id +:+ "-" +:+ show_uint cseq +:+ "-" +:+ show_uint (gc_request_counter c)).

Definition disconnected (c : Gb28181Cascade) (reason : string) : CascadeOutput :=
  COutEvent (CascadePlatformDisconnected (cc_domain_id (gc_config c)) (platform_id c) reason).
(** The registration is over: [subscriptions.clear()], [State::Idle], and the event. *)
Definition disconnect (reason : string) (c : Gb28181Cascade) : Gb28181Cascade * list CascadeOutput :=
  let c := set_state CIdle (set_subscriptions ∅ c) in (c, [disconnected c reason]).

Class CascadeCredentials := cascade_password : string -> option string.
(** [stable_hash_u64(&(platform_id, attempt))]. *)
Class JitterHash := jitter_hash : string -> Z -> Z.

Record CascadeCatalogQuery := mkShareQuery { sq_sn : string; sq_device_id : string; sq_filter : CatalogFilter }.
Record CatalogPage := mkPage { pg_items : list CatalogItem; pg_total : Z; pg_next_cursor : option string }.
Class CatalogProvider := query_page : nat -> CascadeCatalogQuery -> option string -> Z -> result CatalogPage string.

(** ** Backoff and failures *)

Section machine.
Context `{QuickXml} `{EncodingRs} `{Crypto} `{JitterHash} `{CascadeCredentials} `{CatalogProvider}.
Context (order : hash_order string string).

Definition jitter (c : Gb28181Cascade) (attempt : Z) : Z :=
  let j := cl_jitter_ms (cc_limits (gc_config c)) in
  if j =? 0 then 0 else jitter_hash (platform_id c) attempt mod j.
Definition backoff_ms (c : Gb28181Cascade) (attempt : Z) : Z :=
  let l := cc_limits (gc_config c) in
  let exp := sat_mul64 (cl_base_backoff_ms l) (2 ^ Z.min attempt 16) in
  sat_add64 (Z.min exp (cl_max_backoff_ms l)) (jitter c attempt).

Definition fail_or_retry (now attempt : Z) (is_deregister : bool) (reason : string) (c : Gb28181Cascade) :
    Gb28181Cascade * list CascadeOutput :=
  if is_deregister || (cl_max_retries (cc_limits (gc_config c)) <=? attempt) then disconnect reason c
  else
    let retry_at := sat_add64 now (backoff_ms c (wrap32 (attempt + 1)) / 1000) in
    (set_state (CFailed retry_at (wrap32 (attempt + 1))) (set_subscriptions ∅ c), []).

Definition checked_add32 (n : Z) (what : string) : result Z CascadeError :=
  if U32_MAX <? n + 1 then Err (ce_internal (what +:+ " overflow")) else Ok (n + 1).

(** ** REGISTER *)

Definition build_authorization (ch : DigestChallenge) (cseq attempt now : Z) (c : Gb28181Cascade) :
    Gb28181Cascade * result DigestResponse CascadeError :=
  if bool_decide (ch_qop ch = Some AuthInt)
  then (c, Err (authentication_failed "auth-int qop is not supported"))
  else
    let needs_new := match gc_auth c with
                     | Some a => negb (bool_decide (ac_challenge a = ch)) | None => true end in
    match (if needs_new
           then match of_digest (client_qop (client_allow_md5 digest_client_new (cc_allow_md5 (gc_config c))) (ch_qop ch)) with
                | Ok client => Ok (set_auth (Some (mkAuthorization ch client)) c)
                | Err e => Err e
                end
           else Ok c) with
    | Err e => (c, Err e)
    | Ok c =>
        match cascade_password (cc_credential_ref (gc_config c)) with
        | None => (c, Err CeNoCredentials)
        | Some password =>
            match gc_auth c with
            | None => (c, Err (ce_internal "digest auth context missing after creation"))
            | Some a =>
                match of_digest (derive_cnonce password (platform_id c +:+ "-" +:+ show_uint cseq +:+ "-"
                                   +:+ show_uint attempt +:+ "-" +:+ show_uint now)) with
                | Err e => (c, Err e)
                | Ok cnonce =>
                    let '(client, r) :=
                      authorize (ac_client a) (default "" (uri_user (cc_local_uri (gc_config c)))) password "REGISTER"
                        (uri_encode (cc_upstream (gc_config c))) ch cnonce in
                    (set_auth (Some (mkAuthorization (ac_challenge a) client)) c, of_digest r)
                end
            end
        end
    end.

Definition start_registering (now : Z) (is_deregister : bool) (previous : option Registered) (c : Gb28181Cascade) :
    Gb28181Cascade * result Registering CascadeError :=
  match (match previous with Some p => checked_add32 (rd_cseq p) "CSeq" | None => Ok 1 end) with
  | Err e => (c, Err e)
  | Ok cseq =>
      let '(c, call_id) := match previous with Some p => (c, rd_call_id p) | None => next_call_id now c end in
      let '(c, local_tag) := match previous with Some p => (c, rd_local_tag p) | None => next_local_tag now c end in
      let '(c, branch) := next_branch call_id cseq c in
      let attempt := match gc_state c with CFailed _ attempt => attempt | _ => 0 end in
      (c, Ok (mkRegistering cseq branch call_id local_tag attempt now false is_deregister previous
                (letopt p := previous in rd_challenge p)))
  end.

(** The authorization of a refresh or a deregistration, by the cached challenge. *)
Definition cached_authorization (now : Z) (reg : Registering) (prev : Registered) (c : Gb28181Cascade) :
    Gb28181Cascade * result (option DigestResponse) CascadeError :=
  match rd_challenge prev with
  | Some ch =>
      let '(c, r) := build_authorization ch (rn_cseq reg) (rn_attempt reg) now c in
      (c, match r with Ok a => Ok (Some a) | Err e => Err e end)
  | None => (c, Ok None)
  end.

Definition send_register (reg : Registering) (expires : Z) (auth : option DigestResponse) (next : CascadeState)
    (c : Gb28181Cascade) : Gb28181Cascade * couts :=
  match build_register_request (gc_config c) (rn_call_id reg) (rn_local_tag reg) (rn_cseq reg) (rn_branch reg) expires auth with
  | Err e => (c, Err e)
  | Ok msg => (set_state next c, Ok [COutRequest msg])
  end.

Definition on_register (now : Z) (c : Gb28181Cascade) : Gb28181Cascade * couts :=
  let interval := cc_register_interval_seconds (gc_config c) in
  match gc_state c with
  | CIdle | CFailed _ _ =>
      let '(c, r) := start_registering now false None c in
      match r with
      | Err e => (c, Err e)
      | Ok reg => send_register reg interval None (CRegistering reg) c
      end
  | CRegistered prev =>
      let '(c, r) := start_registering now false (Some prev) c in
      match r with
      | Err e => (c, Err e)
      | Ok reg =>
          let '(c, a) := cached_authorization now reg prev c in
          match a with
          | Err e =>
              let '(c, out) := fail_or_retry now (rn_attempt reg) false
                                 ("authorization build failed for refresh: " +:+ CascadeError_display e) c in (c, Ok out)
          | Ok auth => send_register reg interval auth (CRegistering reg) c
          end
      end
  | CRegistering _ | CDeregistering _ => (c, Ok [])
  end.

Definition on_deregister (now : Z) (c : Gb28181Cascade) : Gb28181Cascade * couts :=
  match gc_state c with
  | CRegistered prev =>
      let '(c, r) := start_registering now true (Some prev) c in
      match r with
      | Err e => (c, Err e)
      | Ok reg =>
          let '(c, a) := cached_authorization now reg prev c in
          match a with
          | Err e =>
              let '(c, out) := fail_or_retry now (rn_attempt reg) true
                                 ("authorization build failed for deregister: " +:+ CascadeError_display e) c in (c, Ok out)
          | Ok auth => send_register reg 0 auth (CDeregistering reg) c
          end
      end
  | _ => (c, Ok [])
  end.

(** ** Keepalive *)

Definition on_keepalive_tick (now : Z) (reg : Registered) (c : Gb28181Cascade) : Gb28181Cascade * couts :=
  let k := rd_keepalive reg in
  match kp_pending_until k with
  | Some pending_until =>
      if now <? pending_until then (c, Ok [])
      else
        let failures := wrap32 (kp_failures k + 1) in
        let k := mkKeepaliveState (kp_next_at k) None failures (kp_sn k) (kp_call_id k) (kp_cseq k) in
        if cc_keepalive_max_failures (gc_config c) <=? failures
        then let '(c, out) := disconnect "keepalive timed out" c in (c, Ok out)
        else (set_state (CRegistered (set_keepalive k reg)) c, Ok [])
  | None =>
      if now <? kp_next_at k then (c, Ok [])
      else
        match (let? sn := checked_add32 (kp_sn k) "keepalive SN" in
               let? cseq := checked_add32 (kp_cseq k) "keepalive CSeq" in Ok (sn, cseq)) with
        | Err e => (c, Err e)
        | Ok (sn, cseq) =>
            let '(c, branch) := next_branch (kp_call_id k) cseq c in
            match build_keepalive_message order (gc_config c) (kp_call_id k) cseq (rd_local_tag reg) branch sn (platform_id c) with
            | Err e => (c, Err e)
            | Ok msg =>
                let k := mkKeepaliveState (sat_add64 now (cc_keepalive_interval_seconds (gc_config c)))
                           (Some (sat_add64 now (cc_keepalive_timeout_seconds (gc_config c))))
                           (kp_failures k) sn (kp_call_id k) cseq in
                (set_state (CRegistered (set_keepalive k reg)) c, Ok [COutRequest msg])
            end
        end
  end.

Definition keepalive_failure (now : Z) (reg : Registered) (code : Z) (reason : string) (c : Gb28181Cascade) :
    Gb28181Cascade * list CascadeOutput :=
  let k := rd_keepalive reg in
  let failures := wrap32 (kp_failures k + 1) in
  if cc_keepalive_max_failures (gc_config c) <=? failures
  then disconnect ("keepalive failed with " +:+ show_uint code +:+ " " +:+ reason) c
  else
    let k := mkKeepaliveState (sat_add64 now (cc_keepalive_interval_seconds (gc_config c)))
               (kp_pending_until k) failures (kp_sn k) (kp_call_id k) (kp_cseq k) in
    (set_state (CRegistered (set_keepalive k reg)) c, []).

Definition handle_keepalive_response (now : Z) (status : StatusLine) (body : string) (reg : Registered) (c : Gb28181Cascade) :
    Gb28181Cascade * list CascadeOutput :=
  let k := rd_keepalive reg in
  let done := mkKeepaliveState (kp_next_at k) None (kp_failures k) (kp_sn k) (kp_call_id k) (kp_cseq k) in
  if 300 <=? sl_code status then keepalive_failure now (set_keepalive done reg) (sl_code status) (sl_reason status) c
  else if is_success (sl_code status) then
    let business_ok := if is_empty_str body then true
                       else match parse_keepalive_response body with
                            | Ok r => eq_ignore_ascii_case (kr_result r) "OK"
                            | Err _ => false
                            end in
    if business_ok : bool then
      let k := mkKeepaliveState (sat_add64 now (cc_keepalive_interval_seconds (gc_config c))) None 0 (kp_sn k)
                 (kp_call_id k) (kp_cseq k) in
      (set_state (CRegistered (set_keepalive k reg)) c, [])
    else keepalive_failure now (set_keepalive done reg) (sl_code status) "upstream rejected keepalive" c
  else (set_state (CRegistered reg) c, []).

(** ** Responses to REGISTER *)

Definition extract_challenge (headers : SipHeaders) : result (option DigestChallenge) CascadeError :=
  match get headers HWwwAuthenticate with
  | None => Ok None
  | Some value =>
      match challenge_parse value with
      | Ok ch => Ok (Some ch)
      | Err e => Err (malformed_sip ("failed to parse WWW-Authenticate: " +:+ DigestError_display e))
      end
  end.
Definition parse_expires (headers : SipHeaders) (default : Z) : result Z CascadeError :=
  match get headers HExpires with
  | None => Ok default
  | Some value =>
      let trimmed := trim value in
      if is_empty_str trimmed then Err (malformed_sip "empty Expires header")
      else ok_or (parse_uint U32_MAX trimmed) (malformed_sip ("non-numeric Expires header: " +:+ trimmed))
  end.

Definition challenge_and_resend (now : Z) (headers : SipHeaders) (reg : Registering) (c : Gb28181Cascade) :
    Gb28181Cascade * couts :=
  match (let? ch := extract_challenge headers in
         let? ch := ok_or ch (malformed_sip "401 response missing WWW-Authenticate") in
         let? next_cseq := checked_add32 (rn_cseq reg) "CSeq" in Ok (ch, next_cseq)) with
  | Err e => (c, Err e)
  | Ok (ch, cseq) =>
      let '(c, branch) := next_branch (rn_call_id reg) cseq c in
      let attempt := wrap32 (rn_attempt reg + 1) in
      let '(c, a) := build_authorization ch cseq attempt now c in
      match a with
      | Err e => (c, Err e)
      | Ok auth =>
          let dereg := rn_is_deregister reg in
          let reg := mkRegistering cseq branch (rn_call_id reg) (rn_local_tag reg) attempt now true dereg
                       (if dereg then rn_previous reg else set_challenge ch <$> rn_previous reg)
                       (if dereg then rn_challenge reg else Some ch) in
          send_register reg (if dereg then 0 else cc_register_interval_seconds (gc_config c)) (Some auth)
            (if dereg then CDeregistering reg else CRegistering reg) c
      end
  end.

Definition registration_granted (now : Z) (headers : SipHeaders) (reg : Registering) (c : Gb28181Cascade) :
    Gb28181Cascade * couts :=
  match parse_expires headers (cc_register_interval_seconds (gc_config c)) with
  | Err e => (c, Err e)
  | Ok expires =>
      if expires =? 0 then let '(c, out) := disconnect "upstream granted zero expiry" c in (c, Ok out)
      else
        let challenge := match extract_challenge headers with
                         | Ok (Some ch) => Some ch
                         | _ => rn_challenge reg
                         end in
        let margin := Z.max 1 (Z.min (cc_register_refresh_margin_seconds (gc_config c)) (expires / 2)) in
        let refresh_at := sat_add64 now (Z.max 1 (sat_sub expires margin)) in
        let '(c, keepalive_call_id) := next_call_id now c in
        let keepalive := keepalive_new (sat_add64 now (cc_keepalive_interval_seconds (gc_config c))) keepalive_call_id 0 in
        (set_state (CRegistered (mkRegistered (rn_cseq reg) (rn_call_id reg) (rn_local_tag reg) refresh_at challenge keepalive)) c,
         Ok [COutEvent (CascadePlatformConnected (cc_domain_id (gc_config c)) (platform_id c)
                          (uri_encode (cc_upstream (gc_config c))) expires)])
  end.

Definition handle_register_response (now : Z) (status : StatusLine) (headers : SipHeaders) (reg : Registering)
    (c : Gb28181Cascade) : Gb28181Cascade * couts :=
  let fail reason c := let '(c, out) := fail_or_retry now (rn_attempt reg) false reason c in (c, Ok out) in
  let code := sl_code status in
  if (code =? 401) && negb (rn_authenticated reg) then challenge_and_resend now headers reg c
  else if (code =? 401) && rn_authenticated reg then
    match extract_challenge headers with
    | Err e => (c, Err e)
    | Ok ch =>
        if (match ch with Some ch => ch_stale ch | None => false end) then challenge_and_resend now headers reg c
        else fail "authentication rejected by upstream" c
    end
  else if 400 <=? code then fail ("REGISTER failed with " +:+ show_uint code +:+ " " +:+ sl_reason status) c
  else if 300 <=? code then fail ("REGISTER redirected with " +:+ show_uint code +:+ " " +:+ sl_reason status) c
  else if is_success code then registration_granted now headers reg c
  else (c, Ok []).

Definition handle_deregister_response (now : Z) (status : StatusLine) (headers : SipHeaders) (reg : Registering)
    (c : Gb28181Cascade) : Gb28181Cascade * couts :=
  let stop reason := let '(c, out) := disconnect reason c in (c, Ok out) in
  let code := sl_code status in
  if (code =? 401) && negb (rn_authenticated reg) then challenge_and_resend now headers reg c
  else if (code =? 401) && rn_authenticated reg then stop "deregister rejected: authentication failed"
  else if 400 <=? code then stop ("deregister failed with " +:+ show_uint code +:+ " " +:+ sl_reason status)
  else if 300 <=? code then stop ("deregister redirected with " +:+ show_uint code +:+ " " +:+ sl_reason status)
  else if is_success code then stop "deregistered"
  else (c, Ok []).

(** ** Catalog queries *)

(** The identifiers of one catalog message: call id, tag and branch, with CSeq 0. *)
Definition catalog_message (cfg : CascadeConfig) (query : CascadeCatalogQuery) (now : Z) (platform : string)
    (counter sum_num : Z) (items : list CatalogItem) : result SipMessage CascadeError :=
  let call_id := platform +:+ "-" +:+ show_uint now +:+ "-" +:+ show_uint counter in
  let branch := "z9hG4bK-" +:+ call_id +:+ "-0-" +:+ show_uint counter in
  let? xml := of_xml "XML encode failed" (build_catalog_response order (sq_sn query) (sq_device_id query) sum_num items) in
  build_catalog_message cfg call_id 0 call_id branch xml.

(** The loop of [build_catalog_pages]: [room] pages are left, [asked] were asked for. *)
Fixpoint catalog_loop (cfg : CascadeConfig) (query : CascadeCatalogQuery) (now : Z) (platform : string)
    (max_per_packet max_total_items : Z) (room asked : nat) (cursor : option string) (counter : Z) :
    Z * result (list SipMessage) CascadeError :=
  match room with
  | O => (counter, Ok [])
  | S room =>
      match query_page asked query cursor max_per_packet with
      | Err e => (counter, Err (ce_internal ("catalog provider error: " +:+ e)))
      | Ok page =>
          let items := firstn (Z.to_nat max_per_packet) (pg_items page) in
          let total := Z.min (pg_total page) max_total_items in
          if bool_decide (items = []) then
            if bool_decide (cursor = None) then
              let counter := wrap64 (counter + 1) in
              (counter, let? m := catalog_message cfg query now platform counter 0 [] in Ok [m])
            else (counter, Ok [])
          else
            let sum_num := if total <=? U32_MAX then total else U32_MAX in
            let counter := wrap64 (counter + 1) in
            match catalog_message cfg query now platform counter sum_num items with
            | Err e => (counter, Err e)
            | Ok m =>
                match pg_next_cursor page with
                | None => (counter, Ok [m])
                | Some _ =>
                    let '(counter, rest) :=
                      catalog_loop cfg query now platform max_per_packet max_total_items room (S asked)
                        (pg_next_cursor page) counter in
                    (counter, let? rest := rest in Ok (m :: rest))
                end
            end
      end
  end.
Definition build_catalog_pages (cfg : CascadeConfig) (query : CascadeCatalogQuery) (max_per_packet now : Z)
    (counter : Z) (platform : string) : Z * result (list SipMessage) CascadeError :=
  let max_per_packet := clampZ 1 MAX_CATALOG_ITEMS_PER_PACKET max_per_packet in
  let max_pages := clampZ 1 MAX_CATALOG_QUERY_PAGES (cl_catalog_max_query_pages (cc_limits cfg)) in
  catalog_loop cfg query now platform max_per_packet (sat_mul64 max_per_packet max_pages) (Z.to_nat max_pages) 0 None counter.

Definition check_catalog_authorization (msg : SipMessage) (line : RequestLine) (headers : SipHeaders) (now : Z)
    (response_tag : string) (c : Gb28181Cascade) : Gb28181Cascade * result (option SipMessage) CascadeError :=
  match gc_inbound_auth c with
  | None => (c, Ok None)
  | Some auth =>
      let credential_ref := default (cc_credential_ref (gc_config c)) (cc_catalog_inbound_digest_credential_ref (gc_config c)) in
      match cascade_password credential_ref with
      | None => (c, Ok (Some (build_response msg 403 "Forbidden" response_tag "")))
      | Some password =>
          let '(replay, valid) :=
            match letopt v := get headers HAuthorization in ok (response_parse v) with
            | Some response =>
                let '(replay, r) := validate (ia_digest auth) response (rl_method line) (uri_encode (rl_uri line)) password
                                      (ia_replay auth) now in (replay, is_ok r)
            | None => (ia_replay auth, false)
            end in
          if valid : bool then (set_inbound_auth (Some (mkInboundAuth (ia_digest auth) replay)) c, Ok None)
          else
            let '(digest, ch) := generate_challenge (ia_digest auth) now in
            (set_inbound_auth (Some (mkInboundAuth digest replay)) c,
             let? ch := of_digest ch in
             let? r := build_unauthorized_response msg response_tag ch in Ok (Some r))
      end
  end.

Definition from_upstream_to_local (msg : SipMessage) (c : Gb28181Cascade) : bool :=
  is_registered (gc_state c) && request_target_matches_local msg (cc_local_uri (gc_config c))
  && request_to_uri_matches_local msg (cc_local_uri (gc_config c))
  && request_from_matches_upstream msg (cc_upstream (gc_config c)).

Definition answer (msg : SipMessage) (code : Z) (reason tag : string) : list CascadeOutput :=
  [COutResponse (build_response msg code reason tag "")].

Definition contains_str (pat s : string) : bool := bool_decide (is_Some (find_str pat s)).

(** [request_handler::handle_request]. *)
Definition handle_message (now : Z) (msg : SipMessage) (c : Gb28181Cascade) : Gb28181Cascade * list CascadeOutput :=
  if negb (gc_catalog_provider c) then (c, [])
  else
    match msg with
    | Response _ _ _ => (c, [])
    | Request line headers body =>
        if negb (bool_decide (rl_method line = MESSAGE)) then (c, [])
        else
          let '(c, tag) := next_local_tag now c in
          if bool_decide (get headers HCallId = None) then (c, answer msg 400 "Bad Request" tag)
          else if negb (from_upstream_to_local msg c) then (c, answer msg 403 "Forbidden" tag)
          else
            let '(c, r) := check_catalog_authorization msg line headers now tag c in
            match r with
            | Ok (Some response) => (c, [COutResponse response])
            | Err _ => (c, answer msg 500 "Server Internal Error" tag)
            | Ok None =>
                match get headers HContentType with
                | None => (c, [COutResponse (build_ok_response msg tag)])
                | Some content_type =>
                    if negb (contains_str "MANSCDP" content_type) && negb (contains_str "xml" content_type)
                    then (c, [COutResponse (build_ok_response msg tag)])
                    else
                      match parse_catalog_query body with
                      | Err _ => (c, [COutResponse (build_bad_request_response msg "Bad Request" tag)])
                      | Ok query =>
                          if negb (String.eqb (cq_device_id query) (platform_id c))
                          then (c, [COutResponse (build_bad_request_response msg "Catalog target DeviceID mismatch" tag)])
                          else
                            let share := mkShareQuery (cq_sn query) (cq_device_id query) (cc_catalog_filter (gc_config c)) in
                            let '(counter, r) :=
                              build_catalog_pages (gc_config c) share
                                (cl_catalog_max_items_per_packet (cc_limits (gc_config c))) now (gc_request_counter c)
                                (platform_id c) in
                            let c := set_counters counter (gc_bridge_counter c) (gc_report_counter c) c in
                            match r with
                            | Ok messages => (c, COutResponse (build_ok_response msg tag) :: map COutRequest messages)
                            | Err _ => (c, answer msg 500 "Server Internal Error" tag)
                            end
                      end
                end
            end
    end.

(** ** Reports *)

Definition STATE_REPORT_TTL_SECONDS : Z := 300.
Definition report_kind_name (k : ReportKind) : string :=
  match k with RkPresence => "Presence" | RkMobilePosition => "MobilePosition" | RkAlarm => "Alarm" end.
Definition merge_key (r : PendingReport) : string :=
  report_kind_name (pr_kind r) +:+ ":" +:+ pr_device_id r +:+ ":" +:+ default "" (pr_idempotency_key r).

Definition NUL : string := String "000" EmptyString.
Definition stable_alarm_idempotency_key (device_id : string) (alarm_type time : option string) (sn : string) : string :=
  device_id +:+ "-" +:+ hex_encode (sha256_digest
    (device_id +:+ NUL +:+ default "" alarm_type +:+ NUL +:+ default "" time +:+ NUL +:+ sn)).

(** The loop that makes room for an alarm. *)
Fixpoint evict_noncritical (max : Z) (q : list PendingReport) : list PendingReport :=
  match q with
  | r :: rest => if (max <=? Z.of_nat (length q)) && negb (pr_is_critical r) then evict_noncritical max rest else q
  | [] => []
  end.
Definition push_to_queue (max : Z) (report : PendingReport) (q : list PendingReport) : list PendingReport * bool :=
  let q := if pr_is_critical report then evict_noncritical max q else q in
  if Z.of_nat (length q) <? max then (q ++ [report], true)
  else if pr_is_critical report then (tl q ++ [report], true)
  else (q, false).

(** The first loop of [enforce_bounds] drops the oldest snapshots. *)
Fixpoint evict_states (max queued : Z) (state : gmap string PendingReport) (keys : list string) :
    gmap string PendingReport * list string :=
  if (max <? Z.of_nat (size state) + queued) && negb (bool_decide (state = ∅)) then
    match keys with
    | key :: keys => evict_states max queued (delete key state) keys
    | [] => (state, [])
    end
  else (state, keys).
Definition enforce_bounds (max : Z) (r : Reports) : Reports :=
  let '(state, keys) := evict_states max (Z.of_nat (length (rp_queue r))) (rp_state r) (rp_order r) in
  mkReports (skipn (length (rp_queue r) - Z.to_nat max) (rp_queue r)) state keys.
Definition prune_expired (now : Z) (r : Reports) : Reports :=
  let state := filter (fun kv => now < pr_expires_at kv.2) (rp_state r) in
  mkReports (rp_queue r) state (List.filter (fun k => bool_decide (is_Some (state !! k))) (rp_order r)).

(** The key moves to the end of the order: the first occurrence is cut out when the
    snapshot replaces one. *)
Fixpoint remove_first (key : string) (l : list string) : list string :=
  match l with [] => [] | k :: l => if String.eqb k key then l else k :: remove_first key l end.
Definition enqueue_report (max : Z) (report : PendingReport) (r : Reports) : Reports :=
  enforce_bounds max
    match pr_kind report with
    | RkPresence | RkMobilePosition =>
        let key := merge_key report in
        let keys := if bool_decide (is_Some (rp_state r !! key)) then remove_first key (rp_order r) else rp_order r in
        mkReports (rp_queue r) (<[key := report]> (rp_state r)) (keys ++ [key])
    | RkAlarm => mkReports (push_to_queue max report (rp_queue r)).1 (rp_state r) (rp_order r)
    end.

Definition next_sn (c : Gb28181Cascade) : Gb28181Cascade * string :=
  let n := wrap64 (gc_report_counter c + 1) in
  (set_counters (gc_request_counter c) (gc_bridge_counter c) n c, show_uint n).

Definition max_reports (c : Gb28181Cascade) : Z := cl_report_max_queue_size (cc_limits (gc_config c)).
Definition enqueue (now : Z) (event : Gb28181Event) (c : Gb28181Cascade) : Gb28181Cascade * couts :=
  let expires_at := sat_add64 now STATE_REPORT_TTL_SECONDS in
  let put (c : Gb28181Cascade) (r : result PendingReport CascadeError) : Gb28181Cascade * couts :=
    match r with
    | Err e => (c, Err e)
    | Ok report => (set_reports (enqueue_report (max_reports c) report (gc_reports c)) c, Ok [])
    end in
  match event with
  | DevicePresenceChanged _ device_id _ presence =>
      let '(c, sn) := next_sn c in
      put c (let? body := of_xml "failed to encode DeviceStatus XML"
                            (build_device_status_notify order sn device_id (bool_decide (presence = PresenceOnline))) in
             Ok (mkReport RkPresence device_id body false None expires_at))
  | AlarmReceived _ device_id _ sn priority method alarm_type time info =>
      let key := stable_alarm_idempotency_key device_id alarm_type time sn in
      put c (let? body := of_xml "failed to encode Alarm XML"
                            (build_alarm_notify order (mkAlarm sn device_id priority method alarm_type time info)) in
             Ok (mkReport RkAlarm device_id body true (Some key) expires_at))
  | MobilePositionReceived _ device_id _ _ time longitude latitude speed direction altitude =>
      let '(c, sn) := next_sn c in
      put c (let? body := of_xml "failed to encode MobilePosition XML"
                            (build_mobile_position_notify order
                               (mkPosition sn device_id time longitude latitude speed direction altitude)) in
             Ok (mkReport RkMobilePosition device_id body false None expires_at))
  | _ => (c, Ok [])
  end.

Definition build_message_request (now : Z) (report : PendingReport) (c : Gb28181Cascade) :
    Gb28181Cascade * result SipMessage CascadeError :=
  let '(c, call_id) := next_local_tag now c in
  match cascade_token call_id with
  | Err e => (c, Err e)
  | Ok _ =>
      let '(c, cseq) := next_cseq c in
      let '(c, branch) := next_branch call_id cseq c in
      (c, let? _ := cascade_token branch in
          manscdp_message (gc_config c) call_id cseq call_id branch (pr_body_xml report)
            (match pr_idempotency_key report with
             | Some key => [(HOther "X-Idempotency-Key", key)] | None => [] end))
  end.

(** The loop over the snapshots: one that does not fit stays. *)
Fixpoint flush_states (max now : Z) (keys : list string) (state : gmap string PendingReport) (queue : list PendingReport) :
    Reports :=
  match keys with
  | [] => mkReports queue state []
  | key :: keys =>
      match state !! key with
      | None => flush_states max now keys state queue
      | Some report =>
          let '(queue', pushed) := if now <? pr_expires_at report then push_to_queue max report queue else (queue, false) in
          if pushed : bool then flush_states max now keys (delete key state) queue'
          else
            let r := flush_states max now keys state queue in
            mkReports (rp_queue r) (rp_state r) (key :: rp_order r)
      end
  end.
(** The loop over the queue. *)
Fixpoint send_reports (now : Z) (queue : list PendingReport) (c : Gb28181Cascade) : Gb28181Cascade * couts :=
  match queue with
  | [] => (c, Ok [])
  | report :: queue =>
      let c := set_reports (mkReports queue (rp_state (gc_reports c)) (rp_order (gc_reports c))) c in
      let '(c, r) := build_message_request now report c in
      match r with
      | Err e => (c, Err e)
      | Ok m => let '(c, out) := send_reports now queue c in (c, let? out := out in Ok (COutRequest m :: out))
      end
  end.
Definition flush (now : Z) (c : Gb28181Cascade) : Gb28181Cascade * couts :=
  let c := set_reports (prune_expired now (gc_reports c)) c in
  if negb (is_registered (gc_state c)) then (c, Ok [])
  else
    let r := gc_reports c in
    let r := flush_states (max_reports c) now (rp_order r) (rp_state r) (rp_queue r) in
    let c := set_reports (enforce_bounds (max_reports c) r) c in
    send_reports now (rp_queue (gc_reports c)) c.

(** ** Subscriptions *)

Definition NOTIFY_TIMEOUT_SECONDS : Z := 5.
Definition NOTIFY_MAX_RETRIES : Z := 3.
Definition SUPPORTED_PACKAGES : list string := ["Catalog"; "Alarm"; "MobilePosition"].

Definition subscription_key (call_id remote_tag : string) : string := call_id +:+ ":" +:+ remote_tag.
Fixpoint first_tag (params : list string) : option string :=
  match params with
  | [] => None
  | p :: params =>
      match strip_prefix "tag=" (trim p) with
      | Some v => Some (trim_matches DQUOTE (trim v))
      | None => first_tag params
      end
  end.
Definition extract_tag (header : string) : option string :=
  letopt t := first_tag (split ";" header) in if is_empty_str t then None else Some t.
Definition canonical_event_package (raw : string) : option string :=
  let base := trim (default "" (head (split ";" raw))) in
  List.find (fun p => eq_ignore_ascii_case p base) SUPPORTED_PACKAGES.

Definition build_notify_body (cfg : CascadeConfig) (sub : Subscription) (sn : Z) : result string CascadeError :=
  let sn := show_uint sn in
  let device_id := config_platform_id cfg in
  if String.eqb (sb_event_package sub) "Catalog"
  then of_xml "failed to encode Catalog NOTIFY body" (build_catalog_response order sn device_id 0 [])
  else if String.eqb (sb_event_package sub) "Alarm"
  then of_xml "failed to encode Alarm NOTIFY body" (build_alarm_notify order (mkAlarm sn device_id None None None None None))
  else if String.eqb (sb_event_package sub) "MobilePosition"
  then of_xml "failed to encode MobilePosition NOTIFY body"
         (build_mobile_position_notify order (mkPosition sn device_id None None None None None None))
  else Ok "".
Definition build_notify (cfg : CascadeConfig) (sub : Subscription) (cseq : Z) (branch subscription_state : string) :
    result SipMessage CascadeError :=
  let? _ := cascade_token branch in
  let? _ := cascade_token (sb_local_tag sub) in
  let? _ := cascade_token (sb_remote_tag sub) in
  let? _ := cascade_token (sb_call_id sub) in
  let? body := build_notify_body cfg sub cseq in
  let? via := of_sip (header_via "UDP" (uri_host (cc_local_uri cfg)) (default 5060 (uri_port (cc_local_uri cfg))) branch) in
  let? from := of_sip (header_from_uri (cc_local_uri cfg) (sb_local_tag sub)) in
  let? to := of_sip (header_from_uri (sb_remote_uri sub) (sb_remote_tag sub)) in
  Ok (Request (RequestLine_new NOTIFY (sb_remote_uri sub))
        (headers_of ([(HVia, via); (HFrom, from); (HTo, to); (HCallId, sb_call_id sub); (HCSeq, header_cseq cseq NOTIFY);
                      (HOther "Event", sb_event_package sub); (HOther "Subscription-State", subscription_state);
                      (HContact, header_contact_uri (cc_local_uri cfg)); (HMaxForwards, "70")]
                     ++ agent_header cfg
                     ++ (if is_empty_str body then [(HContentLength, "0")]
                         else [(HContentType, "Application/MANSCDP+xml"); length_header body]))) body).

(** A NOTIFY that ends a subscription, if it can be built. *)
Definition TERMINATED : string := "terminated;reason=timeout".
Definition final_notify (sub : Subscription) (c : Gb28181Cascade) : Gb28181Cascade * option SipMessage :=
  let '(c, branch) := next_branch (sb_call_id sub) (sb_next_cseq sub) c in
  (c, ok (build_notify (gc_config c) sub (sb_next_cseq sub) branch TERMINATED)).

(** [iter().min_by_key(|(_, s)| s.last_active_at)]: the first of the least. *)
Fixpoint oldest_subscription (l : list (string * Subscription)) : option string :=
  match l with
  | [] => None
  | (k, s) :: l =>
      if forallb (fun kv => sb_last_active_at s <=? sb_last_active_at kv.2) l then Some k else oldest_subscription l
  end.
Definition enforce_subscription_capacity (new_key : string) (c : Gb28181Cascade) : Gb28181Cascade * list CascadeOutput :=
  let subs := gc_subscriptions c in
  if (Z.of_nat (size subs) <? cl_subscription_max_subscriptions (cc_limits (gc_config c)))
     || bool_decide (is_Some (subs !! new_key))
  then (c, [])
  else
    match letopt k := oldest_subscription (btree_iter subs) in letopt s := subs !! k in Some (k, s) with
    | None => (c, [])
    | Some (k, sub) =>
        let '(c, n) := final_notify sub c in
        match n with
        | Some m => (set_subscriptions (delete k subs) c, [COutRequest m])
        | None => (c, [])
        end
    end.

(** [headers_mut().append]. *)
Definition with_header (name : HeaderName) (value : string) (m : SipMessage) : SipMessage :=
  match m with
  | Request line h body => Request line (append h name value) body
  | Response line h body => Response line (append h name value) body
  end.

Definition end_subscription (msg : SipMessage) (key local_tag : string) (c : Gb28181Cascade) :
    Gb28181Cascade * list CascadeOutput :=
  let '(c, n) := match gc_subscriptions c !! key with Some sub => final_notify sub c | None => (c, None) end in
  (set_subscriptions (delete key (gc_subscriptions c)) c,
   COutResponse (with_header HExpires "0" (build_ok_response msg local_tag))
   :: match n with Some m => [COutRequest m] | None => [] end).

Definition accept_subscription (now : Z) (msg : SipMessage) (key call_id local_tag remote_tag : string) (remote_uri : SipUri)
    (event_package : string) (granted : Z) (c : Gb28181Cascade) : Gb28181Cascade * list CascadeOutput :=
  let cseq := match gc_subscriptions c !! key with Some s => sb_next_cseq s | None => 1 end in
  let '(c, branch) := next_branch call_id cseq c in
  let sub := mkSubscription call_id local_tag remote_tag remote_uri event_package (sat_add64 now granted) cseq None now in
  match build_notify (gc_config c) sub cseq branch ("active;expires=" +:+ show_uint granted) with
  | Err _ =>
      (c, [COutResponse (with_header HExpires "0" (build_response msg 500 "Internal Server Error" local_tag ""))])
  | Ok notify =>
      let '(c, evicted) := enforce_subscription_capacity key c in
      let sub := mkSubscription call_id local_tag remote_tag remote_uri event_package (sat_add64 now granted)
                   (sat_add32 cseq 1) (Some (mkPendingNotify cseq branch now 0)) now in
      (set_subscriptions (<[key := sub]> (gc_subscriptions c)) c,
       evicted ++ [COutResponse (with_header HExpires (show_uint granted) (build_ok_response msg local_tag)); COutRequest notify])
  end.

(** What a SUBSCRIBE asks for, read from its headers; else the status to answer. *)
Record SubscribeRequest := mkSubscribe {
  su_call_id : string; su_remote_tag : string; su_event_package : string; su_remote_uri : SipUri; su_expiry : Z;
  su_to_tag : option string }.
Definition is_bad_token (t : string) : bool := negb (is_ok (cascade_token t)).
Definition read_subscribe (cfg : CascadeConfig) (headers : SipHeaders) : result SubscribeRequest (Z * string) :=
  let bad := (400, "Bad Request") in
  let? call_id_header := ok_or (get headers HCallId) bad in
  let call_id := trim call_id_header in
  if is_empty_str call_id || is_bad_token call_id then Err bad
  else
    let? from := ok_or (get headers HFrom) bad in
    let? remote_tag := ok_or (extract_tag from) bad in
    if is_bad_token remote_tag then Err bad
    else
      let? event := ok_or (get headers (HOther "Event")) bad in
      let? event_package := ok_or (canonical_event_package (trim event)) (489, "Bad Event") in
      let remote_uri := match header_uri headers HContact with
                        | Some u => u
                        | None => default (cc_upstream cfg) (parse_uri_from_header from)
                        end in
      let? expiry := match get headers HExpires with
                     | Some value =>
                         let trimmed := trim value in
                         if is_empty_str trimmed then Err bad else ok_or (parse_uint U64_MAX trimmed) bad
                     | None => Ok (cl_subscription_default_expiry_seconds (cc_limits cfg))
                     end in
      let to_tag := letopt v := get headers HTo in extract_tag v in
      if (match to_tag with Some t => is_bad_token t | None => false end) then Err bad
      else Ok (mkSubscribe call_id remote_tag event_package remote_uri expiry to_tag).

Definition handle_subscribe (now : Z) (msg : SipMessage) (c : Gb28181Cascade) : Gb28181Cascade * list CascadeOutput :=
  let '(c, response_tag) := next_local_tag now c in
  match msg with
  | Response _ _ _ => (c, [])
  | Request _ headers _ =>
      if negb (from_upstream_to_local msg c) then (c, answer msg 403 "Forbidden" response_tag)
      else
        match read_subscribe (gc_config c) headers with
        | Err (code, reason) => (c, answer msg code reason response_tag)
        | Ok r =>
            let key := subscription_key (su_call_id r) (su_remote_tag r) in
            let '(c, local_tag) := match su_to_tag r, gc_subscriptions c !! key with
                                   | Some t, _ => (c, t)
                                   | None, Some sub => (c, sb_local_tag sub)
                                   | None, None => next_local_tag now c
                                   end in
            let low := cl_subscription_min_expiry_seconds (cc_limits (gc_config c)) in
            let high := cl_subscription_max_expiry_seconds (cc_limits (gc_config c)) in
            let granted := clampZ (Z.min low high) (Z.max low high) (su_expiry r) in
            if match gc_subscriptions c !! key with
               | Some existing => negb (String.eqb (sb_event_package existing) (su_event_package r)) | None => false end
            then (c, answer msg 489 "Bad Event" local_tag)
            else if su_expiry r =? 0 then end_subscription msg key local_tag c
            else accept_subscription now msg key (su_call_id r) local_tag (su_remote_tag r) (su_remote_uri r)
                   (su_event_package r) granted c
        end
  end.

(** [subscription::handle_response]. *)
Definition handle_notify_response (msg : SipMessage) (c : Gb28181Cascade) : Gb28181Cascade :=
  match msg with
  | Request _ _ _ => c
  | Response line headers _ =>
      match cseq msg, call_id msg with
      | Ok (cseq_num, _), Some call_id =>
          match List.find (fun kv => String.eqb (sb_call_id kv.2) call_id) (btree_iter (gc_subscriptions c)) with
          | None => c
          | Some (key, sub) =>
              if is_success (sl_code line) then
                if match sb_pending_notify sub with Some p => pn_cseq p =? cseq_num | None => false end
                then set_subscriptions (<[key := set_pending_notify None sub]> (gc_subscriptions c)) c
                else c
              else if 300 <=? sl_code line then set_subscriptions (delete key (gc_subscriptions c)) c
              else c
          end
      | _, _ => c
      end
  end.

(** One subscription on a tick: what is sent, and the subscription that stays. *)
Definition tick_subscription (now : Z) (sub : Subscription) (c : Gb28181Cascade) :
    Gb28181Cascade * list CascadeOutput * option Subscription :=
  let final c := let '(c, n) := final_notify sub c in
                 (c, match n with Some m => [COutRequest m] | None => [] end, None) in
  if sb_expires_at sub <=? now then final c
  else
    match sb_pending_notify sub with
    | None => (c, [], Some sub)
    | Some p =>
        if sat_sub now (pn_sent_at p) <? NOTIFY_TIMEOUT_SECONDS then (c, [], Some sub)
        else if NOTIFY_MAX_RETRIES <=? pn_retry_count p then final c
        else
          let remaining := sat_sub (sb_expires_at sub) now in
          match build_notify (gc_config c) sub (pn_cseq p) (pn_branch p) ("active;expires=" +:+ show_uint remaining) with
          | Ok notify =>
              (c, [COutRequest notify],
               Some (set_pending_notify (Some (mkPendingNotify (pn_cseq p) (pn_branch p) now (wrap32 (pn_retry_count p + 1)))) sub))
          | Err _ => (c, [], Some (set_pending_notify None sub))
          end
    end.
Fixpoint tick_subscriptions (now : Z) (keys : list string) (c : Gb28181Cascade) : Gb28181Cascade * list CascadeOutput :=
  match keys with
  | [] => (c, [])
  | key :: keys =>
      match gc_subscriptions c !! key with
      | None => tick_subscriptions now keys c
      | Some sub =>
          let c := set_subscriptions (delete key (gc_subscriptions c)) c in
          let '(c, out, kept) := tick_subscription now sub c in
          let c := match kept with
                   | Some sub => set_subscriptions (<[key := sub]> (gc_subscriptions c)) c | None => c end in
          let '(c, rest) := tick_subscriptions now keys c in (c, out ++ rest)
      end
  end.
Definition subscriptions_on_tick (now : Z) (c : Gb28181Cascade) : Gb28181Cascade * list CascadeOutput :=
  tick_subscriptions now (map fst (btree_iter (gc_subscriptions c))) c.

(** ** Play bridges *)

Definition UPSTREAM_SDP_CONFIG : SdpParserConfig := mkSdpConfig 256 1024 (16 * 1024) 4 64 32.

Definition sdp_connections_allowed (session : SdpSession) (policy : EndpointPolicy) : bool :=
  match s_media session with
  | [] => match s_connection session with Some conn => is_ok (validate_sdp_connection policy conn 1) | None => true end
  | media =>
      forallb (fun m => match (match m_connection m with Some conn => Some conn | None => s_connection session end) with
                        | Some conn => is_ok (validate_sdp_connection policy conn (Z.max 1 (m_port m)))
                        | None => false
                        end) media
  end.

Definition request_targeted_at_local (request : SipMessage) (local : SipUri) : bool :=
  match request with
  | Response _ _ _ => false
  | Request line headers _ =>
      if negb (eq_ignore_ascii_case (uri_host (rl_uri line)) (uri_host local)) then false
      else match header_uri headers HTo with
           | Some u => eq_ignore_ascii_case (uri_host u) (uri_host local)
           | None => false
           end
  end.
Definition is_upstream_request (msg : SipMessage) (c : Gb28181Cascade) : bool :=
  request_targeted_at_local msg (cc_local_uri (gc_config c))
  && request_from_matches_upstream msg (cc_upstream (gc_config c)).

(** A response to the INVITE of a bridge, from what the bridge keeps. *)
Definition build_invite_response_from_bridge (local_uri : SipUri) (b : Bridge) (code : Z) (reason body : string) : SipMessage :=
  let to := if contains_str "tag=" (br_upstream_to b) then br_upstream_to b
            else trim (br_upstream_to b) +:+ ";tag=" +:+ br_bridge_id b in
  Response (StatusLine_new code reason)
    (headers_of (map (pair HVia) (br_upstream_via b)
       ++ [(HFrom, br_upstream_from b); (HTo, to); (HCallId, br_upstream_call_id b);
           (HCSeq, show_uint (br_upstream_cseq b) +:+ " " +:+ Method_str INVITE)]
       ++ (if is_empty_str body then [] else [(HContentType, "application/sdp")])
       ++ [(HContact, "<" +:+ uri_encode local_uri +:+ ">"); length_header body])) body.

(** [bridge::extract_tag]: the first [;tag=] in any case, up to a delimiter. *)
Fixpoint after_tag (s : string) : option string :=
  if eq_ignore_ascii_case (str_take 5 s) ";tag=" then Some (str_drop 5 s)
  else match s with EmptyString => None | String _ s => after_tag s end.
Fixpoint until_delimiter (s : string) : string :=
  match s with
  | EmptyString => EmptyString
  | String a rest =>
      if Ascii.eqb a ";" || Ascii.eqb a "<" || Ascii.eqb a ">" then EmptyString else String a (until_delimiter rest)
  end.
Definition bridge_extract_tag (value : string) : option string :=
  letopt rest := after_tag value in
  let tag := trim_matches DQUOTE (until_delimiter (splitn2_ws rest).1) in
  if is_empty_str tag then None else Some tag.

Definition build_bye_from_bridge (local_uri : SipUri) (b : Bridge) (cseq : Z) (branch : string) :
    result SipMessage CascadeError :=
  let? _ := cascade_token branch in
  let? target := ok_or (parse_uri_from_header (br_upstream_from b)) (ce_internal "cannot parse upstream From URI for BYE") in
  let remote_tag := default "" (bridge_extract_tag (br_upstream_from b)) in
  let? via := of_sip (header_via "UDP" (uri_host local_uri) (default 5060 (uri_port local_uri)) branch) in
  Ok (Request (RequestLine_new BYE target)
        (headers_of [(HVia, via); (HFrom, "<" +:+ uri_encode local_uri +:+ ">;tag=" +:+ br_bridge_id b);
                     (HTo, "<" +:+ uri_encode target +:+ ">;tag=" +:+ remote_tag); (HCallId, br_upstream_call_id b);
                     (HCSeq, show_uint cseq +:+ " BYE"); (HContact, "<" +:+ uri_encode local_uri +:+ ">");
                     (HMaxForwards, "70"); (HContentLength, "0")]) "").
(** The BYE of a bridge, with a new CSeq and branch. *)
Definition next_bye (b : Bridge) (c : Gb28181Cascade) : Gb28181Cascade * result SipMessage CascadeError :=
  let '(c, cseq) := next_cseq c in
  let '(c, branch) := next_branch (br_upstream_call_id b) cseq c in
  (c, build_bye_from_bridge (cc_local_uri (gc_config c)) b cseq branch).

Definition play_stopped (c : Gb28181Cascade) (b : Bridge) (reason : string) : CascadeOutput :=
  COutEvent (CascadePlayStopped (cc_domain_id (gc_config c)) (platform_id c) (br_bridge_id b) reason).

(** A negative or provisional answer, with a tag of its own. *)
Definition answer_invite (now : Z) (msg : SipMessage) (code : Z) (reason : string) (c : Gb28181Cascade) :
    Gb28181Cascade * list CascadeOutput :=
  let '(c, tag) := next_local_tag now c in (c, answer msg code reason tag).

(** What an INVITE offers: CSeq, user, SDP; [None] is answered with 400. *)
Definition read_offer (policy : option EndpointPolicy) (msg : SipMessage) (line : RequestLine) (body : string) :
    option (Z * string) :=
  letopt (n, _) := ok (cseq msg) in
  letopt user := uri_user (rl_uri line) in
  if is_empty_str user then None
  else if negb (utf8_valid body) then None
  else
    letopt session := ok (parse_sdp body UPSTREAM_SDP_CONFIG) in
    if (match policy with Some p => negb (sdp_connections_allowed session p) | None => false end) then None
    else Some (n, user).

Definition open_bridge (now : Z) (msg : SipMessage) (call_id : string) (headers : SipHeaders) (cseq_num : Z)
    (target_user remote_sdp : string) (c : Gb28181Cascade) : Gb28181Cascade * list CascadeOutput :=
  let n := wrap64 (gc_bridge_counter c + 1) in
  let c := set_counters (gc_request_counter c) n (gc_report_counter c) c in
  let bridge_id := platform_id c +:+ "-bridge-" +:+ show_uint n in
  let from := default "" (get headers HFrom) in
  let to := default "" (get headers HTo) in
  let b := mkBridge bridge_id call_id from to (get_all headers HVia) cseq_num BInvited
             (sat_add64 now (cc_media_bridge_transaction_timeout_seconds (gc_config c))) in
  let c := set_bridges (<[call_id := b]> (gc_bridges c)) c in
  let '(c, tag) := next_local_tag now c in
  (c, answer msg 100 "Trying" tag
      ++ [COutEvent (CascadePlayRequested (cc_domain_id (gc_config c)) (platform_id c) bridge_id call_id from to target_user
                       remote_sdp)]).

Definition handle_invite (now : Z) (msg : SipMessage) (line : RequestLine) (headers : SipHeaders) (body : string)
    (c : Gb28181Cascade) : Gb28181Cascade * list CascadeOutput :=
  if negb (is_registered (gc_state c)) then answer_invite now msg 403 "Forbidden" c
  else if negb (request_from_matches_upstream msg (cc_upstream (gc_config c))) then answer_invite now msg 403 "Forbidden" c
  else if negb (request_targeted_at_local msg (cc_local_uri (gc_config c))) then (c, [])
  else
    match get headers HCallId with
    | None => answer_invite now msg 400 "Bad Request" c
    | Some call_id =>
        match gc_bridges c !! call_id with
        | Some b => if bool_decide (br_state b = BInvited) then answer_invite now msg 100 "Trying" c else (c, [])
        | None =>
            match read_offer (cc_sdp_endpoint_policy (gc_config c)) msg line body with
            | None => answer_invite now msg 400 "Bad Request" c
            | Some (cseq_num, target_user) =>
                if cl_media_bridge_max_sessions (cc_limits (gc_config c)) <=? Z.of_nat (size (gc_bridges c))
                then answer_invite now msg 486 "Busy Here" c
                else open_bridge now msg call_id headers cseq_num target_user body c
            end
        end
    end.

Definition handle_ack (now : Z) (msg : SipMessage) (c : Gb28181Cascade) : Gb28181Cascade * list CascadeOutput :=
  match letopt id := call_id msg in letopt b := gc_bridges c !! id in Some (id, b) with
  | None => (c, [])
  | Some (id, b) =>
      match br_state b with
      | BAccepted =>
          let active := cc_media_bridge_active_timeout_seconds (gc_config c) in
          let expires_at := if active =? 0 then U64_MAX else sat_add64 now active in
          (set_bridges (<[id := set_bridge_state BActive expires_at b]> (gc_bridges c)) c, [])
      | BClosing =>
          let '(c, r) := next_bye b c in
          match r with
          | Ok m => (set_bridges (delete id (gc_bridges c)) c, [COutRequest m; play_stopped c b "downstream media stop"])
          | Err _ => (c, [])
          end
      | _ => (c, [])
      end
  end.

Definition handle_bye (msg : SipMessage) (c : Gb28181Cascade) : Gb28181Cascade * list CascadeOutput :=
  match letopt id := call_id msg in letopt b := gc_bridges c !! id in Some (id, b) with
  | None => (c, [])
  | Some (id, b) =>
      (set_bridges (delete id (gc_bridges c)) c,
       [COutResponse (build_response msg 200 "OK" "" ""); play_stopped c b "upstream BYE"])
  end.

Definition handle_cancel (msg : SipMessage) (c : Gb28181Cascade) : Gb28181Cascade * list CascadeOutput :=
  match letopt id := call_id msg in letopt b := gc_bridges c !! id in Some (id, b) with
  | None => (c, [])
  | Some (id, b) =>
      let cancel_ok := COutResponse (build_response msg 200 "OK" "" "") in
      if negb (bool_decide (br_state b = BInvited)) then (c, [cancel_ok])
      else
        (set_bridges (delete id (gc_bridges c)) c,
         [cancel_ok;
          COutResponse (build_invite_response_from_bridge (cc_local_uri (gc_config c)) b 487 "Request Terminated" "");
          play_stopped c b "upstream CANCEL"])
  end.

(** [bridge::handle_request]. *)
Definition handle_media_request (now : Z) (msg : SipMessage) (c : Gb28181Cascade) : Gb28181Cascade * list CascadeOutput :=
  match msg with
  | Response _ _ _ => (c, [])
  | Request line headers body =>
      if negb (bool_decide (rl_method line = INVITE)) && negb (is_upstream_request msg c) then (c, [])
      else match rl_method line with
           | INVITE => handle_invite now msg line headers body c
           | ACK => handle_ack now msg c
           | BYE => handle_bye msg c
           | CANCEL => handle_cancel msg c
           | _ => (c, [])
           end
  end.

(** The bridge with this identifier, the first in the order of the call ids. *)
Definition find_bridge (bridge_id : string) (c : Gb28181Cascade) : option (string * Bridge) :=
  List.find (fun kv => String.eqb (br_bridge_id kv.2) bridge_id) (btree_iter (gc_bridges c)).

Definition on_media_ready (bridge_id answer_sdp : string) (c : Gb28181Cascade) : Gb28181Cascade * couts :=
  match cascade_token bridge_id with
  | Err e => (c, Err e)
  | Ok _ =>
      match find_bridge bridge_id c with
      | None => (c, Ok [])
      | Some (id, b) =>
          if negb (bool_decide (br_state b = BInvited)) then (c, Ok [])
          else if negb (is_ok (parse_sdp answer_sdp UPSTREAM_SDP_CONFIG))
          then (c, Err (ce_internal "application supplied malformed answer SDP"))
          else
            let b := set_bridge_state BAccepted (br_expires_at b) b in
            (set_bridges (<[id := b]> (gc_bridges c)) c,
             Ok [COutResponse (build_invite_response_from_bridge (cc_local_uri (gc_config c)) b 200 "OK" answer_sdp)])
      end
  end.

Definition on_media_stop (now : Z) (bridge_id : string) (c : Gb28181Cascade) : Gb28181Cascade * couts :=
  match cascade_token bridge_id with
  | Err e => (c, Err e)
  | Ok _ =>
      match find_bridge bridge_id c with
      | None => (c, Ok [])
      | Some (id, b) =>
          let stopped := play_stopped c b "downstream media stop" in
          let removed := set_bridges (delete id (gc_bridges c)) c in
          match br_state b with
          | BAccepted =>
              let expires_at := sat_add64 now (cc_media_bridge_transaction_timeout_seconds (gc_config c)) in
              (set_bridges (<[id := set_bridge_state BClosing expires_at b]> (gc_bridges c)) c, Ok [])
          | BInvited =>
              (removed,
               Ok [COutResponse (build_invite_response_from_bridge (cc_local_uri (gc_config c)) b 486 "Busy Here" ""); stopped])
          | BActive =>
              let '(c, r) := next_bye b removed in
              (c, let? m := r in Ok [COutRequest m; stopped])
          | BClosing => (removed, Ok [stopped])
          end
      end
  end.

(** [bridge::on_tick], over the bridges that are overdue; a BYE that cannot be built ends the loop. *)
Fixpoint tick_bridges (now : Z) (expired : list (string * Bridge)) (c : Gb28181Cascade) : Gb28181Cascade * couts :=
  match expired with
  | [] => (c, Ok [])
  | (id, b) :: expired =>
      let removed c := set_bridges (delete id (gc_bridges c)) c in
      let next c out := let '(c, r) := tick_bridges now expired c in (c, let? rest := r in Ok (out ++ rest)) in
      match br_state b with
      | BInvited =>
          next (removed c)
            [COutResponse (build_invite_response_from_bridge (cc_local_uri (gc_config c)) b 487 "Request Terminated" "");
             play_stopped c b "transaction timeout"]
      | BAccepted => next (removed c) [play_stopped c b "transaction timeout"]
      | BActive =>
          if (0 <? cc_media_bridge_active_timeout_seconds (gc_config c)) && (br_expires_at b <=? now) then
            let '(c, r) := next_bye b c in
            match r with
            | Err e => (c, Err e)
            | Ok m => next (removed c) [COutRequest m; play_stopped c b "active timeout"]
            end
          else next c []
      | BClosing => next (removed c) [play_stopped c b "downstream media stop"]
      end
  end.
Definition bridges_on_tick (now : Z) (c : Gb28181Cascade) : Gb28181Cascade * couts :=
  tick_bridges now (List.filter (fun kv => br_expires_at kv.2 <=? now) (btree_iter (gc_bridges c))) c.

(** ** The machine *)

Definition on_response (now : Z) (msg : SipMessage) (c : Gb28181Cascade) : Gb28181Cascade * couts :=
  match msg with
  | Request _ _ _ => (c, Ok [])
  | Response status headers body =>
      match (let? n := of_sip (cseq msg) in
             let? id := ok_or (call_id msg) (malformed_sip "missing Call-ID header") in Ok (n, id)) with
      | Err e => (c, Err e)
      | Ok (cseq_num, cseq_method, id) =>
          match cseq_method with
          | REGISTER =>
              match gc_state c with
              | CRegistering reg =>
                  if String.eqb (rn_call_id reg) id then handle_register_response now status headers reg c else (c, Ok [])
              | CDeregistering reg =>
                  if String.eqb (rn_call_id reg) id then handle_deregister_response now status headers reg c else (c, Ok [])
              | _ => (c, Ok [])
              end
          | MESSAGE =>
              match gc_state c with
              | CRegistered reg =>
                  if String.eqb (kp_call_id (rd_keepalive reg)) id && (kp_cseq (rd_keepalive reg) =? cseq_num)
                  then let '(c, out) := handle_keepalive_response now status body reg c in (c, Ok out)
                  else (c, Ok [])
              | _ => (c, Ok [])
              end
          | NOTIFY => (handle_notify_response msg c, Ok [])
          | _ => (c, Ok [])
          end
      end
  end.

Definition on_request (now : Z) (msg : SipMessage) (c : Gb28181Cascade) : Gb28181Cascade * list CascadeOutput :=
  match msg with
  | Response _ _ _ => (c, [])
  | Request line _ _ =>
      match rl_method line with
      | INVITE | ACK | BYE | CANCEL => handle_media_request now msg c
      | SUBSCRIBE => handle_subscribe now msg c
      | _ => handle_message now msg c
      end
  end.

(** The registration part of a tick. *)
Definition registration_on_tick (now : Z) (c : Gb28181Cascade) : Gb28181Cascade * couts :=
  match gc_state c with
  | CRegistered reg => if rd_refresh_at reg <=? now then on_register now c else on_keepalive_tick now reg c
  | CFailed retry_at _ => if retry_at <=? now then on_register now c else (c, Ok [])
  | CRegistering reg | CDeregistering reg =>
      if sat_add64 (rn_started_at reg) (cc_transaction_timeout_seconds (gc_config c)) <=? now then
        let '(c, out) := fail_or_retry now (rn_attempt reg) (rn_is_deregister reg) "REGISTER transaction timed out" c in
        (c, Ok out)
      else (c, Ok [])
  | CIdle => (c, Ok [])
  end.

(** One part after another; an error leaves the outputs so far behind. *)
Definition and_then (p : Gb28181Cascade * couts) (k : Gb28181Cascade -> Gb28181Cascade * couts) : Gb28181Cascade * couts :=
  match p with
  | (c, Err e) => (c, Err e)
  | (c, Ok out) => let '(c, r) := k c in (c, let? rest := r in Ok (out ++ rest))
  end.
Definition on_tick (now : Z) (c : Gb28181Cascade) : Gb28181Cascade * couts :=
  and_then (bridges_on_tick now c) (fun c =>
  and_then (let '(c, out) := subscriptions_on_tick now c in (c, Ok out)) (fun c =>
  and_then (registration_on_tick now c) (fun c => flush now c))).

Definition cascade_process (c : Gb28181Cascade) (input : CascadeInput) : Gb28181Cascade * couts :=
  let now := ci_now input in
  match ci_event input with
  | CeRegister => on_register now c
  | CeDeregister => on_deregister now c
  | CeRequest msg => let '(c, out) := on_request now msg c in (c, Ok out)
  | CeResponse msg => on_response now msg c
  | CeBridgeMediaReady bridge_id answer_sdp => on_media_ready bridge_id answer_sdp c
  | CeBridgeMediaStop bridge_id => on_media_stop now bridge_id c
  | CeReport event => enqueue now event c
  | CeTick => on_tick now c
  end.
End machine.

(** [Gb28181Cascade::new], [with_catalog_provider]. *)
Definition cascade_new (config : CascadeConfig) : result Gb28181Cascade CascadeError :=
  let? config := sanitize config in
  let? inbound := match cc_catalog_inbound_digest_server_secret config with
                  | Some secret =>
                      let? digest := of_digest (context_new (cc_realm config) secret) in
                      Ok (Some (mkInboundAuth digest (replay_cache_new 1024)))
                  | None => Ok None
                  end in
  Ok (mkCascade config CIdle 0 0 0 None false inbound ∅ (mkReports [] ∅ []) ∅).
Definition attach_catalog_provider (c : Gb28181Cascade) : Gb28181Cascade :=
  mkCascade (gc_config c) (gc_state c) (gc_request_counter c) (gc_bridge_counter c) (gc_report_counter c) (gc_auth c)
    true (gc_inbound_auth c) (gc_bridges c) (gc_reports c) (gc_subscriptions c).
