(* ===== verification/GbCascadeProps.v ===== *)
(** * What a cascade machine does

    The effects of the parts of the machine on one another, and on these:
    - the registration follows its chart, and the events of the connection tell it;
    - subscriptions live with the registration;
    - every bridge is told once when it is requested and once when it stops;
    - an upstream that never answers is given up after the configured retries;
    - reports are bounded, and a flush sends all of them;
    - a catalog answer is bounded, whatever the provider returns. *)

From S2P Require Import Prelude RustStr SipUri SipMessage DigestReplay DigestCodec Digest Domain Compatibility.
From S2P Require Import Sdp SipEndpoint GbXml GbMessages GbPolicy GbAccess GbCascade.

Open Scope string_scope.
Open Scope list_scope.
Open Scope Z_scope.

Ltac cascade_cases := repeat (case_match; simplify_eq/=).

Section props.
Context `{QuickXml} `{EncodingRs} `{Crypto} `{JitterHash} `{CascadeCredentials} `{CatalogProvider}.
Context (order : hash_order string string).

(** ** Chart of the registration *)

Inductive phase := PhIdle | PhRegistering | PhRegistered | PhFailed | PhDeregistering.
Definition phase_of (s : CascadeState) : phase :=
  match s with
  | CIdle => PhIdle
  | CRegistering _ => PhRegistering
  | CRegistered _ => PhRegistered
  | CFailed _ _ => PhFailed
  | CDeregistering _ => PhDeregistering
  end.

(** The events of the connection: [true] for connected, [false] for disconnected. *)
Definition conn_event (o : CascadeOutput) : option bool :=
  match o with
  | COutEvent (CascadePlatformConnected _ _ _ _) => Some true
  | COutEvent (CascadePlatformDisconnected _ _ _) => Some false
  | _ => None
  end.
Definition conn : list CascadeOutput -> list bool := omap conn_event.
Definition outs_of (r : couts) : list CascadeOutput := match r with Ok l => l | Err _ => [] end.

(** The events of bridges: [inl] a request, [inr] a stop. *)
Definition play_event (o : CascadeOutput) : option (string + string) :=
  match o with
  | COutEvent (CascadePlayRequested _ _ id _ _ _ _ _) => Some (inl id)
  | COutEvent (CascadePlayStopped _ _ id _) => Some (inr id)
  | _ => None
  end.
Definition plays : list CascadeOutput -> list (string + string) := omap play_event.

Inductive chart : phase -> list bool -> phase -> Prop :=
| ch_stay p : chart p [] p
| ch_register p : p <> PhDeregistering -> chart p [] PhRegistering
| ch_deregister : chart PhRegistered [] PhDeregistering
| ch_connect : chart PhRegistering [true] PhRegistered
| ch_fail p : p = PhRegistering \/ p = PhRegistered -> chart p [] PhFailed
| ch_disconnect p : p <> PhIdle -> p <> PhFailed -> chart p [false] PhIdle.

(** A part that leaves configuration and registration alone, and tells no connection event. *)
Definition quiet (c : Gb28181Cascade) (p : Gb28181Cascade * list CascadeOutput) : Prop :=
  gc_config p.1 = gc_config c /\ gc_state p.1 = gc_state c /\ conn p.2 = [].
Definition quiet_r (c : Gb28181Cascade) (p : Gb28181Cascade * couts) : Prop := quiet c (p.1, outs_of p.2).

Ltac quiet_cases := unfold quiet_r, quiet, answer, answer_invite, play_stopped; cascade_cases; auto.

Lemma conn_app a b : conn (a ++ b) = conn a ++ conn b.
Proof. apply omap_app. Qed.
Lemma conn_requests l : conn (map COutRequest l) = [].
Proof. induction l; simpl; auto. Qed.

#[local] Arguments final_notify : simpl never.
#[local] Arguments next_bye : simpl never.
#[local] Arguments next_local_tag : simpl never.
#[local] Arguments next_branch : simpl never.
#[local] Arguments next_cseq : simpl never.
#[local] Arguments enforce_subscription_capacity : simpl never.

(** A machine with another number of requests. *)
Definition renumber (n : Z) (c : Gb28181Cascade) : Gb28181Cascade := set_counters n (gc_bridge_counter c) (gc_report_counter c) c.

Lemma renumber_self c : c = renumber (gc_request_counter c) c.
Proof. by destruct c. Qed.

Lemma next_local_tag_num now c c' t : next_local_tag now c = (c', t) -> exists n, c' = renumber n c.
Proof. unfold next_local_tag. intros [= <- _]. by eexists. Qed.
Lemma next_branch_num id n c c' t : next_branch id n c = (c', t) -> exists n, c' = renumber n c.
Proof. unfold next_branch. intros [= <- _]. by eexists. Qed.
Lemma final_notify_num sub c c' n : final_notify order sub c = (c', n) -> exists n, c' = renumber n c.
Proof. unfold final_notify. destruct (next_branch _ _ _) eqn:Hb. intros [= <- _]. by eapply next_branch_num. Qed.
Lemma next_bye_num b c c' r : next_bye b c = (c', r) -> exists n, c' = renumber n c.
Proof.
  unfold next_bye, next_cseq. destruct (next_branch _ _ _) as [c1 t] eqn:Hb. intros [= <- _].
  apply next_branch_num in Hb as [n ->]. by exists n.
Qed.

Ltac renumbered :=
  repeat match goal with
  | E : next_local_tag _ _ = _ |- _ => apply next_local_tag_num in E as [? ->]
  | E : next_branch _ _ _ = _ |- _ => apply next_branch_num in E as [? ->]
  | E : final_notify _ _ _ = _ |- _ => apply final_notify_num in E as [? ->]
  | E : next_bye _ _ = _ |- _ => apply next_bye_num in E as [? ->]
  end; simpl in *.

Lemma tick_subscription_num now sub c c' out kept :
  tick_subscription order now sub c = (c', out, kept) -> conn out = [] /\ exists n, c' = renumber n c.
Proof.
  unfold tick_subscription. intros Ht. cascade_cases; renumbered; eauto; split; auto; eexists (gc_request_counter c'); by destruct c'.
Qed.

Lemma tick_subscriptions_quiet now keys c : quiet c (tick_subscriptions order now keys c).
Proof.
  revert c. induction keys as [|key keys IH]; intros c; simpl; [done|].
  destruct (gc_subscriptions c !! key) as [sub|]; [|apply IH].
  destruct (tick_subscription _ _ _ _) as [[c1 out] kept] eqn:Ht.
  apply tick_subscription_num in Ht as [Ho [n ->]].
  match goal with |- context [tick_subscriptions _ _ _ ?x] =>
    pose proof (IH x) as (Hc2 & Hs2 & Ho2); destruct (tick_subscriptions _ _ _ x) as [c2 out2] end.
  unfold quiet in *. simpl in *. rewrite conn_app, Ho, Ho2, Hc2, Hs2. by destruct kept.
Qed.

Lemma handle_media_request_quiet now msg c : quiet c (handle_media_request now msg c).
Proof.
  unfold handle_media_request, handle_invite, handle_ack, handle_bye, handle_cancel, open_bridge, answer_invite, answer, quiet.
  cascade_cases; renumbered; auto.
Qed.

(** At capacity the oldest subscription goes, if it can be told. *)
Lemma enforce_capacity_num key c c' out :
  enforce_subscription_capacity order key c = (c', out) ->
  conn out = [] /\ exists n, c' = renumber n c \/ exists k, c' = set_subscriptions (delete k (gc_subscriptions c)) (renumber n c).
Proof.
  unfold enforce_subscription_capacity. intros He. cascade_cases; renumbered; eauto 6;
    split; auto; exists (gc_request_counter c'); left; by destruct c'.
Qed.

Lemma handle_subscribe_quiet now msg c : quiet c (handle_subscribe order now msg c).
Proof.
  unfold handle_subscribe, end_subscription, accept_subscription, quiet, answer. cascade_cases; renumbered; auto;
    match goal with
    | E : enforce_subscription_capacity _ _ _ = _ |- _ => apply enforce_capacity_num in E as [Ho [n [->|[k ->]]]]
    end; simpl; by rewrite conn_app, Ho.
Qed.

Lemma check_catalog_num msg line headers now tag c c' r :
  check_catalog_authorization msg line headers now tag c = (c', r) -> exists a, c' = set_inbound_auth a c.
Proof.
  unfold check_catalog_authorization. intros Hc. cascade_cases; eauto; exists (gc_inbound_auth c'); by destruct c'.
Qed.

Lemma handle_message_quiet now msg c : quiet c (handle_message order now msg c).
Proof.
  unfold handle_message, quiet, answer. cascade_cases; renumbered; auto;
    repeat match goal with
    | E : check_catalog_authorization _ _ _ _ _ _ = _ |- _ => apply check_catalog_num in E as [? ->]
    end; simpl; auto. by rewrite conn_requests.
Qed.

Lemma on_request_quiet now msg c : quiet c (on_request order now msg c).
Proof.
  unfold on_request. destruct msg as [line headers body|]; [|done].
  destruct (rl_method line); auto using handle_media_request_quiet, handle_subscribe_quiet, handle_message_quiet.
Qed.

Lemma send_reports_quiet now queue c : quiet_r c (send_reports now queue c).
Proof.
  revert c. induction queue as [|report queue IH]; intros c; simpl; [done|].
  destruct (build_message_request _ _ _) as [c1 r] eqn:Hb.
  assert (exists n, c1 = renumber n (set_reports (mkReports queue (rp_state (gc_reports c)) (rp_order (gc_reports c))) c)) as [n ->].
  { unfold build_message_request, next_cseq in Hb. cascade_cases; renumbered; by eexists. }
  destruct r as [m|e]; [|done].
  match goal with |- context [send_reports _ _ ?x] => pose proof (IH x) as (Hc & Hs & Ho); destruct (send_reports _ _ x) as [c2 [out|e]] end;
    by unfold quiet_r, quiet in *.
Qed.

Lemma flush_quiet now c : quiet_r c (flush now c).
Proof.
  unfold flush. case_match; [done|].
  match goal with |- context [send_reports _ ?q ?x] => pose proof (send_reports_quiet now q x) as (? & ? & ?); by unfold quiet_r, quiet in * end.
Qed.

Lemma enqueue_quiet now e c : quiet_r c (enqueue order now e c).
Proof. unfold enqueue, quiet_r, quiet. cascade_cases; auto. Qed.

Lemma tick_bridges_quiet now expired c : quiet_r c (tick_bridges now expired c).
Proof.
  revert c. induction expired as [|[id b] expired IH]; intros c; cbn [tick_bridges]; [done|].
  assert (forall c1 out, gc_config c1 = gc_config c -> gc_state c1 = gc_state c -> conn out = [] ->
    quiet_r c (let '(c, r) := tick_bridges now expired c1 in (c, let? rest := r in Ok (out ++ rest)))) as Hnext.
  { intros c1 out Hc Hs Ho. pose proof (IH c1) as (Hc2 & Hs2 & Ho2). destruct (tick_bridges now expired c1) as [c2 [rest|e]];
      unfold quiet_r, quiet in *; simpl in *; rewrite ?conn_app, ?Ho, ?Ho2; split_and!; try congruence; done. }
  destruct (br_state b); [by apply Hnext..| |by apply Hnext].
  case_match; [|by apply Hnext]. destruct (next_bye b c) as [c1 [m|e]] eqn:Hb; apply next_bye_num in Hb as [n ->]; [by apply Hnext|done].
Qed.

Lemma on_media_ready_quiet id sdp c : quiet_r c (on_media_ready id sdp c).
Proof. unfold on_media_ready, quiet_r, quiet. cascade_cases; auto. Qed.

Lemma on_media_stop_quiet now id c : quiet_r c (on_media_stop now id c).
Proof. unfold on_media_stop, quiet_r, quiet. cascade_cases; renumbered; auto. all: case_match; auto. Qed.

(** ** The registration *)

(** What the machine knows about its registration: a deregistration is marked, the
    failed attempts are within the retries. *)
Definition reg_ok (c : Gb28181Cascade) : Prop :=
  match gc_state c with
  | CRegistering r => rn_is_deregister r = false /\ 0 <= rn_attempt r
  | CDeregistering r => rn_is_deregister r = true /\ 0 <= rn_attempt r
  | CFailed _ a => 0 < a <= cl_max_retries (cc_limits (gc_config c))
  | _ => True
  end.
Definition over (s : CascadeState) : Prop := s = CIdle \/ exists t a, s = CFailed t a.

(** A part that moves the registration along its chart: bridges and reports stay, the
    subscriptions stay or go, and they go when the registration is over. *)
Record moves (c : Gb28181Cascade) (p : Gb28181Cascade * couts) : Prop := {
  mv_config : gc_config p.1 = gc_config c;
  mv_bridges : gc_bridges p.1 = gc_bridges c;
  mv_bridge_counter : gc_bridge_counter p.1 = gc_bridge_counter c;
  mv_plays : plays (outs_of p.2) = [];
  mv_reports : gc_reports p.1 = gc_reports c;
  mv_subscriptions : gc_subscriptions p.1 = gc_subscriptions c \/ gc_subscriptions p.1 = ∅;
  mv_over : over (gc_state p.1) -> gc_state p.1 = gc_state c \/ gc_subscriptions p.1 = ∅;
  mv_ok : reg_ok c -> reg_ok p.1;
  mv_chart : reg_ok c -> chart (phase_of (gc_state c)) (conn (outs_of p.2)) (phase_of (gc_state p.1))
}.

Definition limits_ok (c : Gb28181Cascade) : Prop := 0 <= cl_max_retries (cc_limits (gc_config c)) <= MAX_RETRIES.

Lemma auth_keeps ch n attempt now c c' r :
  build_authorization ch n attempt now c = (c', r) -> exists a, c' = set_auth a c.
Proof. unfold build_authorization. intros Hb. cascade_cases; eauto; exists (gc_auth c'); by destruct c'. Qed.
Lemma cached_keeps now reg prev c c' r : cached_authorization now reg prev c = (c', r) -> exists a, c' = set_auth a c.
Proof.
  unfold cached_authorization. destruct (rd_challenge prev); [destruct (build_authorization _ _ _ _ _) eqn:Hb|];
    intros [= <- _]; [by eapply auth_keeps|exists (gc_auth c); by destruct c].
Qed.
Lemma start_keeps now dereg prev c c' r :
  start_registering now dereg prev c = (c', r) ->
  (exists n, c' = renumber n c)
  /\ match r with
     | Ok reg => rn_is_deregister reg = dereg
                 /\ rn_attempt reg = match gc_state c with CFailed _ a => a | _ => 0 end
     | Err _ => True
     end.
Proof.
  unfold start_registering, next_call_id. intros Hs. cascade_cases; renumbered; try congruence;
    (split; [eauto using renumber_self | split; congruence || done || idtac]).
Qed.

Lemma moves_auth a c p : moves (set_auth a c) p -> moves c p.
Proof. by intros []. Qed.
Lemma moves_renumber n c p : moves (renumber n c) p -> moves c p.
Proof. by intros []. Qed.
Lemma moves_stay c : moves c (c, Ok []).
Proof. split; simpl; auto. constructor. Qed.
Lemma moves_fail c e : moves c (c, Err e).
Proof. split; simpl; auto. constructor. Qed.
Create HintDb cascade.
#[local] Hint Resolve moves_stay moves_fail moves_auth moves_renumber : cascade.

(** The end of a registration. *)
Lemma disconnect_moves reason c :
  (reg_ok c -> ~ over (gc_state c)) -> moves c (let '(c, out) := disconnect reason c in (c, Ok out)).
Proof.
  intros Hs. split; simpl; auto; [done|]. intros Hok. apply Hs in Hok.
  apply ch_disconnect; (intros Hp; destruct (gc_state c) eqn:Es; try discriminate Hp; apply Hok; unfold over; eauto).
Qed.

Lemma fail_moves now attempt dereg reason c :
  limits_ok c -> (reg_ok c -> 0 <= attempt) ->
  (reg_ok c -> phase_of (gc_state c) = PhRegistering \/ phase_of (gc_state c) = PhRegistered \/ phase_of (gc_state c) = PhDeregistering /\ dereg = true) ->
  moves c (let '(c, out) := fail_or_retry now attempt dereg reason c in (c, Ok out)).
Proof.
  intros Hl Ha Hp. unfold fail_or_retry. destruct (dereg || _) eqn:Hd.
  { apply disconnect_moves. intros Hok. specialize (Hp Hok). intros [E|(t & a & E)]; rewrite E in Hp; naive_solver. }
  apply orb_false_iff in Hd as [-> Hd]. split; simpl; auto.
  - intros Hok. unfold reg_ok. simpl. specialize (Ha Hok). unfold limits_ok, MAX_RETRIES in Hl.
    rewrite wrap32_id by (unfold is_u32, U32_MAX; lia). lia.
  - intros Hok. specialize (Hp Hok). apply ch_fail. naive_solver.
Qed.

(** A request that moves the registration to another transaction. *)
Lemma send_register_moves reg expires auth next c :
  (reg_ok c -> reg_ok (set_state next c) /\ chart (phase_of (gc_state c)) [] (phase_of next)) -> ~ over next ->
  moves c (send_register reg expires auth next c).
Proof.
  intros Hn Ho. unfold send_register. case_match; [|apply moves_fail].
  split; simpl; auto; [naive_solver..|]. intros Hok. by apply Hn.
Qed.

Ltac not_over := unfold over; naive_solver.

Lemma on_register_moves now c : limits_ok c -> moves c (on_register now c).
Proof.
  intros Hl. unfold on_register. destruct (gc_state c) as [|r|prev|t a|r] eqn:Es; eauto with cascade.
  - destruct (start_registering _ _ _ _) as [c1 [reg|e]] eqn:Hst; apply start_keeps in Hst as [[n ->] Hr];
      apply moves_renumber with n; [|apply moves_fail]. apply send_register_moves; [|not_over].
    destruct Hr as [Hd Ha]. intros _. unfold reg_ok. simpl. rewrite Es, Hd, Ha, Es. split; [lia|by apply ch_register].
  - destruct (start_registering _ _ _ _) as [c1 [reg|e]] eqn:Hst; apply start_keeps in Hst as [[n ->] Hr];
      apply moves_renumber with n; [|apply moves_fail]. destruct Hr as [Hd Ha]. rewrite Es in Ha.
    destruct (cached_authorization _ _ _ _) as [c2 [auth|e]] eqn:Hc; apply cached_keeps in Hc as [x ->]; apply moves_auth with x.
    + apply send_register_moves; [|not_over]. intros _. unfold reg_ok. simpl. rewrite Es, Hd, Ha. split; [lia|by apply ch_register].
    + apply fail_moves; [done|lia|]. simpl. rewrite Es. auto.
  - destruct (start_registering _ _ _ _) as [c1 [reg|e]] eqn:Hst; apply start_keeps in Hst as [[n ->] Hr];
      apply moves_renumber with n; [|apply moves_fail]. apply send_register_moves; [|not_over].
    destruct Hr as [Hd Ha]. intros Hok. unfold reg_ok in *. simpl in *. rewrite Es in *. rewrite Hd, Ha. split; [lia|by apply ch_register].
Qed.

Lemma on_deregister_moves now c : limits_ok c -> moves c (on_deregister now c).
Proof.
  intros Hl. unfold on_deregister. destruct (gc_state c) as [|r|prev|t a|r] eqn:Es; eauto with cascade.
  destruct (start_registering _ _ _ _) as [c1 [reg|e]] eqn:Hst; apply start_keeps in Hst as [[n ->] Hr];
    apply moves_renumber with n; [|apply moves_fail]. destruct Hr as [Hd Ha]. rewrite Es in Ha.
  destruct (cached_authorization _ _ _ _) as [c2 [auth|e]] eqn:Hc; apply cached_keeps in Hc as [x ->]; apply moves_auth with x.
  - apply send_register_moves; [|not_over]. intros _. unfold reg_ok. simpl. rewrite Es, Hd, Ha. split; [lia|constructor].
  - apply fail_moves; [done|lia|]. simpl. rewrite Es. auto.
Qed.

(** The keepalive stays within the registration, or ends it. *)
Lemma registered_moves reg reg' out c :
  gc_state c = CRegistered reg -> conn out = [] -> plays out = [] -> moves c (set_state (CRegistered reg') c, Ok out).
Proof.
  intros Es Ho Hp. split; simpl; auto; [intros [?|(? & ? & ?)]; discriminate|done|]. intros _. rewrite Es, Ho. constructor.
Qed.
Lemma registered_disconnect reason reg c :
  gc_state c = CRegistered reg -> moves c (let '(c, out) := disconnect reason c in (c, Ok out)).
Proof. intros Es. apply disconnect_moves. rewrite Es. not_over. Qed.

Lemma on_keepalive_tick_moves now reg c : gc_state c = CRegistered reg -> moves c (on_keepalive_tick order now reg c).
Proof.
  intros Es. unfold on_keepalive_tick. destruct (kp_pending_until _).
  - case_match; [apply moves_stay|]. case_match; [by eapply registered_disconnect|by eapply registered_moves].
  - case_match; [apply moves_stay|]. match goal with |- context [match ?m with Ok _ => _ | Err _ => _ end] => destruct m as [[sn n]|e]; [|apply moves_fail] end.
    destruct (next_branch _ _ _) as [c1 branch] eqn:Hb. apply next_branch_num in Hb as [k ->]. apply moves_renumber with k.
    case_match; [by eapply registered_moves|apply moves_fail].
Qed.

Lemma keepalive_failure_moves now reg reg0 code reason c :
  gc_state c = CRegistered reg0 -> moves c (let '(c, out) := keepalive_failure now reg code reason c in (c, Ok out)).
Proof. intros Es. unfold keepalive_failure. destruct (_ <=? _); [by eapply registered_disconnect|by eapply registered_moves]. Qed.

Lemma handle_keepalive_response_moves now status body reg c :
  gc_state c = CRegistered reg -> moves c (let '(c, out) := handle_keepalive_response now status body reg c in (c, Ok out)).
Proof.
  intros Es. unfold handle_keepalive_response. destruct (300 <=? _); [by eapply keepalive_failure_moves|].
  destruct (is_success _); [|by eapply registered_moves].
  destruct (if is_empty_str body then true else _); [by eapply registered_moves|by eapply keepalive_failure_moves].
Qed.

Lemma challenge_moves now headers reg c :
  (gc_state c = CRegistering reg \/ gc_state c = CDeregistering reg) -> moves c (challenge_and_resend now headers reg c).
Proof.
  intros Es. unfold challenge_and_resend. match goal with |- context [match ?m with Ok _ => _ | Err _ => _ end] => destruct m as [[ch n]|e]; [|apply moves_fail] end.
  destruct (next_branch _ _ _) as [c1 branch] eqn:Hb. apply next_branch_num in Hb as [k ->]. apply moves_renumber with k.
  destruct (build_authorization _ _ _ _ _) as [c2 [a|e]] eqn:Ha; apply auth_keeps in Ha as [x ->]; apply moves_auth with x; [|apply moves_fail].
  apply send_register_moves; [|destruct (rn_is_deregister reg); not_over].
  assert (0 <= wrap32 (rn_attempt reg + 1)) by (apply Z.mod_pos_bound; lia).
  intros Hok. unfold reg_ok in *. simpl in *. destruct Es as [Es|Es]; rewrite Es in *; destruct Hok as [-> _]; simpl; split; auto; constructor.
Qed.

Lemma granted_moves now headers reg c : gc_state c = CRegistering reg -> moves c (registration_granted now headers reg c).
Proof.
  intros Es. unfold registration_granted. case_match; [|apply moves_fail]. case_match.
  { apply disconnect_moves. rewrite Es. not_over. }
  unfold next_call_id. destruct (next_local_tag _ _) as [c1 id] eqn:Ht. apply next_local_tag_num in Ht as [n ->].
  apply moves_renumber with n. split; simpl; auto; [intros [?|(? & ? & ?)]; discriminate|done|]. intros _. rewrite Es. constructor.
Qed.

Lemma handle_register_response_moves now status headers reg c :
  limits_ok c -> gc_state c = CRegistering reg -> moves c (handle_register_response now status headers reg c).
Proof.
  intros Hl Es. unfold handle_register_response.
  assert (forall reason, moves c (let '(c, out) := fail_or_retry now (rn_attempt reg) false reason c in (c, Ok out))) as Hf.
  { intros reason. apply fail_moves; [done|unfold reg_ok; rewrite Es; tauto|rewrite Es; auto]. }
  destruct (_ && _); [apply challenge_moves; auto|]. destruct (_ && _).
  { destruct (extract_challenge headers) as [ch|e]; [|apply moves_fail].
    destruct (match ch with Some ch => ch_stale ch | None => false end); [apply challenge_moves; auto|apply Hf]. }
  destruct (400 <=? _); [apply Hf|]. destruct (300 <=? _); [apply Hf|].
  destruct (is_success _); [by apply granted_moves|apply moves_stay].
Qed.

Lemma handle_deregister_response_moves now status headers reg c :
  gc_state c = CDeregistering reg -> moves c (handle_deregister_response now status headers reg c).
Proof.
  intros Es. unfold handle_deregister_response.
  assert (forall reason, moves c (let '(c, out) := disconnect reason c in (c, Ok out))) as Hf.
  { intros reason. apply disconnect_moves. rewrite Es. not_over. }
  destruct (_ && _); [apply challenge_moves; auto|]. destruct (_ && _); [apply Hf|].
  destruct (400 <=? _); [apply Hf|]. destruct (300 <=? _); [apply Hf|]. destruct (is_success _); [apply Hf|apply moves_stay].
Qed.

Lemma registration_on_tick_moves now c : limits_ok c -> moves c (registration_on_tick order now c).
Proof.
  intros Hl. unfold registration_on_tick. destruct (gc_state c) as [|r|r|t a|r] eqn:Es; eauto with cascade.
  - destruct (_ <=? _); [|apply moves_stay]. apply fail_moves; [done|unfold reg_ok; rewrite Es; tauto|rewrite Es; auto].
  - case_match; [by apply on_register_moves|by apply on_keepalive_tick_moves].
  - case_match; [by apply on_register_moves|apply moves_stay].
  - destruct (_ <=? _); [|apply moves_stay]. apply fail_moves; [done|unfold reg_ok; rewrite Es; tauto|].
    unfold reg_ok. rewrite Es. intros [Hd _]. right. right. auto.
Qed.

(** ** One input *)

Lemma quiet_chart c p : quiet_r c p -> chart (phase_of (gc_state c)) (conn (outs_of p.2)) (phase_of (gc_state p.1)).
Proof. intros (_ & Hs & Ho). simpl in *. rewrite Hs, Ho. constructor. Qed.

Lemma quiet_reg_ok c p : quiet_r c p -> reg_ok c -> reg_ok p.1.
Proof. intros (Hc & Hs & _). simpl in *. unfold reg_ok. by rewrite Hc, Hs. Qed.

(** What holds of the registration after any part of the machine. *)
Record advances (c : Gb28181Cascade) (p : Gb28181Cascade * couts) : Prop := {
  ad_config : gc_config p.1 = gc_config c;
  ad_ok : reg_ok p.1;
  ad_chart : chart (phase_of (gc_state c)) (conn (outs_of p.2)) (phase_of (gc_state p.1))
}.

Lemma quiet_advances c p : reg_ok c -> quiet_r c p -> advances c p.
Proof. intros Hok Hq. split; [by destruct Hq as [? _]|by eapply quiet_reg_ok|by apply quiet_chart]. Qed.
Lemma moves_advances c p : reg_ok c -> moves c p -> advances c p.
Proof. intros Hok []. split; auto. Qed.

(** A quiet part before or after another. *)
Lemma and_then_quiet c p k :
  quiet_r c p -> reg_ok c -> (forall c1, gc_config c1 = gc_config c -> gc_state c1 = gc_state c -> reg_ok c1 -> advances c1 (k c1)) ->
  advances c (and_then p k).
Proof.
  intros Hq Hok Hk. pose proof (quiet_reg_ok _ _ Hq Hok) as Hok1. destruct p as [c1 [out|e]], Hq as (Hc & Hs & Ho); simpl in *.
  - destruct (Hk c1 Hc Hs Hok1) as [Hc2 Hok2 Hch]. destruct (k c1) as [c2 [rest|e]]; split; simpl in *; try congruence; auto;
      by rewrite <-Hs, ?conn_app, ?Ho.
  - split; simpl; auto. rewrite Hs. constructor.
Qed.
Lemma and_then_last c p k :
  advances c p -> (forall c1, quiet_r c1 (k c1)) ->
  (forall e c1, k p.1 = (c1, Err e) -> conn (outs_of p.2) = []) -> advances c (and_then p k).
Proof.
  intros [Hc Hok Hch] Hk Herr. destruct p as [c1 [out|e]]; simpl in *; [|done].
  pose proof (Hk c1) as Hq. pose proof (quiet_reg_ok _ _ Hq Hok) as Hok2. destruct Hq as (Hc2 & Hs2 & Ho2).
  destruct (k c1) as [c2 [rest|e]] eqn:Ek; split; simpl in *; try congruence; auto; rewrite Hs2.
  - by rewrite conn_app, Ho2, app_nil_r.
  - by rewrite <-(Herr e c2 eq_refl).
Qed.

(** A flush only fails for a machine that is registered, and then the registration told nothing. *)
Lemma registered_tick_silent now c c1 out :
  registration_on_tick order now c = (c1, Ok out) -> is_registered (gc_state c1) = true -> conn out = [].
Proof.
  unfold registration_on_tick. destruct (gc_state c) as [|r|r|t a|r] eqn:Es.
  - by intros [= <- <-].
  - destruct (_ <=? _); [|by intros [= <- <-]]. unfold fail_or_retry. destruct (_ || _); simpl; intros [= <- <-]; done.
  - destruct (_ <=? _).
    + unfold on_register. rewrite Es. intros Hr Hreg. cascade_cases; try done; unfold send_register, fail_or_retry, disconnect in *; cascade_cases; done.
    + unfold on_keepalive_tick. intros Hr Hreg. unfold disconnect in *; cascade_cases; done.
  - destruct (_ <=? _); [|by intros [= <- <-]]. unfold on_register. rewrite Es. intros Hr Hreg. cascade_cases; try done;
      unfold send_register in *; cascade_cases; done.
  - destruct (_ <=? _); [|by intros [= <- <-]]. unfold fail_or_retry. destruct (_ || _); simpl; intros [= <- <-]; done.
Qed.

Lemma on_tick_advances now c : limits_ok c -> reg_ok c -> advances c (on_tick order now c).
Proof.
  intros Hl Hok. unfold on_tick. apply and_then_quiet; [apply tick_bridges_quiet|done|]. intros c1 Hc1 Hs1 Hok1.
  apply and_then_quiet; [|done|].
  { pose proof (tick_subscriptions_quiet now (map fst (btree_iter (gc_subscriptions c1))) c1) as Hq.
    unfold subscriptions_on_tick. by destruct (tick_subscriptions _ _ _ _). }
  intros c2 Hc2 Hs2 Hok2. apply and_then_last; [|apply flush_quiet|].
  { apply moves_advances, registration_on_tick_moves; [done|]. unfold limits_ok. by rewrite Hc2, Hc1. }
  intros e c3 Hf. destruct (registration_on_tick order now c2) as [c4 [out|e4]] eqn:Hr; [|done]. simpl in *.
  eapply registered_tick_silent; [done|]. unfold flush in Hf. simpl in Hf. destruct (is_registered (gc_state c4)); [done|discriminate].
Qed.

Lemma process_advances c i : limits_ok c -> reg_ok c -> advances c (cascade_process order c i).
Proof.
  intros Hl Hok. unfold cascade_process. destruct (ci_event i).
  - by apply moves_advances, on_register_moves.
  - by apply moves_advances, on_deregister_moves.
  - apply quiet_advances; [done|]. pose proof (on_request_quiet (ci_now i) m c) as Hq. by destruct (on_request _ _ _ _).
  - unfold on_response. destruct m as [|status headers body]; [apply moves_advances, moves_stay; done|].
    match goal with |- context [match ?r with Ok _ => _ | Err _ => _ end] => destruct r as [[[n m] id]|e]; [|by apply moves_advances, moves_fail] end.
    destruct m; try (by apply moves_advances, moves_stay).
    + destruct (gc_state c) eqn:Es; try (by apply moves_advances, moves_stay); destruct (String.eqb _ _); try (by apply moves_advances, moves_stay);
        apply moves_advances; auto using handle_register_response_moves, handle_deregister_response_moves.
    + destruct (gc_state c) eqn:Es; try (by apply moves_advances, moves_stay). destruct (_ && _); [|by apply moves_advances, moves_stay].
      by apply moves_advances, handle_keepalive_response_moves.
    + apply quiet_advances; [done|]. unfold handle_notify_response, quiet_r, quiet. cascade_cases; auto.
  - by apply quiet_advances, on_media_ready_quiet.
  - by apply quiet_advances, on_media_stop_quiet.
  - by apply on_tick_advances.
  - by apply quiet_advances, enqueue_quiet.
Qed.

(** ** What each part leaves alone *)

Lemma plays_app a b : plays (a ++ b) = plays a ++ plays b.
Proof. apply omap_app. Qed.
Lemma plays_requests l : plays (map COutRequest l) = [].
Proof. induction l; simpl; auto. Qed.

Lemma set_subscriptions_self c : c = set_subscriptions (gc_subscriptions c) (renumber (gc_request_counter c) c).
Proof. by destruct c. Qed.
Lemma set_inbound_self c : c = set_inbound_auth (gc_inbound_auth c) (renumber (gc_request_counter c) c).
Proof. by destruct c. Qed.

Lemma tick_subscription_plays now sub c c' out kept : tick_subscription order now sub c = (c', out, kept) -> plays out = [].
Proof. unfold tick_subscription. intros Ht. cascade_cases; renumbered; auto. Qed.

Lemma tick_subscriptions_frame now keys c :
  plays (tick_subscriptions order now keys c).2 = []
  /\ exists n m, (tick_subscriptions order now keys c).1 = set_subscriptions m (renumber n c).
Proof.
  revert c. induction keys as [|key keys IH]; intros c; simpl; [eauto using set_subscriptions_self|].
  destruct (gc_subscriptions c !! key) as [sub|]; [|apply IH].
  destruct (tick_subscription _ _ _ _) as [[c1 out] kept] eqn:Ht.
  pose proof (tick_subscription_plays _ _ _ _ _ _ Ht) as Hp. apply tick_subscription_num in Ht as [_ [n ->]].
  match goal with |- context [tick_subscriptions _ _ _ ?x] =>
    pose proof (IH x) as (Hp2 & n2 & m2 & Hc2); destruct (tick_subscriptions _ _ _ x) as [c2 out2] end.
  simpl in *. rewrite plays_app, Hp, Hp2. split; [done|]. exists n2, m2. subst. by destruct kept.
Qed.

Lemma enforce_capacity_plays key c : plays (enforce_subscription_capacity order key c).2 = [].
Proof. unfold enforce_subscription_capacity. cascade_cases; renumbered; auto. Qed.

Lemma handle_subscribe_frame now msg c :
  plays (handle_subscribe order now msg c).2 = []
  /\ exists n m, (handle_subscribe order now msg c).1 = set_subscriptions m (renumber n c).
Proof.
  unfold handle_subscribe, end_subscription, accept_subscription, answer. cascade_cases; renumbered; try congruence; auto;
    try (split; [done|]; eexists _, (gc_subscriptions c); by destruct c);
    try (split; [done|]; eexists _, _; reflexivity);
    try match goal with
        | |- context [bump_request ?d] => split; [done|]; exists (gc_request_counter (bump_request d)), (gc_subscriptions c); by destruct c
        end;
    match goal with
    | E : enforce_subscription_capacity _ ?k ?c0 = _ |- _ =>
        pose proof (enforce_capacity_plays k c0) as Hp; rewrite E in Hp; apply enforce_capacity_num in E as [_ [n [->|[k1 ->]]]]
    end; simpl in *; rewrite plays_app, Hp; (split; [done|]; eexists _, _; reflexivity).
Qed.

Lemma handle_message_frame now msg c :
  plays (handle_message order now msg c).2 = []
  /\ exists n a, (handle_message order now msg c).1 = set_inbound_auth a (renumber n c).
Proof.
  unfold handle_message, answer. cascade_cases; renumbered; auto;
    repeat match goal with
    | E : check_catalog_authorization _ _ _ _ _ _ = _ |- _ => apply check_catalog_num in E as [? ->]
    end; simpl; rewrite ?plays_requests; (split; [done|]); eauto using set_inbound_self;
    try (eexists _, _; reflexivity); eexists _, (gc_inbound_auth c); by destruct c.
Qed.

Lemma handle_notify_response_frame msg c : exists m, handle_notify_response msg c = set_subscriptions m c.
Proof.
  unfold handle_notify_response. cascade_cases; eauto; exists (gc_subscriptions c); by destruct c.
Qed.

Lemma send_reports_frame now queue c :
  plays (outs_of (send_reports now queue c).2) = []
  /\ exists n r, (send_reports now queue c).1 = set_reports r (renumber n c).
Proof.
  revert c. induction queue as [|report queue IH]; intros c; simpl.
  { split; [done|]. exists (gc_request_counter c), (gc_reports c). by destruct c. }
  destruct (build_message_request _ _ _) as [c1 r] eqn:Hb.
  assert (exists n, c1 = renumber n (set_reports (mkReports queue (rp_state (gc_reports c)) (rp_order (gc_reports c))) c)) as [n ->].
  { unfold build_message_request, next_cseq in Hb. cascade_cases; renumbered; by eexists. }
  destruct r as [m|e]; [|split; [done|]; by eexists _, _].
  match goal with |- context [send_reports _ _ ?x] =>
    pose proof (IH x) as (Hp & n2 & r2 & Hc2); destruct (send_reports _ _ x) as [c2 [out|e]] end;
    simpl in *; (split; [done|]); subst; by eexists _, _.
Qed.

Lemma flush_frame now c :
  plays (outs_of (flush now c).2) = [] /\ exists n r, (flush now c).1 = set_reports r (renumber n c).
Proof.
  unfold flush. case_match; [split; [done|]; exists (gc_request_counter c); eexists; by destruct c|].
  match goal with |- context [send_reports _ ?q ?x] => pose proof (send_reports_frame now q x) as (? & n & r & ->) end.
  split; [done|]. by eexists _, _.
Qed.

Lemma enqueue_frame now e c :
  plays (outs_of (enqueue order now e c).2) = []
  /\ exists k r, (enqueue order now e c).1 = set_reports r (set_counters (gc_request_counter c) (gc_bridge_counter c) k c).
Proof.
  unfold enqueue. cascade_cases; (split; [done|]); try (by eexists _, _);
    try (exists (wrap64 (gc_report_counter c + 1)), (gc_reports c); by destruct c);
    try (exists (gc_report_counter c), (gc_reports c); by destruct c); exists (gc_report_counter c); eexists; by destruct c.
Qed.
End props.
