(* ===== verification/GbCascadeClaims.v ===== *)
(** * What a cascade machine promises over any run

    A run serves calls one after another; each call brings its input, the credentials
    and the catalog the application answers with, and the order of its maps. *)

From S2P Require Import Prelude RustStr SipUri SipMessage DigestReplay DigestCodec Digest DigestProps Domain Compatibility.
From S2P Require Import Sdp SipEndpoint GbXml GbMessages GbPolicy GbAccess GbCascade GbCascadeProps.

Open Scope string_scope.
Open Scope list_scope.
Open Scope Z_scope.

Record call := mkCall {
  ca_input : CascadeInput;
  ca_password : CascadeCredentials;
  ca_catalog : CatalogProvider;
  ca_order : hash_order string string
}.

Section claims.
Context `{QuickXml} `{EncodingRs} `{Crypto} `{JitterHash}.

Definition serve_one (c : Gb28181Cascade) (k : call) : Gb28181Cascade * couts :=
  cascade_process (H3 := ca_password k) (H4 := ca_catalog k) (ca_order k) c (ca_input k).
Fixpoint serve (c : Gb28181Cascade) (calls : list call) : Gb28181Cascade * list couts :=
  match calls with
  | [] => (c, [])
  | k :: calls =>
      let '(c, r) := serve_one c k in
      let '(c, rs) := serve c calls in (c, r :: rs)
  end.
Definition told (rs : list couts) : list CascadeOutput := concat (map outs_of rs).

(** ** The registration *)

(** Steps of the chart, with the connection events they tell. *)
Inductive path : phase -> list bool -> phase -> Prop :=
| path_nil p : path p [] p
| path_step p q r a b : chart p a q -> path q b r -> path p (a ++ b) r.

(** What an observer of the events knows. *)
Definition connected (p : phase) (events : list bool) : Prop :=
  match p with
  | PhRegistered | PhDeregistering => last events = Some true
  | PhIdle => last events <> Some true
  | PhRegistering | PhFailed => True
  end.

Lemma connected_step p q a events : chart p a q -> connected p events -> connected q (events ++ a).
Proof. destruct 1; simpl; rewrite ?app_nil_r, ?last_snoc; try done; destruct p; simpl; try done; intros E; rewrite ?E; try done. Qed.

Lemma path_connected p events events' q : path p events' q -> connected p events -> connected q (events ++ events').
Proof.
  intros Hp. revert events. induction Hp as [p|p q r a b Hc Hp IH]; intros events Hk; [by rewrite app_nil_r|].
  rewrite app_assoc. apply IH. by eapply connected_step.
Qed.

(** Subscriptions live no longer than the registration. *)
Definition subs_ok (c : Gb28181Cascade) : Prop := over (gc_state c) -> gc_subscriptions c = ∅.

Lemma and_then_inv (P : Gb28181Cascade -> Prop) p k : P p.1 -> (forall c, P c -> P (k c).1) -> P (and_then p k).1.
Proof.
  destruct p as [c [out|e]]; simpl; [|done]. intros Hc Hk. specialize (Hk c Hc). by destruct (k c) as [c2 [rest|e]].
Qed.
Lemma over_not_registered s : over s -> is_registered s = false.
Proof. by intros [->|(t & a & ->)]. Qed.

Section parts.
Context `{CascadeCredentials} `{CatalogProvider} (order : hash_order string string).

Lemma moves_subs c p : moves c p -> subs_ok c -> subs_ok p.1.
Proof.
  intros Hm Hs Ho. destruct (mv_over _ _ Hm Ho) as [E|E]; [|done].
  destruct (mv_subscriptions _ _ Hm) as [->|E2]; [|done]. apply Hs. by rewrite <-E.
Qed.
Lemma subscribe_subs now msg c : subs_ok c -> subs_ok (handle_subscribe order now msg c).1.
Proof.
  intros Hs Ho. pose proof (handle_subscribe_quiet order now msg c) as (_ & Hst & _). rewrite Hst in Ho.
  rewrite <-(Hs Ho). unfold handle_subscribe, next_local_tag. destruct msg; [|done].
  unfold from_upstream_to_local. simpl. by rewrite over_not_registered.
Qed.
Lemma notify_response_subs msg c : subs_ok c -> subs_ok (handle_notify_response msg c).
Proof.
  intros Hs. destruct (handle_notify_response_frame msg c) as [m Hm]. intros Ho. assert (gc_subscriptions c = ∅) as He.
  { apply Hs. by rewrite Hm in Ho. }
  unfold handle_notify_response. rewrite He. cascade_cases; try done.
Qed.

(** ** Bridges *)

(** What happens to the bridges: the counter of their identifiers, the bridges by call
    id, and the events that tell it. *)
Inductive books (pid : string) (max : Z) : Z -> gmap string Bridge -> list (string + string) -> Z -> gmap string Bridge -> Prop :=
| bk_stay n m : books pid max n m [] n m
| bk_open n m k b :
    m !! k = None -> Z.of_nat (size m) < max -> br_bridge_id b = pid +:+ "-bridge-" +:+ show_uint (wrap64 (n + 1)) ->
    books pid max n m [inl (br_bridge_id b)] (wrap64 (n + 1)) (<[k := b]> m)
| bk_update n m k b b' :
    m !! k = Some b -> br_bridge_id b' = br_bridge_id b -> books pid max n m [] n (<[k := b']> m)
| bk_close n m k b : m !! k = Some b -> books pid max n m [inr (br_bridge_id b)] n (delete k m)
| bk_trans n1 m1 e1 n2 m2 e2 n3 m3 :
    books pid max n1 m1 e1 n2 m2 -> books pid max n2 m2 e2 n3 m3 -> books pid max n1 m1 (e1 ++ e2) n3 m3.

Definition max_bridges (c : Gb28181Cascade) : Z := cl_media_bridge_max_sessions (cc_limits (gc_config c)).
Definition keeps_books (c : Gb28181Cascade) (p : Gb28181Cascade * couts) : Prop :=
  forall out, p.2 = Ok out ->
  books (platform_id c) (max_bridges c) (gc_bridge_counter c) (gc_bridges c) (plays out)
    (gc_bridge_counter p.1) (gc_bridges p.1).

Lemma btree_iter_elem {V} (m : gmap string V) k v : In (k, v) (btree_iter m) <-> m !! k = Some v.
Proof. unfold btree_iter. rewrite <-list_elem_of_In, merge_sort_Permutation, elem_of_map_to_list. done. Qed.
Lemma btree_iter_nodup {V} (m : gmap string V) : NoDup (map fst (btree_iter m)).
Proof. unfold btree_iter. rewrite merge_sort_Permutation. apply NoDup_fst_map_to_list. Qed.
Lemma find_bridge_in id c k b : find_bridge id c = Some (k, b) -> gc_bridges c !! k = Some b /\ br_bridge_id b = id.
Proof. unfold find_bridge. intros [Hin E]%List.find_some. apply btree_iter_elem in Hin. by apply String.eqb_eq in E. Qed.


#[local] Arguments next_bye : simpl never.
#[local] Arguments next_local_tag : simpl never.
#[local] Arguments find_bridge : simpl never.
Create HintDb books.
#[local] Hint Constructors books : books.

Definition frames_bridges (c c' : Gb28181Cascade) : Prop :=
  exists n k m, c' = set_bridges m (set_counters n k (gc_report_counter c) c).
Lemma frames_bridges_self c : frames_bridges c c.
Proof. exists (gc_request_counter c), (gc_bridge_counter c), (gc_bridges c). by destruct c. Qed.

Ltac bridge_cases :=
  cascade_cases; repeat match goal with
  | E : next_local_tag _ _ = _ |- _ => apply next_local_tag_num in E as [? ->]
  | E : next_bye _ _ = _ |- _ => apply next_bye_num in E as [? ->]
  | E : (letopt _ := call_id _ in _) = _ |- _ => destruct (call_id _) eqn:?; simplify_eq/=; destruct (gc_bridges _ !! _) eqn:?; simplify_eq/=
  end; simpl in *.
Ltac framed :=
  solve [apply frames_bridges_self | by eexists _, _, _ | match goal with |- frames_bridges ?c ?d =>
           exists (gc_request_counter d), (gc_bridge_counter d), (gc_bridges d); by destruct c end].

Lemma open_bridge_books now msg id headers n user sdp c :
  gc_bridges c !! id = None -> Z.of_nat (size (gc_bridges c)) < max_bridges c ->
  let p := open_bridge now msg id headers n user sdp c in frames_bridges c p.1 /\ keeps_books c (p.1, Ok p.2).
Proof.
  intros Hn Hs p. split; [by eexists _, _, _|]. intros out [= <-]. simpl.
  match goal with |- context [<[_ := ?b]> _] => exact (bk_open _ _ _ _ id b Hn Hs eq_refl) end.
Qed.

Lemma media_request_books now msg c :
  let p := handle_media_request now msg c in frames_bridges c p.1 /\ keeps_books c (p.1, Ok p.2).
Proof.
  intros p. subst p. unfold handle_media_request, handle_invite, handle_ack, handle_bye, handle_cancel, answer_invite, answer.
  bridge_cases; try (apply open_bridge_books; [done|unfold max_bridges; lia]).
  all: split; [framed|intros out [= <-]; simpl; eauto with books].
Qed.

Lemma media_ready_books id sdp c : let p := on_media_ready id sdp c in frames_bridges c p.1 /\ keeps_books c p.
Proof.
  intros p. subst p. unfold on_media_ready. destruct (find_bridge id c) as [[k b]|] eqn:Hf; [apply find_bridge_in in Hf as [Hf _]|].
  all: bridge_cases; (split; [framed|]); intros out [= <-]; simpl; eauto with books.
Qed.
Lemma media_stop_books now id c : let p := on_media_stop now id c in frames_bridges c p.1 /\ keeps_books c p.
Proof.
  intros p. subst p. unfold on_media_stop. destruct (find_bridge id c) as [[k b]|] eqn:Hf; [apply find_bridge_in in Hf as [Hf _]|].
  all: bridge_cases; (split; [framed|]); intros out Ho; simpl in Ho; simplify_eq; cascade_cases; simpl; eauto with books.
Qed.

Lemma frames_bridges_trans c1 c2 c3 : frames_bridges c1 c2 -> frames_bridges c2 c3 -> frames_bridges c1 c3.
Proof. intros (n & k & m & ->) (n' & k' & m' & ->). by eexists _, _, _. Qed.
Lemma frames_config c c' : frames_bridges c c' -> gc_config c' = gc_config c.
Proof. by intros (n & k & m & ->). Qed.

(** One after another. *)
Lemma keeps_trans c1 e1 c2 r :
  gc_config c2 = gc_config c1 -> keeps_books c1 (c2, Ok e1) -> keeps_books c2 r ->
  keeps_books c1 (r.1, let? rest := r.2 in Ok (e1 ++ rest)).
Proof.
  intros Hc H1' H2' out Ho. destruct r as [c3 [rest|e]]; simpl in *; [|done]. injection Ho as <-.
  rewrite plays_app. eapply bk_trans; [by apply H1'|]. specialize (H2' rest eq_refl). unfold keeps_books, platform_id, max_bridges in *.
  by rewrite Hc in H2'.
Qed.

Lemma tick_bridges_books now expired c :
  NoDup (map fst expired) -> (forall k b, In (k, b) expired -> gc_bridges c !! k = Some b) ->
  let p := tick_bridges now expired c in frames_bridges c p.1 /\ keeps_books c p.
Proof.
  revert c. induction expired as [|[k b] expired IH]; intros c Hd Hin; cbn [tick_bridges]; [split; [framed|intros out [= <-]; constructor]|].
  apply NoDup_cons in Hd as [Hk Hd].
  assert (forall c1 e1, frames_bridges c c1 -> keeps_books c (c1, Ok e1) ->
     (gc_bridges c1 = delete k (gc_bridges c) \/ gc_bridges c1 = gc_bridges c) ->
     let p := (let '(c2, r) := tick_bridges now expired c1 in (c2, let? rest := r in Ok (e1 ++ rest))) in
     frames_bridges c p.1 /\ keeps_books c p) as Hnext.
  { intros c1 e1 Hf Hb Hm. specialize (IH c1 Hd) as [Hf2 Hb2].
    { intros k' b' Hi. assert (k' <> k) by (intros ->; apply Hk, list_elem_of_In; by apply (in_map fst) in Hi).
      specialize (Hin k' b' (or_intror Hi)). destruct Hm as [-> | ->]; [by rewrite lookup_delete_ne|done]. }
    pose proof (keeps_trans c e1 c1 _ (frames_config _ _ Hf) Hb Hb2) as Ht.
    destruct (tick_bridges now expired c1) as [c2 r]. split; [by eapply frames_bridges_trans|done]. }
  assert (gc_bridges c !! k = Some b) as Hb by (apply Hin; by left).
  destruct (br_state b) eqn:Es; try (apply Hnext; [framed|intros out [= <-]; simpl; eauto with books|simpl; auto]; fail).
  destruct (_ && _); [|apply Hnext; [framed|intros out [= <-]; simpl; eauto with books|simpl; auto]].
  destruct (next_bye b c) as [c1 r] eqn:Hn. apply next_bye_num in Hn as [n ->].
  destruct r as [m|e]; [|split; [framed|done]].
  apply Hnext; [framed|intros out [= <-]; simpl; eauto with books|simpl; auto].
Qed.

Lemma bridges_tick_books now c : let p := bridges_on_tick now c in frames_bridges c p.1 /\ keeps_books c p.
Proof.
  apply tick_bridges_books.
  - pose proof (btree_iter_nodup (gc_bridges c)) as Hd. induction (btree_iter (gc_bridges c)) as [|x l IH]; simpl; [constructor|].
    apply NoDup_cons in Hd as [Hx Hd]. case_match; simpl; [|by apply IH]. apply NoDup_cons. split; [|by apply IH].
    intros (y & E & [Hy _]%list_elem_of_In%filter_In)%list_elem_of_fmap. apply Hx. rewrite E. by apply list_elem_of_In, in_map.
  - intros k b [Hin _]%filter_In. by apply btree_iter_elem.
Qed.

(** Whatever leaves the bridges alone and tells nothing of them. *)
Lemma untouched_books c p :
  gc_bridges p.1 = gc_bridges c -> gc_bridge_counter p.1 = gc_bridge_counter c -> plays (outs_of p.2) = [] -> keeps_books c p.
Proof. intros Hb Hn Hp out Ho. rewrite Ho in Hp. simpl in Hp. rewrite Hb, Hn, Hp. constructor. Qed.
Lemma moves_books c p : moves c p -> keeps_books c p.
Proof. intros []. by apply untouched_books. Qed.

Lemma and_then_books c p k :
  gc_config p.1 = gc_config c -> keeps_books c p -> (forall c1, gc_config c1 = gc_config c -> keeps_books c1 (k c1)) ->
  keeps_books c (and_then p k).
Proof.
  intros Hc Hp Hk. destruct p as [c1 [out|e]]; simpl in *; [|by intros ?].
  pose proof (keeps_trans c out c1 (k c1) Hc Hp (Hk c1 Hc)) as Ht. by destruct (k c1).
Qed.

Lemma subscriptions_tick_frame now c :
  plays (subscriptions_on_tick order now c).2 = []
  /\ exists n m, (subscriptions_on_tick order now c).1 = set_subscriptions m (renumber n c).
Proof. apply tick_subscriptions_frame. Qed.

Lemma on_tick_books now c : limits_ok c -> keeps_books c (on_tick order now c).
Proof.
  intros Hl. destruct (bridges_tick_books now c) as [Hf Hb].
  apply and_then_books; [by apply frames_config|done|]. intros c1 Hc1.
  destruct (subscriptions_tick_frame now c1) as (Hp & n & m & Hs). destruct (subscriptions_on_tick order now c1) as [c1' out]. cbn [fst snd] in Hp, Hs. subst c1'.
  apply and_then_books; [done|by apply untouched_books|]. intros c2 Hc2.
  assert (limits_ok c2) as Hl2 by (unfold limits_ok; by rewrite Hc2; simpl; rewrite Hc1).
  pose proof (registration_on_tick_moves order now c2 Hl2) as Hm.
  apply and_then_books; [by destruct Hm|by apply moves_books|]. intros c3 _.
  destruct (flush_frame now c3) as (Hpf & n3 & r3 & Hf3). apply untouched_books; [by rewrite Hf3..|done].
Qed.

Lemma on_tick_subs now c : limits_ok c -> subs_ok c -> subs_ok (on_tick order now c).1.
Proof.
  intros Hl Hs. set (P := fun c => limits_ok c /\ subs_ok c). cut (P (on_tick order now c).1); [by intros [_ ?]|].
  unfold on_tick.
  apply and_then_inv; [|intros c1 [Hl1 Hs1]; apply and_then_inv; [|intros c2 [Hl2 Hs2]; apply and_then_inv; [|intros c3 [Hl3 Hs3]]]].
  - destruct (bridges_tick_books now c) as [(n & k & m & ->) _]. done.
  - destruct (subscriptions_tick_frame now c1) as (_ & n & m & Hf).
    destruct (subscriptions_on_tick order now c1) as [c1' out] eqn:Et. simpl in *. subst c1'. split; [done|].
    intros Ho. specialize (Hs1 Ho). unfold subscriptions_on_tick in Et. rewrite Hs1 in Et. injection Et as Ec _. change m with (gc_subscriptions (set_subscriptions m (renumber n c1))). by rewrite <-Ec.
  - pose proof (registration_on_tick_moves order now c2 Hl2) as Hm. split; [|by eapply moves_subs].
    unfold limits_ok. by rewrite (mv_config _ _ Hm).
  - destruct (flush_frame now c3) as (_ & n & r & E). rewrite E. done.
Qed.

(** What holds of every part holds of the machine. *)
Lemma process_parts (P : Gb28181Cascade * couts -> Prop) c i :
  limits_ok c -> (forall p, moves c p -> P p) ->
  (forall now msg, P (let '(c1, out) := handle_media_request now msg c in (c1, Ok out))) ->
  (forall now msg, P (let '(c1, out) := handle_subscribe order now msg c in (c1, Ok out))) ->
  (forall now msg, P (let '(c1, out) := handle_message order now msg c in (c1, Ok out))) ->
  (forall msg, P (handle_notify_response msg c, Ok [])) ->
  (forall id sdp, P (on_media_ready id sdp c)) -> (forall now id, P (on_media_stop now id c)) ->
  (forall now, P (on_tick order now c)) -> (forall now e, P (enqueue order now e c)) ->
  P (cascade_process order c i).
Proof.
  intros Hl Hmv Hmed Hsub Hmsg Hnot Hrdy Hstp Htick Henq. unfold cascade_process. destruct (ci_event i); auto.
  - by apply Hmv, on_register_moves.
  - by apply Hmv, on_deregister_moves.
  - unfold on_request. destruct m as [line h b|]; [|by apply Hmv, moves_stay].
    destruct (rl_method line); first [apply Hmed | apply Hsub | apply Hmsg].
  - unfold on_response. destruct m as [|status headers body]; [by apply Hmv, moves_stay|].
    match goal with |- context [match ?r with Ok _ => _ | Err _ => _ end] => destruct r as [[[n m] id]|e]; [|by apply Hmv, moves_fail] end.
    destruct m; auto; try (by apply Hmv, moves_stay); destruct (gc_state c) eqn:Es; try (by apply Hmv, moves_stay);
      case_match; try (by apply Hmv, moves_stay);
      eauto using handle_register_response_moves, handle_deregister_response_moves, handle_keepalive_response_moves.
Qed.

Lemma process_books c i : limits_ok c -> keeps_books c (cascade_process order c i).
Proof.
  intros Hl. apply process_parts; auto using moves_books, on_tick_books.
  - intros now msg. pose proof (media_request_books now msg c) as [_ Hb]. by destruct (handle_media_request now msg c).
  - intros now msg. pose proof (handle_subscribe_frame order now msg c) as (Hp & n & m & Hf).
    destruct (handle_subscribe _ _ _ _). simpl in *. subst. by apply untouched_books.
  - intros now msg. pose proof (handle_message_frame order now msg c) as (Hp & n & m & Hf).
    destruct (handle_message _ _ _ _). simpl in *. subst. by apply untouched_books.
  - intros msg. destruct (handle_notify_response_frame msg c) as [m ->]. by apply untouched_books.
  - intros id sdp. apply media_ready_books.
  - intros now id. apply media_stop_books.
  - intros now e. pose proof (enqueue_frame order now e c) as (Hp & n & m & Hf). apply untouched_books; [by rewrite Hf..|done].
Qed.

Lemma process_subs c i : limits_ok c -> subs_ok c -> subs_ok (cascade_process order c i).1.
Proof.
  intros Hl Hs. apply (process_parts (fun p => subs_ok p.1)); auto using on_tick_subs.
  - intros p Hm. by eapply moves_subs.
  - intros now msg. pose proof (media_request_books now msg c) as [(n & k & m & Hf) _].
    destruct (handle_media_request now msg c). simpl in *. by subst.
  - intros now msg. pose proof (subscribe_subs now msg c Hs) as Hs'. by destruct (handle_subscribe _ _ _ _).
  - intros now msg. pose proof (handle_message_frame order now msg c) as (Hp & n & m & Hf).
    destruct (handle_message _ _ _ _). simpl in *. by subst.
  - intros msg. by apply notify_response_subs.
  - intros id sdp. destruct (media_ready_books id sdp c) as [(n & k & m & ->) _]. done.
  - intros now id. destruct (media_stop_books now id c) as [(n & k & m & ->) _]. done.
  - intros now e. pose proof (enqueue_frame order now e c) as (Hp & n & m & ->). done.
Qed.
End parts.

(** *** What the events tell of the bridges *)

(** The identifiers requested so far and those still open; a request must be new, a stop
    must be of an open bridge. *)
Fixpoint replay (ever live : gset string) (events : list (string + string)) : option (gset string * gset string) :=
  match events with
  | [] => Some (ever, live)
  | inl id :: events => if decide (id ∈ ever) then None else replay ({[id]} ∪ ever) ({[id]} ∪ live) events
  | inr id :: events => if decide (id ∈ live) then replay ever (live ∖ {[id]}) events else None
  end.
Lemma replay_app ever live a b :
  replay ever live (a ++ b) = match replay ever live a with Some (ever', live') => replay ever' live' b | None => None end.
Proof.
  revert ever live. induction a as [|[id|id] a IH]; intros ever live; simpl; [done|..]; destruct (decide _); auto.
Qed.

Definition requests (events : list (string + string)) : Z :=
  Z.of_nat (length (List.filter (fun e => match e with inl _ => true | inr _ => false end) events)).
Definition bridge_name (pid : string) (n : Z) : string := pid +:+ "-bridge-" +:+ show_uint n.

(** The bridges by call id are those the events leave open. *)
Record agree (pid : string) (n : Z) (m : gmap string Bridge) (ever live : gset string) : Prop := {
  ag_ever id : id ∈ ever -> exists k, 1 <= k <= n /\ id = bridge_name pid k;
  ag_sub : live ⊆ ever;
  ag_live id : id ∈ live <-> exists k b, m !! k = Some b /\ br_bridge_id b = id;
  ag_inj k1 k2 b1 b2 : m !! k1 = Some b1 -> m !! k2 = Some b2 -> br_bridge_id b1 = br_bridge_id b2 -> k1 = k2
}.

Lemma show_uint_inj a b : is_u64 a -> is_u64 b -> show_uint a = show_uint b -> a = b.
Proof.
  intros Ha Hb E. pose proof (parse_show_uint U64_MAX a) as Pa. pose proof (parse_show_uint U64_MAX b) as Pb.
  unfold is_u64 in *. rewrite E in Pa. rewrite Pb in Pa; [|unfold U64_MAX in *; lia..]. symmetry. apply (inj Some), Pa; unfold U64_MAX in *; lia.
Qed.
Lemma str_app_inj p a b : p +:+ a = p +:+ b -> a = b.
Proof. induction p as [|x p IH]; simpl; [done|]. intros [= E]. auto. Qed.
Lemma bridge_name_inj pid a b : is_u64 a -> is_u64 b -> bridge_name pid a = bridge_name pid b -> a = b.
Proof. intros Ha Hb E%str_app_inj%(str_app_inj "-bridge-"). by apply show_uint_inj. Qed.

Lemma requests_app a b : requests (a ++ b) = requests a + requests b.
Proof. unfold requests. rewrite List.filter_app, length_app. lia. Qed.

Lemma agree_open pid n m ever live k b :
  0 <= n < U64_MAX -> m !! k = None -> br_bridge_id b = bridge_name pid (n + 1) -> agree pid n m ever live ->
  (br_bridge_id b ∉ ever)
  /\ agree pid (n + 1) (<[k := b]> m) ({[br_bridge_id b]} ∪ ever) ({[br_bridge_id b]} ∪ live).
Proof.
  intros Hn Hk Hid [He Hs Hl Hi].
  assert (br_bridge_id b ∉ ever) as Hnew.
  { intros (j & Hj & E)%He. rewrite Hid in E. apply bridge_name_inj in E; unfold is_u64, U64_MAX in *; lia. }
  assert (forall k' b', m !! k' = Some b' -> br_bridge_id b' <> br_bridge_id b) as Hno.
  { intros k' b' Hk' E. apply Hnew, Hs, Hl. rewrite <-E. eauto. }
  split; [done|]. split.
  - intros id [->%elem_of_singleton|(j & ? & ?)%He]%elem_of_union; [exists (n + 1)|exists j]; (split; [lia|done]).
  - set_solver.
  - intros id. rewrite elem_of_union, elem_of_singleton, Hl. split.
    + intros [->|(k' & b' & Hk' & <-)]; [exists k, b; by rewrite lookup_insert_eq|].
      exists k', b'. rewrite lookup_insert_ne; [done|]. intros ->. congruence.
    + intros (k' & b' & Hk' & <-). apply lookup_insert_Some in Hk' as [[<- <-]|[_ Hk']]; eauto.
  - intros k1 k2 b1 b2 H1' H2' E. apply lookup_insert_Some in H1' as [[<- <-]|[? H1']], H2' as [[<- <-]|[? H2']]; eauto;
      exfalso; eapply Hno; eauto.
Qed.

Lemma agree_update pid n m ever live k b b' :
  m !! k = Some b -> br_bridge_id b' = br_bridge_id b -> agree pid n m ever live -> agree pid n (<[k := b']> m) ever live.
Proof.
  intros Hk Hid [He Hs Hl Hi]. split; auto.
  - intros id. rewrite Hl. split.
    + intros (k' & b1 & Hk' & <-). destruct (decide (k' = k)) as [->|Hne].
      * exists k, b'. rewrite lookup_insert_eq. split; [done|congruence].
      * exists k', b1. by rewrite lookup_insert_ne.
    + intros (k' & b1 & Hk' & <-). apply lookup_insert_Some in Hk' as [[<- <-]|[_ Hk']]; [exists k, b|]; eauto.
  - intros k1 k2 b1 b2 H1' H2' E. apply lookup_insert_Some in H1' as [[<- <-]|[? H1']], H2' as [[<- <-]|[? H2']]; eauto;
      [by apply (Hi _ _ b b2); congruence|by apply (Hi _ _ b1 b); congruence].
Qed.

Lemma agree_close pid n m ever live k b :
  m !! k = Some b -> agree pid n m ever live ->
  (br_bridge_id b ∈ live) /\ agree pid n (delete k m) ever (live ∖ {[br_bridge_id b]}).
Proof.
  intros Hk [He Hs Hl Hi]. split; [apply Hl; eauto|]. split; auto.
  - set_solver.
  - intros id. rewrite elem_of_difference, elem_of_singleton, Hl. split.
    + intros [(k' & b1 & Hk' & <-) Hne]. exists k', b1. rewrite lookup_delete_ne; [done|]. intros ->. congruence.
    + intros (k' & b1 & Hk' & <-). apply lookup_delete_Some in Hk' as [Hne Hk']. split; [eauto|]. intros E. by apply Hne, (Hi _ _ b b1).
  - intros k1 k2 b1 b2 [_ H1']%lookup_delete_Some [_ H2']%lookup_delete_Some. eauto.
Qed.

(** The events of any bookkeeping can be replayed, and leave the bridges there are. *)
Lemma books_agree pid max n m events n' m' ever live :
  books pid max n m events n' m' -> 0 <= n -> n + requests events <= U64_MAX -> agree pid n m ever live ->
  n' = n + requests events
  /\ exists ever' live', replay ever live events = Some (ever', live') /\ agree pid n' m' ever' live'.
Proof.
  intros Hb. revert ever live.
  induction Hb as [n m|n m k b Hk Hs Hid|n m k b b' Hk Hid|n m k b Hk|n1 m1 e1 n2 m2 e2 n3 m3 H1' IH1 H2' IH2];
    intros ever live Hn Hr Ha; simpl in *.
  - split; [unfold requests; simpl; lia|eauto].
  - change (requests [inl (br_bridge_id b)]) with 1 in *. rewrite wrap64_id in * by (unfold is_u64; lia). split; [done|].
    destruct (agree_open pid n m ever live k b) as [Hnew Ha']; [unfold U64_MAX in *; lia|done..|].
    exists ({[br_bridge_id b]} ∪ ever), ({[br_bridge_id b]} ∪ live). by rewrite decide_False.
  - split; [unfold requests; simpl; lia|]. exists ever, live. split; [done|]. by eapply agree_update.
  - split; [unfold requests; simpl; lia|]. destruct (agree_close pid n m ever live k b Hk Ha) as [Hin Ha'].
    exists ever, (live ∖ {[br_bridge_id b]}). by rewrite decide_True.
  - rewrite requests_app in *. assert (0 <= requests e1) by (unfold requests; lia). assert (0 <= requests e2) by (unfold requests; lia).
    destruct (IH1 ever live) as (-> & ever1 & live1 & Hr1 & Ha1); [lia..|done|].
    destruct (IH2 ever1 live1) as (-> & ever2 & live2 & Hr2 & Ha2); [lia..|done|].
    split; [lia|]. exists ever2, live2. rewrite replay_app, Hr1. done.
Qed.
Lemma books_size pid max n m events n' m' :
  books pid max n m events n' m' -> Z.of_nat (size m) <= max -> Z.of_nat (size m') <= max.
Proof.
  induction 1; auto; intros Hs.
  - rewrite map_size_insert_None by done. lia.
  - by rewrite map_size_insert_Some by eauto.
  - rewrite map_size_delete_Some by eauto. lia.
Qed.

(** ** Runs *)

Definition sane (c : Gb28181Cascade) : Prop := limits_ok c /\ reg_ok c /\ subs_ok c.

Lemma serve_one_sane c k : sane c ->
  sane (serve_one c k).1 /\ gc_config (serve_one c k).1 = gc_config c
  /\ chart (phase_of (gc_state c)) (conn (outs_of (serve_one c k).2)) (phase_of (gc_state (serve_one c k).1))
  /\ keeps_books c (serve_one c k).
Proof.
  intros (Hl & Hr & Hs). destruct (process_advances (H3 := ca_password k) (H4 := ca_catalog k) (ca_order k) c (ca_input k) Hl Hr) as [Hc Hok Hch].
  fold (serve_one c k) in Hc, Hok, Hch. unfold sane, limits_ok. rewrite Hc.
  split; [|split; [done|split; [done|by apply process_books]]]. split; [done|]. split; [done|]. by apply process_subs.
Qed.

Lemma new_sane config c0 : cascade_new config = Ok c0 ->
  sane c0 /\ gc_state c0 = CIdle /\ gc_bridges c0 = ∅ /\ gc_bridge_counter c0 = 0 /\ 0 <= max_bridges c0.
Proof.
  unfold cascade_new, sanitize. intros Hn. cascade_cases; (repeat split; simpl; try done);
    unfold max_bridges, clampZ, MAX_RETRIES, MAX_MEDIA_BRIDGE_SESSIONS; simpl; unfold clampZ, MAX_MEDIA_BRIDGE_SESSIONS; lia.
Qed.
Lemma attach_sane c : sane c -> sane (attach_catalog_provider c).
Proof. done. Qed.

(** The registration over a run. *)
Lemma serve_path c calls c' rs :
  sane c -> serve c calls = (c', rs) ->
  sane c' /\ gc_config c' = gc_config c /\ path (phase_of (gc_state c)) (conn (told rs)) (phase_of (gc_state c')).
Proof.
  revert c rs. induction calls as [|k calls IH]; intros c rs Hs; simpl; [intros [= <- <-]; eauto using path_nil|].
  destruct (serve_one_sane c k Hs) as (Hs1 & Hc1 & Hch & _). destruct (serve_one c k) as [c1 r].
  destruct (serve c1 calls) as [c2 rs'] eqn:E. intros [= <- <-]. destruct (IH c1 rs' Hs1 E) as (Hs2 & Hc2 & Hp).
  split; [done|]. split; [simpl in *; congruence|]. unfold told. simpl. rewrite conn_app. by eapply path_step.
Qed.
Lemma serve_books c calls c' rs :
  sane c -> serve c calls = (c', rs) -> forallb is_ok rs = true ->
  books (platform_id c) (max_bridges c) (gc_bridge_counter c) (gc_bridges c) (plays (told rs)) (gc_bridge_counter c') (gc_bridges c').
Proof.
  revert c rs. induction calls as [|k calls IH]; intros c rs Hs; simpl; [intros [= <- <-] _; constructor|].
  destruct (serve_one_sane c k Hs) as (Hs1 & Hc1 & _ & Hb). destruct (serve_one c k) as [c1 r].
  destruct (serve c1 calls) as [c2 rs'] eqn:E. intros [= <- <-] [Hr Hrs]%andb_true_iff. destruct r as [out|e]; [|done].
  specialize (IH c1 rs' Hs1 E Hrs). unfold told. simpl in *. rewrite plays_app. eapply bk_trans; [by apply Hb|].
  unfold platform_id, max_bridges in *. by rewrite Hc1 in IH.
Qed.

(** C10: Over any run of inputs, credentials and catalogs, the registration of a cascade link
    moves along its chart and the connection events tell it: registered or deregistering
    only after a connected event with no disconnect since, idle never while the last event
    says connected; a failed registration is within the configured retries, and no
    subscription outlives its registration. *)
Theorem cascade_registration_told config c0 calls c rs (provider : bool) :
  cascade_new config = Ok c0 ->
  serve (if provider then attach_catalog_provider c0 else c0) calls = (c, rs) ->
  path PhIdle (conn (told rs)) (phase_of (gc_state c))
  /\ connected (phase_of (gc_state c)) (conn (told rs))
  /\ (over (gc_state c) -> gc_subscriptions c = ∅)
  /\ (forall retry_at attempt, gc_state c = CFailed retry_at attempt ->
        0 < attempt <= cl_max_retries (cc_limits (gc_config c)) /\ cl_max_retries (cc_limits (gc_config c)) <= MAX_RETRIES).
Proof.
  intros Hn Hr. destruct (new_sane _ _ Hn) as (Hs0 & Hi & _).
  assert (sane (if provider then attach_catalog_provider c0 else c0)) as Hs1 by (by destruct provider).
  destruct (serve_path _ _ _ _ Hs1 Hr) as ((Hl & Hok & Hsub) & _ & Hp).
  replace (phase_of _) with PhIdle in Hp at 1 by (destruct provider; simpl; by rewrite Hi).
  split; [done|]. split; [by apply (path_connected PhIdle [])|]. split; [done|].
  intros t a E. unfold reg_ok in Hok. rewrite E in Hok. destruct Hl. lia.
Qed.

(** C11: While no call fails, the play events of a cascade link tell its bridges: replayed in
    order every request is of a new bridge, every stop of an open one, and what is left open
    are exactly the bridges by call id, never more than the configured sessions. *)
Theorem cascade_plays_told config c0 calls c rs :
  cascade_new config = Ok c0 -> serve c0 calls = (c, rs) ->
  forallb is_ok rs = true -> requests (plays (told rs)) <= U64_MAX ->
  (exists ever live,
     replay ∅ ∅ (plays (told rs)) = Some (ever, live)
     /\ forall id, id ∈ live <-> exists k b, gc_bridges c !! k = Some b /\ br_bridge_id b = id)
  /\ Z.of_nat (size (gc_bridges c)) <= cl_media_bridge_max_sessions (cc_limits (gc_config c)).
Proof.
  intros Hn Hr Hok Hmax. destruct (new_sane _ _ Hn) as (Hs0 & _ & Hb0 & Hc0 & Hm).
  destruct (serve_path _ _ _ _ Hs0 Hr) as (_ & Hcfg & _).
  pose proof (serve_books _ _ _ _ Hs0 Hr Hok) as Hb. rewrite Hb0, Hc0 in Hb. split.
  - destruct (books_agree _ _ _ _ _ _ _ ∅ ∅ Hb) as (_ & ever & live & Hrep & Ha); [lia..| |].
    { split; set_solver. }
    exists ever, live. split; [done|]. intros id. apply Ha.
  - apply books_size in Hb; [|done]. unfold max_bridges in Hb. by rewrite Hcfg.
Qed.

(** ** An upstream that does not answer *)

Section silence.
Context `{CascadeCredentials} `{CatalogProvider} (order : hash_order string string).

(** When the registration wants the next tick. *)
Definition due (c : Gb28181Cascade) : Z :=
  match gc_state c with
  | CRegistering r | CDeregistering r => sat_add64 (rn_started_at r) (cc_transaction_timeout_seconds (gc_config c))
  | CFailed retry_at _ => retry_at
  | CRegistered r => rd_refresh_at r
  | CIdle => 0
  end.
Fixpoint silence (n : nat) (c : Gb28181Cascade) : Gb28181Cascade * list couts :=
  match n with
  | O => (c, [])
  | S n =>
      let '(c, r) := cascade_process order c (mkCascadeInput (due c) CeTick) in
      let '(c, rs) := silence n c in (c, r :: rs)
  end.

(** Requests of this platform can be built. *)
Definition speakable (cfg : CascadeConfig) : Prop :=
  str_all is_token_char (config_platform_id cfg) = true /\ uri_host (cc_local_uri cfg) <> "".

Definition is_register (cfg : CascadeConfig) (m : SipMessage) : Prop :=
  exists headers, m = Request (RequestLine_new REGISTER (cc_upstream cfg)) headers "".

(** Nothing but the registration needs a tick. *)
Definition calm (c : Gb28181Cascade) : Prop := gc_bridges c = ∅ /\ gc_subscriptions c = ∅.

Lemma calm_tick now c c1 out :
  calm c -> registration_on_tick order now c = (c1, Ok out) -> is_registered (gc_state c1) = false ->
  on_tick order now c = (set_reports (prune_expired now (gc_reports c1)) c1, Ok out).
Proof.
  intros [Hb Hs] Hr Hn. assert (bridges_on_tick now c = (c, Ok [])) as E1 by (unfold bridges_on_tick; by rewrite Hb).
  assert (subscriptions_on_tick order now c = (c, [])) as E2 by (unfold subscriptions_on_tick; by rewrite Hs).
  unfold on_tick. rewrite E1. cbn [and_then]. rewrite E2. cbn [and_then]. rewrite Hr. cbn [and_then].
  unfold flush. simpl. rewrite Hn. simpl. by rewrite app_nil_r.
Qed.

Lemma token_lacks x s : is_token_char x = false -> str_all is_token_char s = true -> lacks x s = true.
Proof.
  intros Hx. unfold lacks. induction s as [|a s IH]; simpl; [done|]. intros [Ha Hs]%andb_true_iff.
  rewrite IH by done. destruct (Ascii.eqb_spec a x) as [->|?]; [congruence|done].
Qed.
Lemma token_ok s : str_all is_token_char s = true -> cascade_token s = Ok tt.
Proof. intros Hs. unfold cascade_token. by rewrite !token_lacks. Qed.

Lemma show_uint_token n : str_all is_token_char (show_uint n) = true.
Proof.
  eapply (str_all_impl is_ascii_digit); [intros a Ha; unfold is_token_char; by rewrite Ha, !orb_true_r|].
  unfold show_uint. assert (forall fuel n acc, str_all is_ascii_digit acc = true -> str_all is_ascii_digit (show_uint_go fuel n acc) = true) as Hg.
  { induction fuel as [|fuel IH]; intros m acc Ha; simpl; [done|].
    assert (str_all is_ascii_digit (String (digit_char (m mod 10)) acc) = true).
    { simpl. rewrite is_digit_digit_char, Ha; [done|]. by apply Z.mod_pos_bound. }
    destruct (_ <? _); auto. }
  by apply Hg.
Qed.

Lemma register_built cfg id tag n branch expires :
  uri_host (cc_local_uri cfg) <> "" -> str_all is_token_char id = true ->
  str_all is_token_char tag = true -> tag <> "" -> str_all is_token_char branch = true -> branch <> "" ->
  exists m, build_register_request cfg id tag n branch expires None = Ok m /\ is_register cfg m.
Proof.
  intros Hh Hi Ht Ht0 Hb Hb0. unfold build_register_request. rewrite !token_ok by done. cbn [result_bind].
  unfold request_headers, header_via, header_from_uri, validate_token. rewrite Hb, Ht.
  assert (forall s, s <> "" -> is_empty_str s = false) as He by (by intros []).
  rewrite !He by done. eexists. split; [done|]. by eexists.
Qed.

(** A first or repeated REGISTER without a previous registration. *)
Lemma start_built now c a :
  speakable (gc_config c) -> (gc_state c = CIdle /\ a = 0 \/ exists t, gc_state c = CFailed t a) ->
  exists reg n m, on_register now c = (set_state (CRegistering reg) (renumber n c), Ok [COutRequest m])
    /\ rn_attempt reg = a /\ rn_is_deregister reg = false /\ is_register (gc_config c) m.
Proof.
  intros [Hp Hh] Hs.
  set (tag := fun k => platform_id c +:+ "-" +:+ show_uint now +:+ "-" +:+ show_uint k).
  assert (forall k, str_all is_token_char (tag k) = true /\ tag k <> "") as Ht.
  { intros k. unfold tag. rewrite !str_all_app, !show_uint_token. unfold platform_id at 1. rewrite Hp. split; [done|]. by destruct (platform_id c). }
  assert (forall k x y, str_all is_token_char ("z9hG4bK-" +:+ tag k +:+ "-" +:+ show_uint x +:+ "-" +:+ show_uint y) = true) as Hb.
  { intros k x y. rewrite !str_all_app, !show_uint_token. by rewrite (proj1 (Ht k)). }
  unfold on_register. assert (start_registering now false None c =
    let n := wrap64 (gc_request_counter c + 1) in let n2 := wrap64 (n + 1) in let n3 := wrap64 (n2 + 1) in
    (renumber n3 c, Ok (mkRegistering 1 ("z9hG4bK-" +:+ tag n +:+ "-" +:+ show_uint 1 +:+ "-" +:+ show_uint n3) (tag n) (tag n2) a now false false None None))) as Hst.
  { unfold start_registering, next_call_id, next_local_tag, next_branch. simpl.
    destruct Hs as [[-> ->]|[t ->]]; done. }
  match goal with |- context [send_register _ _ _ _ _] => idtac end.
  rewrite Hst. cbv zeta. unfold send_register. cbn [rn_call_id rn_local_tag rn_cseq rn_branch].
  set (n := wrap64 (gc_request_counter c + 1)). set (n2 := wrap64 (n + 1)). set (n3 := wrap64 (n2 + 1)).
  destruct (register_built (gc_config (renumber n3 c)) (tag n) (tag n2) 1 ("z9hG4bK-" +:+ tag n +:+ "-" +:+ show_uint 1 +:+ "-" +:+ show_uint n3) (cc_register_interval_seconds (gc_config c))) as (m & Hm & Hreg);
    [done|by apply Ht..|by apply Hb|done|].
  eexists _, n3, m. rewrite Hm. destruct Hs as [[-> ->]|[t ->]]; done.
Qed.

(** One REGISTER runs out: the retries left decide. *)
Lemma timeout_tick c r :
  calm c -> limits_ok c -> gc_state c = CRegistering r -> rn_is_deregister r = false -> 0 <= rn_attempt r ->
  let max := cl_max_retries (cc_limits (gc_config c)) in
  exists c' out, cascade_process order c (mkCascadeInput (due c) CeTick) = (c', Ok out) /\ gc_config c' = gc_config c /\ calm c'
  /\ if max <=? rn_attempt r then gc_state c' = CIdle /\ out = [disconnected c "REGISTER transaction timed out"]
     else (exists t, gc_state c' = CFailed t (rn_attempt r + 1)) /\ out = [].
Proof.
  intros Hc Hl Hs Hd Ha max. unfold limits_ok, MAX_RETRIES in Hl.
  assert (exists c1 out, registration_on_tick order (due c) c = (c1, Ok out) /\ gc_config c1 = gc_config c /\ calm c1
    /\ is_registered (gc_state c1) = false
    /\ if max <=? rn_attempt r then gc_state c1 = CIdle /\ out = [disconnected c "REGISTER transaction timed out"]
       else (exists t, gc_state c1 = CFailed t (rn_attempt r + 1)) /\ out = []) as (c1 & out & Hr & Hcfg & Hcalm & Hn & Hout).
  { unfold registration_on_tick, due. rewrite Hs, Z.leb_refl, Hd. unfold fail_or_retry. simpl. fold max.
    destruct Hc. destruct (max <=? rn_attempt r) eqn:Em; eexists _, _; (split; [done|]); repeat split; auto.
    simpl. rewrite wrap32_id by (unfold is_u32, U32_MAX, max in *; lia). eauto. }
  exists (set_reports (prune_expired (due c) (gc_reports c1)) c1), out.
  split; [|done]. unfold cascade_process. simpl. by apply calm_tick.
Qed.
(** The time of the next try has come. *)
Lemma retry_tick c t a :
  calm c -> speakable (gc_config c) -> gc_state c = CFailed t a ->
  exists c' m r, cascade_process order c (mkCascadeInput (due c) CeTick) = (c', Ok [COutRequest m]) /\ gc_config c' = gc_config c
  /\ calm c' /\ gc_state c' = CRegistering r /\ rn_is_deregister r = false /\ rn_attempt r = a /\ is_register (gc_config c) m.
Proof.
  intros Hc Hp Hs. destruct (start_built t c a Hp (or_intror (ex_intro _ t Hs))) as (reg & n & m & Hr & Ha & Hd & Hreg).
  exists (set_reports (prune_expired (due c) (gc_reports c)) (set_state (CRegistering reg) (renumber n c))), m, reg. split; [|done].
  unfold cascade_process. simpl.
  apply (calm_tick _ _ (set_state (CRegistering reg) (renumber n c))); auto. unfold registration_on_tick, due. by rewrite Hs, Z.leb_refl.
Qed.

Lemma silence_ends k c r :
  calm c -> limits_ok c -> speakable (gc_config c) -> gc_state c = CRegistering r -> rn_is_deregister r = false -> 0 <= rn_attempt r ->
  cl_max_retries (cc_limits (gc_config c)) = rn_attempt r + Z.of_nat k ->
  exists c' rs ms, silence (2 * k + 1) c = (c', rs) /\ forallb is_ok rs = true /\ gc_state c' = CIdle
    /\ told rs = map COutRequest ms ++ [disconnected c "REGISTER transaction timed out"] /\ length ms = k
    /\ Forall (is_register (gc_config c)) ms.
Proof.
  revert c r. induction k as [|k IH]; intros c r Hc Hl Hp Hs Hd Ha Hm;
    destruct (timeout_tick c r Hc Hl Hs Hd Ha) as (c1 & out & Ht & Hcfg & Hcalm & Hout).
  - rewrite (proj2 (Z.leb_le _ _)) in Hout by lia. destruct Hout as [Hi ->].
    exists c1, [Ok [disconnected c "REGISTER transaction timed out"]], []. cbn [silence Nat.add Nat.mul]. by rewrite Ht.
  - rewrite (proj2 (Z.leb_gt _ _)) in Hout by lia. destruct Hout as [[t Hf] ->].
    destruct (retry_tick c1 t (rn_attempt r + 1)) as (c2 & m & r2 & Ht2 & Hcfg2 & Hcalm2 & Hs2 & Hd2 & Ha2 & Hreg); [done|by rewrite Hcfg|done|].
    assert (gc_config c2 = gc_config c) as E by congruence.
    destruct (IH c2 r2) as (c3 & rs & ms & Hrun & Hok & Hi & Htold & Hlen & Hall); try done; unfold limits_ok; rewrite ?E; auto; try lia.
    exists c3, (Ok [] :: Ok [COutRequest m] :: rs), (m :: ms).
    replace (2 * S k + 1)%nat with (S (S (2 * k + 1))) by lia. cbn [silence]. rewrite Ht, Ht2, Hrun.
    split; [done|]. split; [done|]. split; [done|]. split; [|split; [simpl; congruence|constructor; [by rewrite <-Hcfg|by rewrite <-E]]].
    unfold told in *. simpl. rewrite Htold. unfold disconnected, platform_id. by rewrite E.
Qed.

(** C12: An upstream that never answers is given up: after the first REGISTER and two ticks for
    every retry and one more, each at its due time, exactly the configured number of further
    REGISTERs went out, then the disconnected event, and the link is idle. *)
Theorem silent_upstream_given_up c now :
  sane c -> gc_state c = CIdle -> gc_bridges c = ∅ -> speakable (gc_config c) ->
  exists c1 first c2 rs resent,
    cascade_process order c (mkCascadeInput now CeRegister) = (c1, Ok [COutRequest first])
    /\ silence (2 * Z.to_nat (cl_max_retries (cc_limits (gc_config c))) + 1) c1 = (c2, rs) /\ forallb is_ok rs = true
    /\ told rs = map COutRequest resent ++ [disconnected c "REGISTER transaction timed out"]
    /\ Z.of_nat (length resent) = cl_max_retries (cc_limits (gc_config c))
    /\ Forall (is_register (gc_config c)) (first :: resent)
    /\ gc_state c2 = CIdle.
Proof.
  intros (Hl & _ & Hsub) Hi Hb Hp. destruct (start_built now c 0 Hp (or_introl (conj Hi eq_refl))) as (reg & n & m & Hr & Ha & Hd & Hreg).
  unfold limits_ok in Hl.
  destruct (silence_ends (Z.to_nat (cl_max_retries (cc_limits (gc_config c)))) (set_state (CRegistering reg) (renumber n c)) reg)
    as (c2 & rs & ms & Hrun & Hok & Hidle & Htold & Hlen & Hall); try done; try (simpl; lia).
  { split; [done|]. apply Hsub. by left. }
  exists (set_state (CRegistering reg) (renumber n c)), m, c2, rs, ms.
  split; [done|]. split; [done|]. split; [done|]. split; [done|]. split; [lia|]. split; [by constructor|done].
Qed.
End silence.

(** ** Reports *)

(** Queue and snapshots together are bounded, the order lists the snapshots. *)
Record reports_ok (max : Z) (r : Reports) : Prop := {
  ro_bound : Z.of_nat (size (rp_state r)) + Z.of_nat (length (rp_queue r)) <= max;
  ro_nodup : NoDup (rp_order r);
  ro_order k : k ∈ rp_order r <-> is_Some (rp_state r !! k)
}.
(** The same without the bound. *)
Definition ordered (keys : list string) (state : gmap string PendingReport) : Prop :=
  NoDup keys /\ forall k, k ∈ keys <-> is_Some (state !! k).

Lemma ordered_tail k keys state : ordered (k :: keys) state -> ordered keys (delete k state).
Proof.
  intros [[Hk Hd]%NoDup_cons Hi]. split; [done|]. intros j. rewrite lookup_delete_is_Some, <-Hi, elem_of_cons. split.
  - intros Hj. split; [by intros ->|auto].
  - intros [Hne [->|?]]; done.
Qed.
Lemma ordered_nil state : ordered [] state -> state = ∅.
Proof. intros [_ Hi]. apply map_empty. intros k. destruct (state !! k) eqn:E; [|done]. exfalso. eapply (not_elem_of_nil k), Hi. by rewrite E. Qed.

Lemma evict_ok max queued keys state : ordered keys state ->
  let p := evict_states max queued state keys in
  ordered p.2 p.1 /\ (Z.of_nat (size p.1) + queued <= max \/ p.1 = ∅).
Proof.
  revert state. induction keys as [|k keys IH]; intros state Ho.
  - apply ordered_nil in Ho as ->. simpl. destruct (_ && _); simpl; (split; [split; [constructor|]; intros k; rewrite lookup_empty; set_solver|auto]).
  - cbn [evict_states]. destruct (_ && _) eqn:E; [by apply IH, ordered_tail|]. split; [done|]. simpl.
    apply andb_false_iff in E as [E|E]; [left; lia|]. apply negb_false_iff, bool_decide_eq_true in E. auto.
Qed.
Lemma enforce_ok max r : 0 <= max -> ordered (rp_order r) (rp_state r) -> reports_ok max (enforce_bounds max r).
Proof.
  intros Hm Ho. unfold enforce_bounds. pose proof (evict_ok max (Z.of_nat (length (rp_queue r))) _ _ Ho) as [[Hd Hi] Hb].
  destruct (evict_states _ _ _ _) as [state keys]. simpl in *. split; simpl; auto.
  rewrite length_skipn. destruct Hb as [Hb| ->]; [lia|]. rewrite map_size_empty. lia.
Qed.

Lemma remove_first_ok key l : NoDup l -> NoDup (remove_first key l) /\ forall k, k ∈ remove_first key l <-> k ∈ l /\ k <> key.
Proof.
  induction l as [|x l IH]; simpl; [set_solver|]. intros [Hx Hd]%NoDup_cons. destruct (String.eqb_spec x key) as [->|Hne].
  - split; [done|]. intros k. rewrite elem_of_cons. split; [intros Hk; split; [auto|by intros ->]|intros [[?|?] ?]; done].
  - destruct (IH Hd) as [Hd' Hi]. split; [apply NoDup_cons; split; [rewrite Hi; tauto|done]|].
    intros k. rewrite !elem_of_cons, Hi. naive_solver.
Qed.

Lemma enqueue_report_ok max report r : 0 <= max -> reports_ok max r -> reports_ok max (enqueue_report max report r).
Proof.
  intros Hm [_ Hd Hi]. apply enforce_ok; [done|].
  assert (ordered (if bool_decide (is_Some (rp_state r !! merge_key report)) then remove_first (merge_key report) (rp_order r)
                   else rp_order r) (delete (merge_key report) (rp_state r))) as [Hd' Hi'].
  { case_bool_decide as Hk.
    - destruct (remove_first_ok (merge_key report) _ Hd) as [Hd' Hi']. split; [done|]. intros k.
      rewrite Hi', Hi, lookup_delete_is_Some. naive_solver.
    - split; [done|]. intros k. rewrite Hi, lookup_delete_is_Some. split; [|tauto]. intros Hs. split; [intros <-; tauto|done]. }
  assert (ordered ((if bool_decide (is_Some (rp_state r !! merge_key report)) then remove_first (merge_key report) (rp_order r)
                   else rp_order r) ++ [merge_key report]) (<[merge_key report := report]> (rp_state r))) as Ho.
  { split.
    - apply NoDup_app. split; [done|]. split; [|apply NoDup_singleton]. intros k Hk%Hi' Hs%list_elem_of_singleton. subst k.
      apply lookup_delete_is_Some in Hk. tauto.
    - intros k. rewrite elem_of_app, Hi', list_elem_of_singleton, lookup_delete_is_Some, lookup_insert_is_Some. naive_solver. }
  by destruct (pr_kind report).
Qed.

Lemma prune_ok max now r : reports_ok max r -> reports_ok max (prune_expired now r).
Proof.
  intros [Hb Hd Hi]. split; simpl.
  - pose proof (map_size_filter (fun kv : string * PendingReport => now < pr_expires_at kv.2) (rp_state r)) as Hs. lia.
  - apply NoDup_ListNoDup, List.NoDup_filter. by apply NoDup_ListNoDup.
  - intros k. rewrite !list_elem_of_In, filter_In, <-list_elem_of_In, bool_decide_eq_true, Hi. split; [tauto|].
    intros Hk. split; [|done]. destruct Hk as [x Hk]. apply map_lookup_filter_Some in Hk as [Hk _]. eauto.
Qed.

Lemma push_fits max report q : Z.of_nat (length q) < max -> push_to_queue max report q = (q ++ [report], true).
Proof.
  intros Hq. unfold push_to_queue. replace (if pr_is_critical report then evict_noncritical max q else q) with q.
  - by rewrite (proj2 (Z.ltb_lt _ _) Hq).
  - destruct (pr_is_critical report); [|done]. destruct q as [|x q]; [done|]. cbn [evict_noncritical].
    by rewrite (proj2 (Z.leb_gt _ _) Hq).
Qed.

(** The snapshots, in the order of their last change. *)
Definition snapshots (r : Reports) : list PendingReport := omap (fun k => rp_state r !! k) (rp_order r).

Lemma omap_delete k (state : gmap string PendingReport) (keys : list string) :
  k ∉ keys -> omap (fun j => delete k state !! j) keys = omap (fun j => state !! j) keys.
Proof.
  induction keys as [|j keys IH]; simpl; [done|]. intros [Hj Hk]%not_elem_of_cons. unfold omap in IH.
  rewrite lookup_delete_ne by done. by rewrite IH.
Qed.
Lemma snapshots_size keys state : ordered keys state -> length (omap (fun j => state !! j) keys) = size state.
Proof.
  revert state. induction keys as [|k keys IH]; intros state Ho.
  { by rewrite (ordered_nil _ Ho), map_size_empty. }
  pose proof Ho as [[Hk _]%NoDup_cons Hi]. destruct (proj1 (Hi k)) as [r Hr]; [by left|].
  specialize (IH _ (ordered_tail _ _ _ Ho)). rewrite omap_delete in IH by done. simpl. rewrite Hr. unfold omap in IH. simpl. rewrite IH.
  rewrite map_size_delete_Some by eauto. assert (size state <> 0%nat); [|lia].
  intros E%map_size_empty_inv. by rewrite E, lookup_empty in Hr.
Qed.

Lemma flush_states_all max now keys state queue :
  ordered keys state -> (forall k r, state !! k = Some r -> now < pr_expires_at r) ->
  Z.of_nat (size state) + Z.of_nat (length queue) <= max ->
  flush_states max now keys state queue = mkReports (queue ++ omap (fun k => state !! k) keys) ∅ [].
Proof.
  revert state queue. induction keys as [|k keys IH]; intros state queue Ho He Hb; simpl.
  { rewrite (ordered_nil _ Ho). by rewrite app_nil_r. }
  pose proof Ho as [[Hk Hd]%NoDup_cons Hi]. destruct (proj1 (Hi k)) as [r Hr]; [by left|]. rewrite Hr.
  assert (size (delete k state) = pred (size state)) as Hsz by (apply map_size_delete_Some; eauto). assert (size state <> 0%nat).
  { intros E%map_size_empty_inv. by rewrite E, lookup_empty in Hr. }
  rewrite (proj2 (Z.ltb_lt _ _) (He k r Hr)), push_fits by lia. rewrite IH.
  - f_equal. rewrite <-app_assoc. simpl. do 2 f_equal. by apply omap_delete.
  - by apply ordered_tail.
  - intros j x [_ Hj]%lookup_delete_Some. eauto.
  - rewrite Hsz, length_app. simpl. lia.
Qed.

Definition carries (cfg : CascadeConfig) (report : PendingReport) (m : SipMessage) : Prop :=
  exists headers, m = Request (RequestLine_new MESSAGE (cc_upstream cfg)) headers (pr_body_xml report).

Lemma message_built now report c :
  speakable (gc_config c) ->
  exists n m, build_message_request now report c = (renumber n c, Ok m) /\ carries (gc_config c) report m.
Proof.
  intros [Hp Hh]. unfold build_message_request, next_local_tag, next_cseq, next_branch.
  set (n1 := gc_request_counter (bump_request c)). cbn zeta.
  set (id := platform_id (bump_request c) +:+ "-" +:+ show_uint now +:+ "-" +:+ show_uint n1).
  assert (str_all is_token_char id = true) as Hid.
  { unfold id. rewrite !str_all_app, !show_uint_token. unfold platform_id. simpl. by rewrite Hp. }
  assert (id <> "") as Hid0 by (unfold id; by destruct (platform_id _)).
  rewrite token_ok by done.
  set (b := "z9hG4bK-" +:+ id +:+ _). assert (str_all is_token_char b = true) as Hb.
  { unfold b. rewrite !str_all_app, Hid, !show_uint_token. done. }
  assert (b <> "") as Hb0 by done.
  rewrite token_ok by done. cbn [result_bind]. unfold manscdp_message, request_headers, header_via, header_from_uri, validate_token.
  rewrite Hid, Hb. assert (forall s, s <> "" -> is_empty_str s = false) as He by (by intros []).
  rewrite (He id), (He b) by done. simpl. rewrite He by done. simpl. eexists _, _. split; [done|]. by eexists.
Qed.

Lemma send_all now queue c :
  speakable (gc_config c) -> rp_queue (gc_reports c) = queue ->
  exists n ms, send_reports now queue c
    = (set_reports (mkReports [] (rp_state (gc_reports c)) (rp_order (gc_reports c))) (renumber n c), Ok (map COutRequest ms))
  /\ Forall2 (carries (gc_config c)) queue ms.
Proof.
  revert c. induction queue as [|report queue IH]; intros c Hp Hq; simpl.
  { exists (gc_request_counter c), []. split; [|constructor]. destruct c as [? ? ? ? ? ? ? ? ? []]. simpl in *. by subst. }
  destruct (message_built now report (set_reports (mkReports queue (rp_state (gc_reports c)) (rp_order (gc_reports c))) c) Hp)
    as (n & m & -> & Hm).
  match goal with |- context [send_reports _ _ ?x] => destruct (IH x Hp eq_refl) as (n2 & ms & -> & Hms) end.
  exists n2, (m :: ms). split; [done|]. by constructor.
Qed.

(** A flush empties the snapshots into the queue. *)
Lemma flush_gathers max now r : reports_ok max r ->
  enforce_bounds max (flush_states max now (rp_order (prune_expired now r)) (rp_state (prune_expired now r)) (rp_queue r))
  = mkReports (rp_queue r ++ snapshots (prune_expired now r)) ∅ [].
Proof.
  intros Hr. pose proof (prune_ok max now r Hr) as [Hb Hd Hi]. rewrite flush_states_all; [|by split| |done].
  2: { intros k x [_ Hx]%map_lookup_filter_Some. done. }
  fold (snapshots (prune_expired now r)). unfold enforce_bounds. cbn [rp_queue rp_state rp_order evict_states].
  assert (Z.of_nat (length (rp_queue r ++ snapshots (prune_expired now r))) <= max) as Hl.
  { rewrite length_app. unfold snapshots. rewrite snapshots_size by done. simpl in *. lia. }
  replace (_ - Z.to_nat max)%nat with 0%nat by lia. simpl. by destruct (_ && _).
Qed.

Lemma send_reports_ok max now queue c :
  reports_ok max (gc_reports c) -> rp_queue (gc_reports c) = queue -> reports_ok max (gc_reports (send_reports now queue c).1).
Proof.
  revert c. induction queue as [|report queue IH]; intros c [Hb Hd Hi] Hq; simpl; [done|].
  assert (reports_ok max (mkReports queue (rp_state (gc_reports c)) (rp_order (gc_reports c)))) as Hr.
  { split; simpl; auto. rewrite Hq in Hb. simpl in Hb. lia. }
  destruct (build_message_request _ _ _) as [c1 r] eqn:E.
  assert (gc_reports c1 = mkReports queue (rp_state (gc_reports c)) (rp_order (gc_reports c))) as Ec.
  { unfold build_message_request, next_local_tag, next_cseq, next_branch in E. cascade_cases; done. }
  destruct r as [m|e]; [|by rewrite <-Ec in Hr]. specialize (IH c1). rewrite Ec in IH. specialize (IH Hr eq_refl).
  by destruct (send_reports now queue c1).
Qed.

Lemma flush_ok now c : reports_ok (max_reports c) (gc_reports c) -> reports_ok (max_reports c) (gc_reports (flush now c).1).
Proof.
  intros Hr. pose proof (prune_ok _ now _ Hr) as Hp. unfold flush. simpl. destruct (negb _); [done|].
  apply send_reports_ok; [|done]. simpl. change (max_reports (set_reports _ c)) with (max_reports c).
  match goal with |- reports_ok _ ?x =>
    replace x with (mkReports (rp_queue (gc_reports c) ++ snapshots (prune_expired now (gc_reports c))) ∅ [])
      by (symmetry; by apply flush_gathers) end.
  split; simpl; [|constructor|intros k; rewrite lookup_empty; set_solver].
  destruct Hp as [Hb Hd Hi]. rewrite map_size_empty, length_app. fold (snapshots (prune_expired now (gc_reports c))).
  unfold snapshots. rewrite snapshots_size by done. simpl in *. lia.
Qed.

(** Everything not outdated goes out, alarms and then the snapshots. *)
Lemma flush_all now c :
  speakable (gc_config c) -> is_registered (gc_state c) = true -> reports_ok (max_reports c) (gc_reports c) ->
  exists n ms, flush now c = (set_reports (mkReports [] ∅ []) (renumber n c), Ok (map COutRequest ms))
  /\ Forall2 (carries (gc_config c)) (rp_queue (gc_reports c) ++ snapshots (prune_expired now (gc_reports c))) ms.
Proof.
  intros Hp Hreg Hr. unfold flush. simpl. rewrite Hreg. simpl.
  match goal with |- context [enforce_bounds ?x ?y] => replace (enforce_bounds x y) with (mkReports (rp_queue (gc_reports c) ++ snapshots (prune_expired now (gc_reports c))) ∅ []) end.
  2: { symmetry. by apply flush_gathers. }
  match goal with |- context [send_reports _ ?q ?x] => destruct (send_all now q x Hp eq_refl) as (n & ms & -> & Hms) end.
  by exists n, ms.
Qed.

Definition bounded (c : Gb28181Cascade) : Prop := limits_ok c /\ 0 <= max_reports c /\ reports_ok (max_reports c) (gc_reports c).
Lemma bounded_same c c' : gc_config c' = gc_config c -> gc_reports c' = gc_reports c -> bounded c -> bounded c'.
Proof. intros Hc Hr. unfold bounded, limits_ok, max_reports. by rewrite Hc, Hr. Qed.
Lemma frames_bounded c c' : frames_bridges c c' -> bounded c -> bounded c'.
Proof. intros (n & k & m & ->). by apply bounded_same. Qed.
Lemma moves_bounded c p : moves c p -> bounded c -> bounded p.1.
Proof. intros []. by apply bounded_same. Qed.
Lemma flush_bounded now c : bounded c -> bounded (flush now c).1.
Proof.
  intros (Hl & Hm & Hr). pose proof (flush_ok now c Hr) as Hf. destruct (flush_frame now c) as (_ & n & r & E). rewrite E in *. done.
Qed.

Section bounds.
Context `{CascadeCredentials} `{CatalogProvider} (order : hash_order string string).

Lemma enqueue_bounded now e c : bounded c -> bounded (enqueue order now e c).1.
Proof.
  intros (Hl & Hm & Hr). unfold enqueue, next_sn. cascade_cases; try done; (split; [done|]; split; [done|]; by apply enqueue_report_ok).
Qed.

Lemma on_tick_bounded now c : bounded c -> bounded (on_tick order now c).1.
Proof.
  intros Hb. unfold on_tick. apply and_then_inv; [|intros c1 H1'; apply and_then_inv; [|intros c2 H2'; apply and_then_inv; [|apply flush_bounded]]].
  - eapply frames_bounded; [apply bridges_tick_books|done].
  - destruct (subscriptions_tick_frame order now c1) as (_ & n & m & Hf). destruct (subscriptions_on_tick order now c1). simpl in *. by subst.
  - eapply moves_bounded; [apply registration_on_tick_moves; by destruct H2'|done].
Qed.

Lemma process_bounded c i : bounded c -> bounded (cascade_process order c i).1.
Proof.
  intros Hb. apply (process_parts order (fun p => bounded p.1)); auto using on_tick_bounded, enqueue_bounded; [by destruct Hb|..].
  - intros p Hm. by eapply moves_bounded.
  - intros now msg. pose proof (media_request_books now msg c) as [Hf _]. destruct (handle_media_request now msg c). by eapply frames_bounded.
  - intros now msg. pose proof (handle_subscribe_frame order now msg c) as (Hp & n & m & Hf).
    destruct (handle_subscribe _ _ _ _). simpl in *. by subst.
  - intros now msg. pose proof (handle_message_frame order now msg c) as (Hp & n & m & Hf).
    destruct (handle_message _ _ _ _). simpl in *. by subst.
  - intros msg. destruct (handle_notify_response_frame msg c) as [m ->]. done.
  - intros id sdp. eapply frames_bounded; [apply media_ready_books|done].
  - intros now id. eapply frames_bounded; [apply media_stop_books|done].
Qed.
End bounds.

Lemma serve_bounded c calls c' rs : bounded c -> serve c calls = (c', rs) -> bounded c'.
Proof.
  revert c rs. induction calls as [|k calls IH]; intros c rs Hb; simpl; [by intros [= <- <-]|].
  pose proof (process_bounded (H3 := ca_password k) (H4 := ca_catalog k) (ca_order k) c (ca_input k) Hb) as Hb1. fold (serve_one c k) in Hb1. destruct (serve_one c k) as [c1 r].
  destruct (serve c1 calls) as [c2 rs'] eqn:E. intros [= <- <-]. by eapply IH.
Qed.

(** The snapshots that are still valid, in their order. *)
Definition current (now : Z) (r : Reports) : list PendingReport :=
  omap (fun k => match rp_state r !! k with
                 | Some x => if now <? pr_expires_at x then Some x else None
                 | None => None
                 end) (rp_order r).
Lemma snapshots_current now r : snapshots (prune_expired now r) = current now r.
Proof.
  unfold snapshots, current, prune_expired. simpl. set (state := rp_state r).
  assert (forall k, filter (fun kv : string * PendingReport => now < pr_expires_at kv.2) state !! k
    = match state !! k with Some x => if now <? pr_expires_at x then Some x else None | None => None end) as Hl.
  { intros k. rewrite map_lookup_filter. destruct (state !! k) as [x|]; simpl; [|done].
    destruct (Z.ltb_spec now (pr_expires_at x)); case_guard; simpl in *; done || lia. }
  induction (rp_order r) as [|k keys IH]; [done|]. simpl. rewrite Hl in *.
  destruct (match state !! k with Some _ => _ | None => _ end) as [x|] eqn:E.
  - rewrite bool_decide_true by (by eexists). simpl. rewrite Hl, E. f_equal. exact IH.
  - rewrite bool_decide_false by (by intros []). exact IH.
Qed.

(** C13: Over any run, with or without a catalog provider, the queued reports and the
    snapshots together stay within the configured limit and the order lists exactly the
    snapshots; a flush of a registered link (with a configuration whose requests can be
    built) sends every queued alarm and then every snapshot whose expiry is later than
    the clock, in order, and leaves nothing behind. *)
Theorem cascade_reports_delivered config c0 calls c rs now (provider : bool) :
  cascade_new config = Ok c0 -> serve (if provider then attach_catalog_provider c0 else c0) calls = (c, rs) ->
  reports_ok (cl_report_max_queue_size (cc_limits (gc_config c))) (gc_reports c)
  /\ (speakable (gc_config c) -> is_registered (gc_state c) = true ->
      exists n ms, flush now c = (set_reports (mkReports [] ∅ []) (renumber n c), Ok (map COutRequest ms))
      /\ Forall2 (carries (gc_config c)) (rp_queue (gc_reports c) ++ current now (gc_reports c)) ms).
Proof.
  intros Hn Hr. assert (bounded c) as (_ & _ & Hok).
  { assert (bounded c0) as Hb0; [|eapply serve_bounded; [|done]; by destruct provider].
    destruct (new_sane _ _ Hn) as ((Hl & _) & _). split; [done|].
    unfold cascade_new, sanitize in Hn. cascade_cases; (split; [unfold max_reports; simpl; unfold clampZ, MAX_REPORT_QUEUE_SIZE; lia|]);
      (split; simpl; [rewrite map_size_empty; unfold max_reports; simpl; unfold clampZ, MAX_REPORT_QUEUE_SIZE; lia|constructor|intros k; rewrite lookup_empty; set_solver]). }
  split; [done|]. intros Hp Hreg. rewrite <-snapshots_current. by apply flush_all.
Qed.

(** ** Catalog answers *)

Section catalog.
Context `{CascadeCredentials} `{CatalogProvider} (order : hash_order string string).

(** A part of the catalog: the answer of the provider to the query and its filter, cut
    to so many items, in a message to the upstream. *)
Definition packet (cfg : CascadeConfig) (query : CascadeCatalogQuery) (now : Z) (platform : string) (max : Z) (m : SipMessage) : Prop :=
  exists asked cursor page counter sum,
    query_page asked query cursor max = Ok page
    /\ catalog_message order cfg query now platform counter sum (firstn (Z.to_nat max) (pg_items page)) = Ok m.

Lemma catalog_loop_bounded cfg query now platform max total room asked cursor counter n ms :
  catalog_loop order cfg query now platform max total room asked cursor counter = (n, Ok ms) ->
  (length ms <= room)%nat /\ Forall (packet cfg query now platform max) ms.
Proof.
  revert asked cursor counter n ms. induction room as [|room IH]; intros asked cursor counter n ms; simpl;
    [intros [= _ <-]; split; [done|constructor]|].
  destruct (query_page asked query cursor max) as [page|e] eqn:Hq; [|done].
  case_bool_decide as Hi.
  { destruct (bool_decide (cursor = None)); [|intros [= _ <-]; split; [simpl; lia|constructor]].
    destruct (catalog_message _ _ _ _ _ _ _ _) eqn:E; intros [= _ <-]. split; [simpl; lia|].
    constructor; [|constructor]. eexists _, _, page, _, _. split; [exact Hq|]. rewrite Hi. exact E. }
  destruct (catalog_message _ _ _ _ _ _ _ _) eqn:E; [|done].
  assert (packet cfg query now platform max a) as Ha by (by eexists _, _, page, _, _).
  destruct (pg_next_cursor page); [|intros [= _ <-]; split; [simpl; lia|by repeat constructor]].
  destruct (catalog_loop _ _ _ _ _ _ _ room _ _ _) as [n' [rest|e]] eqn:Hl; simpl; [|done]. intros [= _ <-].
  apply IH in Hl as [Hlen Hall]. split; [simpl; lia|by constructor].
Qed.

(** Where digest is demanded, the request carries valid credentials for its method and target. *)
Definition proven (now : Z) (line : RequestLine) (headers : SipHeaders) (c : Gb28181Cascade) : Prop :=
  match gc_inbound_auth c with
  | None => True
  | Some auth =>
      exists password value response,
        cascade_password (default (cc_credential_ref (gc_config c)) (cc_catalog_inbound_digest_credential_ref (gc_config c)))
        = Some password
        /\ get headers HAuthorization = Some value /\ response_parse value = Ok response
        /\ is_ok (validate (ia_digest auth) response (rl_method line) (uri_encode (rl_uri line)) password (ia_replay auth) now).2 = true
  end.
Lemma check_proves msg line headers now tag c c' :
  check_catalog_authorization msg line headers now tag c = (c', Ok None) -> proven now line headers c.
Proof.
  unfold check_catalog_authorization, proven. destruct (gc_inbound_auth c) as [auth|]; [|done].
  destruct (cascade_password _) as [password|] eqn:Hp; [|done]. intros Hc. exists password.
  destruct (get headers HAuthorization) as [value|]; simpl in Hc; [|cascade_cases; done].
  destruct (response_parse value) as [response|e] eqn:Hrp; simpl in Hc; [|cascade_cases; done].
  exists value, response. destruct (validate _ _ _ _ _ _ _) as [replay r]. simpl in *. destruct (is_ok r); [done|cascade_cases; done].
Qed.

(** C14: A catalog leaves the platform only for a MESSAGE of the configured upstream,
    addressed to this platform, while registered, with valid digest credentials where
    these are demanded, that queries this platform; it goes out in at most the
    configured number of packets, and each holds the first items, up to the configured
    number, of a page that the provider returned for the query with the configured
    filter. *)
Theorem catalog_disclosed now msg c c' out m :
  handle_message order now msg c = (c', out) -> In (COutRequest m) out ->
  exists line headers body query ok ms,
    msg = Request line headers body /\ rl_method line = MESSAGE
    /\ gc_catalog_provider c = true /\ from_upstream_to_local msg c = true /\ proven now line headers c
    /\ parse_catalog_query body = Ok query /\ cq_device_id query = platform_id c
    /\ out = COutResponse ok :: map COutRequest ms
    /\ Z.of_nat (length ms) <= clampZ 1 MAX_CATALOG_QUERY_PAGES (cl_catalog_max_query_pages (cc_limits (gc_config c)))
    /\ Forall (packet (gc_config c) (mkShareQuery (cq_sn query) (cq_device_id query) (cc_catalog_filter (gc_config c)))
                 now (platform_id c) (clampZ 1 MAX_CATALOG_ITEMS_PER_PACKET (cl_catalog_max_items_per_packet (cc_limits (gc_config c))))) ms.
Proof.
  unfold handle_message, next_local_tag, answer. intros Hh Hin.
  destruct (gc_catalog_provider c) eqn:Hpr; [|by simplify_eq/=].
  destruct msg as [line headers body|]; [|by simplify_eq/=].
  case_bool_decide as Hm; [|by simplify_eq/=]. cbn [negb] in Hh.
  case_bool_decide as Hid; [by simplify_eq/=; naive_solver|].
  destruct (from_upstream_to_local _ _) eqn:Hu; [|by simplify_eq/=; naive_solver]. cbn [negb] in Hh.
  destruct (check_catalog_authorization _ _ _ _ _ _) as [c1 r] eqn:Ha. pose proof Ha as Hq. apply check_catalog_num in Hq as [a Hc1].
  destruct r as [[resp|]|e]; [by simplify_eq/=; naive_solver| |by simplify_eq/=; naive_solver]. apply check_proves in Ha.
  destruct (get headers HContentType) as [ct|]; [|by simplify_eq/=; naive_solver].
  destruct (_ && _); [by simplify_eq/=; naive_solver|].
  destruct (parse_catalog_query body) as [query|e] eqn:Hquery; [|by simplify_eq/=; naive_solver].
  destruct (String.eqb_spec (cq_device_id query) (platform_id c1)) as [Hd|Hd]; [|by simplify_eq/=; naive_solver]. cbn [negb] in Hh.
  destruct (build_catalog_pages _ _ _ _ _ _ _) as [counter [ms|e]] eqn:Hb; [|by simplify_eq/=; naive_solver].
  injection Hh as _ <-. unfold build_catalog_pages in Hb. apply catalog_loop_bounded in Hb as [Hlen Hall].
  subst c1. simpl in *. exists line, headers, body, query, (build_ok_response (Request line headers body) (platform_id (bump_request c) +:+ "-" +:+ show_uint now +:+ "-" +:+ show_uint (wrap64 (gc_request_counter c + 1)))), ms.
  repeat (split; [done|]). split; [|done]. unfold clampZ, MAX_CATALOG_QUERY_PAGES in *. lia.
Qed.
End catalog.
End claims.

(** ** A platform and its upstream *)

Module CascadeSample.
Definition platform : string := "34020000002000000001".
(** The text of every body is a catalog query. *)
#[local] Instance toy_xml : QuickXml := fun _ =>
  let leaf name text := [XStart (Some name) []; XText (Some text); XEnd (Some name)] in
  [XDecl; XStart (Some "Query") []] ++ leaf "CmdType" "Catalog" ++ leaf "SN" "7" ++ leaf "DeviceID" platform ++ [XEnd (Some "Query")].
#[local] Instance toy_encoding : EncodingRs :=
  {| enc_for_label := fun _ => Some "UTF-8"; enc_decode := fun _ b => (b, negb (utf8_valid b)) |}.
#[local] Existing Instance toy_crypto.
#[local] Instance toy_jitter : JitterHash := fun _ attempt => attempt * 77.
Definition passwords : CascadeCredentials := fun _ => Some "pw".
Definition catalog : CatalogProvider := fun asked _ _ _ => Ok (mkPage [] 0 None).
Definition maps : hash_order string string := canonical_order.

Definition local : SipUri := mkSipUri Sip (Some platform) None "gb.example.org" (Some 5060) [].
Definition upstream : SipUri := mkSipUri Sip (Some "34010000002000000001") None "8.8.8.8" (Some 5060) [].
Definition config : CascadeConfig :=
  match cascade_config_new "3402000000" local upstream "3402000000" "cred" 3600 with
  | Ok c => c
  | Err _ => mkCascadeConfig "" local upstream "" "" 0 0 0 false false None 0 0 0 0 0 CatalogFilter_default None None None
               (mkCascadeLimits 0 0 0 0 0 0 0 0 0 0 0 0)
  end.
Definition machine : Gb28181Cascade :=
  match cascade_new config with
  | Ok c => c
  | Err _ => mkCascade config CIdle 0 0 0 None false None ∅ (mkReports [] ∅ []) ∅
  end.
Definition at_time (now : Z) (e : CascadeEvent) : call := mkCall (mkCascadeInput now e) passwords catalog maps.

(** The answer to the request among the outputs. *)
Definition granted (out : couts) : SipMessage :=
  match out with
  | Ok (COutRequest (Request line h b) :: _) => Response (StatusLine_new 200 "OK") h ""
  | _ => Response (StatusLine_new 500 "") (headers_of []) ""
  end.
Definition register : call := at_time 1000 CeRegister.
Definition grant : call := at_time 1001 (CeResponse (granted (serve_one machine register).2)).
Definition lines (l : list string) : string := String.concat "" (map (fun x => x +:+ CRLF_end) l).
Definition sdp : string :=
  lines ["v=0"; "o=- 0 0 IN IP4 8.8.8.8"; "s=Play"; "c=IN IP4 8.8.8.8"; "t=0 0"; "m=video 6000 RTP/AVP 96"].
Definition from_upstream (m : Method) (id : string) (extra : list (HeaderName * string)) (body : string) : CascadeEvent :=
  CeRequest (Request (mkRequestLine m local SIP_2_0)
    (headers_of ([(HVia, "SIP/2.0/UDP 8.8.8.8:5060;branch=z9hG4bKa"); (HFrom, "<sip:34010000002000000001@8.8.8.8:5060>;tag=u1");
                  (HTo, "<sip:34020000002000000001@gb.example.org:5060>"); (HCallId, id);
                  (HCSeq, "1 " +:+ Method_str m)] ++ extra)) body).
Definition calls : list call :=
  [register; grant; at_time 1002 (from_upstream INVITE "c1" [] sdp);
   at_time 1003 (CeBridgeMediaReady (platform +:+ "-bridge-1") sdp);
   at_time 1004 (from_upstream ACK "c1" [] ""); at_time 1005 (from_upstream INVITE "c2" [] sdp);
   at_time 1006 (from_upstream BYE "c1" [] ""); at_time 1007 CeTick].
Definition after : Gb28181Cascade := (serve machine calls).1.

Lemma cascade_registration_told_witness :
  path PhIdle (conn (told (serve machine calls).2)) (phase_of (gc_state after))
  /\ connected (phase_of (gc_state after)) (conn (told (serve machine calls).2))
  /\ phase_of (gc_state after) = PhRegistered.
Proof.
  destruct (cascade_registration_told config machine calls (serve machine calls).1 (serve machine calls).2 false) as (Hp & Hc & _);
    [vm_compute; reflexivity|apply surjective_pairing|]. split; [exact Hp|]. split; [exact Hc|vm_compute; reflexivity].
Defined.

Lemma cascade_plays_told_witness :
  exists ever live,
    replay ∅ ∅ (plays (told (serve machine calls).2)) = Some (ever, live)
    /\ forall id, id ∈ live <-> exists k b, gc_bridges after !! k = Some b /\ br_bridge_id b = id.
Proof.
  destruct (cascade_plays_told config machine calls (serve machine calls).1 (serve machine calls).2) as [Ht _];
    [vm_compute; reflexivity|apply surjective_pairing|vm_compute; reflexivity|vm_compute; discriminate|exact Ht].
Defined.

Lemma silent_upstream_given_up_witness :
  cl_max_retries (cc_limits (gc_config machine)) = 5
  /\ exists c1 first c2 rs resent,
    cascade_process (H3 := passwords) (H4 := catalog) maps machine (mkCascadeInput 1000 CeRegister) = (c1, Ok [COutRequest first])
    /\ silence (H3 := passwords) (H4 := catalog) maps (2 * Z.to_nat (cl_max_retries (cc_limits (gc_config machine))) + 1) c1 = (c2, rs)
    /\ forallb is_ok rs = true
    /\ told rs = map COutRequest resent ++ [disconnected machine "REGISTER transaction timed out"]
    /\ Z.of_nat (length resent) = cl_max_retries (cc_limits (gc_config machine))
    /\ Forall (is_register (gc_config machine)) (first :: resent) /\ gc_state c2 = CIdle.
Proof.
  split; [vm_compute; reflexivity|].
  apply (silent_upstream_given_up (H3 := passwords) (H4 := catalog) maps machine 1000);
    [apply (new_sane config); vm_compute; reflexivity|vm_compute; reflexivity|vm_compute; reflexivity|].
  split; [vm_compute; reflexivity|vm_compute; discriminate].
Defined.

Definition camera : SocketAddr := mkSocket (V4 3405803785) 5060.
Definition alarm (sn : string) : Gb28181Event := AlarmReceived "3402000000" "34020000001320000001" camera sn None None None None None.
Definition presence : Gb28181Event := DevicePresenceChanged "3402000000" "34020000001320000001" camera PresenceOnline.
Definition reporting : list call :=
  [register; grant; at_time 1002 (CeReport presence); at_time 1003 (CeReport (alarm "1")); at_time 1004 (CeReport presence)].
Definition loaded : Gb28181Cascade := (serve machine reporting).1.
Lemma cascade_reports_delivered_witness :
  reports_ok (cl_report_max_queue_size (cc_limits (gc_config loaded))) (gc_reports loaded)
  /\ length (rp_queue (gc_reports loaded)) = 1%nat /\ length (rp_order (gc_reports loaded)) = 1%nat
  /\ exists n ms, flush 1005 loaded = (set_reports (mkReports [] ∅ []) (renumber n loaded), Ok (map COutRequest ms))
     /\ Forall2 (carries (gc_config loaded)) (rp_queue (gc_reports loaded) ++ current 1005 (gc_reports loaded)) ms
     /\ length ms = 2%nat.
Proof.
  destruct (cascade_reports_delivered config machine reporting loaded (serve machine reporting).2 1005 false) as [Hr Hf];
    [vm_compute; reflexivity|apply surjective_pairing|].
  split; [exact Hr|]. split; [vm_compute; reflexivity|]. split; [vm_compute; reflexivity|].
  destruct Hf as (n & ms & Hfl & Hms); [split; [vm_compute; reflexivity|vm_compute; discriminate]|vm_compute; reflexivity|].
  exists n, ms. split; [exact Hfl|]. split; [exact Hms|]. rewrite <-(Forall2_length _ _ _ Hms). vm_compute. reflexivity.
Defined.

Definition sharing : Gb28181Cascade := (serve (attach_catalog_provider machine) [register; grant]).1.
Definition query : SipMessage :=
  match from_upstream MESSAGE "q1" [(HContentType, "Application/MANSCDP+xml")] "x" with CeRequest m => m | _ => granted (Ok []) end.
Definition disclosed : list CascadeOutput := (handle_message (H3 := passwords) (H4 := catalog) maps 1002 query sharing).2.
Definition page : SipMessage := match disclosed with [_; COutRequest m] => m | _ => query end.
Lemma catalog_disclosed_witness :
  exists line headers body q ok ms,
    query = Request line headers body /\ rl_method line = MESSAGE /\ from_upstream_to_local query sharing = true
    /\ parse_catalog_query body = Ok q /\ disclosed = COutResponse ok :: map COutRequest ms /\ (length ms <= 1000)%nat.
Proof.
  destruct (catalog_disclosed (H3 := passwords) (H4 := catalog) maps 1002 query sharing
              (handle_message (H3 := passwords) (H4 := catalog) maps 1002 query sharing).1 disclosed page)
    as (line & headers & body & q & ok & ms & H1' & H2' & _ & H3' & _ & H4' & _ & H5' & H6' & _);
    [apply surjective_pairing|vm_compute; tauto|].
  exists line, headers, body, q, ok, ms. repeat (split; [assumption|]). revert H6'.
  change (clampZ 1 MAX_CATALOG_QUERY_PAGES _) with 1000. intros H6'. lia.
Defined.

(** A Call-ID like [c1@8.8.8.8] cannot stand in the branch of a request of the platform:
    when the bridge of such a dialog is overdue no tick goes past it, and a registration
    that is due is not refreshed; a stop by the application removes the bridge, but the
    upstream gets no BYE and the application no event. *)
Definition at_host : list call :=
  [register; grant; at_time 1002 (from_upstream INVITE "c1@8.8.8.8" [] sdp);
   at_time 1003 (CeBridgeMediaReady (platform +:+ "-bridge-1") sdp); at_time 1004 (from_upstream ACK "c1@8.8.8.8" [] "")].
Example overdue_bridge_stops_ticks :
  map is_ok (serve machine (at_host ++ [at_time 700000 CeTick; at_time 700001 CeTick; at_time 700002 CeTick])).2
  = [true; true; true; true; true; false; false; false].
Proof. vm_compute. reflexivity. Qed.
Example stop_loses_bridge :
  let '(c, rs) := serve machine (at_host ++ [at_time 1005 (CeBridgeMediaStop (platform +:+ "-bridge-1"))]) in
  map is_ok rs = [true; true; true; true; true; false] /\ size (gc_bridges c) = 0%nat
  /\ plays (told rs) = [inl (platform +:+ "-bridge-1")].
Proof. vm_compute. auto. Qed.
(** Such a SUBSCRIBE is answered with 500. *)
Definition status_of (o : CascadeOutput) : option Z :=
  match o with COutResponse (Response line _ _) => Some (sl_code line) | _ => None end.
Definition subscribe (id : string) : call := at_time 1002 (from_upstream SUBSCRIBE id [(HOther "Event", "Catalog")] "").
Example subscribe_at_host :
  omap status_of (told (serve machine [register; grant; subscribe "s1@8.8.8.8"]).2) = [500]
  /\ omap status_of (told (serve machine [register; grant; subscribe "s1"]).2) = [200].
Proof. vm_compute. auto. Qed.

(** A limit of no subscriptions still admits one. *)
Definition none_allowed : CascadeConfig :=
  let l := cc_limits config in
  set_limits (mkCascadeLimits (cl_max_retries l) (cl_base_backoff_ms l) (cl_max_backoff_ms l) (cl_jitter_ms l)
    (cl_catalog_max_items_per_packet l) (cl_catalog_max_query_pages l) (cl_media_bridge_max_sessions l)
    (cl_report_max_queue_size l) 0 (cl_subscription_default_expiry_seconds l) (cl_subscription_min_expiry_seconds l)
    (cl_subscription_max_expiry_seconds l)) config.
Example zero_limit_admits_one :
  match cascade_new none_allowed with
  | Ok c => size (gc_subscriptions (serve c [register; grant; subscribe "s1"]).1) = 1%nat
  | Err _ => False
  end.
Proof. vm_compute. reflexivity. Qed.
End CascadeSample.
