(* ===== verification/GbCascadeManager.v ===== *)
(** * Many cascade links at once

    [cascade/manager.rs]: a machine for every upstream link, the enrolled downstream
    platforms, the access lists of both, and the links that own the control of a
    resource.  Every link keeps to its own inputs: its machine is the one it would be
    without the others. *)

From S2P Require Import Prelude RustStr SipUri SipMessage DigestReplay DigestCodec Digest DigestProps Domain ProtocolSession PlatformLink Compatibility.
From S2P Require Import Sdp SipEndpoint GbXml GbMessages GbPolicy GbAccess GbCascade GbCascadeProps.
From S2P Require Import GbCascadeClaims.

Open Scope string_scope.
Open Scope list_scope.
Open Scope Z_scope.

#[global] Instance PlatformDirection_eq_dec : EqDecision PlatformDirection.
Proof. solve_decision. Defined.

Inductive CascadeRoutingError :=
| UnknownLink
| WrongDirection (expected : string)
| DuplicateRemote
| IdentityMismatch
| LoopDetected
| HopLimitExceeded
| AclDenied
| ControlConflict
| CreCascade (e : CascadeError).
Definition CascadeRoutingError_display (e : CascadeRoutingError) : string :=
  match e with
  | UnknownLink => "unknown platform link"
  | WrongDirection expected => "wrong link direction: expected " +:+ expected
  | DuplicateRemote => "duplicate platform link for remote identity"
  | IdentityMismatch => "platform identity mismatch"
  | LoopDetected => "routing loop detected"
  | HopLimitExceeded => "hop limit exceeded"
  | AclDenied => "access denied by ACL"
  | ControlConflict => "control already owned by another link"
  | CreCascade e => CascadeError_display e
  end.

Record ManagedUpstream := mkUpstream { mu_remote_identity : string; mu_acl : PlatformAcl; mu_machine : Gb28181Cascade }.
Definition set_machine (c : Gb28181Cascade) (u : ManagedUpstream) : ManagedUpstream :=
  mkUpstream (mu_remote_identity u) (mu_acl u) c.
Record DownstreamEnrollment := mkEnrollment { de_link_id : Uuid; de_acl : PlatformAcl }.
Record CascadeManager := mkManager {
  cm_local_identity : string;
  cm_upstreams : gmap Uuid ManagedUpstream;
  cm_downstreams : gmap string DownstreamEnrollment;
  cm_control_owner : gmap string Uuid
}.
Definition set_upstreams (m : gmap Uuid ManagedUpstream) (x : CascadeManager) : CascadeManager :=
  mkManager (cm_local_identity x) m (cm_downstreams x) (cm_control_owner x).
Definition set_control_owner (m : gmap string Uuid) (x : CascadeManager) : CascadeManager :=
  mkManager (cm_local_identity x) (cm_upstreams x) (cm_downstreams x) m.

Definition manager_new (local_identity : string) : CascadeManager := mkManager local_identity ∅ ∅ ∅.
Definition upstream_count (x : CascadeManager) : nat := size (cm_upstreams x).
Definition downstream_count (x : CascadeManager) : nat := size (cm_downstreams x).

(** The links in the order of their identifiers. *)
Definition links_iter {V} (m : gmap Uuid V) : list (Uuid * V) := merge_sort (fun x y => x.1 <= y.1) (map_to_list m).

(** ** Links *)

Definition manager_parse_uri (raw : string) : result SipUri CascadeRoutingError :=
  map_err CreCascade (of_sip (uri_parse raw)).

Definition map_config (local_identity : string) (link : Link.GbPlatformLink) : result CascadeConfig CascadeRoutingError :=
  let l := Link.config link in
  let endpoint := nl_endpoint l in
  let? domain_id := ok_or (domain_id_new (pe_domain endpoint)) (CreCascade (ce_internal "invalid domain id")) in
  let? local_uri := manager_parse_uri ("sip:" +:+ local_identity +:+ "@" +:+ pe_domain endpoint) in
  let? upstream_uri := manager_parse_uri ("sip:" +:+ ip_remote (nl_identity l) +:+ "@" +:+ pe_host endpoint +:+ ":"
                                           +:+ show_uint (pe_port endpoint)) in
  let? config := map_err CreCascade
                   (with_options domain_id local_uri upstream_uri (pe_realm endpoint) (cr_credential_ref (nl_credential l))
                      (nl_register_interval_secs l) 30 (cr_allow_md5 (nl_credential l)) false) in
  let b := nl_backoff l in
  let k := cc_limits config in
  Ok (set_limits
        (mkCascadeLimits (bo_max_retries b) (bo_base_ms b) (bo_max_ms b) (bo_jitter_ms b) (cl_catalog_max_items_per_packet k)
           (cl_catalog_max_query_pages k) (cl_media_bridge_max_sessions k) (cl_report_max_queue_size k)
           (Link.max_subscriptions link) (cl_subscription_default_expiry_seconds k) (cl_subscription_min_expiry_seconds k)
           (cl_subscription_max_expiry_seconds k)) config).

Definition validate_distinct_identity (remote : string) (x : CascadeManager) : result unit CascadeRoutingError :=
  if String.eqb remote (cm_local_identity x) then Err IdentityMismatch else Ok tt.

Definition add_upstream (link : Link.GbPlatformLink) (x : CascadeManager) : CascadeManager * result unit CascadeRoutingError :=
  let l := Link.config link in
  if negb (bool_decide (nl_direction l = Upstream)) then (x, Err (WrongDirection "upstream"))
  else
    let remote := ip_remote (nl_identity l) in
    match (let? _ := validate_distinct_identity remote x in
           if existsb (fun kv => String.eqb (mu_remote_identity kv.2) remote) (links_iter (cm_upstreams x)) then Err DuplicateRemote
           else
             let? config := map_config (cm_local_identity x) link in map_err CreCascade (cascade_new config)) with
    | Err e => (x, Err e)
    | Ok machine =>
        (set_upstreams (<[nl_platform_link_id l := mkUpstream remote (nl_acl l) machine]> (cm_upstreams x)) x, Ok tt)
    end.

Definition enroll_downstream (link : Link.GbPlatformLink) (x : CascadeManager) : CascadeManager * result unit CascadeRoutingError :=
  let l := Link.config link in
  if negb (bool_decide (nl_direction l = Downstream)) then (x, Err (WrongDirection "downstream"))
  else
    let remote := ip_remote (nl_identity l) in
    match validate_distinct_identity remote x with
    | Err e => (x, Err e)
    | Ok _ =>
        if bool_decide (is_Some (cm_downstreams x !! remote)) then (x, Err DuplicateRemote)
        else
          (mkManager (cm_local_identity x) (cm_upstreams x)
             (<[remote := mkEnrollment (nl_platform_link_id l) (nl_acl l)]> (cm_downstreams x)) (cm_control_owner x), Ok tt)
    end.

Definition remove_upstream (id : Uuid) (x : CascadeManager) : CascadeManager :=
  mkManager (cm_local_identity x) (delete id (cm_upstreams x)) (cm_downstreams x)
    (filter (fun kv => kv.2 <> id) (cm_control_owner x)).

(** ** Inputs *)

(** What a link's machine asks of its surroundings: its provider of credentials, its
    catalog, the order of its maps. *)
Record link_env := mkEnv { le_password : CascadeCredentials; le_catalog : CatalogProvider; le_order : hash_order string string }.

Section inputs.
Context `{QuickXml} `{EncodingRs} `{Crypto} `{JitterHash}.

Definition machine_process (env : link_env) (c : Gb28181Cascade) (input : CascadeInput) : Gb28181Cascade * couts :=
  cascade_process (H3 := le_password env) (H4 := le_catalog env) (le_order env) c input.

Definition manager_process (id : Uuid) (input : CascadeInput) (env : link_env) (x : CascadeManager) :
    CascadeManager * result (list CascadeOutput) CascadeRoutingError :=
  match cm_upstreams x !! id with
  | None => (x, Err UnknownLink)
  | Some link =>
      let '(c, r) := machine_process env (mu_machine link) input in
      (set_upstreams (<[id := set_machine c link]> (cm_upstreams x)) x, map_err CreCascade r)
  end.

Fixpoint tick_links (now : Z) (env : Uuid -> link_env) (links : list (Uuid * ManagedUpstream)) (x : CascadeManager) :
    CascadeManager * list (Uuid * couts) :=
  match links with
  | [] => (x, [])
  | (id, link) :: links =>
      let '(c, r) := machine_process (env id) (mu_machine link) (mkCascadeInput now CeTick) in
      let x := set_upstreams (<[id := set_machine c link]> (cm_upstreams x)) x in
      let '(x, rest) := tick_links now env links x in (x, (id, r) :: rest)
  end.
Definition tick_all (now : Z) (env : Uuid -> link_env) (x : CascadeManager) : CascadeManager * list (Uuid * couts) :=
  tick_links now env (links_iter (cm_upstreams x)) x.
End inputs.

(** ** Policy *)

Definition acl_for (id : Uuid) (x : CascadeManager) : result PlatformAcl CascadeRoutingError :=
  match cm_upstreams x !! id with
  | Some u => Ok (mu_acl u)
  | None =>
      match List.find (fun kv => de_link_id kv.2 =? id) (btree_iter (cm_downstreams x)) with
      | Some (_, d) => Ok (de_acl d)
      | None => Err UnknownLink
      end
  end.
Definition may_share_catalog (id : Uuid) (external_id : string) (x : CascadeManager) : result bool CascadeRoutingError :=
  let? acl := acl_for id x in Ok (allows_resource acl external_id).
Definition may_control (id : Uuid) (x : CascadeManager) : result bool CascadeRoutingError :=
  let? acl := acl_for id x in Ok (acl_allow_control acl).
Definition may_bridge (id : Uuid) (x : CascadeManager) : result bool CascadeRoutingError :=
  let? acl := acl_for id x in Ok (acl_allow_media acl).

Definition authorize_bridge (id : Uuid) (via_path : list string) (x : CascadeManager) : result unit CascadeRoutingError :=
  match cm_upstreams x !! id with
  | None => Err UnknownLink
  | Some link =>
      if negb (acl_allow_media (mu_acl link)) then Err AclDenied
      else if (MAX_CASCADE_HOPS <=? length via_path)%nat then Err HopLimitExceeded
      else if is_denied_platform (mu_acl link) (mu_remote_identity link) then Err LoopDetected
      else if detect_loop via_path (mu_remote_identity link) || detect_loop via_path (cm_local_identity x) then Err LoopDetected
      else Ok tt
  end.

Definition acquire_control (resource : string) (id : Uuid) (x : CascadeManager) :
    CascadeManager * result unit CascadeRoutingError :=
  if negb (bool_decide (is_Some (cm_upstreams x !! id))) then (x, Err UnknownLink)
  else
    match (cm_control_owner x !! resource : option Uuid) with
    | Some owner => (x, if owner =? id then Ok tt else Err ControlConflict)
    | None => (set_control_owner (<[resource := id]> (cm_control_owner x)) x, Ok tt)
    end.
Definition release_control (resource : string) (id : Uuid) (x : CascadeManager) : CascadeManager :=
  if bool_decide (cm_control_owner x !! resource = Some id)
  then set_control_owner (delete resource (cm_control_owner x)) x else x.

Definition validate_platform_identity (platform_identity : string) (x : CascadeManager) : result Uuid CascadeRoutingError :=
  match List.find (fun kv => String.eqb (mu_remote_identity kv.2) platform_identity) (links_iter (cm_upstreams x)) with
  | Some (id, _) => Ok id
  | None =>
      match cm_downstreams x !! platform_identity with
      | Some enrollment => Ok (de_link_id enrollment)
      | None => Err IdentityMismatch
      end
  end.

(** ** Runs *)

Inductive mop :=
| MAdd (link : Link.GbPlatformLink)
| MEnroll (link : Link.GbPlatformLink)
| MRemove (id : Uuid)
| MProcess (id : Uuid) (input : CascadeInput) (env : link_env)
| MTick (now : Z) (env : Uuid -> link_env)
| MAcquire (resource : string) (id : Uuid)
| MRelease (resource : string) (id : Uuid).

Section runs.
Context `{QuickXml} `{EncodingRs} `{Crypto} `{JitterHash}.

(** The manager after an operation, with the results of the machines by link. *)
Definition mstep (x : CascadeManager) (o : mop) : CascadeManager * list (Uuid * couts) :=
  match o with
  | MAdd link => ((add_upstream link x).1, [])
  | MEnroll link => ((enroll_downstream link x).1, [])
  | MRemove id => (remove_upstream id x, [])
  | MProcess id input env =>
      let '(x, r) := manager_process id input env x in
      (x, match r with Ok out => [(id, Ok out)] | Err (CreCascade e) => [(id, Err e)] | Err _ => [] end)
  | MTick now env => tick_all now env x
  | MAcquire resource id => ((acquire_control resource id x).1, [])
  | MRelease resource id => (release_control resource id x, [])
  end.
Fixpoint manage (x : CascadeManager) (ops : list mop) : CascadeManager * list (Uuid * couts) :=
  match ops with
  | [] => (x, [])
  | o :: ops => let '(x, r) := mstep x o in let '(x, rs) := manage x ops in (x, r ++ rs)
  end.

(** The inputs of a link, and whether it is left in place. *)
Definition addressed (id : Uuid) (o : mop) : list call :=
  match o with
  | MProcess j input env => if j =? id then [mkCall input (le_password env) (le_catalog env) (le_order env)] else []
  | MTick now env => [mkCall (mkCascadeInput now CeTick) (le_password (env id)) (le_catalog (env id)) (le_order (env id))]
  | _ => []
  end.
Definition leaves (id : Uuid) (o : mop) : Prop :=
  match o with
  | MAdd link => nl_platform_link_id (Link.config link) <> id
  | MRemove j => j <> id
  | _ => True
  end.
Definition results_of (id : Uuid) : list (Uuid * couts) -> list couts :=
  omap (fun kr : Uuid * couts => if kr.1 =? id then Some kr.2 else None).

Lemma results_app id a b : results_of id (a ++ b) = results_of id a ++ results_of id b.
Proof. apply omap_app. Qed.
Lemma serve_app c a b :
  serve c (a ++ b) = let '(c1, r1) := serve c a in let '(c2, r2) := serve c1 b in (c2, r1 ++ r2).
Proof.
  revert c. induction a as [|k a IH]; intros c; simpl; [by destruct (serve c b)|].
  destruct (serve_one c k) as [c1 r]. rewrite IH. destruct (serve c1 a) as [c2 r2]. by destruct (serve c2 b).
Qed.

Lemma links_iter_elem {V} (m : gmap Uuid V) k v : In (k, v) (links_iter m) <-> m !! k = Some v.
Proof. unfold links_iter. rewrite <-list_elem_of_In, merge_sort_Permutation, elem_of_map_to_list. done. Qed.
Lemma links_iter_nodup {V} (m : gmap Uuid V) : NoDup (map fst (links_iter m)).
Proof. unfold links_iter. rewrite merge_sort_Permutation. apply NoDup_fst_map_to_list. Qed.

(** A tick reaches every link once. *)
Lemma tick_links_at now env links x id u :
  NoDup (map fst links) -> cm_upstreams x !! id = Some u -> (forall v, In (id, v) links -> v = u) ->
  let '(x', rs) := tick_links now env links x in
  let p := machine_process (env id) (mu_machine u) (mkCascadeInput now CeTick) in
  if bool_decide (id ∈ map fst links)
  then cm_upstreams x' !! id = Some (set_machine p.1 u) /\ results_of id rs = [p.2]
  else cm_upstreams x' !! id = Some u /\ results_of id rs = [].
Proof.
  revert x u. induction links as [|[j v] links IH]; intros x u Hd Hu Hin; simpl; [done|].
  apply NoDup_cons in Hd as [Hj Hd]. simpl in Hj.
  destruct (machine_process (env j) (mu_machine v) _) as [c r] eqn:Ep.
  set (x1 := set_upstreams _ x).
  destruct (decide (j = id)) as [->|Hne].
  - assert (v = u) as -> by (apply Hin; by left).
    specialize (IH x1 (set_machine c u) Hd). destruct (tick_links now env links x1) as [x' rs].
    rewrite (bool_decide_false (id ∈ map fst links)) in IH by done. rewrite bool_decide_true by (by left).
    destruct IH as [Hx Hr]; [by simpl; rewrite lookup_insert_eq| |].
    { intros w Hw. exfalso. apply Hj, list_elem_of_In. by apply (in_map fst) in Hw. }
    rewrite Ep. simpl. rewrite Z.eqb_refl. split; [done|]. unfold results_of, omap in *. by rewrite Hr.
  - specialize (IH x1 u Hd). destruct (tick_links now env links x1) as [x' rs].
    assert (forall w, In (id, w) links -> w = u) as Hin2 by (intros w Hw; apply Hin; by right).
    assert (cm_upstreams x1 !! id = Some u) as Hu1 by (simpl; by rewrite lookup_insert_ne).
    specialize (IH Hu1 Hin2). simpl. replace (j =? id) with false by lia.
    destruct (decide (id ∈ map fst links)) as [Hi|Hi].
    + rewrite bool_decide_true in IH by done. by rewrite bool_decide_true by (by right).
    + rewrite bool_decide_false in IH by done. by rewrite bool_decide_false by (rewrite elem_of_cons; naive_solver).
Qed.

Lemma tick_all_at now env x id u : cm_upstreams x !! id = Some u ->
  let p := machine_process (env id) (mu_machine u) (mkCascadeInput now CeTick) in
  cm_upstreams (tick_all now env x).1 !! id = Some (set_machine p.1 u) /\ results_of id (tick_all now env x).2 = [p.2].
Proof.
  intros Hu. pose proof (tick_links_at now env (links_iter (cm_upstreams x)) x id u (links_iter_nodup _) Hu) as Ht.
  unfold tick_all. destruct (tick_links _ _ _ _) as [x' rs]. rewrite bool_decide_true in Ht.
  - apply Ht. intros v Hv%links_iter_elem. congruence.
  - apply list_elem_of_In, in_map_iff. exists (id, u). split; [done|]. by apply links_iter_elem.
Qed.

(** One operation, as the link sees it. *)
Lemma mstep_at x o id u : cm_upstreams x !! id = Some u -> leaves id o ->
  let '(c, rs) := serve (mu_machine u) (addressed id o) in
  cm_upstreams (mstep x o).1 !! id = Some (set_machine c u) /\ results_of id (mstep x o).2 = rs.
Proof.
  intros Hu Hl. assert (set_machine (mu_machine u) u = u) as Eu by (by destruct u).
  destruct o as [link|link|j|j input env|now env|resource j|resource j]; simpl in *.
  - rewrite Eu. split; [|done]. unfold add_upstream. repeat case_match; simplify_eq/=; auto. by rewrite lookup_insert_ne.
  - rewrite Eu. split; [|done]. unfold enroll_downstream. by repeat case_match; simplify_eq/=.
  - rewrite Eu. by rewrite lookup_delete_ne.
  - unfold manager_process. destruct (Z.eqb_spec j id) as [->|Hne].
    + rewrite Hu. simpl. unfold serve_one, machine_process. simpl.
      destruct (cascade_process _ _ _) as [c r]. simpl. rewrite lookup_insert_eq. split; [done|].
      by destruct r; simpl; rewrite Z.eqb_refl.
    + simpl. rewrite Eu. destruct (cm_upstreams x !! j); [|done].
      destruct (machine_process _ _ _) as [c r]. simpl. rewrite lookup_insert_ne by done. split; [done|].
      destruct r; simpl; by replace (j =? id) with false by lia.
  - destruct (tick_all_at now env x id u Hu) as [Hx Hr]. unfold serve_one. simpl.
    unfold machine_process in *. destruct (cascade_process _ _ _) as [c r]. done.
  - rewrite Eu. split; [|done]. unfold acquire_control. by repeat case_match; simplify_eq/=.
  - rewrite Eu. split; [|done]. unfold release_control. by repeat case_match; simplify_eq/=.
Qed.

(** C15: Links of a cascade manager do not interfere: over any operations on all links, the
    machine of a link that stays in place and the results it gave are those of a machine on
    its own, fed with the inputs addressed to it and the common ticks. *)
Theorem links_isolated x ops x' told id u :
  manage x ops = (x', told) -> cm_upstreams x !! id = Some u -> Forall (leaves id) ops ->
  let '(c, rs) := serve (mu_machine u) (concat (map (addressed id) ops)) in
  cm_upstreams x' !! id = Some (set_machine c u) /\ results_of id told = rs.
Proof.
  revert x told u. induction ops as [|o ops IH]; intros x told u Hm Hu Hl; simpl in *.
  { injection Hm as <- <-. by destruct u. }
  apply Forall_cons in Hl as [Ho Hl]. pose proof (mstep_at x o id u Hu Ho) as Hs. rewrite serve_app.
  destruct (serve (mu_machine u) (addressed id o)) as [c1 r1]. destruct (mstep x o) as [x1 t1]. simpl in Hs. destruct Hs as [Hx1 Hr1].
  destruct (manage x1 ops) as [x2 t2] eqn:Em. injection Hm as <- <-. specialize (IH x1 t2 _ Em Hx1 Hl). simpl in IH.
  destruct (serve c1 _) as [c2 r2]. destruct IH as [Hx2 Hr2]. split; [done|]. by rewrite results_app, Hr1, Hr2.
Qed.

(** ** Identities and control *)

Record manager_ok (x : CascadeManager) : Prop := {
  mo_foreign id u : cm_upstreams x !! id = Some u -> mu_remote_identity u <> cm_local_identity x;
  mo_unique i j u v :
    cm_upstreams x !! i = Some u -> cm_upstreams x !! j = Some v -> mu_remote_identity u = mu_remote_identity v -> i = j;
  mo_below remote : is_Some (cm_downstreams x !! remote) -> remote <> cm_local_identity x;
  mo_owner resource id : cm_control_owner x !! resource = Some id -> is_Some (cm_upstreams x !! id)
}.

(** The upstreams of another manager, up to the state of their machines. *)
Definition same_links (m m' : gmap Uuid ManagedUpstream) : Prop :=
  forall id, match m !! id, m' !! id with
             | Some u, Some v => mu_remote_identity v = mu_remote_identity u
             | None, None => True
             | _, _ => False
             end.
Lemma same_links_refl m : same_links m m.
Proof. intros id. by destruct (m !! id). Qed.
Lemma same_links_trans a b c : same_links a b -> same_links b c -> same_links a c.
Proof. intros Hab Hbc id. specialize (Hab id). specialize (Hbc id). repeat case_match; try done. congruence. Qed.
Lemma same_links_put m id u c : m !! id = Some u -> same_links m (<[id := set_machine c u]> m).
Proof.
  intros Hu j. destruct (decide (j = id)) as [->|Hne]; [by rewrite Hu, lookup_insert_eq|].
  rewrite lookup_insert_ne by done. by destruct (m !! j).
Qed.
Lemma same_links_ok m x : same_links (cm_upstreams x) m -> manager_ok x -> manager_ok (set_upstreams m x).
Proof.
  intros Hs [Hf Hu Hb Ho].
  assert (forall id v, m !! id = Some v -> exists u, cm_upstreams x !! id = Some u /\ mu_remote_identity v = mu_remote_identity u) as Hback.
  { intros id v Hv. specialize (Hs id). rewrite Hv in Hs. destruct (cm_upstreams x !! id); [eauto|done]. }
  split; simpl; auto.
  - intros id v (u & Hu' & ->)%Hback. eauto.
  - intros i j u v (u' & Hu' & ->)%Hback (v' & Hv' & ->)%Hback. eauto.
  - intros r id [u Hu']%Ho. specialize (Hs id). rewrite Hu' in Hs. destruct (m !! id); [eauto|done].
Qed.

Lemma tick_links_same now env links x :
  NoDup (map fst links) -> (forall id v, In (id, v) links -> cm_upstreams x !! id = Some v) ->
  exists m, (tick_links now env links x).1 = set_upstreams m x /\ same_links (cm_upstreams x) m.
Proof.
  revert x. induction links as [|[j v] links IH]; intros x Hd Hin; simpl.
  { exists (cm_upstreams x). split; [by destruct x|apply same_links_refl]. }
  apply NoDup_cons in Hd as [Hj Hd]. destruct (machine_process _ _ _) as [c r].
  destruct (IH (set_upstreams (<[j := set_machine c v]> (cm_upstreams x)) x) Hd) as (m & Hm & Hs).
  { intros id w Hw. simpl. rewrite lookup_insert_ne; [apply Hin; by right|]. intros ->. apply Hj, list_elem_of_In. by apply (in_map fst) in Hw. }
  destruct (tick_links _ _ _ _) as [x' rs]. simpl in *. exists m. split; [done|].
  eapply same_links_trans; [|done]. apply same_links_put. apply Hin. by left.
Qed.

Lemma mstep_ok x o : manager_ok x -> manager_ok (mstep x o).1.
Proof.
  intros Hok. destruct o as [link|link|j|j input env|now env|resource j|resource j]; simpl.
  - unfold add_upstream, validate_distinct_identity. destruct (negb _); [done|]. destruct (String.eqb_spec (ip_remote (nl_identity (Link.config link))) (cm_local_identity x)) as [E|Hne]; [done|].
    cbn [result_bind]. destruct (existsb _ _) eqn:Hx; [done|]. destruct (let? _ := _ in _) as [c|e]; [|done].
    assert (forall i u, cm_upstreams x !! i = Some u -> mu_remote_identity u <> ip_remote (nl_identity (Link.config link))) as Hno.
    { intros i u Hu E. rewrite <-not_true_iff_false in Hx. apply Hx, existsb_exists. exists (i, u). split; [by apply links_iter_elem|]. simpl. rewrite E. apply String.eqb_refl. }
    destruct Hok as [Hf Hu Hb Ho]. split; simpl; auto.
    + intros id u [[<- <-]|[_ Hi]]%lookup_insert_Some; [done|eauto].
    + intros i j u v [[<- <-]|[_ Hi]]%lookup_insert_Some [[<- <-]|[_ Hj]]%lookup_insert_Some E; simpl in *; eauto;
        exfalso; eapply Hno; eauto.
    + intros r id Hr. apply lookup_insert_is_Some'. eauto.
  - unfold enroll_downstream, validate_distinct_identity. destruct (negb _); [done|].
    destruct (String.eqb_spec (ip_remote (nl_identity (Link.config link))) (cm_local_identity x)) as [E|Hne]; [done|].
    case_bool_decide; [done|]. destruct Hok as [Hf Hu Hb Ho]. split; simpl; auto.
    intros r [<-|[_ Hr]]%lookup_insert_is_Some; auto.
  - destruct Hok as [Hf Hu Hb Ho]. split; simpl; auto.
    + intros id u [_ Hi]%lookup_delete_Some. eauto.
    + intros i k u v [_ Hi]%lookup_delete_Some [_ Hk]%lookup_delete_Some. eauto.
    + intros r id [Hr Hne]%map_lookup_filter_Some. apply lookup_delete_is_Some. split; [by intros ->|eauto].
  - unfold manager_process. destruct (cm_upstreams x !! j) as [u|] eqn:Hu; [|done].
    destruct (machine_process _ _ _) as [c r]. simpl. apply same_links_ok; [|done]. by apply same_links_put.
  - destruct (tick_links_same now env (links_iter (cm_upstreams x)) x) as (m & Hm & Hs).
    { apply links_iter_nodup. } { intros id v. apply links_iter_elem. }
    unfold tick_all. rewrite Hm. by apply same_links_ok.
  - unfold acquire_control. case_bool_decide as Hj; [|done]. simpl. destruct (cm_control_owner x !! resource); [done|].
    destruct Hok as [Hf Hu Hb Ho]. split; simpl; auto. intros r id [[<- <-]|[_ Hr]]%lookup_insert_Some; eauto.
  - unfold release_control. case_bool_decide; [|done]. destruct Hok as [Hf Hu Hb Ho]. split; simpl; auto.
    intros r id [_ Hr]%lookup_delete_Some. eauto.
Qed.
Lemma manage_ok x ops x' told : manager_ok x -> manage x ops = (x', told) -> manager_ok x'.
Proof.
  revert x told. induction ops as [|o ops IH]; intros x told Hok; simpl; [by intros [= <- <-]|].
  pose proof (mstep_ok x o Hok) as Hok1. destruct (mstep x o) as [x1 t1]. destruct (manage x1 ops) as [x2 t2] eqn:E.
  intros [= <- <-]. by eapply IH.
Qed.

(** An operation that does not give up the control of a resource by a link. *)
Definition holds_on (resource : string) (id : Uuid) (o : mop) : Prop :=
  match o with
  | MRelease r j => r <> resource \/ j <> id
  | MRemove j => j <> id
  | _ => True
  end.
Lemma mstep_holds x o resource id :
  cm_control_owner x !! resource = Some id -> holds_on resource id o -> cm_control_owner (mstep x o).1 !! resource = Some id.
Proof.
  intros Ho Hk. destruct o as [link|link|j|j input env|now env|r j|r j]; simpl in *.
  - unfold add_upstream. by repeat case_match; simplify_eq/=.
  - unfold enroll_downstream. by repeat case_match; simplify_eq/=.
  - apply map_lookup_filter_Some. split; [done|]. simpl. congruence.
  - unfold manager_process. by repeat case_match; simplify_eq/=.
  - destruct (tick_links_same now env (links_iter (cm_upstreams x)) x) as (m & Hm & _).
    { apply links_iter_nodup. } { intros k v. apply links_iter_elem. }
    unfold tick_all. by rewrite Hm.
  - unfold acquire_control. destruct (negb _); [done|]. destruct (cm_control_owner x !! r) eqn:Er; [done|]. simpl.
    rewrite lookup_insert_ne; [done|]. intros ->. by pose proof (eq_trans (eq_sym Ho) Er).
  - unfold release_control. case_bool_decide as Hr; [|done]. simpl. rewrite lookup_delete_ne; [done|]. intros ->.
    destruct Hk as [?|?]; [done|congruence].
Qed.
Lemma manage_holds x ops x' told resource id :
  cm_control_owner x !! resource = Some id -> Forall (holds_on resource id) ops -> manage x ops = (x', told) ->
  cm_control_owner x' !! resource = Some id.
Proof.
  revert x told. induction ops as [|o ops IH]; intros x told Ho Hk; simpl; [by intros [= <- <-]|].
  apply Forall_cons in Hk as [Hk1 Hk]. pose proof (mstep_holds x o resource id Ho Hk1) as Ho1.
  destruct (mstep x o) as [x1 t1]. destruct (manage x1 ops) as [x2 t2] eqn:E. intros [= <- <-]. by eapply IH.
Qed.

Lemma identity_found x id u : manager_ok x -> cm_upstreams x !! id = Some u -> validate_platform_identity (mu_remote_identity u) x = Ok id.
Proof.
  intros Hok Hu. unfold validate_platform_identity. destruct (List.find _ _) as [[j v]|] eqn:Hf.
  - apply List.find_some in Hf as [Hin E]. apply links_iter_elem in Hin. apply String.eqb_eq in E. f_equal. by eapply mo_unique.
  - exfalso. eapply List.find_none in Hf; [|by apply links_iter_elem]. simpl in Hf. by rewrite String.eqb_refl in Hf.
Qed.

(** C16: The control of a resource belongs to one link: its owner is an upstream in place with a
    foreign identity that resolves to it, acquires again without effect, every other link is
    refused, and no operations but its own release or its removal take the control away. *)
Theorem control_exclusive local ops x told resource id :
  manage (manager_new local) ops = (x, told) -> cm_control_owner x !! resource = Some id ->
  (exists u, cm_upstreams x !! id = Some u /\ mu_remote_identity u <> local
             /\ validate_platform_identity (mu_remote_identity u) x = Ok id)
  /\ acquire_control resource id x = (x, Ok tt)
  /\ (forall j, j <> id -> exists e, acquire_control resource j x = (x, Err e))
  /\ (forall more x' told', Forall (holds_on resource id) more -> manage x more = (x', told') ->
        cm_control_owner x' !! resource = Some id).
Proof.
  intros Hm Ho. assert (manager_ok x) as Hok. { eapply manage_ok; [|done]. split; simpl; try done. intros r [? Hr]; done. }
  assert (cm_local_identity x = local) as Hloc.
  { assert (forall ops y z t, manage y ops = (z, t) -> cm_local_identity z = cm_local_identity y) as Hl; [|by apply Hl in Hm].
    clear. induction ops as [|o ops IH]; intros y z t; simpl; [by intros [= <- <-]|].
    destruct (mstep y o) as [y1 t1] eqn:E1. destruct (manage y1 ops) as [y2 t2] eqn:E2. intros [= <- <-]. apply IH in E2. rewrite E2.
    change y1 with ((y1, t1).1). rewrite <-E1. clear. destruct o; simpl; unfold add_upstream, enroll_downstream, manager_process,
      acquire_control, release_control; try (by repeat case_match; simplify_eq/=).
    destruct (tick_links_same now env (links_iter (cm_upstreams y)) y) as (m & Hm & _).
    { apply links_iter_nodup. } { intros k v. apply links_iter_elem. }
    unfold tick_all. by rewrite Hm. }
  destruct (mo_owner _ Hok _ _ Ho) as [u Hu]. split; [exists u; split; [done|]; split; [by rewrite <-Hloc; eapply mo_foreign|by apply identity_found]|].
  unfold acquire_control. split; [|split].
  - rewrite bool_decide_true by eauto. simpl. by rewrite Ho, Z.eqb_refl.
  - intros j Hj. destruct (negb _); [eauto|]. rewrite Ho. replace (id =? j) with false by lia. eauto.
  - intros more x' told' Hk. by eapply manage_holds.
Qed.

Lemma on_path y path : existsb (fun hop => (hop =? y)%string) path = false <-> y ∉ path.
Proof.
  rewrite <-not_true_iff_false, existsb_exists. split.
  - intros Hn Hin. apply Hn. exists y. split; [by apply list_elem_of_In|apply String.eqb_refl].
  - intros Hn (hop & Hin%list_elem_of_In & He%String.eqb_eq). by subst.
Qed.
Lemma detect_loop_false path y : (length path < MAX_CASCADE_HOPS)%nat -> detect_loop path y = false <-> y ∉ path.
Proof. intros Hl. unfold detect_loop. rewrite (proj2 (Nat.leb_gt _ _)) by done. apply on_path. Qed.
(** What the route of a bridge has to satisfy. *)
Definition acyclic (acl : PlatformAcl) (remote local : string) (path : list string) : Prop :=
  acl_allow_media acl = true /\ (length path < MAX_CASCADE_HOPS)%nat /\ is_denied_platform acl remote = false
  /\ (remote ∉ path) /\ (local ∉ path).
Lemma authorize_exact id path x link :
  cm_upstreams x !! id = Some link ->
  authorize_bridge id path x = Ok tt <-> acyclic (mu_acl link) (mu_remote_identity link) (cm_local_identity x) path.
Proof.
  intros Hu. unfold authorize_bridge, acyclic. rewrite Hu. destruct (acl_allow_media _); cbn [negb]; [|naive_solver].
  destruct (Nat.leb_spec MAX_CASCADE_HOPS (length path)); [split; [done|intros (_ & ? & _); lia]|].
  destruct (is_denied_platform _ _); [naive_solver|]. rewrite <-!detect_loop_false by done.
  destruct (detect_loop path (mu_remote_identity link)), (detect_loop path (cm_local_identity x)); naive_solver.
Qed.

(** C17: A bridge to an added link is authorized exactly when the access list of the
    link allows media and does not deny the remote platform, the path is shorter than
    eight hops, and neither the remote platform nor the platform of the manager is on
    it; then the extended path has at most eight hops, does not contain the local
    platform, and repeats no platform if the path did not. For a link whose local
    identity is that of the manager this is the loop rule of the link aggregate. *)
Theorem bridge_enforces_loop_rule link x x' path :
  add_upstream link x = (x', Ok tt) ->
  let l := Link.config link in
  let id := nl_platform_link_id l in
  let remote := ip_remote (nl_identity l) in
  let local := cm_local_identity x in
  (authorize_bridge id path x' = Ok tt <->
     acl_allow_media (nl_acl l) = true /\ (length path < MAX_CASCADE_HOPS)%nat /\ is_denied_platform (nl_acl l) remote = false
     /\ (remote ∉ path) /\ (local ∉ path))
  /\ (authorize_bridge id path x' = Ok tt ->
      (local ∉ path ++ [remote]) /\ (length (path ++ [remote]) <= MAX_CASCADE_HOPS)%nat /\ (NoDup path -> NoDup (path ++ [remote])))
  /\ (ip_local (nl_identity l) = local ->
      authorize_bridge id path x' = Ok tt <-> acl_allow_media (nl_acl l) = true /\ Link.would_loop path link = false).
Proof.
  intros Ha l id remote local. unfold add_upstream, validate_distinct_identity in Ha. destruct (negb _); [done|]. fold l remote in Ha.
  destruct (String.eqb_spec remote (cm_local_identity x)) as [E|Hne]; [done|]. cbn [result_bind] in Ha.
  destruct (existsb _ _); [done|]. destruct (let? _ := _ in _) as [c|e]; [|done]. injection Ha as <-. fold id.
  set (x' := set_upstreams _ _). assert (cm_upstreams x' !! id = Some (mkUpstream remote (nl_acl l) c)) as Hu by apply lookup_insert_eq.
  pose proof (authorize_exact id path x' _ Hu) as He. unfold acyclic in He. simpl in He. fold local in He.
  split; [exact He|]. split.
  - intros (_ & Hlen & _ & Hr & Hl)%He. split; [|split].
    + rewrite elem_of_app, list_elem_of_singleton. intros [?|?]; done.
    + rewrite length_app. simpl. lia.
    + intros Hd. apply NoDup_app. split; [done|]. split; [|apply NoDup_singleton]. by intros y Hy ->%list_elem_of_singleton.
  - intros Hloc. rewrite He. unfold Link.would_loop. fold l remote. rewrite Hloc.
    destruct (Nat.leb_spec MAX_CASCADE_HOPS (length path)); [split; [intros (_ & ? & _); lia|naive_solver]|].
    destruct (is_denied_platform _ _); [naive_solver|].
    assert (existsb (fun hop => (hop =? remote)%string || (hop =? local)%string) path
          = existsb (fun hop => (hop =? remote)%string) path || existsb (fun hop => (hop =? local)%string) path) as ->.
    { clear. induction path as [|h path IH]; simpl; [done|]. rewrite IH. by repeat destruct (_ =? _)%string; simpl; rewrite ?orb_true_r. }
    rewrite orb_false_iff, !on_path. naive_solver.
Qed.
End runs.

(** ** Two upstreams *)

Module ManagerSample.
Import CascadeSample.
#[local] Existing Instance toy_xml.
#[local] Existing Instance toy_encoding.
#[local] Existing Instance toy_crypto.
#[local] Existing Instance toy_jitter.

Definition acl : PlatformAcl := mkAcl ["3402"] true true [].
Definition link (id : Uuid) (remote host : string) : Link.GbPlatformLink :=
  Link.mkLink
    (mkNewLink id 1 Upstream (mkIdentityPair platform remote) (mkEndpoint host 5060 StUdp "3402000000" "gb.example.org")
       (mkCredential "cred" false) acl backoff_default subscriptions_default 3600 None 0)
    0 DesiredRegistered Idle runtime_default None 0 0 0 0 0.
Definition env : link_env := mkEnv passwords catalog maps.
Definition first : Link.GbPlatformLink := link 1 "34010000002000000001" "8.8.8.8".
Definition second : Link.GbPlatformLink := link 2 "34010000002000000002" "9.9.9.9".
Definition added : CascadeManager := (manage (manager_new platform) [MAdd first; MAdd second]).1.
Definition ops : list mop :=
  [MProcess 1 (mkCascadeInput 1000 CeRegister) env; MProcess 2 (mkCascadeInput 1001 CeRegister) env;
   MAcquire "34020000001320000001" 1; MAcquire "34020000001320000001" 2; MTick 1100 (fun _ => env); MRemove 2].
Definition upstream_of (id : Uuid) : ManagedUpstream :=
  match cm_upstreams added !! id with Some u => u | None => mkUpstream "" acl machine end.

Lemma links_isolated_witness :
  let '(c, rs) := serve (mu_machine (upstream_of 1)) (concat (map (addressed 1) ops)) in
  cm_upstreams (manage added ops).1 !! 1 = Some (set_machine c (upstream_of 1)) /\ results_of 1 (manage added ops).2 = rs.
Proof.
  apply (links_isolated added ops (manage added ops).1 (manage added ops).2 1 (upstream_of 1)).
  - apply surjective_pairing.
  - vm_compute. reflexivity.
  - repeat constructor; discriminate.
Defined.

Definition run : list mop := [MAdd first; MAdd second] ++ ops.
Lemma control_exclusive_witness :
  exists e, acquire_control "34020000001320000001" 2 (manage (manager_new platform) run).1 = ((manage (manager_new platform) run).1, Err e).
Proof.
  apply (control_exclusive platform run (manage (manager_new platform) run).1 (manage (manager_new platform) run).2 "34020000001320000001" 1);
    [apply surjective_pairing|vm_compute; reflexivity|discriminate].
Defined.

Lemma bridge_enforces_loop_rule_witness :
  authorize_bridge 1 ["34020000002000000009"] added = Ok tt /\ authorize_bridge 1 ["34010000002000000001"] added = Err LoopDetected
  /\ NoDup (["34020000002000000009"] ++ ["34010000002000000001"]).
Proof.
  split; [vm_compute; reflexivity|]. split; [vm_compute; reflexivity|].
  destruct (bridge_enforces_loop_rule first (manager_new platform) (add_upstream first (manager_new platform)).1 ["34020000002000000009"]) as (_ & Hd & _);
    [vm_compute; reflexivity|].
  apply Hd; [vm_compute; reflexivity|apply NoDup_singleton].
Defined.
End ManagerSample.
