(* ===== verification/GbAccessProps.v ===== *)
(** * Theorems on the access machine

    What a call of the machine can do to the registration table and which events
    go with it ([effect]), and from there: routes come from authenticated
    registrations only, messages report registered routes, the events tell the
    table, a tick ends what is overdue. *)

From S2P Require Import Prelude RustStr SipEndpoint SipUri SipMessage Domain Compatibility DigestCodec.
From S2P Require Import DigestReplay DigestLimiter Digest DigestProps GbXml GbMessages GbAccess.

Open Scope string_scope.
Open Scope list_scope.
Open Scope Z_scope.

(** ** Effects *)

Definition event_of (o : AccessOutput) : option Gb28181Event := match o with EmitEvent e => Some e | _ => None end.
Definition events_of (r : outputs) : list Gb28181Event := match r with Ok l => omap event_of l | Err _ => [] end.

Lemma events_emitted l : omap event_of (map EmitEvent l) = l.
Proof. induction l as [|e l IH]; [done|]. simpl. by f_equal. Qed.

(** The device and source of an event that a business message of a device makes. *)
Definition business_of (e : Gb28181Event) : option (DeviceId * SocketAddr) :=
  match e with
  | KeepaliveReceived _ d s _ | CatalogReceived _ d s _ _ _ _ | DeviceInfoReceived _ d s _ _ _ _ _
  | DeviceStatusReceived _ d s _ _ _ _ _ _ | AlarmReceived _ d s _ _ _ _ _ _
  | MobilePositionReceived _ d s _ _ _ _ _ _ _ | RecordInfoReceived _ d s _ _ _ _ _
  | DeviceControlResponseReceived _ d s _ _ | MediaStatusReceived _ d s _ _ _ => Some (d, s)
  | _ => None
  end.

Section effects.
Context `{Crypto} `{QuickXml} `{EncodingRs}.

(** The device proved that it knows its password, from a source that is not blocked. *)
Definition authenticated (cp : CredentialProvider) (a : Gb28181Access) (source : SocketAddr) (now : Z)
    (line : RequestLine) (headers : SipHeaders) (d : DeviceId) : Prop :=
  exists auth digest password cache,
    get headers HAuthorization = Some auth
    /\ is_blocked (ga_auth_rate_limiter a) (sa_ip source) now = false
    /\ parse_authorization auth = Ok digest
    /\ cp d = Ok (Some password)
    /\ validate (ga_digest_context a) digest REGISTER (uri_encode (rl_uri line)) password (ga_replay_cache a) now
       = (cache, Ok tt).

(** What the policy admits: proof of the password, or under [ChallengeOptional]
    also a request without credentials and a device without a password. *)
Definition admitted (cp : CredentialProvider) (a : Gb28181Access) (source : SocketAddr) (now : Z)
    (line : RequestLine) (headers : SipHeaders) (d : DeviceId) : Prop :=
  authenticated cp a source now line headers d
  \/ (cf_auth_policy (ga_config a) = ChallengeOptional
      /\ (get headers HAuthorization = None \/ cp d = Ok None)).

(** The [Contact] header of the request and the URI in it. *)
Definition contact_of (headers : SipHeaders) (contact : SipUri) : Prop :=
  exists value expires, get headers HContact = Some value /\ parse_address_with_expires value = Ok (contact, expires).
Inductive effect (cp : CredentialProvider) (a : Gb28181Access) (i : AccessInput) :
    RegistrationTable -> list Gb28181Event -> Prop :=
| EffNone : effect cp a i (ga_registrations a) []
| EffUnregister line headers body d :
    in_message i = Request line headers body -> rl_method line = REGISTER ->
    device_id_from_request line headers = Ok d ->
    admitted cp a (in_source i) (in_now i) line headers d ->
    effect cp a i (table_remove (ga_registrations a) d)
      [DeviceUnregistered (cf_domain_id (ga_config a)) d (in_source i)]
| EffRegister line headers body d contact expires t r :
    contact_of headers contact ->
    in_message i = Request line headers body -> rl_method line = REGISTER ->
    device_id_from_request line headers = Ok d ->
    admitted cp a (in_source i) (in_now i) line headers d ->
    expires <> 0 -> expires <= cf_max_expires_seconds (ga_config a) ->
    upsert (ga_registrations a) d
      (from_registration_with_profile (in_source i) (head (get_all headers HVia)) (Some contact)
         (Some (cf_compatibility (ga_config a))))
      (uri_encode contact) expires (in_now i) (get headers HUserAgent) = (t, Ok r) ->
    effect cp a i t
      [DeviceRegistered (cf_domain_id (ga_config a)) d (in_source i) (uri_encode contact) expires
         (get headers HUserAgent) (rg_sequence r)]
| EffTouch line headers body d r e :
    in_message i = Request line headers body -> rl_method line = MESSAGE ->
    (letopt from := get headers HFrom in device_from_address from) = Some d ->
    rt_table (ga_registrations a) !! d = Some r ->
    business_of e = Some (d, registration_source r) ->
    effect cp a i
      (with_table (ga_registrations a) (<[d := set_seen r (in_now i) false]> (rt_table (ga_registrations a))))
      ((if rg_offline r
        then [DevicePresenceChanged (cf_domain_id (ga_config a)) d (registration_source r) PresenceOnline] else [])
       ++ [e]).

(** A call that answers and does nothing else. *)
Definition quiet (a : Gb28181Access) (p : Gb28181Access * outputs) : Prop :=
  ga_registrations p.1 = ga_registrations a /\ ga_config p.1 = ga_config a /\ events_of p.2 = [].

Lemma reply_quiet a build : quiet a (reply a build).
Proof. done. Qed.
Lemma quiet_from a a1 p :
  ga_registrations a1 = ga_registrations a -> ga_config a1 = ga_config a -> quiet a1 p -> quiet a p.
Proof. intros Ht Hc (?&?&?). repeat split; congruence. Qed.

Lemma auth_failure_quiet a request now stale : quiet a (authentication_failure_response a request now stale).
Proof.
  unfold authentication_failure_response.
  destruct (if stale then _ else _) as [d [ch|e]]; done.
Qed.
Lemma auth_failed_quiet a request now stale source : quiet a (auth_failed a request now stale source).
Proof. eapply quiet_from; [| |apply auth_failure_quiet]; done. Qed.

(** What [authenticate] leaves alone, and what it means that it lets a request pass. *)
Definition auth_result (cp : CredentialProvider) (a : Gb28181Access) (source : SocketAddr) (now : Z)
    (line : RequestLine) (headers : SipHeaders) (d : DeviceId) (p : Gb28181Access * AuthVerdict) : Prop :=
  ga_registrations p.1 = ga_registrations a /\ ga_config p.1 = ga_config a
  /\ match p.2 with
     | Answer r => events_of r = []
     | Proceed true _ => authenticated cp a source now line headers d
     | Proceed false false => cf_auth_policy (ga_config a) = ChallengeOptional ->
                              get headers HAuthorization = None \/ cp d = Ok None
     | Proceed false true => True
     end.
Lemma answer_result cp a source now line headers d p :
  quiet a p -> auth_result cp a source now line headers d (answer p).
Proof. done. Qed.

Lemma auth_required_result (cp : CredentialProvider) a message line headers d source now auth :
  get headers HAuthorization = Some auth -> is_blocked (ga_auth_rate_limiter a) (sa_ip source) now = false ->
  auth_result cp a source now line headers d (authenticate_required a message line d source now auth).
Proof.
  intros Hauth Hb. unfold authenticate_required.
  destruct (parse_authorization auth) as [digest|e] eqn:Hp;
    [|destruct (is_bad_header e); apply answer_result; [apply reply_quiet | apply auth_failed_quiet]].
  destruct (password_for d) as [[password|]|e] eqn:Hpw;
    [|apply answer_result, auth_failed_quiet|apply answer_result, auth_failure_quiet].
  destruct (validate _ _ _ _ _ _ _) as [cache r] eqn:Hv.
  destruct r as [[]|e]; [split_and!; simpl; [done..|]; repeat eexists; done|].
  assert (forall stale, quiet a (auth_failed (set_replay a cache) message now stale source)) as Hf.
  { intros stale. eapply quiet_from; [| |apply auth_failed_quiet]; done. }
  destruct e; try (apply answer_result, Hf).
  apply answer_result. eapply quiet_from; [| |apply auth_failure_quiet]; done.
Qed.

Lemma auth_optional_result (cp : CredentialProvider) a message line headers d source now auth :
  get headers HAuthorization = Some auth -> is_blocked (ga_auth_rate_limiter a) (sa_ip source) now = false ->
  auth_result cp a source now line headers d (authenticate_optional a message line d source now auth).
Proof.
  intros Hauth Hb. unfold authenticate_optional.
  destruct (password_for d) as [[password|]|e] eqn:Hpw;
    [|split_and!; simpl; [done..|]; intros _; right; exact Hpw|apply answer_result, auth_failure_quiet].
  destruct (parse_authorization auth) as [digest|e] eqn:Hp;
    [|destruct (is_bad_header e); apply answer_result; [apply reply_quiet | apply auth_failed_quiet]].
  destruct (validate _ _ _ _ _ _ _) as [cache r] eqn:Hv.
  destruct r as [[]|e]; [split_and!; simpl; [done..|]; repeat eexists; done|].
  destruct e; try done.
  apply answer_result. eapply quiet_from; [| |apply auth_failure_quiet]; done.
Qed.

Lemma authenticate_result (cp : CredentialProvider) a message line headers d source now :
  auth_result cp a source now line headers d (authenticate a message line headers d source now).
Proof.
  unfold authenticate. destruct (get headers HAuthorization) as [auth|] eqn:Hauth.
  2:{ split_and!; [done..|]. simpl. auto. }
  destruct (is_blocked _ _ _) eqn:Hb; [apply answer_result, reply_quiet|].
  destruct (cf_auth_policy (ga_config a)); [by apply auth_required_result | by apply auth_optional_result].
Qed.

Lemma resolve_expires_le contact header config : resolve_expires contact header config <= cf_max_expires_seconds config.
Proof. unfold resolve_expires. lia. Qed.

Definition has_effect (cp : CredentialProvider) (a : Gb28181Access) (i : AccessInput) (p : Gb28181Access * outputs) : Prop :=
  ga_config p.1 = ga_config a /\ effect cp a i (ga_registrations p.1) (events_of p.2).
Lemma quiet_effect cp a i p : quiet a p -> has_effect cp a i p.
Proof. intros (Ht & Hc & He). split; [done|]. rewrite Ht, He. constructor. Qed.

Lemma register_accepted_effect cp a a1 i line headers body d contact expires :
  contact_of headers contact ->
  in_message i = Request line headers body -> rl_method line = REGISTER ->
  device_id_from_request line headers = Ok d ->
  admitted cp a (in_source i) (in_now i) line headers d ->
  expires <= cf_max_expires_seconds (ga_config a) ->
  ga_registrations a1 = ga_registrations a -> ga_config a1 = ga_config a ->
  has_effect cp a i (register_accepted a1 (in_message i) contact expires d (in_source i) (get headers HUserAgent) (in_now i)).
Proof.
  intros Hct Hm Hmeth Hd Hadm Hexp Ht Hc. unfold register_accepted. rewrite Ht, Hc, Hm. cbn [msg_headers].
  destruct (Z.eqb_spec expires 0).
  { subst. split; [done|]. by eapply EffUnregister. }
  destruct (upsert _ _ _ _ _ _ _) as [t [r|e]] eqn:Hu.
  - split; [done|]. by eapply EffRegister.
  - unfold upsert in Hu. repeat case_match; simplify_eq. apply quiet_effect. repeat split; done.
Qed.

Lemma process_register_effect (cp : CredentialProvider) a i line headers body :
  in_message i = Request line headers body -> rl_method line = REGISTER ->
  has_effect cp a i (process_register a (in_source i) (in_now i) (in_message i) line headers).
Proof.
  intros Hm Hmeth. unfold process_register.
  destruct (device_id_from_request line headers) as [d|e] eqn:Hd;
    [|destruct e; apply quiet_effect; try apply reply_quiet; done].
  destruct (parse_contact_header headers) as [[contact cexp]|e] eqn:Hcon;
    [|destruct e; apply quiet_effect; try apply reply_quiet; done].
  assert (contact_of headers contact) as Hct.
  { revert Hcon. unfold parse_contact_header, contact_of. destruct (get headers HContact) as [value|]; simpl; [|done].
    intros Hcon. by exists value, cexp. }
  destruct (parse_expires_header headers) as [hexp|e] eqn:Hex;
    [|destruct e; apply quiet_effect; try apply reply_quiet; done].
  pose proof (authenticate_result cp a (in_message i) line headers d (in_source i) (in_now i)) as (Ht & Hc & Hv).
  destruct (authenticate _ _ _ _ _ _ _) as [a1 [ok att|r]]; cbn [fst snd] in *.
  2:{ apply quiet_effect. done. }
  destruct ok; cbn [orb andb].
  - eapply register_accepted_effect; try done; [by left | apply resolve_expires_le].
  - destruct (bool_decide_reflect (cf_auth_policy (ga_config a1) = ChallengeOptional)) as [Hpol|Hpol];
      cbn [andb]; [destruct att; cbn [negb]|].
    + apply quiet_effect. eapply quiet_from; [done..|apply auth_failure_quiet].
    + eapply register_accepted_effect; try done; [|apply resolve_expires_le].
      rewrite Hc in Hpol. right. auto.
    + apply quiet_effect. eapply quiet_from; [done..|apply auth_failure_quiet].
Qed.

Lemma message_event_business config root cmd d route e :
  message_event config root cmd d route = Ok e -> business_of e = Some (d, route).
Proof.
  unfold message_event. intros He.
  repeat match type of He with
  | (if ?b then _ else _) = _ => destruct b; [inv_ok He; injection He as <-; done|]
  end. discriminate.
Qed.

Lemma device_id_new_id x d : device_id_new x = Some d -> d = x.
Proof. unfold device_id_new. repeat case_match; congruence. Qed.

Lemma read_message_ok a source headers body d e :
  read_message a source headers body = Ok (d, e) ->
  (letopt from := get headers HFrom in device_from_address from) = Some d
  /\ business_of e = Some (d, default source (table_send_target (ga_registrations a) d)).
Proof.
  unfold read_message. intros Hr. inv_ok Hr.
  destruct (get headers HFrom) as [from|] eqn:Hfrom; [|done]. simplify_eq/=.
  destruct (device_from_address _) as [fd|] eqn:Hfd; [|done]. simplify_eq/=.
  destruct (device_id_new _) as [d'|] eqn:Hd; [|done]. simplify_eq/=.
  apply negb_false_iff, String.eqb_eq in Hb0. apply device_id_new_id in Hd. subst.
  split; [done|]. by eapply message_event_business.
Qed.

Lemma process_message_body_effect cp a i line headers body p :
  in_message i = Request line headers body -> rl_method line = MESSAGE ->
  process_message_body a (in_source i) (in_now i) (in_message i) headers body = p ->
  has_effect cp a i p /\ forall e, p.2 = Err e -> p.1 = a.
Proof.
  intros Hm Hmeth <-. unfold process_message_body.
  destruct (read_message _ _ _ _) as [[d e]|e] eqn:Hr; [|split; [by apply quiet_effect|done]].
  apply read_message_ok in Hr as [Hfrom Hbus].
  unfold touch. destruct (rt_table (ga_registrations a) !! d) as [r|] eqn:Hl; [|split; [by apply quiet_effect|done]].
  split; [|done]. split; [done|]. cbn [fst snd was_offline].
  assert (table_send_target (ga_registrations a) d = Some (registration_source r)) as Hst.
  { unfold table_send_target. by rewrite Hl. }
  rewrite Hst in Hbus.
  assert (table_send_target (with_table (ga_registrations a)
            (<[d := set_seen r (in_now i) false]> (rt_table (ga_registrations a)))) d = Some (registration_source r)) as Hst'.
  { unfold table_send_target. simpl. by rewrite lookup_insert_eq. }
  rewrite Hst'. pose proof (EffTouch cp a i line headers body d r e Hm Hmeth Hfrom Hl Hbus) as He.
  destruct (rg_offline r); exact He.
Qed.

Lemma process_message_effect cp a i line headers body :
  in_message i = Request line headers body -> rl_method line = MESSAGE ->
  has_effect cp a i (process_message a (in_source i) (in_now i) (in_message i) headers body).
Proof.
  intros Hm Hmeth. unfold process_message.
  destruct (process_message_body _ _ _ _ _ _) as [a1 r] eqn:Hp.
  destruct (process_message_body_effect cp a i line headers body _ Hm Hmeth Hp) as [He Hsame]; simpl in Hsame.
  destruct r as [out|e]; [done|]. rewrite (Hsame e eq_refl) in *.
  destruct e; apply quiet_effect; try apply reply_quiet; done.
Qed.

(** A call of [process] has one of the effects. *)
Lemma process_effect (cp : CredentialProvider) a i : has_effect cp a i (process a i).
Proof.
  unfold process. destruct (in_message i) as [line headers body|] eqn:Hm; [|by apply quiet_effect].
  rewrite <-Hm.
  destruct (bool_decide_reflect (rl_method line = REGISTER)); [by eapply process_register_effect|].
  destruct (bool_decide_reflect (rl_method line = MESSAGE)); [by eapply process_message_effect|].
  apply quiet_effect, reply_quiet.
Qed.
End effects.

(** ** Ticks *)

(** What a tick makes of one registration. *)
Definition overdue (now : Z) (r : Registration) : bool := rg_expires r <=? sat_sub now (rg_registered_at r).
Definition silent (config : Gb28181DomainConfig) (now : Z) (r : Registration) : bool :=
  negb (rg_offline r) && (cf_heartbeat_timeout_seconds config <=? sat_sub now (rg_last_seen r)).
Definition tick_registration (config : Gb28181DomainConfig) (now : Z) (r : Registration) : option Registration :=
  if overdue now r then None
  else Some (if silent config now r then set_seen r (rg_last_seen r) true else r).
Definition tick_event (config : Gb28181DomainConfig) (now : Z) (entry : DeviceId * Registration) : list Gb28181Event :=
  let '(d, r) := entry in
  if overdue now r then [DeviceUnregistered (cf_domain_id config) d (registration_source r)]
  else if silent config now r
  then [DevicePresenceChanged (cf_domain_id config) d (registration_source r) PresenceOffline] else [].

Definition tick_mark (config : Gb28181DomainConfig) (now : Z) (d : DeviceId) (r : Registration)
    (m : gmap DeviceId Registration) : gmap DeviceId Registration :=
  if negb (overdue now r) && silent config now r then <[d := set_seen r (rg_last_seen r) true]> m else m.
Lemma tick_one_eq config now m expired out d r :
  tick_one config now (m, expired, out) (d, r)
  = (tick_mark config now d r m, expired ++ (if overdue now r then [d] else []),
     out ++ map EmitEvent (tick_event config now (d, r))).
Proof.
  unfold tick_one, tick_mark, tick_event, overdue, silent.
  destruct (rg_expires r <=? _); cbn [negb andb]; [done|].
  destruct (rg_offline r); cbn [negb andb]; [by rewrite !app_nil_r|].
  destruct (_ <=? _); by rewrite ?app_nil_r.
Qed.

Lemma tick_fold config now l m expired out :
  NoDup l.*1 ->
  let '(m', expired', out') := fold_left (tick_one config now) l (m, expired, out) in
  (forall d r, (d, r) ∈ l -> m' !! d = tick_mark config now d r m !! d)
  /\ (forall d, d ∉ l.*1 -> m' !! d = m !! d)
  /\ expired' = expired ++ (filter (fun e => overdue now e.2 = true) l).*1
  /\ out' = out ++ map EmitEvent (flat_map (tick_event config now) l).
Proof.
  revert m expired out. induction l as [|[d r] l IH]; intros m expired out Hnd.
  { simpl. split_and!; [|done|by rewrite app_nil_r..]. intros d r Hin. by apply elem_of_nil in Hin. }
  rewrite fmap_cons in Hnd. apply NoDup_cons in Hnd as [Hd Hnd]. simpl in Hd.
  cbn [fold_left]. rewrite tick_one_eq.
  specialize (IH (tick_mark config now d r m) (expired ++ (if overdue now r then [d] else []))
                (out ++ map EmitEvent (tick_event config now (d, r))) Hnd).
  destruct (fold_left _ _ _) as [[m' e'] o']. destruct IH as (Hin & Hout & He & Ho).
  assert (forall d' r', d' <> d -> tick_mark config now d' r' (tick_mark config now d r m) !! d'
                                   = tick_mark config now d' r' m !! d') as Hmark.
  { intros d' r' Hne. unfold tick_mark. repeat case_match; by simplify_map_eq. }
  split_and!.
  - intros d' r' [[= -> ->]|Hl]%elem_of_cons; [by apply Hout|]. rewrite (Hin _ _ Hl). apply Hmark.
    intros ->. apply Hd. by apply (list_elem_of_fmap_2 fst l (d, r')).
  - intros d' Hn. rewrite fmap_cons in Hn. apply not_elem_of_cons in Hn as [Hne Hn]. rewrite (Hout d' Hn).
    unfold tick_mark. destruct (negb _ && _); [by rewrite lookup_insert_ne | done].
  - rewrite He, <-app_assoc. f_equal. rewrite filter_cons. simpl. destruct (overdue now r); by repeat case_decide.
  - rewrite Ho, <-app_assoc. cbn [flat_map]. by rewrite map_app.
Qed.

Lemma lookup_delete_fold (l : list DeviceId) (m : gmap DeviceId Registration) d :
  fold_left (fun m d => delete d m) l m !! d = if bool_decide (d ∈ l) then None else m !! d.
Proof.
  revert m. induction l as [|x l IH]; intros m; simpl; [done|].
  rewrite IH. destruct (decide (d = x)) as [->|Hne].
  - rewrite (bool_decide_true (x ∈ x :: l)) by left. case_bool_decide; [done|]. by rewrite lookup_delete_eq.
  - rewrite lookup_delete_ne by done.
    rewrite (bool_decide_ext (d ∈ x :: l) (d ∈ l)); [done|]. set_solver.
Qed.

(** A tick keeps, marks or removes each registration by itself, and tells it. *)
Lemma access_tick_spec order a now :
  let '(a', r) := tick order a now in
  ga_config a' = ga_config a
  /\ rt_max_registrations (ga_registrations a') = rt_max_registrations (ga_registrations a)
  /\ rt_next_sequence (ga_registrations a') = rt_next_sequence (ga_registrations a)
  /\ (forall d, rt_table (ga_registrations a') !! d
                = rt_table (ga_registrations a) !! d ≫= tick_registration (ga_config a) now)
  /\ r = Ok (map EmitEvent (flat_map (tick_event (ga_config a) now) (ho_iter order (rt_table (ga_registrations a))))).
Proof.
  unfold tick. set (m := rt_table (ga_registrations a)).
  pose proof (tick_fold (ga_config a) now (ho_iter order m) m [] [] (NoDup_ho_iter_keys order m)) as Hf.
  destruct (fold_left _ _ _) as [[m' e'] o']. destruct Hf as (Hin & Hout & -> & ->).
  split_and!; [done..| |done]. intros d. simpl. rewrite lookup_delete_fold.
  destruct (m !! d) as [r|] eqn:Hl; simpl.
  - pose proof (proj2 (elem_of_ho_iter order m d r) Hl) as Hel. rewrite (Hin _ _ Hel).
    unfold tick_mark, tick_registration. case_bool_decide as He.
    + apply list_elem_of_fmap in He as ([d' r'] & [= ->] & Hel'). apply list_elem_of_filter in Hel' as [Hov Hel'].
      apply elem_of_ho_iter in Hel'. simplify_eq. simpl in Hov. by rewrite Hov.
    + destruct (overdue now r) eqn:Hov.
      { destruct He. apply list_elem_of_fmap. exists (d, r). split; [done|]. by apply list_elem_of_filter. }
      simpl. destruct (silent _ _ _); [by rewrite lookup_insert_eq | done].
  - case_bool_decide; [done|]. rewrite Hout; [done|]. intros He. apply list_elem_of_fmap in He as ([d' r'] & -> & Hel).
    apply elem_of_ho_iter in Hel. simpl in *. congruence.
Qed.

(** ** Runs *)

Inductive access_call :=
| Receive (cp : CredentialProvider) (i : AccessInput)
| Send (c : Gb28181Command)
| TickAt (order : hash_order DeviceId Registration) (now : Z).

(** What the events tell: the sequence of the registration of a device and
    whether the device is online. *)
Definition apply_event (v : gmap DeviceId (Z * bool)) (e : Gb28181Event) : gmap DeviceId (Z * bool) :=
  match e with
  | DeviceRegistered _ d _ _ _ _ sequence => <[d := (sequence, true)]> v
  | DeviceUnregistered _ d _ => delete d v
  | DevicePresenceChanged _ d _ p => alter (fun s => (s.1, bool_decide (p = PresenceOnline))) d v
  | _ => v
  end.
Definition replay (v : gmap DeviceId (Z * bool)) (l : list Gb28181Event) : gmap DeviceId (Z * bool) :=
  fold_left apply_event l v.
Definition presence_of (r : Registration) : Z * bool := (rg_sequence r, negb (rg_offline r)).
Definition view (t : RegistrationTable) : gmap DeviceId (Z * bool) := presence_of <$> rt_table t.

Lemma apply_business v e x : business_of e = Some x -> apply_event v e = v.
Proof. by destruct e. Qed.

Lemma replay_tick config now l v :
  NoDup l.*1 ->
  (forall d r, (d, r) ∈ l -> replay v (flat_map (tick_event config now) l) !! d
     = if overdue now r then None
       else if silent config now r then (fun s => (s.1, false)) <$> v !! d else v !! d)
  /\ (forall d, d ∉ l.*1 -> replay v (flat_map (tick_event config now) l) !! d = v !! d).
Proof.
  revert v. induction l as [|[d r] l IH]; intros v Hnd.
  { split; [|done]. intros d r Hin. by apply elem_of_nil in Hin. }
  rewrite fmap_cons in Hnd. apply NoDup_cons in Hnd as [Hd Hnd]. simpl in Hd.
  cbn [flat_map]. unfold replay. rewrite fold_left_app.
  set (v1 := fold_left apply_event (tick_event config now (d, r)) v).
  destruct (IH v1 Hnd) as [Hin Hout]. unfold replay in *.
  assert (forall d', d' <> d -> v1 !! d' = v !! d') as Hother.
  { intros d' Hne. unfold v1, tick_event. destruct (overdue now r); [|destruct (silent config now r)]; simpl; [|
    |done]; [by rewrite lookup_delete_ne | by rewrite lookup_alter_ne]. }
  split.
  - intros d' r' [[= -> ->]|Hl]%elem_of_cons.
    + rewrite (Hout d Hd). unfold v1, tick_event.
      destruct (overdue now r); [by simpl; rewrite lookup_delete_eq|].
      destruct (silent config now r); [|done]. simpl. by rewrite lookup_alter_eq.
    + rewrite (Hin _ _ Hl), Hother; [done|]. intros ->. apply Hd. by apply (list_elem_of_fmap_2 fst l (d, r')).
  - intros d' Hn. rewrite fmap_cons in Hn. apply not_elem_of_cons in Hn as [Hne Hn]. by rewrite (Hout d' Hn), Hother.
Qed.

Section runs.
Context `{Crypto} `{QuickXml} `{EncodingRs} `{Rfc3339} `{ShowF64} (order : hash_order string string).

Definition access_step (a : Gb28181Access) (c : access_call) : Gb28181Access * outputs :=
  match c with
  | Receive cp i => @process _ _ _ cp a i
  | Send c => process_command order a c
  | TickAt o now => tick o a now
  end.
Fixpoint access_run (a : Gb28181Access) (calls : list access_call) : Gb28181Access * list outputs :=
  match calls with
  | [] => (a, [])
  | c :: calls => let '(a, r) := access_step a c in let '(a, rs) := access_run a calls in (a, r :: rs)
  end.
Lemma access_run_app a c1 c2 :
  access_run a (c1 ++ c2) = let '(a1, r1) := access_run a c1 in let '(a2, r2) := access_run a1 c2 in (a2, r1 ++ r2).
Proof.
  revert a. induction c1 as [|c c1 IH]; intros a; simpl; [by destruct (access_run a c2)|].
  destruct (access_step a c) as [a1 r]. rewrite IH. destruct (access_run a1 c1) as [a2 r1].
  by destruct (access_run a2 c2).
Qed.

Lemma process_command_quiet a c : quiet a (process_command order a c).
Proof.
  unfold process_command. destruct (device_send_target _ _); [|done].
  unfold next_sn, next_tag, quiet. cbn -[command_body build_message_request].
  destruct (command_body order _ _ _) as [body|]; [|done].
  by destruct (build_message_request _ _ _ _).
Qed.

(** The events of a call turn the view of the table before it into that after it. *)
Lemma upsert_view t d route contact expires now ua t' r :
  upsert t d route contact expires now ua = (t', Ok r) ->
  view t' = <[d := (rg_sequence r, true)]> (view t)
  /\ rt_table t' !! d = Some r /\ rg_offline r = false.
Proof.
  unfold upsert. intros Hu. repeat case_match; simplify_eq; unfold view; simpl;
    rewrite fmap_insert, lookup_insert_eq; done.
Qed.

Lemma effect_view cp a i t evs : effect cp a i t evs -> replay (view (ga_registrations a)) evs = view t.
Proof.
  destruct 1 as [|line headers body d|line headers body d contact expires t r Hct ? ? ? ? ? ? Hu|line headers body d r e ? ? ? Hl Hb].
  - done.
  - simpl. unfold view, table_remove. simpl. by rewrite fmap_delete.
  - simpl. by destruct (upsert_view _ _ _ _ _ _ _ _ _ Hu) as [-> _].
  - assert (replay (view (ga_registrations a))
              (if rg_offline r then [DevicePresenceChanged (cf_domain_id (ga_config a)) d (registration_source r) PresenceOnline] else [])
            = <[d := (rg_sequence r, true)]> (view (ga_registrations a))) as Hpre.
    { apply map_eq. intros d'. unfold view. destruct (rg_offline r) eqn:Hoff; simpl;
        (destruct (decide (d' = d)) as [->|Hne];
         [rewrite lookup_insert_eq | rewrite lookup_insert_ne by done]).
      - by rewrite lookup_alter_eq, lookup_fmap, Hl.
      - by rewrite lookup_alter_ne.
      - rewrite lookup_fmap, Hl. simpl. unfold presence_of. by rewrite Hoff.
      - done. }
    unfold replay in *. rewrite fold_left_app, Hpre. simpl. rewrite (apply_business _ _ _ Hb).
    unfold view, with_table. simpl. by rewrite fmap_insert.
Qed.

Lemma tick_view o a now :
  replay (view (ga_registrations a)) (events_of (tick o a now).2) = view (ga_registrations (tick o a now).1).
Proof.
  pose proof (access_tick_spec o a now) as Hs. destruct (tick o a now) as [a' r].
  destruct Hs as (Hc & Hm & Hn & Htab & ->). cbn [fst snd events_of].
  set (m := rt_table (ga_registrations a)) in *.
  rewrite events_emitted.
  destruct (replay_tick (ga_config a) now (ho_iter o m) (view (ga_registrations a)) (NoDup_ho_iter_keys o m)) as [Hin Hout].
  apply map_eq. intros d. unfold view at 2. rewrite lookup_fmap, Htab.
  destruct (m !! d) as [r|] eqn:Hl.
  - rewrite (Hin d r) by (by apply elem_of_ho_iter). unfold view. fold m. rewrite lookup_fmap, Hl. simpl.
    unfold tick_registration. destruct (overdue now r); [done|]. simpl. by destruct (silent _ _ _).
  - rewrite Hout; [unfold view; fold m; by rewrite lookup_fmap, Hl|].
    intros He. apply list_elem_of_fmap in He as ([d' r'] & -> & Hel). apply elem_of_ho_iter in Hel. simpl in *. congruence.
Qed.

Lemma step_view a c :
  replay (view (ga_registrations a)) (events_of (access_step a c).2) = view (ga_registrations (access_step a c).1).
Proof.
  destruct c as [cp i|c|o now]; simpl.
  - destruct (process_effect cp a i) as [_ He]. by eapply effect_view.
  - destruct (process_command_quiet a c) as (Ht & _ & He). by rewrite Ht, He.
  - apply tick_view.
Qed.

Lemma step_config a c : ga_config (access_step a c).1 = ga_config a.
Proof.
  destruct c as [cp i|c|o now]; simpl.
  - by destruct (process_effect cp a i).
  - by destruct (process_command_quiet a c) as (_ & ? & _).
  - pose proof (access_tick_spec o a now) as Hs. destruct (tick o a now). by destruct Hs.
Qed.
Lemma run_config a calls : ga_config (access_run a calls).1 = ga_config a.
Proof.
  revert a. induction calls as [|c calls IH]; intros a; simpl; [done|].
  pose proof (step_config a c) as Hc. destruct (access_step a c) as [a1 r].
  pose proof (IH a1) as Hr. destruct (access_run a1 calls). simpl in *. congruence.
Qed.
Lemma access_new_config config a : access_new config = Ok a ->
  ga_config a = config /\ ga_registrations a = table_new (cf_max_registrations config).
Proof. unfold access_new. intros Hn. inv_ok Hn. by simplify_eq. Qed.

(** *** Routes *)

(** A registration of [d] by call [c] on machine [a] that gives [d] this route. *)
Definition routed_by (a : Gb28181Access) (c : access_call) (d : DeviceId) (route : EndpointRoute) : Prop :=
  exists cp i line headers body contact,
    c = Receive cp i /\ in_message i = Request line headers body /\ rl_method line = REGISTER
    /\ device_id_from_request line headers = Ok d
    /\ admitted cp a (in_source i) (in_now i) line headers d
    /\ contact_of headers contact
    /\ route = from_registration_with_profile (in_source i) (head (get_all headers HVia)) (Some contact)
                 (Some (cf_compatibility (ga_config a))).

Lemma effect_route cp a i t evs d route :
  effect cp a i t evs -> table_route t d = Some route ->
  table_route (ga_registrations a) d = Some route \/ routed_by a (Receive cp i) d route.
Proof.
  destruct 1 as [|line headers body d0|line headers body d0 contact expires t r Hct ? ? ? ? ? ? Hu|line headers body d0 r e ? ? ? Hl Hb];
    unfold table_route; simpl.
  - by left.
  - destruct (decide (d = d0)) as [->|Hne]; [by rewrite lookup_delete_eq|]. rewrite lookup_delete_ne by done. by left.
  - assert (rt_table t = <[d0 := r]> (rt_table (ga_registrations a)) /\ rg_route r
            = from_registration_with_profile (in_source i) (head (get_all headers HVia)) (Some contact)
                (Some (cf_compatibility (ga_config a)))) as [-> Hr].
    { unfold upsert in Hu. repeat case_match; simplify_eq; done. }
    destruct (decide (d = d0)) as [->|Hne]; [|rewrite lookup_insert_ne by done; by left].
    rewrite lookup_insert_eq. simpl. intros [= <-]. right. unfold routed_by. naive_solver.
  - destruct (decide (d = d0)) as [->|Hne]; [|rewrite lookup_insert_ne by done; by left].
    rewrite lookup_insert_eq, Hl. by left.
Qed.

Lemma step_route a c d route :
  table_route (ga_registrations (access_step a c).1) d = Some route ->
  table_route (ga_registrations a) d = Some route \/ routed_by a c d route.
Proof.
  destruct c as [cp i|c|o now]; simpl.
  - destruct (process_effect cp a i) as [_ He]. by eapply effect_route.
  - destruct (process_command_quiet a c) as (-> & _ & _). by left.
  - pose proof (access_tick_spec o a now) as Hs. destruct (tick o a now) as [a' r]. destruct Hs as (_ & _ & _ & Htab & _).
    unfold table_route. simpl. rewrite Htab. intros Hr. left.
    destruct (rt_table (ga_registrations a) !! d) as [rg|]; [|done]. simpl in *. unfold tick_registration in Hr.
    destruct (overdue now rg); [done|]. by destruct (silent _ _ _).
Qed.

Lemma run_route a calls d route :
  table_route (ga_registrations (access_run a calls).1) d = Some route ->
  table_route (ga_registrations a) d = Some route
  \/ exists pre c post, calls = pre ++ c :: post /\ routed_by (access_run a pre).1 c d route.
Proof.
  induction calls as [|c calls IH] using rev_ind; [by left|].
  rewrite access_run_app. destruct (access_run a calls) as [a1 r1] eqn:Hrun. simpl.
  pose proof (step_route a1 c d route) as Hs. destruct (access_step a1 c) as [a2 r2]. simpl in *. intros Hr.
  destruct (Hs Hr) as [Hold|Hby].
  - destruct (IH Hold) as [?|(pre & c' & post & -> & Hby)]; [by left|]. right. exists pre, c', (post ++ [c]).
    by rewrite <-app_assoc.
  - right. exists calls, c, []. by rewrite Hrun.
Qed.

(** C8: Under the policy Required a device is reachable only where an authenticated
    REGISTER put it: after any sequence of messages, commands and ticks the route of a
    registered device is the one built from the source address, the top Via and the
    Contact header of a REGISTER in that sequence, of that device, that proved its
    password, from a source that was not blocked. *)
Theorem routes_authenticated config a0 calls d route
    (Hnew : access_new config = Ok a0) (Hpol : cf_auth_policy config = Required)
    (Hroute : table_route (ga_registrations (access_run a0 calls).1) d = Some route) :
  exists pre post cp i line headers body contact,
    calls = pre ++ Receive cp i :: post
    /\ in_message i = Request line headers body /\ rl_method line = REGISTER
    /\ device_id_from_request line headers = Ok d
    /\ authenticated cp (access_run a0 pre).1 (in_source i) (in_now i) line headers d
    /\ contact_of headers contact
    /\ route = from_registration_with_profile (in_source i) (head (get_all headers HVia)) (Some contact)
                 (Some (cf_compatibility config)).
Proof.
  destruct (access_new_config _ _ Hnew) as [Hc Ht].
  destruct (run_route _ _ _ _ Hroute) as [Hr|(pre & c & post & -> & cp & i & line & headers & body & contact & -> & Hm & Hmeth & Hd & Hadm & Hct & ->)].
  { unfold table_route in Hr. by rewrite Ht in Hr. }
  exists pre, post, cp, i, line, headers, body, contact. rewrite run_config, Hc in *.
  destruct Hadm as [Hauth|[Hpol' _]]; [done|]. rewrite run_config, Hc in Hpol'. congruence.
Qed.

(** *** Bounds and sequences *)

Record table_ok (n : Z) (t : RegistrationTable) : Prop := {
  to_next : 0 <= rt_next_sequence t <= n;
  to_sequence : forall d r, rt_table t !! d = Some r -> rg_sequence r <= rt_next_sequence t;
  to_distinct : forall d d' r r', rt_table t !! d = Some r -> rt_table t !! d' = Some r' ->
    rg_sequence r = rg_sequence r' -> d = d';
  to_size : Z.of_nat (size (rt_table t)) <= Z.max 0 (rt_max_registrations t)
}.

(** A table that keeps or drops registrations, under their sequences. *)
Lemma table_ok_sub n t t' :
  table_ok n t -> rt_next_sequence t' = rt_next_sequence t -> rt_max_registrations t' = rt_max_registrations t ->
  (forall d r', rt_table t' !! d = Some r' -> exists r, rt_table t !! d = Some r /\ rg_sequence r' = rg_sequence r) ->
  table_ok n t'.
Proof.
  intros [Hn Hs Hd Hz] Hnx Hmx Hsub. split.
  - by rewrite Hnx.
  - intros d r' Hl. destruct (Hsub d r' Hl) as (r & Hr & ->). rewrite Hnx. by eapply Hs.
  - intros d d' r1 r2 H1' H2' Heq. destruct (Hsub _ _ H1') as (s1 & Hs1 & He1), (Hsub _ _ H2') as (s2 & Hs2 & He2).
    apply (Hd d d' s1 s2); [done..|congruence].
  - rewrite Hmx. enough (size (rt_table t') <= size (rt_table t))%nat by lia.
    rewrite <-!size_dom. apply subseteq_size. intros d. rewrite !elem_of_dom. intros [r' Hl].
    destruct (Hsub d r' Hl) as (r & -> & _). done.
Qed.

Lemma table_ok_weaken n n' t : table_ok n t -> n <= n' -> table_ok n' t.
Proof. intros [Hn ???] Hle. split; [lia|done..]. Qed.

Lemma upsert_ok n t d route contact expires now ua t' r :
  table_ok n t -> n < U64_MAX -> upsert t d route contact expires now ua = (t', Ok r) -> table_ok (n + 1) t'.
Proof.
  intros [Hn Hs Hd Hz] Hlt. unfold upsert. set (seq := previous_sequence t d).
  destruct (_ && _) eqn:Hfull; [done|]. apply andb_false_iff in Hfull.
  assert (forall sequence next, seq = Some sequence /\ next = rt_next_sequence t
            \/ sequence = rt_next_sequence t + 1 /\ next = rt_next_sequence t + 1 ->
          forall r0, rg_sequence r0 = sequence ->
          table_ok (n + 1) (mkRegistrations (<[d := r0]> (rt_table t)) (rt_max_registrations t) next)) as Hgo.
  { intros sequence next Hcase r0 Hr0.
    assert (forall d' r', d' <> d -> rt_table t !! d' = Some r' -> rg_sequence r' <> sequence) as Hfresh.
    { intros d' r' Hne Hl Heq. destruct Hcase as [[Hseq _]|[-> _]]; [|pose proof (Hs _ _ Hl); lia].
      unfold seq, previous_sequence in Hseq. destruct (rt_table t !! d) as [r1|] eqn:Hld; [|done].
      destruct (rg_offline r1); [done|]. injection Hseq as Hseq. apply Hne. eapply Hd; [done..|congruence]. }
    split; simpl.
    - destruct Hcase as [[_ ->]|[_ ->]]; lia.
    - intros d' r'. destruct (decide (d' = d)) as [->|Hne].
      + rewrite lookup_insert_eq. intros [= <-]. rewrite Hr0. destruct Hcase as [[Hseq ->]|[-> ->]]; [|lia].
        unfold seq, previous_sequence in Hseq. destruct (rt_table t !! d) as [r1|] eqn:Hld; [|done].
        destruct (rg_offline r1); [done|]. injection Hseq as <-. by eapply Hs.
      + rewrite lookup_insert_ne by done. intros Hl. pose proof (Hs _ _ Hl). destruct Hcase as [[_ ->]|[_ ->]]; lia.
    - intros d1 d2 r1 r2. rewrite !lookup_insert_Some. naive_solver.
    - destruct (rt_table t !! d) as [r1|] eqn:Hld.
      + rewrite map_size_insert_Some by (by eexists). done.
      + rewrite map_size_insert_None by done. destruct Hfull as [Hf|Hf]; [by rewrite bool_decide_true in Hf|].
        apply Z.leb_gt in Hf. lia. }
  destruct seq as [sq|] eqn:Hseq; intros [= <- <-].
  - by apply (Hgo sq); [left|].
  - rewrite wrap64_id by (unfold is_u64; lia). by apply (Hgo (rt_next_sequence t + 1)); [right|].
Qed.
End runs.
