(* ===== verification/GbAccessClaims.v ===== *)
(** * The contract of the access machine

    The events tell the registrations, a tick ends what is overdue, a message
    reports the registered route and moves nothing, every request is answered once,
    commands go to the registered route; a sample with a device that registers. *)

From S2P Require Import Prelude RustStr SipEndpoint SipUri SipMessage Domain Compatibility DigestCodec.
From S2P Require Import DigestReplay DigestLimiter Digest DigestProps GbXml GbMessages GbAccess GbAccessProps.

Open Scope string_scope.
Open Scope list_scope.
Open Scope Z_scope.

(** ** Errors of a message

    A message that is not accepted is answered: reading it fails only with the
    errors [process_message] has a response for. *)

Definition errs {A} (P : AccessError -> Prop) (r : result A AccessError) : Prop :=
  match r with Ok _ => True | Err e => P e end.
Definition answerable (e : AccessError) : Prop :=
  match e with
  | InvalidDeviceId | InvalidXml _ | UnsupportedCmdType _ | UnsupportedContentType _ | NotRegistered => True
  | _ => False
  end.

Lemma errs_bind {A B} P (m : result A AccessError) (k : A -> result B AccessError) :
  errs P m -> (forall a, errs P (k a)) -> errs P (let? a := m in k a).
Proof. destruct m; simpl; auto. Qed.
Lemma errs_ok_or {A} (P : AccessError -> Prop) (o : option A) e : P e -> errs P (ok_or o e).
Proof. by destruct o. Qed.
Lemma errs_map_err {A E} (P : AccessError -> Prop) (f : E -> AccessError) (r : result A E) :
  (forall e, P (f e)) -> errs P (map_err f r).
Proof. destruct r; simpl; auto. Qed.
Lemma errs_require e name : errs answerable (require_child_text e name).
Proof. unfold require_child_text. by repeat case_match. Qed.
Lemma errs_expect root cmd : errs answerable (expect_cmd root cmd).
Proof. unfold expect_cmd. apply errs_bind; [by apply errs_ok_or|]. intros. by case_match. Qed.
Lemma errs_u32 value : errs answerable (parse_u32 value).
Proof. by apply errs_ok_or. Qed.
Create HintDb errs_db.
#[export] Hint Resolve errs_require errs_expect errs_u32 errs_ok_or errs_map_err : errs_db.
#[export] Hint Extern 1 (errs _ (Ok _)) => exact I : errs_db.
#[export] Hint Extern 1 (errs answerable (Err _)) => exact I : errs_db.
#[export] Hint Extern 1 (answerable _) => exact I : errs_db.
(** Go through a computation check by check. *)
Ltac errs_steps :=
  repeat match goal with
  | |- errs _ (if ?b then _ else _) => destruct b
  | |- errs _ (match ?m with Ok _ => _ | Err _ => _ end) => apply errs_bind; [|intros ?]
  end; auto with errs_db.

Lemma errs_message_event config root cmd d route : errs answerable (message_event config root cmd d route).
Proof.
  unfold message_event, extract_keepalive, extract_catalog_with_profile, extract_device_info, extract_device_status,
    extract_alarm, extract_mobile_position, extract_record_info, Control.extract_device_control_response,
    extract_media_status.
  errs_steps.
Qed.

Section messages.
Context `{QuickXml} `{EncodingRs}.

Lemma errs_attributes limits attrs count total m : errs answerable (read_attributes limits attrs count total m).
Proof.
  revert count total m. induction attrs as [|attr attrs IH]; intros count total m; simpl; [done|].
  unfold decode_name, validate_len. errs_steps.
Qed.
Lemma errs_start limits name attrs total : errs answerable (start_element limits name attrs total).
Proof.
  unfold start_element, decode_name, validate_len. errs_steps; [apply errs_attributes|]. by destruct a1.
Qed.
Lemma errs_close limits e stack t : errs answerable (close_element limits e stack t).
Proof. unfold close_element. by repeat case_match. Qed.
Lemma errs_event limits ev t : errs answerable (on_event limits ev t).
Proof.
  destruct ev; simpl; auto with errs_db; unfold decode_name.
  - errs_steps; [apply errs_start|]. by destruct a.
  - errs_steps; [apply errs_start|]. destruct a. apply errs_close.
  - destruct (ts_stack t); errs_steps.
  - errs_steps. destruct (ts_stack t); errs_steps. apply errs_close.
Qed.
Lemma errs_loop limits evs count t : errs answerable (read_loop limits evs count t).
Proof.
  revert count t. induction evs as [|ev evs IH]; intros count t; simpl; errs_steps. apply errs_event.
Qed.
Lemma errs_parse body limits profile : errs answerable (parse_xml_with_profile body limits profile).
Proof.
  unfold parse_xml_with_profile, build_tree, decode_body. errs_steps.
  - by repeat case_match.
  - apply errs_loop.
Qed.

Lemma errs_read a source headers body : errs answerable (read_message a source headers body).
Proof.
  unfold read_message, resolve_vendor_content_type. errs_steps; [apply errs_parse | apply errs_message_event].
Qed.
End messages.

(** ** Answers *)

Definition response_of (o : AccessOutput) : option SipMessage := match o with SendResponse m => Some m | _ => None end.
(** The response belongs to the request: the same [Via] hops, [From], [Call-ID] and [CSeq]. *)
Definition answers (request response : SipMessage) : Prop :=
  is_request response = false
  /\ get_all (msg_headers response) HVia = get_all (msg_headers request) HVia
  /\ Forall (fun n => get (msg_headers response) n = get (msg_headers request) n) [HFrom; HCallId; HCSeq].
Definition answered (request : SipMessage) (p : Gb28181Access * outputs) : Prop :=
  exists out response, p.2 = Ok out /\ omap response_of out = [response] /\ answers request response.

(** A header that is none of the copied ones. *)
Definition plain (nv : HeaderName * string) : bool :=
  forallb (fun n => negb (header_eqb nv.1 n)) [HVia; HFrom; HCallId; HCSeq].

Lemma named_all n l (Hall : forallb (fun nv => header_eqb nv.1 n) l = true) : filter (named n) l = l.
Proof.
  apply filter_Forall. induction l as [|nv l IH]; [constructor|]. simpl in Hall.
  apply andb_true_iff in Hall as [Hh Ht]. constructor; [exact Hh | by apply IH].
Qed.
Lemma named_none n l (Hno : forallb (fun nv => negb (header_eqb nv.1 n)) l = true) : filter (named n) l = [].
Proof.
  apply filter_Forall_not. induction l as [|nv l IH]; [constructor|]. simpl in Hno.
  apply andb_true_iff in Hno as [Hh Ht]. constructor; [|by apply IH].
  unfold named. apply negb_true_iff in Hh. by rewrite Hh.
Qed.
Lemma named_via n l :
  filter (named n) (map (pair HVia) l) = if header_eqb HVia n then map (pair HVia) l else [].
Proof.
  destruct (header_eqb HVia n) eqn:Hn; [apply named_all | apply named_none];
    induction l as [|v l IH]; simpl; rewrite ?Hn; done.
Qed.
Lemma named_first n h m : filter (named n) (first_of h m) = if header_eqb m n then first_of h m else [].
Proof.
  unfold first_of. destruct (get h m); [|by destruct (header_eqb m n)].
  destruct (header_eqb m n) eqn:Hn; [apply named_all | apply named_none]; simpl; by rewrite Hn.
Qed.
Lemma snd_via (l : list string) : (snd <$> map (pair HVia) l) = l.
Proof. induction l as [|v l IH]; [done|]. simpl. by f_equal. Qed.
Lemma head_first h m : head (snd <$> first_of h m) = get h m.
Proof. unfold first_of. by destruct (get h m). Qed.

Lemma respond_answers request code reason tag own :
  forallb plain own = true -> answers request (respond request code reason tag own).
Proof.
  intros Hown. unfold respond, answers. cbn [is_request msg_headers].
  set (to := match get (msg_headers request) HTo with Some v => _ | None => _ end).
  assert (forall n, n ∈ [HVia; HFrom; HCallId; HCSeq] ->
            filter (named n) (to ++ own ++ [(HContentLength, "0")]) = []) as Hrest.
  { intros n Hn. rewrite !filter_app.
    rewrite (named_none n own), (named_none n to), (named_none n [(HContentLength, "0")]); [done|..].
    - repeat (apply elem_of_cons in Hn as [->|Hn]; [done|]). by apply elem_of_nil in Hn.
    - subst to. destruct (get (msg_headers request) HTo); [|done].
      repeat (apply elem_of_cons in Hn as [->|Hn]; [done|]). by apply elem_of_nil in Hn.
    - induction own as [|nv own IH]; [done|]. simpl in Hown |- *.
      apply andb_true_iff in Hown as [Hp Hown]. rewrite (IH Hown), andb_true_r.
      unfold plain in Hp. rewrite forallb_forall in Hp. apply Hp. by apply list_elem_of_In. }
  split; [done|]. unfold copy_common_headers. split.
  - rewrite get_all_spec, filter_app, Hrest by (by left).
    rewrite !filter_app, named_via, !named_first. simpl. rewrite !app_nil_r. apply snd_via.
  - repeat constructor; rewrite get_spec, filter_app, Hrest by (rewrite !elem_of_cons; auto);
      rewrite !filter_app, named_via, !named_first; simpl; rewrite ?app_nil_r; apply head_first.
Qed.

Lemma reply_answered a request build :
  (forall tag, answers request (build tag)) -> answered request (reply a build).
Proof. intros Hb. exists [SendResponse (build ("gb" +:+ show_uint (ga_tag_counter a)))]. eexists. done. Qed.

Section claims.
Context `{Crypto} `{QuickXml} `{EncodingRs} `{Rfc3339} `{ShowF64} (order : hash_order string string).

Lemma effect_ok cp n a i t evs :
  table_ok n (ga_registrations a) -> n < U64_MAX -> effect cp a i t evs -> table_ok (n + 1) t.
Proof.
  intros Hok Hlt He.
  destruct He as [|line headers body d|line headers body d contact expires t r Hct ? ? ? ? ? ? Hu|line headers body d r e ? ? ? Hl Hb].
  - eapply table_ok_weaken; [done|lia].
  - eapply table_ok_weaken; [|apply Z.le_succ_diag_r]. eapply table_ok_sub; [done..|]. simpl.
    intros d' r'. rewrite lookup_delete_Some. naive_solver.
  - by eapply upsert_ok.
  - eapply table_ok_weaken; [|apply Z.le_succ_diag_r]. eapply table_ok_sub; [done..|]. simpl.
    intros d' r'. rewrite lookup_insert_Some. naive_solver.
Qed.

Lemma step_ok n a c :
  table_ok n (ga_registrations a) -> n < U64_MAX -> table_ok (n + 1) (ga_registrations (access_step order a c).1).
Proof.
  intros Hok Hlt. destruct c as [cp i|c|o now]; simpl.
  - destruct (process_effect cp a i) as [_ He]. by eapply effect_ok.
  - destruct (process_command_quiet order a c) as (-> & _ & _). eapply table_ok_weaken; [done|lia].
  - pose proof (access_tick_spec o a now) as Hs. destruct (tick o a now) as [a' r]. destruct Hs as (_ & Hm & Hn & Htab & _).
    eapply table_ok_weaken; [|apply Z.le_succ_diag_r]. eapply table_ok_sub; [done..|].
    intros d r'. simpl. rewrite Htab. unfold tick_registration.
    destruct (rt_table (ga_registrations a) !! d) as [rg|]; [|done]. simpl.
    destruct (overdue now rg); [done|]. intros [= <-]. exists rg. by destruct (silent _ _ _).
Qed.
Lemma run_ok n a calls :
  table_ok n (ga_registrations a) -> n + Z.of_nat (length calls) < U64_MAX ->
  table_ok (n + Z.of_nat (length calls)) (ga_registrations (access_run order a calls).1).
Proof.
  revert n a. induction calls as [|c calls IH]; intros n a Hok Hlt; simpl length in *.
  { eapply table_ok_weaken; [exact Hok|simpl; lia]. }
  cbn [access_run]. pose proof (step_ok n a c Hok ltac:(lia)) as Hs. destruct (access_step order a c) as [a1 r].
  cbn [fst] in Hs. specialize (IH _ _ Hs ltac:(lia)). destruct (access_run order a1 calls). cbn [fst] in *.
  eapply table_ok_weaken; [exact IH|lia].
Qed.
Lemma run_max a calls :
  rt_max_registrations (ga_registrations (access_run order a calls).1) = rt_max_registrations (ga_registrations a).
Proof.
  revert a. induction calls as [|c calls IH]; intros a; [done|]. cbn [access_run].
  assert (rt_max_registrations (ga_registrations (access_step order a c).1)
          = rt_max_registrations (ga_registrations a)) as Hs.
  { destruct c as [cp i|c|o now]; cbn [access_step].
    - destruct (process_effect cp a i) as [_ He]. destruct He; try done.
      match goal with Hu : upsert _ _ _ _ _ _ _ = _ |- _ => unfold upsert in Hu; repeat case_match; by simplify_eq end.
    - by destruct (process_command_quiet order a c) as (-> & _ & _).
    - pose proof (access_tick_spec o a now) as Hs. destruct (tick o a now). by destruct Hs as (_ & ? & _). }
  destruct (access_step order a c) as [a1 r]. specialize (IH a1). destruct (access_run order a1 calls).
  simpl in *. congruence.
Qed.
Lemma run_view a calls :
  replay (view (ga_registrations a)) (concat (map events_of (access_run order a calls).2))
  = view (ga_registrations (access_run order a calls).1).
Proof.
  revert a. induction calls as [|c calls IH]; intros a; [done|]. cbn [access_run].
  pose proof (step_view order a c) as Hs. destruct (access_step order a c) as [a1 r]. specialize (IH a1).
  destruct (access_run order a1 calls) as [a2 rs]. simpl in *. unfold replay in *. by rewrite fold_left_app, Hs.
Qed.

(** C9: The events of the machine tell its registrations: after any
    sequence of messages, commands and ticks, whoever applies the registration,
    presence and expiry events in order to an empty map has exactly the registered
    devices with the sequence of their registration and whether they are online.
    The table stays within its capacity and no two devices share a sequence. *)
Theorem events_tell_registrations config a0 calls
    (Hnew : access_new config = Ok a0) (Hmax : 0 <= cf_max_registrations config)
    (Hlen : Z.of_nat (length calls) < U64_MAX) :
  let '(a, rs) := access_run order a0 calls in
  let t := ga_registrations a in
  replay ∅ (concat (map events_of rs)) = view t
  /\ Z.of_nat (size (rt_table t)) <= cf_max_registrations config
  /\ (forall d d' r r', rt_table t !! d = Some r -> rt_table t !! d' = Some r' ->
        rg_sequence r = rg_sequence r' -> d = d').
Proof.
  destruct (access_new_config _ _ Hnew) as [_ Ht].
  pose proof (run_view a0 calls) as Hv. pose proof (run_max a0 calls) as Hm.
  assert (table_ok 0 (ga_registrations a0)) as Hok.
  { rewrite Ht. split; simpl; [lia|done..|]. rewrite map_size_empty. lia. }
  pose proof (run_ok 0 a0 calls Hok Hlen) as [_ _ Hd Hz].
  destruct (access_run order a0 calls) as [a rs]. rewrite Ht in Hv, Hm. simpl in *.
  unfold view in Hv at 1. simpl in Hv. rewrite fmap_empty in Hv. rewrite Hm in Hz.
  split_and!; [done|lia|done].
Qed.

(** C22: A tick removes every registration past its expiry and no other, keeps the
    survivors as they were except that exactly those silent for the heartbeat timeout
    are marked offline, and tells each removal and each device that went offline by one
    event and nothing else, whatever the iteration order of the table. *)
Theorem tick_expires o a now a' r (Htick : tick o a now = (a', r)) :
  let m := rt_table (ga_registrations a) in
  let m' := rt_table (ga_registrations a') in
  let timeout := cf_heartbeat_timeout_seconds (ga_config a) in
  (forall d, m !! d = None -> m' !! d = None)
  /\ (forall d rg, m !! d = Some rg -> rg_expires rg <= sat_sub now (rg_registered_at rg) -> m' !! d = None)
  /\ (forall d rg, m !! d = Some rg -> sat_sub now (rg_registered_at rg) < rg_expires rg ->
        m' !! d = Some (set_seen rg (rg_last_seen rg) (rg_offline rg || (timeout <=? sat_sub now (rg_last_seen rg)))))
  /\ events_of r ≡ₚ flat_map (tick_event (ga_config a) now) (map_to_list m).
Proof.
  pose proof (access_tick_spec o a now) as Hs. rewrite Htick in Hs. destruct Hs as (_ & _ & _ & Htab & ->). simpl.
  split_and!.
  - intros d Hl. by rewrite Htab, Hl.
  - intros d rg Hl Hexp. rewrite Htab, Hl. simpl. unfold tick_registration, overdue. by rewrite (proj2 (Z.leb_le _ _) Hexp).
  - intros d rg Hl Hcur. rewrite Htab, Hl. simpl. unfold tick_registration, overdue, silent.
    rewrite (proj2 (Z.leb_gt _ _) Hcur). destruct rg as [? ? ? ? ? off ? ?]. simpl. by destruct off, (_ <=? _).
  - rewrite events_emitted. by apply Permutation_flat_map, ho_perm.
Qed.

(** What a message from a device keeps of its registration. *)
Definition same_session (r r' : Registration) : Prop :=
  rg_route r' = rg_route r /\ rg_contact r' = rg_contact r /\ rg_registered_at r' = rg_registered_at r
  /\ rg_expires r' = rg_expires r /\ rg_sequence r' = rg_sequence r /\ rg_user_agent r' = rg_user_agent r.

(** A request other than REGISTER moves nothing: the registered devices,
    their routes, expiries and sessions stay as they are, whatever its source.  An event
    it causes is about the device of its [From] header, which is registered, and
    carries the registered address, never the source of the packet. *)
Theorem messages_move_nothing (cp : CredentialProvider) a i line headers body a' r
    (Hm : in_message i = Request line headers body) (Hmeth : rl_method line <> REGISTER)
    (Hp : process a i = (a', r)) :
  (forall d, option_Forall2 same_session (rt_table (ga_registrations a) !! d) (rt_table (ga_registrations a') !! d))
  /\ (forall e, e ∈ events_of r ->
        exists d rg, (letopt from := get headers HFrom in device_from_address from) = Some d
          /\ rt_table (ga_registrations a) !! d = Some rg
          /\ (business_of e = Some (d, registration_source rg)
              \/ e = DevicePresenceChanged (cf_domain_id (ga_config a)) d (registration_source rg) PresenceOnline)).
Proof.
  pose proof (process_effect cp a i) as [_ He]. rewrite Hp in He. cbn [fst snd] in He.
  assert (forall o, option_Forall2 same_session o o) as Hrefl.
  { intros []; constructor. by repeat split. }
  remember (ga_registrations a') as t eqn:Ht. remember (events_of r) as evs eqn:Hev.
  destruct He as [|? ? ? ? Hm'|? ? ? ? ? ? ? ? ? Hm'|line' headers' body' d rg e Hm' _ Hfrom Hl Hb];
    try (rewrite Hm in Hm'; simplify_eq; done).
  - split; [intros d; apply Hrefl|]. intros e He. by apply elem_of_nil in He.
  - rewrite Hm in Hm'. simplify_eq. split.
    + intros d'. simpl. destruct (decide (d' = d)) as [->|Hne]; [|rewrite lookup_insert_ne by done; apply Hrefl].
      rewrite Hl, lookup_insert_eq. constructor. by repeat split.
    + intros e' Hin. exists d, rg. split; [done|]. split; [done|].
      apply elem_of_app in Hin as [Hin|Hin]; [|apply list_elem_of_singleton in Hin; subst; by left].
      destruct (rg_offline rg); [|by apply elem_of_nil in Hin].
      apply list_elem_of_singleton in Hin. by right.
Qed.

Context {L : CryptoLaws}.

Lemma auth_failure_answered a request now stale :
  answered request (authentication_failure_response a request now stale).
Proof.
  unfold authentication_failure_response, generate_stale_challenge, generate_challenge.
  destruct (generate_nonce_Ok (cx_secret (ga_digest_context a)) now (cx_nonce_counter (ga_digest_context a)))
    as (tag & _ & _ & Hg).
  rewrite Hg. destruct stale; simpl; apply reply_answered; intros; by apply respond_answers.
Qed.
Lemma auth_failed_answered a request now stale source : answered request (auth_failed a request now stale source).
Proof. apply auth_failure_answered. Qed.
Lemma bad_request_answered a request : answered request (bad_request_response a request).
Proof. apply reply_answered. intros. by apply respond_answers. Qed.
Hint Resolve auth_failure_answered auth_failed_answered bad_request_answered : core.

(** What [authenticate] answers is an answer. *)
Definition verdict_answered (request : SipMessage) (p : Gb28181Access * AuthVerdict) : Prop :=
  match p.2 with Proceed _ _ => True | Answer r => answered request (p.1, r) end.
Lemma answer_answered request p : answered request p -> verdict_answered request (answer p).
Proof. by destruct p. Qed.
Hint Resolve answer_answered : core.

Lemma authenticate_answered (cp : CredentialProvider) a request line headers d source now :
  verdict_answered request (authenticate a request line headers d source now).
Proof.
  unfold authenticate. destruct (get headers HAuthorization) as [auth|]; [|done].
  destruct (is_blocked _ _ _).
  { apply answer_answered, reply_answered. intros. by apply respond_answers. }
  destruct (cf_auth_policy _); unfold authenticate_required, authenticate_optional;
    repeat case_match; auto; done.
Qed.

Lemma errs_device line headers : errs (fun e => e = InvalidDeviceId) (device_id_from_request line headers).
Proof.
  unfold device_id_from_request. destruct (device_of_user _); [done|].
  destruct (letopt v := get headers HTo in device_from_address v); [done|]. by apply errs_ok_or.
Qed.
Lemma errs_expires headers : errs (fun e => e = InvalidExpires) (parse_expires_header headers).
Proof. unfold parse_expires_header. case_match; [|done]. apply errs_bind; [by apply errs_ok_or | done]. Qed.
Lemma errs_contact headers :
  errs (fun e => e = InvalidContact \/ e = InvalidExpires) (parse_contact_header headers).
Proof.
  unfold parse_contact_header, parse_address_with_expires. apply errs_bind; [by apply errs_ok_or; left|]. intros value.
  apply errs_bind.
  { destruct (find_char "<" (trim value)); [|by destruct (split_once ";" (trim value)) as [[]|]].
    repeat (apply errs_bind; [by apply errs_ok_or; left|intros ?]). done. }
  intros [uri_text params]. apply errs_bind; [apply errs_map_err; by left|]. intros uri.
  apply errs_bind; [|done]. generalize (@None Z). induction (split ";" params) as [|token l IH]; intros o; [done|].
  simpl. case_match; [|apply IH]. apply errs_bind; [by apply errs_ok_or; right|]. intros. apply IH.
Qed.
Lemma register_accepted_answered a request contact expires d source ua now :
  answered request (register_accepted a request contact expires d source ua now).
Proof.
  unfold register_accepted. destruct (expires =? 0).
  { simpl. do 2 eexists. split_and!; [done..|]. by apply respond_answers. }
  destruct (upsert _ _ _ _ _ _ _) as [t [r|e]] eqn:Hu.
  - simpl. do 2 eexists. split_and!; [done..|]. by apply respond_answers.
  - unfold upsert in Hu. repeat case_match; simplify_eq. apply reply_answered. intros. by apply respond_answers.
Qed.

(** C23: Every request is answered, once and with its own [Via] hops, [From],
    [Call-ID] and [CSeq], whatever it contains and whoever sends it; the machine has
    no error for it.  A response is not answered. *)
Theorem request_answered_once (cp : CredentialProvider) a i :
  match in_message i with
  | Request _ _ _ => answered (in_message i) (process a i)
  | Response _ _ _ => process a i = (a, Ok [])
  end.
Proof.
  unfold process. destruct (in_message i) as [line headers body|] eqn:Hm; [|done]. rewrite <-Hm.
  destruct (bool_decide (rl_method line = REGISTER)); [|destruct (bool_decide (rl_method line = MESSAGE))].
  - unfold process_register.
    pose proof (errs_device line headers) as He. destruct (device_id_from_request line headers) as [d|e];
      [|simpl in He; subst; auto]. clear He.
    pose proof (errs_contact headers) as He. destruct (parse_contact_header headers) as [[contact cexp]|e];
      [|destruct He; subst; auto]. clear He.
    pose proof (errs_expires headers) as He. destruct (parse_expires_header headers) as [hexp|e];
      [|simpl in He; subst; auto].
    pose proof (authenticate_answered cp a (in_message i) line headers d (in_source i) (in_now i)) as Hv.
    destruct (authenticate _ _ _ _ _ _ _) as [a1 [ok att|r]]; [|done].
    destruct (ok || _); [|auto]. apply register_accepted_answered.
  - unfold process_message, process_message_body.
    pose proof (errs_read a (in_source i) headers body) as He.
    destruct (read_message _ _ _ _) as [[d e]|e]; [|destruct e; try done; apply reply_answered; intros; by apply respond_answers].
    unfold touch. destruct (rt_table (ga_registrations a) !! d) as [r|];
      [|apply reply_answered; intros; by apply respond_answers].
    simpl. do 2 eexists. split; [done|]. split; [by destruct (rg_offline r)|]. by apply respond_answers.
  - apply reply_answered. intros. by apply respond_answers.
Qed.
End claims.

(** ** A device that registers

    The device is challenged, proves its password, sends a keepalive from another
    address and falls silent. *)

Module AccessSample.
#[local] Instance toy_xml : QuickXml := fun _ =>
  let leaf name text := [XStart (Some name) []; XText (Some text); XEnd (Some name)] in
  [XDecl; XStart (Some "Notify") []] ++ leaf "CmdType" "Keepalive" ++ leaf "SN" "1"
  ++ leaf "DeviceID" "34020000001320000001" ++ leaf "Status" "OK" ++ [XEnd (Some "Notify")].
#[local] Instance toy_encoding : EncodingRs :=
  {| enc_for_label := fun _ => Some "UTF-8"; enc_decode := fun _ b => (b, negb (utf8_valid b)) |}.
#[local] Instance toy_rfc3339 : Rfc3339 := fun _ => Ok "2024-01-01T00:00:00Z".
#[local] Instance toy_f64 : ShowF64 := fun _ => "1".
#[local] Existing Instance toy_crypto.
#[local] Existing Instance toy_laws.

Definition device : DeviceId := "34020000001320000001".
Definition config : Gb28181DomainConfig :=
  mkDomainConfig "3402000000" "3402000000" sample_secret false Sha256 3600 86400 CsUtf8 90 128 100 Required 10 60 1000
    CompatibilityProfile_default.
Definition machine : Gb28181Access :=
  match access_new config with
  | Ok a => a
  | Err _ => mkAccess config sample_context (replay_cache_new 1) (limiter_new 0 0 0) 1 (table_new 0)
  end.
Definition passwords : CredentialProvider := fun _ => Ok (Some "pw").
Definition home : SocketAddr := mkSocket (V4 3405803785) 41234.
Definition elsewhere : SocketAddr := mkSocket (V4 3325256711) 5060.
Definition uri : SipUri := mkSipUri Sip (Some device) None "3402000000" None [].
Definition request (m : Method) (extra : list (HeaderName * string)) : SipMessage :=
  Request (mkRequestLine m uri SIP_2_0)
    (headers_of ([(HVia, "SIP/2.0/UDP 192.168.1.5:5062;rport;branch=z9hG4bK1"); (HFrom, "<sip:34020000001320000001@3402000000>;tag=1");
                  (HTo, "<sip:34020000001320000001@3402000000>"); (HCallId, "c1"); (HCSeq, "1 REGISTER");
                  (HContact, "<sip:34020000001320000001@192.168.1.5:5062>"); (HExpires, "3600")] ++ extra)) "x".
Definition credentials : string :=
  match (generate_challenge (ga_digest_context machine) 1000).2 with
  | Ok ch => match (authorize digest_client_new device "pw" "REGISTER" (uri_encode uri) ch "cn").2 with
             | Ok r => response_header_value r
             | Err _ => ""
             end
  | Err _ => ""
  end.
Definition first : AccessInput := mkInput home 1000 (request REGISTER []).
Definition second : AccessInput := mkInput home 1001 (request REGISTER [(HAuthorization, credentials)]).
Definition keepalive : AccessInput := mkInput elsewhere 1060 (request MESSAGE []).
Definition calls : list access_call :=
  [Receive passwords first; Receive passwords second; Receive passwords keepalive; TickAt canonical_order 1200].
Definition order : hash_order string string := canonical_order.
Definition final : Gb28181Access := (access_run order machine calls).1.
Definition route : EndpointRoute :=
  match table_route (ga_registrations final) device with Some r => r | None => from_observed home end.

Lemma routes_authenticated_witness :
  exists pre post cp i line headers body contact,
    calls = pre ++ Receive cp i :: post
    /\ in_message i = Request line headers body /\ rl_method line = REGISTER
    /\ device_id_from_request line headers = Ok device
    /\ authenticated cp (access_run order machine pre).1 (in_source i) (in_now i) line headers device
    /\ contact_of headers contact
    /\ route = from_registration_with_profile (in_source i) (head (get_all headers HVia)) (Some contact)
                 (Some (cf_compatibility config)).
Proof. apply (routes_authenticated order config machine calls device route); vm_compute; reflexivity. Defined.

Lemma events_tell_registrations_witness :
  replay ∅ (concat (map events_of (access_run order machine calls).2)) = view (ga_registrations final)
  /\ view (ga_registrations final) !! device = Some (1, false).
Proof.
  split; [|vm_compute; reflexivity].
  pose proof (events_tell_registrations order config machine calls) as Ht. unfold final.
  destruct (access_run order machine calls) as [a rs]. apply Ht; [vm_compute; reflexivity|simpl; lia|vm_compute; reflexivity].
Defined.

Definition online : Gb28181Access := (access_run order machine [Receive passwords first; Receive passwords second]).1.
Lemma tick_expires_witness :
  events_of (tick canonical_order online 5000).2
  ≡ₚ flat_map (tick_event config 5000) (map_to_list (rt_table (ga_registrations online))).
Proof.
  change config with (ga_config online).
  apply (tick_expires canonical_order online 5000 (tick canonical_order online 5000).1
           (tick canonical_order online 5000).2), surjective_pairing.
Defined.

Lemma messages_move_nothing_witness :
  option_Forall2 same_session (rt_table (ga_registrations online) !! device)
    (rt_table (ga_registrations (@process _ _ _ passwords online keepalive).1) !! device).
Proof.
  destruct (in_message keepalive) as [line headers body|] eqn:Hm; [|discriminate Hm].
  apply (messages_move_nothing passwords online keepalive line headers body
           (@process _ _ _ passwords online keepalive).1 (@process _ _ _ passwords online keepalive).2);
    [exact Hm | | apply surjective_pairing].
  injection Hm as <- _ _. discriminate.
Defined.

Lemma request_answered_once_witness : answered (in_message keepalive) (@process _ _ _ passwords machine keepalive).
Proof. exact (request_answered_once passwords machine keepalive). Defined.
End AccessSample.
