(* ===== verification/Runtime.v ===== *)
(** * Messages of the device runtime

    [cheetah-runtime-api]: the keys and messages of [keys.rs] and
    [runtime_message.rs], the routing of a device to its shard
    ([shard_router.rs]), the counters of [metrics.rs] that the timer wheel
    keeps, and the identifiers that [device_actor.rs] gives to timers.

    The mailboxes of the shards are bounded channels of tokio: they are an
    operation of the class [Mailboxes].  The FNV hash of a device key is the
    class [StableHash]. *)

From S2P Require Import Prelude RustStr SipUri Domain.

Open Scope string_scope.
Open Scope list_scope.
Open Scope Z_scope.

Record DeviceKey := mkDeviceKey { dk_tenant_id : Uuid; dk_device_id : Uuid }.
#[global] Instance DeviceKey_eq_dec : EqDecision DeviceKey.
Proof. solve_decision. Defined.

(** [TimerId(u64)]. *)
Definition TimerId : Type := Z.

Inductive RuntimeMessage :=
| ProtocolEvent (device_key : DeviceKey) (payload : string)
| CommandMessage (device_key : DeviceKey) (command : Command)
| Timer (device_key : DeviceKey) (timer_id : TimerId) (kind : string)
| OwnershipChanged (device_key : DeviceKey) (owner_epoch : Z)
| Shutdown.

(** [RuntimeMessage::device_key]. *)
Definition message_device_key (m : RuntimeMessage) : option DeviceKey :=
  match m with
  | ProtocolEvent k _ | CommandMessage k _ | Timer k _ _ | OwnershipChanged k _ => Some k
  | Shutdown => None
  end.

(** ** Routing *)

Class StableHash := stable_hash_u64 : DeviceKey -> Z.

(** [ShardRouter::route]. *)
Definition route `{StableHash} (shard_count : Z) (key : DeviceKey) : Z :=
  if shard_count =? 0 then 0 else stable_hash_u64 key mod shard_count.

(** [mpsc::Sender::try_send] on one of the senders: what becomes of the
    message. *)
Inductive TrySend := Sent | Full | Closed.
Class Mailboxes (M : Type) := {
  senders_len : M -> Z;
  try_send : M -> Z -> RuntimeMessage -> M * TrySend
}.

(** [dispatch] of [timer_wheel.rs]; [false] gives the message back. *)
Definition dispatch `{StableHash} `{Mailboxes M} (shard_count : Z) (mail : M) (msg : RuntimeMessage) :
    M * bool :=
  match message_device_key msg with
  | None => (mail, false)
  | Some key =>
      let index := route shard_count key in
      if senders_len mail <=? index then (mail, false)
      else match try_send mail index msg with
           | (mail, Sent) => (mail, true)
           | (mail, Full) => (mail, false)
           | (mail, Closed) => (mail, true)
           end
  end.

(** ** Errors *)

(** [clamp_str] of [error.rs]: back to a character boundary. *)
Definition MAX_RUNTIME_ERROR_BYTES : nat := 1024.
Definition runtime_clamp (s : string) : string := SipUri.clamp_string_bytes s MAX_RUNTIME_ERROR_BYTES.

Inductive RuntimeError :=
| RtShutdown | RtOverloaded | RtDraining | RtInvalidArgument (m : string) | RtActor (m : string)
| RtInternal (m : string).
Definition runtime_invalid_argument (m : string) : RuntimeError := RtInvalidArgument (runtime_clamp m).

(** ** Counters *)

(** The counters of [RuntimeMetrics] for timers; [fetch_add] wraps. *)
Record TimerMetrics := {
  timers_scheduled : Z;
  timers_fired : Z;
  timers_cancelled : Z;
  timers_dropped : Z;
  pending_timer_dispatch : Z;
  timer_lag_ms : Z
}.
Definition TimerMetrics_default : TimerMetrics := {|
  timers_scheduled := 0; timers_fired := 0; timers_cancelled := 0; timers_dropped := 0;
  pending_timer_dispatch := 0; timer_lag_ms := 0 |}.

Definition record_timer_scheduled (m : TimerMetrics) : TimerMetrics := {|
  timers_scheduled := wrap64 (timers_scheduled m + 1); timers_fired := timers_fired m;
  timers_cancelled := timers_cancelled m; timers_dropped := timers_dropped m;
  pending_timer_dispatch := pending_timer_dispatch m; timer_lag_ms := timer_lag_ms m |}.
Definition record_timer_fired (m : TimerMetrics) : TimerMetrics := {|
  timers_scheduled := timers_scheduled m; timers_fired := wrap64 (timers_fired m + 1);
  timers_cancelled := timers_cancelled m; timers_dropped := timers_dropped m;
  pending_timer_dispatch := pending_timer_dispatch m; timer_lag_ms := timer_lag_ms m |}.
Definition record_timer_cancelled (m : TimerMetrics) : TimerMetrics := {|
  timers_scheduled := timers_scheduled m; timers_fired := timers_fired m;
  timers_cancelled := wrap64 (timers_cancelled m + 1); timers_dropped := timers_dropped m;
  pending_timer_dispatch := pending_timer_dispatch m; timer_lag_ms := timer_lag_ms m |}.
Definition record_timers_dropped (count : Z) (m : TimerMetrics) : TimerMetrics :=
  if 0 <? count then {|
    timers_scheduled := timers_scheduled m; timers_fired := timers_fired m;
    timers_cancelled := timers_cancelled m; timers_dropped := wrap64 (timers_dropped m + count);
    pending_timer_dispatch := pending_timer_dispatch m; timer_lag_ms := timer_lag_ms m |}
  else m.
Definition set_pending_timer_dispatch (v : Z) (m : TimerMetrics) : TimerMetrics := {|
  timers_scheduled := timers_scheduled m; timers_fired := timers_fired m;
  timers_cancelled := timers_cancelled m; timers_dropped := timers_dropped m;
  pending_timer_dispatch := v; timer_lag_ms := timer_lag_ms m |}.
Definition set_timer_lag_ms (v : Z) (m : TimerMetrics) : TimerMetrics := {|
  timers_scheduled := timers_scheduled m; timers_fired := timers_fired m;
  timers_cancelled := timers_cancelled m; timers_dropped := timers_dropped m;
  pending_timer_dispatch := pending_timer_dispatch m; timer_lag_ms := v |}.
