(* ===== verification/TimerWheel.v ===== *)
(** * The timer wheel

    [cheetah-runtime-tokio/src/timer_wheel.rs] with the deadlines of
    [timer_scheduler.rs]: timers are kept in a map from deadlines to entries and
    in a map from identifiers to deadlines; ticks fire the due entries towards
    the mailboxes of the shards, and what a full mailbox refuses waits in a
    bounded queue.  [Wheel] is the state of the task [TimerWheel::run];
    [process_command] and [tick] are its two branches.

    The specification is one queue of timers in the order of their deadlines;
    [wheel_refines_queue] shows that the wheel implements it. *)

From S2P Require Import Prelude RustStr Domain Runtime.

Open Scope string_scope.
Open Scope list_scope.
Open Scope Z_scope.

(** ** Deadlines *)

Definition MIN_TICK_RESOLUTION : Z := from_millis 1.
Definition MAX_TICK_RESOLUTION : Z := from_secs (24 * 60 * 60).
Definition clamp_tick_resolution (ms : Z) : Z :=
  Z.min MAX_TICK_RESOLUTION (Z.max MIN_TICK_RESOLUTION (from_millis ms)).

(** [Instant::checked_add]: an instant has an [i64] number of seconds. *)
Definition instant_checked_add (now d : Z) : option Z :=
  if now + d <? 2 ^ 63 * NANOS_PER_SEC then Some (now + d) else None.

Definition FAR_FUTURE : Z := from_secs (60 * 60 * 24 * 365 * 10).

(** The deadline that [TimerScheduler::schedule] computes from [i64]
    milliseconds. *)
Definition schedule_deadline (now delay_ms : Z) : Z :=
  let duration := from_millis (Z.max 0 delay_ms) in
  let far := default now (instant_checked_add now FAR_FUTURE) in
  default far (instant_checked_add now duration).

(** ** State *)

Inductive TimerCommand :=
| Schedule (device_key : DeviceKey) (timer_id : TimerId) (deadline : Z) (kind : string)
| Cancel (device_key : DeviceKey) (timer_id : TimerId).

Record TimerEntry := { te_device_key : DeviceKey; te_timer_id : TimerId; te_kind : string }.

Definition timer_message (e : TimerEntry) : RuntimeMessage :=
  Timer (te_device_key e) (te_timer_id e) (te_kind e).

(** The queue of refused messages, the counters and the mailboxes. *)
Record Out (M : Type) := mkOut {
  pending_dispatch : list RuntimeMessage;
  metrics : TimerMetrics;
  mail : M
}.
Arguments mkOut {M}. Arguments pending_dispatch {M}. Arguments metrics {M}. Arguments mail {M}.

(** A [BTreeMap] keyed by instants is the list of its pairs in the order of the
    keys. *)
Definition Buckets : Type := list (Z * list TimerEntry).

Record Wheel (M : Type) := mkWheel {
  timers_by_deadline : Buckets;
  timer_map : gmap TimerId Z;
  last_tick : option Z;
  out : Out M
}.
Arguments mkWheel {M}. Arguments timers_by_deadline {M}. Arguments timer_map {M}.
Arguments last_tick {M}. Arguments out {M}.

Definition wheel_new {M} (m : M) : Wheel M := mkWheel [] ∅ None (mkOut [] TimerMetrics_default m).

(** [entry(deadline).or_default().push(e)]. *)
Fixpoint bucket_push (d : Z) (e : TimerEntry) (b : Buckets) : Buckets :=
  match b with
  | [] => [(d, [e])]
  | (d1, es) :: b =>
      if d <? d1 then (d, [e]) :: (d1, es) :: b
      else if d =? d1 then (d1, es ++ [e]) :: b
      else (d1, es) :: bucket_push d e b
  end.

(** The removal of a timer from the bucket of its deadline, with the bucket
    when it is left empty. *)
Fixpoint bucket_remove (d : Z) (id : TimerId) (b : Buckets) : Buckets :=
  match b with
  | [] => []
  | (d1, es) :: b =>
      if d =? d1 then
        match List.filter (fun e => negb (te_timer_id e =? id)) es with
        | [] => b
        | es => (d1, es) :: b
        end
      else (d1, es) :: bucket_remove d id b
  end.

(** ** Operations *)

Section Operations.
Context `{StableHash} `{Mailboxes M}.
Context (shard_count max_pending_dispatch tick_period : Z).

Definition enforce_limit (o : Out M) : Out M :=
  let overflow := sat_sub (Z.of_nat (length (pending_dispatch o))) max_pending_dispatch in
  mkOut (drop (Z.to_nat overflow) (pending_dispatch o)) (record_timers_dropped overflow (metrics o)) (mail o).

(** A fired timer: the message goes to its shard or to the queue. *)
Definition offer (o : Out M) (msg : RuntimeMessage) : Out M :=
  let '(m, ok) := dispatch shard_count (mail o) msg in
  if ok then mkOut (pending_dispatch o) (metrics o) m
  else enforce_limit (mkOut (pending_dispatch o ++ [msg]) (metrics o) m).

Definition record_fired (o : Out M) : Out M :=
  mkOut (pending_dispatch o) (record_timer_fired (metrics o)) (mail o).

Definition is_timer (id : TimerId) (msg : RuntimeMessage) : bool :=
  match msg with Timer _ i _ => i =? id | _ => false end.

Definition process_command (cmd : TimerCommand) (w : Wheel M) : Wheel M :=
  match cmd with
  | Schedule device_key timer_id deadline kind =>
      mkWheel
        (bucket_push deadline {| te_device_key := device_key; te_timer_id := timer_id; te_kind := kind |}
           (timers_by_deadline w))
        (<[timer_id := deadline]> (timer_map w)) (last_tick w)
        (mkOut (pending_dispatch (out w)) (record_timer_scheduled (metrics (out w))) (mail (out w)))
  | Cancel _ timer_id =>
      let b := match timer_map w !! timer_id with
               | Some deadline => bucket_remove deadline timer_id (timers_by_deadline w)
               | None => timers_by_deadline w
               end in
      let o := enforce_limit (mkOut
        (List.filter (fun msg => negb (is_timer timer_id msg)) (pending_dispatch (out w)))
        (metrics (out w)) (mail (out w))) in
      mkWheel b (delete timer_id (timer_map w)) (last_tick w)
        (mkOut (pending_dispatch o) (record_timer_cancelled (metrics o)) (mail o))
  end.

(** The loop over the entries of one bucket. *)
Fixpoint fire (es : list TimerEntry) (tm : gmap TimerId Z) (o : Out M) : gmap TimerId Z * Out M :=
  match es with
  | [] => (tm, o)
  | e :: es =>
      match tm !! te_timer_id e with
      | Some _ => fire es (delete (te_timer_id e) tm) (offer (record_fired o) (timer_message e))
      | None => fire es tm o
      end
  end.

(** The loop of [process_expired]: the bucket that is put back is the first. *)
Fixpoint process_expired (now : Z) (b : Buckets) (tm : gmap TimerId Z) (o : Out M) :
    Buckets * gmap TimerId Z * Out M :=
  match b with
  | [] => ([], tm, o)
  | (deadline, timers) :: rest =>
      if now <? deadline then (b, tm, o)
      else let '(tm, o) := fire timers tm o in process_expired now rest tm o
  end.

Fixpoint redispatch (msgs : list RuntimeMessage) (m : M) : list RuntimeMessage * M :=
  match msgs with
  | [] => ([], m)
  | msg :: msgs =>
      let '(m, ok) := dispatch shard_count m msg in
      let '(remaining, m) := redispatch msgs m in
      (if ok then remaining else msg :: remaining, m)
  end.

Definition process_pending_dispatch (o : Out M) : Out M :=
  let '(remaining, m) := redispatch (pending_dispatch o) (mail o) in
  enforce_limit (mkOut remaining (metrics o) m).

Definition record_timer_lag (last : option Z) (now : Z) (m : TimerMetrics) : TimerMetrics :=
  match last with
  | Some previous =>
      let lag := sat_sub (sat_sub now previous) tick_period in
      set_timer_lag_ms (Z.min (as_millis lag) U64_MAX) m
  | None => m
  end.

(** What follows the firing in the branch of a tick. *)
Definition finish_tick (o : Out M) : Out M :=
  let o := process_pending_dispatch o in
  mkOut (pending_dispatch o)
    (set_pending_timer_dispatch (Z.of_nat (length (pending_dispatch o))) (metrics o)) (mail o).
Definition lag_recorded (last : option Z) (now : Z) (o : Out M) : Out M :=
  mkOut (pending_dispatch o) (record_timer_lag last now (metrics o)) (mail o).

Definition tick (now : Z) (w : Wheel M) : Wheel M :=
  let '(b, tm, o) :=
    process_expired now (timers_by_deadline w) (timer_map w) (lag_recorded (last_tick w) now (out w)) in
  mkWheel b tm (Some now) (finish_tick o).

(** What the task of the wheel reacts to, and its loop. *)
Inductive WheelEvent := Tick (now : Z) | Command (cmd : TimerCommand).
Definition wheel_step (w : Wheel M) (ev : WheelEvent) : Wheel M :=
  match ev with
  | Tick now => tick now w
  | Command cmd => process_command cmd w
  end.
Definition wheel_run (w : Wheel M) (evs : list WheelEvent) : Wheel M := foldl wheel_step w evs.

(** ** Specification: one queue of timers *)

Record Queue := mkQueue {
  q_timers : list (Z * TimerEntry);
  q_last_tick : option Z;
  q_out : Out M
}.

Fixpoint q_insert (t : Z * TimerEntry) (ts : list (Z * TimerEntry)) : list (Z * TimerEntry) :=
  match ts with
  | [] => [t]
  | t1 :: ts => if t.1 <? t1.1 then t :: t1 :: ts else t1 :: q_insert t ts
  end.

Definition q_fire (o : Out M) (t : Z * TimerEntry) : Out M := offer (record_fired o) (timer_message t.2).

Definition queue_step (q : Queue) (ev : WheelEvent) : Queue :=
  match ev with
  | Tick now =>
      mkQueue (filter (fun t => now < t.1) (q_timers q)) (Some now)
        (finish_tick (foldl q_fire (lag_recorded (q_last_tick q) now (q_out q))
                        (filter (fun t => t.1 <= now) (q_timers q))))
  | Command (Schedule k id d kind) =>
      mkQueue (q_insert (d, {| te_device_key := k; te_timer_id := id; te_kind := kind |}) (q_timers q))
        (q_last_tick q)
        (mkOut (pending_dispatch (q_out q)) (record_timer_scheduled (metrics (q_out q))) (mail (q_out q)))
  | Command (Cancel _ id) =>
      let o := enforce_limit (mkOut
        (List.filter (fun msg => negb (is_timer id msg)) (pending_dispatch (q_out q)))
        (metrics (q_out q)) (mail (q_out q))) in
      mkQueue (filter (fun t => te_timer_id t.2 <> id) (q_timers q)) (q_last_tick q)
        (mkOut (pending_dispatch o) (record_timer_cancelled (metrics o)) (mail o))
  end.

(** A timer is scheduled under an identifier that no live timer has. *)
Definition id_free (q : Queue) (ev : WheelEvent) : Prop :=
  match ev with
  | Command (Schedule _ id _ _) => Forall (fun t => te_timer_id t.2 <> id) (q_timers q)
  | _ => True
  end.
Fixpoint ids_free (q : Queue) (evs : list WheelEvent) : Prop :=
  match evs with
  | [] => True
  | ev :: evs => id_free q ev /\ ids_free (queue_step q ev) evs
  end.
End Operations.

(** ** The wheel implements the queue *)

(** The timers of the buckets in order. *)
Fixpoint flat (b : Buckets) : list (Z * TimerEntry) :=
  match b with
  | [] => []
  | (d, es) :: b => (map (pair d) es) ++ flat b
  end.
Fixpoint buckets_sorted (b : Buckets) : Prop :=
  match b with
  | [] => True
  | (d, _) :: b => Forall (fun t => d < t.1) b /\ buckets_sorted b
  end.

Lemma flat_above d b : Forall (fun t => d < t.1) b -> Forall (fun t => d < t.1) (flat b).
Proof.
  induction b as [|[d1 es] b IH]; intros Hb; simpl; [constructor|].
  apply Forall_cons in Hb as [Hd Hb]. apply Forall_app. split; [|auto].
  apply Forall_map, Forall_true. intros e. exact Hd.
Qed.

Lemma q_insert_above t ts : Forall (fun t1 => t.1 < t1.1) ts -> q_insert t ts = t :: ts.
Proof.
  destruct ts as [|t1 ts]; intros Hf; [done|]. apply Forall_cons in Hf as [Hf _]. simpl.
  by rewrite (proj2 (Z.ltb_lt _ _)).
Qed.

Lemma q_insert_bucket t d es ts :
  d <= t.1 -> q_insert t ((map (pair d) es) ++ ts) = (map (pair d) es) ++ q_insert t ts.
Proof.
  intros Hd. induction es as [|e es IH]; simpl; [done|].
  rewrite (proj2 (Z.ltb_ge _ _)) by done. by rewrite IH.
Qed.

Lemma flat_push d e b : buckets_sorted b -> flat (bucket_push d e b) = q_insert (d, e) (flat b).
Proof.
  induction b as [|[d1 es] b IH]; intros Hs; simpl; [done|]. destruct Hs as [Hd Hs].
  destruct (Z.ltb_spec d d1).
  - simpl. symmetry. apply (q_insert_above (d, e) (map (pair d1) es ++ flat b)).
    apply Forall_app. split; [by apply Forall_map, Forall_true|].
    apply flat_above. eapply Forall_impl; [exact Hd|]. simpl. lia.
  - rewrite q_insert_bucket by done. destruct (Z.eqb_spec d d1) as [->|Hne]; simpl.
    + rewrite map_app, <-app_assoc. simpl. f_equal. symmetry. apply q_insert_above. by apply flat_above.
    + by rewrite IH.
Qed.

Lemma bucket_push_Forall (P : Z -> Prop) d e b :
  P d -> Forall (fun t => P t.1) b -> Forall (fun t => P t.1) (bucket_push d e b).
Proof.
  intros Hd. induction b as [|[d1 es] b IH]; intros Hb; simpl; [by repeat constructor|].
  pose proof Hb as [H1 Hb1]%Forall_cons.
  destruct (d <? d1); [by constructor|]. destruct (d =? d1); constructor; auto.
Qed.

Lemma bucket_push_sorted d e b : buckets_sorted b -> buckets_sorted (bucket_push d e b).
Proof.
  induction b as [|[d1 es] b IH]; intros Hs; simpl; [by repeat constructor|].
  destruct Hs as [Hd Hs]. destruct (Z.ltb_spec d d1).
  - split; [|by split]. constructor; [done|]. eapply Forall_impl; [exact Hd|]. simpl. lia.
  - destruct (Z.eqb_spec d d1) as [->|]; [by split|]. split; [|auto].
    apply bucket_push_Forall; [lia | done].
Qed.

Lemma bucket_remove_Forall (P : Z -> Prop) d id b :
  Forall (fun t => P t.1) b -> Forall (fun t => P t.1) (bucket_remove d id b).
Proof.
  induction b as [|[d1 es] b IH]; intros Hb; simpl; [done|]. apply Forall_cons in Hb as [H1 Hb].
  destruct (d =? d1); [|by constructor; auto]. case_match; [done|]. by constructor.
Qed.

Lemma bucket_remove_sorted d id b : buckets_sorted b -> buckets_sorted (bucket_remove d id b).
Proof.
  induction b as [|[d1 es] b IH]; intros Hs; simpl; [done|]. destruct Hs as [Hd Hs].
  destruct (d =? d1); [case_match; [done | by split]|]. split; [|auto]. by apply bucket_remove_Forall.
Qed.

(** [id] is not the identifier of a timer of [ts]. *)
Definition lacks_id (id : TimerId) (ts : list (Z * TimerEntry)) : Prop :=
  Forall (fun t => te_timer_id t.2 <> id) ts.

Lemma filter_lacks id ts : lacks_id id ts -> filter (fun t => te_timer_id t.2 <> id) ts = ts.
Proof. apply filter_Forall. Qed.

Lemma filter_bucket d id es :
  filter (fun t : Z * TimerEntry => te_timer_id t.2 <> id) (map (pair d) es)
    = map (pair d) (List.filter (fun e => negb (te_timer_id e =? id)) es).
Proof.
  induction es as [|e es IH]; [done|]. simpl.
  destruct (Z.eqb_spec (te_timer_id e) id); simpl.
  - rewrite filter_cons_False by (simpl; tauto). done.
  - rewrite filter_cons_True by done. by f_equal.
Qed.

(** Removing a timer from the bucket of its deadline removes it altogether when
    no other deadline has its identifier. *)
Lemma flat_remove d id b :
  buckets_sorted b -> (forall t, t ∈ flat b -> te_timer_id t.2 = id -> t.1 = d) ->
  flat (bucket_remove d id b) = filter (fun t => te_timer_id t.2 <> id) (flat b).
Proof.
  induction b as [|[d1 es] b IH]; intros Hs Hid; simpl; [done|]. destruct Hs as [Hd Hs].
  rewrite filter_app, filter_bucket. destruct (Z.eqb_spec d d1) as [->|Hne].
  - rewrite (filter_lacks id (flat b)).
    + by case_match.
    + apply flat_above in Hd. apply Forall_forall. intros t Ht Heq.
      rewrite Forall_forall in Hd. specialize (Hd t Ht).
      rewrite (Hid t) in Hd; [lia | simpl; apply elem_of_app; by right | done].
  - simpl. rewrite IH; [|done|].
    + f_equal. f_equal. symmetry. clear IH Hd.
      induction es as [|e es IHes]; [done|]. simpl.
      destruct (Z.eqb_spec (te_timer_id e) id) as [Heq|]; simpl.
      * exfalso. apply Hne. symmetry. apply (Hid (d1, e)); [simpl; left | done].
      * f_equal. apply IHes. intros t Ht. apply Hid. simpl. by right.
    + intros t Ht. apply Hid. simpl. apply elem_of_app. by right.
Qed.

Section Refinement.
Context `{StableHash} `{Mailboxes M}.
Context (shard_count max_pending_dispatch tick_period : Z).

Abbreviation fire := (fire shard_count max_pending_dispatch).
Abbreviation process_expired := (process_expired shard_count max_pending_dispatch).
Abbreviation q_fire := (q_fire shard_count max_pending_dispatch).
Abbreviation queue_step := (queue_step shard_count max_pending_dispatch tick_period).
Abbreviation wheel_step := (wheel_step shard_count max_pending_dispatch tick_period).

Definition timer_ids (ts : list (Z * TimerEntry)) : list TimerId := (fun t => te_timer_id t.2) <$> ts.
Definition forget (ts : list (Z * TimerEntry)) (tm : gmap TimerId Z) : gmap TimerId Z :=
  foldl (fun tm t => delete (te_timer_id t.2) tm) tm ts.

(** The identifier map knows exactly the timers of [ts]. *)
Definition indexed (tm : gmap TimerId Z) (ts : list (Z * TimerEntry)) : Prop :=
  NoDup (timer_ids ts) /\
  forall id d, tm !! id = Some d <-> exists e, (d, e) ∈ ts /\ te_timer_id e = id.

Lemma indexed_cons tm t ts :
  indexed tm (t :: ts) -> is_Some (tm !! te_timer_id t.2) /\ indexed (delete (te_timer_id t.2) tm) ts.
Proof.
  intros [Hnd Hix]. simpl in Hnd. apply NoDup_cons in Hnd as [Hni Hnd]. split.
  { exists t.1. apply Hix. exists t.2. split; [destruct t; left | done]. }
  split; [done|]. intros id d. rewrite lookup_delete_Some, Hix. split.
  - intros (Hne & e & Hin & <-). exists e. split; [|done].
    apply elem_of_cons in Hin as [<-|]; [by destruct Hne | done].
  - intros (e & Hin & <-). split; [|exists e; split; [by right | done]].
    intros Heq. apply Hni. apply list_elem_of_fmap. exists (d, e). by split.
Qed.

Lemma fire_indexed d es : forall ts tm o,
  indexed tm (map (pair d) es ++ ts) ->
  fire es tm o = (forget (map (pair d) es) tm, foldl q_fire o (map (pair d) es))
  /\ indexed (forget (map (pair d) es) tm) ts.
Proof.
  induction es as [|e es IH]; intros ts tm o Hix; simpl; [done|].
  apply (indexed_cons tm (d, e)) in Hix as [[d1 Hd] Hix]. simpl in Hd, Hix. rewrite Hd.
  by apply IH.
Qed.

Lemma bucket_Forall (P : Z -> Prop) d es : P d -> Forall (fun t => P t.1) (map (pair d) es : list (Z * TimerEntry)).
Proof. intros. by apply Forall_map, Forall_true. Qed.

Lemma expired_indexed now b : forall tm o,
  buckets_sorted b -> indexed tm (flat b) ->
  exists b1 tm1, process_expired now b tm o = (b1, tm1, foldl q_fire o (filter (fun t => t.1 <= now) (flat b)))
    /\ flat b1 = filter (fun t => now < t.1) (flat b) /\ buckets_sorted b1 /\ indexed tm1 (flat b1).
Proof.
  induction b as [|[d es] b IH]; intros tm o Hs Hix; [by exists [], tm|].
  destruct Hs as [Hd Hs]. cbn [TimerWheel.process_expired flat]. rewrite !filter_app.
  destruct (Z.ltb_spec now d).
  - assert (Forall (fun t => now < t.1) (flat b)) as Hf.
    { eapply Forall_impl; [by apply flat_above|]. simpl. lia. }
    exists ((d, es) :: b), tm.
    rewrite !(filter_Forall_not (fun t => t.1 <= now)), !(filter_Forall (fun t => now < t.1)); try done.
    + by apply (bucket_Forall (fun d => now < d)).
    + eapply Forall_impl; [exact Hf|]. simpl. lia.
    + apply (bucket_Forall (fun d => ~ d <= now)). lia.
  - simpl in Hix. destruct (fire_indexed d es (flat b) tm o Hix) as [-> Hix1].
    destruct (IH (forget (map (pair d) es) tm) (foldl q_fire o (map (pair d) es)) Hs Hix1)
      as (b1 & tm1 & -> & Hflat & Hs1 & Hix2).
    exists b1, tm1. rewrite (filter_Forall _ (map (pair d) es)) by (by apply (bucket_Forall (fun d => d <= now))).
    rewrite (filter_Forall_not _ (map (pair d) es)) by (apply (bucket_Forall (fun d => ~ now < d)); lia).
    by rewrite foldl_app.
Qed.

(** *** The simulation *)

Definition simulates (w : Wheel M) (q : Queue) : Prop :=
  flat (timers_by_deadline w) = q_timers q /\ buckets_sorted (timers_by_deadline w)
  /\ indexed (timer_map w) (q_timers q) /\ last_tick w = q_last_tick q /\ out w = q_out q.

Lemma q_insert_perm t ts : q_insert t ts ≡ₚ t :: ts.
Proof.
  induction ts as [|t1 ts IH]; simpl; [done|]. destruct (t.1 <? t1.1); [done|]. rewrite IH. constructor.
Qed.

Lemma indexed_insert tm d e ts :
  indexed tm ts -> lacks_id (te_timer_id e) ts ->
  indexed (<[te_timer_id e := d]> tm) (q_insert (d, e) ts).
Proof.
  intros [Hnd Hix] Hl. unfold lacks_id in Hl. rewrite Forall_forall in Hl. split.
  - unfold timer_ids. rewrite q_insert_perm. simpl. apply NoDup_cons. split; [|done].
    intros (t & Heq & Hin)%list_elem_of_fmap. by apply (Hl t Hin).
  - intros id d1. rewrite lookup_insert_Some, Hix. setoid_rewrite q_insert_perm.
    setoid_rewrite elem_of_cons. split.
    + intros [[<- <-]|(Hne & e1 & Hin & <-)]; [exists e; by split; [left|]|].
      exists e1. split; [by right | done].
    + intros (e1 & [[= -> ->]|Hin] & <-); [by left|]. right. split; [|by exists e1].
      intros Heq. by apply (Hl _ Hin).
Qed.

Lemma indexed_cancel tm id ts :
  indexed tm ts -> indexed (delete id tm) (filter (fun t => te_timer_id t.2 <> id) ts).
Proof.
  intros [Hnd Hix]. split.
  - unfold timer_ids in *. revert Hnd. clear Hix. induction ts as [|t ts IH]; intros Hnd; [done|].
    simpl in Hnd. apply NoDup_cons in Hnd as [Hni Hnd].
    destruct (decide (te_timer_id t.2 <> id)); [|rewrite filter_cons_False by done; auto].
    rewrite filter_cons_True by done. simpl. apply NoDup_cons. split; [|auto].
    intros (t1 & Heq & Hin)%list_elem_of_fmap. apply list_elem_of_filter in Hin as [_ Hin].
    apply Hni, list_elem_of_fmap. by exists t1.
  - intros id1 d. rewrite lookup_delete_Some, Hix. setoid_rewrite list_elem_of_filter. simpl.
    split; [intros (Hne & e & Hin & <-) | intros (e & (Hne & Hin) & <-)].
    + exists e. split_and!; [congruence|done|done].
    + split; [congruence|]. by exists e.
Qed.

Lemma simulates_step w q ev :
  simulates w q -> id_free q ev -> simulates (wheel_step w ev) (queue_step q ev).
Proof.
  intros (Hflat & Hs & Hix & Hlast & Hout) Hfree. destruct ev as [now|[k id d kind|k id]].
  - simpl. unfold tick. rewrite <-Hflat in Hix.
    destruct (expired_indexed now _ _ (lag_recorded tick_period (last_tick w) now (out w)) Hs Hix)
      as (b1 & tm1 & -> & Hf & Hs1 & Hix1).
    rewrite <-Hlast, <-Hout, <-Hflat. unfold simulates. simpl. by rewrite <-Hf.
  - simpl in Hfree. unfold simulates. simpl. rewrite flat_push, Hflat, Hout by done.
    split_and!; [done | by apply bucket_push_sorted | by apply indexed_insert | done | done].
  - unfold simulates. simpl. rewrite Hout. split_and!; [..|by apply indexed_cancel|done|done].
    + destruct (timer_map w !! id) as [d|] eqn:Hd.
      * rewrite <-Hflat. apply flat_remove; [done|]. intros t Ht Hid. rewrite Hflat in Ht.
        destruct Hix as [_ Hix]. assert (timer_map w !! id = Some t.1) as Ht1.
        { apply Hix. exists t.2. split; [by destruct t | done]. }
        congruence.
      * rewrite Hflat. symmetry. apply filter_lacks, Forall_forall. intros t Ht Hid.
        destruct Hix as [_ Hix]. assert (timer_map w !! id = Some t.1) as Ht1.
        { apply Hix. exists t.2. split; [by destruct t | done]. }
        congruence.
    + destruct (timer_map w !! id); [by apply bucket_remove_sorted | done].
Qed.
End Refinement.

(** *** Runs *)

Section Runs.
Context `{StableHash} `{Mailboxes M}.
Context (shard_count max_pending_dispatch tick_period : Z).
Abbreviation queue_step := (queue_step shard_count max_pending_dispatch tick_period).
Abbreviation ids_free := (ids_free shard_count max_pending_dispatch tick_period).
Abbreviation wheel_step := (wheel_step shard_count max_pending_dispatch tick_period).
Abbreviation wheel_run := (wheel_run shard_count max_pending_dispatch tick_period).

Definition queue_new (m : M) : Queue := mkQueue [] None (mkOut [] TimerMetrics_default m).

Lemma simulates_run m evs :
  ids_free (queue_new m) evs ->
  simulates (wheel_run (wheel_new m) evs) (foldl queue_step (queue_new m) evs).
Proof.
  assert (simulates (wheel_new m) (queue_new m)) as Hsim.
  { unfold simulates. simpl. split_and!; try done. split; [constructor|].
    intros id d. rewrite lookup_empty. split; [done|]. by intros (e & ?%elem_of_nil & _). }
  revert Hsim. generalize (wheel_new m) (queue_new m). unfold TimerWheel.wheel_run.
  induction evs as [|ev evs IH]; intros w q Hsim Hfree; [done|]. destruct Hfree as [Hf Hfree].
  simpl. apply IH; [by apply simulates_step | done].
Qed.

(** The identifiers of the timers that a sequence of events schedules. *)
Definition scheduled_id (ev : WheelEvent) : list TimerId :=
  match ev with Command (Schedule _ id _ _) => [id] | _ => [] end.
Definition scheduled_ids (evs : list WheelEvent) : list TimerId := evs ≫= scheduled_id.

Lemma queue_step_ids q ev id :
  id ∈ timer_ids (q_timers (queue_step q ev)) -> id ∈ scheduled_id ev \/ id ∈ timer_ids (q_timers q).
Proof.
  unfold timer_ids. destruct ev as [now|[k i d kind|k i]]; simpl.
  - intros (t & -> & [_ Hin]%list_elem_of_filter)%list_elem_of_fmap. right.
    apply list_elem_of_fmap. by exists t.
  - rewrite q_insert_perm. simpl. intros [->|Hin]%elem_of_cons; [left; by left | by right].
  - intros (t & -> & [_ Hin]%list_elem_of_filter)%list_elem_of_fmap. right.
    apply list_elem_of_fmap. by exists t.
Qed.

(** Distinct identifiers are free when they are used. *)
Lemma distinct_ids_free evs : forall q,
  NoDup (scheduled_ids evs) -> (forall id, id ∈ timer_ids (q_timers q) -> id ∉ scheduled_ids evs) ->
  ids_free q evs.
Proof.
  induction evs as [|ev evs IH]; intros q Hnd Hfresh; [done|].
  unfold scheduled_ids in Hnd. simpl in Hnd. apply NoDup_app in Hnd as (_ & Hdis & Hnd). split.
  - destruct ev as [now|[k i d kind|k i]]; try done. simpl. apply Forall_forall. intros t Hin Heq.
    apply (Hfresh i); [|left]. apply list_elem_of_fmap. by exists t.
  - apply IH; [done|]. intros id [Hid|Hid]%queue_step_ids Hin; [by apply (Hdis id)|].
    apply (Hfresh id Hid). unfold scheduled_ids. simpl. apply elem_of_app. by right.
Qed.
End Runs.

(** [n] identifiers of [ActorContext::schedule_timer], from the shared counter
    that [fetch_add] increments. *)
Fixpoint generated_ids (n : nat) (counter : Z) : list TimerId :=
  match n with
  | O => []
  | S n => counter :: generated_ids n (wrap64 (counter + 1))
  end.

Lemma generated_ids_seq n c : 0 <= c -> c + Z.of_nat n <= 2 ^ 64 -> generated_ids n c = seqZ c (Z.of_nat n).
Proof.
  revert c. induction n as [|n IH]; intros c Hc Hn; simpl; [done|].
  rewrite seqZ_cons by lia. destruct n as [|n]; [done|].
  unfold wrap64. rewrite Z.mod_small by lia. rewrite IH by lia.
  do 2 f_equal; lia.
Qed.

Lemma generated_ids_NoDup n : Z.of_nat n < 2 ^ 64 -> NoDup (generated_ids n 1).
Proof. intros Hn. rewrite generated_ids_seq by lia. apply NoDup_seqZ. Qed.

(** C33: the timer wheel, two maps and a queue, implements one queue of timers in
    the order of their deadlines (ties in the order of scheduling): on every
    sequence of commands and ticks that schedules no timer under the identifier
    of a live one, a tick fires exactly the timers whose deadline has come, in
    order, a cancelled timer never fires, and mailboxes, waiting messages and
    counters are those of the queue. *)
Theorem wheel_refines_queue `{StableHash} `{Mailboxes M} shard_count max_pending tick_period m evs :
  ids_free shard_count max_pending tick_period (queue_new m) evs ->
  simulates (wheel_run shard_count max_pending tick_period (wheel_new m) evs)
    (foldl (queue_step shard_count max_pending tick_period) (queue_new m) evs).
Proof. apply simulates_run. Qed.

(** The timers of the actors are such a sequence: with the identifiers that
    the shared counter generates, in whatever order the commands of concurrent
    actors arrive at the wheel and whatever they cancel, the wheel implements the
    queue (until the 64-bit counter wraps). *)
Theorem actor_timers_refine_queue `{StableHash} `{Mailboxes M} shard_count max_pending tick_period m evs n :
  scheduled_ids evs ≡ₚ generated_ids n 1 -> Z.of_nat n < 2 ^ 64 ->
  simulates (wheel_run shard_count max_pending tick_period (wheel_new m) evs)
    (foldl (queue_step shard_count max_pending tick_period) (queue_new m) evs).
Proof.
  intros Hperm Hn. apply simulates_run, distinct_ids_free.
  - rewrite Hperm. by apply generated_ids_NoDup.
  - intros id Hin. by apply elem_of_nil in Hin.
Qed.

Section Bound.
Context `{StableHash} `{Mailboxes M}.
Context (shard_count max_pending_dispatch tick_period : Z) (Hmax : 0 <= max_pending_dispatch).
Abbreviation bounded o := (Z.of_nat (length (pending_dispatch o)) <= max_pending_dispatch).

Lemma enforce_limit_bounded (o : Out M) : bounded (enforce_limit max_pending_dispatch o).
Proof. unfold enforce_limit, sat_sub. simpl. rewrite length_drop. lia. Qed.

Lemma offer_bounded (o : Out M) msg :
  bounded o -> bounded (offer shard_count max_pending_dispatch o msg).
Proof.
  intros Ho. unfold offer. destruct (dispatch _ _ _) as [m []]; [done|]. apply enforce_limit_bounded.
Qed.

Lemma fire_bounded es : forall tm (o : Out M),
  bounded o -> bounded (fire shard_count max_pending_dispatch es tm o).2.
Proof.
  induction es as [|e es IH]; intros tm o Ho; simpl; [done|].
  destruct (tm !! _); [|by apply IH]. apply IH. by apply offer_bounded.
Qed.

Lemma process_expired_bounded now b : forall tm (o : Out M),
  bounded o -> bounded (process_expired shard_count max_pending_dispatch now b tm o).2.
Proof.
  induction b as [|[d es] b IH]; intros tm o Ho; simpl; [done|].
  destruct (now <? d); [done|]. pose proof (fire_bounded es tm o Ho) as Hf.
  destruct (fire _ _ _ _ _) as [tm1 o1]. by apply IH.
Qed.

Lemma wheel_step_bounded (w : Wheel M) ev :
  bounded (out w) -> bounded (out (wheel_step shard_count max_pending_dispatch tick_period w ev)).
Proof.
  intros Hw. destruct ev as [now|[k id d kind|k id]]; [|done|].
  2: { exact (enforce_limit_bounded (mkOut (List.filter (fun msg => negb (is_timer id msg))
         (pending_dispatch (out w))) (metrics (out w)) (mail (out w)))). }
  simpl. unfold tick. destruct (process_expired _ _ _ _ _ _) as [[b tm] o]. simpl.
  unfold process_pending_dispatch. destruct (redispatch _ _ _). apply enforce_limit_bounded.
Qed.
End Bound.

(** On every sequence of commands and ticks, whatever the mailboxes refuse,
    the timers that wait for their mailbox stay within the limit, and after a
    tick the gauge tells their number. *)
Theorem pending_bounded `{StableHash} `{Mailboxes M} shard_count max_pending tick_period m evs now :
  0 <= max_pending ->
  let w := wheel_run shard_count max_pending tick_period (wheel_new m) evs in
  Z.of_nat (length (pending_dispatch (out w))) <= max_pending
  /\ let o := out (tick shard_count max_pending tick_period now w) in
     pending_timer_dispatch (metrics o) = Z.of_nat (length (pending_dispatch o))
     /\ pending_timer_dispatch (metrics o) <= max_pending.
Proof.
  intros Hmax w.
  assert (Z.of_nat (length (pending_dispatch (out w))) <= max_pending) as Hw.
  { unfold w, wheel_run. clear w. induction evs as [|ev evs IH] using rev_ind; [done|].
    rewrite foldl_app. by apply wheel_step_bounded. }
  split; [done|]. intros o.
  assert (pending_timer_dispatch (metrics o) = Z.of_nat (length (pending_dispatch o))) as Hg.
  { unfold o, tick. by destruct (process_expired _ _ _ _ _ _) as [[b tm] o1]. }
  rewrite Hg. split; [done|]. by apply (wheel_step_bounded shard_count max_pending tick_period Hmax w (Tick now)).
Qed.

(** Scheduling an identifier again does not move its timer: the old entry stays
    in its bucket, fires at the old deadline with the old kind, and nothing is
    left for the new deadline.  The generated identifiers are never reused. *)
Lemma rescheduled_fires_at_old_deadline `{StableHash} `{Mailboxes M} shard_count max_pending tick_period
    (m : M) k id d1 d2 kind1 kind2 now :
  d1 <= now < d2 ->
  let w := wheel_run shard_count max_pending tick_period (wheel_new m)
             [Command (Schedule k id d1 kind1); Command (Schedule k id d2 kind2)] in
  out (tick shard_count max_pending tick_period now w)
    = finish_tick shard_count max_pending
        (offer shard_count max_pending (record_fired (out w)) (Timer k id kind1))
  /\ timer_map (tick shard_count max_pending tick_period now w) = ∅.
Proof.
  intros Hd w. unfold w, tick. simpl.
  rewrite (proj2 (Z.ltb_ge d2 d1)), (proj2 (Z.eqb_neq d2 d1)) by lia. simpl.
  rewrite (proj2 (Z.ltb_ge now d1)) by lia. rewrite lookup_insert_eq. simpl.
  rewrite (proj2 (Z.ltb_lt now d2)) by lia. simpl. split; [done|].
  apply map_eq. intros i. rewrite lookup_empty, lookup_delete_None.
  destruct (decide (id = i)); [by left|right]. by rewrite !lookup_insert_ne, lookup_empty by done.
Qed.

(** ** Witnesses *)

(** Two mailboxes of one message each. *)
#[local] Instance sample_hash : StableHash := dk_device_id.
Definition sample_send (m : list (list RuntimeMessage)) (i : Z) (msg : RuntimeMessage) :
    list (list RuntimeMessage) * TrySend :=
  match m !! Z.to_nat i with
  | Some [] => (<[Z.to_nat i := [msg]]> m, Sent)
  | Some _ => (m, Full)
  | None => (m, Closed)
  end.
#[local] Instance sample_mailboxes : Mailboxes (list (list RuntimeMessage)) :=
  {| senders_len := fun m => Z.of_nat (length m); try_send := sample_send |}.

Definition key_a : DeviceKey := mkDeviceKey 1 4.
Definition key_b : DeviceKey := mkDeviceKey 1 7.
Definition sample_events : list WheelEvent :=
  [ Command (Schedule key_a 2 30 "heartbeat"); Command (Schedule key_a 1 10 "register");
    Command (Schedule key_b 3 20 "poll"); Tick 5; Command (Cancel key_b 3); Tick 40 ].

(** The first due timer fills the mailbox of its shard, the second waits. *)
Example sample_run :
  let w := wheel_run 2 8 5 (wheel_new [[]; []]) sample_events in
  mail (out w) = [[Timer key_a 1 "register"]; []]
  /\ pending_dispatch (out w) = [Timer key_a 2 "heartbeat"]
  /\ timers_by_deadline w = [] /\ timers_fired (metrics (out w)) = 2.
Proof. vm_compute. split_and!; reflexivity. Qed.

Lemma wheel_refines_queue_witness :
  simulates (wheel_run 2 8 5 (wheel_new [[]; []]) sample_events)
    (foldl (queue_step 2 8 5) (queue_new [[]; []]) sample_events).
Proof.
  apply (wheel_refines_queue 2 8 5 [[]; []] sample_events).
  vm_compute. repeat split; repeat constructor; discriminate.
Defined.

Lemma actor_timers_refine_queue_witness :
  simulates (wheel_run 2 8 5 (wheel_new [[]; []]) sample_events)
    (foldl (queue_step 2 8 5) (queue_new [[]; []]) sample_events).
Proof.
  apply (actor_timers_refine_queue 2 8 5 [[]; []] sample_events 3); [|lia].
  vm_compute. apply perm_swap.
Defined.

Lemma pending_bounded_witness :
  Z.of_nat (length (pending_dispatch (out (wheel_run 2 0 5 (wheel_new [[]; []]) sample_events)))) <= 0.
Proof. exact (proj1 (pending_bounded 2 0 5 [[]; []] sample_events 50 (Z.le_refl 0))). Defined.
