(* ===== verification/Admission.v ===== *)
(** * Admission primitives

    [cheetah-signal-types/src/admission]: traffic classes and priorities, the
    token bucket, the rate limiter with one bucket per key, the coalescer, the
    dead-letter queue and the backlog controller.  They are composed by the
    admission policy of the runtime ([AdmissionPolicy]) and by the ingress of the
    application.  Times are [i64] milliseconds supplied by the caller. *)

From S2P Require Import Prelude.

Open Scope list_scope.
Open Scope Z_scope.


(** ** Traffic classes *)

Inductive Priority := Low | Normal | High.
#[global] Instance Priority_eq_dec : EqDecision Priority.
Proof. solve_decision. Defined.

Inductive TrafficClass :=
| TcCommand | TcCatalog | TcKeepalive | TcPosition | TcAlarm | TcLocation | TcOther.
#[global] Instance TrafficClass_eq_dec : EqDecision TrafficClass.
Proof. solve_decision. Defined.
#[global] Instance TrafficClass_countable : Countable TrafficClass.
Proof.
  refine (inj_countable'
    (fun c => match c with TcCommand => 0 | TcCatalog => 1 | TcKeepalive => 2 | TcPosition => 3
                         | TcAlarm => 4 | TcLocation => 5 | TcOther => 6 end%nat)
    (fun n => match n with 0 => TcCommand | 1 => TcCatalog | 2 => TcKeepalive | 3 => TcPosition
                         | 4 => TcAlarm | 5 => TcLocation | _ => TcOther end%nat) _).
  by intros [].
Defined.

(** [TrafficClass::priority] and [TrafficClass::is_coalescible]. *)
Definition class_priority (c : TrafficClass) : Priority :=
  match c with
  | TcCommand => High
  | TcCatalog | TcAlarm | TcOther => Normal
  | TcKeepalive | TcPosition | TcLocation => Low
  end.
Definition is_coalescible (c : TrafficClass) : bool :=
  match c with TcKeepalive | TcPosition => true | _ => false end.

(** ** The token bucket *)

Module Bucket.

Definition MILLI : Z := 1000.

Record TokenBucketConfig := mkConfig { capacity_tokens : Z; refill_tokens_per_sec : Z }.
Definition sanitized (c : TokenBucketConfig) : TokenBucketConfig :=
  mkConfig (if capacity_tokens c =? 0 then 1 else capacity_tokens c)
           (if refill_tokens_per_sec c =? 0 then 1 else refill_tokens_per_sec c).

Record TokenBucket := mkBucket {
  capacity_milli : Z;
  refill_per_sec : Z;
  tokens_milli : Z;
  last_refill_ms : Z
}.

Definition new (config : TokenBucketConfig) (now_ms : Z) : TokenBucket :=
  let config := sanitized config in
  let capacity := sat_mul64 (capacity_tokens config) MILLI in
  mkBucket capacity (refill_tokens_per_sec config) capacity now_ms.

Definition refill (b : TokenBucket) (now_ms : Z) : TokenBucket :=
  let elapsed_ms := sat_sub_i64 now_ms (last_refill_ms b) in
  if elapsed_ms <=? 0 then b
  else
    let added := sat_mul64 elapsed_ms (refill_per_sec b) in
    mkBucket (capacity_milli b) (refill_per_sec b)
      (Z.min (sat_add64 (tokens_milli b) added) (capacity_milli b)) now_ms.

Definition try_acquire (b : TokenBucket) (now_ms cost_tokens : Z) : TokenBucket * bool :=
  let b := refill b now_ms in
  let cost_milli := sat_mul64 (Z.max cost_tokens 1) MILLI in
  if cost_milli <=? tokens_milli b
  then (mkBucket (capacity_milli b) (refill_per_sec b) (tokens_milli b - cost_milli) (last_refill_ms b), true)
  else (b, false).

(** A run of one-token requests: the decisions and the bucket left. *)
Fixpoint run (b : TokenBucket) (times : list Z) : TokenBucket * list bool :=
  match times with
  | [] => (b, [])
  | t :: times =>
      let '(b, ok) := try_acquire b t 1 in
      let '(b, oks) := run b times in
      (b, ok :: oks)
  end.
Fixpoint granted (oks : list bool) : Z :=
  match oks with [] => 0 | ok :: oks => Z.b2z ok + granted oks end.

(** *** The bucket within its bounds *)

Record ok (b : TokenBucket) : Prop := {
  ok_capacity : 1000 <= capacity_milli b <= U64_MAX;
  ok_refill : 1 <= refill_per_sec b <= U64_MAX;
  ok_tokens : 0 <= tokens_milli b <= capacity_milli b;
  ok_last : is_i64 (last_refill_ms b)
}.

Definition config_ok (c : TokenBucketConfig) : Prop :=
  is_u64 (capacity_tokens c) /\ is_u64 (refill_tokens_per_sec c).

Lemma new_ok c now : config_ok c -> is_i64 now -> ok (new c now).
Proof.
  unfold config_ok, is_u64, new, sanitized, sat_mul64, MILLI. intros [Hc Hr] Hn.
  split; simpl; [..|done]; destruct (Z.eqb_spec (capacity_tokens c) 0);
    destruct (Z.eqb_spec (refill_tokens_per_sec c) 0); unfold U64_MAX in *; lia.
Qed.

Lemma refill_ok b now : ok b -> is_i64 now -> ok (refill b now).
Proof.
  intros [Hc Hr Ht Hl] Hn. unfold refill. destruct (Z.leb_spec (sat_sub_i64 now (last_refill_ms b)) 0); [by split|].
  assert (0 <= sat_mul64 (sat_sub_i64 now (last_refill_ms b)) (refill_per_sec b)).
  { unfold sat_mul64, U64_MAX. nia. }
  split; simpl; [done|done| |done]. unfold sat_add64. lia.
Qed.

(** What a refill adds is at most the rate times the elapsed time. *)
Lemma refill_adds b now :
  ok b -> tokens_milli (refill b now) + refill_per_sec b * last_refill_ms b
    <= tokens_milli b + refill_per_sec b * last_refill_ms (refill b now).
Proof.
  intros [Hc Hr Ht Hl]. unfold refill.
  destruct (Z.leb_spec (sat_sub_i64 now (last_refill_ms b)) 0); [done|]. simpl.
  assert (sat_sub_i64 now (last_refill_ms b) <= now - last_refill_ms b).
  { unfold sat_sub_i64, I64_MIN, I64_MAX in *. lia. }
  unfold sat_add64, sat_mul64. nia.
Qed.

Lemma refill_config b now :
  capacity_milli (refill b now) = capacity_milli b /\ refill_per_sec (refill b now) = refill_per_sec b
  /\ last_refill_ms b <= last_refill_ms (refill b now)
  /\ last_refill_ms (refill b now) <= Z.max now (last_refill_ms b).
Proof.
  unfold refill. destruct (Z.leb_spec (sat_sub_i64 now (last_refill_ms b)) 0); simpl; [lia|].
  unfold sat_sub_i64, I64_MIN, I64_MAX in *. lia.
Qed.

Lemma try_acquire_spec b now :
  ok b -> is_i64 now ->
  let '(b1, r) := try_acquire b now 1 in
  ok b1 /\ capacity_milli b1 = capacity_milli b /\ refill_per_sec b1 = refill_per_sec b
  /\ last_refill_ms b <= last_refill_ms b1 <= Z.max now (last_refill_ms b)
  /\ 1000 * Z.b2z r + tokens_milli b1 + refill_per_sec b * last_refill_ms b
     <= tokens_milli b + refill_per_sec b * last_refill_ms b1.
Proof.
  intros Hb Hn. pose proof (refill_ok b now Hb Hn) as [Hc Hr Ht Hl].
  pose proof (refill_adds b now Hb). destruct (refill_config b now) as (? & ? & ? & ?).
  unfold try_acquire, sat_mul64, MILLI, U64_MAX.
  destruct (Z.leb_spec (Z.min (2 ^ 64 - 1) (Z.max 1 1 * 1000)) (tokens_milli (refill b now))); simpl.
  - split_and!; try lia. split; simpl; [done|done|lia|done].
  - split_and!; try lia. by split.
Qed.

(** *** Rates *)

Lemma run_spec times : forall b,
  ok b -> Forall is_i64 times ->
  ok (run b times).1 /\ capacity_milli (run b times).1 = capacity_milli b
  /\ refill_per_sec (run b times).1 = refill_per_sec b
  /\ last_refill_ms b <= last_refill_ms (run b times).1
  /\ (forall t, last_refill_ms b <= t -> Forall (fun x => x <= t) times -> last_refill_ms (run b times).1 <= t)
  /\ 1000 * granted (run b times).2 + tokens_milli (run b times).1 + refill_per_sec b * last_refill_ms b
     <= tokens_milli b + refill_per_sec b * last_refill_ms (run b times).1.
Proof.
  induction times as [|t times IH]; intros b Hb Hi; simpl; [split_and!; try done; lia|].
  apply Forall_cons in Hi as [Ht Hi]. pose proof (try_acquire_spec b t Hb Ht) as Hs.
  destruct (try_acquire b t 1) as [b1 r]. destruct Hs as (Hb1 & Hc & Hr & Hl & Hg).
  destruct (IH b1 Hb1 Hi) as (Hb2 & Hc2 & Hr2 & Hl2 & Hm2 & Hg2).
  destruct (run b1 times) as [b2 rs]. simpl in *. rewrite Hr in Hg2.
  split_and!; [done|congruence|congruence|lia| |].
  - intros T HT [H1 H2]%Forall_cons. apply Hm2; [lia | done].
  - lia.
Qed.

(** Requests in a window after the first refill of it. *)
Lemma window_from b window s T :
  ok b -> Forall is_i64 window -> s <= T -> last_refill_ms b <= s ->
  Forall (fun t => s <= t <= T) window ->
  1000 * granted (run b window).2 <= capacity_milli b + refill_per_sec b * (T - s).
Proof.
  intros Hb Hi HsT Hlast Hw. destruct window as [|t window].
  { simpl. destruct Hb as [Hc Hr _ _]. nia. }
  (* the first request refills the bucket to the time it comes at *)
  assert (run b (t :: window) = run (refill b t) (t :: window)) as ->.
  { simpl. unfold try_acquire. replace (refill (refill b t) t) with (refill b t); [done|].
    unfold refill at 2. destruct (Z.leb_spec (sat_sub_i64 t (last_refill_ms (refill b t))) 0) as [|Hpos]; [done|].
    exfalso. revert Hpos. unfold refill.
    destruct (Z.leb_spec (sat_sub_i64 t (last_refill_ms b)) 0); simpl; [lia|].
    unfold sat_sub_i64, I64_MIN, I64_MAX. lia. }
  pose proof Hi as [Ht _]%Forall_cons. pose proof Hw as [Hst _]%Forall_cons.
  destruct (refill_config b t) as (Hc & Hr & Hl1 & Hl2).
  assert (s <= last_refill_ms (refill b t)) as Hs.
  { unfold refill. destruct (Z.leb_spec (sat_sub_i64 t (last_refill_ms b)) 0) as [Hle|]; simpl; [|lia].
    unfold sat_sub_i64, I64_MIN, I64_MAX in Hle. lia. }
  destruct (run_spec (t :: window) (refill b t)) as (Hok & _ & _ & _ & Hm & Hg); [by apply refill_ok|done|].
  specialize (Hm T). destruct (refill_ok b t Hb Ht) as [_ Hr1 Htok _]. destruct Hok as [_ _ Htok2 _].
  assert (last_refill_ms (run (refill b t) (t :: window)).1 <= T) as HT.
  { apply Hm; [lia|]. eapply Forall_impl; [exact Hw|]. simpl. lia. }
  rewrite Hr in *. rewrite Hc in *. nia.
Qed.

(** *** A bucket without machine integers *)

(** The bucket of the textbook: the level grows with the rate, never beyond the
    capacity. *)
Definition ideal (b : TokenBucket) (now_ms : Z) : TokenBucket * bool :=
  let last := Z.max (last_refill_ms b) now_ms in
  let level := Z.min (capacity_milli b)
                 (tokens_milli b + refill_per_sec b * (last - last_refill_ms b)) in
  if 1000 <=? level
  then (mkBucket (capacity_milli b) (refill_per_sec b) (level - 1000) last, true)
  else (mkBucket (capacity_milli b) (refill_per_sec b) level last, false).

Lemma try_acquire_ideal b now :
  ok b -> 0 <= last_refill_ms b -> 0 <= now <= I64_MAX -> try_acquire b now 1 = ideal b now.
Proof.
  intros [Hc Hr Ht Hl] Hl0 Hn. unfold try_acquire, ideal, refill. change (sat_mul64 (Z.max 1 1) MILLI) with 1000.
  assert (sat_sub_i64 now (last_refill_ms b) = now - last_refill_ms b) as ->.
  { unfold sat_sub_i64, is_i64, I64_MIN, I64_MAX in *. lia. }
  destruct (Z.leb_spec (now - last_refill_ms b) 0).
  - rewrite (Z.max_l (last_refill_ms b) now) by lia. rewrite Z.sub_diag, Z.mul_0_r, Z.add_0_r.
    rewrite (Z.min_r (capacity_milli b)) by lia. by destruct b.
  - rewrite (Z.max_r (last_refill_ms b) now) by lia. simpl.
    assert (Z.min (sat_add64 (tokens_milli b) (sat_mul64 (now - last_refill_ms b) (refill_per_sec b)))
              (capacity_milli b)
            = Z.min (capacity_milli b) (tokens_milli b + refill_per_sec b * (now - last_refill_ms b))) as ->.
    { unfold sat_add64, sat_mul64. rewrite (Z.mul_comm (now - _)).
      assert (0 <= refill_per_sec b * (now - last_refill_ms b)) by nia. lia. }
    done.
Qed.

End Bucket.

(** The token bucket enforces its rate: whatever requests came before and
    however the clock moved, the requests granted in a window of time are at most
    the burst capacity plus the refill rate times the length of the window. *)
Theorem bucket_window_rate (c : Bucket.TokenBucketConfig) t0 before window s T :
  Bucket.config_ok c -> 1 <= Bucket.capacity_tokens c <= 10 ^ 16 -> 1 <= Bucket.refill_tokens_per_sec c ->
  Forall is_i64 (t0 :: before ++ window) -> s <= T ->
  Forall (fun t => t <= s) (t0 :: before) -> Forall (fun t => s <= t <= T) window ->
  let b := (Bucket.run (Bucket.new c t0) before).1 in
  1000 * Bucket.granted (Bucket.run b window).2
    <= 1000 * Bucket.capacity_tokens c + Bucket.refill_tokens_per_sec c * (T - s).
Proof.
  intros Hc Hcap Href Hi HsT Hbefore Hw b.
  apply Forall_cons in Hi as [Hi0 Hi]. apply Forall_app in Hi as [Hi1 Hi2].
  apply Forall_cons in Hbefore as [Hb0 Hbefore].
  destruct (Bucket.run_spec before (Bucket.new c t0)) as (Hok & Hc1 & Hr1 & _ & Hm & _);
    [by apply Bucket.new_ok|done|].
  pose proof (Bucket.window_from b window s T Hok Hi2 HsT (Hm s Hb0 Hbefore) Hw) as Hg.
  assert (Bucket.capacity_milli (Bucket.new c t0) = 1000 * Bucket.capacity_tokens c
          /\ Bucket.refill_per_sec (Bucket.new c t0) = Bucket.refill_tokens_per_sec c) as [Hcn Hrn].
  { unfold Bucket.new, Bucket.sanitized, sat_mul64, Bucket.MILLI, U64_MAX. simpl.
    rewrite !(proj2 (Z.eqb_neq _ _)) by lia. lia. }
  unfold b in Hg |- *. rewrite Hc1, Hr1, Hcn, Hrn in Hg. lia.
Qed.

(** ** One bucket per key *)

Module Limiter.
Section Limiter.
Context {K : Type} `{Countable K}.

Record KeyedRateLimiter := mkLimiter {
  config : Bucket.TokenBucketConfig;
  max_keys : Z;
  buckets : gmap K Bucket.TokenBucket;
  lru : list K;
  evicted_total : Z
}.

Definition new (config : Bucket.TokenBucketConfig) (max_keys : Z) : KeyedRateLimiter :=
  mkLimiter (Bucket.sanitized config) (Z.max max_keys 1) ∅ [] 0.

Fixpoint remove_first (key : K) (l : list K) : list K :=
  match l with
  | [] => []
  | k :: l => if decide (k = key) then l else k :: remove_first key l
  end.
Definition touch (key : K) (l : list K) : list K := remove_first key l ++ [key].

(** The loop of [evict_if_needed]; each round pops the queue. *)
Fixpoint evict (max : Z) (l : list K) (m : gmap K Bucket.TokenBucket) (evicted : Z) :
    list K * gmap K Bucket.TokenBucket * Z :=
  if max <=? Z.of_nat (size m) then
    match l with
    | [] => (l, m, evicted)
    | oldest :: l =>
        match m !! oldest with
        | Some _ => evict max l (delete oldest m) (wrap64 (evicted + 1))
        | None => evict max l m evicted
        end
    end
  else (l, m, evicted).

Definition try_acquire (r : KeyedRateLimiter) (key : K) (now_ms : Z) : KeyedRateLimiter * bool :=
  match buckets r !! key with
  | Some bucket =>
      let '(bucket, allowed) := Bucket.try_acquire bucket now_ms 1 in
      (mkLimiter (config r) (max_keys r) (<[key := bucket]> (buckets r)) (touch key (lru r))
         (evicted_total r), allowed)
  | None =>
      let '(l, m, evicted) := evict (max_keys r) (lru r) (buckets r) (evicted_total r) in
      let '(bucket, allowed) := Bucket.try_acquire (Bucket.new (config r) now_ms) now_ms 1 in
      (mkLimiter (config r) (max_keys r) (<[key := bucket]> m) (l ++ [key]) evicted, allowed)
  end.

Fixpoint run (r : KeyedRateLimiter) (reqs : list (K * Z)) : KeyedRateLimiter * list bool :=
  match reqs with
  | [] => (r, [])
  | (k, t) :: reqs =>
      let '(r, a) := try_acquire r k t in
      let '(r, rest) := run r reqs in
      (r, a :: rest)
  end.

(** *** Invariant *)

(** The queue lists every tracked key once. *)
Record inv (r : KeyedRateLimiter) : Prop := {
  inv_nodup : NoDup (lru r);
  inv_dom : forall k, k ∈ lru r <-> is_Some (buckets r !! k);
  inv_size : Z.of_nat (size (buckets r)) <= max_keys r;
  inv_max : 1 <= max_keys r
}.

Lemma inv_new c m : inv (new c m).
Proof.
  split; simpl; [constructor| |rewrite map_size_empty; lia|lia].
  intros k. rewrite lookup_empty. split; [by intros ?%elem_of_nil | by intros []].
Qed.

Lemma elem_of_remove_first key l k : NoDup l -> k ∈ remove_first key l <-> k ∈ l /\ k <> key.
Proof.
  induction l as [|a l IH]; intros Hnd; simpl; [split; [by intros ?%elem_of_nil | by intros [?%elem_of_nil _]]|].
  apply NoDup_cons in Hnd as [Ha Hnd]. destruct (decide (a = key)) as [->|Hne].
  - rewrite elem_of_cons. split; [intros Hk; split; [by right | by intros ->] | by intros [[->|] ?]].
  - rewrite !elem_of_cons, IH by done. split; [intros [->|[? ?]]; auto | intros [[->|?] ?]; auto].
Qed.

Lemma NoDup_remove_first key l : NoDup l -> NoDup (remove_first key l).
Proof.
  induction l as [|a l IH]; intros Hnd; simpl; [done|]. pose proof Hnd as [Ha Hnd1]%NoDup_cons.
  destruct (decide (a = key)); [done|]. apply NoDup_cons. split; [|auto].
  rewrite elem_of_remove_first by done. tauto.
Qed.

Lemma NoDup_snoc (l : list K) k : NoDup l -> k ∉ l -> NoDup (l ++ [k]).
Proof.
  intros Hl Hk. apply NoDup_app. split_and!; [done| |by apply NoDup_singleton].
  intros x Hx ->%list_elem_of_singleton. done.
Qed.

Lemma size_lru (l : list K) (m : gmap K Bucket.TokenBucket) :
  NoDup l -> (forall k, k ∈ l <-> is_Some (m !! k)) -> size m = length l.
Proof.
  intros Hnd Hd. rewrite <-(size_dom m), <-(size_list_to_set (C:=gset K) l) by done. f_equal.
  apply set_eq. intros k. rewrite elem_of_dom, elem_of_list_to_set. symmetry. apply Hd.
Qed.

(** Eviction drops a prefix of the queue, just enough to make room. *)
Lemma evict_spec max l m e :
  1 <= max -> NoDup l -> (forall k, k ∈ l <-> is_Some (m !! k)) ->
  exists gone l1 m1 e1, evict max l m e = (l1, m1, e1) /\ l = gone ++ l1
    /\ (forall k, m1 !! k = if decide (k ∈ gone) then None else m !! k)
    /\ Z.of_nat (size m1) < max /\ (Z.of_nat (size m) < max -> gone = []).
Proof.
  intros Hmax. revert m e. induction l as [|a l IH]; intros m e Hnd Hd; simpl.
  - exists [], [], m, e. pose proof (size_lru [] m Hnd Hd) as Hs. simpl in Hs. rewrite Hs.
    rewrite (proj2 (Z.leb_gt _ _)) by (simpl; lia). split_and!; try done; simpl; lia.
  - destruct (Z.leb_spec max (Z.of_nat (size m))) as [Hle|Hlt].
    + destruct (proj1 (Hd a)) as [b Hb]; [by left|]. rewrite Hb.
      pose proof Hnd as [Ha Hnd1]%NoDup_cons.
      destruct (IH (delete a m) (wrap64 (e + 1)) Hnd1) as (gone & l1 & m1 & e1 & -> & -> & Hm & Hs & Hg).
      { intros k. rewrite lookup_delete_is_Some, <-Hd, elem_of_cons. split; [|naive_solver].
        intros Hk. split; [by intros -> | by right]. }
      exists (a :: gone), l1, m1, e1. split_and!; [done|done| |done|lia].
      intros k. rewrite Hm, lookup_delete.
      destruct (decide (k ∈ gone)), (decide (k ∈ a :: gone)) as [Hk|Hk], (decide (a = k)) as [<-|];
        done || (exfalso; set_solver).
    + exists [], (a :: l), m, e. split_and!; try done.
Qed.

Lemma try_acquire_inv r k t : inv r -> inv (try_acquire r k t).1.
Proof.
  intros [Hnd Hd Hs Hm]. unfold try_acquire. destruct (buckets r !! k) as [b|] eqn:Hb.
  - destruct (Bucket.try_acquire b t 1) as [b1 a]. split; simpl; [..|done].
    + unfold touch. apply NoDup_snoc; [by apply NoDup_remove_first|].
      rewrite elem_of_remove_first by done. tauto.
    + intros k1. unfold touch. rewrite elem_of_app, elem_of_remove_first, list_elem_of_singleton, Hd by done.
      rewrite lookup_insert_is_Some. destruct (decide (k1 = k)); naive_solver.
    + rewrite map_size_insert, Hb. done.
  - destruct (evict_spec (max_keys r) (lru r) (buckets r) (evicted_total r)) as
      (gone & l1 & m1 & e1 & -> & Hl & Hlook & Hsz & _); [done..|].
    destruct (Bucket.try_acquire _ t 1) as [b1 a]. rewrite Hl in Hnd, Hd.
    apply NoDup_app in Hnd as (Hng & Hdis & Hnd1).
    assert (forall k1, k1 ∈ l1 <-> is_Some (m1 !! k1)) as Hd1.
    { intros k1. rewrite Hlook. destruct (decide (k1 ∈ gone)) as [Hg|Hg].
      - split; [intros; by destruct (Hdis k1 Hg) | by intros []].
      - rewrite <-Hd, elem_of_app. naive_solver. }
    assert (m1 !! k = None) as Hk1 by (rewrite Hlook; by case_decide).
    split; simpl; [..|done].
    + apply NoDup_snoc; [done|]. rewrite Hd1, Hk1. by intros [].
    + intros k1. rewrite elem_of_app, list_elem_of_singleton, Hd1, lookup_insert_is_Some.
      destruct (decide (k1 = k)); naive_solver.
    + rewrite map_size_insert, Hk1. lia.
Qed.

Lemma run_inv reqs : forall r, inv r -> inv (run r reqs).1.
Proof.
  induction reqs as [|[k t] reqs IH]; intros r Hr; simpl; [done|].
  pose proof (try_acquire_inv r k t Hr) as Hi. destruct (try_acquire r k t) as [r1 a].
  specialize (IH r1 Hi). by destruct (run r1 reqs).
Qed.

Lemma try_acquire_config r k t :
  config (try_acquire r k t).1 = config r /\ max_keys (try_acquire r k t).1 = max_keys r.
Proof.
  unfold try_acquire. destruct (buckets r !! k).
  - by destruct (Bucket.try_acquire _ _ _).
  - destruct (evict _ _ _ _) as [[l m] e]. by destruct (Bucket.try_acquire _ _ _).
Qed.

(** *** Keys do not disturb each other *)

(** The decisions on the requests of a key, and their times. *)
Fixpoint own (k : K) (reqs : list (K * Z)) (oks : list bool) : list bool :=
  match reqs, oks with
  | (k1, _) :: reqs, ok :: oks => if decide (k1 = k) then ok :: own k reqs oks else own k reqs oks
  | _, _ => []
  end.
Definition times_of (k : K) (reqs : list (K * Z)) : list Z := (filter (fun x => x.1 = k) reqs).*2.

(** The decisions of a bucket that only [k] uses. *)
Definition alone (r : KeyedRateLimiter) (k : K) (times : list Z) : list bool :=
  match buckets r !! k, times with
  | Some b, _ => (Bucket.run b times).2
  | None, [] => []
  | None, t :: _ => (Bucket.run (Bucket.new (config r) t) times).2
  end.

(** With room for the keys of the requests nothing is evicted. *)
Definition room (r : KeyedRateLimiter) (reqs : list (K * Z)) : Prop :=
  Z.of_nat (size (dom (buckets r) ∪ list_to_set reqs.*1)) <= max_keys r.

Lemma try_acquire_room r k t reqs :
  inv r -> room r ((k, t) :: reqs) ->
  let '(b1, a) := Bucket.try_acquire (default (Bucket.new (config r) t) (buckets r !! k)) t 1 in
  (try_acquire r k t).2 = a /\ buckets (try_acquire r k t).1 = <[k := b1]> (buckets r).
Proof.
  intros Hr Hroom. unfold try_acquire. destruct (buckets r !! k) as [b|] eqn:Hb; simpl.
  - by destruct (Bucket.try_acquire b t 1).
  - destruct Hr as [Hnd Hd _ Hm].
    destruct (evict_spec (max_keys r) (lru r) (buckets r) (evicted_total r)) as
      (gone & l1 & m1 & e1 & -> & Hl & Hlook & _ & Hg); [done..|].
    assert (gone = []) as ->.
    { apply Hg. unfold room in Hroom. rewrite fmap_cons, list_to_set_cons in Hroom. cbn [fst] in Hroom.
      assert (size ({[k]} ∪ dom (buckets r)) <= size (dom (buckets r) ∪ ({[k]} ∪ list_to_set reqs.*1)))%nat as Hle.
      { apply subseteq_size. set_solver. }
      assert (size ({[k]} ∪ dom (buckets r)) = S (size (buckets r))) as Hs.
      { rewrite size_union; [by rewrite size_singleton, size_dom|].
        apply disjoint_singleton_l. by apply not_elem_of_dom. }
      lia. }
    assert (m1 = buckets r) as ->.
    { apply map_eq. intros k1. rewrite Hlook. by destruct (decide (k1 ∈ [])) as [?%elem_of_nil|]. }
    by destruct (Bucket.try_acquire _ t 1).
Qed.

Lemma room_step r k t reqs :
  inv r -> room r ((k, t) :: reqs) -> room (try_acquire r k t).1 reqs.
Proof.
  intros Hr Hroom. pose proof (try_acquire_room r k t reqs Hr Hroom) as Hs.
  destruct (Bucket.try_acquire _ t 1) as [b1 a]. destruct Hs as [_ Hs].
  unfold room in *. rewrite Hs, dom_insert_L, (proj2 (try_acquire_config r k t)).
  etrans; [|exact Hroom]. simpl. apply inj_le, subseteq_size. set_solver.
Qed.

Lemma run_alone reqs : forall r k,
  inv r -> room r reqs -> own k reqs (run r reqs).2 = alone r k (times_of k reqs).
Proof.
  induction reqs as [|[k1 t] reqs IH]; intros r k Hr Hroom.
  { unfold alone, times_of. simpl. by destruct (buckets r !! k). }
  pose proof (try_acquire_room r k1 t reqs Hr Hroom) as Hs.
  pose proof (try_acquire_inv r k1 t Hr) as Hi. pose proof (room_step r k1 t reqs Hr Hroom) as Hroom1.
  pose proof (try_acquire_config r k1 t) as [Hc _].
  simpl. destruct (try_acquire r k1 t) as [r1 a1]. simpl in *.
  destruct (Bucket.try_acquire _ t 1) as [b1 a] eqn:Hacq. destruct Hs as [-> Hs].
  specialize (IH r1 k Hi Hroom1). destruct (run r1 reqs) as [r2 oks]. simpl in *. rewrite IH.
  unfold alone. rewrite Hs, Hc. unfold times_of.
  destruct (decide (k1 = k)) as [->|Hne].
  - rewrite filter_cons_True by done. rewrite lookup_insert_eq. simpl.
    destruct (buckets r !! k); simpl in Hacq; rewrite Hacq; by destruct (Bucket.run b1 _).
  - rewrite filter_cons_False by done. by rewrite lookup_insert_ne.
Qed.
End Limiter.
Arguments KeyedRateLimiter K {_ _}.
End Limiter.

(** The keyed rate limiter tracks at most its maximum of keys, with a queue
    that lists every tracked key once, on every sequence of requests; and while
    the keys of the requests fit, the decisions on a key are those of a token
    bucket that only this key uses, created at its first request. *)
Theorem limiter_isolates_keys `{Countable K} (c : Bucket.TokenBucketConfig) max_keys (reqs : list (K * Z)) :
  Limiter.inv (Limiter.run (Limiter.new c max_keys) reqs).1
  /\ (Z.of_nat (size (list_to_set reqs.*1 : gset K)) <= max_keys ->
     forall k t times, Limiter.times_of k reqs = t :: times ->
       Limiter.own k reqs (Limiter.run (Limiter.new c max_keys) reqs).2
         = (Bucket.run (Bucket.new c t) (t :: times)).2).
Proof.
  split; [apply Limiter.run_inv, Limiter.inv_new|]. intros Hsz k t times Ht.
  rewrite Limiter.run_alone; [|apply Limiter.inv_new|].
  - unfold Limiter.alone. simpl. rewrite lookup_empty, Ht.
    assert (Bucket.new (Bucket.sanitized c) t = Bucket.new c t) as ->; [|done].
    unfold Bucket.new, Bucket.sanitized. simpl.
    destruct (Z.eqb_spec (Bucket.capacity_tokens c) 0), (Z.eqb_spec (Bucket.refill_tokens_per_sec c) 0); simpl;
      rewrite ?(proj2 (Z.eqb_neq _ _)) by done; done.
  - unfold Limiter.room. simpl. rewrite dom_empty_L, union_empty_l_L. lia.
Qed.

(** ** Coalescing *)

Module Coalesce.
Section Coalesce.
Context {K : Type} `{Countable K}.

Inductive CoalesceDecision := CdAdmit | CdCoalesced.

Record Coalescer := mkCoalescer { pending : gset K; max_tracked : Z; coalesced_total : Z }.

Definition new (max_tracked : Z) : Coalescer := mkCoalescer ∅ (Z.max max_tracked 1) 0.

Definition observe (c : Coalescer) (key : K) : Coalescer * CoalesceDecision :=
  if decide (key ∈ pending c) then
    (mkCoalescer (pending c) (max_tracked c) (wrap64 (coalesced_total c + 1)), CdCoalesced)
  else if Z.of_nat (size (pending c)) <? max_tracked c then
    (mkCoalescer ({[key]} ∪ pending c) (max_tracked c) (coalesced_total c), CdAdmit)
  else (c, CdAdmit).

Definition release (c : Coalescer) (key : K) : Coalescer :=
  mkCoalescer (pending c ∖ {[key]}) (max_tracked c) (coalesced_total c).

Definition bounded (c : Coalescer) : Prop := Z.of_nat (size (pending c)) <= max_tracked c.

Lemma new_bounded m : bounded (new m).
Proof. unfold bounded. cbn [pending max_tracked new]. rewrite size_empty. lia. Qed.
Lemma observe_bounded c k : bounded c -> bounded (observe c k).1.
Proof.
  unfold bounded, observe. intros Hc. destruct (decide _) as [|Hk]; simpl; [done|].
  destruct (Z.ltb_spec (Z.of_nat (size (pending c))) (max_tracked c)); simpl; [|done].
  rewrite size_union, size_singleton; [lia | by apply disjoint_singleton_l].
Qed.
Lemma release_bounded c k : bounded c -> bounded (release c k).
Proof.
  unfold bounded, release. simpl. intros Hc. etrans; [|exact Hc].
  apply inj_le, subseteq_size. set_solver.
Qed.
End Coalesce.
Arguments Coalescer K {_ _}.
End Coalesce.

(** ** Dead letters *)

Inductive DeadLetterReason := DlRateLimited | DlOverloaded | DlPriorityShed | DlRedriveExhausted.
#[global] Instance DeadLetterReason_eq_dec : EqDecision DeadLetterReason.
Proof. solve_decision. Defined.

Module Dlq.
Section Dlq.
Context {T : Type}.

Record DeadLetterEntry := mkEntry {
  payload : T; reason : DeadLetterReason; enqueued_at_ms : Z; attempts : Z }.

Record DeadLetterQueue := mkDlq {
  buf : list DeadLetterEntry;
  capacity : Z;
  enqueued_total : Z;
  dropped_total : Z;
  redriven_total : Z
}.

Definition new (capacity : Z) : DeadLetterQueue := mkDlq [] (Z.max capacity 1) 0 0 0.

Definition push_entry (q : DeadLetterQueue) (entry : DeadLetterEntry) : DeadLetterQueue :=
  let '(b, dropped) := if capacity q <=? Z.of_nat (length (buf q))
                       then (tail (buf q), wrap64 (dropped_total q + 1))
                       else (buf q, dropped_total q) in
  mkDlq (b ++ [entry]) (capacity q) (wrap64 (enqueued_total q + 1)) dropped (redriven_total q).

Definition push (q : DeadLetterQueue) (p : T) (r : DeadLetterReason) (now_ms : Z) : DeadLetterQueue :=
  push_entry q (mkEntry p r now_ms 0).

Definition drain (q : DeadLetterQueue) (max : Z) : DeadLetterQueue * list DeadLetterEntry :=
  let n := Z.to_nat (Z.min max (Z.of_nat (length (buf q)))) in
  let out := take n (buf q) in
  (mkDlq (drop n (buf q)) (capacity q) (enqueued_total q) (dropped_total q)
     (wrap64 (redriven_total q + Z.of_nat (length out))), out).

(** The totals balance: [redriven_total] counts the entries that a drain took out,
    whatever became of them, and all totals count modulo 2^64.  What becomes of
    each entry is stated for the controller ([letters_after] in [AdmissionPolicy]). *)
Record inv (q : DeadLetterQueue) : Prop := {
  inv_bound : Z.of_nat (length (buf q)) <= capacity q;
  inv_capacity : 1 <= capacity q;
  inv_account : (enqueued_total q - (dropped_total q + redriven_total q + Z.of_nat (length (buf q))))
                  mod 2 ^ 64 = 0
}.

Lemma dlq_inv_new c : inv (new c).
Proof. split; simpl; [lia|lia|done]. Qed.

(** Congruences of the totals. *)
Lemma account_step a b a1 b1 m :
  m <> 0 -> (a - b) mod m = 0 -> (a1 - b1 - (a - b)) mod m = 0 -> (a1 - b1) mod m = 0.
Proof.
  intros Hm H1 H2. replace (a1 - b1) with ((a - b) + (a1 - b1 - (a - b))) by lia.
  by rewrite Z.add_mod, H1, H2 by done.
Qed.

Lemma wrap64_cong n : exists k, wrap64 n = n + k * 2 ^ 64.
Proof. exists (- (n / 2 ^ 64)). unfold wrap64. pose proof (Z.div_mod n (2 ^ 64)). lia. Qed.

Lemma push_entry_inv q e : inv q -> inv (push_entry q e).
Proof.
  intros [Hb Hc Ha]. unfold push_entry.
  destruct (wrap64_cong (enqueued_total q + 1)) as [k1 Hk1].
  destruct (wrap64_cong (dropped_total q + 1)) as [k2 Hk2].
  destruct (Z.leb_spec (capacity q) (Z.of_nat (length (buf q)))) as [Hle|Hlt].
  - destruct (buf q) as [|e0 b] eqn:Hbuf; [simpl in *; lia|].
    split; simpl in *; rewrite ?length_app; simpl; [lia|lia|]. rewrite Hk1, Hk2.
    eapply account_step; [done|exact Ha|]. apply Z.mod_divide; [done|]. exists (k1 - k2). simpl in *. lia.
  - split; simpl; rewrite ?length_app; simpl; [lia|lia|]. rewrite Hk1.
    eapply account_step; [done|exact Ha|]. apply Z.mod_divide; [done|]. exists k1. lia.
Qed.

Lemma drain_inv q max : 0 <= max -> inv q -> inv (drain q max).1.
Proof.
  intros Hmax [Hb Hc Ha]. unfold drain.
  set (n := Z.to_nat (Z.min max (Z.of_nat (length (buf q))))).
  destruct (wrap64_cong (redriven_total q + Z.of_nat (length (take n (buf q))))) as [k Hk].
  split; simpl; rewrite ?length_drop; [lia|lia|]. rewrite Hk, length_take.
  eapply account_step; [done|exact Ha|]. apply Z.mod_divide; [done|]. exists (- k). lia.
Qed.
End Dlq.
Arguments DeadLetterEntry : clear implicits.
Arguments DeadLetterQueue : clear implicits.
End Dlq.

(** ** The backlog controller *)

Module Backlog.

Inductive BacklogState := Steady | Overloaded.
#[global] Instance BacklogState_eq_dec : EqDecision BacklogState.
Proof. solve_decision. Defined.

Record BacklogObservation := mkObservation {
  obs_state : BacklogState; entered_overload : bool; recovered : bool }.

Record BacklogController := mkController {
  state : BacklogState;
  high_watermark : Z;
  low_watermark : Z;
  overload_transitions : Z;
  recovery_transitions : Z
}.

Definition new (high low : Z) : BacklogController :=
  mkController Steady (Z.max high 1) (Z.min low high) 0 0.

Definition observe (c : BacklogController) (depth : Z) : BacklogController * BacklogObservation :=
  match state c with
  | Steady =>
      if high_watermark c <=? depth then
        (mkController Overloaded (high_watermark c) (low_watermark c)
           (wrap64 (overload_transitions c + 1)) (recovery_transitions c),
         mkObservation Overloaded true false)
      else (c, mkObservation Steady false false)
  | Overloaded =>
      if depth <=? low_watermark c then
        (mkController Steady (high_watermark c) (low_watermark c)
           (overload_transitions c) (wrap64 (recovery_transitions c + 1)),
         mkObservation Steady false true)
      else (c, mkObservation Overloaded false false)
  end.

Definition shed_low_priority (c : BacklogController) : bool :=
  match state c with Overloaded => true | Steady => false end.

(** Overload is a function of the depths observed: the last one outside the two
    watermarks decides. *)
Fixpoint overloaded_after (high low : Z) (depths : list Z) (now : bool) : bool :=
  match depths with
  | [] => now
  | d :: depths =>
      overloaded_after high low depths
        (if now then negb (d <=? low) else high <=? d)
  end.

Fixpoint run (c : BacklogController) (depths : list Z) : BacklogController :=
  match depths with [] => c | d :: depths => run (observe c d).1 depths end.

Lemma run_overloaded depths : forall c,
  shed_low_priority (run c depths)
    = overloaded_after (high_watermark c) (low_watermark c) depths (shed_low_priority c).
Proof.
  induction depths as [|d depths IH]; intros c; simpl; [done|]. rewrite IH. unfold observe, shed_low_priority.
  destruct (state c) eqn:Hs.
  - destruct (high_watermark c <=? d); simpl; by rewrite ?Hs.
  - destruct (d <=? low_watermark c); simpl; by rewrite ?Hs.
Qed.
End Backlog.

Lemma bucket_window_rate_witness :
  1000 * Bucket.granted
    (Bucket.run (Bucket.run (Bucket.new (Bucket.mkConfig 2 10) 0) [0; 5; 3; 100]).1 [100; 150; 180; 200; 210; 300]).2
  <= 1000 * 2 + 10 * (300 - 100).
Proof.
  apply (bucket_window_rate (Bucket.mkConfig 2 10) 0 [0; 5; 3; 100] [100; 150; 180; 200; 210; 300] 100 300);
    simpl; unfold Bucket.config_ok, is_u64; simpl.
  - unfold U64_MAX. lia.
  - lia.
  - lia.
  - repeat constructor; done.
  - lia.
  - repeat constructor; lia.
  - repeat constructor; lia.
Defined.

Lemma limiter_isolates_keys_witness :
  Limiter.own 7 [(7, 0); (8, 1); (7, 2); (8, 3)]
    (Limiter.run (Limiter.new (Bucket.mkConfig 1 1) 2) [(7, 0); (8, 1); (7, 2); (8, 3)]).2
  = (Bucket.run (Bucket.new (Bucket.mkConfig 1 1) 0) [0; 2]).2.
Proof.
  apply (proj2 (limiter_isolates_keys (Bucket.mkConfig 1 1) 2 [(7, 0); (8, 1); (7, 2); (8, 3)]));
    vm_compute; done.
Defined.
