(* ===== verification/AdmissionPolicy.v ===== *)
(** * The admission policy of the runtime

    [cheetah-runtime-tokio/src/admission_policy.rs] composes the primitives of
    [Admission] (backlog, rate limit, coalescing, dead letters), and
    [admission.rs] puts the policy in front of the shard mailboxes.  The mutex
    around the policy makes every call atomic, so a call is a function of the
    state; concurrent callers are sequences of calls. *)

From S2P Require Import Prelude RustStr SipUri Domain Runtime Admission.

Open Scope string_scope.
Open Scope list_scope.
Open Scope Z_scope.

(** ** The policy *)

#[global] Instance DeviceKey_countable : Countable DeviceKey.
Proof.
  refine (inj_countable' (fun k => (dk_tenant_id k, dk_device_id k)) (fun p => mkDeviceKey p.1 p.2) _).
  by intros [].
Defined.

Record AdmissionPolicyConfig := {
  rate_capacity_tokens : Z;
  rate_refill_tokens_per_sec : Z;
  rate_max_keys : Z;
  coalesce_max_tracked : Z;
  dead_letter_capacity : Z;
  backlog_high_watermark : Z;
  backlog_low_watermark : Z
}.

Definition AdmissionPolicyConfig_default : AdmissionPolicyConfig := {|
  rate_capacity_tokens := 256; rate_refill_tokens_per_sec := 128; rate_max_keys := 65536;
  coalesce_max_tracked := 65536; dead_letter_capacity := 8192;
  backlog_high_watermark := 4096; backlog_low_watermark := 1024
|}.

Record AdmissionTicket := mkTicket {
  source_id : Z; class : TrafficClass; device_key : DeviceKey }.

Inductive AdmissionOutcome := WasAdmitted | Coalesced | RateLimited | PriorityShed | DeadLettered.
#[global] Instance AdmissionOutcome_eq_dec : EqDecision AdmissionOutcome.
Proof. solve_decision. Defined.

Record PendingAdmission := mkPending { pa_ticket : AdmissionTicket; pa_message : RuntimeMessage }.

Inductive PreAdmitAction := PaAdmit | PaCoalesce | PaRateLimit | PaShed.
Record PreAdmitDecision := mkDecision { action : PreAdmitAction; decision_entered_overload : bool }.

Definition CoalesceKey : Type := (DeviceKey * TrafficClass)%type.

Record PolicyState := mkPolicy {
  rate_limiter : Limiter.KeyedRateLimiter (Z * TrafficClass);
  coalescer : Coalesce.Coalescer CoalesceKey;
  dead_letter_queue : Dlq.DeadLetterQueue PendingAdmission;
  backlog : Backlog.BacklogController
}.

Definition policy_new (config : AdmissionPolicyConfig) : PolicyState := mkPolicy
  (Limiter.new (Bucket.mkConfig (rate_capacity_tokens config) (rate_refill_tokens_per_sec config))
     (rate_max_keys config))
  (Coalesce.new (coalesce_max_tracked config))
  (Dlq.new (dead_letter_capacity config))
  (Backlog.new (backlog_high_watermark config) (backlog_low_watermark config)).

Definition pre_admit (s : PolicyState) (now_ms aggregate_depth : Z) (ticket : AdmissionTicket) :
    PolicyState * PreAdmitDecision :=
  let '(backlog, observation) := Backlog.observe (backlog s) aggregate_depth in
  let entered_overload := Backlog.entered_overload observation in
  if Backlog.shed_low_priority backlog && bool_decide (class_priority (class ticket) = Low) then
    (mkPolicy (rate_limiter s) (coalescer s) (dead_letter_queue s) backlog,
     mkDecision PaShed entered_overload)
  else
    let '(limiter, allowed) :=
      Limiter.try_acquire (rate_limiter s) (source_id ticket, class ticket) now_ms in
    if negb allowed then
      (mkPolicy limiter (coalescer s) (dead_letter_queue s) backlog,
       mkDecision PaRateLimit entered_overload)
    else if is_coalescible (class ticket) then
      let '(co, decision) := Coalesce.observe (coalescer s) (device_key ticket, class ticket) in
      (mkPolicy limiter co (dead_letter_queue s) backlog,
       mkDecision (match decision with Coalesce.CdCoalesced => PaCoalesce | Coalesce.CdAdmit => PaAdmit end)
         entered_overload)
    else
      (mkPolicy limiter (coalescer s) (dead_letter_queue s) backlog,
       mkDecision PaAdmit entered_overload).

Definition dead_letter (s : PolicyState) (ticket : AdmissionTicket) (message : RuntimeMessage)
    (reason : DeadLetterReason) (now_ms : Z) : PolicyState :=
  let q := Dlq.push (dead_letter_queue s) (mkPending ticket message) reason now_ms in
  let co := if bool_decide (reason = DlOverloaded) && is_coalescible (class ticket)
            then Coalesce.release (coalescer s) (device_key ticket, class ticket)
            else coalescer s in
  mkPolicy (rate_limiter s) co q (backlog s).

Definition policy_release (s : PolicyState) (key : DeviceKey) (c : TrafficClass) : PolicyState :=
  if is_coalescible c
  then mkPolicy (rate_limiter s) (Coalesce.release (coalescer s) (key, c)) (dead_letter_queue s) (backlog s)
  else s.

Definition take_redrive_batch (s : PolicyState) (max : Z) :
    PolicyState * option (list (Dlq.DeadLetterEntry PendingAdmission)) :=
  if Backlog.shed_low_priority (backlog s) then (s, None)
  else
    let '(q, batch) := Dlq.drain (dead_letter_queue s) max in
    (mkPolicy (rate_limiter s) (coalescer s) q (backlog s),
     match batch with [] => None | _ => Some batch end).

Definition MAX_REDRIVE_ATTEMPTS : Z := 8.

Definition requeue_failed_redrive (s : PolicyState) (entry : Dlq.DeadLetterEntry PendingAdmission) :
    PolicyState * bool :=
  let attempts := sat_add32 (Dlq.attempts entry) 1 in
  if MAX_REDRIVE_ATTEMPTS <=? attempts then (s, false)
  else
    let entry := Dlq.mkEntry (Dlq.payload entry) DlOverloaded (Dlq.enqueued_at_ms entry) attempts in
    (mkPolicy (rate_limiter s) (coalescer s) (Dlq.push_entry (dead_letter_queue s) entry) (backlog s), true).

(** ** The controller *)

Inductive RouteSend := RsSent | RsFull | RsClosed.
#[global] Instance RouteSend_eq_dec : EqDecision RouteSend.
Proof. solve_decision. Defined.

(** The message counters of [RuntimeMetrics]. *)
Inductive Counter :=
| MessagesEnqueued | MessagesRejected | MessagesRateLimited | MessagesCoalesced | MessagesShed
| MessagesDeadLettered | MessagesRedriven | BacklogOverloadTransitions.
#[global] Instance Counter_eq_dec : EqDecision Counter.
Proof. solve_decision. Defined.
Definition Counters : Type := Counter -> Z.
Definition record_messages (c : Counter) (n : Z) (m : Counters) : Counters :=
  fun c1 => if decide (c1 = c) then wrap64 (m c1 + n) else m c1.
Definition record_message (c : Counter) : Counters -> Counters := record_messages c 1.

(** [max_capacity] and [capacity] of every sender. *)
Class MailboxDepths (M : Type) := capacities : M -> list (Z * Z).
Definition shard_mailbox_depths `{MailboxDepths M} (m : M) : list Z :=
  map (fun c => sat_sub c.1 c.2) (capacities m).
Definition aggregate_depth `{MailboxDepths M} (m : M) : Z :=
  wrap64 (foldr Z.add 0 (shard_mailbox_depths m)).

Record AdmissionController (M : Type) := mkAdmission {
  senders : M;
  admission_metrics : Counters;
  policy : option PolicyState
}.
Arguments mkAdmission {M}. Arguments senders {M}. Arguments admission_metrics {M}. Arguments policy {M}.

Section Controller.
Context `{StableHash} `{Mailboxes M} `{MailboxDepths M}.
Context (shard_count : Z).

Definition route_send (m : M) (key : DeviceKey) (message : RuntimeMessage) : M * RouteSend :=
  let index := route shard_count key in
  if senders_len m <=? index then (m, RsClosed)
  else match try_send m index message with
       | (m, Sent) => (m, RsSent)
       | (m, Full) => (m, RsFull)
       | (m, Closed) => (m, RsClosed)
       end.

Definition send (c : AdmissionController M) (key : DeviceKey) (message : RuntimeMessage) :
    AdmissionController M * result unit RuntimeError :=
  match route_send (senders c) key message with
  | (m, RsSent) => (mkAdmission m (record_message MessagesEnqueued (admission_metrics c)) (policy c), Ok tt)
  | (m, RsFull) =>
      (mkAdmission m (record_message MessagesRejected (admission_metrics c)) (policy c), Err RtOverloaded)
  | (m, RsClosed) => (mkAdmission m (admission_metrics c) (policy c), Err RtShutdown)
  end.

Definition admit_message (c : AdmissionController M) (ticket : AdmissionTicket) (message : RuntimeMessage) (now : Z) :
    AdmissionController M * result AdmissionOutcome RuntimeError :=
  match policy c with
  | None =>
      match send c (device_key ticket) message with
      | (c, Ok _) => (c, Ok WasAdmitted)
      | (c, Err e) => (c, Err e)
      end
  | Some p =>
      let '(p, decision) := pre_admit p now (aggregate_depth (senders c)) ticket in
      let metrics := if decision_entered_overload decision
                     then record_message BacklogOverloadTransitions (admission_metrics c)
                     else admission_metrics c in
      match action decision with
      | PaAdmit =>
          match route_send (senders c) (device_key ticket) message with
          | (m, RsSent) => (mkAdmission m (record_message MessagesEnqueued metrics) (Some p), Ok WasAdmitted)
          | (m, RsFull) =>
              (mkAdmission m (record_message MessagesDeadLettered (record_message MessagesRejected metrics))
                 (Some (dead_letter p ticket message DlOverloaded now)), Ok DeadLettered)
          | (m, RsClosed) => (mkAdmission m metrics (Some p), Err RtShutdown)
          end
      | PaCoalesce =>
          (mkAdmission (senders c) (record_message MessagesCoalesced metrics) (Some p), Ok Coalesced)
      | PaRateLimit =>
          (mkAdmission (senders c)
             (record_message MessagesDeadLettered (record_message MessagesRateLimited metrics))
             (Some (dead_letter p ticket message DlRateLimited now)), Ok RateLimited)
      | PaShed =>
          (mkAdmission (senders c) (record_message MessagesDeadLettered (record_message MessagesShed metrics))
             (Some (dead_letter p ticket message DlPriorityShed now)), Ok PriorityShed)
      end
  end.

Definition release_coalescible (c : AdmissionController M) (key : DeviceKey) (cl : TrafficClass) :
    AdmissionController M :=
  match policy c with
  | Some p => mkAdmission (senders c) (admission_metrics c) (Some (policy_release p key cl))
  | None => c
  end.

(** The loop of [redrive] over the batch; [None] as the count is the early
    return on a closed mailbox, which loses the rest of the batch. *)
Fixpoint redrive_batch (batch : list (Dlq.DeadLetterEntry PendingAdmission)) (m : M) (metrics : Counters)
    (p : PolicyState) (admitted : Z) : M * Counters * PolicyState * option Z :=
  match batch with
  | [] => (m, metrics, p, Some admitted)
  | entry :: batch =>
      match route_send m (device_key (pa_ticket (Dlq.payload entry))) (pa_message (Dlq.payload entry)) with
      | (m, RsSent) => redrive_batch batch m (record_message MessagesEnqueued metrics) p (admitted + 1)
      | (m, RsFull) => redrive_batch batch m metrics (requeue_failed_redrive p entry).1 admitted
      | (m, RsClosed) => (m, metrics, p, None)
      end
  end.

Definition redrive (c : AdmissionController M) (max : Z) : AdmissionController M * result Z RuntimeError :=
  match policy c with
  | None => (c, Ok 0)
  | Some p =>
      match take_redrive_batch p max with
      | (p, None) => (mkAdmission (senders c) (admission_metrics c) (Some p), Ok 0)
      | (p, Some batch) =>
          match redrive_batch batch (senders c) (admission_metrics c) p 0 with
          | (m, metrics, p, Some admitted) =>
              (mkAdmission m (if 0 <? admitted then record_messages MessagesRedriven admitted metrics
                              else metrics) (Some p), Ok admitted)
          | (m, metrics, p, None) => (mkAdmission m metrics (Some p), Err RtShutdown)
          end
      end
  end.
End Controller.

(** ** Sequences of calls *)

Inductive AdmissionCall (M : Type) :=
| CallAdmit (ticket : AdmissionTicket) (message : RuntimeMessage) (now : Z)
| CallSend (key : DeviceKey) (message : RuntimeMessage)
| CallRelease (key : DeviceKey) (c : TrafficClass)
| CallRedrive (max : Z)
| MailboxesChange (m : M).
Arguments CallAdmit {M}. Arguments CallSend {M}. Arguments CallRelease {M}. Arguments CallRedrive {M}.
Arguments MailboxesChange {M}.

Section Calls.
Context `{StableHash} `{Mailboxes M} `{MailboxDepths M}.
Context (shard_count : Z).

(** A call, or the shards taking messages out of their mailboxes; the outcome is
    that of an [admit_message]. *)
Definition admission_step (c : AdmissionController M) (call : AdmissionCall M) :
    AdmissionController M * option (result AdmissionOutcome RuntimeError) :=
  match call with
  | CallAdmit ticket message now => let '(c, r) := admit_message shard_count c ticket message now in (c, Some r)
  | CallSend key message => ((send shard_count c key message).1, None)
  | CallRelease key cl => (release_coalescible c key cl, None)
  | CallRedrive max => ((redrive shard_count c max).1, None)
  | MailboxesChange m => (mkAdmission m (admission_metrics c) (policy c), None)
  end.

Fixpoint admission_run (c : AdmissionController M) (calls : list (AdmissionCall M)) : AdmissionController M :=
  match calls with [] => c | call :: calls => admission_run (admission_step c call).1 calls end.

(** *** The policy stays bounded *)

Record policy_ok (config : AdmissionPolicyConfig) (p : PolicyState) : Prop := {
  po_limiter : Limiter.inv (rate_limiter p);
  po_keys : Limiter.max_keys (rate_limiter p) = Z.max (rate_max_keys config) 1;
  po_coalescer : Coalesce.bounded (coalescer p);
  po_tracked : Coalesce.max_tracked (coalescer p) = Z.max (coalesce_max_tracked config) 1;
  po_dlq : Dlq.inv (dead_letter_queue p);
  po_capacity : Dlq.capacity (dead_letter_queue p) = Z.max (dead_letter_capacity config) 1
}.

Lemma policy_new_ok config : policy_ok config (policy_new config).
Proof.
  split; simpl; try done; [apply Limiter.inv_new | apply Coalesce.new_bounded | apply Dlq.dlq_inv_new].
Qed.

Lemma pre_admit_ok config p now depth ticket :
  policy_ok config p -> policy_ok config (pre_admit p now depth ticket).1.
Proof.
  intros [Hl Hk Hc Ht Hd Hcap]. unfold pre_admit. destruct (Backlog.observe _ _) as [bl obs].
  destruct (_ && _); [by split|].
  pose proof (Limiter.try_acquire_inv (rate_limiter p) (source_id ticket, class ticket) now Hl) as Hl1.
  pose proof (Limiter.try_acquire_config (rate_limiter p) (source_id ticket, class ticket) now) as [_ Hk1].
  destruct (Limiter.try_acquire _ _ _) as [lim allowed]. simpl in *.
  destruct (negb allowed); [split; simpl; congruence || done|].
  destruct (is_coalescible _); [|split; simpl; congruence || done].
  pose proof (Coalesce.observe_bounded (coalescer p) (device_key ticket, class ticket) Hc) as Hc1.
  assert (Coalesce.max_tracked (Coalesce.observe (coalescer p) (device_key ticket, class ticket)).1
            = Coalesce.max_tracked (coalescer p)) as Ht1.
  { unfold Coalesce.observe. by repeat case_match. }
  destruct (Coalesce.observe _ _) as [co d]. simpl in *. split; simpl; congruence || done.
Qed.

Lemma push_entry_capacity {T} (q : Dlq.DeadLetterQueue T) e : Dlq.capacity (Dlq.push_entry q e) = Dlq.capacity q.
Proof. unfold Dlq.push_entry. by case_match. Qed.

Lemma dead_letter_ok config p ticket msg reason now :
  policy_ok config p -> policy_ok config (dead_letter p ticket msg reason now).
Proof.
  intros [Hl Hk Hc Ht Hd Hcap]. unfold dead_letter, Dlq.push. split; simpl; try done.
  - destruct (_ && _); [by apply Coalesce.release_bounded | done].
  - by destruct (_ && _).
  - by apply Dlq.push_entry_inv.
  - by rewrite push_entry_capacity.
Qed.

Lemma redrive_batch_ok config batch : forall (m : M) metrics p n,
  policy_ok config p -> policy_ok config (redrive_batch shard_count batch m metrics p n).1.2.
Proof.
  induction batch as [|e batch IH]; intros m metrics p n Hp; simpl; [done|].
  destruct (route_send _ _ _ _) as [m1 []]; [by apply IH| |done].
  apply IH. unfold requeue_failed_redrive. destruct (_ <=? _); simpl; [done|].
  destruct Hp as [Hl Hk Hc Ht Hd Hcap]. split; simpl; try done; [by apply Dlq.push_entry_inv|].
  by rewrite push_entry_capacity.
Qed.

Lemma admission_step_ok config c call p :
  match call with CallRedrive max => 0 <= max | _ => True end ->
  policy c = Some p -> policy_ok config p ->
  exists p1, policy (admission_step c call).1 = Some p1 /\ policy_ok config p1.
Proof.
  intros Hmax Hc Hp. destruct call as [t msg now|key msg|key cl|max|m]; simpl.
  - unfold admit_message. rewrite Hc. pose proof (pre_admit_ok config p now (aggregate_depth (senders c)) t Hp) as Hp1.
    destruct (pre_admit _ _ _ _) as [p1 [[] ov]]; cbn [action] in *.
    + destruct (route_send _ _ _ _) as [m1 []]; simpl; eauto using dead_letter_ok.
    + simpl; eauto.
    + simpl; eauto using dead_letter_ok.
    + simpl; eauto using dead_letter_ok.
  - unfold send. destruct (route_send _ _ _ _) as [m1 []]; simpl; eauto.
  - unfold release_coalescible. rewrite Hc. eexists. split; [done|]. unfold policy_release.
    destruct (is_coalescible cl); [|done]. destruct Hp as [? ? ? ? ? ?].
    split; simpl; try done. by apply Coalesce.release_bounded.
  - unfold redrive. rewrite Hc. unfold take_redrive_batch.
    destruct (Backlog.shed_low_priority _); [eexists; by split|].
    assert (policy_ok config (mkPolicy (rate_limiter p) (coalescer p)
      (Dlq.drain (dead_letter_queue p) max).1 (backlog p))) as Hp1.
    { destruct Hp as [? ? ? ? ? ?]. split; simpl; try done. by apply Dlq.drain_inv. }
    destruct (Dlq.drain _ _) as [q batch]. simpl in Hp1. destruct batch as [|e batch]; [eexists; by split|].
    pose proof (redrive_batch_ok config (e :: batch) (senders c) (admission_metrics c) _ 0 Hp1) as Hr.
    destruct (redrive_batch _ _ _ _ _ _) as [[[m1 me] p2] [n|]]; simpl in *; eauto.
  - simpl. eauto.
Qed.

(** *** Shedding *)

Lemma pre_admit_shed p now depth ticket :
  action (pre_admit p now depth ticket).2 = PaShed <->
  Backlog.shed_low_priority (Backlog.observe (backlog p) depth).1 = true
  /\ class_priority (class ticket) = Low.
Proof.
  unfold pre_admit. destruct (Backlog.observe _ _) as [bl obs]. simpl.
  destruct (Backlog.shed_low_priority bl); simpl.
  - destruct (bool_decide_reflect (class_priority (class ticket) = Low)) as [->|Hne]; simpl; [done|].
    destruct (Limiter.try_acquire _ _ _) as [lim []]; simpl; [|naive_solver].
    destruct (is_coalescible _); [|naive_solver]. destruct (Coalesce.observe _ _) as [co []]; naive_solver.
  - destruct (Limiter.try_acquire _ _ _) as [lim []]; simpl; [|naive_solver].
    destruct (is_coalescible _); [|naive_solver]. destruct (Coalesce.observe _ _) as [co []]; naive_solver.
Qed.

(** *** The ledger of pending events *)

(** The events that were handed to a mailbox (or met a closed one) and were not
    released since. *)
Definition ledger_step (l : gset CoalesceKey) (call : AdmissionCall M)
    (r : option (result AdmissionOutcome RuntimeError)) : gset CoalesceKey :=
  match call, r with
  | CallAdmit t _ _, Some (Ok WasAdmitted | Err _) => {[(device_key t, class t)]} ∪ l
  | CallRelease key cl, _ => if is_coalescible cl then l ∖ {[(key, cl)]} else l
  | _, _ => l
  end.
Fixpoint ledger (c : AdmissionController M) (calls : list (AdmissionCall M)) (l : gset CoalesceKey) :
    gset CoalesceKey :=
  match calls with
  | [] => l
  | call :: calls =>
      let '(c, r) := admission_step c call in ledger c calls (ledger_step l call r)
  end.

Definition pending_keys (c : AdmissionController M) : gset CoalesceKey :=
  match policy c with Some p => Coalesce.pending (coalescer p) | None => ∅ end.

Lemma redrive_batch_coalescer batch : forall (m : M) metrics p n,
  coalescer (redrive_batch shard_count batch m metrics p n).1.2 = coalescer p.
Proof.
  induction batch as [|e batch IH]; intros m metrics p n; simpl; [done|].
  destruct (route_send _ _ _ _) as [m1 []]; [apply IH| |done].
  rewrite IH. unfold requeue_failed_redrive. by destruct (_ <=? _).
Qed.

Lemma pre_admit_pending p now depth t :
  let '(p1, d) := pre_admit p now depth t in
  match action d with
  | PaAdmit => Coalesce.pending (coalescer p1) ⊆ {[(device_key t, class t)]} ∪ Coalesce.pending (coalescer p)
               /\ (is_coalescible (class t) = false -> coalescer p1 = coalescer p)
               /\ (is_coalescible (class t) = true -> (device_key t, class t) ∉ Coalesce.pending (coalescer p))
  | PaCoalesce => Coalesce.pending (coalescer p1) = Coalesce.pending (coalescer p)
               /\ (device_key t, class t) ∈ Coalesce.pending (coalescer p)
  | _ => coalescer p1 = coalescer p
  end.
Proof.
  unfold pre_admit. destruct (Backlog.observe _ _) as [bl obs]. destruct (_ && _); [done|].
  destruct (Limiter.try_acquire _ _ _) as [lim []]; simpl; [|done].
  destruct (is_coalescible (class t)); [|simpl; split_and!; set_solver].
  unfold Coalesce.observe. destruct (decide _) as [Hin|Hni]; simpl; [done|].
  destruct (_ <? _); simpl; split_and!; set_solver.
Qed.

Lemma pending_step c call l :
  pending_keys c ⊆ l -> pending_keys (admission_step c call).1 ⊆ ledger_step l call (admission_step c call).2.
Proof.
  intros Hl. unfold pending_keys in *. destruct call as [t msg now|key msg|key cl|max|m]; simpl.
  - unfold admit_message. destruct (policy c) as [p|] eqn:Hp.
    + pose proof (pre_admit_pending p now (aggregate_depth (senders c)) t) as Hpre.
      destruct (pre_admit _ _ _ _) as [p1 [act ov]]. simpl in *. destruct act; simpl.
      * destruct Hpre as (Hp1 & Hp2 & Hp3). destruct (route_send _ _ _ _) as [m1 []]; simpl; [set_solver| |set_solver].
        destruct (is_coalescible (class t)); simpl; [set_solver|]. rewrite Hp2 by done. set_solver.
      * destruct Hpre as [-> _]. done.
      * by rewrite Hpre.
      * by rewrite Hpre.
    + unfold send. destruct (route_send _ _ _ _) as [m1 []]; simpl; rewrite Hp; set_solver.
  - unfold send. destruct (route_send _ _ _ _) as [m1 []]; simpl; done.
  - unfold release_coalescible. destruct (policy c) as [p|] eqn:Hp; simpl.
    + unfold policy_release. destruct (is_coalescible cl); simpl; set_solver.
    + rewrite Hp. set_solver.
  - unfold redrive. destruct (policy c) as [p|] eqn:Hp; [|simpl; by rewrite ?Hp]. unfold take_redrive_batch.
    destruct (Backlog.shed_low_priority _); [done|].
    destruct (Dlq.drain _ _) as [q [|e batch]]; [done|].
    pose proof (redrive_batch_coalescer (e :: batch) (senders c) (admission_metrics c)
      (mkPolicy (rate_limiter p) (coalescer p) q (backlog p)) 0) as Hr.
    destruct (redrive_batch shard_count (e :: batch) _ _ _ _) as [[[m2 me] p2] [n|]]; simpl in *;
      by rewrite Hr.
  - done.
Qed.

Lemma ledger_run calls : forall c l,
  pending_keys c ⊆ l -> pending_keys (admission_run c calls) ⊆ ledger c calls l.
Proof.
  induction calls as [|call calls IH]; intros c l Hl; simpl; [done|].
  pose proof (pending_step c call l Hl) as Hs. destruct (admission_step c call) as [c1 r]. by apply IH.
Qed.

Lemma admission_run_ok config calls : forall c p,
  Forall (fun call => match call with CallRedrive max => 0 <= max | _ => True end) calls ->
  policy c = Some p -> policy_ok config p ->
  exists p1, policy (admission_run c calls) = Some p1 /\ policy_ok config p1.
Proof.
  induction calls as [|call calls IH]; intros c p Hf Hc Hp; simpl; [eauto|].
  apply Forall_cons in Hf as [Hcall Hf].
  destruct (admission_step_ok config c call p Hcall Hc Hp) as (p1 & Hp1 & Hok). eauto.
Qed.

(** *** What becomes of dead letters *)

Definition letters (p : PolicyState) : list (Dlq.DeadLetterEntry PendingAdmission) := Dlq.buf (dead_letter_queue p).

(** Letters offered to the mailboxes one after the other, with the answers; a
    closed mailbox ends it. *)
Fixpoint offered (m : M) (batch : list (Dlq.DeadLetterEntry PendingAdmission)) :
    M * list (Dlq.DeadLetterEntry PendingAdmission * RouteSend) :=
  match batch with
  | [] => (m, [])
  | e :: batch =>
      match route_send shard_count m (device_key (pa_ticket (Dlq.payload e))) (pa_message (Dlq.payload e)) with
      | (m, RsClosed) => (m, [(e, RsClosed)])
      | (m, r) => let '(m, l) := offered m batch in (m, (e, r) :: l)
      end
  end.
Definition answered (r : RouteSend) (l : list (Dlq.DeadLetterEntry PendingAdmission * RouteSend)) :
    list (Dlq.DeadLetterEntry PendingAdmission) :=
  fst <$> base.filter (fun a => a.2 = r) l.

(** A letter that a full mailbox refused comes back with one more attempt, up to
    the eighth. *)
Definition refused_again (e : Dlq.DeadLetterEntry PendingAdmission) : Dlq.DeadLetterEntry PendingAdmission :=
  Dlq.mkEntry (Dlq.payload e) DlOverloaded (Dlq.enqueued_at_ms e) (Dlq.attempts e + 1).
Definition retried (l : list (Dlq.DeadLetterEntry PendingAdmission * RouteSend)) :
    list (Dlq.DeadLetterEntry PendingAdmission) :=
  refused_again <$> base.filter (fun e => Dlq.attempts e < 7) (answered RsFull l).

(** A new letter drops the oldest one when the queue is full. *)
Definition with_letter (capacity : Z) (l : list (Dlq.DeadLetterEntry PendingAdmission))
    (e : Dlq.DeadLetterEntry PendingAdmission) : list (Dlq.DeadLetterEntry PendingAdmission) :=
  (if decide (Z.of_nat (length l) = capacity) then tail l else l) ++ [e].

(** The letters after a call. *)
Definition letters_after (capacity : Z) (c : AdmissionController M) (p : PolicyState) (call : AdmissionCall M) :
    list (Dlq.DeadLetterEntry PendingAdmission) :=
  match call with
  | CallAdmit t msg now =>
      let letter reason := Dlq.mkEntry (mkPending t msg) reason now 0 in
      match (admit_message shard_count c t msg now).2 with
      | Ok DeadLettered => with_letter capacity (letters p) (letter DlOverloaded)
      | Ok RateLimited => with_letter capacity (letters p) (letter DlRateLimited)
      | Ok PriorityShed => with_letter capacity (letters p) (letter DlPriorityShed)
      | _ => letters p
      end
  | CallRedrive max =>
      if Backlog.shed_low_priority (backlog p) then letters p
      else drop (Z.to_nat max) (letters p) ++ retried (offered (senders c) (take (Z.to_nat max) (letters p))).2
  | _ => letters p
  end.

(** The answer of a redrive. *)
Definition redrive_answer (l : list (Dlq.DeadLetterEntry PendingAdmission * RouteSend)) : result Z RuntimeError :=
  match answered RsClosed l with [] => Ok (Z.of_nat (length (answered RsSent l))) | _ => Err RtShutdown end.

Definition few_attempts (p : PolicyState) : Prop := Forall (fun e => 0 <= Dlq.attempts e < 8) (letters p).

Lemma push_letter config p e :
  policy_ok config p ->
  Dlq.buf (Dlq.push_entry (dead_letter_queue p) e) = with_letter (Z.max (dead_letter_capacity config) 1) (letters p) e.
Proof.
  intros Hp. pose proof (Dlq.inv_bound _ (po_dlq _ _ Hp)) as Hb. pose proof (po_capacity _ _ Hp) as Hcap.
  unfold Dlq.push_entry, with_letter, letters. rewrite <-Hcap.
  destruct (Z.leb_spec (Dlq.capacity (dead_letter_queue p)) (Z.of_nat (length (Dlq.buf (dead_letter_queue p))))); simpl.
  - by rewrite decide_True by lia.
  - by rewrite decide_False by lia.
Qed.

Lemma pre_admit_letters p now depth t : letters (pre_admit p now depth t).1 = letters p.
Proof. unfold pre_admit. by repeat (case_match; simplify_eq/=). Qed.

Lemma dead_letter_letters config p t msg reason now :
  policy_ok config p ->
  letters (dead_letter p t msg reason now)
  = with_letter (Z.max (dead_letter_capacity config) 1) (letters p) (Dlq.mkEntry (mkPending t msg) reason now 0).
Proof. intros Hp. by apply push_letter. Qed.

Lemma answered_cons r e r0 l : answered r ((e, r0) :: l) = if decide (r0 = r) then e :: answered r l else answered r l.
Proof. unfold answered. rewrite filter_cons. simpl. by case_decide. Qed.
Lemma retried_cons e r l :
  retried ((e, r) :: l)
  = (if decide (r = RsFull /\ Dlq.attempts e < 7) then [refused_again e] else []) ++ retried l.
Proof.
  unfold retried. rewrite answered_cons. case_decide as Hr; [rewrite filter_cons; case_decide as Ha|];
    [rewrite decide_True by done|rewrite decide_False by naive_solver|rewrite decide_False by naive_solver]; done.
Qed.

(** The loop of a redrive offers the batch and puts the refused letters back;
    nothing is dropped, since the batch made room. *)
Lemma redrive_batch_letters batch : forall (m : M) metrics p n,
  Forall (fun e => 0 <= Dlq.attempts e < 8) batch ->
  Z.of_nat (length (letters p) + length batch) <= Dlq.capacity (dead_letter_queue p) ->
  let '(m1, _, p1, r) := redrive_batch shard_count batch m metrics p n in
  let '(m2, l) := offered m batch in
  m1 = m2 /\ letters p1 = letters p ++ retried l
  /\ r = match answered RsClosed l with [] => Some (n + Z.of_nat (length (answered RsSent l))) | _ => None end.
Proof.
  induction batch as [|e batch IH]; intros m metrics p n Hf Hroom; simpl.
  { unfold retried, answered. simpl. rewrite app_nil_r. split_and!; [done..|f_equal; lia]. }
  apply Forall_cons in Hf as [He Hf]. cbn [length] in Hroom.
  destruct (route_send shard_count m _ _) as [m1 []].
  - specialize (IH m1 (record_message MessagesEnqueued metrics) p (n + 1) Hf ltac:(lia)).
    destruct (redrive_batch _ _ _ _ _ _) as [[[m2 me] p2] r]. destruct (offered m1 batch) as [m3 l].
    destruct IH as (-> & -> & ->). rewrite !answered_cons, retried_cons, !decide_False, decide_True by naive_solver.
    split_and!; [done..|]. case_match; [|done]. f_equal. cbn [length]. lia.
  - assert (letters (requeue_failed_redrive p e).1
      = letters p ++ (if decide (Dlq.attempts e < 7) then [refused_again e] else [])
      /\ Dlq.capacity (dead_letter_queue (requeue_failed_redrive p e).1) = Dlq.capacity (dead_letter_queue p)) as [Hl Hcap].
    { unfold requeue_failed_redrive, sat_add32, U32_MAX, MAX_REDRIVE_ATTEMPTS, letters, refused_again in *.
      assert (Z.min (2 ^ 32 - 1) (Dlq.attempts e + 1) = Dlq.attempts e + 1) as -> by lia.
      destruct (Z.leb_spec 8 (Dlq.attempts e + 1)); simpl.
      { rewrite decide_False by lia. by rewrite app_nil_r. }
      rewrite decide_True by lia. unfold Dlq.push_entry.
      destruct (Z.leb_spec (Dlq.capacity (dead_letter_queue p)) (Z.of_nat (length (Dlq.buf (dead_letter_queue p))))); [lia|done]. }
    specialize (IH m1 metrics (requeue_failed_redrive p e).1 n Hf).
    rewrite Hcap, Hl in IH. assert (Z.of_nat (length (letters p ++ (if decide (Dlq.attempts e < 7) then [refused_again e] else []))
      + length batch) <= Dlq.capacity (dead_letter_queue p)) as Hroom1.
    { rewrite length_app. case_decide; simpl; lia. }
    specialize (IH Hroom1). destruct (redrive_batch _ _ _ _ _ _) as [[[m2 me] p2] r]. destruct (offered m1 batch) as [m3 l].
    destruct IH as (-> & -> & ->). rewrite !answered_cons, retried_cons, <-app_assoc.
    split_and!; [done| |by rewrite !decide_False by done]. do 2 f_equal. repeat case_decide; naive_solver.
  - rewrite !answered_cons, retried_cons, decide_False, decide_True by naive_solver.
    unfold retried, answered. simpl. by rewrite app_nil_r.
Qed.

Lemma drain_letters config (p : PolicyState) max :
  policy_ok config p -> 0 <= max ->
  (Dlq.drain (dead_letter_queue p) max).2 = take (Z.to_nat max) (letters p)
  /\ Dlq.buf (Dlq.drain (dead_letter_queue p) max).1 = drop (Z.to_nat max) (letters p)
  /\ Dlq.capacity (Dlq.drain (dead_letter_queue p) max).1 = Dlq.capacity (dead_letter_queue p).
Proof.
  intros _ Hmax. unfold Dlq.drain, letters. simpl. set (l := Dlq.buf (dead_letter_queue p)).
  destruct (Z.le_ge_cases max (Z.of_nat (length l))).
  - by rewrite Z.min_l by lia.
  - rewrite Z.min_r, Nat2Z.id, firstn_all, drop_all by lia. rewrite take_ge, drop_ge by lia. done.
Qed.

Lemma few_after (p : PolicyState) capacity call c :
  few_attempts p -> Forall (fun e => 0 <= Dlq.attempts e < 8) (letters_after capacity c p call).
Proof.
  intros Hf. unfold few_attempts in Hf. unfold letters_after.
  assert (forall e, Dlq.attempts e = 0 -> Forall (fun e => 0 <= Dlq.attempts e < 8) (with_letter capacity (letters p) e)) as Hw.
  { intros e He. unfold with_letter. apply Forall_app. split; [|constructor; [lia|done]].
    case_decide; [|done]. destruct (letters p); [done|]. by apply Forall_cons in Hf as [_ Hf]. }
  destruct call; try done.
  - destruct (admit_message _ _ _ _ _).2 as [[]|]; try done; by apply Hw.
  - destruct (Backlog.shed_low_priority _); [done|]. apply Forall_app. split; [by apply Forall_drop|].
    set (l := (offered (senders c) (take (Z.to_nat max) (letters p))).2).
    assert (Forall (fun e => 0 <= Dlq.attempts e < 8) (answered RsFull l)) as Ha.
    { apply Forall_forall. intros e (a & -> & Ha)%list_elem_of_fmap. apply list_elem_of_filter in Ha as [_ Ha].
      assert (forall batch (m : M), Forall (fun e => 0 <= Dlq.attempts e < 8) batch ->
        Forall (fun a => 0 <= Dlq.attempts a.1 < 8) (offered m batch).2) as Hoff.
      { clear. induction batch as [|e batch IH]; intros m Hb; simpl; [done|]. apply Forall_cons in Hb as [He Hb].
        destruct (route_send _ _ _ _) as [m1 []]; try (specialize (IH m1 Hb); destruct (offered m1 batch));
          (constructor; [simpl; lia|done || constructor]). }
      specialize (Hoff (take (Z.to_nat max) (letters p)) (senders c) (Forall_take _ _ _ Hf)). rewrite Forall_forall in Hoff.
      by apply Hoff. }
    apply Forall_forall. intros e (e0 & -> & He0)%list_elem_of_fmap. apply list_elem_of_filter in He0 as [Hlt He0].
    rewrite Forall_forall in Ha. specialize (Ha e0 He0). simpl. lia.
Qed.

(** The letters, the mailboxes and the answer after a call. *)
Lemma admission_step_letters config c call p :
  match call with CallRedrive max => 0 <= max | _ => True end ->
  policy c = Some p -> policy_ok config p -> few_attempts p ->
  exists p1, policy (admission_step c call).1 = Some p1
    /\ letters p1 = letters_after (Z.max (dead_letter_capacity config) 1) c p call
    /\ match call with
       | CallRedrive max =>
           let l := offered (senders c) (take (Z.to_nat max) (letters p)) in
           Backlog.shed_low_priority (backlog p) = false ->
           senders (admission_step c call).1 = l.1 /\ (redrive shard_count c max).2 = redrive_answer l.2
       | _ => True
       end.
Proof.
  intros Hmax Hc Hp Hf. destruct call as [t msg now|key msg|key cl|max|m]; simpl.
  - unfold admit_message. rewrite Hc. pose proof (pre_admit_ok config p now (aggregate_depth (senders c)) t Hp) as Hp1.
    pose proof (pre_admit_letters p now (aggregate_depth (senders c)) t) as Hl1.
    destruct (pre_admit _ _ _ _) as [p1 [[] ov]]; cbn [action fst] in *.
    + destruct (route_send _ _ _ _) as [m1 []]; simpl; eexists; (split; [done|]); (split; [|done]);
        [done|by erewrite dead_letter_letters, Hl1|done].
    + simpl. eauto.
    + simpl. eexists. split; [done|]. split; [by erewrite dead_letter_letters, Hl1|done].
    + simpl. eexists. split; [done|]. split; [by erewrite dead_letter_letters, Hl1|done].
  - unfold send. destruct (route_send _ _ _ _) as [m1 []]; simpl; eauto.
  - unfold release_coalescible. rewrite Hc. eexists. split; [done|]. split; [|done]. unfold policy_release. by case_match.
  - unfold redrive. rewrite Hc. unfold take_redrive_batch.
    destruct (Backlog.shed_low_priority (backlog p)) eqn:Hshed; [simpl; eexists; by split_and!|].
    destruct (drain_letters config p max Hp Hmax) as (Hout & Hbuf & Hcap).
    pose proof (Dlq.inv_bound _ (po_dlq _ _ Hp)) as Hb. fold (letters p) in Hb.
    destruct (Dlq.drain _ _) as [q batch]. simpl in Hout, Hbuf, Hcap. rewrite <-Hout.
    pose proof (redrive_batch_letters batch (senders c) (admission_metrics c)
      (mkPolicy (rate_limiter p) (coalescer p) q (backlog p)) 0) as Hr.
    unfold letters in Hr at 1 2. cbn [dead_letter_queue] in Hr. rewrite Hbuf, Hcap in Hr.
    specialize (Hr ltac:(rewrite Hout; by apply Forall_take)).
    specialize (Hr ltac:(rewrite Hout, length_drop, length_take; lia)).
    destruct batch as [|e batch].
    + simpl. eexists. split; [done|]. split; [|done]. unfold letters. cbn [dead_letter_queue]. rewrite Hbuf. by rewrite app_nil_r.
    + destruct (redrive_batch shard_count (e :: batch) _ _ _ _) as [[[m2 me] p2] r] eqn:Hrun.
      destruct (offered (senders c) (e :: batch)) as [m3 l]. destruct Hr as (-> & Hl & ->).
      unfold redrive_answer. cbn [fst snd]. exists p2.
      change (letters (mkPolicy (rate_limiter p) (coalescer p) q (backlog p))) with (Dlq.buf q) in Hl. rewrite Hbuf in Hl.
      destruct (answered RsClosed l); cbn [fst snd policy senders]; (split_and!; [done|exact Hl|by intros _]).
  - eexists. split; [done|]. by split.
Qed.

Lemma admission_run_letters config calls : forall c p,
  Forall (fun call => match call with CallRedrive max => 0 <= max | _ => True end) calls ->
  policy c = Some p -> policy_ok config p -> few_attempts p ->
  exists p1, policy (admission_run c calls) = Some p1 /\ policy_ok config p1 /\ few_attempts p1.
Proof.
  induction calls as [|call calls IH]; intros c p Hf Hc Hp Hfew; simpl; [eauto|].
  apply Forall_cons in Hf as [Hcall Hf].
  destruct (admission_step_ok config c call p Hcall Hc Hp) as (p1 & Hp1 & Hok).
  destruct (admission_step_letters config c call p Hcall Hc Hp Hfew) as (p2 & Hp2 & Hl & _).
  assert (p2 = p1) as -> by congruence. apply (IH _ p1); [done..|]. unfold few_attempts. rewrite Hl. by apply few_after.
Qed.
End Calls.

Definition controller_new {M} (m : M) (config : AdmissionPolicyConfig) : AdmissionController M :=
  mkAdmission m (fun _ => 0) (Some (policy_new config)).

(** C40: After any sequence of calls, whatever the mailboxes do, the admission state is
    within its bounds (rate buckets, pending events, dead letters), and each further
    call does to the dead letters exactly this: a refused, limited or shed admission
    appends its letter with no attempt and drops the oldest one only when the queue is
    full; a redrive out of overload offers the oldest letters in order to the mailboxes,
    keeps those refused by a full mailbox with one more attempt until the eighth, gives
    up those refused for the eighth time, and after a closed mailbox loses the rest of
    the batch and answers Shutdown, else the number sent; no other call changes the
    letters. *)
Theorem admission_state_bounded `{StableHash} `{Mailboxes M} `{MailboxDepths M} shard_count config m calls
    (call : AdmissionCall M) :
  Forall (fun call : AdmissionCall M => match call with CallRedrive max => 0 <= max | _ => True end) (calls ++ [call]) ->
  let c := admission_run shard_count (controller_new m config) calls in
  let capacity := Z.max (dead_letter_capacity config) 1 in
  exists p p1, policy c = Some p /\ policy (admission_step shard_count c call).1 = Some p1
    /\ policy_ok config p /\ policy_ok config p1 /\ few_attempts p
    /\ letters p1 = letters_after shard_count capacity c p call
    /\ match call with
       | CallRedrive max =>
           let l := offered shard_count (senders c) (take (Z.to_nat max) (letters p)) in
           Backlog.shed_low_priority (backlog p) = false ->
           senders (admission_step shard_count c call).1 = l.1
           /\ (redrive shard_count c max).2 = redrive_answer l.2
       | _ => True
       end.
Proof.
  intros [Hcalls [Hcall _]%Forall_cons]%Forall_app c capacity.
  destruct (admission_run_letters shard_count config calls (controller_new m config) (policy_new config)) as (p & Hp & Hok & Hfew);
    [done|done|apply policy_new_ok|constructor|].
  destruct (admission_step_ok shard_count config c call p Hcall Hp Hok) as (p1 & Hp1 & Hok1).
  destruct (admission_step_letters shard_count config c call p Hcall Hp Hok Hfew) as (p2 & Hp2 & Hl & Ha).
  exists p, p1. assert (p2 = p1) as -> by congruence. by split_and!.
Qed.

(** An event is coalesced away only when an equivalent event (same device,
    same class) was handed to its mailbox, or met a closed one, and was not
    released since: after any sequence of calls, an admission that ends in
    [Coalesced] finds its key in the ledger of those calls. *)
Theorem coalesced_is_pending `{StableHash} `{Mailboxes M} `{MailboxDepths M} shard_count config m calls
    ticket message now :
  let c := admission_run shard_count (controller_new (M:=M) m config) calls in
  (admit_message shard_count c ticket message now).2 = Ok Coalesced ->
  (device_key ticket, class ticket) ∈ ledger shard_count (controller_new m config) calls ∅
  /\ is_coalescible (class ticket) = true.
Proof.
  intros c Hadm.
  assert (pending_keys c ⊆ ledger shard_count (controller_new m config) calls ∅) as Hsub.
  { apply ledger_run. set_solver. }
  unfold admit_message, pending_keys in *. destruct (policy c) as [p|].
  - pose proof (pre_admit_pending p now (aggregate_depth (senders c)) ticket) as Hpre.
    assert (action (pre_admit p now (aggregate_depth (senders c)) ticket).2 = PaCoalesce ->
            is_coalescible (class ticket) = true) as Hco.
    { unfold pre_admit. destruct (Backlog.observe _ _) as [bl obs]. destruct (_ && _); [done|].
      destruct (Limiter.try_acquire _ _ _) as [lim []]; simpl; [|done]. by destruct (is_coalescible _). }
    destruct (pre_admit _ _ _ _) as [p1 [[] ov]]; simpl in *; try done.
    + by destruct (route_send _ _ _ _) as [m1 []].
    + destruct Hpre as [_ Hin]. split; [set_solver | auto].
  - unfold send in Hadm. by destruct (route_send _ _ _ _) as [m1 []].
Qed.

(** The controller sheds exactly the low-priority work of an overloaded
    runtime: an admission ends in [PriorityShed] if and only if its class has low
    priority and the aggregate depth of the mailboxes, observed with hysteresis,
    is in overload; in particular a command is never shed. *)
Theorem shed_exactly_low_priority `{StableHash} `{Mailboxes M} `{MailboxDepths M} shard_count
    (c : AdmissionController M) p ticket message now :
  policy c = Some p ->
  (admit_message shard_count c ticket message now).2 = Ok PriorityShed <->
  Backlog.overloaded_after (Backlog.high_watermark (backlog p)) (Backlog.low_watermark (backlog p))
    [aggregate_depth (senders c)] (Backlog.shed_low_priority (backlog p)) = true
  /\ class_priority (class ticket) = Low.
Proof.
  intros Hc. rewrite <-(Backlog.run_overloaded [aggregate_depth (senders c)]). simpl Backlog.run.
  rewrite <-(pre_admit_shed p now). unfold admit_message. rewrite Hc.
  destruct (pre_admit _ _ _ _) as [p1 [[] ov]]; simpl; try naive_solver.
  destruct (route_send _ _ _ _) as [m1 []]; simpl; naive_solver.
Qed.

(** ** Samples: one mailbox of two places and device identifiers as hashes *)

Module Sample.
#[local] Instance sample_hash : StableHash := dk_device_id.
#[local] Instance sample_mailboxes : Mailboxes (list RuntimeMessage) :=
  {| senders_len := fun _ => 1;
     try_send := fun m _ msg => if (length m <? 2)%nat then (m ++ [msg], Sent) else (m, Full) |}.
#[local] Instance sample_depths : MailboxDepths (list RuntimeMessage) :=
  fun m => [(2, 2 - Z.of_nat (length m))].

Definition config : AdmissionPolicyConfig := Build_AdmissionPolicyConfig 4 1 2 2 1 2 0.
Definition key : DeviceKey := mkDeviceKey 1 4.
Definition keepalive : AdmissionTicket := mkTicket 9 TcKeepalive key.
Definition message : RuntimeMessage := ProtocolEvent key "keepalive".
Definition calls : list (AdmissionCall (list RuntimeMessage)) := [CallAdmit keepalive message 0].

(** The mailbox fills, a command and a keepalive become dead letters, the shard
    catches up, and a redrive finds room for one of them. *)
Definition before : list (AdmissionCall (list RuntimeMessage)) :=
  [CallAdmit keepalive message 0; CallAdmit (mkTicket 9 TcAlarm key) message 1;
   CallAdmit (mkTicket 9 TcCommand key) message 2; CallAdmit (mkTicket 8 TcKeepalive key) message 3;
   MailboxesChange []; CallAdmit (mkTicket 9 TcCommand key) message 4].
Definition two_letters : AdmissionPolicyConfig := Build_AdmissionPolicyConfig 4 1 4 2 2 2 0.
Lemma admission_state_bounded_witness :
  let c := admission_run 1 (controller_new [] two_letters) before in
  let c1 := (admission_step 1 c (CallRedrive 4)).1 in
  (redrive 1 c 4).2 = Ok 1
  /\ exists p p1, policy c = Some p /\ policy c1 = Some p1
    /\ policy_ok two_letters p /\ policy_ok two_letters p1 /\ few_attempts p
    /\ letters p1 = letters_after 1 2 c p (CallRedrive 4)
    /\ (let l := offered 1 (senders c) (take (Z.to_nat 4) (letters p)) in
        Backlog.shed_low_priority (backlog p) = false ->
        senders c1 = l.1 /\ (redrive 1 c 4).2 = redrive_answer l.2).
Proof.
  intros c c1. split; [vm_compute; reflexivity|].
  apply (admission_state_bounded 1 two_letters [] before (CallRedrive 4)). repeat constructor. lia.
Defined.

Lemma coalesced_is_pending_witness :
  (key, TcKeepalive) ∈ ledger 1 (controller_new [] config) calls ∅.
Proof.
  apply (coalesced_is_pending 1 config [] calls keepalive message 1). vm_compute. reflexivity.
Defined.

Lemma shed_exactly_low_priority_witness :
  let c := admission_run 1 (controller_new [message; message] config) calls in
  (admit_message 1 c keepalive message 5).2 = Ok PriorityShed.
Proof.
  intros c. destruct (policy c) as [p|] eqn:Hp; [|by vm_compute in Hp].
  apply (shed_exactly_low_priority 1 c p keepalive message 5 Hp).
  vm_compute in Hp. injection Hp as <-. by vm_compute.
Defined.
End Sample.

(** ** Configuration of the runtime and the session registry

    [cheetah-runtime-api/src/config.rs] and [session_registry.rs].  The limits
    that [validate] enforces are what the theorems on the shards and the timers
    assume. *)

(** ** Configuration *)

Definition MAX_SHARD_COUNT : Z := 1024.
Definition MAX_MAILBOX_CAPACITY : Z := 1000000.
Definition MAX_OUTPUT_CHANNEL_CAPACITY : Z := 1000000.
Definition MAX_TIMER_COMMAND_CHANNEL_CAPACITY : Z := 1000000.
Definition MAX_MESSAGES_PER_POLL : Z := 1000000.
Definition MAX_CONSECUTIVE_PER_DEVICE : Z := 1000000.
Definition MAX_PENDING_DISPATCH : Z := 1000000.
Definition MAX_SESSIONS : Z := 10000000.
Definition MAX_ACTOR_IDLE_TIMEOUT_MS : Z := 86400000.
Definition MAX_ADMISSION_KEYS : Z := 1000000.
Definition MAX_COALESCE_TRACKED : Z := 1000000.
Definition MAX_DEAD_LETTER_CAPACITY : Z := 1000000.

Record RuntimeConfig := {
  shard_count : Z;
  shard_mailbox_capacity : Z;
  output_channel_capacity : Z;
  timer_command_channel_capacity : Z;
  timer_tick_resolution_ms : Z;
  max_messages_per_poll : Z;
  max_consecutive_per_device : Z;
  max_pending_dispatch : Z;
  max_sessions : Z;
  actor_idle_timeout_ms : Z;
  admission : AdmissionPolicyConfig
}.

Definition RuntimeConfig_default : RuntimeConfig := {|
  shard_count := 64; shard_mailbox_capacity := 8192; output_channel_capacity := 8192;
  timer_command_channel_capacity := 8192; timer_tick_resolution_ms := 100;
  max_messages_per_poll := 1024; max_consecutive_per_device := 16; max_pending_dispatch := 65536;
  max_sessions := 1000000; actor_idle_timeout_ms := 300000; admission := AdmissionPolicyConfig_default
|}.

Definition validate_in_range (name : string) (value min max : Z) : result unit RuntimeError :=
  if (value <? min) || (max <? value)
  then Err (runtime_invalid_argument
              (name +:+ " must be between " +:+ show_uint min +:+ " and " +:+ show_uint max))
  else Ok tt.

Definition AdmissionPolicyConfig_validate (c : AdmissionPolicyConfig) : result unit RuntimeError :=
  if rate_capacity_tokens c =? 0 then
    Err (runtime_invalid_argument "admission.rate_capacity_tokens must be greater than 0")
  else if rate_refill_tokens_per_sec c =? 0 then
    Err (runtime_invalid_argument "admission.rate_refill_tokens_per_sec must be greater than 0")
  else
    let? _ := validate_in_range "admission.rate_max_keys" (rate_max_keys c) 1 MAX_ADMISSION_KEYS in
    let? _ := validate_in_range "admission.coalesce_max_tracked" (coalesce_max_tracked c) 1 MAX_COALESCE_TRACKED in
    let? _ := validate_in_range "admission.dead_letter_capacity" (dead_letter_capacity c) 1
                MAX_DEAD_LETTER_CAPACITY in
    if backlog_high_watermark c =? 0 then
      Err (runtime_invalid_argument "admission.backlog_high_watermark must be greater than 0")
    else if backlog_high_watermark c <? backlog_low_watermark c then
      Err (runtime_invalid_argument
             "admission.backlog_low_watermark must not exceed backlog_high_watermark")
    else Ok tt.

Definition RuntimeConfig_validate (c : RuntimeConfig) : result unit RuntimeError :=
  let? _ := validate_in_range "shard_count" (shard_count c) 1 MAX_SHARD_COUNT in
  let? _ := validate_in_range "shard_mailbox_capacity" (shard_mailbox_capacity c) 1 MAX_MAILBOX_CAPACITY in
  let? _ := validate_in_range "output_channel_capacity" (output_channel_capacity c) 1
              MAX_OUTPUT_CHANNEL_CAPACITY in
  let? _ := validate_in_range "timer_command_channel_capacity" (timer_command_channel_capacity c) 1
              MAX_TIMER_COMMAND_CHANNEL_CAPACITY in
  if timer_tick_resolution_ms c =? 0 then
    Err (runtime_invalid_argument "timer_tick_resolution_ms must be greater than 0")
  else
    let? _ := validate_in_range "max_messages_per_poll" (max_messages_per_poll c) 1 MAX_MESSAGES_PER_POLL in
    let? _ := validate_in_range "max_consecutive_per_device" (max_consecutive_per_device c) 1
                MAX_CONSECUTIVE_PER_DEVICE in
    let? _ := validate_in_range "max_pending_dispatch" (max_pending_dispatch c) 1 MAX_PENDING_DISPATCH in
    let? _ := validate_in_range "max_sessions" (max_sessions c) 1 MAX_SESSIONS in
    if MAX_ACTOR_IDLE_TIMEOUT_MS <? actor_idle_timeout_ms c then
      Err (runtime_invalid_argument "actor_idle_timeout_ms must not exceed 86400000")
    else AdmissionPolicyConfig_validate (admission c).

Lemma validate_in_range_Ok name v lo hi : validate_in_range name v lo hi = Ok tt <-> lo <= v <= hi.
Proof.
  unfold validate_in_range. destruct (Z.ltb_spec v lo), (Z.ltb_spec hi v); simpl; split; try done; lia.
Qed.

(** What the runtime relies on when its configuration was validated. *)
Record config_valid (c : RuntimeConfig) : Prop := {
  cv_shards : 1 <= shard_count c <= MAX_SHARD_COUNT;
  cv_poll : 1 <= max_messages_per_poll c <= MAX_MESSAGES_PER_POLL;
  cv_consecutive : 1 <= max_consecutive_per_device c <= MAX_CONSECUTIVE_PER_DEVICE;
  cv_pending : 1 <= max_pending_dispatch c <= MAX_PENDING_DISPATCH;
  cv_sessions : 1 <= max_sessions c <= MAX_SESSIONS;
  cv_idle : actor_idle_timeout_ms c <= MAX_ACTOR_IDLE_TIMEOUT_MS;
  cv_keys : 1 <= rate_max_keys (admission c) <= MAX_ADMISSION_KEYS;
  cv_tracked : 1 <= coalesce_max_tracked (admission c) <= MAX_COALESCE_TRACKED;
  cv_dead : 1 <= dead_letter_capacity (admission c) <= MAX_DEAD_LETTER_CAPACITY;
  cv_marks : backlog_low_watermark (admission c) <= backlog_high_watermark (admission c)
}.

Lemma RuntimeConfig_validate_sound c : RuntimeConfig_validate c = Ok tt -> config_valid c.
Proof.
  unfold RuntimeConfig_validate, AdmissionPolicyConfig_validate. intros Hv. inv_ok Hv.
  repeat match goal with u : unit |- _ => destruct u end.
  repeat match goal with Hr : validate_in_range _ _ _ _ = Ok _ |- _ => apply validate_in_range_Ok in Hr end.
  repeat match goal with Hb : (_ <? _) = false |- _ => apply Z.ltb_ge in Hb end.
  by split.
Qed.

(** ** The session registry *)

Record SessionKey := mkSessionKey { sk_tenant_id : Uuid; sk_protocol_session_id : Uuid }.
#[global] Instance SessionKey_eq_dec : EqDecision SessionKey.
Proof. solve_decision. Defined.
#[global] Instance SessionKey_countable : Countable SessionKey.
Proof.
  refine (inj_countable' (fun k => (sk_tenant_id k, sk_protocol_session_id k))
            (fun p => mkSessionKey p.1 p.2) _).
  by intros [].
Defined.

Section Registry.
Context {Handle : Type}.

Record SessionRegistry := mkRegistry { sessions : gmap SessionKey Handle; registry_max : Z }.

Definition registry_new (max_sessions : Z) : SessionRegistry := mkRegistry ∅ max_sessions.

Definition registry_insert (r : SessionRegistry) (key : SessionKey) (handle : Handle) :
    SessionRegistry * result (option Handle) RuntimeError :=
  if bool_decide (sessions r !! key = None) && (registry_max r <=? Z.of_nat (size (sessions r)))
  then (r, Err RtOverloaded)
  else (mkRegistry (<[key := handle]> (sessions r)) (registry_max r), Ok (sessions r !! key)).

Definition registry_remove (r : SessionRegistry) (key : SessionKey) : SessionRegistry * option Handle :=
  (mkRegistry (delete key (sessions r)) (registry_max r), sessions r !! key).

(** [list]: the map is ordered by key, its order among the handles of a tenant
    is that of the session identifiers. *)
Definition key_before (a b : SessionKey) : Prop :=
  sk_tenant_id a < sk_tenant_id b
  \/ (sk_tenant_id a = sk_tenant_id b /\ sk_protocol_session_id a <= sk_protocol_session_id b).
#[local] Instance key_before_dec a b : Decision (key_before a b).
Proof. unfold key_before. apply _. Defined.
Definition registry_list (r : SessionRegistry) (tenant : Uuid) : list Handle :=
  snd <$> filter (fun kv => sk_tenant_id kv.1 = tenant)
            (merge_sort (fun a b => key_before a.1 b.1) (map_to_list (sessions r))).

Definition registry_bounded (r : SessionRegistry) : Prop :=
  Z.of_nat (size (sessions r)) <= Z.max 0 (registry_max r).

Lemma registry_insert_bounded r k h : registry_bounded r -> registry_bounded (registry_insert r k h).1.
Proof.
  unfold registry_bounded, registry_insert. intros Hr.
  destruct (bool_decide_reflect (sessions r !! k = None)) as [Hk|Hk]; simpl.
  - destruct (Z.leb_spec (registry_max r) (Z.of_nat (size (sessions r)))); simpl; [done|].
    rewrite map_size_insert, Hk. lia.
  - destruct (sessions r !! k) as [h0|] eqn:Hk0; [|done]. by rewrite map_size_insert, Hk0.
Qed.
Lemma registry_remove_bounded r k : registry_bounded r -> registry_bounded (registry_remove r k).1.
Proof.
  unfold registry_bounded, registry_remove. cbn [fst sessions registry_max]. intros Hr. rewrite map_size_delete.
  destruct (sessions r !! k); unfold id; lia.
Qed.

(** A tenant sees its own sessions and no others. *)
Lemma registry_list_own r tenant h :
  h ∈ registry_list r tenant <-> exists k, sessions r !! k = Some h /\ sk_tenant_id k = tenant.
Proof.
  unfold registry_list. rewrite list_elem_of_fmap. split.
  - intros ([k h1] & -> & [Ht Hin]%list_elem_of_filter). exists k. split; [|done].
    by rewrite merge_sort_Permutation, elem_of_map_to_list in Hin.
  - intros (k & Hk & Ht). exists (k, h). split; [done|]. apply list_elem_of_filter. split; [done|].
    by rewrite merge_sort_Permutation, elem_of_map_to_list.
Qed.
End Registry.
Arguments SessionRegistry : clear implicits.
