(* ===== verification/Shard.v ===== *)
(** * The shard worker

    [cheetah-runtime-tokio/src/shard.rs]: one task per shard that takes messages
    from its mailbox, keeps a queue per device, runs the actors of the devices
    and unloads idle ones.  The actor is an argument, the trait [DeviceActor]:
    [create], [handle] and [shutdown] act on a world [W] that stands for the
    context of the actor (scheduler, clock, session registry) and for the output
    channel.  [handled] is a history variable: the messages that were given to an
    actor, in order. *)

From S2P Require Import Prelude RustStr SipUri Domain Runtime Admission AdmissionPolicy.

Open Scope list_scope.
Open Scope Z_scope.

(** What the shard uses of its actors and of their context. *)
Class DeviceActor (W A Output : Type) := {
  create : W -> DeviceKey -> W * option A;
  handle : W -> DeviceKey -> A -> RuntimeMessage -> W * A * option (list Output);
  shutdown : W -> DeviceKey -> A -> W * option (list Output);
  send_output : W -> Output -> W * bool;
  now_monotonic : W -> Z
}.

(** The counters of [RuntimeMetrics] that the shards write. *)
Record ActorMetrics := mkMetrics {
  messages_processed : Z;
  actors_created : Z;
  actors_evicted_idle : Z;
  active_actors : Z
}.
Definition record_message_processed (m : ActorMetrics) : ActorMetrics :=
  mkMetrics (wrap64 (messages_processed m + 1)) (actors_created m) (actors_evicted_idle m) (active_actors m).
Definition record_actor_created (m : ActorMetrics) : ActorMetrics :=
  mkMetrics (messages_processed m) (wrap64 (actors_created m + 1)) (actors_evicted_idle m)
    (wrap64 (active_actors m + 1)).
Definition decrement_active_actors (m : ActorMetrics) : ActorMetrics :=
  mkMetrics (messages_processed m) (actors_created m) (actors_evicted_idle m) (sat_sub (active_actors m) 1).
Definition record_actor_evicted_idle (m : ActorMetrics) : ActorMetrics :=
  decrement_active_actors
    (mkMetrics (messages_processed m) (actors_created m) (wrap64 (actors_evicted_idle m + 1)) (active_actors m)).

Record ShardState (W A : Type) := mkShard {
  ready_queue : gmap DeviceKey (list RuntimeMessage);
  actors : gmap DeviceKey A;
  last_active : gmap DeviceKey Z;
  world : W;
  handled : list (DeviceKey * RuntimeMessage);
  metrics : ActorMetrics
}.
Arguments mkShard {W A}. Arguments ready_queue {W A}. Arguments actors {W A}.
Arguments last_active {W A}. Arguments world {W A}. Arguments handled {W A}. Arguments metrics {W A}.

(** The order of the keys of a [BTreeMap]. *)
Definition device_key_le (a b : DeviceKey) : Prop :=
  dk_tenant_id a < dk_tenant_id b
  \/ (dk_tenant_id a = dk_tenant_id b /\ dk_device_id a <= dk_device_id b).
#[global] Instance device_key_le_dec a b : Decision (device_key_le a b).
Proof. unfold device_key_le. apply _. Defined.
Definition keys_of {V} (m : gmap DeviceKey V) : list DeviceKey :=
  merge_sort device_key_le (map_to_list m).*1.

Section Shard.
Context `{DeviceActor W A Output}.
Context (max_poll max_consecutive idle_timeout_ms : Z).

(** [for output in outputs { if send fails { return } }]. *)
Fixpoint send_outputs (w : W) (outputs : list Output) : W * bool :=
  match outputs with
  | [] => (w, true)
  | o :: outputs => let '(w, ok) := send_output w o in if ok then send_outputs w outputs else (w, false)
  end.

(** The loop over the messages of one device; the flag is the early return on a
    closed output channel. *)
Fixpoint consume (n : nat) (key : DeviceKey) (actor : A) (s : ShardState W A) (processed : Z) :
    ShardState W A * Z * bool :=
  match n with
  | O => (s, processed, false)
  | S n =>
      if max_poll <=? processed then (s, processed, false)
      else match ready_queue s !! key with
      | Some (msg :: queue) =>
          let '(w, actor, r) := handle (world s) key actor msg in
          let s := mkShard (<[key := queue]> (ready_queue s)) (<[key := actor]> (actors s))
                     (last_active s) w (handled s ++ [(key, msg)]) (metrics s) in
          let '(w, sent) := match r with
                            | Some outputs => send_outputs w outputs
                            | None => (w, true)
                            end in
          let s := mkShard (ready_queue s) (actors s) (last_active s) w (handled s) (metrics s) in
          if sent then
            consume n key actor
              (mkShard (ready_queue s) (actors s) (<[key := now_monotonic w]> (last_active s)) w (handled s)
                 (record_message_processed (metrics s)))
              (processed + 1)
          else (s, processed, true)
      | _ => (s, processed, false)
      end
  end.

(** The actor of a device, created on its first message. *)
Definition ensure_actor (key : DeviceKey) (s : ShardState W A) : ShardState W A * option A :=
  match actors s !! key with
  | Some actor => (s, Some actor)
  | None =>
      match create (world s) key with
      | (w, Some actor) =>
          (mkShard (ready_queue s) (<[key := actor]> (actors s)) (last_active s) w (handled s)
             (record_actor_created (metrics s)), Some actor)
      | (w, None) =>
          (mkShard (delete key (ready_queue s)) (actors s) (last_active s) w (handled s) (metrics s), None)
      end
  end.

Definition remove_if_empty (key : DeviceKey) (s : ShardState W A) : ShardState W A :=
  match ready_queue s !! key with
  | Some [] => mkShard (delete key (ready_queue s)) (actors s) (last_active s) (world s) (handled s)
                 (metrics s)
  | _ => s
  end.

(** The body of [for key in keys]. *)
Definition process_key (key : DeviceKey) (s : ShardState W A) (processed : Z) : ShardState W A * Z * bool :=
  match ensure_actor key s with
  | (s, None) => (s, processed, false)
  | (s, Some actor) =>
      match ready_queue s !! key with
      | None => (s, processed, false)
      | Some _ =>
          let '(s, processed, closed) := consume (Z.to_nat max_consecutive) key actor s processed in
          if closed then (s, processed, true) else (remove_if_empty key s, processed, false)
      end
  end.

Fixpoint process_keys (keys : list DeviceKey) (s : ShardState W A) (processed : Z) :
    ShardState W A * Z * bool :=
  match keys with
  | [] => (s, processed, false)
  | key :: keys =>
      if max_poll <=? processed then (s, processed, false)
      else
        let '(s, processed, closed) := process_key key s processed in
        if closed then (s, processed, true) else process_keys keys s processed
  end.

(** [process_ready_queue]; [None] when the fuel does not suffice. *)
Fixpoint process_ready_queue (fuel : nat) (s : ShardState W A) (processed : Z) : option (ShardState W A) :=
  match fuel with
  | O => None
  | S fuel =>
      if bool_decide (ready_queue s = ∅) || (max_poll <=? processed) then Some s
      else
        let '(s, processed, closed) := process_keys (keys_of (ready_queue s)) s processed in
        if closed then Some s else process_ready_queue fuel s processed
  end.

(** The messages and queues that are left: what every round makes smaller. *)
Definition backlog_size (m : gmap DeviceKey (list RuntimeMessage)) : nat :=
  map_fold (fun _ q n => S (length q) + n)%nat O m.

(** [while !ready_queue.is_empty() { process_ready_queue }]. *)
Fixpoint drain_ready (fuel : nat) (s : ShardState W A) : option (ShardState W A) :=
  match fuel with
  | O => None
  | S fuel =>
      if bool_decide (ready_queue s = ∅) then Some s
      else s ← process_ready_queue (S (backlog_size (ready_queue s))) s 0; drain_ready fuel s
  end.

(** One stale actor is forgotten; it is counted if it was loaded. *)
Definition evict_one (s : ShardState W A) (key : DeviceKey) : ShardState W A :=
  mkShard (ready_queue s) (delete key (actors s)) (delete key (last_active s)) (world s) (handled s)
    (match actors s !! key with Some _ => record_actor_evicted_idle (metrics s) | None => metrics s end).
Definition evict_idle (s : ShardState W A) : ShardState W A :=
  if idle_timeout_ms =? 0 then s
  else
    let now := now_monotonic (world s) in
    let timeout := as_i64 idle_timeout_ms in
    let stale := (filter (fun kv => timeout <= sat_sub_i64 now kv.2) (map_to_list (last_active s))).*1 in
    fold_left evict_one stale s.

(** One received message: it is queued, or the shutdown is noted. *)
Definition push_ready (msg : RuntimeMessage) (s : ShardState W A) (stop : bool) : ShardState W A * bool :=
  if match msg with Shutdown => true | _ => false end then (s, true)
  else match message_device_key msg with
       | Some key =>
           (mkShard (<[key := default [] (ready_queue s !! key) ++ [msg]]> (ready_queue s)) (actors s)
              (last_active s) (world s) (handled s) (metrics s), stop)
       | None => (s, stop)
       end.
(** The message of [recv] and those of the [try_recv] that follow it. *)
Fixpoint receive (batch : list RuntimeMessage) (s : ShardState W A) (stop : bool) : ShardState W A * bool :=
  match batch with
  | [] => (s, stop)
  | msg :: batch => let '(s, stop) := push_ready msg s stop in receive batch s stop
  end.

Fixpoint shutdown_actors (l : list (DeviceKey * A)) (w : W) (m : ActorMetrics) : W * ActorMetrics :=
  match l with
  | [] => (w, m)
  | (key, actor) :: l =>
      let m := decrement_active_actors m in
      match shutdown w key actor with
      | (w, Some outputs) =>
          let '(w, sent) := send_outputs w outputs in if sent then shutdown_actors l w m else (w, m)
      | (w, None) => shutdown_actors l w m
      end
  end.
Definition shutdown_all (s : ShardState W A) : ShardState W A :=
  let '(w, m) := shutdown_actors (merge_sort (fun a b => device_key_le a.1 b.1) (map_to_list (actors s)))
                   (world s) (metrics s) in
  mkShard (ready_queue s) ∅ (last_active s) w (handled s) m.

(** The loop of [Shard::run] on the batches that arrive; their end is the closed
    mailbox.  A drain gets one more round than there are messages and queues. *)
Definition drain (s : ShardState W A) : option (ShardState W A) :=
  drain_ready (S (backlog_size (ready_queue s))) s.
Fixpoint shard_run (s : ShardState W A) (stop : bool) (batches : list (list RuntimeMessage)) :
    option (ShardState W A) :=
  s ← drain s;
  let s := evict_idle s in
  if stop then Some (shutdown_all s)
  else match batches with
       | [] => s ← drain s; Some (shutdown_all (evict_idle s))
       | batch :: batches => let '(s, stop) := receive batch s stop in shard_run s stop batches
       end.

End Shard.

(** ** Progress *)

Definition of_key (k : DeviceKey) (l : list (DeviceKey * RuntimeMessage)) : list RuntimeMessage :=
  (filter (fun x => x.1 = k) l).*2.

Lemma of_key_app k l1 l2 : of_key k (l1 ++ l2) = of_key k l1 ++ of_key k l2.
Proof. unfold of_key. by rewrite filter_app, fmap_app. Qed.
Lemma of_key_one k k1 m : of_key k [(k1, m)] = if decide (k1 = k) then [m] else [].
Proof.
  unfold of_key. destruct (decide (k1 = k)); [by rewrite filter_cons_True | by rewrite filter_cons_False].
Qed.

Lemma backlog_insert_new (m : gmap DeviceKey (list RuntimeMessage)) k q :
  m !! k = None -> backlog_size (<[k := q]> m) = (S (length q) + backlog_size m)%nat.
Proof. intros Hk. unfold backlog_size. rewrite map_fold_insert_L; [done| |done]. intros. lia. Qed.
Lemma backlog_delete (m : gmap DeviceKey (list RuntimeMessage)) k q :
  m !! k = Some q -> backlog_size m = (S (length q) + backlog_size (delete k m))%nat.
Proof.
  intros Hk. rewrite <-(backlog_insert_new (delete k m) k q) by apply lookup_delete_eq.
  by rewrite insert_delete_id.
Qed.
Lemma backlog_insert (m : gmap DeviceKey (list RuntimeMessage)) k q q1 :
  m !! k = Some q -> (backlog_size (<[k := q1]> m) + length q = backlog_size m + length q1)%nat.
Proof.
  intros Hk. rewrite (backlog_delete m k q Hk), <-(insert_delete_eq m k q1).
  rewrite backlog_insert_new by apply lookup_delete_eq. lia.
Qed.

Section Progress.
Context `{DeviceActor W A Output}.
Context (max_poll max_consecutive idle_timeout_ms : Z).

Definition queue (s : ShardState W A) (k : DeviceKey) : list RuntimeMessage := default [] (ready_queue s !! k).
(** The messages of a device in the order of their arrival: handled, then
    waiting. *)
Definition view (s : ShardState W A) (k : DeviceKey) : list RuntimeMessage := of_key k (handled s) ++ queue s k.
Definition size_of (s : ShardState W A) : nat := backlog_size (ready_queue s).

(** From [s] to [s1] nothing is reordered or duplicated, the backlog does not
    grow, and nothing is lost if actors can be created. *)
Record progress (s s1 : ShardState W A) : Prop := {
  pr_sub : forall k, view s1 k `sublist_of` view s k;
  pr_size : (size_of s1 <= size_of s)%nat;
  pr_all : (forall w k, is_Some (create w k).2) -> forall k, view s1 k = view s k
}.
#[global] Instance progress_refl : Reflexive progress.
Proof. intros s. by split. Qed.
#[global] Instance progress_trans : Transitive progress.
Proof.
  intros s1 s2 s3 [Hs1 Hz1 Ha1] [Hs2 Hz2 Ha2]. split; [intros k; etrans; [apply Hs2 | apply Hs1] | lia|].
  intros Hc k. by rewrite Ha2, Ha1.
Qed.

Lemma progress_same s s1 :
  handled s1 = handled s -> (forall k, queue s1 k = queue s k) -> (size_of s1 <= size_of s)%nat -> progress s s1.
Proof.
  intros Hh Hq Hz. assert (forall k, view s1 k = view s k) as Hv.
  { intros k. unfold view. by rewrite Hh, Hq. }
  split; [intros k; by rewrite Hv | done | done].
Qed.

(** A message taken from its queue and handled. *)
Lemma progress_pop s s1 key msg q :
  ready_queue s !! key = Some (msg :: q) -> ready_queue s1 = <[key := q]> (ready_queue s) ->
  handled s1 = handled s ++ [(key, msg)] -> progress s s1 /\ (size_of s1 < size_of s)%nat.
Proof.
  intros Hk Hr Hh. assert (size_of s1 < size_of s)%nat as Hz.
  { unfold size_of. rewrite Hr. pose proof (backlog_insert _ _ _ q Hk). simpl in *. lia. }
  assert (forall k, view s1 k = view s k) as Hv.
  { intros k. unfold view, queue. rewrite Hh, Hr, of_key_app, of_key_one, <-app_assoc.
    destruct (decide (key = k)) as [->|Hne].
    - by rewrite lookup_insert_eq, Hk.
    - by rewrite lookup_insert_ne. }
  split; [|done]. split; [intros k; by rewrite Hv | lia | done].
Qed.

Lemma consume_progress n : forall key actor s processed,
  let '(s1, p1, closed) := consume max_poll n key actor s processed in
  progress s s1 /\ processed <= p1 /\ (closed = true -> (size_of s1 < size_of s)%nat)
  /\ (forall k, ready_queue s !! k <> None -> ready_queue s1 !! k <> None)
  /\ ((0 < n)%nat -> processed < max_poll -> queue s key <> [] -> (size_of s1 < size_of s)%nat).
Proof.
  induction n as [|n IH]; intros key actor s processed; simpl; [split_and!; (done || lia)|].
  destruct (Z.leb_spec max_poll processed); [split_and!; (done || lia)|].
  unfold queue. destruct (ready_queue s !! key) as [[|msg q]|] eqn:Hk; [split_and!; done| |split_and!; done].
  destruct (handle (world s) key actor msg) as [[w a1] r]. simpl.
  destruct (match r with Some outputs => _ | None => _ end) as [w1 sent]. destruct sent.
  - set (s1 := mkShard _ _ _ _ _ _).
    destruct (progress_pop s s1 key msg q) as [Hp Hz]; [done..|].
    specialize (IH key a1 s1 (processed + 1)).
    destruct (consume max_poll n key a1 s1 (processed + 1)) as [[s2 p2] closed].
    destruct IH as (Hp2 & Hle & _ & Hdom & _). pose proof (pr_size _ _ Hp2).
    split_and!; [by etrans|lia|lia| |lia].
    intros k Hne. apply Hdom. simpl. rewrite lookup_insert. by case_decide.
  - set (s1 := mkShard _ _ _ _ _ _).
    destruct (progress_pop s s1 key msg q) as [Hp Hz]; [done..|].
    split_and!; [done|lia|done| |done].
    intros k Hne. simpl. rewrite lookup_insert. by case_decide.
Qed.

Lemma remove_if_empty_progress key s :
  progress s (remove_if_empty key s)
  /\ (ready_queue s !! key = Some [] -> (size_of (remove_if_empty key s) < size_of s)%nat).
Proof.
  unfold remove_if_empty. destruct (ready_queue s !! key) as [[|m q]|] eqn:Hk; [|by split..].
  pose proof (backlog_delete _ _ _ Hk) as Hb. simpl in Hb.
  split; [|unfold size_of; simpl; lia]. apply progress_same; [done| |unfold size_of; simpl; lia].
  intros k. unfold queue. simpl. destruct (decide (key = k)) as [->|Hne].
  - by rewrite lookup_delete_eq, Hk.
  - by rewrite lookup_delete_ne.
Qed.

Lemma ensure_actor_progress key s :
  let '(s1, a) := ensure_actor key s in
  progress s s1 /\ match a with
                   | Some _ => ready_queue s1 = ready_queue s
                   | None => is_Some (ready_queue s !! key) -> (size_of s1 < size_of s)%nat
                   end.
Proof.
  unfold ensure_actor. destruct (actors s !! key) as [a|]; [done|].
  destruct (create (world s) key) as [w [a|]] eqn:Hc.
  - split; [|done]. apply progress_same; done.
  - assert (size_of (mkShard (delete key (ready_queue s)) (actors s) (last_active s) w (handled s) (metrics s))
             <= size_of s)%nat as Hz.
    { unfold size_of. simpl. destruct (ready_queue s !! key) as [q|] eqn:Hk.
      - rewrite (backlog_delete _ _ _ Hk). lia.
      - by rewrite delete_id. }
    split.
    + split; [|done|].
      * intros k. unfold view, queue. simpl. destruct (decide (key = k)) as [->|Hne].
        -- rewrite lookup_delete_eq. simpl. rewrite app_nil_r. by apply sublist_inserts_r.
        -- by rewrite lookup_delete_ne.
      * intros Hall. destruct (Hall (world s) key) as [a Ha]. by rewrite Hc in Ha.
    + intros [q Hk]. unfold size_of. simpl. rewrite (backlog_delete _ _ _ Hk). lia.
Qed.

Lemma process_key_progress key s processed :
  let '(s1, p1, closed) := process_key max_poll max_consecutive key s processed in
  progress s s1 /\ processed <= p1
  /\ (closed = true -> (size_of s1 < size_of s)%nat)
  /\ (0 < max_consecutive -> processed < max_poll -> is_Some (ready_queue s !! key) ->
      (size_of s1 < size_of s)%nat).
Proof.
  unfold process_key. pose proof (ensure_actor_progress key s) as He.
  destruct (ensure_actor key s) as [s0 [a|]]; destruct He as [Hp0 Hr]; [|by split_and!; auto; lia].
  assert (size_of s0 = size_of s) as Hz0 by (unfold size_of; by rewrite Hr).
  rewrite Hr. destruct (ready_queue s !! key) as [q|] eqn:Hk; [|by split_and!; try (lia || done || intros; by destruct H2)].
  pose proof (consume_progress (Z.to_nat max_consecutive) key a s0 processed) as Hc.
  destruct (consume _ _ _ _ _ _) as [[s1 p1] closed] eqn:Ec. destruct Hc as (Hp1 & Hle & Hcl & _ & Hlt).
  destruct closed; [split_and!; [by etrans|done|rewrite <-Hz0; auto|rewrite <-Hz0; auto]|].
  destruct (remove_if_empty_progress key s1) as [Hp2 Hrm].
  split_and!; [by do 2 (etrans; [done|])|done|done|]. intros Hm Hmp _.
  pose proof (pr_size _ _ Hp1). pose proof (pr_size _ _ Hp2).
  destruct q as [|m q].
  - assert (s1 = s0) as ->.
    { destruct (Z.to_nat max_consecutive); simpl in Ec; [by simplify_eq|].
      rewrite Hr, Hk in Ec. by destruct (max_poll <=? processed); simplify_eq. }
    rewrite Hr in Hrm. specialize (Hrm Hk). lia.
  - assert (size_of s1 < size_of s0)%nat; [|lia]. apply Hlt; [lia|done|]. unfold queue. by rewrite Hr, Hk.
Qed.

Lemma process_keys_progress keys : forall s processed,
  let '(s1, p1, closed) := process_keys max_poll max_consecutive keys s processed in
  progress s s1 /\ processed <= p1
  /\ (closed = true -> (size_of s1 < size_of s)%nat)
  /\ (0 < max_consecutive -> processed < max_poll ->
      (exists key, head keys = Some key /\ is_Some (ready_queue s !! key)) -> (size_of s1 < size_of s)%nat).
Proof.
  induction keys as [|key keys IH]; intros s processed; simpl.
  - split_and!; [done|lia|done|]. by intros _ _ (k & ? & _).
  - destruct (Z.leb_spec max_poll processed); [split_and!; [done|lia|done|lia]|].
    pose proof (process_key_progress key s processed) as Hk.
    destruct (process_key _ _ _ _ _) as [[s1 p1] closed]. destruct Hk as (Hp1 & Hle & Hcl & Hlt).
    assert (0 < max_consecutive -> processed < max_poll ->
      (exists key', Some key = Some key' /\ is_Some (ready_queue s !! key')) -> (size_of s1 < size_of s)%nat) as Hlt'.
    { intros Hm Hmp (k & [= <-] & Hin). auto. }
    destruct closed; [by split_and!|].
    specialize (IH s1 p1). destruct (process_keys _ _ _ _ _) as [[s2 p2] closed].
    destruct IH as (Hp2 & Hle2 & Hcl2 & _). pose proof (pr_size _ _ Hp1). pose proof (pr_size _ _ Hp2).
    split_and!; [by etrans|lia|intros; specialize (Hcl2 ltac:(done)); lia|].
    intros Hm Hmp Hin. specialize (Hlt' Hm Hmp Hin). lia.
Qed.

Lemma keys_of_head (m : gmap DeviceKey (list RuntimeMessage)) :
  m <> ∅ -> exists key, head (keys_of m) = Some key /\ is_Some (m !! key).
Proof.
  intros Hm. destruct (keys_of m) as [|key keys] eqn:Hk.
  - destruct Hm. apply map_to_list_empty_iff. apply (fmap_nil_inv fst), Permutation_nil.
    rewrite <-Hk. apply merge_sort_Permutation.
  - exists key. split; [done|]. assert (key ∈ (map_to_list m).*1) as Hin.
    { rewrite <-(merge_sort_Permutation device_key_le). unfold keys_of in Hk. rewrite Hk. left. }
    apply list_elem_of_fmap in Hin as ([k q] & -> & Hin). apply elem_of_map_to_list in Hin. by exists q.
Qed.

(** One call of [process_ready_queue] returns, and makes progress when there is
    something to do. *)
Lemma process_ready_queue_progress fuel : forall s processed,
  0 < max_consecutive -> (size_of s < fuel)%nat ->
  exists s1, process_ready_queue max_poll max_consecutive fuel s processed = Some s1 /\ progress s s1
    /\ (ready_queue s <> ∅ -> processed < max_poll -> (size_of s1 < size_of s)%nat).
Proof.
  induction fuel as [|fuel IH]; intros s processed Hm Hf; [lia|]. simpl.
  case_bool_decide as He; [by exists s|]. simpl.
  destruct (Z.leb_spec max_poll processed); [exists s; split_and!; [done..|lia]|].
  pose proof (process_keys_progress (keys_of (ready_queue s)) s processed) as Hk.
  destruct (process_keys _ _ _ _ _) as [[s1 p1] closed]. destruct Hk as (Hp & Hle & Hcl & Hlt).
  specialize (Hlt Hm ltac:(done) (keys_of_head _ He)).
  destruct closed; [by exists s1|].
  destruct (IH s1 p1) as (s2 & Hr & Hp2 & _); [done|lia|]. exists s2. pose proof (pr_size _ _ Hp2).
  split_and!; [done|by etrans|lia].
Qed.

Lemma drain_ready_progress fuel : forall s,
  0 < max_consecutive -> 0 < max_poll -> (size_of s < fuel)%nat ->
  exists s1, drain_ready max_poll max_consecutive fuel s = Some s1 /\ progress s s1 /\ ready_queue s1 = ∅.
Proof.
  induction fuel as [|fuel IH]; intros s Hm Hp Hf; [lia|]. cbn [drain_ready].
  case_bool_decide as He; [by exists s|].
  destruct (process_ready_queue_progress (S (backlog_size (ready_queue s))) s 0 Hm ltac:(unfold size_of; lia))
    as (s1 & -> & Hp1 & Hlt). cbn [mbind option_bind].
  destruct (IH s1) as (s2 & -> & Hp2 & He2); [done..|specialize (Hlt He Hp); lia|].
  exists s2. split_and!; [done|by etrans|done].
Qed.
Lemma drain_progress s :
  0 < max_consecutive -> 0 < max_poll ->
  exists s1, drain max_poll max_consecutive s = Some s1 /\ progress s s1 /\ ready_queue s1 = ∅.
Proof. intros. apply drain_ready_progress; [done..|unfold size_of; lia]. Qed.

(** What arrives for a device: the messages of the batches up to the first one
    that has a shutdown. *)
Definition wants (k : DeviceKey) (msg : RuntimeMessage) : bool :=
  bool_decide (message_device_key msg = Some k).
Definition has_shutdown (batch : list RuntimeMessage) : bool :=
  existsb (fun msg => match msg with Shutdown => true | _ => false end) batch.
Fixpoint accepted (batches : list (list RuntimeMessage)) : list RuntimeMessage :=
  match batches with
  | [] => []
  | batch :: batches => batch ++ if has_shutdown batch then [] else accepted batches
  end.
Definition arrived (k : DeviceKey) (l : list RuntimeMessage) : list RuntimeMessage := List.filter (wants k) l.

Lemma push_ready_view msg (s : ShardState W A) stop :
  let '(s1, stop1) := push_ready msg s stop in
  stop1 = stop || has_shutdown [msg] /\ handled s1 = handled s
  /\ (forall k, view s1 k = view s k ++ arrived k [msg]).
Proof.
  assert (forall key k (Hmsg : message_device_key msg = Some key),
    view (mkShard (<[key := default [] (ready_queue s !! key) ++ [msg]]> (ready_queue s)) (actors s)
            (last_active s) (world s) (handled s) (metrics s)) k = view s k ++ arrived k [msg]) as Hpush.
  { intros key k Hmsg. unfold view, queue, arrived, wants. simpl. rewrite Hmsg, <-app_assoc. f_equal.
    case_bool_decide as E.
    - simplify_eq. by rewrite lookup_insert_eq.
    - rewrite lookup_insert_ne by congruence. by rewrite app_nil_r. }
  unfold push_ready. destruct msg; simpl in *; rewrite ?orb_false_r, ?orb_true_r;
    split_and!; auto; intros k; by rewrite app_nil_r.
Qed.
Lemma receive_view batch : forall (s : ShardState W A) stop,
  let '(s1, stop1) := receive batch s stop in
  stop1 = stop || has_shutdown batch /\ handled s1 = handled s
  /\ (forall k, view s1 k = view s k ++ arrived k batch).
Proof.
  induction batch as [|msg batch IH]; intros s stop; simpl.
  - rewrite orb_false_r. split_and!; [done..|]. intros k. by rewrite app_nil_r.
  - pose proof (push_ready_view msg s stop) as Hm. destruct (push_ready msg s stop) as [s1 stop1].
    specialize (IH s1 stop1). destruct (receive batch s1 stop1) as [s2 stop2].
    destruct IH as (-> & Hh & Hv), Hm as (-> & Hh1 & Hv1). simpl. rewrite orb_false_r, orb_assoc.
    split_and!; [done|by rewrite Hh|]. intros k. rewrite Hv, Hv1, <-app_assoc. f_equal.
    unfold arrived. by rewrite <-List.filter_app.
Qed.

Lemma evict_idle_view (s : ShardState W A) :
  ready_queue (evict_idle idle_timeout_ms s) = ready_queue s /\ handled (evict_idle idle_timeout_ms s) = handled s.
Proof.
  unfold evict_idle. destruct (idle_timeout_ms =? 0); [done|].
  generalize (map_to_list (last_active s)). intros l. generalize (filter (fun kv : DeviceKey * Z =>
    as_i64 idle_timeout_ms <= sat_sub_i64 (now_monotonic (world s)) kv.2) l).*1. clear l. intros stale.
  revert s. induction stale as [|k stale IH]; intros s; simpl; [done|]. by destruct (IH (evict_one s k)) as [-> ->].
Qed.
Lemma shutdown_all_handled (s : ShardState W A) : handled (shutdown_all s) = handled s.
Proof. unfold shutdown_all. by destruct (shutdown_actors _ _ _). Qed.

(** The handled messages of a run and the messages of a device that arrive. *)
Lemma shard_run_view batches : forall (s : ShardState W A) stop,
  0 < max_consecutive -> 0 < max_poll ->
  exists s1, shard_run max_poll max_consecutive idle_timeout_ms s stop batches = Some s1
    /\ (forall k, of_key k (handled s1) `sublist_of`
          view s k ++ arrived k (if stop then [] else accepted batches))
    /\ ((forall w k, is_Some (create w k).2) -> forall k,
          of_key k (handled s1) = view s k ++ arrived k (if stop then [] else accepted batches)).
Proof.
  assert (forall s : ShardState W A, ready_queue s = ∅ -> forall k, view s k = of_key k (handled s)) as Hdone.
  { intros s Hr k. unfold view, queue. by rewrite Hr, lookup_empty, app_nil_r. }
  induction batches as [|batch batches IH]; intros s stop Hm Hmp; simpl;
    destruct (drain_progress s Hm Hmp) as (s1 & -> & [Hsub _ Hall] & He); cbn [mbind option_bind];
    destruct (evict_idle_view s1) as [Hr1 Hh1].
  all: assert (forall k, view (evict_idle idle_timeout_ms s1) k = view s1 k) as Hv1
    by (intros k; unfold view, queue; by rewrite Hr1, Hh1).
  all: destruct stop.
  1,3: eexists; split_and!; [done| |]; [intros k | intros Hc k];
    rewrite shutdown_all_handled;
    simpl; rewrite Hh1, app_nil_r, <-(Hdone s1) by done; auto.
  - destruct (drain_progress (evict_idle idle_timeout_ms s1) Hm Hmp) as (s2 & -> & [Hsub2 _ Hall2] & He2).
    cbn [mbind option_bind]. destruct (evict_idle_view s2) as [Hr2 Hh2].
    eexists; split_and!; [done| |]; [intros k | intros Hc k];
    rewrite shutdown_all_handled;
      simpl; rewrite Hh2, app_nil_r, <-(Hdone s2) by done.
    + etrans; [apply Hsub2|]. rewrite Hv1. apply Hsub.
    + by rewrite Hall2, Hv1, Hall.
  - pose proof (receive_view batch (evict_idle idle_timeout_ms s1) false) as Hrc.
    destruct (receive batch _ false) as [s2 stop2]. destruct Hrc as (-> & Hh2 & Hv2). simpl.
    destruct (IH s2 (has_shutdown batch) Hm Hmp) as (s3 & -> & Hs3 & Ha3).
    assert (forall k, arrived k (batch ++ if has_shutdown batch then [] else accepted batches)
      = arrived k batch ++ arrived k (if has_shutdown batch then [] else accepted batches)) as Happ
      by (intros k; apply List.filter_app).
    eexists; split_and!; [done| |].
    + intros k. etrans; [apply Hs3|]. rewrite Hv2, Hv1, Happ, <-app_assoc.
      by apply sublist_app.
    + intros Hc k. by rewrite Ha3, Hv2, Hv1, Happ, <-app_assoc, Hall.
Qed.
End Progress.

Definition shard_new {W A} (w : W) : ShardState W A := mkShard ∅ ∅ ∅ w [] (mkMetrics 0 0 0 0).

(** C39: Per-device order of the shard worker.  For every validated runtime
    configuration, every actor implementation and every sequence of received
    batches, the worker terminates: no loop of it runs for ever, even when an
    output channel is closed or actors cannot be created.  For every device the
    messages that its actors handled are, in that order, messages that arrived
    for it up to and including the batch with the shutdown: nothing is reordered,
    duplicated or invented; and if no creation of an actor fails, they are all of
    them, so a shutdown loses nothing that was received before it. *)
Theorem shard_fifo `{DeviceActor W A Output} (c : RuntimeConfig) (w : W) batches :
  RuntimeConfig_validate c = Ok tt ->
  exists s1,
    shard_run (max_messages_per_poll c) (max_consecutive_per_device c) (actor_idle_timeout_ms c)
      (shard_new w) false batches = Some s1
    /\ forall k,
      of_key k (handled s1) `sublist_of` arrived k (accepted batches)
      /\ ((forall w k, is_Some (create w k).2) -> of_key k (handled s1) = arrived k (accepted batches)).
Proof.
  intros Hc. apply RuntimeConfig_validate_sound in Hc.
  destruct (shard_run_view (max_messages_per_poll c) (max_consecutive_per_device c) (actor_idle_timeout_ms c)
    batches (shard_new w) false) as (s1 & Hr & Hs & Ha); [destruct Hc; lia..|].
  exists s1. split; [done|]. intros k. split; [apply (Hs k) | intros Hcr; apply (Ha Hcr k)].
Qed.

(** ** Sample: actors that count their messages, created for devices other
    than the first *)

Module ShardSample.
#[local] Instance counting : DeviceActor Z nat string := {|
  create := fun w k => (w + 1, if dk_device_id k =? 1 then None else Some O);
  handle := fun w _ n msg => (w + 1, S n, Some ["handled"]);
  shutdown := fun w _ n => (w, Some []);
  send_output := fun w o => (w, w <? 100);
  now_monotonic := fun w => w
|}.
Definition event (device : Z) (payload : string) : RuntimeMessage := ProtocolEvent (mkDeviceKey 0 device) payload.
Definition batches : list (list RuntimeMessage) :=
  [[event 2 "a"; event 3 "b"; event 2 "c"; event 1 "d"]; [event 2 "e"; Shutdown; event 3 "f"]; [event 2 "g"]].

Definition config : RuntimeConfig :=
  Build_RuntimeConfig 4 64 64 64 100 4 2 64 64 0 AdmissionPolicyConfig_default.

Lemma shard_fifo_witness :
  exists s1, shard_run (A:=nat) (max_messages_per_poll config) (max_consecutive_per_device config)
      (actor_idle_timeout_ms config) (shard_new 0) false batches = Some s1
    /\ of_key (mkDeviceKey 0 2) (handled s1) `sublist_of` arrived (mkDeviceKey 0 2) (accepted batches)
    /\ arrived (mkDeviceKey 0 2) (accepted batches) = [event 2 "a"; event 2 "c"; event 2 "e"].
Proof.
  destruct (shard_fifo (A:=nat) config 0 batches)
    as (s1 & Hr & Hk).
  - vm_compute. reflexivity.
  - exists s1. split_and!; [exact Hr | exact (proj1 (Hk (mkDeviceKey 0 2))) | vm_compute; reflexivity].
Defined.
End ShardSample.
