(* ===== verification/Paging.v ===== *)
(** * Pages and cursors

    [PageRequest] and [Page] of [cheetah-signal-types/src/pagination.rs], and the
    keyset pagination that the repositories share: rows in the order of their
    update time and identifier, continued after the last row of the previous
    page.  A cursor is the pair that it encodes; its text form (JSON with a
    SHA-256 checksum) is not modelled. *)

From S2P Require Import Prelude RustStr Domain.

Open Scope list_scope.
Open Scope Z_scope.

Definition MAX_PAGE_SIZE : Z := 1000.
Definition Cursor : Type := UtcTimestamp * Uuid.
Record PageRequest := mkPageRequest { page_cursor : option Cursor; page_size : Z }.
Record Page (T : Type) := mkPage { items : list T; next_cursor : option Cursor }.
Arguments mkPage {T}. Arguments items {T}. Arguments next_cursor {T}.
(** [PageRequest::new]; the error is an invalid argument with this text. *)
Definition PageRequest_new (size : Z) : result PageRequest string :=
  if size =? 0 then Err "page_size must be greater than zero"%string
  else if MAX_PAGE_SIZE <? size then Err "page_size must not exceed 1000"%string
  else Ok (mkPageRequest None size).
Definition clamped_page_size (p : PageRequest) : Z := Z.max 1 (Z.min MAX_PAGE_SIZE (page_size p)).

(** [(updated_at, id)] in the order of the [ORDER BY]. *)
Definition cursor_lt (a b : Cursor) : Prop := a.1 < b.1 \/ (a.1 = b.1 /\ a.2 < b.2).
#[global] Instance cursor_lt_dec a b : Decision (cursor_lt a b).
Proof. unfold cursor_lt. apply _. Defined.
Definition cursor_le (a b : Cursor) : Prop := a.1 < b.1 \/ (a.1 = b.1 /\ a.2 <= b.2).
#[global] Instance cursor_le_dec a b : Decision (cursor_le a b).
Proof. unfold cursor_le. apply _. Defined.

(** A page of rows that are ordered by [key]: [LIMIT] is the page size plus one,
    and the cursor of the last row is given when there is more. *)
Definition page_of {T} (key : T -> Cursor) (p : PageRequest) (rows : list T) : Page T :=
  let n := Z.to_nat (clamped_page_size p) in
  let rows := match page_cursor p with
              | Some c => filter (fun r => cursor_lt c (key r)) rows
              | None => rows
              end in
  let rows := take (S n) (merge_sort (fun a b => cursor_le (key a) (key b)) rows) in
  mkPage (take n rows)
    (if (n <? length rows)%nat then key <$> last (take n rows) else None).


(** The loop of a caller that follows the cursors to the end; [None] when the
    fuel does not suffice. *)
Fixpoint collect_pages {T} (fuel : nat) (fetch : option Cursor -> Page T) (cursor : option Cursor) : option (list T) :=
  match fuel with
  | O => None
  | S fuel =>
      let page := fetch cursor in
      match next_cursor page with
      | None => Some (items page)
      | Some c => rest ← collect_pages fuel fetch (Some c); Some (items page ++ rest)
      end
  end.

(** ** Completeness of the pagination *)

Lemma StronglySorted_filter {A} (R : relation A) (P : A -> Prop) `{forall x, Decision (P x)} l :
  StronglySorted R l -> StronglySorted R (filter P l).
Proof.
  induction 1 as [|x l Hs IH Hall]; [constructor|]. rewrite filter_cons. case_decide; [|done].
  constructor; [done|]. rewrite Forall_forall in *. intros y [_ Hy]%list_elem_of_filter. auto.
Qed.

Section Complete.
Context {T : Type} (key : T -> Cursor).

Definition key_le (a b : T) : Prop := cursor_le (key a) (key b).
#[global] Instance key_le_dec a b : Decision (key_le a b).
Proof. unfold key_le. apply _. Defined.
#[local] Instance key_le_total : Total key_le.
Proof. intros a b. unfold key_le, cursor_le. destruct (Ztrichotomy (key a).1 (key b).1) as [|[|]]; lia. Qed.
#[local] Instance key_le_trans : Transitive key_le.
Proof. intros a b c. unfold key_le, cursor_le. lia. Qed.

Definition sorted_rows (rows : list T) : list T := merge_sort key_le rows.

Lemma sorted_rows_sorted rows : StronglySorted key_le (sorted_rows rows).
Proof. apply Sorted_StronglySorted; [apply _|]. apply Sorted_merge_sort, _. Qed.
Lemma sorted_rows_perm rows : sorted_rows rows ≡ₚ rows.
Proof. apply merge_sort_Permutation. Qed.

Lemma cursor_le_antisym (a b : Cursor) : cursor_le a b -> cursor_le b a -> a = b.
Proof. destruct a, b. unfold cursor_le. simpl. intros. f_equal; lia. Qed.

(** Two sorted lists of the same rows are equal when the keys are distinct. *)
Lemma sorted_unique (l1 l2 : list T) :
  NoDup (key <$> l1) -> l1 ≡ₚ l2 -> StronglySorted key_le l1 -> StronglySorted key_le l2 -> l1 = l2.
Proof.
  intros Hn Hp H1 H2. eapply (StronglySorted_unique_strong key_le); [|done..].
  intros x1 x2 Hx1 Hx2 Hle1 Hle2. rewrite <-Hp in Hx2.
  pose proof (cursor_le_antisym _ _ Hle1 Hle2) as Hk.
  apply list_elem_of_lookup in Hx1 as [i Hi]. apply list_elem_of_lookup in Hx2 as [j Hj].
  assert (i = j) as ->; [|congruence].
  eapply NoDup_lookup; [exact Hn| |]; rewrite list_lookup_fmap; [rewrite Hi | rewrite Hj]; simpl; [done|by rewrite Hk].
Qed.

(** What follows a row in the order is what comes after its key. *)
Lemma filter_after l1 x l2 :
  StronglySorted key_le (l1 ++ x :: l2) -> NoDup (key <$> (l1 ++ x :: l2)) ->
  filter (fun r => cursor_lt (key x) (key r)) (l1 ++ x :: l2) = l2.
Proof.
  intros Hs Hn. rewrite filter_app, (filter_none _ l1), filter_cons_False; simpl.
  - apply StronglySorted_app_1_r in Hs. apply StronglySorted_cons in Hs as [Hall _].
    rewrite fmap_app, fmap_cons in Hn. apply NoDup_app in Hn as (_ & _ & Hn). apply NoDup_cons in Hn as [Hx _].
    apply filter_Forall. rewrite Forall_forall in *. intros y Hy. specialize (Hall y Hy).
    assert (key x <> key y) as Hne by (intros He; apply Hx; rewrite He; by apply list_elem_of_fmap_2).
    unfold key_le, cursor_le, cursor_lt in *. destruct (key x) as [t1 i1], (key y) as [t2 i2]. simpl in *.
    destruct (decide (t1 = t2)) as [->|]; [|lia]. destruct (decide (i1 = i2)) as [->|]; [done|lia].
  - unfold cursor_lt. lia.
  - intros y Hy. assert (key_le y x) as Hle.
    { eapply StronglySorted_app_1_elem_of; [exact Hs|done|left]. }
    unfold key_le, cursor_le, cursor_lt in *. lia.
Qed.

(** The cursor of the last row of [l1]. *)
Definition cursor_after (l1 : list T) : option Cursor := key <$> last l1.

(** After a page the cursor is that of all rows so far. *)
Lemma cursor_after_page k l1 l2 :
  (0 < k < length l2)%nat -> exists c, cursor_after (take k l2) = Some c /\ cursor_after (l1 ++ take k l2) = Some c.
Proof.
  intros Hk. unfold cursor_after. destruct (take k l2) as [|y l] eqn:Ht using rev_ind.
  - apply (f_equal length) in Ht. rewrite length_take in Ht. simpl in Ht. lia.
  - rewrite app_assoc, !last_snoc. by eexists.
Qed.

Context (size : Z) (rows : list T) (Hkeys : NoDup (key <$> rows)).
Let n := Z.to_nat (clamped_page_size (mkPageRequest None size)).
Let fetch (c : option Cursor) : Page T := page_of key (mkPageRequest c size) rows.

Lemma sorted_rows_keys : NoDup (key <$> sorted_rows rows).
Proof. by rewrite sorted_rows_perm. Qed.

Lemma fetch_after l1 l2 :
  sorted_rows rows = l1 ++ l2 ->
  fetch (cursor_after l1)
  = mkPage (take n l2) (if (n <? length l2)%nat then cursor_after (take n l2) else None).
Proof.
  intros Hs. unfold fetch, page_of. simpl.
  assert (forall l : list T, (n <? length (take (S n) l))%nat = (n <? length l)%nat) as Hlen.
  { intros l. rewrite length_take. destruct (Nat.ltb_spec n (length l)), (Nat.ltb_spec n (S n `min` length l)); lia. }
  assert (merge_sort key_le (match cursor_after l1 with
            | Some c => filter (fun r => cursor_lt c (key r)) rows
            | None => rows end) = l2) as Hms.
  { unfold cursor_after. destruct (last l1) as [x|] eqn:Hl; simpl.
    - apply last_Some in Hl as [l0 ->]. rewrite <-app_assoc in Hs. simpl in Hs.
      transitivity (filter (fun r => cursor_lt (key x) (key r)) (sorted_rows rows)).
      + symmetry. apply sorted_unique.
        * eapply sublist_NoDup; [apply sorted_rows_keys | apply fmap_sublist, sublist_filter].
        * rewrite merge_sort_Permutation. by rewrite sorted_rows_perm.
        * apply StronglySorted_filter, sorted_rows_sorted.
        * apply (sorted_rows_sorted (filter _ rows)).
      + rewrite Hs. apply filter_after; [|].
        * rewrite <-Hs. apply sorted_rows_sorted.
        * rewrite <-Hs. apply sorted_rows_keys.
    - apply last_None in Hl as ->. done. }
  match goal with |- context [@merge_sort ?A ?R ?D ?l] => assert (@merge_sort A R D l = l2) as -> by exact Hms end.
  change (Z.to_nat (clamped_page_size {| page_cursor := cursor_after l1; page_size := size |})) with n.
  rewrite Hlen, take_take, Nat.min_l by lia. done.
Qed.

Lemma clamped_positive : (0 < n)%nat.
Proof. unfold n, clamped_page_size. simpl. unfold MAX_PAGE_SIZE. lia. Qed.

Lemma collect_after fuel : forall l1 l2,
  sorted_rows rows = l1 ++ l2 -> (length l2 < fuel)%nat ->
  collect_pages fuel fetch (cursor_after l1) = Some l2.
Proof.
  induction fuel as [|fuel IH]; intros l1 l2 Hs Hf; [lia|]. cbn [collect_pages].
  rewrite (fetch_after l1 l2 Hs). cbn [next_cursor items]. pose proof clamped_positive.
  destruct (Nat.ltb_spec n (length l2)).
  2: { by rewrite take_ge by lia. }
  destruct (cursor_after_page n l1 l2) as (c & Hsome & Hc); [lia|]. rewrite Hsome, <-Hc.
  rewrite (IH (l1 ++ take n l2) (drop n l2)).
  - simpl. by rewrite take_drop.
  - by rewrite <-app_assoc, take_drop.
  - rewrite length_drop. lia.
Qed.
End Complete.

(** One page: rows after the cursor, each once; when there is more, the next
    cursor is the greatest key of the page. *)
Definition after (c : option Cursor) (k : Cursor) : Prop :=
  match c with Some c => cursor_lt c k | None => True end.
#[global] Instance after_dec c k : Decision (after c k).
Proof. destruct c; apply _. Defined.

Lemma page_of_spec {T} (key : T -> Cursor) p rows :
  NoDup rows ->
  NoDup (items (page_of key p rows))
  /\ (forall r, r ∈ items (page_of key p rows) -> r ∈ rows /\ after (page_cursor p) (key r))
  /\ (forall c, next_cursor (page_of key p rows) = Some c ->
       after (page_cursor p) c /\ items (page_of key p rows) <> []
       /\ forall r, r ∈ items (page_of key p rows) -> cursor_le (key r) c).
Proof.
  intros Hn. unfold page_of. simpl. set (n := Z.to_nat (clamped_page_size p)).
  set (rows1 := match page_cursor p with Some c => filter (fun r => cursor_lt c (key r)) rows | None => rows end).
  set (sorted := merge_sort _ rows1).
  assert (forall r, r ∈ rows1 <-> r ∈ rows /\ after (page_cursor p) (key r)) as Hrows1.
  { intros r. unfold rows1. destruct (page_cursor p); [rewrite list_elem_of_filter|]; simpl; naive_solver. }
  assert (sorted ≡ₚ rows1) as Hp by apply merge_sort_Permutation.
  assert (NoDup sorted) as Hns.
  { rewrite Hp. unfold rows1. destruct (page_cursor p); [by apply NoDup_filter | done]. }
  assert (take n (take (S n) sorted) = take n sorted) as -> by (by rewrite take_take, Nat.min_l by lia).
  assert (forall r, r ∈ take n sorted -> r ∈ rows1) as Hsub.
  { intros r Hr. rewrite <-Hp. eapply elem_of_subseteq; [|exact Hr]. apply subseteq_take. }
  split_and!.
  - eapply sublist_NoDup; [exact Hns | apply sublist_take].
  - intros r Hr. by apply Hrows1, Hsub.
  - intros c Hc. destruct (Nat.ltb_spec n (length (take (S n) sorted))); [|done].
    destruct (last (take n sorted)) as [x|] eqn:Hl; [|done]. injection Hc as <-.
    assert (x ∈ take n sorted) as Hx by (by apply last_Some_elem_of).
    split_and!.
    + apply Hrows1, Hsub, Hx.
    + intros He. by rewrite He in Hx; apply elem_of_nil in Hx.
    + intros r Hr. assert (StronglySorted (key_le key) (take n sorted)) as Hss.
      { assert (StronglySorted (key_le key) sorted) as Hss by exact (sorted_rows_sorted key rows1).
        rewrite <-(take_drop n sorted) in Hss. by apply StronglySorted_app_1_l in Hss. }
      apply last_Some in Hl as [l0 Hl]. rewrite Hl in Hss, Hr.
      apply elem_of_app in Hr as [Hr|Hr%list_elem_of_singleton].
      * change (key_le key r x). eapply StronglySorted_app_1_elem_of; [exact Hss|done|by apply list_elem_of_singleton].
      * subst r. unfold cursor_le. lia.
Qed.

(** A row after the cursor is on the page or after the next cursor. *)
Lemma page_of_complete {T} (key : T -> Cursor) p rows r :
  NoDup (key <$> rows) -> r ∈ rows -> after (page_cursor p) (key r) ->
  r ∈ items (page_of key p rows)
  \/ exists c, next_cursor (page_of key p rows) = Some c /\ cursor_lt c (key r).
Proof.
  intros Hn Hr Ha. unfold page_of. simpl. set (n := Z.to_nat (clamped_page_size p)).
  set (rows1 := match page_cursor p with Some c => filter (fun r => cursor_lt c (key r)) rows | None => rows end).
  change (merge_sort _ rows1) with (sorted_rows key rows1).
  assert (NoDup (key <$> rows1)) as Hn1.
  { unfold rows1. destruct (page_cursor p); [|done].
    eapply sublist_NoDup; [exact Hn | apply fmap_sublist, sublist_filter]. }
  assert (r ∈ sorted_rows key rows1) as Hr1.
  { rewrite sorted_rows_perm. unfold rows1. destruct (page_cursor p); [rewrite list_elem_of_filter|]; done. }
  pose proof (sorted_rows_sorted key rows1) as Hs. rewrite <-(sorted_rows_perm key rows1) in Hn1.
  set (sorted := sorted_rows key rows1) in *. rewrite take_take, Nat.min_l by lia.
  rewrite <-(take_drop n sorted) in Hs, Hn1, Hr1. apply elem_of_app in Hr1 as [Hr1|Hr1]; [by left|right].
  assert (n < length sorted)%nat as Hlen.
  { destruct (drop n sorted) as [|x l] eqn:Hd; [by apply elem_of_nil in Hr1|].
    apply (f_equal length) in Hd. rewrite length_drop in Hd. simpl in Hd. lia. }
  assert (0 < n)%nat by (unfold n, clamped_page_size, MAX_PAGE_SIZE; lia).
  destruct (Nat.ltb_spec n (length (take (S n) sorted))) as [_|Hl]; [|rewrite length_take in Hl; lia].
  destruct (last (take n sorted)) as [x|] eqn:Hl.
  2: { apply last_None, (f_equal length) in Hl. rewrite length_take in Hl. simpl in Hl. lia. }
  exists (key x). split; [done|]. apply last_Some_elem_of in Hl.
  assert (key_le key x r) as Hle by (by eapply StronglySorted_app_1_elem_of).
  assert (key x <> key r) as Hne.
  { rewrite fmap_app in Hn1. apply NoDup_app in Hn1 as (_ & Hdisj & _). intros He.
    eapply Hdisj; [by apply list_elem_of_fmap_2, Hl|]. rewrite He. by apply list_elem_of_fmap_2. }
  unfold key_le, cursor_le, cursor_lt in *. destruct (key x) as [t1 i1], (key r) as [t2 i2]. simpl in *.
  destruct (decide (t1 = t2)) as [->|]; [|lia]. destruct (decide (i1 = i2)) as [->|]; [done|lia].
Qed.

Lemma collect_pages_all {T} (key : T -> Cursor) size rows fuel :
  NoDup (key <$> rows) -> (length rows < fuel)%nat ->
  collect_pages fuel (fun c => page_of key (mkPageRequest c size) rows) None = Some (sorted_rows key rows).
Proof.
  intros Hn Hf. apply (collect_after key size rows Hn fuel [] (sorted_rows key rows)); [done|].
  by rewrite (Permutation_length (sorted_rows_perm key rows)).
Qed.

(** Keyset pagination is complete.  Following the cursors from the first page
    to the last ends, and the pages together are all rows, each once, in the
    order of update time and identifier, whatever the page size, provided that
    no two rows have the same update time and identifier. *)
Theorem pagination_complete {T} (key : T -> Cursor) size rows :
  NoDup (key <$> rows) ->
  exists all, collect_pages (S (length rows)) (fun c => page_of key (mkPageRequest c size) rows) None = Some all
    /\ all ≡ₚ rows /\ StronglySorted (fun a b => cursor_le (key a) (key b)) all.
Proof.
  intros Hn. exists (sorted_rows key rows). split_and!.
  - apply collect_pages_all; [done|lia].
  - apply sorted_rows_perm.
  - apply sorted_rows_sorted.
Qed.

Lemma pagination_complete_witness :
  exists all, collect_pages 6 (fun c => page_of (fun r : Z * Z => r) (mkPageRequest c 2) [(3, 1); (1, 5); (1, 2); (2, 9); (0, 4)]) None
      = Some all
    /\ all ≡ₚ [(3, 1); (1, 5); (1, 2); (2, 9); (0, 4)]
    /\ StronglySorted (fun a b : Z * Z => cursor_le a b) all.
Proof.
  apply (pagination_complete (fun r : Z * Z => r) 2 [(3, 1); (1, 5); (1, 2); (2, 9); (0, 4)]).
  apply (bool_decide_unpack _). vm_compute. exact I.
Defined.
