(* ===== verification/Cluster.v ===== *)
(** * Cluster membership and device owners

    The tables that the nodes of a cluster share, and the services that a node
    runs on them:
    - [OwnerInfo] ([cheetah-domain/src/ports.rs]), [ClusterNode] ([node.rs]),
      [StorageError] ([cheetah-storage-api/src/error.rs]) and timestamp
      arithmetic ([cheetah-signal-types/src/time.rs]);
    - the statements of the PostgreSQL repositories
      ([cheetah-storage-postgres/src/owner.rs], [node.rs], and
      [acquire_ownership] of [unit_of_work.rs]) as functions on the tables
      [devices], [device_owners] and [cluster_nodes];
    - [OwnerLeaseService] ([cheetah-cluster-ownership/src/lease.rs]) and
      [NodeLeaseService] with its compatibility matrix
      ([cheetah-cluster-registry/src]).

    A statement is atomic and fails only as the schema says: on the foreign key
    of [device_owners] and on a [BIGINT] out of range; a failure of the database
    itself is not modelled. *)

From S2P Require Import Prelude RustStr Domain Paging.

Open Scope string_scope.
Open Scope list_scope.
Open Scope Z_scope.

(** ** Time *)

(** [Date::MIN] and [Date::MAX] of the [time] crate in nanoseconds since the
    epoch, whose Julian day is 2440588. *)
Definition NANOS_PER_DAY : Z := 86400 * NANOS_PER_SEC.
Definition timestamp_min `{DateRange} : Z := (date_min_julian - 2440588) * NANOS_PER_DAY.
Definition timestamp_max `{DateRange} : Z := (date_max_julian + 1 - 2440588) * NANOS_PER_DAY - 1.
(** [UtcTimestamp::checked_add] of a [DurationMs]. *)
Definition ts_checked_add `{DateRange} (t : UtcTimestamp) (duration_ms : Z) : option UtcTimestamp :=
  let r := t + from_millis duration_ms in
  if (timestamp_min <=? r) && (r <=? timestamp_max) then Some r else None.

Lemma ts_checked_add_Some `{DateRange} t d r : ts_checked_add t d = Some r -> r = t + from_millis d.
Proof. unfold ts_checked_add. case_match; [by intros [= ->] | done]. Qed.

(** ** Errors *)

Definition MAX_STORAGE_ERROR_BYTES : nat := 1024.
Inductive StorageError :=
| StBackend (message : string)
| StMigration (version : Z) (message : string)
| StConfig (message : string)
| StConnection (message : string)
| StUnavailable (message : string)
| StConcurrentModification (expected found : Z)
| StInvalidArgument (message : string)
| StInternal (message : string).
Definition clamp_message (m : string) : string := clamp_str m MAX_STORAGE_ERROR_BYTES.
Definition storage_backend (m : string) : StorageError := StBackend (clamp_message m).
Definition storage_unavailable (m : string) : StorageError := StUnavailable (clamp_message m).
Definition storage_internal (m : string) : StorageError := StInternal (clamp_message m).

(** [impl Display for i64]. *)
Definition show_int (n : Z) : string :=
  if n <? 0 then String "-" (show_uint (- n)) else show_uint n.
(** [impl From<StorageError> for DomainError]. *)
Definition storage_to_domain (e : StorageError) : DomainError :=
  match e with
  | StBackend m | StConnection m | StUnavailable m => unavailable m
  | StMigration version m =>
      internal (String.concat "" ["migration "; show_int version; ": "; m])
  | StConfig m | StInternal m => internal m
  | StConcurrentModification expected found => ConcurrentModification expected found
  | StInvalidArgument m => invalid_argument m
  end.

(** The errors that the schema raises, with the texts of the database and of
    [sqlx], and their mapping in a unit of work. *)
Inductive DbError := ForeignKeyViolation | UniqueViolation | BigintOutOfRange | TransactionAborted.
Class DbMessages := { db_message : DbError -> string; db_display : DbError -> string }.
Definition MAX_SQLX_ERROR_BYTES : nat := 1024.
Definition sqlx_to_domain `{DbMessages} (e : DbError) : DomainError :=
  let message := clamp_str (db_message e) MAX_SQLX_ERROR_BYTES in
  match e with
  | ForeignKeyViolation | UniqueViolation => invalid_argument message
  | BigintOutOfRange | TransactionAborted => Unavailable message
  end.
Definition sqlx_backend `{DbMessages} (e : DbError) : StorageError := storage_backend (db_display e).

(** ** Data *)

Record OwnerInfo := mkOwner {
  oi_node_id : Uuid;
  oi_epoch : Z;
  oi_lease_until : option UtcTimestamp
}.
#[global] Instance OwnerInfo_eq_dec : EqDecision OwnerInfo.
Proof. solve_decision. Defined.

Record NodeCapacity := mkCapacity { max_devices : Z }.
Record NodeLoad := mkLoad { load_devices : Z }.
Record ClusterNode := mkNode {
  cn_node_id : Uuid;
  cn_instance_id : Uuid;
  cn_zone : string;
  cn_version : string;
  cn_contract_versions : gmap string string;
  cn_started_at : UtcTimestamp;
  cn_lease_until : UtcTimestamp;
  cn_updated_at : UtcTimestamp;
  cn_capacity : NodeCapacity;
  cn_load : NodeLoad;
  cn_draining : bool
}.
(** [ClusterNode::new]. *)
Definition node_new (node_id instance_id : Uuid) (zone version : string) (started_at : UtcTimestamp) : ClusterNode :=
  mkNode node_id instance_id zone version ∅ started_at started_at started_at (mkCapacity 0) (mkLoad 0) false.

(** ** The tables *)

Record OwnerRow := mkRow {
  or_tenant_id : Uuid;
  or_owner_node_id : Uuid;
  or_owner_epoch : Z;
  or_expires_at : option UtcTimestamp;
  or_updated_at : UtcTimestamp
}.
Record Db := mkDb {
  devices : gset (Uuid * Uuid);
  device_owners : gmap Uuid OwnerRow;
  cluster_nodes : gmap Uuid ClusterNode
}.
Definition set_owners (f : gmap Uuid OwnerRow -> gmap Uuid OwnerRow) (db : Db) : Db :=
  mkDb (devices db) (f (device_owners db)) (cluster_nodes db).
Definition set_nodes (f : gmap Uuid ClusterNode -> gmap Uuid ClusterNode) (db : Db) : Db :=
  mkDb (devices db) (device_owners db) (f (cluster_nodes db)).

(** ** The owner repository *)

Definition row_owner (r : OwnerRow) : OwnerInfo :=
  mkOwner (or_owner_node_id r) (as_u64 (or_owner_epoch r)) (or_expires_at r).
(** [SELECT ... WHERE tenant_id = $1 AND device_id = $2]. *)
Definition select_owner (db : Db) (tenant device : Uuid) : option OwnerRow :=
  match device_owners db !! device with
  | Some r => if decide (or_tenant_id r = tenant) then Some r else None
  | None => None
  end.

Definition owner_get (db : Db) (tenant device : Uuid) : option OwnerInfo := row_owner <$> select_owner db tenant device.

(** [now] is [OffsetDateTime::now_utc()]. *)
Definition owner_set `{DbMessages} (db : Db) (now : UtcTimestamp) (tenant device : Uuid) (owner : OwnerInfo) :
    result Db StorageError :=
  if decide ((tenant, device) ∈ devices db) then
    Ok (set_owners <[device := mkRow tenant (oi_node_id owner) (as_i64 (oi_epoch owner)) (oi_lease_until owner) now]> db)
  else Err (sqlx_backend ForeignKeyViolation).

Definition owner_clear (db : Db) (tenant device : Uuid) : Db :=
  match select_owner db tenant device with
  | Some _ => set_owners (delete device) db
  | None => db
  end.

(** [EXISTS (SELECT 1 FROM cluster_nodes WHERE node_id = .. AND lease_until > ..)]. *)
Definition node_lives (db : Db) (node : Uuid) (now : UtcTimestamp) : bool :=
  match cluster_nodes db !! node with Some n => now <? cn_lease_until n | None => false end.
Definition is_expired (r : OwnerRow) (now : UtcTimestamp) : bool :=
  match or_expires_at r with Some e => e <=? now | None => false end.
(** The [WHERE] of the upsert. *)
Definition may_take (db : Db) (r : OwnerRow) (node : Uuid) (now : UtcTimestamp) : bool :=
  is_expired r now || bool_decide (or_owner_node_id r = node) || negb (node_lives db (or_owner_node_id r) now).

(** [INSERT ... ON CONFLICT(device_id) DO UPDATE ... WHERE .. AND extra]: the
    tables and the row that was written. *)
Definition upsert_owner (extra : bool) (db : Db) (tenant device node : Uuid) (now lease_until : UtcTimestamp) :
    result (Db * option OwnerRow) DbError :=
  let put epoch :=
    if decide ((tenant, device) ∈ devices db) then
      let row := mkRow tenant node epoch (Some lease_until) now in
      Ok (set_owners <[device := row]> db, Some row)
    else Err ForeignKeyViolation in
  match device_owners db !! device with
  | None => put 1
  | Some r =>
      if may_take db r node now && extra then
        if or_owner_epoch r =? I64_MAX then Err BigintOutOfRange
        else put (or_owner_epoch r + 1)
      else Ok (db, None)
  end.

(** [acquire]: the upsert, then the row is read. *)
Definition owner_acquire `{DbMessages} (db : Db) (tenant device node : Uuid) (now lease_until : UtcTimestamp) :
    Db * result OwnerInfo StorageError :=
  match upsert_owner true db tenant device node now lease_until with
  | Err e => (db, Err (sqlx_backend e))
  | Ok (db, _) =>
      (db, match select_owner db tenant device with
           | Some r => if decide (or_owner_node_id r = node) then Ok (row_owner r)
                       else Err (storage_unavailable "device lease held by another node")
           | None => Err (storage_unavailable "device lease held by another node")
           end)
  end.

(** The [UPDATE] of [renew]; [now] is [OffsetDateTime::now_utc()]. *)
Definition update_lease (db : Db) (tenant device node : Uuid) (now lease_until : UtcTimestamp) : Db * bool :=
  match select_owner db tenant device with
  | Some r =>
      if bool_decide (or_owner_node_id r = node) && negb (is_expired r now) then
        (set_owners <[device := mkRow (or_tenant_id r) (or_owner_node_id r) (or_owner_epoch r) (Some lease_until) now]> db,
         true)
      else (db, false)
  | None => (db, false)
  end.
Definition owner_renew (db : Db) (tenant device node : Uuid) (now lease_until : UtcTimestamp) : Db * option OwnerInfo :=
  let '(db, affected) := update_lease db tenant device node now lease_until in
  (db, if affected then owner_get db tenant device else None).

Definition owner_release (db : Db) (tenant device node : Uuid) (epoch : Z) : Db :=
  match select_owner db tenant device with
  | Some r =>
      if bool_decide (or_owner_node_id r = node) && bool_decide (or_owner_epoch r = as_i64 epoch)
      then set_owners (delete device) db else db
  | None => db
  end.

Record OwnedDevice := mkOwned { od_tenant_id : Uuid; od_device_id : Uuid; od_owner : OwnerInfo }.
Definition list_by_node (db : Db) (node : Uuid) (p : PageRequest) : Page OwnedDevice :=
  let rows := filter (fun kr => or_owner_node_id kr.2 = node) (map_to_list (device_owners db)) in
  let page := page_of (fun kr => (or_updated_at kr.2, kr.1)) p rows in
  mkPage (map (fun kr => mkOwned (or_tenant_id kr.2) kr.1 (row_owner kr.2)) (items page)) (next_cursor page).

(** ** The node repository *)

Definition node_register (db : Db) (node : ClusterNode) : Db := set_nodes <[cn_node_id node := node]> db.
Definition node_heartbeat (db : Db) (node instance : Uuid) (lease_until updated_at : UtcTimestamp) (load : NodeLoad) :
    Db * option ClusterNode :=
  match cluster_nodes db !! node with
  | Some n =>
      if decide (cn_instance_id n = instance) then
        let n := mkNode (cn_node_id n) (cn_instance_id n) (cn_zone n) (cn_version n) (cn_contract_versions n)
                   (cn_started_at n) lease_until updated_at (cn_capacity n) load (cn_draining n) in
        (set_nodes <[node := n]> db, Some n)
      else (db, None)
  | None => (db, None)
  end.
Definition node_get (db : Db) (node : Uuid) : option ClusterNode := cluster_nodes db !! node.
Definition node_mark_draining (db : Db) (node instance : Uuid) (updated_at : UtcTimestamp) : Db * bool :=
  match cluster_nodes db !! node with
  | Some n =>
      if decide (cn_instance_id n = instance) then
        let n := mkNode (cn_node_id n) (cn_instance_id n) (cn_zone n) (cn_version n) (cn_contract_versions n)
                   (cn_started_at n) (cn_lease_until n) updated_at (cn_capacity n) (cn_load n) true in
        (set_nodes <[node := n]> db, true)
      else (db, false)
  | None => (db, false)
  end.
Definition list_alive (db : Db) (now : UtcTimestamp) (p : PageRequest) : Page ClusterNode :=
  page_of (fun n => (cn_updated_at n, cn_node_id n)) p
    (filter (fun n => now < cn_lease_until n) (map_to_list (cluster_nodes db)).*2).

(** ** The unit of work *)

(** [acquire_ownership]: the owner and the previous one, or [None] when another
    node holds the device. *)
Definition acquire_ownership `{DbMessages} (db : Db) (tenant device node : Uuid) (now lease_until : UtcTimestamp) :
    Db * result (option (OwnerInfo * option OwnerInfo)) DomainError :=
  let eligible := match cluster_nodes db !! node with
                  | Some n => (now <? cn_lease_until n) && negb (cn_draining n)
                  | None => false
                  end in
  if negb eligible then (db, Err (unavailable "candidate node is not eligible"))
  else
    let previous := owner_get db tenant device in
    match upsert_owner eligible db tenant device node now lease_until with
    | Err e => (db, Err (sqlx_to_domain e))
    | Ok (db, Some r) =>
        (db, Ok (if decide (or_owner_node_id r = node) then Some (row_owner r, previous) else None))
    | Ok (db, None) => (db, Ok None)
    end.
