(* ===== verification/Ownership.v ===== *)
(** * Device ownership: leases and fencing epochs

    [OwnerLeaseService] ([cheetah-cluster-ownership/src/lease.rs]), and what the
    shared table of owners guarantees to the nodes that run it: the statements
    of all nodes, in whatever order the database executes them, are a run of
    [Statement]s. *)

From S2P Require Import Prelude RustStr Domain Cluster.

Open Scope string_scope.
Open Scope list_scope.
Open Scope Z_scope.

(** ** The lease service of a node *)

Record OwnerLeaseService := mkLeaseService { ls_this_node : Uuid; ls_lease_duration : Z }.

Section Service.
Context {W : Type} `{Clock W} `{DateRange} `{DbMessages}.
Context (svc : OwnerLeaseService).

Definition lease_until (w : W) : result UtcTimestamp StorageError * W :=
  let '(now, w) := now_wall w in
  (match ts_checked_add now (ls_lease_duration svc) with
   | Some t => Ok t
   | None => Err (storage_internal "lease timestamp overflow")
   end, w).

Definition lease_acquire (db : Db) (w : W) (tenant device : Uuid) : Db * W * result OwnerInfo StorageError :=
  let '(now, w) := now_wall w in
  match lease_until w with
  | (Err e, w) => (db, w, Err e)
  | (Ok until, w) =>
      let '(db, r) := owner_acquire db tenant device (ls_this_node svc) now until in (db, w, r)
  end.

(** [utc] is the time that the repository reads. *)
Definition lease_renew (db : Db) (w : W) (utc : UtcTimestamp) (tenant device : Uuid) :
    Db * W * result (option OwnerInfo) StorageError :=
  match lease_until w with
  | (Err e, w) => (db, w, Err e)
  | (Ok until, w) =>
      let '(db, r) := owner_renew db tenant device (ls_this_node svc) utc until in (db, w, Ok r)
  end.

Fixpoint batch_renew (db : Db) (w : W) (utc : UtcTimestamp) (l : list (Uuid * Uuid)) :
    Db * W * list (result (option OwnerInfo) StorageError) :=
  match l with
  | [] => (db, w, [])
  | (tenant, device) :: l =>
      let '(db, w, r) := lease_renew db w utc tenant device in
      let '(db, w, rs) := batch_renew db w utc l in
      (db, w, r :: rs)
  end.

Definition lease_release (db : Db) (tenant device : Uuid) (epoch : Z) : Db :=
  owner_release db tenant device (ls_this_node svc) epoch.
End Service.

(** ** Runs of statements *)

Inductive Statement :=
| StUpsert (extra : bool) (tenant device node : Uuid) (now until : UtcTimestamp)
| StRenew (tenant device node : Uuid) (now until : UtcTimestamp)
| StRelease (tenant device node : Uuid) (epoch : Z)
| StClear (tenant device : Uuid)
| StSet (now : UtcTimestamp) (tenant device : Uuid) (owner : OwnerInfo)
| StRegister (node : ClusterNode)
| StHeartbeat (node instance : Uuid) (until now : UtcTimestamp) (load : NodeLoad)
| StDrain (node instance : Uuid) (now : UtcTimestamp)
| StAddDevice (tenant device : Uuid).

(** The tables after a statement; one that fails changes nothing. *)
Definition exec `{DbMessages} (db : Db) (st : Statement) : Db :=
  match st with
  | StUpsert extra t d n now until => match upsert_owner extra db t d n now until with Ok (db, _) => db | Err _ => db end
  | StRenew t d n now until => (update_lease db t d n now until).1
  | StRelease t d n epoch => owner_release db t d n epoch
  | StClear t d => owner_clear db t d
  | StSet now t d owner => match owner_set db now t d owner with Ok db => db | Err _ => db end
  | StRegister node => node_register db node
  | StHeartbeat n i until now load => (node_heartbeat db n i until now load).1
  | StDrain n i now => (node_mark_draining db n i now).1
  | StAddDevice t d => mkDb (devices db ∪ {[(t, d)]}) (device_owners db) (cluster_nodes db)
  end.
Definition exec_all `{DbMessages} (db : Db) (sts : list Statement) : Db := foldl exec db sts.

(** A statement that neither removes nor overwrites the owner of [d]. *)
Definition keeps (d : Uuid) (st : Statement) : bool :=
  match st with
  | StRelease _ d1 _ _ | StClear _ d1 | StSet _ _ d1 _ => negb (bool_decide (d1 = d))
  | _ => true
  end.

(** The rows of [d] in the course of a run. *)
Fixpoint owner_history `{DbMessages} (d : Uuid) (db : Db) (sts : list Statement) : list OwnerRow :=
  match device_owners db !! d with Some r => [r] | None => [] end
  ++ match sts with [] => [] | st :: sts => owner_history d (exec db st) sts end.

(** [r2] follows [r1]: the same tenure, or a later one. *)
Definition fenced (r1 r2 : OwnerRow) : Prop :=
  or_owner_epoch r1 < or_owner_epoch r2
  \/ (or_owner_epoch r1 = or_owner_epoch r2 /\ or_owner_node_id r1 = or_owner_node_id r2
      /\ or_tenant_id r1 = or_tenant_id r2).
#[global] Instance fenced_trans : Transitive fenced.
Proof. unfold fenced. intros r1 r2 r3. lia || naive_solver lia. Qed.
#[global] Instance fenced_refl : Reflexive fenced.
Proof. intros r. by right. Qed.

Section Fencing.
Context `{DbMessages}.

(** What an upsert does to the row of a device. *)
Lemma upsert_row extra db t d n now until db1 o :
  upsert_owner extra db t d n now until = Ok (db1, o) ->
  cluster_nodes db1 = cluster_nodes db
  /\ ((db1 = db /\ o = None)
      \/ exists epoch, device_owners db1 = <[d := mkRow t n epoch (Some until) now]> (device_owners db)
           /\ o = Some (mkRow t n epoch (Some until) now)
           /\ match device_owners db !! d with
              | Some r => epoch = or_owner_epoch r + 1 /\ or_owner_epoch r <> I64_MAX /\ may_take db r n now = true
              | None => epoch = 1
              end).
Proof.
  unfold upsert_owner. intros Hu. destruct (device_owners db !! d) as [r|].
  - destruct (may_take db r n now && extra) eqn:Hm; [|injection Hu as <- <-; auto].
    apply andb_true_iff in Hm as [Hm _].
    destruct (Z.eqb_spec (or_owner_epoch r) I64_MAX); [done|].
    destruct (decide _); [|done]. injection Hu as <- <-. split; [done|]. right. by eexists.
  - destruct (decide _); [|done]. injection Hu as <- <-. split; [done|]. right. by eexists.
Qed.

(** Only an upsert or a renewal for [d] touches a row of [d] that is kept. *)
Definition touches (d : Uuid) (st : Statement) : bool :=
  match st with StUpsert _ _ d1 _ _ _ | StRenew _ d1 _ _ _ => bool_decide (d1 = d) | _ => false end.
Lemma exec_frame d db st :
  keeps d st = true -> touches d st = false -> device_owners (exec db st) !! d = device_owners db !! d.
Proof.
  destruct st as [extra t d1 n now until|t d1 n now until|t d1 n epoch|t d1|now t d1 o|node|n i until now l|n i now|t d1];
    cbn [exec keeps touches]; rewrite ?negb_true_iff, ?bool_decide_eq_false; intros Hk Ht; try done.
  - destruct (upsert_owner extra db t d1 n now until) as [[db1 o]|] eqn:Hu; [|done].
    apply upsert_row in Hu as [_ [[-> _]|(epoch & -> & _)]]; [done|]. by rewrite lookup_insert_ne.
  - unfold update_lease. destruct (select_owner _ _ _); [|done]. destruct (_ && _); [|done]. simpl.
    by rewrite lookup_insert_ne.
  - unfold owner_release. destruct (select_owner _ _ _); [|done]. destruct (_ && _); [|done]. simpl.
    by rewrite lookup_delete_ne.
  - unfold owner_clear. destruct (select_owner _ _ _); [|done]. simpl. by rewrite lookup_delete_ne.
  - unfold owner_set. destruct (decide _); [|done]. simpl. by rewrite lookup_insert_ne.
  - unfold node_heartbeat. by repeat case_match.
  - unfold node_mark_draining. by repeat case_match.
Qed.

(** The row of [d] under one statement that keeps it: only an upsert by the new
    owner changes the owner, and only over a lease that is over or a node that
    is dead. *)
Lemma exec_row d db st r :
  keeps d st = true -> device_owners db !! d = Some r ->
  exists r1, device_owners (exec db st) !! d = Some r1
    /\ fenced r r1 /\ (or_owner_epoch r <= I64_MAX -> or_owner_epoch r1 <= I64_MAX)
    /\ (or_owner_node_id r1 <> or_owner_node_id r ->
        exists extra t now until, st = StUpsert extra t d (or_owner_node_id r1) now until
          /\ (is_expired r now = true \/ node_lives db (or_owner_node_id r) now = false)).
Proof.
  intros Hk Hr. destruct (touches d st) eqn:Ht.
  2: { exists r. rewrite exec_frame by done. by split_and!. }
  destruct st as [extra t d1 n now until|t d1 n now until| | | | | | |]; try done;
    apply bool_decide_eq_true in Ht as ->; cbn [exec].
  - destruct (upsert_owner extra db t d n now until) as [[db1 o]|] eqn:Hu; [|exists r; by split_and!].
    apply upsert_row in Hu as [_ [[-> _]|(epoch & Ho & _ & Hrow)]]; [exists r; by split_and!|].
    rewrite Ho, lookup_insert_eq. rewrite Hr in Hrow. destruct Hrow as (-> & Hmax & Hm).
    eexists. split; [done|]. split_and!; simpl; [left; simpl; lia | lia |]. intros Hne.
    exists extra, t, now, until. split; [done|]. unfold may_take in Hm.
    rewrite (bool_decide_eq_false_2 (or_owner_node_id r = n)) in Hm by done. rewrite orb_false_r in Hm.
    apply orb_true_iff in Hm as [Hm|Hm]; [by left | right; by apply negb_true_iff].
  - unfold update_lease, select_owner. rewrite Hr.
    destruct (decide _); [|exists r; by split_and!]. destruct (_ && _) eqn:Hc; [|exists r; by split_and!]. simpl.
    rewrite lookup_insert_eq. eexists. split; [done|]. split_and!; simpl; [by right | done | done].
Qed.

Lemma owner_history_cons d db sts :
  owner_history d db sts = match device_owners db !! d with Some r => [r] | None => [] end
    ++ match sts with [] => [] | st :: sts => owner_history d (exec db st) sts end.
Proof. by destruct sts. Qed.

Lemma owner_history_from d sts : forall db r,
  Forall (fun st => keeps d st = true) sts -> device_owners db !! d = Some r ->
  StronglySorted fenced (owner_history d db sts) /\ Forall (fenced r) (owner_history d db sts).
Proof.
  induction sts as [|st sts IH]; intros db r Hk Hr; rewrite owner_history_cons, Hr; simpl.
  - repeat constructor; reflexivity.
  - apply Forall_cons in Hk as [Hst Hk]. destruct (exec_row d db st r Hst Hr) as (r1 & Hr1 & Hf & _ & _).
    destruct (IH (exec db st) r1 Hk Hr1) as [Hs Hall].
    assert (Forall (fenced r) (owner_history d (exec db st) sts)) as Hall1.
    { eapply Forall_impl; [exact Hall|]. intros r2 Hr2. by etrans. }
    split; constructor; done || reflexivity.
Qed.

Lemma owner_history_sorted d sts : forall db,
  Forall (fun st => keeps d st = true) sts -> StronglySorted fenced (owner_history d db sts).
Proof.
  induction sts as [|st sts IH]; intros db Hk; destruct (device_owners db !! d) as [r|] eqn:Hr.
  1,3: by apply (owner_history_from d _ db r).
  all: rewrite owner_history_cons, Hr; simpl.
  - constructor.
  - apply Forall_cons in Hk as [_ Hk]. by apply IH.
Qed.

(** The epochs stay in the range in which a cast to [u64] keeps them. *)
Definition epoch_ok (r : OwnerRow) : Prop := 1 <= or_owner_epoch r <= I64_MAX.
Definition row_ok (d : Uuid) (db : Db) : Prop := forall r, device_owners db !! d = Some r -> epoch_ok r.
Lemma exec_epoch_range d db st :
  keeps d st = true ->
  row_ok d db -> row_ok d (exec db st).
Proof.
  unfold row_ok, epoch_ok. intros Hk Hdb r1 Hr1. destruct (device_owners db !! d) as [r|] eqn:Hr.
  - destruct (exec_row d db st r Hk Hr) as (r2 & Hr2 & Hf & Hle & _). rewrite Hr1 in Hr2. simplify_eq.
    specialize (Hdb r eq_refl). unfold fenced in Hf. lia.
  - destruct (touches d st) eqn:Ht; [|rewrite exec_frame in Hr1; congruence].
    destruct st as [extra t d1 n now until|t d1 n now until| | | | | | |]; try done;
      apply bool_decide_eq_true in Ht as ->; cbn [exec] in Hr1.
    + destruct (upsert_owner extra db t d n now until) as [[db1 o]|] eqn:Hu; [|congruence].
      apply upsert_row in Hu as [_ [[-> _]|(epoch & Ho & _ & Hrow)]]; [congruence|].
      rewrite Ho, lookup_insert_eq in Hr1. rewrite Hr in Hrow. simplify_eq. unfold I64_MAX. simpl. lia.
    + unfold update_lease, select_owner in Hr1. rewrite Hr in Hr1. simpl in Hr1. congruence.
Qed.

Lemma owner_history_range d sts : forall db,
  Forall (fun st => keeps d st = true) sts -> row_ok d db -> Forall epoch_ok (owner_history d db sts).
Proof.
  induction sts as [|st sts IH]; intros db Hk Hdb; rewrite owner_history_cons; apply Forall_app; split.
  1,3: destruct (device_owners db !! d) as [r|] eqn:Hr; repeat constructor; by apply Hdb.
  - constructor.
  - apply Forall_cons in Hk as [Hst Hk]. apply IH; [done|]. by apply exec_epoch_range.
Qed.
End Fencing.

(** [o2] was granted with [o1] or after it. *)
Definition fenced_owner (o1 o2 : OwnerInfo) : Prop :=
  oi_epoch o1 < oi_epoch o2 \/ (oi_epoch o1 = oi_epoch o2 /\ oi_node_id o1 = oi_node_id o2).

Lemma fenced_owners l :
  StronglySorted fenced l -> Forall epoch_ok l -> StronglySorted fenced_owner (row_owner <$> l).
Proof.
  induction 1 as [|r l Hs IH Hall]; intros Hok; [constructor|]. apply Forall_cons in Hok as [Hr Hok].
  simpl. constructor; [by apply IH|]. apply Forall_fmap. rewrite Forall_forall in *. intros r1 Hr1.
  specialize (Hall r1 Hr1). specialize (Hok r1 Hr1). unfold epoch_ok, fenced in *.
  unfold compose, fenced_owner, row_owner. simpl. rewrite !as_u64_id by lia. naive_solver lia.
Qed.

(** C32: Fencing of device owners.  Whatever statements the nodes of the cluster
    execute, in any order and with any clocks, as long as the owner of a device
    is not released, cleared or overwritten: the owners that the table shows for
    the device have growing epochs, and two owners with the same epoch are the
    same node, so an epoch identifies its holder; and the owner changes only
    through an acquisition by the new owner, at a time at which the lease of the
    previous owner is over or its node is not alive. *)
Theorem ownership_fenced `{DbMessages} d db sts :
  Forall (fun st => keeps d st = true) sts -> row_ok d db ->
  StronglySorted fenced_owner (row_owner <$> owner_history d db sts)
  /\ forall pre st post r r1,
       sts = pre ++ st :: post ->
       device_owners (exec_all db pre) !! d = Some r ->
       device_owners (exec (exec_all db pre) st) !! d = Some r1 ->
       or_owner_node_id r1 <> or_owner_node_id r ->
       exists extra t now until, st = StUpsert extra t d (or_owner_node_id r1) now until
         /\ (is_expired r now = true \/ node_lives (exec_all db pre) (or_owner_node_id r) now = false).
Proof.
  intros Hk Hdb. split.
  - apply fenced_owners; [by apply owner_history_sorted | by apply owner_history_range].
  - intros pre st post r r1 -> Hr Hr1 Hne. apply Forall_app in Hk as [_ Hk]. apply Forall_cons in Hk as [Hst _].
    destruct (exec_row d _ st r Hst Hr) as (r2 & Hr2 & _ & _ & Hch). rewrite Hr1 in Hr2. injection Hr2 as <-. auto.
Qed.

(** [OwnerLeaseService::acquire] on every branch.  Without an overflow of the
    lease time, and for a known device whose epoch is in range, the call is
    refused with [Unavailable] and without effect exactly when the device
    belongs to another node that is alive and whose lease is not over (or to
    another tenant's record that cannot be taken); otherwise this node is the
    owner in the table until the new lease time, with the next epoch, or with
    epoch 1 when there was no record. *)
Theorem lease_acquire_spec `{Clock W} `{DateRange} `{DbMessages} svc db (w : W) tenant device now until w1 w2 :
  now_wall w = (now, w1) ->
  lease_until svc w1 = (Ok until, w2) -> (tenant, device) ∈ devices db -> row_ok device db ->
  let held r := negb (may_take db r (ls_this_node svc) now) in
  match device_owners db !! device with
  | Some r =>
      if held r then
        or_owner_node_id r <> ls_this_node svc /\ is_expired r now = false
        /\ node_lives db (or_owner_node_id r) now = true
        /\ lease_acquire svc db w tenant device
           = (db, w2, Err (storage_unavailable "device lease held by another node"))
      else if or_owner_epoch r =? I64_MAX then
        lease_acquire svc db w tenant device = (db, w2, Err (sqlx_backend BigintOutOfRange))
      else
        exists db1, lease_acquire svc db w tenant device
            = (db1, w2, Ok (mkOwner (ls_this_node svc) (or_owner_epoch r + 1) (Some until)))
          /\ owner_get db1 tenant device = Some (mkOwner (ls_this_node svc) (or_owner_epoch r + 1) (Some until))
  | None =>
      exists db1, lease_acquire svc db w tenant device
          = (db1, w2, Ok (mkOwner (ls_this_node svc) 1 (Some until)))
        /\ owner_get db1 tenant device = Some (mkOwner (ls_this_node svc) 1 (Some until))
  end.
Proof.
  intros Hnow Hu Hdev Hok.
  unfold lease_acquire. rewrite Hnow, Hu. unfold owner_acquire, upsert_owner.
  destruct (device_owners db !! device) as [r|] eqn:Hr.
  - rewrite andb_true_r. destruct (may_take db r (ls_this_node svc) now) eqn:Hm; simpl.
    + destruct (Z.eqb_spec (or_owner_epoch r) I64_MAX); [done|]. rewrite decide_True by done. simpl.
      unfold owner_get, select_owner. simpl. rewrite lookup_insert_eq. rewrite !decide_True by done.
      specialize (Hok r Hr). unfold epoch_ok in Hok.
      eexists. split; [unfold row_owner; simpl; by rewrite as_u64_id by lia|].
      simpl. rewrite lookup_insert_eq, decide_True by done. unfold row_owner. simpl. by rewrite as_u64_id by lia.
    + unfold may_take in Hm. apply orb_false_iff in Hm as [Hm Hl]. apply orb_false_iff in Hm as [He Hn].
      apply bool_decide_eq_false in Hn. apply negb_false_iff in Hl. split_and!; [done..|].
      unfold select_owner. rewrite Hr. destruct (decide _); [|done]. by rewrite decide_False.
  - rewrite decide_True by done. unfold owner_get, select_owner. simpl. rewrite lookup_insert_eq, !decide_True by done.
    eexists. split; [done|]. simpl. by rewrite lookup_insert_eq, decide_True by done.
Qed.


(** ** Samples *)

Module OwnershipSample.
#[local] Instance messages : DbMessages := {| db_message := fun _ => "db"; db_display := fun _ => "db" |}.
#[local] Existing Instance default_date_range.

Definition node (id instance until : Z) : ClusterNode :=
  mkNode id instance "zone" "1.0.0" ∅ 0 until 0 (mkCapacity 10) (mkLoad 0) false.
(** Device 7 of tenant 1; nodes 100 and 200 are alive until time 1000. *)
Definition db0 : Db := mkDb {[(1, 7)]} ∅ {[100 := node 100 1 1000; 200 := node 200 2 1000]}.
Definition takeover : list Statement :=
  [StUpsert true 1 7 100 10 50; StRenew 1 7 100 20 60; StUpsert true 1 7 200 30 90; StUpsert true 1 7 200 60 90].

Lemma ownership_fenced_witness :
  StronglySorted fenced_owner (row_owner <$> owner_history 7 db0 takeover)
  /\ oi_node_id <$> (row_owner <$> owner_history 7 db0 takeover) = [100; 100; 100; 200].
Proof.
  split; [|vm_compute; reflexivity].
  apply (ownership_fenced 7 db0 takeover).
  - repeat constructor.
  - intros r Hr. vm_compute in Hr. discriminate.
Defined.

Lemma lease_acquire_spec_witness :
  exists db1, lease_acquire (mkLeaseService 100 5) db0 (Build_InMemoryWorld 0 0) 1 7
      = (db1, Build_InMemoryWorld 0 0, Ok (mkOwner 100 1 (Some 5000000)))
    /\ owner_get db1 1 7 = Some (mkOwner 100 1 (Some 5000000)).
Proof.
  apply (lease_acquire_spec (mkLeaseService 100 5) db0 (Build_InMemoryWorld 0 0) 1 7 0 5000000
           (Build_InMemoryWorld 0 0)).
  - reflexivity.
  - vm_compute. reflexivity.
  - unfold db0. simpl. set_solver.
  - intros r Hr. vm_compute in Hr. discriminate.
Defined.

(** A release loses the epoch: the record is deleted with its epoch, so the
    next owner starts again from epoch 1.  Two nodes hold the same device with
    the same epoch one after the other, which no history without a release
    allows, and the epoch of the device goes down. *)
Theorem release_reuses_epoch :
  let run := [StUpsert true 1 7 100 10 50; StRenew 1 7 100 20 60; StUpsert true 1 7 100 30 70;
              StRelease 1 7 100 2; StUpsert true 1 7 200 40 90] in
  row_owner <$> owner_history 7 db0 run
    = [mkOwner 100 1 (Some 50); mkOwner 100 1 (Some 60); mkOwner 100 2 (Some 70); mkOwner 200 1 (Some 90)].
Proof. vm_compute. reflexivity. Qed.
End OwnershipSample.
