(* ===== verification/NodeLease.v ===== *)
(** * Cluster node registration

    [cheetah-cluster-registry/src]: the compatibility matrix that a node must
    satisfy to join ([compatibility.rs]) and the service that registers a node,
    renews its lease and marks it as draining ([lease.rs]).  Semantic versions
    are those of the [semver] crate, an interface here. *)

From S2P Require Import Prelude RustStr Domain Cluster Ownership.

Open Scope string_scope.
Open Scope list_scope.
Open Scope Z_scope.

(** ** The compatibility matrix *)

Class Semver := {
  Version : Type;
  VersionReq : Type;
  VersionReq_eq_dec :: EqDecision VersionReq;
  version_parse : string -> option Version;
  req_parse : string -> result VersionReq string;
  STAR : VersionReq;
  req_matches : VersionReq -> Version -> bool;
  version_display : Version -> string;
  req_display : VersionReq -> string
}.

Definition MAX_BINARY_VERSION_RANGE_BYTES : Z := 128.
Definition MAX_BINARY_VERSION_BYTES : Z := 128.
Definition MAX_CONTRACT_VERSIONS : Z := 64.
Definition MAX_CONTRACT_NAME_BYTES : Z := 128.
Definition MAX_CONTRACT_VERSION_REQ_BYTES : Z := 128.
Definition MAX_CONTRACT_VERSION_STRING_BYTES : Z := 128.

Inductive CompatibilityError :=
| InvalidBinaryVersion (text : string)
| BinaryVersionOutOfRange (version range : string)
| MissingContract (contract : string)
| InvalidContractVersion (contract version : string)
| ContractVersionOutOfRange (contract version range : string)
| CompatInvalidArgument (message : string).

Section Matrix.
Context `{Semver}.

Record CompatibilityMatrix := mkMatrix {
  binary_version_range : VersionReq;
  contract_reqs : gmap string VersionReq
}.

(** A bare version is an exact requirement. *)
Definition parse_req (s : string) : result VersionReq string :=
  if str_all (fun c => is_ascii_digit c || Ascii.eqb c "."%char) s then req_parse (String "=" s) else req_parse s.

Fixpoint parse_contracts (l : list (string * string)) (acc : gmap string VersionReq) :
    result (gmap string VersionReq) CompatibilityError :=
  match l with
  | [] => Ok acc
  | (name, req) :: l =>
      if MAX_CONTRACT_NAME_BYTES <? str_len name then
        Err (CompatInvalidArgument "contract name must not exceed 128 bytes")
      else if MAX_CONTRACT_VERSION_REQ_BYTES <? str_len req then
        Err (CompatInvalidArgument ("contract " +:+ str_debug name +:+ " version requirement must not exceed 128 bytes"))
      else match parse_req req with
           | Err e => Err (InvalidContractVersion name ("range " +:+ str_debug req +:+ ": " +:+ e))
           | Ok r => parse_contracts l (<[name := r]> acc)
           end
  end.

(** [o] is the iteration order of the map. *)
Definition matrix_new (o : hash_order string string) (range : string) (contracts : gmap string string) :
    result CompatibilityMatrix CompatibilityError :=
  if MAX_BINARY_VERSION_RANGE_BYTES <? str_len range then
    Err (CompatInvalidArgument "binary version range must not exceed 128 bytes")
  else if MAX_CONTRACT_VERSIONS <? Z.of_nat (size contracts) then
    Err (CompatInvalidArgument "contract_versions must not exceed 64 entries")
  else match parse_req range with
       | Err e => Err (InvalidBinaryVersion ("binary version range " +:+ str_debug range +:+ ": " +:+ e))
       | Ok r => let? cs := parse_contracts (ho_iter o contracts) ∅ in Ok (mkMatrix r cs)
       end.

Definition matrix_permissive : CompatibilityMatrix := mkMatrix STAR ∅.

Fixpoint check_contracts (l : list (string * VersionReq)) (versions : gmap string string) :
    result unit CompatibilityError :=
  match l with
  | [] => Ok tt
  | (contract, req) :: l =>
      match versions !! contract with
      | None => Err (MissingContract contract)
      | Some v =>
          if MAX_CONTRACT_VERSION_STRING_BYTES <? str_len v then
            Err (CompatInvalidArgument ("contract " +:+ str_debug contract +:+ " version must not exceed 128 bytes"))
          else match version_parse v with
               | None => Err (InvalidContractVersion contract v)
               | Some ver =>
                   if req_matches req ver then check_contracts l versions
                   else Err (ContractVersionOutOfRange contract (version_display ver) (req_display req))
               end
      end
  end.

Definition matrix_check (o : hash_order string VersionReq) (m : CompatibilityMatrix) (binary_version : string)
    (versions : gmap string string) : result unit CompatibilityError :=
  if MAX_BINARY_VERSION_BYTES <? str_len binary_version then
    Err (CompatInvalidArgument "binary version must not exceed 128 bytes")
  else if MAX_CONTRACT_VERSIONS <? Z.of_nat (size versions) then
    Err (CompatInvalidArgument "contract_versions must not exceed 64 entries")
  else
    let? _ :=
      if decide (binary_version_range m = STAR) then Ok tt
      else match version_parse binary_version with
           | None => Err (InvalidBinaryVersion binary_version)
           | Some v => if req_matches (binary_version_range m) v then Ok tt
                       else Err (BinaryVersionOutOfRange binary_version (req_display (binary_version_range m)))
           end in
    check_contracts (ho_iter o (contract_reqs m)) versions.

(** What the check means. *)
Definition compatible (m : CompatibilityMatrix) (binary_version : string) (versions : gmap string string) : Prop :=
  str_len binary_version <= MAX_BINARY_VERSION_BYTES /\ Z.of_nat (size versions) <= MAX_CONTRACT_VERSIONS
  /\ (binary_version_range m <> STAR ->
        exists v, version_parse binary_version = Some v /\ req_matches (binary_version_range m) v = true)
  /\ forall contract req, contract_reqs m !! contract = Some req ->
       exists text v, versions !! contract = Some text /\ str_len text <= MAX_CONTRACT_VERSION_STRING_BYTES
         /\ version_parse text = Some v /\ req_matches req v = true.

Lemma check_contracts_Ok l versions :
  check_contracts l versions = Ok tt
  <-> forall contract req, (contract, req) ∈ l ->
        exists text v, versions !! contract = Some text /\ str_len text <= MAX_CONTRACT_VERSION_STRING_BYTES
          /\ version_parse text = Some v /\ req_matches req v = true.
Proof.
  induction l as [|[c r] l IH]; simpl; [split; [by intros _ ? ? ?%elem_of_nil | done]|].
  assert ((forall contract req, (contract, req) ∈ (c, r) :: l ->
            exists text v, versions !! contract = Some text /\ str_len text <= MAX_CONTRACT_VERSION_STRING_BYTES
              /\ version_parse text = Some v /\ req_matches req v = true)
          <-> (exists text v, versions !! c = Some text /\ str_len text <= MAX_CONTRACT_VERSION_STRING_BYTES
                /\ version_parse text = Some v /\ req_matches r v = true)
              /\ check_contracts l versions = Ok tt) as ->.
  { rewrite IH. split.
    - intros Hall. split; [apply Hall; left|]. intros contract req Hin. apply Hall. by right.
    - intros [Hc Hl] contract req [[= -> ->]|Hin]%elem_of_cons; auto. }
  destruct (versions !! c) as [v|]; [|naive_solver].
  destruct (Z.ltb_spec MAX_CONTRACT_VERSION_STRING_BYTES (str_len v)); [split; [done|]; intros [(t & ? & [= ->] & ? & _) _]; lia|].
  destruct (version_parse v) as [ver|] eqn:Hv; [|split; [done|]; intros [(t & ? & [= ->] & _ & ? & _) _]; congruence].
  destruct (req_matches r ver) eqn:Hm; [naive_solver|].
  split; [done|]. intros [(t & v1 & [= ->] & _ & Hp & Hq) _]. congruence.
Qed.

(** The check decides compatibility, in whatever order the map is walked. *)
Lemma matrix_check_Ok o m binary_version versions :
  matrix_check o m binary_version versions = Ok tt <-> compatible m binary_version versions.
Proof.
  unfold matrix_check, compatible.
  destruct (Z.ltb_spec MAX_BINARY_VERSION_BYTES (str_len binary_version)); [split; [done|lia]|].
  destruct (Z.ltb_spec MAX_CONTRACT_VERSIONS (Z.of_nat (size versions))); [split; [done|lia]|].
  assert (check_contracts (ho_iter o (contract_reqs m)) versions = Ok tt <->
    forall contract req, contract_reqs m !! contract = Some req ->
       exists text v, versions !! contract = Some text /\ str_len text <= MAX_CONTRACT_VERSION_STRING_BYTES
         /\ version_parse text = Some v /\ req_matches req v = true) as Hc.
  { rewrite check_contracts_Ok. split; intros Hall contract req Hr; apply Hall; by apply elem_of_ho_iter in Hr || by apply elem_of_ho_iter. }
  destruct (decide (binary_version_range m = STAR)); simpl; [rewrite Hc; naive_solver|].
  destruct (version_parse binary_version) as [v|]; simpl; [|naive_solver].
  destruct (req_matches _ v) eqn:Hm; simpl; [rewrite Hc; naive_solver|]. split; [done|].
  intros (_ & _ & Hb & _). destruct (Hb n) as (v1 & [= ->] & ?). congruence.
Qed.
End Matrix.

(** ** The lease service of a node *)

Definition MAX_ZONE_BYTES : Z := 256.
Definition MAX_NODE_VERSION_BYTES : Z := 128.
Definition MAX_NODE_CONTRACT_VERSIONS : Z := 64.
Definition MAX_NODE_CONTRACT_NAME_BYTES : Z := 128.
Definition MAX_NODE_CONTRACT_VERSION_BYTES : Z := 128.

Inductive NodeLeaseError :=
| NlStorage (e : StorageError)
| NlDomain (e : DomainError)
| NotRegistered (node : string)
| NlFenced (node : string)
| Incompatible (e : CompatibilityError).

Class NodeIds (W : Type) := generate_node_instance_id : W -> Uuid * W.

Section NodeLease.
Context `{Semver} {W : Type} `{Clock W} `{NodeIds W} `{DateRange} `{UuidDisplay}.

Record NodeLeaseService := mkNodeLease {
  nl_this_node : Uuid;
  nl_zone : string;
  nl_version : string;
  nl_lease_duration : Z;
  nl_compatibility : CompatibilityMatrix;
  nl_instance_id : option Uuid
}.

Fixpoint validate_contracts (l : list (string * string)) : result unit NodeLeaseError :=
  match l with
  | [] => Ok tt
  | (name, value) :: l =>
      if MAX_NODE_CONTRACT_NAME_BYTES <? str_len name then
        Err (NlDomain (invalid_argument "contract name must not exceed 128 bytes"))
      else if MAX_NODE_CONTRACT_VERSION_BYTES <? str_len value then
        Err (NlDomain (invalid_argument ("contract " +:+ str_debug name +:+ " version must not exceed 128 bytes")))
      else validate_contracts l
  end.

(** [o1] and [o2] are the iteration orders of the two maps. *)
Definition register (o1 : hash_order string string) (o2 : hash_order string VersionReq) (svc : NodeLeaseService)
    (db : Db) (w : W) (capacity : NodeCapacity) (contract_versions : gmap string string) :
    NodeLeaseService * Db * W * result ClusterNode NodeLeaseError :=
  let valid :=
    if MAX_ZONE_BYTES <? str_len (nl_zone svc) then
      Err (NlDomain (invalid_argument "zone must not exceed 256 bytes"))
    else if MAX_NODE_VERSION_BYTES <? str_len (nl_version svc) then
      Err (NlDomain (invalid_argument "version must not exceed 128 bytes"))
    else if MAX_NODE_CONTRACT_VERSIONS <? Z.of_nat (size contract_versions) then
      Err (NlDomain (invalid_argument "contract_versions must not exceed 64 entries"))
    else
      let? _ := validate_contracts (ho_iter o1 contract_versions) in
      map_err Incompatible (matrix_check o2 (nl_compatibility svc) (nl_version svc) contract_versions) in
  match valid with
  | Err e => (svc, db, w, Err e)
  | Ok _ =>
      let '(instance, w) := generate_node_instance_id w in
      let '(now, w) := now_wall w in
      match ts_checked_add now (nl_lease_duration svc) with
      | None => (svc, db, w, Err (NlDomain (internal "node lease timestamp overflow")))
      | Some lease_until =>
          let n := node_new (nl_this_node svc) instance (nl_zone svc) (nl_version svc) now in
          let n := mkNode (cn_node_id n) (cn_instance_id n) (cn_zone n) (cn_version n) contract_versions
                     (cn_started_at n) lease_until now capacity (cn_load n) (cn_draining n) in
          (mkNodeLease (nl_this_node svc) (nl_zone svc) (nl_version svc) (nl_lease_duration svc)
             (nl_compatibility svc) (Some instance),
           node_register db n, w, Ok n)
      end
  end.

Definition heartbeat (svc : NodeLeaseService) (db : Db) (w : W) (load : NodeLoad) :
    Db * W * result ClusterNode NodeLeaseError :=
  match nl_instance_id svc with
  | None => (db, w, Err (NotRegistered (uuid_to_string (nl_this_node svc))))
  | Some instance =>
      let '(now, w) := now_wall w in
      match ts_checked_add now (nl_lease_duration svc) with
      | None => (db, w, Err (NlDomain (internal "node lease timestamp overflow")))
      | Some lease_until =>
          match node_heartbeat db (nl_this_node svc) instance lease_until now load with
          | (db, Some n) => (db, w, Ok n)
          | (db, None) => (db, w, Err (NlFenced (uuid_to_string (nl_this_node svc))))
          end
      end
  end.

Definition mark_draining (svc : NodeLeaseService) (db : Db) (w : W) : Db * W * result unit NodeLeaseError :=
  match nl_instance_id svc with
  | None => (db, w, Err (NotRegistered (uuid_to_string (nl_this_node svc))))
  | Some instance =>
      let '(now, w) := now_wall w in
      match node_mark_draining db (nl_this_node svc) instance now with
      | (db, true) => (db, w, Ok tt)
      | (db, false) => (db, w, Err (NlFenced (uuid_to_string (nl_this_node svc))))
      end
  end.
End NodeLease.

(** ** Fencing of instances *)

Definition registers (node : Uuid) (st : Statement) : bool :=
  match st with StRegister n => bool_decide (cn_node_id n = node) | _ => false end.

(** A statement that does not register the node keeps its instance. *)
Lemma exec_instance `{DbMessages} node db st :
  registers node st = false ->
  cn_instance_id <$> cluster_nodes (exec db st) !! node = cn_instance_id <$> cluster_nodes db !! node.
Proof.
  intros Hr. destruct st as [extra t d n now until|t d n now until|t d n epoch|t d|now t d o|n|n i until now l|n i now|t d];
    cbn [exec registers] in *.
  - destruct (upsert_owner extra db t d n now until) as [[db1 o]|] eqn:Hu; [|done].
    apply upsert_row in Hu as [-> _]. done.
  - unfold update_lease. by repeat case_match.
  - unfold owner_release. by repeat case_match.
  - unfold owner_clear. by repeat case_match.
  - unfold owner_set. destruct (decide _); done.
  - apply bool_decide_eq_false in Hr. simpl. by rewrite lookup_insert_ne.
  - unfold node_heartbeat. destruct (cluster_nodes db !! n) as [n1|] eqn:Hn; [|done]. destruct (decide _); [|done].
    simpl. destruct (decide (n = node)) as [->|]; [by rewrite lookup_insert_eq, Hn | by rewrite lookup_insert_ne].
  - unfold node_mark_draining. destruct (cluster_nodes db !! n) as [n1|] eqn:Hn; [|done]. destruct (decide _); [|done].
    simpl. destruct (decide (n = node)) as [->|]; [by rewrite lookup_insert_eq, Hn | by rewrite lookup_insert_ne].
  - done.
Qed.

Lemma exec_all_instance `{DbMessages} node sts : forall db,
  Forall (fun st => registers node st = false) sts ->
  cn_instance_id <$> cluster_nodes (exec_all db sts) !! node = cn_instance_id <$> cluster_nodes db !! node.
Proof.
  induction sts as [|st sts IH]; intros db Hf; [done|]. apply Forall_cons in Hf as [Hst Hf].
  change (exec_all db (st :: sts)) with (exec_all (exec db st) sts). rewrite IH by done. by apply exec_instance.
Qed.

(** A new incarnation fences the old one.  After a node registered as a new
    instance, and whatever statements other nodes and instances execute in the
    meantime, as long as the node does not register again: a heartbeat or a
    drain request of a process with another instance identifier is rejected as
    fenced and changes nothing, and those of the new instance are accepted. *)
Theorem instance_fenced `{Semver} `{Clock W} `{NodeIds W} `{DateRange} `{UuidDisplay} `{DbMessages}
    (db : Db) (n : ClusterNode) sts (svc : NodeLeaseService) (w : W) load i :
  Forall (fun st => registers (cn_node_id n) st = false) sts ->
  nl_this_node svc = cn_node_id n -> nl_instance_id svc = Some i ->
  let db1 := exec_all (exec db (StRegister n)) sts in
  if decide (i = cn_instance_id n) then
    (mark_draining svc db1 w).2 = Ok tt
    /\ (is_Some (ts_checked_add (now_wall w).1 (nl_lease_duration svc)) ->
        exists n1, (heartbeat svc db1 w load).2 = Ok n1 /\ cn_load n1 = load)
  else
    (mark_draining svc db1 w).1.1 = db1
    /\ (mark_draining svc db1 w).2 = Err (NlFenced (uuid_to_string (nl_this_node svc)))
    /\ (heartbeat svc db1 w load).1.1 = db1
    /\ (is_Some (ts_checked_add (now_wall w).1 (nl_lease_duration svc)) ->
        (heartbeat svc db1 w load).2 = Err (NlFenced (uuid_to_string (nl_this_node svc)))).
Proof.
  intros Hf Hnode Hi db1. pose proof (exec_all_instance (cn_node_id n) sts (exec db (StRegister n)) Hf) as He.
  fold db1 in He. simpl in He. rewrite lookup_insert_eq in He. simpl in He.
  destruct (cluster_nodes db1 !! cn_node_id n) as [n1|] eqn:Hn1; [|done]. injection He as He.
  unfold mark_draining, heartbeat. rewrite Hi, Hnode. destruct (now_wall w) as [now w1]. simpl.
  unfold node_mark_draining, node_heartbeat. rewrite Hn1, He.
  destruct (decide (i = cn_instance_id n)) as [->|Hne].
  - rewrite decide_True by done. simpl. split; [done|]. intros [t Ht]. rewrite Ht. rewrite decide_True by done.
    simpl. eauto.
  - rewrite decide_False by done. simpl. split_and!; [done..| |].
    + destruct (ts_checked_add _ _); [|done]. by rewrite decide_False.
    + intros [t Ht]. rewrite Ht. by rewrite decide_False.
Qed.

(** [NodeLeaseService::register] admits exactly the nodes that are within the
    size limits and compatible with the matrix; an admitted node is alive in the
    table for the lease duration under a fresh instance and not draining, and a
    rejected one changes neither the table nor the service. *)
Theorem register_spec `{Semver} `{Clock W} `{NodeIds W} `{DateRange} `{UuidDisplay} o1 o2
    (svc : NodeLeaseService) (db : Db) (w : W) capacity versions now instance :
  now = (now_wall (generate_node_instance_id w).2).1 -> instance = (generate_node_instance_id w).1 ->
  is_Some (ts_checked_add now (nl_lease_duration svc)) ->
  let admissible :=
    str_len (nl_zone svc) <= MAX_ZONE_BYTES
    /\ (forall name v, versions !! name = Some v -> str_len name <= MAX_NODE_CONTRACT_NAME_BYTES
                                          /\ str_len v <= MAX_NODE_CONTRACT_VERSION_BYTES)
    /\ compatible (nl_compatibility svc) (nl_version svc) versions in
  match register o1 o2 svc db w capacity versions with
  | (svc1, db1, _, Ok n) =>
      admissible /\ node_get db1 (nl_this_node svc) = Some n /\ cn_instance_id n = instance
      /\ nl_instance_id svc1 = Some instance /\ cn_draining n = false /\ cn_contract_versions n = versions
      /\ cn_lease_until n = now + from_millis (nl_lease_duration svc)
  | (svc1, db1, _, Err _) => ~ admissible /\ svc1 = svc /\ db1 = db
  end.
Proof.
  intros Hnow Hinst [t Ht] admissible. unfold register.
  assert (validate_contracts (ho_iter o1 versions) = Ok tt
    <-> forall name v, versions !! name = Some v -> str_len name <= MAX_NODE_CONTRACT_NAME_BYTES
                                         /\ str_len v <= MAX_NODE_CONTRACT_VERSION_BYTES) as Hval.
  { transitivity (forall nv, nv ∈ ho_iter o1 versions -> str_len nv.1 <= MAX_NODE_CONTRACT_NAME_BYTES
                                         /\ str_len nv.2 <= MAX_NODE_CONTRACT_VERSION_BYTES).
    - induction (ho_iter o1 versions) as [|[name v] l IH]; simpl; [split; [by intros _ ? ?%elem_of_nil | done]|].
      destruct (Z.ltb_spec MAX_NODE_CONTRACT_NAME_BYTES (str_len name)).
      { split; [done|]. intros Hall. specialize (Hall (name, v) ltac:(left)). simpl in Hall. lia. }
      destruct (Z.ltb_spec MAX_NODE_CONTRACT_VERSION_BYTES (str_len v)).
      { split; [done|]. intros Hall. specialize (Hall (name, v) ltac:(left)). simpl in Hall. lia. }
      rewrite IH. split; [|intros Hall nv Hin; apply Hall; by right].
      intros Hall nv [->|Hin]%elem_of_cons; [done|auto].
    - split; intros Hall; [intros name v Hv | intros [name v] Hv].
      + apply (Hall (name, v)). by apply elem_of_ho_iter.
      + apply Hall. by apply elem_of_ho_iter in Hv. }
  pose proof (matrix_check_Ok o2 (nl_compatibility svc) (nl_version svc) versions) as Hmx.
  destruct (Z.ltb_spec MAX_ZONE_BYTES (str_len (nl_zone svc))); [split_and!; try done; unfold admissible; lia|].
  assert (forall b, Z.ltb MAX_NODE_VERSION_BYTES (str_len (nl_version svc)) = b -> b = true -> ~ admissible) as Hver.
  { intros b <- Hb%Z.ltb_lt (_ & _ & Hc & _). unfold MAX_NODE_VERSION_BYTES, MAX_BINARY_VERSION_BYTES in *. lia. }
  assert (forall b, Z.ltb MAX_NODE_CONTRACT_VERSIONS (Z.of_nat (size versions)) = b -> b = true -> ~ admissible) as Hcnt.
  { intros b <- Hb%Z.ltb_lt (_ & _ & _ & Hc & _). unfold MAX_NODE_CONTRACT_VERSIONS, MAX_CONTRACT_VERSIONS in *. lia. }
  destruct (MAX_NODE_VERSION_BYTES <? _) eqn:E1; [split_and!; try done; by eapply Hver|].
  destruct (MAX_NODE_CONTRACT_VERSIONS <? _) eqn:E2; [split_and!; try done; by eapply Hcnt|].
  destruct (validate_contracts _) as [[]|e]; simpl.
  2: { split_and!; try done. intros (_ & Hv & _). by apply Hval in Hv. }
  destruct (matrix_check _ _ _ _) as [[]|e]; simpl.
  2: { split_and!; try done. intros (_ & _ & Hc). by apply Hmx in Hc. }
  destruct (generate_node_instance_id w) as [inst w1]. simpl in Hnow, Hinst. destruct (now_wall w1) as [now1 w2].
  simpl in Hnow. subst. rewrite Ht. apply ts_checked_add_Some in Ht as ->. simpl.
  unfold node_get. simpl. rewrite lookup_insert_eq. split_and!; try done.
  split_and!; [done|by apply Hval|by apply Hmx].
Qed.

(** ** Samples: versions as texts, exact requirements *)

Module NodeLeaseSample.
#[local] Instance exact_versions : Semver := {|
  Version := string; VersionReq := string; VersionReq_eq_dec := String.string_dec;
  version_parse := fun s => if is_empty_str s then None else Some s;
  req_parse := fun s => match s with EmptyString => Err "empty" | String _ v => Ok v end;
  STAR := "*"; req_matches := String.eqb; version_display := fun s => s; req_display := fun s => s
|}.
#[local] Instance messages : DbMessages := {| db_message := fun _ => "db"; db_display := fun _ => "db" |}.
#[local] Existing Instance default_date_range.
#[local] Instance display : UuidDisplay := show_uint.
#[local] Instance instances : NodeIds InMemoryWorld := InMemoryIdGenerator_next_uuid.

Definition matrix : CompatibilityMatrix := mkMatrix "1.0.0" {["gb28181" := "2.0.0"]}.
Definition service (instance : option Uuid) : NodeLeaseService := mkNodeLease 100 "zone" "1.0.0" 5000 matrix instance.
Definition world : InMemoryWorld := Build_InMemoryWorld 1 42.
Definition empty_db : Db := mkDb ∅ ∅ ∅.
Definition newer : ClusterNode := node_new 100 43 "zone" "1.0.0" 0.

Lemma instance_fenced_witness :
  (heartbeat (service (Some 42)) (exec_all (exec empty_db (StRegister newer)) [StHeartbeat 100 43 9 8 (mkLoad 3)]) world
     (mkLoad 1)).2 = Err (NlFenced "100").
Proof.
  pose proof (instance_fenced empty_db newer [StHeartbeat 100 43 9 8 (mkLoad 3)] (service (Some 42)) world (mkLoad 1) 42
    ltac:(repeat constructor) eq_refl eq_refl) as Hf.
  rewrite decide_False in Hf by done. destruct Hf as (_ & _ & _ & Hf). apply Hf. vm_compute. by eexists.
Defined.

Lemma register_spec_witness :
  match register canonical_order canonical_order (service None) empty_db world (mkCapacity 10) {["gb28181" := "2.0.0"]} with
  | (_, db1, _, Ok n) => node_get db1 100 = Some n /\ cn_instance_id n = 42
  | _ => False
  end.
Proof.
  pose proof (register_spec canonical_order canonical_order (service None) empty_db world (mkCapacity 10)
    {["gb28181" := "2.0.0"]} 1000000 42 eq_refl eq_refl ltac:(vm_compute; by eexists)) as Hr.
  destruct (register _ _ _ _ _ _ _) as [[[svc1 db1] w1] [n|e]] eqn:He.
  - destruct Hr as (_ & Hn & Hi & _). split; [exact Hn | exact Hi].
  - vm_compute in He. discriminate.
Defined.
End NodeLeaseSample.
