(* ===== verification/OwnerCache.v ===== *)
(** * The caching owner resolver

    [CachingDeviceOwnerResolver] ([cheetah-cluster-ownership/src/lease.rs]): a
    bounded cache of owner records in front of the repository.  A [resolve] takes
    the lock twice, to look the cache up and to store what the repository
    answered, and other calls may run in between: a run is a sequence of
    [CacheEvent]s, where a [Finish] belongs to an earlier [Start] that missed. *)

From S2P Require Import Prelude RustStr Domain Cluster.

Open Scope list_scope.
Open Scope Z_scope.

Definition CacheKey : Type := Uuid * Uuid.
Record CacheEntry := mkEntry { ce_owner : OwnerInfo; ce_valid_until : UtcTimestamp }.
Record CacheState := mkCache {
  entries : gmap CacheKey CacheEntry;
  order : list CacheKey;
  capacity : Z
}.

Definition cache_new (max_capacity : Z) : CacheState := mkCache ∅ [] (Z.max max_capacity 1).

Definition move_to_back (key : CacheKey) (c : CacheState) : CacheState :=
  mkCache (entries c) (filter (fun k => k <> key) (order c) ++ [key]) (capacity c).

Definition evict_expired (now : UtcTimestamp) (c : CacheState) : CacheState :=
  let expired := (filter (fun ke => ce_valid_until ke.2 <= now) (map_to_list (entries c))).*1 in
  mkCache (foldr delete (entries c) expired) (filter (fun k => k ∉ expired) (order c)) (capacity c).

Definition evict_lru (c : CacheState) : CacheState :=
  match order c with
  | [] => c
  | key :: order => mkCache (delete key (entries c)) order (capacity c)
  end.

Definition cache_insert (now : UtcTimestamp) (key : CacheKey) (entry : CacheEntry) (c : CacheState) : CacheState :=
  match entries c !! key with
  | Some _ => move_to_back key (mkCache (<[key := entry]> (entries c)) (order c) (capacity c))
  | None =>
      let c :=
        if capacity c <=? Z.of_nat (size (entries c)) then
          let c := evict_expired now c in
          if capacity c <=? Z.of_nat (size (entries c)) then evict_lru c else c
        else c in
      mkCache (<[key := entry]> (entries c)) (order c ++ [key]) (capacity c)
  end.

Section Resolver.
Context `{DateRange}.
Context (cache_ttl : Z).

Definition cache_valid_until (owner : OwnerInfo) (cached_at : UtcTimestamp) : UtcTimestamp :=
  let ttl_deadline := default cached_at (ts_checked_add cached_at cache_ttl) in
  match oi_lease_until owner with
  | Some lease => Z.min lease ttl_deadline
  | None => ttl_deadline
  end.

(** The first locked part of [resolve]: the answer on a hit. *)
Definition resolve_start (now : UtcTimestamp) (key : CacheKey) (c : CacheState) : CacheState * option OwnerInfo :=
  match entries c !! key with
  | Some entry =>
      if now <? ce_valid_until entry then (move_to_back key c, Some (ce_owner entry))
      else (mkCache (delete key (entries c)) (filter (fun k => k <> key) (order c)) (capacity c), None)
  | None => (c, None)
  end.

(** The rest of [resolve], with what the repository read; [now] is the time at
    which the call started. *)
Definition resolve_finish (now : UtcTimestamp) (key : CacheKey) (read : result (option OwnerInfo) StorageError)
    (c : CacheState) : CacheState * result (option OwnerInfo) DomainError :=
  match read with
  | Err e => (c, Err (storage_to_domain e))
  | Ok None => (c, Ok None)
  | Ok (Some o) =>
      let valid_until := cache_valid_until o now in
      if now <? valid_until then (cache_insert now key (mkEntry o valid_until) c, Ok (Some o))
      else (c, Ok None)
  end.

(** A [resolve] without interference. *)
Definition resolve (now : UtcTimestamp) (key : CacheKey) (read : result (option OwnerInfo) StorageError)
    (c : CacheState) : CacheState * result (option OwnerInfo) DomainError :=
  match resolve_start now key c with
  | (c, Some owner) => (c, Ok (Some owner))
  | (c, None) => resolve_finish now key read c
  end.

Inductive CacheEvent :=
| Start (now : UtcTimestamp) (key : CacheKey)
| Finish (now : UtcTimestamp) (key : CacheKey) (read : result (option OwnerInfo) StorageError).
(** What an event answers to its caller, if anything. *)
Definition cache_step (c : CacheState) (e : CacheEvent) : CacheState * option (result (option OwnerInfo) DomainError) :=
  match e with
  | Start now key => let '(c, hit) := resolve_start now key c in (c, Ok ∘ Some <$> hit)
  | Finish now key read => let '(c, r) := resolve_finish now key read c in (c, Some r)
  end.
Fixpoint cache_run (c : CacheState) (es : list CacheEvent) : CacheState :=
  match es with [] => c | e :: es => cache_run (cache_step c e).1 es end.

(** ** Invariants *)

(** The order lists the cached keys once, and the cache is within its capacity. *)
Record cache_ok (c : CacheState) : Prop := {
  co_nodup : NoDup (order c);
  co_keys : forall k, k ∈ order c <-> is_Some (entries c !! k);
  co_capacity : 1 <= capacity c;
  co_bound : Z.of_nat (size (entries c)) <= capacity c
}.

(** An entry that a read at time [t] left, with the read among [es]. *)
Definition from_read (es : list CacheEvent) (key : CacheKey) (entry : CacheEntry) : Prop :=
  exists t, Finish t key (Ok (Some (ce_owner entry))) ∈ es
    /\ ce_valid_until entry = cache_valid_until (ce_owner entry) t.
Definition cache_fresh (es : list CacheEvent) (c : CacheState) : Prop :=
  forall key entry, entries c !! key = Some entry -> from_read es key entry.

Lemma cache_new_ok n : cache_ok (cache_new n).
Proof.
  split; simpl; [constructor | | lia | rewrite map_size_empty; lia].
  intros k. rewrite lookup_empty. split; [by intros Hin%elem_of_nil | by intros [? ?]].
Qed.

Lemma nodup_filter_app k (l : list CacheKey) : NoDup l -> NoDup (filter (fun k1 => k1 <> k) l ++ [k]).
Proof.
  intros Hl. apply NoDup_app. split_and!; [by apply NoDup_filter | | apply NoDup_singleton].
  intros k1 Hin Hk1. apply list_elem_of_filter in Hin as [Hne _]. apply list_elem_of_singleton in Hk1. done.
Qed.
Lemma elem_filter_app k k1 (l : list CacheKey) : k1 ∈ filter (fun k2 => k2 <> k) l ++ [k] <-> k1 = k \/ k1 ∈ l.
Proof.
  rewrite elem_of_app, list_elem_of_filter, list_elem_of_singleton.
  destruct (decide (k1 = k)); naive_solver.
Qed.

Lemma move_to_back_ok key c : cache_ok c -> is_Some (entries c !! key) -> cache_ok (move_to_back key c).
Proof.
  intros [Hn Hk Hc Hb] Hin. split; simpl; [by apply nodup_filter_app | | done | done].
  intros k. rewrite elem_filter_app, Hk. naive_solver.
Qed.

Lemma lookup_foldr_delete (m : gmap CacheKey CacheEntry) l k :
  foldr delete m l !! k = if decide (k ∈ l) then None else m !! k.
Proof.
  induction l as [|k1 l IH]; simpl; [done|]. destruct (decide (k = k1)) as [->|Hne].
  - rewrite lookup_delete_eq. by rewrite decide_True by left.
  - rewrite lookup_delete_ne by done. rewrite IH. destruct (decide (k ∈ l)).
    + by rewrite decide_True by (by right).
    + rewrite decide_False; [done|]. intros [?|?]%elem_of_cons; done.
Qed.

Lemma evict_expired_sub now c k e : entries (evict_expired now c) !! k = Some e -> entries c !! k = Some e.
Proof. simpl. rewrite lookup_foldr_delete. by case_decide. Qed.
Lemma evict_expired_ok now c : cache_ok c -> cache_ok (evict_expired now c).
Proof.
  intros [Hn Hk Hc Hb]. split; [by apply NoDup_filter | | done |].
  - intros k. unfold evict_expired. simpl. rewrite list_elem_of_filter, Hk, lookup_foldr_delete.
    case_decide as Hd; [split; [naive_solver | by intros [? ?]] | naive_solver].
  - simpl. etrans; [|exact Hb]. apply inj_le, map_subseteq_size, map_subseteq_spec.
    intros k e. by apply evict_expired_sub.
Qed.

Lemma evict_lru_sub c k e : entries (evict_lru c) !! k = Some e -> entries c !! k = Some e.
Proof. unfold evict_lru. destruct (order c); [done|]. simpl. by intros [_ ?]%lookup_delete_Some. Qed.
Lemma evict_lru_ok c :
  cache_ok c -> cache_ok (evict_lru c) /\ (entries c <> ∅ -> size (entries (evict_lru c)) = pred (size (entries c))).
Proof.
  intros Hok. pose proof Hok as [Hn Hk Hc Hb]. unfold evict_lru. destruct (order c) as [|key l] eqn:Ho.
  - split; [done|]. intros Hne. destruct Hne. apply map_empty. intros k. apply eq_None_not_Some. rewrite <-Hk.
    apply not_elem_of_nil.
  - apply NoDup_cons in Hn as [Hnin Hn]. assert (is_Some (entries c !! key)) as Hkey by (apply Hk; left).
    split; [split; simpl|].
    + done.
    + intros k. specialize (Hk k). destruct (decide (k = key)) as [->|Hne].
      * rewrite lookup_delete_eq. split; [done | by intros [? ?]].
      * rewrite lookup_delete_ne by done. rewrite <-Hk, elem_of_cons. naive_solver.
    + done.
    + rewrite map_size_delete. destruct Hkey as [e ->]. lia.
    + intros _. simpl. rewrite map_size_delete. destruct Hkey as [e ->]. lia.
Qed.

(** Storing a new key after an eviction. *)
Lemma cache_push_ok key entry c :
  cache_ok c -> entries c !! key = None -> Z.of_nat (size (entries c)) < capacity c ->
  cache_ok (mkCache (<[key := entry]> (entries c)) (order c ++ [key]) (capacity c)).
Proof.
  intros [Hn Hk Hc Hb] Hnone Hlt. assert (key ∉ order c) as Hnin by (rewrite Hk, Hnone; by intros [? ?]).
  split; simpl; [| | done |].
  - apply NoDup_app. split_and!; [done | | apply NoDup_singleton].
    intros k Hin ->%list_elem_of_singleton. done.
  - intros k. rewrite elem_of_app, list_elem_of_singleton, Hk. destruct (decide (k = key)) as [->|Hne].
    + rewrite lookup_insert_eq. naive_solver.
    + rewrite lookup_insert_ne by done. naive_solver.
  - rewrite map_size_insert, Hnone. lia.
Qed.

Lemma cache_insert_ok now key entry c : cache_ok c -> cache_ok (cache_insert now key entry c).
Proof.
  intros Hok. unfold cache_insert. destruct (entries c !! key) as [e|] eqn:Hkey.
  - apply move_to_back_ok; simpl; [|rewrite lookup_insert_eq; by eexists].
    destruct Hok as [Hn Hk Hc Hb]. split; simpl; try done.
    + intros k. rewrite Hk. destruct (decide (k = key)) as [->|Hne]; [|by rewrite lookup_insert_ne].
      rewrite lookup_insert_eq, Hkey. split; by eexists.
    + by rewrite map_size_insert, Hkey.
  - set (c1 := evict_expired now c). pose proof (evict_expired_ok now c Hok) as Hok1. fold c1 in Hok1.
    assert (entries c1 !! key = None) as Hkey1.
    { apply eq_None_not_Some. intros [e He]. apply evict_expired_sub in He. congruence. }
    destruct (Z.leb_spec (capacity c) (Z.of_nat (size (entries c)))); [|by apply cache_push_ok].
    destruct (Z.leb_spec (capacity c1) (Z.of_nat (size (entries c1)))); [|by apply cache_push_ok].
    destruct (evict_lru_ok c1 Hok1) as [Hok2 Hsz]. pose proof (co_capacity _ Hok1).
    apply cache_push_ok; [done | |].
    + apply eq_None_not_Some. intros [e He]. apply evict_lru_sub in He. congruence.
    + assert (capacity (evict_lru c1) = capacity c1) as -> by (unfold evict_lru; by destruct (order c1)).
      rewrite Hsz; [pose proof (co_bound _ Hok1); lia|]. intros He. rewrite He, map_size_empty in *. lia.
Qed.

Lemma cache_insert_sub now key entry c k e :
  entries (cache_insert now key entry c) !! k = Some e -> (k = key /\ e = entry) \/ entries c !! k = Some e.
Proof.
  unfold cache_insert. destruct (entries c !! key); simpl.
  - intros [[-> ->]|[_ He]]%lookup_insert_Some; auto.
  - intros [[-> ->]|[_ He]]%lookup_insert_Some; [auto|]. right.
    revert He. repeat case_match; auto; intros He; repeat (apply evict_lru_sub in He || apply evict_expired_sub in He); done.
Qed.

Lemma resolve_start_ok now key c : cache_ok c -> cache_ok (resolve_start now key c).1.
Proof.
  intros Hok. unfold resolve_start. destruct (entries c !! key) as [e|] eqn:He; [|done].
  destruct (now <? _); [by apply move_to_back_ok|]. destruct Hok as [Hn Hk Hc Hb]. split; simpl.
  - by apply NoDup_filter.
  - intros k. rewrite list_elem_of_filter, Hk. destruct (decide (k = key)) as [->|Hne].
    + rewrite lookup_delete_eq. split; [naive_solver | by intros [? ?]].
    + rewrite lookup_delete_ne by done. naive_solver.
  - done.
  - rewrite map_size_delete, He. lia.
Qed.

Lemma cache_step_ok c e : cache_ok c -> cache_ok (cache_step c e).1.
Proof.
  intros Hok. destruct e as [now key|now key [[o|]|e]]; simpl; try done.
  - pose proof (resolve_start_ok now key c Hok). by destruct (resolve_start now key c).
  - destruct (now <? _); [by apply cache_insert_ok | done].
Qed.

Lemma cache_step_fresh es c e :
  cache_fresh es c -> cache_fresh (es ++ [e]) (cache_step c e).1.
Proof.
  intros Hf. assert (forall k en, entries c !! k = Some en -> from_read (es ++ [e]) k en) as Hmono.
  { intros k en Hen. destruct (Hf k en Hen) as (t & Ht & Hv). exists t. split; [|done]. apply elem_of_app. by left. }
  destruct e as [now key|now key [[o|]|er]]; simpl; try done; intros k en Hen.
  - unfold resolve_start in Hen. destruct (entries c !! key) as [e|]; [|auto].
    destruct (now <? _); simpl in Hen; [auto|]. apply lookup_delete_Some in Hen as [_ Hen]. auto.
  - destruct (now <? _); [|auto]. simpl in Hen. apply cache_insert_sub in Hen as [[-> ->]|Hen]; [|auto].
    exists now. split; [|done]. apply elem_of_app. right. by apply list_elem_of_singleton.
Qed.

Lemma cache_run_app c es e : cache_run c (es ++ [e]) = (cache_step (cache_run c es) e).1.
Proof. revert c. induction es as [|e1 es IH]; intros c; simpl; [done|]. apply IH. Qed.

Lemma cache_run_inv n es :
  cache_ok (cache_run (cache_new n) es) /\ cache_fresh es (cache_run (cache_new n) es).
Proof.
  induction es as [|e es [IHok IHf]] using rev_ind; simpl.
  - split; [apply cache_new_ok|]. intros k en. simpl. by rewrite lookup_empty.
  - rewrite cache_run_app. split; [by apply cache_step_ok | by apply cache_step_fresh].
Qed.

Lemma cache_valid_until_bounds o t :
  0 <= cache_ttl ->
  cache_valid_until o t <= t + from_millis cache_ttl
  /\ match oi_lease_until o with Some lease => cache_valid_until o t <= lease | None => True end.
Proof.
  intros Httl. unfold cache_valid_until.
  assert (default t (ts_checked_add t cache_ttl) <= t + from_millis cache_ttl).
  { destruct (ts_checked_add t cache_ttl) eqn:He; simpl; [apply ts_checked_add_Some in He; lia|].
    unfold from_millis, NANOS_PER_MILLI. lia. }
  destruct (oi_lease_until o); lia.
Qed.
End Resolver.

(** Bounded staleness of the owner cache.  In every interleaving of resolver
    calls the cache keeps at most its capacity of records, with an eviction order
    that lists every cached device once; and every owner answered from the cache
    was read from the repository by an earlier call for the same device that
    started less than the time to live ago, and its lease is not over. *)
Theorem cached_owner_fresh `{DateRange} cache_ttl max_capacity es now key owner :
  0 <= cache_ttl ->
  let c := cache_run cache_ttl (cache_new max_capacity) es in
  cache_ok c
  /\ ((cache_step cache_ttl c (Start now key)).2 = Some (Ok (Some owner)) ->
      (exists t, Finish t key (Ok (Some owner)) ∈ es /\ now < t + from_millis cache_ttl)
      /\ match oi_lease_until owner with Some lease => now < lease | None => True end).
Proof.
  intros Httl c. destruct (cache_run_inv cache_ttl max_capacity es) as [Hok Hf]. fold c in Hok, Hf.
  split; [done|]. simpl. unfold resolve_start. destruct (entries c !! key) as [e|] eqn:He; [|done].
  destruct (Z.ltb_spec now (ce_valid_until e)); [|done]. simpl. intros [= <-].
  destruct (Hf key e He) as (t & Ht & Hv).
  destruct (cache_valid_until_bounds cache_ttl (ce_owner e) t Httl) as [Hb Hl]. rewrite Hv in *.
  split; [exists t; split; [done|lia]|]. destruct (oi_lease_until (ce_owner e)); [lia|done].
Qed.

Module OwnerCacheSample.
#[local] Existing Instance default_date_range.
Definition owner : OwnerInfo := mkOwner 100 3 (Some 9000000).
Definition events : list CacheEvent :=
  [Start 0 (1, 7); Finish 0 (1, 7) (Ok (Some owner)); Start 1 (1, 8); Finish 1 (1, 8) (Ok None)].

Lemma cached_owner_fresh_witness :
  (exists t, Finish t (1, 7) (Ok (Some owner)) ∈ events /\ 4000000 < t + from_millis 5) /\ 4000000 < 9000000.
Proof.
  apply (cached_owner_fresh 5 1 events 4000000 (1, 7) owner); [lia|]. vm_compute. reflexivity.
Defined.
End OwnerCacheSample.
