(* ===== verification/AssignLimiter.v ===== *)
(** * The rate limiter of device assignments

    [SlidingWindow], [RateLimiter] and [RateLimitPermit] of
    [cheetah-cluster-ownership/src/assignment.rs]: an assignment reserves a slot
    of the global window and of the window of its node, and commits it when the
    owner changed or rolls it back.  Times are the [i64] milliseconds of the
    monotonic clock. *)

From S2P Require Import Prelude Domain.

Open Scope list_scope.
Open Scope Z_scope.

Definition MAX_TRACKED_NODES : Z := 1000000.

Record RateLimitConfig := mkRateLimitConfig {
  global_per_second : Z;
  per_node_per_second : Z;
  max_tracked_nodes : Z
}.
Definition RateLimitConfig_default : RateLimitConfig := mkRateLimitConfig 1000 100 4096.

(** ** The sliding window *)

Record SlidingWindow := mkWindow {
  max_per_window : Z;
  window : Z;
  events : list Z;
  pending : Z;
  last_used : option Z
}.
Definition window_new (max_per_window window : Z) : SlidingWindow := mkWindow max_per_window window [] 0 None.

Fixpoint prune_events (window now : Z) (l : list Z) : list Z :=
  match l with
  | front :: l1 => if window <? sat_sub_i64 now front then prune_events window now l1 else l
  | [] => []
  end.
Definition window_prune (now : Z) (w : SlidingWindow) : SlidingWindow :=
  mkWindow (max_per_window w) (window w) (prune_events (window w) now (events w)) (pending w) (last_used w).

Definition window_reserve (now : Z) (w : SlidingWindow) : SlidingWindow * bool :=
  let w := window_prune now w in
  if max_per_window w <=? Z.of_nat (length (events w)) + pending w then (w, false)
  else (mkWindow (max_per_window w) (window w) (events w) (pending w + 1) (last_used w), true).
Definition window_commit (now : Z) (w : SlidingWindow) : SlidingWindow :=
  mkWindow (max_per_window w) (window w) (events w ++ [now]) (sat_sub (pending w) 1) (Some now).
Definition window_rollback (w : SlidingWindow) : SlidingWindow :=
  mkWindow (max_per_window w) (window w) (events w) (sat_sub (pending w) 1) (last_used w).
Definition window_is_active (now : Z) (w : SlidingWindow) : SlidingWindow * bool :=
  let w := window_prune now w in
  (w, negb (bool_decide (events w = [])) || (0 <? pending w)).

(** ** The limiter *)

Record RateLimiter := mkLimiter {
  global : SlidingWindow;
  per_node : gmap Uuid SlidingWindow;
  config : RateLimitConfig
}.
Definition limiter_new (c : RateLimitConfig) : RateLimiter :=
  mkLimiter (window_new (global_per_second c) 1000) ∅
    (mkRateLimitConfig (global_per_second c) (per_node_per_second c)
       (Z.min (max_tracked_nodes c) MAX_TRACKED_NODES)).

Definition limiter_reserve (now : Z) (node : Uuid) (l : RateLimiter) : RateLimiter * bool :=
  match window_reserve now (global l) with
  | (g, false) => (mkLimiter g (per_node l) (config l), false)
  | (g, true) =>
      let w := default (window_new (per_node_per_second (config l)) 1000) (per_node l !! node) in
      match window_reserve now w with
      | (w, true) => (mkLimiter g (<[node := w]> (per_node l)) (config l), true)
      | (w, false) => (mkLimiter (window_rollback g) (<[node := w]> (per_node l)) (config l), false)
      end
  end.

(** The order of [Option<DurationMs>]: [None] first. *)
Definition last_used_le (a b : Uuid * SlidingWindow) : Prop :=
  match last_used a.2, last_used b.2 with
  | None, _ => True
  | Some _, None => False
  | Some x, Some y => x <= y
  end.
#[global] Instance last_used_le_dec a b : Decision (last_used_le a b).
Proof. unfold last_used_le. repeat case_match; apply _. Defined.

(** [o] is the iteration order of the hash map, which breaks ties. *)
Definition trim_per_node (o : hash_order Uuid SlidingWindow) (now : Z) (l : RateLimiter) : RateLimiter :=
  if Z.of_nat (size (per_node l)) <=? max_tracked_nodes (config l) then l
  else
    let kept := omap (fun w => let '(w, active) := window_is_active now w in if active then Some w else None)
                  (per_node l) in
    let kept :=
      if max_tracked_nodes (config l) <? Z.of_nat (size kept) then
        let ordered := merge_sort last_used_le (ho_iter o kept) in
        let excess := Z.to_nat (Z.of_nat (size kept) - max_tracked_nodes (config l)) in
        foldr delete kept (take excess ordered).*1
      else kept in
    mkLimiter (global l) kept (config l).

Definition limiter_commit (o : hash_order Uuid SlidingWindow) (now : Z) (node : Uuid) (l : RateLimiter) : RateLimiter :=
  trim_per_node o now
    (mkLimiter (window_commit now (global l)) (alter (window_commit now) node (per_node l)) (config l)).
Definition limiter_rollback (node : Uuid) (l : RateLimiter) : RateLimiter :=
  mkLimiter (window_rollback (global l)) (alter window_rollback node (per_node l)) (config l).

(** ** Permits

    The permits that were given out, in order, each reserved at a time for a
    node.  A call holds its permit until it commits it or drops it. *)

Inductive PermitState := Reserved | Committed | RolledBack.
#[global] Instance PermitState_eq_dec : EqDecision PermitState.
Proof. solve_decision. Defined.
Record Permit := mkPermit { pm_node : Uuid; pm_now : Z; pm_state : PermitState }.

Inductive LimiterEvent :=
| Reserve (now : Z) (node : Uuid)
| Commit (permit : nat) (o : hash_order Uuid SlidingWindow)
| Drop (permit : nat).

Definition limiter_step (s : RateLimiter * list Permit) (e : LimiterEvent) : RateLimiter * list Permit :=
  let '(l, ps) := s in
  match e with
  | Reserve now node =>
      let '(l, ok) := limiter_reserve now node l in
      (l, if ok then ps ++ [mkPermit node now Reserved] else ps)
  | Commit i o =>
      match ps !! i with
      | Some (mkPermit node now Reserved) =>
          (limiter_commit o now node l, <[i := mkPermit node now Committed]> ps)
      | _ => (l, ps)
      end
  | Drop i =>
      match ps !! i with
      | Some (mkPermit node now Reserved) =>
          (limiter_rollback node l, <[i := mkPermit node now RolledBack]> ps)
      | _ => (l, ps)
      end
  end.
Definition limiter_run (c : RateLimitConfig) (es : list LimiterEvent) : RateLimiter * list Permit :=
  foldl limiter_step (limiter_new c, []) es.

(** The clock does not go back between reservations. *)
Fixpoint times_from (t : Z) (es : list LimiterEvent) : Prop :=
  match es with
  | [] => True
  | Reserve now _ :: es => t <= now /\ is_i64 now /\ times_from now es
  | _ :: es => times_from t es
  end.

(** ** The global bound *)

Definition count (P : Permit -> bool) (ps : list Permit) : Z := Z.of_nat (length (List.filter P ps)).
Definition in_window (s : Z) (p : Permit) : bool :=
  negb (bool_decide (pm_state p = RolledBack)) && (s <=? pm_now p) && (pm_now p <=? s + 1000).
Definition reserved (p : Permit) : bool := bool_decide (pm_state p = Reserved).
Definition committed_since (t : Z) (p : Permit) : bool := bool_decide (pm_state p = Committed) && (t <=? pm_now p).
Definition events_since (t : Z) (l : list Z) : Z := Z.of_nat (length (List.filter (fun e => t <=? e) l)).

(** [t] is the time of the last reservation. *)
Record limiter_inv (c : RateLimitConfig) (t : Z) (s : RateLimiter * list Permit) : Prop := {
  li_max : max_per_window (global s.1) = global_per_second c;
  li_window : window (global s.1) = 1000;
  li_pending : pending (global s.1) = count reserved s.2;
  li_times : Forall (fun p => pm_now p <= t) s.2;
  li_events : forall u, t - 1000 <= u -> count (committed_since u) s.2 <= events_since u (events (global s.1));
  li_bound : forall u, count (in_window u) s.2 <= global_per_second c
}.

Lemma count_app P ps p : count P (ps ++ [p]) = count P ps + Z.b2z (P p).
Proof. unfold count. rewrite List.filter_app, length_app. simpl. destruct (P p); simpl; lia. Qed.
Lemma count_insert P ps i p q :
  ps !! i = Some p -> count P (<[i := q]> ps) = count P ps - Z.b2z (P p) + Z.b2z (P q).
Proof.
  unfold count. revert i. induction ps as [|p1 ps IH]; intros [|i] Hi; simpl in *; [done..| |].
  - injection Hi as ->. destruct (P p), (P q); simpl; lia.
  - specialize (IH i Hi). destruct (P p1); simpl; lia.
Qed.
Lemma count_pos P ps i p : ps !! i = Some p -> P p = true -> 1 <= count P ps.
Proof.
  unfold count. revert i. induction ps as [|p1 ps IH]; intros [|i] Hi HP; simpl in *; [done..| |].
  - injection Hi as ->. rewrite HP. simpl. lia.
  - specialize (IH i Hi HP). destruct (P p1); simpl; lia.
Qed.
Lemma count_le (P Q R : Permit -> bool) ps :
  Forall (fun p => Z.b2z (P p) <= Z.b2z (Q p) + Z.b2z (R p)) ps -> count P ps <= count Q ps + count R ps.
Proof.
  unfold count. induction 1 as [|p ps Hp _ IH]; simpl; [lia|].
  destruct (P p), (Q p), (R p); simpl in *; lia.
Qed.

Lemma events_since_app u l e : events_since u (l ++ [e]) = events_since u l + Z.b2z (u <=? e).
Proof. unfold events_since. rewrite List.filter_app, length_app. simpl. destruct (u <=? e); simpl; lia. Qed.
Lemma events_since_length u l : events_since u l <= Z.of_nat (length l).
Proof. unfold events_since. pose proof (List.filter_length_le (fun e => u <=? e) l). lia. Qed.
(** Pruning removes only events that are out of every window that ends now. *)
Lemma prune_since now u l : is_i64 now -> now - 1000 <= u -> events_since u (prune_events 1000 now l) = events_since u l.
Proof.
  intros Hn Hu. induction l as [|e l IH]; simpl; [done|].
  destruct (Z.ltb_spec 1000 (sat_sub_i64 now e)); [|done]. rewrite IH. unfold events_since at 2. simpl.
  rewrite (proj2 (Z.leb_gt u e)); [done|]. unfold sat_sub_i64, is_i64, I64_MAX, I64_MIN in *. lia.
Qed.

Lemma limiter_reserve_global now node l :
  let '(l1, ok) := limiter_reserve now node l in
  max_per_window (global l1) = max_per_window (global l) /\ window (global l1) = window (global l)
  /\ events (global l1) = prune_events (window (global l)) now (events (global l))
  /\ (0 <= pending (global l) -> pending (global l1) = pending (global l) + Z.b2z ok)
  /\ (ok = true -> Z.of_nat (length (events (global l1))) + pending (global l) < max_per_window (global l)).
Proof.
  unfold limiter_reserve, window_reserve at 1. simpl.
  destruct (Z.leb_spec (max_per_window (global l))
    (Z.of_nat (length (prune_events (window (global l)) now (events (global l)))) + pending (global l))).
  - simpl. split_and!; [done..|lia|done].
  - destruct (window_reserve now _) as [w []]; simpl; split_and!; try done; try lia.
    unfold sat_sub. lia.
Qed.

Lemma trim_global o now l : global (trim_per_node o now l) = global l.
Proof. unfold trim_per_node. by destruct (_ <=? _). Qed.

Lemma in_window_split u p : Z.b2z (in_window u p) <= Z.b2z (committed_since u p) + Z.b2z (reserved p).
Proof. unfold in_window, committed_since, reserved. destruct p as [n t []]; simpl; destruct (u <=? t), (t <=? u + 1000); simpl; lia. Qed.

Lemma reserve_inv c t s now node :
  0 <= global_per_second c -> limiter_inv c t s -> t <= now -> is_i64 now ->
  limiter_inv c now (limiter_step s (Reserve now node)).
Proof.
  intros Hc [Hmax Hwin Hpend Htimes Hev Hb] Hle Hn. destruct s as [l ps]. simpl in *.
  pose proof (limiter_reserve_global now node l) as Hg. destruct (limiter_reserve now node l) as [l1 ok].
  destruct Hg as (Hm1 & Hw1 & He1 & Hp1 & Hok). rewrite Hwin in *.
  assert (0 <= pending (global l)) as Hp0 by (rewrite Hpend; unfold count; lia). specialize (Hp1 Hp0).
  assert (forall u, now - 1000 <= u -> events_since u (events (global l1)) = events_since u (events (global l))) as Hes.
  { intros u Hu. rewrite He1. by apply prune_since. }
  assert (Forall (fun p => pm_now p <= now) ps) as Ht1 by (eapply Forall_impl; [exact Htimes|]; simpl; lia).
  destruct ok; split; simpl; try congruence; try done.
  - rewrite count_app, Hp1, Hpend. simpl. lia.
  - apply Forall_app. split; [done|]. repeat constructor. simpl. lia.
  - intros u Hu. rewrite count_app, (Hes u Hu). simpl. specialize (Hev u ltac:(lia)). lia.
  - intros u. rewrite count_app. specialize (Hok eq_refl).
    destruct (in_window u (mkPermit node now Reserved)) eqn:Hin; [|simpl; specialize (Hb u); lia].
    unfold in_window in Hin. simpl in Hin. apply andb_true_iff in Hin as [_ Hin]. apply Z.leb_le in Hin.
    assert (count (in_window u) ps <= count (committed_since u) ps + count reserved ps) as Hsplit.
    { apply count_le, Forall_forall. intros p _. apply in_window_split. }
    specialize (Hev u ltac:(lia)). rewrite <-(Hes u) in Hev by lia.
    pose proof (events_since_length u (events (global l1))). simpl. lia.
  - rewrite Hp1. simpl. lia.
  - intros u Hu. rewrite (Hes u Hu). apply Hev. lia.
Qed.

Lemma settle_inv c t s e :
  limiter_inv c t s -> match e with Reserve _ _ => False | _ => True end ->
  limiter_inv c t (limiter_step s e).
Proof.
  intros Hinv He. pose proof Hinv as [Hmax Hwin Hpend Htimes Hev Hb]. destruct s as [l ps]. simpl in *.
  assert (forall i node now st, ps !! i = Some (mkPermit node now Reserved) -> pm_state st <> Reserved -> pm_now st = now ->
    sat_sub (pending (global l)) 1 = count reserved (<[i := st]> ps)
    /\ Forall (fun p => pm_now p <= t) (<[i := st]> ps)
    /\ forall u, count (in_window u) (<[i := st]> ps) <= global_per_second c) as Hset.
  { intros i node now st Hi Hst Hnow. pose proof (count_pos reserved ps i _ Hi eq_refl).
    split_and!.
    - rewrite (count_insert _ _ _ _ _ Hi), Hpend. unfold sat_sub. unfold reserved at 3 4. simpl.
      rewrite bool_decide_eq_false_2 by done. simpl. lia.
    - apply Forall_insert; [done|]. rewrite Hnow. by apply (Forall_lookup_1 _ _ _ _ Htimes Hi).
    - intros u. rewrite (count_insert _ _ _ _ _ Hi). specialize (Hb u). unfold in_window at 2 3. simpl. rewrite Hnow.
      destruct (pm_state st); simpl; destruct (_ && _); simpl; lia. }
  destruct e as [|i o|i]; [done|..]; simpl.
  - destruct (ps !! i) as [[node now []]|] eqn:Hi; try done.
    destruct (Hset i node now (mkPermit node now Committed) Hi ltac:(done) eq_refl) as (Hs1 & Hs2 & Hs3).
    unfold limiter_commit. split; cbn [fst snd]; rewrite ?trim_global; simpl; try done.
    intros u Hu. rewrite (count_insert _ _ _ _ _ Hi), events_since_app. specialize (Hev u Hu).
    unfold committed_since at 2 3. simpl. lia.
  - destruct (ps !! i) as [[node now []]|] eqn:Hi; try done.
    destruct (Hset i node now (mkPermit node now RolledBack) Hi ltac:(done) eq_refl) as (Hs1 & Hs2 & Hs3).
    split; simpl; try done.
    intros u Hu. rewrite (count_insert _ _ _ _ _ Hi). specialize (Hev u Hu).
    unfold committed_since at 2 3. simpl. lia.
Qed.

Lemma limiter_run_inv c es : forall t s,
  0 <= global_per_second c -> limiter_inv c t s -> times_from t es ->
  exists t1, limiter_inv c t1 (foldl limiter_step s es).
Proof.
  induction es as [|e es IH]; intros t s Hc Hinv Ht; [by exists t|]. simpl. destruct e as [now node|i o|i].
  - destruct Ht as (Hle & Hn & Ht). apply (IH now); [done|by apply (reserve_inv c t)|done].
  - apply (IH t); [done|by apply settle_inv|done].
  - apply (IH t); [done|by apply settle_inv|done].
Qed.

(** The global limit of device assignments.  Under every interleaving of
    reservations, commits and roll-backs of concurrent assignments, with a
    monotonic clock, the assignments that were reserved within any window of one
    second and not rolled back are at most [global_per_second], and the slots
    held are exactly the permits that are still open. *)
Theorem assignments_rate_limited c t0 es :
  0 <= global_per_second c -> times_from t0 es ->
  let '(l, permits) := limiter_run c es in
  (forall u, count (in_window u) permits <= global_per_second c)
  /\ pending (global l) = count reserved permits.
Proof.
  intros Hc Ht. destruct (limiter_run_inv c es t0 (limiter_new c, [])) as (t1 & Hinv); [done| |done|].
  - split; simpl; try done.
  - unfold limiter_run. destruct (foldl _ _ _) as [l ps]. destruct Hinv as [_ _ Hp _ _ Hb]. done.
Qed.

Lemma assignments_rate_limited_witness :
  let '(l, permits) := limiter_run (mkRateLimitConfig 2 2 4)
    [Reserve 0 7; Reserve 10 8; Reserve 20 7; Commit 0 canonical_order; Drop 1; Reserve 30 9; Reserve 40 9; Reserve 1001 9] in
  (forall u, count (in_window u) permits <= 2) /\ pending (global l) = count reserved permits.
Proof.
  apply (assignments_rate_limited (mkRateLimitConfig 2 2 4) 0); [simpl; lia|].
  simpl. unfold is_i64, I64_MIN, I64_MAX. lia.
Defined.
