(* ===== verification/Assignment.v ===== *)
(** * Assignment of devices to nodes

    [DeviceAssignmentService] ([cheetah-cluster-ownership/src/assignment.rs]) and
    the migration of devices off a draining node
    ([rolling_upgrade.rs]).  A call runs on the tables, the rate limiter and a
    world with the two clocks; it is atomic here, while concurrent calls meet in
    the statements of [Ownership] and in the permits of [AssignLimiter]. *)

From S2P Require Import Prelude RustStr Domain Paging Cluster Ownership AssignLimiter.

Open Scope string_scope.
Open Scope list_scope.
Open Scope Z_scope.

Inductive DeviceAssignmentError :=
| NoAvailableNode
| RateLimited
| AssignStorage (e : StorageError)
| AssignDomain (e : DomainError)
| AssignInvalidArgument (message : string).

Class MonotonicClock (W : Type) := now_monotonic : W -> Z * W.
(** [OffsetDateTime::now_utc()]. *)
Class SystemTime (W : Type) := now_utc : W -> UtcTimestamp * W.

(** ** Node selection *)

Definition is_owner_alive (node : ClusterNode) (protocol : string) (now : UtcTimestamp) : bool :=
  if cn_lease_until node <=? now then false
  else if negb (is_empty_str protocol) && negb (bool_decide (is_Some (cn_contract_versions node !! protocol))) then false
  else true.
Definition is_eligible (node : ClusterNode) (protocol : string) (now : UtcTimestamp) : bool :=
  if negb (is_owner_alive node protocol now) then false
  else if cn_draining node then false
  else if max_devices (cn_capacity node) <=? load_devices (cn_load node) then false
  else true.

(** The bytes of a UUID, most significant first, and FNV-1a over those of the
    device and of the node. *)
Definition uuid_bytes (u : Uuid) : list Z :=
  map (fun i => Z.shiftr u (8 * Z.of_nat (15 - i)) mod 256) (seq 0 16).
Definition fnv_step (hash byte : Z) : Z := wrap64 (Z.lxor hash byte * 1099511628211).
Definition hash_score (device node : Uuid) : Z :=
  foldl fnv_step (foldl fnv_step 14695981039346656037 (uuid_bytes device)) (uuid_bytes node).

#[global] Opaque hash_score.

(** The order of [sort_by]: the score, then the node identifier. *)
Definition score_le (a b : Z * ClusterNode) : Prop :=
  a.1 < b.1 \/ (a.1 = b.1 /\ cn_node_id a.2 <= cn_node_id b.2).
#[global] Instance score_le_dec a b : Decision (score_le a b).
Proof. unfold score_le. apply _. Defined.

(** The loop over the pages of alive nodes. *)
Definition alive_nodes (db : Db) (now : UtcTimestamp) : result (list ClusterNode) DeviceAssignmentError :=
  match PageRequest_new MAX_PAGE_SIZE with
  | Err m => Err (AssignInvalidArgument m)
  | Ok req =>
      match collect_pages (S (size (cluster_nodes db)))
              (fun c => list_alive db now (mkPageRequest c (page_size req))) None with
      | Some nodes => Ok nodes
      | None => Err NoAvailableNode
      end
  end.
Definition prefer_zone (preferred_zone : option string) (candidates : list ClusterNode) : list ClusterNode :=
  match preferred_zone with
  | Some zone =>
      match filter (fun n => cn_zone n = zone) candidates with
      | [] => candidates
      | preferred => preferred
      end
  | None => candidates
  end.
Definition select_node (db : Db) (device : Uuid) (protocol : string) (preferred_zone : option string)
    (now : UtcTimestamp) : result ClusterNode DeviceAssignmentError :=
  let? alive := alive_nodes db now in
  let candidates := prefer_zone preferred_zone (filter (fun n => is_eligible n protocol now = true) alive) in
  match merge_sort score_le (map (fun n => (hash_score device (cn_node_id n), n)) candidates) with
  | [] => Err NoAvailableNode
  | (_, candidate) :: _ => Ok candidate
  end.

(** ** Assignment *)

Record AssignState (W : Type) := mkAssign { as_db : Db; as_limiter : RateLimiter; as_world : W }.
Arguments mkAssign {W}. Arguments as_db {W}. Arguments as_limiter {W}. Arguments as_world {W}.

Section Assign.
Context {W : Type} `{Clock W} `{MonotonicClock W} `{SystemTime W} `{DateRange} `{DbMessages} `{UuidDisplay}.
Context (lease_duration : Z) (o : hash_order Uuid SlidingWindow).

(** The current owner is kept. *)
Definition owner_holds (db : Db) (owner : OwnerInfo) (protocol : string) (now : UtcTimestamp) : bool :=
  match oi_lease_until owner with Some lease => now <? lease | None => true end
  && match node_get db (oi_node_id owner) with
     | Some node => is_owner_alive node protocol now
     | None => false
     end.

Definition owner_changed (previous : option OwnerInfo) (owner : OwnerInfo) : bool :=
  match previous with
  | Some p => negb (bool_decide (oi_node_id p = oi_node_id owner)) || negb (bool_decide (oi_epoch p = oi_epoch owner))
  | None => true
  end.

(** The part of [assign] after the fast path. *)
Definition assign_new (db : Db) (limiter : RateLimiter) (w : W) (now lease_until : UtcTimestamp)
    (maybe_owner : option OwnerInfo) (tenant device : Uuid) (protocol : string) (preferred_zone : option string) :
    AssignState W * result OwnerInfo DeviceAssignmentError :=
  match select_node db device protocol preferred_zone now with
  | Err e => (mkAssign db limiter w, Err e)
  | Ok candidate =>
      let '(now_mono, w) := now_monotonic w in
      let node := cn_node_id candidate in
      match limiter_reserve now_mono node limiter with
      | (limiter, false) => (mkAssign db limiter w, Err RateLimited)
      | (limiter, true) =>
          match owner_acquire db tenant device node now lease_until with
          | (db, Ok owner) =>
              (mkAssign db (if owner_changed maybe_owner owner then limiter_commit o now_mono node limiter
                            else limiter_rollback node limiter) w, Ok owner)
          | (db, Err (StUnavailable _)) =>
              (mkAssign db (limiter_rollback node limiter) w,
               match owner_get db tenant device with
               | Some owner => Ok owner
               | None => Err NoAvailableNode
               end)
          | (db, Err e) => (mkAssign db (limiter_rollback node limiter) w, Err (AssignStorage e))
          end
      end
  end.

Definition assign (s : AssignState W) (tenant device : Uuid) (protocol : string) (preferred_zone : option string) :
    AssignState W * result OwnerInfo DeviceAssignmentError :=
  let db := as_db s in
  let '(now, w) := now_wall (as_world s) in
  match ts_checked_add now lease_duration with
  | None => (mkAssign db (as_limiter s) w, Err (AssignDomain (internal "owner lease overflow")))
  | Some lease_until =>
      let maybe_owner := owner_get db tenant device in
      let slow := assign_new db (as_limiter s) w now lease_until maybe_owner tenant device protocol preferred_zone in
      match maybe_owner with
      | Some owner => if owner_holds db owner protocol now then (mkAssign db (as_limiter s) w, Ok owner) else slow
      | None => slow
      end
  end.

(** ** Migration off a draining node *)

Inductive RollingUpgradeError :=
| NodeNotFound (node : string)
| NotDraining (node : string)
| Fenced (node : string)
| UpgradeAssignment (e : DeviceAssignmentError)
| UpgradeStorage (e : StorageError)
| UpgradeLookup (message : string)
| UpgradeInvalidArgument (message : string).

(** The owner is restored with the system time; an error of the restoration is
    only logged. *)
Definition restore_owner (s : AssignState W) (tenant device : Uuid) (previous : option OwnerInfo) : AssignState W :=
  match previous with
  | Some owner =>
      let '(utc, w) := now_utc (as_world s) in
      mkAssign (match owner_set (as_db s) utc tenant device owner with Ok db => db | Err _ => as_db s end)
        (as_limiter s) w
  | None => s
  end.
Definition migrate_device (s : AssignState W) (tenant device : Uuid) (protocol : string)
    (from_node : Uuid) : AssignState W * result OwnerInfo RollingUpgradeError :=
  match node_get (as_db s) from_node with
  | None => (s, Err (NodeNotFound (uuid_to_string from_node)))
  | Some node =>
      if negb (cn_draining node) then (s, Err (NotDraining (uuid_to_string from_node)))
      else
        let migrate previous db :=
          match assign (mkAssign db (as_limiter s) (as_world s)) tenant device protocol None with
          | (s, Ok owner) => (s, Ok owner)
          | (s, Err e) => (restore_owner s tenant device previous, Err (UpgradeAssignment e))
          end in
        match owner_get (as_db s) tenant device with
        | Some owner =>
            if decide (oi_node_id owner <> from_node) then (s, Ok owner)
            else migrate (Some owner) (owner_clear (as_db s) tenant device)
        | None => migrate None (as_db s)
        end
  end.

(** [DeviceProtocolLookup::protocol_for]. *)
Class DeviceProtocolLookup := protocol_for : Uuid -> Uuid -> result (option string) RollingUpgradeError.

Record DrainReport := mkReport { migrated : Z; failed : Z; skipped : Z; truncated : bool }.

(** The loop over the devices of a page: the devices attempted, the report, and
    whether the limit was hit. *)
Fixpoint drain_items `{DeviceProtocolLookup} (max_devices : Z) (node : Uuid) (l : list OwnedDevice)
    (s : AssignState W) (attempted : gset (Uuid * Uuid)) (processed : Z) (r : DrainReport) :
    AssignState W * gset (Uuid * Uuid) * Z * DrainReport * bool :=
  match l with
  | [] => (s, attempted, processed, r, false)
  | od :: l =>
      if max_devices <=? processed then
        (s, attempted, processed, mkReport (migrated r) (failed r) (skipped r) true, true)
      else
        let key := (od_tenant_id od, od_device_id od) in
        if decide (key ∈ attempted) then drain_items max_devices node l s attempted processed r
        else
          let attempted := attempted ∪ {[key]} in
          let processed := processed + 1 in
          match protocol_for (od_tenant_id od) (od_device_id od) with
          | Ok (Some protocol) =>
              match migrate_device s (od_tenant_id od) (od_device_id od) protocol node with
              | (s, Ok _) => drain_items max_devices node l s attempted processed
                               (mkReport (migrated r + 1) (failed r) (skipped r) (truncated r))
              | (s, Err _) => drain_items max_devices node l s attempted processed
                                (mkReport (migrated r) (failed r + 1) (skipped r) (truncated r))
              end
          | Ok None => drain_items max_devices node l s attempted processed
                         (mkReport (migrated r) (failed r) (skipped r + 1) (truncated r))
          | Err _ => drain_items max_devices node l s attempted processed
                       (mkReport (migrated r) (failed r + 1) (skipped r) (truncated r))
          end
  end.

(** ['drain: loop]; [None] when the fuel does not suffice. *)
Fixpoint drain_pages `{DeviceProtocolLookup} (fuel : nat) (batch_size max_devices : Z) (node : Uuid)
    (cursor : option Cursor) (s : AssignState W) (attempted : gset (Uuid * Uuid)) (processed : Z) (r : DrainReport) :
    option (AssignState W * DrainReport) :=
  match fuel with
  | O => None
  | S fuel =>
      let page := list_by_node (as_db s) node (mkPageRequest cursor batch_size) in
      let '(s, attempted, processed, r, stop) :=
        drain_items max_devices node (items page) s attempted processed r in
      if stop then Some (s, r)
      else match next_cursor page with
           | None => Some (s, r)
           | Some c => drain_pages fuel batch_size max_devices node (Some c) s attempted processed r
           end
  end.

(** [drain_node] of a service with [batch_size] and [max_devices] as its
    constructor leaves them.  A page is followed by another only if it had a
    device, and a device is listed at most twice. *)
Definition drain_node `{DeviceProtocolLookup} (batch_size max_devices : Z)
    (s : AssignState W) (node : Uuid) : option (AssignState W * result DrainReport RollingUpgradeError) :=
  let batch_size := Z.max 1 (Z.min MAX_PAGE_SIZE batch_size) in
  let max_devices := Z.max 1 max_devices in
  let '(now, w) := now_wall (as_world s) in
  match node_get (as_db s) node with
  | None => Some (mkAssign (as_db s) (as_limiter s) w, Err (NodeNotFound (uuid_to_string node)))
  | Some n =>
      match node_mark_draining (as_db s) node (cn_instance_id n) now with
      | (db, false) => Some (mkAssign db (as_limiter s) w, Err (Fenced (uuid_to_string node)))
      | (db, true) =>
          match PageRequest_new batch_size with
          | Err m => Some (mkAssign db (as_limiter s) w, Err (UpgradeInvalidArgument m))
          | Ok _ =>
              sr ← drain_pages (S (2 * size (device_owners db))) batch_size max_devices node None (mkAssign db (as_limiter s) w) ∅ 0
                     (mkReport 0 0 0 false);
              Some (sr.1, Ok sr.2)
          end
      end
  end.
End Assign.

(** ** Selection *)

Definition nodes_keyed (db : Db) : Prop := forall k n, cluster_nodes db !! k = Some n -> cn_node_id n = k.

Lemma alive_nodes_ok db now :
  nodes_keyed db ->
  exists alive, alive_nodes db now = Ok alive
    /\ forall n, n ∈ alive <-> now < cn_lease_until n /\ exists k, cluster_nodes db !! k = Some n.
Proof.
  intros Hkeyed. change (alive_nodes db now) with
    (match collect_pages (S (size (cluster_nodes db)))
             (fun c => list_alive db now (mkPageRequest c MAX_PAGE_SIZE)) None with
     | Some nodes => Ok nodes | None => Err NoAvailableNode end : result _ DeviceAssignmentError).
  set (rows := filter (fun n => now < cn_lease_until n) (map_to_list (cluster_nodes db)).*2).
  assert (NoDup ((fun n => (cn_updated_at n, cn_node_id n)) <$> rows)) as Hn.
  { apply (NoDup_fmap_1 snd). rewrite <-list_fmap_compose.
    eapply sublist_NoDup; [|apply fmap_sublist, sublist_filter].
    assert (forall l : list (Uuid * ClusterNode), (forall kn, kn ∈ l -> cn_node_id kn.2 = kn.1) ->
      (snd ∘ (fun n => (cn_updated_at n, cn_node_id n))) <$> l.*2 = l.*1) as Hk.
    { intros l Hl. rewrite <-list_fmap_compose. apply list_fmap_ext. intros i kn Hi. simpl.
      apply Hl. by eapply list_elem_of_lookup_2. }
    rewrite Hk; [apply NoDup_fst_map_to_list|]. intros [k n] Hin%elem_of_map_to_list. by apply Hkeyed. }
  assert (length rows <= size (cluster_nodes db))%nat as Hlen.
  { unfold rows. etrans; [apply length_filter|]. by rewrite length_fmap, length_map_to_list. }
  assert (collect_pages (S (size (cluster_nodes db)))
    (fun c => list_alive db now (mkPageRequest c MAX_PAGE_SIZE)) None
    = Some (sorted_rows (fun n => (cn_updated_at n, cn_node_id n)) rows)) as ->.
  { apply collect_pages_all; [done|lia]. }
  eexists. split; [done|]. intros n. rewrite sorted_rows_perm. unfold rows.
  rewrite list_elem_of_filter, list_elem_of_fmap. split.
  - intros [Hl ([k n1] & -> & Hin)]. apply elem_of_map_to_list in Hin. eauto.
  - intros [Hl [k Hk]]. split; [done|]. exists (k, n). split; [done|]. by apply elem_of_map_to_list.
Qed.

(** The nodes among which the device is placed. *)
Definition candidate (db : Db) (protocol : string) (zone : option string) (now : UtcTimestamp) (n : ClusterNode) : Prop :=
  let member n := (exists k, cluster_nodes db !! k = Some n) /\ is_eligible n protocol now = true in
  member n /\ match zone with
              | Some z => cn_zone n = z \/ ~ exists n1, member n1 /\ cn_zone n1 = z
              | None => True
              end.

Lemma eligible_alive n protocol now : is_eligible n protocol now = true -> now < cn_lease_until n.
Proof. unfold is_eligible, is_owner_alive. repeat case_match; intros; simplify_eq/=; lia. Qed.

Definition scored (device : Uuid) (n : ClusterNode) : Z * ClusterNode := (hash_score device (cn_node_id n), n).

#[local] Instance score_le_total : Total score_le.
Proof. intros a b. unfold score_le. destruct (Ztrichotomy a.1 b.1) as [|[|]]; lia. Qed.
#[local] Instance score_le_trans : Transitive score_le.
Proof. intros a b c. unfold score_le. lia. Qed.

Lemma merge_sort_head {A} (R : relation A) `{forall x y, Decision (R x y)} `{!Total R} `{!Transitive R} (l : list A) :
  match merge_sort R l with
  | [] => l = []
  | x :: _ => x ∈ l /\ forall y, y ∈ l -> R x y
  end.
Proof.
  pose proof (merge_sort_Permutation R l) as Hp. pose proof (StronglySorted_merge_sort R l) as Hs.
  destruct (merge_sort R l) as [|x l1].
  - by apply Permutation_nil_l in Hp.
  - split; [rewrite <-Hp; left|]. intros y Hy. rewrite <-Hp in Hy. apply StronglySorted_cons in Hs as [Hall _].
    apply elem_of_cons in Hy as [->|Hy].
    + by destruct (total R x x).
    + rewrite Forall_forall in Hall. auto.
Qed.

Lemma prefer_zone_elem zone l n :
  n ∈ prefer_zone zone l
  <-> n ∈ l /\ match zone with
               | Some z => cn_zone n = z \/ ~ exists n1, n1 ∈ l /\ cn_zone n1 = z
               | None => True
               end.
Proof.
  unfold prefer_zone. destruct zone as [z|]; [|naive_solver].
  destruct (filter _ l) as [|x l1] eqn:Hf.
  - assert (~ exists n1, n1 ∈ l /\ cn_zone n1 = z) as Hno.
    { intros (n1 & Hin & Hz). assert (n1 ∈ filter (fun n => cn_zone n = z) l) as Hi by (by apply list_elem_of_filter).
      rewrite Hf in Hi. by apply elem_of_nil in Hi. }
    naive_solver.
  - rewrite <-Hf, list_elem_of_filter. split; [naive_solver|]. intros [Hin [Hz|Hno]]; [done|]. destruct Hno.
    assert (x ∈ filter (fun n => cn_zone n = z) l) as Hx by (rewrite Hf; left).
    apply list_elem_of_filter in Hx as [? ?]. eauto.
Qed.

Lemma select_node_min db device protocol zone now :
  nodes_keyed db ->
  match select_node db device protocol zone now with
  | Ok n => candidate db protocol zone now n
            /\ forall n1, candidate db protocol zone now n1 -> score_le (scored device n) (scored device n1)
  | Err e => e = NoAvailableNode /\ forall n, ~ candidate db protocol zone now n
  end.
Proof.
  intros Hk. unfold select_node. destruct (alive_nodes_ok db now Hk) as (alive & -> & Hal). simpl.
  set (cands := prefer_zone zone (filter (fun n => is_eligible n protocol now = true) alive)).
  assert (forall n, n ∈ filter (fun n => is_eligible n protocol now = true) alive
    <-> (exists k, cluster_nodes db !! k = Some n) /\ is_eligible n protocol now = true) as Hel.
  { intros n. rewrite list_elem_of_filter, Hal. split; [naive_solver|]. intros [Hm He].
    pose proof (eligible_alive n protocol now He). naive_solver. }
  assert (forall n, n ∈ cands <-> candidate db protocol zone now n) as Hc.
  { intros n. unfold cands, candidate. rewrite prefer_zone_elem, Hel. destruct zone as [z|]; [|done].
    assert ((exists n1, n1 ∈ filter (fun n => is_eligible n protocol now = true) alive /\ cn_zone n1 = z)
      <-> exists n1, ((exists k, cluster_nodes db !! k = Some n1) /\ is_eligible n1 protocol now = true) /\ cn_zone n1 = z) as ->;
      [|done]. split; intros (n1 & Hn1 & Hz); exists n1; (split; [by apply Hel|done]). }
  pose proof (merge_sort_head score_le (map (fun n => (hash_score device (cn_node_id n), n)) cands)) as Hh.
  destruct (merge_sort score_le _) as [|[sc n] l].
  - split; [done|]. intros n Hn%Hc. apply map_eq_nil in Hh. rewrite Hh in Hn. by apply elem_of_nil in Hn.
  - destruct Hh as [Hin Hmin]. apply list_elem_of_fmap in Hin as (n1 & [= -> ->] & Hin).
    split; [by apply Hc|]. intros n2 Hn2%Hc. apply (Hmin (scored device n2)).
    apply list_elem_of_fmap. by exists n2.
Qed.

Lemma candidate_id db protocol zone now n1 n2 :
  nodes_keyed db -> candidate db protocol zone now n1 -> candidate db protocol zone now n2 ->
  cn_node_id n1 = cn_node_id n2 -> n1 = n2.
Proof.
  intros Hk [[[k1 H1] _] _] [[[k2 H2] _] _] He. rewrite (Hk _ _ H1), (Hk _ _ H2) in He. congruence.
Qed.

Lemma select_node_unique db device protocol zone now n :
  nodes_keyed db -> candidate db protocol zone now n ->
  (forall n1, candidate db protocol zone now n1 -> score_le (scored device n) (scored device n1)) ->
  select_node db device protocol zone now = Ok n.
Proof.
  intros Hk Hn Hmin. pose proof (select_node_min db device protocol zone now Hk) as Hs.
  destruct (select_node _ _ _ _ _) as [n1|e].
  - destruct Hs as [Hn1 Hmin1]. f_equal. apply (candidate_id db protocol zone now); [done..|].
    specialize (Hmin n1 Hn1). specialize (Hmin1 n Hn). unfold score_le, scored in *. cbn [fst snd] in *.
    revert Hmin Hmin1. generalize (hash_score device (cn_node_id n)), (hash_score device (cn_node_id n1)). lia.
  - destruct Hs as [_ Hno]. by destruct (Hno n).
Qed.

(** Rendezvous placement.  The assignment service picks, over all pages of
    the node table, the eligible node (of the preferred zone when that has one)
    with the least FNV-1a score for the device, and reports that no node is
    available exactly when there is none.  The choice is stable: when candidates
    disappear but the chosen node stays, or other candidates come back that were
    there before, the device stays where it is. *)
Theorem select_node_rendezvous db device protocol zone now :
  nodes_keyed db ->
  match select_node db device protocol zone now with
  | Ok n =>
      candidate db protocol zone now n
      /\ (forall n1, candidate db protocol zone now n1 -> score_le (scored device n) (scored device n1))
      /\ forall db2, nodes_keyed db2 -> candidate db2 protocol zone now n ->
           (forall n1, candidate db2 protocol zone now n1 -> candidate db protocol zone now n1) ->
           select_node db2 device protocol zone now = Ok n
  | Err e => e = NoAvailableNode /\ forall n, ~ candidate db protocol zone now n
  end.
Proof.
  intros Hk. pose proof (select_node_min db device protocol zone now Hk) as Hs.
  destruct (select_node _ _ _ _ _) as [n|e]; [|done]. destruct Hs as [Hn Hmin]. split_and!; [done..|].
  intros db2 Hk2 Hn2 Hsub. apply select_node_unique; auto.
Qed.

(** ** Assignment *)

Section AssignSpec.
Context {W : Type} `{Clock W} `{MonotonicClock W} `{SystemTime W} `{DateRange} `{DbMessages} `{UuidDisplay}.
Context (lease_duration : Z) (o : hash_order Uuid SlidingWindow).

(** Only the row of one device differs. *)
Definition only_device (device : Uuid) (db db1 : Db) : Prop :=
  cluster_nodes db1 = cluster_nodes db /\ devices db1 = devices db
  /\ forall d, d <> device -> device_owners db1 !! d = device_owners db !! d.
#[global] Instance only_device_refl device : Reflexive (only_device device).
Proof. by intros db. Qed.
#[global] Instance only_device_trans device : Transitive (only_device device).
Proof.
  intros db1 db2 db3 (H11 & H12 & H13) (H21 & H22 & H23). split_and!; [congruence..|].
  intros d Hd. rewrite H23, H13; done.
Qed.

Lemma set_owners_only device f db :
  (forall d, d <> device -> f (device_owners db) !! d = device_owners db !! d) -> only_device device db (set_owners f db).
Proof. by intros Hf. Qed.

(** [owner_acquire] on every branch. *)
Lemma owner_acquire_cases db tenant device node now lease_until :
  let '(db1, r) := owner_acquire db tenant device node now lease_until in
  only_device device db db1
  /\ match r with
     | Ok owner =>
         owner_get db1 tenant device = Some owner /\ oi_node_id owner = node
         /\ (device_owners db !! device = None -> oi_epoch owner = 1)
         /\ (exists r, device_owners db1 !! device = Some r /\ or_owner_node_id r = node)
     | Err e => db1 = db /\ (device_owners db !! device = None -> e = sqlx_backend ForeignKeyViolation)
     end.
Proof.
  unfold owner_acquire. destruct (upsert_owner true db tenant device node now lease_until) as [[db1 row]|e] eqn:Hu.
  - pose proof (upsert_row _ _ _ _ _ _ _ _ _ Hu) as [Hn [[-> ->]|(epoch & Ho & -> & Hrow)]].
    + assert (device_owners db !! device = None -> False) as Hnone.
      { intros Hd. unfold upsert_owner in Hu. rewrite Hd in Hu. by destruct (decide _). }
      unfold owner_get, select_owner. destruct (device_owners db !! device) as [r|] eqn:Hr; [|done].
      destruct (decide (or_tenant_id r = tenant)); [|by split].
      destruct (decide (or_owner_node_id r = node)); [|by split].
      split; [done|]. split_and!; try done. by exists r.
    + assert (devices db1 = devices db) as Hdev.
      { unfold upsert_owner in Hu. repeat case_match; simplify_eq; done. }
      split.
      * split_and!; [done..|]. intros d Hd. by rewrite Ho, lookup_insert_ne.
      * unfold owner_get, select_owner. rewrite Ho, lookup_insert_eq. simpl. rewrite !decide_True by done.
        split_and!; [done..| |eauto]. intros Hd. rewrite Hd in Hrow. by subst epoch.
  - split; [done|]. split; [done|]. intros Hd. unfold upsert_owner in Hu. rewrite Hd in Hu.
    destruct (decide _); [done|]. by simplify_eq.
Qed.

Lemma sqlx_backend_not_unavailable e m : sqlx_backend e <> StUnavailable m.
Proof. done. Qed.

(** What an assignment does beyond the fast path. *)
Lemma assign_new_cases db limiter w now lease_until maybe tenant device protocol zone :
  let '(s1, r) := assign_new o db limiter w now lease_until maybe tenant device protocol zone in
  only_device device db (as_db s1)
  /\ match r with
     | Ok owner =>
         owner_get (as_db s1) tenant device = Some owner
         /\ ((exists n, select_node db device protocol zone now = Ok n /\ oi_node_id owner = cn_node_id n
                /\ (device_owners db !! device = None -> oi_epoch owner = 1)
                /\ (exists r, device_owners (as_db s1) !! device = Some r /\ or_owner_node_id r = cn_node_id n))
             \/ (as_db s1 = db /\ device_owners db !! device <> None))
     | Err _ => as_db s1 = db
     end.
Proof.
  unfold assign_new. destruct (select_node db device protocol zone now) as [n|e]; [|done].
  destruct (now_monotonic w) as [mono w1]. destruct (limiter_reserve mono (cn_node_id n) limiter) as [lim []]; [|done].
  pose proof (owner_acquire_cases db tenant device (cn_node_id n) now lease_until) as Ha.
  destruct (owner_acquire db tenant device (cn_node_id n) now lease_until) as [db1 [owner|e]].
  - destruct Ha as (Hod & Hget & Hn & Hep & Hr). simpl. split; [done|]. split; [done|]. left. eauto 8.
  - destruct Ha as (Hod & -> & Hnone). destruct e; simpl; try done.
    destruct (owner_get db tenant device) as [owner|] eqn:Hget; [|done].
    split; [done|]. split; [done|]. right. split; [done|]. intros Hd. specialize (Hnone Hd). done.
Qed.

(** What an assignment does to the tables, and whom it names. *)
Lemma assign_cases s tenant device protocol zone :
  let '(s1, r) := assign lease_duration o s tenant device protocol zone in
  let now := (now_wall (as_world s)).1 in
  only_device device (as_db s) (as_db s1)
  /\ match r with
     | Ok owner =>
         owner_get (as_db s1) tenant device = Some owner
         /\ ((as_db s1 = as_db s /\ device_owners (as_db s) !! device <> None)
             \/ exists n, select_node (as_db s) device protocol zone now = Ok n /\ oi_node_id owner = cn_node_id n
                  /\ (device_owners (as_db s) !! device = None -> oi_epoch owner = 1)
                  /\ (exists r, device_owners (as_db s1) !! device = Some r /\ or_owner_node_id r = cn_node_id n))
     | Err _ => as_db s1 = as_db s
     end.
Proof.
  unfold assign. destruct (now_wall (as_world s)) as [now w]. simpl.
  destruct (ts_checked_add now lease_duration) as [until|]; [|done].
  pose proof (assign_new_cases (as_db s) (as_limiter s) w now until (owner_get (as_db s) tenant device)
    tenant device protocol zone) as Hn.
  destruct (assign_new o (as_db s) _ _ _ _ _ _ _ _ _) as [s1 r].
  assert (match r with Ok owner => _ | Err _ => as_db s1 = as_db s end) as Hr by (destruct Hn as [_ Hr]; exact Hr).
  destruct (owner_get (as_db s) tenant device) as [owner|] eqn:Hget.
  - destruct (owner_holds (as_db s) owner protocol now).
    + simpl. split; [done|]. split; [done|]. left. split; [done|]. intros Hd.
      unfold owner_get, select_owner in Hget. by rewrite Hd in Hget.
    + split; [apply Hn|]. destruct r as [ow|]; [|done]. destruct Hr as [Hg [Hr|Hr]]; auto.
  - split; [apply Hn|]. destruct r as [ow|]; [|done]. destruct Hr as [Hg [Hr|Hr]]; auto.
Qed.
End AssignSpec.

(** [DeviceAssignmentService::assign].  A valid owner on a node that is alive
    for the protocol is kept, without any effect.  In every case the call changes
    at most the record of this device, an error changes no record, and the owner
    that it returns is the one the table shows afterwards: either the owner that
    was there, or the eligible node that the rendezvous chose. *)
Theorem assign_spec `{Clock W} `{MonotonicClock W} `{SystemTime W} `{DateRange} `{DbMessages}
    lease_duration o (s : AssignState W) tenant device protocol zone s1 r :
  nodes_keyed (as_db s) -> assign lease_duration o s tenant device protocol zone = (s1, r) ->
  let now := (now_wall (as_world s)).1 in
  only_device device (as_db s) (as_db s1)
  /\ match r with
     | Ok owner =>
         owner_get (as_db s1) tenant device = Some owner
         /\ (as_db s1 = as_db s
             \/ exists n, select_node (as_db s) device protocol zone now = Ok n
                  /\ candidate (as_db s) protocol zone now n /\ oi_node_id owner = cn_node_id n)
     | Err _ => as_db s1 = as_db s
     end
  /\ forall owner, is_Some (ts_checked_add now lease_duration) ->
       owner_get (as_db s) tenant device = Some owner -> owner_holds (as_db s) owner protocol now = true ->
       r = Ok owner /\ as_db s1 = as_db s /\ as_limiter s1 = as_limiter s.
Proof.
  intros Hk Ha now. pose proof (assign_cases lease_duration o s tenant device protocol zone) as Hc.
  rewrite Ha in Hc. fold now in Hc. destruct Hc as [Hod Hr]. split_and!; [done| |].
  - destruct r as [owner|]; [|done]. destruct Hr as [Hg [[Hdb _]|(n & Hs & Hn & _)]]; [auto|].
    split; [done|]. right. exists n. pose proof (select_node_min (as_db s) device protocol zone now Hk) as Hm.
    rewrite Hs in Hm. by destruct Hm.
  - intros owner [until Hu] Hget Hh. unfold assign in Ha. subst now.
    destruct (now_wall (as_world s)) as [now w]. simpl in *. rewrite Hu, Hget, Hh in Ha. by simplify_eq/=.
Qed.

(** ** Migration *)

Section Migration.
Context {W : Type} `{Clock W} `{MonotonicClock W} `{SystemTime W} `{DateRange} `{DbMessages} `{UuidDisplay}.
Context (lease_duration : Z) (o : hash_order Uuid SlidingWindow).

Lemma selected_not_draining db device protocol zone now n from nf :
  nodes_keyed db -> select_node db device protocol zone now = Ok n ->
  node_get db from = Some nf -> cn_draining nf = true -> cn_node_id n <> from.
Proof.
  intros Hk Hs Hf Hd He. pose proof (select_node_min db device protocol zone now Hk) as Hm. rewrite Hs in Hm.
  destruct Hm as [[[[k Hkn] Hel] _] _]. rewrite (Hk _ _ Hkn) in He. subst k. unfold node_get in Hf.
  rewrite Hf in Hkn. simplify_eq. unfold is_eligible in Hel. rewrite Hd in Hel. by destruct (negb _).
Qed.

Lemma as_i64_u64 e : as_u64 (as_i64 (as_u64 e)) = as_u64 e.
Proof.
  unfold as_u64, as_i64, wrap64. destruct (_ <=? _); [by rewrite Z.mod_mod|].
  rewrite <-Zminus_mod_idemp_r, Z_mod_same_full, Z.sub_0_r. by rewrite Z.mod_mod.
Qed.

Lemma clear_row db tenant device owner :
  owner_get db tenant device = Some owner ->
  device_owners (owner_clear db tenant device) !! device = None
  /\ only_device device db (owner_clear db tenant device)
  /\ exists r, device_owners db !! device = Some r /\ or_tenant_id r = tenant /\ row_owner r = owner.
Proof.
  unfold owner_get, owner_clear, select_owner. destruct (device_owners db !! device) as [r|]; [|done].
  destruct (decide _) as [Ht|]; [|done]. simpl. intros [= <-]. split_and!; [apply lookup_delete_eq | |eauto].
  apply set_owners_only. intros d Hd. by rewrite lookup_delete_ne.
Qed.

Lemma restore_row (s : AssignState W) tenant device owner :
  (tenant, device) ∈ devices (as_db s) ->
  owner_get (as_db (restore_owner s tenant device (Some owner))) tenant device
    = Some (mkOwner (oi_node_id owner) (as_u64 (as_i64 (oi_epoch owner))) (oi_lease_until owner)).
Proof.
  intros Hd. unfold restore_owner, owner_set. destruct (now_utc _) as [utc w]. rewrite decide_True by done. simpl.
  unfold owner_get, select_owner. simpl. by rewrite lookup_insert_eq, decide_True.
Qed.
Lemma restore_only (s : AssignState W) tenant device previous :
  only_device device (as_db s) (as_db (restore_owner s tenant device previous)).
Proof.
  unfold restore_owner, owner_set. destruct previous as [owner|]; [|done]. destruct (now_utc _) as [utc w].
  destruct (decide _); [|done]. apply set_owners_only. intros d Hd. by rewrite lookup_insert_ne.
Qed.

Lemma migrate_device_cases s tenant device protocol from nf s1 r :
  nodes_keyed (as_db s) -> node_get (as_db s) from = Some nf -> cn_draining nf = true ->
  migrate_device lease_duration o s tenant device protocol from = (s1, r) ->
  only_device device (as_db s) (as_db s1)
  /\ (forall row, device_owners (as_db s1) !! device = Some row -> or_owner_node_id row = from ->
        exists row0, device_owners (as_db s) !! device = Some row0 /\ or_owner_node_id row0 = from
          /\ or_tenant_id row0 = or_tenant_id row)
  /\ match r with
     | Ok owner =>
         oi_node_id owner <> from /\ owner_get (as_db s1) tenant device = Some owner
         /\ (forall p, owner_get (as_db s) tenant device = Some p -> oi_node_id p = from -> oi_epoch owner = 1)
     | Err _ =>
         (tenant, device) ∈ devices (as_db s) ->
         owner_get (as_db s1) tenant device = owner_get (as_db s) tenant device
     end.
Proof.
  intros Hk Hf Hd. unfold migrate_device. rewrite Hf, Hd. simpl.
  destruct (owner_get (as_db s) tenant device) as [p|] eqn:Hget.
  - destruct (decide (oi_node_id p <> from)) as [Hne|He].
    { intros [= <- <-]. split_and!; [done|eauto|done..|]. intros p1 [= ->]. done. }
    apply dec_stable in He. destruct (clear_row _ _ _ _ Hget) as (Hnone & Hod & row0 & Hrow0 & Ht0 & Hown0).
    set (s0 := mkAssign (owner_clear (as_db s) tenant device) (as_limiter s) (as_world s)).
    pose proof (assign_cases lease_duration o s0 tenant device protocol None) as Hc.
    destruct (assign lease_duration o s0 tenant device protocol None) as [s2 [owner|e]]; intros [= <- <-].
    + destruct Hc as (Hod2 & Hg2 & Hcase). split; [by etrans|].
      destruct Hcase as [[_ Hsome]|(n & Hs & Hn & Hep & row & Hrow & Hrn)]; [done|].
      assert (cn_node_id n <> from) as Hnf.
      { eapply (selected_not_draining (as_db s0)); [|exact Hs| |exact Hd].
        - intros k n1 Hk1. apply Hk. by rewrite <-(proj1 Hod).
        - unfold node_get. cbn. by rewrite (proj1 Hod). }
      split_and!; [|congruence|done|auto]. intros row1 Hrow1 Hr1. destruct Hnf. congruence.
    + destruct Hc as (Hod2 & Hdb2). pose proof (restore_only s2 tenant device (Some p)) as Hod3.
      split; [by do 2 (etrans; [done|])|]. split.
      * intros row Hrow Hr. exists row0. split_and!; [done| |].
        -- rewrite <-He, <-Hown0. done.
        -- revert Hrow. unfold restore_owner, owner_set. destruct (now_utc _) as [utc w]. simpl.
           destruct (decide _); simpl; [rewrite lookup_insert_eq; intros [= <-]; done|].
           rewrite Hdb2. simpl. by rewrite Hnone.
      * intros Hdev. etrans; [apply (restore_row s2); rewrite Hdb2; cbn; by rewrite (proj1 (proj2 Hod))|].
        f_equal. rewrite <-Hown0. unfold row_owner. simpl. by rewrite as_i64_u64.
  - pose proof (assign_cases lease_duration o (mkAssign (as_db s) (as_limiter s) (as_world s)) tenant device protocol None) as Hc.
    destruct (assign _ _ _ _ _ _ _) as [s2 [owner|e]]; intros [= <- <-]; cbn [as_db as_world] in Hc.
    + destruct Hc as (Hod2 & Hg2 & Hcase). split; [done|].
      destruct Hcase as [[Hdb _]|(n & Hs & Hn & Hep & row & Hrow & Hrn)]; [rewrite Hdb in Hg2; congruence|].
      pose proof (selected_not_draining _ _ _ _ _ _ _ _ Hk Hs Hf Hd) as Hnf.
      split_and!; [|congruence|done..]. intros row1 Hrow1 Hr1. destruct Hnf. congruence.
    + destruct Hc as (Hod2 & Hdb2). simpl. split_and!; [done| |congruence]. rewrite Hdb2. eauto.
Qed.
End Migration.

(** Migration off a draining node.  A migration that succeeds leaves the
    device with another node, as the table shows; one that fails leaves the
    device with the owner, the epoch and the lease that it had.  A successful
    migration of a device of the draining node gives epoch 1 whatever its epoch
    was before: the record is cleared first, and the fencing token starts over. *)
Theorem migrate_off_draining `{Clock W} `{MonotonicClock W} `{SystemTime W} `{DateRange} `{DbMessages} `{UuidDisplay}
    lease_duration o (s : AssignState W) tenant device protocol from nf s1 r :
  nodes_keyed (as_db s) -> node_get (as_db s) from = Some nf -> cn_draining nf = true ->
  (tenant, device) ∈ devices (as_db s) ->
  migrate_device lease_duration o s tenant device protocol from = (s1, r) ->
  match r with
  | Ok owner =>
      oi_node_id owner <> from /\ owner_get (as_db s1) tenant device = Some owner
      /\ (forall p, owner_get (as_db s) tenant device = Some p -> oi_node_id p = from -> oi_epoch owner = 1)
  | Err _ => owner_get (as_db s1) tenant device = owner_get (as_db s) tenant device
  end.
Proof.
  intros Hk Hf Hd Hdev Hm. destruct (migrate_device_cases _ _ _ _ _ _ _ _ _ _ Hk Hf Hd Hm) as (_ & _ & Hr).
  destruct r; auto.
Qed.

(** ** The drain loop ends *)

Section Drain.
Context {W : Type} `{Clock W} `{MonotonicClock W} `{SystemTime W} `{DateRange} `{DbMessages} `{UuidDisplay}.
Context `{DeviceProtocolLookup}.
Context (lease_duration : Z) (o : hash_order Uuid SlidingWindow) (node : Uuid).

(** The node is draining in the tables. *)
Definition drains (db : Db) : Prop :=
  nodes_keyed db /\ exists n, node_get db node = Some n /\ cn_draining n = true.
Lemma drains_nodes db db1 : cluster_nodes db1 = cluster_nodes db -> drains db -> drains db1.
Proof. unfold drains, nodes_keyed, node_get. by intros ->. Qed.

(** What an item of a page tells about the tables. *)
Definition listed (db : Db) (od : OwnedDevice) : Prop :=
  exists r, device_owners db !! od_device_id od = Some r /\ or_owner_node_id r = node
    /\ or_tenant_id r = od_tenant_id od.

(** The rows of the node after a page was worked off. *)
Record drained (l : list OwnedDevice) (db db1 : Db) (att att1 : gset (Uuid * Uuid)) : Prop := {
  dr_nodes : cluster_nodes db1 = cluster_nodes db;
  dr_att : att1 = att ∪ list_to_set (map (fun od => (od_tenant_id od, od_device_id od)) l);
  dr_other : forall d, d ∉ map od_device_id l -> device_owners db1 !! d = device_owners db !! d;
  dr_again : forall od, od ∈ l -> (od_tenant_id od, od_device_id od) ∈ att ->
    device_owners db1 !! od_device_id od = device_owners db !! od_device_id od;
  dr_tenant : forall od r, od ∈ l -> device_owners db1 !! od_device_id od = Some r -> or_owner_node_id r = node ->
    or_tenant_id r = od_tenant_id od
}.

(** One item, then the rest of the page. *)
Lemma drained_cons od l db db1 db2 att att1 att2 :
  od_device_id od ∉ map od_device_id l ->
  drained [od] db db1 att att1 -> drained l db1 db2 att1 att2 -> drained (od :: l) db db2 att att2.
Proof.
  intros Hnin [Hn1 Ha1 Ho1 Hg1 Ht1] [Hn2 Ha2 Ho2 Hg2 Ht2]. split.
  - congruence.
  - rewrite Ha2, Ha1. simpl. set_solver.
  - intros d Hd. simpl in Hd. apply not_elem_of_cons in Hd as [Hne Hd]. rewrite Ho2, Ho1; [done| |done].
    simpl. set_solver.
  - intros od1 [->|Hin]%elem_of_cons Hatt.
    + rewrite Ho2 by done. apply Hg1; [left|done].
    + rewrite Hg2; [|done|rewrite Ha1; set_solver]. apply Ho1. simpl. intros Hd%list_elem_of_singleton.
      apply Hnin. rewrite <-Hd. by apply list_elem_of_fmap_2.
  - intros od1 r [->|Hin]%elem_of_cons Hr Hrn; [|by eapply Ht2].
    rewrite Ho2 in Hr by done. eapply Ht1; [left|done..].
Qed.

Lemma drained_same od db att :
  listed db od ->
  drained [od] db db att (att ∪ {[(od_tenant_id od, od_device_id od)]}).
Proof.
  intros (r & Hr & Hrn & Hrt). split; [done|simpl; set_solver|done|done|].
  intros od1 r1 ->%list_elem_of_singleton Hr1 _. congruence.
Qed.

Lemma drained_migrate od s s1 r att protocol :
  drains (as_db s) -> listed (as_db s) od -> (od_tenant_id od, od_device_id od) ∉ att ->
  migrate_device lease_duration o s (od_tenant_id od) (od_device_id od) protocol node = (s1, r) ->
  drained [od] (as_db s) (as_db s1) att (att ∪ {[(od_tenant_id od, od_device_id od)]}).
Proof.
  intros [Hk (nf & Hf & Hd)] (r0 & Hr0 & Hrn0 & Hrt0) Hatt Hm.
  destruct (migrate_device_cases _ _ _ _ _ _ _ _ _ _ Hk Hf Hd Hm) as ((Hn & _ & Ho) & Hrow & _). split.
  - done.
  - simpl. set_solver.
  - intros d Hne. apply Ho. simpl in Hne. set_solver.
  - intros od1 ->%list_elem_of_singleton. done.
  - intros od1 r1 ->%list_elem_of_singleton Hr1 Hr1n. destruct (Hrow r1 Hr1 Hr1n) as (r2 & Hr2 & _ & Ht).
    congruence.
Qed.

Lemma drain_items_drained max l : forall s att processed rep,
  drains (as_db s) -> NoDup (map od_device_id l) -> Forall (listed (as_db s)) l ->
  let '(s1, att1, _, _, stop) := drain_items lease_duration o max node l s att processed rep in
  stop = false -> drained l (as_db s) (as_db s1) att att1.
Proof.
  induction l as [|od l IH]; intros s att processed rep Hdr Hn Hl; simpl.
  { intros _. split; [done|simpl; set_solver|done| |]; intros od; [|intros r]; by intros ?%elem_of_nil. }
  destruct (max <=? processed); [done|].
  apply NoDup_cons in Hn as [Hnin Hn]. apply Forall_cons in Hl as [Hod Hl].
  assert (forall s1 att1 processed rep,
    drained [od] (as_db s) (as_db s1) att att1 ->
    let '(s2, att2, _, _, stop) := drain_items lease_duration o max node l s1 att1 processed rep in
    stop = false -> drained (od :: l) (as_db s) (as_db s2) att att2) as Hstep.
  { intros s1 att1 p1 rep1 Hd1. specialize (IH s1 att1 p1 rep1).
    destruct (drain_items _ _ _ _ l s1 att1 p1 rep1) as [[[[s2 att2] p2] r2] stop]. intros Hs.
    eapply drained_cons; [done|exact Hd1|]. apply IH; [|done| |done].
    - eapply drains_nodes; [apply (dr_nodes _ _ _ _ _ Hd1)|done].
    - rewrite Forall_forall in *. intros od1 Hin. destruct (Hl od1 Hin) as (r & Hr & Hrest). exists r.
      split; [|done]. rewrite (dr_other _ _ _ _ _ Hd1); [done|]. simpl. intros Hd%list_elem_of_singleton.
      apply Hnin. rewrite <-Hd. by apply list_elem_of_fmap_2. }
  destruct (decide ((od_tenant_id od, od_device_id od) ∈ att)) as [Hin|Hout].
  { apply Hstep. assert (att ∪ {[(od_tenant_id od, od_device_id od)]} = att) as He by set_solver.
    rewrite <-He at 2. by apply drained_same. }
  destruct (protocol_for (od_tenant_id od) (od_device_id od)) as [[protocol|]|e].
  - destruct (migrate_device lease_duration o s (od_tenant_id od) (od_device_id od) protocol node) as [s1 [ow|e]] eqn:Hm;
      apply Hstep; by eapply drained_migrate.
  - by apply Hstep, drained_same.
  - by apply Hstep, drained_same.
Qed.

(** *** The measure *)

(** A device that was not attempted can be listed twice more, one that was
    attempted once more if it is still ahead of the cursor. *)
Definition weight (db : Db) (att : gset (Uuid * Uuid)) (cursor : option Cursor) (d : Uuid) : nat :=
  match device_owners db !! d with
  | Some r =>
      if decide (or_owner_node_id r = node) then
        if decide ((or_tenant_id r, d) ∈ att) then
          if decide (after cursor (or_updated_at r, d)) then 1 else 0
        else 2
      else 0
  | None => 0
  end.

Lemma list_by_node_spec db p :
  let page := list_by_node db node p in
  NoDup (map od_device_id (items page))
  /\ (forall od, od ∈ items page -> exists r, device_owners db !! od_device_id od = Some r
        /\ or_owner_node_id r = node /\ or_tenant_id r = od_tenant_id od
        /\ after (page_cursor p) (or_updated_at r, od_device_id od)
        /\ forall c, next_cursor page = Some c -> cursor_le (or_updated_at r, od_device_id od) c)
  /\ (forall c, next_cursor page = Some c -> after (page_cursor p) c /\ items page <> []).
Proof.
  set (rows := filter (fun kr => or_owner_node_id kr.2 = node) (map_to_list (device_owners db))).
  assert (NoDup rows) as Hn by apply NoDup_filter, NoDup_map_to_list.
  destruct (page_of_spec (fun kr : Uuid * OwnerRow => (or_updated_at kr.2, kr.1)) p rows Hn) as (Hni & Hin & Hc).
  unfold list_by_node. fold rows. simpl. split_and!.
  - rewrite map_map. simpl. change (NoDup (fst <$> items (page_of (fun kr => (or_updated_at kr.2, kr.1)) p rows))).
    apply NoDup_fmap_fst; [|done]. intros d r1 r2 [Hd1 _]%Hin [Hd2 _]%Hin.
    apply list_elem_of_filter in Hd1 as [_ Hd1%elem_of_map_to_list].
    apply list_elem_of_filter in Hd2 as [_ Hd2%elem_of_map_to_list]. congruence.
  - intros od Hod. apply list_elem_of_fmap in Hod as ([d r] & -> & Hdr). simpl.
    pose proof (Hin _ Hdr) as [Hrows Haft]. apply list_elem_of_filter in Hrows as [Hrn Hm%elem_of_map_to_list].
    exists r. split_and!; try done. intros c Hcc. destruct (Hc c Hcc) as (_ & _ & Hle). apply (Hle _ Hdr).
  - intros c Hcc. destruct (Hc c Hcc) as (Haft & Hne & _). split; [done|]. intros He. apply Hne.
    by apply map_eq_nil in He.
Qed.

(** A page makes no weight greater, and that of its devices smaller. *)
Lemma weight_page db db1 att att1 cursor c bs d :
  let page := list_by_node db node (mkPageRequest cursor bs) in
  drained (items page) db db1 att att1 -> next_cursor page = Some c ->
  (weight db1 att1 (Some c) d <= weight db att cursor d)%nat
  /\ (d ∈ map od_device_id (items page) -> (weight db1 att1 (Some c) d < weight db att cursor d)%nat).
Proof.
  intros page [Hn Ha Ho Hg Ht] Hc. destruct (list_by_node_spec db (mkPageRequest cursor bs)) as (Hnd & Hit & Hcur).
  fold page in Hnd, Hit, Hcur. destruct (Hcur c Hc) as [Hafter _]. simpl in Hafter.
  destruct (decide (d ∈ map od_device_id (items page))) as [Hin|Hout].
  - assert (weight db1 att1 (Some c) d < weight db att cursor d)%nat; [|split; [lia|done]].
    apply list_elem_of_fmap in Hin as (od & -> & Hod). destruct (Hit od Hod) as (r & Hr & Hrn & Hrt & Haf & Hle).
    specialize (Hle c Hc). unfold weight at 2. rewrite Hr, decide_True, Hrt by done.
    destruct (decide ((od_tenant_id od, od_device_id od) ∈ att)) as [Hatt|Hatt].
    + rewrite decide_True by done. unfold weight. rewrite (Hg od Hod Hatt), Hr, decide_True, Hrt by done.
      rewrite decide_True by (rewrite Ha; set_solver). rewrite decide_False; [lia|].
      simpl. unfold cursor_lt, cursor_le in *. lia.
    + unfold weight. destruct (device_owners db1 !! od_device_id od) as [r1|] eqn:Hr1; [|lia].
      destruct (decide _); [|lia]. rewrite decide_True; [case_decide; lia|].
      rewrite (Ht od r1 Hod Hr1) by done. rewrite Ha. apply elem_of_union_r, elem_of_list_to_set.
      apply (list_elem_of_fmap_2 (fun od => (od_tenant_id od, od_device_id od))). done.
  - split; [|done]. unfold weight. rewrite (Ho d Hout). destruct (device_owners db !! d) as [r|]; [|lia].
    destruct (decide (or_owner_node_id r = node)); [|lia].
    assert ((or_tenant_id r, d) ∈ att1 <-> (or_tenant_id r, d) ∈ att) as Hiff.
    { rewrite Ha, elem_of_union, elem_of_list_to_set. split; [|by left]. intros [?|Hl]; [done|].
      apply list_elem_of_fmap in Hl as (od & [= Hte ->] & Hod). destruct Hout. by apply list_elem_of_fmap_2. }
    destruct (decide ((or_tenant_id r, d) ∈ att)) as [Hi|Hi];
      [rewrite decide_True by (by apply Hiff) | rewrite decide_False by (by rewrite Hiff); lia].
    destruct (decide (after (Some c) _)) as [Hc1|], (decide (after cursor _)) as [|Hc2]; try lia.
    destruct Hc2. destruct cursor as [c0|]; [|done]. simpl in *. unfold cursor_lt in *. lia.
Qed.

(** The devices that the node can have. *)
Definition within (D : list Uuid) (db : Db) : Prop :=
  forall d r, device_owners db !! d = Some r -> or_owner_node_id r = node -> d ∈ D.
Definition measure (D : list Uuid) (db : Db) (att : gset (Uuid * Uuid)) (cursor : option Cursor) : nat :=
  sum_list_with (weight db att cursor) D.

Lemma sum_list_with_lt {A} (f g : A -> nat) l x :
  (forall y, y ∈ l -> (f y <= g y)%nat) -> x ∈ l -> (f x < g x)%nat -> (sum_list_with f l < sum_list_with g l)%nat.
Proof.
  intros Hle Hx Hlt. induction l as [|y l IH]; [by apply elem_of_nil in Hx|]. simpl.
  assert (sum_list_with f l <= sum_list_with g l)%nat as Hl.
  { clear -Hle. induction l as [|z l IH]; simpl; [lia|].
    assert (f z <= g z)%nat by (apply Hle; right; left).
    assert (sum_list_with f l <= sum_list_with g l)%nat; [|lia].
    apply IH. intros u [->|Hu]%elem_of_cons; apply Hle; [left|by right; right]. }
  assert (f y <= g y)%nat by (apply Hle; left).
  apply elem_of_cons in Hx as [->|Hx]; [lia|].
  assert (sum_list_with f l < sum_list_with g l)%nat; [|lia]. apply IH; [|done]. intros z Hz. apply Hle. by right.
Qed.

Lemma drained_within D l db db1 att att1 :
  Forall (listed db) l -> drained l db db1 att att1 -> within D db -> within D db1.
Proof.
  intros Hl [_ _ Ho _ _] Hw d r Hr Hrn. destruct (decide (d ∈ map od_device_id l)) as [Hin|Hout].
  - apply list_elem_of_fmap in Hin as (od & -> & Hod). rewrite Forall_forall in Hl.
    destruct (Hl od Hod) as (r0 & Hr0 & Hrn0 & _). by eapply Hw.
  - rewrite Ho in Hr by done. by eapply Hw.
Qed.

Lemma drain_pages_ends D bs max fuel : forall cursor s att processed rep,
  drains (as_db s) -> within D (as_db s) -> (measure D (as_db s) att cursor < fuel)%nat ->
  is_Some (drain_pages lease_duration o fuel bs max node cursor s att processed rep).
Proof.
  induction fuel as [|fuel IH]; intros cursor s att processed rep Hdr Hw Hf; [lia|]. cbn [drain_pages].
  set (page := list_by_node (as_db s) node (mkPageRequest cursor bs)).
  destruct (list_by_node_spec (as_db s) (mkPageRequest cursor bs)) as (Hnd & Hit & Hcur). fold page in Hnd, Hit, Hcur.
  assert (Forall (listed (as_db s)) (items page)) as Hl.
  { apply Forall_forall. intros od Hod. destruct (Hit od Hod) as (r & Hr & Hrn & Hrt & _). by exists r. }
  pose proof (drain_items_drained max (items page) s att processed rep Hdr Hnd Hl) as Hd.
  destruct (drain_items _ _ _ _ _ _ _ _ _) as [[[[s1 att1] p1] rep1] stop].
  destruct stop; [by eexists|]. specialize (Hd eq_refl).
  destruct (next_cursor page) as [c|] eqn:Hc; [|by eexists].
  apply IH.
  - eapply drains_nodes; [apply (dr_nodes _ _ _ _ _ Hd)|done].
  - by eapply drained_within.
  - destruct (Hcur c eq_refl) as [_ Hne]. destruct (items page) as [|od l] eqn:Hi; [done|].
    assert (measure D (as_db s1) att1 (Some c) < measure D (as_db s) att cursor)%nat; [|lia].
    assert (forall d, (weight (as_db s1) att1 (Some c) d <= weight (as_db s) att cursor d)%nat
      /\ (d ∈ map od_device_id (items page) -> (weight (as_db s1) att1 (Some c) d < weight (as_db s) att cursor d)%nat)) as Hwt.
    { intros d. apply (weight_page (as_db s) (as_db s1) att att1 cursor c bs d); fold page; [by rewrite Hi|done]. }
    apply (sum_list_with_lt _ _ _ (od_device_id od)).
    + intros d _. apply Hwt.
    + destruct (Hit od ltac:(left)) as (r & Hr & Hrn & _). by eapply Hw.
    + apply Hwt. rewrite Hi. left.
Qed.

Lemma measure_bound D db att cursor : (measure D db att cursor <= 2 * length D)%nat.
Proof.
  unfold measure. induction D as [|d D IH]; simpl; [lia|].
  assert (weight db att cursor d <= 2)%nat; [|lia]. unfold weight. repeat case_match; lia.
Qed.
End Drain.

(** C38: [drain_node] ends: whatever the protocol lookups answer, whatever the
    clocks say and however many migrations fail and put their device back at the
    end of the listing, the loop over the pages of the draining node terminates
    within twice as many pages as there are owner records, and one more. *)
Theorem drain_node_terminates `{Clock W} `{MonotonicClock W} `{SystemTime W} `{DateRange} `{DbMessages} `{UuidDisplay}
    `{DeviceProtocolLookup} lease_duration o batch_size max_devices (s : AssignState W) node :
  nodes_keyed (as_db s) ->
  is_Some (drain_node lease_duration o batch_size max_devices s node).
Proof.
  intros Hk. unfold drain_node. destruct (now_wall (as_world s)) as [now w].
  destruct (node_get (as_db s) node) as [n|] eqn:Hn; [|by eexists].
  unfold node_mark_draining. unfold node_get in Hn. rewrite Hn, decide_True by done.
  destruct (PageRequest_new _); [|by eexists]. set (s0 := mkAssign _ (as_limiter s) w).
  set (D := (map_to_list (device_owners (as_db s))).*1).
  destruct (drain_pages_ends lease_duration o node D (Z.max 1 (Z.min MAX_PAGE_SIZE batch_size)) (Z.max 1 max_devices)
    (S (2 * size (device_owners (as_db s0)))) None s0 ∅ 0 (mkReport 0 0 0 false)) as [[s1 rep] Hr].
  - split.
    + intros k n1. simpl. intros [[<- <-]|[_ Hk1]]%lookup_insert_Some; [by apply (Hk _ _ Hn)|by apply Hk].
    + eexists. split; [unfold node_get; simpl; by rewrite lookup_insert_eq|done].
  - intros d r Hr Hrn. simpl in Hr. unfold D. apply list_elem_of_fmap. exists (d, r).
    split; [done|]. by apply elem_of_map_to_list.
  - pose proof (measure_bound node D (as_db s0) ∅ None) as Hb. unfold D in Hb at 2.
    rewrite length_fmap, length_map_to_list in Hb. simpl. simpl in Hb. lia.
  - change (device_owners (as_db s0)) with (device_owners (as_db s)) in Hr.
    eexists. simpl. simpl in Hr. rewrite Hr. done.
Qed.

(** ** Samples *)

Module AssignSample.
#[local] Instance messages : DbMessages := {| db_message := fun _ => "db"; db_display := fun _ => "db" |}.
#[local] Existing Instance default_date_range.
#[local] Instance monotonic : MonotonicClock InMemoryWorld := fun w => (wall_ms w, w).
#[local] Instance system_time : SystemTime InMemoryWorld := fun w => (wall_ms w * NANOS_PER_MILLI, w).
#[local] Instance display : UuidDisplay := show_uint.
#[local] Instance lookup_protocol : DeviceProtocolLookup := fun _ _ => Ok (Some "gb28181").

Definition node (id : Z) (draining : bool) : ClusterNode :=
  mkNode id 1 "zone" "1.0.0" {["gb28181" := "1"]} 0 1000000000 0 (mkCapacity 10) (mkLoad 0) draining.
Definition db0 : Db :=
  mkDb {[(1, 7); (1, 8)]} {[7 := mkRow 1 100 5 (Some 900000000) 0]} {[100 := node 100 true; 200 := node 200 false]}.
Definition s0 : AssignState InMemoryWorld :=
  mkAssign db0 (limiter_new RateLimitConfig_default) (Build_InMemoryWorld 1 0).

Lemma db0_keyed : nodes_keyed db0.
Proof.
  intros k n Hk. unfold db0, cluster_nodes in Hk.
  apply lookup_insert_Some in Hk as [[<- <-]|[_ Hk]]; [reflexivity|].
  apply lookup_singleton_Some in Hk as [<- <-]. reflexivity.
Qed.

Lemma select_node_rendezvous_witness :
  match select_node db0 8 "gb28181" None 0 with
  | Ok n => candidate db0 "gb28181" None 0 n /\ cn_node_id n = 200
  | Err _ => False
  end.
Proof.
  pose proof (select_node_rendezvous db0 8 "gb28181" None 0 db0_keyed) as Hs.
  assert (select_node db0 8 "gb28181" None 0 = Ok (node 200 false)) as He by (vm_compute; reflexivity).
  rewrite He in *. split; [exact (proj1 Hs) | reflexivity].
Defined.

Lemma assign_spec_witness :
  exists s1, assign 50 canonical_order s0 1 8 "gb28181" None = (s1, Ok (mkOwner 200 1 (Some 51000000)))
    /\ owner_get (as_db s1) 1 8 = Some (mkOwner 200 1 (Some 51000000)).
Proof.
  destruct (assign 50 canonical_order s0 1 8 "gb28181" None) as [s1 r] eqn:Ha.
  pose proof (assign_spec 50 canonical_order s0 1 8 "gb28181" None s1 r db0_keyed Ha) as (_ & Hr & _).
  assert (r = Ok (mkOwner 200 1 (Some 51000000))) as ->.
  { transitivity (assign 50 canonical_order s0 1 8 "gb28181" None).2; [by rewrite Ha | vm_compute; reflexivity]. }
  exists s1. split; [reflexivity | exact (proj1 Hr)].
Defined.

Lemma migrate_off_draining_witness :
  exists s1, migrate_device 50 canonical_order s0 1 7 "gb28181" 100 = (s1, Ok (mkOwner 200 1 (Some 51000000)))
    /\ owner_get (as_db s0) 1 7 = Some (mkOwner 100 5 (Some 900000000))
    /\ oi_epoch (mkOwner 200 1 (Some 51000000)) = 1.
Proof.
  destruct (migrate_device 50 canonical_order s0 1 7 "gb28181" 100) as [s1 r] eqn:Hm.
  assert (r = Ok (mkOwner 200 1 (Some 51000000))) as ->.
  { transitivity (migrate_device 50 canonical_order s0 1 7 "gb28181" 100).2; [by rewrite Hm | vm_compute; reflexivity]. }
  exists s1. split; [reflexivity|]. split; [vm_compute; reflexivity|].
  pose proof (migrate_off_draining 50 canonical_order s0 1 7 "gb28181" 100 (node 100 true) s1 _ db0_keyed
    ltac:(vm_compute; reflexivity) eq_refl ltac:(unfold s0, db0; simpl; set_solver) Hm) as (_ & _ & Hep).
  apply (Hep (mkOwner 100 5 (Some 900000000))); vm_compute; reflexivity.
Defined.

Lemma drain_node_terminates_witness :
  is_Some (drain_node 50 canonical_order 10 10 s0 100).
Proof. apply (drain_node_terminates 50 canonical_order 10 10 s0 100 db0_keyed). Defined.
End AssignSample.
