(* ===== verification/UnitOfWork.v ===== *)
(** * Units of work

    The transactions in which the application services change the tables, for
    the tables of operations, outbox events and processed messages:
    - [SignalError] ([cheetah-signal-types/src/error.rs]) and the conversion of
      a domain error into it ([cheetah-domain/src/error.rs]);
    - the event envelope ([cheetah-signal-types/src/event.rs]);
    - [PostgresUnitOfWork] ([cheetah-storage-postgres/src/unit_of_work.rs],
      [repository.rs], [list_impl.rs]).

    A service method is a computation [app W A] on a unit of work and a world
    with the clock, the identifiers and the other nodes.  A unit of work holds
    the committed tables and the tables as its own transaction sees them.  The
    other sessions commit while it has no transaction open ([Others]); a
    transaction is isolated.  A statement that the database rejects aborts the
    transaction: later statements fail and a commit keeps nothing.  JSON columns
    give back the value that was stored, and columns keep a timestamp exactly. *)

From S2P Require Import Prelude RustStr Domain DomainData Operation Paging Cluster.

Open Scope string_scope.
Open Scope list_scope.
Open Scope Z_scope.

(** ** Errors *)

Inductive SignalErrorKind :=
| SkInvalidArgument | SkUnauthenticated | SkPermissionDenied | SkNotFound | SkAlreadyExists
| SkConflict | SkStaleOwner | SkBusy | SkRateLimited | SkTimeout | SkCancelled | SkUnavailable
| SkUnsupported | SkVersionMismatch | SkFailedPrecondition | SkCursorExpired | SkProtocolFailed
| SkMediaFailed | SkStorageFailed | SkInternal.

Definition kind_code (k : SignalErrorKind) : string :=
  match k with
  | SkInvalidArgument => "INVALID_ARGUMENT"
  | SkUnauthenticated => "UNAUTHENTICATED"
  | SkPermissionDenied => "PERMISSION_DENIED"
  | SkNotFound => "NOT_FOUND"
  | SkAlreadyExists => "ALREADY_EXISTS"
  | SkConflict => "CONFLICT"
  | SkStaleOwner => "STALE_OWNER"
  | SkBusy => "BUSY"
  | SkRateLimited => "RATE_LIMITED"
  | SkTimeout => "TIMEOUT"
  | SkCancelled => "CANCELLED"
  | SkUnavailable => "UNAVAILABLE"
  | SkUnsupported => "UNSUPPORTED"
  | SkVersionMismatch => "VERSION_MISMATCH"
  | SkFailedPrecondition => "FAILED_PRECONDITION"
  | SkCursorExpired => "CURSOR_EXPIRED"
  | SkProtocolFailed => "PROTOCOL_FAILED"
  | SkMediaFailed => "MEDIA_FAILED"
  | SkStorageFailed => "STORAGE_FAILED"
  | SkInternal => "INTERNAL"
  end.

Definition kind_is_retryable (k : SignalErrorKind) : bool :=
  match k with
  | SkStaleOwner | SkBusy | SkRateLimited | SkTimeout | SkUnavailable | SkProtocolFailed
  | SkStorageFailed | SkMediaFailed => true
  | _ => false
  end.

Definition kind_to_http_status (k : SignalErrorKind) : Z :=
  match k with
  | SkInvalidArgument | SkCursorExpired => 400
  | SkUnauthenticated => 401
  | SkPermissionDenied => 403
  | SkNotFound => 404
  | SkAlreadyExists | SkConflict | SkStaleOwner | SkVersionMismatch => 409
  | SkBusy | SkRateLimited => 429
  | SkTimeout => 504
  | SkCancelled => 499
  | SkUnavailable | SkStorageFailed => 503
  | SkUnsupported => 501
  | SkFailedPrecondition => 412
  | SkProtocolFailed | SkMediaFailed => 502
  | SkInternal => 500
  end.

Definition kind_to_grpc_code (k : SignalErrorKind) : Z :=
  match k with
  | SkInvalidArgument | SkCursorExpired => 3
  | SkUnauthenticated => 16
  | SkPermissionDenied => 7
  | SkNotFound => 5
  | SkAlreadyExists | SkConflict => 6
  | SkStaleOwner | SkVersionMismatch | SkFailedPrecondition => 9
  | SkBusy | SkUnavailable | SkProtocolFailed | SkMediaFailed | SkStorageFailed => 14
  | SkRateLimited => 8
  | SkTimeout => 4
  | SkCancelled => 1
  | SkUnsupported => 12
  | SkInternal => 13
  end.

Definition MAX_ERROR_MESSAGE_BYTES : nat := 2048.
Definition MAX_FIELD_VIOLATION_FIELD_BYTES : nat := 256.
Definition MAX_FIELD_VIOLATION_DESCRIPTION_BYTES : nat := 1024.

Record FieldViolation := mkViolation { fv_field : string; fv_description : string }.

(** Without the boxed [source], which is for diagnostics only. *)
Record SignalError := mkSignalError {
  se_kind : SignalErrorKind;
  se_code : string;
  se_message : string;
  se_retryable : bool;
  se_field_violations : list FieldViolation;
  se_correlation_id : option Uuid
}.

Definition SignalError_new (kind : SignalErrorKind) (message : string) : SignalError :=
  mkSignalError kind (kind_code kind) (clamp_str message MAX_ERROR_MESSAGE_BYTES) (kind_is_retryable kind) [] None.

Definition with_field_violation (field description : string) (e : SignalError) : SignalError :=
  mkSignalError (se_kind e) (se_code e) (se_message e) (se_retryable e)
    (se_field_violations e
     ++ [mkViolation (clamp_str field MAX_FIELD_VIOLATION_FIELD_BYTES)
           (clamp_str description MAX_FIELD_VIOLATION_DESCRIPTION_BYTES)])
    (se_correlation_id e).

Definition with_correlation_id (id : Uuid) (e : SignalError) : SignalError :=
  mkSignalError (se_kind e) (se_code e) (se_message e) (se_retryable e) (se_field_violations e) (Some id).

(** [impl Display for SignalError]. *)
Definition SignalError_display (e : SignalError) : string :=
  String.concat "" [se_message e; " (code: "; se_code e; ")"].

(** [impl Display for DomainError]. *)
Definition DomainError_display (e : DomainError) : string :=
  match e with
  | InvalidTransition entity from to =>
      String.concat "" ["invalid transition for "; entity; ": "; from; " -> "; to]
  | ConcurrentModification expected found =>
      String.concat "" ["concurrent modification: expected revision "; show_uint expected;
                        ", found "; show_uint found]
  | NotFound entity id => String.concat "" [entity; " not found: "; id]
  | NoOwner device_id => String.concat "" ["no owner for device "; device_id]
  | StaleOwner expected found =>
      String.concat "" ["stale owner: expected epoch "; show_uint expected; ", got "; show_uint found]
  | InvalidArgument message => String.concat "" ["invalid argument: "; message]
  | Unavailable message => String.concat "" ["unavailable: "; message]
  | AlreadyTerminal entity status => String.concat "" [entity; " already terminal: "; status]
  | Internal message => String.concat "" ["internal: "; message]
  | Unsupported message => String.concat "" ["not supported: "; message]
  end.

(** [impl From<DomainError> for SignalError]. *)
Definition domain_to_signal (e : DomainError) : SignalError :=
  match e with
  | InvalidTransition entity from to =>
      SignalError_new SkConflict
        (String.concat "" ["invalid transition for "; entity; ": "; from; " -> "; to])
  | ConcurrentModification expected found =>
      SignalError_new SkConflict
        (String.concat "" ["concurrent modification: expected "; show_uint expected; ", found "; show_uint found])
  | NotFound entity id => SignalError_new SkNotFound (String.concat "" [entity; " not found: "; id])
  | NoOwner device_id =>
      SignalError_new SkUnavailable (String.concat "" ["no owner for device "; device_id])
  | StaleOwner expected found =>
      SignalError_new SkStaleOwner
        (String.concat "" ["stale owner: expected "; show_uint expected; ", got "; show_uint found])
  | InvalidArgument message => SignalError_new SkInvalidArgument message
  | Unavailable message => SignalError_new SkUnavailable message
  | AlreadyTerminal entity status =>
      SignalError_new SkConflict (String.concat "" [entity; " already terminal: "; status])
  | Internal message => SignalError_new SkInternal message
  | Unsupported message => SignalError_new SkUnsupported (String.concat "" ["not supported: "; message])
  end.

(** ** Events *)

Record Event (P : Type) := mkEvent {
  ev_event_id : Uuid;
  ev_tenant_id : Uuid;
  ev_aggregate_ref : ResourceRef;
  ev_aggregate_sequence : Z;
  ev_occurred_at : UtcTimestamp;
  ev_correlation_id : Uuid;
  ev_causation_id : Uuid;
  ev_traceparent : option string;
  ev_tracestate : option string;
  ev_source : Uuid;
  ev_payload : P
}.
Arguments mkEvent {P}. Arguments ev_event_id {P}. Arguments ev_tenant_id {P}.
Arguments ev_aggregate_ref {P}. Arguments ev_aggregate_sequence {P}. Arguments ev_occurred_at {P}.
Arguments ev_correlation_id {P}. Arguments ev_causation_id {P}. Arguments ev_traceparent {P}.
Arguments ev_tracestate {P}. Arguments ev_source {P}. Arguments ev_payload {P}.

(** [IdGenerator::generate_event_id]. *)
Class EventIds (W : Type) := generate_event_id : W -> Uuid * W.
#[global] Instance in_memory_event_ids : EventIds InMemoryWorld := InMemoryIdGenerator_next_uuid.

(** [Event::new]; the default of an identifier is the nil UUID. *)
Definition Event_new {W P} `{Clock W, EventIds W} (context : RequestContext) (tenant_id : Uuid)
    (aggregate_ref : ResourceRef) (aggregate_sequence : Z) (payload : P) (w : W) : Event P * W :=
  let '(event_id, w) := generate_event_id w in
  let '(occurred_at, w) := now_wall w in
  (mkEvent event_id tenant_id aggregate_ref aggregate_sequence occurred_at (rc_correlation_id context)
     (rc_message_id context) (rc_traceparent context) (rc_tracestate context)
     (match rc_node_id context with Some n => n | None => 0 end) payload, w).

(** ** The tables *)

Record OutboxEntry := mkEntry {
  ob_event : Event DomainEvent;
  ob_published : bool;
  ob_attempts : Z;
  ob_failed : bool;
  ob_error : option string;
  ob_next_attempt_at : option UtcTimestamp
}.

Inductive ProcessedMessageStatus := PmPending | PmAccepted | PmCompleted | PmFailed | PmDuplicate.
#[global] Instance ProcessedMessageStatus_eq_dec : EqDecision ProcessedMessageStatus.
Proof. solve_decision. Defined.

Record ProcessedMessageRecord := mkProcessed {
  pm_tenant_id : Uuid;
  pm_message_id : Uuid;
  pm_idempotency_key : option string;
  pm_status : ProcessedMessageStatus;
  pm_result_payload : option string;
  pm_processed_at : UtcTimestamp;
  pm_expires_at : option UtcTimestamp
}.

Record Store := mkStore {
  operations : gmap Uuid Op.Operation;
  outbox_events : gmap Uuid OutboxEntry;
  processed_messages : gmap (Uuid * Uuid) ProcessedMessageRecord;
  cluster : Db
}.
Definition set_operations (m : gmap Uuid Op.Operation) (s : Store) : Store :=
  mkStore m (outbox_events s) (processed_messages s) (cluster s).
Definition set_outbox (m : gmap Uuid OutboxEntry) (s : Store) : Store :=
  mkStore (operations s) m (processed_messages s) (cluster s).
Definition set_processed (m : gmap (Uuid * Uuid) ProcessedMessageRecord) (s : Store) : Store :=
  mkStore (operations s) (outbox_events s) m (cluster s).
Definition set_cluster (db : Db) (s : Store) : Store :=
  mkStore (operations s) (outbox_events s) (processed_messages s) db.

(** ** Transactions *)

Record Tx := mkTx { tx_store : Store; tx_aborted : bool }.
Record Uow := mkUow { committed : Store; tx : option Tx; rolled_back : bool }.

(** [Storage::begin]. *)
Definition begin (s : Store) : Uow := mkUow s (Some (mkTx s false)) false.

(** What other sessions commit while no transaction is open here. *)
Class Others (W : Type) := others : Store -> W -> Store * W.

Definition app (W A : Type) : Type := Uow -> W -> result A SignalError * Uow * W.

Section app.
Context {W : Type}.
Definition app_ret {A} (a : A) : app W A := fun u w => (Ok a, u, w).
Definition app_err {A} (e : SignalError) : app W A := fun u w => (Err e, u, w).
Definition app_bind {A B} (m : app W A) (k : A -> app W B) : app W B := fun u w =>
  match m u w with
  | (Ok a, u1, w1) => k a u1 w1
  | (Err e, u1, w1) => (Err e, u1, w1)
  end.
(** A port that is not part of the unit of work. *)
Definition app_port {A} (f : W -> A * W) : app W A := fun u w =>
  let '(a, w1) := f w in (Ok a, u, w1).
(** [r.map_err(SignalError::from)?]. *)
Definition app_try {A} (r : result A DomainError) : app W A := fun u w =>
  (match r with Ok a => Ok a | Err e => Err (domain_to_signal e) end, u, w).
(** A method of an aggregate that the service holds: its value and the
    aggregate after the call, or the error. *)
Definition app_method {S A} (m : dm S W A) (s : S) : app W (A * S) := fun u w =>
  let '(r, s1, w1) := m s w in
  (match r with Ok a => Ok (a, s1) | Err e => Err (domain_to_signal e) end, u, w1).
End app.

Notation "'let+' x := m 'in' k" := (app_bind m (fun x => k))
  (at level 10, x pattern, m at level 100, k at level 200).
Notation "'do+' m 'in' k" := (app_bind m (fun _ => k))
  (at level 10, m at level 100, k at level 200).

(** A statement that the database rejects, or a method that returns an error of
    its own after its statements ran. *)
Inductive stmt_error := Rejected (e : DbError) | Failed (e : DomainError).
Definition stmt_result (A : Type) : Type := result A stmt_error * Store.

Section uow.
Context {W : Type} `{Others W} `{DbMessages}.

(** [tx]: the current transaction, or a new one.  Other sessions commit before the
    transaction begins and not inside it: transactions are serial, which is more
    than the READ COMMITTED of [pool.begin()] gives. *)
Definition uow_tx (u : Uow) (w : W) : Uow * Tx * W :=
  match tx u with
  | Some t => (u, t, w)
  | None =>
      let '(s, w) := others (committed u) w in
      let t := mkTx s false in (mkUow s (Some t) (rolled_back u), t, w)
  end.

(** A repository method, run in the transaction. *)
Definition stmt_domain {A} (f : Store -> stmt_result A) (u : Uow) (w : W) : result A DomainError * Uow * W :=
  let '(u, t, w) := uow_tx u w in
  let put t := mkUow (committed u) (Some t) (rolled_back u) in
  if tx_aborted t then (Err (sqlx_to_domain TransactionAborted), u, w)
  else
    match f (tx_store t) with
    | (Ok a, s) => (Ok a, put (mkTx s false), w)
    | (Err (Rejected e), s) => (Err (sqlx_to_domain e), put (mkTx s true), w)
    | (Err (Failed e), s) => (Err e, put (mkTx s false), w)
    end.

(** [commit].  The commit of an open transaction succeeds; after a rejected statement
    the database rolls it back instead.  The errors of the commit statement itself
    are not modelled. *)
Definition commit_domain (u : Uow) : result unit DomainError * Uow :=
  if rolled_back u then (Err (internal "cannot commit a unit of work that was rolled back"), u)
  else
    (Ok tt,
     match tx u with
     | Some t => mkUow (if tx_aborted t then committed u else tx_store t) None false
     | None => u
     end).

Definition rollback_domain (u : Uow) : result unit DomainError * Uow :=
  if rolled_back u then (Err (internal "unit of work already rolled back"), u)
  else (Ok tt, mkUow (committed u) None true).

(** The same in a service, where [?] converts the error. *)
Definition signal_result {A} (r : result A DomainError) : result A SignalError :=
  match r with Ok a => Ok a | Err e => Err (domain_to_signal e) end.
Definition stmt {A} (f : Store -> stmt_result A) : app W A := fun u w =>
  let '(r, u, w) := stmt_domain f u w in (signal_result r, u, w).
Definition commit : app W unit := fun u w => let '(r, u) := commit_domain u in (signal_result r, u, w).
Definition rollback : app W unit := fun u w => let '(r, u) := rollback_domain u in (signal_result r, u, w).
End uow.

(** ** The operation repository *)

Definition op_get (tenant id : Uuid) (s : Store) : option Op.Operation :=
  match operations s !! id with
  | Some o => if decide (Op.tenant_id o = tenant) then Some o else None
  | None => None
  end.

(** The columns of the unique index [idx_operations_idempotency]. *)
Definition idempotency_columns (o : Op.Operation) : Uuid * string * string :=
  (Op.tenant_id o, is_principal_id (Op.idempotency_scope o), is_idempotency_key (Op.idempotency_scope o)).

Definition op_get_by_idempotency (scope : IdempotencyScope) (s : Store) : option Op.Operation :=
  snd <$> list_find (fun o => idempotency_columns o
                      = (is_tenant_id scope, is_principal_id scope, is_idempotency_key scope))
            (map_to_list (operations s)).*2.

(** Another row with the same columns of the unique index. *)
Definition key_taken (o : Op.Operation) (s : Store) : bool :=
  bool_decide (Exists (fun o2 => Op.operation_id o2 <> Op.operation_id o
                         /\ idempotency_columns o2 = idempotency_columns o)
                 (map_to_list (operations s)).*2).

(** [stored_revision_as_u64]. *)
Definition stored_revision_as_u64 (r : Z) : result Z DomainError :=
  if r <? 0 then Err (internal ("stored revision is out of range: " +:+ show_int r)) else Ok r.

(** [save]: insert, or update when the stored revision is the one before. *)
Definition op_save (o : Op.Operation) (s : Store) : stmt_result unit :=
  let put := if key_taken o s then (Err (Rejected UniqueViolation), s)
             else (Ok tt, set_operations (<[Op.operation_id o := o]> (operations s)) s) in
  match operations s !! Op.operation_id o with
  | None => put
  | Some cur =>
      let excluded := as_i64 (Op.revision o) in
      if excluded =? I64_MIN then (Err (Rejected BigintOutOfRange), s)
      else if as_i64 (Op.revision cur) =? excluded - 1 then put
      else match stored_revision_as_u64 (as_i64 (Op.revision cur)) with
           | Err e => (Err (Failed e), s)
           | Ok found => (Err (Failed (ConcurrentModification (sat_sub (Op.revision o) 1) found)), s)
           end
  end.

(** [list_impl.rs]: rows in the order of their identifier; the cursor carries
    the update time of the last row too, and only its identifier is used. *)
Definition list_page {T} (id : T -> Uuid) (updated : T -> UtcTimestamp) (p : PageRequest) (rows : list T) : Page T :=
  let page := page_of (fun r => (0, id r)) (mkPageRequest ((fun c => (0, c.2)) <$> page_cursor p) (page_size p)) rows in
  mkPage (items page)
    (match next_cursor page with Some _ => (fun r => (updated r, id r)) <$> last (items page) | None => None end).

(** A filter of the query that is there only when it has a value. *)
Definition passes {A} (filter : option A) (test : A -> bool) : bool :=
  match filter with Some a => test a | None => true end.

Definition op_matches (tenant : Uuid) (device : option Uuid) (status : option string)
    (updated_after : option UtcTimestamp) (o : Op.Operation) : bool :=
  bool_decide (Op.tenant_id o = tenant)
  && passes device (fun d => bool_decide (Op.device_id o = d))
  && passes status (fun st => bool_decide (OperationStatus_display (Op.status o) = st))
  && passes updated_after (fun t => t <? Op.updated_at o).

Definition op_list (tenant : Uuid) (device : option Uuid) (status : option string)
    (updated_after : option UtcTimestamp) (p : PageRequest) (s : Store) : Page Op.Operation :=
  list_page Op.operation_id Op.updated_at p
    (filter (fun o => op_matches tenant device status updated_after o) (map_to_list (operations s)).*2).

(** ** The outbox *)

Definition outbox_append (e : Event DomainEvent) (s : Store) : stmt_result unit :=
  match outbox_events s !! ev_event_id e with
  | Some _ => (Err (Rejected UniqueViolation), s)
  | None => (Ok tt, set_outbox (<[ev_event_id e := mkEntry e false 0 false None None]> (outbox_events s)) s)
  end.

Definition is_pending (now : UtcTimestamp) (e : OutboxEntry) : bool :=
  negb (ob_published e) && negb (ob_failed e)
  && match ob_next_attempt_at e with Some t => t <=? now | None => true end.

Definition occurred_le (a b : OutboxEntry) : Prop := ev_occurred_at (ob_event a) <= ev_occurred_at (ob_event b).
#[global] Instance occurred_le_dec a b : Decision (occurred_le a b).
Proof. unfold occurred_le. apply _. Defined.

(** [pending]: the oldest [limit] entries that are due; rows with equal times
    come in the order of the table. *)
Definition outbox_pending (now : UtcTimestamp) (limit : nat) (s : Store) : list OutboxEntry :=
  take limit
    (merge_sort occurred_le
       (filter (fun e => is_pending now e) (map_to_list (outbox_events s)).*2)).

Definition outbox_mark_published (id : Uuid) (s : Store) : Store :=
  set_outbox (alter (fun e => mkEntry (ob_event e) true (ob_attempts e) (ob_failed e) (ob_error e)
                                (ob_next_attempt_at e)) id (outbox_events s)) s.

Definition outbox_mark_failed (id : Uuid) (attempts : Z) (failed : bool) (error : option string)
    (next_attempt_at : option UtcTimestamp) (s : Store) : Store :=
  set_outbox (alter (fun e => mkEntry (ob_event e) (ob_published e) attempts failed error next_attempt_at)
                id (outbox_events s)) s.

(** ** Processed messages *)

Definition processed_find (tenant message : Uuid) (s : Store) : option ProcessedMessageRecord :=
  processed_messages s !! (tenant, message).

(** [get_or_insert]: [None] when the record was inserted. *)
Definition processed_get_or_insert (r : ProcessedMessageRecord) (s : Store) :
    stmt_result (option ProcessedMessageRecord) :=
  match processed_find (pm_tenant_id r) (pm_message_id r) s with
  | Some existing => (Ok (Some existing), s)
  | None => (Ok None, set_processed (<[(pm_tenant_id r, pm_message_id r) := r]> (processed_messages s)) s)
  end.

Definition processed_complete (tenant message : Uuid) (status : ProcessedMessageStatus)
    (payload : option string) (processed_at : UtcTimestamp) (s : Store) : Store :=
  set_processed (alter (fun r => mkProcessed (pm_tenant_id r) (pm_message_id r) (pm_idempotency_key r) status
                                   payload processed_at (pm_expires_at r)) (tenant, message)
                   (processed_messages s)) s.

(** Statements that only read or that never fail. *)
Definition reads {A} (f : Store -> A) (s : Store) : stmt_result A := (Ok (f s), s).
Definition writes (f : Store -> Store) (s : Store) : stmt_result unit := (Ok tt, f s).
