(* ===== verification/GbSession.v ===== *)
(** * Registered devices in the database

    [session.rs] and [ingress.rs] of the GB28181 module over the PostgreSQL repository
    of protocol sessions ([protocol_session.rs]): the operations of many nodes read a
    session, change it in memory and write it back under the condition that its
    revision has not moved.

    An operation is a program whose calls are the statements of the repository; each
    statement is atomic, between two of them anything may happen ([sys_run]); the read
    and the write pool reach the same database.  The proofs use a small rely-guarantee
    logic: a [Discipline] says what programs may write and what they learn, [safe] that
    a program keeps to it whatever the others do.  Without unregistrations every row has
    one line of versions, each made from the one before by a method of the session; with
    them a session that was unregistered can come back ([unregistered_session_returns],
    [revived_session_loses_fence]). *)

From S2P Require Import Prelude RustStr SipUri Domain MediaNode DeviceData DomainData Compatibility Lifecycle Device.
From S2P Require Import ProtocolSession LinkProps SipEndpoint GbPolicy Paging Cluster UnitOfWork.

Open Scope string_scope.
Open Scope list_scope.
Open Scope Z_scope.

Import Session.

(** ** The table and its statements *)

Definition session_id (s : ProtocolSession) : Uuid := ns_protocol_session_id (config s).
Definition session_tenant (s : ProtocolSession) : Uuid := ns_tenant_id (config s).
(** The columns of the two unique indexes. *)
Definition device_columns (s : ProtocolSession) : Uuid * string * Uuid :=
  (ns_tenant_id (config s), Protocol_str (ns_protocol (config s)), ns_device_id (config s)).
Definition identity_columns (s : ProtocolSession) : Uuid * string * string :=
  (ns_tenant_id (config s), Protocol_str (ns_protocol (config s)), ns_protocol_identity (config s)).

Abbreviation Sessions := (gmap Uuid ProtocolSession).
Definition session_rows (t : Sessions) : list ProtocolSession := (map_to_list t).*2.

Definition ps_get (tenant id : Uuid) (t : Sessions) : option ProtocolSession :=
  letopt s := t !! id in if bool_decide (session_tenant s = tenant) then Some s else None.
Definition get_by_device (tenant : Uuid) (p : Protocol) (device : Uuid) (t : Sessions) : option ProtocolSession :=
  List.find (fun s => bool_decide (device_columns s = (tenant, Protocol_str p, device))) (session_rows t).
Definition get_by_identity (tenant : Uuid) (p : Protocol) (identity : string) (t : Sessions) : option ProtocolSession :=
  List.find (fun s => bool_decide (identity_columns s = (tenant, Protocol_str p, identity))) (session_rows t).

(** Another row has the same value in a unique index. *)
Definition index_taken (s : ProtocolSession) (t : Sessions) : bool :=
  bool_decide (Exists (fun r => session_id r <> session_id s
                         /\ (device_columns r = device_columns s \/ identity_columns r = identity_columns s)) (session_rows t)).

(** Times of the columns are in milliseconds, also that of the cursor. *)
Definition expiry_key (s : ProtocolSession) : Cursor := (as_millis (updated_at s), session_id s).
Definition list_expired (now : UtcTimestamp) (p : PageRequest) (t : Sessions) : Page ProtocolSession :=
  page_of expiry_key p (filter (fun s => as_millis (expiry_at s) <= as_millis now) (session_rows t)).

(** The statements that the operations of the link send, with what they return: whether
    a row was written or deleted, the stored revision, rows. *)
Inductive query :=
| QGetByDevice (tenant : Uuid) (p : Protocol) (device : Uuid)
| QUpsert (s : ProtocolSession)
| QRevision (id : Uuid)
| QDelete (tenant id : Uuid) (expected_revision : Z)
| QRevisionIn (tenant id : Uuid)
| QListExpired (now : UtcTimestamp) (p : PageRequest).
Definition rows_of (q : query) : Type :=
  match q with
  | QGetByDevice _ _ _ => option ProtocolSession
  | QUpsert _ | QDelete _ _ _ => bool
  | QRevision _ | QRevisionIn _ _ => option Z
  | QListExpired _ _ => Page ProtocolSession
  end.
Definition answer (q : query) : Type := result (rows_of q) DomainError.

Section statements.
Context `{DbMessages}.

Definition ps_upsert (s : ProtocolSession) (t : Sessions) : Sessions * result bool DomainError :=
  let put := if index_taken s t then (t, Err (sqlx_to_domain UniqueViolation)) else (<[session_id s := s]> t, Ok true) in
  match t !! session_id s with
  | None => put
  | Some cur =>
      let excluded := as_i64 (revision s) in
      if excluded =? I64_MIN then (t, Err (sqlx_to_domain BigintOutOfRange))
      else if as_i64 (revision cur) =? excluded - 1 then put else (t, Ok false)
  end.
Definition run_query (q : query) (t : Sessions) : Sessions * answer q :=
  match q with
  | QGetByDevice tenant p device => (t, Ok (get_by_device tenant p device t))
  | QUpsert s => ps_upsert s t
  | QRevision id => (t, Ok ((fun s => as_i64 (revision s)) <$> t !! id))
  | QDelete tenant id rev =>
      match ps_get tenant id t with
      | Some cur => if as_i64 (revision cur) =? as_i64 rev then (delete id t, Ok true) else (t, Ok false)
      | None => (t, Ok false)
      end
  | QRevisionIn tenant id => (t, Ok ((fun s => as_i64 (revision s)) <$> ps_get tenant id t))
  | QListExpired now p => (t, Ok (list_expired now p t))
  end.
End statements.

(** ** Programs: a statement at a time *)

Inductive prog (A : Type) :=
| Ret (a : A)
| Call (q : query) (k : answer q -> prog A).
#[global] Arguments Ret {A} a.
#[global] Arguments Call {A} q k.
Fixpoint bind {A B} (p : prog A) (k : A -> prog B) : prog B :=
  match p with Ret a => k a | Call q c => Call q (fun a => bind (c a) k) end.

(** A statement whose error the program returns. *)
Definition sql {A} (q : query) (k : rows_of q -> prog (result A DomainError)) : prog (result A DomainError) :=
  Call q (fun a => match a with Ok x => k x | Err e => Ret (Err e) end).
Definition ps_save (s : ProtocolSession) : prog (result unit DomainError) :=
  sql (QUpsert s) (fun written : bool =>
  if written then Ret (Ok tt)
  else sql (QRevision (session_id s)) (fun found : option Z => Ret (
    let? found := match found with Some r => stored_revision_as_u64 r | None => Ok 0 end in
    Err (ConcurrentModification (sat_sub (revision s) 1) found)))).
Definition ps_delete `{UuidDisplay} (tenant id : Uuid) (expected_revision : Z) : prog (result unit DomainError) :=
  sql (QDelete tenant id expected_revision) (fun deleted : bool =>
  if deleted then Ret (Ok tt)
  else sql (QRevisionIn tenant id) (fun found : option Z => Ret
    match found with
    | Some r => let? found := stored_revision_as_u64 r in Err (ConcurrentModification expected_revision found)
    | None => Err (not_found "protocol_session" (uuid_to_string id))
    end)).

(** ** The session link *)

Definition REASON_EXPIRED : string := "expired".

Inductive SessionLinkError :=
| NotRegistered
| SessionExpired
| LinkStaleOwner (current got : Z)
| Repository (e : DomainError).

Record SessionContext := mkSessionContext {
  sc_tenant_id : Uuid;
  sc_device_id : Uuid;
  sc_protocol_identity : string;
  sc_local_identity : LocalIdentity;
  sc_transport : SipTransport;
  sc_owner_node_id : Uuid;
  sc_owner_epoch : Z;
  sc_compatibility : CompatibilityProfile
}.
Record RegisterParams := mkRegisterParams {
  rp_endpoint : SessionEndpoint;
  rp_registration : RegistrationInfo;
  rp_expiry_at : UtcTimestamp
}.
Inductive RegisterOutcome :=
| Created (protocol_session_id : Uuid) (owner_epoch : Z)
| Refreshed (protocol_session_id : Uuid) (revision : Z).

(** [IdGenerator::generate_protocol_session_id]. *)
Class SessionIds (W : Type) := generate_protocol_session_id : W -> Uuid * W.

Definition ensure_owner_current (s : ProtocolSession) (got : Z) : result unit SessionLinkError :=
  if got <? owner_epoch s then Err (LinkStaleOwner (owner_epoch s) got) else Ok tt.

Definition lr (A : Type) : Type := prog (result A SessionLinkError).
Definition failed {A} (e : SessionLinkError) : lr A := Ret (Err e).
(** [repo.method(..).await?] *)
Definition await {A B} (p : prog (result A DomainError)) (k : A -> lr B) : lr B :=
  bind p (fun a => match a with Ok x => k x | Err e => failed (Repository e) end).
Definition find_device (tenant : Uuid) (p : Protocol) (device : Uuid) : prog (result (option ProtocolSession) DomainError) :=
  Call (QGetByDevice tenant p device) (fun a : answer (QGetByDevice tenant p device) => Ret a).

Section link.
Context {W : Type} `{Clock W} `{SessionIds W}.

Definition new_session (ctx : SessionContext) (params : RegisterParams) (id : Uuid) : NewProtocolSession :=
  mkNewSession id (sc_tenant_id ctx) (sc_device_id ctx) ProtoGb28181 (sc_protocol_identity ctx) (sc_local_identity ctx)
    (sc_transport ctx) (rp_endpoint params) (rp_registration params) (rp_expiry_at params) (Some (sc_owner_node_id ctx))
    (sc_owner_epoch ctx) (sc_compatibility ctx).

(** The refresh of the session that [register] found, with its owner in place. *)
Definition refresh (params : RegisterParams) (s : ProtocolSession) (w : W) : lr RegisterOutcome :=
  match refresh_registration (rp_registration params) (rp_expiry_at params) (Some (rp_endpoint params)) s w with
  | (Err e, _, _) => failed (Repository e)
  | (Ok _, s, _) => await (ps_save s) (fun _ => Ret (Ok (Refreshed (session_id s) (revision s))))
  end.
Definition link_register (ctx : SessionContext) (params : RegisterParams) (w : W) : lr RegisterOutcome :=
  await (find_device (sc_tenant_id ctx) ProtoGb28181 (sc_device_id ctx)) (fun existing =>
  match existing with
  | None =>
      let '(id, w) := generate_protocol_session_id w in
      match new (new_session ctx params id) w with
      | (Err e, _) => failed (Repository e)
      | (Ok s, _) => await (ps_save s) (fun _ => Ret (Ok (Created (session_id s) (sc_owner_epoch ctx))))
      end
  | Some s =>
      match ensure_owner_current s (sc_owner_epoch ctx) with
      | Err e => failed e
      | Ok _ =>
          if negb (bool_decide (owner_node_id s = Some (sc_owner_node_id ctx))) || (owner_epoch s <? sc_owner_epoch ctx) then
            let '(_, s, w) := assign_owner (sc_owner_node_id ctx) (sc_owner_epoch ctx) s w in
            await (ps_save s) (fun _ => refresh params s w)
          else refresh params s w
      end
  end).

Definition link_unregister `{UuidDisplay} (ctx : SessionContext) : lr (option Uuid) :=
  await (find_device (sc_tenant_id ctx) ProtoGb28181 (sc_device_id ctx)) (fun existing =>
  match existing with
  | None => Ret (Ok None)
  | Some s =>
      match ensure_owner_current s (sc_owner_epoch ctx) with
      | Err e => failed e
      | Ok _ => await (ps_delete (sc_tenant_id ctx) (session_id s) (revision s)) (fun _ => Ret (Ok (Some (session_id s))))
      end
  end).

Definition link_keepalive (ctx : SessionContext) (w : W) : lr unit :=
  let '(now, w) := now_wall w in
  await (find_device (sc_tenant_id ctx) ProtoGb28181 (sc_device_id ctx)) (fun existing =>
  match existing with
  | None => failed NotRegistered
  | Some s =>
      match ensure_owner_current s (sc_owner_epoch ctx) with
      | Err e => failed e
      | Ok _ =>
          if is_expired now s then failed SessionExpired
          else let '(_, s, _) := record_keepalive s w in await (ps_save s) (fun _ => Ret (Ok tt))
      end
  end).

Definition link_acquire_owner (tenant device node : Uuid) (new_epoch : Z) (w : W) : lr (option Z) :=
  await (find_device tenant ProtoGb28181 device) (fun existing =>
  match existing with
  | None => Ret (Ok None)
  | Some s =>
      if new_epoch <=? owner_epoch s then failed (LinkStaleOwner (owner_epoch s) new_epoch)
      else let '(_, s, _) := assign_owner node new_epoch s w in await (ps_save s) (fun _ => Ret (Ok (Some (revision s))))
  end).

(** The items of a page that are still online, up to the limit. *)
Fixpoint pick_online (max : nat) (items expired : list ProtocolSession) : list ProtocolSession :=
  match items with
  | [] => expired
  | s :: items =>
      if bool_decide (presence s = PsOffline) then pick_online max items expired
      else if (max <=? length expired)%nat then expired
      else pick_online max items (expired ++ [s])
  end.
(** The loop over the expired sessions; [reaped] were marked so far. *)
Fixpoint mark_expired (expired : list ProtocolSession) (reaped : Z) (w : W) : lr Z :=
  match expired with
  | [] => Ret (Ok reaped)
  | s :: expired =>
      match mark_offline REASON_EXPIRED s w with
      | (Err e, _, _) => failed (Repository e)
      | (Ok _, s, w) =>
          bind (ps_save s) (fun a =>
            match a with
            | Ok _ => mark_expired expired (reaped + 1) w
            | Err (ConcurrentModification _ _) => mark_expired expired reaped w
            | Err e => failed (Repository e)
            end)
      end
  end.
(** The loop over the pages; [None] when the fuel does not suffice. *)
Fixpoint collect_expired (fuel : nat) (now : UtcTimestamp) (size : Z) (max : nat) (cursor : option Cursor)
    (expired : list ProtocolSession) (k : list ProtocolSession -> prog (option (result Z SessionLinkError))) :
    prog (option (result Z SessionLinkError)) :=
  if (max <=? length expired)%nat then k expired
  else
    match fuel with
    | O => Ret None
    | S fuel =>
        match PageRequest_new size with
        | Err e => Ret (Some (Err (Repository (invalid_argument e))))
        | Ok page =>
            Call (QListExpired now (mkPageRequest cursor (page_size page))) (fun a =>
              match a with
              | Err e => Ret (Some (Err (Repository e)))
              | Ok result =>
                  let expired := pick_online max (items result) expired in
                  match next_cursor result with
                  | Some next => collect_expired fuel now size max (Some next) expired k
                  | None => k expired
                  end
              end)
        end
    end.
Definition reap_expired (fuel : nat) (now : UtcTimestamp) (page_size : Z) (max_sessions : nat) (w : W) :
    prog (option (result Z SessionLinkError)) :=
  collect_expired fuel now (Z.min MAX_PAGE_SIZE (Z.max 1 page_size)) max_sessions None []
    (fun expired => bind (mark_expired expired 0 w) (fun r => Ret (Some r))).
End link.


(** ** The ingress *)

Definition MAX_IDENTITY_BYTES : Z := 253.

Inductive IngressMethod := IngRegister | IngKeepalive | IngMessage.
#[global] Instance IngressMethod_eq_dec : EqDecision IngressMethod.
Proof. solve_decision. Defined.

Inductive IngressError :=
| UnconfiguredDomain
| AmbiguousDomain
| BodyIdentityMismatch
| SourceZoneRejected
| AuthenticationRequired
| EndpointUpdateForbidden
| IngSession (e : SessionLinkError).
Definition sip_status (e : IngressError) : Z :=
  match e with
  | UnconfiguredDomain => 404
  | AmbiguousDomain | BodyIdentityMismatch | SourceZoneRejected | EndpointUpdateForbidden => 403
  | AuthenticationRequired => 401
  | IngSession (NotRegistered | SessionExpired) => 403
  | IngSession (LinkStaleOwner _ _) => 403
  | IngSession (Repository _) => 500
  end.

Record ListenerBinding := mkListener {
  lb_domain : string;
  lb_tenant_id : Uuid;
  lb_local_identity : LocalIdentity;
  lb_allowed_zones : list NetworkZone
}.
Definition check_identity (name value : string) : result unit IngressConfigError :=
  if is_empty_str value then Err (EmptyField name)
  else if MAX_IDENTITY_BYTES <? str_len value then Err (FieldTooLong name)
  else Ok tt.
Definition listener_new (domain : string) (tenant : Uuid) (local : LocalIdentity) : result ListenerBinding IngressConfigError :=
  let? _ := check_identity "domain" domain in
  let? _ := check_identity "listener_id" (li_listener_id local) in
  let? _ := check_identity "local_device_id" (li_local_device_id local) in
  let? _ := check_identity "realm" (li_realm local) in
  Ok (mkListener domain tenant local []).
Definition with_allowed_zones (l : ListenerBinding) (zones : list NetworkZone) : ListenerBinding :=
  mkListener (lb_domain l) (lb_tenant_id l) (lb_local_identity l) zones.
Definition admit_source (l : ListenerBinding) (source : IpAddr) : result unit IngressError :=
  if bool_decide (lb_allowed_zones l = []) || existsb (fun z => zone_contains z source) (lb_allowed_zones l) then Ok tt
  else Err SourceZoneRejected.

Record RequestIdentity := mkRequestIdentity {
  rq_request_uri_host : string;
  rq_to_host : string;
  rq_from_user : string;
  rq_to_user : string;
  rq_body_device_id : option string;
  rq_observed_source : IpAddr
}.
Record DeviceBinding := mkDeviceBinding {
  db_device_id : Uuid;
  db_protocol_identity : string;
  db_transport : SipTransport;
  db_owner_node_id : Uuid;
  db_owner_epoch : Z;
  db_compatibility : CompatibilityProfile
}.

(** The listeners of an [AccessIngress]; one of them is its place in the table, which is
    what [ptr::eq] compares. *)
Definition AccessIngress : Type := list ListenerBinding.
Definition matching (host : string) (g : AccessIngress) : list (nat * ListenerBinding) :=
  filter (fun il => eq_ignore_ascii_case (lb_domain il.2) host = true) (imap pair g).
Definition match_domain (host : string) (g : AccessIngress) : result (nat * ListenerBinding) IngressError :=
  if is_empty_str host then Err UnconfiguredDomain
  else
    match matching host g with
    | [] => Err UnconfiguredDomain
    | [first] => Ok first
    | _ :: _ :: _ => Err AmbiguousDomain
    end.
Definition resolve_listener (ident : RequestIdentity) (g : AccessIngress) : result ListenerBinding IngressError :=
  let? by_request := match_domain (rq_request_uri_host ident) g in
  if negb (is_empty_str (rq_to_host ident)) && negb (eq_ignore_ascii_case (rq_to_host ident) (rq_request_uri_host ident)) then
    let? by_to := match_domain (rq_to_host ident) g in
    if (by_request.1 =? by_to.1)%nat then Ok by_request.2 else Err AmbiguousDomain
  else Ok by_request.2.
Definition validate_body_identity (method : IngressMethod) (ident : RequestIdentity) : result unit IngressError :=
  let? expected :=
    if negb (is_empty_str (rq_from_user ident)) then Ok (rq_from_user ident)
    else if negb (is_empty_str (rq_to_user ident)) then Ok (rq_to_user ident)
    else Err BodyIdentityMismatch in
  match rq_body_device_id ident, method with
  | Some body, _ => if bool_decide (body = expected) then Ok tt else Err BodyIdentityMismatch
  | None, IngRegister => Ok tt
  | None, (IngKeepalive | IngMessage) => Err BodyIdentityMismatch
  end.
Definition ingress_admit (ident : RequestIdentity) (method : IngressMethod) (g : AccessIngress) : result ListenerBinding IngressError :=
  let? listener := resolve_listener ident g in
  let? _ := admit_source listener (rq_observed_source ident) in
  let? _ := validate_body_identity method ident in
  Ok listener.
Definition context (l : ListenerBinding) (b : DeviceBinding) : SessionContext :=
  mkSessionContext (lb_tenant_id l) (db_device_id b) (db_protocol_identity b) (lb_local_identity l) (db_transport b)
    (db_owner_node_id b) (db_owner_epoch b) (db_compatibility b).
Definition authorize_endpoint_update (method : IngressMethod) (authenticated in_dialog_refresh : bool) : result unit IngressError :=
  match method with
  | IngRegister => if authenticated || in_dialog_refresh then Ok tt else Err AuthenticationRequired
  | IngKeepalive | IngMessage => Err EndpointUpdateForbidden
  end.

Definition ir (A : Type) : Type := prog (result A IngressError).
Definition through_link {A} (p : lr A) : ir A :=
  bind p (fun r => Ret (match r with Ok a => Ok a | Err e => Err (IngSession e) end)).

Section ingress.
Context {W : Type} `{Clock W} `{SessionIds W} `{UuidDisplay}.

Definition ingress_register (g : AccessIngress) (ident : RequestIdentity) (b : DeviceBinding) (params : RegisterParams)
    (authenticated : bool) (w : W) : ir RegisterOutcome :=
  if negb authenticated then Ret (Err AuthenticationRequired)
  else
    match ingress_admit ident IngRegister g with
    | Err e => Ret (Err e)
    | Ok listener => through_link (link_register (context listener b) params w)
    end.
Definition ingress_keepalive (g : AccessIngress) (ident : RequestIdentity) (b : DeviceBinding) (w : W) : ir unit :=
  match ingress_admit ident IngKeepalive g with
  | Err e => Ret (Err e)
  | Ok listener => through_link (link_keepalive (context listener b) w)
  end.
Definition ingress_unregister (g : AccessIngress) (ident : RequestIdentity) (b : DeviceBinding) (authenticated : bool) :
    ir (option Uuid) :=
  if negb authenticated then Ret (Err AuthenticationRequired)
  else
    match ingress_admit ident IngRegister g with
    | Err e => Ret (Err e)
    | Ok listener => through_link (link_unregister (context listener b))
    end.
End ingress.

(** ** Many operations at once *)

(** A task starts, the next statement of a task runs, it fails before it reaches the
    database, or it runs and its answer is lost. *)
Inductive event (C : Type) :=
| Start (c : C)
| Step (i : nat)
| Break (i : nat) (e : DomainError)
| Lose (i : nat) (e : DomainError).
#[global] Arguments Start {C} c.
#[global] Arguments Step {C} i.
#[global] Arguments Break {C} i e.
#[global] Arguments Lose {C} i e.
Record System (C A : Type) := mkSystem { sys_rows : Sessions; sys_tasks : list (C * prog A) }.
#[global] Arguments mkSystem {C A}.
#[global] Arguments sys_rows {C A}.
#[global] Arguments sys_tasks {C A}.

Section interleaving.
Context `{DbMessages} {C A : Type} (program : C -> prog A).

Definition advance (i : nat) (f : forall q, Sessions -> Sessions * answer q) (y : System C A) : System C A :=
  match sys_tasks y !! i with
  | Some (c, Call q k) => let '(t, a) := f q (sys_rows y) in mkSystem t (<[i := (c, k a)]> (sys_tasks y))
  | _ => y
  end.
Definition sys_step (y : System C A) (ev : event C) : System C A :=
  match ev with
  | Start c => mkSystem (sys_rows y) (sys_tasks y ++ [(c, program c)])
  | Step i => advance i run_query y
  | Break i e => advance i (fun _ t => (t, Err e)) y
  | Lose i e => advance i (fun q t => ((run_query q t).1, Err e)) y
  end.
Definition sys_run (evs : list (event C)) (y : System C A) : System C A := foldl sys_step y evs.
Definition starts (ok : C -> Prop) (ev : event C) : Prop := match ev with Start c => ok c | _ => True end.

(** What the programs promise each other: in world [w] a program sends the statements
    that are [allowed], an answer [tells] it something, and the table stays as the world
    says ([holds]); worlds only grow. *)
Class Discipline (V : Type) := {
  later : relation V;
  allowed : V -> query -> Prop;
  tells : V -> forall q, answer q -> Prop;
  holds : V -> Sessions -> Prop;
  later_preorder :: PreOrder later;
  allowed_later w w1 q : later w w1 -> allowed w q -> allowed w1 q;
  tells_failure w q e : tells w q (Err e);
  discipline_kept w q t : holds w t -> allowed w q ->
    exists w1, later w w1 /\ holds w1 (run_query q t).1 /\ tells w1 q (run_query q t).2
}.
End interleaving.

Section discipline.
Context `{DbMessages} {V : Type} `{!Discipline V}.
Implicit Types w : V.

(** Whatever the others do meanwhile, the program keeps to the discipline and ends with
    a result as [post] says. *)
Fixpoint safe {A} (post : V -> A -> Prop) (w : V) (p : prog A) : Prop :=
  match p with
  | Ret a => post w a
  | Call q k => allowed w q /\ forall w1 a, later w w1 -> tells w1 q a -> safe post w1 (k a)
  end.
Definition persists {A} (post : V -> A -> Prop) : Prop := forall w w1 a, later w w1 -> post w a -> post w1 a.

Lemma safe_later {A} (post : V -> A -> Prop) w w1 p : persists post -> later w w1 -> safe post w p -> safe post w1 p.
Proof.
  intros Hp Hl. destruct p as [a|q k]; simpl; [by apply Hp|]. intros [Ha Hk]. split; [by eapply allowed_later|].
  intros w2 a Hl2. apply Hk. by etrans.
Qed.
Lemma safe_bind {A B} (post1 : V -> A -> Prop) (post : V -> B -> Prop) w p (k : A -> prog B) :
  safe post1 w p -> (forall w1 a, later w w1 -> post1 w1 a -> safe post w1 (k a)) -> safe post w (bind p k).
Proof.
  revert w. induction p as [a|q c IH]; intros w Hp Hk; simpl in *; [by apply Hk|]. destruct Hp as [Ha Hc]. split; [done|].
  intros w1 a Hl Ht. apply IH; [by apply Hc|]. intros w2 b Hl2. apply Hk. by etrans.
Qed.
Lemma safe_weaken {A} (post1 post : V -> A -> Prop) w p :
  (forall w1 a, post1 w1 a -> post w1 a) -> safe post1 w p -> safe post w p.
Proof. intros Hi. revert w. induction p as [a|q c IH]; intros w; simpl; [apply Hi|]. intros [Ha Hc]. split; [done|]. eauto. Qed.

Lemma safe_await {A B} (post1 : V -> result A DomainError -> Prop) (post : V -> result B SessionLinkError -> Prop) w p k :
  safe post1 w p -> (forall w1 e, post w1 (Err e)) ->
  (forall w1 x, later w w1 -> post1 w1 (Ok x) -> safe post w1 (k x)) -> safe post w (await p k).
Proof. intros Hp He Hk. eapply safe_bind; [exact Hp|]. intros w1 [x|e] Hl Hx; [by apply Hk|by apply He]. Qed.

Section tasks.
Context {C A : Type} (program : C -> prog A) (post : C -> V -> A -> Prop) (Hpost : forall c, persists (post c)).

Definition tasks_safe (w : V) (y : System C A) : Prop :=
  holds w (sys_rows y) /\ Forall (fun cp => safe (post cp.1) w cp.2) (sys_tasks y).
Lemma advance_safe i f w y :
  tasks_safe w y ->
  (forall q, allowed w q -> exists w1, later w w1 /\ holds w1 (f q (sys_rows y)).1 /\ tells w1 q (f q (sys_rows y)).2) ->
  exists w1, later w w1 /\ tasks_safe w1 (advance i f y).
Proof.
  intros [Hh Ht] Hf. unfold advance. destruct (sys_tasks y !! i) as [[c [a|q k]]|] eqn:Hi; [by exists w| |by exists w].
  destruct (proj1 (Forall_lookup _ _) Ht _ _ Hi) as [Ha Hk]. destruct (Hf q Ha) as (w1 & Hl & Hh1 & Ht1).
  destruct (f q (sys_rows y)) as [t a]. exists w1. split; [done|]. split; [done|]. simpl. apply Forall_insert; [|by apply Hk].
  eapply Forall_impl; [exact Ht|]. intros [c1 p1]. by apply safe_later.
Qed.
Lemma run_safe (ok : C -> Prop) evs w y :
  (forall w c, ok c -> safe (post c) w (program c)) -> Forall (starts ok) evs -> tasks_safe w y ->
  exists w1, later w w1 /\ tasks_safe w1 (sys_run program evs y).
Proof.
  intros Hsafe Hevs. revert w y. induction Hevs as [|ev evs Hev Hevs IH]; intros w y Hy; [by exists w|].
  assert (exists w1, later w w1 /\ tasks_safe w1 (sys_step program y ev)) as (w1 & Hl1 & Hy1).
  { destruct ev as [c|i|i e|i e]; simpl.
    - exists w. split; [done|]. destruct Hy as [Hh Ht]. split; [done|]. apply Forall_app. split; [done|].
      constructor; [by apply Hsafe|done].
    - apply advance_safe; [done|]. intros q. by apply discipline_kept, Hy.
    - apply advance_safe; [done|]. intros q Ha. exists w. split; [done|]. split; [apply Hy|apply tells_failure].
    - apply advance_safe; [done|]. intros q Ha. destruct (discipline_kept w q (sys_rows y) (proj1 Hy) Ha) as (w1 & Hl & Hh & _).
      exists w1. split; [done|]. split; [done|apply tells_failure]. }
  destruct (IH _ _ Hy1) as (w2 & Hl2 & Hy2). exists w2. split; [by etrans|done].
Qed.
End tasks.
End discipline.

(** ** One line of versions *)

Inductive link_call (W : Type) :=
| LcRegister (ctx : SessionContext) (params : RegisterParams) (w : W)
| LcUnregister (ctx : SessionContext)
| LcKeepalive (ctx : SessionContext) (w : W)
| LcAcquireOwner (tenant device node : Uuid) (new_epoch : Z) (w : W)
| LcReapExpired (fuel : nat) (now : UtcTimestamp) (page_size : Z) (max_sessions : nat) (w : W).
#[global] Arguments LcRegister {W}.
#[global] Arguments LcUnregister {W}.
#[global] Arguments LcKeepalive {W}.
#[global] Arguments LcAcquireOwner {W}.
#[global] Arguments LcReapExpired {W}.
Inductive link_outcome :=
| LoRegister (r : result RegisterOutcome SessionLinkError)
| LoUnregister (r : result (option Uuid) SessionLinkError)
| LoKeepalive (r : result unit SessionLinkError)
| LoAcquireOwner (r : result (option Z) SessionLinkError)
| LoReapExpired (r : option (result Z SessionLinkError)).

Section line.
Context `{DbMessages} {W : Type} `{Clock W} `{SessionIds W} `{UuidDisplay}.
Implicit Types (s v : ProtocolSession) (t : Sessions).

Definition link_program (c : link_call W) : prog link_outcome :=
  match c with
  | LcRegister ctx params w => bind (link_register ctx params w) (fun r => Ret (LoRegister r))
  | LcUnregister ctx => bind (link_unregister ctx) (fun r => Ret (LoUnregister r))
  | LcKeepalive ctx w => bind (link_keepalive ctx w) (fun r => Ret (LoKeepalive r))
  | LcAcquireOwner tenant device node epoch w =>
      bind (link_acquire_owner tenant device node epoch w) (fun r => Ret (LoAcquireOwner r))
  | LcReapExpired fuel now size max w => bind (reap_expired fuel now size max w) (fun r => Ret (LoReapExpired r))
  end.
Definition unregisters (c : link_call W) : bool := match c with LcUnregister _ => true | _ => false end.

(** A session as [new] makes it, and the next version: one method that succeeds, an
    owner with an epoch that is not older. *)
Definition created s : Prop := exists p (w w1 : W), new p w = (Ok s, w1).
Definition made s s1 : Prop :=
  exists c (w w1 : W), exec c s w = (Ok tt, s1, w1) /\ forall node epoch, c = AssignOwner node epoch -> owner_epoch s <= epoch.

Lemma created_fields s : created s -> revision s = 0 /\ presence s = PsUnknown.
Proof.
  intros (p & w & w1 & Hn). unfold new in Hn. revert Hn.
  repeat match goal with |- context [match ?r with Ok _ => _ | Err _ => _ end] => destruct r; [|done] end.
  destruct (now_wall w). by intros [= <- _].
Qed.
Lemma exec_session_epoch c s (w : W) :
  (forall node epoch, c = AssignOwner node epoch -> owner_epoch s <= epoch) -> owner_epoch s <= owner_epoch (exec c s w).1.2.
Proof.
  destruct c as [r expiry e| |reason|node epoch]; intros Hc; simpl;
    unfold refresh_registration, record_keepalive, mark_offline, assign_owner, bump, dm_field; dm_unfold;
    repeat match goal with
    | |- context [now_wall ?w] => destruct (now_wall w); simpl
    | |- context [if ?b then _ else _] => destruct b; simpl
    | |- context [match ?o with Some _ => _ | None => _ end] => destruct o; simpl
    | |- context [match ?r with Ok _ => _ | Err _ => _ end] => destruct r as [[]|]; simpl
    end; try lia. by eapply Hc.
Qed.
Lemma made_step s s1 :
  made s s1 -> SessionFacts.renews s s1 /\ owner_epoch s <= owner_epoch s1 /\ revision s1 = wrap64 (revision s + 1).
Proof.
  intros (c & w & w1 & He & Hc). pose proof (SessionFacts.exec_session_renews c s w). pose proof (exec_session_epoch c s w Hc).
  pose proof (SessionFacts.exec_session_count c s w). rewrite He in *. done.
Qed.

Definition in_range s : Prop := 0 <= revision s <= I64_MAX.
(** [s1] comes from [s] by [n] versions. *)
Definition line (n : nat) s s1 : Prop := nsteps made n s s1.
Lemma line_facts n s s1 : line n s s1 -> SessionFacts.renews s s1 /\ owner_epoch s <= owner_epoch s1.
Proof.
  induction 1 as [|n x y z Hm _ [IH1 IH2]]; [done|]. destruct (made_step _ _ Hm) as (Hr & He & _).
  split; [by etrans|lia].
Qed.
Lemma made_id s s1 : made s s1 -> session_id s1 = session_id s.
Proof. intros Hm. destruct (made_step _ _ Hm) as [(Hc & _) _]. unfold session_id. by rewrite Hc. Qed.
Lemma made_columns s s1 :
  made s s1 -> device_columns s1 = device_columns s /\ identity_columns s1 = identity_columns s.
Proof. intros Hm. destruct (made_step _ _ Hm) as [(Hc & _) _]. unfold device_columns, identity_columns. by rewrite Hc. Qed.

(** Two rows differ in the columns of the unique indexes. *)
Definition indexed t : Prop :=
  forall i j s v, t !! i = Some s -> t !! j = Some v -> device_columns s = device_columns v \/ identity_columns s = identity_columns v ->
  i = j.
Definition keyed t : Prop := forall i s, t !! i = Some s -> session_id s = i.
Lemma rows_elem t s : s ∈ session_rows t <-> exists i, t !! i = Some s.
Proof.
  unfold session_rows. rewrite list_elem_of_fmap. split.
  - intros ([i s1] & -> & Hi). exists i. by apply elem_of_map_to_list.
  - intros [i Hi]. exists (i, s). split; [done|]. by apply elem_of_map_to_list.
Qed.
Lemma index_insert t s : keyed t -> indexed t -> index_taken s t = false -> indexed (<[session_id s := s]> t).
Proof.
  intros Hk Hx Hn%bool_decide_eq_false.
  assert (forall j v, j <> session_id s -> t !! j = Some v ->
    device_columns v = device_columns s \/ identity_columns v = identity_columns s -> False) as Hfree.
  { intros j v Hj Hv Hc. apply Hn, Exists_exists. exists v. split; [apply rows_elem; by exists j|]. by rewrite (Hk _ _ Hv). }
  intros i j a b [[<- <-]|[Hi Ha]]%lookup_insert_Some [[<- <-]|[Hj Hb]]%lookup_insert_Some Hc; [done| | |by eapply Hx].
  - exfalso. eapply (Hfree j b); [done..|]. by destruct Hc; [left|right].
  - exfalso. by eapply (Hfree i a).
Qed.

Definition versions_hold (vs : list ProtocolSession) t : Prop :=
  keyed t /\ indexed t
  /\ (forall i s, t !! i = Some s -> s ∈ vs) /\ (forall s, s ∈ vs -> in_range s)
  /\ (forall s, s ∈ vs -> exists cur n, t !! session_id s = Some cur /\ line n s cur /\ revision cur = revision s + Z.of_nat n)
  /\ (forall s, s ∈ vs -> exists s0, created s0 /\ line (Z.to_nat (revision s)) s0 s).
Definition versions_allowed (vs : list ProtocolSession) (q : query) : Prop :=
  match q with
  | QUpsert s => created s \/ exists v, v ∈ vs /\ made v s
  | QDelete _ _ _ => False
  | _ => True
  end.
Definition versions_tell (vs : list ProtocolSession) (q : query) : answer q -> Prop :=
  match q return answer q -> Prop with
  | QGetByDevice tenant p device => fun a =>
      match a with Ok (Some s) => s ∈ vs /\ device_columns s = (tenant, Protocol_str p, device) | _ => True end
  | QUpsert s => fun a => match a with Ok true => s ∈ vs | _ => True end
  | QListExpired _ _ => fun a => match a with Ok page => forall s, s ∈ items page -> s ∈ vs | _ => True end
  | _ => fun _ => True
  end.

Lemma rows_ids t : keyed t -> NoDup (session_id <$> session_rows t).
Proof.
  intros Hk. unfold session_rows. rewrite <-list_fmap_compose. erewrite (Forall_fmap_ext_1 _ fst); [apply NoDup_fst_map_to_list|].
  apply Forall_forall. intros [i s] Hi%elem_of_map_to_list. simpl. by apply Hk.
Qed.
Lemma rows_nodup t : keyed t -> NoDup (session_rows t).
Proof. intros Hk. eapply NoDup_fmap_1, rows_ids, Hk. Qed.
Lemma get_by_device_row t tenant p device s :
  get_by_device tenant p device t = Some s -> (exists i, t !! i = Some s) /\ device_columns s = (tenant, Protocol_str p, device).
Proof.
  intros [Hin Hc]%find_some. split; [by apply rows_elem, list_elem_of_In|]. by apply bool_decide_eq_true in Hc.
Qed.
Lemma list_expired_row t now p s : keyed t -> s ∈ items (list_expired now p t) -> exists i, t !! i = Some s.
Proof.
  intros Hk Hs. apply rows_elem.
  destruct (page_of_spec expiry_key p (filter (fun s => as_millis (expiry_at s) <= as_millis now) (session_rows t))) as (_ & Hi & _);
    [by apply NoDup_filter, rows_nodup|].
  by destruct (Hi _ Hs) as [[_ Hr]%list_elem_of_filter _].
Qed.
Lemma made_range v s : in_range v -> made v s -> revision s = revision v + 1.
Proof.
  intros Hr Hm. destruct (made_step _ _ Hm) as (_ & _ & ->). unfold in_range, I64_MAX in Hr. apply Z.mod_small. lia.
Qed.
(** A write leaves the table, creates a row or replaces the version it was made from. *)
Lemma upsert_kept vs s t :
  versions_hold vs t -> created s \/ (exists v, v ∈ vs /\ made v s) ->
  (ps_upsert s t).1 = t /\ (ps_upsert s t).2 <> Ok true
  \/ (ps_upsert s t).1 = <[session_id s := s]> t /\ index_taken s t = false
     /\ (t !! session_id s = None /\ created s \/ exists v, t !! session_id s = Some v /\ made v s /\ in_range s).
Proof.
  intros (Hk & Hx & Hrow & Hrange & Hl & _) Hs. unfold ps_upsert. destruct (t !! session_id s) as [cur|] eqn:Hcur.
  - destruct (Z.eqb_spec (as_i64 (revision s)) I64_MIN) as [|Hmin]; [by left|].
    destruct (Z.eqb_spec (as_i64 (revision cur)) (as_i64 (revision s) - 1)) as [Heq|]; [|by left].
    destruct (index_taken s t) eqn:Ht; [by left|]. right. split; [done|]. split; [done|]. right. exists cur. split; [done|].
    pose proof (Hrange _ (Hrow _ _ Hcur)) as Hcr. rewrite (as_i64_id (revision cur)) in Heq by apply Hcr.
    destruct Hs as [Hs|(v & Hv & Hm)].
    + destruct (created_fields _ Hs) as [Hz _]. rewrite Hz in Heq. unfold in_range, as_i64 in *. simpl in Heq. lia.
    + destruct (Hl _ Hv) as (cur1 & n & Hcur1 & Hline & Hn). rewrite <-(made_id _ _ Hm), Hcur in Hcur1. injection Hcur1 as <-.
      pose proof (Hrange _ Hv) as Hvr. pose proof (made_range _ _ Hvr Hm) as Hs.
      assert (n = 0%nat /\ in_range s) as [-> Hsr].
      { unfold in_range, as_i64, I64_MIN, I64_MAX in *. destruct (Z.leb_spec (revision s) (2 ^ 63 - 1)); lia. }
      inversion Hline; subst. done.
  - destruct (index_taken s t) eqn:Ht; [by left|]. right. split; [done|]. split; [done|]. left. split; [done|].
    destruct Hs as [|(v & Hv & Hm)]; [done|]. destruct (Hl _ Hv) as (cur & n & Hcur1 & _).
    by rewrite <-(made_id _ _ Hm), Hcur in Hcur1.
Qed.
Lemma versions_write vs s t :
  versions_hold vs t -> index_taken s t = false ->
  (t !! session_id s = None /\ created s \/ exists v, t !! session_id s = Some v /\ made v s /\ in_range s) ->
  versions_hold (s :: vs) (<[session_id s := s]> t).
Proof.
  intros (Hk & Hx & Hrow & Hrange & Hl & Hc) Hn Hs. split_and!.
  - intros i r [[<- <-]|[_ Hi]]%lookup_insert_Some; [done|by apply Hk].
  - by apply index_insert.
  - intros i r [[<- <-]|[_ Hi]]%lookup_insert_Some; apply elem_of_cons; [by left|right; eauto].
  - intros r [->|Hr]%elem_of_cons; [|by apply Hrange]. destruct Hs as [[_ Hs]|(v & _ & _ & Hs)]; [|done].
    destruct (created_fields _ Hs) as [Hz _]. unfold in_range, I64_MAX. lia.
  - intros r [->|Hr]%elem_of_cons.
    { exists s, 0%nat. rewrite lookup_insert_eq. split_and!; [done|constructor|lia]. }
    destruct (Hl _ Hr) as (cur & n & Hcur & Hline & Hrev). destruct (decide (session_id r = session_id s)) as [He|He].
    + rewrite He in *. destruct Hs as [[Hs _]|(v & Hv & Hm & _)]; [congruence|]. rewrite Hv in Hcur. injection Hcur as <-.
      exists s, (S n). rewrite lookup_insert_eq. split_and!; [done|by eapply nsteps_r|].
      rewrite (made_range v s); [lia| |done]. by eapply Hrange, Hrow.
    + exists cur, n. by rewrite lookup_insert_ne.
  - intros r [->|Hr]%elem_of_cons; [|by apply Hc]. destruct Hs as [[_ Hs]|(v & Hv & Hm & Hsr)].
    + exists s. split; [done|]. destruct (created_fields _ Hs) as [-> _]. constructor.
    + destruct (Hc v) as (s0 & Hs0 & Hline); [by eapply Hrow|]. exists s0. split; [done|].
      pose proof (Hrange v (Hrow _ _ Hv)) as Hvr. rewrite (made_range v s Hvr Hm), Z2Nat.inj_add, Nat.add_1_r by (unfold in_range in Hvr; lia).
      by eapply nsteps_r.
Qed.
#[local] Program Instance versions : Discipline (list ProtocolSession) := {|
  later := subseteq;
  allowed := versions_allowed;
  tells := versions_tell;
  holds := versions_hold
|}.
Next Obligation. intros vs vs1 [] Hl; simpl; try done. intros [|(v & Hv & Hm)]; [by left|]. right. exists v. split; [by apply Hl|done]. Qed.
Next Obligation. by intros vs [] e. Qed.
Next Obligation.
  intros vs q t Hh Ha. pose proof Hh as (Hk & _ & Hrow & _). destruct q as [tenant p device|s|id|tenant id rev|tenant id|now p]; simpl in *.
  - exists vs. split_and!; [done..|]. destruct (get_by_device tenant p device t) as [s|] eqn:Hg; [|done].
    destruct (get_by_device_row _ _ _ _ _ Hg) as [[i Hi] Hd]. split; [by eapply Hrow|done].
  - pose proof (upsert_kept _ _ _ Hh Ha) as Hu. destruct (ps_upsert s t) as [t1 a]. simpl in *.
    destruct Hu as [[-> Hne]|(-> & Hn & Hs)].
    + exists vs. split_and!; [done..|]. by destruct a as [[]|].
    + exists (s :: vs). split_and!; [set_solver|by apply versions_write|]. destruct a as [[]|]; [set_solver|done..].
  - by exists vs.
  - done.
  - by exists vs.
  - exists vs. split_and!; [done..|]. intros s Hs. destruct (list_expired_row _ _ _ _ Hk Hs) as [i Hi]. by eapply Hrow.
Qed.

(** ** What the operations answer *)

Definition gb_columns (tenant device : Uuid) : Uuid * string * Uuid := (tenant, Protocol_str ProtoGb28181, device).
Definition registered (ctx : SessionContext) (params : RegisterParams) v : Prop :=
  device_columns v = gb_columns (sc_tenant_id ctx) (sc_device_id ctx) /\ endpoint v = rp_endpoint params
  /\ registration v = rp_registration params /\ expiry_at v = rp_expiry_at params
  /\ owner_node_id v = Some (sc_owner_node_id ctx) /\ owner_epoch v = sc_owner_epoch ctx.
(** What a success says: a version that is [stored] has it. *)
Definition acknowledged (stored : ProtocolSession -> Prop) (c : link_call W) (o : link_outcome) : Prop :=
  match c, o with
  | LcRegister ctx params _, LoRegister (Ok (Created id epoch)) =>
      epoch = sc_owner_epoch ctx
      /\ exists v, stored v /\ session_id v = id /\ revision v = 0 /\ session_tenant v = sc_tenant_id ctx /\ registered ctx params v
  | LcRegister ctx params _, LoRegister (Ok (Refreshed id rev)) =>
      exists v, stored v /\ session_id v = id /\ revision v = rev /\ presence v = PsOnline /\ registered ctx params v
  | LcKeepalive ctx w, LoKeepalive (Ok _) =>
      let '(now, w) := now_wall w in
      exists v0 v, stored v0 /\ device_columns v0 = gb_columns (sc_tenant_id ctx) (sc_device_id ctx)
        /\ owner_epoch v0 <= sc_owner_epoch ctx /\ now < expiry_at v0
        /\ stored v /\ session_id v = session_id v0 /\ revision v = wrap64 (revision v0 + 1) /\ presence v = PsOnline
        /\ last_keepalive_at v = Some (now_wall w).1 /\ endpoint v = endpoint v0 /\ expiry_at v = expiry_at v0
  | LcAcquireOwner tenant device node epoch _, LoAcquireOwner (Ok (Some rev)) =>
      exists v, stored v /\ device_columns v = gb_columns tenant device /\ revision v = rev
        /\ owner_node_id v = Some node /\ owner_epoch v = epoch
  | LcRegister _ _ _, LoRegister (Err _) | LcKeepalive _ _, LoKeepalive (Err _) => True
  | LcAcquireOwner _ _ _ _ _, LoAcquireOwner (Ok None | Err _) => True
  | LcReapExpired _ _ _ _ _, LoReapExpired _ => True
  | _, _ => False
  end.
Lemma acknowledged_mono (P Q : ProtocolSession -> Prop) c o :
  (forall v, P v -> Q v) -> acknowledged P c o -> acknowledged Q c o.
Proof.
  intros Hpq. destruct c, o as [[[]|]|[[]|]|[[]|]|[[]|]|]; simpl; try done;
    try match goal with |- context [now_wall ?x] => destruct (now_wall x) end;
    first [naive_solver | intros (v0 & v & Hs0 & Hd & He & Hx & Hs & Hrest); exists v0, v; auto 10].
Qed.

Lemma safe_save vs s :
  versions_allowed vs (QUpsert s) -> safe (fun vs1 r => r = Ok tt -> s ∈ vs1) vs (ps_save s).
Proof.
  intros Ha. split; [done|]. intros vs1 [[]|e] Hl Ht; simpl in *; [done| |done]. split; [done|].
  intros vs2 [[r|]|e] Hl2 _; simpl; try done. unfold stored_revision_as_u64. by case_match.
Qed.
Lemma safe_find vs tenant p device :
  safe (fun vs1 r => forall s, r = Ok (Some s) -> s ∈ vs1 /\ device_columns s = (tenant, Protocol_str p, device)) vs
    (find_device tenant p device).
Proof. split; [done|]. intros vs1 [[s|]|e] Hl Ht; simpl in *; try done. by intros ? [= <-]. Qed.
Lemma keepalive_made s (w : W) :
  let s1 := (record_keepalive s w).1.2 in
  made s s1 /\ presence s1 = PsOnline /\ last_keepalive_at s1 = Some (now_wall w).1
  /\ endpoint s1 = endpoint s /\ expiry_at s1 = expiry_at s.
Proof.
  destruct (record_keepalive s w) as [[r s1] w1] eqn:He. simpl.
  assert (r = Ok tt /\ presence s1 = PsOnline /\ last_keepalive_at s1 = Some (now_wall w).1
    /\ endpoint s1 = endpoint s /\ expiry_at s1 = expiry_at s) as (-> & Hf).
  { revert He. unfold record_keepalive, bump; dm_unfold. destruct (now_wall w) as [n w2]. simpl. destruct (now_wall w2). by intros [= <- <- <-]. }
  split; [|done]. by exists RecordKeepalive, w, w1.
Qed.
Lemma assign_made s (w : W) node epoch :
  owner_epoch s <= epoch ->
  let s1 := (assign_owner node epoch s w).1.2 in made s s1 /\ owner_node_id s1 = Some node /\ owner_epoch s1 = epoch.
Proof.
  intros Hle. destruct (assign_owner node epoch s w) as [[r s1] w1] eqn:He. simpl.
  assert (r = Ok tt /\ owner_node_id s1 = Some node /\ owner_epoch s1 = epoch) as (-> & Hp & Ho).
  { revert He. unfold assign_owner, bump; dm_unfold. destruct (now_wall w). by intros [= <- <- <-]. }
  split_and!; [|done..]. exists (AssignOwner node epoch), w, w1. split; [done|]. by intros ?? [= <- <-].
Qed.
Lemma refresh_made params s (w w1 : W) s1 :
  refresh_registration (rp_registration params) (rp_expiry_at params) (Some (rp_endpoint params)) s w = (Ok tt, s1, w1) ->
  made s s1 /\ presence s1 = PsOnline /\ endpoint s1 = rp_endpoint params /\ registration s1 = rp_registration params
  /\ expiry_at s1 = rp_expiry_at params /\ owner_node_id s1 = owner_node_id s /\ owner_epoch s1 = owner_epoch s.
Proof.
  intros He. split; [by eexists (RefreshRegistration _ _ _), w, w1|]. revert He.
  unfold refresh_registration, bump, dm_field; dm_unfold.
  repeat match goal with
  | |- context [now_wall ?w] => destruct (now_wall w); simpl
  | |- context [if ?b then _ else _] => destruct b; simpl; [done|]
  | |- context [match ?r with Ok _ => _ | Err _ => _ end] => destruct r as [[]|]; simpl; [|done]
  end. by intros [= <- <-].
Qed.
Lemma new_registered ctx params id (w w1 : W) s :
  new (new_session ctx params id) w = (Ok s, w1) -> session_id s = id /\ session_tenant s = sc_tenant_id ctx /\ registered ctx params s.
Proof.
  unfold new. intros Hn. revert Hn.
  match goal with |- context [match ?r with Ok _ => _ | Err _ => _ end] => destruct r; [|done] end.
  destruct (now_wall w). by intros [= <- _].
Qed.

Lemma ensure_current s got r : ensure_owner_current s got = Ok r -> owner_epoch s <= got.
Proof. unfold ensure_owner_current. destruct (Z.ltb_spec got (owner_epoch s)); [done|lia]. Qed.

Lemma refresh_safe vs ctx params s (w : W) :
  s ∈ vs -> device_columns s = gb_columns (sc_tenant_id ctx) (sc_device_id ctx) ->
  owner_node_id s = Some (sc_owner_node_id ctx) -> owner_epoch s = sc_owner_epoch ctx ->
  safe (fun vs1 r => acknowledged (.∈ vs1) (LcRegister ctx params w) (LoRegister r)) vs (refresh params s w).
Proof.
  intros Hs Hd Hn He. unfold refresh. destruct (refresh_registration _ _ _ s w) as [[[[]|e] s1] w1] eqn:Hf; [|done].
  destruct (refresh_made _ _ _ _ _ Hf) as (Hm & Hp & Hend & Hreg & Hexp & Hn1 & He1).
  eapply safe_await; [apply safe_save; right; by exists s|done|]. intros vs1 [] Hl Hin. exists s1.
  destruct (made_columns _ _ Hm) as [Hc _]. unfold registered. rewrite Hc. split_and!; try done; [by apply Hin|congruence..].
Qed.
Lemma register_safe vs ctx params (w0 w : W) :
  safe (fun vs1 r => acknowledged (.∈ vs1) (LcRegister ctx params w0) (LoRegister r)) vs (link_register ctx params w).
Proof.
  eapply safe_await; [apply safe_find|done|]. intros vs1 [s|] Hl Hs.
  - destruct (Hs s eq_refl) as [Hin Hd]. destruct (ensure_owner_current s _) as [u|e] eqn:Hcur; [|done].
    apply ensure_current in Hcur. case_match eqn:Hown.
    + destruct (assign_made s w (sc_owner_node_id ctx) (sc_owner_epoch ctx) Hcur) as (Hm & Hn & He).
      destruct (assign_owner _ _ s w) as [[r s1] w1]. cbn [fst snd] in *. destruct (made_columns _ _ Hm) as [Hc _].
      eapply safe_await; [apply safe_save; right; by exists s|done|]. intros vs2 [] Hl2 Hs2.
      apply (refresh_safe vs2 ctx params s1 w1); [by apply Hs2|by rewrite Hc|done..].
    + apply orb_false_iff in Hown as [Hn He]. apply negb_false_iff, bool_decide_eq_true in Hn.
      apply (refresh_safe vs1 ctx params s w); [done..|lia].
  - destruct (generate_protocol_session_id w) as [id w1]. destruct (new _ w1) as [[s|e] w2] eqn:Hnew; [|done].
    destruct (new_registered _ _ _ _ _ _ Hnew) as (Hid & Ht & Hr).
    assert (created s) as Hc by (by eexists _, _, _). eapply safe_await; [apply safe_save; by left|done|].
    intros vs2 [] Hl2 Hs2. split; [done|]. exists s. split_and!; [by apply Hs2|done|by apply created_fields|done|done].
Qed.
Lemma keepalive_safe vs ctx (w : W) :
  safe (fun vs1 r => acknowledged (.∈ vs1) (LcKeepalive ctx w) (LoKeepalive r)) vs (link_keepalive ctx w).
Proof.
  unfold link_keepalive, acknowledged. destruct (now_wall w) as [now w1].
  eapply safe_await; [apply safe_find|done|]. intros vs1 [s|] Hl Hs; [|done].
  destruct (Hs s eq_refl) as [Hin Hd]. destruct (ensure_owner_current s _) as [u|e] eqn:Hcur; [|done].
  apply ensure_current in Hcur. unfold is_expired. destruct (Z.leb_spec (expiry_at s) now); [done|].
  destruct (keepalive_made s w1) as (Hm & Hp & Hk & He & Hx).
  destruct (record_keepalive s w1) as [[r s1] w2]. cbn [fst snd] in *. destruct (made_step _ _ Hm) as (_ & _ & Hrev).
  eapply safe_await; [apply safe_save; right; by exists s|done|]. intros vs2 [] Hl2 Hs2. exists s, s1.
  split_and!; try done; [by apply Hl2|by apply Hs2|by apply made_id].
Qed.
Lemma acquire_safe vs tenant device node epoch (w0 w : W) :
  safe (fun vs1 r => acknowledged (.∈ vs1) (LcAcquireOwner tenant device node epoch w0) (LoAcquireOwner r)) vs
    (link_acquire_owner tenant device node epoch w).
Proof.
  eapply safe_await; [apply safe_find|done|]. intros vs1 [s|] Hl Hs; [|done]. destruct (Hs s eq_refl) as [Hin Hd].
  destruct (Z.leb_spec epoch (owner_epoch s)); [done|]. destruct (assign_made s w node epoch) as (Hm & Hn & He); [lia|].
  destruct (assign_owner node epoch s w) as [[r s1] w1]. cbn [fst snd] in *. destruct (made_columns _ _ Hm) as [Hc _].
  eapply safe_await; [apply safe_save; right; by exists s|done|]. intros vs2 [] Hl2 Hs2. exists s1.
  rewrite Hc. split_and!; [by apply Hs2|done..].
Qed.

Lemma mark_expired_safe vs expired reaped (w : W) :
  (forall s, s ∈ expired -> s ∈ vs) -> safe (fun _ _ => True) vs (mark_expired expired reaped w).
Proof.
  revert vs reaped w. induction expired as [|s expired IH]; intros vs reaped w Hs; [done|]. cbn [mark_expired].
  destruct (mark_offline REASON_EXPIRED s w) as [[[[]|e] s1] w1] eqn:Hm; [|done].
  eapply safe_bind; [apply safe_save; right; exists s; split; [apply Hs; set_solver|by exists (MarkOffline REASON_EXPIRED), w, w1]|].
  intros vs1 a Hl _.
  assert (forall n, safe (fun _ _ => True) vs1 (mark_expired expired n w1)) as Hrest
    by (intros n; apply IH; intros; apply Hl, Hs; set_solver).
  destruct a as [|[]]; done.
Qed.
Lemma pick_online_elem max l expired s : s ∈ pick_online max l expired -> s ∈ l \/ s ∈ expired.
Proof. revert expired. induction l as [|x l IH]; intros expired; simpl; repeat case_match; try set_solver. intros Hs%IH. set_solver. Qed.
Lemma collect_safe fuel now size max cursor vs expired k :
  (forall s, s ∈ expired -> s ∈ vs) ->
  (forall vs1 l, vs ⊆ vs1 -> (forall s, s ∈ l -> s ∈ vs1) -> safe (fun _ _ => True) vs1 (k l)) ->
  safe (fun _ _ => True) vs (collect_expired fuel now size max cursor expired k).
Proof.
  revert cursor vs expired. induction fuel as [|fuel IH]; intros cursor vs expired Hs Hk; simpl; case_match; try done; try by apply Hk.
  destruct (PageRequest_new size) as [page|e]; [|done]. split; [done|]. intros vs1 [result|e] Hl Ht; [|done]. simpl in *.
  assert (forall s, s ∈ pick_online max (items result) expired -> s ∈ vs1) as Hp
    by (intros s [|]%pick_online_elem; [by apply Ht|by apply Hl, Hs]).
  destruct (next_cursor result); [apply IH; [done|]|by apply Hk]. intros vs2 l Hl2. apply Hk. by etrans.
Qed.
Lemma link_program_safe vs c :
  unregisters c = false -> safe (fun vs1 => acknowledged (.∈ vs1) c) vs (link_program c).
Proof.
  destruct c as [ctx params w|ctx|ctx w|tenant device node epoch w|fuel now size max w]; intros Hc; cbn [link_program]; [|done|..].
  - eapply safe_bind; [apply (register_safe vs ctx params w)|]. done.
  - eapply safe_bind; [apply (keepalive_safe vs ctx w)|]. done.
  - eapply safe_bind; [apply (acquire_safe vs tenant device node epoch w)|]. done.
  - eapply safe_bind; [|done]. apply collect_safe; [set_solver|]. intros vs1 l Hl Hin.
    eapply safe_bind; [by apply mark_expired_safe|done].
Qed.

Definition empty_system : System (link_call W) link_outcome := mkSystem ∅ [].
Lemma empty_safe : tasks_safe (fun c vs => acknowledged (.∈ vs) c) [] empty_system.
Proof. split; [|done]. unfold holds, versions, versions_hold, keyed, indexed. set_solver. Qed.
Lemma link_run_safe evs vs y :
  Forall (starts (fun c => unregisters c = false)) evs -> tasks_safe (fun c vs => acknowledged (.∈ vs) c) vs y ->
  exists vs1, vs ⊆ vs1 /\ tasks_safe (fun c vs => acknowledged (.∈ vs) c) vs1 (sys_run link_program evs y).
Proof.
  intros Hevs Hy. refine (run_safe link_program _ _ _ evs vs y _ Hevs Hy); [|intros; by apply link_program_safe].
  intros c w w1 o Hl. apply acknowledged_mono. intros v. apply Hl.
Qed.

(** C18: Whatever the nodes do at once, with statements that fail and answers that are
    lost, and while nobody unregisters: every stored session stays, each version comes
    from the one before by one successful method with the next revision, its identity
    never changes and owner epoch and CSeq never decrease; every row goes back to its
    creation, revisions stay within 63 bits and no two rows share a device or an
    identity. *)
Theorem sessions_linear evs1 evs2 :
  Forall (starts (fun c => unregisters c = false)) (evs1 ++ evs2) ->
  let t1 := sys_rows (sys_run link_program evs1 empty_system) in
  let t2 := sys_rows (sys_run link_program (evs1 ++ evs2) empty_system) in
  (forall id s1, t1 !! id = Some s1 -> exists s2 n, t2 !! id = Some s2
     /\ nsteps made n s1 s2 /\ revision s2 = revision s1 + Z.of_nat n
     /\ config s2 = config s1 /\ owner_epoch s1 <= owner_epoch s2 /\ ri_cseq (registration s1) <= ri_cseq (registration s2))
  /\ (forall id s, t2 !! id = Some s ->
       0 <= revision s <= I64_MAX /\ exists s0, created s0 /\ nsteps made (Z.to_nat (revision s)) s0 s)
  /\ indexed t2.
Proof.
  intros [Hev1 Hev2]%Forall_app t1 t2. destruct (link_run_safe _ _ _ Hev1 empty_safe) as (vs1 & _ & Hy1).
  destruct (link_run_safe _ _ _ Hev2 Hy1) as (vs2 & Hl & Hy2).
  destruct Hy1 as [(Hk1 & _ & Hrow1 & _) _]. destruct Hy2 as [(Hk2 & Hx2 & Hrow2 & Hr2 & Hline2 & Hc2) _].
  unfold sys_run in *. rewrite <-foldl_app in *. split_and!; [..|done].
  - intros id s1 Hs1. destruct (Hline2 s1) as (s2 & n & Hs2 & Hn & Hrev); [by eapply Hl, Hrow1|].
    rewrite (Hk1 _ _ Hs1) in Hs2. destruct (line_facts _ _ _ Hn) as [(Hcfg & _ & Hcs) He]. by exists s2, n.
  - intros id s Hs%Hrow2. split; [by apply Hr2|by apply Hc2].
Qed.

(** C19: A registration, keepalive or takeover that returned a success is in the
    database for good while nobody unregisters: a version that says what the answer
    reports was stored, and the row at any later time comes from it by as many steps as
    its revision grew. For a registration that version has its endpoint, expiry, owner
    and the reported revision; for a keepalive it is online, the next revision of an
    unexpired stored version of that device whose owner epoch is not above the caller's,
    with that endpoint and expiry and the clock reading as its last keepalive; for a
    takeover it has the new owner and epoch at the reported revision. *)
Theorem answers_durable evs1 evs2 i c o :
  Forall (starts (fun c => unregisters c = false)) (evs1 ++ evs2) ->
  sys_tasks (sys_run link_program evs1 empty_system) !! i = Some (c, Ret o) ->
  let t2 := sys_rows (sys_run link_program (evs1 ++ evs2) empty_system) in
  acknowledged (fun v => exists cur n, t2 !! session_id v = Some cur /\ nsteps made n v cur
                           /\ revision cur = revision v + Z.of_nat n) c o.
Proof.
  intros [Hev1 Hev2]%Forall_app Hi t2. destruct (link_run_safe _ _ _ Hev1 empty_safe) as (vs1 & _ & Hy1).
  destruct (link_run_safe _ _ _ Hev2 Hy1) as (vs2 & Hl & [(_ & _ & _ & _ & Hline & _) _]).
  unfold t2, sys_run in *. rewrite <-foldl_app in *.
  eapply acknowledged_mono; [|exact (proj1 (Forall_lookup _ _) (proj2 Hy1) _ _ Hi)]. intros v Hv. by apply Hline, Hl.
Qed.
End line.

(** ** Tenants behind the ingress *)

Inductive ingress_call (W : Type) :=
| IcRegister (g : AccessIngress) (ident : RequestIdentity) (b : DeviceBinding) (params : RegisterParams) (authenticated : bool) (w : W)
| IcKeepalive (g : AccessIngress) (ident : RequestIdentity) (b : DeviceBinding) (w : W)
| IcUnregister (g : AccessIngress) (ident : RequestIdentity) (b : DeviceBinding) (authenticated : bool).
#[global] Arguments IcRegister {W}.
#[global] Arguments IcKeepalive {W}.
#[global] Arguments IcUnregister {W}.
Inductive ingress_outcome :=
| IoRegister (r : result RegisterOutcome IngressError)
| IoKeepalive (r : result unit IngressError)
| IoUnregister (r : result (option Uuid) IngressError).

(** The listener at place [i] is the one that serves [host]. *)
Definition serves (g : AccessIngress) (host : string) (i : nat) : Prop :=
  host <> "" /\ forall j l, g !! j = Some l -> eq_ignore_ascii_case (lb_domain l) host = true <-> j = i.
(** The device that a request reports about. *)
Definition reporter (ident : RequestIdentity) : string :=
  if is_empty_str (rq_from_user ident) then rq_to_user ident else rq_from_user ident.
Definition entitled (g : AccessIngress) (ident : RequestIdentity) (m : IngressMethod) (l : ListenerBinding) : Prop :=
  (exists i, g !! i = Some l /\ serves g (rq_request_uri_host ident) i /\ (rq_to_host ident = "" \/ serves g (rq_to_host ident) i))
  /\ (lb_allowed_zones l = [] \/ exists z, z ∈ lb_allowed_zones l /\ zone_contains z (rq_observed_source ident) = true)
  /\ reporter ident <> ""
  /\ match rq_body_device_id ident with Some body => body = reporter ident | None => m = IngRegister end.

Lemma matching_elem host g i l : (i, l) ∈ matching host g <-> g !! i = Some l /\ eq_ignore_ascii_case (lb_domain l) host = true.
Proof.
  unfold matching. rewrite list_elem_of_filter, elem_of_lookup_imap. simpl. split.
  - intros (He & j & y & [= -> ->] & Hj). done.
  - intros [Hl He]. split; [done|]. by exists i, l.
Qed.
Lemma matching_nodup host g : NoDup (matching host g).
Proof.
  apply NoDup_filter, NoDup_alt. intros i j x Hi Hj. rewrite list_lookup_imap in Hi, Hj.
  apply fmap_Some in Hi as (? & _ & ->), Hj as (? & _ & [=]). done.
Qed.
Lemma match_domain_exact host g i l : match_domain host g = Ok (i, l) <-> g !! i = Some l /\ serves g host i.
Proof.
  unfold match_domain, serves. pose proof (fun j x => matching_elem host g j x) as Hm. pose proof (matching_nodup host g) as Hn.
  destruct host as [|c host]; simpl; [split; [done|by intros (_ & [] & _)]|].
  destruct (matching (String c host) g) as [|[i1 l1] [|[i2 l2] rest]] eqn:He.
  - split; [done|]. intros (Hi & _ & Hs). destruct (Hm i l) as [_ Hin]. 
    destruct (elem_of_nil (i, l)) as [Hx _]. by destruct Hx; apply Hin; split; [|apply (Hs i l)].
  - split.
    + intros [= -> ->]. destruct (proj1 (Hm i l)) as [Hi Hd]; [set_solver|]. split_and!; [done..|]. intros j x Hj. split.
      * intros Hx. assert ((j, x) ∈ [(i, l)]) as Hin by (by apply Hm). set_solver.
      * intros ->. congruence.
    + intros (Hi & _ & Hs). assert ((i, l) ∈ [(i1, l1)]) as Hin by (apply Hm; split; [done|by apply (Hs i l)]). set_solver.
  - split; [done|]. intros (Hi & _ & Hs).
    destruct (proj1 (Hm i1 l1)) as [H1 Hd1]; [set_solver|]. destruct (proj1 (Hm i2 l2)) as [H2 Hd2]; [set_solver|].
    assert (i1 = i /\ i2 = i) as [-> ->] by (split; [by eapply Hs|by eapply (Hs i2)]).
    rewrite H1 in H2. injection H2 as ->. inversion Hn. set_solver.
Qed.
Lemma eq_ignore_case_comm a b c : eq_ignore_ascii_case a b = true -> eq_ignore_ascii_case c a = eq_ignore_ascii_case c b.
Proof. unfold eq_ignore_ascii_case. intros Hab%String.eqb_eq. by rewrite Hab. Qed.
Lemma resolve_exact ident g l :
  resolve_listener ident g = Ok l <->
  exists i, g !! i = Some l /\ serves g (rq_request_uri_host ident) i /\ (rq_to_host ident = "" \/ serves g (rq_to_host ident) i).
Proof.
  unfold resolve_listener. destruct (match_domain (rq_request_uri_host ident) g) as [[i x]|e] eqn:Hm; simpl; cycle 1.
  { split; [done|]. intros (i & Hi & Hs & _). by rewrite (proj2 (match_domain_exact _ _ _ _) (conj Hi Hs)) in Hm. }
  apply match_domain_exact in Hm as [Hi Hs].
  assert (forall j y, g !! j = Some y -> serves g (rq_request_uri_host ident) j -> j = i /\ y = x) as Huniq.
  { intros j y Hj [_ Hsj]. assert (i = j) as -> by (eapply Hsj; [exact Hi|]; by eapply Hs). split; congruence. }
  destruct (rq_to_host ident) as [|c to] eqn:Hto; simpl.
  { split; [intros [= <-]; exists i; eauto|]. intros (j & Hj & Hsj & _). by destruct (Huniq _ _ Hj Hsj) as [_ ->]. }
  destruct (eq_ignore_ascii_case (String c to) (rq_request_uri_host ident)) eqn:Heq; simpl.
  { split; [|intros (j & Hj & Hsj & _); by destruct (Huniq _ _ Hj Hsj) as [_ ->]]. intros [= <-]. exists i. split_and!; [done..|].
    right. split; [done|]. intros j y Hj. rewrite (eq_ignore_case_comm _ _ _ Heq). by apply Hs. }
  destruct (match_domain (String c to) g) as [[j y]|e] eqn:Hm; simpl.
  - apply match_domain_exact in Hm as [Hj Hsj]. destruct (Nat.eqb_spec i j) as [<-|Hne].
    + split; [intros [= <-]; exists i; eauto|]. intros (k & Hk & Hsk & _). by destruct (Huniq _ _ Hk Hsk) as [_ ->].
    + split; [done|]. intros (k & Hk & Hsk & [|Hst]); [done|]. destruct (Huniq _ _ Hk Hsk) as [-> ->].
      destruct Hne. apply (proj2 Hsj _ _ Hi). by apply (proj2 Hst i x).
  - split; [done|]. intros (k & Hk & Hsk & [|Hst]); [done|]. by rewrite (proj2 (match_domain_exact _ _ _ _) (conj Hk Hst)) in Hm.
Qed.
Lemma admit_source_exact l ip :
  admit_source l ip = Ok tt <-> lb_allowed_zones l = [] \/ exists z, z ∈ lb_allowed_zones l /\ zone_contains z ip = true.
Proof.
  unfold admit_source. destruct (bool_decide_reflect (lb_allowed_zones l = [])) as [Hz|Hz]; simpl; [by split; [left|]|].
  destruct (existsb _ _) eqn:He.
  - split; [|done]. intros _. right. apply existsb_exists in He as (z & Hin%list_elem_of_In & Hc). by exists z.
  - split; [done|]. intros [|(z & Hin & Hc)]; [done|]. apply not_true_iff_false in He. destruct He. apply existsb_exists.
    exists z. by rewrite <-list_elem_of_In.
Qed.
Lemma body_identity_exact m ident :
  validate_body_identity m ident = Ok tt <->
  reporter ident <> "" /\ match rq_body_device_id ident with Some body => body = reporter ident | None => m = IngRegister end.
Proof.
  unfold validate_body_identity, reporter.
  destruct (rq_from_user ident), (rq_to_user ident); simpl; destruct (rq_body_device_id ident), m; simpl;
    repeat match goal with |- context [bool_decide ?P] => destruct (bool_decide_reflect P) end; naive_solver.
Qed.

Lemma admit_holds ident m g l : ingress_admit ident m g = Ok l <-> entitled g ident m l.
Proof.
  unfold ingress_admit, entitled. rewrite <-resolve_exact, <-body_identity_exact, <-admit_source_exact.
  destruct (resolve_listener ident g) as [x|e]; simpl; [|split; [done|by intros (? & _)]].
  destruct (admit_source x _) as [[]|e] eqn:Ha; simpl.
  - destruct (validate_body_identity m ident) as [[]|e]; simpl; [|split; [done|by intros (_ & _ & [=])]].
    split; [intros [= ->]; done|by intros (-> & _)].
  - split; [done|]. intros ([= ->] & Hs & _). congruence.
Qed.

Section isolation.
Context `{DbMessages} {W : Type} `{Clock W} `{SessionIds W} `{UuidDisplay}.

Definition ingress_program (c : ingress_call W) : prog ingress_outcome :=
  match c with
  | IcRegister g ident b params auth w => bind (ingress_register g ident b params auth w) (fun r => Ret (IoRegister r))
  | IcKeepalive g ident b w => bind (ingress_keepalive g ident b w) (fun r => Ret (IoKeepalive r))
  | IcUnregister g ident b auth => bind (ingress_unregister g ident b auth) (fun r => Ret (IoUnregister r))
  end.
(** The call may act for the tenant. *)
Definition acts_for (tenant : Uuid) (c : ingress_call W) : Prop :=
  match c with
  | IcRegister g ident _ _ auth _ => auth = true /\ exists l, entitled g ident IngRegister l /\ lb_tenant_id l = tenant
  | IcKeepalive g ident _ _ => exists l, entitled g ident IngKeepalive l /\ lb_tenant_id l = tenant
  | IcUnregister g ident _ auth => auth = true /\ exists l, entitled g ident IngRegister l /\ lb_tenant_id l = tenant
  end.

Context (tenant : Uuid) (t0 : Sessions).

Definition others_hold (t : Sessions) : Prop :=
  keyed t /\ (forall i s, session_tenant s = tenant -> t !! i = Some s <-> t0 !! i = Some s).
(** A write is for another tenant, of a new session or of one that is no row of the tenant. *)
Definition foreign (s : ProtocolSession) : Prop :=
  session_tenant s <> tenant /\ forall r, t0 !! session_id s = Some r -> session_tenant r <> tenant.
Definition others_allowed (q : query) : Prop :=
  match q with
  | QGetByDevice tn _ _ => tn <> tenant
  | QUpsert s => session_tenant s <> tenant /\ (revision s = 0 \/ foreign s)
  | QDelete tn _ _ => tn <> tenant
  | _ => True
  end.
Definition others_tell (q : query) : answer q -> Prop :=
  match q return answer q -> Prop with
  | QGetByDevice _ _ _ => fun a => match a with Ok (Some s) => foreign s | _ => True end
  | _ => fun _ => True
  end.
Context (Ht0 : keyed t0) (Hrange : forall i s, t0 !! i = Some s -> in_range s).

Lemma foreign_row t i s : others_hold t -> t !! i = Some s -> session_tenant s <> tenant -> foreign s.
Proof.
  intros [Hk Hrows] Hi Hs. split; [done|]. rewrite (Hk _ _ Hi). intros r Hr Htn.
  apply Hrows in Hr; [|done]. congruence.
Qed.
Lemma others_insert t s : others_hold t -> foreign s -> others_hold (<[session_id s := s]> t).
Proof.
  intros [Hk Hrows] [Hs Hf]. split.
  - intros i r [[<- <-]|[_ Hi]]%lookup_insert_Some; [done|by apply Hk].
  - intros i r Hr. rewrite lookup_insert_Some, <-(Hrows i r Hr). split.
    + intros [[<- <-]|[_ ?]]; [done|done].
    + intros Hi. right. split; [|done]. intros <-. apply Hrows in Hi; [|done]. by apply (Hf r).
Qed.
Lemma others_upsert t s : others_hold t -> others_allowed (QUpsert s) -> others_hold (ps_upsert s t).1.
Proof.
  intros Hh [Hs Hf]. unfold ps_upsert. destruct (t !! session_id s) as [cur|] eqn:Hcur.
  - case_match; [done|]. case_match eqn:Heq; [|done]. case_match; [done|]. simpl. apply others_insert; [done|].
    destruct Hf as [Hz|]; [|done]. destruct (decide (session_tenant cur = tenant)) as [Hc|Hc].
    + apply (proj2 Hh) in Hcur; [|done]. apply Hrange in Hcur. exfalso. apply Z.eqb_eq in Heq. rewrite Hz in Heq.
      rewrite as_i64_id in Heq by apply Hcur. unfold in_range, as_i64 in *. simpl in Heq. lia.
    + split; [done|]. intros r Hr Htn. apply (proj2 Hh) in Hr; congruence.
  - case_match; [done|]. simpl. apply others_insert; [done|]. split; [done|]. intros r Hr Htn. apply (proj2 Hh) in Hr; congruence.
Qed.
#[local] Program Instance others : Discipline unit := {|
  later := fun _ _ => True;
  allowed := fun _ => others_allowed;
  tells := fun _ => others_tell;
  holds := fun _ => others_hold
|}.
Next Obligation. done. Qed.
Next Obligation. by intros _ [] e. Qed.
Next Obligation.
  intros [] q t Hh Ha. exists tt. split; [done|]. destruct q as [tn p device|s|id|tn id rev|tn id|now p]; simpl in *; try done.
  - split; [done|]. destruct (get_by_device tn p device t) as [s|] eqn:Hg; [|done].
    destruct (get_by_device_row _ _ _ _ _ Hg) as [[i Hi] [= Hd _ _]]. eapply foreign_row; [done..|]. unfold session_tenant. congruence.
  - pose proof (others_upsert t s Hh Ha). by destruct (ps_upsert s t).
  - split; [|by repeat case_match]. unfold ps_get, option_bind. destruct (t !! id) as [cur|] eqn:Hcur; simpl; [|done].
    case_bool_decide as Hc; simpl; [|done]. case_match; [|done]. simpl. destruct Hh as [Hk Hrows]. split.
    + intros i r [_ Hi]%lookup_delete_Some. by apply Hk.
    + intros i r Hr. rewrite lookup_delete_Some, <-(Hrows i r Hr). split; [by intros [_ ?]|]. intros Hi. split; [|done]. congruence.
Qed.

(** A request that may act for no tenant is refused. *)
Definition refused (o : ingress_outcome) : Prop :=
  exists e, (o = IoRegister (Err e) \/ o = IoKeepalive (Err e) \/ o = IoUnregister (Err e))
    /\ (sip_status e = 401 \/ sip_status e = 403 \/ sip_status e = 404).
Definition answered (c : ingress_call W) (_ : unit) (o : ingress_outcome) : Prop := (forall tn, ~ acts_for tn c) -> refused o.

Lemma save_other s : others_allowed (QUpsert s) -> safe (fun _ _ => True) tt (ps_save s).
Proof.
  intros Ha. split; [done|]. intros [] [[]|e] _ _; simpl; try done. split; [done|]. by intros [] [[]|e].
Qed.
Lemma save_made v s : foreign v -> made (W := W) v s -> safe (fun _ _ => True) tt (ps_save s).
Proof.
  intros [Hv Hf] Hm. apply save_other. destruct (made_step _ _ Hm) as [(Hc & _) _].
  unfold others_allowed, foreign, session_tenant, session_id in *. rewrite Hc. eauto.
Qed.
Lemma find_other tn p device :
  tn <> tenant -> safe (fun _ r => forall s, r = Ok (Some s) -> foreign s) tt (find_device tn p device).
Proof. intros Htn. split; [done|]. intros [] [[s|]|e] _ Ht; simpl in *; try done. by intros ? [= <-]. Qed.
Lemma refresh_other params s (w : W) : foreign s -> safe (fun _ _ => True) tt (refresh params s w).
Proof.
  intros Hs. unfold refresh. destruct (refresh_registration _ _ _ s w) as [[[[]|e] s1] w1] eqn:Hf; [|done].
  destruct (refresh_made _ _ _ _ _ Hf) as (Hm & _). eapply safe_await; [by eapply save_made|done|done].
Qed.
Lemma register_other ctx params (w : W) : sc_tenant_id ctx <> tenant -> safe (fun _ _ => True) tt (link_register ctx params w).
Proof.
  intros Htn. eapply safe_await; [by apply find_other|done|]. intros [] [s|] _ Hs.
  - specialize (Hs s eq_refl). destruct (ensure_owner_current s _) as [u|e] eqn:Hcur; [|done].
    apply ensure_current in Hcur. case_match; [|by apply refresh_other].
    destruct (assign_made s w (sc_owner_node_id ctx) (sc_owner_epoch ctx) Hcur) as (Hm & _).
    destruct (assign_owner _ _ s w) as [[r s1] w1]. cbn [fst snd] in *.
    eapply safe_await; [by eapply save_made|done|]. intros [] [] _ _. apply refresh_other.
    destruct (made_step _ _ Hm) as [(Hc & _) _]. unfold foreign, session_tenant, session_id in *. by rewrite Hc.
  - destruct (generate_protocol_session_id w) as [id w1]. destruct (new _ w1) as [[s|e] w2] eqn:Hnew; [|done].
    destruct (new_registered _ _ _ _ _ _ Hnew) as (_ & Hsn & _). eapply safe_await; [|done|done]. apply save_other.
    split; [congruence|]. left. apply (created_fields (W := W)). by eexists _, _, _.
Qed.
Lemma keepalive_other ctx (w : W) : sc_tenant_id ctx <> tenant -> safe (fun _ _ => True) tt (link_keepalive ctx w).
Proof.
  intros Htn. unfold link_keepalive. destruct (now_wall w) as [now w1]. eapply safe_await; [by apply find_other|done|].
  intros [] [s|] _ Hs; [|done]. specialize (Hs s eq_refl). destruct (ensure_owner_current s _); [|done].
  destruct (is_expired now s); [done|]. destruct (keepalive_made s w1) as [Hm _].
  destruct (record_keepalive s w1) as [[r s1] w2]. cbn [fst snd] in *. eapply safe_await; [by eapply save_made|done|done].
Qed.
Lemma unregister_other ctx : sc_tenant_id ctx <> tenant -> safe (fun _ _ => True) tt (link_unregister ctx).
Proof.
  intros Htn. eapply safe_await; [by apply find_other|done|]. intros [] [s|] _ Hs; [|done].
  destruct (ensure_owner_current s _); [|done]. eapply (safe_await (fun _ _ => True)); [|done|done].
  split; [done|]. intros [] [[]|e] _ _; simpl; try done. split; [done|]. by intros [] [[]|e].
Qed.
Lemma through_other {A} (p : lr A) (f : result A IngressError -> ingress_outcome) (post : unit -> ingress_outcome -> Prop) :
  safe (fun _ _ => True) tt p -> (forall o, post tt o) -> safe post tt (bind (through_link p) (fun r => Ret (f r))).
Proof.
  intros Hp Ho. eapply (safe_bind (fun _ _ => True)); [|by intros [] a _ _; apply Ho]. by eapply safe_bind; [exact Hp|].
Qed.
Lemma match_domain_status host g e : match_domain host g = Err e -> sip_status e = 403 \/ sip_status e = 404.
Proof. unfold match_domain. destruct (is_empty_str host); [|destruct (matching host g) as [|? []]]; intros [= <-]; auto. Qed.
Lemma admit_status ident m g e : ingress_admit ident m g = Err e -> sip_status e = 403 \/ sip_status e = 404.
Proof.
  unfold ingress_admit. destruct (resolve_listener ident g) as [l|e1] eqn:Hr; simpl.
  - unfold admit_source. destruct (_ || _); simpl; [|intros [= <-]; auto]. unfold validate_body_identity.
    destruct (rq_from_user ident), (rq_to_user ident), (rq_body_device_id ident), m; simpl;
      try case_bool_decide; simpl; try done; intros [= <-]; auto.
  - intros [= <-]. revert Hr. unfold resolve_listener. destruct (match_domain _ g) as [[i l]|] eqn:Hm; simpl;
      [|intros [= ->]; by eapply match_domain_status].
    case_match; [|done]. destruct (match_domain (rq_to_host ident) g) as [[j x]|] eqn:Hm2; simpl;
      [|intros [= ->]; by eapply match_domain_status]. case_match; [done|]. intros [= <-]. auto.
Qed.
Lemma ingress_program_safe w c : ~ acts_for tenant c -> safe (answered c) w (ingress_program c).
Proof.
  destruct w. intros Hc. destruct c as [g ident b params auth w|g ident b w|g ident b auth]; simpl ingress_program.
  - unfold ingress_register. destruct auth; cbn [negb]; [|intros _; eexists; split; [by left|by left]].
    destruct (ingress_admit ident IngRegister g) as [l|e] eqn:Ha.
    + apply admit_holds in Ha. apply through_other; [apply register_other; simpl; naive_solver|]. intros o Hno.
      destruct (Hno (lb_tenant_id l)). simpl. eauto.
    + intros _. exists e. split; [by left|]. right. by eapply admit_status.
  - unfold ingress_keepalive. destruct (ingress_admit ident IngKeepalive g) as [l|e] eqn:Ha.
    + apply admit_holds in Ha. apply through_other; [apply keepalive_other; simpl; naive_solver|]. intros o Hno.
      destruct (Hno (lb_tenant_id l)). simpl. eauto.
    + intros _. exists e. split; [by right; left|]. right. by eapply admit_status.
  - unfold ingress_unregister. destruct auth; cbn [negb]; [|intros _; eexists; split; [by right; right|by left]].
    destruct (ingress_admit ident IngRegister g) as [l|e] eqn:Ha.
    + apply admit_holds in Ha. apply through_other; [apply unregister_other; simpl; naive_solver|]. intros o Hno.
      destruct (Hno (lb_tenant_id l)). simpl. eauto.
    + intros _. exists e. split; [by right; right|]. right. by eapply admit_status.
Qed.
End isolation.

(** C20: The sessions of a tenant are touched only by requests that may act for it:
    authenticated (a keepalive excepted), for a domain that exactly one listener serves
    and that listener is of the tenant, from an allowed network and with the identity of
    its sender in the body; under any interleaving of other registrations, keepalives
    and unregistrations its rows stay as they are, and a request that may act for no
    tenant is answered 401, 403 or 404. *)
Theorem tenant_isolated `{DbMessages} {W : Type} `{Clock W} `{SessionIds W} `{UuidDisplay} (tenant : Uuid) (t : Sessions) evs :
  keyed t -> (forall i s, t !! i = Some s -> in_range s) ->
  Forall (starts (fun c => ~ acts_for tenant c)) evs ->
  let y := sys_run ingress_program evs (mkSystem t []) in
  (forall i s, session_tenant s = tenant -> sys_rows y !! i = Some s <-> t !! i = Some s)
  /\ (forall i c o, sys_tasks y !! i = Some (c, Ret o) -> (forall tn, ~ acts_for tn c) -> refused o).
Proof.
  intros Hk Hr Hevs y.
  destruct (run_safe (Discipline0 := others tenant t Hr) (ingress_program (W := W)) answered) with
    (ok := fun c : ingress_call W => ~ acts_for tenant c) (evs := evs) (w := tt) (y := mkSystem (C := ingress_call W) (A := ingress_outcome) t [])
    as (w & _ & [Hh Ht]); [by intros c [] [] o|intros; by apply ingress_program_safe|done|by split|].
  split; [apply Hh|]. intros i c o Hi. exact (proj1 (Forall_lookup _ _) Ht _ _ Hi).
Qed.

(** ** The reaper on its own *)

Fixpoint run_alone `{DbMessages} {A} (p : prog A) (t : Sessions) : Sessions * A :=
  match p with
  | Ret a => (t, a)
  | Call q k => let '(t, a) := run_query q t in run_alone (k a) t
  end.

Section reaper.
Context `{DbMessages} {W : Type} `{Clock W}.

Definition is_online (s : ProtocolSession) : Prop := presence s <> PsOffline.
Definition expired_rows (now : UtcTimestamp) (t : Sessions) : list ProtocolSession :=
  sorted_rows expiry_key (filter (fun s => as_millis (expiry_at s) <= as_millis now) (session_rows t)).
(** The sessions that one sweep is to mark: the first ones of the order. *)
Definition due (now : UtcTimestamp) (max : nat) (t : Sessions) : list ProtocolSession :=
  take max (filter is_online (expired_rows now t)).

Lemma run_alone_bind {A B} (p : prog A) (k : A -> prog B) t :
  run_alone (bind p k) t = let '(t1, a) := run_alone p t in run_alone (k a) t1.
Proof. revert t. induction p as [a|q c IH]; intros t; [done|]. simpl. by destruct (run_query q t) as [t1 a]. Qed.
Lemma pick_online_take max l expired :
  (length expired <= max)%nat -> pick_online max l expired = take max (expired ++ filter is_online l).
Proof.
  revert expired. induction l as [|s l IH]; intros expired Hle; simpl.
  { rewrite filter_nil, app_nil_r. by rewrite take_ge. }
  unfold is_online in *. destruct (bool_decide_reflect (presence s = PsOffline)) as [Ho|Ho].
  { rewrite filter_cons_False by (by intros []). by apply IH. }
  rewrite filter_cons_True by done. destruct (Nat.leb_spec max (length expired)).
  - by rewrite take_app_le, take_ge by lia.
  - rewrite IH, <-app_assoc; [done|]. rewrite length_app. simpl. lia.
Qed.
Lemma expiry_keys now t :
  keyed t -> NoDup (expiry_key <$> filter (fun s => as_millis (expiry_at s) <= as_millis now) (session_rows t)).
Proof.
  intros Hk. apply (NoDup_fmap_1 snd). rewrite <-list_fmap_compose. change (snd ∘ expiry_key) with session_id.
  eapply sublist_NoDup; [by apply rows_ids|]. apply fmap_sublist, sublist_filter.
Qed.
Lemma collect_alone fuel now size max t k : forall l1 l2 expired,
  keyed t -> 1 <= size <= MAX_PAGE_SIZE ->
  expired_rows now t = l1 ++ l2 -> (length l2 < fuel)%nat -> (length expired <= max)%nat ->
  run_alone (collect_expired fuel now size max (cursor_after expiry_key l1) expired k) t
  = run_alone (k (take max (expired ++ filter is_online l2))) t.
Proof.
  induction fuel as [|fuel IH]; intros l1 l2 expired Hk Hsize Hs Hf He; [lia|]. cbn [collect_expired].
  destruct (Nat.leb_spec max (length expired)); [by rewrite take_app_le, take_ge by lia|].
  unfold PageRequest_new. rewrite (proj2 (Z.eqb_neq size 0)), (proj2 (Z.ltb_ge _ _)) by lia. cbn [run_alone run_query page_size].
  unfold list_expired. rewrite (fetch_after expiry_key size _ (expiry_keys now t Hk) l1 l2 Hs). cbn [items next_cursor].
  set (n := Z.to_nat (clamped_page_size (mkPageRequest None size))).
  assert (0 < n)%nat as Hn by (unfold n, clamped_page_size; simpl; unfold MAX_PAGE_SIZE; lia).
  rewrite pick_online_take by done. destruct (Nat.ltb_spec n (length l2)) as [Hlt|]; [|by rewrite (take_ge l2) by lia].
  destruct (cursor_after_page expiry_key n l1 l2) as (c & Hc & Hc1); [lia|]. rewrite Hc, <-Hc1.
  rewrite (IH (l1 ++ take n l2) (drop n l2)); [|done|done|by rewrite <-app_assoc, take_drop|rewrite length_drop; lia|rewrite length_take; lia].
  f_equal. f_equal. rewrite <-(take_drop n l2) at 3. rewrite filter_app, app_assoc.
  generalize (expired ++ filter is_online (take n l2)) (filter is_online (drop n l2)). intros a b.
  destruct (Nat.le_gt_cases max (length a)).
  - rewrite !take_app_le; [by rewrite take_take, Nat.min_id|done|rewrite length_take; lia].
  - by rewrite (take_ge a) by lia.
Qed.
Lemma mark_expired_ok s (w : W) :
  exists w1, mark_offline REASON_EXPIRED s w = (Ok tt, (mark_offline REASON_EXPIRED s w).1.2, w1).
Proof. unfold mark_offline, bump. simpl. dm_unfold. destruct (now_wall w). by eexists. Qed.
(** What a sweep leaves of a table. *)
Definition swept (l : list ProtocolSession) (t t1 : Sessions) : Prop :=
  (forall id, id ∉ session_id <$> l -> t1 !! id = t !! id)
  /\ (forall s, s ∈ l -> exists w : W, t1 !! session_id s = Some (mark_offline REASON_EXPIRED s w).1.2).
Lemma upsert_replaces t s s1 :
  keyed t -> indexed t -> t !! session_id s = Some s -> in_range s1 -> made (W := W) s s1 -> in_range s ->
  ps_upsert s1 t = (<[session_id s := s1]> t, Ok true) /\ keyed (<[session_id s := s1]> t) /\ indexed (<[session_id s := s1]> t).
Proof.
  intros Hk Hx Hs Hr1 Hm Hr. pose proof (made_id _ _ Hm) as Hid. pose proof (made_range _ _ Hr Hm) as Hrev.
  destruct (made_columns _ _ Hm) as [Hd Hi]. unfold ps_upsert. rewrite Hid, Hs.
  assert (index_taken s1 t = false) as Hfree.
  { apply bool_decide_eq_false. intros (r & (j & Hj)%rows_elem & Hne & Hc)%Exists_exists. destruct Hne. rewrite Hid, (Hk _ _ Hj).
    rewrite Hd, Hi in Hc. by eapply Hx. }
  rewrite Hfree. rewrite !as_i64_id by (apply Hr || apply Hr1).
  rewrite (proj2 (Z.eqb_neq _ _)) by (unfold in_range, I64_MIN in *; lia). rewrite (proj2 (Z.eqb_eq _ _)) by lia.
  split_and!; [done| |].
  - intros i r [[<- <-]|[_ Hi1]]%lookup_insert_Some; [done|by apply Hk].
  - rewrite <-Hid. by apply index_insert.
Qed.
Lemma mark_alone l n (w : W) t :
  keyed t -> indexed t -> NoDup (session_id <$> l) ->
  Forall (fun s => t !! session_id s = Some s /\ 0 <= revision s < I64_MAX) l ->
  exists t1, run_alone (mark_expired l n w) t = (t1, Ok (n + Z.of_nat (length l))) /\ swept l t t1.
Proof.
  revert n w t. induction l as [|s l IH]; intros n w t Hk Hx Hnd Hl.
  { exists t. split; [by rewrite Z.add_0_r|]. split; [done|]. set_solver. }
  apply Forall_cons in Hl as [[Hs Hrev] Hl]. rewrite fmap_cons in Hnd. apply NoDup_cons in Hnd as [Hnin Hnd]. cbn [mark_expired].
  destruct (mark_expired_ok s w) as [w1 Hm]. rewrite Hm. set (s1 := (mark_offline REASON_EXPIRED s w).1.2) in *.
  assert (made (W := W) s s1) as Hmade by (by exists (MarkOffline REASON_EXPIRED), w, w1).
  assert (in_range s) as Hr by (unfold in_range; lia). pose proof (made_range _ _ Hr Hmade) as Hrev1.
  destruct (upsert_replaces t s s1) as (Hu & Hk1 & Hx1); [done..|unfold in_range; lia|done|done|].
  rewrite run_alone_bind. cbn [run_alone ps_save sql run_query]. rewrite Hu. cbn [run_alone].
  destruct (IH (n + 1) w1 _ Hk1 Hx1 Hnd) as (t2 & Ht2 & Hsame & Hmarked).
  { rewrite Forall_forall in *. intros r Hin. destruct (Hl r Hin) as [Hr1 Hr2]. split; [|done]. rewrite lookup_insert_ne; [done|].
    intros He. apply Hnin. rewrite He. by apply list_elem_of_fmap_2. }
  exists t2. split; [rewrite Ht2; simpl; do 2 f_equal; lia|]. split.
  - intros id Hid. rewrite fmap_cons, not_elem_of_cons in Hid. destruct Hid as [Hne Hid]. rewrite Hsame by done.
    by rewrite lookup_insert_ne.
  - intros r [->|Hin]%elem_of_cons; [|by apply Hmarked]. exists w. rewrite Hsame by done. by rewrite lookup_insert_eq.
Qed.

(** C21: On its own the expiry reaper ends within one page more than there are rows,
    marks exactly the first expired sessions that are still online, up to the limit and
    past those marked before, returns their number and changes no other row. *)
Theorem reaper_sweeps fuel now size max (w : W) t :
  keyed t -> indexed t -> (forall i s, t !! i = Some s -> 0 <= revision s < I64_MAX) ->
  (length (session_rows t) < fuel)%nat ->
  exists t1, run_alone (reap_expired fuel now size max w) t = (t1, Some (Ok (Z.of_nat (length (due now max t)))))
  /\ swept (due now max t) t t1.
Proof.
  intros Hk Hx Hrev Hfuel. unfold reap_expired.
  assert (expired_rows now t ⊆+ session_rows t) as Hsub.
  { unfold expired_rows. rewrite (sorted_rows_perm expiry_key). apply sublist_submseteq, sublist_filter. }
  assert (due now max t ⊆+ session_rows t) as Hdue.
  { etrans; [|exact Hsub]. apply sublist_submseteq. unfold due. etrans; [apply sublist_take|apply sublist_filter]. }
  change (@None Cursor) with (cursor_after expiry_key []).
  rewrite (collect_alone _ _ _ _ _ _ [] (expired_rows now t)); [|done|unfold MAX_PAGE_SIZE; lia|done| |simpl; lia].
  2: { apply submseteq_length in Hsub. lia. }
  rewrite run_alone_bind. fold (due now max t). destruct (mark_alone (due now max t) 0 w t) as (t1 & Ht1 & Hsw); [done..| | |].
  - destruct (submseteq_Permutation _ _ Hdue) as [rest Hrest]. pose proof (rows_ids t Hk) as Hn. rewrite Hrest, fmap_app in Hn.
    by apply NoDup_app in Hn as [Hn _].
  - apply Forall_forall. intros s Hs. eapply elem_of_submseteq in Hs as [i Hi]%rows_elem; [|exact Hdue].
    split; [by rewrite (Hk _ _ Hi)|by eapply Hrev].
  - exists t1. rewrite app_nil_l. fold (due now max t). by rewrite Ht1.
Qed.
End reaper.

(** ** Runs on concrete values *)

Module LinkSample.
#[local] Instance display : UuidDisplay := show_uint.
#[local] Instance messages : DbMessages := {| db_message := fun _ => "db"; db_display := fun _ => "db" |}.
#[local] Instance ids : SessionIds InMemoryWorld := InMemoryIdGenerator_next_uuid.

Definition local : LocalIdentity := mkLocalIdentity "l" "34020000002000000001" "3402000000" "3402000000".
Definition world (ms : Z) : InMemoryWorld := Build_InMemoryWorld ms 1.
Definition ctx (node epoch : Z) : SessionContext :=
  mkSessionContext 9 7 "34020000001320000001" local StUdp node epoch CompatibilityProfile_default.
Definition params (cseq : Z) : RegisterParams :=
  mkRegisterParams (mkSessionEndpoint "10.0.0.1:5060" "" "") (mkRegistration "c" cseq 3600) (3600 * 1000 * NANOS_PER_MILLI).

Definition sid (n : Z) : Uuid := n.
Definition registers : list (event (link_call InMemoryWorld)) := [Start (LcRegister (ctx 3 4) (params 1) (world 1)); Step 0; Step 0].
(** Two keepalives that read the same version; the answer of a third is lost. *)
Definition keepalives : list (event (link_call InMemoryWorld)) :=
  [Start (LcKeepalive (ctx 3 4) (world 2)); Start (LcKeepalive (ctx 3 4) (world 3)); Step 1; Step 2; Step 1; Step 2; Step 2;
   Start (LcKeepalive (ctx 3 4) (world 4)); Step 3; Lose 3 (Unavailable "connection lost")].
#[local] Abbreviation run evs := (sys_run (link_program (W := InMemoryWorld)) evs empty_system).
Definition stored (evs : list (event (link_call InMemoryWorld))) : option (Z * Z * option Uuid) :=
  (fun s => (revision s, owner_epoch s, owner_node_id s)) <$> sys_rows (run evs) !! sid 1.
Definition outcome (i : nat) (evs : list (event (link_call InMemoryWorld))) : option link_outcome :=
  match sys_tasks (run evs) !! i with Some (_, Ret o) => Some o | _ => None end.

Example keepalive_conflicts :
  stored (registers ++ keepalives) = Some (2, 4, Some 3)
  /\ outcome 1 (registers ++ keepalives) = Some (LoKeepalive (Ok tt))
  /\ outcome 2 (registers ++ keepalives) = Some (LoKeepalive (Err (Repository (ConcurrentModification 0 1))))
  /\ outcome 3 (registers ++ keepalives) = Some (LoKeepalive (Err (Repository (Unavailable "connection lost")))).
Proof. vm_compute. done. Qed.

Lemma sessions_linear_witness :
  exists s1 s2 n, sys_rows (run registers) !! sid 1 = Some s1 /\ sys_rows (run (registers ++ keepalives)) !! sid 1 = Some s2
    /\ nsteps (made (W := InMemoryWorld)) n s1 s2 /\ revision s1 = 0 /\ revision s2 = 2.
Proof.
  destruct (sessions_linear registers keepalives) as (Hl & _); [by repeat constructor|].
  assert (revision <$> sys_rows (run registers) !! sid 1 = Some 0) as H1 by (vm_compute; reflexivity).
  assert (revision <$> sys_rows (run (registers ++ keepalives)) !! sid 1 = Some 2) as H2 by (vm_compute; reflexivity).
  apply fmap_Some in H1 as (s1 & Hs1 & H1). apply fmap_Some in H2 as (s2 & Hs2 & H2).
  destruct (Hl (sid 1) s1 Hs1) as (s3 & n & Hs3 & Hn & _).
  exists s1, s3, n. split; [exact Hs1|]. split; [exact Hs3|]. split; [exact Hn|]. split; [by symmetry|].
  rewrite Hs3 in Hs2. congruence.
Defined.
Lemma answers_durable_witness :
  exists v cur n, revision v = 0 /\ registered (ctx 3 4) (params 1) v
    /\ sys_rows (run (registers ++ keepalives)) !! sid 1 = Some cur /\ nsteps (made (W := InMemoryWorld)) n v cur.
Proof.
  destruct (answers_durable registers keepalives 0 (LcRegister (ctx 3 4) (params 1) (world 1)) (LoRegister (Ok (Created 1 4))))
    as (_ & v & (cur & n & Hcur & Hn & _) & Hid & Hrev & _ & Hreg); [by repeat constructor|vm_compute; reflexivity|].
  rewrite Hid in Hcur. exists v, cur, n. done.
Defined.

(** A device that unregistered is back in the table when a keepalive had read its session. *)
Definition returns : list (event (link_call InMemoryWorld)) :=
  registers ++ [Start (LcKeepalive (ctx 3 4) (world 2)); Step 1; Start (LcUnregister (ctx 3 4)); Step 2; Step 2; Step 1].
Example unregistered_session_returns :
  outcome 2 returns = Some (LoUnregister (Ok (Some 1))) /\ outcome 1 returns = Some (LoKeepalive (Ok tt))
  /\ stored returns = Some (1, 4, Some 3).
Proof. vm_compute. done. Qed.
(** Two versions with the same revision exist then, and a write of the older owner passes. *)
Definition fenced : list (event (link_call InMemoryWorld)) :=
  registers ++ [Start (LcAcquireOwner 9 7 5 6 (world 2)); Step 1;
                Start (LcKeepalive (ctx 3 4) (world 2)); Step 2; Step 2;
                Start (LcKeepalive (ctx 3 4) (world 3)); Step 3;
                Start (LcUnregister (ctx 3 4)); Step 4; Step 4; Step 1].
Example revived_session_loses_fence :
  outcome 1 fenced = Some (LoAcquireOwner (Ok (Some 1))) /\ stored fenced = Some (1, 6, Some 5)
  /\ outcome 3 (fenced ++ [Step 3]) = Some (LoKeepalive (Ok tt)) /\ stored (fenced ++ [Step 3]) = Some (2, 4, Some 3).
Proof. vm_compute. done. Qed.
(** A REGISTER with the stored epoch takes the session over for another node. *)
Definition takes_over : list (event (link_call InMemoryWorld)) :=
  registers ++ [Start (LcRegister (ctx 5 4) (params 2) (world 2)); Step 1; Step 1; Step 1].
Example equal_epoch_changes_owner :
  stored takes_over = Some (2, 4, Some 5) /\ outcome 1 takes_over = Some (LoRegister (Ok (Refreshed 1 2))).
Proof. vm_compute. done. Qed.

(** Two listeners, the second for the tenant 8 and one network. *)
Definition other_local : LocalIdentity := mkLocalIdentity "m" "44010000002000000001" "4401000000" "4401000000".
Definition gates : AccessIngress :=
  [mkListener "3402000000" 9 local [];
   with_allowed_zones (mkListener "4401000000" 8 other_local []) [mkZone (V4 (10 * 2 ^ 24)) 8]].
Definition request (host from : string) (body : option string) (ip : Z) : RequestIdentity :=
  mkRequestIdentity host "" from "" body (V4 ip).
Definition binding : DeviceBinding := mkDeviceBinding 7 "34020000001320000001" StUdp 3 4 CompatibilityProfile_default.
Definition requests : list (event (ingress_call InMemoryWorld)) :=
  [Start (IcRegister gates (request "4401000000" "34020000001320000001" None (10 * 2 ^ 24 + 1)) binding (params 1) true
            (Build_InMemoryWorld 1 2));
   Start (IcUnregister gates (request "3402000000" "34020000001320000001" None 1) binding false);
   Start (IcKeepalive gates (request "3402000000" "34020000001320000001" (Some "34020000001320000002") 1) binding (world 2));
   Step 0; Step 0].
(** A listener whose identity has no domain is built, and then registers nobody. *)
Definition domainless : LocalIdentity := mkLocalIdentity "m" "44010000002000000001" "" "4401000000".
Definition domainless_run : System (ingress_call InMemoryWorld) ingress_outcome :=
  let request := request "4401000000" "34020000001320000001" None 1 in
  sys_run ingress_program [Start (IcRegister [mkListener "4401000000" 8 domainless []] request binding (params 1) true (world 1)); Step 0]
    (mkSystem ∅ []).
Example domainless_listener_registers_nobody :
  listener_new "4401000000" 8 domainless = Ok (mkListener "4401000000" 8 domainless [])
  /\ exists e, (fun t => snd t) <$> sys_tasks domainless_run = [Ret (IoRegister (Err e))] /\ sip_status e = 500.
Proof. split; [reflexivity|]. eexists. vm_compute. done. Qed.
Definition table : Sessions := sys_rows (run registers).
Definition keyed_b (t : Sessions) : bool := forallb (fun kv => bool_decide (session_id kv.2 = kv.1)) (map_to_list t).
Definition range_b (t : Sessions) : bool :=
  forallb (fun kv => (0 <=? revision kv.2) && (revision kv.2 <? I64_MAX)) (map_to_list t).
Lemma keyed_check t : keyed_b t = true -> keyed t.
Proof.
  intros Hc i s Hi%elem_of_map_to_list. unfold keyed_b in Hc. rewrite forallb_forall in Hc. apply list_elem_of_In in Hi.
  specialize (Hc _ Hi). by apply bool_decide_eq_true in Hc.
Qed.
Lemma range_check t : range_b t = true -> forall i s, t !! i = Some s -> 0 <= revision s < I64_MAX.
Proof.
  intros Hc i s Hi%elem_of_map_to_list. unfold range_b in Hc. rewrite forallb_forall in Hc. apply list_elem_of_In in Hi.
  specialize (Hc _ Hi). apply andb_true_iff in Hc as [H1 H2]. simpl in *. lia.
Qed.
Lemma tenant_isolated_witness :
  let y := sys_run ingress_program requests (mkSystem table []) in
  (exists s, sys_rows y !! sid 1 = Some s /\ session_tenant s = 9) /\ is_Some (sys_rows y !! sid 2)
  /\ exists e, sys_tasks y !! 1%nat = Some (IcUnregister gates (request "3402000000" "34020000001320000001" None 1) binding false,
                                            Ret (IoUnregister (Err e))) /\ sip_status e = 401.
Proof.
  assert (range_b table = true) as Hr by (vm_compute; reflexivity).
  destruct (tenant_isolated (W := InMemoryWorld) 9 table requests) as [Hrows _].
  - apply keyed_check. vm_compute. reflexivity.
  - intros i s Hi. pose proof (range_check _ Hr _ _ Hi). unfold in_range. lia.
  - repeat constructor; simpl; [|naive_solver|];
      intros Hc; [destruct Hc as [_ (l & He%admit_holds & Ht)]|destruct Hc as (l & He%admit_holds & Ht)]; vm_compute in He; simplify_eq/=; done.
  - assert (session_tenant <$> table !! sid 1 = Some 9) as (s & Hs & Ht)%fmap_Some by (vm_compute; reflexivity).
    split; [exists s; split; [by apply Hrows|done]|]. split; [vm_compute; by eexists|].
    exists AuthenticationRequired. split; vm_compute; reflexivity.
Defined.

(** An expired session that is online, one that was marked before, one that is alive. *)
Definition row (id : Uuid) (expiry : Z) (p : PresenceState) : ProtocolSession :=
  mkProtocolSession
    (mkNewSession id 9 id ProtoGb28181 (show_uint id) local StUdp (rp_endpoint (params 1)) (rp_registration (params 1)) 0 (Some 3) 4
       CompatibilityProfile_default)
    (rp_endpoint (params 1)) (rp_registration (params 1)) (expiry * NANOS_PER_MILLI) None p None None (Some 3) 4 0 0 5.
Definition expiring : Sessions :=
  <[1 := row 1 10 PsOffline]> (<[2 := row 2 20 PsOnline]> (<[3 := row 3 90 PsOnline]> ∅)).
Definition indexed_b (t : Sessions) : bool :=
  forallb (fun a => forallb (fun b => bool_decide (a.1 = b.1)
    || bool_decide (device_columns a.2 <> device_columns b.2 /\ identity_columns a.2 <> identity_columns b.2)) (map_to_list t)) (map_to_list t).
Lemma indexed_check t : indexed_b t = true -> indexed t.
Proof.
  intros Hb i j s v Hi%elem_of_map_to_list%list_elem_of_In Hj%elem_of_map_to_list%list_elem_of_In Hc. unfold indexed_b in Hb.
  rewrite forallb_forall in Hb. specialize (Hb _ Hi). rewrite forallb_forall in Hb. specialize (Hb _ Hj).
  apply orb_true_iff in Hb as [Hb|Hb]; apply bool_decide_eq_true in Hb; simpl in Hb; [done|]. tauto.
Qed.
Lemma reaper_sweeps_witness :
  exists t1, run_alone (reap_expired 4 (50 * NANOS_PER_MILLI) 1 10 (world 50)) expiring = (t1, Some (Ok 1))
    /\ t1 !! sid 3 = expiring !! sid 3 /\ t1 !! sid 1 = expiring !! sid 1.
Proof.
  destruct (reaper_sweeps 4 (50 * NANOS_PER_MILLI) 1 10 (world 50) expiring) as (t1 & Hrun & Hsame & _).
  - apply keyed_check. vm_compute. reflexivity.
  - apply indexed_check. vm_compute. reflexivity.
  - apply range_check. vm_compute. reflexivity.
  - vm_compute. lia.
  - assert (session_id <$> due (50 * NANOS_PER_MILLI) 10 expiring = [2]) as Hd by (vm_compute; reflexivity). exists t1.
    assert (length (due (50 * NANOS_PER_MILLI) 10 expiring) = 1%nat) as Hl by (by rewrite <-(length_fmap session_id), Hd).
    rewrite Hl in Hrun. rewrite Hd in Hsame. split; [exact Hrun|]. split; apply Hsame; by rewrite list_elem_of_singleton.
Defined.
End LinkSample.
