(* ===== verification/Messages.v ===== *)
(** * Messages between nodes

    The envelopes in which commands and events travel:
    - [BusError] and its conversion into a domain error, the subjects and the
      mapping of a command or an event to its envelope
      ([cheetah-message-api/src/bus.rs], [subject.rs], [mapper.rs],
      [publisher.rs]);
    - the validation of trace contexts
      ([cheetah-signal-types/src/trace_context.rs]).

    The envelope types are those of [proto/cheetah/common/v1/common.proto] and
    [control/v1]; the JSON codec of commands and events is the class
    [MessageJson]. *)

From S2P Require Import Prelude RustStr Domain DomainData Cluster NodeLease Assignment UnitOfWork.

Open Scope string_scope.
Open Scope list_scope.
Open Scope Z_scope.

(** ** Trace contexts *)

Definition TRACEPARENT_LENGTH : Z := 55.
Definition is_lower_hex (s : string) : bool :=
  str_all (fun a => is_ascii_digit a || in_range 97 102 a) s.
Definition all_zero (s : string) : bool := str_all (fun a => Ascii.eqb a "0"%char) s.

Definition validate_traceparent (value : string) : option string :=
  if negb (str_len value =? TRACEPARENT_LENGTH) then None
  else
    match split "-"%char value with
    | [version; trace_id; parent_id; flags] =>
        if negb ((version =? "00")%string || (version =? "01")%string) || negb (is_lower_hex version) then None
        else if negb (str_len trace_id =? 32) || negb (is_lower_hex trace_id) || all_zero trace_id then None
        else if negb (str_len parent_id =? 16) || negb (is_lower_hex parent_id) || all_zero parent_id then None
        else if negb (str_len flags =? 2) || negb (is_lower_hex flags) then None
        else Some value
    | _ => None
    end.

Definition tracestate_part (part : string) : bool :=
  negb (is_empty_str part)
  && str_all (fun a => negb ((byte a <? 33) || (byte a =? 127) || (byte a =? 44))) part.
(** An entry after [trim]. *)
Definition tracestate_entry (entry : string) : bool :=
  match find_char "="%char entry with
  | Some eq =>
      negb (Nat.eqb eq 0) && negb (Nat.eqb eq (String.length entry - 1))
      && tracestate_part (str_take eq entry) && tracestate_part (str_drop (S eq) entry)
  | None => false
  end.

Definition validate_tracestate (value : string) : option string :=
  if is_empty_str value || (512 <? str_len value) then None
  else if negb (str_all (fun a => negb ((byte a <? 32) || (byte a =? 127))) value) then None
  else
    let entries := split ","%char value in
    if (32 <? Z.of_nat (length entries)) then None
    else if forallb (fun e => tracestate_entry (trim e)) entries then Some value else None.

(** ** Errors of the bus *)

Definition MAX_BUS_ERROR_BYTES : nat := 1024.
Inductive BusError :=
| BeSerialize (e : string) | BeEncode (e : string) | BeDecode (e : string)
| BeInvalidPayload (m : string) | BeUnsupportedEnvelope (m : string)
| BeBusy | BeTimeout | BeUnavailable (m : string).

Definition BusError_display (e : BusError) : string :=
  match e with
  | BeSerialize m => "serialize failed: " +:+ m
  | BeEncode m => "proto encode failed: " +:+ m
  | BeDecode m => "proto decode failed: " +:+ m
  | BeInvalidPayload m => "invalid payload: " +:+ m
  | BeUnsupportedEnvelope m => "unsupported envelope: " +:+ m
  | BeBusy => "bus busy"
  | BeTimeout => "bus timeout"
  | BeUnavailable m => "bus unavailable: " +:+ m
  end.

(** [impl From<BusError> for DomainError]. *)
Definition bus_to_domain (e : BusError) : DomainError :=
  match e with
  | BeBusy => unavailable "message bus busy"
  | BeUnavailable m => unavailable (clamp_str m MAX_BUS_ERROR_BYTES)
  | BeInvalidPayload m | BeUnsupportedEnvelope m => invalid_argument (clamp_str m MAX_BUS_ERROR_BYTES)
  | _ => internal (clamp_str (BusError_display e) MAX_BUS_ERROR_BYTES)
  end.

(** ** Subjects *)

Definition COMMAND_PREFIX : string := "sig.v1.command".
Definition EVENT_PREFIX : string := "sig.v1.event".
Definition tenant_bucket (tenant : Uuid) : string :=
  let b := default 0 (head (uuid_bytes tenant)) in
  String (hex_digit (b / 16)) (String (hex_digit (b mod 16)) EmptyString).

Section subjects.
Context `{UuidDisplay}.
Definition command_subject (tenant owner_node : Uuid) : string :=
  COMMAND_PREFIX +:+ "." +:+ tenant_bucket tenant +:+ "." +:+ uuid_to_string owner_node.
Definition event_subject (tenant : Uuid) (event_type : string) : string :=
  EVENT_PREFIX +:+ "." +:+ tenant_bucket tenant +:+ "." +:+ event_type.
End subjects.

(** ** Envelopes *)

Record PbTimestamp := mkPbTimestamp { pb_seconds : Z; pb_nanos : Z }.
Record PbResourceRef := mkPbRef { pbr_tenant_id : option string; pbr_kind : Z; pbr_resource_id : option string }.
Record EnvelopeMeta := mkMeta {
  em_message_id : option string;
  em_tenant_id : option string;
  em_correlation_id : option string;
  em_causation_id : option string;
  em_occurred_at : option PbTimestamp;
  em_deadline : option PbTimestamp;
  em_source_node_id : option string;
  em_owner_epoch : Z;
  em_traceparent : string;
  em_tracestate : string;
  em_contract_version : Z
}.
Record ChannelCommand := mkChannelCommand {
  cc_device_id : string;
  cc_channel_id : string;
  cc_command_type : string;
  cc_payload : string
}.
(** The [oneof] of the envelope; only control commands with a channel command
    are told apart. *)
Inductive EnvelopeCommand :=
| ControlCommand (command : option ChannelCommand)
| OtherCommand.
Record CommandEnvelope := mkCommandEnvelope {
  ce_meta : option EnvelopeMeta;
  ce_target : option PbResourceRef;
  ce_idempotency_key : string;
  ce_operation_id : string;
  ce_step_id : string;
  ce_command : option EnvelopeCommand
}.
Record GenericEvent := mkGeneric { ge_event_type : string; ge_payload : string }.
Inductive EnvelopeEvent := GenericEventOf (e : GenericEvent) | OtherEvent.
Record EventEnvelope := mkEventEnvelope {
  ee_meta : option EnvelopeMeta;
  ee_aggregate : option PbResourceRef;
  ee_aggregate_sequence : Z;
  ee_event : option EnvelopeEvent
}.

(** [serde_json::to_vec] and [from_slice] on commands and events. *)
Class MessageJson := {
  command_to_json : Command -> result string string;
  command_from_json : string -> result Command string;
  event_to_json : Event DomainEvent -> result string string;
  event_from_json : string -> result (Event DomainEvent) string
}.
(** What is serialized is read back. *)
Class MessageJsonLaws `{MessageJson} : Prop := {
  command_json_back : forall c s, command_to_json c = Ok s -> command_from_json s = Ok c;
  event_json_back : forall e s, event_to_json e = Ok s -> event_from_json s = Ok e
}.

Definition MAX_ENVELOPE_PAYLOAD_BYTES : Z := 4 * 1024 * 1024.
Definition payload_too_large (size : Z) : BusError :=
  BeInvalidPayload ("envelope payload exceeds " +:+ show_uint MAX_ENVELOPE_PAYLOAD_BYTES +:+ " bytes: " +:+ show_uint size).

Definition to_timestamp (t : UtcTimestamp) : PbTimestamp := mkPbTimestamp (t / NANOS_PER_SEC) (t mod NANOS_PER_SEC).

Definition resource_kind_number (k : ResourceKind) : Z :=
  match k with
  | RkTenant => 1 | RkDevice => 2 | RkChannel => 3 | RkEndpoint => 4 | RkProtocolSession => 5
  | RkMediaSession => 6 | RkOperation => 7 | RkEvent => 8 | RkPlugin => 9 | RkNode => 10
  | RkMediaBinding => 11 | RkMediaNode => 12
  end.

Section mapper.
Context `{UuidDisplay, MessageJson}.

Definition to_uuid (id : Uuid) : option string := Some (uuid_to_string id).
Definition resource_ref_to_proto (r : ResourceRef) : PbResourceRef :=
  mkPbRef (to_uuid (rr_tenant_id r)) (resource_kind_number (rr_kind r)) (to_uuid (ri_uuid (rr_id r))).

Definition channel_id_text (c : Command) : string :=
  match cmd_payload c with
  | StartLive _ channel_id _ _ => uuid_to_string channel_id
  | StartPlayback _ channel_id _ _ _ _ => uuid_to_string channel_id
  | StartTalk _ channel_id _ => uuid_to_string channel_id
  | Ptz channel_id _ _ => uuid_to_string channel_id
  | _ => ""
  end.

Definition encode_command (c : Command) : result CommandEnvelope BusError :=
  match command_to_json c with
  | Err e => Err (BeSerialize e)
  | Ok payload =>
      if MAX_ENVELOPE_PAYLOAD_BYTES <? str_len payload then Err (payload_too_large (str_len payload))
      else
        let channel := mkChannelCommand (uuid_to_string (cmd_device_id c)) (channel_id_text c)
                         (CommandPayload_kind (cmd_payload c)) payload in
        let meta := mkMeta (to_uuid (cmd_message_id c)) (to_uuid (cmd_tenant_id c)) (to_uuid (cmd_correlation_id c))
                      (to_uuid (cmd_causation_id c)) None (to_timestamp <$> cmd_deadline c) None
                      (cmd_expected_owner_epoch c) (default "" (cmd_traceparent c)) (default "" (cmd_tracestate c)) 0 in
        Ok (mkCommandEnvelope (Some meta) (Some (resource_ref_to_proto (cmd_target c))) (cmd_idempotency_key c)
              (uuid_to_string (cmd_operation_id c)) "" (Some (ControlCommand (Some channel))))
  end.

Definition decode_command (e : CommandEnvelope) : result Command BusError :=
  match ce_command e with
  | Some (ControlCommand (Some channel)) =>
      if MAX_ENVELOPE_PAYLOAD_BYTES <? str_len (cc_payload channel)
      then Err (payload_too_large (str_len (cc_payload channel)))
      else match command_from_json (cc_payload channel) with Ok c => Ok c | Err m => Err (BeSerialize m) end
  | _ => Err (BeUnsupportedEnvelope "command envelope must carry a ChannelCommand")
  end.

Definition encode_event (e : Event DomainEvent) : result EventEnvelope BusError :=
  match event_to_json e with
  | Err m => Err (BeSerialize m)
  | Ok payload =>
      if MAX_ENVELOPE_PAYLOAD_BYTES <? str_len payload then Err (payload_too_large (str_len payload))
      else
        let meta := mkMeta (to_uuid (ev_event_id e)) (to_uuid (ev_tenant_id e)) (to_uuid (ev_correlation_id e))
                      (to_uuid (ev_causation_id e)) (Some (to_timestamp (ev_occurred_at e))) None
                      (to_uuid (ev_source e)) 0 (default "" (ev_traceparent e)) (default "" (ev_tracestate e)) 0 in
        Ok (mkEventEnvelope (Some meta) (Some (resource_ref_to_proto (ev_aggregate_ref e))) (ev_aggregate_sequence e)
              (Some (GenericEventOf (mkGeneric "domain_event" payload))))
  end.

(** A trace header that the event lacks is taken from the envelope when valid. *)
Definition trace_from_meta (validate : string -> option string) (field : EnvelopeMeta -> string)
    (meta : option EnvelopeMeta) (own : option string) : option string :=
  match own, meta with
  | None, Some m => match validate (field m) with Some _ => Some (field m) | None => None end
  | _, _ => own
  end.

Definition decode_event (e : EventEnvelope) : result (Event DomainEvent) BusError :=
  match ee_event e with
  | Some (GenericEventOf g) =>
      if MAX_ENVELOPE_PAYLOAD_BYTES <? str_len (ge_payload g)
      then Err (payload_too_large (str_len (ge_payload g)))
      else match event_from_json (ge_payload g) with
           | Err m => Err (BeSerialize m)
           | Ok ev =>
               Ok (mkEvent (ev_event_id ev) (ev_tenant_id ev) (ev_aggregate_ref ev) (ev_aggregate_sequence ev)
                     (ev_occurred_at ev) (ev_correlation_id ev) (ev_causation_id ev)
                     (trace_from_meta validate_traceparent em_traceparent (ee_meta e) (ev_traceparent ev))
                     (trace_from_meta validate_tracestate em_tracestate (ee_meta e) (ev_tracestate ev))
                     (ev_source ev) (ev_payload ev))
           end
  | _ => Err (BeUnsupportedEnvelope "event envelope must carry a GenericEvent")
  end.

(** ** Buses *)

(** [RawCommandBus] and [RawEventBus], as far as messages are sent. *)
Class RawCommandBus (W : Type) := raw_send : string -> CommandEnvelope -> W -> result unit BusError * W.
Class RawEventBus (W : Type) := raw_publish : string -> EventEnvelope -> W -> result unit BusError * W.

Definition publish_domain_event {W} `{RawEventBus W} (e : Event DomainEvent) (w : W) : result unit DomainError * W :=
  match encode_event e with
  | Err err => (Err (bus_to_domain err), w)
  | Ok envelope =>
      let '(r, w) := raw_publish (event_subject (ev_tenant_id e) "domain_event") envelope w in
      (match r with Ok tt => Ok tt | Err err => Err (bus_to_domain err) end, w)
  end.
End mapper.

(** ** What is sent is what is received *)

Section roundtrip.
Context `{UuidDisplay} `{MessageJsonLaws}.

Lemma command_roundtrip c e : encode_command c = Ok e -> decode_command e = Ok c.
Proof.
  unfold encode_command. destruct (command_to_json c) as [s|m] eqn:Hj; [|done].
  destruct (MAX_ENVELOPE_PAYLOAD_BYTES <? str_len s) eqn:Hlen; [done|]. intros [= <-].
  unfold decode_command. simpl. by rewrite Hlen, (command_json_back c s Hj).
Qed.

Lemma trace_from_meta_back validate field m own :
  validate "" = None -> field m = default "" own -> trace_from_meta validate field (Some m) own = own.
Proof. intros Hv Hf. destruct own as [t|]; [done|]. simpl in *. by rewrite Hf, Hv. Qed.

Lemma event_roundtrip ev e : encode_event ev = Ok e -> decode_event e = Ok ev.
Proof.
  unfold encode_event. destruct (event_to_json ev) as [s|m] eqn:Hj; [|done].
  destruct (MAX_ENVELOPE_PAYLOAD_BYTES <? str_len s) eqn:Hlen; [done|]. intros [= <-].
  unfold decode_event. simpl. rewrite Hlen, (event_json_back ev s Hj), !trace_from_meta_back; try done.
  by destruct ev.
Qed.
End roundtrip.
