(* ===== verification/OperationService.v ===== *)
(** * Operations as services

    [cheetah-signal-application]: [OperationService] ([operation_service.rs]),
    which submits operations and ends them, and [CommandDispatcher]
    ([command_dispatcher.rs]), which starts a pending operation, records a
    dispatch attempt and sends the command to the owner of the device.  A method
    runs in a unit of work; what it committed stays when it fails. *)

From S2P Require Import Prelude RustStr Domain DomainData Operation Paging Cluster UnitOfWork.

Open Scope string_scope.
Open Scope list_scope.
Open Scope Z_scope.

(** ** Data transfer objects *)

Record OperationDto := mkDto {
  dto_operation_id : Uuid;
  dto_tenant_id : Uuid;
  dto_device_id : Uuid;
  dto_kind : string;
  dto_target : ResourceRef;
  dto_status : OperationStatus;
  dto_result : option OperationResult;
  dto_error : option OperationError;
  dto_idempotency_key : string;
  dto_deadline : option UtcTimestamp;
  dto_expected_owner_epoch : Z;
  dto_created_at : UtcTimestamp;
  dto_updated_at : UtcTimestamp;
  dto_revision : Z
}.

Definition to_dto (o : Op.Operation) : OperationDto :=
  mkDto (Op.operation_id o) (Op.tenant_id o) (Op.device_id o) (CommandPayload_kind (cmd_payload (Op.command o)))
    (cmd_target (Op.command o)) (Op.status o) (Op.op_result o) (Op.op_error o)
    (cmd_idempotency_key (Op.command o)) (Op.deadline o) (Op.expected_owner_epoch o) (Op.created_at o)
    (Op.updated_at o) (Op.revision o).

Record SubmitOperationRequest := mkSubmit {
  sr_device_id : Uuid;
  sr_target : ResourceRef;
  sr_payload : CommandPayload;
  sr_idempotency_key : string;
  sr_deadline : option UtcTimestamp;
  sr_expected_owner_epoch : Z
}.

Definition operation_resource_ref (tenant_id operation_id : Uuid) : ResourceRef :=
  {| rr_tenant_id := tenant_id; rr_kind := RkOperation;
     rr_id := {| ri_kind := RkOperation; ri_uuid := operation_id |} |}.

(** ** Ports *)

Class CommandBus (W : Type) := bus_send : Command -> W -> result unit DomainError * W.
Class DeviceOwnerResolver (W : Type) :=
  resolve_owner : Uuid -> Uuid -> W -> result (option OwnerInfo) DomainError * W.

Section services.
Context {W : Type} `{Clock W, IdGenerator W, EventIds W, Others W} `{DateRange, UuidDisplay, DbMessages}.

(** ** Operation service *)

(** What every change of an operation ends with: save, wrap the event, append
    it, all in the transaction. *)
Definition save_with_event (context : RequestContext) (tenant_id : Uuid) (o : Op.Operation) (event : DomainEvent) :
    app W unit :=
  do+ stmt (op_save o) in
  let+ event := app_port (Event_new context tenant_id (operation_resource_ref tenant_id (Op.operation_id o))
                            (Op.revision o) event) in
  stmt (outbox_append event).

(** [get(..).await?.ok_or_else(not_found)?]. *)
Definition load_operation (tenant_id operation_id : Uuid) : app W Op.Operation :=
  let+ o := stmt (reads (op_get tenant_id operation_id)) in
  match o with
  | Some o => app_ret o
  | None => app_err (domain_to_signal (not_found "operation" (uuid_to_string operation_id)))
  end.

Definition submit_operation (context : RequestContext) (request : SubmitOperationRequest) : app W OperationDto :=
  let tenant_id := rc_tenant_id context in
  if negb (bool_decide (rr_tenant_id (sr_target request) = tenant_id)) then
    app_err (domain_to_signal (invalid_argument "target tenant does not match request context"))
  else
  let+ scope := app_try (IdempotencyScope_new tenant_id (pr_id (rc_principal context)) (sr_target request)
                           (sr_idempotency_key request)) in
  let+ existing := stmt (reads (op_get_by_idempotency scope)) in
  match existing with
  | Some existing => app_ret (to_dto existing)
  | None =>
      let+ r := app_port (Op.new context (sr_idempotency_key request) (sr_device_id request) (sr_target request)
                            (sr_payload request) (sr_deadline request) (sr_expected_owner_epoch request)) in
      let+ (operation, event) := app_try r in
      do+ save_with_event context tenant_id operation event in
      do+ commit in
      app_ret (to_dto operation)
  end.

Definition get_operation (tenant_id operation_id : Uuid) : app W OperationDto :=
  let+ o := load_operation tenant_id operation_id in app_ret (to_dto o).

(** The body of [cancel_operation], [complete_operation] and
    [timeout_operation], which differ in the method they call. *)
Definition change_operation (method : dm Op.Operation W DomainEvent) (context : RequestContext)
    (operation_id : Uuid) : app W OperationDto :=
  let tenant_id := rc_tenant_id context in
  let+ o := load_operation tenant_id operation_id in
  let+ (event, o) := app_method method o in
  do+ save_with_event context tenant_id o event in
  do+ commit in
  app_ret (to_dto o).

Definition cancel_operation (context : RequestContext) (operation_id : Uuid) : app W OperationDto :=
  change_operation Op.cancel context operation_id.
Definition complete_operation (context : RequestContext) (operation_id : Uuid) (r : OperationResult) :
    app W OperationDto :=
  change_operation (Op.complete r) context operation_id.
Definition timeout_operation (context : RequestContext) (operation_id : Uuid) (e : OperationError) :
    app W OperationDto :=
  change_operation (Op.timeout e) context operation_id.

(** ** Command dispatcher *)

Context `{CommandBus W, DeviceOwnerResolver W}.

(** The step that a dispatch of the operation works on. *)
Definition dispatch_step_id (o : Op.Operation) : Uuid :=
  match cmd_step_id (Op.command o) with
  | Some id => id
  | None => cmd_command_id (Op.command o)
  end.

Definition find_step (o : Op.Operation) (step_id : Uuid) : option Step.OperationStep :=
  snd <$> list_find (fun s => Step.step_id s = step_id) (Op.steps o).

Definition has_sent_or_acked_attempt (o : Op.Operation) (step_id : Uuid) : bool :=
  match find_step o step_id with
  | Some s => existsb (fun a => match Attempt.status a with DaSent | DaAcked => true | _ => false end)
                (Step.attempts s)
  | None => false
  end.

Definition find_pending_attempt_id (o : Op.Operation) (step_id : Uuid) : option Uuid :=
  match find_step o step_id with
  | Some s => (fun ia => Attempt.attempt_id ia.2)
                <$> list_find (fun a => Attempt.status a = DaPending) (reverse (Step.attempts s))
  | None => None
  end.

Definition save_operation (o : Op.Operation) : app W unit :=
  do+ stmt (op_save o) in commit.

(** [CommandDispatcher::complete_operation]. *)
Definition fail_operation (context : RequestContext) (tenant_id : Uuid) (o : Op.Operation) (code message : string) :
    app W Op.Operation :=
  let+ (event, o) := app_method (Op.complete (Failure code message)) o in
  do+ save_with_event context tenant_id o event in
  do+ commit in
  app_ret o.

(** From [Pending] to [Running], committed before any I/O. *)
Definition start_pending (context : RequestContext) (tenant_id : Uuid) (o : Op.Operation) : app W Op.Operation :=
  match Op.status o with
  | OsPending =>
      let+ (event, o) := app_method Op.start o in
      do+ save_with_event context tenant_id o event in
      do+ commit in
      app_ret o
  | _ => app_ret o
  end.

(** The pending attempt of the step, or a new one that is recorded. *)
Definition pending_attempt (o : Op.Operation) (step_id : Uuid) : app W (Uuid * Op.Operation) :=
  match find_pending_attempt_id o step_id with
  | Some id => app_ret (id, o)
  | None =>
      let+ id := app_port generate_message_id in
      let+ (_, o) := app_method (Op.record_dispatch_attempt step_id (Attempt.new id)) o in
      app_ret (id, o)
  end.

(** What happens before the owner is resolved: the answer when there is nothing
    to send, or else the operation, its step and the attempt. *)
Definition prepare_dispatch (context : RequestContext) (tenant_id operation_id : Uuid) :
    app W (OperationDto + Op.Operation * Uuid * Uuid) :=
  let+ o := load_operation tenant_id operation_id in
  if Op.is_terminal o then app_ret (inl (to_dto o)) else
  let step_id := dispatch_step_id o in
  if bool_decide (Op.status o = OsRunning) && has_sent_or_acked_attempt o step_id
  then app_ret (inl (to_dto o))
  else
  let+ o := start_pending context tenant_id o in
  let+ (attempt_id, o) := pending_attempt o step_id in
  do+ save_operation o in
  app_ret (inr (o, step_id, attempt_id)).

(** The attempt is marked as rejected and the operation fails. *)
Definition reject_attempt (context : RequestContext) (tenant_id : Uuid) (o : Op.Operation) (step_id attempt_id : Uuid)
    (code message : string) : app W Op.Operation :=
  let+ (_, o) := app_method (Op.mark_dispatch_attempt_nacked step_id attempt_id
                                {| oe_code := code; oe_message := message |}) o in
  do+ save_operation o in
  fail_operation context tenant_id o code message.

Definition send_command (context : RequestContext) (tenant_id : Uuid) (o : Op.Operation) (step_id attempt_id : Uuid) :
    app W Op.Operation :=
  let+ owner := app_port (resolve_owner tenant_id (Op.device_id o)) in
  match owner with
  | Ok (Some owner) =>
      if oi_epoch owner =? Op.expected_owner_epoch o then
        let+ sent := app_port (bus_send (Op.command o)) in
        match sent with
        | Ok _ =>
            let+ (_, o) := app_method (Op.mark_dispatch_attempt_sent step_id attempt_id) o in
            do+ save_operation o in
            app_ret o
        | Err e => reject_attempt context tenant_id o step_id attempt_id "COMMAND_BUS" (DomainError_display e)
        end
      else reject_attempt context tenant_id o step_id attempt_id "STALE_OWNER" "stale owner epoch"
  | Ok None => reject_attempt context tenant_id o step_id attempt_id "NO_OWNER" "no owner resolved"
  | Err e => reject_attempt context tenant_id o step_id attempt_id "RESOLVE_ERROR" (DomainError_display e)
  end.

Definition dispatch (context : RequestContext) (tenant_id operation_id : Uuid) : app W OperationDto :=
  let+ prepared := prepare_dispatch context tenant_id operation_id in
  match prepared with
  | inl dto => app_ret dto
  | inr (o, step_id, attempt_id) =>
      let+ o := send_command context tenant_id o step_id attempt_id in
      app_ret (to_dto o)
  end.
End services.
