(* ===== verification/OperationHistory.v ===== *)
(** * State and events of operations agree

    The transactional outbox: whatever the services do, in whatever order and
    with whatever other sessions in between, the events that the outbox holds
    for an operation are its history.  The argument is a rely-guarantee one: a
    session relies on the others to keep the invariant [consistent] and to let
    revisions grow ([advances]), and gives the same guarantee; a lost update is
    ruled out by the revision check of [op_save] alone. *)

From S2P Require Import Prelude RustStr Domain DomainData Operation Lifecycle OperationProps Paging Cluster UnitOfWork.
From S2P Require Import OperationService.

Open Scope list_scope.
Open Scope Z_scope.

#[global] Instance ResourceKind_eq_dec : EqDecision ResourceKind.
Proof. solve_decision. Defined.
#[global] Instance ResourceId_eq_dec : EqDecision ResourceId.
Proof. solve_decision. Defined.

(** ** The invariant *)

Definition about (id : Uuid) (e : Event DomainEvent) : Prop :=
  rr_id (ev_aggregate_ref e) = {| ri_kind := RkOperation; ri_uuid := id |}.
#[global] Instance about_dec id e : Decision (about id e).
Proof. unfold about. apply _. Defined.

(** The events of an operation in the outbox, with their sequence numbers. *)
Definition op_events (s : Store) (id : Uuid) : list (Z * DomainEvent) :=
  (fun e => (ev_aggregate_sequence e, ev_payload e))
    <$> filter (about id) (ob_event <$> (map_to_list (outbox_events s)).*2).

Definition submitted_event (o : Op.Operation) : DomainEvent :=
  OperationSubmitted (Op.operation_id o) (Op.tenant_id o) (Op.device_id o) (Op.idempotency_scope o) (Op.command o).
Definition changed_event (o : Op.Operation) (c : OperationStatus * observation) : DomainEvent :=
  OperationStateChanged (Op.operation_id o) (Op.tenant_id o) c.1 c.2.1.1 c.2.1.2 c.2.2.

(** The outbox tells the history of the operation: the submission, and changes
    with growing sequence numbers that lead to the state it is in. *)
Definition told (s : Store) (o : Op.Operation) : Prop :=
  exists l : list (Z * (OperationStatus * observation)),
    op_events s (Op.operation_id o) ≡ₚ (0, submitted_event o) :: ((fun c => (c.1, changed_event o c.2)) <$> l)
    /\ path (fun d : observation => d.1.1) op_edge (OsPending, None, None) l.*2 (observe o)
    /\ StronglySorted Z.lt (0 :: l.*1)
    /\ Forall (fun n => n <= Op.revision o) l.*1.

Definition in_range (o : Op.Operation) : Prop := 0 <= Op.revision o <= I64_MAX.

Record consistent (s : Store) : Prop := {
  cs_row : forall id o, operations s !! id = Some o ->
    Op.operation_id o = id /\ in_range o /\ op_inv o /\ told s o;
  cs_none : forall id, operations s !! id = None -> op_events s id = [];
  cs_unique : forall id1 id2 o1 o2, operations s !! id1 = Some o1 -> operations s !! id2 = Some o2 ->
    idempotency_columns o1 = idempotency_columns o2 -> id1 = id2
}.

(** Operations are never removed, and a change raises the revision. *)
Definition newer (o o2 : Op.Operation) : Prop :=
  identity o2 = identity o /\ Op.revision o <= Op.revision o2 /\ (Op.revision o2 = Op.revision o -> o2 = o).
Definition advances (s s2 : Store) : Prop :=
  forall id o, operations s !! id = Some o -> exists o2, operations s2 !! id = Some o2 /\ newer o o2.

#[global] Instance newer_preorder : PreOrder newer.
Proof.
  split; [intros o; split_and!; [done|lia|done]|]. intros o1 o2 o3 (Hi1 & Hr1 & He1) (Hi2 & Hr2 & He2). split_and!; [congruence|lia|].
  intros Hr. assert (Op.revision o3 = Op.revision o2) as H2 by lia. rewrite (He2 H2). apply He1. lia.
Qed.
#[global] Instance advances_preorder : PreOrder advances.
Proof.
  split; [intros s id o Ho; exists o; by split|]. intros s1 s2 s3 H12 H23 id o Ho.
  destruct (H12 id o Ho) as (o2 & Ho2 & Hn). destruct (H23 id o2 Ho2) as (o3 & Ho3 & Hn3). exists o3.
  split; [done|]. by etrans.
Qed.

(** The session holds a version of an operation: the one that is stored, or one
    that others have changed since. *)
Definition holds (o : Op.Operation) (s : Store) : Prop :=
  in_range o /\ op_inv o /\ exists cur, operations s !! Op.operation_id o = Some cur /\ newer o cur.

Lemma holds_advances o s s2 : holds o s -> advances s s2 -> holds o s2.
Proof.
  intros (Hr & Hi & cur & Hcur & Hn) Hadv. destruct (Hadv _ _ Hcur) as (o2 & Ho2 & Hn2).
  split_and!; [done..|]. exists o2. split; [done|]. by etrans.
Qed.

(** A method that succeeded. *)
Definition next (o : Op.Operation) (e : option DomainEvent) (o1 : Op.Operation) : Prop :=
  identity o1 = identity o /\ op_inv o1 /\ Op.revision o1 = wrap64 (Op.revision o + 1)
  /\ match e with
     | Some e => e = Op.state_changed_event (Op.status o) o1 /\ op_edge (Op.status o) (Op.status o1) = true
     | None => observe o1 = observe o
     end.

Lemma exec_next {W} `{Clock W, UuidDisplay} c o (w : W) e o1 w1 :
  op_inv o -> Op.exec c o w = (Ok e, o1, w1) -> next o e o1.
Proof.
  intros Hi Hx. apply exec_shaped in Hx. inversion Hx; subst; unfold next; simpl.
  - split_and!; try done; [by apply started_inv|]. by match goal with H : Op.status o = _ |- _ => rewrite H end.
  - split_and!; try done. by eapply ended_inv.
  - split_and!; try done. by apply touched_inv.
Qed.

(** ** The outbox *)

Lemma op_events_append s e id :
  outbox_events s !! ev_event_id e = None ->
  op_events (set_outbox (<[ev_event_id e := mkEntry e false 0 false None None]> (outbox_events s)) s) id
  ≡ₚ (if decide (about id e) then [(ev_aggregate_sequence e, ev_payload e)] else []) ++ op_events s id.
Proof.
  intros Hf. unfold op_events. simpl. rewrite (map_to_list_insert _ _ _ Hf). simpl.
  rewrite filter_cons. by case_decide.
Qed.

Lemma path_snoc {St D} (st : D -> St) edge d l d1 p d2 :
  path st edge d l d1 -> p = st d1 -> edge p (st d2) = true -> path st edge d (l ++ [(p, d2)]) d2.
Proof. induction 1; intros; simpl; constructor; try done; [constructor|]. auto. Qed.

Lemma sorted_lt_snoc l (n m : Z) :
  StronglySorted Z.lt l -> Forall (fun x => x <= n) l -> n < m -> StronglySorted Z.lt (l ++ [m]).
Proof.
  intros Hs Hle Hlt. induction Hs as [|x l Hs IH Hx]; simpl; [repeat constructor|].
  apply Forall_cons in Hle as [Hxn Hle]. constructor; [by apply IH|].
  apply Forall_app. split; [done|]. constructor; [lia|constructor].
Qed.

Lemma told_identity s o o1 : identity o1 = identity o -> observe o1 = observe o -> Op.revision o <= Op.revision o1 ->
  told s o -> told s o1.
Proof.
  unfold identity. intros Hid Hobs Hr (l & He & Hp & Hs & Hle).
  injection Hid as Hid Ht Hd Hsc _ _ Hc _ _ _. exists l. split_and!.
  - unfold submitted_event, changed_event. by rewrite Hid, Ht, Hd, Hsc, Hc.
  - by rewrite Hobs.
  - done.
  - eapply Forall_impl; [exact Hle|]. simpl. lia.
Qed.

(** A change and its event, with the new revision as its sequence number. *)
Lemma told_change s s1 o o1 p :
  told s o -> identity o1 = identity o -> Op.revision o1 = Op.revision o + 1 -> in_range o ->
  p = Op.status o -> op_edge p (Op.status o1) = true ->
  op_events s1 (Op.operation_id o) ≡ₚ (Op.revision o1, Op.state_changed_event p o1) :: op_events s (Op.operation_id o) ->
  told s1 o1.
Proof.
  unfold identity. intros (l & He & Hp & Hs & Hle) Hid Hr Hin -> Hedge Hev.
  injection Hid as Hid Ht Hd Hsc _ _ Hc _ _ _.
  exists (l ++ [(Op.revision o1, (Op.status o, observe o1))]). rewrite !fmap_app. simpl. unfold in_range in Hin. split_and!.
  - unfold submitted_event, changed_event, Op.state_changed_event in *. rewrite Hid, Ht in *.
    rewrite Hd, Hsc, Hc, Hev, He. simpl.
    rewrite Permutation_swap. apply perm_skip. apply Permutation_cons_append.
  - by eapply path_snoc.
  - change (0 :: l.*1 ++ [Op.revision o1]) with ((0 :: l.*1) ++ [Op.revision o1]).
    apply (sorted_lt_snoc _ (Op.revision o)); [done| |lia]. constructor; [lia|done].
  - apply Forall_app. split; [|repeat constructor; lia]. eapply Forall_impl; [exact Hle|]. simpl. lia.
Qed.

Lemma told_events s s1 o : op_events s1 (Op.operation_id o) ≡ₚ op_events s (Op.operation_id o) -> told s o -> told s1 o.
Proof. intros Hev (l & He & Hl). exists l. by rewrite Hev. Qed.

(** ** Saving *)

Lemma identity_columns o o1 : identity o1 = identity o ->
  Op.operation_id o1 = Op.operation_id o /\ idempotency_columns o1 = idempotency_columns o.
Proof. unfold identity, idempotency_columns. intros H. injection H as Hid Ht _ Hs _ _ _ _ _ _. by rewrite Hid, Ht, Hs. Qed.

Lemma as_i64_range n : 0 <= n <= I64_MAX -> as_i64 n = n.
Proof. intros. apply as_i64_id. lia. Qed.

Lemma next_revision n : 0 <= n <= I64_MAX -> as_i64 (wrap64 (n + 1)) <> I64_MIN ->
  wrap64 (n + 1) = n + 1 /\ n + 1 <= I64_MAX.
Proof.
  intros Hn Hm. destruct (decide (n = I64_MAX)) as [->|].
  - exfalso. apply Hm. by vm_compute.
  - split; [|unfold I64_MAX in *; lia]. apply wrap64_id. unfold is_u64, U64_MAX, I64_MAX in *. lia.
Qed.

(** Only the version that is stored can be replaced by its successor. *)
Lemma op_save_next o e o1 s s1 :
  holds o s -> consistent s -> next o e o1 -> op_save o1 s = (Ok tt, s1) ->
  operations s !! Op.operation_id o = Some o
  /\ s1 = set_operations (<[Op.operation_id o := o1]> (operations s)) s
  /\ in_range o1 /\ Op.revision o1 = Op.revision o + 1.
Proof.
  intros (Hr & _ & cur & Hcur & Hn & Hle & Heq) Hc (Hid & _ & Hrev & _) Hsave. unfold op_save in Hsave.
  destruct (identity_columns _ _ Hid) as [Ho1 _]. rewrite Ho1, Hcur in Hsave.
  destruct (cs_row s Hc _ _ Hcur) as (_ & Hrc & _). unfold in_range in *. rewrite (as_i64_range _ Hrc) in Hsave.
  rewrite Hrev in *. destruct (Z.eqb_spec (as_i64 (wrap64 (Op.revision o + 1))) I64_MIN) as [|Hm]; [done|].
  destruct (next_revision _ Hr Hm) as [Hw Hmax]. rewrite Hw in *. rewrite as_i64_range in Hsave by lia.
  destruct (Z.eqb_spec (Op.revision cur) (Op.revision o + 1 - 1)) as [Hc1|].
  2: { by destruct (stored_revision_as_u64 _). }
  assert (cur = o) as -> by (apply Heq; lia). case_match; [done|]. injection Hsave as <-.
  split_and!; [done|done|lia|lia|done].
Qed.

(** A version that was stored already is refused. *)
Lemma op_save_again o s :
  holds o s -> consistent s ->
  exists cur, operations s !! Op.operation_id o = Some cur
    /\ op_save o s = (Err (Failed (ConcurrentModification (sat_sub (Op.revision o) 1) (Op.revision cur))), s).
Proof.
  intros (Hr & _ & cur & Hcur & _ & Hle & _) Hc. exists cur. split; [done|]. unfold op_save. rewrite Hcur.
  destruct (cs_row s Hc _ _ Hcur) as (_ & Hrc & _). unfold in_range in *.
  rewrite (as_i64_range _ Hrc), (as_i64_range _ Hr).
  destruct (Z.eqb_spec (Op.revision o) I64_MIN) as [Hm|]; [unfold I64_MIN in Hm; lia|].
  destruct (Z.eqb_spec (Op.revision cur) (Op.revision o - 1)); [lia|].
  unfold stored_revision_as_u64. destruct (Z.ltb_spec (Op.revision cur) 0); [lia|done].
Qed.

(** An operation that was just created goes in only under a new identifier and
    a new key. *)
Lemma op_save_new o s s1 :
  consistent s -> Op.revision o = 0 -> op_save o s = (Ok tt, s1) ->
  operations s !! Op.operation_id o = None
  /\ (forall id o2, operations s !! id = Some o2 -> idempotency_columns o2 <> idempotency_columns o)
  /\ s1 = set_operations (<[Op.operation_id o := o]> (operations s)) s.
Proof.
  intros Hc H0 Hsave. unfold op_save in Hsave. rewrite H0 in Hsave.
  destruct (operations s !! Op.operation_id o) as [cur|] eqn:Hcur.
  { destruct (cs_row s Hc _ _ Hcur) as (_ & Hrc & _). rewrite (as_i64_range _ Hrc) in Hsave. unfold in_range in *.
    change (as_i64 0) with 0 in Hsave. change (0 =? I64_MIN) with false in Hsave. cbv iota in Hsave.
    destruct (Z.eqb_spec (Op.revision cur) (0 - 1)); [lia|]. by destruct (stored_revision_as_u64 _). }
  destruct (key_taken o s) eqn:Hk; [done|]. injection Hsave as <-. split_and!; [done| |done].
  intros id o2 Ho2 Hcol. unfold key_taken in Hk. apply bool_decide_eq_false in Hk. apply Hk, Exists_exists.
  exists o2. split.
  - apply list_elem_of_fmap. exists (id, o2). split; [done|]. by apply elem_of_map_to_list.
  - destruct (cs_row s Hc _ _ Ho2) as (Hid & _). split; [congruence|done].
Qed.

(** ** The invariant is kept *)

Definition append (e : Event DomainEvent) (s : Store) : Store :=
  set_outbox (<[ev_event_id e := mkEntry e false 0 false None None]> (outbox_events s)) s.
Definition put_op (o : Op.Operation) (s : Store) : Store :=
  set_operations (<[Op.operation_id o := o]> (operations s)) s.

Lemma about_ref id (e : Event DomainEvent) tenant o :
  ev_aggregate_ref e = operation_resource_ref tenant o -> about id e <-> id = o.
Proof. unfold about. intros ->. simpl. split; [by intros [=] | by intros ->]. Qed.

Lemma put_advances o o1 s :
  operations s !! Op.operation_id o1 = Some o -> newer o o1 -> advances s (put_op o1 s).
Proof.
  intros Ho Hn id o2 Ho2. simpl. destruct (decide (id = Op.operation_id o1)) as [->|].
  - exists o1. rewrite lookup_insert_eq. rewrite Ho in Ho2. by injection Ho2 as <-.
  - exists o2. by rewrite lookup_insert_ne.
Qed.

Lemma next_newer o e o1 : next o e o1 -> Op.revision o1 = Op.revision o + 1 -> newer o o1.
Proof. intros (Hid & _) Hr. split_and!; [done|lia|lia]. Qed.

(** What a change of the table of operations and of the outbox has to bring. *)
Lemma consistent_put o1 s s1 :
  consistent s -> operations s1 = <[Op.operation_id o1 := o1]> (operations s) ->
  (forall id, id <> Op.operation_id o1 -> op_events s1 id ≡ₚ op_events s id) ->
  (forall id o2, operations s !! id = Some o2 -> idempotency_columns o2 = idempotency_columns o1 ->
     id = Op.operation_id o1) ->
  in_range o1 -> op_inv o1 -> told s1 o1 -> consistent s1.
Proof.
  intros Hc Hops Hev Hcol Hr Hi Ht. split.
  - intros id o. rewrite Hops, lookup_insert_Some. intros [[<- <-]|[Hne Ho]]; [done|].
    destruct (cs_row s Hc _ _ Ho) as (Hid & ? & ? & ?). split_and!; try done.
    eapply told_events; [|done]. apply Hev. congruence.
  - intros id. rewrite Hops, lookup_insert_None. intros [Ho Hne]. apply Permutation_nil_r.
    rewrite (Hev id) by done. by rewrite (cs_none s Hc).
  - intros id1 id2 o2 o3. rewrite Hops, !lookup_insert_Some.
    intros [[<- <-]|[Hne1 H1]] [[<- <-]|[Hne2 H2]] He; [done| | |].
    + symmetry. by eapply Hcol.
    + by eapply Hcol.
    + by eapply (cs_unique s Hc).
Qed.

Lemma consistent_change o e o1 ev s tenant :
  consistent s -> operations s !! Op.operation_id o = Some o -> next o (Some e) o1 ->
  in_range o1 -> Op.revision o1 = Op.revision o + 1 ->
  outbox_events s !! ev_event_id ev = None ->
  ev_aggregate_ref ev = operation_resource_ref tenant (Op.operation_id o) ->
  ev_aggregate_sequence ev = Op.revision o1 -> ev_payload ev = e ->
  consistent (append ev (put_op o1 s)).
Proof.
  intros Hc Ho (Hid & Hinv & _ & He & Hedge) Hr Hrev Hfresh Href Hseq Hpay.
  destruct (identity_columns _ _ Hid) as [Hid1 Hcol]. destruct (cs_row s Hc _ _ Ho) as (_ & Hro & _ & Ht).
  assert (forall id, op_events (append ev (put_op o1 s)) id
            ≡ₚ (if decide (about id ev) then [(Op.revision o1, e)] else []) ++ op_events s id) as Hev.
  { intros id. rewrite <-Hseq, <-Hpay. exact (op_events_append (put_op o1 s) ev id Hfresh). }
  apply (consistent_put o1 s); try done.
  - intros id Hne. rewrite Hev, decide_False; [done|]. rewrite (about_ref _ _ _ _ Href). congruence.
  - intros id o2 Ho2. rewrite Hcol, Hid1. intros Hcc. by eapply (cs_unique s Hc).
  - eapply told_change; [exact Ht|done|done|done|reflexivity|done|].
    rewrite Hev, decide_True by (by apply (about_ref _ _ _ _ Href)). simpl. by rewrite He.
Qed.

Lemma consistent_touch o o1 s :
  consistent s -> operations s !! Op.operation_id o = Some o -> next o None o1 ->
  in_range o1 -> Op.revision o1 = Op.revision o + 1 -> consistent (put_op o1 s).
Proof.
  intros Hc Ho (Hid & Hinv & _ & Hobs) Hr Hrev. destruct (identity_columns _ _ Hid) as [Hid1 Hcol].
  destruct (cs_row s Hc _ _ Ho) as (_ & Hro & _ & Ht). apply (consistent_put o1 s); try done.
  - intros id o2 Ho2. rewrite Hcol, Hid1. intros Hcc. by eapply (cs_unique s Hc).
  - eapply told_identity; [done|done| |exact Ht]. lia.
Qed.

Lemma consistent_submit o ev s tenant :
  consistent s -> operations s !! Op.operation_id o = None ->
  (forall id o2, operations s !! id = Some o2 -> idempotency_columns o2 <> idempotency_columns o) ->
  op_inv o -> Op.revision o = 0 -> observe o = (OsPending, None, None) ->
  outbox_events s !! ev_event_id ev = None ->
  ev_aggregate_ref ev = operation_resource_ref tenant (Op.operation_id o) ->
  ev_aggregate_sequence ev = 0 -> ev_payload ev = submitted_event o ->
  consistent (append ev (put_op o s)).
Proof.
  intros Hc Ho Hcol Hinv Hrev Hobs Hfresh Href Hseq Hpay.
  assert (forall id, op_events (append ev (put_op o s)) id
            ≡ₚ (if decide (about id ev) then [(0, submitted_event o)] else []) ++ op_events s id) as Hev.
  { intros id. pose proof (op_events_append (put_op o s) ev id Hfresh) as Hap. by rewrite Hseq, Hpay in Hap. }
  apply (consistent_put o s); try done.
  - intros id Hne. rewrite Hev, decide_False; [done|]. by rewrite (about_ref _ _ _ _ Href).
  - intros id o2 Ho2 Hcc. by edestruct Hcol.
  - unfold in_range, I64_MAX. lia.
  - exists []. rewrite Hev, decide_True by (by apply (about_ref _ _ _ _ Href)). simpl. rewrite (cs_none s Hc) by done.
    rewrite Hobs. split_and!; [done|constructor|repeat constructor|constructor].
Qed.
