(* ===== verification/OperationSessions.v ===== *)
(** * Sessions on the table of operations

    Specifications of computations on a unit of work, in the style of a Hoare
    logic with rely and guarantee: [spec P m Q] says that [m], started where [P]
    holds, leaves committed tables that are consistent and have only advanced,
    also when it fails half way, and ends where [Q] holds.  The services of
    [OperationService] satisfy such specifications. *)

From S2P Require Import Prelude RustStr Domain DomainData Operation Lifecycle OperationProps Paging Cluster UnitOfWork.
From S2P Require Import OperationService OperationHistory.

Open Scope list_scope.
Open Scope Z_scope.

(** What a session relies on. *)
Class OthersRely (W : Type) `{Others W} :=
  others_rely : forall s (w : W), consistent s -> consistent (others s w).1 /\ advances s (others s w).1.

Definition view (u : Uow) : Store := match tx u with Some t => tx_store t | None => committed u end.

Definition good (u : Uow) : Prop :=
  consistent (committed u)
  /\ match tx u with
     | Some t => tx_aborted t = false /\ consistent (tx_store t) /\ advances (committed u) (tx_store t)
     | None => True
     end.

Definition stable (P : Store -> Prop) : Prop := forall s s2, P s -> consistent s2 -> advances s s2 -> P s2.

Definition spec {W A} (P : Store -> Prop) (m : app W A) (Q : A -> Store -> Prop) : Prop :=
  forall u w, good u -> P (view u) ->
  let '(r, u1, _) := m u w in
  consistent (committed u1) /\ advances (committed u) (committed u1)
  /\ match r with Ok a => good u1 /\ advances (view u) (view u1) /\ Q a (view u1) | Err _ => True end.

Lemma stable_holds o : stable (holds o).
Proof. intros s s2 Hh _ Ha. by eapply holds_advances. Qed.
Lemma stable_True : stable (fun _ => True).
Proof. done. Qed.
#[export] Hint Resolve stable_holds stable_True : core.

(** ** Rules *)

Section rules.
Context {W : Type}.

Lemma spec_ret {A} (a : A) (Q : A -> Store -> Prop) : spec (W := W) (Q a) (app_ret a) Q.
Proof. intros u w [Hg Ht] HQ. simpl. split_and!; done. Qed.

Lemma spec_err {A} P e (Q : A -> Store -> Prop) : spec (W := W) P (app_err e) Q.
Proof. intros u w [Hg Ht] HQ. simpl. split_and!; done. Qed.

Lemma spec_bind {A B} P (m : app W A) (k : A -> app W B) Q R :
  spec P m Q -> (forall a, spec (Q a) (k a) R) -> spec P (app_bind m k) R.
Proof.
  intros Hm Hk u w Hg HP. unfold app_bind. specialize (Hm u w Hg HP).
  destruct (m u w) as [[[a|e] u1] w1]; destruct Hm as (Hc & Ha & Hr); [|done].
  destruct Hr as (Hg1 & Hv1 & HQ). specialize (Hk a u1 w1 Hg1 HQ).
  destruct (k a u1 w1) as [[r u2] w2]. destruct Hk as (Hc2 & Ha2 & Hr2). split_and!; [done|by etrans|].
  destruct r; [|done]. destruct Hr2 as (? & ? & ?). split_and!; [done|by etrans|done].
Qed.

Lemma spec_pre {A} (P P2 : Store -> Prop) (m : app W A) Q :
  (forall s, P s -> P2 s) -> spec P2 m Q -> spec P m Q.
Proof. intros Hp Hm u w Hg HP. apply Hm; auto. Qed.

Lemma spec_post {A} P (m : app W A) (Q R : A -> Store -> Prop) :
  (forall a s, Q a s -> R a s) -> spec P m Q -> spec P m R.
Proof.
  intros HQ Hm u w Hg HP. specialize (Hm u w Hg HP).
  destruct (m u w) as [[[a|e] u1] w1]; naive_solver.
Qed.

Lemma spec_frame {A} P (m : app W A) Q (R : Store -> Prop) :
  stable R -> spec P m Q -> spec (fun s => P s /\ R s) m (fun a s => Q a s /\ R s).
Proof.
  intros HR Hm u w Hg [HP Hr]. specialize (Hm u w Hg HP).
  destruct (m u w) as [[[a|e] u1] w1]; [|done]. destruct Hm as (Hc & Ha & Hg1 & Hv & HQ). split_and!; try done.
  eapply HR; [exact Hr| |exact Hv]. destruct Hg1 as [Hc1 Ht1]. unfold view. destruct (tx u1); [|done]. apply Ht1.
Qed.

(** Facts that do not depend on the tables. *)
Lemma spec_pure {A} (phi : Prop) P (m : app W A) Q : (phi -> spec P m Q) -> spec (fun s => phi /\ P s) m Q.
Proof. intros Hm u w Hg [Hphi HP]. by apply Hm. Qed.

Lemma spec_port {A} P (f : W -> A * W) (Q : A -> Store -> Prop) :
  (forall a s, P s -> Q a s) -> spec P (app_port f) Q.
Proof. intros HQ u w Hg HP. unfold app_port. destruct (f w). simpl. pose proof Hg as [? ?]. split_and!; try done. by apply HQ. Qed.

(** A port of which more is known than its type. *)
Lemma spec_port_run {A} P (f : W -> A * W) (phi : A -> Prop) :
  (forall w, phi (f w).1) -> spec P (app_port f) (fun a s => phi a /\ P s).
Proof.
  intros Hf u w Hg HP. unfold app_port. specialize (Hf w). destruct (f w). simpl in *. pose proof Hg as [? ?].
  split_and!; done.
Qed.

Lemma spec_try {A} P (r : result A DomainError) (Q : A -> Store -> Prop) :
  (forall a s, r = Ok a -> P s -> Q a s) -> spec P (app_try (W := W) r) Q.
Proof. intros HQ u w Hg HP. unfold app_try. pose proof Hg as [? ?]. destruct r; split_and!; try done. by apply HQ. Qed.

Lemma spec_method {S A} P (m : dm S W A) (s : S) (phi : A -> S -> Prop) :
  (forall w a s1 w1, m s w = (Ok a, s1, w1) -> phi a s1) ->
  spec P (app_method m s) (fun r st => phi r.1 r.2 /\ P st).
Proof.
  intros Hm u w Hg HP. unfold app_method. destruct (m s w) as [[[a|e] s1] w1] eqn:Hr; pose proof Hg as [? ?].
  - split_and!; try done. by eapply Hm.
  - done.
Qed.

Context `{OthersRely W} `{DbMessages}.

(** The transaction that a statement finds or begins. *)
Lemma uow_tx_good u (w : W) P :
  good u -> stable P -> P (view u) ->
  exists c s w1, uow_tx u w = (mkUow c (Some (mkTx s false)) (rolled_back u), mkTx s false, w1)
    /\ consistent c /\ consistent s /\ P s /\ advances (committed u) c /\ advances c s /\ advances (view u) s.
Proof.
  intros [Hc Ht] Hst HP. unfold uow_tx, view in *. destruct u as [c [[s ab]|] rb]; simpl in *.
  - destruct Ht as (-> & ? & ?). exists c, s, w. by split_and!.
  - pose proof (others_rely c w Hc) as [Hs Ha]. destruct (others c w) as [s w1]. simpl in *.
    exists s, s, w1. split_and!; try done. by eapply Hst.
Qed.

Lemma stmt_open {A} (f : Store -> stmt_result A) c s rb (w : W) :
  stmt f (mkUow c (Some (mkTx s false)) rb) w
  = match f s with
    | (Ok a, s1) => (Ok a, mkUow c (Some (mkTx s1 false)) rb, w)
    | (Err (Rejected e), s1) =>
        (Err (domain_to_signal (sqlx_to_domain e)), mkUow c (Some (mkTx s1 true)) rb, w)
    | (Err (Failed e), s1) => (Err (domain_to_signal e), mkUow c (Some (mkTx s1 false)) rb, w)
    end.
Proof. unfold stmt, stmt_domain. simpl. by destruct (f s) as [[a|[e|e]] s1]. Qed.

Lemma stmt_begins {A} (f : Store -> stmt_result A) u (w : W) :
  stmt f u w = let '(u1, _, w1) := uow_tx u w in stmt f u1 w1.
Proof.
  unfold stmt, stmt_domain, uow_tx. destruct u as [c [t|] rb]; simpl; [done|]. by destruct (others c w).
Qed.

Lemma spec_stmt {A} P (f : Store -> stmt_result A) (Q : A -> Store -> Prop) :
  stable P ->
  (forall s a s1, consistent s -> P s -> f s = (Ok a, s1) -> consistent s1 /\ advances s s1 /\ Q a s1) ->
  spec P (stmt f) Q.
Proof.
  intros Hst Hf u w Hg HP. rewrite stmt_begins.
  destruct (uow_tx_good u w P Hg Hst HP) as (c & s & w1 & -> & Hcc & Hcs & HPs & Ha & Hcs2 & Hv).
  rewrite stmt_open. destruct (f s) as [[a|[e|e]] s1] eqn:Hfs; simpl; [|done..].
  destruct (Hf s a s1) as (? & ? & ?); try done. split_and!; try done; [|by etrans]. split; simpl; [done|].
  split_and!; try done. by etrans.
Qed.

Lemma spec_commit P : spec P (commit (W := W)) (fun _ => P).
Proof.
  intros u w Hg HP. pose proof Hg as [Hc Ht]. unfold commit, view in *. destruct u as [c [[s ab]|] rb]; simpl in *;
    destruct rb; simpl; try done.
  destruct Ht as (-> & ? & ?). split_and!; try done.
Qed.
End rules.

(** ** Methods of an operation *)

Section methods.
Context {W : Type} `{Clock W, UuidDisplay}.

(** A method of the operation that is one of the calls of [Op.exec]. *)
Definition is_event_call (m : dm Op.Operation W DomainEvent) (c : Op.call) : Prop :=
  forall o w e o1 w1, m o w = (Ok e, o1, w1) -> Op.exec c o w = (Ok (Some e), o1, w1).
Definition is_quiet_call (m : dm Op.Operation W unit) (c : Op.call) : Prop :=
  forall o w e o1 w1, m o w = (Ok e, o1, w1) -> Op.exec c o w = (Ok None, o1, w1).

Lemma cancel_call : is_event_call Op.cancel Op.Cancel.
Proof. intros o w e o1 w1 Hm. unfold Op.exec, dm_bind, dm_ret. by rewrite Hm. Qed.
Lemma complete_call r : is_event_call (Op.complete r) (Op.Complete r).
Proof. intros o w e o1 w1 Hm. unfold Op.exec, dm_bind, dm_ret. by rewrite Hm. Qed.
Lemma timeout_call e : is_event_call (Op.timeout e) (Op.Timeout e).
Proof. intros o w e1 o1 w1 Hm. unfold Op.exec, dm_bind, dm_ret. by rewrite Hm. Qed.
Lemma expire_call : is_event_call Op.expire Op.Expire.
Proof. intros o w e o1 w1 Hm. unfold Op.exec, dm_bind, dm_ret. by rewrite Hm. Qed.
Lemma start_call : is_event_call Op.start Op.Start.
Proof. intros o w e o1 w1 Hm. unfold Op.exec, dm_bind, dm_ret. by rewrite Hm. Qed.
Lemma fail_call code message : is_event_call (Op.fail code message) (Op.Fail_ code message).
Proof. intros o w e o1 w1 Hm. unfold Op.exec, dm_bind, dm_ret. by rewrite Hm. Qed.
Lemma record_call sid a : is_quiet_call (Op.record_dispatch_attempt sid a) (Op.RecordAttempt sid a).
Proof. intros o w e o1 w1 Hm. unfold Op.exec, dm_bind, dm_ret. by rewrite Hm. Qed.
Lemma sent_call sid aid : is_quiet_call (Op.mark_dispatch_attempt_sent sid aid) (Op.MarkSent sid aid).
Proof. intros o w e o1 w1 Hm. unfold Op.exec, dm_bind, dm_ret. by rewrite Hm. Qed.
Lemma nacked_call sid aid e : is_quiet_call (Op.mark_dispatch_attempt_nacked sid aid e) (Op.MarkNacked sid aid e).
Proof. intros o w e1 o1 w1 Hm. unfold Op.exec, dm_bind, dm_ret. by rewrite Hm. Qed.

Lemma spec_event_method m c P o :
  is_event_call m c -> op_inv o ->
  spec P (app_method m o) (fun r s => next o (Some r.1) r.2 /\ P s).
Proof.
  intros Hm Hi. apply (spec_method P m o (fun e o1 => next o (Some e) o1)). intros w e o1 w1 Hr.
  eapply exec_next; [done|]. by apply Hm.
Qed.

Lemma spec_quiet_method m c P o :
  is_quiet_call m c -> op_inv o ->
  spec P (app_method m o) (fun r s => next o None r.2 /\ P s).
Proof.
  intros Hm Hi. apply (spec_method P m o (fun _ o1 => next o None o1)). intros w e o1 w1 Hr.
  eapply exec_next; [done|]. by eapply Hm.
Qed.
End methods.

(** ** The services *)

(** The operation is the one that is stored. *)
Definition saved (o : Op.Operation) (s : Store) : Prop := operations s !! Op.operation_id o = Some o.

Lemma holds_stored o s : consistent s -> operations s !! Op.operation_id o = Some o -> holds o s.
Proof. intros Hc Ho. destruct (cs_row s Hc _ _ Ho) as (_ & ? & ? & _). split_and!; try done. by exists o. Qed.

Lemma spec_holds {W A} o (m : app W A) Q :
  (op_inv o -> in_range o -> spec (holds o) m Q) -> spec (holds o) m Q.
Proof. intros Hm u w Hg HP. pose proof HP as (? & ? & _). by apply Hm. Qed.

Section services.
Context {W : Type} `{Clock W, IdGenerator W, EventIds W} `{OthersRely W} `{DateRange, UuidDisplay, DbMessages}.

Lemma Event_new_fields context tenant ref seq (e : DomainEvent) (w : W) :
  let ev := (Event_new context tenant ref seq e w).1 in
  ev_aggregate_ref ev = ref /\ ev_aggregate_sequence ev = seq /\ ev_payload ev = e.
Proof. unfold Event_new. destruct (generate_event_id w) as [? w1], (now_wall w1). done. Qed.

(** Two statements of one transaction with the wrapping of the event between
    them: what holds when both went through. *)
Lemma spec_save_append P context tenant o1 e (Q : Store -> Prop) :
  stable P ->
  (forall s s1 ev, consistent s -> P s -> op_save o1 s = (Ok tt, s1) ->
     outbox_events s1 !! ev_event_id ev = None ->
     ev_aggregate_ref ev = operation_resource_ref tenant (Op.operation_id o1) ->
     ev_aggregate_sequence ev = Op.revision o1 -> ev_payload ev = e ->
     consistent (append ev s1) /\ advances s (append ev s1) /\ Q (append ev s1)) ->
  spec (W := W) P (save_with_event context tenant o1 e) (fun _ => Q).
Proof.
  intros Hst Hf u w Hg HP. unfold save_with_event, app_bind. rewrite (stmt_begins (op_save o1)).
  destruct (uow_tx_good u w P Hg Hst HP) as (c & s & w1 & -> & Hcc & Hcs & HPs & Ha & Hcs2 & Hv).
  rewrite stmt_open. destruct (op_save o1 s) as [[[]|[er|er]] s1] eqn:Hsave; simpl; [|done..].
  unfold app_port. pose proof (Event_new_fields context tenant (operation_resource_ref tenant (Op.operation_id o1))
    (Op.revision o1) e w1) as (Href & Hseq & Hpay).
  destruct (Event_new _ _ _ _ _ w1) as [ev w2]. simpl in *. rewrite stmt_open. unfold outbox_append.
  destruct (outbox_events s1 !! ev_event_id ev) as [?|] eqn:Hfresh; [done|].
  destruct (Hf s s1 ev) as (? & ? & ?); try done. split_and!; try done; [|by etrans]. split; [done|]. simpl.
  split_and!; try done. by etrans.
Qed.

Lemma spec_saved_event context tenant o e o1 :
  next o (Some e) o1 ->
  spec (holds o) (save_with_event (W := W) context tenant o1 e) (fun _ s => saved o1 s /\ holds o1 s).
Proof.
  intros Hn. apply spec_save_append; [done|]. intros s s1 ev Hc Hh Hsave Hfresh Href Hseq Hpay.
  destruct (op_save_next o (Some e) o1 s s1 Hh Hc Hn Hsave) as (Ho & -> & Hr & Hrev).
  pose proof (identity_columns _ _ (proj1 Hn)) as [Hid _]. rewrite <-Hid. change (consistent (append ev (put_op o1 s))
    /\ advances s (append ev (put_op o1 s)) /\ saved o1 (append ev (put_op o1 s)) /\ holds o1 (append ev (put_op o1 s))).
  assert (consistent (append ev (put_op o1 s))) as Hc1.
  { eapply consistent_change; try done. by rewrite <-Hid. }
  assert (saved o1 (append ev (put_op o1 s))) as Hsaved by (unfold saved; simpl; by rewrite lookup_insert_eq).
  split_and!; [done| |done|by apply holds_stored].
  apply (put_advances o o1 s); [by rewrite Hid | by eapply next_newer].
Qed.

Lemma spec_save_event context tenant o e o1 :
  next o (Some e) o1 -> spec (holds o) (save_with_event (W := W) context tenant o1 e) (fun _ => holds o1).
Proof. intros Hn. eapply spec_post; [|by eapply spec_saved_event]. by intros ? ? [? ?]. Qed.

(** The session of a save without an event. *)
Lemma spec_saved_quiet o o1 :
  next o None o1 -> spec (holds o) (save_operation (W := W) o1) (fun _ s => saved o1 s /\ holds o1 s).
Proof.
  intros Hn. unfold save_operation. eapply (spec_bind _ _ _ (fun _ s => saved o1 s /\ holds o1 s)); [|intros []; apply spec_commit].
  apply (spec_stmt _ _ (fun _ s => saved o1 s /\ holds o1 s)); [done|]. intros s [] s1 Hc Hh Hsave.
  destruct (op_save_next o None o1 s s1 Hh Hc Hn Hsave) as (Ho & -> & Hr & Hrev).
  pose proof (identity_columns _ _ (proj1 Hn)) as [Hid _]. rewrite <-Hid. change (consistent (put_op o1 s)
    /\ advances s (put_op o1 s) /\ saved o1 (put_op o1 s) /\ holds o1 (put_op o1 s)).
  assert (consistent (put_op o1 s)) as Hc1 by (by eapply consistent_touch).
  assert (saved o1 (put_op o1 s)) as Hsaved by (unfold saved; simpl; by rewrite lookup_insert_eq).
  split_and!; [done| |done|by apply holds_stored].
  apply (put_advances o o1 s); [by rewrite Hid | by eapply next_newer].
Qed.

Lemma spec_save_quiet o o1 : next o None o1 -> spec (holds o) (save_operation (W := W) o1) (fun _ => holds o1).
Proof. intros Hn. eapply spec_post; [|by eapply spec_saved_quiet]. by intros ? ? [? ?]. Qed.

(** A version that is stored already cannot be saved, so what follows does not run. *)
Lemma spec_save_again o Q : spec (holds o) (save_operation (W := W) o) Q.
Proof.
  unfold save_operation. eapply (spec_bind _ _ _ (fun _ _ => False)); [|by intros [] u w].
  apply (spec_stmt _ _ (fun _ _ => False)); [done|]. intros s a s1 Hc Hh Hsave.
  destruct (op_save_again o s Hh Hc) as (cur & _ & Hs). by rewrite Hs in Hsave.
Qed.

Lemma spec_load tenant id P : stable P ->
  spec P (load_operation (W := W) tenant id) (fun o s => Op.tenant_id o = tenant /\ Op.operation_id o = id /\ holds o s).
Proof.
  intros Hst. unfold load_operation. eapply spec_bind.
  - apply (spec_stmt _ _ (fun r s => forall o, r = Some o ->
      Op.tenant_id o = tenant /\ Op.operation_id o = id /\ holds o s)); [done|].
    intros s r s1 Hc HP [= <- <-]. split_and!; [done|done|]. intros o Ho. unfold op_get in Ho.
    destruct (operations s !! id) as [o2|] eqn:Ho2; [|done]. case_decide; [|done]. injection Ho as ->.
    destruct (cs_row s Hc _ _ Ho2) as (Hid & _). split_and!; try done. apply holds_stored; [done|]. by rewrite Hid.
  - intros [o|]; [|apply spec_err]. eapply spec_pre; [|apply spec_ret]. simpl. eauto.
Qed.

(** What [Operation::new] gives. *)
Lemma op_new_ok context key dev tgt payload dl epoch (w : W) o e w1 :
  Op.new context key dev tgt payload dl epoch w = (Ok (o, e), w1) ->
  op_inv o /\ observe o = (OsPending, None, None) /\ Op.revision o = 0 /\ e = submitted_event o
  /\ Op.tenant_id o = rc_tenant_id context /\ Op.device_id o = dev
  /\ Op.idempotency_scope o = {| is_tenant_id := rc_tenant_id context; is_principal_id := pr_id (rc_principal context);
                                 is_target := tgt; is_idempotency_key := key |}
  /\ cmd_target (Op.command o) = tgt /\ cmd_payload (Op.command o) = payload.
Proof.
  unfold Op.new. destruct (is_nil dev); [done|].
  pose proof (scope_new_spec (rc_tenant_id context) (pr_id (rc_principal context)) tgt key) as Hsc.
  destruct (IdempotencyScope_new _ _ _ _) as [sc|er]; [|done]. destruct Hsc as [_ ->].
  destruct (generate_operation_id w) as [oid w2], (generate_message_id w2) as [sid w3]. unfold Command_new.
  destruct (CommandPayload_validate payload); simpl; [|done].
  destruct (generate_message_id w3) as [cid w4], (generate_message_id w4) as [mid w5]. unfold Step.new. simpl.
  destruct (now_wall w5) as [t1 w6], (now_wall w6) as [t2 w7], (now_wall w7) as [t3 w8].
  intros [= <- <- <-]. split_and!; try done. split; [done|]. by eexists.
Qed.

Lemma spec_submit context request : spec (fun _ => True) (submit_operation (W := W) context request) (fun _ _ => True).
Proof.
  unfold submit_operation. case_match; [apply spec_err|].
  eapply spec_bind; [apply (spec_try _ _ (fun _ _ => True)); done|]. intros scope.
  eapply spec_bind; [apply (spec_stmt _ _ (fun _ _ => True)); [done|]; intros s r s1 Hc _ [= <- <-]; by split_and!|].
  intros [o|]; [eapply spec_pre; [|apply spec_ret]; done|].
  eapply spec_bind; [eapply (spec_port_run _ _ (fun r => forall o e, r = Ok (o, e) ->
      op_inv o /\ observe o = (OsPending, None, None) /\ Op.revision o = 0 /\ e = submitted_event o))|].
  { intros w o e He. destruct (Op.new _ _ _ _ _ _ _ w) as [r w1] eqn:Hn. simpl in He. subst r.
    pose proof (op_new_ok _ _ _ _ _ _ _ _ _ _ _ Hn). naive_solver. }
  intros r. apply spec_pure. intros Hr.
  eapply spec_bind; [apply (spec_try _ _ (fun oe _ => r = Ok oe)); naive_solver|]. intros [o e].
  apply (spec_pre _ (fun _ => r = Ok (o, e) /\ True)); [done|].
  apply spec_pure. intros ->. destruct (Hr o e eq_refl) as (Hinv & Hobs & Hrev & ->).
  eapply (spec_bind _ _ _ (fun _ _ => True));
    [|intros []; eapply spec_bind; [apply spec_commit|intros []; eapply spec_pre; [|apply spec_ret]; done]].
  apply spec_save_append; [done|]. intros s s1 ev Hc _ Hsave Hfresh Href Hseq Hpay.
  destruct (op_save_new o s s1 Hc Hrev Hsave) as (Hno & Hkey & ->). rewrite Hrev in Hseq.
  split_and!; [| |done].
  - change (consistent (append ev (put_op o s))). by eapply consistent_submit.
  - intros id o2 Ho2. exists o2. split; [|done]. simpl. rewrite lookup_insert_ne; [done|]. congruence.
Qed.

(** The changes that end in an event: the method, then save, append and commit. *)
Lemma spec_event_tail context tenant o e o1 {A} (a : A) :
  next o (Some e) o1 ->
  spec (holds o) (app_bind (save_with_event (W := W) context tenant o1 e) (fun _ => app_bind commit (fun _ => app_ret a)))
    (fun a1 s => a1 = a /\ holds o1 s).
Proof.
  intros Hn. eapply spec_bind; [by apply spec_save_event|]. intros []. eapply spec_bind; [apply spec_commit|]. intros [].
  eapply spec_pre; [|apply spec_ret]. done.
Qed.

Lemma spec_change m c context id : is_event_call m c ->
  spec (fun _ => True) (change_operation (W := W) m context id) (fun _ _ => True).
Proof.
  intros Hm. unfold change_operation. eapply spec_bind; [by apply spec_load|]. intros o.
  apply spec_pure. intros _. apply spec_pure. intros _. apply spec_holds. intros Hi _.
  eapply spec_bind; [by apply (spec_event_method m c)|]. intros [e o1]. apply spec_pure. intros Hn. simpl in *.
  eapply spec_post; [|by apply spec_event_tail]. done.
Qed.

(** ** The dispatcher *)

Context `{CommandBus W, DeviceOwnerResolver W}.

Lemma spec_start_pending context tenant o :
  spec (holds o) (start_pending (W := W) context tenant o) (fun o1 s => holds o1 s).
Proof.
  unfold start_pending. apply spec_holds. intros Hi _. destruct (Op.status o); try apply (spec_ret o (fun o1 s => holds o1 s)).
  eapply spec_bind; [apply (spec_event_method Op.start Op.Start); [apply start_call|done]|]. intros [e o1].
  apply spec_pure. intros Hn. simpl in *. eapply spec_post; [|by apply spec_event_tail]. by intros ? s [-> ?].
Qed.

Lemma spec_fail_operation context tenant o code message :
  spec (holds o) (fail_operation (W := W) context tenant o code message) (fun o1 s => holds o1 s).
Proof.
  unfold fail_operation. apply spec_holds. intros Hi _.
  eapply spec_bind; [eapply spec_event_method; [apply complete_call|done]|].
  intros [e o1]. apply spec_pure. intros Hn. simpl in *. eapply spec_post; [|by apply spec_event_tail]. by intros ? s [-> ?].
Qed.

Lemma spec_reject_attempt context tenant o sid aid code message :
  spec (holds o) (reject_attempt (W := W) context tenant o sid aid code message) (fun o1 s => holds o1 s).
Proof.
  unfold reject_attempt. apply spec_holds. intros Hi _.
  eapply spec_bind; [eapply spec_quiet_method; [apply nacked_call|done]|]. intros [[] o1]. apply spec_pure. intros Hn. simpl in *.
  eapply spec_bind; [by apply spec_save_quiet|]. intros []. apply spec_fail_operation.
Qed.

(** A pending attempt that is found again leaves the operation as it is, and the
    save that follows refuses it. *)
Lemma spec_prepare context tenant id :
  spec (fun _ => True) (prepare_dispatch (W := W) context tenant id)
    (fun r s => match r with inl _ => True | inr (o, _, _) => holds o s end).
Proof.
  unfold prepare_dispatch. eapply spec_bind; [by apply spec_load|]. intros o0. apply spec_pure. intros _.
  apply spec_pure. intros _. destruct (Op.is_terminal o0); [by eapply spec_pre; [|apply spec_ret]|].
  destruct (_ && _); [by eapply spec_pre; [|apply spec_ret]|].
  eapply spec_bind; [apply spec_start_pending|]. intros o. unfold pending_attempt.
  destruct (find_pending_attempt_id _ _) as [aid|].
  - eapply (spec_bind _ _ _ (fun r s => r = (aid, o) /\ holds o s)); [by eapply spec_pre; [|apply spec_ret]|].
    intros [aid1 o1]. apply spec_pure. intros [= -> ->]. eapply spec_bind; [apply (spec_save_again o (fun _ _ => False))|].
    by intros [] u w.
  - apply spec_holds. intros Hi _.
    eapply (spec_bind _ _ _ (fun r s => next o None r.2 /\ holds o s)).
    + eapply spec_bind; [apply (spec_port _ _ (fun _ => holds o)); done|]. intros aid.
      eapply spec_bind; [eapply spec_quiet_method; [apply record_call|done]|]. intros [[] o1].
      eapply spec_pre; [|apply spec_ret]. done.
    + intros [aid o1]. apply spec_pure. intros Hn. simpl in *. eapply spec_bind; [by apply spec_save_quiet|].
      intros []. eapply spec_pre; [|apply spec_ret]. done.
Qed.

Lemma spec_send_command context tenant o sid aid :
  spec (holds o) (send_command (W := W) context tenant o sid aid) (fun o1 s => holds o1 s).
Proof.
  unfold send_command. eapply spec_bind; [apply (spec_port _ _ (fun _ => holds o)); done|].
  intros [[owner|]|e]; [|apply spec_reject_attempt..]. case_match; [|apply spec_reject_attempt].
  eapply spec_bind; [apply (spec_port _ _ (fun _ => holds o)); done|]. intros [[]|e]; [|apply spec_reject_attempt].
  apply spec_holds. intros Hi _. eapply spec_bind; [eapply spec_quiet_method; [apply sent_call|done]|]. intros [[] o1].
  apply spec_pure. intros Hn. simpl in *. eapply spec_bind; [by apply spec_save_quiet|]. intros [].
  apply (spec_ret o1 (fun o1 s => holds o1 s)).
Qed.

Lemma spec_dispatch context tenant id :
  spec (fun _ => True) (dispatch (W := W) context tenant id) (fun _ _ => True).
Proof.
  unfold dispatch. eapply spec_bind; [apply spec_prepare|]. intros [dto|[[o sid] aid]].
  - by eapply spec_pre; [|apply spec_ret].
  - eapply spec_bind; [apply spec_send_command|]. intros o1. by eapply spec_pre; [|apply spec_ret].
Qed.
End services.
