(* ===== verification/Reconcile.v ===== *)
(** * Deadlines and takeovers

    [cheetah-signal-application]: [OperationReconciler]
    ([operation_reconciler.rs]), which times out operations whose deadline has
    passed, [TakeoverService] ([takeover_service.rs]), which takes a device over
    from a failed node and fails the operations of the earlier epochs, and
    [OwnerReconciler] ([owner_reconciler.rs]), which compares the sessions of a
    node with the owner table.  The loops over pages have fuel; [None] is a loop
    that ran out of it. *)

From S2P Require Import Prelude RustStr Domain DomainData Operation Paging Cluster UnitOfWork OperationService.

Open Scope string_scope.
Open Scope list_scope.
Open Scope Z_scope.

(** ** Operation reconciler *)

Record OperationReconciler := mkReconciler { or_batch_size : Z; or_max_timeouts_per_run : Z }.
Definition reconciler_new (batch_size max_timeouts_per_run : Z) : OperationReconciler :=
  mkReconciler (Z.max 1 (Z.min MAX_PAGE_SIZE batch_size)) max_timeouts_per_run.

Record OperationReconciliationReport := mkOpReport { rp_scanned : Z; rp_timed_out : Z }.

Record StatusCursor := mkStatusCursor {
  sc_status : OperationStatus;
  sc_filter : string;
  sc_cursor : option Cursor;
  sc_buffer : list Op.Operation;
  sc_has_more : bool
}.
Definition cursor_start (status : OperationStatus) (filter : string) : StatusCursor :=
  mkStatusCursor status filter None [] true.
Definition exhausted (c : StatusCursor) : bool :=
  negb (sc_has_more c) && match sc_buffer c with [] => true | _ => false end.

(** [buffer.pop()]. *)
Definition pop_buffer (c : StatusCursor) : option Op.Operation * StatusCursor :=
  (last (sc_buffer c),
   mkStatusCursor (sc_status c) (sc_filter c) (sc_cursor c) (removelast (sc_buffer c)) (sc_has_more c)).

Inductive TakeoverResult :=
| TakeoverCurrent
| Acquired (owner : OwnerInfo) (recovered : Z)
| RemoteOwner (owner : OwnerInfo)
| NotEligible.

Inductive OwnerValidation := ValidationCurrent | ValidationFenced.

Definition OWNER_LOST_CODE : string := "owner_lost".
Definition OWNER_LOST_MESSAGE : string := "device owner epoch advanced due to takeover".

Record TakeoverService := mkTakeover { tk_this_node : Uuid; tk_lease_duration : Z }.

Definition is_node_alive (n : ClusterNode) (now : UtcTimestamp) : bool := now <? cn_lease_until n.
Definition is_owner_valid (owner : OwnerInfo) (n : ClusterNode) (now : UtcTimestamp) : bool :=
  is_node_alive n now && match oi_lease_until owner with Some lease => now <? lease | None => false end.

Definition device_resource_ref (tenant_id device_id : Uuid) : ResourceRef :=
  {| rr_tenant_id := tenant_id; rr_kind := RkDevice; rr_id := {| ri_kind := RkDevice; ri_uuid := device_id |} |}.

Section services.
Context {W : Type} `{Clock W, IdGenerator W, EventIds W, Others W} `{DateRange, UuidDisplay, DbMessages}.

Definition page_request (size : Z) : app W PageRequest :=
  match PageRequest_new size with
  | Ok p => app_ret p
  | Err m => app_err (SignalError_new SkInvalidArgument m)
  end.

Definition next_operation (tenant_id : Uuid) (batch_size : Z) (c : StatusCursor) :
    app W (option Op.Operation * StatusCursor) :=
  match sc_buffer c with
  | [] =>
      if negb (sc_has_more c) then app_ret (None, c) else
      let+ request := page_request batch_size in
      let request := mkPageRequest (sc_cursor c) (page_size request) in
      let+ page := stmt (reads (op_list tenant_id None (Some (sc_filter c)) None request)) in
      let has_more := match next_cursor page with Some _ => true | None => false end in
      let c := mkStatusCursor (sc_status c) (sc_filter c) (next_cursor page) (items page) has_more in
      if exhausted c then app_ret (None, c) else app_ret (pop_buffer c)
  | _ => app_ret (pop_buffer c)
  end.

(** An operation that was scanned: timed out when its deadline has passed. *)
Definition expire_operation (context : RequestContext) (now : UtcTimestamp) (status : OperationStatus)
    (o : Op.Operation) : app W bool :=
  if Op.is_terminal o || negb (bool_decide (Op.status o = status)) then app_ret false else
  match Op.deadline o with
  | Some deadline =>
      if deadline <=? now then
        let+ (event, o) := app_method (if decide (status = OsPending) then Op.expire
                                       else Op.timeout OperationError_timeout) o in
        do+ save_with_event context (rc_tenant_id context) o event in
        app_ret true
      else app_ret false
  | None => app_ret false
  end.

(** The body of the [for] over the cursors. *)
Definition visit_cursor (r : OperationReconciler) (context : RequestContext) (now : UtcTimestamp)
    (report : OperationReconciliationReport) (c : StatusCursor) :
    app W (OperationReconciliationReport * StatusCursor) :=
  if or_max_timeouts_per_run r <=? rp_timed_out report then app_ret (report, c) else
  let+ (o, c) := next_operation (rc_tenant_id context) (or_batch_size r) c in
  match o with
  | None => app_ret (report, c)
  | Some o =>
      let+ timed_out := expire_operation context now (sc_status c) o in
      app_ret (mkOpReport (rp_scanned report + 1)
                 (if timed_out : bool then rp_timed_out report + 1 else rp_timed_out report), c)
  end.

Fixpoint reconcile_loop (fuel : nat) (r : OperationReconciler) (context : RequestContext) (now : UtcTimestamp)
    (report : OperationReconciliationReport) (c1 c2 : StatusCursor) :
    app W (option OperationReconciliationReport) :=
  match fuel with
  | O => app_ret None
  | S fuel =>
      if (rp_timed_out report <? or_max_timeouts_per_run r) && (negb (exhausted c1) || negb (exhausted c2)) then
        let+ (report, c1) := visit_cursor r context now report c1 in
        let+ (report, c2) := visit_cursor r context now report c2 in
        reconcile_loop fuel r context now report c1 c2
      else app_ret (Some report)
  end.

Definition reconcile (fuel : nat) (r : OperationReconciler) (context : RequestContext) :
    app W (option OperationReconciliationReport) :=
  let+ now := app_port now_wall in
  reconcile_loop fuel r context now (mkOpReport 0 0) (cursor_start OsPending "pending")
    (cursor_start OsRunning "running").

(** ** Takeover *)

(** A statement on a connection of its own, while no transaction is open. *)
Definition autocommit {A} (f : Store -> A) : app W A := fun u w =>
  let '(s, w) := others (committed u) w in (Ok (f s), mkUow s (tx u) (rolled_back u), w).

Definition is_this_node_eligible (svc : TakeoverService) (now : UtcTimestamp) : app W bool :=
  let+ n := autocommit (fun s => node_get (cluster s) (tk_this_node svc)) in
  app_ret (match n with Some n => is_node_alive n now && negb (cn_draining n) | None => false end).

Definition acquire_stmt (tenant_id device_id node : Uuid) (now lease_until : UtcTimestamp) (s : Store) :
    stmt_result (option (OwnerInfo * option OwnerInfo)) :=
  let '(db, r) := acquire_ownership (cluster s) tenant_id device_id node now lease_until in
  (match r with Ok a => Ok a | Err e => Err (Failed e) end, set_cluster db s).

(** The operations of a page: those of an earlier epoch fail. *)
Fixpoint recover_items (context : RequestContext) (tenant_id : Uuid) (owner : OwnerInfo) (ops : list Op.Operation)
    (recovered : Z) : app W Z :=
  match ops with
  | [] => app_ret recovered
  | o :: ops =>
      if Op.expected_owner_epoch o <? oi_epoch owner then
        let+ (event, o) := app_method (Op.fail OWNER_LOST_CODE OWNER_LOST_MESSAGE) o in
        do+ save_with_event context tenant_id o event in
        recover_items context tenant_id owner ops (recovered + 1)
      else recover_items context tenant_id owner ops recovered
  end.

Fixpoint recover_pages (fuel : nat) (context : RequestContext) (tenant_id device_id : Uuid) (owner : OwnerInfo)
    (status : string) (cursor : option Cursor) (recovered : Z) : app W (option Z) :=
  match fuel with
  | O => app_ret None
  | S fuel =>
      let+ request := page_request MAX_PAGE_SIZE in
      let+ page := stmt (reads (op_list tenant_id (Some device_id) (Some status) None
                                  (mkPageRequest cursor (page_size request)))) in
      let+ recovered := recover_items context tenant_id owner (items page) recovered in
      match next_cursor page with
      | None => app_ret (Some recovered)
      | Some c => recover_pages fuel context tenant_id device_id owner status (Some c) recovered
      end
  end.

Definition recover_operations (fuel : nat) (context : RequestContext) (tenant_id device_id : Uuid) (owner : OwnerInfo) :
    app W (option Z) :=
  let+ recovered := recover_pages fuel context tenant_id device_id owner "pending" None 0 in
  match recovered with
  | None => app_ret None
  | Some recovered => recover_pages fuel context tenant_id device_id owner "running" None recovered
  end.

Definition owner_changed_event (tenant_id device_id : Uuid) (owner : OwnerInfo) (previous : option OwnerInfo) :
    DomainEvent :=
  OwnerChanged tenant_id device_id (oi_node_id owner) (oi_epoch owner) (oi_node_id <$> previous)
    (oi_epoch <$> previous)
    (match previous with Some p => negb (oi_node_id p =? oi_node_id owner) | None => true end).

(** From [storage.begin()] on. *)
Definition take_ownership (fuel : nat) (svc : TakeoverService) (context : RequestContext) (tenant_id device_id : Uuid)
    (now lease_until : UtcTimestamp) : app W (option TakeoverResult) :=
  let+ acquired := stmt (acquire_stmt tenant_id device_id (tk_this_node svc) now lease_until) in
  match acquired with
  | None =>
      do+ rollback in
      let+ owner := autocommit (fun s => owner_get (cluster s) tenant_id device_id) in
      match owner with
      | Some owner => app_ret (Some (RemoteOwner owner))
      | None => app_err (domain_to_signal (internal "owner disappeared after lost takeover race"))
      end
  | Some (owner, previous) =>
      let+ recovered := recover_operations fuel context tenant_id device_id owner in
      match recovered with
      | None => app_ret None
      | Some recovered =>
          let+ event := app_port (Event_new context tenant_id (device_resource_ref tenant_id device_id)
                                    (oi_epoch owner) (owner_changed_event tenant_id device_id owner previous)) in
          do+ stmt (outbox_append event) in
          do+ commit in
          app_ret (Some (Acquired owner recovered))
      end
  end.

Definition takeover (fuel : nat) (svc : TakeoverService) (context : RequestContext) (tenant_id device_id : Uuid) :
    app W (option TakeoverResult) :=
  let+ now := app_port now_wall in
  match ts_checked_add now (tk_lease_duration svc) with
  | None => app_err (domain_to_signal (internal "owner lease overflow"))
  | Some lease_until =>
      let compete :=
        let+ eligible := is_this_node_eligible svc now in
        if negb eligible then app_ret (Some NotEligible)
        else take_ownership fuel svc context tenant_id device_id now lease_until in
      let+ current := autocommit (fun s => owner_get (cluster s) tenant_id device_id) in
      match current with
      | None => compete
      | Some owner =>
          let+ n := autocommit (fun s => node_get (cluster s) (oi_node_id owner)) in
          match n with
          | Some n =>
              if is_owner_valid owner n now then
                app_ret (Some (if decide (oi_node_id owner = tk_this_node svc) then TakeoverCurrent
                               else RemoteOwner owner))
              else compete
          | None => compete
          end
      end
  end.

Definition validate_local_owner (tenant_id device_id : Uuid) (local_owner : OwnerInfo) : app W OwnerValidation :=
  let+ current := autocommit (fun s => owner_get (cluster s) tenant_id device_id) in
  app_ret (match current with
           | Some owner =>
               if bool_decide (oi_node_id owner = oi_node_id local_owner)
                  && bool_decide (oi_epoch owner = oi_epoch local_owner)
               then ValidationCurrent else ValidationFenced
           | None => ValidationFenced
           end).
End services.

(** ** Owner reconciler *)

Record LocalDeviceSession := mkLocal {
  ls_tenant_id : Uuid;
  ls_device_id : Uuid;
  ls_local_owner : option OwnerInfo
}.

Record OwnerReconciliationReport := mkOwnerReport {
  ow_scanned : Z;
  ow_matched : Z;
  ow_orphaned : Z;
  ow_orphaned_sessions : list LocalDeviceSession
}.

Record OwnerMissingReport := mkMissing {
  mr_db_scanned : Z;
  mr_missing : Z;
  mr_missing_sessions : list LocalDeviceSession;
  mr_next_cursor : option Cursor
}.

Record OwnerReconciler := mkOwnerReconciler { wr_this_node : Uuid; wr_batch_size : Z }.
Definition owner_reconciler_new (this_node : Uuid) (batch_size : Z) : OwnerReconciler :=
  mkOwnerReconciler this_node (Z.max 1 (Z.min MAX_PAGE_SIZE batch_size)).

Definition is_valid_local_owner (owner : OwnerInfo) (session : LocalDeviceSession) (this_node : Uuid)
    (now : UtcTimestamp) : bool :=
  if negb (oi_node_id owner =? this_node) then false
  else if match oi_lease_until owner with Some lease => lease <=? now | None => false end then false
  else match ls_local_owner session with
       | Some local =>
           if negb (oi_node_id local =? oi_node_id owner) then false
           else oi_epoch local =? oi_epoch owner
       | None => true
       end.

Fixpoint reconcile_sessions (db : Db) (this_node : Uuid) (now : UtcTimestamp) (sessions : list LocalDeviceSession)
    (r : OwnerReconciliationReport) : OwnerReconciliationReport :=
  match sessions with
  | [] => r
  | session :: sessions =>
      let valid := match owner_get db (ls_tenant_id session) (ls_device_id session) with
                   | Some owner => is_valid_local_owner owner session this_node now
                   | None => false
                   end in
      reconcile_sessions db this_node now sessions
        (if valid
         then mkOwnerReport (ow_scanned r + 1) (ow_matched r + 1) (ow_orphaned r) (ow_orphaned_sessions r)
         else mkOwnerReport (ow_scanned r + 1) (ow_matched r) (ow_orphaned r + 1)
                (ow_orphaned_sessions r ++ [session]))
  end.

Definition owner_reconcile (svc : OwnerReconciler) (db : Db) (now : UtcTimestamp) (sessions : list LocalDeviceSession) :
    OwnerReconciliationReport :=
  reconcile_sessions db (wr_this_node svc) now (take (Z.to_nat (wr_batch_size svc)) sessions) (mkOwnerReport 0 0 0 []).

Definition find_missing (svc : OwnerReconciler) (db : Db) (sessions : list LocalDeviceSession) (cursor : option Cursor) :
    result OwnerMissingReport SignalError :=
  match PageRequest_new (wr_batch_size svc) with
  | Err m => Err (SignalError_new SkInvalidArgument m)
  | Ok p =>
      let page := list_by_node db (wr_this_node svc) (mkPageRequest cursor (page_size p)) in
      let local_set := list_to_set (C := gset (Uuid * Uuid)) (map (fun s => (ls_tenant_id s, ls_device_id s)) sessions) in
      let missing := filter (fun od => (od_tenant_id od, od_device_id od) ∉ local_set) (items page) in
      Ok (mkMissing (Z.of_nat (length (items page))) (Z.of_nat (length missing))
            (map (fun od => mkLocal (od_tenant_id od) (od_device_id od) (Some (od_owner od))) missing)
            (next_cursor page))
  end.
