(* ===== verification/ReconcileProps.v ===== *)
(** * Theorems on sessions, deadlines and takeovers

    The history theorem over all services, the reconciler finds every overdue
    operation and ends, a takeover leaves no operation of an earlier epoch, and
    the theorems on submission and dispatch. *)

From S2P Require Import Prelude RustStr Domain DomainData Operation Lifecycle OperationProps Paging Cluster UnitOfWork.
From S2P Require Import OperationService OperationHistory OperationSessions Reconcile.

Open Scope string_scope.
Open Scope list_scope.
Open Scope Z_scope.

(** ** Pages of operations *)

Definition after_id (c : option Cursor) (id : Uuid) : Prop :=
  match c with Some c => c.2 < id | None => True end.
#[global] Instance after_id_dec c id : Decision (after_id c id).
Proof. destruct c; simpl; apply _. Defined.

Lemma table_ids s : consistent s -> NoDup (Op.operation_id <$> (map_to_list (operations s)).*2).
Proof.
  intros Hc. assert (Op.operation_id <$> (map_to_list (operations s)).*2 = (map_to_list (operations s)).*1) as ->.
  { rewrite <-list_fmap_compose. apply list_fmap_ext. intros i [k o] Hi. simpl.
    apply list_elem_of_lookup_2, elem_of_map_to_list in Hi. by destruct (cs_row s Hc _ _ Hi). }
  apply NoDup_fst_map_to_list.
Qed.

Lemma page_of_next {T} (key : T -> Cursor) p rows c :
  next_cursor (page_of key p rows) = Some c -> exists r, last (items (page_of key p rows)) = Some r /\ c = key r.
Proof. unfold page_of. simpl. case_match; [|done]. destruct (last _) as [r|]; [|done]. intros [= <-]. by exists r. Qed.

Section op_list.
Context (tenant : Uuid) (device : option Uuid) (status : option string) (s : Store).

Definition row_matches (o : Op.Operation) : Prop :=
  operations s !! Op.operation_id o = Some o /\ op_matches tenant device status None o = true.

(** A page with the rows after a cursor. *)
Record op_page_spec (cursor : option Cursor) (page : Page Op.Operation) : Prop := {
  ops_nodup : NoDup (Op.operation_id <$> items page);
  ops_sound : forall o, o ∈ items page -> row_matches o /\ after_id cursor (Op.operation_id o);
  ops_complete : forall o, row_matches o -> after_id cursor (Op.operation_id o) ->
    (o ∈ items page) \/ (exists c, next_cursor page = Some c /\ c.2 < Op.operation_id o);
  ops_next : forall c, next_cursor page = Some c ->
    items page <> [] /\ after_id cursor c.2 /\ forall o, o ∈ items page -> Op.operation_id o <= c.2
}.

Lemma op_list_spec p : consistent s -> op_page_spec (page_cursor p) (op_list tenant device status None p s).
Proof.
  set (page := op_list tenant device status None p s).
  intros Hc. set (rows := filter (fun o => op_matches tenant device status None o) (map_to_list (operations s)).*2).
  set (key := fun o => (0, Op.operation_id o) : Cursor).
  set (p1 := mkPageRequest ((fun c => (0, c.2)) <$> page_cursor p) (page_size p)).
  assert (forall o, o ∈ rows <-> row_matches o) as Hrows.
  { intros o. unfold rows, row_matches. rewrite list_elem_of_filter, list_elem_of_fmap. split.
    - intros [Hm ([k o2] & -> & Ho%elem_of_map_to_list)]. destruct (cs_row s Hc _ _ Ho) as (Hid & _).
      simpl in *. rewrite Hid. split; [done|]. by apply Is_true_true.
    - intros [Ho Hm]. split; [by rewrite Hm|]. exists (Op.operation_id o, o). split; [done|]. by apply elem_of_map_to_list. }
  assert (NoDup (Op.operation_id <$> rows)) as Hids.
  { eapply sublist_NoDup; [apply (table_ids s Hc) | apply fmap_sublist, sublist_filter]. }
  assert (NoDup rows) as Hnd by (by apply NoDup_fmap_1 in Hids).
  assert (NoDup (key <$> rows)) as Hkeys.
  { apply (NoDup_fmap_1 snd). by rewrite <-list_fmap_compose. }
  destruct (page_of_spec key p1 rows Hnd) as (Hin & Hit & Hnext).
  assert (forall id, after (page_cursor p1) (0, id) <-> after_id (page_cursor p) id) as Hafter.
  { intros id. simpl. destruct (page_cursor p) as [[t i]|]; simpl; [unfold cursor_lt; simpl; lia|done]. }
  assert (items page = items (page_of key p1 rows)) as Hitems by done.
  assert (next_cursor page = match next_cursor (page_of key p1 rows) with
            | Some _ => (fun o => (Op.updated_at o, Op.operation_id o)) <$> last (items (page_of key p1 rows))
            | None => None end) as Hpage by done.
  assert (forall c, next_cursor page = Some c ->
    exists r, next_cursor (page_of key p1 rows) = Some (key r) /\ c.2 = Op.operation_id r) as Hcur.
  { intros c. rewrite Hpage. destruct (next_cursor (page_of key p1 rows)) as [c1|] eqn:Hn; [|done].
    destruct (page_of_next _ _ _ _ Hn) as (r & Hl & ->). rewrite Hl. intros [= <-]. by exists r. }
  assert (forall o, o ∈ items page -> row_matches o /\ after_id (page_cursor p) (Op.operation_id o)) as Hsound.
  { intros o Ho. rewrite Hitems in Ho. destruct (Hit o Ho) as [Hr Ha]. split; [by apply Hrows | by apply Hafter]. }
  split; [|done|..].
  - rewrite Hitems. apply NoDup_fmap_2_strong; [|done]. intros o1 o2 Ho1 Ho2 He. rewrite <-Hitems in Ho1, Ho2.
    destruct (Hsound o1 Ho1) as [[H1 _] _], (Hsound o2 Ho2) as [[H2 _] _]. congruence.
  - intros o Hm Ha. destruct (page_of_complete key p1 rows o Hkeys) as [Hi|(c & Hn & Hlt)];
      [by apply Hrows|by apply Hafter|by left; rewrite Hitems|right].
    destruct (page_of_next _ _ _ _ Hn) as (r & Hl & ->). rewrite Hpage, Hn, Hl. eexists. split; [done|]. unfold cursor_lt in Hlt. simpl in *. lia.
  - intros c Hc2. destruct (Hcur c Hc2) as (r & Hn & He). destruct (Hnext _ Hn) as (Ha & Hne & Hle). rewrite He.
    split_and!; [by rewrite Hitems|by apply Hafter|]. intros o Ho. rewrite Hitems in Ho.
    specialize (Hle o Ho). unfold cursor_le in Hle. simpl in Hle. lia.
Qed.
End op_list.

(** ** Inside one transaction *)

(** Run in an open transaction: when it succeeds the transaction is still open
    and [Q] holds of its tables; when it fails nothing was committed. *)
Definition in_tx (c s : Store) (rb : bool) : Uow := mkUow c (Some (mkTx s false)) rb.
Definition trun {W A} (m : app W A) (s : Store) (Q : A -> Store -> Prop) : Prop :=
  forall c rb w,
  match m (in_tx c s rb) w with
  | (Ok a, u1, _) => exists s1, u1 = in_tx c s1 rb /\ Q a s1
  | (Err _, u1, _) => committed u1 = c
  end.

Section trun.
Context {W : Type}.

Lemma trun_ret {A} (a : A) s (Q : A -> Store -> Prop) : Q a s -> trun (W := W) (app_ret a) s Q.
Proof. intros HQ c rb w. simpl. eauto. Qed.
Lemma trun_err {A} e s (Q : A -> Store -> Prop) : trun (W := W) (app_err e) s Q.
Proof. done. Qed.
Lemma trun_bind {A B} (m : app W A) (k : A -> app W B) s Q R :
  trun m s Q -> (forall a s1, Q a s1 -> trun (k a) s1 R) -> trun (app_bind m k) s R.
Proof.
  intros Hm Hk c rb w. unfold app_bind. specialize (Hm c rb w).
  destruct (m _ w) as [[[a|e] u1] w1]; [|done]. destruct Hm as (s1 & -> & HQ). by apply Hk.
Qed.
Lemma trun_mono {A} (m : app W A) s (Q R : A -> Store -> Prop) :
  (forall a s1, Q a s1 -> R a s1) -> trun m s Q -> trun m s R.
Proof. intros HQ Hm c rb w. specialize (Hm c rb w). destruct (m _ w) as [[[a|e] u1] w1]; naive_solver. Qed.
Lemma trun_port {A} (f : W -> A * W) s (Q : A -> Store -> Prop) : (forall w, Q (f w).1 s) -> trun (app_port f) s Q.
Proof. intros HQ c rb w. unfold app_port. specialize (HQ w). destruct (f w). simpl in *. eauto. Qed.
Lemma trun_method {S A} (m : dm S W A) o s (Q : A * S -> Store -> Prop) :
  (forall w a o1 w1, m o w = (Ok a, o1, w1) -> Q (a, o1) s) -> trun (app_method m o) s Q.
Proof. intros HQ c rb w. unfold app_method. destruct (m o w) as [[[a|e] o1] w1] eqn:Hm; [|done]. eauto. Qed.

Context `{Others W} `{DbMessages}.
Lemma trun_stmt {A} (f : Store -> stmt_result A) s (Q : A -> Store -> Prop) :
  (forall a s1, f s = (Ok a, s1) -> Q a s1) -> trun (W := W) (stmt f) s Q.
Proof.
  intros HQ c rb w. unfold in_tx. rewrite stmt_open. destruct (f s) as [[a|[e|e]] s1]; [|done..]. eauto.
Qed.
Lemma trun_reads {A} (f : Store -> A) s (Q : A -> Store -> Prop) : Q (f s) s -> trun (W := W) (stmt (reads f)) s Q.
Proof. intros HQ. apply trun_stmt. by intros a s1 [= <- <-]. Qed.

Context `{Clock W, EventIds W}.

(** The tables after a change of one operation and its event. *)
Definition changes_op (o1 : Op.Operation) (s s1 : Store) : Prop :=
  consistent s1 /\ operations s1 = <[Op.operation_id o1 := o1]> (operations s) /\ cluster s1 = cluster s.

Lemma trun_save_event context tenant o e o1 s :
  consistent s -> operations s !! Op.operation_id o = Some o -> next o (Some e) o1 ->
  trun (W := W) (save_with_event context tenant o1 e) s (fun _ s1 => changes_op o1 s s1).
Proof.
  intros Hc Ho Hn. unfold save_with_event. pose proof (identity_columns _ _ (proj1 Hn)) as [Hid _].
  eapply trun_bind; [apply (trun_stmt _ _ (fun _ s1 => s1 = put_op o1 s /\ in_range o1 /\ Op.revision o1 = Op.revision o + 1))|].
  { intros [] s1 Hs. destruct (op_save_next o (Some e) o1 s s1) as (_ & -> & Hr & Hrev); try done.
    - by apply holds_stored.
    - unfold put_op. by rewrite Hid. }
  intros [] s1 (-> & Hr & Hrev).
  eapply trun_bind; [apply (trun_port _ _ (fun ev s2 => s2 = put_op o1 s
    /\ ev_aggregate_ref ev = operation_resource_ref tenant (Op.operation_id o1)
    /\ ev_aggregate_sequence ev = Op.revision o1 /\ ev_payload ev = e))|].
  { intros w. split; [done|]. apply Event_new_fields. }
  intros ev s2 (-> & Href & Hseq & Hpay). apply trun_stmt. intros [] s3. unfold outbox_append.
  destruct (outbox_events _ !! _) eqn:Hf; [done|]. intros [= <-]. split_and!; [|done..].
  change (consistent (append ev (put_op o1 s))). eapply consistent_change; try done. by rewrite <-Hid.
Qed.
End trun.

(** ** Overdue operations *)

Section overdue.
Context (tenant : Uuid) (now : UtcTimestamp).

Definition overdue (o : Op.Operation) : Prop :=
  Op.tenant_id o = tenant /\ Op.is_terminal o = false /\ exists d, Op.deadline o = Some d /\ d <= now.

(** What the reconciler has done to the table: exactly the operations in [ids]
    have timed out, each of them was overdue, and every other operation is as it
    was. *)
Definition timed_out_only (ids : gset Uuid) (s0 s : Store) : Prop :=
  dom (operations s) = dom (operations s0) /\ ids ⊆ dom (operations s0)
  /\ forall id o, operations s0 !! id = Some o ->
       if decide (id ∈ ids)
       then overdue o /\ exists o1, operations s !! id = Some o1 /\ identity o1 = identity o /\ Op.status o1 = OsTimedOut
       else operations s !! id = Some o.

(** The buffer of a cursor holds rows of the table, each once. *)
Definition buffered (s : Store) (c : StatusCursor) : Prop :=
  NoDup (Op.operation_id <$> sc_buffer c)
  /\ forall o, o ∈ sc_buffer c -> operations s !! Op.operation_id o = Some o
       /\ Op.tenant_id o = tenant /\ Op.status o = sc_status c.

(** An overdue operation of the status of the cursor is at hand or still to
    come. *)
Definition covers (x : option Op.Operation) (s : Store) (c : StatusCursor) : Prop :=
  forall o, operations s !! Op.operation_id o = Some o -> overdue o -> Op.status o = sc_status c ->
    x = Some o \/ (o ∈ sc_buffer c) \/ (sc_has_more c = true /\ after_id (sc_cursor c) (Op.operation_id o)).

Record cursor_ok (x : option Op.Operation) (s : Store) (c : StatusCursor) : Prop := {
  co_live : sc_status c = OsPending \/ sc_status c = OsRunning;
  co_filter : sc_filter c = OperationStatus_display (sc_status c);
  co_buffered : buffered s c;
  co_covers : covers x s c
}.

(** How much a cursor still has to do at most; the identifiers of the table do
    not change. *)
Definition remaining (ids : gset Uuid) (c : StatusCursor) : nat :=
  (if sc_has_more c then S (size (filter (after_id (sc_cursor c)) ids)) else O) + length (sc_buffer c).

Lemma exhausted_remaining ids c : remaining ids c = O <-> exhausted c = true.
Proof.
  unfold remaining, exhausted. destruct (sc_has_more c); simpl; [by split; [lia|]|].
  destruct (sc_buffer c); simpl; by split; [lia|].
Qed.

Lemma display_inj st1 st2 : OperationStatus_display st1 = OperationStatus_display st2 -> st1 = st2.
Proof. by destruct st1, st2. Qed.

(** An operation changed that is not in the buffer: the cursor keeps its
    invariant. *)
Lemma cursor_ok_change x s s1 o1 c :
  operations s1 = <[Op.operation_id o1 := o1]> (operations s) -> Op.is_terminal o1 = true ->
  Op.operation_id o1 ∉ (Op.operation_id <$> sc_buffer c) ->
  (forall o, x = Some o -> Op.operation_id o = Op.operation_id o1) -> cursor_ok x s c -> cursor_ok None s1 c.
Proof.
  intros Hops Hterm Hnin Hx [Hl Hf [Hnd Hb] Hcov]. split; [done..|split; [done|]|].
  - intros o Ho. destruct (Hb o Ho) as (Hs & Ht & Hst). split_and!; [|done..]. rewrite Hops, lookup_insert_ne; [done|].
    intros He. apply Hnin. rewrite He. by apply list_elem_of_fmap_2.
  - intros o. rewrite Hops, lookup_insert_Some. intros [[He <-]|[Hne Ho]] Hover Hst.
    + destruct Hover as (_ & Hov & _). congruence.
    + right. destruct (Hcov o Ho Hover Hst) as [Hxo|]; [|done]. by rewrite (Hx o Hxo) in Hne.
Qed.

Lemma last_removelast {A} (l : list A) x : last l = Some x -> l = removelast l ++ [x].
Proof. intros [l1 ->]%last_Some. by rewrite removelast_last. Qed.

Lemma pop_ok s c :
  sc_buffer c <> [] -> cursor_ok None s c ->
  exists o, pop_buffer c = (Some o, (pop_buffer c).2)
    /\ cursor_ok (Some o) s (pop_buffer c).2
    /\ (Op.operation_id o ∉ (Op.operation_id <$> sc_buffer (pop_buffer c).2))
    /\ operations s !! Op.operation_id o = Some o /\ Op.tenant_id o = tenant /\ Op.status o = sc_status c
    /\ forall ids, S (remaining ids (pop_buffer c).2) = remaining ids c.
Proof.
  intros Hne [Hl Hf [Hnd Hb] Hcov]. destruct (last (sc_buffer c)) as [o|] eqn:Hlast; [|by apply last_None in Hlast].
  exists o. pose proof (last_removelast _ _ Hlast) as He. unfold pop_buffer. rewrite Hlast. simpl. unfold remaining. simpl.
  rewrite He in Hnd. rewrite fmap_app in Hnd. apply NoDup_app in Hnd as (Hnd & Hdisj & _).
  assert (forall o1, o1 ∈ removelast (sc_buffer c) -> o1 ∈ sc_buffer c) as Hsub.
  { intros o1 Ho1. rewrite He. apply elem_of_app. by left. }
  destruct (Hb o) as (Ho & Ht & Hst); [rewrite He; apply elem_of_app; right; by apply list_elem_of_singleton|].
  split_and!; try done.
  - split; simpl; [done..|split; [done|naive_solver]|]. intros o1 Ho1 Hover Hst1. simpl in *.
    destruct (Hcov o1 Ho1 Hover Hst1) as [|[Hin|]]; [done| |by right; right].
    rewrite He in Hin. apply elem_of_app in Hin as [Hin|Hin%list_elem_of_singleton]; [by right; left|left; by subst].
  - intros Hin. apply (Hdisj _ Hin). simpl. by apply list_elem_of_singleton.
  - intros ids. rewrite He at 2. rewrite length_app. simpl. lia.
Qed.

(** A page that was fetched refills the buffer. *)
Lemma page_refill_ok s c page :
  sc_buffer c = [] -> sc_has_more c = true -> cursor_ok None s c ->
  op_page_spec tenant None (Some (sc_filter c)) s (sc_cursor c) page ->
  let c1 := mkStatusCursor (sc_status c) (sc_filter c) (next_cursor page) (items page)
              (match next_cursor page with Some _ => true | None => false end) in
  cursor_ok None s c1 /\ (sc_buffer c1 <> [] \/ exhausted c1 = true)
  /\ (remaining (dom (operations s)) c1 <= remaining (dom (operations s)) c)%nat
  /\ (exhausted c1 = true -> remaining (dom (operations s)) c1 < remaining (dom (operations s)) c)%nat.
Proof.
  intros Hb Hm [Hl Hf _ Hcov] [Hnd Hsound Hcomp Hnext] c1. unfold row_matches in *.
  assert (forall o, op_matches tenant None (Some (sc_filter c)) None o = true
            <-> Op.tenant_id o = tenant /\ Op.status o = sc_status c) as Hmatch.
  { intros o. unfold op_matches. simpl. rewrite !andb_true_iff, !bool_decide_eq_true, Hf. split.
    - intros [[[Ht _] Hd%display_inj] _]. done.
    - intros [-> ->]. done. }
  set (ids := dom (operations s)).
  assert (length (items page) + (if next_cursor page is Some c2 then size (filter (after_id (Some c2)) ids) else 0)
          <= size (filter (after_id (sc_cursor c)) ids))%nat as Hsize.
  { set (got := list_to_set (C := gset Uuid) (Op.operation_id <$> items page)).
    set (rest := if next_cursor page is Some c2 then filter (after_id (Some c2)) ids else ∅).
    assert (size (got ∪ rest) <= size (filter (after_id (sc_cursor c)) ids))%nat as Hs.
    { apply subseteq_size. intros id [Hid|Hid]%elem_of_union.
      - apply elem_of_list_to_set, list_elem_of_fmap in Hid as (o & -> & Ho). destruct (Hsound o Ho) as [[Hst _] Ha].
        apply elem_of_filter. split; [done|]. by apply elem_of_dom_2 in Hst.
      - unfold rest in Hid. destruct (next_cursor page) as [c2|]; [|by apply elem_of_empty in Hid].
        apply elem_of_filter in Hid as [Hlt Hid]. apply elem_of_filter. split; [|done].
        destruct (Hnext c2 eq_refl) as (_ & Ha & _). simpl in Hlt. destruct (sc_cursor c); simpl in *; [lia|done]. }
    rewrite size_union in Hs.
    - unfold got in Hs. rewrite size_list_to_set, length_fmap in Hs by done.
      unfold rest in Hs. destruct (next_cursor page); [done|]. rewrite size_empty in Hs. done.
    - intros id Hid1 Hid2. apply elem_of_list_to_set, list_elem_of_fmap in Hid1 as (o & -> & Ho).
      unfold rest in Hid2. destruct (next_cursor page) as [c2|]; [|by apply elem_of_empty in Hid2].
      apply elem_of_filter in Hid2 as [Hlt _]. destruct (Hnext c2 eq_refl) as (_ & _ & Hle). specialize (Hle o Ho).
      simpl in Hlt. lia. }
  split_and!.
  - split; [done|done|split; [done|]|].
    + intros o Ho. destruct (Hsound o Ho) as [[Hst [Ht Hs]%Hmatch] _]. done.
    + intros o Ho Hover Hs. right. destruct Hover as (Ht & Hrest). destruct (Hcov o Ho) as [|[Hin|[_ Ha]]]; try done.
      { by rewrite Hb in Hin; apply elem_of_nil in Hin. }
      destruct (Hcomp o) as [Hin|(c2 & Hc2 & Hlt)]; [split; [done|by apply Hmatch]|done|by left|].
      right. simpl. by rewrite Hc2.
  - simpl. destruct (items page) as [|o l] eqn:Hi; [right|by left]. unfold exhausted. simpl.
    destruct (next_cursor page) as [c2|]; [|done]. by destruct (Hnext c2 eq_refl).
  - unfold remaining. simpl. rewrite Hm, Hb. simpl. destruct (next_cursor page); lia.
  - intros He%(exhausted_remaining ids). rewrite He. unfold remaining. rewrite Hm. lia.
Qed.

Section reconciler.
Context {W : Type} `{Clock W, IdGenerator W, EventIds W, Others W} `{DateRange, UuidDisplay, DbMessages}.

(** [x] has been taken off a cursor of status [st]. *)
Definition popped (s : Store) (st : OperationStatus) (x : option Op.Operation) (c : StatusCursor) : Prop :=
  sc_status c = st /\ cursor_ok x s c
  /\ forall o, x = Some o -> operations s !! Op.operation_id o = Some o /\ Op.tenant_id o = tenant /\ Op.status o = st
       /\ (Op.operation_id o ∉ (Op.operation_id <$> sc_buffer c)).

Lemma trun_next_operation batch s c :
  consistent s -> cursor_ok None s c ->
  trun (W := W) (next_operation tenant batch c) s (fun r s1 =>
    s1 = s /\ popped s (sc_status c) r.1 r.2
    /\ (remaining (dom (operations s)) r.2 <= remaining (dom (operations s)) c)%nat
    /\ (exhausted c = false -> remaining (dom (operations s)) r.2 < remaining (dom (operations s)) c)%nat
    /\ (exhausted c = true -> r.1 = None)).
Proof.
  intros Hc Hok. set (ids := dom (operations s)).
  assert (forall c1, sc_status c1 = sc_status c -> cursor_ok None s c1 -> sc_buffer c1 <> [] ->
    (remaining ids c1 <= remaining ids c)%nat -> exhausted c = false ->
    trun (W := W) (app_ret (pop_buffer c1)) s (fun r s1 => s1 = s /\ popped s (sc_status c) r.1 r.2
    /\ (remaining ids r.2 <= remaining ids c)%nat /\ (exhausted c = false -> remaining ids r.2 < remaining ids c)%nat
    /\ (exhausted c = true -> r.1 = None))) as Hpop.
  { intros c1 Hst Hok1 Hne Hle Hnx. destruct (pop_ok s c1 Hne Hok1) as (o & Hp & Hok2 & Hnin & Ho & Ht & Hs & Hrem).
    apply trun_ret. rewrite Hp. specialize (Hrem ids). cbn [fst snd]. split_and!; [done| |lia|lia|congruence].
    split_and!; [done|done|]. intros o1 [= <-]. split_and!; try done. congruence. }
  assert (forall c1, sc_status c1 = sc_status c -> cursor_ok None s c1 ->
    (remaining ids c1 <= remaining ids c)%nat -> (exhausted c = false -> remaining ids c1 < remaining ids c)%nat ->
    trun (W := W) (app_ret (None, c1)) s (fun r s1 => s1 = s /\ popped s (sc_status c) r.1 r.2
    /\ (remaining ids r.2 <= remaining ids c)%nat /\ (exhausted c = false -> remaining ids r.2 < remaining ids c)%nat
    /\ (exhausted c = true -> r.1 = None))) as Hnone.
  { intros c1 Hst Hok1 Hle Hlt. apply trun_ret. by split_and!. }
  unfold next_operation. destruct (sc_buffer c) as [|o l] eqn:Hb.
  2: { apply Hpop; [done|done|by rewrite Hb|lia|]. unfold exhausted. rewrite Hb. by destruct (sc_has_more c). }
  destruct (sc_has_more c) eqn:Hm; simpl.
  2: { apply Hnone; [done|done|lia|]. unfold exhausted. by rewrite Hm, Hb. }
  unfold page_request. destruct (PageRequest_new batch) as [p|m]; [|apply trun_err].
  eapply trun_bind; [apply (trun_ret p s (fun a s1 => s1 = s)); done|]. intros p1 s1 ->.
  eapply trun_bind; [apply (trun_reads _ s (fun page s1 => s1 = s
    /\ op_page_spec tenant None (Some (sc_filter c)) s (sc_cursor c) page)); split; [done|];
    exact (op_list_spec tenant None (Some (sc_filter c)) s (mkPageRequest (sc_cursor c) (page_size p1)) Hc)|].
  intros page s1 [-> Hpage]. destruct (page_refill_ok s c page Hb Hm Hok Hpage) as (Hok1 & Hne & Hle & Hlt).
  destruct (exhausted (mkStatusCursor _ _ _ _ _)) eqn:Hex.
  - apply Hnone; try done. intros _. by apply Hlt.
  - apply Hpop; try done; [by destruct Hne|]. unfold exhausted. by rewrite Hm.
Qed.

(** The operation at hand: timed out when it is overdue, and left otherwise. *)
Lemma trun_expire context s o st :
  rc_tenant_id context = tenant -> consistent s -> operations s !! Op.operation_id o = Some o ->
  Op.tenant_id o = tenant -> Op.status o = st -> (st = OsPending \/ st = OsRunning) ->
  trun (W := W) (expire_operation context now st o) s (fun b s1 =>
    if b : bool then overdue o /\ exists o1, identity o1 = identity o /\ Op.status o1 = OsTimedOut /\ changes_op o1 s s1
    else ~ overdue o /\ s1 = s).
Proof.
  intros Hctx Hc Ho Ht Hst Hlive. unfold expire_operation.
  assert (Op.is_terminal o = false) as Hterm by (unfold Op.is_terminal; rewrite Hst; by destruct Hlive as [-> | ->]).
  rewrite Hterm, bool_decide_eq_true_2 by done. simpl.
  destruct (Op.deadline o) as [d|] eqn:Hd.
  2: { apply trun_ret. split; [|done]. intros (_ & _ & d & Hd2 & _). congruence. }
  destruct (Z.leb_spec d now) as [Hle|Hlt].
  2: { apply trun_ret. split; [|done]. intros (_ & _ & d2 & Hd2 & ?). rewrite Hd in Hd2. injection Hd2 as <-. lia. }
  assert (op_inv o) as Hinv by (by destruct (cs_row s Hc _ _ Ho) as (_ & _ & ? & _)).
  eapply trun_bind; [apply (trun_method _ o s (fun r s1 => s1 = s /\ next o (Some r.1) r.2 /\ Op.status r.2 = OsTimedOut))|].
  { intros w e o1 w1 Hrun. split; [done|].
    assert (exists err, Op.timeout err o w = (Ok e, o1, w1)) as [err Herr] by (case_decide; eauto).
    split; [eapply exec_next; [done|]; by apply (timeout_call err)|].
    edestruct (timeout_run err o w) as (? & ? & ? & Hr & _).
    - unfold Op.timeout, dm_bind, dm_try in Herr. by destruct (OperationError_validate err) as [[]|].
    - rewrite Hst. by destruct Hlive as [-> | ->].
    - rewrite Hr in Herr. by injection Herr as <- <- <-. }
  intros [e o1] s1 (-> & Hn & Hto). simpl in *.
  eapply trun_bind; [by apply (trun_save_event context (rc_tenant_id context) o e o1 s)|]. intros [] s1 Hch.
  apply trun_ret. split; [by split_and!; [..|eexists]|]. exists o1. split_and!; try done. apply Hn.
Qed.

(** ** The loop *)

Lemma timed_out_only_step ids s0 s s1 o o1 :
  timed_out_only ids s0 s -> operations s !! Op.operation_id o = Some o -> overdue o ->
  identity o1 = identity o -> Op.status o1 = OsTimedOut ->
  operations s1 = <[Op.operation_id o1 := o1]> (operations s) ->
  timed_out_only ({[ Op.operation_id o ]} ∪ ids) s0 s1 /\ Op.operation_id o ∉ ids.
Proof.
  intros (Hdom & Hsub & Hrows) Ho Hover Hid Hst Hops. destruct (identity_columns _ _ Hid) as [Hid1 _]. rewrite Hid1 in Hops.
  pose proof Ho as Hin%elem_of_dom_2. rewrite Hdom in Hin. pose proof Hin as [o0 Ho0]%elem_of_dom.
  assert ((Op.operation_id o ∉ ids) /\ o0 = o) as [Hnew ->].
  { pose proof (Hrows _ _ Ho0) as Hrow. case_decide; [|split; congruence]. destruct Hrow as (_ & o2 & Hs & _ & Hst2).
    rewrite Ho in Hs. injection Hs as <-. destruct Hover as (_ & Ht & _). unfold Op.is_terminal in Ht. by rewrite Hst2 in Ht. }
  split; [|done]. split_and!; [rewrite Hops, dom_insert_L, Hdom; set_solver|set_solver|].
  intros id o2 Ho2. rewrite Hops. destruct (decide (id = Op.operation_id o)) as [->|Hne].
  - rewrite decide_True by set_solver. rewrite lookup_insert_eq. assert (o2 = o) as -> by congruence. eauto.
  - rewrite lookup_insert_ne by done. specialize (Hrows _ _ Ho2).
    case_decide; [rewrite decide_True by set_solver|rewrite decide_False by set_solver]; done.
Qed.

(** What holds between the visits of the cursors. *)
Record looping (ids : gset Uuid) (s0 s : Store) (max : Z) (rep : OperationReconciliationReport) (c d : StatusCursor) : Prop := {
  lo_consistent : consistent s;
  lo_cursor : cursor_ok None s c;
  lo_other : cursor_ok None s d;
  lo_distinct : sc_status c <> sc_status d;
  lo_only : timed_out_only ids s0 s;
  lo_count : rp_timed_out rep = Z.of_nat (size ids) /\ rp_timed_out rep <= Z.max 0 max
}.

Lemma looping_swap ids s0 s max rep c d : looping ids s0 s max rep c d -> looping ids s0 s max rep d c.
Proof. intros [? ? ? ? ? ?]. by split. Qed.

Lemma trun_visit r context ids s0 s rep c d :
  rc_tenant_id context = tenant -> looping ids s0 s (or_max_timeouts_per_run r) rep c d ->
  trun (W := W) (visit_cursor r context now rep c) s (fun x s1 =>
    (exists ids1, looping ids1 s0 s1 (or_max_timeouts_per_run r) x.1 x.2 d) /\ sc_status x.2 = sc_status c
    /\ (remaining (dom (operations s0)) x.2 <= remaining (dom (operations s0)) c)%nat
    /\ (rp_timed_out rep < or_max_timeouts_per_run r -> exhausted c = false ->
         (remaining (dom (operations s0)) x.2 < remaining (dom (operations s0)) c)%nat)
    /\ (exhausted c = true -> x.1 = rep)).
Proof.
  intros Hctx [Hc Hcok Hdok Hne Honly Hcount]. unfold visit_cursor.
  destruct (Z.leb_spec (or_max_timeouts_per_run r) (rp_timed_out rep)) as [Hmax|Hmax].
  { apply trun_ret. split_and!; [exists ids; by split|done|done|lia|done]. }
  rewrite Hctx. eapply trun_bind; [by apply trun_next_operation|]. intros [x c1] s1 (-> & Hpop & Hle & Hlt & Hnone).
  simpl in Hpop, Hle, Hlt, Hnone. rewrite (proj1 Honly) in Hle, Hlt. destruct Hpop as (Hst & Hok1 & Hx).
  destruct x as [o|].
  2: { apply trun_ret. simpl. split_and!; [|done|done|by intros _|done]. exists ids. split; try done. by rewrite Hst. }
  destruct (Hx o eq_refl) as (Ho & Ht & Hsto & Hnin).
  eapply trun_bind; [apply (trun_expire context s o (sc_status c1)); try done; [congruence|rewrite Hst; apply (co_live _ _ _ Hcok)]|].
  intros b s1 Hb. apply trun_ret. simpl. split_and!; [|done|done|by intros _|by intros ?%Hnone].
  destruct b; [destruct Hb as (Hover & o1 & Hid & Hto & Hc1 & Hops & _)|destruct Hb as [Hnot ->]].
  - destruct (identity_columns _ _ Hid) as [Hid1 _].
    assert (Op.is_terminal o1 = true) as Hterm by (unfold Op.is_terminal; by rewrite Hto).
    destruct (timed_out_only_step _ _ _ _ _ _ Honly Ho Hover Hid Hto Hops) as [Honly1 Hnew].
    eexists. split; simpl; [done| | |by rewrite Hst|exact Honly1|rewrite size_union, size_singleton by set_solver; lia].
    + eapply cursor_ok_change; [exact Hops|done|by rewrite Hid1| |exact Hok1]. intros ? [= <-]. by rewrite Hid1.
    + apply (cursor_ok_change None s s1 o1 d); [exact Hops|done| |done|exact Hdok]. rewrite Hid1.
      intros (o2 & He & Ho2)%list_elem_of_fmap. destruct (co_buffered _ _ _ Hdok) as [_ Hb].
      destruct (Hb o2 Ho2) as (Hs2 & _ & Hst2). rewrite <-He, Ho in Hs2. injection Hs2 as <-. congruence.
  - exists ids. split; simpl; [done| |done|by rewrite Hst|done|lia]. destruct Hok1 as [Hl Hf Hbuf Hcov]. split; [done..|].
    intros o2 Ho2 Hover Hs2. destruct (Hcov o2 Ho2 Hover Hs2) as [[= ->]|]; [done|by right].
Qed.

Lemma trun_reconcile_loop r context s0 fuel : forall ids s rep c d,
  rc_tenant_id context = tenant -> looping ids s0 s (or_max_timeouts_per_run r) rep c d ->
  (remaining (dom (operations s0)) c + remaining (dom (operations s0)) d < fuel)%nat ->
  sc_status c = OsPending -> sc_status d = OsRunning ->
  trun (W := W) (reconcile_loop fuel r context now rep c d) s (fun x s1 => exists rep1 ids1, x = Some rep1
    /\ consistent s1 /\ timed_out_only ids1 s0 s1 /\ rp_timed_out rep1 = Z.of_nat (size ids1)
    /\ rp_timed_out rep1 <= Z.max 0 (or_max_timeouts_per_run r)
    /\ (rp_timed_out rep1 < or_max_timeouts_per_run r -> forall id o, operations s1 !! id = Some o -> ~ overdue o)).
Proof.
  induction fuel as [|fuel IH]; intros ids s rep c d Hctx Hlo Hfuel Hc Hd; [lia|]. simpl.
  destruct (_ && _) eqn:Hgo.
  - apply andb_true_iff in Hgo as [Hlt%Z.ltb_lt Hex].
    eapply trun_bind; [by apply (trun_visit r context ids s0 s rep c d)|]. intros [rep1 c1] s1 ([ids1 Hlo1] & Hst1 & Hle1 & Hlt1 & Hrep1). simpl in *.
    eapply trun_bind; [apply (trun_visit r context ids1 s0 s1 rep1 d c1); [done|by apply looping_swap]|].
    intros [rep2 d1] s2 ([ids2 Hlo2] & Hst2 & Hle2 & Hlt2 & _). simpl in *. apply (IH ids2); [done|by apply looping_swap| |congruence..].
    destruct (exhausted c) eqn:Hec; [|specialize (Hlt1 Hlt eq_refl); lia].
    rewrite (Hrep1 eq_refl) in Hlt2. simpl in Hex. apply negb_true_iff in Hex. specialize (Hlt2 Hlt Hex). lia.
  - apply trun_ret. exists rep, ids. destruct Hlo as [Hcs Hcok Hdok Hne Honly Hcount]. split_and!; try done; try lia.
    intros Hlt id o Ho Hover. rewrite (proj2 (Z.ltb_lt _ _) Hlt) in Hgo. simpl in Hgo.
    apply orb_false_iff in Hgo as [Hxc%negb_false_iff Hxd%negb_false_iff].
    destruct (cs_row s Hcs _ _ Ho) as (Hid & _). subst id.
    assert (forall e, cursor_ok None s e -> exhausted e = true -> Op.status o <> sc_status e) as Hdone.
    { intros e [_ _ _ Hcov] Hex Hs. unfold exhausted in Hex. destruct (Hcov o Ho Hover Hs) as [|[Hin|[Hm _]]]; [done|..].
      - apply andb_true_iff in Hex as [_ Hb]. destruct (sc_buffer e); [by apply elem_of_nil in Hin|done].
      - by rewrite Hm in Hex. }
    pose proof (Hdone c Hcok Hxc) as H1c. pose proof (Hdone d Hdok Hxd) as H1d. destruct Hover as (_ & Ht & _).
    unfold Op.is_terminal in Ht. rewrite Hc in H1c. rewrite Hd in H1d. by destruct (Op.status o).
Qed.
End reconciler.
End overdue.
