(* ===== verification/OutboxRelay.v ===== *)
(** * The outbox relay

    [EventService] ([event_service.rs]) and [OutboxRelay] ([outbox_relay.rs]):
    read the entries that are due, publish them outside of any transaction, and
    record the outcomes in a second transaction, with a backoff that doubles at
    each attempt and a jitter from the hash of the event. *)

From S2P Require Import Prelude RustStr Domain DomainData Operation Paging Cluster UnitOfWork.

Open Scope list_scope.
Open Scope Z_scope.

Definition MAX_ATTEMPTS : Z := 10.
Definition BASE_BACKOFF_MS : Z := 100.

Class EventPublisher (W : Type) := publish : Event DomainEvent -> W -> result unit DomainError * W.

(** [stable_hash_u64] of an event identifier: FNV-1a over what the [Hash]
    instance of the [uuid] crate feeds it. *)
Class EventHash := event_hash : Uuid -> Z.

Section relay.
Context {W : Type} `{Clock W, Others W, EventPublisher W} `{EventHash, DateRange, DbMessages}.

Definition read_pending (now : UtcTimestamp) (limit : nat) : app W (list OutboxEntry) :=
  stmt (reads (outbox_pending now limit)).

Fixpoint publish_events (entries : list OutboxEntry) (w : W) : list (result unit SignalError) * W :=
  match entries with
  | [] => ([], w)
  | entry :: entries =>
      let '(r, w) := publish (ob_event entry) w in
      let '(rs, w) := publish_events entries w in
      (match r with Ok tt => Ok tt | Err e => Err (domain_to_signal e) end :: rs, w)
  end.

Definition backoff_ms (attempts : Z) : Z := BASE_BACKOFF_MS * Z.shiftl 1 (Z.min attempts 20).
Definition jitter_ms (id : Uuid) (backoff : Z) : Z :=
  if 0 <? backoff / 4 then event_hash id mod (backoff / 4) else 0.
Definition next_attempt (now : UtcTimestamp) (id : Uuid) (attempts : Z) : UtcTimestamp :=
  let total := backoff_ms attempts + jitter_ms id (backoff_ms attempts) in
  match ts_checked_add now total with Some t => t | None => now end.

(** The statement that records one outcome. *)
Definition record_result (now : UtcTimestamp) (entry : OutboxEntry) (r : result unit SignalError) (s : Store) : Store :=
  let id := ev_event_id (ob_event entry) in
  match r with
  | Ok _ => outbox_mark_published id s
  | Err e =>
      let attempts := ob_attempts entry + 1 in
      let failed := MAX_ATTEMPTS <=? attempts in
      outbox_mark_failed id attempts failed (Some (SignalError_display e))
        (if failed then None else Some (next_attempt now id attempts)) s
  end.

Fixpoint record_results (now : UtcTimestamp) (outcomes : list (OutboxEntry * result unit SignalError)) (published : Z) :
    app W Z :=
  match outcomes with
  | [] => app_ret published
  | (entry, r) :: outcomes =>
      do+ stmt (writes (record_result now entry r)) in
      record_results now outcomes (match r with Ok _ => published + 1 | Err _ => published end)
  end.

(** [run_once] of a relay with the given batch size. *)
Definition run_once (batch_size : nat) : app W Z :=
  let+ now := app_port now_wall in
  let+ entries := read_pending now batch_size in
  do+ commit in
  let+ results := app_port (publish_events entries) in
  let+ published := record_results now (zip entries results) 0 in
  do+ commit in
  app_ret published.
End relay.

(** ** What a run of the outbox relay does

    The relay keeps the outbox at-least-once: what it publishes and how each entry
    is changed by the outcome. *)

(** Rows are stored under the identifier of their event. *)
Definition outbox_keyed (m : gmap Uuid OutboxEntry) : Prop := map_Forall (fun id e => ev_event_id (ob_event e) = id) m.

(** What the relay relies on: other sessions append events, they do not touch
    those that are there. *)
Class OutboxRely (W : Type) `{Others W} : Prop :=
  others_outbox : forall s (w : W), outbox_events s ⊆ outbox_events (others s w).1.

Section relay.
Context {W : Type} `{Clock W, EventPublisher W} `{OutboxRely W} `{EventHash, DateRange, DbMessages}.

(** ** Statements *)

Definition recorded (now : UtcTimestamp) (s : Store) (outcome : OutboxEntry * result unit SignalError) : Store :=
  record_result now outcome.1 outcome.2 s.
Definition successes (outcomes : list (OutboxEntry * result unit SignalError)) : Z :=
  Z.of_nat (length (filter (fun o => is_ok o.2 = true) outcomes)).

Lemma record_results_open now outcomes : forall n c s rb (w : W),
  record_results now outcomes n (mkUow c (Some (mkTx s false)) rb) w
  = (Ok (n + successes outcomes), mkUow c (Some (mkTx (foldl (recorded now) s outcomes) false)) rb, w).
Proof.
  induction outcomes as [|[e r] outcomes IH]; intros n c s rb w; simpl.
  { unfold app_ret, successes. simpl. by rewrite Z.add_0_r. }
  unfold app_bind at 1, stmt, stmt_domain, uow_tx. simpl. rewrite IH. unfold successes. rewrite filter_cons.
  destruct r; simpl; [|done]. f_equal. f_equal. f_equal. lia.
Qed.

Lemma publish_length entries : forall w : W, length (publish_events entries w).1 = length entries.
Proof.
  induction entries as [|e entries IH]; intros w; simpl; [done|]. destruct (publish _ w) as [r w1].
  specialize (IH w1). destruct (publish_events entries w1). simpl in *. by rewrite IH.
Qed.

(** ** Rows *)

(** The row of an entry after its outcome. *)
Definition outcome_row (now : UtcTimestamp) (read : OutboxEntry) (r : result unit SignalError) (e : OutboxEntry) : OutboxEntry :=
  match r with
  | Ok _ => mkEntry (ob_event e) true (ob_attempts e) (ob_failed e) (ob_error e) (ob_next_attempt_at e)
  | Err err =>
      let attempts := ob_attempts read + 1 in
      mkEntry (ob_event e) (ob_published e) attempts (MAX_ATTEMPTS <=? attempts) (Some (SignalError_display err))
        (if MAX_ATTEMPTS <=? attempts then None
         else Some (next_attempt now (ev_event_id (ob_event read)) attempts))
  end.

Lemma recorded_row now s e r :
  outbox_events (recorded now s (e, r)) = alter (outcome_row now e r) (ev_event_id (ob_event e)) (outbox_events s).
Proof. unfold recorded, record_result. by destruct r. Qed.

Lemma recorded_other now outcomes : forall s id,
  id ∉ ev_event_id ∘ ob_event ∘ fst <$> outcomes ->
  outbox_events (foldl (recorded now) s outcomes) !! id = outbox_events s !! id.
Proof.
  induction outcomes as [|[e r] outcomes IH]; intros s id Hid; simpl; [done|]. apply not_elem_of_cons in Hid as [Hne Hid].
  rewrite IH by done. rewrite recorded_row. by rewrite lookup_alter_ne.
Qed.

Lemma recorded_in now outcomes : forall s e r,
  NoDup (ev_event_id ∘ ob_event ∘ fst <$> outcomes) -> (e, r) ∈ outcomes ->
  outbox_events (foldl (recorded now) s outcomes) !! ev_event_id (ob_event e)
  = outcome_row now e r <$> outbox_events s !! ev_event_id (ob_event e).
Proof.
  induction outcomes as [|[e2 r2] outcomes IH]; intros s e r Hnd Hin; simpl; [by apply elem_of_nil in Hin|].
  apply NoDup_cons in Hnd as [Hnot Hnd]. apply elem_of_cons in Hin as [[= <- <-]|Hin].
  - rewrite recorded_other by done. by rewrite recorded_row, lookup_alter_eq.
  - rewrite (IH _ e r) by done. rewrite recorded_row, lookup_alter_ne; [done|].
    intros Heq. apply Hnot. simpl. rewrite Heq. apply list_elem_of_fmap. by exists (e, r).
Qed.

Lemma record_results_begins now outcomes n s (w : W) :
  outcomes <> [] ->
  record_results now outcomes n (mkUow s None false) w
  = record_results now outcomes n (begin (others s w).1) (others s w).2.
Proof.
  destruct outcomes as [|[e r] outcomes]; [done|]. intros _. simpl. unfold app_bind, stmt, stmt_domain, uow_tx. simpl.
  by destruct (others s w) as [s1 w1].
Qed.

(** ** Entries that are due *)

Lemma pending_rows now batch s e :
  outbox_keyed (outbox_events s) -> e ∈ outbox_pending now batch s ->
  outbox_events s !! ev_event_id (ob_event e) = Some e /\ is_pending now e = true.
Proof.
  intros Hk He. unfold outbox_pending in He. apply elem_of_take in He as (i & Hi & _). apply list_elem_of_lookup_2 in Hi.
  rewrite merge_sort_Permutation in Hi. apply list_elem_of_filter in Hi as [Hp Hi]. apply list_elem_of_fmap in Hi as ([id e2] & -> & Hi).
  apply elem_of_map_to_list in Hi. simpl in *. split; [|by apply Is_true_true]. by rewrite (Hk _ _ Hi).
Qed.

Lemma pending_ids now batch s :
  outbox_keyed (outbox_events s) -> NoDup (ev_event_id ∘ ob_event <$> outbox_pending now batch s).
Proof.
  intros Hk. unfold outbox_pending. eapply sublist_NoDup; [|apply fmap_sublist, sublist_take].
  rewrite merge_sort_Permutation. eapply sublist_NoDup; [|apply fmap_sublist, sublist_filter].
  rewrite <-list_fmap_compose. erewrite list_fmap_ext; [apply NoDup_fst_map_to_list|].
  intros i [id e] Hi. apply list_elem_of_lookup_2, elem_of_map_to_list in Hi. simpl. apply (Hk _ _ Hi).
Qed.

(** ** Retries *)

(** A retry waits at least the backoff of the attempt and at most a quarter more,
    unless the time leaves the range of timestamps. *)
Lemma next_attempt_bounds now id attempts :
  0 <= attempts ->
  next_attempt now id attempts = now
  \/ now + backoff_ms attempts * NANOS_PER_MILLI <= next_attempt now id attempts
     < now + (backoff_ms attempts + backoff_ms attempts / 4) * NANOS_PER_MILLI.
Proof.
  intros Ha. unfold next_attempt. destruct (ts_checked_add now _) as [t|] eqn:Ht; [|by left]. right.
  apply ts_checked_add_Some in Ht as ->. unfold from_millis, jitter_ms.
  assert (0 < backoff_ms attempts / 4) as Hq.
  { unfold backoff_ms, BASE_BACKOFF_MS. rewrite Z.shiftl_1_l. pose proof (Z.pow_pos_nonneg 2 (Z.min attempts 20)).
    apply Z.div_str_pos. lia. }
  rewrite (proj2 (Z.ltb_lt _ _) Hq). pose proof (Z.mod_pos_bound (event_hash id) _ Hq).
  unfold NANOS_PER_MILLI. lia.
Qed.

(** How an entry stands after its outcome. *)
Definition settled_row (now : UtcTimestamp) (e : OutboxEntry) (r : result unit SignalError) (e1 : OutboxEntry) : Prop :=
  ob_event e1 = ob_event e
  /\ match r with
     | Ok _ => ob_published e1 = true
     | Err _ =>
         ob_published e1 = false /\ ob_attempts e1 = ob_attempts e + 1
         /\ ob_failed e1 = (MAX_ATTEMPTS <=? ob_attempts e1)
         /\ (ob_failed e1 = false -> 0 <= ob_attempts e ->
              exists t, ob_next_attempt_at e1 = Some t
                /\ (t = now \/ now + backoff_ms (ob_attempts e1) * NANOS_PER_MILLI <= t
                             < now + (backoff_ms (ob_attempts e1) + backoff_ms (ob_attempts e1) / 4) * NANOS_PER_MILLI))
     end.

Lemma outcome_settled now e r : is_pending now e = true -> settled_row now e r (outcome_row now e r e).
Proof.
  intros Hp. unfold is_pending in Hp. apply andb_true_iff in Hp as [Hp _]. apply andb_true_iff in Hp as [Hp _].
  apply negb_true_iff in Hp. unfold settled_row, outcome_row. destruct r; simpl; [done|]. split_and!; try done.
  intros -> Ha. eexists. split; [done|]. apply next_attempt_bounds. lia.
Qed.

(** A run of the relay publishes the oldest entries that are due, in order,
    outside of any transaction, and settles each of them by its outcome: an
    accepted event is marked as published and never read again; a refused one
    stays in the outbox with one more attempt, to be tried again after a backoff
    that doubles with each attempt plus at most a quarter, until the tenth
    attempt fails it for good.  All other entries are left as they are, also those
    that other sessions append during the run. *)
Theorem relay_settles batch s (w : W) :
  outbox_keyed (outbox_events s) ->
  let now := (now_wall w).1 in
  let entries := outbox_pending now batch s in
  let '(results, w1) := publish_events entries (now_wall w).2 in
  exists s1 w2, run_once batch (begin s) w = (Ok (successes (zip entries results)), mkUow s1 None false, w2)
    /\ (forall e r, (e, r) ∈ zip entries results ->
         exists e1, outbox_events s1 !! ev_event_id (ob_event e) = Some e1 /\ settled_row now e r e1)
    /\ (forall id e, outbox_events s !! id = Some e -> e ∉ entries -> outbox_events s1 !! id = Some e).
Proof.
  intros Hk. simpl. unfold run_once, app_bind at 1, app_port at 1. destruct (now_wall w) as [now w0]. simpl.
  unfold app_bind at 1, read_pending, stmt, stmt_domain, begin. simpl. unfold app_bind at 1, commit. simpl.
  unfold app_bind at 1, app_port at 1. set (entries := outbox_pending now batch s).
  pose proof (publish_length entries w0) as Hlen. destruct (publish_events entries w0) as [results w1]. simpl in Hlen.
  assert ((zip entries results).*1 = entries) as Hfst by (apply fst_zip; lia).
  assert (NoDup (ev_event_id ∘ ob_event ∘ fst <$> zip entries results)) as Hnd.
  { rewrite list_fmap_compose, Hfst. by apply pending_ids. }
  assert (forall e r, (e, r) ∈ zip entries results -> e ∈ entries) as Hin.
  { intros e r He. rewrite <-Hfst. apply list_elem_of_fmap. by exists (e, r). }
  unfold app_bind. destruct (decide (zip entries results = [])) as [Hnil|Hne].
  { rewrite Hnil. simpl. exists s, w1. split_and!; [done| |done]. by intros e r He%elem_of_nil. }
  rewrite record_results_begins by done. unfold begin. rewrite record_results_open. simpl.
  eexists _, _. split; [done|]. simpl. pose proof (others_outbox s w1) as Hsub. split.
  - intros e r He. destruct (pending_rows now batch s e Hk (Hin e r He)) as [Hrow Hp].
    rewrite (recorded_in now _ _ e r) by done. rewrite (lookup_weaken _ _ _ _ Hrow Hsub). simpl.
    eexists. split; [done|]. by apply outcome_settled.
  - intros id e Hrow Hnot. rewrite recorded_other; [by eapply lookup_weaken|].
    rewrite list_fmap_compose, Hfst. intros Hid. apply list_elem_of_fmap in Hid as (e2 & -> & He2).
    destruct (pending_rows now batch s e2 Hk He2) as [Hrow2 _]. simpl in Hrow. congruence.
Qed.
End relay.

(** ** A sample *)

Module RelaySample.
#[local] Existing Instance default_date_range.
#[local] Instance messages : DbMessages := {| db_message := fun _ => ""; db_display := fun _ => "" |}.
#[local] Instance hash : EventHash := fun id => id.
#[local] Instance alone : Others InMemoryWorld := fun s w => (s, w).
#[local] Instance alone_rely : OutboxRely InMemoryWorld.
Proof. by intros s w. Qed.
(** A publisher that refuses the event 2. *)
#[local] Instance publisher : EventPublisher InMemoryWorld := fun e w =>
  (if ev_event_id e =? 2 then Err (unavailable "") else Ok tt, w).

Definition event (id : Z) : Event DomainEvent :=
  mkEvent id 9 {| rr_tenant_id := 9; rr_kind := RkDevice; rr_id := {| ri_kind := RkDevice; ri_uuid := 7 |} |}
    1 id 0 0 None None 0 (OwnerChanged 9 7 1 1 None None false).
Definition entry (id attempts : Z) : OutboxEntry := mkEntry (event id) false attempts false None None.
Definition store : Store :=
  mkStore ∅ {[ 1 := entry 1 0; 2 := entry 2 3; 3 := entry 3 0 ]} ∅ (mkDb ∅ ∅ ∅).
Definition world : InMemoryWorld := Build_InMemoryWorld 1 42.

Lemma relay_settles_witness :
  outbox_keyed (outbox_events store)
  /\ let now := (now_wall world).1 in
     let entries := outbox_pending now 2 store in
     let '(results, w1) := publish_events entries (now_wall world).2 in
     exists s1 w2, run_once 2 (begin store) world = (Ok (successes (zip entries results)), mkUow s1 None false, w2)
       /\ (forall e r, (e, r) ∈ zip entries results ->
            exists e1, outbox_events s1 !! ev_event_id (ob_event e) = Some e1 /\ settled_row now e r e1)
       /\ (forall id e, outbox_events store !! id = Some e -> e ∉ entries -> outbox_events s1 !! id = Some e).
Proof.
  assert (outbox_keyed (outbox_events store)) as Hk.
  { repeat (apply map_Forall_insert_2; [done|]). intros id e He. by rewrite lookup_empty in He. }
  split; [done|]. exact (relay_settles 2 store world Hk).
Defined.
End RelaySample.
