(* ===== verification/Inbox.v ===== *)
(** * The inbox: commands at the node that owns the device

    [InboxService] ([cheetah-signal-application/src/inbox.rs]).  A delivery is
    decoded, routed by the owner of its device, and, on the owning node and in the
    epoch it was issued for, handled in a transaction together with the record
    that its message was processed.  The acknowledgement that is sent back to the
    bus is the result; a transport that fails to take it is ignored, as the code
    does. *)

From S2P Require Import Prelude RustStr Domain DomainData Operation Paging Cluster UnitOfWork OperationService Messages.

Open Scope string_scope.
Open Scope list_scope.
Open Scope Z_scope.

(** ** Results of a handler *)

Inductive InboxReceipt :=
| InAccepted | InDuplicate | InRejected (reason : string) | InDeadLetter (reason : string).
Inductive CommandDispatch :=
| DispQueued | DispSent | DispTransportFailed (reason : string) | DispTimedOut.
Inductive OperationStepOutcome :=
| OutSucceeded | OutFailed (reason : string) | OutUnknown | OutCancelled.

Record CommandHandlerResult := mkHandlerResult {
  hr_receipt : InboxReceipt;
  hr_dispatch : option CommandDispatch;
  hr_outcome : option OperationStepOutcome;
  hr_result_payload : option string
}.

Definition hr_accepted (d : CommandDispatch) (o : OperationStepOutcome) : CommandHandlerResult :=
  mkHandlerResult InAccepted (Some d) (Some o) None.
Definition hr_rejected (reason : string) : CommandHandlerResult :=
  mkHandlerResult (InRejected reason) None (Some (OutFailed reason)) None.
Definition hr_dead_letter (reason : string) : CommandHandlerResult :=
  mkHandlerResult (InDeadLetter reason) None (Some (OutFailed reason)) None.
Definition hr_duplicate : CommandHandlerResult := mkHandlerResult InDuplicate None None None.
Definition with_payload (payload : string) (r : CommandHandlerResult) : CommandHandlerResult :=
  mkHandlerResult (hr_receipt r) (hr_dispatch r) (hr_outcome r) (Some payload).

Definition processed_status_from_receipt (r : InboxReceipt) : ProcessedMessageStatus :=
  match r with
  | InAccepted => PmAccepted
  | InDuplicate => PmDuplicate
  | InRejected _ | InDeadLetter _ => PmFailed
  end.

(** [build_result_payload] and the object of a rejection, by [serde_json]. *)
Class ResultJson := { result_json : CommandHandlerResult -> option string; rejected_json : string -> string }.

Class CommandHandler (W : Type) := handle : Command -> app W CommandHandlerResult.

(** ** Processing *)

Inductive AckAction := Ack | Nak (reason : string) | Term (reason : string).
Definition is_nak (a : AckAction) : bool := match a with Nak _ => true | _ => false end.

Record InboxService := mkInbox { ib_this_node : Uuid; ib_record_ttl : Z }.

Section inbox.
Context {W : Type} `{Clock W, Others W, CommandHandler W, DeviceOwnerResolver W, RawCommandBus W}
  `{DateRange, UuidDisplay, DbMessages, MessageJson, ResultJson}.

Definition rolled (u : Uow) : Store := committed (rollback_domain u).2.

(** Records the outcome and commits; [reason] is told when the commit fails, or
    else the error of the commit. *)
Definition finish (tenant message : Uuid) (status : ProcessedMessageStatus) (payload : option string)
    (reason : option string) (done : AckAction) (u : Uow) (w : W) : AckAction * Store * W :=
  let '(now, w) := now_wall w in
  let '(r, u, w) := stmt_domain (writes (processed_complete tenant message status payload now)) u w in
  match r with
  | Err e => (Nak (default (DomainError_display e) reason), rolled u, w)
  | Ok _ =>
      match commit_domain u with
      | (Err e, u) => (Nak (default (DomainError_display e) reason), committed u, w)
      | (Ok _, u) => (done, committed u, w)
      end
  end.

Definition process (svc : InboxService) (tenant : Uuid) (command : Command) (s : Store) (w : W) : AckAction * Store * W :=
  let message := cmd_message_id command in
  let '(now, w) := now_wall w in
  let record := mkProcessed tenant message (Some (cmd_idempotency_key command)) PmPending None now
                  (ts_checked_add now (ib_record_ttl svc)) in
  let '(r, u, w) := stmt_domain (processed_get_or_insert record) (begin s) w in
  match r with
  | Err e => (Nak (DomainError_display e), rolled u, w)
  | Ok (Some existing) =>
      if negb (bool_decide (pm_status existing = PmPending)) then (Ack, committed (commit_domain u).2, w)
      else (Nak "command already pending", rolled u, w)
  | Ok None =>
      match handle command u w with
      | (Ok result, u, w) =>
          let payload := match hr_result_payload result with Some p => Some p | None => result_json result end in
          finish tenant message (processed_status_from_receipt (hr_receipt result)) payload None Ack u w
      | (Err e, u, w) =>
          if se_retryable e then (Nak (SignalError_display e), rolled u, w)
          else finish tenant message PmFailed (Some (rejected_json (SignalError_display e)))
                 (Some (SignalError_display e)) (Term (SignalError_display e)) u w
      end
  end.

(** ** Routing *)

Inductive Route :=
| Undecodable (e : BusError)
| StaleEpoch
| Local (command : Command)
| Forward (command : Command) (owner : OwnerInfo)
| Ownerless
| Unresolved (e : DomainError).

Definition route_delivery (svc : InboxService) (envelope : CommandEnvelope) (w : W) : Route * W :=
  match decode_command envelope with
  | Err e => (Undecodable e, w)
  | Ok command =>
      let '(r, w) := resolve_owner (cmd_tenant_id command) (cmd_device_id command) w in
      (match r with
       | Ok (Some owner) =>
           if decide (oi_node_id owner = ib_this_node svc) then
             if decide (oi_epoch owner = cmd_expected_owner_epoch command) then Local command else StaleEpoch
           else Forward command owner
       | Ok None => Ownerless
       | Err e => Unresolved e
       end, w)
  end.

(** [handle_delivery]; other sessions commit before the transaction begins. *)
Definition handle_delivery (svc : InboxService) (envelope : CommandEnvelope) (s : Store) (w : W) :
    AckAction * Store * W :=
  let '(route, w) := route_delivery svc envelope w in
  match route with
  | Undecodable e => (Term (BusError_display e), s, w)
  | StaleEpoch => (Term "stale owner epoch", s, w)
  | Local command => let '(s, w) := others s w in process svc (cmd_tenant_id command) command s w
  | Forward command owner =>
      let '(r, w) := raw_send (command_subject (cmd_tenant_id command) (oi_node_id owner)) envelope w in
      (match r with Ok _ => Ack | Err e => Nak (BusError_display e) end, s, w)
  | Ownerless => (Nak "no owner", s, w)
  | Unresolved e => (Nak (DomainError_display e), s, w)
  end.

(** ** A consumer

    [run] handles the deliveries one after the other.  The log has an entry for
    every delivery that was processed here. *)

Record InboxEntry := mkInboxEntry {
  ie_command : Command;
  ie_before : Store;
  ie_world : W;
  ie_ack : AckAction;
  ie_after : Store;
  ie_world_after : W
}.
Definition ie_key (e : InboxEntry) : Uuid * Uuid := (cmd_tenant_id (ie_command e), cmd_message_id (ie_command e)).

Definition log_delivery (svc : InboxService) (envelope : CommandEnvelope) (s : Store) (w : W) : list InboxEntry :=
  match route_delivery svc envelope w with
  | (Local c, w) =>
      let '(s, w) := others s w in
      let '(ack, s1, w1) := process svc (cmd_tenant_id c) c s w in [mkInboxEntry c s w ack s1 w1]
  | _ => []
  end.

Fixpoint run_inbox (svc : InboxService) (envelopes : list CommandEnvelope) (s : Store) (w : W) :
    list InboxEntry * Store * W :=
  match envelopes with
  | [] => ([], s, w)
  | envelope :: envelopes =>
      let log := log_delivery svc envelope s w in
      let '(_, s, w) := handle_delivery svc envelope s w in
      let '(logs, s, w) := run_inbox svc envelopes s w in
      (log ++ logs, s, w)
  end.
End inbox.
Arguments InboxEntry : clear implicits.

(** ** Exactly once *)

(** No message is recorded as being processed while none is. *)
Definition no_pending (s : Store) : Prop :=
  map_Forall (fun _ r => pm_status r <> PmPending) (processed_messages s).

(** What the inbox asks of a handler: it works within the transaction that it is
    given, which it neither ends nor uses for records of other messages. *)
Class HandlerInTx (W : Type) `{CommandHandler W} : Prop :=
  handle_in_tx : forall c s t (w : W),
    let '(_, u1, _) := handle c (mkUow s (Some (mkTx t false)) false) w in
    exists t1 aborted, u1 = mkUow s (Some (mkTx t1 aborted)) false
      /\ processed_messages t1 = processed_messages t.

(** What it relies on: records of processed messages stay. *)
Class InboxRely (W : Type) `{Others W} : Prop :=
  others_inbox : forall s (w : W), no_pending s ->
    no_pending (others s w).1 /\ processed_messages s ⊆ processed_messages (others s w).1.

Section once.
Context {W : Type} `{Clock W, DeviceOwnerResolver W, RawCommandBus W} `{HandlerInTx W} `{InboxRely W}
  `{DateRange, UuidDisplay, DbMessages, MessageJson, ResultJson}.

(** The changes of the handler, in one transaction with the record. *)
Definition handled (c : Command) (before after : Store) : Prop :=
  let key := (cmd_tenant_id c, cmd_message_id c) in
  processed_messages before !! key = None
  /\ exists record (w : W) r t1 w1 status payload now,
       pm_status record = PmPending
       /\ handle c (mkUow before (Some (mkTx (set_processed (<[key := record]> (processed_messages before)) before)
                                            false)) false) w
          = (r, mkUow before (Some (mkTx t1 false)) false, w1)
       /\ status <> PmPending /\ after = processed_complete key.1 key.2 status payload now t1.

Definition entry_ok (e : InboxEntry W) : Prop :=
  match ie_ack e with
  | Nak _ => ie_after e = ie_before e
  | _ => (exists r, processed_messages (ie_after e) !! ie_key e = Some r)
         /\ (ie_after e = ie_before e \/ handled (ie_command e) (ie_before e) (ie_after e))
  end.

Lemma finish_spec tenant message status payload reason act s t aborted (w : W) :
  let '(ack, s1, _) := finish tenant message status payload reason act (mkUow s (Some (mkTx t aborted)) false) w in
  (exists why, ack = Nak why /\ s1 = s)
  \/ (ack = act /\ aborted = false /\ exists now, s1 = processed_complete tenant message status payload now t).
Proof.
  unfold finish. destruct (now_wall w) as [now w1]. unfold stmt_domain, uow_tx. simpl.
  destruct aborted; simpl; [left; eauto|]. right. eauto.
Qed.

Lemma process_known svc c s (w : W) r :
  processed_messages s !! (cmd_tenant_id c, cmd_message_id c) = Some r -> pm_status r <> PmPending ->
  process svc (cmd_tenant_id c) c s w = (Ack, s, (now_wall w).2).
Proof.
  intros Hr Hst. unfold process. destruct (now_wall w) as [now w1]. unfold stmt_domain, processed_get_or_insert, processed_find.
  simpl. rewrite Hr. simpl. by rewrite bool_decide_eq_false_2.
Qed.

Lemma handled_kept c before after :
  no_pending before -> handled c before after ->
  no_pending after /\ processed_messages before ⊆ processed_messages after
  /\ exists r, processed_messages after !! (cmd_tenant_id c, cmd_message_id c) = Some r.
Proof.
  intros Hnp (Hnew & record & w & r & t1 & w1 & status & payload & now & Hrec & Hrun & Hst & ->).
  pose proof (handle_in_tx c before (set_processed (<[(cmd_tenant_id c, cmd_message_id c) := record]>
    (processed_messages before)) before) w) as Hin.
  rewrite Hrun in Hin. destruct Hin as (t2 & ab & [= <- <-] & Hpm).
  unfold no_pending, processed_complete in *. simpl in *. rewrite Hpm, alter_insert_eq. split_and!.
  - by apply map_Forall_insert_2.
  - by apply insert_subseteq.
  - eexists. apply lookup_insert_eq.
Qed.

(** A finished transaction of the handler is an entry of the log. *)
Lemma finished_entry c s record (w w0 w2 : W) r t1 ab wh status payload reason act :
  processed_messages s !! (cmd_tenant_id c, cmd_message_id c) = None -> pm_status record = PmPending ->
  handle c (mkUow s (Some (mkTx (set_processed (<[(cmd_tenant_id c, cmd_message_id c) := record]>
    (processed_messages s)) s) false)) false) w = (r, mkUow s (Some (mkTx t1 ab)) false, wh) ->
  status <> PmPending -> is_nak act = false -> no_pending s ->
  let '(ack, s1, w1) := finish (cmd_tenant_id c) (cmd_message_id c) status payload reason act
                          (mkUow s (Some (mkTx t1 ab)) false) w2 in
  entry_ok (mkInboxEntry c s w0 ack s1 w1) /\ no_pending s1 /\ processed_messages s ⊆ processed_messages s1.
Proof.
  intros Hnew Hrec Hrun Hst Hact Hnp.
  pose proof (finish_spec (cmd_tenant_id c) (cmd_message_id c) status payload reason act s t1 ab w2) as Hf.
  destruct (finish _ _ _ _ _ _ _ _) as [[ack s1] w1]. destruct Hf as [(why & -> & ->)|(-> & -> & now & ->)]; [done|].
  assert (handled c s (processed_complete (cmd_tenant_id c) (cmd_message_id c) status payload now t1)) as Hh.
  { split; [done|]. exists record, w, r, t1, wh, status, payload, now. done. }
  destruct (handled_kept c _ _ Hnp Hh) as (? & ? & ?). split_and!; try done.
  unfold entry_ok. simpl. by destruct act; eauto.
Qed.

Lemma process_entry svc c s (w : W) :
  no_pending s ->
  let '(ack, s1, w1) := process svc (cmd_tenant_id c) c s w in
  entry_ok (mkInboxEntry c s w ack s1 w1) /\ no_pending s1 /\ processed_messages s ⊆ processed_messages s1.
Proof.
  intros Hnp. destruct (processed_messages s !! (cmd_tenant_id c, cmd_message_id c)) as [r|] eqn:Hr.
  { rewrite (process_known svc c s w r Hr) by (by eapply Hnp). split_and!; try done. unfold entry_ok, ie_key. simpl. eauto. }
  unfold process. destruct (now_wall w) as [now w1]. unfold stmt_domain, processed_get_or_insert, processed_find. simpl. rewrite Hr.
  set (record := mkProcessed _ _ _ _ _ _ _).
  pose proof (handle_in_tx c s (set_processed (<[(cmd_tenant_id c, cmd_message_id c) := record]> (processed_messages s)) s) w1) as Hin.
  destruct (handle _ _ _) as [[[result|e] u1] w2] eqn:Hrun; destruct Hin as (t1 & ab & -> & _).
  - eapply (finished_entry c s record); try done. by destruct (hr_receipt result).
  - destruct (se_retryable e); [by split_and!|]. by eapply (finished_entry c s record).
Qed.

(** A log in which every message takes effect once. *)
Definition once (log : list (InboxEntry W)) : Prop :=
  forall l1 e1 l2 e2 l3, log = l1 ++ e1 :: l2 ++ e2 :: l3 -> ie_key e1 = ie_key e2 -> is_nak (ie_ack e1) = false ->
    ie_ack e2 = Ack /\ ie_after e2 = ie_before e2 /\ ie_world_after e2 = (now_wall (ie_world e2)).2.

(** The entries of a run that starts with the records of [m]. *)
Definition entries_from (m : gmap (Uuid * Uuid) ProcessedMessageRecord) (e : InboxEntry W) : Prop :=
  entry_ok e
  /\ (forall r, m !! ie_key e = Some r ->
        ie_ack e = Ack /\ ie_after e = ie_before e /\ ie_world_after e = (now_wall (ie_world e)).2).

Lemma delivery_entries svc envelope s (w : W) :
  no_pending s ->
  let '(_, s1, _) := handle_delivery svc envelope s w in
  let log := log_delivery svc envelope s w in
  no_pending s1 /\ processed_messages s ⊆ processed_messages s1 /\ Forall (entries_from (processed_messages s)) log
  /\ (length log <= 1)%nat
  /\ (forall e, e ∈ log -> is_nak (ie_ack e) = false -> exists r, processed_messages s1 !! ie_key e = Some r).
Proof.
  intros Hnp. unfold handle_delivery, log_delivery. destruct (route_delivery svc envelope w) as [[e| |c|c o| |e] w1].
  3: { destruct (others_inbox s w1 Hnp) as [Hnp1 Hsub]. destruct (others s w1) as [s1 w2]. simpl in *.
    pose proof (process_entry svc c s1 w2 Hnp1) as Hp. pose proof (process_known svc c s1 w2) as Hk.
    destruct (process _ _ _ _ _) as [[ack s2] w3]. destruct Hp as (He & Hnp2 & Hsub2). split_and!; try done.
    - by etrans.
    - constructor; [|done]. split; [done|]. intros r Hr. unfold ie_key in Hr. simpl in Hr.
      pose proof (lookup_weaken _ _ _ _ Hr Hsub) as Hr1. specialize (Hk r Hr1 (Hnp1 _ _ Hr1)). by injection Hk as -> -> ->.
    - intros e He2. apply list_elem_of_singleton in He2 as ->. simpl. unfold entry_ok in He. simpl in He. destruct ack; naive_solver. }
  all: try destruct (raw_send _ _ _) as [r w2]; split_and!; try done; simpl; try lia; by intros e2 He2%elem_of_nil.
Qed.

Lemma entries_from_mono m1 m2 e : m1 ⊆ m2 -> entries_from m2 e -> entries_from m1 e.
Proof. intros Hs [He Hk]. split; [done|]. intros r Hr. eapply Hk, lookup_weaken; eauto. Qed.

Lemma once_cons (e : InboxEntry W) (log : list (InboxEntry W)) (m : gmap (Uuid * Uuid) ProcessedMessageRecord) :
  (is_nak (ie_ack e) = false -> exists r, m !! ie_key e = Some r) ->
  Forall (entries_from m) log -> once log -> once (e :: log).
Proof.
  intros He Hlog Honce [|x l1] e1 l2 e2 l3 Heq Hkey Hack; simpl in Heq; injection Heq as -> Heq.
  - destruct (He Hack) as [r Hr]. rewrite Forall_forall in Hlog.
    assert (e2 ∈ log) as Hin by (subst log; set_solver). destruct (Hlog e2 Hin) as [_ Hk]. apply (Hk r). by rewrite <-Hkey.
  - by eapply Honce.
Qed.

Lemma run_entries svc envelopes : forall s (w : W),
  no_pending s ->
  let '(log, s1, _) := run_inbox svc envelopes s w in
  no_pending s1 /\ Forall (entries_from (processed_messages s)) log /\ once log.
Proof.
  induction envelopes as [|envelope envelopes IH]; intros s w Hnp; simpl.
  { split_and!; try done. by intros [|? ?]. }
  pose proof (delivery_entries svc envelope s w Hnp) as Hd.
  destruct (handle_delivery svc envelope s w) as [[ack s1] w1]. destruct Hd as (Hnp1 & Hsub & Hent & Hlen & Hfinal).
  specialize (IH s1 w1 Hnp1). destruct (run_inbox svc envelopes s1 w1) as [[logs s2] w2]. destruct IH as (Hnp2 & Hlogs & Honce).
  split_and!; [done| |].
  - apply Forall_app. split; [done|]. eapply Forall_impl; [exact Hlogs|]. intros e. by apply entries_from_mono.
  - destruct (log_delivery svc envelope s w) as [|e [|? ?]]; simpl in *; [done| |lia].
    eapply once_cons; [|exact Hlogs|done]. intros Hack. apply Hfinal; [set_solver|done].
Qed.

(** C28: Every command takes effect exactly once however often it is delivered.
    In a run of the inbox over any sequence of deliveries, with other sessions
    that commit in between: a delivery that is refused for redelivery committed
    nothing; a delivery that is processed here and acknowledged or terminated is
    on record, and it either changed nothing or committed the changes of one run
    of the handler together with the record, for a message that had none; and
    after that every delivery of the same message is acknowledged without running
    the handler and without any change.  No message is ever left pending. *)
Theorem inbox_exactly_once svc envelopes s (w : W) :
  no_pending s ->
  let '(log, s1, _) := run_inbox svc envelopes s w in
  no_pending s1 /\ Forall entry_ok log /\ once log.
Proof.
  intros Hnp. pose proof (run_entries svc envelopes s w Hnp) as Hr.
  destruct (run_inbox svc envelopes s w) as [[log s1] w1]. destruct Hr as (? & Hlog & ?). split_and!; try done.
  eapply Forall_impl; [exact Hlog|]. by intros e [? _].
Qed.
End once.

(** ** A sample *)

Module InboxSample.
#[local] Existing Instance default_date_range.
#[local] Instance display : UuidDisplay := show_uint.
#[local] Instance messages : DbMessages := {| db_message := fun _ => "db"; db_display := fun _ => "db" |}.
#[local] Instance alone : Others InMemoryWorld := fun s w => (s, w).
#[local] Instance resolver : DeviceOwnerResolver InMemoryWorld := fun _ _ w => (Ok (Some (mkOwner 1 3 None)), w).
#[local] Instance bus : RawCommandBus InMemoryWorld := fun _ _ w => (Ok tt, w).
#[local] Instance results : ResultJson := {| result_json := fun _ => None; rejected_json := fun m => m |}.

Definition target : ResourceRef :=
  {| rr_tenant_id := 9; rr_kind := RkDevice; rr_id := {| ri_kind := RkDevice; ri_uuid := 7 |} |}.
Definition command (message epoch : Z) : Command :=
  {| cmd_command_id := 1; cmd_message_id := message; cmd_operation_id := 2; cmd_step_id := None; cmd_tenant_id := 9;
     cmd_device_id := 7; cmd_target := target; cmd_payload := StopMediaSession 5; cmd_idempotency_key := "key";
     cmd_idempotency_scope := {| is_tenant_id := 9; is_principal_id := "p"; is_target := target; is_idempotency_key := "key" |};
     cmd_deadline := None; cmd_expected_owner_epoch := epoch; cmd_requested_by := {| pr_id := "p"; pr_kind := PkUser; pr_scopes := [] |};
     cmd_correlation_id := 0; cmd_causation_id := 0; cmd_traceparent := None; cmd_tracestate := None |}.

(** A codec that knows three payloads, and a handler that reports the command. *)
#[local] Instance json : MessageJson := {|
  command_to_json c := Err "none";
  command_from_json p := if (p =? "a")%string then Ok (command 10 3)
                         else if (p =? "b")%string then Ok (command 11 2) else Err "syntax";
  event_to_json _ := Err "none";
  event_from_json _ := Err "none"
|}.
Definition report (c : Command) : Event DomainEvent :=
  mkEvent (cmd_message_id c) 9 target 1 0 0 0 None None 0 (OwnerChanged 9 7 1 3 None None false).
#[local] Instance handler : CommandHandler InMemoryWorld := fun c =>
  do+ stmt (outbox_append (report c)) in app_ret (hr_accepted DispSent OutUnknown).
#[local] Instance handler_in_tx : HandlerInTx InMemoryWorld.
Proof.
  intros c s t w. unfold handle, handler, app_bind, stmt, stmt_domain, uow_tx. simpl.
  unfold outbox_append. destruct (_ !! _); simpl; eauto.
Qed.
#[local] Instance alone_rely : InboxRely InMemoryWorld.
Proof. by intros s w Hnp. Qed.

Definition envelope (payload : string) : CommandEnvelope :=
  mkCommandEnvelope None None "" "" "" (Some (ControlCommand (Some (mkChannelCommand "" "" "" payload)))).
Definition store : Store := mkStore ∅ ∅ ∅ (mkDb ∅ ∅ ∅).
Definition deliveries : list CommandEnvelope := envelope <$> ["a"; "x"; "a"; "b"; "a"].

Example redelivered :
  let '(log, s1, _) := run_inbox (mkInbox 1 1000) deliveries store (Build_InMemoryWorld 5 0) in
  map ie_ack log = [Ack; Ack; Ack] /\ size (outbox_events s1) = 1%nat.
Proof. vm_compute. done. Qed.

Lemma inbox_exactly_once_witness :
  no_pending store
  /\ let '(log, s1, _) := run_inbox (mkInbox 1 1000) deliveries store (Build_InMemoryWorld 5 0) in
     no_pending s1 /\ Forall entry_ok log /\ once log.
Proof.
  assert (no_pending store) as Hnp by (intros k r Hr; vm_compute in Hr; done). split; [done|].
  pose proof (inbox_exactly_once (mkInbox 1 1000) deliveries store (Build_InMemoryWorld 5 0) Hnp) as Honce.
  destruct (run_inbox _ deliveries store _) as [[log s1] w1]. exact Honce.
Defined.
End InboxSample.
