(* ===== verification/MediaRegistry.v ===== *)
(** * The registry of media nodes

    [MediaNodeRegistry] and its in-memory implementation
    ([cheetah-media-scheduler/src/registry.rs], with [config.rs] and [error.rs]).
    The write lock makes every call atomic; a poisoned lock is not modelled. *)

From S2P Require Import Prelude RustStr Domain Cluster MediaNode.

Open Scope string_scope.
Open Scope list_scope.
Open Scope Z_scope.

(** ** Configuration and errors *)

(** The fields of [MediaRegistryConfig] that the registry reads. *)
Record MediaRegistryConfig := mkRegistryConfig {
  rg_default_lease_ttl_ms : Z;
  rg_heartbeat_timeout_ms : Z;
  rg_max_reported_load_percent : Z;
  rg_max_reported_session_count : Z;
  rg_reservation_ttl_ms : Z;
  rg_deregister_protection_ttl_ms : Z
}.
Definition registry_production : MediaRegistryConfig := mkRegistryConfig 30000 60000 100 100000 10000 60000.

Definition MAX_BACKEND_ERROR_BYTES : nat := 1024.
Inductive SchedulerError :=
| SeNoNode (m : string)
| SeNodeNotFound (m : string)
| SeCapacityExhausted (m : string)
| SeNodeDraining (m : string)
| SeReservationNotFound (tenant_id binding_id : string)
| SeInvalidArgument (m : string)
| SeIdentityMismatch (expected : string) (found : option string)
| SeBackend (m : string)
| SeDomain (e : DomainError)
| SeEventStream (m : string).
Definition scheduler_backend (m : string) : SchedulerError := SeBackend (clamp_str m MAX_BACKEND_ERROR_BYTES).

(** ** State *)

Record NodeEntry := mkNodeEntry {
  ne_node : MediaNode;
  ne_reported_session_count : Z;
  ne_reserved : gmap (Uuid * Uuid) UtcTimestamp;
  ne_instance_id : string
}.
Definition Registry : Type := gmap Uuid NodeEntry.

Definition ttl_i64 (ms : Z) : Z := if ms <=? I64_MAX then ms else I64_MAX.

(** Reservations whose deadline is in the future. *)
Definition live_reserved (now : UtcTimestamp) (m : gmap (Uuid * Uuid) UtcTimestamp) : gmap (Uuid * Uuid) UtcTimestamp :=
  filter (fun kv => now < kv.2) m.

Definition is_lease_expired (e : NodeEntry) (now : UtcTimestamp) : bool :=
  match mn_lease_until (ne_node e) with None => true | Some lease => lease <=? now end.

Section registry.
Context `{DateRange, UuidDisplay} (config : MediaRegistryConfig).

Definition is_stale (e : NodeEntry) (now : UtcTimestamp) : bool :=
  match mn_last_heartbeat_at (ne_node e) with
  | None => true
  | Some last => from_millis (ttl_i64 (rg_heartbeat_timeout_ms config)) <=? now - last
  end.

Definition is_active (e : NodeEntry) (now : UtcTimestamp) : bool :=
  match mn_status (ne_node e) with
  | NodeLeft => negb (is_lease_expired e now)
  | _ => negb (is_lease_expired e now) && negb (is_stale e now)
  end.

Definition to_media_node (e : NodeEntry) (now : UtcTimestamp) : MediaNode :=
  let total := sat_add64 (ne_reported_session_count e) (Z.of_nat (size (live_reserved now (ne_reserved e)))) in
  let node := recalc_health (set_runtime (ne_node e) (mn_load (ne_node e)) total (mn_health (ne_node e))) in
  if is_stale e now then set_runtime node (mn_load node) (mn_session_count node) Unhealthy else node.

Definition node_lease (now : UtcTimestamp) (ttl_ms : Z) : option UtcTimestamp := ts_checked_add now (ttl_i64 ttl_ms).

(** ** Operations

    Every operation reads the clock once or twice; the readings are arguments,
    in the order of the code. *)

Definition set_entry_node (e : NodeEntry) (n : MediaNode) : NodeEntry :=
  mkNodeEntry n (ne_reported_session_count e) (ne_reserved e) (ne_instance_id e).

Definition registered_entry (existing : option NodeEntry) (node : MediaNode) (now : UtcTimestamp)
    (lease : option UtcTimestamp) : NodeEntry :=
  match existing with
  | Some e =>
      if decide (ne_instance_id e = mn_instance_id node) then
        let node := set_lifecycle node (mn_instance_epoch (ne_node e)) (mn_generation (ne_node e)) false NodeActive
                      (Some now) lease in
        mkNodeEntry (set_runtime node (mn_load (ne_node e)) (mn_session_count node) (mn_health node))
          (ne_reported_session_count e) (ne_reserved e) (mn_instance_id node)
      else
        mkNodeEntry (set_lifecycle node (sat_add64 (mn_instance_epoch (ne_node e)) 1)
                       (sat_add64 (mn_generation (ne_node e)) 1) false NodeActive (Some now) lease)
          0 ∅ (mn_instance_id node)
  | None => mkNodeEntry (set_lifecycle node 1 1 false NodeActive (Some now) lease) 0 ∅ (mn_instance_id node)
  end.

Definition reg_register (node : MediaNode) (lease_ttl_ms : Z) (now now2 : UtcTimestamp) (r : Registry) :
    Registry * MediaNode :=
  let e := registered_entry (r !! mn_node_id node) node now (node_lease now2 lease_ttl_ms) in
  (<[mn_node_id node := e]> r, to_media_node e now).

Definition not_found_node (node : Uuid) : SchedulerError := SeNodeNotFound (uuid_to_string node).

Definition reg_heartbeat (node : Uuid) (lease_id : string) (epoch load sessions : Z) (now now2 : UtcTimestamp)
    (r : Registry) : Registry * result MediaNode SchedulerError :=
  if rg_max_reported_load_percent config <? load
  then (r, Err (SeInvalidArgument ("load exceeds " +:+ show_uint (rg_max_reported_load_percent config) +:+ "%")))
  else if rg_max_reported_session_count config <? sessions
  then (r, Err (SeInvalidArgument ("session_count exceeds " +:+ show_uint (rg_max_reported_session_count config))))
  else
    match r !! node with
    | None => (r, Err (not_found_node node))
    | Some e =>
        if bool_decide (mn_status (ne_node e) = NodeLeft)
        then (r, Err (SeNodeNotFound (uuid_to_string node +:+ " has been deregistered")))
        else if negb (bool_decide (ne_instance_id e = lease_id) && (mn_instance_epoch (ne_node e) =? epoch))
        then (r, Err (SeNodeNotFound (uuid_to_string node +:+ " lease or instance epoch mismatch")))
        else
          let n := ne_node e in
          let n := set_lifecycle n (mn_instance_epoch n) (mn_generation n) (mn_draining n) (mn_status n) (Some now)
                     (node_lease now2 (rg_default_lease_ttl_ms config)) in
          let e := mkNodeEntry (set_runtime n load (mn_session_count n) (mn_health n)) sessions (ne_reserved e)
                     (ne_instance_id e) in
          (<[node := e]> r, Ok (to_media_node e now))
    end.

Definition reg_drain (node : Uuid) (drain : bool) (now : UtcTimestamp) (r : Registry) :
    Registry * result MediaNode SchedulerError :=
  match r !! node with
  | None => (r, Err (not_found_node node))
  | Some e =>
      let n := ne_node e in
      let e := set_entry_node e (set_lifecycle n (mn_instance_epoch n) (mn_generation n) drain
                 (if drain then NodeDraining else NodeActive) (mn_last_heartbeat_at n) (mn_lease_until n)) in
      (<[node := e]> r, Ok (to_media_node e now))
  end.

Definition reg_deregister (node : Uuid) (now2 now : UtcTimestamp) (r : Registry) :
    Registry * result MediaNode SchedulerError :=
  match r !! node with
  | None => (r, Err (not_found_node node))
  | Some e =>
      let n := ne_node e in
      let e := set_entry_node e (set_lifecycle n (mn_instance_epoch n) (mn_generation n) (mn_draining n) NodeLeft
                 (mn_last_heartbeat_at n) (node_lease now2 (rg_deregister_protection_ttl_ms config))) in
      (<[node := e]> r, Ok (to_media_node e now))
  end.

Definition reg_get (node : Uuid) (now : UtcTimestamp) (r : Registry) : option MediaNode :=
  match r !! node with
  | Some e => if is_active e now then Some (to_media_node e now) else None
  | None => None
  end.

Definition reg_list_active (now : UtcTimestamp) (r : Registry) : list MediaNode :=
  map (fun e => to_media_node e now) (List.filter (fun e => is_active e now) (btree_ids r).*2).

Definition set_reserved (e : NodeEntry) (m : gmap (Uuid * Uuid) UtcTimestamp) : NodeEntry :=
  mkNodeEntry (ne_node e) (ne_reported_session_count e) m (ne_instance_id e).

Definition reg_reserve (node tenant binding : Uuid) (now : UtcTimestamp) (r : Registry) :
    Registry * result MediaNode SchedulerError :=
  match r !! node with
  | None => (r, Err (not_found_node node))
  | Some e =>
      let v := to_media_node e now in
      if bool_decide (mn_status v = NodeLeft) then (r, Err (not_found_node node))
      else if negb (is_active e now) then (r, Err (not_found_node node))
      else if bool_decide (mn_status v = NodeDraining) || mn_draining v then (r, Err (SeNodeDraining (uuid_to_string node)))
      else if bool_decide (mn_health v = Unhealthy) then (r, Err (SeCapacityExhausted (uuid_to_string node)))
      else
        match ts_checked_add now (ttl_i64 (rg_reservation_ttl_ms config)) with
        | None => (r, Err (SeInvalidArgument "reservation deadline overflow"))
        | Some deadline =>
            let live := live_reserved now (ne_reserved e) in
            let total := sat_add64 (ne_reported_session_count e) (Z.of_nat (size live)) in
            if session_capacity (ne_node e) <=? total
            then (<[node := set_reserved e live]> r, Err (SeCapacityExhausted (uuid_to_string node)))
            else
              let e := set_reserved e (<[(tenant, binding) := deadline]> live) in
              (<[node := e]> r, Ok (to_media_node e now))
        end
  end.

Definition reg_release (node tenant binding : Uuid) (now : UtcTimestamp) (r : Registry) :
    Registry * result MediaNode SchedulerError :=
  match r !! node with
  | None => (r, Err (not_found_node node))
  | Some e =>
      let e := set_reserved e (live_reserved now (delete (tenant, binding) (ne_reserved e))) in
      (<[node := e]> r, Ok (to_media_node e now))
  end.
End registry.
