(* ===== verification/MediaScheduler.v ===== *)
(** * Scheduling of media sessions

    [LeastLoadedScheduler] ([cheetah-media-scheduler/src/scheduler.rs]) and the
    reservation loop of [SchedulerMediaPort] ([port.rs]).  A media node is chosen
    among those of the registry by eligibility and score, capacity is reserved
    on it, and a node that fails to give it is excluded from the next attempt.

    The registry is the class [MediaNodeRegistry]; scores are [f64], computed on
    [spec_float]; the FNV-1a hash of a pair of strings is the class [PairHash]. *)

From S2P Require Import Prelude RustStr Domain Cluster NodeLease UnitOfWork MediaNode MediaRegistry.

Open Scope string_scope.
Open Scope list_scope.
Open Scope Z_scope.

(** ** Requirements and configuration *)

Record MediaRequirements := mkRequirements {
  rq_protocol : string;
  rq_operation : string;
  rq_transport : option string;
  rq_encapsulation : option string;
  rq_codecs : list string;
  rq_session_type : string;
  rq_zone : option string;
  rq_network_zone : option string;
  rq_tenant_constraints : gmap string string;
  rq_required_constraints : gmap string string;
  rq_media_session_id : option string;
  rq_require_media_sender : bool;
  rq_contract_version : Z
}.

Record SchedulerConfig := mkSchedulerConfig {
  sg_available_sessions_weight : spec_float;
  sg_bandwidth_weight : spec_float;
  sg_cpu_weight : spec_float;
  sg_zone_affinity_weight : spec_float;
  sg_stable_random_weight : spec_float;
  sg_contract_version_weight : spec_float;
  sg_max_reserve_attempts : nat;
  sg_max_candidates : nat;
  sg_max_reservations : Z
}.

(** ** Eligibility *)

Definition offers (rq : MediaRequirements) (c : MediaCapability) : bool :=
  (mc_protocol c =? rq_protocol rq)%string
  && (is_empty_str (rq_operation rq) || bool_decide (rq_operation rq ∈ mc_operations c)).

Definition version_compatible (rq : MediaRequirements) (n : MediaNode) : bool :=
  if rq_contract_version rq =? 0 then true
  else
    match List.filter (offers rq) (mn_capabilities n) with
    | [] => true
    | matching => existsb (fun c => rq_contract_version rq <=? mc_version c) matching
    end.

Definition constraints_satisfy (offered required : gmap string string) : bool :=
  forallb (fun kv => bool_decide (offered !! kv.1 = Some kv.2)) (btree_str required).

Definition codec_compatible (rq : MediaRequirements) (c : MediaCapability) : bool :=
  match rq_codecs rq with
  | [] => true
  | codecs =>
      let supported := match mc_constraints c !! "codecs" with
                       | Some s => map trim (split ","%char s)
                       | None => []
                       end in
      existsb (fun codec => bool_decide (codec ∈ supported)) codecs
  end.

Definition required_constraints (rq : MediaRequirements) : gmap string string :=
  let m := rq_required_constraints rq in
  let m := match rq_transport rq with Some t => <["transport" := t]> m | None => m end in
  match rq_encapsulation rq with Some e => <["encapsulation" := e]> m | None => m end.

Definition capability_matches (rq : MediaRequirements) (c : MediaCapability) : bool :=
  offers rq c
  && ((rq_contract_version rq =? 0) || (rq_contract_version rq <=? mc_version c))
  && constraints_satisfy (mc_constraints c) (required_constraints rq)
  && constraints_satisfy (mc_constraints c) (rq_tenant_constraints rq)
  && codec_compatible rq c.
Definition matches_capability (rq : MediaRequirements) (n : MediaNode) : bool :=
  existsb (capability_matches rq) (mn_capabilities n).

Definition zone_matches (rq : MediaRequirements) (n : MediaNode) : bool :=
  match rq_zone rq with
  | Some zone => (mn_zone n =? zone)%string || (mn_region n =? zone)%string
  | None => true
  end.
Definition network_zone_matches (rq : MediaRequirements) (n : MediaNode) : bool :=
  match rq_network_zone rq with
  | Some zone => existsb (fun z => (z =? zone)%string) (mn_network_zones n)
  | None => true
  end.

Definition is_node_eligible (rq : MediaRequirements) (n : MediaNode) : bool :=
  bool_decide (mn_status n = NodeActive) && negb (mn_draining n) && negb (bool_decide (mn_health n = Unhealthy))
  && matches_capability rq n && zone_matches rq n && network_zone_matches rq n && node_has_capacity n.

(** ** Scores *)

(** [stable_hash_u64] of a pair of strings. *)
Class PairHash := pair_hash : string -> string -> Z.

Section schedule.
Context `{PairHash, UuidDisplay}.

Definition stable_random (session : option string) (node_id : string) : spec_float :=
  F64.div (F64.of_u64 (pair_hash (default node_id session) node_id)) (F64.of_u64 U64_MAX).

Definition contract_version_score (rq : MediaRequirements) (n : MediaNode) : spec_float :=
  if rq_contract_version rq =? 0 then F64.zero
  else if existsb (fun c => offers rq c && (mc_version c =? rq_contract_version rq)) (mn_capabilities n)
  then F64.one else F64.zero.

Definition score_node (config : SchedulerConfig) (rq : MediaRequirements) (n : MediaNode) : spec_float :=
  let session_score := F64.div (F64.of_u64 (available_sessions n)) (F64.of_u64 (session_capacity n)) in
  let cpu_score := F64.sub F64.one (F64.min (F64.div (F64.of_u64 (mn_load n)) (F64.of_u64 (cpu_limit n))) F64.one) in
  let bandwidth_score := F64.one in
  let zone_score := if zone_matches rq n then F64.one else F64.zero in
  let random_score := stable_random (rq_media_session_id rq) (uuid_to_string (mn_node_id n)) in
  F64.add (F64.add (F64.add (F64.add (F64.add
    (F64.mul session_score (sg_available_sessions_weight config))
    (F64.mul bandwidth_score (sg_bandwidth_weight config)))
    (F64.mul cpu_score (sg_cpu_weight config)))
    (F64.mul zone_score (sg_zone_affinity_weight config)))
    (F64.mul random_score (sg_stable_random_weight config)))
    (F64.mul (contract_version_score rq n) (sg_contract_version_weight config)).

(** ** Candidates *)

(** Why a node is passed over, in the order of the checks. *)
Inductive Rejection :=
| RjExcluded | RjWrongStatus | RjUnhealthy | RjContractVersion | RjNoCapability | RjNoZone | RjNoNetworkZone
| RjNoCapacity | RjBadScore.
#[global] Instance Rejection_eq_dec : EqDecision Rejection.
Proof. solve_decision. Defined.

Definition judge (config : SchedulerConfig) (rq : MediaRequirements) (excluded : list Uuid) (n : MediaNode) :
    result spec_float Rejection :=
  if bool_decide (mn_node_id n ∈ excluded) then Err RjExcluded
  else if negb (bool_decide (mn_status n = NodeActive)) || mn_draining n then Err RjWrongStatus
  else if bool_decide (mn_health n = Unhealthy) then Err RjUnhealthy
  else if negb (version_compatible rq n) then Err RjContractVersion
  else if negb (matches_capability rq n) then Err RjNoCapability
  else if negb (zone_matches rq n) then Err RjNoZone
  else if negb (network_zone_matches rq n) then Err RjNoNetworkZone
  else if negb (node_has_capacity n) then Err RjNoCapacity
  else let score := score_node config rq n in
       if f64_is_finite score then Ok score else Err RjBadScore.

Definition scored_nodes (config : SchedulerConfig) (rq : MediaRequirements) (excluded : list Uuid)
    (nodes : list MediaNode) : list (MediaNode * spec_float) :=
  omap (fun n => match judge config rq excluded n with Ok score => Some (n, score) | Err _ => None end) nodes.
Definition rejections (config : SchedulerConfig) (rq : MediaRequirements) (excluded : list Uuid)
    (nodes : list MediaNode) : list Rejection :=
  omap (fun n => match judge config rq excluded n with Ok _ => None | Err r => Some r end) nodes.

(** [sort_by(|a, b| b.1.partial_cmp(&a.1).unwrap_or(Equal))], a stable sort: an
    element goes after those that do not have a smaller score. *)
Definition lower (a b : spec_float) : bool := match SFcompare a b with Some Lt => true | _ => false end.
Fixpoint insert_scored (x : MediaNode * spec_float) (l : list (MediaNode * spec_float)) :
    list (MediaNode * spec_float) :=
  match l with
  | [] => [x]
  | y :: l => if lower y.2 x.2 then x :: y :: l else y :: insert_scored x l
  end.
Definition sort_scored (l : list (MediaNode * spec_float)) : list (MediaNode * spec_float) :=
  foldl (fun acc x => insert_scored x acc) [] l.

(** The text of the error: [Debug] output of the requirements and the counts. *)
Definition debug_opt (o : option string) : string :=
  match o with Some s => "Some(" +:+ str_debug s +:+ ")" | None => "None" end.
Definition debug_list (l : list string) : string := "[" +:+ String.concat ", " (map str_debug l) +:+ "]".
Definition debug_map (m : gmap string string) : string :=
  "{" +:+ String.concat ", " (map (fun kv => str_debug kv.1 +:+ ": " +:+ str_debug kv.2) (btree_str m)) +:+ "}".
Definition format_no_candidate_reason (rq : MediaRequirements) (rs : list Rejection) : string :=
  let count r := show_uint (Z.of_nat (length (List.filter (fun x => bool_decide (x = r)) rs))) in
  String.concat "" [
    "no node satisfies protocol="; rq_protocol rq; " operation="; rq_operation rq;
    " contract_version="; show_uint (rq_contract_version rq); " zone="; debug_opt (rq_zone rq);
    " network_zone="; debug_opt (rq_network_zone rq); " transport="; debug_opt (rq_transport rq);
    " encapsulation="; debug_opt (rq_encapsulation rq); " codecs="; debug_list (rq_codecs rq);
    " required_constraints="; debug_map (rq_required_constraints rq);
    " tenant_constraints="; debug_map (rq_tenant_constraints rq);
    "; excluded="; count RjExcluded; ", wrong_status="; count RjWrongStatus; ", unhealthy="; count RjUnhealthy;
    ", no_capability="; count RjNoCapability; ", contract_version_mismatch="; count RjContractVersion;
    ", no_zone="; count RjNoZone; ", no_network_zone="; count RjNoNetworkZone;
    ", no_capacity="; count RjNoCapacity; ", bad_score="; count RjBadScore].

(** ** The scheduler *)

Record SchedulerState := mkScheduler {
  ss_reservations : gmap (Uuid * Uuid) Uuid;
  ss_affinity : gmap (Uuid * string) Uuid;
  ss_affinity_count : gmap (Uuid * string) Z;
  ss_binding_session : gmap (Uuid * Uuid) string
}.
Definition scheduler_new : SchedulerState := mkScheduler ∅ ∅ ∅ ∅.

(** The node that the session is bound to, when it can still take it. *)
Definition affinity_node (s : SchedulerState) (tenant : Uuid) (rq : MediaRequirements) (excluded : list Uuid)
    (nodes : list MediaNode) : option MediaNode :=
  match rq_media_session_id rq with
  | None => None
  | Some session =>
      match ss_affinity s !! (tenant, session) with
      | None => None
      | Some node_id =>
          if bool_decide (node_id ∈ excluded) then None
          else match List.find (fun n => mn_node_id n =? node_id) nodes with
               | Some n => if is_node_eligible rq n then Some n else None
               | None => None
               end
      end
  end.

Definition choose (config : SchedulerConfig) (s : SchedulerState) (tenant : Uuid) (rq : MediaRequirements)
    (excluded : list Uuid) (nodes : list MediaNode) : result MediaNode SchedulerError :=
  match nodes with
  | [] => Err (SeNoNode "no registered media nodes")
  | _ =>
      match affinity_node s tenant rq excluded nodes with
      | Some n => Ok n
      | None =>
          match take (sg_max_candidates config) (sort_scored (scored_nodes config rq excluded nodes)) with
          | (n, _) :: _ => Ok n
          | [] => Err (SeNoNode (format_no_candidate_reason rq (rejections config rq excluded nodes)))
          end
      end
  end.
End schedule.

(** ** Reservations *)

(** The calls of [MediaNodeRegistry] that the scheduler makes. *)
Class MediaNodeRegistry (R W : Type) := {
  call_list_active : R -> W -> R * W * list MediaNode;
  call_get : Uuid -> R -> W -> R * W * option MediaNode;
  call_reserve : Uuid -> Uuid -> Uuid -> R -> W -> R * W * result MediaNode SchedulerError;
  call_release : Uuid -> Uuid -> Uuid -> R -> W -> R * W * result MediaNode SchedulerError;
  call_drain : Uuid -> bool -> R -> W -> R * W * result MediaNode SchedulerError
}.

(** One session less on an affinity; the last one removes it. *)
Definition drop_affinity (key : Uuid * string) (s : SchedulerState) : SchedulerState :=
  match ss_affinity_count s !! key with
  | None => s
  | Some count =>
      if sat_sub count 1 =? 0 then
        mkScheduler (ss_reservations s) (delete key (ss_affinity s)) (delete key (ss_affinity_count s)) (ss_binding_session s)
      else
        mkScheduler (ss_reservations s) (ss_affinity s) (<[key := sat_sub count 1]> (ss_affinity_count s)) (ss_binding_session s)
  end.

Definition insert_reservation (node tenant binding : Uuid) (session : option string) (s : SchedulerState) : SchedulerState :=
  let reservations := <[(tenant, binding) := node]> (ss_reservations s) in
  match session with
  | None => mkScheduler reservations (ss_affinity s) (ss_affinity_count s) (ss_binding_session s)
  | Some session =>
      let key := (tenant, session) in
      mkScheduler reservations (<[key := node]> (ss_affinity s))
        (<[key := default 0 (ss_affinity_count s !! key) + 1]> (ss_affinity_count s))
        (<[(tenant, binding) := session]> (ss_binding_session s))
  end.

Definition without_reservation (key : Uuid * Uuid) (s : SchedulerState) : SchedulerState :=
  mkScheduler (delete key (ss_reservations s)) (ss_affinity s) (ss_affinity_count s) (ss_binding_session s).
Definition without_session (key : Uuid * Uuid) (s : SchedulerState) : SchedulerState :=
  mkScheduler (ss_reservations s) (ss_affinity s) (ss_affinity_count s) (delete key (ss_binding_session s)).

Definition remove_local_reservation (tenant binding : Uuid) (session : option string) (s : SchedulerState) : SchedulerState :=
  let s := without_reservation (tenant, binding) s in
  match session with
  | None => s
  | Some session => without_session (tenant, binding) (drop_affinity (tenant, session) s)
  end.

Section scheduler.
Context {R W : Type} `{MediaNodeRegistry R W} `{PairHash, UuidDisplay} (config : SchedulerConfig).

Definition schedule (tenant : Uuid) (rq : MediaRequirements) (excluded : list Uuid) (s : SchedulerState) (r : R) (w : W) :
    R * W * result MediaNode SchedulerError :=
  let '(r, w, nodes) := call_list_active r w in
  (r, w, choose config s tenant rq excluded nodes).

Definition reserve (node tenant binding : Uuid) (rq : MediaRequirements) (s : SchedulerState) (r : R) (w : W) :
    SchedulerState * R * W * result MediaNode SchedulerError :=
  let session := rq_media_session_id rq in
  if sg_max_reservations config <=? Z.of_nat (size (ss_reservations s))
  then (s, r, w, Err (SeCapacityExhausted "scheduler reservation limit reached"))
  else
    let s := insert_reservation node tenant binding session s in
    let '(r, w, result) := call_reserve node tenant binding r w in
    (match result with Ok _ => s | Err _ => remove_local_reservation tenant binding session s end, r, w, result).

Definition release (tenant binding : Uuid) (s : SchedulerState) (r : R) (w : W) :
    SchedulerState * R * W * result unit SchedulerError :=
  let key := (tenant, binding) in
  let session := ss_binding_session s !! key in
  let s := without_session key s in
  let s := match session with Some session => drop_affinity (tenant, session) s | None => s end in
  let node := ss_reservations s !! key in
  let s := without_reservation key s in
  match node with
  | None => (s, r, w, Ok tt)
  | Some node =>
      let '(r, w, result) := call_release node tenant binding r w in
      (s, r, w, match result with Ok _ => Ok tt | Err e => Err e end)
  end.

(** ** The reservation loop of the port *)

Record MediaReservation := mkReservation {
  mr_media_node_id : Uuid;
  mr_media_node_instance_epoch : Z;
  mr_contract_version : Z
}.

Definition MAX_SCHEDULER_ERROR_BYTES : nat := 1024.
Definition scheduler_error_display (e : SchedulerError) : string :=
  match e with
  | SeNoNode m => "no media node available: " +:+ m
  | SeNodeNotFound m => "media node not found: " +:+ m
  | SeCapacityExhausted m => "media node capacity exhausted: " +:+ m
  | SeNodeDraining m => "media node is draining: " +:+ m
  | SeReservationNotFound t b => String.concat "" ["reservation not found: tenant="; t; ", binding="; b]
  | SeInvalidArgument m => "invalid argument: " +:+ m
  | SeIdentityMismatch expected found =>
      String.concat "" ["mTLS identity mismatch: expected "; expected; ", found "; debug_opt found]
  | SeBackend m => "storage backend: " +:+ m
  | SeDomain e => "domain error: " +:+ DomainError_display e
  | SeEventStream m => "media event stream client: " +:+ m
  end.

Definition map_scheduler_error (e : SchedulerError) : DomainError :=
  let msg := clamp_str (scheduler_error_display e) MAX_SCHEDULER_ERROR_BYTES in
  match e with
  | SeDomain err => err
  | SeEventStream _ | SeBackend _ | SeNoNode _ | SeCapacityExhausted _ | SeNodeDraining _ => unavailable msg
  | SeNodeNotFound _ | SeReservationNotFound _ _ => not_found "media_node" msg
  | SeInvalidArgument _ | SeIdentityMismatch _ _ => invalid_argument msg
  end.

Definition schedule_error (rq : MediaRequirements) (e : SchedulerError) : DomainError :=
  match e with
  | SeNoNode _ => if (rq_operation rq =? "talk")%string then not_supported "talk not supported by any media node"
                  else map_scheduler_error e
  | _ => map_scheduler_error e
  end.

(** A reservation that may succeed on another node. *)
Definition try_next (e : SchedulerError) : bool :=
  match e with SeCapacityExhausted _ | SeNodeDraining _ | SeNodeNotFound _ => true | _ => false end.

Fixpoint reserve_attempts (attempts : nat) (tenant binding : Uuid) (rq : MediaRequirements) (excluded : list Uuid)
    (s : SchedulerState) (r : R) (w : W) : SchedulerState * R * W * result MediaReservation DomainError :=
  match attempts with
  | O => (s, r, w, Err (unavailable "no media node had capacity after retries"))
  | S attempts =>
      let '(r, w, chosen) := schedule tenant rq excluded s r w in
      match chosen with
      | Err e => (s, r, w, Err (schedule_error rq e))
      | Ok node =>
          let '(s, r, w, result) := reserve (mn_node_id node) tenant binding rq s r w in
          match result with
          | Ok _ => (s, r, w, Ok (mkReservation (mn_node_id node) (mn_instance_epoch node) (mn_contract_version node)))
          | Err e =>
              if try_next e
              then reserve_attempts attempts tenant binding rq (excluded ++ [mn_node_id node]) s r w
              else (s, r, w, Err (map_scheduler_error e))
          end
      end
  end.

Definition port_reserve (tenant binding : Uuid) (rq : MediaRequirements) (s : SchedulerState) (r : R) (w : W) :
    SchedulerState * R * W * result MediaReservation DomainError :=
  reserve_attempts (Nat.max (sg_max_reserve_attempts config) 1) tenant binding rq [] s r w.

Definition port_release (tenant binding : Uuid) (s : SchedulerState) (r : R) (w : W) :
    SchedulerState * R * W * result unit DomainError :=
  let '(s, r, w, result) := release tenant binding s r w in
  (s, r, w, match result with
            | Ok _ | Err (SeReservationNotFound _ _) => Ok tt
            | Err e => Err (map_scheduler_error e)
            end).

(** ** Commands to a node *)

Inductive MediaNodeCommandResult :=
| McCompleted | McAccepted | McFailed (code message : string) | McUnknownOutcome (code message : string).

Record MediaNodeCommand := mkNodeCommand {
  nc_request_id : string;
  nc_tenant_id : Uuid;
  nc_media_session_id : Uuid;
  nc_media_binding_id : Uuid;
  nc_media_node_id : Uuid;
  nc_media_node_instance_epoch : Z;
  nc_operation_id : Uuid;
  nc_owner_epoch : Z;
  nc_source_node_id : Uuid;
  nc_deadline : option UtcTimestamp;
  nc_idempotency_key : string;
  nc_contract_version : Z;
  nc_payload : CommandPayload
}.
Definition set_contract_version (v : Z) (c : MediaNodeCommand) : MediaNodeCommand :=
  mkNodeCommand (nc_request_id c) (nc_tenant_id c) (nc_media_session_id c) (nc_media_binding_id c) (nc_media_node_id c)
    (nc_media_node_instance_epoch c) (nc_operation_id c) (nc_owner_epoch c) (nc_source_node_id c) (nc_deadline c)
    (nc_idempotency_key c) v (nc_payload c).

(** [MediaClient::execute], the RPC to the control endpoint of a node. *)
Class MediaClient := client_execute : string -> MediaNodeCommand -> W -> result MediaNodeCommandResult DomainError * W.
Context `{MediaClient} `{Clock W}.

Definition port_execute (c : MediaNodeCommand) (r : R) (w : W) : R * W * result MediaNodeCommandResult DomainError :=
  let '(r, w, found) := call_get (nc_media_node_id c) r w in
  match found with
  | None => (r, w, Err (not_found "media_node" (uuid_to_string (nc_media_node_id c))))
  | Some node =>
      if negb (mn_instance_epoch node =? nc_media_node_instance_epoch c)
      then (r, w, Err (unavailable "media node instance epoch mismatch"))
      else if nc_owner_epoch c =? 0 then (r, w, Err (invalid_argument "owner_epoch is required"))
      else
        let '(elapsed, w) := match nc_deadline c with
                             | Some d => let '(now, w) := now_wall w in (d <=? now, w)
                             | None => (false, w)
                             end in
        if elapsed then (r, w, Err (unavailable "command deadline elapsed"))
        else
          let c := if nc_contract_version c =? 0 then set_contract_version (mn_contract_version node) c else c in
          let '(result, w) := client_execute (mn_control_endpoint node) c w in
          (r, w, result)
  end.

Definition port_list_nodes (r : R) (w : W) : R * W * result (list MediaNode) DomainError :=
  let '(r, w, nodes) := call_list_active r w in (r, w, Ok nodes).
Definition port_get_node (node : Uuid) (r : R) (w : W) : R * W * result (option MediaNode) DomainError :=
  let '(r, w, found) := call_get node r w in (r, w, Ok found).
Definition port_drain_node (node : Uuid) (r : R) (w : W) : R * W * result unit DomainError :=
  let '(r, w, result) := call_drain node true r w in
  (r, w, match result with Ok _ => Ok tt | Err e => Err (map_scheduler_error e) end).
End scheduler.

(** ** The in-memory registry as a registry *)

(** What other callers of the registry do before a call. *)
Class RegistryOthers (W : Type) := registry_others : Registry -> W -> Registry * W.

#[global] Instance in_memory_registry {W} `{Clock W, RegistryOthers W, DateRange, UuidDisplay} (config : MediaRegistryConfig) :
    MediaNodeRegistry Registry W := {|
  call_list_active r w :=
    let '(r, w) := registry_others r w in let '(now, w) := now_wall w in (r, w, reg_list_active config now r);
  call_get node r w :=
    let '(r, w) := registry_others r w in let '(now, w) := now_wall w in (r, w, reg_get config node now r);
  call_reserve node tenant binding r w :=
    let '(r, w) := registry_others r w in let '(now, w) := now_wall w in
    let '(r, result) := reg_reserve config node tenant binding now r in (r, w, result);
  call_release node tenant binding r w :=
    let '(r, w) := registry_others r w in let '(now, w) := now_wall w in
    let '(r, result) := reg_release config node tenant binding now r in (r, w, result);
  call_drain node drain r w :=
    let '(r, w) := registry_others r w in let '(now, w) := now_wall w in
    let '(r, result) := reg_drain config node drain now r in (r, w, result)
|}.
