(* ===== verification/MediaSchedulerProps.v ===== *)
(** * Theorems on media scheduling

    The choice of a node is the best eligible one; a reservation is sound and
    leaves nothing behind when it fails; the books of the scheduler balance. *)

From S2P Require Import Prelude RustStr Domain Cluster NodeLease UnitOfWork MediaNode MediaRegistry MediaScheduler.

Open Scope string_scope.
Open Scope list_scope.
Open Scope Z_scope.

(** ** The order of finite scores

    [SFcompare] compares sign, exponent and mantissa: on finite numbers it is the
    lexicographic order of this key. *)

Definition f64_key (x : spec_float) : Z * Z * Z :=
  match x with
  | S754_finite false m e => (1, e, Zpos m)
  | S754_finite true m e => (-1, - e, Zneg m)
  | _ => (0, 0, 0)
  end.
Definition lex_lt (a b : Z * Z * Z) : Prop :=
  a.1.1 < b.1.1 \/ (a.1.1 = b.1.1 /\ (a.1.2 < b.1.2 \/ (a.1.2 = b.1.2 /\ a.2 < b.2))).

Lemma lower_key a b :
  f64_is_finite a = true -> f64_is_finite b = true -> lower a b = true <-> lex_lt (f64_key a) (f64_key b).
Proof.
  unfold lower, lex_lt. destruct a as [sa|sa| |[] ma ea], b as [sb|sb| |[] mb eb]; try done; intros _ _; simpl.
  all: try (split; [done|lia]); try (split; [lia|done]).
  - destruct (Z.compare_spec ea eb) as [->|?|?]; [|split; [done|lia]|split; [lia|done]].
    change (Pos.compare_cont Eq ma mb) with (ma ?= mb)%positive. destruct (Pos.compare_spec ma mb); simpl; split; try done; lia.
  - destruct (Z.compare_spec ea eb) as [->|?|?]; [|split; [lia|done]|split; [done|lia]].
    change (Pos.compare_cont Eq ma mb) with (ma ?= mb)%positive. destruct (Pos.compare_spec ma mb); simpl; split; try done; lia.
Qed.

(** Scores that can be compared, and "not above". *)
Definition finite_scores (l : list (MediaNode * spec_float)) : Prop := Forall (fun x => f64_is_finite x.2 = true) l.

Lemma lower_trans a b c :
  f64_is_finite a = true -> f64_is_finite b = true -> f64_is_finite c = true ->
  lower a b = true -> lower b c = true -> lower a c = true.
Proof. intros Ha Hb Hc. rewrite !lower_key by done. unfold lex_lt. lia. Qed.
Lemma not_above_lower a b c :
  f64_is_finite a = true -> f64_is_finite b = true -> f64_is_finite c = true ->
  lower b a = false -> lower b c = true -> lower a c = true.
Proof.
  intros Ha Hb Hc Hba. assert (~ lex_lt (f64_key b) (f64_key a)) as Hn.
  { rewrite <-lower_key by done. by rewrite Hba. }
  rewrite !lower_key by done. unfold lex_lt in *. lia.
Qed.

(** ** The head of the sorted list *)

Lemma head_insert x l :
  head (insert_scored x l) = Some (match l with y :: _ => if lower y.2 x.2 then x else y | [] => x end).
Proof. destruct l as [|y l]; simpl; [done|]. by destruct (lower y.2 x.2). Qed.

(** The first of the best elements. *)
Definition first_best (l : list (MediaNode * spec_float)) (x : MediaNode * spec_float) : Prop :=
  exists l1 l2, l = l1 ++ x :: l2
    /\ Forall (fun y => lower y.2 x.2 = true) l1 /\ Forall (fun y => lower x.2 y.2 = false) l2.

Lemma sort_scored_snoc l x : sort_scored (l ++ [x]) = insert_scored x (sort_scored l).
Proof. unfold sort_scored. by rewrite foldl_app. Qed.

Lemma sort_scored_best l :
  finite_scores l ->
  match head (sort_scored l) with Some x => first_best l x | None => l = [] end.
Proof.
  induction l as [|x l IH] using rev_ind; intros Hf; [done|].
  apply Forall_app in Hf as [Hf [Hx _]%Forall_cons]. specialize (IH Hf).
  rewrite sort_scored_snoc, head_insert. destruct (sort_scored l) as [|y rest]; simpl in IH.
  { subst l. exists [], []. done. }
  destruct IH as (l1 & l2 & -> & H1 & H2).
  apply Forall_app in Hf as [Hf1 Hf2]. apply Forall_cons in Hf2 as [Hy Hf2]. destruct (lower y.2 x.2) eqn:Hyx.
  - exists (l1 ++ y :: l2), []. split_and!; [done| |done]. apply Forall_app. split.
    + rewrite Forall_forall in *. intros z Hz. apply (lower_trans z.2 y.2 x.2); try done; [by apply Hf1|by apply H1].
    + constructor; [done|]. rewrite Forall_forall in *. intros z Hz. apply (not_above_lower z.2 y.2 x.2); try done; [by apply Hf2|by apply H2].
  - exists l1, (l2 ++ [x]). split_and!; [by rewrite <-app_assoc|done|]. apply Forall_app. split; [done|]. by constructor.
Qed.

(** ** The choice *)

Section choice.
Context `{PairHash, UuidDisplay} (config : SchedulerConfig).

(** The version check repeats a part of the capability check. *)
Lemma matches_version rq n : matches_capability rq n = true -> version_compatible rq n = true.
Proof.
  unfold matches_capability, version_compatible. intros (c & Hc & Hm)%existsb_exists.
  destruct (Z.eqb_spec (rq_contract_version rq) 0) as [|Hv]; [done|].
  unfold capability_matches in Hm. rewrite !andb_true_iff in Hm. destruct Hm as [[[[Ho Hver] _] _] _].
  assert (In c (List.filter (offers rq) (mn_capabilities n))) as Hin by (by apply filter_In).
  destruct (List.filter (offers rq) (mn_capabilities n)) as [|c0 cs] eqn:Hl; [done|].
  apply existsb_exists. exists c. split; [done|]. apply orb_true_iff in Hver as [Hz|?]; [|done]. by apply Z.eqb_eq in Hz.
Qed.

Lemma judge_ok rq excluded n score :
  judge config rq excluded n = Ok score <->
  (mn_node_id n ∉ excluded) /\ is_node_eligible rq n = true
  /\ score = score_node config rq n /\ f64_is_finite score = true.
Proof.
  unfold judge, is_node_eligible. destruct (bool_decide (mn_node_id n ∈ excluded)) eqn:He.
  { apply bool_decide_eq_true in He. split; [done|]. by intros [? _]. }
  apply bool_decide_eq_false in He.
  destruct (bool_decide (mn_status n = NodeActive)); simpl; [|split; [done|naive_solver]].
  destruct (mn_draining n); simpl; [split; [done|naive_solver]|].
  destruct (bool_decide (mn_health n = Unhealthy)); simpl; [split; [done|naive_solver]|].
  destruct (matches_capability rq n) eqn:Hm; simpl.
  2: { destruct (version_compatible rq n); simpl; split; try done; naive_solver. }
  rewrite (matches_version rq n Hm). simpl.
  destruct (zone_matches rq n); simpl; [|split; [done|naive_solver]].
  destruct (network_zone_matches rq n); simpl; [|split; [done|naive_solver]].
  destruct (node_has_capacity n); simpl; [|split; [done|naive_solver]].
  destruct (f64_is_finite (score_node config rq n)) eqn:Hf; split; try done.
  - by intros [= <-].
  - by intros (_ & _ & -> & _).
  - intros (_ & _ & -> & ?). congruence.
Qed.

Lemma elem_of_scored rq excluded nodes n score :
  (n, score) ∈ scored_nodes config rq excluded nodes <->
  n ∈ nodes /\ judge config rq excluded n = Ok score.
Proof.
  unfold scored_nodes. rewrite list_elem_of_omap. split.
  - intros (m & Hm & Hj). destruct (judge config rq excluded m) eqn:He; [|done]. by injection Hj as -> ->.
  - intros [Hn Hj]. exists n. by rewrite Hj.
Qed.

Lemma scored_finite rq excluded nodes : finite_scores (scored_nodes config rq excluded nodes).
Proof.
  apply Forall_forall. intros [n score] Hin. apply elem_of_scored in Hin as [_ Hj]. by apply judge_ok in Hj as (_ & _ & _ & ?).
Qed.

Lemma affinity_eligible s tenant rq excluded nodes n :
  affinity_node s tenant rq excluded nodes = Some n ->
  n ∈ nodes /\ is_node_eligible rq n = true /\ (mn_node_id n ∉ excluded)
  /\ exists session, rq_media_session_id rq = Some session /\ ss_affinity s !! (tenant, session) = Some (mn_node_id n).
Proof.
  unfold affinity_node. destruct (rq_media_session_id rq) as [session|]; [|done].
  destruct (ss_affinity s !! (tenant, session)) as [id|] eqn:Ha; [|done].
  destruct (bool_decide (id ∈ excluded)) eqn:He; [done|]. apply bool_decide_eq_false in He.
  destruct (List.find _ nodes) as [m|] eqn:Hf; [|done]. destruct (is_node_eligible rq m) eqn:Hel; [|done].
  intros [= <-]. apply find_some in Hf as [Hin Hid]. apply Z.eqb_eq in Hid. subst id.
  split_and!; [by apply list_elem_of_In|done|done|]. by exists session.
Qed.

(** The scheduler chooses the node of the session when that is eligible, and else
    the best eligible one. *)
Definition chosen (s : SchedulerState) (tenant : Uuid) (rq : MediaRequirements) (excluded : list Uuid)
    (nodes : list MediaNode) (n : MediaNode) : Prop :=
  n ∈ nodes /\ (mn_node_id n ∉ excluded) /\ is_node_eligible rq n = true
  /\ (affinity_node s tenant rq excluded nodes = Some n
      \/ (affinity_node s tenant rq excluded nodes = None
          /\ first_best (scored_nodes config rq excluded nodes) (n, score_node config rq n))).

(** The scheduler picks the right node.  When it answers a node, the node is
    registered and active, not excluded, not draining, not unhealthy, has
    capacity and offers protocol, operation, version, constraints, codec and
    zones that are required; it is the node that the session is bound to when that
    one qualifies, and otherwise the first one with the highest score.  It
    answers that there is no node only when none qualifies with a finite score. *)
Theorem schedule_picks_best s tenant rq excluded nodes :
  (0 < sg_max_candidates config)%nat ->
  match choose config s tenant rq excluded nodes with
  | Ok n => chosen s tenant rq excluded nodes n
  | Err e => (exists m, e = SeNoNode m)
      /\ forall n, n ∈ nodes -> mn_node_id n ∉ excluded -> is_node_eligible rq n = true ->
           f64_is_finite (score_node config rq n) = false
  end.
Proof.
  intros Hmax. unfold choose. destruct nodes as [|n0 nodes0]; [by split; [eauto|intros n Hn%elem_of_nil]|].
  set (nodes := n0 :: nodes0). destruct (affinity_node s tenant rq excluded nodes) as [n|] eqn:Ha.
  { destruct (affinity_eligible _ _ _ _ _ _ Ha) as (? & ? & ? & _). split_and!; try done. by left. }
  pose proof (sort_scored_best _ (scored_finite rq excluded nodes)) as Hbest.
  destruct (sort_scored (scored_nodes config rq excluded nodes)) as [|[n score] rest] eqn:Hs; simpl in Hbest.
  - rewrite take_nil. split; [eauto|]. intros n Hn Hex Hel. destruct (f64_is_finite _) eqn:Hf; [|done].
    assert ((n, score_node config rq n) ∈ scored_nodes config rq excluded nodes) as Hin.
    { apply elem_of_scored. split; [done|]. by apply judge_ok. }
    change (scored_nodes config rq excluded nodes = []) in Hbest. rewrite Hbest in Hin. by apply elem_of_nil in Hin.
  - destruct (sg_max_candidates config) as [|k]; [lia|]. simpl.
    assert ((n, score) ∈ scored_nodes config rq excluded nodes) as Hin.
    { destruct Hbest as (l1 & l2 & Hl & _). change (scored_nodes config rq excluded nodes = l1 ++ (n, score) :: l2) in Hl.
      rewrite Hl. set_solver. }
    apply elem_of_scored in Hin as [Hn Hj]. apply judge_ok in Hj as (Hex & Hel & -> & _). split_and!; try done. by right.
Qed.
End choice.

(** ** The books of the scheduler *)

(** The bindings of a tenant that belong to a session. *)
Definition session_bindings (tenant : Uuid) (session : string) (m : gmap (Uuid * Uuid) string) : gmap (Uuid * Uuid) string :=
  filter (fun kv => kv.1.1 = tenant /\ kv.2 = session) m.

(** The count of an affinity is the number of bindings of the session that hold a
    reservation, and an affinity exists exactly as long as there is one. *)
Record books (config : SchedulerConfig) (s : SchedulerState) : Prop := mkBooks {
  books_count tenant session :
    ss_affinity_count s !! (tenant, session) =
    (let n := size (session_bindings tenant session (ss_binding_session s)) in
     if decide (n = 0%nat) then None else Some (Z.of_nat n));
  books_affinity : dom (ss_affinity s) = dom (ss_affinity_count s);
  books_bindings : dom (ss_binding_session s) ⊆ dom (ss_reservations s);
  books_bound : Z.of_nat (size (ss_reservations s)) <= Z.max 0 (sg_max_reservations config)
}.

Lemma size_delete_le `{Countable K} {A} (k : K) (m : gmap K A) : (size (delete k m) <= size m)%nat.
Proof. rewrite map_size_delete. destruct (m !! k); [apply Nat.le_pred_l|done]. Qed.
Lemma session_bindings_insert tenant session t b ses m :
  m !! (t, b) = None ->
  size (session_bindings tenant session (<[(t, b) := ses]> m)) =
  (size (session_bindings tenant session m) + if decide (t = tenant /\ ses = session) then 1 else 0)%nat.
Proof.
  intros Hn. unfold session_bindings. rewrite map_filter_insert. simpl. case_decide as Hc.
  - rewrite map_size_insert_None; [lia|]. apply map_lookup_filter_None. by left.
  - rewrite delete_id by done. lia.
Qed.
Lemma session_bindings_delete tenant session t b ses m :
  m !! (t, b) = Some ses ->
  size (session_bindings tenant session (delete (t, b) m)) =
  (size (session_bindings tenant session m) - if decide (t = tenant /\ ses = session) then 1 else 0)%nat.
Proof.
  intros Hs. unfold session_bindings. rewrite map_filter_delete. case_decide as Hc.
  - assert (is_Some (filter (fun kv : Uuid * Uuid * string => kv.1.1 = tenant /\ kv.2 = session) m !! (t, b))) as Hm.
    { exists ses. by apply map_lookup_filter_Some. }
    destruct Hm as [x Hm]. rewrite map_size_delete, Hm. lia.
  - rewrite delete_id; [lia|]. apply map_lookup_filter_None. right. intros x Hx. simpl. by simplify_eq.
Qed.
Lemma session_bindings_pos tenant session b m :
  m !! (tenant, b) = Some session -> (0 < size (session_bindings tenant session m))%nat.
Proof.
  intros Hs. destruct (size _) eqn:Hz; [|lia]. apply map_size_empty_inv in Hz.
  assert (session_bindings tenant session m !! (tenant, b) = Some session) as Hl by (by apply map_lookup_filter_Some).
  by rewrite Hz in Hl.
Qed.

(** A binding that holds nothing. *)
Definition fresh_binding (tenant binding : Uuid) (s : SchedulerState) : Prop :=
  ss_reservations s !! (tenant, binding) = None.

Section books.
Context (config : SchedulerConfig).

Lemma fresh_session tenant binding s :
  books config s -> fresh_binding tenant binding s -> ss_binding_session s !! (tenant, binding) = None.
Proof.
  unfold fresh_binding. intros Hb Hf. destruct (ss_binding_session s !! _) as [x|] eqn:Hx; [|done].
  assert ((tenant, binding) ∈ dom (ss_reservations s)) as Hd.
  { apply (books_bindings _ _ Hb). by apply elem_of_dom. }
  by apply elem_of_dom in Hd as [? Hd]; rewrite Hd in Hf.
Qed.

(** Recording a reservation and dropping the record of one. *)
Lemma insert_books node tenant binding session s :
  books config s -> fresh_binding tenant binding s ->
  Z.of_nat (size (ss_reservations s)) < sg_max_reservations config ->
  books config (insert_reservation node tenant binding session s).
Proof.
  intros Hb Hf Hmax. pose proof (fresh_session _ _ _ Hb Hf) as Hn.
  assert (Hsz : Z.of_nat (size (<[(tenant, binding) := node]> (ss_reservations s))) <= Z.max 0 (sg_max_reservations config)).
  { rewrite map_size_insert_None by done. lia. }
  destruct session as [session|]; simpl; constructor; simpl; try done; try apply Hb.
  - intros t ses. rewrite session_bindings_insert by done. pose proof (books_count _ _ Hb t ses) as Hc. simpl in Hc.
    destruct (decide (tenant = t /\ session = ses)) as [[-> ->]|Hne].
    + rewrite lookup_insert_eq, Hc. repeat case_decide; simpl; f_equal; lia.
    + rewrite lookup_insert_ne, Hc by naive_solver. repeat case_decide; simpl; f_equal; lia.
  - rewrite !dom_insert_L. f_equal. apply Hb.
  - rewrite !dom_insert_L. pose proof (books_bindings _ _ Hb). set_solver.
  - rewrite dom_insert_L. pose proof (books_bindings _ _ Hb). set_solver.
Qed.

(** States that differ in the nodes of the affinities only. *)
Definition same_books (s s' : SchedulerState) : Prop :=
  ss_reservations s' = ss_reservations s /\ ss_affinity_count s' = ss_affinity_count s
  /\ ss_binding_session s' = ss_binding_session s /\ dom (ss_affinity s') = dom (ss_affinity s).
#[global] Instance same_books_preorder : PreOrder same_books.
Proof. split; [done|]. intros s1 s2 s3 (? & ? & ? & ?) (? & ? & ? & ?). unfold same_books. split_and!; congruence. Qed.

Lemma same_books_ok s s' : same_books s s' -> books config s -> books config s'.
Proof. intros (Hr & Hc & Hb & Ha) [? ? ? ?]. constructor; rewrite ?Hr, ?Hc, ?Hb, ?Ha; done. Qed.

(** A reservation that the node refuses is taken back. *)
Lemma undo_insert node tenant binding session s :
  books config s -> fresh_binding tenant binding s ->
  same_books s (remove_local_reservation tenant binding session (insert_reservation node tenant binding session s)).
Proof.
  intros Hb Hf. pose proof (fresh_session _ _ _ Hb Hf) as Hn. unfold fresh_binding in Hf.
  pose proof (books_affinity _ _ Hb) as Hdom. unfold remove_local_reservation, insert_reservation.
  destruct session as [session|]; unfold same_books; simpl.
  2: { by rewrite delete_insert_id. }
  unfold drop_affinity. simpl. rewrite lookup_insert_eq. pose proof (books_count _ _ Hb tenant session) as Hc. simpl in Hc.
  rewrite Hc. case_decide; simpl; rewrite ?delete_insert_id by done.
  - assert (ss_affinity s !! (tenant, session) = None) as Ha.
    { apply not_elem_of_dom. rewrite Hdom. by apply not_elem_of_dom. }
    by rewrite !delete_insert_id.
  - unfold sat_sub. destruct (Z.eqb_spec (Z.max 0 (Z.of_nat (size (session_bindings tenant session (ss_binding_session s))) + 1 - 1)) 0) as [|_]; [lia|].
    simpl. rewrite !delete_insert_id by done. rewrite insert_insert_eq. split_and!; [done| |done|].
    + rewrite insert_id; [done|]. rewrite Hc. f_equal. lia.
    + rewrite dom_insert_L, Hdom. apply subseteq_union_1_L. apply singleton_subseteq_l, elem_of_dom. by rewrite Hc.
Qed.

(** What [release] does to the records. *)
Definition dropped (tenant binding : Uuid) (s : SchedulerState) : SchedulerState :=
  let s' := without_session (tenant, binding) s in
  without_reservation (tenant, binding)
    match ss_binding_session s !! (tenant, binding) with Some session => drop_affinity (tenant, session) s' | None => s' end.

Lemma dropped_books tenant binding s : books config s -> books config (dropped tenant binding s).
Proof.
  intros Hb. unfold dropped. pose proof (books_bound _ _ Hb). pose proof (books_bindings _ _ Hb) as Hd.
  pose proof (size_delete_le (tenant, binding) (ss_reservations s)) as Hsz.
  destruct (ss_binding_session s !! (tenant, binding)) as [session|] eqn:Hs.
  2: { constructor; simpl; rewrite ?(delete_id (ss_binding_session s)) by done; try apply Hb; [|lia].
       rewrite dom_delete_L. apply not_elem_of_dom in Hs. set_solver. }
  pose proof (session_bindings_pos _ _ _ _ Hs) as Hpos. pose proof (books_count _ _ Hb) as Hc. simpl in Hc.
  unfold drop_affinity. simpl. rewrite Hc. rewrite decide_False by lia.
  unfold sat_sub. case_match eqn:Hz; constructor; simpl; try (rewrite ?dom_delete_L; set_solver); try lia.
  - intros t ses. rewrite (session_bindings_delete _ _ _ _ session) by done. destruct (decide (tenant = t /\ session = ses)) as [Hts|Hts].
    + destruct Hts as [-> ->]. rewrite lookup_delete_eq. case_decide; [done|lia].
    + rewrite lookup_delete_ne by naive_solver. by rewrite Hc, Nat.sub_0_r.
  - rewrite !dom_delete_L. f_equal. apply Hb.
  - intros t ses. rewrite (session_bindings_delete _ _ _ _ session) by done. destruct (decide (tenant = t /\ session = ses)) as [Hts|Hts].
    + destruct Hts as [-> ->]. rewrite lookup_insert_eq. case_decide; [lia|f_equal; lia].
    + rewrite lookup_insert_ne by naive_solver. by rewrite Hc, Nat.sub_0_r.
  - rewrite dom_insert_L, (books_affinity _ _ Hb). symmetry. apply subseteq_union_1_L, singleton_subseteq_l, elem_of_dom.
    rewrite Hc, decide_False by lia. done.
Qed.
End books.

(** ** Reservations over the in-memory registry *)

(** A node of the registry holds capacity for the binding. *)
Definition holds (key : Uuid * Uuid) (node : Uuid) (r : Registry) : Prop :=
  exists e, r !! node = Some e /\ is_Some (ne_reserved e !! key).

(** Other callers may do anything except to reserve for a binding that is not theirs. *)
Class OthersRely (W : Type) `{RegistryOthers W} (key : Uuid * Uuid) : Prop :=
  others_rely : forall r w node, holds key node (registry_others r w).1 -> holds key node r.

Section port.
Context {W : Type} `{Clock W, RegistryOthers W, DateRange, UuidDisplay, PairHash} (rcfg : MediaRegistryConfig) (config : SchedulerConfig).
#[local] Existing Instance in_memory_registry.
#[local] Instance registry_calls : MediaNodeRegistry Registry W := in_memory_registry rcfg.

(** What a granted reservation guarantees at the time [now] of the grant. *)
Record granted (key : Uuid * Uuid) (node : Uuid) (now : UtcTimestamp) (r : Registry) : Prop := mkGranted {
  granted_entry : exists e, r !! node = Some e
    /\ ne_reserved e !! key = ts_checked_add now (ttl_i64 (rg_reservation_ttl_ms rcfg))
    /\ is_Some (ne_reserved e !! key)
    /\ is_active rcfg e now = true /\ mn_draining (ne_node e) = false
    /\ mn_status (ne_node e) <> NodeDraining /\ mn_status (ne_node e) <> NodeLeft
    /\ sat_add64 (ne_reported_session_count e) (Z.of_nat (size (delete key (ne_reserved e)))) < session_capacity (ne_node e)
}.

Lemma to_media_node_status e now : mn_status (to_media_node rcfg e now) = mn_status (ne_node e).
Proof. unfold to_media_node, recalc_health. by destruct (is_stale rcfg e now), (ne_node e). Qed.
Lemma to_media_node_draining e now : mn_draining (to_media_node rcfg e now) = mn_draining (ne_node e).
Proof. unfold to_media_node, recalc_health. by destruct (is_stale rcfg e now), (ne_node e). Qed.
Lemma sat_add64_le_r a b c : b <= c -> sat_add64 a b <= sat_add64 a c.
Proof. unfold sat_add64. lia. Qed.

Lemma reg_reserve_spec node tenant binding now r :
  let key := (tenant, binding) in
  let res := reg_reserve rcfg node tenant binding now r in
  (forall n, n <> node -> res.1 !! n = r !! n)
  /\ match res.2 with
     | Ok _ => granted key node now res.1
     | Err _ => forall n, holds key n res.1 -> holds key n r
     end.
Proof.
  intros key res. subst res. unfold reg_reserve. destruct (r !! node) as [e|] eqn:He; [|by split; simpl].
  rewrite !(to_media_node_status e now), !(to_media_node_draining e now).
  case_bool_decide as Hleft; [by split; simpl|]. destruct (is_active rcfg e now) eqn:Hact; [|by split; simpl].
  case_bool_decide as Hdr; [by split; simpl|]. destruct (mn_draining (ne_node e)) eqn:Hdf; [by split; simpl|].
  case_bool_decide as Hh; [by split; simpl|]. simpl.
  destruct (ts_checked_add now _) as [deadline|] eqn:Hd; [|by split; simpl].
  unfold Registry in *. destruct (session_capacity _ <=? _) eqn:Hcap; cbn [fst snd]; (split; [intros n Hn; by rewrite lookup_insert_ne|]).
  - intros n (e' & He' & Hk). unfold Registry in *. destruct (decide (n = node)) as [->|Hne].
    + rewrite lookup_insert_eq in He'. injection He' as <-. exists e. split; [done|]. simpl in Hk.
      destruct Hk as [x Hk]. apply map_lookup_filter_Some in Hk as [Hk _]. by exists x.
    + rewrite lookup_insert_ne in He' by done. by exists e'.
  - constructor. eexists. split; [apply lookup_insert_eq|]. simpl.
    rewrite lookup_insert_eq. split_and!; try done. apply Z.leb_gt in Hcap.
    rewrite delete_insert_eq. eapply Z.le_lt_trans; [|exact Hcap]. apply sat_add64_le_r.
    apply Nat2Z.inj_le, size_delete_le.
Qed.

(** The binding is held nowhere, neither in the registry nor in the books. *)
Definition unheld (key : Uuid * Uuid) (r : Registry) : Prop := forall node, ~ holds key node r.

(** What the port promises for a binding that holds nothing. *)
Definition reserve_outcome (tenant binding : Uuid) (s s' : SchedulerState) (r' : Registry)
    (result : result MediaReservation DomainError) : Prop :=
  let key := (tenant, binding) in
  match result with
  | Ok res =>
      ss_reservations s' = <[key := mr_media_node_id res]> (ss_reservations s)
      /\ (forall node, holds key node r' -> node = mr_media_node_id res)
      /\ exists now, granted key (mr_media_node_id res) now r'
  | Err _ => same_books s s' /\ unheld key r'
  end.

Lemma reserve_outcome_trans tenant binding s1 s2 s3 r result :
  same_books s1 s2 -> reserve_outcome tenant binding s2 s3 r result -> reserve_outcome tenant binding s1 s3 r result.
Proof.
  intros H12. destruct result; simpl.
  - destruct H12 as (<- & _). done.
  - intros [H23 ?]. split; [by etrans|done].
Qed.

Lemma insert_reservations node tenant binding session s :
  ss_reservations (insert_reservation node tenant binding session s) = <[(tenant, binding) := node]> (ss_reservations s).
Proof. by destruct session. Qed.

Section rely.
Context (tenant binding : Uuid) `{!OthersRely W (tenant, binding)}.

Lemma others_unheld r w : unheld (tenant, binding) r -> unheld (tenant, binding) (registry_others r w).1.
Proof. intros Hu node Hh%others_rely. by apply (Hu node). Qed.

(** One attempt. *)
Lemma reserve_spec node rq s r w :
  books config s -> fresh_binding tenant binding s -> unheld (tenant, binding) r ->
  let '(s', r', _, result) := reserve config node tenant binding rq s r w in
  books config s'
  /\ match result with
     | Ok _ => reserve_outcome tenant binding s s' r' (Ok (mkReservation node 0 0))
     | Err _ => same_books s s' /\ unheld (tenant, binding) r'
     end.
Proof.
  intros Hb Hf Hu. unfold reserve. destruct (_ <=? _) eqn:Hmax; [done|]. apply Z.leb_gt in Hmax. simpl.
  pose proof (others_unheld r w Hu) as Hu1. destruct (registry_others r w) as [r1 w1]. simpl in Hu1.
  destruct (now_wall w1) as [now w2]. pose proof (reg_reserve_spec node tenant binding now r1) as [Hne Hspec].
  destruct (reg_reserve rcfg node tenant binding now r1) as [r2 result]. simpl in *. destruct result as [n|err].
  - split; [by apply insert_books|]. split_and!; [apply insert_reservations| |by eexists].
    intros m Hm. destruct (decide (m = node)) as [|Hmn]; [done|]. exfalso. apply (Hu1 m).
    destruct Hm as (e & He & Hk). exists e. by rewrite <-Hne.
  - pose proof (undo_insert config node tenant binding (rq_media_session_id rq) s Hb Hf) as Hsame.
    split; [by eapply same_books_ok|]. split; [done|]. intros m Hm. by apply (Hu1 m), Hspec.
Qed.

Lemma same_fresh s s' : same_books s s' -> fresh_binding tenant binding s -> fresh_binding tenant binding s'.
Proof. unfold fresh_binding. by intros (-> & _). Qed.

Lemma reserve_attempts_spec attempts rq excluded s r w :
  books config s -> fresh_binding tenant binding s -> unheld (tenant, binding) r ->
  let '(s', r', _, result) := reserve_attempts config attempts tenant binding rq excluded s r w in
  books config s' /\ reserve_outcome tenant binding s s' r' result.
Proof.
  revert excluded s r w. induction attempts as [|attempts IH]; intros excluded s r w Hb Hf Hu; [done|]. simpl.
  unfold schedule. simpl. pose proof (others_unheld r w Hu) as Hu1.
  destruct (registry_others r w) as [r1 w1]. destruct (now_wall w1) as [now w2]. simpl in Hu1.
  destruct (choose _ _ _ _ _ _) as [node|err]; [|done].
  pose proof (reserve_spec (mn_node_id node) rq s r1 w2 Hb Hf Hu1) as Hspec.
  destruct (reserve _ _ _ _ _ s r1 w2) as [[[s3 r3] w3] [m|err]]; destruct Hspec as [Hb3 Hout]; [done|].
  destruct Hout as [Hsame Hu3]. destruct (try_next err); [|done].
  specialize (IH (excluded ++ [mn_node_id node]) s3 r3 w3 Hb3 (same_fresh _ _ Hsame Hf) Hu3).
  destruct (reserve_attempts _ _ _ _ _ _ s3 r3 w3) as [[[s4 r4] w4] result]. destruct IH as [? ?].
  split; [done|]. by eapply reserve_outcome_trans.
Qed.
End rely.

(** C29: Reserving media is all or nothing for a binding that holds nothing yet, in the
    books and in the registry, while other callers, who may change the registry before
    each call, do not reserve for that binding: a granted reservation is in the books
    and on exactly one node, which at the time of the grant was active, neither draining
    nor gone, and had a free session within its capacity; when it fails, for whatever
    reason, the binding is held on no node and reservations, counts and the sessions of
    bindings are as before. The affinity of a session may point to another node after a
    refusal (see the findings, also on a second reservation for a binding). *)
Theorem reserve_all_or_nothing tenant binding rq s r w `{!OthersRely W (tenant, binding)} :
  books config s -> fresh_binding tenant binding s -> unheld (tenant, binding) r ->
  let '(s', r', _, result) := port_reserve config tenant binding rq s r w in
  books config s' /\ reserve_outcome tenant binding s s' r' result.
Proof. apply reserve_attempts_spec. done. Qed.

Lemma reg_release_unheld node tenant binding now r :
  let res := reg_release rcfg node tenant binding now r in
  ~ holds (tenant, binding) node res.1 /\ forall n, holds (tenant, binding) n res.1 -> holds (tenant, binding) n r.
Proof.
  unfold reg_release. destruct (r !! node) as [e|] eqn:He; simpl.
  2: { split; [|done]. by intros (e & He' & _); rewrite He in He'. }
  unfold Registry in *. assert (~ holds (tenant, binding) node
    (<[node := set_reserved e (live_reserved now (delete (tenant, binding) (ne_reserved e)))]> r)) as Hnone.
  { intros (e' & He' & [x Hx]). unfold Registry in *. rewrite lookup_insert_eq in He'. injection He' as <-. simpl in Hx.
    apply map_lookup_filter_Some in Hx as [Hx _]. by rewrite lookup_delete_eq in Hx. }
  split; [exact Hnone|]. intros n Hn. destruct (decide (n = node)) as [->|Hne]; [done|].
  destruct Hn as (e' & He' & Hk). unfold Registry in *. rewrite lookup_insert_ne in He' by done. by exists e'.
Qed.

(** Releasing media gives back what was reserved and keeps the books
    balanced.  Whatever the registry answers, the binding has no reservation and no
    session in the books afterwards and every other binding keeps its own; the
    node that was recorded holds nothing for the binding, so that a binding held
    on its recorded node alone is held nowhere.  Releasing a binding that holds
    nothing succeeds and does not touch the registry. *)
Theorem release_gives_back tenant binding s r w `{!OthersRely W (tenant, binding)} :
  books config s ->
  let key := (tenant, binding) in
  let '(s', r', w', result) := port_release tenant binding s r w in
  books config s'
  /\ ss_reservations s' = delete key (ss_reservations s) /\ ss_binding_session s' = delete key (ss_binding_session s)
  /\ match ss_reservations s !! key with
     | Some node => (forall n, holds key n r -> n = node) -> unheld key r'
     | None => r' = r /\ w' = w /\ result = Ok tt
     end.
Proof.
  intros Hb key. pose proof (dropped_books config tenant binding s Hb) as Hd.
  assert (ss_reservations (dropped tenant binding s) = delete key (ss_reservations s)
          /\ ss_binding_session (dropped tenant binding s) = delete key (ss_binding_session s)) as [Hr Hs].
  { unfold dropped, drop_affinity. repeat case_match; done. }
  assert (forall st : SchedulerState, st = match ss_binding_session s !! key with
      | Some session => drop_affinity (tenant, session) (without_session key s) | None => without_session key s end ->
      ss_reservations st !! key = ss_reservations s !! key) as Hlook.
  { intros st ->. unfold drop_affinity. repeat case_match; done. }
  unfold port_release, release. fold key. rewrite (Hlook _ eq_refl).
  destruct (ss_reservations s !! key) as [node|] eqn:Hn; simpl; [|done].
  pose proof (fun n => others_rely (key := key) r w n) as Hrely.
  destruct (registry_others r w) as [r1 w1]. destruct (now_wall w1) as [now w2]. simpl in Hrely.
  pose proof (reg_release_unheld node tenant binding now r1) as [Hnone Hmono].
  destruct (reg_release rcfg node tenant binding now r1) as [r2 result]. simpl in *.
  split_and!; [done..|]. intros Hex n Hh. assert (n = node) as -> by (by apply Hex, Hrely, Hmono). by apply Hnone.
Qed.
End port.

(** ** Samples *)

Module MediaSample.
#[local] Existing Instance default_date_range.
#[local] Instance display : UuidDisplay := show_uint.
#[local] Instance hash : PairHash := fun a b => Z.of_nat (String.length a + 3 * String.length b).
#[local] Instance alone : RegistryOthers InMemoryWorld := fun r w => (r, w).
#[local] Instance alone_rely key : OthersRely InMemoryWorld key.
Proof. by intros r w node. Qed.

Definition config : SchedulerConfig :=
  mkSchedulerConfig F64.one F64.one F64.one F64.one F64.zero F64.one 3 16 2.
Definition capability : MediaCapability := mkCapability "gb28181" ["live"] ∅ 1 "active".
Definition node (id sessions : Z) : MediaNode :=
  mkMediaNode id "i" 1 "z" "r" [] ∅ "" [] [capability] (mkMediaCapacity 2 100 100) 10 sessions Healthy false NodeActive
    (Some 0) None 1 1 1.
Definition requirements : MediaRequirements :=
  mkRequirements "gb28181" "live" None None [] "" None None ∅ ∅ (Some "s") false 1.

(** Two nodes; the second has more room. *)
Definition nodes : list MediaNode := [node 1 1; node 2 0].
Lemma schedule_picks_best_witness :
  (0 < sg_max_candidates config)%nat /\ chosen config scheduler_new 9 requirements [] nodes (node 2 0).
Proof.
  split; [simpl; lia|]. assert (0 < sg_max_candidates config)%nat as Hc by (simpl; lia).
  pose proof (schedule_picks_best config scheduler_new 9 requirements [] nodes Hc) as Hbest.
  replace (choose config scheduler_new 9 requirements [] nodes) with (Ok (E := SchedulerError) (node 2 0)) in Hbest
    by (vm_compute; reflexivity).
  exact Hbest.
Defined.

Definition registry : Registry :=
  (reg_register registry_production (node 2 0) 30000 0 0 (reg_register registry_production (node 1 0) 30000 0 0 ∅).1).1.
Definition world : InMemoryWorld := Build_InMemoryWorld 1 42.

Lemma new_books : books config scheduler_new.
Proof. constructor; [intros; by vm_compute|done|done|by vm_compute]. Qed.
Lemma registry_unheld : unheld (9, 5) registry.
Proof.
  intros n (e & He & [x Hx]). unfold registry, reg_register in He. simpl in He. unfold Registry in *.
  destruct (decide (n = 2)) as [->|]; [|destruct (decide (n = 1)) as [->|]].
  all: rewrite ?lookup_insert_eq, ?lookup_insert_ne, ?lookup_insert_eq in He by done; try discriminate.
  all: injection He as <-; by vm_compute in Hx.
Qed.

#[local] Instance calls : MediaNodeRegistry Registry InMemoryWorld := in_memory_registry registry_production.
Definition reserved := port_reserve config 9 5 requirements scheduler_new registry world.

(** The node 1 is chosen, the first of two equal ones. *)
Lemma reserve_all_or_nothing_witness :
  let '(s', r', _, result) := reserved in
  (result = Ok (mkReservation 1 1 1) /\ holds (9, 5) 1 r')
  /\ books config s' /\ reserve_outcome registry_production 9 5 scheduler_new s' r' result.
Proof.
  pose proof (reserve_all_or_nothing registry_production config 9 5 requirements scheduler_new registry world
                new_books eq_refl registry_unheld) as Hall.
  assert (reserved.2 = Ok (mkReservation 1 1 1)) as Hres by (vm_compute; reflexivity).
  unfold reserved in *. destruct (port_reserve _ _ _ _ _ _ _) as [[[s' r'] w'] result]. simpl in Hres. subst result.
  split; [|exact Hall]. split; [done|]. destruct Hall as (_ & _ & _ & now & [(e & He & _ & Hk & _)]). by exists e.
Defined.

(** The reservation is given back. *)
Lemma release_gives_back_witness :
  let '(s, r, w, _) := reserved in
  let '(s', r', _, _) := port_release 9 5 s r w in
  books config s' /\ ss_reservations s' = ∅ /\ unheld (9, 5) r'.
Proof.
  pose proof (reserve_attempts_spec registry_production config 9 5 3 requirements [] scheduler_new registry world
                new_books eq_refl registry_unheld) as Hres.
  assert (reserved.2 = Ok (mkReservation 1 1 1)) as Hok by (vm_compute; reflexivity).
  unfold reserved, port_reserve in *. simpl Nat.max in *.
  destruct (reserve_attempts _ _ _ _ _ _ _ _ _) as [[[s r] w] result]. simpl in Hok. subst result.
  destruct Hres as (Hb & Hs & Hone & _).
  pose proof (release_gives_back registry_production config 9 5 s r w Hb) as Hrel. simpl in Hrel.
  destruct (port_release 9 5 s r w) as [[[s' r'] w'] result]. destruct Hrel as (Hb' & Hs' & _ & Hn).
  rewrite Hs in Hn, Hs'. rewrite lookup_insert_eq in Hn. split_and!; [done| |by apply Hn].
  rewrite Hs', delete_insert_id by done. done.
Defined.

(** Reserving twice for one binding counts the session twice, and one release does
    not undo it: the affinity stays for ever, and the books do not balance. *)
Lemma second_reservation_leaks :
  let '(s, r, w, _) := reserved in
  let '(s, r, w, _) := port_reserve config 9 5 requirements s r w in
  let '(s, _, _, result) := port_release 9 5 s r w in
  result = Ok tt /\ ss_reservations s = ∅ /\ ss_affinity_count s !! (9, "s") = Some 1 /\ ~ books config s.
Proof.
  assert (let '(s, r, w, _) := reserved in
    let '(s, r, w, _) := port_reserve config 9 5 requirements s r w in
    let '(s, _, _, result) := port_release 9 5 s r w in
    (match result with Ok _ => true | Err _ => false end && bool_decide (ss_reservations s = ∅ /\ ss_binding_session s = ∅
     /\ ss_affinity_count s !! (9, "s") = Some 1)) = true) as Hrun by (vm_compute; reflexivity).
  destruct reserved as [[[s r] w] res0]. destruct (port_reserve _ _ _ _ s r w) as [[[s1 r1] w1] res1].
  destruct (port_release 9 5 s1 r1 w1) as [[[s2 r2] w2] result]. destruct result as [[]|]; [|done].
  apply bool_decide_eq_true in Hrun as (? & Hbs & Hc). split_and!; [done..|]. intros Hb. pose proof (eq_trans (eq_sym Hc) (books_count _ _ Hb 9 "s")) as Hn.
  simpl in Hn. rewrite Hbs in Hn. by vm_compute in Hn.
Qed.

(** After a refused reservation the session is bound to the node that refused:
    the affinity of another binding of the session is lost. *)
Definition bound : SchedulerState := insert_reservation 7 9 4 (Some "s") scheduler_new.
Lemma refusal_moves_affinity :
  let s := remove_local_reservation 9 5 (Some "s") (insert_reservation 8 9 5 (Some "s") bound) in
  ss_affinity bound !! (9, "s") = Some 7 /\ ss_affinity s !! (9, "s") = Some 8.
Proof. by vm_compute. Qed.
End MediaSample.
