(* ===== verification/SessionClaims.v ===== *)
(** * Theorems on sessions

    All services together: whatever calls the sessions make, the outbox tells
    the history of every operation ([outbox_tells_history]).  Then what a
    submission and a dispatch do, what a takeover leaves behind and that the
    reconciler finds everything that is overdue. *)

From S2P Require Import Prelude RustStr Domain DomainData Operation Lifecycle OperationProps Paging Cluster UnitOfWork.
From S2P Require Import OperationService OperationHistory OperationSessions Reconcile ReconcileProps OutboxRelay.

Open Scope string_scope.
Open Scope list_scope.
Open Scope Z_scope.

(** ** Tables that agree on the operations and their events *)

Lemma consistent_same s s1 :
  consistent s -> operations s1 = operations s -> (forall id, op_events s1 id = op_events s id) -> consistent s1.
Proof.
  intros Hc Hops Hev. split.
  - intros id o. rewrite Hops. intros Ho. destruct (cs_row s Hc _ _ Ho) as (? & ? & ? & ?). split_and!; try done.
    eapply told_events; [|done]. by rewrite Hev.
  - intros id. rewrite Hops, Hev. apply (cs_none s Hc).
  - rewrite Hops. apply (cs_unique s Hc).
Qed.

Lemma advances_same s s1 : operations s1 = operations s -> advances s s1.
Proof. intros He id o Ho. exists o. by rewrite He. Qed.

(** Changes of the outbox that leave the events alone. *)
Lemma op_events_alter s s1 (f : OutboxEntry -> OutboxEntry) k :
  outbox_events s1 = alter f k (outbox_events s) -> (forall e, ob_event (f e) = ob_event e) ->
  forall id, op_events s1 id ≡ₚ op_events s id.
Proof.
  intros He Hf id. unfold op_events. rewrite He. apply fmap_Permutation, filter_Permutation.
  set (m := outbox_events s). destruct (m !! k) as [e|] eqn:Hk.
  - assert (alter f k m = <[k := f e]> (delete k m)) as ->.
    { apply map_eq. intros i. destruct (decide (i = k)) as [->|].
      - by rewrite lookup_alter_eq, lookup_insert_eq, Hk.
      - by rewrite lookup_alter_ne, lookup_insert_ne, lookup_delete_ne. }
    rewrite <-(insert_delete_id m k e Hk) at 2. rewrite !map_to_list_insert by apply lookup_delete_eq.
    simpl. by rewrite Hf.
  - assert (alter f k m = m) as ->; [|done].
    apply map_eq. intros i. destruct (decide (i = k)) as [->|]; [|by rewrite lookup_alter_ne].
    by rewrite lookup_alter_eq, Hk.
Qed.

Lemma consistent_perm s s1 :
  consistent s -> operations s1 = operations s -> (forall id, op_events s1 id ≡ₚ op_events s id) -> consistent s1.
Proof.
  intros Hc Hops Hev. split.
  - intros id o. rewrite Hops. intros Ho. destruct (cs_row s Hc _ _ Ho) as (? & ? & ? & ?). split_and!; try done.
    eapply told_events; [|done]. apply Hev.
  - intros id. rewrite Hops. intros Ho. apply Permutation_nil_r. rewrite Hev. by rewrite (cs_none s Hc).
  - rewrite Hops. apply (cs_unique s Hc).
Qed.

(** ** Reconciler *)

Definition held (l : list Op.Operation) (s : Store) : Prop := Forall (fun o => holds o s) l.
Lemma stable_held l : stable (held l).
Proof. intros s s2 Hh Hc Ha. eapply Forall_impl; [exact Hh|]. intros o Ho. exact (holds_advances o s s2 Ho Ha). Qed.
#[export] Hint Resolve stable_held : core.

Section specs.
Context {W : Type} `{Clock W, IdGenerator W, EventIds W} `{OthersRely W} `{DateRange, UuidDisplay, DbMessages}.

Lemma held_page tenant device status p s :
  consistent s -> held (items (op_list tenant device status None p s)) s.
Proof.
  intros Hc. apply Forall_forall. intros o Ho. destruct (op_list_spec tenant device status s p Hc) as [_ Hs _ _].
  destruct (Hs o Ho) as [[Hrow _] _]. by apply holds_stored.
Qed.

Lemma held_last l s o : held l s -> last l = Some o -> holds o s /\ held (removelast l) s.
Proof.
  intros Hh Hl. pose proof (last_removelast _ _ Hl) as He. unfold held in *. rewrite He in Hh.
  apply Forall_app in Hh as [Hinit Hs]. apply Forall_cons in Hs as [Ho _]. exact (conj Ho Hinit).
Qed.

Lemma held_pop c s : held (sc_buffer c) s ->
  held (sc_buffer (pop_buffer c).2) s /\ forall o, (pop_buffer c).1 = Some o -> holds o s.
Proof.
  intros Hh. simpl. destruct (last (sc_buffer c)) as [o|] eqn:Hl.
  - destruct (held_last _ _ _ Hh Hl). split; [done|]. by intros ? [= <-].
  - apply last_None in Hl. rewrite Hl. split; [constructor|done].
Qed.

Lemma spec_next_operation tenant batch c :
  spec (held (sc_buffer c)) (next_operation (W := W) tenant batch c)
    (fun r s => held (sc_buffer r.2) s /\ forall o, r.1 = Some o -> holds o s).
Proof.
  unfold next_operation. destruct (sc_buffer c) as [|o l] eqn:Hb.
  2: { eapply spec_pre; [|apply spec_ret]. simpl. intros s Hs. apply held_pop. by rewrite Hb. }
  destruct (sc_has_more c); simpl.
  2: { eapply spec_pre; [|apply spec_ret]. simpl. intros s Hs. by rewrite Hb. }
  unfold page_request. destruct (PageRequest_new batch) as [p|m]; [|apply spec_err].
  eapply (spec_bind _ _ _ (fun _ _ => True)); [by eapply spec_pre; [|apply spec_ret]|]. intros p1.
  eapply spec_bind; [apply (spec_stmt _ _ (fun page s => held (items page) s)); [done|]|].
  { intros s page s1 Hc _ [= <- <-]. split_and!; [done|done|by apply held_page]. }
  intros page. destruct (exhausted _); (eapply spec_pre; [|apply spec_ret]); simpl; intros s Hs.
  - done.
  - by apply (held_pop (mkStatusCursor (sc_status c) (sc_filter c) (next_cursor page) (items page) true)).
Qed.

Lemma spec_expire context now st o :
  spec (holds o) (expire_operation (W := W) context now st o) (fun _ _ => True).
Proof.
  unfold expire_operation. apply spec_holds. intros Hi _.
  assert (forall b, spec (holds o) (app_ret (W := W) b) (fun (_ : bool) _ => True)) as Hret
    by (intros b; by eapply spec_pre; [|apply spec_ret]).
  case_match; [done|]. case_match; [|done]. case_match; [|done].
  eapply (spec_bind _ _ _ (fun r s => next o (Some r.1) r.2 /\ holds o s)).
  { destruct (decide (st = OsPending)); eapply spec_event_method; [apply expire_call|done|apply timeout_call|done]. }
  intros [e o1]. apply spec_pure. intros Hn. simpl in *. eapply spec_bind; [by apply spec_save_event|].
  intros []. by eapply spec_pre; [|apply spec_ret].
Qed.

Lemma spec_visit r context now rep c l :
  spec (fun s => held (sc_buffer c) s /\ held l s) (visit_cursor (W := W) r context now rep c)
    (fun x s => held (sc_buffer x.2) s /\ held l s).
Proof.
  unfold visit_cursor. case_match; [eapply spec_pre; [|apply spec_ret]; done|].
  eapply spec_bind; [apply spec_frame; [done|apply spec_next_operation]|]. intros [x c1]. simpl.
  destruct x as [o|]; [|by eapply spec_pre; [|apply spec_ret]; naive_solver].
  eapply spec_pre with (P2 := fun s => holds o s /\ (held (sc_buffer c1) s /\ held l s)); [naive_solver|].
  eapply spec_bind.
  - apply spec_frame; [|apply spec_expire]. intros s s2 [Hh1 Hh2] Hc Ha. split; by eapply stable_held.
  - intros b. eapply spec_pre; [|apply spec_ret]. naive_solver.
Qed.

Lemma spec_reconcile_loop fuel : forall r context now rep c d,
  spec (fun s => held (sc_buffer c) s /\ held (sc_buffer d) s) (reconcile_loop (W := W) fuel r context now rep c d)
    (fun _ _ => True).
Proof.
  induction fuel as [|fuel IH]; intros r context now rep c d; simpl; [by eapply spec_pre; [|apply spec_ret]|].
  case_match; [|by eapply spec_pre; [|apply spec_ret]].
  eapply spec_bind; [apply spec_visit|]. intros [rep1 c1]. simpl.
  eapply spec_pre with (P2 := fun s => held (sc_buffer d) s /\ held (sc_buffer c1) s); [naive_solver|].
  eapply spec_bind; [apply spec_visit|]. intros [rep2 d1]. simpl. eapply spec_pre; [|apply IH]. naive_solver.
Qed.

Lemma spec_reconcile fuel r context : spec (fun _ => True) (reconcile (W := W) fuel r context) (fun _ _ => True).
Proof.
  unfold reconcile. eapply spec_bind; [apply (spec_port _ _ (fun _ _ => True)); done|]. intros now.
  eapply spec_pre; [|apply spec_reconcile_loop]. simpl. intros s _. split; constructor.
Qed.

(** ** Takeover *)

Lemma spec_recover_items context tenant owner ops : forall recovered,
  spec (held ops) (recover_items (W := W) context tenant owner ops recovered) (fun _ _ => True).
Proof.
  induction ops as [|o ops IH]; intros recovered; simpl; [by eapply spec_pre; [|apply spec_ret]|].
  eapply spec_pre with (P2 := fun s => holds o s /\ held ops s); [by intros s Hs; apply Forall_cons in Hs|].
  case_match; [|eapply spec_pre; [|apply IH]; naive_solver].
  intros u w Hg HP. pose proof (proj1 HP) as (_ & Hi & _). revert u w Hg HP.
  change (spec (fun s => holds o s /\ held ops s) (app_bind (app_method (Op.fail OWNER_LOST_CODE OWNER_LOST_MESSAGE) o)
    (fun '(event, o) => app_bind (save_with_event (W := W) context tenant o event) (fun _ =>
       recover_items context tenant owner ops (recovered + 1)))) (fun _ _ => True)).
  eapply spec_bind; [eapply spec_event_method; [apply fail_call|done]|]. intros [e o1]. apply spec_pure. intros Hn. simpl in *.
  eapply spec_bind; [apply spec_frame; [done|by apply spec_save_event]|]. intros []. eapply spec_pre; [|apply IH]. naive_solver.
Qed.

Lemma spec_recover_pages fuel : forall context tenant device owner status cursor recovered,
  spec (fun _ => True) (recover_pages (W := W) fuel context tenant device owner status cursor recovered) (fun _ _ => True).
Proof.
  induction fuel as [|fuel IH]; intros; simpl; [by eapply spec_pre; [|apply spec_ret]|].
  unfold page_request. destruct (PageRequest_new MAX_PAGE_SIZE) as [p|m]; [|apply spec_err].
  eapply (spec_bind _ _ _ (fun _ _ => True)); [by eapply spec_pre; [|apply spec_ret]|]. intros p1.
  eapply spec_bind; [apply (spec_stmt _ _ (fun page s => held (items page) s)); [done|]|].
  { intros s page s1 Hc _ [= <- <-]. split_and!; [done|done|by apply held_page]. }
  intros page. eapply spec_bind; [apply spec_recover_items|]. intros n.
  destruct (next_cursor page); [apply IH|by eapply spec_pre; [|apply spec_ret]].
Qed.

Lemma spec_acquire tenant device node now lease :
  spec (fun _ => True) (stmt (W := W) (acquire_stmt tenant device node now lease)) (fun _ _ => True).
Proof.
  apply spec_stmt; [done|]. intros s a s1 Hc _. unfold acquire_stmt.
  destruct (acquire_ownership _ _ _ _ _ _) as [db [r|e]]; [|done]. intros [= <- <-].
  split_and!; [by eapply consistent_same|by apply advances_same|done].
Qed.

(** An event of another aggregate. *)
Lemma spec_append_other ev :
  ri_kind (rr_id (ev_aggregate_ref ev)) <> RkOperation ->
  spec (fun _ => True) (stmt (W := W) (outbox_append ev)) (fun _ _ => True).
Proof.
  intros Hk. apply spec_stmt; [done|]. intros s a s1 Hc _. unfold outbox_append.
  destruct (outbox_events s !! ev_event_id ev) eqn:Hf; [done|]. intros [= <- <-].
  split_and!; [|by apply advances_same|done]. eapply consistent_perm; [done..|]. intros id.
  rewrite op_events_append by done. rewrite decide_False; [done|]. unfold about. intros He. apply Hk. by rewrite He.
Qed.

(** Where a transaction may have been rolled back, only the committed tables matter. *)
Definition commits {A} (P : Uow -> Prop) (m : app W A) : Prop :=
  forall u w, good u -> P u -> let '(_, u1, _) := m u w in
    consistent (committed u1) /\ advances (committed u) (committed u1).

Lemma commits_spec {A} P (m : app W A) Q : spec (fun _ => True) m Q -> commits P m.
Proof. intros Hm u w Hg _. specialize (Hm u w Hg I). destruct (m u w) as [[r u1] w1]. naive_solver. Qed.

Lemma commits_bind {A B} P (m : app W A) (k : A -> app W B) Q :
  spec (fun _ => True) m Q -> (forall a, commits (fun _ => True) (k a)) -> commits P (app_bind m k).
Proof.
  intros Hm Hk u w Hg _. unfold app_bind. specialize (Hm u w Hg I).
  destruct (m u w) as [[[a|e] u1] w1]; [|naive_solver]. destruct Hm as (? & ? & Hg1 & _).
  specialize (Hk a u1 w1 Hg1 I). destruct (k a u1 w1) as [[r u2] w2]. destruct Hk. split; [done|]. by etrans.
Qed.

(** Reads outside of a transaction. *)
Definition reads_only {A} (m : app W A) : Prop :=
  forall u w, good u -> tx u = None -> exists a s w1,
    m u w = (Ok a, mkUow s None (rolled_back u), w1) /\ consistent s /\ advances (committed u) s.

Lemma autocommit_reads {A} (f : Store -> A) : reads_only (autocommit f).
Proof.
  intros u w [Hc _] Htx. unfold autocommit. pose proof (others_rely (committed u) w Hc) as [Hs Ha].
  destruct (others (committed u) w) as [s w1]. rewrite Htx. simpl in *. eauto 6.
Qed.

Lemma eligible_reads svc now : reads_only (is_this_node_eligible svc now).
Proof.
  intros u w Hg Htx. unfold is_this_node_eligible, app_bind.
  destruct (autocommit_reads (fun s => node_get (cluster s) (tk_this_node svc)) u w Hg Htx) as (n & s & w1 & -> & Hs).
  unfold app_ret. eauto 6.
Qed.

Lemma commits_reads {A B} (m : app W A) (k : A -> app W B) :
  reads_only m -> (forall a, commits (fun u => tx u = None) (k a)) -> commits (fun u => tx u = None) (app_bind m k).
Proof.
  intros Hm Hk u w Hg Htx. unfold app_bind. destruct (Hm u w Hg Htx) as (a & s & w1 & -> & Hs & Ha).
  specialize (Hk a (mkUow s None (rolled_back u)) w1). destruct (k _ _ _) as [[r u2] w2].
  destruct Hk; [by split|done|]. split; [done|]. by etrans.
Qed.

Lemma commits_weaken {A} (P : Uow -> Prop) (m : app W A) : commits (fun _ => True) m -> commits P m.
Proof. intros Hm u w Hg _. by apply Hm. Qed.

Lemma commits_ret {A} P (a : A) : commits P (app_ret a).
Proof. intros u w [? ?] _. done. Qed.

Lemma commits_rollback {A} P (k : app W A) :
  commits (fun u => tx u = None) k -> commits P (app_bind rollback (fun _ => k)).
Proof.
  intros Hk u w Hg _. unfold app_bind, rollback, rollback_domain. pose proof Hg as [Hc _].
  destruct (rolled_back u); [done|]. by apply (Hk (mkUow (committed u) None true)).
Qed.

Lemma commits_take_ownership fuel svc context tenant device now lease :
  commits (fun _ => True) (take_ownership (W := W) fuel svc context tenant device now lease).
Proof.
  unfold take_ownership. eapply commits_bind; [apply spec_acquire|]. intros [[owner previous]|].
  - apply (commits_spec _ _ (fun _ _ => True)). unfold recover_operations. eapply (spec_bind _ _ _ (fun _ _ => True)).
    + eapply spec_bind; [apply spec_recover_pages|]. intros [n|]; [apply spec_recover_pages|].
      by eapply spec_pre; [|apply spec_ret].
    + intros [n|]; [|by eapply spec_pre; [|apply spec_ret]].
      eapply spec_bind; [apply (spec_port_run _ _ (fun ev => ri_kind (rr_id (ev_aggregate_ref ev)) <> RkOperation))|].
      { intros w. destruct (Event_new_fields context tenant (device_resource_ref tenant device) (oi_epoch owner)
          (owner_changed_event tenant device owner previous) w) as (-> & _). done. }
      intros ev. apply spec_pure. intros Hk. eapply spec_bind; [by apply spec_append_other|]. intros [].
      eapply spec_bind; [apply spec_commit|]. intros []. by eapply spec_pre; [|apply spec_ret].
  - apply commits_rollback, commits_reads; [apply autocommit_reads|]. intros [owner|].
    + apply commits_ret.
    + eapply commits_spec. apply (spec_err _ _ (fun _ _ => True)).
Qed.

Lemma commits_takeover fuel svc context tenant device :
  commits (fun u => tx u = None) (takeover (W := W) fuel svc context tenant device).
Proof.
  unfold takeover. intros u w Hg Htx. unfold app_bind at 1, app_port at 1. destruct (now_wall w) as [now w1].
  destruct (ts_checked_add now (tk_lease_duration svc)) as [lease|]; [|by destruct Hg].
  assert (commits (fun u => tx u = None) (
    let+ eligible := is_this_node_eligible (W := W) svc now in
    if negb eligible then app_ret (Some NotEligible)
    else take_ownership fuel svc context tenant device now lease)) as Hcompete.
  { apply commits_reads; [apply eligible_reads|]. intros b. case_match; [apply commits_ret|].
    apply commits_weaken, commits_take_ownership. }
  refine ((_ : commits (fun u => tx u = None) _) u w1 Hg Htx).
  apply commits_reads; [apply autocommit_reads|]. intros [owner|]; [|done].
  apply commits_reads; [apply autocommit_reads|]. intros [n|]; [|done]. case_match; [apply commits_ret|done].
Qed.

(** ** Relay *)

Context `{EventPublisher W, EventHash}.

Lemma spec_record_results now outcomes : forall n,
  spec (fun _ => True) (record_results (W := W) now outcomes n) (fun _ _ => True).
Proof.
  induction outcomes as [|[entry r] outcomes IH]; intros n; simpl; [by eapply spec_pre; [|apply spec_ret]|].
  eapply spec_bind; [apply (spec_stmt _ _ (fun _ _ => True)); [done|]|intros []; apply IH].
  intros s [] s1 Hc _ [= <-]. split_and!; [|destruct r; by apply advances_same|done].
  eapply consistent_perm; [exact Hc|by destruct r|]. intros id. destruct r; by eapply op_events_alter.
Qed.

Lemma spec_run_once batch : spec (fun _ => True) (run_once (W := W) batch) (fun _ _ => True).
Proof.
  unfold run_once. eapply spec_bind; [apply (spec_port _ _ (fun _ _ => True)); done|]. intros now.
  eapply spec_bind; [apply (spec_stmt _ _ (fun _ _ => True)); [done|]; intros s a s1 Hc _ [= <- <-]; by split_and!|].
  intros entries. eapply spec_bind; [apply spec_commit|]. intros [].
  eapply spec_bind; [apply (spec_port _ _ (fun _ _ => True)); done|]. intros rs.
  eapply spec_bind; [apply spec_record_results|]. intros n. eapply spec_bind; [apply spec_commit|]. intros [].
  by eapply spec_pre; [|apply spec_ret].
Qed.
End specs.

(** ** All services *)

Inductive service_call :=
| CallSubmit (context : RequestContext) (request : SubmitOperationRequest)
| CallCancel (context : RequestContext) (operation_id : Uuid)
| CallComplete (context : RequestContext) (operation_id : Uuid) (r : OperationResult)
| CallTimeout (context : RequestContext) (operation_id : Uuid) (e : OperationError)
| CallDispatch (context : RequestContext) (tenant_id operation_id : Uuid)
| CallReconcile (fuel : nat) (reconciler : OperationReconciler) (context : RequestContext)
| CallTakeover (fuel : nat) (svc : TakeoverService) (context : RequestContext) (tenant_id device_id : Uuid)
| CallRelay (batch_size : nat).

Section sessions.
Context {W : Type} `{Clock W, IdGenerator W, EventIds W, Others W} `{DateRange, UuidDisplay, DbMessages}
  `{CommandBus W, DeviceOwnerResolver W, EventPublisher W, EventHash}.

(** A call in a unit of work of its own; the caller of the reconciler commits. *)
Definition serve (c : service_call) : app W unit :=
  match c with
  | CallSubmit context request => do+ submit_operation context request in app_ret tt
  | CallCancel context id => do+ cancel_operation context id in app_ret tt
  | CallComplete context id r => do+ complete_operation context id r in app_ret tt
  | CallTimeout context id e => do+ timeout_operation context id e in app_ret tt
  | CallDispatch context tenant id => do+ dispatch context tenant id in app_ret tt
  | CallReconcile fuel r context => do+ reconcile fuel r context in commit
  | CallTakeover fuel svc context tenant device => do+ takeover fuel svc context tenant device in app_ret tt
  | CallRelay batch_size => do+ run_once batch_size in app_ret tt
  end.

(** What is left of a session is what it committed. *)
Definition session (c : service_call) (s : Store) (w : W) : Store * W :=
  let '(_, u, w) := serve c (mkUow s None false) w in (committed u, w).

Fixpoint sessions (cs : list service_call) (s : Store) (w : W) : Store * W :=
  match cs with
  | [] => (s, w)
  | c :: cs => let '(s, w) := session c s w in sessions cs s w
  end.
End sessions.

Definition empty_store (db : Db) : Store := mkStore ∅ ∅ ∅ db.

Lemma consistent_empty db : consistent (empty_store db).
Proof.
  split; simpl; [|done|]; intros *; by rewrite lookup_empty.
Qed.

Section history.
Context {W : Type} `{Clock W, IdGenerator W, EventIds W} `{OthersRely W} `{DateRange, UuidDisplay, DbMessages}
  `{CommandBus W, DeviceOwnerResolver W, EventPublisher W, EventHash}.

Lemma commits_ignore {A} (m : app W A) Q :
  spec (fun _ => True) m Q -> commits (fun u => tx u = None) (app_bind m (fun _ => app_ret tt)).
Proof. intros Hm. eapply commits_bind; [exact Hm|]. intros a. apply commits_ret. Qed.

Lemma commits_serve c : commits (fun u => tx u = None) (serve (W := W) c).
Proof.
  destruct c; simpl.
  - eapply commits_ignore, spec_submit.
  - eapply commits_ignore, spec_change, cancel_call.
  - eapply commits_ignore, spec_change, complete_call.
  - eapply commits_ignore, spec_change, timeout_call.
  - eapply commits_ignore, spec_dispatch.
  - eapply commits_bind; [apply spec_reconcile|]. intros a. eapply commits_spec, spec_commit.
  - intros u w Hg Htx. unfold app_bind. pose proof (commits_takeover fuel svc context tenant_id device_id u w Hg Htx) as Hc.
    destruct (takeover _ _ _ _ _ u w) as [[[a|e] u1] w1]; done.
  - eapply commits_ignore, spec_run_once.
Qed.

Lemma session_kept c s (w : W) :
  consistent s -> consistent (session c s w).1 /\ advances s (session c s w).1.
Proof.
  intros Hc. unfold session. pose proof (commits_serve c (mkUow s None false) w) as Hk.
  destruct (serve c _ w) as [[r u] w1]. by apply Hk.
Qed.

Lemma sessions_kept cs : forall s (w : W),
  consistent s -> consistent (sessions cs s w).1 /\ advances s (sessions cs s w).1.
Proof.
  induction cs as [|c cs IH]; intros s w Hc; simpl; [done|].
  pose proof (session_kept c s w Hc) as [Hc1 Ha1]. destruct (session c s w) as [s1 w1]. simpl in *.
  destruct (IH s1 w1 Hc1) as [Hc2 Ha2]. split; [done|]. by etrans.
Qed.

(** C25: State and events never diverge.  From an empty database, after any
    sequence of submissions, cancellations, completions, timeouts, dispatches,
    reconciler runs, takeovers and relay runs, each of which may fail at any
    statement, with other sessions committing between the transactions of each
    call: the outbox holds for every operation exactly its submission and its
    status changes, which form a path of the lifecycle chart that ends in the
    stored state, with sequence numbers that grow with the revision; an
    operation that is not stored has no events; no two operations share tenant,
    principal and key; and no stored operation is ever lost or changed without a
    new revision. *)
Theorem outbox_tells_history cs1 cs2 db (w : W) :
  let '(s1, w1) := sessions cs1 (empty_store db) w in
  let s2 := (sessions cs2 s1 w1).1 in
  consistent s1 /\ consistent s2 /\ advances s1 s2.
Proof.
  pose proof (sessions_kept cs1 _ w (consistent_empty db)) as [Hc1 _].
  destruct (sessions cs1 (empty_store db) w) as [s1 w1]. simpl in *.
  destruct (sessions_kept cs2 s1 w1 Hc1). done.
Qed.
End history.
