(* ===== verification/ServiceClaims.v ===== *)
(** * Theorems on the reconciler and on takeovers

    The reconciler ends and leaves no overdue operation behind; a takeover
    leaves no operation of an earlier epoch. *)

From S2P Require Import Prelude RustStr Domain DomainData Operation Lifecycle OperationProps Paging Cluster UnitOfWork.
From S2P Require Import OperationService OperationHistory OperationSessions Reconcile ReconcileProps.

Open Scope string_scope.
Open Scope list_scope.
Open Scope Z_scope.

Section reconciler.
Context {W : Type} `{Clock W, IdGenerator W, EventIds W, Others W} `{DateRange, UuidDisplay, DbMessages}.

Lemma start_ok tenant now s st filter :
  (st = OsPending \/ st = OsRunning) -> filter = OperationStatus_display st ->
  cursor_ok tenant now None s (cursor_start st filter).
Proof.
  intros Hl Hf. split; [done..| |].
  - split; [constructor|]. intros o Ho. by apply elem_of_nil in Ho.
  - intros o _ _ _. right. right. done.
Qed.

(** C31: From consistent tables, a run of the operation reconciler ends after at most
    two rounds for each stored operation and two more; the number of operations that it
    times out is the number it reports and at most the allowed one; each of them was of
    the tenant and pending or running with a deadline that had passed, and nothing else
    is touched; unless it stopped at the limit, none of those is left. When a statement
    fails nothing is committed. Transactions are modelled as serial. *)
Theorem reconcile_finds_overdue fuel r context s (w : W) :
  consistent s -> (2 * S (size (operations s)) < fuel)%nat ->
  let tenant := rc_tenant_id context in
  let now := (now_wall w).1 in
  match reconcile fuel r context (begin s) w with
  | (Ok x, u1, _) => exists rep s1 ids, x = Some rep /\ u1 = in_tx s s1 false /\ consistent s1
      /\ timed_out_only tenant now ids s s1 /\ rp_timed_out rep = Z.of_nat (size ids)
      /\ rp_timed_out rep <= Z.max 0 (or_max_timeouts_per_run r)
      /\ (rp_timed_out rep < or_max_timeouts_per_run r ->
          forall id o, operations s1 !! id = Some o -> ~ overdue tenant now o)
  | (Err _, u1, _) => committed u1 = s
  end.
Proof.
  intros Hc Hfuel tenant now. unfold reconcile, app_bind, app_port. subst now. destruct (now_wall w) as [now w1]. simpl.
  pose proof (trun_reconcile_loop (W := W) tenant now r context s fuel ∅ s (mkOpReport 0 0) (cursor_start OsPending "pending")
    (cursor_start OsRunning "running") eq_refl) as Hrun.
  assert (forall st filter, (remaining (dom (operations s)) (cursor_start st filter) <= S (size (operations s)))%nat) as Hrem.
  { intros st filter. unfold remaining. simpl. rewrite <-(size_dom (operations s)).
    apply le_n_S. rewrite Nat.add_0_r. apply subseteq_size. intros x Hx. by apply elem_of_filter in Hx as [_ Hx]. }
  pose proof (Hrem OsPending "pending"). pose proof (Hrem OsRunning "running").
  assert (looping tenant now ∅ s s (or_max_timeouts_per_run r) (mkOpReport 0 0) (cursor_start OsPending "pending")
    (cursor_start OsRunning "running")) as Hlo.
  { split; [done|apply start_ok; eauto|apply start_ok; eauto|done| |rewrite size_empty; simpl; lia]. by split_and!. }
  specialize (Hrun Hlo ltac:(lia) eq_refl eq_refl s false w1).
  unfold begin. destruct (reconcile_loop _ _ _ _ _ _ _ _ w1) as [[[x|e] u1] w2].
  - destruct Hrun as (s1 & -> & rep & ids & -> & ? & ? & ? & ? & ?). by exists rep, s1, ids.
  - done.
Qed.
End reconciler.

(** ** Takeover *)

Section takeover.
Context (tenant device : Uuid).

(** An operation of the device that was bound to an earlier epoch. *)
Definition stale (epoch : Z) (o : Op.Operation) : Prop :=
  Op.tenant_id o = tenant /\ Op.device_id o = device /\ Op.is_terminal o = false /\ Op.expected_owner_epoch o < epoch.

#[global] Instance stale_dec epoch o : Decision (stale epoch o).
Proof. unfold stale. apply _. Defined.
(** An operation that was failed because its owner was lost. *)
Definition lost (o o1 : Op.Operation) : Prop :=
  identity o1 = identity o /\ Op.status o1 = OsFailed /\ Op.revision o1 = wrap64 (Op.revision o + 1)
  /\ Op.op_error o1 = Some {| oe_code := OWNER_LOST_CODE; oe_message := OWNER_LOST_MESSAGE |}.

(** What recoveries do: the operations in [ids] were live and are lost, the others stay. *)
Record recovered (ids : gset Uuid) (s s1 : Store) : Prop := {
  rc_consistent : consistent s1;
  rc_cluster : cluster s1 = cluster s;
  rc_lost : forall id, id ∈ ids -> exists o o1, operations s !! id = Some o /\ Op.is_terminal o = false
    /\ operations s1 !! id = Some o1 /\ lost o o1;
  rc_kept : forall id, id ∉ ids -> operations s1 !! id = operations s !! id
}.
Lemma lost_terminal o o1 : lost o o1 -> Op.is_terminal o1 = true.
Proof. intros (_ & Hs & _). unfold Op.is_terminal. by rewrite Hs. Qed.
Lemma recovered_none s : consistent s -> recovered ∅ s s.
Proof. intros Hc. split; [done|done| |done]. set_solver. Qed.
(** Recoveries in a row fail different operations. *)
Lemma recovered_trans X Y s s1 s2 : recovered X s s1 -> recovered Y s1 s2 -> recovered (X ∪ Y) s s2 /\ X ## Y.
Proof.
  intros [Hc1 Hcl1 Hl1 Hk1] [Hc2 Hcl2 Hl2 Hk2].
  assert (X ## Y) as Hd.
  { intros id Hx Hy. destruct (Hl1 id Hx) as (o & o1 & _ & _ & Ho1 & Hlost). destruct (Hl2 id Hy) as (o2 & _ & Ho2 & Hlive & _).
    apply lost_terminal in Hlost. congruence. }
  split; [|done]. split; [done|congruence| |].
  - intros id [Hx|Hy]%elem_of_union.
    + destruct (Hl1 id Hx) as (o & o1 & Ho & Hlive & Ho1 & Hlost). exists o, o1. rewrite Hk2 by set_solver. done.
    + destruct (Hl2 id Hy) as (o & o1 & Ho & Hrest). exists o, o1. rewrite <-Hk1 by set_solver. done.
  - intros id [Hx Hy]%not_elem_of_union. by rewrite Hk2, Hk1.
Qed.
Lemma recovered_dom X s s1 : recovered X s s1 -> dom (operations s1) = dom (operations s).
Proof.
  intros [_ _ Hl Hk]. apply set_eq. intros id. rewrite !elem_of_dom. destruct (decide (id ∈ X)) as [Hx|Hx].
  - destruct (Hl id Hx) as (o & o1 & -> & _ & -> & _). done.
  - by rewrite Hk.
Qed.

Context {W : Type} `{Clock W, IdGenerator W, EventIds W, Others W} `{DateRange, UuidDisplay, DbMessages}.

(** The operations of a page that are to be failed. *)
Definition to_fail (epoch : Z) (ops : list Op.Operation) : gset Uuid :=
  list_to_set (Op.operation_id <$> base.filter (fun o => Op.expected_owner_epoch o < epoch) ops).
Lemma fail_owner_lost o (w : W) e o1 w1 :
  op_inv o -> Op.fail OWNER_LOST_CODE OWNER_LOST_MESSAGE o w = (Ok e, o1, w1) ->
  Op.is_terminal o = false /\ next o (Some e) o1 /\ lost o o1.
Proof.
  intros Hinv Hrun. pose proof (exec_next _ _ _ _ _ _ Hinv (fail_call _ _ _ _ _ _ _ Hrun)) as Hn.
  destruct (live (Op.status o)) eqn:Hlive.
  - split; [unfold Op.is_terminal; by destruct (Op.status o)|]. split; [done|].
    edestruct (fail_run OWNER_LOST_CODE OWNER_LOST_MESSAGE o w) as (? & ? & ? & Hf & _); [done..|].
    rewrite Hf in Hrun. destruct Hn as (Hi & _ & Hr & _). injection Hrun as <- <- <-. by split_and!.
  - destruct (fail_rejected OWNER_LOST_CODE OWNER_LOST_MESSAGE o w Hlive) as [er Hf]. by rewrite Hf in Hrun.
Qed.
Lemma trun_recover_items context owner ops : forall n s,
  consistent s -> NoDup (Op.operation_id <$> ops) -> Forall (fun o => operations s !! Op.operation_id o = Some o) ops ->
  trun (W := W) (recover_items context tenant owner ops n) s (fun n1 s1 =>
    recovered (to_fail (oi_epoch owner) ops) s s1 /\ n1 = n + Z.of_nat (size (to_fail (oi_epoch owner) ops))).
Proof.
  induction ops as [|o ops IH]; intros n s Hc Hnd Hst; cbn [recover_items].
  { apply trun_ret. assert (to_fail (oi_epoch owner) [] = ∅) as -> by done. rewrite size_empty.
    split; [by apply recovered_none|lia]. }
  rewrite fmap_cons in Hnd. apply NoDup_cons in Hnd as [Hnin Hnd]. apply Forall_cons in Hst as [Ho Hst].
  unfold to_fail in *. destruct (Z.ltb_spec (Op.expected_owner_epoch o) (oi_epoch owner)) as [Hlt|Hge].
  2: { rewrite filter_cons_False by lia. by apply IH. }
  rewrite filter_cons_True by done. rewrite fmap_cons. cbn [list_to_set].
  destruct (cs_row s Hc _ _ Ho) as (_ & _ & Hinv & _).
  eapply trun_bind; [apply (trun_method _ o s (fun r s1 => s1 = s /\ Op.is_terminal o = false /\ next o (Some r.1) r.2 /\ lost o r.2))|].
  { intros w e o1 w1 Hrun. split; [done|]. by eapply fail_owner_lost. }
  intros [e o1] s1 (-> & Hlive & Hn & Hlost). simpl in *. pose proof (identity_columns _ _ (proj1 Hn)) as [Hid _].
  eapply trun_bind; [by apply (trun_save_event context tenant o e o1 s)|]. intros [] s1 (Hc1 & Hops & Hcl).
  rewrite Hid in Hops.
  assert (recovered {[ Op.operation_id o ]} s s1) as Hr1.
  { split; [done|done| |].
    - intros id ->%elem_of_singleton. exists o, o1. rewrite Hops, lookup_insert_eq. done.
    - intros id Hne%not_elem_of_singleton. by rewrite Hops, lookup_insert_ne. }
  eapply trun_mono; [|apply (IH (n + 1) s1); [done|done|]].
  2: { apply Forall_forall. intros o2 Ho2. rewrite Hops, lookup_insert_ne.
       - rewrite Forall_forall in Hst. by apply Hst.
       - intros He. apply Hnin. rewrite He. by apply list_elem_of_fmap_2. }
  intros n1 s2 [Hr2 ->]. destruct (recovered_trans _ _ _ _ _ Hr1 Hr2) as [Hr Hd]. split; [done|].
  rewrite size_union, size_singleton by done. lia.
Qed.

(** A pass over the pages fails exactly the stale operations of the status. *)
Definition stale_ids (epoch : Z) (st : OperationStatus) (s : Store) : gset Uuid :=
  dom (base.filter (fun io : Uuid * Op.Operation => stale epoch io.2 /\ Op.status io.2 = st) (operations s)).
Lemma elem_of_stale_ids epoch st s id :
  id ∈ stale_ids epoch st s <-> exists o, operations s !! id = Some o /\ stale epoch o /\ Op.status o = st.
Proof.
  unfold stale_ids. rewrite elem_of_dom. split.
  - intros [o [Ho Hs]%map_lookup_filter_Some]. by exists o.
  - intros (o & Ho & Hs). exists o. by apply map_lookup_filter_Some.
Qed.

Lemma size_part (X Y : gset Uuid) : X ⊆ Y -> size Y = (size X + size (Y ∖ X))%nat.
Proof. intros HXY. rewrite <-size_union_alt. f_equal. set_solver. Qed.
Lemma trun_recover_pages context owner st filter fuel : forall cursor n s,
  filter = OperationStatus_display st -> (st = OsPending \/ st = OsRunning) -> consistent s ->
  (size (base.filter (after_id cursor) (dom (operations s))) < fuel)%nat ->
  (forall id o, operations s !! id = Some o -> stale (oi_epoch owner) o -> Op.status o = st -> after_id cursor id) ->
  trun (W := W) (recover_pages fuel context tenant device owner filter cursor n) s (fun x s1 =>
    recovered (stale_ids (oi_epoch owner) st s) s s1 /\ x = Some (n + Z.of_nat (size (stale_ids (oi_epoch owner) st s)))).
Proof.
  induction fuel as [|fuel IH]; intros cursor n s Hf Hlive Hc Hsize Hafter; [lia|]. simpl.
  eapply trun_bind; [apply (trun_ret (mkPageRequest None MAX_PAGE_SIZE) s (fun p s1 => s1 = s)); done|]. intros p s1 ->.
  eapply trun_bind; [apply (trun_reads _ s (fun page s1 => s1 = s
    /\ op_page_spec tenant (Some device) (Some filter) s cursor page)); split; [done|];
    exact (op_list_spec tenant (Some device) (Some filter) s (mkPageRequest cursor (page_size p)) Hc)|].
  intros page s1 [-> [Hnd Hsound Hcomp Hnext]].
  eapply trun_bind; [apply trun_recover_items; [done..|]|].
  { apply Forall_forall. intros o Ho. by destruct (Hsound o Ho) as [[? _] _]. }
  intros n1 s1 [Hr1 ->]. set (X := to_fail (oi_epoch owner) (items page)) in *.
  assert (forall o, stale (oi_epoch owner) o -> Op.status o = st -> op_matches tenant (Some device) (Some filter) None o = true) as Hm.
  { intros o (Ht & Hd & _) Hs. unfold op_matches. simpl. by rewrite !bool_decide_eq_true_2 by congruence. }
  assert (forall id, id ∈ X <-> exists o, o ∈ items page /\ Op.operation_id o = id /\ Op.expected_owner_epoch o < oi_epoch owner) as HX.
  { intros id. unfold X, to_fail. rewrite elem_of_list_to_set, list_elem_of_fmap. setoid_rewrite list_elem_of_filter. naive_solver. }
  assert (forall id, id ∈ X -> id ∈ stale_ids (oi_epoch owner) st s) as HXs.
  { intros id (o & Ho & <- & Hlt)%HX. destruct (Hsound o Ho) as [[Hrow Hmatch] _]. apply elem_of_stale_ids. exists o.
    unfold op_matches in Hmatch. simpl in Hmatch. rewrite !andb_true_iff, !bool_decide_eq_true in Hmatch.
    destruct Hmatch as [[[Ht Hd] Hs] _]. rewrite Hf in Hs. apply display_inj in Hs.
    split_and!; [done| |done]. split_and!; [done..| |done]. unfold Op.is_terminal. rewrite Hs. by destruct Hlive as [-> | ->]. }
  assert (stale_ids (oi_epoch owner) st s1 = stale_ids (oi_epoch owner) st s ∖ X) as Hleft.
  { apply set_eq. intros id. rewrite elem_of_difference, !elem_of_stale_ids. split.
    - intros (o & Ho & Hst & Hs). destruct (decide (id ∈ X)) as [HidX|HidX].
      + destruct (rc_lost _ _ _ Hr1 id HidX) as (o0 & o1 & _ & _ & Ho1 & Hlost%lost_terminal). destruct Hst as (_ & _ & Ht & _). congruence.
      + split; [|done]. exists o. by rewrite <-(rc_kept _ _ _ Hr1 id HidX).
    - intros [(o & Ho & Hrest) HidX]. exists o. by rewrite (rc_kept _ _ _ Hr1 id HidX). }
  assert (forall id, id ∈ stale_ids (oi_epoch owner) st s1 -> exists c, next_cursor page = Some c /\ c.2 < id) as Hcov.
  { intros id. rewrite Hleft, elem_of_difference, elem_of_stale_ids. intros [(o & Ho & Hst & Hs) HidX].
    destruct (cs_row s Hc _ _ Ho) as (Hid & _). destruct (Hcomp o) as [Hin|Hlater].
    - split; [by rewrite Hid|by apply Hm].
    - rewrite Hid. by eapply Hafter.
    - exfalso. apply HidX, HX. exists o. split_and!; [done..|]. by destruct Hst as (_ & _ & _ & ?).
    - by rewrite Hid in Hlater. }
  destruct (next_cursor page) as [c|] eqn:Hnc.
  - destruct (Hnext c eq_refl) as (Hne & Hac & Hle). eapply trun_mono; [|apply IH; [done|done|apply Hr1| |]].
    + intros x s2 [Hr2 ->]. rewrite Hleft in Hr2 |- *. destruct (recovered_trans _ _ _ _ _ Hr1 Hr2) as [Hr Hd].
      rewrite <-union_difference_L in Hr by set_solver. split; [done|]. f_equal.
      rewrite (size_part X (stale_ids (oi_epoch owner) st s)) by set_solver. lia.
    + rewrite (recovered_dom _ _ _ Hr1). eapply Nat.lt_le_trans; [|apply Nat.lt_succ_r, Hsize].
      destruct (items page) as [|o l] eqn:Hi; [done|]. rewrite <-Hi in *.
      assert (o ∈ items page) as Ho by (rewrite Hi; by left). destruct (Hsound o Ho) as [[Hrow _] Hao].
      apply subset_size. split.
      * intros x [Hx1 Hx2]%elem_of_filter. apply elem_of_filter. split; [|done]. simpl in Hx1. destruct cursor; simpl in *; [lia|done].
      * intros Heq. specialize (Hle o Ho). specialize (Heq (Op.operation_id o)). rewrite !elem_of_filter in Heq. simpl in Heq.
        apply elem_of_dom_2 in Hrow. destruct Heq as [Hlt _]; [done|lia].
    + intros id o Ho Hst Hs. simpl. destruct (Hcov id) as (c1 & [= <-] & Hlt); [|done]. apply elem_of_stale_ids. by exists o.
  - apply trun_ret. assert (stale_ids (oi_epoch owner) st s = X) as ->.
    { apply set_eq. intros id. split; [|apply HXs]. intros Hid. destruct (decide (id ∈ X)); [done|].
      destruct (Hcov id) as (c & [=] & _). rewrite Hleft. set_solver. }
    done.
Qed.

Lemma after_none (ids : gset Uuid) : (size (base.filter (after_id None) ids) <= size ids)%nat.
Proof. apply subseteq_size. intros x Hx. by apply elem_of_filter in Hx as [_ Hx]. Qed.

(** All stale operations, whatever their status. *)
Definition all_stale (epoch : Z) (s : Store) : gmap Uuid Op.Operation :=
  base.filter (fun io : Uuid * Op.Operation => stale epoch io.2) (operations s).
Lemma elem_of_all_stale epoch s id : id ∈ dom (all_stale epoch s) <-> exists o, operations s !! id = Some o /\ stale epoch o.
Proof.
  unfold all_stale. rewrite elem_of_dom. split.
  - intros [o [Ho Hs]%map_lookup_filter_Some]. by exists o.
  - intros (o & Ho & Hs). exists o. by apply map_lookup_filter_Some.
Qed.
Lemma all_stale_split epoch s : dom (all_stale epoch s) = stale_ids epoch OsPending s ∪ stale_ids epoch OsRunning s.
Proof.
  apply set_eq. intros id. rewrite elem_of_union, elem_of_all_stale, !elem_of_stale_ids. split; [|naive_solver].
  intros (o & Ho & Hst). pose proof Hst as (_ & _ & Hterm & _). unfold Op.is_terminal in Hterm.
  destruct (Op.status o) eqn:Hs; try done; eauto.
Qed.
Lemma stale_ids_kept epoch X s s1 :
  recovered X s s1 -> X = stale_ids epoch OsPending s -> stale_ids epoch OsRunning s1 = stale_ids epoch OsRunning s.
Proof.
  intros [_ _ Hl Hk] ->. apply set_eq. intros id. rewrite !elem_of_stale_ids.
  destruct (decide (id ∈ stale_ids epoch OsPending s)) as [Hid|Hid]; [|by rewrite Hk].
  destruct (Hl id Hid) as (o & o1 & Ho & _ & Ho1 & _ & Hs1 & _). apply elem_of_stale_ids in Hid as (o2 & Ho2 & _ & Hs2).
  split; intros (o3 & Ho3 & _ & Hs3); congruence.
Qed.

Lemma trun_recover_operations context owner fuel s :
  consistent s -> (size (operations s) < fuel)%nat ->
  trun (W := W) (recover_operations fuel context tenant device owner) s (fun x s1 =>
    recovered (dom (all_stale (oi_epoch owner) s)) s s1 /\ x = Some (Z.of_nat (size (all_stale (oi_epoch owner) s)))).
Proof.
  intros Hc Hfuel. rewrite <-(size_dom (operations s)) in Hfuel. unfold recover_operations.
  pose proof (after_none (dom (operations s))) as Hn.
  eapply trun_bind; [apply (trun_recover_pages context owner OsPending); [done|by left|done|lia|done]|].
  intros x s1 [Hr1 ->]. rewrite <-(recovered_dom _ _ _ Hr1) in Hn, Hfuel.
  eapply trun_mono; [|apply (trun_recover_pages context owner OsRunning); [done|by right|apply Hr1|lia|done]].
  intros y s2 [Hr2 ->]. rewrite (stale_ids_kept _ _ _ _ Hr1 eq_refl) in *.
  destruct (recovered_trans _ _ _ _ _ Hr1 Hr2) as [Hr Hd].
  rewrite <-(size_dom (D := gset Uuid) (all_stale _ _)), all_stale_split. split; [done|]. rewrite size_union by done. f_equal. lia.
Qed.

Lemma recovered_row epoch s s1 id o :
  recovered (dom (all_stale epoch s)) s s1 -> operations s !! id = Some o ->
  exists o1, operations s1 !! id = Some o1 /\ if decide (stale epoch o) then lost o o1 else o1 = o.
Proof.
  intros [_ _ Hl Hk] Ho. case_decide as Hst.
  - destruct (Hl id) as (o0 & o1 & Ho0 & _ & Ho1 & Hlost); [apply elem_of_all_stale; by exists o|]. exists o1.
    by replace o0 with o in Hlost by congruence.
  - exists o. rewrite Hk; [done|]. rewrite elem_of_all_stale. intros (o0 & Ho0 & Hst0). congruence.
Qed.

Lemma upsert_written extra db t d node now lease db2 r :
  upsert_owner extra db t d node now lease = Ok (db2, Some r) ->
  db2 = set_owners <[d := r]> db /\ or_tenant_id r = t /\ or_owner_node_id r = node /\ or_expires_at r = Some lease.
Proof. unfold upsert_owner. intros Hup. repeat (case_match; simplify_eq; try done). Qed.

Lemma acquire_owns db node now lease db1 owner previous :
  acquire_ownership db tenant device node now lease = (db1, Ok (Some (owner, previous))) ->
  owner_get db1 tenant device = Some owner /\ oi_node_id owner = node
  /\ oi_lease_until owner = Some lease /\ previous = owner_get db tenant device.
Proof.
  unfold acquire_ownership. case_match; [done|].
  destruct (upsert_owner _ _ _ _ _ _ _) as [[db2 [r|]]|e] eqn:Hup; [|done..].
  destruct (upsert_written _ _ _ _ _ _ _ _ _ Hup) as (-> & Ht & Hn & He). rewrite decide_True by done.
  intros [= <- <- <-]. split_and!; try done. unfold owner_get, select_owner. simpl. rewrite lookup_insert_eq, Ht.
  by rewrite decide_True.
Qed.

(** C30: From consistent tables, a takeover that acquires the device commits in one
    transaction: this node as owner with the new lease; every operation of the device
    that was pending or running and bound to an earlier epoch failed as owner-lost at
    its next revision, their number as reported, every other operation untouched; and
    the change of owner in the outbox. Otherwise another node holds the device, or the
    call failed and committed nothing. The recovery loop ends within one page more than
    there are operations. Transactions are modelled as serial: other sessions commit
    before this one begins, not inside it. *)
Theorem takeover_fences fuel svc context s now lease (w : W) :
  consistent s -> (size (operations s) < fuel)%nat ->
  match take_ownership fuel svc context tenant device now lease (begin s) w with
  | (Ok (Some (Acquired owner n)), u1, _) =>
      consistent (committed u1) /\ tx u1 = None
      /\ owner_get (cluster (committed u1)) tenant device = Some owner
      /\ oi_node_id owner = tk_this_node svc /\ oi_lease_until owner = Some lease
      /\ (forall id o, operations s !! id = Some o -> exists o1, operations (committed u1) !! id = Some o1
            /\ if decide (stale (oi_epoch owner) o) then lost o o1 else o1 = o)
      /\ dom (operations (committed u1)) = dom (operations s)
      /\ n = Z.of_nat (size (all_stale (oi_epoch owner) s))
      /\ exists k e, outbox_events (committed u1) !! k = Some e
           /\ ev_payload (ob_event e)
              = owner_changed_event tenant device owner (owner_get (cluster s) tenant device)
  | (Ok (Some (RemoteOwner _)), u1, _) => rolled_back u1 = true
  | (Ok _, _, _) => False
  | (Err _, u1, _) => committed u1 = s \/ rolled_back u1 = true
  end.
Proof.
  intros Hc Hfuel. unfold take_ownership, app_bind at 1. unfold begin. rewrite stmt_open. unfold acquire_stmt.
  destruct (acquire_ownership (cluster s) tenant device (tk_this_node svc) now lease) as [db [[[owner previous]|]|e]] eqn:Hacq.
  3: { by left. }
  2: { unfold app_bind, rollback, autocommit. simpl. destruct (others s w) as [s2 w2].
       destruct (owner_get (cluster s2) _ _); [done|by right]. }
  destruct (acquire_owns _ _ _ _ _ _ _ Hacq) as (Hget & Hnode & Hlease & ->).
  set (s1 := set_cluster db s).
  assert (consistent s1) as Hc1.
  { split; [|apply (cs_none s Hc)|apply (cs_unique s Hc)]. intros id o Ho.
    destruct (cs_row s Hc _ _ Ho) as (? & ? & ? & Ht). split_and!; try done; apply Ht. }
  unfold app_bind at 1. pose proof (trun_recover_operations context owner fuel s1 Hc1 Hfuel s false w) as Hrec.
  unfold in_tx in Hrec. destruct (recover_operations _ _ _ _ _ _ w) as [[[x|e] u2] w2]; [|by left].
  destruct Hrec as (s2 & -> & Hrec & ->). pose proof Hrec as [Hc2 Hcl2 _ _]. unfold app_bind, app_port.
  pose proof (Event_new_fields context tenant (device_resource_ref tenant device) (oi_epoch owner)
    (owner_changed_event tenant device owner (owner_get (cluster s) tenant device)) w2) as (Href & _ & Hpay).
  destruct (Event_new _ _ _ _ _ w2) as [ev w3]. simpl in Href, Hpay. rewrite stmt_open. unfold outbox_append.
  destruct (outbox_events s2 !! ev_event_id ev) eqn:Hf; [by left|]. simpl. split_and!; try done.
  - change (consistent (append ev s2)).
    assert (forall id, op_events (append ev s2) id ≡ₚ op_events s2 id) as Hev.
    { intros id. unfold append. rewrite op_events_append by done. rewrite decide_False; [done|]. unfold about. by rewrite Href. }
    split; [|intros id Ho; apply Permutation_nil_r; rewrite Hev; by rewrite (cs_none s2 Hc2)|apply (cs_unique s2 Hc2)].
    intros id o Ho. destruct (cs_row s2 Hc2 _ _ Ho) as (? & ? & ? & Ht). split_and!; try done.
    eapply told_events; [apply Hev|exact Ht].
  - by rewrite Hcl2.
  - intros id o Ho. by apply (recovered_row _ _ _ _ _ Hrec).
  - apply (recovered_dom _ _ _ Hrec).
  - exists (ev_event_id ev), (mkEntry ev false 0 false None None). by rewrite lookup_insert_eq.
Qed.
End takeover.
