(* ===== verification/DispatchClaims.v ===== *)
(** * Theorems on submission and dispatch

    A submission is idempotent, a dispatch sends its command at most once and is
    idempotent once it returned, and a dispatch that crashed between the commit
    of its attempt and the send is never repeated. *)

From S2P Require Import Prelude RustStr Domain DomainData Operation Lifecycle OperationProps Paging Cluster UnitOfWork.
From S2P Require Import OperationService OperationHistory OperationSessions.

Open Scope string_scope.
Open Scope list_scope.
Open Scope Z_scope.

(** ** Submission *)

Lemma found_by_key s o scope :
  consistent s -> saved o s ->
  idempotency_columns o = (is_tenant_id scope, is_principal_id scope, is_idempotency_key scope) ->
  op_get_by_idempotency scope s = Some o.
Proof.
  intros Hc Ho Hcol. unfold op_get_by_idempotency.
  destruct (list_find _ _) as [[i o2]|] eqn:Hf; simpl.
  - apply list_find_Some in Hf as (Hi & Hcol2 & _). apply list_elem_of_lookup_2, list_elem_of_fmap in Hi as ([k o3] & -> & Hk).
    apply elem_of_map_to_list in Hk. simpl in *. assert (Op.operation_id o = k) as He by (eapply (cs_unique s Hc); eauto; congruence).
    unfold saved in Ho. rewrite He, Hk in Ho. done.
  - apply list_find_None in Hf. rewrite Forall_forall in Hf. exfalso. eapply Hf; [|exact Hcol].
    apply list_elem_of_fmap. exists (Op.operation_id o, o). split; [done|]. by apply elem_of_map_to_list.
Qed.

Lemma by_key_found s o scope :
  consistent s -> op_get_by_idempotency scope s = Some o ->
  saved o s /\ idempotency_columns o = (is_tenant_id scope, is_principal_id scope, is_idempotency_key scope).
Proof.
  intros Hc. unfold op_get_by_idempotency. destruct (list_find _ _) as [[i o2]|] eqn:Hf; simpl; [|done]. intros [= ->].
  apply list_find_Some in Hf as (Hi & Hcol & _). apply list_elem_of_lookup_2, list_elem_of_fmap in Hi as ([k o3] & -> & Hk).
  apply elem_of_map_to_list in Hk. simpl in *. split; [|done]. destruct (cs_row s Hc _ _ Hk) as (Hid & _). unfold saved. by rewrite Hid.
Qed.

Section submit.
Context {W : Type} `{Clock W, IdGenerator W, EventIds W, Others W} `{DateRange, UuidDisplay, DbMessages}.

(** The key of a request: what the unique index holds of it. *)
Definition request_key (context : RequestContext) (request : SubmitOperationRequest) : Uuid * string * string :=
  (rc_tenant_id context, pr_id (rc_principal context), sr_idempotency_key request).

Lemma submit_known context request s o (w : W) :
  consistent s -> saved o s -> idempotency_columns o = request_key context request ->
  rr_tenant_id (sr_target request) = rc_tenant_id context ->
  is_ok (IdempotencyScope_new (rc_tenant_id context) (pr_id (rc_principal context)) (sr_target request)
           (sr_idempotency_key request)) = true ->
  submit_operation context request (begin s) w = (Ok (to_dto o), begin s, w).
Proof.
  intros Hc Ho Hcol Ht Hok. unfold submit_operation. rewrite bool_decide_eq_true_2 by done. simpl.
  pose proof (scope_new_spec (rc_tenant_id context) (pr_id (rc_principal context)) (sr_target request)
    (sr_idempotency_key request)) as Hsc.
  destruct (IdempotencyScope_new _ _ _ _) as [sc|e]; [|done]. destruct Hsc as [_ ->].
  unfold app_bind, app_try, begin. rewrite stmt_open. unfold reads.
  by rewrite (found_by_key s o).
Qed.

(** What a submission that returned leaves in the committed tables. *)
Lemma submit_stored context request s (w : W) dto u1 w1 :
  consistent s -> submit_operation context request (begin s) w = (Ok dto, u1, w1) ->
  exists o, dto = to_dto o /\ saved o (committed u1) /\ idempotency_columns o = request_key context request
    /\ rr_tenant_id (sr_target request) = rc_tenant_id context
    /\ (forall target, is_ok (IdempotencyScope_new (rc_tenant_id context) (pr_id (rc_principal context)) target
          (sr_idempotency_key request)) = true)
    /\ ((u1 = begin s /\ saved o s)
        \/ (operations s !! Op.operation_id o = None /\ Op.status o = OsPending
            /\ cmd_target (Op.command o) = sr_target request /\ cmd_payload (Op.command o) = sr_payload request)).
Proof.
  intros Hc. unfold submit_operation. destruct (bool_decide _) eqn:Ht; simpl; [|done]. apply bool_decide_eq_true in Ht.
  pose proof (scope_new_spec (rc_tenant_id context) (pr_id (rc_principal context)) (sr_target request)
    (sr_idempotency_key request)) as Hsc.
  destruct (IdempotencyScope_new _ _ (sr_target request) _) as [sc|e]; [|done]. destruct Hsc as [Hvalid ->].
  assert (forall target, is_ok (IdempotencyScope_new (rc_tenant_id context) (pr_id (rc_principal context)) target
    (sr_idempotency_key request)) = true) as Hany.
  { intros target. pose proof (scope_new_spec (rc_tenant_id context) (pr_id (rc_principal context)) target
      (sr_idempotency_key request)) as Hs. destruct (IdempotencyScope_new _ _ target _); [done|].
    destruct Hs as [Hs _]. by rewrite Hvalid in Hs. }
  unfold app_bind at 1, app_try at 1. unfold app_bind at 1. unfold begin. rewrite stmt_open. unfold reads.
  destruct (op_get_by_idempotency _ s) as [o|] eqn:Hget.
  { intros [= <- <- <-]. destruct (by_key_found s o _ Hc Hget) as [Ho Hcol]. exists o. split_and!; try done. by left. }
  unfold app_bind at 1, app_port at 1. destruct (Op.new _ _ _ _ _ _ _ w) as [[[o e]|er] w2] eqn:Hnew; [|done].
  destruct (op_new_ok _ _ _ _ _ _ _ _ _ _ _ Hnew) as (_ & Hobs & Hrev & _ & Hten & _ & Hsc & Htgt & Hpay).
  unfold app_bind at 1, app_try at 1. unfold app_bind at 1, save_with_event, app_bind at 1. rewrite stmt_open.
  destruct (op_save o s) as [[[]|[er|er]] s1] eqn:Hsave; [|done..].
  destruct (op_save_new o s s1 Hc Hrev Hsave) as (Hno & _ & ->).
  unfold app_bind at 1, app_port. destruct (Event_new _ _ _ _ _ w2) as [ev w3]. rewrite stmt_open. unfold outbox_append.
  destruct (_ !! ev_event_id ev); [done|]. unfold app_bind, commit. simpl. intros [= <- <- <-]. exists o. split_and!; try done.
  - unfold saved. simpl. by rewrite lookup_insert_eq.
  - unfold idempotency_columns, request_key. by rewrite Hten, Hsc.
  - right. split_and!; try done. unfold observe in Hobs. by injection Hobs.
Qed.

(** The key of a request decides alone: once an operation is stored under its tenant,
    principal and key, every submission with these returns it, {e whatever} target and
    payload it names, although the scope of a key is documented to include the target. *)
Lemma submit_ignores_target context request s (w : W) dto u1 w1 :
  consistent s -> submit_operation context request (begin s) w = (Ok dto, u1, w1) ->
  exists o, dto = to_dto o /\ saved o (committed u1)
    /\ (saved o s \/ (operations s !! Op.operation_id o = None /\ dto_status dto = OsPending
                      /\ dto_target dto = sr_target request))
    /\ forall s2 context2 request2 (w2 : W),
         consistent s2 -> advances (committed u1) s2 ->
         request_key context2 request2 = request_key context request ->
         rr_tenant_id (sr_target request2) = rc_tenant_id context2 ->
         exists o2, operations s2 !! Op.operation_id o = Some o2
           /\ submit_operation context2 request2 (begin s2) w2 = (Ok (to_dto o2), begin s2, w2).
Proof.
  intros Hc Hsub. destruct (submit_stored _ _ _ _ _ _ _ Hc Hsub) as (o & -> & Hsaved & Hcol & _ & Hany & Hnew).
  exists o. split_and!; [done|done|naive_solver|].
  intros s2 context2 request2 w2 Hc2 Hadv Hkey Ht. destruct (Hadv _ _ Hsaved) as (o2 & Ho2 & Hn).
  destruct (identity_columns _ _ (proj1 Hn)) as [Hid Hcol2]. exists o2. split; [done|]. apply submit_known; try done.
  - unfold saved. by rewrite Hid.
  - rewrite Hcol2, Hcol. congruence.
  - unfold request_key in Hkey. injection Hkey as -> -> ->. apply Hany.
Qed.

(** C27: From consistent tables, a submission is idempotent in its documented scope: it
    returns an operation that is stored under the key, a new one in Pending with the
    target asked for or the one that was there, and every later submission with the same
    tenant, principal, target and key returns that operation in its current state and
    changes nothing. The code also ignores the target, against the documentation (see
    the findings). *)
Theorem submit_once context request s (w : W) dto u1 w1 :
  consistent s -> submit_operation context request (begin s) w = (Ok dto, u1, w1) ->
  exists o, dto = to_dto o /\ saved o (committed u1)
    /\ (saved o s \/ (operations s !! Op.operation_id o = None /\ dto_status dto = OsPending
                      /\ dto_target dto = sr_target request))
    /\ forall s2 context2 request2 (w2 : W),
         consistent s2 -> advances (committed u1) s2 ->
         rc_tenant_id context2 = rc_tenant_id context -> pr_id (rc_principal context2) = pr_id (rc_principal context) ->
         sr_target request2 = sr_target request -> sr_idempotency_key request2 = sr_idempotency_key request ->
         exists o2, operations s2 !! Op.operation_id o = Some o2
           /\ submit_operation context2 request2 (begin s2) w2 = (Ok (to_dto o2), begin s2, w2).
Proof.
  intros Hc Hsub. destruct (submit_ignores_target _ _ _ _ _ _ _ Hc Hsub) as (o & Hdto & Hsaved & Hnew & Hagain).
  exists o. split_and!; [done..|]. intros s2 context2 request2 w2 Hc2 Hadv Ht Hp Htgt Hk.
  assert (rr_tenant_id (sr_target request) = rc_tenant_id context) as Hten.
  { unfold submit_operation in Hsub. by case_bool_decide. }
  apply Hagain; [done|done| |].
  - unfold request_key. congruence.
  - congruence.
Qed.
End submit.

(** ** Dispatch *)

(** Nothing is left to send for the operation. *)
Definition settled (o : Op.Operation) : Prop :=
  Op.is_terminal o = true
  \/ (Op.status o = OsRunning /\ has_sent_or_acked_attempt o (dispatch_step_id o) = true).

Lemma identity_step o o1 : identity o1 = identity o ->
  dispatch_step_id o1 = dispatch_step_id o /\ Op.command o1 = Op.command o /\ Op.device_id o1 = Op.device_id o
  /\ Op.tenant_id o1 = Op.tenant_id o /\ Op.operation_id o1 = Op.operation_id o.
Proof. unfold identity, dispatch_step_id. intros H. injection H as Hi Ht Hd _ _ _ Hc _ _ _. by rewrite Hc. Qed.

Lemma mark_sent_settles {W} `{Clock W, UuidDisplay} sid aid o (w : W) r o1 w1 :
  Op.mark_dispatch_attempt_sent sid aid o w = (Ok r, o1, w1) ->
  has_sent_or_acked_attempt o1 sid = true /\ observe o1 = observe o.
Proof.
  unfold Op.mark_dispatch_attempt_sent, Op.on_attempt, Op.bump, Attempt.mark_sent. dm_unfold.
  destruct (Op.step_mut sid o) as [[i s]|] eqn:Hs; [|done].
  destruct (Step.attempt_mut aid s) as [[j a]|] eqn:Ha; [|done].
  destruct (now_wall w) as [t1 w2], (now_wall w2) as [t2 w3]. intros [= <- <- <-]. split; [|done].
  unfold has_sent_or_acked_attempt, find_step. simpl. unfold Op.step_mut in Hs.
  erewrite list_find_insert_same; [|exact Hs|]. 2: { by apply list_find_Some in Hs as (_ & ? & _). }
  simpl. apply existsb_exists. eexists. split.
  - apply list_elem_of_In, list_elem_of_lookup. exists j. apply list_lookup_insert_eq.
    apply list_find_Some in Ha as (Ha & _). by eapply lookup_lt_Some.
  - done.
Qed.

Lemma complete_ends {W} `{Clock W, UuidDisplay} r o (w : W) e o1 w1 :
  Op.complete r o w = (Ok e, o1, w1) -> Op.is_terminal o1 = true.
Proof.
  intros Hrun. destruct (OperationResult_validate r) as [[]|er] eqn:Hv; [destruct (decide (Op.status o = OsRunning)) as [Hs|Hno]|].
  - edestruct (complete_run r o w) as (? & ? & ? & Hc & _); [done..|]. rewrite Hc in Hrun. injection Hrun as <- <- <-.
    unfold Op.is_terminal. simpl. by destruct (OperationResult_is_success r).
  - edestruct (complete_rejected r o w) as [er Hc]; [by right|]. by rewrite Hc in Hrun.
  - unfold Op.complete in Hrun. dm_unfold_in Hrun. by rewrite Hv in Hrun.
Qed.

Section dispatch.
Context {W : Type} `{Clock W, IdGenerator W, EventIds W, Others W} `{DateRange, UuidDisplay, DbMessages}
  `{CommandBus W, DeviceOwnerResolver W}.

(** What a dispatch does when there is something to send. *)
Definition dispatch_rest (context : RequestContext) (tenant : Uuid) (o0 : Op.Operation) : app W OperationDto :=
  let+ o := start_pending context tenant o0 in
  let+ (attempt_id, o) := pending_attempt o (dispatch_step_id o0) in
  do+ save_operation o in
  let+ o := send_command context tenant o (dispatch_step_id o0) attempt_id in
  app_ret (to_dto o).

Definition is_settled (o : Op.Operation) : bool :=
  Op.is_terminal o || (bool_decide (Op.status o = OsRunning) && has_sent_or_acked_attempt o (dispatch_step_id o)).

Lemma is_settled_spec o : is_settled o = true <-> settled o.
Proof. unfold is_settled, settled. by rewrite orb_true_iff, andb_true_iff, bool_decide_eq_true. Qed.

Lemma dispatch_unfold context tenant id s (w : W) :
  dispatch context tenant id (begin s) w
  = match op_get tenant id s with
    | None => (Err (domain_to_signal (not_found "operation" (uuid_to_string id))), begin s, w)
    | Some o => if is_settled o then (Ok (to_dto o), begin s, w) else dispatch_rest context tenant o (begin s) w
    end.
Proof.
  unfold dispatch, dispatch_rest, prepare_dispatch, load_operation, is_settled, app_bind, begin. rewrite stmt_open. simpl.
  destruct (op_get tenant id s) as [o|]; [|done]. simpl.
  destruct (Op.is_terminal o); [done|]. simpl. destruct (_ && _); [done|].
  destruct (start_pending _ _ _ _ _) as [[[o1|e] u1] w1]; [|done].
  destruct (pending_attempt _ _ _ _) as [[[[aid o2]|e] u2] w2]; [|done].
  by destruct (save_operation _ _ _) as [[[[]|e] u3] w3].
Qed.

Lemma dispatch_settled context tenant s o (w : W) :
  saved o s -> Op.tenant_id o = tenant -> settled o ->
  dispatch context tenant (Op.operation_id o) (begin s) w = (Ok (to_dto o), begin s, w).
Proof.
  intros Ho Ht Hs%is_settled_spec. rewrite dispatch_unfold. unfold op_get. rewrite Ho, decide_True by done. by rewrite Hs.
Qed.

(** ** Transactions are closed at the end *)

Definition closes {A} (m : app W A) : Prop := forall u w a u1 w1, m u w = (Ok a, u1, w1) -> tx u1 = None.
Lemma closes_bind {A B} (m : app W A) (k : A -> app W B) : (forall a, closes (k a)) -> closes (app_bind m k).
Proof. intros Hk u w b u1 w1. unfold app_bind. destruct (m u w) as [[[a|e] u2] w2]; [apply Hk|done]. Qed.
Lemma closes_ret {A B} (m : app W A) (b : B) : closes m -> closes (app_bind m (fun _ => app_ret b)).
Proof. intros Hm u w x u1 w1. unfold app_bind. destruct (m u w) as [[[a|e] u2] w2] eqn:He; [|done]. intros [= <- <- <-]. by eapply Hm. Qed.
Lemma closes_fmap {A B} (m : app W A) (f : A -> B) : closes m -> closes (app_bind m (fun a => app_ret (f a))).
Proof. intros Hm u w x u1 w1. unfold app_bind. destruct (m u w) as [[[a|e] u2] w2] eqn:He; [|done]. intros [= <- <- <-]. by eapply Hm. Qed.
Lemma closes_commit : closes (commit (W := W)).
Proof. intros [c [t|] rb] w a u1 w1; unfold commit; simpl; destruct rb; try done; by intros [= <- <- <-]. Qed.

Lemma closes_reject context tenant o sid aid code message : closes (reject_attempt (W := W) context tenant o sid aid code message).
Proof.
  apply closes_bind. intros [? ?]. apply closes_bind. intros []. apply closes_bind. intros [? ?].
  apply closes_bind. intros []. apply closes_ret, closes_commit.
Qed.
Lemma closes_send context tenant o sid aid : closes (send_command (W := W) context tenant o sid aid).
Proof.
  apply closes_bind. intros [[owner|]|e]; try apply closes_reject. case_match; [|apply closes_reject].
  apply closes_bind. intros [[]|e]; [|apply closes_reject]. apply closes_bind. intros [? ?].
  apply closes_ret, closes_bind. intros []. apply closes_commit.
Qed.
Lemma closes_rest context tenant o : closes (dispatch_rest context tenant o).
Proof.
  apply closes_bind. intros o1. apply closes_bind. intros [aid o2]. apply closes_bind. intros [].
  apply closes_fmap, closes_send.
Qed.
End dispatch.

(** ** A dispatch settles the operation *)

Section settles.
Context {W : Type} `{Clock W, IdGenerator W, EventIds W} `{OthersRely W} `{DateRange, UuidDisplay, DbMessages}
  `{CommandBus W, DeviceOwnerResolver W}.

(** An operation on its way: running, with the identity of [o]. *)
Definition going (o o1 : Op.Operation) : Prop := identity o1 = identity o /\ Op.status o1 = OsRunning.

Lemma going_next o o1 o2 : going o o1 -> next o1 None o2 -> going o o2.
Proof.
  intros [Hi Hs] (Hi2 & _ & _ & Hobs). split; [congruence|]. unfold observe in Hobs. injection Hobs as -> _ _. done.
Qed.

Lemma spec_start_going context tenant o :
  Op.is_terminal o = false ->
  spec (holds o) (start_pending (W := W) context tenant o) (fun o1 s => going o o1 /\ holds o1 s).
Proof.
  intros Ht. unfold start_pending. apply spec_holds. intros Hi _. unfold Op.is_terminal in Ht.
  destruct (Op.status o) eqn:Hs; try done; [|by eapply spec_pre; [|apply spec_ret]; intros s Hh].
  eapply (spec_bind _ _ _ (fun r s => (next o (Some r.1) r.2 /\ Op.status r.2 = OsRunning) /\ holds o s)).
  { apply (spec_method _ Op.start o (fun e o1 => next o (Some e) o1 /\ Op.status o1 = OsRunning)). intros w e o1 w1 Hrun.
    split; [eapply exec_next; [done|]; by apply start_call|].
    edestruct (start_run o w) as (? & ? & ? & Hr & _); [done|]. rewrite Hr in Hrun. by injection Hrun as <- <- <-. }
  intros [e o1]. apply spec_pure. intros [Hn Hrun]. simpl in *. eapply spec_post; [|by apply spec_event_tail].
  intros ? s [-> ?]. split; [|done]. split; [apply Hn|done].
Qed.

Lemma spec_attempt_going o o1 sid :
  going o o1 ->
  spec (holds o1) (app_bind (pending_attempt (W := W) o1 sid) (fun r => app_bind (save_operation r.2) (fun _ => app_ret r)))
    (fun r s => going o r.2 /\ holds r.2 s).
Proof.
  intros Hgo. unfold pending_attempt. destruct (find_pending_attempt_id _ _) as [aid|].
  - eapply (spec_bind _ _ _ (fun r s => r = (aid, o1) /\ holds o1 s)); [by eapply spec_pre; [|apply spec_ret]|].
    intros [aid1 o2]. apply spec_pure. intros [= -> ->]. eapply spec_bind; [apply (spec_save_again o1 (fun _ _ => False))|].
    by intros [] u w.
  - apply spec_holds. intros Hi _. eapply (spec_bind _ _ _ (fun r s => next o1 None r.2 /\ holds o1 s)).
    + eapply spec_bind; [apply (spec_port _ _ (fun _ => holds o1)); done|]. intros aid.
      eapply spec_bind; [eapply spec_quiet_method; [apply record_call|done]|]. intros [[] o2].
      eapply spec_pre; [|apply spec_ret]. done.
    + intros [aid o2]. apply spec_pure. intros Hn. simpl in *. eapply spec_bind; [by apply spec_save_quiet|].
      intros []. eapply spec_pre; [|apply spec_ret]. intros s Hh. split; [by eapply going_next|done].
Qed.

Definition settles (o : Op.Operation) (o1 : Op.Operation) (s : Store) : Prop :=
  identity o1 = identity o /\ saved o1 s /\ settled o1.

Lemma spec_reject_settles context tenant o o1 sid aid code message :
  going o o1 -> spec (holds o1) (reject_attempt (W := W) context tenant o1 sid aid code message) (settles o).
Proof.
  intros Hgo. unfold reject_attempt. apply spec_holds. intros Hi _.
  eapply spec_bind; [eapply spec_quiet_method; [apply nacked_call|done]|]. intros [[] o2]. apply spec_pure. intros Hn. simpl in *.
  pose proof (going_next _ _ _ Hgo Hn) as Hgo2. eapply spec_bind; [by apply spec_save_quiet|]. intros [].
  unfold fail_operation. apply spec_holds. intros Hi2 _.
  eapply (spec_bind _ _ _ (fun r s => (next o2 (Some r.1) r.2 /\ Op.is_terminal r.2 = true) /\ holds o2 s)).
  { apply (spec_method _ (Op.complete (Failure code message)) o2 (fun e o3 => next o2 (Some e) o3 /\ Op.is_terminal o3 = true)).
    intros w e o3 w1 Hrun. split; [eapply exec_next; [done|]; by apply complete_call|by eapply complete_ends]. }
  intros [e o3]. apply spec_pure. intros [Hn3 Ht]. simpl in *.
  eapply spec_bind; [by eapply spec_saved_event|]. intros []. eapply spec_bind; [apply spec_commit|]. intros [].
  eapply spec_pre; [|apply spec_ret]. intros s [Hs _]. split_and!; [|done|by left].
  destruct Hn3 as [Hid _], Hgo2 as [Hid2 _]. congruence.
Qed.

Lemma spec_send_settles context tenant o o1 aid :
  going o o1 -> spec (holds o1) (send_command (W := W) context tenant o1 (dispatch_step_id o) aid) (settles o).
Proof.
  intros Hgo. unfold send_command. eapply spec_bind; [apply (spec_port _ _ (fun _ => holds o1)); done|].
  intros [[owner|]|e]; [|by apply spec_reject_settles..]. case_match; [|by apply spec_reject_settles].
  eapply spec_bind; [apply (spec_port _ _ (fun _ => holds o1)); done|]. intros [[]|e]; [|by apply spec_reject_settles].
  apply spec_holds. intros Hi _.
  eapply (spec_bind _ _ _ (fun r s => (next o1 None r.2 /\ has_sent_or_acked_attempt r.2 (dispatch_step_id o) = true) /\ holds o1 s)).
  { apply (spec_method _ (Op.mark_dispatch_attempt_sent (dispatch_step_id o) aid) o1
      (fun _ o2 => next o1 None o2 /\ has_sent_or_acked_attempt o2 (dispatch_step_id o) = true)).
    intros w [] o2 w1 Hrun. split; [eapply exec_next; [done|]; by eapply sent_call|by eapply mark_sent_settles]. }
  intros [[] o2]. apply spec_pure. intros [Hn Hsent]. simpl in *. pose proof (going_next _ _ _ Hgo Hn) as [Hid Hrun].
  eapply spec_bind; [by eapply spec_saved_quiet|]. intros [].
  eapply spec_pre; [|apply spec_ret]. intros s [Hs _]. split_and!; try done. right. split; [done|].
  by destruct (identity_step _ _ Hid) as [-> _].
Qed.

Lemma spec_rest_settles context tenant o :
  Op.is_terminal o = false ->
  spec (holds o) (dispatch_rest (W := W) context tenant o) (fun dto s => exists o1, dto = to_dto o1 /\ settles o o1 s).
Proof.
  intros Ht. unfold dispatch_rest. eapply spec_bind; [by apply spec_start_going|]. intros o1. apply spec_pure. intros Hgo.
  intros u w Hg Hh.
  pose proof (spec_bind _ _ (fun r => app_bind (send_command context tenant r.2 (dispatch_step_id o) r.1)
      (fun o2 => app_ret (to_dto o2))) _ (fun dto s => exists o1, dto = to_dto o1 /\ settles o o1 s)
    (spec_attempt_going o o1 (dispatch_step_id o) Hgo)) as Hb.
  assert (forall r, spec (fun s => going o r.2 /\ holds r.2 s)
    (app_bind (send_command (W := W) context tenant r.2 (dispatch_step_id o) r.1) (fun o2 => app_ret (to_dto o2)))
    (fun dto s => exists o1, dto = to_dto o1 /\ settles o o1 s)) as Hsend.
  { intros [aid o2]. simpl. apply spec_pure. intros Hgo2. eapply spec_bind; [by apply spec_send_settles|].
    intros o3. eapply spec_pre; [|apply spec_ret]. intros s Hs. by exists o3. }
  specialize (Hb Hsend u w Hg Hh). unfold app_bind in Hb |- *.
  destruct (pending_attempt _ _ u w) as [[[[aid o2]|e] u1] w1]; [|done]. simpl in Hb.
  by destruct (save_operation o2 u1 w1) as [[[[]|e] u2] w2].
Qed.
End settles.

(** ** What is sent *)

(** The commands that were handed to the bus, as an observation of the world. *)
Class BusTrace (W : Type) `{Clock W, IdGenerator W, EventIds W, Others W, CommandBus W, DeviceOwnerResolver W} := {
  sent : W -> list Command;
  sent_bus : forall c w, sent (bus_send c w).2 = sent w ++ [c];
  sent_clock : forall w : W, sent (now_wall w).2 = sent w;
  sent_message_id : forall w : W, sent (generate_message_id w).2 = sent w;
  sent_event_id : forall w : W, sent (generate_event_id w).2 = sent w;
  sent_others : forall s (w : W), sent (others s w).2 = sent w;
  sent_resolve : forall t d (w : W), sent (resolve_owner t d w).2 = sent w
}.

Section trace.
Context {W : Type} `{HT : BusTrace W} `{DateRange, UuidDisplay, DbMessages}.

Definition mute {S A} (m : dm S W A) : Prop := forall s w, sent (m s w).2 = sent w.
Lemma mute_bind {S A B} (m : dm S W A) (k : A -> dm S W B) : mute m -> (forall a, mute (k a)) -> mute (dm_bind m k).
Proof.
  intros Hm Hk s w. unfold dm_bind. specialize (Hm s w). destruct (m s w) as [[[a|e] s1] w1]; [|done].
  rewrite Hk. done.
Qed.
Lemma mute_ret {S A} (a : A) : mute (S := S) (dm_ret a). Proof. done. Qed.
Lemma mute_err {S A} e : mute (S := S) (A := A) (dm_err e). Proof. done. Qed.
Lemma mute_get {S} : mute (S := S) dm_get. Proof. done. Qed.
Lemma mute_mod {S} (f : S -> S) : mute (dm_mod f). Proof. done. Qed.
Lemma mute_try {S A} (r : result A DomainError) : mute (S := S) (dm_try r). Proof. done. Qed.
Lemma mute_now {S} : mute (S := S) (dm_port now_wall).
Proof. intros s w. unfold dm_port. pose proof (sent_clock w). by destruct (now_wall w). Qed.
Lemma mute_elem {S T A} (get : S -> list T) set i t (m : dm T W A) : mute m -> mute (dm_elem get set i t m).
Proof. intros Hm s w. unfold dm_elem. specialize (Hm t w). by destruct (m t w) as [[r t1] w1]. Qed.

Ltac mute :=
  repeat match goal with
  | |- forall _, mute _ => intros ?
  | |- mute (dm_bind _ _) => apply mute_bind
  | |- mute (dm_ret _) => apply mute_ret
  | |- mute (dm_err _) => apply mute_err
  | |- mute dm_get => apply mute_get
  | |- mute (dm_mod _) => apply mute_mod
  | |- mute (dm_try _) => apply mute_try
  | |- mute (dm_port now_wall) => apply mute_now
  | |- mute (dm_elem _ _ _ _ _) => apply mute_elem
  | |- mute (match ?x with _ => _ end) => destruct x
  end.

Lemma mute_bump : mute Op.bump. Proof. unfold Op.bump. mute. Qed.
Lemma mute_current_step (m : dm Step.OperationStep W unit) : mute m -> mute (Op.with_current_step m).
Proof. intros Hm. unfold Op.with_current_step. mute. done. Qed.
Lemma mute_step_complete r : mute (Step.complete r). Proof. unfold Step.complete, Step.touch. mute. Qed.
Lemma mute_step_start : mute Step.start. Proof. unfold Step.start, Step.touch. mute. Qed.
Lemma mute_step_new c : mute (S := Op.Operation) (dm_port (Step.new c)).
Proof.
  intros s w. unfold dm_port, Step.new. pose proof (sent_clock w). destruct (now_wall w) as [t1 w1].
  pose proof (sent_clock w1). destruct (now_wall w1) as [t2 w2]. simpl in *. congruence.
Qed.

Lemma mute_start : mute Op.start.
Proof.
  unfold Op.start, Op.changed. mute; try apply mute_bump; try (apply mute_current_step, mute_step_start); apply mute_step_new.
Qed.
Lemma mute_complete r : mute (Op.complete r).
Proof. unfold Op.complete, Op.changed. mute; try apply mute_bump; apply mute_current_step, mute_step_complete. Qed.
Lemma mute_record sid a : mute (Op.record_dispatch_attempt sid a).
Proof. unfold Op.record_dispatch_attempt, Step.add_attempt, Step.touch. mute; apply mute_bump. Qed.
Lemma mute_sent sid aid : mute (Op.mark_dispatch_attempt_sent sid aid).
Proof. unfold Op.mark_dispatch_attempt_sent, Op.on_attempt, Attempt.mark_sent. mute; apply mute_bump. Qed.
Lemma mute_nacked sid aid e : mute (Op.mark_dispatch_attempt_nacked sid aid e).
Proof. unfold Op.mark_dispatch_attempt_nacked, Op.on_attempt, Attempt.mark_nacked. mute; apply mute_bump. Qed.

(** A computation that sends nothing, and one that sends at most [c]. *)
Definition silent {A} (m : app W A) : Prop := forall u w, sent (m u w).2 = sent w.
Definition sends {A} (c : Command) (m : app W A) : Prop :=
  forall u w, sent (m u w).2 = sent w \/ sent (m u w).2 = sent w ++ [c].

Lemma silent_bind {A B} (m : app W A) (k : A -> app W B) : silent m -> (forall a, silent (k a)) -> silent (app_bind m k).
Proof.
  intros Hm Hk u w. unfold app_bind. specialize (Hm u w). destruct (m u w) as [[[a|e] u1] w1]; [|done]. by rewrite Hk.
Qed.
Lemma silent_ret {A} (a : A) : silent (app_ret a). Proof. done. Qed.
Lemma silent_err {A} e : silent (A := A) (app_err e). Proof. done. Qed.
Lemma silent_commit : silent commit.
Proof. intros u w. unfold commit, commit_domain. by destruct (rolled_back u). Qed.
Lemma silent_method {S A} (m : dm S W A) s : mute m -> silent (app_method m s).
Proof. intros Hm u w. unfold app_method. specialize (Hm s w). by destruct (m s w) as [[r s1] w1]. Qed.
Lemma silent_stmt {A} (f : Store -> stmt_result A) : silent (stmt f).
Proof.
  intros u w. unfold stmt, stmt_domain, uow_tx. pose proof (sent_others (committed u) w) as Ho.
  destruct (tx u) as [t|]; [|destruct (others (committed u) w) as [s w1]];
    repeat (case_match; simplify_eq; simpl in *; try done).
Qed.
Lemma silent_event_new context tenant ref seq (e : DomainEvent) : silent (app_port (Event_new context tenant ref seq e)).
Proof.
  intros u w. unfold app_port, Event_new. pose proof (sent_event_id w). destruct (generate_event_id w) as [id w1].
  pose proof (sent_clock w1). destruct (now_wall w1). simpl in *. congruence.
Qed.
Lemma silent_save_event context tenant o e : silent (save_with_event context tenant o e).
Proof.
  apply silent_bind; [apply silent_stmt|]. intros []. apply silent_bind; [apply silent_event_new|]. intros ev. apply silent_stmt.
Qed.
Lemma silent_save o : silent (save_operation o).
Proof. apply silent_bind; [apply silent_stmt|]. intros []. apply silent_commit. Qed.

(** The rest of an event change. *)
Lemma silent_tail {A} context tenant o e (a : A) :
  silent (app_bind (save_with_event context tenant o e) (fun _ => app_bind commit (fun _ => app_ret a))).
Proof.
  apply silent_bind; [apply silent_save_event|]. intros []. apply silent_bind; [apply silent_commit|]. intros []. apply silent_ret.
Qed.

Lemma silent_start_pending context tenant o : silent (start_pending context tenant o).
Proof.
  unfold start_pending. destruct (Op.status o); try apply silent_ret.
  apply silent_bind; [apply silent_method, mute_start|]. intros [e o1]. apply silent_tail.
Qed.
Lemma silent_reject context tenant o sid aid code message : silent (reject_attempt context tenant o sid aid code message).
Proof.
  apply silent_bind; [apply silent_method, mute_nacked|]. intros [[] o1]. apply silent_bind; [apply silent_save|]. intros [].
  apply silent_bind; [apply silent_method, mute_complete|]. intros [e o2]. apply silent_tail.
Qed.
Lemma silent_attempt o sid : silent (pending_attempt o sid).
Proof.
  unfold pending_attempt. destruct (find_pending_attempt_id o sid); [apply silent_ret|].
  apply silent_bind.
  - intros u w. unfold app_port. pose proof (sent_message_id w). by destruct (generate_message_id w).
  - intros id. apply silent_bind; [apply silent_method, mute_record|]. intros [[] o1]. apply silent_ret.
Qed.

Lemma silent_sends {A} c (m : app W A) : silent m -> sends c m.
Proof. intros Hm u w. left. apply Hm. Qed.
Lemma sends_after {A B} c (m : app W A) (k : A -> app W B) : silent m -> (forall a, sends c (k a)) -> sends c (app_bind m k).
Proof.
  intros Hm Hk u w. unfold app_bind. specialize (Hm u w). destruct (m u w) as [[[a|e] u1] w1]; simpl in *; [|by left].
  rewrite <-Hm. apply Hk.
Qed.
Lemma sends_before {A B} c (m : app W A) (k : A -> app W B) : sends c m -> (forall a, silent (k a)) -> sends c (app_bind m k).
Proof.
  intros Hm Hk u w. unfold app_bind. specialize (Hm u w). destruct (m u w) as [[[a|e] u1] w1]; simpl in *; [|done]. by rewrite Hk.
Qed.

Lemma sends_send_command context tenant o sid aid : sends (Op.command o) (send_command context tenant o sid aid).
Proof.
  unfold send_command. apply sends_after.
  { intros u w. unfold app_port. pose proof (sent_resolve tenant (Op.device_id o) w). by destruct (resolve_owner _ _ w). }
  intros [[owner|]|e]; [|apply silent_sends, silent_reject..]. case_match; [|apply silent_sends, silent_reject].
  apply sends_before.
  - intros u w. unfold app_port. right. pose proof (sent_bus (Op.command o) w). by destruct (bus_send _ w).
  - intros [[]|e]; [|apply silent_reject]. apply silent_bind; [apply silent_method, mute_sent|]. intros [[] o1].
    apply silent_bind; [apply silent_save|]. intros []. apply silent_ret.
Qed.
End trace.

Section identity.
Context {W : Type} `{Clock W, UuidDisplay}.

Lemma exec_identity c o (w : W) e o1 w1 : Op.exec c o w = (Ok e, o1, w1) -> identity o1 = identity o.
Proof. intros Hx. apply exec_shaped in Hx. by inversion Hx. Qed.

(** A recorded attempt is the pending attempt of its step. *)
Lemma record_pending sid id o (w : W) r o1 w1 :
  Op.record_dispatch_attempt sid (Attempt.new id) o w = (Ok r, o1, w1) -> find_pending_attempt_id o1 sid = Some id.
Proof.
  intros Hrun. destruct (Op.step_mut sid o) as [[i s]|] eqn:Hs.
  - edestruct (record_run sid (Attempt.new id) o w) as (t1 & t & w2 & Hr); [done|]. rewrite Hr in Hrun.
    injection Hrun as <- <- <-. unfold find_pending_attempt_id, find_step. simpl. unfold Op.step_mut in Hs.
    erewrite list_find_insert_same; [|exact Hs|by apply list_find_Some in Hs as (_ & ? & _)].
    simpl. rewrite reverse_snoc. simpl. done.
  - edestruct (record_rejected sid (Attempt.new id) o w) as [e Hr]; [done|]. by rewrite Hr in Hrun.
Qed.
End identity.

Section claims.
Context {W : Type} `{HT : BusTrace W} `{!OthersRely W} `{DateRange, UuidDisplay, DbMessages}.

Definition yields {A} (m : app W A) (phi : A -> Prop) : Prop := forall u w a u1 w1, m u w = (Ok a, u1, w1) -> phi a.

Lemma yields_start context tenant o :
  yields (start_pending context tenant o) (fun o1 => identity o1 = identity o).
Proof.
  intros u w o1 u1 w1. unfold start_pending. destruct (Op.status o); try by intros [= <- <- <-].
  unfold app_bind at 1, app_method at 1. destruct (Op.start o w) as [[[e|er] o2] w2] eqn:Hs; [|done].
  pose proof (exec_identity _ _ _ _ _ _ (start_call _ _ _ _ _ Hs)) as Hid. simpl.
  unfold app_bind. destruct (save_with_event _ _ _ _ _ _) as [[[[]|] u2] w3]; [|done].
  destruct (commit u2 w3) as [[[[]|] u3] w4]; [|done]. by intros [= <- <- <-].
Qed.

Lemma yields_attempt o sid :
  yields (pending_attempt o sid) (fun r => identity r.2 = identity o).
Proof.
  intros u w [aid o1] u1 w1. unfold pending_attempt. destruct (find_pending_attempt_id o sid); [by intros [= <- <- <-]|].
  unfold app_bind, app_port. destruct (generate_message_id w) as [id w2]. unfold app_method.
  destruct (Op.record_dispatch_attempt _ _ o w2) as [[[[]|e] o2] w3] eqn:Hr; [|done]. intros [= <- <- <- <-]. simpl.
  eapply exec_identity. by eapply record_call.
Qed.

Lemma sends_yields {A B} c (m : app W A) (k : A -> app W B) phi :
  silent m -> yields m phi -> (forall a, phi a -> sends c (k a)) -> sends c (app_bind m k).
Proof.
  intros Hm Hy Hk u w. unfold app_bind. specialize (Hm u w). specialize (Hy u w).
  destruct (m u w) as [[[a|e] u1] w1]; simpl in *; [|by left]. rewrite <-Hm. apply Hk. by eapply Hy.
Qed.

Lemma sends_rest context tenant o : sends (Op.command o) (dispatch_rest context tenant o).
Proof.
  unfold dispatch_rest. eapply sends_yields; [apply silent_start_pending|apply yields_start|]. intros o1 Hid1.
  eapply sends_yields; [apply silent_attempt|apply yields_attempt|]. intros [aid o2] Hid2. simpl in Hid2.
  apply sends_after; [apply silent_save|]. intros [].
  assert (Op.command o2 = Op.command o) as <-.
  { destruct (identity_step _ _ Hid1) as (_ & <- & _). by destruct (identity_step _ _ Hid2) as (_ & -> & _). }
  apply sends_before; [apply sends_send_command|]. intros o3. apply silent_ret.
Qed.

(** C26: A dispatch sends at most one command, the command of the operation, and
    only for an operation that is pending, or running with no attempt that was
    sent or acknowledged.  When it returns, the operation is committed as failed
    or as running with a sent attempt (or was so before), and dispatching it again
    returns the same answer, sends nothing and changes nothing. *)
Theorem dispatch_sends_once context tenant id s (w : W) :
  consistent s ->
  let '(r, u1, w1) := dispatch context tenant id (begin s) w in
  (sent w1 = sent w
   \/ exists o, operations s !! id = Some o /\ ~ settled o /\ sent w1 = sent w ++ [Op.command o])
  /\ match r with
     | Ok dto => exists o1, dto = to_dto o1 /\ operations (committed u1) !! id = Some o1 /\ settled o1
         /\ forall context2 w2, dispatch context2 tenant id (begin (committed u1)) w2
                                = (Ok dto, begin (committed u1), w2)
     | Err _ => True
     end.
Proof.
  intros Hc. rewrite dispatch_unfold. unfold op_get. destruct (operations s !! id) as [o|] eqn:Ho; [|by split; [left|]].
  destruct (cs_row s Hc _ _ Ho) as (Hid & _). subst id. case_decide as Ht; [|by split; [left|]].
  destruct (is_settled o) eqn:Hset.
  { apply is_settled_spec in Hset. split; [by left|]. exists o. split_and!; try done.
    intros context2 w2. by apply dispatch_settled. }
  pose proof (sends_rest context tenant o (begin s) w) as Hsend.
  assert (Op.is_terminal o = false) as Hterm by (unfold is_settled in Hset; by apply orb_false_iff in Hset as [? _]).
  assert (good (begin s)) as Hg by (split; [done|]; by split_and!).
  pose proof (spec_rest_settles context tenant o Hterm (begin s) w Hg (holds_stored o s Hc Ho)) as Hspec.
  pose proof (closes_rest context tenant o (begin s) w) as Hclose.
  destruct (dispatch_rest _ _ _ _ _) as [[r u1] w1]. simpl in Hsend. destruct Hspec as (Hc1 & _ & Hr). split.
  - destruct Hsend as [|Hs]; [by left|right]. exists o. split_and!; try done. rewrite <-is_settled_spec. congruence.
  - destruct r as [dto|e]; [|done]. destruct Hr as (_ & _ & o1 & -> & Hid1 & Hsaved & Hset1).
    destruct (identity_step _ _ Hid1) as (_ & _ & _ & Hten & Hoid).
    unfold view, saved in Hsaved. rewrite (Hclose _ _ _ eq_refl) in Hsaved.
    exists o1. split_and!; try done; [by rewrite <-Hoid|]. intros context2 w2. rewrite <-Hoid.
    apply dispatch_settled; [done|congruence|done].
Qed.

(** The state that a crash leaves between the commit of the attempt and the
    send: the operation is running, with a pending attempt. *)
Lemma prepared_state context tenant id s (w : W) o sid aid u1 w1 :
  consistent s -> prepare_dispatch context tenant id (begin s) w = (Ok (inr (o, sid, aid)), u1, w1) ->
  consistent (committed u1) /\ saved o (committed u1) /\ Op.operation_id o = id /\ Op.tenant_id o = tenant
  /\ Op.status o = OsRunning /\ sid = dispatch_step_id o /\ find_pending_attempt_id o sid = Some aid.
Proof.
  intros Hc. unfold prepare_dispatch, load_operation, app_bind at 1 2, begin. rewrite stmt_open. simpl. unfold op_get.
  destruct (operations s !! id) as [o0|] eqn:Ho; [|done]. destruct (cs_row s Hc _ _ Ho) as (Hid & _). subst id.
  case_decide as Ht; [|done]. simpl. destruct (Op.is_terminal o0) eqn:Hterm; [done|]. destruct (_ && _); [done|].
  assert (good (begin s)) as Hg by (split; [done|]; by split_and!).
  pose proof (spec_start_going context tenant o0 Hterm (begin s) w Hg (holds_stored o0 s Hc Ho)) as Hstart.
  unfold app_bind at 1. unfold begin in *. destruct (start_pending _ _ _ _ _) as [[[o1|e] u2] w2]; [|done].
  destruct Hstart as (_ & _ & Hg2 & _ & [Hid1 Hrun1] & Hh1). pose proof Hh1 as (Hr1 & Hi1 & _).
  unfold app_bind at 1. unfold pending_attempt. destruct (find_pending_attempt_id o1 _) as [aid0|].
  { pose proof (spec_save_again o1 (fun _ _ => False) u2 w2 Hg2 Hh1) as Hag. unfold app_ret at 1, app_bind at 1.
    destruct (save_operation o1 u2 w2) as [[[[]|e] u3] w3]; [|done]. by destruct Hag as (_ & _ & _ & _ & []). }
  unfold app_bind at 1, app_port. destruct (generate_message_id w2) as [mid w3]. unfold app_bind at 1, app_method.
  destruct (Op.record_dispatch_attempt _ _ o1 w3) as [[[[]|e] o2] w4] eqn:Hrec; [|done].
  pose proof (exec_next _ _ _ _ _ _ Hi1 (record_call _ _ _ _ _ _ _ Hrec)) as Hn.
  pose proof (spec_saved_quiet o1 o2 Hn u2 w4 Hg2 Hh1) as Hsave. pose proof (record_pending _ _ _ _ _ _ _ Hrec) as Hpend.
  assert (closes (W := W) (save_operation o2)) as Hclose by (apply closes_bind; intros []; apply closes_commit).
  unfold app_ret at 1, app_bind. specialize (Hclose u2 w4).
  destruct (save_operation o2 u2 w4) as [[[[]|e] u3] w5]; [|done]. intros [= <- <- <- <- <-].
  destruct Hsave as (Hc3 & _ & _ & _ & Hsaved & _). unfold view in Hsaved. rewrite (Hclose _ _ _ eq_refl) in Hsaved.
  destruct (going_next o0 o1 o2 (conj Hid1 Hrun1) Hn) as [Hid2 Hrun2].
  destruct (identity_step _ _ Hid2) as (Hstep & _ & _ & Hten & Hoid). split_and!; try done; congruence.
Qed.

(** A dispatch that crashed before the send is never repeated.  After the
    attempt was committed and before [command_bus.send], the operation is left
    running with a pending attempt.  Every later dispatch re-uses the attempt
    without changing the operation and then saves it, which the revision check
    refuses: it fails with a conflict, sends nothing and changes nothing. *)
Theorem dispatch_crash_not_resent context tenant id s (w : W) o sid aid u1 w1 :
  consistent s ->
  prepare_dispatch context tenant id (begin s) w = (Ok (inr (o, sid, aid)), u1, w1) ->
  has_sent_or_acked_attempt o sid = false ->
  forall context2 w2, exists u2 w3,
    dispatch context2 tenant id (begin (committed u1)) w2
      = (Err (domain_to_signal (ConcurrentModification (sat_sub (Op.revision o) 1) (Op.revision o))), u2, w3)
    /\ committed u2 = committed u1 /\ sent w3 = sent w2.
Proof.
  intros Hc Hprep Hno context2 w2.
  destruct (prepared_state _ _ _ _ _ _ _ _ _ _ Hc Hprep) as (Hc1 & Hsaved & <- & Hten & Hrun & -> & Hpend).
  rewrite dispatch_unfold. unfold op_get. unfold saved in Hsaved. rewrite Hsaved, decide_True by done.
  unfold is_settled. rewrite Hno, andb_false_r, orb_false_r. unfold Op.is_terminal. rewrite Hrun. simpl.
  unfold dispatch_rest, app_bind at 1. unfold start_pending. rewrite Hrun. unfold app_ret at 1, app_bind at 1.
  unfold pending_attempt. rewrite Hpend. unfold app_ret at 1, app_bind at 1, save_operation, app_bind at 1, begin.
  rewrite stmt_open. destruct (op_save_again o (committed u1) (holds_stored o _ Hc1 Hsaved) Hc1) as (cur & Hcur & ->).
  rewrite Hsaved in Hcur. injection Hcur as <-. by eexists _, _.
Qed.
End claims.
