(* ===== verification/SessionSamples.v ===== *)
(** * Sample sessions

    A world in which another node runs calls of its own between the transactions
    of a session, scenarios in it, and the witnesses of the theorems on sessions. *)

From S2P Require Import Prelude RustStr Domain DomainData Operation Lifecycle OperationProps Paging Cluster UnitOfWork.
From S2P Require Import OperationService OperationHistory OperationSessions Reconcile ReconcileProps OutboxRelay.
From S2P Require Import SessionClaims ServiceClaims DispatchClaims.

Open Scope string_scope.
Open Scope list_scope.
Open Scope Z_scope.

Module SessionSample.
#[local] Existing Instance default_date_range.
#[local] Instance display : UuidDisplay := show_uint.
#[local] Instance messages : DbMessages := {| db_message := fun _ => "db"; db_display := fun _ => "db" |}.
#[local] Instance hash : EventHash := fun id => id.

(** The other node: its own clock and identifiers, a bus that takes everything. *)
#[local] Instance quiet_others : Others InMemoryWorld := fun s w => (s, w).
#[local] Instance quiet_bus : CommandBus InMemoryWorld := fun _ w => (Ok tt, w).
#[local] Instance quiet_resolver : DeviceOwnerResolver InMemoryWorld := fun _ _ w => (Ok None, w).
#[local] Instance quiet_publisher : EventPublisher InMemoryWorld := fun _ w => (Ok tt, w).
#[local] Instance quiet_rely : OthersRely InMemoryWorld.
Proof. intros s w Hc. by split. Qed.

Record World := mkWorld {
  mem : InMemoryWorld;
  commands : list Command;
  owner_epoch : Z;
  foreign : list service_call
}.
Definition with_mem {A} (f : InMemoryWorld -> A * InMemoryWorld) (w : World) : A * World :=
  let '(a, m) := f (mem w) in (a, mkWorld m (commands w) (owner_epoch w) (foreign w)).

#[local] Instance clock : Clock World := with_mem now_wall.
#[local] Instance ids : IdGenerator World := {|
  generate_operation_id := with_mem generate_operation_id;
  generate_message_id := with_mem generate_message_id
|}.
#[local] Instance event_ids : EventIds World := with_mem generate_event_id.
#[local] Instance bus : CommandBus World := fun c w =>
  (Ok tt, mkWorld (mem w) (commands w ++ [c]) (owner_epoch w) (foreign w)).
#[local] Instance resolver : DeviceOwnerResolver World := fun _ _ w => (Ok (Some (mkOwner 1 (owner_epoch w) None)), w).
#[local] Instance publisher : EventPublisher World := fun _ w => (Ok tt, w).

(** The next call of the other node. *)
#[local] Instance other_node : Others World := fun s w =>
  match foreign w with
  | [] => (s, w)
  | c :: cs => let '(s, m) := session c s (mem w) in (s, mkWorld m (commands w) (owner_epoch w) cs)
  end.
#[local] Instance other_rely : OthersRely World.
Proof.
  intros s w Hc. unfold others, other_node. destruct (foreign w) as [|c cs]; [done|].
  pose proof (session_kept c s (mem w) Hc) as Hk. by destruct (session c s (mem w)).
Qed.

#[local] Instance trace : BusTrace World.
Proof.
  unshelve econstructor; [exact commands|..].
  - done.
  - intros w. unfold now_wall, clock, with_mem. by destruct (Domain.now_wall _).
  - intros w. unfold generate_message_id, ids, with_mem. by destruct (Domain.generate_message_id _).
  - intros w. unfold generate_event_id, event_ids, with_mem. by destruct (UnitOfWork.generate_event_id _).
  - intros s w. unfold others, other_node. destruct (foreign w); [done|]. by destruct (session _ _ _).
  - done.
Defined.

Definition db : Db :=
  mkDb {[ (9, 7) ]} ∅ {[ 1 := mkNode 1 11 "" "" ∅ 0 (10 ^ 18) 0 (mkCapacity 0) (mkLoad 0) false ]}.
Definition world : World := mkWorld {| wall_ms := 1000; counter := 1 |} [] 1 [].
Definition context : RequestContext := Sample.context.
Definition request : SubmitOperationRequest :=
  mkSubmit 7 Sample.device (StopMediaSession 5) "key-1" (Some (2000 * NANOS_PER_MILLI)) 1.
Definition late : World := mkWorld {| wall_ms := 3000; counter := 50 |} [] 1 [].

(** After one submission. *)
Definition submitted : Store * World := sessions [CallSubmit context request] (empty_store db) world.
Definition s0 : Store := submitted.1.
Definition w0 : World := submitted.2.
Lemma s0_consistent : consistent s0.
Proof. apply (sessions_kept [CallSubmit context request] (empty_store db) world), consistent_empty. Qed.

Definition statuses (s : Store) : list (Uuid * OperationStatus * Z) :=
  (fun ko => (ko.1, Op.status ko.2, Op.revision ko.2)) <$> map_to_list (operations s).

(** The command is sent and the operation completes. *)
Example completed_scenario :
  let '(s, w) := sessions [CallDispatch context 9 1; CallComplete context 1 Success; CallRelay 10] s0 w0 in
  statuses s = [(1, OsSucceeded, 4)] /\ length (commands w) = 1%nat
  /\ (ob_published <$> (map_to_list (outbox_events s)).*2) = [true; true; true].
Proof. vm_compute. done. Qed.

(** Another node cancels the operation while it is being dispatched, after it was
    started: the dispatch loses and does not send. *)
Example cancelled_scenario :
  let w := mkWorld (mem w0) [] 1 [CallCancel context 77; CallCancel context 1] in
  let '(s, w) := session (CallDispatch context 9 1) s0 w in
  statuses s = [(1, OsCancelled, 2)] /\ commands w = [].
Proof. vm_compute. done. Qed.

Lemma outbox_tells_history_witness :
  let '(s1, w1) := sessions [CallSubmit context request] (empty_store db) world in
  let s2 := (sessions [CallDispatch context 9 1; CallComplete context 1 Success; CallRelay 10] s1 w1).1 in
  consistent s1 /\ consistent s2 /\ advances s1 s2.
Proof.
  pose proof (outbox_tells_history [CallSubmit context request]
    [CallDispatch context 9 1; CallComplete context 1 Success; CallRelay 10] db world) as Htold.
  destruct (sessions [CallSubmit context request] (empty_store db) world) as [s1 w1]. exact Htold.
Defined.

Lemma reconcile_finds_overdue_witness :
  let s1 := match reconcile 5 (reconciler_new 10 100) context (begin s0) late with
            | (Ok _, u, _) => view u
            | (Err _, u, _) => committed u
            end in
  statuses s1 = [(1, OsTimedOut, 1)]
  /\ let tenant := rc_tenant_id context in
     let now := (now_wall late).1 in
     match reconcile 5 (reconciler_new 10 100) context (begin s0) late with
     | (Ok x, u1, _) => exists rep s1 ids, x = Some rep /\ u1 = in_tx s0 s1 false /\ consistent s1
         /\ timed_out_only tenant now ids s0 s1 /\ rp_timed_out rep = Z.of_nat (size ids)
         /\ rp_timed_out rep <= Z.max 0 (or_max_timeouts_per_run (reconciler_new 10 100))
         /\ (rp_timed_out rep < or_max_timeouts_per_run (reconciler_new 10 100) ->
             forall id o, operations s1 !! id = Some o -> ~ overdue tenant now o)
     | (Err _, u1, _) => committed u1 = s0
     end.
Proof.
  split; [vm_compute; done|].
  assert (2 * S (size (operations s0)) < 5)%nat as Hfuel by (apply Nat.ltb_lt; vm_compute; done).
  pose proof (reconcile_finds_overdue 5 (reconciler_new 10 100) context s0 late s0_consistent Hfuel) as Hfound.
  simpl. destruct (reconcile 5 (reconciler_new 10 100) context (begin s0) late) as [[r u1] w1]. exact Hfound.
Defined.

Definition svc : TakeoverService := mkTakeover 1 1000.
Definition later : UtcTimestamp := 4000 * NANOS_PER_MILLI.
Lemma takeover_fences_witness :
  match take_ownership 3 svc context 9 7 (3000 * NANOS_PER_MILLI) later (begin s0) late with
  | (Ok (Some (Acquired owner n)), u, _) => oi_epoch owner = 1 /\ n = 0
  | _ => False
  end
  /\ match take_ownership 3 svc context 9 7 (3000 * NANOS_PER_MILLI) later (begin s0) late with
     | (Ok (Some (Acquired owner n)), u1, _) =>
         consistent (committed u1) /\ tx u1 = None
         /\ owner_get (cluster (committed u1)) 9 7 = Some owner
         /\ oi_node_id owner = tk_this_node svc /\ oi_lease_until owner = Some later
         /\ (forall id o, operations s0 !! id = Some o -> exists o1, operations (committed u1) !! id = Some o1
               /\ if decide (stale 9 7 (oi_epoch owner) o) then lost o o1 else o1 = o)
         /\ dom (operations (committed u1)) = dom (operations s0)
         /\ n = Z.of_nat (size (all_stale 9 7 (oi_epoch owner) s0))
         /\ exists k e, outbox_events (committed u1) !! k = Some e
              /\ ev_payload (ob_event e) = owner_changed_event 9 7 owner (owner_get (cluster s0) 9 7)
     | (Ok (Some (RemoteOwner _)), u1, _) => rolled_back u1 = true
     | (Ok _, _, _) => False
     | (Err _, u1, _) => committed u1 = s0 \/ rolled_back u1 = true
     end.
Proof.
  split; [vm_compute; done|].
  assert (size (operations s0) < 3)%nat as Hfuel by (apply Nat.ltb_lt; vm_compute; done).
  pose proof (takeover_fences 9 7 3 svc context s0 (3000 * NANOS_PER_MILLI) later late s0_consistent Hfuel) as Hfenced.
  destruct (take_ownership 3 svc context 9 7 (3000 * NANOS_PER_MILLI) later (begin s0) late) as [[r u1] w1]. exact Hfenced.
Defined.

(** A second takeover, after the lease of the first has ended, fails the operation
    that was bound to the first epoch. *)
Example second_takeover_scenario :
  match take_ownership 3 svc context 9 7 (3000 * NANOS_PER_MILLI) later (begin s0) late with
  | (Ok _, u, w) =>
      match take_ownership 3 svc context 9 7 (5000 * NANOS_PER_MILLI) (6000 * NANOS_PER_MILLI) (begin (committed u)) w with
      | (Ok (Some (Acquired owner n)), u1, _) =>
          oi_epoch owner = 2 /\ n = 1 /\ statuses (committed u1) = [(1, OsFailed, 1)]
      | _ => False
      end
  | _ => False
  end.
Proof. vm_compute. done. Qed.

(** A submission with the same key for another target gets the first operation. *)
Definition other_target : ResourceRef :=
  {| rr_tenant_id := 9; rr_kind := RkDevice; rr_id := {| ri_kind := RkDevice; ri_uuid := 8 |} |}.
Definition other_request : SubmitOperationRequest :=
  mkSubmit 8 other_target (StopMediaSession 6) "key-1" None 1.

Example other_target_scenario :
  match submit_operation context other_request (begin s0) w0 with
  | (Ok dto, _, _) => dto_operation_id dto = 1 /\ dto_target dto = Sample.device /\ dto_device_id dto = 7
  | _ => False
  end.
Proof. vm_compute. done. Qed.

Definition first_submission := submit_operation context request (begin (empty_store db)) world.
Lemma submit_once_witness :
  exists dto u1 w1, first_submission = (Ok dto, u1, w1)
  /\ exists o, dto = to_dto o /\ saved o (committed u1)
    /\ (saved o (empty_store db) \/ (operations (empty_store db) !! Op.operation_id o = None
          /\ dto_status dto = OsPending /\ dto_target dto = sr_target request))
    /\ forall s2 context2 request2 w2,
         consistent s2 -> advances (committed u1) s2 ->
         rc_tenant_id context2 = rc_tenant_id context -> pr_id (rc_principal context2) = pr_id (rc_principal context) ->
         sr_target request2 = sr_target request -> sr_idempotency_key request2 = sr_idempotency_key request ->
         exists o2, operations s2 !! Op.operation_id o = Some o2
           /\ submit_operation context2 request2 (begin s2) w2 = (Ok (to_dto o2), begin s2, w2).
Proof.
  destruct first_submission as [[[dto|e] u1] w1] eqn:Hrun; [|exfalso; by vm_compute in Hrun].
  exists dto, u1, w1. split; [done|]. exact (submit_once context request (empty_store db) world dto u1 w1 (consistent_empty db) Hrun).
Defined.

Lemma dispatch_sends_once_witness :
  length (sent (dispatch context 9 1 (begin s0) w0).2) = 1%nat
  /\ let '(r, u1, w1) := dispatch context 9 1 (begin s0) w0 in
     (sent w1 = sent w0
      \/ exists o, operations s0 !! (1 : Uuid) = Some o /\ ~ settled o /\ sent w1 = sent w0 ++ [Op.command o])
     /\ match r with
        | Ok dto => exists o1, dto = to_dto o1 /\ operations (committed u1) !! (1 : Uuid) = Some o1 /\ settled o1
            /\ forall context2 w2, dispatch context2 9 1 (begin (committed u1)) w2 = (Ok dto, begin (committed u1), w2)
        | Err _ => True
        end.
Proof.
  split; [vm_compute; done|]. pose proof (dispatch_sends_once context 9 1 s0 w0 s0_consistent) as Honce.
  destruct (dispatch context 9 1 (begin s0) w0) as [[r u1] w1]. exact Honce.
Defined.

Definition crashed := prepare_dispatch context 9 1 (begin s0) w0.
Lemma dispatch_crash_not_resent_witness :
  exists o sid aid u1 w1, crashed = (Ok (inr (o, sid, aid)), u1, w1)
  /\ forall context2 w2, exists u2 w3,
    dispatch context2 9 1 (begin (committed u1)) w2
      = (Err (domain_to_signal (ConcurrentModification (sat_sub (Op.revision o) 1) (Op.revision o))), u2, w3)
    /\ committed u2 = committed u1 /\ sent w3 = sent w2.
Proof.
  destruct crashed as [[[[dto|[[o sid] aid]]|e] u1] w1] eqn:Hrun;
    [exfalso; by vm_compute in Hrun| |exfalso; by vm_compute in Hrun].
  exists o, sid, aid, u1, w1. split; [done|].
  apply (dispatch_crash_not_resent context 9 1 s0 w0 o sid aid u1 w1 s0_consistent Hrun).
  vm_compute in Hrun. injection Hrun as <- <- <- _ _. by vm_compute.
Defined.
End SessionSample.
